(* ===== verification/_CoqProject ===== *)
-Q . S2P
Prelude.v
Avl.v
AvlRep.v
AvlSpec.v
AvlRefine.v
AvlDelete.v
AvlTheorems.v
AvlLaws.v
Xid.v
SegmentMeta.v
SegmentMetaProps.v
MergePolicy.v
MergePolicyProps.v
Pages.v
FsmV2.v
FsmV2Props.v
FsmV2Tree.v
FsmV2Inv.v
FsmV2Drain.v
FsmV2Class.v
FsmV2Laws.v
FsmV1.v
FsmV1Props.v
FsmV1Laws.v
VacuumList.v
VacuumListProps.v
BlockList.v
BlockListProps.v
LinkedBytes.v
LinkedBytesProps.v
LinkedItems.v
LinkedItemsProps.v
Storage.v
ItemOwners.v
MergeList.v
MergeListProps.v
MergeDriver.v
GarbageProps.v
MergeDriverProps.v
Metas.v
MetasProps.v
MetasOwners.v
Directory.v
DirectoryProps.v
Commits.v
Readers.v
BgMerger.v
MetaPage.v
MetaPageProps.v
ParallelScan.v
ParallelScanMem.v
ParallelScanProps.v
ParallelClaims.v
ParallelAggregates.v
Query.v
Scorers.v
ScorersProps.v
QuerySem.v
Qual.v
QualProps.v
Clauses.v
Terms.v
RangeField.v
RangeOrder.v
RangeSem.v
RangeQueries.v
Comparisons.v
Proximity.v
ProximityQueries.v
SearchReader.v
SearchReaderProps.v
TopN.v
TopNScan.v
Tokenizers.v
TokenizersProps.v
Values.v
ValuesProps.v
Writes.v
WritesProps.v
WritesVacuum.v
