(* ===== verification/Prelude.v ===== *)
(** * A verification library for pg_search

    [pg_search] (src/pg_search) is a PostgreSQL extension that keeps a tantivy search index
    inside the blocks of a PostgreSQL relation.  This library models its storage engine (the
    data structures and the rules by which segments are merged and space is reused), the
    directory through which tantivy commits and reads segments, the shared state of a
    parallel scan, the conversion of a WHERE clause and of range and proximity searches into
    search queries together with what these find, the scan that returns the first rows of an
    order, the tokenizers, the conversion of rows into documents, and inserting, vacuuming and
    merging rows; and proves them correct.

    ** The program and the files that model it

    Everything below lives in src/pg_search/src/postgres/storage unless a path is given.

    - [Prelude]: machine integers with their wrap-around, the outcome of a call (value,
      error, panic), the state monad in which stateful code is written, ordered keys.
    - [Avl] ([avl.rs]): the AVL map kept in an array on one page, with a tag per slot that
      follows the entry.  [AvlRep] relates arena and tree, [AvlSpec] is the abstract ordered
      map, [AvlRefine] and [AvlDelete] prove the recursive routines, [AvlTheorems] states one
      refinement lemma per operation and treats changes of a slot in place, and [AvlLaws] has
      the properties.
    - [Xid] ([postgres/utils.rs]): the wrap-around comparison of transaction ids and the
      packing of heap pointers.
    - [SegmentMeta], [SegmentMetaProps] ([block.rs]): the entry of a segment, immutable or
      mutable; serialization, life cycle, the log of a mutable segment, the blocks to free.
      The log is accessed through the class [ItemList].
    - [MergePolicy], [MergePolicyProps] ([index/merge_policy.rs]): which segments are merged,
      with the policy's [f64] arithmetic.
    - [Pages] ([buffer.rs], the trait of [fsm.rs]): a relation as a map from blocks to pages
      beside a free space manager, which is the class [FreeSpaceManager] with what it
      promises; the invariant [rel_ok]: every block but the first is exactly one of a page of
      the client, a block of the manager, or [elsewhere]; the predicate [runs], in which the
      theorems about page code are stated; and the generic lemmas on pages linked through
      [next_blockno].
    - [FsmV2] ([fsm.rs], v2): the free space manager on the AVL map.  [FsmV2Props] treats its
      leaf pages, [FsmV2Tree] its root page, [FsmV2Inv] its invariant and extension,
      [FsmV2Drain] draining, [FsmV2Class] makes it an instance of [FreeSpaceManager], and
      [FsmV2Laws] has the properties.
    - [FsmV1], [FsmV1Props], [FsmV1Laws] ([fsm.rs], v1 and [convert_v1_to_v2]): the first
      manager, also an instance of [FreeSpaceManager], and its conversion.
    - [VacuumList], [VacuumListProps] ([merge.rs]): the ids of the segments a vacuum is
      working on.
    - [BlockList], [BlockListProps] ([blocklist.rs]): the packed list of a file's blocks.  The
      bit packing crate is the parameter [packer] with the laws [packer_ok].
    - [LinkedBytes], [LinkedBytesProps] ([linked_bytes.rs]): files.
    - [LinkedItems], [LinkedItemsProps] ([linked_items.rs]): lists of items.  Serialization of
      the items is the class [ItemCodec], PostgreSQL's test whether an item fits on a page is
      the class [ItemSpace].
    - [Storage]: files and item lists together over the manager on the AVL map.
    - [ItemOwners]: lists whose items own blocks, the common part of the next three.
    - [MergeList], [MergeListProps] ([merge.rs]): the merges that are running.
    - [MergeDriver] ([postgres/merge.rs]): layer sizes, [do_merge], [merge_index] and
      [garbage_collect_index] on their pages, with [GarbageProps] and [MergeDriverProps].
      tantivy's merge of segments is a parameter; [Writes] has what merges do to the rows.
    - [BgMerger] ([metadata.rs], [postgres/merge.rs]): the state of the background merger and
      the processes that use it, as a step relation with failures and resets.
    - [MetaPage], [MetaPageProps] ([metadata.rs]): creating and opening an index.
    - [Metas], [MetasProps], [MetasOwners] ([index/directory/utils.rs]): loading and saving
      the list of segments; which entries a snapshot sees, and which blocks they own.
    - [Directory], [DirectoryProps] ([index/directory/mvcc.rs],
      [segment_component.rs]): writing, opening and listing the files of segments.  [Commits]
      follows a segment from its writer to its readers, [Readers] the readers of segments
      that are merged away.
    - [ParallelScan] ([postgres/mod.rs], [postgres/parallel.rs]): the state parallel workers
      share, laid out in one block of memory.  [ParallelScanMem] is that memory,
      [ParallelScanProps] the operations on it; [ParallelClaims] and [ParallelAggregates]
      interleave the workers.
    - [Query] ([query/mod.rs], [customscan/solve_expr.rs]): search queries, solving the
      expressions in them and translating them to tantivy's; [Scorers], [ScorersProps]
      ([query/score.rs], [query/heap_field_filter.rs]): the filters on scores and heap rows
      as cursors over documents; [QuerySem]: which rows a query finds, and with which score,
      a small index to try them on, and solving.  tantivy's own
      queries are the class of postings an index is given by.
    - [Qual], [QualProps] ([customscan/qual_inspect.rs]): conditions of a WHERE clause, their
      optimization and conversion to a query; [Clauses] has the properties.
    - [Terms] ([query/mod.rs], [query/pdb_query.rs], [api/builder_fns]): values, terms, the
      canonical form of bounds, and the queries that replace the comparisons of a WHERE
      clause; [Comparisons] says what these find in an integer column.
    - [RangeField] ([schema/range.rs], [postgres/range.rs], [query/range.rs],
      [query/pdb_query.rs]): ranges in the index and searches for ranges.  [RangeOrder] has
      ranges as sets of points, [RangeSem] the class of what tantivy does with terms, the
      class of element types and a small index to try them on, [RangeQueries] the searches
      for any element type and the properties for integers and for dates and timestamps.
    - [Proximity] ([query/proximity]): clauses of terms within a distance, the matches of
      their positions and the postings that carry them; [ProximityQueries] has distances,
      left-to-right matching and what a proximity query finds.
    - [SearchReader], [SearchReaderProps] ([index/reader/index.rs],
      [index/reader/scorer.rs]): the searches of a reader, over all segments or some of them,
      sorted or not, with the merge of sorted segments.  Collectors and columns of tantivy are
      parameters.
    - [TopN], [TopNScan] ([customscan/pdbscan/exec_methods/top_n.rs]): the
      execution of ORDER BY with LIMIT, which asks for more results when rows turn out to be
      invisible.
    - [Tokenizers], [TokenizersProps] (src/tokenizers): the code tokenizer, the Chinese
      compatible tokenizer, the Unicode words tokenizer and the filter by length.
    - [Values], [ValuesProps] ([schema/mod.rs], [postgres/types.rs], [postgres/datetime.rs],
      [postgres/utils.rs]): the field of a column and the values of rows, in both directions.
    - [Writes] ([postgres/insert.rs], [postgres/delete.rs], [postgres/vacuum.rs],
      [postgres/merge.rs], [index/writer/index.rs]): statements that insert rows, vacuums, and
      the merges that these and the background worker run, over the list of segments as
      [LinkedItems] implements it and commits as [MetasProps] proves them.  The logs of
      mutable segments are the class [LogStore], tantivy's files, its writing and its
      merging of documents the classes [Tantivy] and [TantivyFiles]; what a backend that
      merges finds in the heap and which locks it gets is the record [Backend].
      [WritesProps] has the invariant, merging and inserting, [WritesVacuum] vacuuming and
      histories.

    ** How the code is translated

    A struct is a record, an enum an inductive type, a method that changes its receiver a
    computation of the monad [M]; [unwrap], [assert!], [panic!] and an index out of range are
    the outcome [Panic]; an error value is [Err], or [None] where the only error is that
    something was not found.  A loop is a fixpoint with fuel.  The fuel is computed from the
    state, and the theorems say that the code returns, so that fuel is always enough: the
    number of arena slots for tree walks, the number of pages of the relation for walks along
    a chain, twice the number of bytes for the writer, and for the free space managers the
    number of their pages, of the transactions in the tree and of the blocks that are given
    to them or asked for.  A query is visited with its depth as fuel, a cursor advanced with
    the number of documents, the positions of a proximity clause with the number of
    positions left, a tokenizer with the number of characters left; the inner loops of the
    ORDER BY scan query at most once more, so that they have two rounds, and its outer loop
    has the number of documents.  A relation that has reached 2^30
    blocks (8 TB) may refuse to grow; [runs] allows a computation to stop there and nowhere
    else.

    Code runs here without interference from other backends, under the locks the source
    holds; the exceptions are the background merger, [atomically], the merges of C39, the
    readers of C29 and the parallel scan, where interleavings are modelled; an operation on
    the state of a parallel scan is one step, since it holds a spin lock throughout.
    Statements, vacuums and background merges (C22) are whole steps, one after the other.  Lock and pin calls
    themselves, WAL and tantivy are not modelled.

    ** What the theorems show

    - C1-C2: the AVL map refines an ordered map, stays balanced and never loses a tag.
    - C3-C5: a WHERE clause finds the rows for which it is true in SQL's logic of three
      values, if its search operators and comparisons do and nothing that is NULL is negated;
      its optimization finds the same; and comparisons of the score in a conjunction keep the
      documents they should with their scores.  [Clauses.or_drops_scored],
      [Clauses.score_unequal_finds_nothing] and [Clauses.nested_and_drops] show clauses that
      find other rows, [Clauses.negated_unknown_found] what the negation of a NULL finds, and
      [Clauses.optimize_copies_scored] scores that the optimization changes.
    - C6, C10, C14, C16: the memory asked for a parallel scan suffices, what the leader
      writes is read back, each segment is claimed once, and each aggregate is merged once.
    - C7, C15: the searches on range fields find the ranges that have the relation asked for.
    - C11, C20: the queries of comparisons with a value or an array find the rows for which
      these are true in SQL, except with the greatest [bigint] (C20) and with all elements of
      an empty array ([Comparisons.all_of_empty_array]).
    - C8: solving the expressions of a query terminates and leaves none.
    - C9: segment entries: snapshots of mutable segments.
    - C12, C24, C29: what a commit writes is read back (but for the document store, which is
      discarded), becomes visible to later snapshots, and stays readable as long as a reader
      needs it.
    - C13: merge candidates are sound.
    - C17-C19: files: block list and data round trips, random access through the cache, exact
      return of space, but for the data page of an empty file;
      [LinkedBytesProps.unfinished_file_leaks] is the leak of a file that
      was never finished, [VacuumListProps] treats the vacuum list.
    - C21, C23: item lists: refinement and atomic changes ([LinkedItemsProps] also has the
      conservation of blocks).
    - C22: inserting, vacuuming and merging leave in the index exactly the rows that were
      inserted and not deleted, while the option [mutable_segment_rows] stays as it is and
      every row can be converted.  [WritesVacuum.rows_lost_in_merged_segment] and
      [WritesVacuum.mutable_deletes_uncounted] show two flaws.
    - C25: a proximity query finds the documents in which its clauses occur within their
      distances.
    - C26-C27: at most one background merger, and one more for each call of
      [reset_bgworker_state]; a death while it starts blocks it until that call.
    - C28: ORDER BY with LIMIT returns the first visible rows of the order, each once; window
      aggregates of a parallel scan, which may wait for ever, are left out.
    - C30-C33: the manager on the AVL map: every block is always exactly once with it or with
      a client; blocks are handed out for past transactions only, recorded for no earlier
      transaction than asked for, and come back once each.
    - C34: a non-empty file and a list share a relation and its manager without disturbing each other.
    - C35, C37: the first manager keeps the same promises; the free blocks its conversion
      loses.
    - C36: two tokenizers produce the words of a declarative definition and lose only
      delimiters.
    - C38: garbage collection frees the segments that are marked as deleted and not pinned, and
      nothing else.
    - C39: no segment is in two running merges.
    - C40: which rows become a document, and that its values have the types of its fields.

    Beside these, [MergeListProps] shows that the merge list tracks the running merges,
    [MetaPageProps] that opening completes an index of any age, [FsmV1Laws] what a conversion
    moves, and [MergeDriverProps] that layer sizes follow the target segment count.

    ** Not modelled

    The planner's paths and executor hooks, building an index from its table, the SQL
    functions, the parsing of index options ([postgres/options.rs]) and of query strings, and the serialization of queries translate
    between PostgreSQL's structures and tantivy's and keep no state of their own; the ICU
    and Lindera tokenizers call libraries, and the tokenizer manager builds tantivy's;
    tantivy's own queries, writers, collectors and merges are a library's, and aggregates are
    computed by it; locks, pins and WAL are PostgreSQL's. *)

From stdpp Require Import base gmap list strings sorting.
From Stdlib Require Import ZArith Lia.

#[global] Set Default Goal Selector "!".

(** ** Machine integers

    Rust's fixed-width unsigned integers are elements of [Z]; an operation that the
    source performs at a width is followed by the matching [wrap].  Release builds of
    the extension wrap silently on overflow, which is what [wrap] does. *)

Definition wrap (w : Z) (z : Z) : Z := (z mod 2 ^ w)%Z.

Abbreviation u8 := (wrap 8).
Abbreviation u16 := (wrap 16).
Abbreviation u32 := (wrap 32).
Abbreviation u64 := (wrap 64).

(** Reinterpreting a [u32] bit pattern as an [i32]. *)
Definition i32 (z : Z) : Z := let r := u32 z in if (r <? 2 ^ 31)%Z then r else (r - 2 ^ 32)%Z.

(** [pg_sys::InvalidBlockNumber], [pg_sys::InvalidTransactionId] and the other special
    transaction ids of PostgreSQL. *)
Definition InvalidBlockNumber : Z := 4294967295.
Definition InvalidTransactionId : Z := 0.
Definition FrozenTransactionId : Z := 2.
Definition FirstNormalTransactionId : Z := 3.

(** ** Outcomes and the state monad

    A call returns, returns an error value, panics, or (for a fuelled recursion only)
    runs out of fuel.  The state is kept on every outcome, because the source mutates
    its arguments in place before it returns an [Err]. *)

Inductive outcome (E A : Type) : Type :=
| Ok (a : A)
| Err (e : E)
| Panic
| OutOfFuel.

Arguments Ok {E A} a.
Arguments Err {E A} e.
Arguments Panic {E A}.
Arguments OutOfFuel {E A}.

Definition M (S E A : Type) : Type := S -> outcome E A * S.

#[global] Instance M_ret {S E} : MRet (M S E) := fun A a s => (Ok a, s).

#[global] Instance M_bind {S E} : MBind (M S E) := fun A B f m s =>
  match m s with
  | (Ok a, s') => f a s'
  | (Err e, s') => (Err e, s')
  | (Panic, s') => (Panic, s')
  | (OutOfFuel, s') => (OutOfFuel, s')
  end.

Definition throw {S E A} (e : E) : M S E A := fun s => (Err e, s).
Definition panic {S E A} : M S E A := fun s => (Panic, s).
Definition out_of_fuel {S E A} : M S E A := fun s => (OutOfFuel, s).
Definition gets {S E A} (f : S -> A) : M S E A := fun s => (Ok (f s), s).
Definition modify {S E} (f : S -> S) : M S E unit := fun s => (Ok tt, f s).

(** [o.unwrap()] *)
Definition unwrap {S E A} (o : option A) : M S E A :=
  match o with Some a => mret a | None => panic end.

(** [o.ok_or(e)?] *)
Definition ok_or {S E A} (o : option A) (e : E) : M S E A :=
  match o with Some a => mret a | None => throw e end.

Section monad_laws.
Context {S E : Type}.

Lemma bind_ok {A B} (m : M S E A) (f : A -> M S E B) s a s' :
  m s = (Ok a, s') -> (m ≫= f) s = f a s'.
Proof. intros Hm. unfold mbind, M_bind. by rewrite Hm. Qed.

Lemma bind_err {A B} (m : M S E A) (f : A -> M S E B) s e s' :
  m s = (Err e, s') -> (m ≫= f) s = (Err e, s').
Proof. intros Hm. unfold mbind, M_bind. by rewrite Hm. Qed.

Lemma bind_ret {A B} (a : A) (f : A -> M S E B) s : (mret a ≫= f) s = f a s.
Proof. done. Qed.

Lemma bind_gets {A B} (g : S -> A) (f : A -> M S E B) s : (gets g ≫= f) s = f (g s) s.
Proof. done. Qed.

Lemma bind_modify {B} (g : S -> S) (f : unit -> M S E B) s : (modify g ≫= f) s = f tt (g s).
Proof. done. Qed.

Lemma bind_assoc {A B C} (m : M S E A) (f : A -> M S E B) (g : B -> M S E C) s :
  ((m ≫= f) ≫= g) s = (m ≫= (fun a => f a ≫= g)) s.
Proof. unfold mbind, M_bind. by destruct (m s) as [[] ?]. Qed.

End monad_laws.

(** [mwp stop c s Q]: from [s], [c] returns with [Q], or it panics in a state in which it may
    [stop].  It returns no error and does not run out of fuel. *)

Definition mwp {S E A} (stop : S -> Prop) (c : M S E A) (s : S) (Q : A -> S -> Prop) : Prop :=
  match c s with
  | (Ok a, s') => Q a s'
  | (Panic, s') => stop s'
  | _ => False
  end.

Section mwp.
Context {S E : Type} (stop : S -> Prop).

Lemma mwp_ret {A} (a : A) s (Q : A -> S -> Prop) : Q a s -> mwp stop (mret (M := M S E) a) s Q.
Proof. done. Qed.

Lemma mwp_gets {A} (f : S -> A) s (Q : A -> S -> Prop) : Q (f s) s -> mwp stop (gets (E := E) f) s Q.
Proof. done. Qed.

Lemma mwp_modify (f : S -> S) s (Q : unit -> S -> Prop) : Q tt (f s) -> mwp stop (modify (E := E) f) s Q.
Proof. done. Qed.

Lemma mwp_mono {A} (c : M S E A) s (Q Q' : A -> S -> Prop) :
  mwp stop c s Q -> (forall a s', Q a s' -> Q' a s') -> mwp stop c s Q'.
Proof. unfold mwp. destruct (c s) as [[] ?]; auto. Qed.

Lemma mwp_eq {A} (c : M S E A) s a s' (Q : A -> S -> Prop) : c s = (Ok a, s') -> Q a s' -> mwp stop c s Q.
Proof. unfold mwp. by intros ->. Qed.

Lemma mwp_ok {A} (c : M S E A) s a s' (Q : A -> S -> Prop) : mwp stop c s Q -> c s = (Ok a, s') -> Q a s'.
Proof. unfold mwp. by intros Hc E'; rewrite E' in Hc. Qed.

Lemma mwp_bind {A B} (c : M S E A) (f : A -> M S E B) s (Q : B -> S -> Prop) :
  mwp stop c s (fun a s' => mwp stop (f a) s' Q) -> mwp stop (c ≫= f) s Q.
Proof. unfold mwp, mbind, M_bind. by destruct (c s) as [[] ?]. Qed.

End mwp.

(** ** Ordered keys

    Rust's [Ord]: a total comparison whose [Equal] is equality. *)

Class Ord (K : Type) := {
  cmp : K -> K -> comparison;
  cmp_eq : forall a b, cmp a b = Eq <-> a = b;
  cmp_antisym : forall a b, cmp b a = CompOpp (cmp a b);
  cmp_lt_trans : forall a b c, cmp a b = Lt -> cmp b c = Lt -> cmp a c = Lt;
}.

(** [core::mem::zeroed()] *)
Class Zeroed (A : Type) := zeroed : A.

Definition klt {K} `{Ord K} (a b : K) : Prop := cmp a b = Lt.

#[global] Program Instance Z_Ord : Ord Z := {| cmp := Z.compare |}.
Next Obligation. apply Z.compare_eq_iff. Qed.
Next Obligation. apply Z.compare_antisym. Qed.
Next Obligation. intros a b c. rewrite !Z.compare_lt_iff. lia. Qed.

#[global] Instance Z_Zeroed : Zeroed Z := 0%Z.
#[global] Instance unit_Zeroed : Zeroed unit := tt.

Section ord.
Context {K : Type} `{Ord K}.

Lemma cmp_refl a : cmp a a = Eq.
Proof. by apply cmp_eq. Qed.

Lemma cmp_gt a b : cmp a b = Gt <-> klt b a.
Proof. unfold klt. rewrite (cmp_antisym a b). destruct (cmp a b); simpl; split; congruence. Qed.

Lemma klt_irrefl a : ~ klt a a.
Proof. unfold klt. by rewrite cmp_refl. Qed.

Lemma klt_trans a b c : klt a b -> klt b c -> klt a c.
Proof. apply cmp_lt_trans. Qed.

Lemma klt_cmp_gt a b : klt a b -> cmp b a = Gt.
Proof. unfold klt. rewrite (cmp_antisym a b). by intros ->. Qed.

End ord.

(** ** Shared automation *)

Create HintDb pdb discriminated.
#[export] Hint Resolve klt_trans klt_cmp_gt cmp_refl : pdb.
#[export] Hint Extern 1 (_ <> _) => congruence : pdb.

(** One step of a monadic computation whose first action is known to succeed. *)
Ltac mstep := first
  [ rewrite bind_ret | rewrite bind_gets | rewrite bind_modify
  | rewrite bind_assoc
  | match goal with
    | H : ?m ?s = (Ok _, _) |- context [(?m ≫= _) ?s] => rewrite (bind_ok _ _ _ _ _ H)
    end ]; cbn beta iota.
Ltac msteps := repeat mstep.


(** ** Generic lemmas *)

Lemma wrap_small w z : (0 <= z < 2 ^ w)%Z -> wrap w z = z.
Proof. intros. unfold wrap. by apply Z.mod_small. Qed.

Lemma wrap_range w z : (0 <= w)%Z -> (0 <= wrap w z < 2 ^ w)%Z.
Proof. intros. unfold wrap. apply Z.mod_pos_bound. lia. Qed.

Lemma StronglySorted_le_lt (l : list Z) :
  StronglySorted Z.le l -> NoDup l -> StronglySorted Z.lt l.
Proof.
  induction 1 as [|x l Hs IH Hall]; intros Hnd; [constructor|].
  apply NoDup_cons in Hnd as [Hx Hnd]. constructor; [auto|].
  rewrite Forall_forall in Hall |- *. intros y Hy. specialize (Hall y Hy).
  assert (x <> y) by (by intros ->). lia.
Qed.

Lemma filter_none {A} (P : A -> Prop) `{forall x, Decision (P x)} (l : list A) : (forall x, x ∈ l -> ~ P x) -> filter P l = [].
Proof.
  induction l as [|x l IH]; intros Hx; [done|]. rewrite filter_cons, decide_False by (apply Hx; left). apply IH. intros y Hy. apply Hx. by right.
Qed.

Lemma filter_every {A} (P : A -> Prop) `{forall x, Decision (P x)} (l : list A) : (forall x, x ∈ l -> P x) -> filter P l = l.
Proof.
  induction l as [|x l IH]; intros Hx; [done|]. rewrite filter_cons, decide_True by (apply Hx; left). f_equal. apply IH. intros y Hy. apply Hx. by right.
Qed.

Lemma concat_bind {A B} (f : A -> list B) l : concat (f <$> l) = l ≫= f.
Proof. induction l as [|x l IH]; [done|]. rewrite bind_cons, <- IH. done. Qed.
