(* ===== verification/Avl.v ===== *)
(** * The array-backed AVL map of [postgres/storage/avl.rs]

    The tree lives in a fixed arena of slots: child pointers are 16-bit slot numbers
    stored as [i + 1] with 0 for "none", the used bit and the height share one byte, and
    the free slots are chained through [left].  The definitions follow the Rust code
    statement by statement in the state monad of the prelude; recursive calls and
    [while] loops take fuel, and the callers pass one more than the number of slots. *)

From stdpp Require Import base list.
From Stdlib Require Import ZArith Lia.
From S2P Require Import Prelude.

Local Open Scope Z_scope.

Module AvlMap.

(** ** Slots *)

Definition ix_some (i : nat) : option Z :=
  let nz := u16 (u16 (Z.of_nat i) + 1) in
  if nz =? 0 then None else Some nz.

Definition ix_to_usize (o : option Z) : option nat :=
  match o with Some nz => Some (Z.to_nat (nz - 1)) | None => None end.

Definition meta_height (meta : Z) : Z := Z.land meta 0x7F.

Definition meta_set_used (meta : Z) (used : bool) : Z :=
  Z.lor (Z.land meta 0x7F) (u8 (Z.shiftl (Z.b2z used) 7)).

Definition meta_is_used (meta : Z) : bool := negb (Z.land meta 0x80 =? 0).

Definition meta_set_height (meta : Z) (h : Z) : Z :=
  Z.lor (Z.land meta 0x80) (Z.land h 0x7F).

Record Slot (K V T : Type) := mkSlot {
  left : option Z;
  right : option Z;
  tag : T;
  key : K;
  val : V;
  meta : Z;
}.
Arguments mkSlot {K V T}.
Arguments left {K V T}.
Arguments right {K V T}.
Arguments tag {K V T}.
Arguments key {K V T}.
Arguments val {K V T}.
Arguments meta {K V T}.

Inductive Error := Full.

#[global] Instance Error_eq_dec : EqDecision Error.
Proof. solve_decision. Defined.

Record AvlTreeMapHeader := mkHeader {
  root : option nat;
  free_head : option nat;
  len : Z;
}.

Definition AvlTreeMapHeader_default : AvlTreeMapHeader :=
  {| root := None; free_head := None; len := 0 |}.

Record AvlTreeMap (K V T : Type) := mkMap {
  header : AvlTreeMapHeader;
  arena : list (Slot K V T);
}.
Arguments mkMap {K V T}.
Arguments header {K V T}.
Arguments arena {K V T}.

Definition MAX_HEIGHT : nat := 128.

Section avl.
Context {K V T : Type} `{Ord K}.

Abbreviation Slot := (Slot K V T).
Abbreviation AvlTreeMap := (AvlTreeMap K V T).
Abbreviation AM := (M AvlTreeMap Error).

Definition is_used (s : Slot) : bool := meta_is_used s.(meta).

Definition set_used (u : bool) (s : Slot) : Slot :=
  mkSlot s.(left) s.(right) s.(tag) s.(key) s.(val) (meta_set_used s.(meta) u).

Definition slot_height (s : Slot) : Z := meta_height s.(meta).

Definition set_height (h : Z) (s : Slot) : Slot :=
  mkSlot s.(left) s.(right) s.(tag) s.(key) s.(val) (meta_set_height s.(meta) h).

Definition l (s : Slot) : option nat := ix_to_usize s.(left).

Definition r (s : Slot) : option nat := ix_to_usize s.(right).

Definition set_l (i : option nat) (s : Slot) : Slot :=
  mkSlot (i ≫= ix_some) s.(right) s.(tag) s.(key) s.(val) s.(meta).

Definition set_r (i : option nat) (s : Slot) : Slot :=
  mkSlot s.(left) (i ≫= ix_some) s.(tag) s.(key) s.(val) s.(meta).

Definition Slot_default `{Zeroed K, Zeroed V, Zeroed T} : Slot :=
  mkSlot None None zeroed zeroed zeroed 0.

(** Field assignments [n.key = ...], [n.val = ...], [n.tag = ...]. *)
Definition put_key (k : K) (s : Slot) : Slot :=
  mkSlot s.(left) s.(right) s.(tag) k s.(val) s.(meta).
Definition put_val (v : V) (s : Slot) : Slot :=
  mkSlot s.(left) s.(right) s.(tag) s.(key) v s.(meta).
Definition put_tag (t : T) (s : Slot) : Slot :=
  mkSlot s.(left) s.(right) t s.(key) s.(val) s.(meta).

(** [self.arena[i]]: reading or writing past the end panics. *)
Definition index (i : nat) : AM Slot := fun m =>
  match m.(arena) !! i with
  | Some s => (Ok s, m)
  | None => (Panic, m)
  end.

Definition update (i : nat) (f : Slot -> Slot) : AM unit := fun m =>
  match m.(arena) !! i with
  | Some s => (Ok tt, mkMap m.(header) (<[i := f s]> m.(arena)))
  | None => (Panic, m)
  end.

Definition set_root (o : option nat) : AM unit :=
  modify (fun m => mkMap (mkHeader o m.(header).(free_head) m.(header).(len)) m.(arena)).
Definition set_free_head (o : option nat) : AM unit :=
  modify (fun m => mkMap (mkHeader m.(header).(root) o m.(header).(len)) m.(arena)).
Definition set_len (n : Z) : AM unit :=
  modify (fun m => mkMap (mkHeader m.(header).(root) m.(header).(free_head) n) m.(arena)).

Definition get_root : AM (option nat) := gets (fun m => m.(header).(root)).
Definition get_free_head : AM (option nat) := gets (fun m => m.(header).(free_head)).
Definition get_len : AM Z := gets (fun m => m.(header).(len)).
Definition capacity : AM nat := gets (fun m => length m.(arena)).
Definition fuel_of : AM nat := gets (fun m => S (length m.(arena))).

(** ** The read-only view *)

Definition is_empty : AM bool := n ← get_len; mret (n =? 0).

Fixpoint get_loop (fuel : nat) (k : K) (cur : option nat) : AM (option (V * T)) :=
  match fuel with
  | O => out_of_fuel
  | S fuel =>
      match cur with
      | None => mret None
      | Some i =>
          n ← index i;
          match cmp k n.(key) with
          | Eq => mret (Some (n.(val), n.(tag)))
          | Lt => get_loop fuel k (l n)
          | Gt => get_loop fuel k (r n)
          end
      end
  end.

Definition get (k : K) : AM (option (V * T)) :=
  fuel ← fuel_of; cur ← get_root; get_loop fuel k cur.

Definition contains (k : K) : AM bool :=
  o ← get k; mret (match o with Some _ => true | None => false end).

Fixpoint get_lte_loop (fuel : nat) (k : K) (cur best : option nat) : AM (option (K * V * T)) :=
  match fuel with
  | O => out_of_fuel
  | S fuel =>
      match cur with
      | None =>
          match best with
          | None => mret None
          | Some i => n ← index i; mret (Some (n.(key), n.(val), n.(tag)))
          end
      | Some i =>
          n ← index i;
          match cmp k n.(key) with
          | Eq => mret (Some (n.(key), n.(val), n.(tag)))
          | Lt => get_lte_loop fuel k (l n) best
          | Gt => get_lte_loop fuel k (r n) (Some i)
          end
      end
  end.

Definition get_lte (k : K) : AM (option (K * V * T)) :=
  fuel ← fuel_of; cur ← get_root; get_lte_loop fuel k cur None.

Definition height (i : option nat) : AM Z :=
  match i with
  | Some ix => s ← index ix; mret (slot_height s)
  | None => mret 0
  end.

Definition balance_factor (i : nat) : AM Z :=
  s ← index i;
  lh ← height (l s);
  s ← index i;
  rh ← height (r s);
  mret (lh - rh).

Fixpoint min_index (fuel : nat) (i : nat) : AM nat :=
  match fuel with
  | O => out_of_fuel
  | S fuel =>
      s ← index i;
      match l s with
      | Some j => min_index fuel j
      | None => mret i
      end
  end.

(** ** Construction *)

Fixpoint new_loop (n : nat) : AM unit :=
  match n with
  | O => mret tt
  | S i =>
      update i (set_used false);;
      update i (set_height 0);;
      update i (set_r None);;
      fh ← get_free_head;
      update i (set_l fh);;
      set_free_head (Some i);;
      new_loop i
  end.

Definition new : AM unit :=
  set_free_head None;;
  n ← capacity;
  new_loop n;;
  set_root None;;
  set_len 0.

(** ** Rebalancing *)

Definition update_height (i : nat) : AM unit :=
  s ← index i;
  lh ← height (l s);
  s ← index i;
  rh ← height (r s);
  update i (set_height (u8 (1 + Z.max lh rh))).

Definition rotate_right (y : nat) : AM nat :=
  sy ← index y;
  x ← unwrap (l sy);
  sx ← index x;
  let t2 := r sx in
  update x (set_r (Some y));;
  update y (set_l t2);;
  update_height y;;
  update_height x;;
  mret x.

Definition rotate_left (x : nat) : AM nat :=
  sx ← index x;
  y ← unwrap (r sx);
  sy ← index y;
  let t2 := l sy in
  update y (set_l (Some x));;
  update x (set_r t2);;
  update_height x;;
  update_height y;;
  mret y.

(** The "left heavy" and "right heavy" branches of [rebalance]. *)
Definition rebalance_left_heavy (i : nat) : AM nat :=
  s ← index i;
  li ← unwrap (l s);
  bl ← balance_factor li;
  (if bl <? 0 then
     nl ← rotate_left li;
     update i (set_l (Some nl))
   else mret tt);;
  rotate_right i.

Definition rebalance_right_heavy (i : nat) : AM nat :=
  s ← index i;
  ri ← unwrap (r s);
  br ← balance_factor ri;
  (if br >? 0 then
     nr ← rotate_right ri;
     update i (set_r (Some nr))
   else mret tt);;
  rotate_left i.

Definition rebalance (i : nat) : AM nat :=
  update_height i;;
  bf ← balance_factor i;
  if bf >? 1 then rebalance_left_heavy i
  else if bf <? -1 then rebalance_right_heavy i
  else mret i.

(** ** Slot allocation *)

Definition alloc_slot (k : K) (v : option V) : AM nat :=
  fh ← get_free_head;
  idx ← ok_or fh Full;
  s ← index idx;
  set_free_head (l s);;
  update idx (put_key k);;
  (match v with Some v => update idx (put_val v) | None => mret tt end);;
  update idx (set_l None);;
  update idx (set_r None);;
  update idx (set_height 1);;
  update idx (set_used true);;
  mret idx.

Definition free_slot (idx : nat) : AM unit :=
  update idx (set_used false);;
  update idx (set_height 0);;
  update idx (set_r None);;
  fh ← get_free_head;
  update idx (set_l fh);;
  set_free_head (Some idx).

(** ** Insertion *)

(** The out-parameters of [insert_rec]. *)
Record InsOut := mkInsOut {
  out_old : option V;
  out_tag : option T;
  inserted_new : bool;
  occupied_at : nat;
}.

Fixpoint insert_rec (fuel : nat) (root : option nat) (k : K) (v : option V) (out : InsOut)
  : AM (option nat * InsOut) :=
  match fuel with
  | O => out_of_fuel
  | S fuel =>
      match root with
      | None =>
          slot ← alloc_slot k v;
          s ← index slot;
          mret (Some slot, mkInsOut out.(out_old) (Some s.(tag)) true slot)
      | Some i =>
          s ← index i;
          match cmp k s.(key) with
          | Eq =>
              let old := s.(val) in
              (match v with Some v => update i (put_val v) | None => mret tt end);;
              s ← index i;
              mret (Some i, mkInsOut (Some old) (Some s.(tag)) out.(inserted_new) i)
          | Lt =>
              res ← insert_rec fuel (l s) k v out;
              update i (set_l res.1);;
              new_i ← rebalance i;
              mret (Some new_i, res.2)
          | Gt =>
              res ← insert_rec fuel (r s) k v out;
              update i (set_r res.1);;
              new_i ← rebalance i;
              mret (Some new_i, res.2)
          end
      end
  end.

Definition insert (k : K) (v : V) : AM (option V * T) :=
  fuel ← fuel_of;
  rt ← get_root;
  res ← insert_rec fuel rt k (Some v) (mkInsOut None None false 0);
  set_root res.1;;
  (if res.2.(inserted_new) then n ← get_len; set_len (u64 (n + 1)) else mret tt);;
  t ← unwrap res.2.(out_tag);
  mret (res.2.(out_old), t).

(** ** Removal *)

(** The out-parameters of [delete_rec]. *)
Record DelOut := mkDelOut {
  removed_val : option V;
  did_remove : bool;
}.

Fixpoint delete_rec (fuel : nat) (root : option nat) (k : K) (out : DelOut)
  : AM (option nat * DelOut) :=
  match fuel with
  | O => out_of_fuel
  | S fuel =>
      match root with
      | None => mret (None, out)
      | Some i =>
          s ← index i;
          match cmp k s.(key) with
          | Lt =>
              res ← delete_rec fuel (l s) k out;
              update i (set_l res.1);;
              new_i ← rebalance i;
              mret (Some new_i, res.2)
          | Gt =>
              res ← delete_rec fuel (r s) k out;
              update i (set_r res.1);;
              new_i ← rebalance i;
              mret (Some new_i, res.2)
          | Eq =>
              let retv := s.(val) in
              match l s, r s with
              | None, None =>
                  free_slot i;;
                  mret (None, mkDelOut (Some retv) true)
              | Some c, None | None, Some c =>
                  free_slot i;;
                  mret (Some c, mkDelOut (Some retv) true)
              | Some _, Some ri =>
                  mfuel ← fuel_of;
                  succ ← min_index mfuel ri;
                  ss ← index succ;
                  update i (put_key ss.(key));;
                  update i (put_val ss.(val));;
                  si ← index i;
                  let temp_tag := si.(tag) in
                  update i (put_tag ss.(tag));;
                  update succ (put_tag temp_tag);;
                  si ← index i;
                  res ← delete_rec fuel (r si) ss.(key) (mkDelOut None false);
                  update i (set_r res.1);;
                  new_i ← rebalance i;
                  mret (Some new_i, mkDelOut (Some retv) true)
              end
          end
      end
  end.

Definition remove (k : K) : AM (option V) :=
  fuel ← fuel_of;
  rt ← get_root;
  res ← delete_rec fuel rt k (mkDelOut None false);
  set_root res.1;;
  (if res.2.(did_remove) then n ← get_len; set_len (u64 (n - 1)) else mret tt);;
  mret res.2.(removed_val).

(** ** Mutable slot access

    The source returns a [&mut Slot]; here the slot number the reference points to. *)

Fixpoint get_slot_mut_loop (fuel : nat) (k : K) (cur : option nat) : AM (option nat) :=
  match fuel with
  | O => out_of_fuel
  | S fuel =>
      match cur with
      | None => mret None
      | Some i =>
          n ← index i;
          match cmp k n.(key) with
          | Eq => mret (Some i)
          | Lt => get_slot_mut_loop fuel k (l n)
          | Gt => get_slot_mut_loop fuel k (r n)
          end
      end
  end.

Definition get_slot_mut (k : K) : AM (option nat) :=
  fuel ← fuel_of; cur ← get_root; get_slot_mut_loop fuel k cur.

Fixpoint get_max_slot_loop (fuel : nat) (cur max : option nat) : AM (option nat) :=
  match fuel with
  | O => out_of_fuel
  | S fuel =>
      match cur with
      | None => mret max
      | Some i => n ← index i; get_max_slot_loop fuel (r n) (Some i)
      end
  end.

Definition get_max_slot : AM (option nat) :=
  fuel ← fuel_of; cur ← get_root; get_max_slot_loop fuel cur None.

(** ** In-order iteration

    [AvlIter] keeps a fixed array of [MAX_HEIGHT] slot numbers and a stack pointer. *)

Record AvlIter := mkIter {
  stack : list nat;
  sp : nat;
  cursor : option nat;
}.

Definition iter : AM AvlIter :=
  rt ← get_root; mret (mkIter (replicate MAX_HEIGHT O) O rt).

Fixpoint push_left_chain (fuel : nat) (it : AvlIter) : AM AvlIter :=
  match fuel with
  | O => out_of_fuel
  | S fuel =>
      match it.(cursor) with
      | None => mret it
      | Some i =>
          if decide (it.(sp) < length it.(stack))%nat then
            n ← index i;
            push_left_chain fuel (mkIter (<[it.(sp) := i]> it.(stack)) (S it.(sp)) (l n))
          else panic
      end
  end.

Definition next (it : AvlIter) : AM (option (K * V) * AvlIter) :=
  fuel ← fuel_of;
  it ← push_left_chain fuel it;
  match it.(sp) with
  | O => mret (None, it)
  | S sp =>
      i ← unwrap (it.(stack) !! sp);
      n ← index i;
      mret (Some (n.(key), n.(val)), mkIter it.(stack) sp (r n))
  end.

(** [iter().collect()] *)
Fixpoint collect (fuel : nat) (it : AvlIter) : AM (list (K * V)) :=
  match fuel with
  | O => out_of_fuel
  | S fuel =>
      res ← next it;
      match res.1 with
      | None => mret []
      | Some kv => rest ← collect fuel res.2; mret (kv :: rest)
      end
  end.

Definition iter_collect : AM (list (K * V)) :=
  fuel ← fuel_of; it ← iter; collect fuel it.

End avl.

End AvlMap.
