(* ===== verification/AvlRep.v ===== *)
(** * Representation of a search tree in the AVL arena

    A ghost [tree] remembers, for every node, the slot it occupies and the entry stored
    there.  [rep] relates the arena to a ghost tree; [frame] says which slots a step may
    change.  The lemmas below give the effect of each arena operation of [Avl] on the
    ghost tree: height updates, rotations and rebalancing. *)

From stdpp Require Import prelude sorting.
From Stdlib Require Import ZArith Lia.
From S2P Require Import Prelude Avl.
Import AvlMap.

Local Open Scope Z_scope.

Record gnode (K V T : Type) := mkG { gi : nat; gk : K; gv : V; gt : T }.
Arguments mkG {K V T}.
Arguments gi {K V T}.
Arguments gk {K V T}.
Arguments gv {K V T}.
Arguments gt {K V T}.

Inductive tree (K V T : Type) : Type :=
| Leaf
| Node (tl : tree K V T) (n : gnode K V T) (tr : tree K V T).
Arguments Leaf {K V T}.
Arguments Node {K V T}.

Section rep.
Context {K V T : Type} `{Ord K}.

Abbreviation Slot := (Slot K V T).
Abbreviation AvlTreeMap := (AvlTreeMap K V T).
Abbreviation gnode := (gnode K V T).
Abbreviation tree := (tree K V T).
Implicit Types (s : Slot) (ar : list Slot) (t : tree) (n : gnode).

Fixpoint theight t : Z :=
  match t with Leaf => 0 | Node tl _ tr => 1 + Z.max (theight tl) (theight tr) end.

Fixpoint elements t : list gnode :=
  match t with Leaf => [] | Node tl n tr => elements tl ++ n :: elements tr end.

Definition indices t : list nat := gi <$> elements t.

Fixpoint balanced t : Prop :=
  match t with
  | Leaf => True
  | Node tl _ tr =>
      balanced tl /\ balanced tr /\ -1 <= theight tl - theight tr <= 1
  end.

(** What a used slot says: its children, its entry and its height. *)
Record slot_is s (lo : option nat) n (ro : option nat) (h : Z) : Prop := {
  si_l : l s = lo;
  si_r : r s = ro;
  si_key : key s = gk n;
  si_val : val s = gv n;
  si_tag : tag s = gt n;
  si_used : is_used s = true;
  si_height : slot_height s = h;
}.

Fixpoint rep ar t (o : option nat) : Prop :=
  match t with
  | Leaf => o = None
  | Node tl n tr =>
      o = Some (gi n) /\
      exists s lo ro, ar !! gi n = Some s /\
        slot_is s lo n ro (theight t) /\ rep ar tl lo /\ rep ar tr ro
  end.

(** [ar'] differs from [ar] at most in the slots [xs], and holds the same tags. *)
Definition frame (xs : list nat) ar ar' : Prop :=
  length ar' = length ar /\
  (forall j, j ∉ xs -> ar' !! j = ar !! j) /\
  tag <$> ar' ≡ₚ tag <$> ar.

Definition small ar : Prop := Z.of_nat (length ar) <= 65535.

(** ** Bits of the meta byte and of the child pointers *)

Lemma meta_height_set_used m b : meta_height (meta_set_used m b) = meta_height m.
Proof.
  unfold meta_height, meta_set_used. rewrite Z.land_lor_distr_l, <- Z.land_assoc.
  destruct b; cbn -[Z.land]; by rewrite Z.lor_0_r.
Qed.

Lemma meta_is_used_set_used m b : meta_is_used (meta_set_used m b) = b.
Proof.
  unfold meta_is_used, meta_set_used. rewrite Z.land_lor_distr_l, <- Z.land_assoc.
  change (Z.land 127 128) with 0. rewrite Z.land_0_r, Z.lor_0_l. by destruct b.
Qed.

Lemma meta_is_used_set_height m h : meta_is_used (meta_set_height m h) = meta_is_used m.
Proof.
  unfold meta_is_used, meta_set_height. rewrite Z.land_lor_distr_l, <- !Z.land_assoc.
  change (Z.land 127 128) with 0. change (Z.land 128 128) with 128.
  by rewrite Z.land_0_r, Z.lor_0_r.
Qed.

Lemma meta_height_set_height m h : 0 <= h < 128 -> meta_height (meta_set_height m h) = h.
Proof.
  intros Hh. unfold meta_height, meta_set_height.
  rewrite Z.land_lor_distr_l, <- !Z.land_assoc.
  change (Z.land 128 127) with 0. change (Z.land 127 127) with (Z.ones 7).
  rewrite Z.land_0_r, Z.lor_0_l, Z.land_ones by lia. by apply Z.mod_small.
Qed.

Lemma ix_some_inv i : Z.of_nat i < 65535 -> ix_to_usize (ix_some i) = Some i.
Proof.
  intros Hi. unfold ix_some. rewrite !wrap_small by (rewrite ?wrap_small; lia).
  destruct (Z.eqb_spec (Z.of_nat i + 1) 0); [lia|]. simpl. f_equal. lia.
Qed.

Lemma ix_bind o : (forall i, o = Some i -> Z.of_nat i < 65535) ->
  ix_to_usize (o ≫= ix_some) = o.
Proof. intros Ho. destruct o as [i|]; [|done]. by apply ix_some_inv, Ho. Qed.

(** ** Updating one slot *)

Section slots.
Variables (s : Slot) (lo ro : option nat) (n : gnode) (h : Z).

Lemma slot_is_set_l o : slot_is s lo n ro h ->
  (forall i, o = Some i -> Z.of_nat i < 65535) -> slot_is (set_l o s) o n ro h.
Proof. intros [] Ho. split; try done. by apply ix_bind. Qed.

Lemma slot_is_set_r o : slot_is s lo n ro h ->
  (forall i, o = Some i -> Z.of_nat i < 65535) -> slot_is (set_r o s) lo n o h.
Proof. intros [] Ho. split; try done. by apply ix_bind. Qed.

Lemma slot_is_set_height h' : slot_is s lo n ro h -> 0 <= h' < 128 ->
  slot_is (set_height h' s) lo n ro h'.
Proof.
  intros [] Hh. split; try done.
  - unfold is_used, set_height; simpl. by rewrite meta_is_used_set_height.
  - by apply meta_height_set_height.
Qed.

Lemma slot_is_put_val v : slot_is s lo n ro h ->
  slot_is (put_val v s) lo (mkG (gi n) (gk n) v (gt n)) ro h.
Proof. by intros []. Qed.

End slots.

(** ** Frames *)

Lemma frame_refl xs ar : frame xs ar ar.
Proof. by repeat split. Qed.

Lemma frame_weaken xs ys ar ar' : frame xs ar ar' -> xs ⊆ ys -> frame ys ar ar'.
Proof. intros (Hl & Hf & Ht) Hs. repeat split; [done| |done]. intros. apply Hf. set_solver. Qed.

Lemma frame_trans xs ar1 ar2 ar3 : frame xs ar1 ar2 -> frame xs ar2 ar3 -> frame xs ar1 ar3.
Proof.
  intros (Hl & Hf & Ht) (Hl' & Hf' & Ht'). repeat split.
  - congruence.
  - intros j Hj. by rewrite Hf', Hf.
  - by rewrite Ht'.
Qed.

Lemma frame_insert i ar s s' : ar !! i = Some s -> tag s' = tag s ->
  frame [i] ar (<[i := s']> ar).
Proof.
  intros Hi Ht. repeat split.
  - by rewrite length_insert.
  - intros j Hj. apply list_lookup_insert_ne. set_solver.
  - rewrite list_fmap_insert, Ht, list_insert_id; [done|]. by rewrite list_lookup_fmap, Hi.
Qed.

Lemma frame_insert_in i xs ar s s' : ar !! i = Some s -> tag s' = tag s -> i ∈ xs ->
  frame xs ar (<[i := s']> ar).
Proof. intros. eapply frame_weaken; [by eapply frame_insert|]. set_solver. Qed.

Lemma frame_small xs ar ar' : frame xs ar ar' -> small ar -> small ar'.
Proof. intros (Hl & _). unfold small. by rewrite Hl. Qed.

Lemma small_lookup ar i s : small ar -> ar !! i = Some s -> Z.of_nat i < 65535.
Proof. unfold small. intros Hs Hi. apply lookup_lt_Some in Hi. lia. Qed.

Lemma rep_frame ar ar' xs t o :
  rep ar t o -> frame xs ar ar' -> (forall j, j ∈ indices t -> j ∉ xs) -> rep ar' t o.
Proof.
  intros Hr (_ & Hf & _). revert o Hr. induction t as [|tl IHl n tr IHr]; intros o Hr Hd; [done|].
  unfold indices in *. simpl in *.
  destruct Hr as (-> & s & lo & ro & Hs & Hsi & Hl & Hr). split; [done|].
  exists s, lo, ro. rewrite Hf by set_solver. repeat split; try done; try apply Hsi.
  - apply IHl; [done|set_solver].
  - apply IHr; [done|set_solver].
Qed.

Lemma rep_root_lookup ar t i : rep ar t (Some i) -> exists s, ar !! i = Some s.
Proof.
  destruct t as [|tl n tr]; [done|]. intros ([= ->] & s & ? & ? & ? & _). by exists s.
Qed.

Lemma rep_bound ar t o i : small ar -> rep ar t o -> o = Some i -> Z.of_nat i < 65535.
Proof. intros Hs Hr ->. destruct (rep_root_lookup _ _ _ Hr) as [s ?]. by eapply small_lookup. Qed.

Lemma theight_nonneg t : 0 <= theight t.
Proof. induction t; simpl; lia. Qed.

Lemma theight_Leaf_inv t : theight t <= 0 -> t = Leaf.
Proof.
  destruct t as [|tl n tr]; [done|]. simpl.
  pose proof (theight_nonneg tl). pose proof (theight_nonneg tr). lia.
Qed.

(** ** Effects of the arena operations *)

Lemma index_ok m i s : arena m !! i = Some s -> index i m = (Ok s, m).
Proof. intros Hi. unfold index. by rewrite Hi. Qed.

Lemma update_ok hd ar i s f : ar !! i = Some s ->
  update i f (mkMap hd ar) = (Ok tt, mkMap hd (<[i := f s]> ar)).
Proof. intros Hi. unfold update. simpl. by rewrite Hi. Qed.

Lemma height_ok hd ar t o : rep ar t o -> height o (mkMap hd ar) = (Ok (theight t), mkMap hd ar).
Proof.
  destruct t as [|tl n tr]; simpl.
  - by intros ->.
  - intros (-> & s & lo & ro & Hs & Hsi & _). simpl.
    rewrite (bind_ok _ _ _ s (mkMap hd ar)) by by apply index_ok.
    unfold mret, M_ret. by destruct Hsi as [_ _ _ _ _ _ ->].
Qed.

Lemma balance_factor_ok hd ar i s lo n ro h tl tr :
  ar !! i = Some s -> slot_is s lo n ro h -> rep ar tl lo -> rep ar tr ro ->
  balance_factor i (mkMap hd ar) = (Ok (theight tl - theight tr), mkMap hd ar).
Proof.
  intros Hs [Hl Hr _ _ _ _ _] Htl Htr. unfold balance_factor.
  assert (index i (mkMap hd ar) = (Ok s, mkMap hd ar)) as Hi by by apply index_ok.
  rewrite (bind_ok _ _ _ _ _ Hi), Hl, (bind_ok _ _ _ _ _ (height_ok _ _ _ _ Htl)).
  by rewrite (bind_ok _ _ _ _ _ Hi), Hr, (bind_ok _ _ _ _ _ (height_ok _ _ _ _ Htr)).
Qed.

Lemma update_height_spec hd ar i s lo n ro h tl tr :
  small ar -> ar !! i = Some s -> slot_is s lo n ro h -> gi n = i ->
  rep ar tl lo -> rep ar tr ro -> i ∉ indices tl -> i ∉ indices tr ->
  theight tl <= 126 -> theight tr <= 126 ->
  exists ar', update_height i (mkMap hd ar) = (Ok tt, mkMap hd ar') /\
    rep ar' (Node tl n tr) (Some i) /\ frame [i] ar ar'.
Proof.
  intros Hsm Hs Hsi Hn Htl Htr Hil Hir Hhl Hhr.
  pose proof (theight_nonneg tl). pose proof (theight_nonneg tr).
  unfold update_height.
  assert (index i (mkMap hd ar) = (Ok s, mkMap hd ar)) as Hi by by apply index_ok.
  rewrite (bind_ok _ _ _ _ _ Hi). destruct Hsi as [Hl Hr ? ? ? ? ?] eqn:E.
  rewrite Hl, (bind_ok _ _ _ _ _ (height_ok _ _ _ _ Htl)).
  rewrite (bind_ok _ _ _ _ _ Hi), Hr, (bind_ok _ _ _ _ _ (height_ok _ _ _ _ Htr)).
  rewrite wrap_small by lia. rewrite (update_ok _ _ _ s) by done.
  eexists. split; [done|].
  assert (frame [i] ar (<[i := set_height (1 + Z.max (theight tl) (theight tr)) s]> ar)) as Hf.
  { by eapply frame_insert. }
  split; [|done]. split; [by rewrite Hn|]. rewrite Hn.
  eexists _, lo, ro. split; [apply list_lookup_insert_eq; by eapply lookup_lt_Some|].
  split; [eapply slot_is_set_height; [done|simpl; lia]|].
  split; (eapply rep_frame; [done|done|set_solver]).
Qed.

(** The slots of a tree are pairwise different and, with [n], disjoint from [t']. *)
Lemma indices_Node tl n tr : indices (Node tl n tr) = indices tl ++ gi n :: indices tr.
Proof. unfold indices. simpl. by rewrite fmap_app. Qed.

Lemma rotate_right_spec hd ar y sy x ny ro h t1 nx t2 t3 :
  small ar -> ar !! y = Some sy -> slot_is sy (Some x) ny ro h -> gi ny = y ->
  rep ar (Node t1 nx t2) (Some x) -> rep ar t3 ro ->
  NoDup (indices (Node t1 nx t2) ++ y :: indices t3) ->
  theight t1 <= 120 -> theight t2 <= 120 -> theight t3 <= 120 ->
  exists ar', rotate_right y (mkMap hd ar) = (Ok x, mkMap hd ar') /\
    rep ar' (Node t1 nx (Node t2 ny t3)) (Some x) /\ frame [x; y] ar ar'.
Proof.
  intros Hsm Hy Hsy Hny Hx Ht3 Hnd H1 H2 H3.
  pose proof Hx as ([= Hnx] & sx & lo1 & ro2 & Hsx & Hsix & Hr1 & Hr2).
  rewrite indices_Node in Hnd. rewrite <- Hnx in *.
  assert (x <> y /\ x ∉ indices t1 /\ x ∉ indices t2 /\ x ∉ indices t3 /\
          y ∉ indices t1 /\ y ∉ indices t2 /\ y ∉ indices t3) as (Hxy & ? & ? & ? & ? & ? & ?).
  { rewrite <- app_assoc in Hnd. simpl in Hnd.
    rewrite NoDup_app, !NoDup_cons, NoDup_app, NoDup_cons in Hnd. set_solver. }
  set (ar1 := <[x := set_r (Some y) sx]> ar).
  set (ar2 := <[y := set_l ro2 sy]> ar1).
  assert (ar1 !! y = Some sy) as Hy1 by (unfold ar1; by rewrite list_lookup_insert_ne).
  assert (frame [x; y] ar ar2) as Hf2.
  { apply (frame_trans _ _ ar1).
    - eapply (frame_insert_in x); [done|done|set_solver].
    - eapply (frame_insert_in y); [done|done|set_solver]. }
  pose proof (frame_small _ _ _ Hf2 Hsm) as Hsm2.
  destruct (update_height_spec hd ar2 y (set_l ro2 sy) ro2 ny ro h t2 t3)
    as (ar3 & E3 & Hrep3 & Hf3); try done; try lia.
  { apply list_lookup_insert_eq. by eapply lookup_lt_Some. }
  { eapply slot_is_set_l; [done|]. intros i Hi. by eapply (rep_bound ar t2). }
  { eapply rep_frame; [apply Hr2|done|set_solver]. }
  { eapply rep_frame; [apply Ht3|done|set_solver]. }
  assert (ar3 !! x = Some (set_r (Some y) sx)) as Hx3.
  { destruct Hf3 as (_ & -> & _); [|set_solver]. unfold ar2, ar1.
    rewrite list_lookup_insert_ne by done. apply list_lookup_insert_eq. by eapply lookup_lt_Some. }
  pose proof (frame_small _ _ _ Hf3 Hsm2) as Hsm3.
  destruct (update_height_spec hd ar3 x (set_r (Some y) sx) lo1 nx (Some y)
    (theight (Node t1 nx t2)) t1 (Node t2 ny t3)) as (ar4 & E4 & Hrep4 & Hf4); try done.
  { eapply slot_is_set_r; [done|]. intros i [= <-]. by eapply (small_lookup ar). }
  { eapply rep_frame; [|apply Hf3|set_solver]. eapply rep_frame; [apply Hr1|done|set_solver]. }
  { rewrite indices_Node. set_solver. }
  { lia. }
  { simpl. pose proof (theight_nonneg t2). lia. }
  exists ar4. split.
  - unfold rotate_right. destruct Hsy as [Hl _ _ _ _ _ _].
    rewrite (bind_ok _ _ _ _ _ (index_ok (mkMap hd ar) y sy Hy)), Hl. simpl unwrap.
    rewrite bind_ret, (bind_ok _ _ _ _ _ (index_ok (mkMap hd ar) x sx Hsx)).
    destruct Hsix as [_ -> _ _ _ _ _]. cbn zeta.
    rewrite (bind_ok _ _ _ _ _ (update_ok hd ar x sx _ Hsx)).
    rewrite (bind_ok _ _ _ _ _ (update_ok hd ar1 y sy _ Hy1)).
    by rewrite (bind_ok _ _ _ _ _ E3), (bind_ok _ _ _ _ _ E4).
  - split; [done|]. eapply frame_trans; [done|].
    eapply frame_trans; (eapply frame_weaken; [done|set_solver]).
Qed.

Lemma rotate_left_spec hd ar x sx y nx lo h t1 t2 ny t3 :
  small ar -> ar !! x = Some sx -> slot_is sx lo nx (Some y) h -> gi nx = x ->
  rep ar t1 lo -> rep ar (Node t2 ny t3) (Some y) ->
  NoDup (indices t1 ++ x :: indices (Node t2 ny t3)) ->
  theight t1 <= 120 -> theight t2 <= 120 -> theight t3 <= 120 ->
  exists ar', rotate_left x (mkMap hd ar) = (Ok y, mkMap hd ar') /\
    rep ar' (Node (Node t1 nx t2) ny t3) (Some y) /\ frame [x; y] ar ar'.
Proof.
  intros Hsm Hx Hsx Hnx Ht1 Hy Hnd H1 H2 H3.
  pose proof Hy as ([= Hny] & sy & lo2 & ro3 & Hsy & Hsiy & Hr2 & Hr3).
  rewrite indices_Node in Hnd. rewrite <- Hny in *.
  assert (x <> y /\ x ∉ indices t1 /\ x ∉ indices t2 /\ x ∉ indices t3 /\
          y ∉ indices t1 /\ y ∉ indices t2 /\ y ∉ indices t3) as (Hxy & ? & ? & ? & ? & ? & ?).
  { rewrite NoDup_app, !NoDup_cons, NoDup_app, NoDup_cons in Hnd. set_solver. }
  set (ar1 := <[y := set_l (Some x) sy]> ar).
  set (ar2 := <[x := set_r lo2 sx]> ar1).
  assert (ar1 !! x = Some sx) as Hx1 by (unfold ar1; by rewrite list_lookup_insert_ne).
  assert (frame [x; y] ar ar2) as Hf2.
  { apply (frame_trans _ _ ar1).
    - eapply (frame_insert_in y); [done|done|set_solver].
    - eapply (frame_insert_in x); [done|done|set_solver]. }
  pose proof (frame_small _ _ _ Hf2 Hsm) as Hsm2.
  destruct (update_height_spec hd ar2 x (set_r lo2 sx) lo nx lo2 h t1 t2)
    as (ar3 & E3 & Hrep3 & Hf3); try done; try lia.
  { apply list_lookup_insert_eq. by eapply lookup_lt_Some. }
  { eapply slot_is_set_r; [done|]. intros i Hi. by eapply (rep_bound ar t2). }
  { eapply rep_frame; [apply Ht1|done|set_solver]. }
  { eapply rep_frame; [apply Hr2|done|set_solver]. }
  assert (ar3 !! y = Some (set_l (Some x) sy)) as Hy3.
  { destruct Hf3 as (_ & -> & _); [|set_solver]. unfold ar2, ar1.
    rewrite list_lookup_insert_ne by done. apply list_lookup_insert_eq. by eapply lookup_lt_Some. }
  pose proof (frame_small _ _ _ Hf3 Hsm2) as Hsm3.
  destruct (update_height_spec hd ar3 y (set_l (Some x) sy) (Some x) ny ro3
    (theight (Node t2 ny t3)) (Node t1 nx t2) t3) as (ar4 & E4 & Hrep4 & Hf4); try done.
  { eapply slot_is_set_l; [done|]. intros i [= <-]. by eapply (small_lookup ar). }
  { eapply rep_frame; [|apply Hf3|set_solver]. eapply rep_frame; [apply Hr3|done|set_solver]. }
  { rewrite indices_Node. set_solver. }
  { simpl. pose proof (theight_nonneg t2). lia. }
  { lia. }
  exists ar4. split.
  - unfold rotate_left. destruct Hsx as [_ Hr _ _ _ _ _].
    rewrite (bind_ok _ _ _ _ _ (index_ok (mkMap hd ar) x sx Hx)), Hr. simpl unwrap.
    rewrite bind_ret, (bind_ok _ _ _ _ _ (index_ok (mkMap hd ar) y sy Hsy)).
    destruct Hsiy as [-> _ _ _ _ _ _]. cbn zeta.
    rewrite (bind_ok _ _ _ _ _ (update_ok hd ar y sy _ Hsy)).
    rewrite (bind_ok _ _ _ _ _ (update_ok hd ar1 x sx _ Hx1)).
    by rewrite (bind_ok _ _ _ _ _ E3), (bind_ok _ _ _ _ _ E4).
  - split; [done|]. eapply frame_trans; [done|].
    eapply frame_trans; (eapply frame_weaken; [done|set_solver]).
Qed.

(** ** Rebalancing

    [rebalanced ar ar' tl n tr j]: the arena [ar'] holds at [j] a balanced tree with the
    nodes of [tl], [n] and [tr] in the same order, built in their own slots, and its height
    is the one AVL insertion and deletion rely on. *)
Definition rebalanced ar ar' tl n tr (j : nat) : Prop :=
  exists t', rep ar' t' (Some j) /\
    elements t' = elements tl ++ n :: elements tr /\
    balanced t' /\
    (-1 <= theight tl - theight tr <= 1 -> theight t' = 1 + Z.max (theight tl) (theight tr)) /\
    Z.max (theight tl) (theight tr) <= theight t' <= 1 + Z.max (theight tl) (theight tr) /\
    frame (indices (Node tl n tr)) ar ar'.

Lemma NoDup_Node tl n tr : NoDup (indices (Node tl n tr)) ->
  NoDup (indices tl) /\ NoDup (indices tr) /\ gi n ∉ indices tl /\ gi n ∉ indices tr /\
  (forall j, j ∈ indices tl -> j ∉ indices tr).
Proof.
  rewrite indices_Node, NoDup_app, NoDup_cons. set_solver.
Qed.

(** Replacing the left (right) subtree of a node by another representation of it. *)
Lemma set_l_spec hd ar i s lo n ro h tl' j :
  small ar -> ar !! i = Some s -> slot_is s lo n ro h -> rep ar tl' (Some j) ->
  i ∉ indices tl' ->
  update i (set_l (Some j)) (mkMap hd ar) = (Ok tt, mkMap hd (<[i := set_l (Some j) s]> ar)) /\
  slot_is (set_l (Some j) s) (Some j) n ro h /\
  rep (<[i := set_l (Some j) s]> ar) tl' (Some j) /\
  frame [i] ar (<[i := set_l (Some j) s]> ar).
Proof.
  intros Hsm Hi Hs Hr Hd.
  assert (frame [i] ar (<[i := set_l (Some j) s]> ar)) as Hf by by eapply frame_insert.
  split; [by apply update_ok|]. split; [|split; [|done]].
  - eapply slot_is_set_l; [done|]. intros ? [= <-]. by eapply (rep_bound ar tl').
  - eapply rep_frame; [done|done|set_solver].
Qed.

Lemma set_r_spec hd ar i s lo n ro h tr' j :
  small ar -> ar !! i = Some s -> slot_is s lo n ro h -> rep ar tr' (Some j) ->
  i ∉ indices tr' ->
  update i (set_r (Some j)) (mkMap hd ar) = (Ok tt, mkMap hd (<[i := set_r (Some j) s]> ar)) /\
  slot_is (set_r (Some j) s) lo n (Some j) h /\
  rep (<[i := set_r (Some j) s]> ar) tr' (Some j) /\
  frame [i] ar (<[i := set_r (Some j) s]> ar).
Proof.
  intros Hsm Hi Hs Hr Hd.
  assert (frame [i] ar (<[i := set_r (Some j) s]> ar)) as Hf by by eapply frame_insert.
  split; [by apply update_ok|]. split; [|split; [|done]].
  - eapply slot_is_set_r; [done|]. intros ? [= <-]. by eapply (rep_bound ar tr').
  - eapply rep_frame; [done|done|set_solver].
Qed.

Ltac list_eq := simpl; repeat (rewrite <- !app_assoc; simpl); done.

(** Closes [rebalanced] for a given result tree, from its [rep] and its [frame]. *)
Ltac rebalanced_solve :=
  unfold rebalanced; rewrite !indices_Node; split; [done|]; split; [list_eq|];
  split; [simpl; repeat split; try done; lia|]; split; [simpl; lia|]; split; [simpl; lia|];
  eapply frame_weaken; [done|set_solver].

(** The two double rotations, as [rebalance] performs them. *)
Lemma rotate_left_right_spec hd ar i a nl b1 nb b2 n tr :
  small ar -> rep ar (Node (Node a nl (Node b1 nb b2)) n tr) (Some i) ->
  NoDup (indices (Node (Node a nl (Node b1 nb b2)) n tr)) ->
  theight a <= 115 -> theight b1 <= 115 -> theight b2 <= 115 -> theight tr <= 115 ->
  exists ar', ((nl' ← rotate_left (gi nl); update i (set_l (Some nl')));; rotate_right i)
      (mkMap hd ar) = (Ok (gi nb), mkMap hd ar') /\
    rep ar' (Node (Node a nl b1) nb (Node b2 n tr)) (Some (gi nb)) /\
    frame [i; gi nl; gi nb] ar ar'.
Proof.
  intros Hsm Hrep Hnd Ha1 Hb1 Hb2 Htr1.
  destruct Hrep as ([= ->] & s & lo & ro & Hs & Hsi & Hl & Hr).
  destruct (NoDup_Node _ _ _ Hnd) as (Hndl & Hndr & Hil & Hir & Hlr).
  pose proof Hl as (-> & sl & loa & rob & Hsl & Hsil & Ha & Hb).
  pose proof Hb as (-> & _).
  pose proof (theight_nonneg a). pose proof (theight_nonneg b1). pose proof (theight_nonneg b2).
  destruct (rotate_left_spec hd ar (gi nl) sl (gi nb) nl loa _ a b1 nb b2
    Hsm Hsl Hsil eq_refl Ha Hb) as (ar1 & E1 & Hrep1 & Hf1); try lia.
  { by rewrite indices_Node in Hndl. }
  pose proof (frame_small _ _ _ Hf1 Hsm) as Hsm1. rewrite !indices_Node in *.
  assert (ar1 !! gi n = Some s) as Hs1.
  { destruct Hf1 as (_ & Hf1 & _). rewrite Hf1; [done|set_solver]. }
  destruct (set_l_spec hd ar1 (gi n) s _ n ro _ _ _ Hsm1 Hs1 Hsi Hrep1)
    as (E2 & Hsi2 & Hrep2 & Hf2). { rewrite !indices_Node. set_solver. }
  set (ar2 := <[gi n:=set_l (Some (gi nb)) s]> ar1) in *.
  assert (gi nl ∉ indices tr /\ gi nb ∉ indices tr) as [? ?] by (split; apply Hlr; set_solver).
  assert (rep ar2 tr ro) as Hr2.
  { eapply rep_frame; [|apply Hf2|set_solver]. eapply rep_frame; [apply Hr|done|set_solver]. }
  assert (ar2 !! gi n = Some (set_l (Some (gi nb)) s)) as Hs2.
  { apply list_lookup_insert_eq. by eapply lookup_lt_Some. }
  destruct (rotate_right_spec hd ar2 (gi n) _ (gi nb) n ro _ (Node a nl b1) nb b2 tr
    (frame_small _ _ _ Hf2 Hsm1) Hs2 Hsi2 eq_refl Hrep2 Hr2)
    as (ar3 & E3 & Hrep3 & Hf3); try (simpl; lia).
  { rewrite !indices_Node. by repeat (rewrite <- ?app_assoc in *; simpl in * ). }
  exists ar3. split; [|split; [done|]].
  - by rewrite bind_assoc, (bind_ok _ _ _ _ _ E1), (bind_ok _ _ _ _ _ E2).
  - eapply (frame_trans _ _ ar1); [eapply frame_weaken; [done|set_solver]|].
    eapply (frame_trans _ _ ar2); (eapply frame_weaken; [done|set_solver]).
Qed.

Lemma rotate_right_left_spec hd ar i tl n b1 nb b2 nr c :
  small ar -> rep ar (Node tl n (Node (Node b1 nb b2) nr c)) (Some i) ->
  NoDup (indices (Node tl n (Node (Node b1 nb b2) nr c))) ->
  theight tl <= 115 -> theight b1 <= 115 -> theight b2 <= 115 -> theight c <= 115 ->
  exists ar', ((nr' ← rotate_right (gi nr); update i (set_r (Some nr')));; rotate_left i)
      (mkMap hd ar) = (Ok (gi nb), mkMap hd ar') /\
    rep ar' (Node (Node tl n b1) nb (Node b2 nr c)) (Some (gi nb)) /\
    frame [i; gi nr; gi nb] ar ar'.
Proof.
  intros Hsm Hrep Hnd Ha1 Hb1 Hb2 Htr1.
  destruct Hrep as ([= ->] & s & lo & ro & Hs & Hsi & Hl & Hr).
  destruct (NoDup_Node _ _ _ Hnd) as (Hndl & Hndr & Hil & Hir & Hlr).
  pose proof Hr as (-> & sr & lob & roc & Hsr & Hsir & Hb & Hc).
  pose proof Hb as (-> & _).
  pose proof (theight_nonneg c). pose proof (theight_nonneg b1). pose proof (theight_nonneg b2).
  destruct (rotate_right_spec hd ar (gi nr) sr (gi nb) nr roc _ b1 nb b2 c
    Hsm Hsr Hsir eq_refl Hb Hc) as (ar1 & E1 & Hrep1 & Hf1); try lia.
  { by rewrite indices_Node in Hndr. }
  pose proof (frame_small _ _ _ Hf1 Hsm) as Hsm1. rewrite !indices_Node in *.
  assert (ar1 !! gi n = Some s) as Hs1.
  { destruct Hf1 as (_ & Hf1 & _). rewrite Hf1; [done|set_solver]. }
  destruct (set_r_spec hd ar1 (gi n) s lo n _ _ _ _ Hsm1 Hs1 Hsi Hrep1)
    as (E2 & Hsi2 & Hrep2 & Hf2). { rewrite !indices_Node. set_solver. }
  set (ar2 := <[gi n:=set_r (Some (gi nb)) s]> ar1) in *.
  assert (gi nr ∉ indices tl /\ gi nb ∉ indices tl) as [? ?].
  { split; intros Hj; apply (Hlr _ Hj); set_solver. }
  assert (rep ar2 tl lo) as Hl2.
  { eapply rep_frame; [|apply Hf2|set_solver]. eapply rep_frame; [apply Hl|done|set_solver]. }
  assert (ar2 !! gi n = Some (set_r (Some (gi nb)) s)) as Hs2.
  { apply list_lookup_insert_eq. by eapply lookup_lt_Some. }
  destruct (rotate_left_spec hd ar2 (gi n) _ (gi nb) n lo _ tl b1 nb (Node b2 nr c)
    (frame_small _ _ _ Hf2 Hsm1) Hs2 Hsi2 eq_refl Hl2 Hrep2)
    as (ar3 & E3 & Hrep3 & Hf3); try (simpl; lia).
  { rewrite !indices_Node. by repeat (rewrite <- ?app_assoc in *; simpl in * ). }
  exists ar3. split; [|split; [done|]].
  - by rewrite bind_assoc, (bind_ok _ _ _ _ _ E1), (bind_ok _ _ _ _ _ E2).
  - eapply (frame_trans _ _ ar1); [eapply frame_weaken; [done|set_solver]|].
    eapply (frame_trans _ _ ar2); (eapply frame_weaken; [done|set_solver]).
Qed.

Lemma rebalance_left_heavy_spec hd ar tl n tr i :
  small ar -> rep ar (Node tl n tr) (Some i) -> NoDup (indices (Node tl n tr)) ->
  balanced tl -> balanced tr -> theight tl = theight tr + 2 -> theight tl <= 115 ->
  exists j ar', rebalance_left_heavy i (mkMap hd ar) = (Ok j, mkMap hd ar') /\
    rebalanced ar ar' tl n tr j.
Proof.
  intros Hsm Hrep Hnd Hbl Hbr Hh Hb. pose proof (theight_nonneg tr).
  pose proof Hrep as ([= ->] & s & lo & ro & Hs & Hsi & Hl & Hr).
  destruct tl as [|a nl b]; [simpl in Hh; lia|].
  pose proof Hl as (-> & sl & loa & rob & Hsl & Hsil & Ha & Hb').
  destruct Hbl as (Hba & Hbb & Hbab). simpl in Hh, Hb.
  pose proof (theight_nonneg a). pose proof (theight_nonneg b).
  unfold rebalance_left_heavy.
  rewrite (bind_ok _ _ _ _ _ (index_ok (mkMap hd ar) (gi n) s Hs)), (si_l _ _ _ _ _ Hsi).
  simpl unwrap. rewrite bind_ret,
    (bind_ok _ _ _ _ _ (balance_factor_ok hd ar (gi nl) sl _ _ _ _ _ _ Hsl Hsil Ha Hb')).
  destruct (Z.ltb_spec (theight a - theight b) 0) as [Hlt|Hge].
  - destruct b as [|b1 nb b2]; [simpl in *; lia|]. simpl in Hh, Hb, Hlt, Hbab.
    destruct Hbb as (? & ? & ?). pose proof (theight_nonneg b1). pose proof (theight_nonneg b2).
    destruct (rotate_left_right_spec hd ar (gi n) a nl b1 nb b2 n tr)
      as (ar' & E & Hrep' & Hf); try done; try lia.
    exists (gi nb), ar'. split; [done|]. exists (Node (Node a nl b1) nb (Node b2 n tr)).
    rebalanced_solve.
  - rewrite bind_ret.
    destruct (rotate_right_spec hd ar (gi n) s (gi nl) n ro _ a nl b tr Hsm Hs Hsi eq_refl Hl Hr)
      as (ar1 & E1 & Hrep1 & Hf1); try lia.
    { by rewrite indices_Node in Hnd. }
    exists (gi nl), ar1. split; [done|]. exists (Node a nl (Node b n tr)).
    rebalanced_solve.
Qed.

Lemma rebalance_right_heavy_spec hd ar tl n tr i :
  small ar -> rep ar (Node tl n tr) (Some i) -> NoDup (indices (Node tl n tr)) ->
  balanced tl -> balanced tr -> theight tr = theight tl + 2 -> theight tr <= 115 ->
  exists j ar', rebalance_right_heavy i (mkMap hd ar) = (Ok j, mkMap hd ar') /\
    rebalanced ar ar' tl n tr j.
Proof.
  intros Hsm Hrep Hnd Hbl Hbr Hh Hb. pose proof (theight_nonneg tl).
  pose proof Hrep as ([= ->] & s & lo & ro & Hs & Hsi & Hl & Hr).
  destruct tr as [|b nr c]; [simpl in Hh; lia|].
  pose proof Hr as (-> & sr & lob & roc & Hsr & Hsir & Hb' & Hc).
  destruct Hbr as (Hbb & Hbc & Hbbc). simpl in Hh, Hb.
  pose proof (theight_nonneg c). pose proof (theight_nonneg b).
  unfold rebalance_right_heavy.
  rewrite (bind_ok _ _ _ _ _ (index_ok (mkMap hd ar) (gi n) s Hs)), (si_r _ _ _ _ _ Hsi).
  simpl unwrap. rewrite bind_ret,
    (bind_ok _ _ _ _ _ (balance_factor_ok hd ar (gi nr) sr _ _ _ _ _ _ Hsr Hsir Hb' Hc)).
  rewrite Z.gtb_ltb. destruct (Z.ltb_spec 0 (theight b - theight c)) as [Hlt|Hge].
  - destruct b as [|b1 nb b2]; [simpl in *; lia|]. simpl in Hh, Hb, Hlt, Hbbc.
    destruct Hbb as (? & ? & ?). pose proof (theight_nonneg b1). pose proof (theight_nonneg b2).
    destruct (rotate_right_left_spec hd ar (gi n) tl n b1 nb b2 nr c)
      as (ar' & E & Hrep' & Hf); try done; try lia.
    exists (gi nb), ar'. split; [done|]. exists (Node (Node tl n b1) nb (Node b2 nr c)).
    rebalanced_solve.
  - rewrite bind_ret.
    destruct (rotate_left_spec hd ar (gi n) s (gi nr) n lo _ tl b nr c Hsm Hs Hsi eq_refl Hl Hr)
      as (ar1 & E1 & Hrep1 & Hf1); try lia.
    { by rewrite indices_Node in Hnd. }
    exists (gi nr), ar1. split; [done|]. exists (Node (Node tl n b) nr c).
    rebalanced_solve.
Qed.

(** [rebalance] of a node whose subtrees are balanced and differ in height by at most 2. *)
Lemma rebalance_spec hd ar i s lo n ro h tl tr :
  small ar -> ar !! i = Some s -> slot_is s lo n ro h -> gi n = i ->
  rep ar tl lo -> rep ar tr ro -> NoDup (indices (Node tl n tr)) ->
  balanced tl -> balanced tr -> -2 <= theight tl - theight tr <= 2 ->
  theight tl <= 115 -> theight tr <= 115 ->
  exists j ar', rebalance i (mkMap hd ar) = (Ok j, mkMap hd ar') /\
    rebalanced ar ar' tl n tr j.
Proof.
  intros Hsm Hs Hsi Hn Hl Hr Hnd Hbl Hbr Hbf Hhl Hhr.
  destruct (NoDup_Node _ _ _ Hnd) as (_ & _ & Hil & Hir & _). rewrite Hn in *.
  destruct (update_height_spec hd ar i s lo n ro h tl tr) as (ar1 & E1 & Hrep1 & Hf1); try done; try lia.
  pose proof (frame_small _ _ _ Hf1 Hsm) as Hsm1.
  pose proof Hrep1 as (_ & s1 & lo1 & ro1 & Hs1 & Hsi1 & Hl1 & Hr1). rewrite Hn in Hs1.
  unfold rebalance. rewrite (bind_ok _ _ _ _ _ E1).
  rewrite (bind_ok _ _ _ _ _ (balance_factor_ok hd ar1 i s1 _ _ _ _ _ _ Hs1 Hsi1 Hl1 Hr1)).
  assert (forall j ar', rebalanced ar1 ar' tl n tr j -> rebalanced ar ar' tl n tr j) as Hweak.
  { intros j ar' (t' & ? & ? & ? & ? & ? & Hf'). exists t'. do 5 (split; [done|]).
    eapply (frame_trans _ _ ar1); [|done]. eapply frame_weaken; [done|]. rewrite indices_Node. set_solver. }
  rewrite Z.gtb_ltb.
  destruct (Z.ltb_spec 1 (theight tl - theight tr)); [|destruct (Z.ltb_spec (theight tl - theight tr) (-1))].
  - destruct (rebalance_left_heavy_spec hd ar1 tl n tr i) as (j & ar' & E & Hreb); try done; [lia|].
    exists j, ar'. auto.
  - destruct (rebalance_right_heavy_spec hd ar1 tl n tr i) as (j & ar' & E & Hreb); try done; [lia|].
    exists j, ar'. auto.
  - exists i, ar1. split; [done|]. apply Hweak.
    pose proof (frame_refl [] ar1). exists (Node tl n tr). rebalanced_solve.
Qed.

End rep.
