(* ===== verification/AvlSpec.v ===== *)
(** * What the AVL map promises: a sorted association list with a pool of tags

    The abstract state is the list of entries in key order together with the tags of the
    free slots, in the order in which they will be handed out.  A new key takes the first
    free tag and keeps it until it is removed; removing the key gives its tag back. *)

From stdpp Require Import prelude sorting.
From Stdlib Require Import ZArith Lia.
From S2P Require Import Prelude Avl.
Import AvlMap.

Section spec.
Context {K V T : Type} `{Ord K}.

Abbreviation alist := (list (K * (V * T))).
Implicit Types (es xs ys : alist) (k : K) (v : V) (tg : T).

Fixpoint al_get k es : option (V * T) :=
  match es with
  | [] => None
  | (k', x) :: es => match cmp k k' with Eq => Some x | _ => al_get k es end
  end.

(** Insert or update; [tg] is the tag of the entry when [k] is new. *)
Fixpoint al_insert k v tg es : alist :=
  match es with
  | [] => [(k, (v, tg))]
  | (k', (v', tg')) :: es' =>
      match cmp k k' with
      | Eq => (k', (v, tg')) :: es'
      | Lt => (k, (v, tg)) :: es
      | Gt => (k', (v', tg')) :: al_insert k v tg es'
      end
  end.

Fixpoint al_remove k es : alist :=
  match es with
  | [] => []
  | (k', x) :: es' => match cmp k k' with Eq => es' | _ => (k', x) :: al_remove k es' end
  end.

(** The entries whose key is at most [k], and the last of them. *)
Definition key_le k (e : K * (V * T)) : Prop := cmp e.1 k <> Gt.

#[global] Instance key_le_dec k e : Decision (key_le k e).
Proof. unfold key_le. destruct (cmp e.1 k); [left|left|right]; congruence. Defined.

Definition al_lte k es : option (K * V * T) :=
  match last (filter (key_le k) es) with
  | Some (k', (v, tg)) => Some (k', v, tg)
  | None => None
  end.

Definition sorted es : Prop := StronglySorted klt (fst <$> es).

(** ** The abstract map and its operations *)

Record avl_abs := mkAbs { a_entries : alist; a_free : list T }.

Definition abs_insert k v (a : avl_abs) : outcome Error (option V * T) * avl_abs :=
  match al_get k (a_entries a) with
  | Some (v0, tg) => (Ok (Some v0, tg), mkAbs (al_insert k v tg (a_entries a)) (a_free a))
  | None =>
      match a_free a with
      | [] => (Err Full, a)
      | tg :: fr => (Ok (None, tg), mkAbs (al_insert k v tg (a_entries a)) fr)
      end
  end.

Definition abs_remove k (a : avl_abs) : outcome Error (option V) * avl_abs :=
  match al_get k (a_entries a) with
  | Some (v0, tg) => (Ok (Some v0), mkAbs (al_remove k (a_entries a)) (tg :: a_free a))
  | None => (Ok None, a)
  end.

Definition abs_get k (a : avl_abs) : option (V * T) := al_get k (a_entries a).

Definition abs_lte k (a : avl_abs) : option (K * V * T) := al_lte k (a_entries a).

(** ** Lemmas on sorted association lists *)

Lemma sorted_mid xs k0 x ys : sorted (xs ++ (k0, x) :: ys) ->
  sorted xs /\ sorted ys /\
  (forall e, e ∈ xs -> klt e.1 k0) /\ (forall e, e ∈ ys -> klt k0 e.1).
Proof.
  unfold sorted. rewrite fmap_app, StronglySorted_app. simpl.
  intros (Hxy & Hx & Hy). apply StronglySorted_inv in Hy as [Hy Hall].
  rewrite Forall_forall in Hall. repeat split; try done.
  - intros e He. apply Hxy; [by apply list_elem_of_fmap_2|set_solver].
  - intros e He. apply Hall. by apply list_elem_of_fmap_2.
Qed.

Lemma al_get_None k es : (forall e, e ∈ es -> e.1 <> k) -> al_get k es = None.
Proof.
  induction es as [|[k' x] es IH]; intros Hne; [done|]. simpl.
  destruct (cmp k k') eqn:E.
  - apply cmp_eq in E as ->. exfalso. apply (Hne (k', x)); [set_solver|done].
  - apply IH. set_solver.
  - apply IH. set_solver.
Qed.

Lemma al_get_app k xs ys :
  al_get k (xs ++ ys) = match al_get k xs with Some x => Some x | None => al_get k ys end.
Proof. induction xs as [|[k' x] xs IH]; [done|]. simpl. by destruct (cmp k k'). Qed.

Lemma klt_ne (a b : K) : klt a b -> a <> b.
Proof. intros Hlt ->. by apply klt_irrefl in Hlt. Qed.

Section mid.
Variables (xs ys : alist) (k k0 : K) (x : V * T).
Hypothesis Hs : sorted (xs ++ (k0, x) :: ys).

Lemma al_get_mid_lt : cmp k k0 = Lt -> al_get k (xs ++ (k0, x) :: ys) = al_get k xs.
Proof.
  intros Hk. destruct (sorted_mid _ _ _ _ Hs) as (_ & _ & _ & Hy).
  rewrite al_get_app. simpl. rewrite Hk, (al_get_None k ys); [by destruct (al_get k xs)|].
  intros e He <-. apply (klt_irrefl e.1). eauto using klt_trans.
Qed.

Lemma al_get_mid_eq : cmp k k0 = Eq -> al_get k (xs ++ (k0, x) :: ys) = Some x.
Proof.
  intros Hk. destruct (sorted_mid _ _ _ _ Hs) as (_ & _ & Hx & _).
  rewrite al_get_app. simpl. rewrite Hk, (al_get_None k xs); [done|].
  apply cmp_eq in Hk as ->. intros e He. by apply klt_ne, Hx.
Qed.

Lemma al_get_mid_gt : cmp k k0 = Gt -> al_get k (xs ++ (k0, x) :: ys) = al_get k ys.
Proof.
  intros Hk. destruct (sorted_mid _ _ _ _ Hs) as (_ & _ & Hx & _).
  rewrite al_get_app. simpl. rewrite Hk, (al_get_None k xs); [done|].
  intros e He <-. apply cmp_gt in Hk. apply (klt_irrefl e.1). eauto using klt_trans.
Qed.

End mid.

Lemma al_insert_lt k v tg xs k0 x ys : cmp k k0 = Lt ->
  al_insert k v tg (xs ++ (k0, x) :: ys) = al_insert k v tg xs ++ (k0, x) :: ys.
Proof.
  intros Hk. induction xs as [|[k1 [v1 tg1]] xs IH]; simpl.
  - destruct x. by rewrite Hk.
  - destruct (cmp k k1); [done..|]. by rewrite IH.
Qed.

Lemma al_insert_skip k v tg xs ys : (forall e, e ∈ xs -> klt e.1 k) ->
  al_insert k v tg (xs ++ ys) = xs ++ al_insert k v tg ys.
Proof.
  intros Hx. induction xs as [|[k1 [v1 tg1]] xs IH]; simpl; [done|].
  rewrite (klt_cmp_gt k1 k); [rewrite IH; set_solver|]. apply (Hx (k1, (v1, tg1))). set_solver.
Qed.

Lemma al_remove_lt k xs k0 x ys : cmp k k0 = Lt -> (forall e, e ∈ ys -> klt k0 e.1) ->
  al_remove k (xs ++ (k0, x) :: ys) = al_remove k xs ++ (k0, x) :: ys.
Proof.
  intros Hk Hy. assert (forall zs, (forall e, e ∈ zs -> klt k e.1) -> al_remove k zs = zs) as Hrm.
  { induction zs as [|[k1 x1] zs IH]; intros Hz; [done|]. simpl.
    pose proof (Hz (k1, x1) ltac:(set_solver)) as Hk1. unfold klt in Hk1. simpl in Hk1.
    rewrite Hk1, IH; set_solver. }
  induction xs as [|[k1 x1] xs IH]; simpl.
  - rewrite Hk, Hrm; [done|]. intros e He. apply (klt_trans _ k0); [done|auto].
  - destruct (cmp k k1); [done| |]; by rewrite IH.
Qed.

Lemma al_remove_skip k xs ys : (forall e, e ∈ xs -> klt e.1 k) ->
  al_remove k (xs ++ ys) = xs ++ al_remove k ys.
Proof.
  intros Hx. induction xs as [|[k1 x1] xs IH]; simpl; [done|].
  rewrite (klt_cmp_gt k1 k); [rewrite IH; set_solver|]. apply (Hx (k1, x1)). set_solver.
Qed.

(** Keys of the result of an insertion or a removal. *)
Lemma al_insert_keys k v tg es e : e ∈ al_insert k v tg es -> e.1 = k \/ exists e', e' ∈ es /\ e'.1 = e.1.
Proof.
  induction es as [|[k1 [v1 tg1]] es IH]; simpl.
  - set_solver.
  - destruct (cmp k k1).
    + intros [->|He]%elem_of_cons; right; [exists (k1, (v1, tg1)); set_solver|set_solver].
    + set_solver.
    + intros [->|He]%elem_of_cons; [right; set_solver|].
      destruct (IH He) as [?|(e' & ? & ?)]; [by left|right; exists e'; set_solver].
Qed.

Lemma al_remove_sub k es e : e ∈ al_remove k es -> e ∈ es.
Proof.
  induction es as [|[k1 x1] es IH]; simpl; [done|]. destruct (cmp k k1); set_solver.
Qed.

Lemma sorted_cons k x es : sorted ((k, x) :: es) <-> sorted es /\ (forall e, e ∈ es -> klt k e.1).
Proof.
  unfold sorted. simpl. split.
  - intros [Hs Hall]%StronglySorted_inv. rewrite Forall_forall in Hall.
    split; [done|]. intros e He. apply Hall. by apply list_elem_of_fmap_2.
  - intros [Hs Hall]. constructor; [done|]. rewrite Forall_forall.
    intros k' (e & -> & He)%list_elem_of_fmap. auto.
Qed.

Lemma al_insert_sorted k v tg es : sorted es -> sorted (al_insert k v tg es).
Proof.
  induction es as [|[k1 [v1 tg1]] es IH]; simpl.
  - intros _. apply sorted_cons. split; [constructor|set_solver].
  - rewrite sorted_cons. intros [Hs Hall]. destruct (cmp k k1) eqn:E.
    + rewrite sorted_cons. done.
    + rewrite sorted_cons. split; [by apply sorted_cons|].
      intros e [->|He]%elem_of_cons; [done|]. eapply klt_trans; [done|auto].
    + rewrite sorted_cons. split; [auto|].
      intros e He. destruct (al_insert_keys _ _ _ _ _ He) as [->|(e' & ? & <-)]; [|auto].
      by apply cmp_gt.
Qed.

Lemma al_remove_sorted k es : sorted es -> sorted (al_remove k es).
Proof.
  induction es as [|[k1 x1] es IH]; [done|]. simpl. rewrite sorted_cons. intros [Hs Hall].
  destruct (cmp k k1); [done| |];
    rewrite sorted_cons; (split; [auto|]); intros e He; apply Hall; by eapply al_remove_sub.
Qed.

Lemma al_remove_absent k es : al_get k es = None -> al_remove k es = es.
Proof.
  induction es as [|[k1 x1] es IH]; [done|]. simpl. destruct (cmp k k1); [done| |];
    intros Hg; by rewrite IH.
Qed.

(** ** The map laws of the specification *)

Lemma al_get_insert k k' v tg es : sorted es ->
  al_get k' (al_insert k v tg es) =
    match cmp k' k with
    | Eq => Some (v, match al_get k es with Some (_, tg') => tg' | None => tg end)
    | _ => al_get k' es
    end.
Proof.
  induction es as [|[k1 [v1 tg1]] es IH]; simpl.
  - by destruct (cmp k' k).
  - rewrite sorted_cons. intros [Hs Hall]. destruct (cmp k k1) eqn:E; simpl.
    + apply cmp_eq in E as ->. by destruct (cmp k' k1).
    + rewrite (al_get_None k es); [by destruct (cmp k' k)|].
      intros e He <-. apply (klt_irrefl e.1), (klt_trans _ k1); [done|auto].
    + rewrite IH by done. destruct (cmp k' k1) eqn:E1; [|by destruct (cmp k' k)..].
      apply cmp_eq in E1 as ->. rewrite (cmp_antisym k k1), E. done.
Qed.

Lemma al_get_remove k k' es : sorted es ->
  al_get k' (al_remove k es) = match cmp k' k with Eq => None | _ => al_get k' es end.
Proof.
  induction es as [|[k1 x1] es IH]; simpl.
  - by destruct (cmp k' k).
  - rewrite sorted_cons. intros [Hs Hall]. destruct (cmp k k1) eqn:E; simpl.
    + apply cmp_eq in E as ->. destruct (cmp k' k1) eqn:E1; [|done..].
      apply cmp_eq in E1 as ->. apply al_get_None. intros e He Hk1.
      apply (klt_irrefl e.1). rewrite Hk1 at 1. auto.
    + rewrite IH by done. destruct (cmp k' k1) eqn:E1; [|by destruct (cmp k' k)..].
      apply cmp_eq in E1 as ->. by rewrite (cmp_antisym k k1), E.
    + rewrite IH by done. destruct (cmp k' k1) eqn:E1; [|by destruct (cmp k' k)..].
      apply cmp_eq in E1 as ->. by rewrite (cmp_antisym k k1), E.
Qed.

Lemma al_get_elem k v tg es : sorted es -> (k, (v, tg)) ∈ es -> al_get k es = Some (v, tg).
Proof.
  intros Hs (xs & ys & ->)%list_elem_of_split. apply al_get_mid_eq; [done|apply cmp_refl].
Qed.

Lemma al_get_Some_elem k x es : al_get k es = Some x -> (k, x) ∈ es.
Proof.
  induction es as [|[k1 x1] es IH]; [done|]. simpl. destruct (cmp k k1) eqn:E.
  - intros [= ->]. apply cmp_eq in E as ->. set_solver.
  - set_solver.
  - set_solver.
Qed.

(** ** The greatest key at most [k] *)

Lemma filter_key_le_nil k es : (forall e, e ∈ es -> klt k e.1) -> filter (key_le k) es = [].
Proof.
  induction es as [|e es IH]; intros Hall; [done|].
  rewrite filter_cons_False; [apply IH; set_solver|].
  unfold key_le. rewrite (klt_cmp_gt k); [congruence|]. apply Hall. set_solver.
Qed.

Lemma al_lte_app k xs ys :
  al_lte k (xs ++ ys) = match al_lte k ys with Some e => Some e | None => al_lte k xs end.
Proof.
  unfold al_lte. rewrite filter_app, last_app.
  by destruct (last (filter (key_le k) ys)) as [[? [? ?]]|].
Qed.

Lemma al_lte_nil k es : (forall e, e ∈ es -> klt k e.1) -> al_lte k es = None.
Proof. intros He. unfold al_lte. by rewrite filter_key_le_nil. Qed.

Lemma al_lte_cons_le k k0 v0 tg0 es : cmp k0 k <> Gt ->
  al_lte k ((k0, (v0, tg0)) :: es) =
    match al_lte k es with Some e => Some e | None => Some (k0, v0, tg0) end.
Proof.
  intros Hk. change ((k0, (v0, tg0)) :: es) with ([(k0, (v0, tg0))] ++ es).
  rewrite al_lte_app. unfold al_lte. by rewrite (filter_cons_True (key_le k) (k0, (v0, tg0)) []).
Qed.

Section lte_mid.
Variables (xs ys : alist) (k k0 : K) (v0 : V) (tg0 : T).
Hypothesis Hs : sorted (xs ++ (k0, (v0, tg0)) :: ys).

Lemma al_lte_mid_lt : cmp k k0 = Lt -> al_lte k (xs ++ (k0, (v0, tg0)) :: ys) = al_lte k xs.
Proof.
  intros Hk. destruct (sorted_mid _ _ _ _ Hs) as (_ & _ & _ & Hy).
  rewrite al_lte_app, al_lte_nil; [done|].
  intros e [->|He]%elem_of_cons; [done|]. eapply klt_trans; [done|auto].
Qed.

Lemma al_lte_mid_eq : cmp k k0 = Eq ->
  al_lte k (xs ++ (k0, (v0, tg0)) :: ys) = Some (k0, v0, tg0).
Proof.
  intros ->%cmp_eq. destruct (sorted_mid _ _ _ _ Hs) as (_ & _ & _ & Hy).
  by rewrite al_lte_app, al_lte_cons_le, (al_lte_nil _ ys) by (rewrite ?cmp_refl; done).
Qed.

Lemma al_lte_mid_gt : cmp k k0 = Gt ->
  al_lte k (xs ++ (k0, (v0, tg0)) :: ys) =
    match al_lte k ys with Some e => Some e | None => Some (k0, v0, tg0) end.
Proof.
  intros Hk. rewrite al_lte_app, al_lte_cons_le; [by destruct (al_lte k ys)|].
  by rewrite (cmp_antisym k k0), Hk.
Qed.

End lte_mid.

Lemma al_lte_Some k es k' v tg : sorted es -> al_lte k es = Some (k', v, tg) ->
  (k', (v, tg)) ∈ es /\ cmp k' k <> Gt /\
  (forall e, e ∈ es -> cmp e.1 k <> Gt -> cmp e.1 k' <> Gt).
Proof.
  unfold al_lte. intros Hs Hl. destruct (last (filter (key_le k) es)) as [[k1 [v1 tg1]]|] eqn:E; [|done].
  injection Hl as -> -> ->. pose proof E as E'. apply last_Some_elem_of, list_elem_of_filter in E' as [Hle Hin].
  split; [done|]. split; [done|]. apply last_filter_Some in E as (l1 & l2 & -> & Hall).
  destruct (sorted_mid _ _ _ _ Hs) as (_ & _ & Hx & _). rewrite Forall_forall in Hall.
  intros e [He|[->|He]%elem_of_cons]%elem_of_app Hk.
  - apply Hx in He. unfold klt in He. by rewrite He.
  - simpl. by rewrite cmp_refl.
  - by destruct (Hall e He).
Qed.

Lemma al_lte_None k es : al_lte k es = None <-> (forall e, e ∈ es -> klt k e.1).
Proof.
  split; [|apply al_lte_nil]. unfold al_lte.
  destruct (last (filter (key_le k) es)) as [[k1 [v1 tg1]]|] eqn:E; [done|].
  apply last_None in E. intros _ e He. pose proof (filter_nil_not_elem_of _ _ e E) as Hn.
  unfold key_le in Hn. apply cmp_gt. destruct (cmp e.1 k); [exfalso; by apply Hn..|done].
Qed.

End spec.
Arguments avl_abs : clear implicits.
