(* ===== verification/AvlRefine.v ===== *)
(** * The arena operations implement the abstract map

    Lookups, insertion and removal on the arena against the sorted association list of
    [AvlSpec], and the invariant of the whole structure: the slots are split between the
    tree and the free list, the tree is balanced and sorted, and the length is right. *)

From stdpp Require Import prelude sorting.
From Stdlib Require Import ZArith Lia.
From S2P Require Import Prelude Avl AvlRep AvlSpec.
Import AvlMap.

Local Open Scope Z_scope.

Section refine.
Context {K V T : Type} `{Ord K}.

Abbreviation Slot := (Slot K V T).
Abbreviation AvlTreeMap := (AvlTreeMap K V T).
Abbreviation gnode := (gnode K V T).
Abbreviation tree := (tree K V T).
Implicit Types (s : Slot) (ar : list Slot) (t : tree) (n : gnode).

Definition entry n : K * (V * T) := (gk n, (gv n, gt n)).

Definition entries t : list (K * (V * T)) := entry <$> elements t.

(** The free list: slots chained through [left], with the tags they carry. *)
Fixpoint free_chain ar (o : option nat) (fl : list (nat * T)) : Prop :=
  match fl with
  | [] => o = None
  | (f, tg) :: fl' =>
      o = Some f /\
      exists s, ar !! f = Some s /\ is_used s = false /\ tag s = tg /\ free_chain ar (l s) fl'
  end.

(** The invariant of the map, with its ghost tree and free list. *)
Record avl_inv (m : AvlTreeMap) t (fl : list (nat * T)) : Prop := {
  inv_small : small (arena m);
  inv_rep : rep (arena m) t (root (header m));
  inv_balanced : balanced t;
  inv_sorted : sorted (entries t);
  inv_free : free_chain (arena m) (free_head (header m)) fl;
  inv_slots : indices t ++ fl.*1 ≡ₚ seq 0 (length (arena m));
  inv_len : len (header m) = Z.of_nat (length (elements t));
}.

(** [m] implements the abstract map [a]. *)
Definition models (m : AvlTreeMap) (a : avl_abs K V T) : Prop :=
  exists t fl, avl_inv m t fl /\ a_entries a = entries t /\ a_free a = fl.*2.

(** ** Ghost trees *)

Lemma entries_Node tl n tr : entries (Node tl n tr) = entries tl ++ entry n :: entries tr.
Proof. unfold entries. simpl. by rewrite fmap_app. Qed.

Lemma length_indices t : length (indices t) = length (elements t).
Proof. apply length_fmap. Qed.

Lemma theight_le_size t : theight t <= Z.of_nat (length (elements t)).
Proof. induction t; simpl; [lia|]. rewrite length_app. simpl. lia. Qed.

Lemma balanced_size_aux t : balanced t ->
  forall h : nat, Z.of_nat (h + h) <= theight t -> 2 ^ Z.of_nat h <= Z.of_nat (length (elements t)) + 1.
Proof.
  induction t as [|tl IHl n tr IHr]; simpl; intros Hb h Hh.
  - assert (h = O) as -> by lia. done.
  - destruct Hb as (Hbl & Hbr & Hd). rewrite length_app. simpl.
    destruct h as [|h]; [simpl; lia|].
    specialize (IHl Hbl h ltac:(lia)). specialize (IHr Hbr h ltac:(lia)).
    rewrite Nat2Z.inj_succ, Z.pow_succ_r; lia.
Qed.

(** A balanced tree that fits in the arena has at most 33 levels. *)
Lemma balanced_height t : balanced t -> Z.of_nat (length (elements t)) <= 65535 -> theight t <= 33.
Proof.
  intros Hb Hn. destruct (Z.le_gt_cases (theight t) 33) as [|Hgt]; [done|].
  pose proof (balanced_size_aux t Hb 17 ltac:(simpl; lia)). simpl in *. lia.
Qed.

Lemma rep_indices_bound ar t o j : rep ar t o -> j ∈ indices t -> (j < length ar)%nat.
Proof.
  revert o. induction t as [|tl IHl n tr IHr]; intros o; [set_solver|].
  intros (_ & s & lo & ro & Hs & _ & Hl & Hr). rewrite indices_Node.
  intros [Hj|[->|Hj]%elem_of_cons]%elem_of_app; eauto using lookup_lt_Some.
Qed.

Lemma rep_size_bound ar t o : rep ar t o -> NoDup (indices t) ->
  (length (elements t) <= length ar)%nat.
Proof.
  intros Hr Hnd. rewrite <- length_indices.
  transitivity (length (seq 0 (length ar))); [|by rewrite length_seq].
  apply submseteq_length, NoDup_submseteq; [done|].
  intros j Hj. apply elem_of_seq. pose proof (rep_indices_bound _ _ _ _ Hr Hj). lia.
Qed.

Lemma rep_height_bound ar t o : rep ar t o -> NoDup (indices t) ->
  theight t <= Z.of_nat (length ar).
Proof.
  intros Hr Hnd. pose proof (theight_le_size t). pose proof (rep_size_bound _ _ _ Hr Hnd). lia.
Qed.

(** ** Lookups *)

Lemma get_loop_spec hd ar k fuel t o :
  rep ar t o -> sorted (entries t) -> theight t < Z.of_nat fuel ->
  get_loop fuel k o (mkMap hd ar) = (Ok (al_get k (entries t)), mkMap hd ar).
Proof.
  revert t o. induction fuel as [|fuel IH]; intros t o Hr Hs Hf; [pose proof (theight_nonneg t); lia|].
  destruct t as [|tl n tr]; simpl in Hr, Hf; [by subst|].
  destruct Hr as (-> & s & lo & ro & Hi & Hsi & Hl & Hr).
  rewrite entries_Node in *. destruct (sorted_mid _ _ _ _ Hs) as (? & ? & _ & _).
  simpl. rewrite (bind_ok _ _ _ _ _ (index_ok (mkMap hd ar) _ s Hi)).
  destruct Hsi as [-> -> Hk Hv Ht _ _]. rewrite Hk. unfold entry in *. destruct (cmp k (gk n)) eqn:E.
  - by rewrite al_get_mid_eq, Hv, Ht.
  - rewrite al_get_mid_lt by done. apply IH; [done|done|lia].
  - rewrite al_get_mid_gt by done. apply IH; [done|done|lia].
Qed.

Lemma get_lte_loop_spec hd ar k fuel t o best bn bs :
  rep ar t o -> sorted (entries t) -> theight t < Z.of_nat fuel ->
  match best with
  | None => bn = None
  | Some b => ar !! b = Some bs /\ bn = Some (key bs, val bs, tag bs)
  end ->
  get_lte_loop fuel k o best (mkMap hd ar) =
    (Ok (match al_lte k (entries t) with Some e => Some e | None => bn end), mkMap hd ar).
Proof.
  revert t o best bn bs. induction fuel as [|fuel IH]; intros t o best bn bs Hr Hs Hf Hb.
  { pose proof (theight_nonneg t); lia. }
  destruct t as [|tl n tr]; simpl in Hr, Hf.
  { subst. simpl. destruct best as [b|]; [|by rewrite Hb].
    destruct Hb as [Hb ->]. by rewrite (bind_ok _ _ _ _ _ (index_ok (mkMap hd ar) _ bs Hb)). }
  destruct Hr as (-> & s & lo & ro & Hi & Hsi & Hl & Hr).
  rewrite entries_Node in *. destruct (sorted_mid _ _ _ _ Hs) as (? & ? & Hxs & Hys).
  simpl. rewrite (bind_ok _ _ _ _ _ (index_ok (mkMap hd ar) _ s Hi)).
  destruct Hsi as [-> -> Hk Hv Ht _ _]. rewrite Hk. unfold entry in *. destruct (cmp k (gk n)) eqn:E.
  - by rewrite al_lte_mid_eq, Hv, Ht.
  - rewrite al_lte_mid_lt by done. by eapply IH; [..|lia|].
  - rewrite al_lte_mid_gt by done. rewrite (IH tr ro (Some (gi n)) (Some (key s, val s, tag s)) s); [|done..|lia|done].
    rewrite Hk, Hv, Ht. by destruct (al_lte k (entries tr)).
Qed.

(** ** Rebuilding a node above a changed subtree *)

Lemma rebuild_left hd ar n s lo ro h tl' lo' tr :
  small ar -> ar !! gi n = Some s -> slot_is s lo n ro h ->
  rep ar tl' lo' -> rep ar tr ro -> NoDup (indices (Node tl' n tr)) ->
  balanced tl' -> balanced tr -> -2 <= theight tl' - theight tr <= 2 ->
  theight tl' <= 115 -> theight tr <= 115 ->
  exists ar1 j ar2,
    update (gi n) (set_l lo') (mkMap hd ar) = (Ok tt, mkMap hd ar1) /\
    rebalance (gi n) (mkMap hd ar1) = (Ok j, mkMap hd ar2) /\
    rebalanced ar ar2 tl' n tr j.
Proof.
  intros Hsm Hs Hsi Hl Hr Hnd Hbl Hbr Hd Hhl Hhr.
  destruct (NoDup_Node _ _ _ Hnd) as (_ & _ & Hil & Hir & _).
  set (ar1 := <[gi n := set_l lo' s]> ar).
  assert (frame [gi n] ar ar1) as Hf1 by by eapply frame_insert.
  assert (slot_is (set_l lo' s) lo' n ro h) as Hsi1.
  { eapply slot_is_set_l; [done|]. intros i ->. by eapply (rep_bound ar tl'). }
  destruct (rebalance_spec hd ar1 (gi n) (set_l lo' s) lo' n ro h tl' tr)
    as (j & ar2 & E & t' & ? & ? & ? & ? & ? & Hf2); try done.
  { by eapply frame_small. }
  { apply list_lookup_insert_eq. by eapply lookup_lt_Some. }
  { eapply rep_frame; [done|done|set_solver]. }
  { eapply rep_frame; [done|done|set_solver]. }
  exists ar1, j, ar2. split; [by apply update_ok|]. split; [done|].
  exists t'. do 5 (split; [done|]). eapply (frame_trans _ _ ar1); [|done].
  eapply frame_weaken; [done|]. rewrite indices_Node. set_solver.
Qed.

Lemma rebuild_right hd ar n s lo ro h tl tr' ro' :
  small ar -> ar !! gi n = Some s -> slot_is s lo n ro h ->
  rep ar tl lo -> rep ar tr' ro' -> NoDup (indices (Node tl n tr')) ->
  balanced tl -> balanced tr' -> -2 <= theight tl - theight tr' <= 2 ->
  theight tl <= 115 -> theight tr' <= 115 ->
  exists ar1 j ar2,
    update (gi n) (set_r ro') (mkMap hd ar) = (Ok tt, mkMap hd ar1) /\
    rebalance (gi n) (mkMap hd ar1) = (Ok j, mkMap hd ar2) /\
    rebalanced ar ar2 tl n tr' j.
Proof.
  intros Hsm Hs Hsi Hl Hr Hnd Hbl Hbr Hd Hhl Hhr.
  destruct (NoDup_Node _ _ _ Hnd) as (_ & _ & Hil & Hir & _).
  set (ar1 := <[gi n := set_r ro' s]> ar).
  assert (frame [gi n] ar ar1) as Hf1 by by eapply frame_insert.
  assert (slot_is (set_r ro' s) lo n ro' h) as Hsi1.
  { eapply slot_is_set_r; [done|]. intros i ->. by eapply (rep_bound ar tr'). }
  destruct (rebalance_spec hd ar1 (gi n) (set_r ro' s) lo n ro' h tl tr')
    as (j & ar2 & E & t' & ? & ? & ? & ? & ? & Hf2); try done.
  { by eapply frame_small. }
  { apply list_lookup_insert_eq. by eapply lookup_lt_Some. }
  { eapply rep_frame; [done|done|set_solver]. }
  { eapply rep_frame; [done|done|set_solver]. }
  exists ar1, j, ar2. split; [by apply update_ok|]. split; [done|].
  exists t'. do 5 (split; [done|]). eapply (frame_trans _ _ ar1); [|done].
  eapply frame_weaken; [done|]. rewrite indices_Node. set_solver.
Qed.

(** ** Insertion

    The result of a recursive insertion or removal: a balanced tree in the arena with the
    given entries, whose height differs from the old one as an AVL step may. *)
Record step_ok ar ar' t' (o' : option nat) (es : list (K * (V * T))) (xs : list nat)
    (hmin hmax : Z) : Prop := {
  st_rep : rep ar' t' o';
  st_balanced : balanced t';
  st_entries : entries t' = es;
  st_height : hmin <= theight t' <= hmax;
  st_frame : frame xs ar ar';
}.

(** One level up on the left: from the subtree [tl'] to the whole node. *)
Lemma step_left hd ar ar1 n s lo ro tl tr tl' lo' es xs hmin hmax :
  small ar -> ar !! gi n = Some s -> slot_is s lo n ro (theight (Node tl n tr)) ->
  rep ar tr ro -> balanced tr -> theight tr <= 100 ->
  step_ok ar ar1 tl' lo' es xs hmin hmax ->
  (forall j, j ∈ xs -> j <> gi n /\ j ∉ indices tr) -> NoDup (indices (Node tl' n tr)) ->
  -1 <= theight tl - theight tr <= 1 ->
  (hmin = theight tl /\ hmax = theight tl + 1 \/ hmin = theight tl - 1 /\ hmax = theight tl) ->
  exists ar2 j ar3 t',
    update (gi n) (set_l lo') (mkMap hd ar1) = (Ok tt, mkMap hd ar2) /\
    rebalance (gi n) (mkMap hd ar2) = (Ok j, mkMap hd ar3) /\
    step_ok ar ar3 t' (Some j) (es ++ entry n :: entries tr)
      (xs ++ indices (Node tl' n tr))
      (1 + Z.max (theight tl) (theight tr) + (hmin - theight tl))
      (1 + Z.max (theight tl) (theight tr) + (hmax - theight tl)) /\
    indices t' = indices (Node tl' n tr) /\ frame (indices (Node tl' n tr)) ar1 ar3.
Proof.
  intros Hsm Hs Hsi Hr Hbr Hhr [Hrep' Hbal' Hent' Hh' Hf'] Hx Hnd Hd Hcase.
  pose proof (theight_nonneg tr).
  assert (ar1 !! gi n = Some s) as Hs1.
  { destruct Hf' as (_ & -> & _); [done|]. intros Hj. by apply Hx in Hj as [? _]. }
  destruct (rebuild_left hd ar1 n s lo ro (theight (Node tl n tr)) tl' lo' tr)
    as (ar2 & j & ar3 & E1 & E2 & t' & Hrt & Het & Hbt & Hht1 & Hht2 & Hft); try done; try lia.
  { by eapply frame_small. }
  { eapply rep_frame; [done|done|]. intros j Hj Hjx. apply Hx in Hjx as [_ ?]. done. }
  exists ar2, j, ar3, t'. split; [done|]. split; [done|]. split.
  - split; [done|done| |lia|].
    + unfold entries. rewrite Het, fmap_app. by rewrite <- Hent'.
    + eapply (frame_trans _ _ ar1); (eapply frame_weaken; [done|set_solver]).
  - split; [|done]. unfold indices at 1. rewrite Het, fmap_app. by rewrite indices_Node.
Qed.

Lemma step_right hd ar ar1 n s lo ro tl tr tr' ro' es xs hmin hmax :
  small ar -> ar !! gi n = Some s -> slot_is s lo n ro (theight (Node tl n tr)) ->
  rep ar tl lo -> balanced tl -> theight tl <= 100 ->
  step_ok ar ar1 tr' ro' es xs hmin hmax ->
  (forall j, j ∈ xs -> j <> gi n /\ j ∉ indices tl) -> NoDup (indices (Node tl n tr')) ->
  -1 <= theight tl - theight tr <= 1 ->
  (hmin = theight tr /\ hmax = theight tr + 1 \/ hmin = theight tr - 1 /\ hmax = theight tr) ->
  exists ar2 j ar3 t',
    update (gi n) (set_r ro') (mkMap hd ar1) = (Ok tt, mkMap hd ar2) /\
    rebalance (gi n) (mkMap hd ar2) = (Ok j, mkMap hd ar3) /\
    step_ok ar ar3 t' (Some j) (entries tl ++ entry n :: es)
      (xs ++ indices (Node tl n tr'))
      (1 + Z.max (theight tl) (theight tr) + (hmin - theight tr))
      (1 + Z.max (theight tl) (theight tr) + (hmax - theight tr)) /\
    indices t' = indices (Node tl n tr') /\ frame (indices (Node tl n tr')) ar1 ar3.
Proof.
  intros Hsm Hs Hsi Hl Hbl Hhl [Hrep' Hbal' Hent' Hh' Hf'] Hx Hnd Hd Hcase.
  pose proof (theight_nonneg tl).
  assert (ar1 !! gi n = Some s) as Hs1.
  { destruct Hf' as (_ & -> & _); [done|]. intros Hj. by apply Hx in Hj as [? _]. }
  destruct (rebuild_right hd ar1 n s lo ro (theight (Node tl n tr)) tl tr' ro')
    as (ar2 & j & ar3 & E1 & E2 & t' & Hrt & Het & Hbt & Hht1 & Hht2 & Hft); try done; try lia.
  { by eapply frame_small. }
  { eapply rep_frame; [done|done|]. intros j Hj Hjx. apply Hx in Hjx as [_ ?]. done. }
  exists ar2, j, ar3, t'. split; [done|]. split; [done|]. split.
  - split; [done|done| |lia|].
    + unfold entries. rewrite Het, fmap_app. by rewrite <- Hent'.
    + eapply (frame_trans _ _ ar1); (eapply frame_weaken; [done|set_solver]).
  - split; [|done]. unfold indices at 1. rewrite Het, fmap_app. by rewrite indices_Node.
Qed.

(** Updating the value of a node in place. *)
Lemma put_val_node ar n s lo ro tl tr v :
  ar !! gi n = Some s -> slot_is s lo n ro (theight (Node tl n tr)) ->
  rep ar tl lo -> rep ar tr ro -> NoDup (indices (Node tl n tr)) ->
  rep (<[gi n := put_val v s]> ar) (Node tl (mkG (gi n) (gk n) v (gt n)) tr) (Some (gi n)) /\
  frame [gi n] ar (<[gi n := put_val v s]> ar).
Proof.
  intros Hs Hsi Hl Hr Hnd. destruct (NoDup_Node _ _ _ Hnd) as (_ & _ & Hil & Hir & _).
  assert (frame [gi n] ar (<[gi n := put_val v s]> ar)) as Hf by by eapply frame_insert.
  split; [|done]. split; [done|]. exists (put_val v s), lo, ro.
  split; [apply list_lookup_insert_eq; by eapply lookup_lt_Some|].
  split; [by apply slot_is_put_val|]. split; (eapply rep_frame; [done|done|set_solver]).
Qed.

(** What [insert_rec] reports, by whether the key was present ([g]): the slots [new] it
    took from the free list are none or the head of the list. *)
Definition ins_post hd ar (g : option (V * T)) (out res : @InsOut V T) (hd' : AvlTreeMapHeader)
    (new : list nat) : Prop :=
  match g with
  | Some (v0, tg0) =>
      (exists i, res = mkInsOut (Some v0) (Some tg0) (inserted_new out) i) /\ hd' = hd /\ new = []
  | None =>
      exists f sf, free_head hd = Some f /\ ar !! f = Some sf /\
        res = mkInsOut (out_old out) (Some (tag sf)) true f /\
        hd' = mkHeader (root hd) (l sf) (len hd) /\ new = [f]
  end.

(** A slot is available when the key is new. *)
Definition ins_room hd ar (g : option (V * T)) (xs : list nat) (tg : T) : Prop :=
  g = None -> exists f sf, free_head hd = Some f /\ ar !! f = Some sf /\ f ∉ xs /\ tag sf = tg.

Lemma ins_post_fresh hd ar g out res hd' new xs tg :
  ins_post hd ar g out res hd' new -> ins_room hd ar g xs tg -> forall j, j ∈ new -> j ∉ xs.
Proof.
  unfold ins_post, ins_room. destruct g as [[v0 tg0]|].
  - intros (_ & _ & ->). set_solver.
  - intros (f & sf & Hf & _ & _ & _ & ->) Hroom.
    destruct (Hroom eq_refl) as (f' & _ & Hf' & _ & Hn & _). set_solver.
Qed.

Lemma ins_post_NoDup hd ar g out res hd' new : ins_post hd ar g out res hd' new -> NoDup new.
Proof.
  unfold ins_post. destruct g as [[v0 tg0]|].
  - intros (_ & _ & ->). constructor.
  - intros (f & sf & _ & _ & _ & _ & ->). apply NoDup_singleton.
Qed.

Lemma NoDup_new (new xs : list nat) : NoDup new -> NoDup xs -> (forall j, j ∈ new -> j ∉ xs) -> NoDup (new ++ xs).
Proof. intros. apply NoDup_app. done. Qed.

(** The new node made by [alloc_slot]. *)
Lemma alloc_slot_spec hd ar k v f sf :
  free_head hd = Some f -> ar !! f = Some sf ->
  exists ar' s', alloc_slot k (Some v) (mkMap hd ar) =
      (Ok f, mkMap (mkHeader (root hd) (l sf) (len hd)) ar') /\
    ar' !! f = Some s' /\ tag s' = tag sf /\
    rep ar' (Node Leaf (mkG f k v (tag sf)) Leaf) (Some f) /\ frame [f] ar ar'.
Proof.
  intros Hfh Hf. pose proof (lookup_lt_Some _ _ _ Hf) as Hlt.
  set (s' := set_used true (set_height 1 (set_r None (set_l None (put_val v (put_key k sf)))))).
  exists (<[f := s']> ar), s'.
  assert (<[f := s']> ar !! f = Some s') as Hs' by by apply list_lookup_insert_eq.
  assert (frame [f] ar (<[f := s']> ar)) as Hfr by by eapply frame_insert.
  split; [|split; [done|split; [done|split; [|done]]]].
  - unfold alloc_slot, get_free_head, set_free_head. rewrite bind_gets. cbn [header]. rewrite Hfh. cbn [ok_or].
    rewrite bind_ret, (bind_ok _ _ _ _ _ (index_ok (mkMap hd ar) f sf Hf)), bind_modify. cbn [header arena].
    repeat (erewrite (bind_ok (update f _)) by
      (apply update_ok; first [exact Hf | by apply list_lookup_insert_eq; rewrite ?length_insert])).
    rewrite !list_insert_insert_eq. done.
  - split; [done|]. exists s', None, None. split; [done|]. split; [|done].
    split; try done.
    + unfold s', is_used, set_used. simpl. apply meta_is_used_set_used.
    + unfold s', slot_height, set_used. simpl. rewrite meta_height_set_used. by apply meta_height_set_height.
Qed.

Definition insert_rec_ok hd ar k v tg fuel t o (out : InsOut) : Prop :=
  exists o' ar' t' res hd' new,
    insert_rec fuel o k (Some v) out (mkMap hd ar) = (Ok (o', res), mkMap hd' ar') /\
    ins_post hd ar (al_get k (entries t)) out res hd' new /\
    step_ok ar ar' t' o' (al_insert k v tg (entries t)) (new ++ indices t) (theight t) (theight t + 1) /\
    indices t' ≡ₚ new ++ indices t.

Lemma insert_leaf hd ar k v tg fuel out :
  ins_room hd ar None [] tg -> insert_rec_ok hd ar k v tg (S fuel) Leaf None out.
Proof.
  intros Hroom. destruct (Hroom eq_refl) as (f & sf & Hfh & Hf & _ & Htg).
  destruct (alloc_slot_spec hd ar k v f sf Hfh Hf) as (ar' & s' & E & Hs' & Ht' & Hrep' & Hfr).
  unfold insert_rec_ok. simpl.
  rewrite (bind_ok _ _ _ _ _ E), (bind_ok _ _ _ _ _ (index_ok (mkMap _ ar') f s' Hs')), Ht'.
  eexists _, _, (Node Leaf (mkG f k v (tag sf)) Leaf), _, _, [f].
  split; [done|]. split; [by eexists _, _|]. split; [|done].
  split; try done. unfold entries. simpl. by rewrite <- Htg.
Qed.

(** The recursive operations at a node: what every case below knows about it. *)
Section node.
Variables (hd : AvlTreeMapHeader) (ar : list Slot) (k : K) (fuel : nat).
Variables (tl tr : tree) (n : gnode) (s : Slot) (lo ro : option nat).
Hypothesis Hsm : small ar.
Hypothesis Hi : ar !! gi n = Some s.
Hypothesis Hsi : slot_is s lo n ro (theight (Node tl n tr)).
Hypothesis Hl : rep ar tl lo.
Hypothesis Hr : rep ar tr ro.
Hypothesis Hnd : NoDup (indices (Node tl n tr)).
Hypothesis Hbal : balanced (Node tl n tr).
Hypothesis Hs : sorted (entries (Node tl n tr)).
Hypothesis Hh : theight (Node tl n tr) <= 100.

Lemma node_heights : 0 <= theight tl <= 99 /\ 0 <= theight tr <= 99 /\
  -1 <= theight tl - theight tr <= 1.
Proof.
  pose proof (theight_nonneg tl). pose proof (theight_nonneg tr).
  destruct Hbal as (_ & _ & ?). simpl in Hh. lia.
Qed.

Lemma insert_here v tg out : cmp k (gk n) = Eq ->
  insert_rec_ok hd ar k v tg (S fuel) (Node tl n tr) (Some (gi n)) out.
Proof.
  intros E. unfold insert_rec_ok. simpl. rewrite (bind_ok _ _ _ _ _ (index_ok (mkMap hd ar) _ s Hi)).
  rewrite (si_key _ _ _ _ _ Hsi), E.
  destruct (put_val_node ar n s lo ro tl tr v Hi Hsi Hl Hr Hnd) as [Hrep' Hf'].
  rewrite (bind_ok _ _ _ _ _ (update_ok hd ar (gi n) s _ Hi)).
  rewrite (bind_ok _ _ _ (put_val v s) (mkMap hd (<[gi n:=put_val v s]> ar)))
    by (apply index_ok, list_lookup_insert_eq; by eapply lookup_lt_Some).
  rewrite entries_Node in *. unfold entry in *.
  destruct (sorted_mid _ _ _ _ Hs) as (_ & _ & Hxs & _).
  simpl. rewrite (si_val _ _ _ _ _ Hsi), (si_tag _ _ _ _ _ Hsi), al_get_mid_eq by done.
  eexists _, _, _, _, _, []. split; [done|]. split; [by split; [eexists|]|].
  split; [split; [done|done| |simpl; lia|]|by rewrite !indices_Node].
  - apply cmp_eq in E as ->. rewrite entries_Node, al_insert_skip by done. simpl. by rewrite cmp_refl.
  - eapply frame_weaken; [done|]. rewrite indices_Node. set_solver.
Qed.

Lemma insert_left v tg out : cmp k (gk n) = Lt ->
  ins_room hd ar (al_get k (entries tl)) (indices (Node tl n tr)) tg ->
  insert_rec_ok hd ar k v tg fuel tl lo out ->
  insert_rec_ok hd ar k v tg (S fuel) (Node tl n tr) (Some (gi n)) out.
Proof.
  intros E Hroom (lo' & ar1 & tl' & res & hd' & new & E1 & Hp & Hst & Hind).
  pose proof node_heights as (? & ? & ?). destruct Hbal as (_ & Hbr & _).
  destruct (NoDup_Node _ _ _ Hnd) as (_ & _ & Hil & Hir & Hlr).
  pose proof (ins_post_fresh _ _ _ _ _ _ _ _ _ Hp Hroom) as Hfresh.
  pose proof (NoDup_new _ _ (ins_post_NoDup _ _ _ _ _ _ _ Hp) Hnd Hfresh) as Hnd'.
  rewrite indices_Node in Hfresh, Hnd'.
  destruct (step_left hd' ar ar1 n s lo ro tl tr tl' lo' _ _ _ _ Hsm Hi Hsi Hr Hbr ltac:(lia) Hst)
    as (ar2 & j & ar3 & t' & E2 & E3 & Hst' & Hind' & _); [set_solver| |lia|lia|].
  { by rewrite indices_Node, Hind, <- app_assoc. }
  unfold insert_rec_ok. simpl. rewrite (bind_ok _ _ _ _ _ (index_ok (mkMap hd ar) _ s Hi)).
  rewrite (si_key _ _ _ _ _ Hsi), E, (si_l _ _ _ _ _ Hsi), (bind_ok _ _ _ _ _ E1). simpl.
  rewrite (bind_ok _ _ _ _ _ E2), (bind_ok _ _ _ _ _ E3). rewrite entries_Node in *. unfold entry in *.
  eexists _, _, t', res, hd', new. split; [done|]. rewrite al_get_mid_lt by done. split; [done|].
  rewrite Hind', !indices_Node, Hind, <- app_assoc. split; [|done].
  rewrite al_insert_lt by done. destruct Hst' as [? ? ? ? Hf]. split; try done; [simpl; lia|].
  eapply frame_weaken; [done|]. rewrite indices_Node, Hind. set_solver.
Qed.

Lemma insert_right v tg out : cmp k (gk n) = Gt ->
  ins_room hd ar (al_get k (entries tr)) (indices (Node tl n tr)) tg ->
  insert_rec_ok hd ar k v tg fuel tr ro out ->
  insert_rec_ok hd ar k v tg (S fuel) (Node tl n tr) (Some (gi n)) out.
Proof.
  intros E Hroom (ro' & ar1 & tr' & res & hd' & new & E1 & Hp & Hst & Hind).
  pose proof node_heights as (? & ? & ?). destruct Hbal as (Hbl & _ & _).
  destruct (NoDup_Node _ _ _ Hnd) as (_ & _ & Hil & Hir & Hlr).
  pose proof (ins_post_fresh _ _ _ _ _ _ _ _ _ Hp Hroom) as Hfresh.
  pose proof (NoDup_new _ _ (ins_post_NoDup _ _ _ _ _ _ _ Hp) Hnd Hfresh) as Hnd'.
  rewrite indices_Node in Hfresh, Hnd'.
  assert (indices (Node tl n tr') ≡ₚ new ++ indices tl ++ gi n :: indices tr) as Hperm.
  { rewrite indices_Node, Hind. solve_Permutation. }
  destruct (step_right hd' ar ar1 n s lo ro tl tr tr' ro' _ _ _ _ Hsm Hi Hsi Hl Hbl ltac:(lia) Hst)
    as (ar2 & j & ar3 & t' & E2 & E3 & Hst' & Hind' & _); [set_solver|by rewrite Hperm|lia|lia|].
  unfold insert_rec_ok. simpl. rewrite (bind_ok _ _ _ _ _ (index_ok (mkMap hd ar) _ s Hi)).
  rewrite (si_key _ _ _ _ _ Hsi), E, (si_r _ _ _ _ _ Hsi), (bind_ok _ _ _ _ _ E1). simpl.
  rewrite (bind_ok _ _ _ _ _ E2), (bind_ok _ _ _ _ _ E3). rewrite entries_Node in *. unfold entry in *.
  destruct (sorted_mid _ _ _ _ Hs) as (_ & _ & Hxs & _).
  eexists _, _, t', res, hd', new. split; [done|]. rewrite al_get_mid_gt by done. split; [done|].
  rewrite Hind', Hperm, <- indices_Node. split; [|done].
  rewrite al_insert_skip by (intros e He; eapply klt_trans; [by apply Hxs|by apply cmp_gt]).
  simpl. rewrite E. destruct Hst' as [? ? ? ? Hf]. split; try done; [simpl; lia|].
  eapply frame_weaken; [done|]. rewrite Hperm, indices_Node. set_solver.
Qed.

End node.

Lemma ins_room_sub hd ar g xs ys tg : ins_room hd ar g ys tg -> xs ⊆ ys -> ins_room hd ar g xs tg.
Proof. intros Hr Hs Hg. destruct (Hr Hg) as (f & sf & ? & ? & ? & ?). exists f, sf. set_solver. Qed.

Lemma insert_rec_spec hd ar k v tg fuel t o out :
  small ar -> rep ar t o -> NoDup (indices t) -> balanced t -> sorted (entries t) ->
  theight t <= 100 -> theight t < Z.of_nat fuel ->
  ins_room hd ar (al_get k (entries t)) (indices t) tg ->
  insert_rec_ok hd ar k v tg fuel t o out.
Proof.
  intros Hsm. revert t o. induction fuel as [|fuel IH]; intros t o Hrep Hnd Hbal Hs Hh Hfu Hroom.
  { pose proof (theight_nonneg t); lia. }
  destruct t as [|tl n tr].
  { simpl in Hrep. subst o. by apply insert_leaf. }
  destruct Hrep as (-> & s & lo & ro & Hi & Hsi & Hl & Hr).
  destruct (NoDup_Node _ _ _ Hnd) as (Hndl & Hndr & _). pose proof Hbal as (Hbl & Hbr & _).
  pose proof Hs as Hs'. rewrite entries_Node in Hs', Hroom.
  destruct (sorted_mid _ _ _ _ Hs') as (Hsl & Hsr & _). simpl in Hfu.
  destruct (node_heights tl tr n Hbal Hh) as (? & ? & _).
  destruct (cmp k (gk n)) eqn:E.
  - by eapply insert_here.
  - unfold entry in Hroom. rewrite al_get_mid_lt in Hroom by done.
    eapply insert_left; try done. apply IH; try done; [lia..|].
    eapply ins_room_sub; [done|]. rewrite indices_Node. set_solver.
  - unfold entry in Hroom. rewrite al_get_mid_gt in Hroom by done.
    eapply insert_right; try done. apply IH; try done; [lia..|].
    eapply ins_room_sub; [done|]. rewrite indices_Node. set_solver.
Qed.

(** A new key and no free slot: the error, and nothing has changed. *)
Lemma insert_rec_full hd ar k v fuel t o out :
  rep ar t o -> sorted (entries t) -> theight t < Z.of_nat fuel ->
  al_get k (entries t) = None -> free_head hd = None ->
  insert_rec fuel o k (Some v) out (mkMap hd ar) = (Err Full, mkMap hd ar).
Proof.
  intros Hrep Hs Hfu Hg Hfree. revert t o Hrep Hs Hfu Hg.
  induction fuel as [|fuel IH]; intros t o Hrep Hs Hfu Hg; [pose proof (theight_nonneg t); lia|].
  destruct t as [|tl n tr]; simpl in Hrep, Hfu.
  { subst. simpl. unfold alloc_slot, get_free_head. rewrite bind_assoc, bind_gets. simpl.
    by rewrite Hfree. }
  destruct Hrep as (-> & s & lo & ro & Hi & Hsi & Hl & Hr). rewrite entries_Node in *.
  destruct (sorted_mid _ _ _ _ Hs) as (Hsl & Hsr & _).
  simpl. rewrite (bind_ok _ _ _ _ _ (index_ok (mkMap hd ar) _ s Hi)), (si_key _ _ _ _ _ Hsi).
  unfold entry in *. destruct (cmp k (gk n)) eqn:E.
  - by rewrite al_get_mid_eq in Hg.
  - rewrite al_get_mid_lt in Hg by done. rewrite (si_l _ _ _ _ _ Hsi).
    by rewrite (bind_err _ _ _ _ _ (IH tl lo Hl Hsl ltac:(lia) Hg)).
  - rewrite al_get_mid_gt in Hg by done. rewrite (si_r _ _ _ _ _ Hsi).
    by rewrite (bind_err _ _ _ _ _ (IH tr ro Hr Hsr ltac:(lia) Hg)).
Qed.

End refine.
