(* ===== verification/AvlDelete.v ===== *)
(** * Removal from the AVL arena

    [delete_rec] against the abstract removal.  A node with two children takes over the
    entry of its in-order successor, and the two slots exchange their tags, so that every
    remaining key keeps its tag and the freed slot carries the tag of the removed key. *)

From stdpp Require Import prelude sorting.
From Stdlib Require Import ZArith Lia.
From S2P Require Import Prelude Avl AvlRep AvlSpec AvlRefine.
Import AvlMap.

Local Open Scope Z_scope.

Section delete.
Context {K V T : Type} `{Ord K}.

Abbreviation Slot := (Slot K V T).
Abbreviation gnode := (gnode K V T).
Abbreviation tree := (tree K V T).
Implicit Types (s : Slot) (ar : list Slot) (t : tree) (n : gnode).

Definition retag (tg : T) n : gnode := mkG (gi n) (gk n) (gv n) tg.

Fixpoint min_node t : option gnode :=
  match t with
  | Leaf => None
  | Node Leaf n _ => Some n
  | Node tl _ _ => min_node tl
  end.

Fixpoint retag_min (tg : T) t : tree :=
  match t with
  | Leaf => Leaf
  | Node Leaf n tr => Node Leaf (retag tg n) tr
  | Node tl n tr => Node (retag_min tg tl) n tr
  end.

Definition fh_small (hd : AvlTreeMapHeader) : Prop :=
  forall i, free_head hd = Some i -> Z.of_nat i < 65535.

(** What [delete_rec] reports: the slots [gone] that moved to the free list are none, or
    the one that now carries the tag of the removed key. *)
Definition del_post (hd : AvlTreeMapHeader) ar' (g : option (V * T)) (out res : @DelOut V)
    (hd' : AvlTreeMapHeader) (gone : list nat) : Prop :=
  match g with
  | None => res = out /\ hd' = hd /\ gone = []
  | Some (v0, tg0) =>
      res = mkDelOut (Some v0) true /\
      exists f sf, hd' = mkHeader (root hd) (Some f) (len hd) /\ gone = [f] /\
        ar' !! f = Some sf /\ is_used sf = false /\ tag sf = tg0 /\ l sf = free_head hd
  end.

Definition delete_rec_ok hd ar k fuel t o (out : DelOut) : Prop :=
  exists o' ar' t' res hd' gone,
    delete_rec fuel o k out (mkMap hd ar) = (Ok (o', res), mkMap hd' ar') /\
    del_post hd ar' (al_get k (entries t)) out res hd' gone /\
    step_ok ar ar' t' o' (al_remove k (entries t)) (indices t) (theight t - 1) (theight t) /\
    gone ++ indices t' ≡ₚ indices t.

Lemma Leaf_dec t : t = Leaf \/ t <> Leaf.
Proof. by destruct t; [left|right]. Qed.

Lemma rep_Some ar t o : rep ar t o -> t <> Leaf -> exists i, o = Some i.
Proof. destruct t; [done|]. intros (-> & _) _. by eexists. Qed.

(** ** The leftmost node *)

Lemma min_node_elements t nm : min_node t = Some nm -> exists rest, elements t = nm :: rest.
Proof.
  induction t as [|tl IHl n tr _]; [done|]. simpl. destruct tl as [|a m b]; simpl in *.
  - intros [= ->]. by eexists.
  - intros Hm. destruct (IHl Hm) as [rest ->]. simpl. by eexists.
Qed.

Lemma min_node_Some t : t <> Leaf -> exists nm, min_node t = Some nm.
Proof.
  induction t as [|tl IHl n tr _]; [done|]. intros _. simpl.
  destruct tl as [|a m b]; [by eexists|]. by apply IHl.
Qed.

Lemma min_node_in t nm : min_node t = Some nm -> gi nm ∈ indices t.
Proof. intros Hm. destruct (min_node_elements _ _ Hm) as [rest E]. unfold indices. rewrite E. set_solver. Qed.

Lemma min_node_slot ar t o nm : rep ar t o -> min_node t = Some nm ->
  exists sm lo ro h, ar !! gi nm = Some sm /\ slot_is sm lo nm ro h.
Proof.
  revert o. induction t as [|tl IHl n tr _]; intros o; [done|].
  intros (_ & s & lo & ro & Hs & Hsi & Hl & Hr). simpl.
  destruct tl as [|a m b]; [intros [= <-]; by eexists s, lo, ro, _|]. by eapply IHl.
Qed.

Lemma min_index_spec hd ar fuel t i nm :
  rep ar t (Some i) -> theight t < Z.of_nat fuel -> min_node t = Some nm ->
  min_index fuel i (mkMap hd ar) = (Ok (gi nm), mkMap hd ar).
Proof.
  revert t i. induction fuel as [|fuel IH]; intros t i Hrep Hf Hm; [pose proof (theight_nonneg t); lia|].
  destruct t as [|tl n tr]; [done|].
  destruct Hrep as ([= ->] & s & lo & ro & Hs & Hsi & Hl & Hr). simpl in Hf. simpl.
  rewrite (bind_ok _ _ _ _ _ (index_ok (mkMap hd ar) _ s Hs)), (si_l _ _ _ _ _ Hsi).
  pose proof (theight_nonneg tr). simpl in Hm. destruct tl as [|a m b].
  - simpl in Hl. subst lo. by injection Hm as ->.
  - pose proof Hl as (-> & _). eapply IH; [done|lia|done].
Qed.

Lemma theight_retag_min tg t : theight (retag_min tg t) = theight t.
Proof.
  induction t as [|tl IHl n tr _]; [done|]. simpl. destruct tl as [|a m b]; [done|].
  simpl in *. by rewrite IHl.
Qed.

Lemma balanced_retag_min tg t : balanced t -> balanced (retag_min tg t).
Proof.
  induction t as [|tl IHl n tr _]; [done|]. simpl. destruct tl as [|a m b]; [done|].
  intros (Hl & Hr & Hd). change (balanced (Node (retag_min tg (Node a m b)) n tr)).
  split; [auto|]. split; [done|]. by rewrite theight_retag_min.
Qed.

Lemma elements_retag_min tg t nm rest : min_node t = Some nm -> elements t = nm :: rest ->
  elements (retag_min tg t) = retag tg nm :: rest.
Proof.
  revert rest. induction t as [|tl IHl n tr _]; intros rest; [done|].
  destruct tl as [|a m b].
  - simpl. by intros [= ->] [= ->].
  - set (tl := Node a m b) in *. change (min_node (Node tl n tr)) with (min_node tl).
    change (retag_min tg (Node tl n tr)) with (Node (retag_min tg tl) n tr). clearbody tl.
    intros Hm. destruct (min_node_elements _ _ Hm) as [rest' E]. simpl. rewrite E. intros [= <-].
    by rewrite (IHl rest' Hm E).
Qed.

Lemma indices_retag_min tg t : indices (retag_min tg t) = indices t.
Proof.
  destruct t as [|tl n tr] eqn:E; [done|]. rewrite <- E. destruct (min_node_Some t) as [nm Hm]; [by subst|].
  destruct (min_node_elements _ _ Hm) as [rest Hel]. unfold indices.
  by rewrite (elements_retag_min tg t nm rest Hm Hel), Hel.
Qed.

Lemma rep_retag_min ar ar' t o nm sm tg :
  rep ar t o -> NoDup (indices t) -> min_node t = Some nm -> ar !! gi nm = Some sm ->
  ar' !! gi nm = Some (put_tag tg sm) ->
  (forall j, j ∈ indices t -> j <> gi nm -> ar' !! j = ar !! j) -> rep ar' (retag_min tg t) o.
Proof.
  intros Hrep Hnd Hm Hsm Hsm' Hf. revert o Hrep Hnd Hm Hf.
  induction t as [|tl IHl n tr _]; intros o Hrep Hnd Hm Hf; [done|].
  destruct (NoDup_Node _ _ _ Hnd) as (Hndl & Hndr & Hil & Hir & Hlr).
  destruct Hrep as (-> & s & lo & ro & Hs & Hsi & Hl & Hr). rewrite indices_Node in Hf.
  assert (forall t0 o0, rep ar t0 o0 -> (forall j, j ∈ indices t0 -> j ∈ indices tr) -> gi nm ∉ indices tr ->
    rep ar' t0 o0) as Hkeep.
  { induction t0 as [|a IHa m b IHb]; intros o0 Hr0 Hsub Hn; [done|].
    destruct Hr0 as (-> & s0 & ? & ? & Hs0 & ? & ? & ?). rewrite indices_Node in Hsub.
    split; [done|]. eexists s0, _, _. rewrite Hf by set_solver.
    split; [done|]. split; [done|]. split; [apply IHa|apply IHb]; try done; set_solver. }
  destruct tl as [|a m b].
  - injection Hm as ->. split; [done|]. rewrite Hs in Hsm. injection Hsm as ->.
    exists (put_tag tg sm), lo, ro. split; [done|]. split; [by destruct Hsi|]. split; [done|].
    by apply Hkeep.
  - change (min_node (Node a m b) = Some nm) in Hm.
    assert (gi nm ∈ indices (Node a m b)) as Hin by by apply min_node_in.
    change (rep ar' (Node (retag_min tg (Node a m b)) n tr) (Some (gi n))).
    set (tl := Node a m b) in *. clearbody tl. assert (gi n <> gi nm) by (intros Heq; rewrite Heq in Hil; done).
    split; [done|]. exists s, lo, ro. rewrite Hf by set_solver.
    split; [done|]. split; [cbn [theight]; by rewrite theight_retag_min|].
    split; [apply IHl; try done; intros; apply Hf; set_solver|]. apply Hkeep; [done|done|by apply Hlr].
Qed.

(** ** Freeing a slot *)

Lemma free_slot_spec hd ar i s :
  fh_small hd -> ar !! i = Some s ->
  exists ar' s', free_slot i (mkMap hd ar) = (Ok tt, mkMap (mkHeader (root hd) (Some i) (len hd)) ar') /\
    ar' !! i = Some s' /\ is_used s' = false /\ tag s' = tag s /\ l s' = free_head hd /\
    frame [i] ar ar'.
Proof.
  intros Hfh Hi. pose proof (lookup_lt_Some _ _ _ Hi) as Hlt.
  set (s' := set_l (free_head hd) (set_r None (set_height 0 (set_used false s)))).
  exists (<[i := s']> ar), s'. split.
  - unfold free_slot, get_free_head, set_free_head.
    repeat (erewrite (bind_ok (update i _)) by
      (apply update_ok; first [exact Hi | by apply list_lookup_insert_eq; rewrite ?length_insert])).
    rewrite bind_gets. cbn [header].
    erewrite (bind_ok (update i _)) by (apply update_ok, list_lookup_insert_eq; by rewrite !length_insert).
    by rewrite !list_insert_insert_eq.
  - split; [by apply list_lookup_insert_eq|]. split; [|split; [done|split; [by apply ix_bind|by eapply frame_insert]]].
    unfold s', is_used, set_l, set_r, set_height, set_used. simpl.
    by rewrite meta_is_used_set_height, meta_is_used_set_used.
Qed.

Lemma del_post_frame hd ar1 ar2 g out res hd' gone xs :
  del_post hd ar1 g out res hd' gone -> frame xs ar1 ar2 -> (forall j, j ∈ gone -> j ∉ xs) ->
  del_post hd ar2 g out res hd' gone.
Proof.
  intros Hp (_ & Hf & _) Hd. destruct g as [[v0 tg0]|]; [|done].
  destruct Hp as (-> & f & sf & -> & -> & Hlk & ?). split; [done|].
  exists f, sf. rewrite Hf by set_solver. done.
Qed.

(** [al_remove] and [al_get] around the node [n] of a sorted tree. *)
Lemma al_remove_mid_eq (xs : list (K * (V * T))) k0 x ys : sorted (xs ++ (k0, x) :: ys) ->
  al_remove k0 (xs ++ (k0, x) :: ys) = xs ++ ys.
Proof.
  intros Hs. destruct (sorted_mid _ _ _ _ Hs) as (_ & _ & Hx & _).
  rewrite al_remove_skip by done. simpl. by rewrite cmp_refl.
Qed.

Section node.
Variables (hd : AvlTreeMapHeader) (ar : list Slot) (k : K) (fuel : nat).
Variables (tl tr : tree) (n : gnode) (s : Slot) (lo ro : option nat).
Hypothesis Hsm : small ar.
Hypothesis Hfh : fh_small hd.
Hypothesis Hi : ar !! gi n = Some s.
Hypothesis Hsi : slot_is s lo n ro (theight (Node tl n tr)).
Hypothesis Hl : rep ar tl lo.
Hypothesis Hr : rep ar tr ro.
Hypothesis Hnd : NoDup (indices (Node tl n tr)).
Hypothesis Hbal : balanced (Node tl n tr).
Hypothesis Hs : sorted (entries (Node tl n tr)).
Hypothesis Hh : theight (Node tl n tr) <= 100.

Lemma delete_left out : cmp k (gk n) = Lt ->
  delete_rec_ok hd ar k fuel tl lo out ->
  delete_rec_ok hd ar k (S fuel) (Node tl n tr) (Some (gi n)) out.
Proof.
  intros E (lo' & ar1 & tl' & res & hd' & gone & E1 & Hp & Hst & Hind).
  pose proof (node_heights _ _ _ Hbal Hh) as (? & ? & ?). destruct Hbal as (_ & Hbr & _).
  destruct (NoDup_Node _ _ _ Hnd) as (_ & _ & Hil & Hir & Hlr).
  assert (gone ++ indices (Node tl' n tr) ≡ₚ indices (Node tl n tr)) as Hperm.
  { rewrite !indices_Node, app_assoc. by rewrite Hind. }
  pose proof Hnd as Hnd'. rewrite <- Hperm in Hnd'. apply NoDup_app in Hnd' as (_ & Hdis & Hnd').
  destruct (step_left hd' ar ar1 n s lo ro tl tr tl' lo' _ _ _ _ Hsm Hi Hsi Hr Hbr ltac:(lia) Hst)
    as (ar2 & j & ar3 & t' & E2 & E3 & Hst' & Hind' & Hf13); [set_solver|done|lia|lia|].
  unfold delete_rec_ok. simpl. rewrite (bind_ok _ _ _ _ _ (index_ok (mkMap hd ar) _ s Hi)).
  rewrite (si_key _ _ _ _ _ Hsi), E, (si_l _ _ _ _ _ Hsi), (bind_ok _ _ _ _ _ E1). simpl.
  rewrite (bind_ok _ _ _ _ _ E2), (bind_ok _ _ _ _ _ E3). rewrite entries_Node in *. unfold entry in *.
  destruct (sorted_mid _ _ _ _ Hs) as (_ & _ & _ & Hys).
  eexists _, _, t', res, hd', gone. split; [done|]. rewrite al_get_mid_lt by done.
  split; [by eapply del_post_frame|]. rewrite Hind'. split; [|done].
  rewrite al_remove_lt by done. destruct Hst' as [? ? ? ? Hf]. split; try done; [simpl; lia|].
  eapply frame_weaken; [done|]. rewrite <- Hperm, indices_Node. rewrite <- Hind. set_solver.
Qed.

Lemma delete_right out : cmp k (gk n) = Gt ->
  delete_rec_ok hd ar k fuel tr ro out ->
  delete_rec_ok hd ar k (S fuel) (Node tl n tr) (Some (gi n)) out.
Proof.
  intros E (ro' & ar1 & tr' & res & hd' & gone & E1 & Hp & Hst & Hind).
  pose proof (node_heights _ _ _ Hbal Hh) as (? & ? & ?). destruct Hbal as (Hbl & _ & _).
  destruct (NoDup_Node _ _ _ Hnd) as (_ & _ & Hil & Hir & Hlr).
  assert (gone ++ indices (Node tl n tr') ≡ₚ indices (Node tl n tr)) as Hperm.
  { rewrite !indices_Node, <- Hind. solve_Permutation. }
  pose proof Hnd as Hnd'. rewrite <- Hperm in Hnd'. apply NoDup_app in Hnd' as (_ & Hdis & Hnd').
  destruct (step_right hd' ar ar1 n s lo ro tl tr tr' ro' _ _ _ _ Hsm Hi Hsi Hl Hbl ltac:(lia) Hst)
    as (ar2 & j & ar3 & t' & E2 & E3 & Hst' & Hind' & Hf13); [set_solver|done|lia|lia|].
  unfold delete_rec_ok. simpl. rewrite (bind_ok _ _ _ _ _ (index_ok (mkMap hd ar) _ s Hi)).
  rewrite (si_key _ _ _ _ _ Hsi), E, (si_r _ _ _ _ _ Hsi), (bind_ok _ _ _ _ _ E1). simpl.
  rewrite (bind_ok _ _ _ _ _ E2), (bind_ok _ _ _ _ _ E3). rewrite entries_Node in *. unfold entry in *.
  destruct (sorted_mid _ _ _ _ Hs) as (_ & _ & Hxs & _).
  eexists _, _, t', res, hd', gone. split; [done|]. rewrite al_get_mid_gt by done.
  split; [by eapply del_post_frame|]. rewrite Hind'. split; [|done].
  rewrite al_remove_skip by (intros e He; eapply klt_trans; [by apply Hxs|by apply cmp_gt]).
  simpl. rewrite E. destruct Hst' as [? ? ? ? Hf]. split; try done; [simpl; lia|].
  eapply frame_weaken; [done|]. rewrite <- Hperm, indices_Node. rewrite <- Hind. set_solver.
Qed.

(** At most one child: the child takes the place of the node. *)
Lemma delete_here_one out : cmp k (gk n) = Eq -> tl = Leaf \/ tr = Leaf ->
  delete_rec_ok hd ar k (S fuel) (Node tl n tr) (Some (gi n)) out.
Proof.
  intros E Hone. pose proof (node_heights _ _ _ Hbal Hh) as (? & ? & ?).
  pose proof Hbal as (Hbl & Hbr & _).
  destruct (NoDup_Node _ _ _ Hnd) as (_ & _ & Hil & Hir & Hlr).
  destruct (free_slot_spec hd ar (gi n) s Hfh Hi) as (ar' & s' & E1 & Hs' & Hu & Ht & Hl' & Hf).
  unfold delete_rec_ok. simpl. rewrite (bind_ok _ _ _ _ _ (index_ok (mkMap hd ar) _ s Hi)).
  rewrite (si_key _ _ _ _ _ Hsi), E, (si_l _ _ _ _ _ Hsi), (si_r _ _ _ _ _ Hsi).
  rewrite entries_Node in *. unfold entry in *. apply cmp_eq in E as ->.
  rewrite al_get_mid_eq by (done || apply cmp_refl). rewrite al_remove_mid_eq by done.
  assert (forall o' t', (t' = tl /\ tr = Leaf /\ o' = lo \/ t' = tr /\ tl = Leaf /\ o' = ro) ->
    exists o'' ar'' t'' res hd' gone,
      (free_slot (gi n);; mret (o', mkDelOut (Some (val s)) true)) (mkMap hd ar) =
        (Ok (o'', res), mkMap hd' ar'') /\
      del_post hd ar'' (Some (gv n, gt n)) out res hd' gone /\
      step_ok ar ar'' t'' o'' (entries tl ++ entries tr) (indices (Node tl n tr))
        (1 + Z.max (theight tl) (theight tr) - 1) (1 + Z.max (theight tl) (theight tr)) /\
      gone ++ indices t'' ≡ₚ indices (Node tl n tr)) as Hfin.
  { intros o' t' Hc. rewrite (bind_ok _ _ _ _ _ E1), (si_val _ _ _ _ _ Hsi).
    eexists _, ar', t', _, _, [gi n]. split; [done|].
    split; [split; [done|]; eexists _, _; by rewrite Ht, (si_tag _ _ _ _ _ Hsi)|].
    rewrite indices_Node. destruct Hc as [(-> & -> & ->)|(-> & -> & ->)].
    - split; [|simpl; by rewrite Permutation_app_comm]. split; [|done| |simpl; lia|].
      + eapply rep_frame; [done|done|set_solver].
      + by rewrite app_nil_r.
      + eapply frame_weaken; [done|set_solver].
    - split; [|done]. split; [|done|done|simpl; lia|].
      + eapply rep_frame; [done|done|set_solver].
      + eapply frame_weaken; [done|set_solver]. }
  destruct Hone as [-> | ->]; simpl in Hl, Hr; subst.
  - destruct ro as [c|]; eapply Hfin; by right.
  - destruct lo as [c|]; eapply Hfin; by left.
Qed.

(** Moving the successor's entry up and exchanging the tags. *)
Lemma swap_successor nm sm lom rom hm : min_node tr = Some nm ->
  ar !! gi nm = Some sm -> slot_is sm lom nm rom hm ->
  let s2 := put_tag (tag sm) (put_val (val sm) (put_key (key sm) s)) in
  let ar2 := <[gi nm := put_tag (tag s) sm]> (<[gi n := s2]> ar) in
  ar2 !! gi n = Some s2 /\
  slot_is s2 lo (mkG (gi n) (gk nm) (gv nm) (gt nm)) ro (theight (Node tl n tr)) /\
  rep ar2 tl lo /\ rep ar2 (retag_min (gt n) tr) ro /\ frame (gi n :: indices tr) ar ar2.
Proof.
  intros Hm Hsm' Hsim s2 ar2.
  destruct (NoDup_Node _ _ _ Hnd) as (_ & Hndr & Hil & Hir & Hlr).
  pose proof (min_node_in _ _ Hm) as Hin.
  assert (gi nm <> gi n) as Hne by (intros Heq; rewrite Heq in Hin; done).
  assert (frame (gi n :: indices tr) ar ar2) as Hf.
  { split; [unfold ar2; by rewrite !length_insert|]. split.
    - intros j Hj. unfold ar2. rewrite !list_lookup_insert_ne by set_solver. done.
    - unfold ar2. rewrite !list_fmap_insert. apply Permutation_insert_swap;
        by rewrite list_lookup_fmap, ?Hi, ?Hsm'. }
  split; [unfold ar2; rewrite list_lookup_insert_ne by done; apply list_lookup_insert_eq; by eapply lookup_lt_Some|].
  split; [destruct Hsi, Hsim; split; done|]. split; [eapply rep_frame; [done|done|set_solver]|]. split; [|done].
  rewrite <- (si_tag _ _ _ _ _ Hsi). eapply rep_retag_min; [exact Hr|done|done|exact Hsm'| |].
  - unfold ar2. apply list_lookup_insert_eq. rewrite length_insert. by eapply lookup_lt_Some.
  - intros j Hj Hjn. unfold ar2. rewrite !list_lookup_insert_ne by set_solver. done.
Qed.

(** The recursive call that removes the successor from the right subtree. *)
Lemma retagged_right nm rest : min_node tr = Some nm -> elements tr = nm :: rest ->
  let tr' := retag_min (gt n) tr in
  entries tr' = (gk nm, (gv nm, gt n)) :: (entry <$> rest) /\
  sorted (entries tr') /\ NoDup (indices tr') /\ balanced tr' /\ theight tr' = theight tr /\
  entries tr = entry nm :: (entry <$> rest) /\
  al_get (gk nm) (entries tr') = Some (gv nm, gt n) /\ al_remove (gk nm) (entries tr') = entry <$> rest.
Proof.
  intros Hm Hel tr'. destruct (NoDup_Node _ _ _ Hnd) as (_ & Hndr & _). pose proof Hbal as (_ & Hbr & _).
  assert (entries tr' = (gk nm, (gv nm, gt n)) :: (entry <$> rest)) as He.
  { unfold entries, tr'. by rewrite (elements_retag_min _ _ _ _ Hm Hel). }
  rewrite entries_Node in Hs. destruct (sorted_mid _ _ _ _ Hs) as (_ & Hsr & _ & _).
  unfold entries in Hsr. rewrite Hel in Hsr. simpl in Hsr.
  split; [done|]. rewrite He. simpl. rewrite cmp_refl.
  split; [unfold sorted in *; by simpl in *|]. unfold tr'. rewrite indices_retag_min, theight_retag_min.
  split; [done|]. split; [by apply balanced_retag_min|]. split; [done|].
  split; [|done]. unfold entries. by rewrite Hel.
Qed.

(** The code between the comparison and the recursive call moves the successor up. *)
Lemma run_swap nm sm lom rom hm {A} (f : K -> Slot -> M (AvlTreeMap K V T) Error A) ri :
  ro = Some ri -> min_node tr = Some nm -> ar !! gi nm = Some sm -> slot_is sm lom nm rom hm ->
  let s2 := put_tag (tag sm) (put_val (val sm) (put_key (key sm) s)) in
  (mfuel ← fuel_of;
   succ ← min_index mfuel ri;
   ss ← index succ;
   update (gi n) (put_key ss.(key));;
   update (gi n) (put_val ss.(val));;
   si ← index (gi n);
   update (gi n) (put_tag ss.(tag));;
   update succ (put_tag si.(tag));;
   si ← index (gi n);
   f ss.(key) si) (mkMap hd ar) =
  f (gk nm) s2 (mkMap hd (<[gi nm := put_tag (tag s) sm]> (<[gi n := s2]> ar))).
Proof.
  intros Hro Hm Hsm' Hsim s2. destruct (NoDup_Node _ _ _ Hnd) as (_ & Hndr & Hil & Hir & Hlr).
  pose proof (min_node_in _ _ Hm) as Hin. pose proof (lookup_lt_Some _ _ _ Hi) as Hlt.
  assert (gi nm <> gi n) as Hne by (intros Heq; rewrite Heq in Hin; done).
  unfold fuel_of. rewrite bind_gets. cbn [arena]. rewrite Hro in Hr.
  pose proof (rep_height_bound _ _ _ Hr Hndr).
  rewrite (bind_ok _ _ _ _ _ (min_index_spec hd ar (S (length ar)) tr ri nm Hr ltac:(lia) Hm)).
  rewrite (bind_ok _ _ _ _ _ (index_ok (mkMap hd ar) _ sm Hsm')).
  rewrite (bind_ok _ _ _ _ _ (update_ok hd ar (gi n) s _ Hi)).
  erewrite (bind_ok (update (gi n) _)) by (apply update_ok, list_lookup_insert_eq; done).
  rewrite list_insert_insert_eq.
  erewrite (bind_ok (index (gi n))) by (apply (index_ok (mkMap hd _)), list_lookup_insert_eq; done).
  erewrite (bind_ok (update (gi n) _)) by (apply update_ok, list_lookup_insert_eq; done).
  rewrite list_insert_insert_eq.
  erewrite (bind_ok (update (gi nm) _)) by (apply update_ok; by rewrite list_lookup_insert_ne).
  erewrite (bind_ok (index (gi n))).
  2: { apply (index_ok (mkMap hd _)). cbn [arena]. rewrite list_lookup_insert_ne by done. by apply list_lookup_insert_eq. }
  by rewrite <- (si_key _ _ _ _ _ Hsim).
Qed.

Lemma delete_here_two out : cmp k (gk n) = Eq -> tl <> Leaf -> tr <> Leaf ->
  (forall ar' k' t' o', small ar' -> rep ar' t' o' -> NoDup (indices t') -> balanced t' ->
     sorted (entries t') -> theight t' <= theight tr -> forall out', delete_rec_ok hd ar' k' fuel t' o' out') ->
  delete_rec_ok hd ar k (S fuel) (Node tl n tr) (Some (gi n)) out.
Proof.
  intros E Htl Htr IH. pose proof (node_heights _ _ _ Hbal Hh) as (? & ? & ?).
  pose proof Hbal as (Hbl & Hbr & _). pose proof (NoDup_Node _ _ _ Hnd) as (_ & Hndr & Hil & Hir & Hlr).
  destruct (min_node_Some tr Htr) as [nm Hm]. destruct (min_node_elements _ _ Hm) as [rest Hel].
  destruct (min_node_slot ar tr ro nm Hr Hm) as (sm & lom & rom & hm & Hsm' & Hsim).
  destruct (swap_successor nm sm lom rom hm Hm Hsm' Hsim) as (Hi2 & Hsi2 & Hl2 & Hr2 & Hf2).
  destruct (retagged_right nm rest Hm Hel) as (He' & Hs' & Hnd' & Hb' & Hh' & He & Hg' & Hrm').
  set (s2 := put_tag (tag sm) (put_val (val sm) (put_key (key sm) s))) in *.
  set (ar2 := <[gi nm := put_tag (tag s) sm]> (<[gi n := s2]> ar)) in *.
  set (tr' := retag_min (gt n) tr) in *. set (n' := mkG (gi n) (gk nm) (gv nm) (gt nm)) in *.
  pose proof (frame_small _ _ _ Hf2 Hsm) as Hsm2.
  destruct (IH ar2 (gk nm) tr' ro Hsm2 Hr2 Hnd' Hb' Hs' ltac:(lia) (mkDelOut None false))
    as (ro' & ar3 & tr'' & res & hd' & gone & E3 & Hp & Hst & Hind). rewrite Hg', ?Hrm' in *.
  assert (indices tr' = indices tr) as Hidx by apply indices_retag_min. rewrite Hidx in *.
  assert (gone ++ indices (Node tl n' tr'') ≡ₚ indices (Node tl n tr)) as Hperm.
  { rewrite !indices_Node, <- Hind. simpl. solve_Permutation. }
  pose proof Hnd as Hnd2. rewrite <- Hperm in Hnd2. apply NoDup_app in Hnd2 as (_ & Hdis & Hnd2).
  assert (theight (Node tl n' tr') = theight (Node tl n tr)) as Hth by (cbn [theight]; by rewrite Hh').
  rewrite <- Hth in Hsi2.
  destruct (step_right hd' ar2 ar3 n' s2 lo ro tl tr' tr'' ro' _ _ _ _ Hsm2 Hi2 Hsi2 Hl2 Hbl ltac:(lia) Hst)
    as (ar4 & j & ar5 & t' & E4 & E5 & Hst' & Hind' & Hf35); [set_solver|done|lia|lia|].
  unfold delete_rec_ok. simpl. rewrite (bind_ok _ _ _ _ _ (index_ok (mkMap hd ar) _ s Hi)).
  rewrite (si_key _ _ _ _ _ Hsi), E, (si_l _ _ _ _ _ Hsi), (si_r _ _ _ _ _ Hsi).
  destruct (rep_Some ar tl lo Hl Htl) as [lc Hlo]. destruct (rep_Some ar tr ro Hr Htr) as [ri Hro].
  rewrite Hlo, Hro. rewrite (run_swap nm sm lom rom hm
    (fun k' si => res ← delete_rec fuel (r si) k' (mkDelOut None false);
       update (gi n) (set_r res.1);; new_i ← rebalance (gi n);
       mret (Some new_i, mkDelOut (Some (val s)) true)) ri Hro Hm Hsm' Hsim). fold s2. fold ar2.
  rewrite (si_r _ _ _ _ _ Hsi2), (bind_ok _ _ _ _ _ E3). cbn [fst snd].
  rewrite (bind_ok _ _ _ _ _ E4), (bind_ok _ _ _ _ _ E5).
  rewrite entries_Node in *. unfold entry in *. apply cmp_eq in E as ->.
  rewrite al_get_mid_eq by (done || apply cmp_refl). rewrite al_remove_mid_eq by done.
  exists (Some j), ar5, t'. eexists _, hd', gone. split; [by rewrite (si_val _ _ _ _ _ Hsi)|].
  split; [|split].
  - eapply (del_post_frame _ ar3); [|done|done]. destruct Hp as (_ & ?). done.
  - destruct Hst' as [? ? Hen ? Hf]. split; [done|done| |cbn [theight] in *; lia|].
    + rewrite Hen, He. done.
    + eapply (frame_trans _ _ ar2); (eapply frame_weaken; [done|]).
      * rewrite indices_Node. set_solver.
      * intros x [Hx|Hx]%elem_of_app; [|rewrite <- Hperm; apply elem_of_app; by right].
        rewrite indices_Node. apply elem_of_app. right. by constructor.
  - rewrite Hind'. done.
Qed.

End node.

Lemma delete_rec_spec hd ar k fuel t o out :
  fh_small hd -> small ar -> rep ar t o -> NoDup (indices t) -> balanced t -> sorted (entries t) ->
  theight t <= 100 -> theight t < Z.of_nat fuel -> delete_rec_ok hd ar k fuel t o out.
Proof.
  intros Hfh. revert ar k t o out.
  induction fuel as [|fuel IH]; intros ar k t o out Hsm Hrep Hnd Hbal Hs Hh Hfu.
  { pose proof (theight_nonneg t); lia. }
  destruct t as [|tl n tr].
  { simpl in Hrep. subst o. exists None, ar, Leaf, out, hd, []. split; [done|]. split; [done|].
    split; [|done]. split; try done; simpl; lia. }
  destruct Hrep as (-> & s & lo & ro & Hi & Hsi & Hl & Hr).
  destruct (NoDup_Node _ _ _ Hnd) as (Hndl & Hndr & _). pose proof Hbal as (Hbl & Hbr & _).
  pose proof Hs as Hs'. rewrite entries_Node in Hs'.
  destruct (sorted_mid _ _ _ _ Hs') as (Hsl & Hsr & _). simpl in Hfu.
  destruct (node_heights tl tr n Hbal Hh) as (? & ? & _).
  destruct (cmp k (gk n)) eqn:E.
  - destruct (Leaf_dec tl); [eapply delete_here_one; by auto|].
    destruct (Leaf_dec tr); [eapply delete_here_one; by auto|].
    eapply delete_here_two; try done. intros. apply IH; try done; lia.
  - eapply delete_left; try done. apply IH; try done; lia.
  - eapply delete_right; try done. apply IH; try done; lia.
Qed.

End delete.
