(* ===== verification/AvlTheorems.v ===== *)
(** * The AVL arena map refines the abstract map

    Every operation of [AvlTreeMap], started in a state that implements an abstract map
    [a], returns what the abstract operation returns and ends in a state that implements
    the abstract result.  No operation panics or exhausts its fuel. *)

From stdpp Require Import prelude sorting.
From Stdlib Require Import ZArith Lia.
From S2P Require Import Prelude Avl AvlRep AvlSpec AvlRefine AvlDelete.
Import AvlMap.

Local Open Scope Z_scope.

Section theorems.
Context {K V T : Type} `{Ord K}.

Abbreviation Slot := (Slot K V T).
Abbreviation AvlTreeMap := (AvlTreeMap K V T).
Abbreviation tree := (tree K V T).
Implicit Types (ar : list Slot) (m : AvlTreeMap) (a : avl_abs K V T) (t : tree) (fl : list (nat * T)) (k : K) (v : V).

(** ** Consequences of the invariant *)

Lemma free_chain_frame ar ar' xs o fl : frame xs ar ar' -> (forall j, j ∈ fl.*1 -> j ∉ xs) ->
  free_chain ar o fl -> free_chain ar' o fl.
Proof.
  intros (Hlen & Hf & Hp). revert o. induction fl as [|[f tg] fl IH]; intros o Hd; [done|].
  intros (-> & s & Hs & Hu & Ht & Hc). split; [done|]. exists s. rewrite Hf by set_solver.
  do 3 (split; [done|]). apply IH; [set_solver|done].
Qed.

Section inv.
Variables (m : AvlTreeMap) (t : tree) (fl : list (nat * T)).
Hypothesis Hinv : avl_inv m t fl.

Lemma inv_NoDup : NoDup (indices t ++ fl.*1).
Proof. rewrite (inv_slots _ _ _ Hinv). apply NoDup_seq. Qed.

Lemma inv_NoDup_tree : NoDup (indices t).
Proof. by pose proof inv_NoDup as (? & _)%NoDup_app. Qed.

Lemma inv_disjoint j : j ∈ fl.*1 -> j ∉ indices t.
Proof. pose proof inv_NoDup as (_ & Hd & _)%NoDup_app. intros Hf Ht. by apply (Hd j). Qed.

Lemma inv_NoDup_free : NoDup fl.*1.
Proof. by pose proof inv_NoDup as (_ & _ & ?)%NoDup_app. Qed.

Lemma inv_size : Z.of_nat (length (elements t)) <= 65535.
Proof.
  pose proof (rep_size_bound _ _ _ (inv_rep _ _ _ Hinv) inv_NoDup_tree).
  pose proof (inv_small _ _ _ Hinv) as Hs. unfold small in Hs. lia.
Qed.

(** The tree has at most 33 levels: recursion is shallow and the iterator's array of
    [MAX_HEIGHT] entries is large enough. *)
Lemma inv_height : theight t <= 33.
Proof. apply balanced_height; [apply (inv_balanced _ _ _ Hinv)|apply inv_size]. Qed.

Lemma inv_fuel : theight t < Z.of_nat (S (length (arena m))).
Proof. pose proof (rep_height_bound _ _ _ (inv_rep _ _ _ Hinv) inv_NoDup_tree). lia. Qed.

Lemma inv_fh_small : fh_small (header m).
Proof.
  intros i Hi. pose proof (inv_free _ _ _ Hinv) as Hc. rewrite Hi in Hc.
  pose proof (inv_small _ _ _ Hinv) as Hs. unfold small in Hs.
  destruct fl as [|[f tg] fl']; [done|]. destruct Hc as ([= ->] & s & Hf & _).
  apply lookup_lt_Some in Hf. lia.
Qed.

End inv.

Lemma free_chain_lookup ar o fl f tg : free_chain ar o fl -> (f, tg) ∈ fl ->
  exists s, ar !! f = Some s /\ tag s = tg.
Proof.
  revert o. induction fl as [|[f' tg'] fl IH]; intros o; [set_solver|].
  intros (_ & s & Hs & _ & Ht & Hc) [[= -> ->]|Hin]%elem_of_cons; eauto.
Qed.

Lemma rep_tags ar t o : rep ar t o ->
  Forall2 (fun i tg => (tag <$> ar !! i) = Some tg) (indices t) ((entries t).*2.*2).
Proof.
  revert o. induction t as [|tl IHl n tr IHr]; intros o; [constructor|].
  intros (_ & s & lo & ro & Hs & Hsi & Hl & Hr). rewrite indices_Node, entries_Node, !fmap_app.
  apply Forall2_app; [eauto|]. constructor; [|eauto]. rewrite Hs. simpl. by rewrite (si_tag _ _ _ _ _ Hsi).
Qed.

Lemma free_chain_tags ar o fl : free_chain ar o fl ->
  Forall2 (fun i tg => (tag <$> ar !! i) = Some tg) fl.*1 fl.*2.
Proof.
  revert o. induction fl as [|[f tg] fl IH]; intros o; [constructor|].
  intros (_ & s & Hs & _ & Ht & Hc). simpl. constructor; [|eauto]. rewrite Hs. by simpl; f_equal.
Qed.

Lemma lookup_tags_seq (ar : list Slot) (ixs : list nat) (tgs : list T) :
  Forall2 (fun i tg => (tag <$> ar !! i) = Some tg) ixs tgs ->
  (Some <$> tgs) = (fun i => tag <$> ar !! i) <$> ixs.
Proof. induction 1 as [|i tg ixs tgs Hi _ IH]; [done|]. rewrite !fmap_cons. by rewrite Hi, IH. Qed.

Lemma fmap_lookup_seq {A} (xs : list A) : (fun i => xs !! i) <$> seq 0 (length xs) = Some <$> xs.
Proof.
  apply list_eq. intros i. rewrite !list_lookup_fmap.
  destruct (xs !! i) as [x|] eqn:E.
  - rewrite lookup_seq_lt by (by eapply lookup_lt_Some). simpl. by rewrite E.
  - rewrite lookup_seq_ge; [done|]. by apply lookup_ge_None in E.
Qed.

Lemma Some_Permutation {A} (xs ys : list A) : Some <$> xs ≡ₚ Some <$> ys -> xs ≡ₚ ys.
Proof.
  assert (forall zs : list A, omap id (Some <$> zs) = zs) as Hid.
  { induction zs as [|z zs IH]; [done|]. rewrite fmap_cons. simpl. by f_equal. }
  intros Hp. rewrite <- (Hid xs), <- (Hid ys). by rewrite Hp.
Qed.

(** The tags in use and the free tags are together the tags of the arena. *)
Lemma models_tags m a : models m a ->
  (a_entries a).*2.*2 ++ a_free a ≡ₚ tag <$> arena m.
Proof.
  intros (t & fl & Hinv & -> & ->). apply Some_Permutation.
  pose proof (Forall2_app (rep_tags _ _ _ (inv_rep _ _ _ Hinv)) (free_chain_tags _ _ _ (inv_free _ _ _ Hinv))) as Hall.
  rewrite <- ?fmap_app, (lookup_tags_seq _ _ _ Hall), (inv_slots _ _ _ Hinv).
  rewrite <- (length_fmap tag (arena m)), <- fmap_lookup_seq.
  apply reflexive_eq, list_fmap_ext. intros i x _. by rewrite list_lookup_fmap.
Qed.

Lemma models_sorted m a : models m a -> sorted (a_entries a).
Proof. intros (t & fl & Hinv & -> & _). apply (inv_sorted _ _ _ Hinv). Qed.

(** ** Lookups *)

Lemma get_models m a k : models m a -> get k m = (Ok (abs_get k a), m).
Proof.
  intros (t & fl & Hinv & He & _). destruct m as [hd ar]. unfold get, fuel_of, get_root.
  rewrite !bind_gets. unfold abs_get. rewrite He.
  apply (get_loop_spec hd ar k (S (length ar)) t (root hd));
    [apply (inv_rep _ _ _ Hinv)|apply (inv_sorted _ _ _ Hinv)|apply (inv_fuel _ _ _ Hinv)].
Qed.

Lemma get_lte_models m a k : models m a -> get_lte k m = (Ok (abs_lte k a), m).
Proof.
  intros (t & fl & Hinv & He & _). destruct m as [hd ar]. unfold get_lte, fuel_of, get_root.
  rewrite !bind_gets. unfold abs_lte. rewrite He.
  pose proof (inv_rep _ _ _ Hinv) as Hr. pose proof (inv_fuel _ _ _ Hinv) as Hfu.
  pose proof (inv_sorted _ _ _ Hinv) as Hs. cbn [arena header] in *. destruct ar as [|s0 ar0].
  - destruct t as [|tl n tr]; [simpl in *; by rewrite Hr|].
    destruct Hr as (_ & s & ? & ? & Hn & _). by rewrite lookup_nil in Hn.
  - rewrite (get_lte_loop_spec hd _ k _ t (root hd) None None s0); try done.
    by destruct (al_lte k (entries t)).
Qed.

(** ** Insertion and removal *)

Lemma insert_models m a k v : models m a ->
  exists m', insert k v m = ((abs_insert k v a).1, m') /\ models m' (abs_insert k v a).2 /\
    tag <$> arena m' ≡ₚ tag <$> arena m /\ ((abs_insert k v a).1 = Err Full -> m' = m).
Proof.
  intros (t & fl & Hinv & He & Hfr). destruct m as [hd ar].
  pose proof (inv_rep _ _ _ Hinv) as Hr. pose proof (inv_sorted _ _ _ Hinv) as Hs.
  pose proof (inv_height _ _ _ Hinv) as Hh. pose proof (inv_fuel _ _ _ Hinv) as Hfu.
  pose proof (inv_small _ _ _ Hinv) as Hsm. pose proof (inv_free _ _ _ Hinv) as Hfc.
  pose proof (inv_NoDup_tree _ _ _ Hinv) as Hnd. pose proof (inv_balanced _ _ _ Hinv) as Hb.
  pose proof (inv_size _ _ _ Hinv) as Hsz. pose proof (inv_len _ _ _ Hinv) as Hlen.
  pose proof (inv_slots _ _ _ Hinv) as Hsl. cbn [header arena] in *.
  unfold insert, abs_insert, fuel_of, get_root. rewrite !bind_gets. cbn [header arena]. rewrite He, Hfr.
  set (out := mkInsOut None None false 0%nat).
  destruct (al_get k (entries t)) as [[v0 tg]|] eqn:Eg.
  - destruct (insert_rec_spec hd ar k v tg (S (length ar)) t (root hd) out)
      as (o' & ar' & t' & res & hd' & new & E & Hp & [Hr' Hb' He' Hh' Hf'] & Hi'); try done; [lia|by rewrite Eg|].
    rewrite Eg in Hp. destruct Hp as ((i & ->) & -> & ->). simpl in Hi', Hf'.
    rewrite (bind_ok _ _ _ _ _ E). cbn.
    exists (mkMap (mkHeader o' (free_head hd) (len hd)) ar'). split; [done|]. split; [|split; [apply Hf'|done]].
    exists t', fl. split; [|done]. split; cbn [header arena root free_head len]; try done.
    + by eapply frame_small.
    + rewrite He'. by apply al_insert_sorted.
    + eapply free_chain_frame; [done| |done]. apply (inv_disjoint _ _ _ Hinv).
    + rewrite Hi', (proj1 Hf'). done.
    + rewrite Hlen, <- !length_indices. by rewrite Hi'.
  - destruct fl as [|[f tg] fl]; simpl in Hfc.
    + rewrite (bind_err _ _ _ _ _ (insert_rec_full hd ar k v (S (length ar)) t (root hd) out Hr Hs Hfu Eg Hfc)).
      exists (mkMap hd ar). split; [done|]. split; [|done]. by exists t, [].
    + destruct Hfc as (Hfh & sf & Hsf & Hu & Ht & Hfc).
      pose proof (inv_NoDup_free _ _ _ Hinv) as Hndf. simpl in Hndf. apply NoDup_cons in Hndf as [Hnf Hndf].
      pose proof (inv_disjoint _ _ _ Hinv) as Hdis. simpl in Hdis.
      destruct (insert_rec_spec hd ar k v tg (S (length ar)) t (root hd) out)
        as (o' & ar' & t' & res & hd' & new & E & Hp & [Hr' Hb' He' Hh' Hf'] & Hi'); try done; [lia| |].
      { intros _. exists f, sf. do 2 (split; [done|]). split; [apply Hdis; set_solver|done]. }
      rewrite Eg in Hp. destruct Hp as (f' & sf' & Hfh' & Hsf' & -> & -> & ->). simplify_eq.
      rewrite (bind_ok _ _ _ _ _ E). cbn.
      exists (mkMap (mkHeader o' (l sf) (u64 (len hd + 1))) ar').
      split; [done|]. split; [|split; [apply Hf'|done]].
      exists t', fl. split; [|done]. split; cbn [header arena root free_head len]; try done.
      * by eapply frame_small.
      * rewrite He'. by apply al_insert_sorted.
      * eapply free_chain_frame; [done| |done]. intros j Hj. specialize (Hdis j). set_solver.
      * rewrite Hi', (proj1 Hf'), <- Hsl. simpl. solve_Permutation.
      * rewrite Hlen, wrap_small by lia. rewrite <- !length_indices, Hi'. simpl. lia.
Qed.

Lemma remove_models m a k : models m a ->
  exists m', remove k m = ((abs_remove k a).1, m') /\ models m' (abs_remove k a).2 /\
    tag <$> arena m' ≡ₚ tag <$> arena m.
Proof.
  intros (t & fl & Hinv & He & Hfr). destruct m as [hd ar].
  pose proof (inv_height _ _ _ Hinv) as Hh. pose proof (inv_small _ _ _ Hinv) as Hsm.
  pose proof (inv_free _ _ _ Hinv) as Hfc. pose proof (inv_size _ _ _ Hinv) as Hsz.
  pose proof (inv_sorted _ _ _ Hinv) as Hs. pose proof (inv_NoDup_tree _ _ _ Hinv) as Hnd.
  unfold remove, abs_remove, fuel_of, get_root. rewrite !bind_gets. cbn [header arena] in *. rewrite He, Hfr.
  destruct (delete_rec_spec hd ar k (S (length ar)) t (root hd) (mkDelOut None false))
    as (o' & ar' & t' & res & hd' & gone & E & Hp & [Hr' Hb' He' Hh' Hf'] & Hi'); try done;
    [apply (inv_fh_small _ _ _ Hinv)|apply (inv_rep _ _ _ Hinv)|apply (inv_balanced _ _ _ Hinv)|lia
    |apply (inv_fuel _ _ _ Hinv)|].
  rewrite (bind_ok _ _ _ _ _ E). pose proof (inv_disjoint _ _ _ Hinv) as Hdis.
  assert (sorted (entries t')) by (rewrite He'; by apply al_remove_sorted).
  assert (small ar') by by eapply frame_small.
  assert (free_chain ar' (free_head hd) fl) by by eapply free_chain_frame.
  pose proof (inv_slots _ _ _ Hinv) as Hsl. pose proof (inv_len _ _ _ Hinv) as Hlen. cbn [header arena] in *.
  pose proof (Permutation_length Hi') as Hlen'. rewrite length_app, !length_indices in Hlen'.
  destruct (al_get k (entries t)) as [[v0 tg]|] eqn:Eg.
  - destruct Hp as (-> & f & sf & -> & -> & Hlk & Hu & Ht & Hl). cbn.
    exists (mkMap (mkHeader o' (Some f) (u64 (len hd - 1))) ar'). split; [done|].
    split; [|apply Hf']. exists t', ((f, tg) :: fl). split; [|done].
    split; cbn [header arena root free_head len]; try done.
    + split; [done|]. exists sf. by rewrite Hl.
    + rewrite (proj1 Hf'), <- Hsl, <- Hi'. simpl. solve_Permutation.
    + simpl in Hlen'. rewrite wrap_small; lia.
  - destruct Hp as (-> & -> & ->). cbn. exists (mkMap (mkHeader o' (free_head hd) (len hd)) ar').
    split; [done|]. split; [|apply Hf']. exists t', fl. split; [|split; [|done]].
    + split; cbn [header arena root free_head len]; try done.
      * by rewrite (proj1 Hf'), <- Hsl, <- Hi'.
      * simpl in Hlen'. lia.
    + rewrite He, He'. symmetry. by apply al_remove_absent.
Qed.

(** ** Construction *)

Lemma new_loop_step i (m : AvlTreeMap) : new_loop (S i) m = (free_slot i;; new_loop i) m.
Proof.
  unfold free_slot. simpl. unfold mbind, M_bind, get_free_head, gets.
  by repeat match goal with |- context [update i ?f ?x] => destruct (update i f x) as [[] ?] end.
Qed.

Lemma frame_one_tags i ar ar' s s' : frame [i] ar ar' -> ar !! i = Some s -> ar' !! i = Some s' ->
  tag s' = tag s -> tag <$> ar' = tag <$> ar.
Proof.
  intros (_ & Hf & _) Hs Hs' Ht. apply list_eq. intros j. rewrite !list_lookup_fmap.
  destruct (decide (j = i)) as [->|Hj]; [by rewrite Hs, Hs'; simpl; rewrite Ht|].
  rewrite Hf by set_solver. done.
Qed.

Lemma new_loop_spec n hd ar fl :
  small ar -> (n <= length ar)%nat -> free_chain ar (free_head hd) fl ->
  fl.*1 = seq n (length ar - n) -> fl.*2 = drop n (tag <$> ar) ->
  exists ar' fl' fh', new_loop n (mkMap hd ar) = (Ok tt, mkMap (mkHeader (root hd) fh' (len hd)) ar') /\
    free_chain ar' fh' fl' /\ fl'.*1 = seq 0 (length ar) /\ fl'.*2 = tag <$> ar /\
    tag <$> ar' = tag <$> ar.
Proof.
  intros Hsm. revert hd ar fl Hsm. induction n as [|i IH]; intros hd ar fl Hsm Hn Hc H1 H2.
  { exists ar, fl, (free_head hd). rewrite drop_0, Nat.sub_0_r in *. by destruct hd. }
  destruct (lookup_lt_is_Some_2 ar i ltac:(lia)) as [s Hs].
  assert (fh_small hd) as Hfh.
  { intros j Hj. rewrite Hj in Hc. destruct fl as [|[f tg] fl']; [done|]. destruct Hc as ([= ->] & s0 & Hf & _).
    apply lookup_lt_Some in Hf. unfold small in Hsm. lia. }
  destruct (free_slot_spec hd ar i s Hfh Hs) as (ar1 & s1 & E & Hs1 & Hu & Ht & Hl & Hf).
  pose proof (frame_one_tags _ _ _ _ _ Hf Hs Hs1 Ht) as Htags. pose proof (proj1 Hf) as Hlen.
  destruct (IH (mkHeader (root hd) (Some i) (len hd)) ar1 ((i, tag s) :: fl))
    as (ar' & fl' & fh' & E' & Hc' & H1' & H2' & Ht'); [by eapply frame_small|lia|..].
  - split; [done|]. exists s1. do 3 (split; [done|]). rewrite Hl.
    eapply free_chain_frame; [done| |done]. rewrite H1. intros j Hj%elem_of_seq. set_solver by lia.
  - rewrite fmap_cons, H1, Hlen. by replace (length ar - i)%nat with (S (length ar - S i)) by lia.
  - rewrite fmap_cons, H2, Htags. symmetry. apply drop_S. by rewrite list_lookup_fmap, Hs.
  - rewrite new_loop_step, (bind_ok _ _ _ _ _ E), E', Hlen, Htags in *. by eexists _, fl', _.
Qed.

(** [new] on any arena of at most 65535 slots: an empty map whose free tags are those the
    arena came with, in slot order. *)
Lemma new_models m : small (arena m) ->
  exists m', new m = (Ok tt, m') /\ models m' (mkAbs [] (tag <$> arena m)) /\
    tag <$> arena m' = tag <$> arena m.
Proof.
  intros Hsm. destruct m as [hd ar]. cbn [arena] in *. unfold new, set_free_head, capacity.
  rewrite bind_modify, bind_gets. cbn [arena header root len].
  destruct (new_loop_spec (length ar) (mkHeader (root hd) None (len hd)) ar [])
    as (ar' & fl & fh & E & Hc & H1 & H2 & Ht); try done.
  { by rewrite Nat.sub_diag. }
  { rewrite drop_ge; [done|]. by rewrite length_fmap. }
  rewrite (bind_ok _ _ _ _ _ E). cbn.
  assert (length ar' = length ar) as Hlen by (rewrite <- (length_fmap tag ar'), Ht; apply length_fmap).
  exists (mkMap (mkHeader None fh 0) ar'). split; [done|]. split; [|done].
  exists Leaf, fl. split; [|done]. split; cbn; try done.
  - unfold small. by rewrite Hlen.
  - constructor.
  - by rewrite H1, Hlen.
Qed.

(** ** Mutable slot access *)

Lemma get_slot_mut_loop_spec hd ar k fuel t o :
  rep ar t o -> sorted (entries t) -> theight t < Z.of_nat fuel ->
  exists o', get_slot_mut_loop fuel k o (mkMap hd ar) = (Ok o', mkMap hd ar) /\
    match o' with
    | None => al_get k (entries t) = None
    | Some i => exists s, ar !! i = Some s /\ key s = k /\ al_get k (entries t) = Some (val s, tag s)
    end.
Proof.
  revert t o. induction fuel as [|fuel IH]; intros t o Hr Hs Hf; [pose proof (theight_nonneg t); lia|].
  destruct t as [|tl n tr]; simpl in Hr, Hf; [subst; by exists None|].
  destruct Hr as (-> & s & lo & ro & Hi & Hsi & Hl & Hr).
  rewrite entries_Node in *. destruct (sorted_mid _ _ _ _ Hs) as (? & ? & _ & _).
  simpl. rewrite (bind_ok _ _ _ _ _ (index_ok (mkMap hd ar) _ s Hi)).
  destruct Hsi as [-> -> Hk Hv Ht _ _]. rewrite Hk. unfold entry in *. destruct (cmp k (gk n)) eqn:E.
  - exists (Some (gi n)). split; [done|]. exists s. rewrite al_get_mid_eq by done. apply cmp_eq in E as ->.
    by rewrite Hk, Hv, Ht.
  - rewrite al_get_mid_lt by done. apply IH; [done|done|lia].
  - rewrite al_get_mid_gt by done. apply IH; [done|done|lia].
Qed.

Lemma get_slot_mut_models m a k : models m a ->
  exists o, get_slot_mut k m = (Ok o, m) /\
    match o with
    | None => abs_get k a = None
    | Some i => exists s, arena m !! i = Some s /\ key s = k /\ abs_get k a = Some (val s, tag s)
    end.
Proof.
  intros (t & fl & Hinv & He & _). destruct m as [hd ar]. unfold get_slot_mut, fuel_of, get_root.
  rewrite !bind_gets. unfold abs_get. rewrite He.
  apply (get_slot_mut_loop_spec hd ar k (S (length ar)) t (root hd));
    [apply (inv_rep _ _ _ Hinv)|apply (inv_sorted _ _ _ Hinv)|apply (inv_fuel _ _ _ Hinv)].
Qed.

Lemma get_max_slot_loop_spec hd ar fuel t o best :
  rep ar t o -> theight t < Z.of_nat fuel ->
  get_max_slot_loop fuel o best (mkMap hd ar) =
    (Ok (match last (elements t) with Some n => Some (gi n) | None => best end), mkMap hd ar).
Proof.
  revert t o best. induction fuel as [|fuel IH]; intros t o best Hr Hf; [pose proof (theight_nonneg t); lia|].
  destruct t as [|tl n tr]; simpl in Hr, Hf; [by subst|].
  destruct Hr as (-> & s & lo & ro & Hi & Hsi & Hl & Hr). simpl.
  rewrite (bind_ok _ _ _ _ _ (index_ok (mkMap hd ar) _ s Hi)), (si_r _ _ _ _ _ Hsi).
  rewrite (IH tr ro) by (done || lia). rewrite last_app, last_cons. by destruct (last (elements tr)).
Qed.

Lemma rep_elements_slot ar t o n : rep ar t o -> n ∈ elements t ->
  exists s, ar !! gi n = Some s /\ key s = gk n /\ val s = gv n /\ tag s = gt n.
Proof.
  revert o. induction t as [|tl IHl n' tr IHr]; intros o; [set_solver|].
  intros (_ & s & lo & ro & Hi & [] & Hl & Hr). simpl.
  intros [?|[->|?]%elem_of_cons]%elem_of_app; eauto 6.
Qed.

(** The slot of the greatest key. *)
Lemma get_max_slot_models m a : models m a ->
  exists o, get_max_slot m = (Ok o, m) /\
    match last (a_entries a) with
    | None => o = None
    | Some (k, (v, tg)) => exists i s, o = Some i /\ arena m !! i = Some s /\
        key s = k /\ val s = v /\ tag s = tg
    end.
Proof.
  intros (t & fl & Hinv & He & _). destruct m as [hd ar]. pose proof (inv_rep _ _ _ Hinv) as Hr.
  unfold get_max_slot, fuel_of, get_root. rewrite !bind_gets, He. cbn [header arena] in *.
  rewrite (get_max_slot_loop_spec hd ar (S (length ar)) t (root hd) None Hr (inv_fuel _ _ _ Hinv)).
  unfold entries. rewrite fmap_last. eexists. split; [done|]. destruct (last (elements t)) as [n|] eqn:E; [|done].
  apply last_Some_elem_of in E. destruct (rep_elements_slot _ _ _ _ Hr E) as (s & ? & ? & ? & ?). by exists (gi n), s.
Qed.

(** ** In-order iteration

    The ghost stack [st] lists the nodes on the iterator's stack, top first, each with its
    right subtree; [H] bounds the height that is still to be pushed. *)

Section iterator.
Variables (hd : AvlTreeMapHeader) (ar : list Slot) (hmax : Z).
Hypothesis Hmax : hmax <= Z.of_nat (length ar).

Fixpoint stack_ok (stk : list nat) (st : list (gnode K V T * tree)) : Prop :=
  match st with
  | [] => True
  | (n, tr) :: st' =>
      stk !! length st' = Some (gi n) /\
      (exists s lo ro h, ar !! gi n = Some s /\ slot_is s lo n ro h /\ rep ar tr ro) /\
      Z.of_nat (length st') + theight tr + 1 <= hmax /\ stack_ok stk st'
  end.

Definition pending (st : list (gnode K V T * tree)) : list (gnode K V T) :=
  st ≫= (fun p => p.1 :: elements p.2).

(** The iterator [it] is about to produce the nodes [P]. *)
Definition iter_at (it : AvlIter) (P : list (gnode K V T)) : Prop :=
  exists st t, sp it = length st /\ stack_ok (stack it) st /\ rep ar t (cursor it) /\
    Z.of_nat (length st) + theight t <= hmax /\ hmax <= Z.of_nat (length (stack it)) /\
    P = elements t ++ pending st.

Lemma stack_ok_insert stk st i x : (length st <= i)%nat -> stack_ok stk st -> stack_ok (<[i:=x]> stk) st.
Proof.
  revert i. induction st as [|[n tr] st IH]; intros i Hi; [done|]. simpl in *.
  intros (? & ? & ? & ?). split; [by rewrite list_lookup_insert_ne by lia|].
  do 2 (split; [done|]). apply IH; [lia|done].
Qed.

Lemma push_left_chain_spec fuel it st t :
  sp it = length st -> stack_ok (stack it) st -> rep ar t (cursor it) ->
  theight t < Z.of_nat fuel -> Z.of_nat (length st) + theight t <= hmax ->
  hmax <= Z.of_nat (length (stack it)) ->
  exists stk' st', push_left_chain fuel it (mkMap hd ar) = (Ok (mkIter stk' (length st') None), mkMap hd ar) /\
    stack_ok stk' st' /\ length stk' = length (stack it) /\ pending st' = elements t ++ pending st.
Proof.
  revert it st t. induction fuel as [|fuel IH]; intros [stk spv cur] st t; cbn [sp stack cursor];
    intros -> Hst Hr Hf Hh Hm; [pose proof (theight_nonneg t); lia|].
  destruct t as [|tl n tr]; simpl in Hr, Hf, Hh.
  { subst cur. simpl. by exists stk, st. }
  destruct Hr as (-> & s & lo & ro & Hi & Hsi & Hl & Hr). pose proof (theight_nonneg tl). pose proof (theight_nonneg tr).
  simpl. rewrite decide_True by lia. rewrite (bind_ok _ _ _ _ _ (index_ok (mkMap hd ar) _ s Hi)).
  destruct (IH (mkIter (<[length st := gi n]> stk) (S (length st)) (l s)) ((n, tr) :: st) tl)
    as (stk' & st' & E & Hst' & Hlen & Hp); cbn [sp stack cursor]; rewrite ?length_insert; try done; try lia.
  - split; [apply list_lookup_insert_eq; lia|]. split; [by eexists s, lo, ro, _|].
    split; [lia|]. by apply stack_ok_insert.
  - by rewrite (si_l _ _ _ _ _ Hsi).
  - simpl. lia.
  - exists stk', st'. cbn [stack] in Hlen. rewrite length_insert in Hlen. do 3 (split; [done|]).
    rewrite Hp. simpl. by rewrite <- app_assoc.
Qed.

Lemma next_spec it P : iter_at it P ->
  exists it', match P with
    | [] => next it (mkMap hd ar) = (Ok (None, it'), mkMap hd ar)
    | n :: P' => next it (mkMap hd ar) = (Ok (Some (gk n, gv n), it'), mkMap hd ar) /\ iter_at it' P'
    end.
Proof.
  intros (st & t & Hsp & Hst & Hr & Hh & Hm & ->). unfold next, fuel_of. rewrite bind_gets.
  destruct (push_left_chain_spec (S (length ar)) it st t) as (stk' & st' & E & Hst' & Hlen & Hp); try done; try lia.
  cbn [arena]. rewrite (bind_ok _ _ _ _ _ E), <- Hp. destruct st' as [|[n tr] st']; simpl; [by eexists|].
  destruct Hst' as (Hlk & (s & lo & ro & h & Hi & Hsi & Hr') & Hb & Hst'). rewrite Hlk. simpl.
  rewrite bind_ret, (bind_ok _ _ _ _ _ (index_ok (mkMap hd ar) _ s Hi)).
  eexists. split; [by rewrite (si_key _ _ _ _ _ Hsi), (si_val _ _ _ _ _ Hsi)|].
  exists st', tr. cbn. rewrite (si_r _ _ _ _ _ Hsi). do 3 (split; [done|]). split; [lia|]. split; [lia|done].
Qed.

Lemma collect_spec fuel it P : iter_at it P -> (length P < fuel)%nat ->
  collect fuel it (mkMap hd ar) = (Ok ((fun n => (gk n, gv n)) <$> P), mkMap hd ar).
Proof.
  revert it P. induction fuel as [|fuel IH]; intros it P Hit Hf; [lia|]. simpl.
  destruct (next_spec it P Hit) as [it' Hn]. destruct P as [|n P].
  - by rewrite (bind_ok _ _ _ _ _ Hn).
  - destruct Hn as [E Hit']. rewrite (bind_ok _ _ _ _ _ E). cbn [fst snd]. simpl in Hf.
    by rewrite (bind_ok _ _ _ _ _ (IH it' P Hit' ltac:(lia))).
Qed.

End iterator.

(** The iterator yields every entry once, in key order, and its fixed stack never
    overflows. *)
Lemma iter_collect_models m a : models m a ->
  iter_collect m = (Ok ((fun e => (e.1, e.2.1)) <$> a_entries a), m).
Proof.
  intros (t & fl & Hinv & He & _). destruct m as [hd ar]. rewrite He.
  pose proof (inv_height _ _ _ Hinv). pose proof (inv_fuel _ _ _ Hinv) as Hfu.
  pose proof (rep_size_bound _ _ _ (inv_rep _ _ _ Hinv) (inv_NoDup_tree _ _ _ Hinv)) as Hsz.
  unfold iter_collect, iter, fuel_of, get_root. rewrite bind_gets, bind_assoc, bind_gets, bind_ret. cbn [header arena] in *.
  rewrite (collect_spec hd ar (theight t) ltac:(lia) (S (length ar)) _ (elements t)); [|exists [], t|lia].
  - unfold entries. by rewrite <- list_fmap_compose.
  - cbn [sp stack cursor length]. rewrite length_replicate. do 2 (split; [done|]).
    split; [apply (inv_rep _ _ _ Hinv)|]. unfold MAX_HEIGHT. do 2 (split; [simpl; lia|]). by rewrite app_nil_r.
Qed.

End theorems.

(** * Changing a slot in place

    [get_slot_mut] and [get_max_slot] hand out a reference to a slot of the map.  Writing a
    new tag through it, or a new key that keeps the order, changes that entry of the abstract
    map and nothing else. *)

Section slots.
Context {K V T : Type} `{Ord K}.

Abbreviation Slot := (Slot K V T).
Abbreviation AvlTreeMap := (AvlTreeMap K V T).
Abbreviation gnode := (gnode K V T).
Abbreviation tree := (tree K V T).
Implicit Types (ar : list Slot) (m : AvlTreeMap) (a : avl_abs K V T) (t : tree) (n : gnode) (k : K) (tg : T).

(** The entry [e] of [a], between [xs] and [ys], is in slot [i]. *)
Definition in_slot m a (i : nat) (xs : list (K * (V * T))) (e : K * (V * T)) (ys : list (K * (V * T))) : Prop :=
  exists t fl ns1 n ns2, avl_inv m t fl /\ a_entries a = entries t /\ a_free a = fl.*2 /\
    elements t = ns1 ++ n :: ns2 /\ gi n = i /\ entry <$> ns1 = xs /\ entry n = e /\ entry <$> ns2 = ys.

Lemma in_slot_entries m a i xs e ys : in_slot m a i xs e ys -> a_entries a = xs ++ e :: ys.
Proof.
  intros (t & fl & ns1 & n & ns2 & _ & -> & _ & E & _ & <- & <- & <-). unfold entries. by rewrite E, fmap_app.
Qed.

Lemma in_slot_models m a i xs e ys : in_slot m a i xs e ys -> models m a.
Proof. intros (t & fl & ns1 & n & ns2 & ? & ? & ? & _). by exists t, fl. Qed.

Lemma in_slot_lookup m a i xs k v tg ys : in_slot m a i xs (k, (v, tg)) ys ->
  exists s, arena m !! i = Some s /\ key s = k /\ val s = v /\ tag s = tg.
Proof.
  intros (t & fl & ns1 & n & ns2 & Hinv & _ & _ & E & <- & _ & [= <- <- <-] & _).
  apply (rep_elements_slot _ _ _ n (inv_rep _ _ _ Hinv)). rewrite E. set_solver.
Qed.

(** ** Finding the slot *)

Lemma get_slot_mut_loop_node hd ar k fuel t o :
  rep ar t o -> sorted (entries t) -> theight t < Z.of_nat fuel ->
  exists o', get_slot_mut_loop fuel k o (mkMap hd ar) = (Ok o', mkMap hd ar) /\
    match o' with
    | None => al_get k (entries t) = None
    | Some i => exists n, n ∈ elements t /\ gi n = i /\ gk n = k
    end.
Proof.
  revert t o. induction fuel as [|fuel IH]; intros t o Hr Hs Hf; [pose proof (theight_nonneg t); lia|].
  destruct t as [|tl n tr]; simpl in Hr, Hf; [subst; by exists None|].
  destruct Hr as (-> & s & lo & ro & Hi & Hsi & Hl & Hr).
  rewrite entries_Node in *. destruct (sorted_mid _ _ _ _ Hs) as (? & ? & _ & _).
  simpl. rewrite (bind_ok _ _ _ _ _ (index_ok (mkMap hd ar) _ s Hi)).
  destruct Hsi as [-> -> Hk Hv Ht _ _]. rewrite Hk. unfold entry in *. destruct (cmp k (gk n)) eqn:E.
  - exists (Some (gi n)). split; [done|]. exists n. apply cmp_eq in E. set_solver.
  - rewrite al_get_mid_lt by done. destruct (IH tl lo) as ([i|] & E' & Hx); [done..|lia| |].
    + exists (Some i). split; [done|]. set_solver.
    + by exists None.
  - rewrite al_get_mid_gt by done. destruct (IH tr ro) as ([i|] & E' & Hx); [done..|lia| |].
    + exists (Some i). split; [done|]. set_solver.
    + by exists None.
Qed.

Lemma in_slot_intro m a t fl n : avl_inv m t fl -> a_entries a = entries t -> a_free a = fl.*2 -> n ∈ elements t ->
  exists xs ys, in_slot m a (gi n) xs (entry n) ys.
Proof.
  intros Hinv He Hf (ns1 & ns2 & E)%list_elem_of_split. exists (entry <$> ns1), (entry <$> ns2).
  by exists t, fl, ns1, n, ns2.
Qed.

Lemma get_slot_mut_slot m a k : models m a ->
  exists o, get_slot_mut k m = (Ok o, m) /\
    match o with
    | None => abs_get k a = None
    | Some i => exists v tg xs ys, in_slot m a i xs (k, (v, tg)) ys
    end.
Proof.
  intros (t & fl & Hinv & He & Hf). destruct m as [hd ar]. unfold get_slot_mut, fuel_of, get_root.
  rewrite !bind_gets. unfold abs_get. rewrite He.
  destruct (get_slot_mut_loop_node hd ar k (S (length ar)) t (root hd)) as (o & E & Ho);
    [apply (inv_rep _ _ _ Hinv)|apply (inv_sorted _ _ _ Hinv)|apply (inv_fuel _ _ _ Hinv)|].
  exists o. split; [done|]. destruct o as [i|]; [|done]. destruct Ho as (n & Hn & <- & <-).
  destruct (in_slot_intro _ a _ _ n Hinv He Hf Hn) as (xs & ys & Hx). by exists (gv n), (gt n), xs, ys.
Qed.

Lemma get_max_slot_slot m a : models m a ->
  exists o, get_max_slot m = (Ok o, m) /\
    match o with
    | None => a_entries a = []
    | Some i => exists k v tg xs, in_slot m a i xs (k, (v, tg)) []
    end.
Proof.
  intros (t & fl & Hinv & He & Hf). destruct m as [hd ar]. pose proof (inv_rep _ _ _ Hinv) as Hr.
  unfold get_max_slot, fuel_of, get_root. rewrite !bind_gets. cbn [header arena] in *.
  rewrite (get_max_slot_loop_spec hd ar (S (length ar)) t (root hd) None Hr (inv_fuel _ _ _ Hinv)).
  eexists. split; [done|]. destruct (last (elements t)) as [n|] eqn:E.
  - apply last_Some in E as [ns E]. exists (gk n), (gv n), (gt n), (entry <$> ns). by exists t, fl, ns, n, [].
  - apply last_None in E. rewrite He. unfold entries. by rewrite E.
Qed.

(** ** Writing through it *)

Fixpoint relabel (i : nat) (k : K) (tg : T) t : tree :=
  match t with
  | Leaf => Leaf
  | Node tl n tr =>
      Node (relabel i k tg tl) (if decide (gi n = i) then mkG i k (gv n) tg else n) (relabel i k tg tr)
  end.

Lemma relabel_height i k tg t : theight (relabel i k tg t) = theight t.
Proof. induction t; simpl; congruence. Qed.

Lemma relabel_balanced i k tg t : balanced t -> balanced (relabel i k tg t).
Proof. induction t as [|tl IHl n tr IHr]; simpl; [done|]. rewrite !relabel_height. naive_solver. Qed.

Lemma relabel_elements i k tg t :
  elements (relabel i k tg t) = (fun n => if decide (gi n = i) then mkG i k (gv n) tg else n) <$> elements t.
Proof. induction t as [|tl IHl n tr IHr]; simpl; [done|]. by rewrite fmap_app, fmap_cons, IHl, IHr. Qed.

Lemma relabel_split i k tg t ns1 n ns2 : NoDup (indices t) -> elements t = ns1 ++ n :: ns2 -> gi n = i ->
  elements (relabel i k tg t) = ns1 ++ mkG i k (gv n) tg :: ns2.
Proof.
  unfold indices. intros Hnd E <-. rewrite relabel_elements. rewrite E in Hnd |- *. rewrite fmap_app, fmap_cons.
  rewrite fmap_app, fmap_cons in Hnd. apply NoDup_app in Hnd as (_ & Hd1 & [Hd2 _]%NoDup_cons). rewrite decide_True by done.
  assert (forall ns : list gnode, gi n ∉ gi <$> ns ->
    (fun n0 : gnode => if decide (gi n0 = gi n) then mkG (gi n) k (gv n0) tg else n0) <$> ns = ns) as Hid.
  { induction ns as [|n0 ns IH]; [done|]. rewrite !fmap_cons. intros [Hne Hni]%not_elem_of_cons.
    rewrite decide_False by congruence. f_equal. by apply IH. }
  rewrite (Hid ns2 Hd2), Hid; [done|]. intros Hin. apply (Hd1 _ Hin). left.
Qed.

Definition put_slot (k : K) (tg : T) (s : Slot) : Slot := mkSlot (left s) (right s) tg k (val s) (meta s).

Lemma relabel_rep ar i k tg t o s : NoDup (indices t) -> ar !! i = Some s ->
  rep ar t o -> rep (<[i := put_slot k tg s]> ar) (relabel i k tg t) o.
Proof.
  intros Hnd Hs. revert o Hnd. induction t as [|tl IHl n tr IHr]; intros o Hnd; [done|].
  destruct (NoDup_Node _ _ _ Hnd) as (? & ? & _). intros (-> & s0 & lo & ro & Hi & Hsi & Hl & Hr).
  simpl. rewrite !relabel_height. destruct (decide (gi n = i)) as [<-|Hne].
  - simpl. split; [done|]. exists (put_slot k tg s), lo, ro. rewrite Hs in Hi. injection Hi as <-.
    split; [apply list_lookup_insert_eq; by eapply lookup_lt_Some|]. split; [|by split; [apply IHl|apply IHr]].
    destruct Hsi. by split.
  - split; [done|]. exists s0, lo, ro. rewrite list_lookup_insert_ne by done. split; [done|]. split; [done|]. by split; [apply IHl|apply IHr].
Qed.

(** The entry in slot [i] becomes [(k', (v, tg'))]. *)
Lemma relabel_models m a i s xs k v tg ys k' tg' : in_slot m a i xs (k, (v, tg)) ys -> arena m !! i = Some s ->
  sorted (xs ++ (k', (v, tg')) :: ys) ->
  models (mkMap (header m) (<[i := put_slot k' tg' s]> (arena m))) (mkAbs (xs ++ (k', (v, tg')) :: ys) (a_free a)).
Proof.
  intros (t & fl & ns1 & n & ns2 & Hinv & He & Hf & E & Hi & <- & [= <- <- <-] & <-) Hs Hso.
  pose proof (inv_NoDup_tree _ _ _ Hinv) as Hnd. pose proof (relabel_split i k' tg' t ns1 n ns2 Hnd E Hi) as E'.
  assert (entries (relabel i k' tg' t) = (entry <$> ns1) ++ (k', (gv n, tg')) :: (entry <$> ns2)) as Ee.
  { unfold entries. by rewrite E', fmap_app. }
  assert (indices (relabel i k' tg' t) = indices t) as Ei.
  { unfold indices. rewrite E', E, !fmap_app, !fmap_cons. simpl. by rewrite Hi. }
  exists (relabel i k' tg' t), fl. split; [|by rewrite Ee]. destruct Hinv as [Hsm Hr Hb Hsrt Hfc Hsl Hlen].
  split; cbn [header arena] in *.
  - unfold small in *. by rewrite length_insert.
  - by apply relabel_rep.
  - by apply relabel_balanced.
  - by rewrite Ee.
  - assert (i ∈ indices t) as Hit by (unfold indices; rewrite E, fmap_app, fmap_cons, Hi; set_solver).
    assert (NoDup (indices t ++ fl.*1)) as (_ & Hd & _)%NoDup_app by (rewrite Hsl; apply NoDup_seq).
    clear -Hfc Hd Hit. revert Hfc. generalize (free_head (header m)). revert Hd.
    induction fl as [|[f tgf] fl IH]; intros Hd o; [done|]. intros (-> & s0 & Hs0 & ? & ? & Hc). split; [done|].
    exists s0. rewrite list_lookup_insert_ne by (intros ->; apply (Hd f Hit); left). do 3 (split; [done|]).
    apply IH; [|done]. intros x Hx Hx'. apply (Hd x Hx). by right.
  - by rewrite Ei, length_insert.
  - rewrite Hlen. f_equal. rewrite <- !length_indices. by rewrite Ei.
Qed.

Lemma put_tag_slot tg s : put_tag tg s = put_slot (key s) tg s.
Proof. done. Qed.

Lemma put_key_slot k s : put_key k s = put_slot k (tag s) s.
Proof. done. Qed.

(** [slot.tag = tg'] *)
Lemma put_tag_models m a i xs k v tg ys tg' : in_slot m a i xs (k, (v, tg)) ys ->
  exists m', update i (put_tag tg') m = (Ok tt, m') /\ models m' (mkAbs (xs ++ (k, (v, tg')) :: ys) (a_free a)).
Proof.
  intros Hi. destruct (in_slot_lookup _ _ _ _ _ _ _ _ Hi) as (s & Hs & Hk & _ & _).
  unfold update. rewrite Hs. eexists. split; [done|]. rewrite put_tag_slot, Hk. eapply relabel_models; [done|done|].
  pose proof (models_sorted _ _ (in_slot_models _ _ _ _ _ _ Hi)) as Hso. rewrite (in_slot_entries _ _ _ _ _ _ Hi) in Hso.
  unfold sorted in *. by rewrite fmap_app, fmap_cons in *.
Qed.

(** [max_slot.key = k'] for a greater key *)
Lemma put_key_models m a i xs k v tg k' : in_slot m a i xs (k, (v, tg)) [] -> klt k k' ->
  exists m', update i (put_key k') m = (Ok tt, m') /\ models m' (mkAbs (xs ++ [(k', (v, tg))]) (a_free a)).
Proof.
  intros Hi Hlt. destruct (in_slot_lookup _ _ _ _ _ _ _ _ Hi) as (s & Hs & _ & _ & Ht).
  unfold update. rewrite Hs. eexists. split; [done|]. rewrite put_key_slot, Ht. eapply relabel_models; [done|done|].
  pose proof (models_sorted _ _ (in_slot_models _ _ _ _ _ _ Hi)) as Hso. rewrite (in_slot_entries _ _ _ _ _ _ Hi) in Hso.
  destruct (sorted_mid _ _ _ _ Hso) as (Hx & _ & Hxk & _). unfold sorted in *. rewrite fmap_app, StronglySorted_app.
  split; [|split; [done|repeat constructor]]. simpl. intros y y' Hy ->%list_elem_of_singleton.
  apply list_elem_of_fmap in Hy as (e & -> & He). eapply klt_trans; [by apply Hxk|done].
Qed.

End slots.
