(* ===== verification/AvlLaws.v ===== *)
(** * What a client of the AVL arena map may rely on

    The property theorems of the component: whole runs of operations against the abstract
    map, and the laws a caller sees (insert/lookup, remove/lookup, range lookup, iteration,
    the pool of tags). *)

From stdpp Require Import prelude sorting.
From Stdlib Require Import ZArith Lia.
From S2P Require Import Prelude Avl AvlRep AvlSpec AvlRefine AvlDelete AvlTheorems.
Import AvlMap.

Local Open Scope Z_scope.

Section laws.
Context {K V T : Type} `{Ord K}.

Abbreviation AvlTreeMap := (AvlTreeMap K V T).
Abbreviation avl_abs := (avl_abs K V T).
Implicit Types (m : AvlTreeMap) (a : avl_abs) (k : K) (v : V).

(** ** Runs of operations *)

Inductive op :=
| OpInsert (k : K) (v : V)
| OpRemove (k : K)
| OpGet (k : K)
| OpContains (k : K)
| OpGetLte (k : K)
| OpIter.

(** What the caller sees of each operation, failures included. *)
Inductive reply :=
| RInsert (o : outcome Error (option V * T))
| RRemove (o : outcome Error (option V))
| RGet (o : outcome Error (option (V * T)))
| RContains (o : outcome Error bool)
| RGetLte (o : outcome Error (option (K * V * T)))
| RIter (o : outcome Error (list (K * V))).

Definition call {A} (f : outcome Error A -> reply) (c : M AvlTreeMap Error A) m : reply * AvlTreeMap :=
  let '(o, m') := c m in (f o, m').

Definition step (o : op) : AvlTreeMap -> reply * AvlTreeMap :=
  match o with
  | OpInsert k v => call RInsert (insert k v)
  | OpRemove k => call RRemove (remove k)
  | OpGet k => call RGet (get k)
  | OpContains k => call RContains (contains k)
  | OpGetLte k => call RGetLte (get_lte k)
  | OpIter => call RIter iter_collect
  end.

Definition abs_step (o : op) a : reply * avl_abs :=
  match o with
  | OpInsert k v => (RInsert (abs_insert k v a).1, (abs_insert k v a).2)
  | OpRemove k => (RRemove (abs_remove k a).1, (abs_remove k a).2)
  | OpGet k => (RGet (Ok (abs_get k a)), a)
  | OpContains k => (RContains (Ok (bool_decide (is_Some (abs_get k a)))), a)
  | OpGetLte k => (RGetLte (Ok (abs_lte k a)), a)
  | OpIter => (RIter (Ok ((fun e => (e.1, e.2.1)) <$> a_entries a)), a)
  end.

Fixpoint run {A} (f : op -> A -> reply * A) (os : list op) (x : A) : list reply * A :=
  match os with
  | [] => ([], x)
  | o :: os => let '(r, x1) := f o x in let '(rs, x2) := run f os x1 in (r :: rs, x2)
  end.

Lemma step_models o m a : models m a ->
  (step o m).1 = (abs_step o a).1 /\ models (step o m).2 (abs_step o a).2 /\
  tag <$> arena (step o m).2 ≡ₚ tag <$> arena m.
Proof.
  intros Hm. destruct o as [k v|k|k|k|k|]; simpl; unfold call.
  - by destruct (insert_models m a k v Hm) as (m' & -> & ? & ? & _).
  - by destruct (remove_models m a k Hm) as (m' & -> & ? & ?).
  - by rewrite (get_models m a k Hm).
  - unfold contains. rewrite (bind_ok _ _ _ _ _ (get_models m a k Hm)). simpl.
    by destruct (abs_get k a).
  - by rewrite (get_lte_models m a k Hm).
  - by rewrite (iter_collect_models m a Hm).
Qed.

Lemma run_models os m a : models m a ->
  (run step os m).1 = (run abs_step os a).1 /\ models (run step os m).2 (run abs_step os a).2 /\
  tag <$> arena (run step os m).2 ≡ₚ tag <$> arena m.
Proof.
  revert m a. induction os as [|o os IH]; intros m a Hm; [done|]. simpl.
  destruct (step_models o m a Hm) as (Hr & Hm' & Hl).
  destruct (step o m) as [r m1], (abs_step o a) as [r' a1]. simpl in *. subst r'.
  destruct (IH m1 a1 Hm') as (Hrs & Hm2 & Hl2).
  destruct (run step os m1) as [rs m2], (run abs_step os a1) as [rs' a2]. simpl in *. by subst; rewrite Hl2.
Qed.

(** C1: On an arena of at most 65535 slots (anything may be in it), [new] followed by any
    sequence of inserts, removals, lookups and iterations gives the caller exactly the
    replies of the abstract sorted map: no operation panics, loses an entry, or recurses
    deeper than the fuel bound of one more than the number of slots. *)
Theorem new_then_run_refines m os : Z.of_nat (length (arena m)) <= 65535 ->
  exists m0, new m = (Ok tt, m0) /\
    (run step os m0).1 = (run abs_step os (mkAbs [] (tag <$> arena m))).1 /\
    models (run step os m0).2 (run abs_step os (mkAbs [] (tag <$> arena m))).2.
Proof.
  intros Hsm. destruct (new_models m Hsm) as (m0 & E & Hm0 & _).
  destruct (run_models os m0 _ Hm0) as (? & ? & _). by exists m0.
Qed.

(** C2: In every state reached from [new], the tree is balanced and at most 33 levels high,
    every slot is in the tree or on the free list and in only one of them, and the tags of
    the entries and of the free slots are together exactly the tags the arena started with. *)
Theorem reachable_state_sound m os : Z.of_nat (length (arena m)) <= 65535 ->
  exists m0 t fl, new m = (Ok tt, m0) /\
    let m' := (run step os m0).2 in
    avl_inv m' t fl /\ theight t <= 33 /\
    (gt <$> elements t) ++ fl.*2 ≡ₚ tag <$> arena m.
Proof.
  intros Hsm. destruct (new_models m Hsm) as (m0 & E & Hm0 & Hl0).
  destruct (run_models os m0 _ Hm0) as (_ & Hm' & Hl). pose proof (models_tags _ _ Hm') as Htags.
  pose proof Hm' as (t & fl & Hinv & He & Hf). exists m0, t, fl. split; [done|]. cbn zeta.
  split; [done|]. split; [by eapply inv_height|].
  assert ((gt <$> elements t) = (entries t).*2.*2) as ->.
  { unfold entries. by rewrite <- !list_fmap_compose. }
  by rewrite <- Hf, <- He, Htags, Hl, Hl0.
Qed.

(** After an insertion that succeeds, the key is bound to the new value, every other
    key is bound as before, and the tag is the one the key had or, for a new key, one taken
    from the free slots; the caller gets the old value.  An insertion fails only for a new
    key when no slot is free, and then the structure is bit for bit unchanged. *)
Theorem insert_then_get m a k v : models m a ->
  match insert k v m with
  | (Ok (old, tg), m') =>
      (exists a', models m' a') /\
      (forall k', get k' m' = (Ok (match cmp k' k with Eq => Some (v, tg) | _ => abs_get k' a end), m')) /\
      match abs_get k a with
      | Some (v0, tg0) => old = Some v0 /\ tg = tg0
      | None => old = None /\ head (a_free a) = Some tg
      end
  | (Err Full, m') => m' = m /\ abs_get k a = None /\ a_free a = []
  | _ => False
  end.
Proof.
  intros Hm. destruct (insert_models m a k v Hm) as (m' & -> & Hm' & _ & Hfull).
  assert (sorted (a_entries a)) as Hs by by apply (models_sorted m).
  unfold abs_insert, abs_get in *. destruct (al_get k (a_entries a)) as [[v0 tg0]|] eqn:Eg; simpl in *.
  - split; [by eexists|]. split; [|done]. intros k'. rewrite (get_models _ _ k' Hm').
    unfold abs_get. simpl. by rewrite al_get_insert, Eg.
  - destruct (a_free a) as [|tg fr]; simpl in *; [by rewrite Hfull|].
    split; [by eexists|]. split; [|done]. intros k'. rewrite (get_models _ _ k' Hm').
    unfold abs_get. simpl. by rewrite al_get_insert, Eg.
Qed.

(** A removal never fails; it returns the value of the key, the key is gone, every
    other key keeps its value and its tag, and the tag of a removed key is the next to be
    handed out. *)
Theorem remove_then_get m a k : models m a ->
  exists m', remove k m = (Ok (fst <$> abs_get k a), m') /\
    (forall k', get k' m' = (Ok (match cmp k' k with Eq => None | _ => abs_get k' a end), m')) /\
    (forall k' v' v0 tg, abs_get k a = Some (v0, tg) -> cmp k' k <> Eq -> abs_get k' a = None ->
       exists m'', insert k' v' m' = (Ok (None, tg), m'')).
Proof.
  intros Hm. destruct (remove_models m a k Hm) as (m' & E & Hm' & _).
  assert (sorted (a_entries a)) as Hs by by apply (models_sorted m).
  exists m'. rewrite E. unfold abs_remove, abs_get in *.
  assert (forall k', al_get k' (al_remove k (a_entries a)) =
    match cmp k' k with Eq => None | _ => al_get k' (a_entries a) end) as Hrem by (intros; by apply al_get_remove).
  destruct (al_get k (a_entries a)) as [[v0 tg0]|] eqn:Eg; simpl in *; (split; [done|]); split.
  - intros k'. rewrite (get_models _ _ k' Hm'). unfold abs_get. simpl. by rewrite Hrem.
  - intros k' v' ? ? [= <- <-] Hne Hg'. destruct (insert_models _ _ k' v' Hm') as (m'' & -> & _).
    exists m''. unfold abs_insert. simpl. rewrite Hrem, Hg'. by destruct (cmp k' k).
  - intros k'. rewrite (get_models _ _ k' Hm'). unfold abs_get. destruct (cmp k' k) eqn:Ek; [|done..].
    apply cmp_eq in Ek as ->. by rewrite Eg.
  - done.
Qed.

(** [get_lte] returns the entry with the greatest key that is at most [k], and [None]
    only when every key is greater. *)
Theorem get_lte_greatest m a k : models m a ->
  match get_lte k m with
  | (Ok (Some (k', v', tg')), m') =>
      m' = m /\ abs_get k' a = Some (v', tg') /\ cmp k' k <> Gt /\
      (forall e, e ∈ a_entries a -> cmp e.1 k <> Gt -> cmp e.1 k' <> Gt)
  | (Ok None, m') => m' = m /\ (forall e, e ∈ a_entries a -> klt k e.1)
  | _ => False
  end.
Proof.
  intros Hm. rewrite (get_lte_models m a k Hm). pose proof (models_sorted m a Hm) as Hs.
  unfold abs_lte, abs_get. destruct (al_lte k (a_entries a)) as [[[k' v'] tg']|] eqn:E.
  - destruct (al_lte_Some _ _ _ _ _ Hs E) as (Hin & ? & ?). split; [done|]. split; [|done].
    by apply al_get_elem.
  - split; [done|]. by apply al_lte_None.
Qed.

(** Iterating yields every entry exactly once, in strictly increasing key order, and
    leaves the map as it was; the iterator's stack of 128 slots does not overflow. *)
Theorem iter_in_order m a : models m a ->
  exists kvs, iter_collect m = (Ok kvs, m) /\ StronglySorted klt (fst <$> kvs) /\
    forall k v, (k, v) ∈ kvs <-> exists tg, get k m = (Ok (Some (v, tg)), m).
Proof.
  intros Hm. pose proof (models_sorted m a Hm) as Hs. eexists. split; [by apply iter_collect_models|].
  split; [by rewrite <- list_fmap_compose|]. intros k v. setoid_rewrite (get_models m a k Hm).
  rewrite list_elem_of_fmap. unfold abs_get. split.
  - intros ([k1 [v1 tg]] & [= -> ->] & Hin). exists tg. by rewrite (al_get_elem _ _ _ _ Hs Hin).
  - intros [tg [= Hg]]. exists (k, (v, tg)). split; [done|]. by apply al_get_Some_elem.
Qed.

End laws.

(** ** A concrete map: four slots tagged 100..103, three keys *)

Definition demo_arena : AvlTreeMap Z Z Z :=
  mkMap AvlTreeMapHeader_default
    ((fun tg => put_tag tg (@Slot_default Z Z Z _ _ _)) <$> [100; 101; 102; 103]).

Definition demo_ops : list op := [OpInsert 5 50; OpInsert 9 90; OpInsert 1 10; OpRemove 9; OpInsert 7 70].

Definition demo_map : AvlTreeMap Z Z Z := (run step demo_ops (new demo_arena).2).2.
Definition demo_abs : avl_abs Z Z Z := (run abs_step demo_ops (mkAbs [] [100; 101; 102; 103])).2.

Lemma demo_models : models demo_map demo_abs.
Proof.
  unfold demo_map, demo_abs. assert (small (arena demo_arena)) as Hsm by done.
  destruct (new_models demo_arena Hsm) as (m0 & -> & Hm0 & _). by apply run_models.
Qed.

Lemma new_then_run_refines_witness :
  exists m0, new demo_arena = (Ok tt, m0) /\
    (run step demo_ops m0).1 =
      [RInsert (Ok (None, 100)); RInsert (Ok (None, 101)); RInsert (Ok (None, 102));
       RRemove (Ok (Some 90)); RInsert (Ok (None, 101))].
Proof.
  destruct (new_then_run_refines demo_arena demo_ops ltac:(done)) as (m0 & E & Hr & _).
  exists m0. split; [done|]. rewrite Hr. reflexivity.
Defined.

Lemma reachable_state_sound_witness :
  exists m0 t fl, new demo_arena = (Ok tt, m0) /\ avl_inv (run step demo_ops m0).2 t fl /\ theight t <= 33.
Proof.
  destruct (reachable_state_sound demo_arena demo_ops ltac:(done)) as (m0 & t & fl & E & Hi & Hh & _).
  exists m0, t, fl. split; [exact E|]. split; [exact Hi|exact Hh].
Defined.

Lemma insert_then_get_witness :
  exists m', insert 6 60 demo_map = (Ok (None, 103), m') /\ get 6 m' = (Ok (Some (60, 103)), m') /\
    get 7 m' = (Ok (Some (70, 101)), m').
Proof.
  pose proof (insert_then_get demo_map demo_abs 6 60 demo_models) as Hw.
  assert (insert 6 60 demo_map = (Ok (None, 103), (insert 6 60 demo_map).2)) as E by (vm_compute; reflexivity).
  set (m' := (insert 6 60 demo_map).2) in E. clearbody m'. rewrite E in Hw. destruct Hw as (_ & Hget & _).
  exists m'. split; [exact E|]. rewrite (Hget 6), (Hget 7). split; reflexivity.
Defined.

Lemma remove_then_get_witness :
  exists m', remove 5 demo_map = (Ok (Some 50), m') /\ get 5 m' = (Ok None, m') /\ get 7 m' = (Ok (Some (70, 101)), m').
Proof.
  destruct (remove_then_get demo_map demo_abs 5 demo_models) as (m' & E & Hget & _).
  exists m'. rewrite E, (Hget 5), (Hget 7). split; [|split]; reflexivity.
Defined.

Lemma get_lte_greatest_witness :
  get_lte 6 demo_map = (Ok (Some (5, 50, 100)), demo_map) /\
  (forall e, e ∈ a_entries demo_abs -> cmp e.1 6 <> Gt -> cmp e.1 5 <> Gt).
Proof.
  pose proof (get_lte_greatest demo_map demo_abs 6 demo_models) as Hw.
  assert (get_lte 6 demo_map = (Ok (Some (5, 50, 100)), demo_map)) as E by (vm_compute; reflexivity).
  rewrite E in Hw. split; [done|]. apply Hw.
Defined.

Lemma iter_in_order_witness :
  iter_collect demo_map = (Ok [(1, 10); (5, 50); (7, 70)], demo_map) /\
  StronglySorted klt (fst <$> [(1, 10); (5, 50); (7, 70)]).
Proof.
  destruct (iter_in_order demo_map demo_abs demo_models) as (kvs & E & Hs & _).
  assert (iter_collect demo_map = (Ok [(1, 10); (5, 50); (7, 70)], demo_map)) as E' by (vm_compute; reflexivity).
  pose proof (f_equal fst (eq_trans (eq_sym E) E')) as Hkv. cbn [fst] in Hkv. injection Hkv as ->.
  split; [exact E'|exact Hs].
Defined.
