(* ===== verification/Xid.v ===== *)
(** * Transaction ids and heap pointers

    [postgres/utils.rs]: the wrap-around comparison of 32-bit transaction ids and the
    packing of a heap tuple pointer into 48 bits of a [u64]. *)

From stdpp Require Import base numbers.
From Stdlib Require Import ZArith Lia.
From S2P Require Import Prelude.

Local Open Scope Z_scope.

Module Xid.

Definition is_transaction_id_normal (xid : Z) : bool := FirstNormalTransactionId <=? xid.

(** [id1.wrapping_sub(id2)] on the bit patterns reinterpreted as [i32]. *)
Definition TransactionIdPrecedesOrEquals (id1 id2 : Z) : bool :=
  if negb (is_transaction_id_normal id1) || negb (is_transaction_id_normal id2) then id1 <=? id2
  else
    let diff := i32 (i32 id1 - i32 id2) in
    diff <=? 0.

(** [pg_sys::ItemPointerData], as [item_pointer_get_both] and [item_pointer_set_all] see it:
    a 32-bit block number and a 16-bit offset number. *)
Record ItemPointerData := mkTid { ip_blkid : Z; ip_posid : Z }.

Definition tid_ok (t : ItemPointerData) : Prop :=
  0 <= ip_blkid t < 2 ^ 32 /\ 0 <= ip_posid t < 2 ^ 16.

Definition item_pointer_to_u64 (ctid : ItemPointerData) : Z :=
  let blockno := u64 (ip_blkid ctid) in
  let offno := u64 (ip_posid ctid) in
  Z.lor (u64 (Z.shiftl blockno 16)) offno.

Definition u64_to_item_pointer (value : Z) : ItemPointerData :=
  let blockno := u32 (Z.shiftr value 16) in
  let offno := u16 value in
  mkTid blockno offno.

(** ** Arithmetic of the comparison *)

Lemma i32_wrap z : i32 (u32 z) = i32 z.
Proof. unfold i32, wrap. by rewrite Z.mod_mod. Qed.

Lemma i32_congr z : exists q, i32 z = z + q * 2 ^ 32.
Proof.
  unfold i32, wrap. pose proof (Z.div_mod z (2 ^ 32) ltac:(lia)).
  case_match; [exists (- (z / 2 ^ 32))|exists (- (z / 2 ^ 32) - 1)]; lia.
Qed.

Lemma i32_range z : - 2 ^ 31 <= i32 z < 2 ^ 31.
Proof.
  unfold i32. pose proof (wrap_range 32 z ltac:(lia)). case_match; lia.
Qed.

(** The only value of the range congruent to [z]. *)
Lemma i32_unique z d q : - 2 ^ 31 <= d < 2 ^ 31 -> d = z + q * 2 ^ 32 -> i32 z = d.
Proof.
  intros Hd Hq. destruct (i32_congr z) as [q' Hq']. pose proof (i32_range z).
  assert (q = q') by nia. lia.
Qed.

Lemma i32_sub a b d : - 2 ^ 31 <= d < 2 ^ 31 -> u32 (a - b) = u32 d -> i32 (i32 a - i32 b) = d.
Proof.
  intros Hd Hw. destruct (i32_congr a) as [qa ->], (i32_congr b) as [qb ->].
  unfold wrap in Hw. pose proof (Z.div_mod (a - b) (2 ^ 32) ltac:(lia)) as E1.
  pose proof (Z.div_mod d (2 ^ 32) ltac:(lia)) as E2. rewrite Hw in E1.
  apply (i32_unique _ d (d / 2 ^ 32 - (a - b) / 2 ^ 32 - qa + qb)); lia.
Qed.

Lemma wrap_sub_wrap a b : u32 (u32 a - u32 b) = u32 (a - b).
Proof. unfold wrap. by rewrite <- Zminus_mod. Qed.

Lemma wrap_shift w x y z : wrap w (x + y - (x + z)) = wrap w (y - z).
Proof. f_equal. lia. Qed.

(** Among normal transaction ids that lie within one window of 2^31 ids, the comparison
    is the linear order of the window, wherever the window starts and whether or not the
    32-bit counter wraps inside it. *)
Theorem precedes_window base d1 d2 :
  0 <= d1 < 2 ^ 31 -> 0 <= d2 < 2 ^ 31 ->
  is_transaction_id_normal (u32 (base + d1)) = true ->
  is_transaction_id_normal (u32 (base + d2)) = true ->
  TransactionIdPrecedesOrEquals (u32 (base + d1)) (u32 (base + d2)) = (d1 <=? d2).
Proof.
  intros H1 H2 N1 N2. unfold TransactionIdPrecedesOrEquals. rewrite N1, N2. simpl.
  rewrite (i32_sub _ _ (d1 - d2)); [|lia|by rewrite wrap_sub_wrap, wrap_shift].
  apply Bool.eq_iff_eq_true. rewrite !Z.leb_le. lia.
Qed.

Lemma precedes_window_witness :
  TransactionIdPrecedesOrEquals 4294967290 5 = true /\ TransactionIdPrecedesOrEquals 5 4294967290 = false.
Proof.
  split.
  - apply (precedes_window 4294967290 0 11); (lia || reflexivity).
  - apply (precedes_window 4294967290 11 0); (lia || reflexivity).
Defined.

(** Special ids (invalid, bootstrap, frozen) precede every normal id, so blocks tagged with
    them are always recyclable. *)
Lemma special_precedes xid x : 0 <= xid < FirstNormalTransactionId -> FirstNormalTransactionId <= x ->
  TransactionIdPrecedesOrEquals xid x = true.
Proof.
  unfold TransactionIdPrecedesOrEquals, is_transaction_id_normal, FirstNormalTransactionId. intros.
  rewrite (proj2 (Z.leb_gt 3 xid)) by lia. simpl. apply Z.leb_le. lia.
Qed.

Lemma precedes_refl x : TransactionIdPrecedesOrEquals x x = true.
Proof.
  unfold TransactionIdPrecedesOrEquals. rewrite Z.sub_diag. case_match; [apply Z.leb_refl|reflexivity].
Qed.

(** An id does not precede one less than 2^31 before it. *)
Lemma later_not_precedes x y : FirstNormalTransactionId <= x < y -> y - x < 2 ^ 31 -> TransactionIdPrecedesOrEquals y x = false.
Proof.
  unfold TransactionIdPrecedesOrEquals, is_transaction_id_normal, FirstNormalTransactionId. intros Hx Hd.
  rewrite (proj2 (Z.leb_le 3 x)), (proj2 (Z.leb_le 3 y)) by lia. simpl. rewrite (i32_sub _ _ (y - x)) by (done || lia).
  apply Z.leb_gt. lia.
Qed.

(** ** Heap pointers *)

Lemma pack_eq t : tid_ok t -> item_pointer_to_u64 t = ip_blkid t * 2 ^ 16 + ip_posid t.
Proof.
  intros [Hb Ho]. unfold item_pointer_to_u64. rewrite !Z.shiftl_mul_pow2 by lia.
  rewrite !wrap_small by (rewrite ?wrap_small; lia).
  symmetry. apply Z.add_nocarry_lor. apply Z.bits_inj'. intros n Hn. rewrite Z.land_spec, Z.bits_0.
  destruct (Z.lt_ge_cases n 16) as [Hlt|Hge].
  - rewrite Z.mul_pow2_bits_low by lia. done.
  - rewrite (Z.bits_above_log2 (ip_posid t)); [by rewrite andb_false_r|lia|].
    destruct (decide (ip_posid t = 0)) as [->|]; [simpl; lia|].
    apply Z.log2_lt_pow2; [lia|]. pose proof (Z.pow_le_mono_r 2 16 n). lia.
Qed.

(** Packing a heap pointer into a [u64] is lossless and needs only 48 bits, and the
    order of the packed values is the physical order of the tuples: by block, then by
    offset. *)
Theorem ctid_roundtrip_ordered t1 t2 : tid_ok t1 -> tid_ok t2 ->
  u64_to_item_pointer (item_pointer_to_u64 t1) = t1 /\
  0 <= item_pointer_to_u64 t1 < 2 ^ 48 /\
  (item_pointer_to_u64 t1 < item_pointer_to_u64 t2 <->
   ip_blkid t1 < ip_blkid t2 \/ ip_blkid t1 = ip_blkid t2 /\ ip_posid t1 < ip_posid t2).
Proof.
  intros H1 H2. rewrite !pack_eq by done. destruct H1 as [Hb1 Ho1], H2 as [Hb2 Ho2].
  split; [|split; [lia|lia]]. unfold u64_to_item_pointer.
  assert (Z.shiftr (ip_blkid t1 * 2 ^ 16 + ip_posid t1) 16 = ip_blkid t1) as ->.
  { rewrite Z.shiftr_div_pow2 by lia. symmetry. apply (Z.div_unique_pos _ _ _ (ip_posid t1)); lia. }
  rewrite (wrap_small 32) by lia. unfold wrap.
  rewrite Z.add_comm, Z.mod_add, Z.mod_small by lia. by destruct t1.
Qed.

Lemma ctid_roundtrip_ordered_witness :
  u64_to_item_pointer (item_pointer_to_u64 (mkTid 4294967295 65535)) = mkTid 4294967295 65535 /\
  item_pointer_to_u64 (mkTid 7 65535) < item_pointer_to_u64 (mkTid 8 1).
Proof.
  split.
  - apply (ctid_roundtrip_ordered (mkTid 4294967295 65535) (mkTid 0 0)); split; simpl; lia.
  - apply (ctid_roundtrip_ordered (mkTid 7 65535) (mkTid 8 1)); [split; simpl; lia..|simpl; lia].
Defined.

End Xid.
