(* ===== verification/SegmentMeta.v ===== *)
(** * Segment metadata entries

    [storage/block.rs]: the entry that describes one segment of the index, immutable (a
    set of tantivy files) or mutable (a log of added and removed heap tuples), its
    serialization, its life cycle and the blocks it frees. *)

From stdpp Require Import prelude gmap sorting strings.
From Stdlib Require Import ZArith Lia.
From S2P Require Import Prelude.

Local Open Scope Z_scope.

(** ** What a mutable segment needs of the list that stores its log

    The list headed at a block can be read, and adding items appends them. *)
Class ItemList (St E : Type) := {
  il_ok : Z -> St -> Prop;
  il_list : Z -> St -> list E;
  il_add_items : Z -> list E -> St -> St;
  il_add_ok : forall hb es st, il_ok hb st -> il_ok hb (il_add_items hb es st);
  il_add_list : forall hb es st, il_ok hb st ->
    il_list hb (il_add_items hb es st) = il_list hb st ++ es;
}.

Module SegmentMeta.

(** ** Data *)

Inductive MutableSegmentEntry :=
| Add (ctid : Z)
| Remove (ctid : Z).

(** [#[repr(u32)] enum SegmentMetaEntryTag] *)
Inductive SegmentMetaEntryTag := TagMutable | TagImmutable.

Definition tag_to_u32 (t : SegmentMetaEntryTag) : Z :=
  match t with TagMutable => 1 | TagImmutable => 2 end.

(** [None] is the panic of the last branch. *)
Definition tag_from_u32 (value : Z) : option SegmentMetaEntryTag :=
  if (value =? tag_to_u32 TagImmutable) || (value =? InvalidTransactionId) ||
     (FirstNormalTransactionId <=? value)
  then Some TagImmutable
  else if value =? tag_to_u32 TagMutable then Some TagMutable
  else None.

(** A segment id is 16 bytes; here the number they spell. *)
Record SegmentMetaEntryHeader := mkHeader {
  h_segment_id : Z;
  h_max_doc : Z;
  h_tag : SegmentMetaEntryTag;
  h_xmax : Z;
}.

Record FileEntry := mkFile { starting_block : Z; total_bytes : Z }.

Record DeleteEntry := mkDelete { file_entry_of : FileEntry; d_num_deleted_docs : Z }.

Record SegmentMetaEntryMutable := mkMutable {
  header_block : Z;
  m_num_deleted_docs : Z;
  frozen : bool;
}.

Record SegmentMetaEntryImmutable := mkImmutable {
  postings : option FileEntry;
  positions : option FileEntry;
  fast_fields : option FileEntry;
  field_norms : option FileEntry;
  terms : option FileEntry;
  store : option FileEntry;
  temp_store : option FileEntry;
  delete : option DeleteEntry;
}.

Inductive SegmentMetaEntryContent :=
| Immutable (c : SegmentMetaEntryImmutable)
| Mutable (c : SegmentMetaEntryMutable).

Record SegmentMetaEntry := mkEntry {
  header : SegmentMetaEntryHeader;
  content : SegmentMetaEntryContent;
}.

(** tantivy's components of a segment. *)
Inductive SegmentComponent :=
| Postings | Positions | FastFields | FieldNorms | Terms | Store | TempStore | Delete.

#[global] Instance SegmentComponent_eq_dec : EqDecision SegmentComponent.
Proof. solve_decision. Defined.

(** [InnerSegmentMeta], less the temporary-store flag. *)
Record InnerSegmentMeta := mkInner {
  inner_segment_id : Z;
  inner_max_doc : Z;
  inner_deletes : option Z;
}.

Inductive EntryError := NonMutableAdd | NonMutableDelete | NonMutableSnapshot.

(** ** Construction and accessors *)

Definition new_mutable (segment_id max_doc xmax : Z) (c : SegmentMetaEntryMutable) : SegmentMetaEntry :=
  mkEntry (mkHeader segment_id max_doc TagMutable xmax) (Mutable c).

Definition new_immutable (segment_id max_doc xmax : Z) (c : SegmentMetaEntryImmutable) : SegmentMetaEntry :=
  mkEntry (mkHeader segment_id max_doc TagImmutable xmax) (Immutable c).

Definition segment_id (e : SegmentMetaEntry) : Z := h_segment_id (header e).
Definition max_doc (e : SegmentMetaEntry) : Z := h_max_doc (header e).
Definition xmax (e : SegmentMetaEntry) : Z := h_xmax (header e).

Definition is_mutable (e : SegmentMetaEntry) : bool :=
  match content e with Mutable _ => true | Immutable _ => false end.

Definition put_max_doc (n : Z) (e : SegmentMetaEntry) : SegmentMetaEntry :=
  mkEntry (mkHeader (segment_id e) n (h_tag (header e)) (xmax e)) (content e).

Definition set_xmax (x : Z) (e : SegmentMetaEntry) : SegmentMetaEntry :=
  mkEntry (mkHeader (segment_id e) (max_doc e) (h_tag (header e)) x) (content e).

Definition is_deleted (e : SegmentMetaEntry) : bool := xmax e =? FrozenTransactionId.

Definition is_orphaned_delete (e : SegmentMetaEntry) : bool := segment_id e =? 0.

Definition num_deleted_docs (e : SegmentMetaEntry) : Z :=
  match content e with
  | Immutable c => match delete c with Some d => d_num_deleted_docs d | None => 0 end
  | Mutable c => m_num_deleted_docs c
  end.

Definition num_docs (e : SegmentMetaEntry) : Z := u64 (max_doc e - num_deleted_docs e).

Definition as_tantivy (e : SegmentMetaEntry) : InnerSegmentMeta :=
  let '(max_doc, deletes) :=
    match content e with
    | Immutable c => (max_doc e, d_num_deleted_docs <$> delete c)
    | Mutable c => (u32 (max_doc e - m_num_deleted_docs c), None)
    end in
  mkInner (segment_id e) max_doc deletes.

(** [rows] is [indexrel.options().mutable_segment_rows()]. *)
Definition is_mergeable (rows : option Z) (e : SegmentMetaEntry) : bool :=
  let immutable_or_mergable :=
    match content e with
    | Mutable c => frozen c || (match rows with None => true | Some _ => false end)
    | Immutable _ => true
    end in
  negb (is_deleted e) && immutable_or_mergable.

(** ** Files *)

Definition file_entries (c : SegmentMetaEntryImmutable) : list (FileEntry * SegmentComponent) :=
  let entry (o : option FileEntry) k := match o with Some fe => [(fe, k)] | None => [] end in
  entry (postings c) Postings ++ entry (positions c) Positions ++
  entry (fast_fields c) FastFields ++ entry (field_norms c) FieldNorms ++
  entry (terms c) Terms ++ entry (temp_store c) TempStore ++
  entry (file_entry_of <$> delete c) Delete.

Definition byte_size (e : SegmentMetaEntry) : Z :=
  let bytes (o : option FileEntry) := match o with Some fe => total_bytes fe | None => 0 end in
  match content e with
  | Mutable c => u64 (max_doc e * 1000 + m_num_deleted_docs c * 10)
  | Immutable c =>
      u64 (bytes (postings c) + bytes (positions c) + bytes (fast_fields c) +
           bytes (field_norms c) + bytes (terms c) + bytes (store c) +
           bytes (temp_store c) + bytes (file_entry_of <$> delete c))
  end.

(** [None] is the panic "SegmentMetaEntry has no files". *)
Definition pintest_blockno (e : SegmentMetaEntry) : option Z :=
  match content e with
  | Immutable c => match file_entries c with [] => None | (fe, _) :: _ => Some (starting_block fe) end
  | Mutable c => Some (header_block c)
  end.

Definition visible (e : SegmentMetaEntry) : bool := negb (is_deleted e).

(** [cleanup b]: whether [get_buffer_for_cleanup_conditional(b)] gets its lock. *)
Definition recyclable (cleanup : Z -> bool) (e : SegmentMetaEntry) : outcome unit bool :=
  if is_deleted e then
    match pintest_blockno e with
    | None => Panic
    | Some b => Ok ((b =? InvalidBlockNumber) || cleanup b)
    end
  else Ok false.

(** Replaces the delete file; an existing one moves to an "orphaned" clone of the entry
    that only lives until it is garbage collected.  [None] is [unreachable!]. *)
Definition replace_deletes (d : DeleteEntry) (e : SegmentMetaEntry)
  : option (option SegmentMetaEntry * SegmentMetaEntry) :=
  match content e with
  | Immutable c =>
      let result :=
        match delete c with
        | Some _ => Some (new_immutable 0 (max_doc e) FrozenTransactionId c)
        | None => None
        end in
      Some (result,
        mkEntry (header e)
          (Immutable (mkImmutable (postings c) (positions c) (fast_fields c) (field_norms c)
             (terms c) (store c) (temp_store c) (Some d))))
  | Mutable _ => None
  end.

(** [bytes_blocks b] and [items_blocks b] are [freeable_blocks] of the byte list and of the
    item list headed at [b]; [None] is the panic of [unwrap]. *)
Definition freeable_blocks (bytes_blocks items_blocks : Z -> list Z) (e : SegmentMetaEntry)
  : option (list Z) :=
  match content e with
  | Immutable c =>
      if is_orphaned_delete e then
        match delete c with
        | Some d => Some (bytes_blocks (starting_block (file_entry_of d)))
        | None => None
        end
      else Some (file_entries c ≫= (fun p => bytes_blocks (starting_block p.1)))
  | Mutable c => Some (items_blocks (header_block c))
  end.

(** ** The log of a mutable segment *)

Section mutable_log.
Context {St : Type} `{ItemList St MutableSegmentEntry}.

Definition put_content (c : SegmentMetaEntryContent) (e : SegmentMetaEntry) : SegmentMetaEntry :=
  mkEntry (header e) c.

(** [items.len().try_into().unwrap()]: more than [u32::MAX] items panic. *)
Definition len_u32 {A} (l : list A) : option Z :=
  if Z.of_nat (length l) <? 2 ^ 32 then Some (Z.of_nat (length l)) else None.

Definition mutable_add_items (rows : option Z) (items : list MutableSegmentEntry)
  : M (SegmentMetaEntry * St) EntryError unit := fun '(e, st) =>
  match len_u32 items with
  | None => (Panic, (e, st))
  | Some items_len =>
      let new_max_doc := u32 (max_doc e + items_len) in
      match content e with
      | Mutable c =>
          if negb (frozen c) then
            let st' := il_add_items (header_block c) items st in
            let row_limit := default 0 rows in
            let c' := if row_limit <=? new_max_doc
                      then mkMutable (header_block c) (m_num_deleted_docs c) true else c in
            (Ok tt, (put_max_doc new_max_doc (put_content (Mutable c') e), st'))
          else (Err NonMutableAdd, (e, st))
      | Immutable _ => (Err NonMutableAdd, (e, st))
      end
  end.

Definition mutable_delete_items (ctids : list Z)
  : M (SegmentMetaEntry * St) EntryError unit := fun '(e, st) =>
  match content e with
  | Mutable c =>
      let entries := Remove <$> ctids in
      let st' := il_add_items (header_block c) entries st in
      match len_u32 entries with
      | None => (Panic, (e, st'))
      | Some deleted =>
          let c' := mkMutable (header_block c) (u32 (m_num_deleted_docs c + deleted)) (frozen c) in
          (Ok tt, (put_content (Mutable c') e, st'))
      end
  | Immutable _ => (Err NonMutableDelete, (e, st))
  end.

(** The set a log builds: [ctid_set.insert] and [ctid_set.remove]. *)
Definition apply_entry (s : gset Z) (x : MutableSegmentEntry) : gset Z :=
  match x with Add c => {[c]} ∪ s | Remove c => s ∖ {[c]} end.

Definition replay (log : list MutableSegmentEntry) : gset Z := foldl apply_entry ∅ log.

Definition mutable_snapshot (e : SegmentMetaEntry) (st : St) : outcome EntryError (list Z) :=
  match content e with
  | Mutable c =>
      let entries := il_list (header_block c) st in
      let snapshot_entries := max_doc e + m_num_deleted_docs c in
      let expected_ctids := u32 (max_doc e - m_num_deleted_docs c) in
      let ctid_set := replay (take (Z.to_nat snapshot_entries) entries) in
      if Z.of_nat (size ctid_set) =? expected_ctids
      then Ok (merge_sort Z.le (elements ctid_set))
      else Panic
  | Immutable _ => Err NonMutableSnapshot
  end.

End mutable_log.

(** ** Serialization

    bincode is a parameter: it encodes the header with its tag as a [u32], and the two
    kinds of content. *)

Section items.
Variables (enc_header : Z * Z * Z * Z -> list Z) (dec_header : list Z -> option (Z * Z * Z * Z * nat)).
Variables (enc_imm : SegmentMetaEntryImmutable -> list Z) (dec_imm : list Z -> option (SegmentMetaEntryImmutable * nat)).
Variables (enc_mut : SegmentMetaEntryMutable -> list Z) (dec_mut : list Z -> option (SegmentMetaEntryMutable * nat)).

Definition to_item (e : SegmentMetaEntry) : list Z :=
  let h := header e in
  enc_header (h_segment_id h, h_max_doc h, tag_to_u32 (h_tag h), h_xmax h) ++
  match content e with
  | Immutable c => enc_imm c
  | Mutable c => enc_mut c
  end.

(** [None] is a panic of one of the [expect]s. *)
Definition from_item (bytes : list Z) : option SegmentMetaEntry :=
  '(sid, md, tg, xm, bytes_read) ← dec_header bytes;
  tag ← tag_from_u32 tg;
  let rest := drop bytes_read bytes in
  c ← match tag with
      | TagImmutable => '(c, _) ← dec_imm rest; Some (Immutable c)
      | TagMutable => '(c, _) ← dec_mut rest; Some (Mutable c)
      end;
  Some (mkEntry (mkHeader sid md tag xm) c).

End items.

(** ** File names

    tantivy's names are parameters: the extension of a component, the text of a segment id,
    and their parsers. *)

Section paths.
Variables (component_ext : SegmentComponent -> string) (component_of_ext : string -> option SegmentComponent).
Variables (uuid_string : Z -> string) (from_uuid_string : string -> option Z).

Definition dot : Ascii.ascii := Ascii.ascii_of_nat 46.

(** [str::split('.')] *)
Fixpoint split_dot (s : string) : list string :=
  match s with
  | EmptyString => [EmptyString]
  | String a s' =>
      if Ascii.eqb a dot then EmptyString :: split_dot s'
      else match split_dot s' with
           | [] => [String a EmptyString]
           | p :: ps => String a p :: ps
           end
  end.

Definition path (uuid : string) (component : SegmentComponent) : string :=
  match component with
  | Delete => String.append uuid (String.append ".0." (component_ext Delete))
  | _ => String.append uuid (String.append "." (component_ext component))
  end.

(** [SegmentFileDetails] of a path; the path here is its file name. *)
Definition path_segment_id (p : string) : option Z :=
  part ← split_dot p !! 0%nat; from_uuid_string part.

Definition path_component_type (p : string) : option SegmentComponent :=
  let parts := split_dot p in
  _ ← parts !! 0%nat;
  extension ← parts !! 1%nat;
  let extension := match parts !! 2%nat with Some last => last | None => extension end in
  component_of_ext extension.

Definition file_entry (c : SegmentMetaEntryImmutable) (uuid p : string) : option FileEntry :=
  (fun x => x.2.1) <$> list_find (fun fk : FileEntry * SegmentComponent => p = path uuid fk.2) (file_entries c).

Definition get_component_paths (e : SegmentMetaEntry) : list string :=
  match content e with
  | Immutable c => (fun fk => path (uuid_string (segment_id e)) fk.2) <$> file_entries c
  | Mutable _ => []
  end.

End paths.

End SegmentMeta.
