(* ===== verification/SegmentMetaProps.v ===== *)
(** * Properties of segment metadata entries

    Snapshots of mutable segments, the serialized form, and which blocks an entry frees. *)

From stdpp Require Import prelude gmap sorting strings.
From Stdlib Require Import Ascii ZArith Lia.
From S2P Require Import Prelude SegmentMeta.
Import SegmentMeta.

Local Open Scope Z_scope.

(** ** Snapshots of a mutable segment *)

Definition is_add (x : MutableSegmentEntry) : bool := match x with Add _ => true | Remove _ => false end.

Fixpoint adds (log : list MutableSegmentEntry) : Z :=
  match log with [] => 0 | x :: log => (if is_add x then 1 else 0) + adds log end.

Fixpoint removes (log : list MutableSegmentEntry) : Z :=
  match log with [] => 0 | x :: log => (if is_add x then 0 else 1) + removes log end.

(** The discipline of the callers: a tuple is added while it is not live and removed while
    it is. *)
Fixpoint log_ok (s : gset Z) (log : list MutableSegmentEntry) : Prop :=
  match log with
  | [] => True
  | x :: log =>
      match x with Add c => c ∉ s | Remove c => c ∈ s end /\ log_ok (apply_entry s x) log
  end.

Lemma adds_app l1 l2 : adds (l1 ++ l2) = adds l1 + adds l2.
Proof. induction l1 as [|x l1 IH]; simpl; [done|]. rewrite IH. lia. Qed.

Lemma removes_app l1 l2 : removes (l1 ++ l2) = removes l1 + removes l2.
Proof. induction l1 as [|x l1 IH]; simpl; [done|]. rewrite IH. lia. Qed.

Lemma adds_removes log : adds log + removes log = Z.of_nat (length log).
Proof. induction log as [|x log IH]; simpl; [done|]. destruct (is_add x); lia. Qed.

Lemma adds_nonneg log : 0 <= adds log.
Proof. induction log as [|x log IH]; simpl; [done|]. destruct (is_add x); lia. Qed.

Lemma removes_nonneg log : 0 <= removes log.
Proof. induction log as [|x log IH]; simpl; [done|]. destruct (is_add x); lia. Qed.

Lemma adds_Add cs : adds (Add <$> cs) = Z.of_nat (length cs) /\ removes (Add <$> cs) = 0.
Proof. induction cs as [|c cs [IH1 IH2]]; [done|]. rewrite fmap_cons. cbn [adds removes is_add length]. lia. Qed.

Lemma removes_Remove cs : adds (Remove <$> cs) = 0 /\ removes (Remove <$> cs) = Z.of_nat (length cs).
Proof. induction cs as [|c cs [IH1 IH2]]; [done|]. rewrite fmap_cons. cbn [adds removes is_add length]. lia. Qed.

Lemma log_ok_size s log : log_ok s log ->
  Z.of_nat (size (foldl apply_entry s log)) + removes log = Z.of_nat (size s) + adds log.
Proof.
  revert s. induction log as [|x log IH]; intros s; simpl; [lia|]. intros [Hx Hlog].
  specialize (IH _ Hlog). destruct x as [c|c]; simpl in *.
  - rewrite size_union, size_singleton in IH by set_solver. lia.
  - rewrite size_difference, size_singleton in IH by set_solver.
    assert (0 < size s)%nat; [|lia]. apply Nat.lt_nge. intros Hle.
    assert (size s = 0%nat) as Hz%size_empty_iff by lia. set_solver.
Qed.

Section snapshot.
Context {St : Type} `{ItemList St MutableSegmentEntry}.
Implicit Types (e : SegmentMetaEntry) (st : St).

(** The calls that change a mutable segment. *)
Inductive mop := MAdd (rows : option Z) (ctids : list Z) | MDel (ctids : list Z) | MXmax (x : Z).

Definition apply_mop (o : mop) (s : SegmentMetaEntry * St) : SegmentMetaEntry * St :=
  match o with
  | MAdd rows cs => (mutable_add_items rows (Add <$> cs) s).2
  | MDel cs => (mutable_delete_items cs s).2
  | MXmax x => (set_xmax x s.1, s.2)
  end.

Definition run_mops (os : list mop) (s : SegmentMetaEntry * St) : SegmentMetaEntry * St :=
  foldl (fun s o => apply_mop o s) s os.

(** The entry counts the adds and the removes of its log, modulo the width of a [u32]. *)
Definition seg_inv (hb : Z) (s : SegmentMetaEntry * St) : Prop :=
  il_ok hb s.2 /\ max_doc s.1 = u32 (adds (il_list hb s.2)) /\
  exists fr, content s.1 = Mutable (mkMutable hb (u32 (removes (il_list hb s.2))) fr).

Lemma wrap_add w x y : wrap w (wrap w x + y) = wrap w (x + y).
Proof. unfold wrap. by rewrite Zplus_mod_idemp_l. Qed.

Definition ops_small (o : mop) : Prop :=
  match o with MAdd _ cs | MDel cs => Z.of_nat (length cs) < 2 ^ 32 | MXmax _ => True end.

Lemma seg_inv_step hb o s : ops_small o -> seg_inv hb s -> seg_inv hb (apply_mop o s).
Proof.
  intros Ho (Hok & Hmd & fr & Hc). destruct s as [e st], o as [rows cs|cs|x]; simpl in *.
  - unfold len_u32. rewrite length_fmap, (proj2 (Z.ltb_lt _ _)) by done. rewrite Hc. cbn [frozen header_block].
    destruct fr; simpl; [by split; [|split; [|eexists]]|].
    split; [by apply il_add_ok|]. cbn [fst snd]. rewrite il_add_list, adds_app, removes_app by done.
    destruct (adds_Add cs) as [-> ->]. rewrite Z.add_0_r. split.
    + unfold max_doc at 1. simpl. by rewrite Hmd, wrap_add.
    + simpl. case_match; by eexists.
  - rewrite Hc. cbn [header_block m_num_deleted_docs frozen]. unfold len_u32.
    rewrite length_fmap, (proj2 (Z.ltb_lt _ _)) by done. simpl.
    split; [by apply il_add_ok|]. cbn [fst snd]. rewrite il_add_list, adds_app, removes_app by done.
    destruct (removes_Remove cs) as [-> ->]. rewrite Z.add_0_r. split; [done|]. exists fr. by rewrite wrap_add.
  - split; [done|]. split; [done|]. by exists fr.
Qed.

Lemma seg_inv_run hb os s : Forall ops_small os -> seg_inv hb s -> seg_inv hb (run_mops os s).
Proof.
  revert s. induction os as [|o os IH]; intros s; simpl; [done|]. intros [Ho Hos]%Forall_cons Hs.
  apply IH; [done|]. by apply seg_inv_step.
Qed.

(** Later operations only append to the log. *)
Lemma run_appends hb os s : Forall ops_small os -> seg_inv hb s ->
  exists more, il_list hb (run_mops os s).2 = il_list hb s.2 ++ more.
Proof.
  revert s. induction os as [|o os IH]; intros s; simpl.
  { intros _ _. exists []. by rewrite app_nil_r. }
  intros [Ho Hos]%Forall_cons Hs. destruct (IH _ Hos (seg_inv_step hb o s Ho Hs)) as [more Hmore].
  assert (exists m0, il_list hb (apply_mop o s).2 = il_list hb s.2 ++ m0) as [m0 Hm0].
  { destruct Hs as (Hok & _ & fr & Hc). destruct s as [e st], o as [rows cs|cs|x]; simpl in *.
    - rewrite Hc. unfold len_u32. rewrite length_fmap, (proj2 (Z.ltb_lt _ _)) by done.
      destruct fr; simpl; [exists []; by rewrite app_nil_r|]. exists (Add <$> cs). by apply il_add_list.
    - rewrite Hc. simpl. unfold len_u32. rewrite length_fmap, (proj2 (Z.ltb_lt _ _)) by done.
      exists (Remove <$> cs). by apply il_add_list.
    - exists []. by rewrite app_nil_r. }
  exists (m0 ++ more). by rewrite Hmore, Hm0, app_assoc.
Qed.

(** The snapshot of an entry is what its log builds, also when the log has grown since. *)
Lemma snapshot_replay hb e st st' more : seg_inv hb (e, st) -> il_list hb st' = il_list hb st ++ more -> log_ok ∅ (il_list hb st) ->
  Z.of_nat (length (il_list hb st)) < 2 ^ 32 -> mutable_snapshot e st' = Ok (merge_sort Z.le (elements (replay (il_list hb st)))).
Proof.
  intros (_ & Hmd & fr & Hc) Hmore Hlog Hlen. cbn [fst snd] in *. set (log := il_list hb st) in *.
  pose proof (adds_removes log). pose proof (adds_nonneg log). pose proof (removes_nonneg log).
  pose proof (log_ok_size ∅ log Hlog) as Hsz. rewrite size_empty in Hsz. fold (replay log) in Hsz.
  unfold mutable_snapshot. rewrite Hc. cbn [header_block m_num_deleted_docs]. rewrite Hmd, Hmore.
  rewrite !wrap_small by (rewrite ?wrap_small; lia).
  replace (Z.to_nat (adds log + removes log)) with (length log) by lia.
  by rewrite take_app_length, (proj2 (Z.eqb_eq _ _)) by lia.
Qed.

(** C9: Whatever adds, deletes and deletion marks a fresh mutable segment has gone through,
    a snapshot through its metadata entry is the sorted list of the tuples that were live
    when the entry was read, also when other backends have appended to the log since; the
    size assertion of the code never fails. *)
Theorem snapshot_isolated hb sid x os later (st0 : St) :
  il_ok hb st0 -> il_list hb st0 = [] ->
  Forall ops_small os -> Forall ops_small later ->
  let s := run_mops os (new_mutable sid 0 x (mkMutable hb 0 false), st0) in
  let log := il_list hb s.2 in
  log_ok ∅ log -> Z.of_nat (length log) < 2 ^ 32 ->
  exists l, mutable_snapshot s.1 (run_mops later s).2 = Ok l /\
    StronglySorted Z.lt l /\ forall c, c ∈ l <-> c ∈ replay log.
Proof.
  intros Hok Hnil Hos Hlater s log Hlog Hlen.
  assert (seg_inv hb s) as Hinv.
  { apply seg_inv_run; [done|]. unfold seg_inv. simpl. rewrite Hnil. by split; [|split; [|eexists]]. }
  destruct (run_appends hb later s Hlater Hinv) as [more Hmore].
  destruct s as [e st]. cbn [fst snd] in *. rewrite (snapshot_replay hb e st _ more Hinv Hmore Hlog Hlen). eexists. split; [done|]. fold log.
  pose proof (merge_sort_Permutation Z.le (elements (replay log))) as Hp. split.
  - apply StronglySorted_le_lt; [|rewrite Hp; apply NoDup_elements].
    apply (StronglySorted_merge_sort Z.le).
  - intros c. rewrite Hp. apply elem_of_elements.
Qed.

End snapshot.

(** A concrete store of lists: one list per header block. *)
#[global, program] Instance map_ItemList : ItemList (gmap Z (list MutableSegmentEntry)) MutableSegmentEntry := {|
  il_ok hb st := True;
  il_list hb st := default [] (st !! hb);
  il_add_items hb es st := <[hb := default [] (st !! hb) ++ es]> st;
|}.
Next Obligation. done. Qed.
Next Obligation. intros hb es st _. simpl. by rewrite lookup_insert_eq. Qed.

Lemma snapshot_isolated_witness :
  exists l,
    let s := run_mops [MAdd (Some 100) [30; 10; 20]; MDel [10]; MAdd (Some 100) [40]]
               (new_mutable 7 0 0 (mkMutable 5 0 false), (∅ : gmap Z (list MutableSegmentEntry))) in
    mutable_snapshot s.1 (run_mops [MAdd (Some 100) [99]; MDel [20]] s).2 = Ok l /\ l = [20; 30; 40].
Proof.
  destruct (snapshot_isolated 5 7 0 [MAdd (Some 100) [30; 10; 20]; MDel [10]; MAdd (Some 100) [40]]
    [MAdd (Some 100) [99]; MDel [20]] (∅ : gmap Z (list MutableSegmentEntry))) as (l & E & _).
  - done.
  - done.
  - repeat constructor.
  - repeat constructor.
  - vm_compute. tauto || (repeat split; (discriminate || done)).
  - vm_compute. reflexivity.
  - exists l. split; [exact E|]. assert (Ok l = Ok [20; 30; 40] :> outcome EntryError _) as [= ->]; [|done].
    rewrite <- E. vm_compute. reflexivity.
Defined.

(** ** Serialization *)

(** The tag stored in the header agrees with the kind of the content (the code's
    [debug_assert!]s). *)
Definition tag_consistent (e : SegmentMetaEntry) : Prop :=
  h_tag (header e) = match content e with Immutable _ => TagImmutable | Mutable _ => TagMutable end.

(** Every [u32] is a tag: the ids an older version could have stored there all read as an
    immutable segment, so the panic of [From<u32>] is dead code. *)
Lemma tag_from_total v : 0 <= v < 2 ^ 32 ->
  tag_from_u32 v = Some (if v =? 1 then TagMutable else TagImmutable).
Proof.
  intros Hv. unfold tag_from_u32, tag_to_u32, InvalidTransactionId, FirstNormalTransactionId.
  destruct (Z.eqb_spec v 1) as [->|]; [done|].
  destruct (Z.eqb_spec v 2), (Z.eqb_spec v 0), (Z.leb_spec 3 v); simpl; done || lia.
Qed.

Lemma tag_consistent_new_mutable sid md x c : tag_consistent (new_mutable sid md x c).
Proof. done. Qed.

Lemma tag_consistent_new_immutable sid md x c : tag_consistent (new_immutable sid md x c).
Proof. done. Qed.

Lemma tag_consistent_run {St} `{ItemList St MutableSegmentEntry} os (s : SegmentMetaEntry * St) :
  tag_consistent s.1 -> tag_consistent (run_mops os s).1.
Proof.
  revert s. induction os as [|o os IH]; intros s Hs; [done|]. apply IH.
  destruct s as [e st], o as [rows cs|cs|x]; simpl in *; unfold tag_consistent in *.
  - destruct (len_u32 (Add <$> cs)); [|done]. destruct (content e) as [|c] eqn:E; simpl; [by rewrite E|].
    destruct (frozen c); simpl; [by rewrite E|]. done.
  - destruct (content e) as [|c] eqn:E; simpl; [by rewrite E|].
    destruct (len_u32 (Remove <$> cs)); simpl; [done|by rewrite E].
  - done.
Qed.

Lemma tag_consistent_replace d e r e' : tag_consistent e -> replace_deletes d e = Some (r, e') ->
  tag_consistent e' /\ forall o, r = Some o -> tag_consistent o.
Proof.
  unfold replace_deletes, tag_consistent. destruct (content e) as [c|]; [|done].
  intros Ht [= <- <-]. split; [done|]. intros o. destruct (delete c); [by intros [= <-]|done].
Qed.

Section item_roundtrip.
Variables (enc_header : Z * Z * Z * Z -> list Z) (dec_header : list Z -> option (Z * Z * Z * Z * nat)).
Variables (enc_imm : SegmentMetaEntryImmutable -> list Z) (dec_imm : list Z -> option (SegmentMetaEntryImmutable * nat)).
Variables (enc_mut : SegmentMetaEntryMutable -> list Z) (dec_mut : list Z -> option (SegmentMetaEntryMutable * nat)).
(** bincode decodes what it encoded, ignoring the bytes that follow, and reports how many
    bytes it read. *)
Hypothesis header_codec : forall h rest, dec_header (enc_header h ++ rest) = Some (h, length (enc_header h)).
Hypothesis imm_codec : forall c, dec_imm (enc_imm c) = Some (c, length (enc_imm c)).
Hypothesis mut_codec : forall c, dec_mut (enc_mut c) = Some (c, length (enc_mut c)).

(** An entry whose tag agrees with its content is read back from its serialized form
    unchanged: the tag that was written selects the decoder of the content that was
    written, and the content starts where the header ends. *)
Theorem entry_item_roundtrip e : tag_consistent e ->
  from_item dec_header dec_imm dec_mut (to_item enc_header enc_imm enc_mut e) = Some e.
Proof.
  intros Ht. destruct e as [[sid md tg x] c]. unfold to_item, from_item. cbn [header content h_segment_id h_max_doc h_tag h_xmax].
  rewrite header_codec. simpl. unfold tag_consistent in Ht. simpl in Ht.
  destruct c as [c|c]; subst tg; simpl; rewrite drop_app_length; [by rewrite imm_codec|by rewrite mut_codec].
Qed.

End item_roundtrip.

Definition demo_enc_header (h : Z * Z * Z * Z) : list Z := let '(a, b, c, d) := h in [a; b; c; d].
Definition demo_dec_header (l : list Z) : option (Z * Z * Z * Z * nat) :=
  match l with a :: b :: c :: d :: _ => Some (a, b, c, d, 4%nat) | _ => None end.
Definition demo_enc_mut (c : SegmentMetaEntryMutable) : list Z :=
  [header_block c; m_num_deleted_docs c; if frozen c then 1 else 0].
Definition demo_dec_mut (l : list Z) : option (SegmentMetaEntryMutable * nat) :=
  match l with a :: b :: f :: _ => Some (mkMutable a b (negb (f =? 0)), 3%nat) | _ => None end.
Definition enc_file (o : option FileEntry) : list Z :=
  match o with Some f => [1; starting_block f; total_bytes f] | None => [0; 0; 0] end.
Definition dec_file (a b c : Z) : option FileEntry := if a =? 0 then None else Some (mkFile b c).
Definition demo_enc_imm (c : SegmentMetaEntryImmutable) : list Z :=
  enc_file (postings c) ++ enc_file (positions c) ++ enc_file (fast_fields c) ++ enc_file (field_norms c) ++
  enc_file (terms c) ++ enc_file (store c) ++ enc_file (temp_store c) ++ enc_file (file_entry_of <$> delete c) ++
  [match delete c with Some d => d_num_deleted_docs d | None => 0 end].
Definition demo_dec_imm (l : list Z) : option (SegmentMetaEntryImmutable * nat) :=
  match l with
  | a1 :: a2 :: a3 :: b1 :: b2 :: b3 :: c1 :: c2 :: c3 :: d1 :: d2 :: d3 :: e1 :: e2 :: e3 ::
    f1 :: f2 :: f3 :: g1 :: g2 :: g3 :: h1 :: h2 :: h3 :: n :: _ =>
      Some (mkImmutable (dec_file a1 a2 a3) (dec_file b1 b2 b3) (dec_file c1 c2 c3) (dec_file d1 d2 d3)
        (dec_file e1 e2 e3) (dec_file f1 f2 f3) (dec_file g1 g2 g3)
        ((fun f => mkDelete f n) <$> dec_file h1 h2 h3), 25%nat)
  | _ => None
  end.

Lemma entry_item_roundtrip_witness :
  from_item demo_dec_header demo_dec_imm demo_dec_mut
    (to_item demo_enc_header demo_enc_imm demo_enc_mut (new_mutable 9 4 0 (mkMutable 12 1 true))) =
  Some (new_mutable 9 4 0 (mkMutable 12 1 true)).
Proof.
  apply (entry_item_roundtrip demo_enc_header demo_dec_header demo_enc_imm demo_dec_imm demo_enc_mut demo_dec_mut).
  - intros [[[a b] c] d] rest. reflexivity.
  - intros [[[]|] [[]|] [[]|] [[]|] [[]|] [[]|] [[]|] [[[] ?]|]]; reflexivity.
  - intros [a b []]; reflexivity.
  - reflexivity.
Defined.

(** ** Deletes and freeable blocks *)

Section freeing.
Variables (bytes_blocks items_blocks : Z -> list Z).

(** Every file of a segment but its delete file. *)
Definition other_files (c : SegmentMetaEntryImmutable) : list (FileEntry * SegmentComponent) :=
  file_entries (mkImmutable (postings c) (positions c) (fast_fields c) (field_norms c) (terms c) (store c)
    (temp_store c) None).

Lemma file_entries_split c :
  file_entries c = other_files c ++ match delete c with Some d => [(file_entry_of d, Delete)] | None => [] end.
Proof. unfold other_files, file_entries. simpl. rewrite app_nil_r, <- !app_assoc. by destruct (delete c). Qed.

(** Replacing the delete file of a live immutable segment neither leaks a block nor
    frees one twice: what the segment and the orphaned clone will free between them is what
    the segment would have freed before, plus the blocks of the new delete file; the clone
    is deleted and recyclable at once, and the segment itself keeps its id, size and
    visibility. *)
Theorem replace_deletes_conserves d e :
  is_mutable e = false -> is_orphaned_delete e = false ->
  exists r e' b0 b1, replace_deletes d e = Some (r, e') /\
    segment_id e' = segment_id e /\ max_doc e' = max_doc e /\ visible e' = visible e /\
    num_deleted_docs e' = d_num_deleted_docs d /\
    freeable_blocks bytes_blocks items_blocks e = Some b0 /\
    freeable_blocks bytes_blocks items_blocks e' = Some b1 /\
    match r with
    | None => b1 = b0 ++ bytes_blocks (starting_block (file_entry_of d))
    | Some o => is_deleted o = true /\ exists b2, freeable_blocks bytes_blocks items_blocks o = Some b2 /\
        b1 ++ b2 ≡ₚ b0 ++ bytes_blocks (starting_block (file_entry_of d))
    end.
Proof.
  destruct e as [h [c|c]]; [|done]. intros _ Ho. unfold replace_deletes, freeable_blocks. cbn [content header].
  assert (forall c' d', delete c' = Some d' -> other_files c' = other_files c ->
    file_entries c' ≫= (fun p => bytes_blocks (starting_block p.1)) =
    (other_files c ≫= (fun p => bytes_blocks (starting_block p.1))) ++ bytes_blocks (starting_block (file_entry_of d'))) as Hfe.
  { intros c' d' Hd' Hof. rewrite file_entries_split, Hd', Hof, bind_app. simpl. by rewrite app_nil_r. }
  eexists _, _, _, _. split; [done|]. do 4 (split; [done|]).
  split; [unfold is_orphaned_delete, segment_id in *; simpl in *; by rewrite Ho|].
  split; [unfold is_orphaned_delete, segment_id in *; simpl in *; by rewrite Ho|].
  rewrite (Hfe _ d) by done. destruct (delete c) as [d0|] eqn:Ed.
  - split; [done|]. eexists. split; [unfold is_orphaned_delete; simpl; by rewrite Ed|].
    rewrite (Hfe c d0) by done. solve_Permutation.
  - rewrite (file_entries_split c), Ed, app_nil_r. done.
Qed.

End freeing.

Lemma replace_deletes_conserves_witness :
  exists r e' b0 b1,
    replace_deletes (mkDelete (mkFile 77 10) 3)
      (new_immutable 5 40 0 (mkImmutable (Some (mkFile 10 100)) None None None None None None
        (Some (mkDelete (mkFile 60 8) 1)))) = Some (r, e') /\
    freeable_blocks (fun b => [b]) (fun b => [b])
      (new_immutable 5 40 0 (mkImmutable (Some (mkFile 10 100)) None None None None None None
        (Some (mkDelete (mkFile 60 8) 1)))) = Some b0 /\
    freeable_blocks (fun b => [b]) (fun b => [b]) e' = Some b1 /\ num_deleted_docs e' = 3.
Proof.
  destruct (replace_deletes_conserves (fun b => [b]) (fun b => [b]) (mkDelete (mkFile 77 10) 3)
    (new_immutable 5 40 0 (mkImmutable (Some (mkFile 10 100)) None None None None None None
        (Some (mkDelete (mkFile 60 8) 1)))) eq_refl eq_refl) as (r & e' & b0 & b1 & E & _ & _ & _ & En & E0 & E1 & _).
  exists r, e', b0, b1. split; [exact E|]. split; [exact E0|]. split; [exact E1|exact En].
Defined.

(** [file_entries] has no entry for the [store] file: it has no blocks, since the directory
    never writes one. *)
Lemma store_never_freed bb ib sid md x p ps ff fn te ts d st1 st2 :
  freeable_blocks bb ib (new_immutable sid md x (mkImmutable p ps ff fn te st1 ts d)) =
  freeable_blocks bb ib (new_immutable sid md x (mkImmutable p ps ff fn te st2 ts d)).
Proof. done. Qed.

(** ** File names *)

Fixpoint no_dot (s : string) : Prop :=
  match s with EmptyString => True | String a s => a <> dot /\ no_dot s end.

Lemma split_dot_plain s : no_dot s -> split_dot s = [s].
Proof.
  induction s as [|a s IH]; [done|]. intros [Ha Hs]. cbn [split_dot].
  destruct (Ascii.eqb_spec a dot); [done|]. by rewrite IH.
Qed.

Lemma split_dot_app s t : no_dot s -> split_dot (String.append s (String dot t)) = s :: split_dot t.
Proof.
  induction s as [|a s IH]; [done|]. intros [Ha Hs].
  change (String.append (String a s) (String dot t)) with (String a (String.append s (String dot t))). cbn [split_dot].
  destruct (Ascii.eqb_spec a dot); [done|]. by rewrite IH.
Qed.

Section path_props.
Variables (component_ext : SegmentComponent -> string) (component_of_ext : string -> option SegmentComponent).
Variables (uuid_string : Z -> string) (from_uuid_string : string -> option Z).
(** The texts contain no dot and parse back. *)
Hypothesis ext_no_dot : forall c, no_dot (component_ext c).
Hypothesis ext_parses : forall c, component_of_ext (component_ext c) = Some c.
Hypothesis uuid_no_dot : forall id, no_dot (uuid_string id).
Hypothesis uuid_parses : forall id, from_uuid_string (uuid_string id) = Some id.

Abbreviation path := (path component_ext).

Lemma split_path id c : exists mid, split_dot (path (uuid_string id) c) = uuid_string id :: mid ++ [component_ext c] /\
  (length mid <= 1)%nat.
Proof.
  assert (forall c', split_dot (String.append (uuid_string id) (String.append "." (component_ext c'))) =
    [uuid_string id; component_ext c']) as H1.
  { intros c'. change (String.append "." (component_ext c')) with (String dot (component_ext c')).
    by rewrite split_dot_app, split_dot_plain. }
  destruct c; try (exists []; split; [apply H1|simpl; lia]).
  exists ["0"%string]. split; [|simpl; lia]. unfold SegmentMeta.path.
  change (String.append ".0." (component_ext Delete))
    with (String dot (String.append "0" (String dot (component_ext Delete)))).
  rewrite split_dot_app by done. rewrite split_dot_app by (split; done). by rewrite split_dot_plain.
Qed.

Lemma path_component id c : path_component_type component_of_ext (path (uuid_string id) c) = Some c.
Proof.
  unfold path_component_type. destruct (split_path id c) as (mid & -> & Hm).
  destruct mid as [|x [|]]; simpl in *; [apply ext_parses|apply ext_parses|lia].
Qed.

Lemma path_inj id c c' : path (uuid_string id) c = path (uuid_string id) c' -> c = c'.
Proof. intros E. pose proof (path_component id c) as Hc. rewrite E, path_component in Hc. congruence. Qed.

(** The file of a component. *)
Definition file_of (c : SegmentMetaEntryImmutable) (k : SegmentComponent) : option FileEntry :=
  match k with
  | Postings => postings c | Positions => positions c | FastFields => fast_fields c
  | FieldNorms => field_norms c | Terms => terms c | Store => None | TempStore => temp_store c
  | Delete => file_entry_of <$> delete c
  end.

Lemma file_entries_file_of c fe k : (fe, k) ∈ file_entries c -> file_of c k = Some fe.
Proof.
  assert (forall (o : option FileEntry) k', (fe, k) ∈ (match o with Some f => [(f, k')] | None => [] end) ->
    k = k' /\ o = Some fe) as Hone.
  { intros [f|] k'; [|by intros ?%elem_of_nil]. intros [= -> ->]%list_elem_of_singleton. done. }
  unfold file_entries. rewrite !elem_of_app. intros [Hin|[Hin|[Hin|[Hin|[Hin|[Hin|Hin]]]]]];
    apply Hone in Hin as [-> Hin]; exact Hin.
Qed.

Lemma file_entries_functional c fe fe' k :
  (fe, k) ∈ file_entries c -> (fe', k) ∈ file_entries c -> fe = fe'.
Proof. intros ?%file_entries_file_of ?%file_entries_file_of. congruence. Qed.

Lemma path_segment id k : path_segment_id from_uuid_string (path (uuid_string id) k) = Some id.
Proof. unfold path_segment_id. destruct (split_path id k) as (mid & -> & _). simpl. apply uuid_parses. Qed.

(** Looking the path of a component up in an entry finds the component's own file. *)
Lemma path_file_entry c id fe k : (fe, k) ∈ file_entries c ->
  file_entry component_ext c (uuid_string id) (path (uuid_string id) k) = Some fe.
Proof.
  intros Hin. unfold file_entry. destruct (list_find _ _) as [[i [fe' k']]|] eqn:E; simpl.
  - apply list_find_Some in E as (Hi & Hp & _). simpl in Hp. apply path_inj in Hp as <-.
    f_equal. eapply file_entries_functional; [|exact Hin]. by eapply list_elem_of_lookup_2.
  - apply list_find_None in E. rewrite Forall_forall in E. exfalso. by apply (E _ Hin).
Qed.

End path_props.

Definition demo_ext (c : SegmentComponent) : string :=
  match c with
  | Postings => "idx" | Positions => "pos" | FastFields => "fast" | FieldNorms => "fieldnorm"
  | Terms => "term" | Store => "store" | TempStore => "temp" | Delete => "del"
  end.
Definition demo_of_ext (s : string) : option SegmentComponent :=
  fst <$> (list_find (fun c => s = demo_ext c) [Postings; Positions; FastFields; FieldNorms; Terms; Store; TempStore; Delete]
    ≫= (fun x => Some (x.2, tt))).
(** Segment ids in unary, enough for a concrete instance. *)
Fixpoint demo_unary (n : nat) : string := match n with O => EmptyString | S n => String "a"%char (demo_unary n) end.
Definition demo_uuid (id : Z) : string :=
  match id with Z0 => "z" | Zpos p => String "p"%char (demo_unary (Pos.to_nat p)) | Zneg p => String "n"%char (demo_unary (Pos.to_nat p)) end.
Definition demo_parse_uuid (s : string) : option Z :=
  match s with
  | String "z"%char _ => Some 0
  | String "p"%char r => Some (Z.of_nat (String.length r))
  | String "n"%char r => Some (- Z.of_nat (String.length r))
  | _ => None
  end.

Lemma demo_unary_ok n : no_dot (demo_unary n) /\ String.length (demo_unary n) = n.
Proof. induction n as [|n [IH1 IH2]]; [done|]. simpl. split; [by split|by rewrite IH2]. Qed.

Lemma demo_names : (forall c, no_dot (demo_ext c)) /\ (forall c, demo_of_ext (demo_ext c) = Some c) /\
  (forall id, no_dot (demo_uuid id)) /\ forall id, demo_parse_uuid (demo_uuid id) = Some id.
Proof.
  split; [intros []; repeat split; done|]. split; [intros []; reflexivity|]. split.
  - intros [|q|q]; simpl; (split; [done|]) || idtac; try done; by apply demo_unary_ok.
  - intros [|q|q]; simpl; [done|..]; rewrite (proj2 (demo_unary_ok _)); f_equal; lia.
Qed.
