(* ===== verification/MergePolicy.v ===== *)
(** * The layered merge policy

    [index/merge_policy.rs]: which segments a merge combines.  Mutable segments are always
    converted; the others are packed, largest layer first, into candidates that exceed the
    layer's size by a third. *)

From stdpp Require Import prelude gmap sorting.
From Stdlib Require Import ZArith Lia SpecFloat.
From S2P Require Import Prelude SegmentMeta.

Local Open Scope Z_scope.

(** ** IEEE double arithmetic, as [f64] *)

Module F64.

Definition prec : Z := 53.
Definition emax : Z := 1024.

(** [n as f64] of an unsigned integer, rounded to nearest even. *)
Definition of_Z (n : Z) : spec_float := binary_normalize prec emax n 0 false.
Definition mul : spec_float -> spec_float -> spec_float := SFmul prec emax.
Definition div : spec_float -> spec_float -> spec_float := SFdiv prec emax.

(** [x as u64]: truncation toward zero, saturating; a NaN is zero. *)
Definition to_u64 (x : spec_float) : Z :=
  match x with
  | S754_finite false m e =>
      let v := if 0 <=? e then Z.pos m * 2 ^ e else Z.pos m / 2 ^ (- e) in
      Z.min v (2 ^ 64 - 1)
  | S754_infinity false => 2 ^ 64 - 1
  | _ => 0
  end.

End F64.

Module MergePolicy.

Abbreviation SegmentMetaEntry := SegmentMeta.SegmentMetaEntry.

(** tantivy's [SegmentMeta], as far as the policy reads it. *)
Record Segment := mkSegment { id : Z; num_docs : Z }.

(** The hash map of mergeable segments is an association list: its iteration order is
    some order of its entries. *)
Record LayeredMergePolicy := mkPolicy {
  layer_sizes : list Z;
  min_merge_count : nat;
  mergeable_segments : list (Z * SegmentMetaEntry);
  already_processed : bool;
}.

Definition new (layer_sizes : list Z) : LayeredMergePolicy := mkPolicy layer_sizes 2 [] false.

(** [HashMap::get] *)
Definition get_entry (m : list (Z * SegmentMetaEntry)) (k : Z) : option SegmentMetaEntry :=
  (fun x => x.2.2) <$> list_find (fun p : Z * SegmentMetaEntry => p.1 = k) m.

Definition actual_byte_size (meta : Segment) (all_entries : list (Z * SegmentMetaEntry)) (avg_doc_size : Z) : Z :=
  match get_entry all_entries (id meta) with
  | Some entry => SegmentMeta.byte_size entry
  | None => u64 (num_docs meta * avg_doc_size)
  end.

Definition adjusted_byte_size (meta : Segment) (all_entries : list (Z * SegmentMetaEntry)) (avg_doc_size : Z) : Z :=
  if num_docs meta =? 0 then 0
  else
    match get_entry all_entries (id meta) with
    | Some entry =>
        let fraction_alive :=
          F64.div (F64.of_Z (SegmentMeta.num_docs entry))
            (F64.of_Z (u64 (SegmentMeta.num_docs entry + SegmentMeta.num_deleted_docs entry))) in
        F64.to_u64 (F64.mul (F64.of_Z (SegmentMeta.byte_size entry)) fraction_alive)
    | None => u64 (num_docs meta * avg_doc_size)
    end.

(** [sort_by_key(|x| Reverse(key(x)))]: stable, largest first. *)
Section sort.
Context {A : Type} (key : A -> Z).

Fixpoint insert_desc (x : A) (l : list A) : list A :=
  match l with
  | [] => [x]
  | y :: l' => if key y <=? key x then x :: l else y :: insert_desc x l'
  end.

Fixpoint sort_desc (l : list A) : list A :=
  match l with [] => [] | x :: l => insert_desc x (sort_desc l) end.

End sort.

Section compute.
Variables (p : LayeredMergePolicy) (original_segments : list Segment).

Abbreviation mergeable := (mergeable_segments p).

Definition segment_size (s : Segment) (avg_doc_size : Z) : Z := adjusted_byte_size s mergeable avg_doc_size.

Definition collect_mergeable_segments (exclude : gset Z) (avg_doc_size : Z) : list Segment :=
  sort_desc (fun s => segment_size s avg_doc_size)
    (filter (fun s => is_Some (get_entry mergeable (id s)) /\ id s ∉ exclude) original_segments).

(** A layer size and the ids of a candidate. *)
Definition candidate : Type := Z * list Z.

(** [candidates.last_mut().unwrap().1.0.push(id)] *)
Definition push_last (i : Z) (cs : list candidate) : list candidate :=
  alter (fun c : candidate => (c.1, c.2 ++ [i])) (length cs - 1)%nat cs.

(** The loop over the segments of one layer. *)
Fixpoint layer_loop (avg layer_size extended : Z) (merged : gset Z) (segs : list Segment)
    (candidates : list candidate) (candidate_byte_size : Z) : list candidate * Z :=
  match segs with
  | [] => (candidates, candidate_byte_size)
  | s :: segs =>
      if decide (id s ∈ merged) then layer_loop avg layer_size extended merged segs candidates candidate_byte_size
      else if layer_size <? segment_size s avg then
        layer_loop avg layer_size extended merged segs candidates candidate_byte_size
      else
        let segment_byte_size := actual_byte_size s mergeable avg in
        let candidate_byte_size := u64 (candidate_byte_size + segment_byte_size) in
        let candidates := push_last (id s) candidates in
        if extended <=? candidate_byte_size
        then layer_loop avg layer_size extended merged segs (candidates ++ [(layer_size, [])]) 0
        else layer_loop avg layer_size extended merged segs candidates candidate_byte_size
  end.

Definition ids_of (cs : list candidate) : list Z := cs ≫= snd.

(** One layer: fill candidates, drop the last one if it is not full, remember the rest. *)
Definition layer_step (avg layer_size : Z) (st : list candidate * gset Z) : list candidate * gset Z :=
  let '(candidates, merged) := st in
  let extended_layer_size := u64 (layer_size + layer_size / 3) in
  let segments := collect_mergeable_segments merged avg in
  let '(candidates, size) :=
    layer_loop avg layer_size extended_layer_size merged segments (candidates ++ [(layer_size, [])]) 0 in
  let candidates := if size <? extended_layer_size then take (length candidates - 1) candidates else candidates in
  (candidates, merged ∪ list_to_set (ids_of candidates)).

(** "aggressively convert any mutable segments into immutable ones" *)
Fixpoint mutable_loop (es : list (Z * SegmentMetaEntry)) (st : list candidate * gset Z) : list candidate * gset Z :=
  match es with
  | [] => st
  | (segment_id, entry) :: es =>
      let st :=
        if SegmentMeta.is_mutable entry then
          match list_find (fun s => id s = segment_id) original_segments with
          | Some (_, s) => (st.1 ++ [(0, [id s])], {[id s]} ∪ st.2)
          | None => st
          end
        else st in
      mutable_loop es st
  end.

(** Is the candidate a single mutable segment? *)
Definition is_conversion (ids : list Z) : bool :=
  match ids with
  | [i] => match get_entry mergeable i with Some e => SegmentMeta.is_mutable e | None => false end
  | _ => false
  end.

(** The [for i in 0..candidates.len()] loop: the index of the first candidate to remove. *)
Fixpoint first_short (cs : list candidate) : option nat :=
  match cs with
  | [] => None
  | c :: cs =>
      if is_conversion c.2 then S <$> first_short cs
      else if (length c.2 <? min_merge_count p)%nat then Some O
      else S <$> first_short cs
  end.

(** The ['outer: while] loop removes one candidate per turn. *)
Fixpoint remove_short (fuel : nat) (cs : list candidate) : option (list candidate) :=
  match fuel with
  | O => None
  | S fuel =>
      match cs with
      | [] => Some []
      | _ =>
          match first_short cs with
          | Some i => remove_short fuel (delete i cs)
          | None => Some cs
          end
      end
  end.

(** Sums of [u64]s wrap. *)
Definition sum_u64 (l : list Z) : Z := foldl (fun a x => u64 (a + x)) 0 l.

(** [None] is the panic of the division by zero. *)
Definition avg_doc_size : option Z :=
  let bytes := sum_u64 ((fun e => SegmentMeta.byte_size e.2) <$> mergeable) in
  let docs := sum_u64 ((fun e => u64 (SegmentMeta.num_docs e.2 + SegmentMeta.num_deleted_docs e.2)) <$> mergeable) in
  if docs =? 0 then None else Some (bytes / docs).

Definition set_processed : LayeredMergePolicy :=
  mkPolicy (layer_sizes p) (min_merge_count p) mergeable true.

Definition layers (avg : Z) : list candidate * gset Z :=
  foldl (fun st sz => layer_step avg sz st) (mutable_loop mergeable ([], ∅))
    (sort_desc (fun s => s) (layer_sizes p)).

Definition compute_merge_candidates : outcome unit (list (list Z)) * LayeredMergePolicy :=
  match original_segments with
  | [] => (Ok [], p)
  | _ =>
      if already_processed p then (Ok [], p)
      else if decide (mergeable = []) then (Panic, p)
      else
        match avg_doc_size with
        | None => (Panic, p)
        | Some avg =>
            let candidates := (layers avg).1 in
            match remove_short (S (length candidates)) candidates with
            | None => (OutOfFuel, p)
            | Some candidates =>
                (Ok (snd <$> candidates), match candidates with [] => p | _ => set_processed end)
            end
        end
  end.

End compute.

(** ** The segments the policy may consider *)

Definition set_mergeable_segment_entries (p : LayeredMergePolicy) (vacuum_list merge_list : gset Z)
    (all_entries : list (Z * SegmentMetaEntry)) : LayeredMergePolicy :=
  let non_mergeable_segments := vacuum_list ∪ merge_list in
  mkPolicy (layer_sizes p) (min_merge_count p)
    (filter (fun e => e.1 ∉ non_mergeable_segments) all_entries) (already_processed p).

(** [From<SegmentMetaEntry> for SegmentMeta]; tantivy's [num_docs] is [max_doc] less the
    deleted documents. *)
Definition segment_of (e : SegmentMetaEntry) : Segment :=
  let m := SegmentMeta.as_tantivy e in
  mkSegment (SegmentMeta.inner_segment_id m)
    (u32 (SegmentMeta.inner_max_doc m - default 0 (SegmentMeta.inner_deletes m))).

Definition retain (to_keep : gset Z) (p : LayeredMergePolicy) : LayeredMergePolicy :=
  mkPolicy (layer_sizes p) (min_merge_count p)
    (filter (fun e => e.1 ∈ to_keep) (mergeable_segments p)) (already_processed p).

Definition simulate (p : LayeredMergePolicy) : outcome unit (list (list Z)) * LayeredMergePolicy :=
  let segment_metas := (fun e => segment_of e.2) <$> mergeable_segments p in
  match compute_merge_candidates p segment_metas with
  | (Ok candidates, p') => (Ok candidates, retain (list_to_set (concat candidates)) p')
  | r => r
  end.

End MergePolicy.

(** The five unit tests of the source. *)
Section examples.
Import MergePolicy.
Let imm sid bytes docs dels : Z * SegmentMetaEntry :=
  (sid, SegmentMeta.new_immutable sid (docs + dels) 0
     (SegmentMeta.mkImmutable (Some (SegmentMeta.mkFile 9 bytes)) None None None None None None
        (if dels =? 0 then None else Some (SegmentMeta.mkDelete (SegmentMeta.mkFile 9 0) dels)))).
Let mut sid docs : Z * SegmentMetaEntry :=
  (sid, SegmentMeta.new_mutable sid docs 0 (SegmentMeta.mkMutable 9 0 false)).

Example test_mutable : (simulate (mkPolicy [1000] 2 [mut 1 100] false)).1 = Ok [[1]].
Proof. vm_compute. reflexivity. Qed.
Example test_simple : (simulate (mkPolicy [1000] 2 [imm 1 700 70 0; imm 2 700 70 0] false)).1 = Ok [[1; 2]].
Proof. vm_compute. reflexivity. Qed.
Example test_not_full : (simulate (mkPolicy [1000] 2 [imm 1 400 40 0; imm 2 400 40 0; imm 3 400 40 0] false)).1 = Ok [].
Proof. vm_compute. reflexivity. Qed.
Example test_min_count : (simulate (mkPolicy [1000] 3 [imm 1 700 70 0; imm 2 700 70 0] false)).1 = Ok [].
Proof. vm_compute. reflexivity. Qed.
Example test_layers :
  (simulate (mkPolicy [1000; 10000] 2 [imm 1 700 70 0; imm 2 700 70 0; imm 3 7000 700 0; imm 4 7000 700 0] false)).1
    = Ok [[3; 4]; [1; 2]].
Proof. vm_compute. reflexivity. Qed.
End examples.
