(* ===== verification/MergePolicyProps.v ===== *)
(** * Properties of the layered merge policy *)

From stdpp Require Import prelude gmap sorting.
From Stdlib Require Import ZArith Lia.
From S2P Require Import Prelude SegmentMeta MergePolicy.
Import MergePolicy.

Local Open Scope Z_scope.

(** ** The stable sort *)

Section sort.
Context {A : Type} (key : A -> Z).

Lemma insert_desc_perm x l : insert_desc key x l ≡ₚ x :: l.
Proof. induction l as [|y l IH]; simpl; [done|]. case_match; [done|]. rewrite IH. solve_Permutation. Qed.

Lemma sort_desc_perm l : sort_desc key l ≡ₚ l.
Proof. induction l as [|x l IH]; simpl; [done|]. by rewrite insert_desc_perm, IH. Qed.

End sort.

(** ** Hash-map lookups *)

Lemma get_entry_elem m k e : get_entry m k = Some e -> (k, e) ∈ m.
Proof.
  unfold get_entry. destruct (list_find _ m) as [[i [k' e']]|] eqn:E; [|done]. simpl. intros [= ->].
  apply list_find_Some in E as (Hi & Hk & _). simpl in Hk. subst. by eapply list_elem_of_lookup_2.
Qed.

Lemma get_entry_NoDup m k e : NoDup m.*1 -> (k, e) ∈ m -> get_entry m k = Some e.
Proof.
  intros Hnd Hin. destruct (get_entry m k) as [e'|] eqn:E.
  - apply get_entry_elem in E. f_equal. apply list_elem_of_lookup in Hin as [i Hi], E as [j Hj].
    assert (i = j) as <-; [|congruence].
    eapply NoDup_lookup; [done| |]; rewrite list_lookup_fmap; [by rewrite Hi|by rewrite Hj].
  - exfalso. unfold get_entry in E. destruct (list_find _ m) eqn:Ef; [done|].
    apply list_find_None in Ef. rewrite Forall_forall in Ef. by apply (Ef _ Hin).
Qed.

Section props.
Variables (p : LayeredMergePolicy) (segs0 : list Segment) (avg : Z).
Hypothesis Hsegs : NoDup (id <$> segs0).
Hypothesis Hkeys : NoDup (mergeable_segments p).*1.

Abbreviation mergeable := (mergeable_segments p).

(** Bytes of a candidate, summed as the loop does. *)
Definition cbytes (ids : list Z) : Z :=
  foldl (fun a i => u64 (a + match get_entry mergeable i with Some e => SegmentMeta.byte_size e | None => 0 end)) 0 ids.

Lemma cbytes_snoc ids i : cbytes (ids ++ [i]) =
  u64 (cbytes ids + match get_entry mergeable i with Some e => SegmentMeta.byte_size e | None => 0 end).
Proof. unfold cbytes. by rewrite foldl_snoc. Qed.

Definition extended (sz : Z) : Z := u64 (sz + sz / 3).

(** A candidate of the layer [sz]: just large enough, and made of segments that fit. *)
Record layer_candidate (sz : Z) (ids : list Z) : Prop := {
  lc_layer : sz ∈ layer_sizes p;
  lc_full : extended sz <= cbytes ids;
  lc_tight : forall i0 i, ids = i0 ++ [i] -> 0 < extended sz -> cbytes i0 < extended sz;
  lc_fit : forall i, i ∈ ids -> exists s, s ∈ segs0 /\ id s = i /\ segment_size p s avg <= sz;
}.

Definition cand_ok (c : candidate) : Prop := is_conversion p c.2 = true \/ layer_candidate c.1 c.2.

(** What the loops maintain. *)
Record state_ok (cs : list candidate) (merged : gset Z) : Prop := {
  so_nodup : NoDup (ids_of cs);
  so_merged : forall i, i ∈ ids_of cs -> i ∈ merged;
  so_known : forall i, i ∈ ids_of cs -> is_Some (get_entry mergeable i) /\ i ∈ id <$> segs0;
  so_cands : Forall cand_ok cs;
}.

Lemma ids_of_app c1 c2 : ids_of (c1 ++ c2) = ids_of c1 ++ ids_of c2.
Proof. apply bind_app. Qed.

Lemma ids_of_cons c cs : ids_of (c :: cs) = c.2 ++ ids_of cs.
Proof. done. Qed.

Lemma ids_of_one c : ids_of [c] = c.2.
Proof. unfold ids_of. simpl. apply app_nil_r. Qed.

Lemma push_last_app i cs (c : candidate) : push_last i (cs ++ [c]) = cs ++ [(c.1, c.2 ++ [i])].
Proof.
  unfold push_last. rewrite length_app. simpl. replace (length cs + 1 - 1)%nat with (length cs + 0)%nat by lia.
  by rewrite alter_app_r.
Qed.

Section layer.
Variables (sz : Z) (merged : gset Z).
Hypothesis Hsz : sz ∈ layer_sizes p.

(** The segments that can still be added to the candidate under construction. *)
Definition usable (segs : list Segment) (used : list Z) : Prop :=
  NoDup (used ++ (id <$> segs)) /\
  forall s, s ∈ segs -> s ∈ segs0 /\ is_Some (get_entry mergeable (id s)) /\ id s ∉ merged.

(** The candidate under construction. *)
Record partial (cur : list Z) : Prop := {
  pa_room : 0 < extended sz -> cbytes cur < extended sz;
  pa_fit : forall i, i ∈ cur -> exists s, s ∈ segs0 /\ id s = i /\ segment_size p s avg <= sz;
}.

Lemma partial_nil : partial [].
Proof. split; [done|]. intros i Hi. by apply elem_of_nil in Hi. Qed.

Lemma partial_push s cur : partial cur -> s ∈ segs0 -> segment_size p s avg <= sz ->
  forall i, i ∈ cur ++ [id s] -> exists s', s' ∈ segs0 /\ id s' = i /\ segment_size p s' avg <= sz.
Proof.
  intros Hc Hs Hsz' i [Hi| ->%list_elem_of_singleton]%elem_of_app; [by apply (pa_fit _ Hc)|by exists s].
Qed.

Lemma layer_loop_spec segs pre cur :
  usable segs (ids_of pre ++ cur) -> partial cur ->
  exists full cur', layer_loop p avg sz (extended sz) merged segs (pre ++ [(sz, cur)]) (cbytes cur) =
      (pre ++ full ++ [(sz, cur')], cbytes cur') /\
    Forall (fun c => c.1 = sz /\ layer_candidate sz c.2) full /\ partial cur' /\
    NoDup (ids_of pre ++ ids_of full ++ cur') /\
    forall i, i ∈ ids_of full ++ cur' -> i ∈ cur ++ (id <$> segs).
Proof.
  revert pre cur. induction segs as [|s segs IH]; intros pre cur [Hnd Hus] Hc; cbn [layer_loop].
  { exists [], cur. split; [done|]. split; [constructor|]. split; [done|]. simpl in *. rewrite app_nil_r in *. by split. }
  destruct (Hus s ltac:(left)) as (Hs & [e He] & Hm). rewrite decide_False by done.
  rewrite fmap_cons in Hnd. assert (NoDup (ids_of pre ++ cur ++ (id <$> segs))) as Hnd'.
  { rewrite <- app_assoc in Hnd. eapply sublist_NoDup; [exact Hnd|]. apply sublist_app; [done|]. apply sublist_app; [done|]. by constructor. }
  assert (forall used, NoDup (used ++ (id <$> segs)) -> usable segs used) as Hus'.
  { intros used Hu. split; [done|]. intros s' Hs'. apply Hus. by right. }
  destruct (Z.ltb_spec sz (segment_size p s avg)) as [Hlt|Hle].
  { destruct (IH pre cur) as (full & cur' & E & ? & ? & ? & Hin); [apply Hus'; by rewrite <- app_assoc|done|].
    exists full, cur'. do 4 (split; [done|]). intros i Hi. rewrite fmap_cons. specialize (Hin i Hi). set_solver. }
  assert (u64 (cbytes cur + actual_byte_size s mergeable avg) = cbytes (cur ++ [id s])) as ->.
  { rewrite cbytes_snoc. unfold actual_byte_size. by rewrite He. }
  rewrite push_last_app. cbn [fst snd]. destruct (Z.leb_spec (extended sz) (cbytes (cur ++ [id s]))) as [Hfull|Hroom].
  - destruct (IH (pre ++ [(sz, cur ++ [id s])]) []) as (full & cur' & E & Hfl & Hp & Hnd2 & Hin).
    { apply Hus'. rewrite ids_of_app, ids_of_one. cbn [snd]. rewrite app_nil_r. rewrite <- !app_assoc. by rewrite <- app_assoc in Hnd. }
    { apply partial_nil. }
    exists ((sz, cur ++ [id s]) :: full), cur'. split; [etransitivity; [exact E|by rewrite <- app_assoc]|]. split.
    + constructor; [|done]. split; [done|]. split; [done|done| |by apply partial_push].
      cbn [snd]. intros i0 i [-> _]%app_inj_tail Hpos. by apply (pa_room _ Hc).
    + split; [done|]. rewrite ids_of_app, ids_of_one in Hnd2. cbn [snd] in Hnd2. split.
      * rewrite ids_of_cons. cbn [snd]. rewrite <- !app_assoc in *. exact Hnd2.
      * intros i. rewrite ids_of_cons, fmap_cons. cbn [snd]. specialize (Hin i). set_solver.
  - destruct (IH pre (cur ++ [id s])) as (full & cur' & E & Hfl & Hp & Hnd2 & Hin).
    { apply Hus'. rewrite <- !app_assoc. by rewrite <- app_assoc in Hnd. }
    { split; [by intros|by apply partial_push]. }
    exists full, cur'. do 4 (split; [done|]). intros i Hi. rewrite fmap_cons. specialize (Hin i Hi). set_solver.
Qed.

End layer.

Lemma take_snoc {A} (l : list A) x : take (length (l ++ [x]) - 1) (l ++ [x]) = l.
Proof. rewrite length_app. simpl. rewrite Nat.add_sub. apply take_app_length. Qed.

Lemma cand_ok_app cs full : Forall cand_ok cs ->
  (exists sz, Forall (fun c => c.1 = sz /\ layer_candidate sz c.2) full) -> Forall cand_ok (cs ++ full).
Proof.
  intros Hcs [sz Hf]. apply Forall_app. split; [done|]. eapply Forall_impl; [exact Hf|].
  intros c [<- Hc]. by right.
Qed.

Lemma layer_step_ok sz cs merged : sz ∈ layer_sizes p -> state_ok cs merged ->
  let st := layer_step p segs0 avg sz (cs, merged) in
  state_ok st.1 st.2 /\ exists more, st.1 = cs ++ more.
Proof.
  intros Hsz [Hnd Hme Hkn Hca]. unfold layer_step. fold (extended sz).
  set (segs := collect_mergeable_segments p segs0 merged avg).
  assert (forall s, s ∈ segs -> s ∈ segs0 /\ is_Some (get_entry mergeable (id s)) /\ id s ∉ merged) as Hin.
  { intros s. unfold segs, collect_mergeable_segments. rewrite sort_desc_perm, list_elem_of_filter. tauto. }
  assert (usable merged segs (ids_of cs ++ [])) as Hus.
  { split; [|done]. rewrite app_nil_r. apply NoDup_app. split; [done|]. split.
    - intros i Hi (s & -> & Hs)%list_elem_of_fmap. apply Hin in Hs as (_ & _ & Hn). by apply Hn, Hme.
    - unfold segs, collect_mergeable_segments. rewrite sort_desc_perm.
      eapply sublist_NoDup; [exact Hsegs|]. apply fmap_sublist, sublist_filter. }
  destruct (layer_loop_spec sz merged Hsz segs cs [] Hus (partial_nil sz)) as (full & cur & E & Hfl & Hp & Hnd2 & Hsub).
  change (cbytes []) with 0 in E. rewrite E. cbn [fst snd].
  assert (forall i, i ∈ ids_of full ++ cur -> is_Some (get_entry mergeable i) /\ i ∈ id <$> segs0) as Hkn2.
  { intros i Hi. apply Hsub in Hi as (s & -> & Hs)%list_elem_of_fmap. apply Hin in Hs as (? & ? & _).
    split; [done|]. by apply list_elem_of_fmap_2. }
  destruct (Z.ltb_spec (cbytes cur) (extended sz)) as [Hlt|Hge].
  - rewrite app_assoc, take_snoc. cbn [fst snd]. split; [|by eexists]. split.
    + rewrite ids_of_app. rewrite app_assoc in Hnd2. by apply NoDup_app in Hnd2 as [? _].
    + intros i Hi. apply elem_of_union. right. by apply elem_of_list_to_set.
    + rewrite ids_of_app. intros i [Hi|Hi]%elem_of_app; [by apply Hkn|]. apply Hkn2. apply elem_of_app. by left.
    + apply cand_ok_app; eauto.
  - cbn [fst snd]. split; [|by eexists]. split.
    + by rewrite !ids_of_app, ids_of_one.
    + intros i Hi. apply elem_of_union. right. by apply elem_of_list_to_set.
    + rewrite !ids_of_app, ids_of_one. intros i [Hi|Hi]%elem_of_app; [by apply Hkn|by apply Hkn2].
    + rewrite app_assoc. apply cand_ok_app; [apply cand_ok_app; eauto|]. exists sz. constructor; [|constructor].
      split; [done|]. split; [done|done| |apply (pa_fit _ _ Hp)].
      intros i0 i Hcur Hpos. cbn [snd] in *. pose proof (pa_room _ _ Hp Hpos). lia.
Qed.

Lemma layers_foldl_ok szs cs merged : (forall sz, sz ∈ szs -> sz ∈ layer_sizes p) -> state_ok cs merged ->
  let st := foldl (fun st sz => layer_step p segs0 avg sz st) (cs, merged) szs in
  state_ok st.1 st.2 /\ exists more, st.1 = cs ++ more.
Proof.
  revert cs merged. induction szs as [|sz szs IH]; intros cs merged Hin Hst; cbn [foldl].
  { split; [done|]. exists []. by rewrite app_nil_r. }
  destruct (layer_step_ok sz cs merged (Hin sz ltac:(left)) Hst) as [Hst' [m1 E1]].
  destruct (layer_step p segs0 avg sz (cs, merged)) as [cs1 merged1]. cbn [fst snd] in *.
  destruct (IH cs1 merged1) as [Hst2 [m2 E2]]; [intros; apply Hin; by right|done|].
  split; [done|]. exists (m1 ++ m2). by rewrite E2, E1, app_assoc.
Qed.

(** The conversions come first, one per mutable segment. *)
Lemma mutable_loop_ok es cs merged :
  (forall i e, (i, e) ∈ es -> get_entry mergeable i = Some e) -> NoDup es.*1 ->
  (forall i, i ∈ es.*1 -> i ∉ ids_of cs) -> state_ok cs merged ->
  let st := mutable_loop segs0 es (cs, merged) in
  state_ok st.1 st.2 /\ (exists more, st.1 = cs ++ more) /\
  forall i e, (i, e) ∈ es -> SegmentMeta.is_mutable e = true -> i ∈ id <$> segs0 -> (0, [i]) ∈ st.1.
Proof.
  revert cs merged. induction es as [|[i e] es IH]; intros cs merged Hes Hnd Hdis Hst; cbn [mutable_loop].
  { split; [done|]. split; [exists []; by rewrite app_nil_r|]. intros i e Hin. by apply elem_of_nil in Hin. }
  rewrite fmap_cons in Hnd, Hdis. cbn [fst] in Hnd, Hdis. apply NoDup_cons in Hnd as [Hni Hnd].
  pose proof (Hes i e ltac:(left)) as Hi.
  assert (exists cs' merged', (if SegmentMeta.is_mutable e
            then match list_find (fun s => id s = i) segs0 with
                 | Some (_, s) => ((cs, merged).1 ++ [(0, [id s])], {[id s]} ∪ (cs, merged).2)
                 | None => (cs, merged) end
            else (cs, merged)) = (cs', merged') /\
    state_ok cs' merged' /\ (exists more, cs' = cs ++ more) /\ (forall j, j ∈ ids_of cs' -> j ∈ ids_of cs \/ j = i) /\
    (SegmentMeta.is_mutable e = true -> i ∈ id <$> segs0 -> (0, [i]) ∈ cs'))
    as (cs' & merged' & -> & Hst' & [m1 ->] & Hids & Hconv).
  { destruct (SegmentMeta.is_mutable e) eqn:Em.
    2: { eexists _, _. split; [done|]. split; [done|]. split; [exists []; by rewrite app_nil_r|]. by split; [auto|]. }
    destruct (list_find _ segs0) as [[n s]|] eqn:Ef; cbn [fst snd].
    - apply list_find_Some in Ef as (Hn & Hs & _). apply list_elem_of_lookup_2 in Hn. subst i.
      eexists _, _. split; [done|]. destruct Hst as [Hnd' Hme Hkn Hca]. split; [split|].
      + rewrite ids_of_app, ids_of_one. cbn [snd]. apply NoDup_app. split; [done|].
        split; [|apply NoDup_singleton]. intros j Hj ->%list_elem_of_singleton. by apply (Hdis (id s) ltac:(left)).
      + intros j. rewrite ids_of_app, ids_of_one. cbn [snd]. specialize (Hme j). set_solver.
      + intros j. rewrite ids_of_app, ids_of_one. cbn [snd]. intros [Hj| ->%list_elem_of_singleton]%elem_of_app; [by apply Hkn|].
        split; [by eexists|by apply list_elem_of_fmap_2].
      + apply Forall_app. split; [done|]. constructor; [|constructor]. left. simpl. by rewrite Hi.
      + split; [by eexists|]. rewrite ids_of_app, ids_of_one. cbn [snd]. split; [set_solver|].
        intros _ _. apply elem_of_app. right. left.
    - eexists _, _. split; [done|]. split; [done|]. split; [exists []; by rewrite app_nil_r|]. split; [auto|].
      intros _ (s & -> & Hs)%list_elem_of_fmap. apply list_find_None in Ef. rewrite Forall_forall in Ef.
      exfalso. by apply (Ef s Hs). }
  destruct (IH (cs ++ m1) merged') as (Hst2 & [m2 E2] & Hc2); [|done| |done|].
  { intros j e' Hj. apply Hes. by right. }
  { intros j Hj Hj'. apply Hids in Hj' as [Hj'| ->]; [|done]. apply (Hdis j); [by right|done]. }
  split; [done|]. split; [exists (m1 ++ m2); by rewrite E2, app_assoc|].
  intros j e' [[= -> ->]|Hj]%elem_of_cons; [|by apply Hc2].
  intros Hm Hj. rewrite E2. apply elem_of_app. left. by apply Hconv.
Qed.

Lemma layers_ok :
  let st := layers p segs0 avg in
  state_ok st.1 st.2 /\
  forall i e, (i, e) ∈ mergeable -> SegmentMeta.is_mutable e = true -> i ∈ id <$> segs0 -> (0, [i]) ∈ st.1.
Proof.
  unfold layers. destruct (mutable_loop_ok mergeable [] ∅) as (Hst & _ & Hconv).
  - intros i e. by apply get_entry_NoDup.
  - done.
  - intros i _ Hi. by apply elem_of_nil in Hi.
  - split; [constructor|intros i Hi; by apply elem_of_nil in Hi..|constructor].
  - destruct (mutable_loop segs0 mergeable ([], ∅)) as [cs merged]. simpl in Hst, Hconv.
    destruct (layers_foldl_ok (sort_desc (fun s => s) (layer_sizes p)) cs merged) as [Hst' [more E]]; [|done|].
    { intros sz. by rewrite sort_desc_perm. }
    split; [done|]. intros i e Hie Hm Hi. rewrite E. apply elem_of_app. left. by eapply Hconv.
Qed.

(** ** Removing the short candidates *)

Definition keep (c : candidate) : bool := is_conversion p c.2 || (min_merge_count p <=? length c.2)%nat.

Lemma first_short_Some cs i : first_short p cs = Some i ->
  exists pre c post, cs = pre ++ c :: post /\ length pre = i /\ keep c = false.
Proof.
  revert i. induction cs as [|c cs IH]; intros i; [done|]. cbn [first_short].
  destruct (is_conversion p c.2) eqn:Ec; [|destruct (Nat.ltb_spec (length c.2) (min_merge_count p)) as [Hlt|Hge]].
  2: { intros [= <-]. exists [], c, cs. split; [done|]. split; [done|]. unfold keep. rewrite Ec. simpl. by apply Nat.leb_gt. }
  all: destruct (first_short p cs) as [j|]; [|done]; intros [= <-];
    destruct (IH j eq_refl) as (pre & c' & post & -> & <- & Hk); by exists (c :: pre), c', post.
Qed.

Lemma first_short_None cs : first_short p cs = None -> Forall (fun c => keep c = true) cs.
Proof.
  induction cs as [|c cs IH]; [by constructor|]. cbn [first_short]. unfold keep.
  destruct (is_conversion p c.2) eqn:Ec; [|destruct (Nat.ltb_spec (length c.2) (min_merge_count p)) as [Hlt|Hge]; [done|]].
  all: destruct (first_short p cs); [done|]; intros _; constructor; [|by apply IH].
  - by rewrite Ec.
  - rewrite Ec. simpl. by apply Nat.leb_le.
Qed.

(** The restarting loop is a filter. *)
Lemma remove_short_spec fuel cs : (length cs < fuel)%nat ->
  remove_short p fuel cs = Some (filter (fun c => keep c = true) cs).
Proof.
  revert cs. induction fuel as [|fuel IH]; intros cs Hf; [lia|]. cbn [remove_short].
  destruct cs as [|c0 cs0] eqn:Ecs; [done|]. rewrite <- Ecs in *. clear Ecs c0 cs0.
  destruct (first_short p cs) as [i|] eqn:E.
  - destruct (first_short_Some _ _ E) as (pre & c & post & -> & <- & Hk).
    rewrite delete_middle. rewrite IH by (rewrite length_app in *; simpl in Hf; lia).
    rewrite !filter_app, filter_cons_False by congruence. done.
  - f_equal. apply first_short_None in E. clear -E.
    induction E as [|c cs Hc _ IH]; [done|]. rewrite filter_cons_True by done. by f_equal.
Qed.

End props.

(** ** The whole call *)

Section call.
Variables (p : LayeredMergePolicy) (segs : list Segment).
Hypothesis Hsegs : NoDup (id <$> segs).
Hypothesis Hkeys : NoDup (mergeable_segments p).*1.

Lemma compute_unfold avg : segs <> [] -> already_processed p = false -> mergeable_segments p <> [] ->
  avg_doc_size p = Some avg ->
  compute_merge_candidates p segs =
    (Ok (snd <$> filter (fun c => keep p c = true) (layers p segs avg).1),
     match filter (fun c => keep p c = true) (layers p segs avg).1 with [] => p | _ => set_processed p end).
Proof.
  intros Hne Hap Hm Ha. unfold compute_merge_candidates.
  destruct segs as [|s0 segs0]; [done|]. rewrite Hap, decide_False, Ha by done.
  by rewrite remove_short_spec by lia.
Qed.

(** A call that returns candidates went through the layers. *)
Lemma compute_inv cands p' : compute_merge_candidates p segs = (Ok cands, p') -> cands <> [] ->
  exists avg, avg_doc_size p = Some avg /\ segs <> [] /\ already_processed p = false /\ mergeable_segments p <> [] /\
    cands = snd <$> filter (fun c => keep p c = true) (layers p segs avg).1.
Proof.
  intros E Hne. destruct (decide (segs = [])) as [->|Hs]; [unfold compute_merge_candidates in E; congruence|].
  destruct (already_processed p) eqn:Hap.
  { unfold compute_merge_candidates in E. destruct segs; [done|]. rewrite Hap in E. congruence. }
  destruct (decide (mergeable_segments p = [])) as [Hm|Hm].
  { unfold compute_merge_candidates in E. destruct segs; [done|]. rewrite Hap, decide_True in E by done. congruence. }
  destruct (avg_doc_size p) as [avg|] eqn:Ha.
  2: { unfold compute_merge_candidates in E. destruct segs; [done|]. rewrite Hap, decide_False, Ha in E by done. congruence. }
  rewrite (compute_unfold avg) in E by done. injection E as <- _. by exists avg.
Qed.

Lemma ids_of_filter_sub cs : ids_of (filter (fun c => keep p c = true) cs) `sublist_of` ids_of cs.
Proof.
  induction cs as [|c cs IH]; [done|]. rewrite filter_cons. case_decide; rewrite !ids_of_cons.
  - by apply sublist_app.
  - by apply sublist_inserts_l.
Qed.

Lemma concat_ids cs : concat (snd <$> cs : list (list Z)) = ids_of cs.
Proof. induction cs as [|c cs IH]; [done|]. rewrite ids_of_cons, fmap_cons. simpl. by rewrite IH. Qed.

(** No segment is in two candidates, and only segments that are offered are in one. *)
Lemma candidates_distinct cands p' : compute_merge_candidates p segs = (Ok cands, p') ->
  NoDup (concat cands) /\
  forall i, i ∈ concat cands -> is_Some (get_entry (mergeable_segments p) i) /\ i ∈ id <$> segs.
Proof.
  intros E. destruct (decide (cands = [])) as [->|Hne].
  { split; [constructor|]. intros i Hi. by apply elem_of_nil in Hi. }
  destruct (compute_inv _ _ E Hne) as (avg & Ha & _ & _ & _ & ->).
  destruct (layers_ok p segs avg Hsegs Hkeys) as [[Hnd Hme Hkn Hca] _].
  rewrite concat_ids. split; [by eapply sublist_NoDup, ids_of_filter_sub|].
  intros i Hi. apply Hkn. unfold ids_of in *. apply list_elem_of_bind in Hi as (c & Hi & [_ Hc]%list_elem_of_filter).
  apply list_elem_of_bind. by exists c.
Qed.

(** C13: Whatever the segments, their sizes and the configured layers: no segment is merged
    twice; only segments that are mergeable and were offered are merged; and every
    candidate is either the conversion of one mutable segment, or has at least
    [min_merge_count] segments, each no larger than the layer, whose bytes together reach
    the layer size plus a third but would not without the last of them. *)
Theorem candidates_sound cands p' : compute_merge_candidates p segs = (Ok cands, p') ->
  NoDup (concat cands) /\
  (forall i, i ∈ concat cands -> is_Some (get_entry (mergeable_segments p) i) /\ i ∈ id <$> segs) /\
  forall ids, ids ∈ cands ->
    is_conversion p ids = true \/
    (min_merge_count p <= length ids)%nat /\
    exists avg sz, avg_doc_size p = Some avg /\ layer_candidate p segs avg sz ids.
Proof.
  intros E. destruct (candidates_distinct _ _ E) as [Hnd Hin]. split; [done|]. split; [done|].
  intros ids Hids. assert (cands <> []) as Hne by (intros ->; by apply elem_of_nil in Hids).
  destruct (compute_inv _ _ E Hne) as (avg & Ha & _ & _ & _ & ->). destruct (layers_ok p segs avg Hsegs Hkeys) as [[_ _ _ Hca] _].
  apply list_elem_of_fmap in Hids as ([sz ids'] & -> & Hc). cbn [snd]. apply list_elem_of_filter in Hc as [Hk Hc].
  rewrite Forall_forall in Hca. destruct (Hca _ Hc) as [Hd|Hd]; [by left|].
  unfold keep in Hk. cbn [fst snd] in *. destruct (is_conversion p ids') eqn:Ec; [by left|]. right.
  simpl in Hk. split; [by apply Nat.leb_le|]. by exists avg, sz.
Qed.

(** Every offered mutable segment that is mergeable gets a candidate of its own, so it
    is converted by the next merge whatever the layers are; the call never runs out of
    loop turns, panics only when there is no mergeable segment or no document in them,
    and the policy yields candidates at most once. *)
Theorem mutable_converted_once e i :
  segs <> [] -> already_processed p = false ->
  (i, e) ∈ mergeable_segments p -> SegmentMeta.is_mutable e = true -> i ∈ id <$> segs ->
  avg_doc_size p <> None ->
  exists cands p', compute_merge_candidates p segs = (Ok cands, p') /\ [i] ∈ cands /\
    forall segs', compute_merge_candidates p' segs' = (Ok [], p').
Proof.
  intros Hne Hap Hin Hm Hi Ha. destruct (avg_doc_size p) as [avg|] eqn:Ea; [|done].
  assert (mergeable_segments p <> []) as Hme by (intros E; rewrite E in Hin; by apply elem_of_nil in Hin).
  destruct (layers_ok p segs avg Hsegs Hkeys) as [_ Hconv].
  pose proof (Hconv i e Hin Hm Hi) as Hc.
  assert ((0, [i]) ∈ filter (fun c => keep p c = true) (layers p segs avg).1) as Hf.
  { apply list_elem_of_filter. split; [|done]. unfold keep. simpl. by rewrite (get_entry_NoDup _ _ _ Hkeys Hin), Hm. }
  rewrite (compute_unfold avg) by done. eexists _, _. split; [done|]. split; [by apply (list_elem_of_fmap_2 snd) in Hf|].
  destruct (filter _ _) as [|c cs]; [by apply elem_of_nil in Hf|]. intros segs'.
  unfold compute_merge_candidates. by destruct segs'.
Qed.

End call.

Definition demo_entries : list (Z * SegmentMetaEntry) :=
  [(1, SegmentMeta.new_immutable 1 70 0 (SegmentMeta.mkImmutable (Some (SegmentMeta.mkFile 9 700)) None None None None None None None));
   (2, SegmentMeta.new_mutable 2 10 0 (SegmentMeta.mkMutable 9 0 true));
   (3, SegmentMeta.new_immutable 3 70 0 (SegmentMeta.mkImmutable (Some (SegmentMeta.mkFile 9 700)) None None None None None None None))].
Definition demo_policy : LayeredMergePolicy := mkPolicy [1000] 2 demo_entries false.
Definition demo_segs : list Segment := [mkSegment 1 70; mkSegment 2 10; mkSegment 3 70].

Lemma candidates_sound_witness :
  (compute_merge_candidates demo_policy demo_segs).1 = Ok [[2]; [1; 3]] /\ NoDup (concat [[2]; [1; 3]]).
Proof.
  assert (compute_merge_candidates demo_policy demo_segs = (Ok [[2]; [1; 3]], set_processed demo_policy)) as E
    by (vm_compute; reflexivity).
  assert (NoDup (id <$> demo_segs)) as H1 by (apply (bool_decide_unpack _); vm_compute; exact I).
  assert (NoDup (mergeable_segments demo_policy).*1) as H2 by (apply (bool_decide_unpack _); vm_compute; exact I).
  split; [by rewrite E|]. apply (candidates_sound demo_policy demo_segs H1 H2 _ _ E).
Defined.

Lemma mutable_converted_once_witness :
  exists cands p', compute_merge_candidates demo_policy demo_segs = (Ok cands, p') /\ [2] ∈ cands.
Proof.
  assert (NoDup (id <$> demo_segs)) as H1 by (apply (bool_decide_unpack _); vm_compute; exact I).
  assert (NoDup (mergeable_segments demo_policy).*1) as H2 by (apply (bool_decide_unpack _); vm_compute; exact I).
  destruct (mutable_converted_once demo_policy demo_segs H1 H2
    (SegmentMeta.new_mutable 2 10 0 (SegmentMeta.mkMutable 9 0 true)) 2) as (cands & p' & E & Hc & _).
  - done.
  - reflexivity.
  - right. left.
  - reflexivity.
  - right. left.
  - vm_compute. discriminate.
  - exists cands, p'. split; [exact E|exact Hc].
Defined.
