(* ===== verification/Pages.v ===== *)
(** * Blocks, pages and the free space manager's interface

    [storage/buffer.rs]: a relation is an array of blocks.  The part of it that belongs to
    the free space manager is the manager's own business; the rest is a map from block
    numbers to pages.  [new_buffer] reuses a recycled block when the manager has one and
    extends the relation otherwise. *)

From stdpp Require Import prelude gmap.
From Stdlib Require Import ZArith Lia.
From S2P Require Import Prelude.

Local Open Scope Z_scope.

(** [block_number_is_valid] *)
Definition block_number_is_valid (b : Z) : bool := negb (b =? 0) && negb (b =? InvalidBlockNumber).

(** ** [trait FreeSpaceManager]

    What the manager promises its clients: the blocks it [owned] are free blocks and its own
    bookkeeping pages, all within the relation; the blocks it hands out leave its control;
    blocks given to it come under its control; and it only ever takes further blocks from
    beyond the end of the relation.  PostgreSQL raises an error when a relation cannot grow
    any more: that is [Panic], and it needs a relation of at least 2^30 blocks (8 TB). *)

Definition block_range (lo hi : Z) : gset Z := list_to_set (seqZ lo (hi - lo)).

Definition large (n : Z) : Prop := 2 ^ 30 <= n.

(** Permanent transaction ids, below [FirstNormalTransactionId], are never given. *)
Definition normal_xid (xid : Z) : Prop := FirstNormalTransactionId <= xid.

Class FreeSpaceManagerOps (F : Type) := {
  fsm_ok : F -> Prop;
  owned : F -> gset Z;
  nblocks : F -> Z;
  pop : M F unit (option Z);
  drain : nat -> M F unit (list Z);
  extend_with_when_recyclable : Z -> list Z -> M F unit unit;
  (** The buffer manager's part: one more block at the end of the relation. *)
  extend_relation : M F unit Z;
}.

(** The blocks [bs] have been handed out between [f] and [f']. *)
Record taken {F} `{FreeSpaceManagerOps F} (f f' : F) (bs : list Z) : Prop := {
  tk_ok : fsm_ok f';
  tk_nblocks : nblocks f <= nblocks f';
  tk_nodup : NoDup bs;
  tk_disjoint : forall b, b ∈ bs -> b ∉ owned f';
  tk_owned : owned f' ∪ list_to_set bs = owned f ∪ block_range (nblocks f) (nblocks f');
}.

(** The blocks [bs] have been given back between [f] and [f']. *)
Record given {F} `{FreeSpaceManagerOps F} (f f' : F) (bs : list Z) : Prop := {
  gv_ok : fsm_ok f';
  gv_nblocks : nblocks f <= nblocks f';
  gv_owned : owned f' = owned f ∪ list_to_set bs ∪ block_range (nblocks f) (nblocks f');
}.

(** The outcome of a call: it returns with [Q], or the relation could not grow. *)
Definition returns {F A} `{FreeSpaceManagerOps F} (o : outcome unit A * F) (Q : A -> F -> Prop) : Prop :=
  match o with
  | (Ok a, f') => Q a f'
  | (Panic, f') => large (nblocks f')
  | _ => False
  end.

Class FreeSpaceManager (F : Type) `{FreeSpaceManagerOps F} := {
  owned_bound : forall f b, fsm_ok f -> b ∈ owned f -> 0 < b < nblocks f;
  nblocks_bound : forall f, fsm_ok f -> 0 < nblocks f <= InvalidBlockNumber;
  pop_ok : forall f, fsm_ok f -> returns (pop f) (fun o f' => taken f f' (option_list o));
  drain_ok : forall f many, fsm_ok f ->
    returns (drain many f) (fun bs f' => taken f f' bs /\ (length bs <= many)%nat);
  extend_with_ok : forall f xid bs, fsm_ok f -> normal_xid xid -> NoDup bs ->
    (forall b, b ∈ bs -> 0 < b < nblocks f /\ b ∉ owned f) ->
    returns (extend_with_when_recyclable xid bs f) (fun _ f' => given f f' bs);
  extend_relation_ok : forall f, fsm_ok f ->
    returns (extend_relation f) (fun b f' =>
      fsm_ok f' /\ b = nblocks f /\ nblocks f' = nblocks f + 1 /\ owned f' = owned f);
}.

(** [FreeSpaceManager::extend]: recyclable from the current transaction on, or at once if
    there is none ([current_xid] is then 0). *)
Definition extend_now {F} `{FreeSpaceManagerOps F} (current_xid : Z) (bs : list Z) : M F unit unit :=
  extend_with_when_recyclable (Z.max current_xid FirstNormalTransactionId) bs.

Lemma elem_of_block_range b lo hi : b ∈ block_range lo hi <-> lo <= b < hi.
Proof. unfold block_range. rewrite elem_of_list_to_set, elem_of_seqZ. lia. Qed.

Lemma block_range_empty lo : block_range lo lo = ∅.
Proof. apply set_eq. intros b. rewrite elem_of_block_range. set_solver by lia. Qed.

(** ** The relation *)

Record rel (F P : Type) := mkRel { fsm : F; pages : gmap Z P }.
Arguments mkRel {F P}.
Arguments fsm {F P}.
Arguments pages {F P}.

(** The blocks of the relation that belong to structures other than the one at hand. *)
Class Elsewhere := elsewhere : gset Z.

Section buffers.
Context {F P : Type} `{FreeSpaceManager F} {Els : Elsewhere}.

Abbreviation RM := (M (rel F P) unit).

(** [get_buffer(blockno).page()]: reading a block that does not exist is an error of the
    storage manager. *)
Definition get_buffer (b : Z) : RM P := fun r =>
  match pages r !! b with Some p => (Ok p, r) | None => (Panic, r) end.

(** Changing a page held by an exclusively locked buffer. *)
Definition put_page (b : Z) (p : P) : RM unit := modify (fun r => mkRel (fsm r) (<[b := p]> (pages r))).

(** A call of the free space manager. *)
Definition on_fsm {A} (c : M F unit A) : RM A := fun r =>
  let '(o, f) := c (fsm r) in (o, mkRel f (pages r)).

(** [init_new_buffer(rel)]: a new block at the end of the relation. *)
Definition init_new_buffer (init : P) : RM Z :=
  b ← on_fsm extend_relation; put_page b init;; mret b.

(** [bman.new_buffer()] followed by [init_page()]: a recycled block, or a new one. *)
Definition new_buffer (init : P) : RM Z :=
  o ← on_fsm pop;
  match o with
  | Some b => put_page b init;; mret b
  | None => init_new_buffer init
  end.

Fixpoint init_pages (init : P) (bs : list Z) : RM unit :=
  match bs with [] => mret tt | b :: bs => put_page b init;; init_pages init bs end.

Fixpoint init_new_buffers (init : P) (n : nat) : RM (list Z) :=
  match n with
  | O => mret []
  | S n => b ← init_new_buffer init; bs ← init_new_buffers init n; mret (b :: bs)
  end.

(** [bman.new_buffers(npages)] followed by [init_page()] of each: what the manager has, the
    rest from the end of the relation.  The source extends the relation when the iterator
    gets there; all callers take as many buffers as they ask for. *)
Definition new_buffers (init : P) (npages : nat) : RM (list Z) :=
  match npages with
  | O => mret []
  | 1%nat => b ← new_buffer init; mret [b]
  | _ =>
      bs ← on_fsm (drain npages);
      init_pages init bs;;
      rest ← init_new_buffers init (npages - length bs);
      mret (bs ++ rest)
  end.

(** Giving blocks back; their contents are no longer the client's. *)
Definition release (xid : Z) (bs : list Z) : RM unit :=
  on_fsm (extend_with_when_recyclable xid bs);;
  modify (fun r => mkRel (fsm r) (foldr delete (pages r) bs)).

(** The same through [FreeSpaceManager::extend]. *)
Definition release_now (current_xid : Z) (bs : list Z) : RM unit :=
  on_fsm (extend_now current_xid bs);;
  modify (fun r => mkRel (fsm r) (foldr delete (pages r) bs)).

(** ** Running a computation

    [runs c r Q]: from [r], [c] returns with [Q], or it stops because the relation has
    become too large.  It never panics otherwise, fails, or runs out of fuel. *)

Definition runs {A} (c : RM A) (r : rel F P) (Q : A -> rel F P -> Prop) : Prop :=
  mwp (fun r' => large (nblocks (fsm r'))) c r Q.

Lemma runs_ret {A} (a : A) r (Q : A -> rel F P -> Prop) : Q a r -> runs (mret a) r Q.
Proof. done. Qed.

Lemma runs_bind {A B} (c : RM A) (f : A -> RM B) r Q :
  runs c r (fun a r' => runs (f a) r' Q) -> runs (c ≫= f) r Q.
Proof. apply mwp_bind. Qed.

Lemma runs_mono {A} (c : RM A) r (Q Q' : A -> rel F P -> Prop) :
  runs c r Q -> (forall a r', Q a r' -> Q' a r') -> runs c r Q'.
Proof. apply mwp_mono. Qed.

Lemma runs_gets {A} (f : rel F P -> A) r (Q : A -> rel F P -> Prop) : Q (f r) r -> runs (gets f) r Q.
Proof. done. Qed.

(** Every block but the first is exactly one of: the manager's, one of [bs], a page of the
    client, or elsewhere. *)
Record rel_but (bs : list Z) (r : rel F P) : Prop := {
  rb_fsm : fsm_ok (fsm r);
  rb_pages : forall b, is_Some (pages r !! b) -> 0 < b < nblocks (fsm r) /\ b ∉ owned (fsm r) /\ b ∉ elsewhere /\ b ∉ bs;
  rb_bs : forall b, b ∈ bs -> 0 < b < nblocks (fsm r) /\ b ∉ owned (fsm r) /\ b ∉ elsewhere;
  rb_elsewhere : forall b, b ∈ elsewhere -> 0 < b < nblocks (fsm r) /\ b ∉ owned (fsm r);
  rb_cover : forall b, 0 < b < nblocks (fsm r) -> b ∈ owned (fsm r) \/ is_Some (pages r !! b) \/ b ∈ elsewhere \/ b ∈ bs;
}.

(** No block is lost and none is used twice. *)
Definition rel_ok : rel F P -> Prop := rel_but [].

Lemma rel_ok_valid r b p : rel_ok r -> pages r !! b = Some p -> b <> InvalidBlockNumber /\ b <> 0.
Proof.
  intros [Hf Hp _ _ _] Hb. destruct (Hp b) as [? _]; [by eexists|]. pose proof (nblocks_bound _ Hf). lia.
Qed.

(** What is not a page and not elsewhere is the manager's. *)
Lemma rel_ok_owned r : rel_ok r -> owned (fsm r) = block_range 1 (nblocks (fsm r)) ∖ (dom (pages r) ∪ elsewhere).
Proof.
  intros [Hf Hp _ He Hc]. apply set_eq. intros b. rewrite elem_of_difference, elem_of_union, elem_of_dom, elem_of_block_range. split.
  - intros Hb. pose proof (owned_bound _ _ Hf Hb). split; [lia|]. intros [Hx%Hp|Hx%He]; tauto.
  - intros [Hb Hn]. destruct (Hc b) as [?|[?|[?|?%elem_of_nil]]]; [lia|done|tauto|tauto|done].
Qed.

Lemma rel_ok_not_owned r b : rel_ok r -> is_Some (pages r !! b) -> b ∉ owned (fsm r).
Proof. intros Hr Hb. by apply (rb_pages _ _ Hr b). Qed.

Lemma get_buffer_ok b p r : pages r !! b = Some p -> get_buffer b r = (Ok p, r).
Proof. unfold get_buffer. by intros ->. Qed.

Lemma runs_get_buffer b p r (Q : P -> rel F P -> Prop) : pages r !! b = Some p -> Q p r -> runs (get_buffer b) r Q.
Proof. intros Hb HQ. unfold runs, mwp. by rewrite (get_buffer_ok b p r Hb). Qed.

Lemma put_page_rel_ok b p p' r : rel_ok r -> pages r !! b = Some p ->
  rel_ok (mkRel (fsm r) (<[b := p']> (pages r))).
Proof.
  intros [Hf Hp Hb He Hc] Hl. assert (forall x, is_Some (<[b := p']> (pages r) !! x) <-> is_Some (pages r !! x)) as E.
  { intros x. rewrite lookup_insert_is_Some'. split; [intros [<-|?]; [by eexists|done]|by right]. }
  split; cbn [fsm pages]; [done| |done|done|]; intros x; rewrite E; auto.
Qed.

(** A change of a page of the client. *)
Lemma runs_put_page b p p' r (Q : unit -> rel F P -> Prop) : rel_ok r -> pages r !! b = Some p ->
  (forall r', rel_ok r' -> pages r' = <[b := p']> (pages r) -> Q tt r') -> runs (put_page b p') r Q.
Proof. intros Hr Hb HQ. apply HQ; [by eapply put_page_rel_ok|done]. Qed.

(** Calls of the manager that hand blocks out: none of them has a page of the client. *)
Lemma runs_on_fsm {A} (c : M F unit A) r (Q : A -> rel F P -> Prop) (Q' : A -> F -> Prop) :
  returns (c (fsm r)) Q' -> (forall a f, Q' a f -> Q a (mkRel f (pages r))) -> runs (on_fsm c) r Q.
Proof.
  unfold returns, runs, mwp, on_fsm. destruct (c (fsm r)) as [[a| | |] f]; simpl; auto.
Qed.

(** Blocks handed out are in nobody's hands until they get a page. *)
Lemma taken_but r f bs : rel_ok r -> taken (fsm r) f bs -> rel_but bs (mkRel f (pages r)).
Proof.
  intros [Hf Hp _ He Hc] [Hf' Hn Hnd Hd Ho]. pose proof (nblocks_bound _ Hf).
  assert (forall b, b ∈ owned f \/ b ∈ bs <-> b ∈ owned (fsm r) \/ nblocks (fsm r) <= b < nblocks f) as E.
  { intros b. rewrite <- elem_of_block_range, <- elem_of_union, <- Ho, elem_of_union, elem_of_list_to_set. done. }
  split; cbn [fsm pages]; [done| | | |].
  - intros b Hb. destruct (Hp b Hb) as (? & ? & ? & _). specialize (E b). split; [lia|]. split; [|split; [done|]]; intros ?; destruct E as [[?|?] _]; auto; lia.
  - intros b Hb. split; [|split; [by apply Hd|]].
    + destruct (proj1 (E b) (or_intror Hb)) as [Hx|?]; [pose proof (owned_bound _ _ Hf Hx)|]; lia.
    + intros Hx. destruct (He b Hx). destruct (proj1 (E b) (or_intror Hb)); [done|lia].
  - intros b Hb. destruct (He b Hb). split; [lia|]. intros Hx. destruct (proj1 (E b) (or_introl Hx)); [done|lia].
  - intros b Hb. destruct (decide (b < nblocks (fsm r))) as [Hlt|Hge].
    + destruct (Hc b) as [Hx|[Hx|[Hx|?%elem_of_nil]]]; [lia| |auto|auto|done].
      destruct (proj2 (E b) (or_introl Hx)); auto.
    + destruct (proj2 (E b)); [right; lia|auto|auto].
Qed.

Lemma claim_rel_but b bs init r : b ∉ bs -> rel_but (b :: bs) r -> pages r !! b = None /\ rel_but bs (mkRel (fsm r) (<[b := init]> (pages r))).
Proof.
  intros Hnb [Hf Hp Hb He Hc]. split.
  { destruct (pages r !! b) eqn:Eb; [|done]. destruct (Hp b) as (_ & _ & _ & Hx); [by eexists|]. exfalso. apply Hx. left. }
  split; cbn [fsm pages]; [done| | |done|].
  - intros x. rewrite lookup_insert_is_Some'. intros [<-|Hx].
    + destruct (Hb b) as (? & ? & ?); [left|done].
    + destruct (Hp x Hx) as (? & ? & ? & [_ ?]%not_elem_of_cons). done.
  - intros x Hx. apply Hb. by right.
  - intros x Hx. rewrite lookup_insert_is_Some'. destruct (Hc x Hx) as [?|[?|[?|[->|?]%elem_of_cons]]]; auto.
Qed.

Lemma runs_init_new_buffer init r (Q : Z -> rel F P -> Prop) : rel_ok r ->
  (forall b r', rel_ok r' -> pages r !! b = None -> pages r' = <[b := init]> (pages r) -> Q b r') ->
  runs (init_new_buffer init) r Q.
Proof.
  intros Hr HQ. pose proof Hr as [Hf Hp _ He Hc]. apply runs_bind. eapply runs_on_fsm; [by apply extend_relation_ok|].
  intros b f (Hf' & -> & Hn & Ho). pose proof (nblocks_bound _ Hf).
  assert (taken (fsm r) f [nblocks (fsm r)]) as Ht.
  { split; [done|lia|apply NoDup_singleton| |].
    - intros b ->%list_elem_of_singleton. rewrite Ho. intros Hb%(owned_bound _ _ Hf). lia.
    - rewrite Ho, Hn. f_equal. apply set_eq. intros b. rewrite elem_of_block_range, elem_of_list_to_set, list_elem_of_singleton. lia. }
  destruct (claim_rel_but _ [] init _ (not_elem_of_nil _) (taken_but r f _ Hr Ht)) as [Hnone Hr'].
  by apply (HQ (nblocks (fsm r)) (mkRel f (<[nblocks (fsm r) := init]> (pages r)))).
Qed.

(** A new buffer is a block no page of the client has, and nothing else changes. *)
Lemma runs_new_buffer init r (Q : Z -> rel F P -> Prop) : rel_ok r ->
  (forall b r', rel_ok r' -> pages r !! b = None -> pages r' = <[b := init]> (pages r) -> Q b r') ->
  runs (new_buffer init) r Q.
Proof.
  intros Hr HQ. apply runs_bind. eapply runs_on_fsm; [apply pop_ok, Hr|].
  intros o f Ht. pose proof (taken_but r f _ Hr Ht) as Hr1.
  destruct o as [b|]; [|by apply runs_init_new_buffer].
  destruct (claim_rel_but b [] init _ (not_elem_of_nil _) Hr1) as [Hb Hr2].
  by apply (HQ b (mkRel f (<[b := init]> (pages r)))).
Qed.

(** New buffers: [bs] are blocks no page of the client has, and they now hold [init]. *)
Definition claimed (init : P) (r r' : rel F P) (bs : list Z) : Prop :=
  rel_ok r' /\ NoDup bs /\ (forall b, b ∈ bs -> pages r !! b = None /\ pages r' !! b = Some init) /\
  (forall b, b ∉ bs -> pages r' !! b = pages r !! b).

Lemma claimed_nil init r : rel_ok r -> claimed init r r [].
Proof. intros Hr. split; [done|]. split; [constructor|]. split; [by intros b ?%elem_of_nil|done]. Qed.

Lemma claimed_step init b r r1 r' bs : pages r !! b = None -> pages r1 = <[b := init]> (pages r) ->
  claimed init r1 r' bs -> claimed init r r' (b :: bs).
Proof.
  intros Hb Hp1 (Hr' & Hnd & Hin & Hfr).
  assert (b ∉ bs) as Hnb by (intros [Hx _]%Hin; by rewrite Hp1, lookup_insert_eq in Hx).
  split; [done|]. split; [by constructor|]. split.
  - intros b' [->|Hb']%elem_of_cons; [rewrite Hfr, Hp1, lookup_insert_eq by done; done|].
    destruct (Hin b' Hb') as [Hx ?]. rewrite Hp1, lookup_insert_ne in Hx by (by intros ->). done.
  - intros b' [Hne Hb']%not_elem_of_cons. rewrite Hfr by done. by rewrite Hp1, lookup_insert_ne.
Qed.

Lemma runs_init_pages init bs r (Q : unit -> rel F P -> Prop) : NoDup bs -> rel_but bs r ->
  (forall r', claimed init r r' bs -> Q tt r') -> runs (init_pages init bs) r Q.
Proof.
  revert r Q. induction bs as [|b bs IH]; intros r Q Hnd Hr HQ; cbn [init_pages].
  { by apply HQ, claimed_nil. }
  apply NoDup_cons in Hnd as [Hnb Hnd]. apply runs_bind.
  set (r1 := mkRel (fsm r) (<[b := init]> (pages r))). change (runs (init_pages init bs) r1 Q).
  destruct (claim_rel_but b bs init r Hnb Hr) as [Hb Hr1]. apply IH; [done|done|].
  intros r' Hc. apply HQ. by apply (claimed_step init b r r1).
Qed.

Lemma runs_init_new_buffers init n r (Q : list Z -> rel F P -> Prop) : rel_ok r ->
  (forall bs r', claimed init r r' bs -> length bs = n -> Q bs r') -> runs (init_new_buffers init n) r Q.
Proof.
  revert r Q. induction n as [|n IH]; intros r Q Hr HQ; cbn [init_new_buffers].
  { by apply HQ; [apply claimed_nil|]. }
  apply runs_bind, runs_init_new_buffer; [done|]. intros b r1 Hr1 Hb Hp1.
  apply runs_bind, IH; [done|]. intros bs r2 Hc Hlen. apply HQ; [by eapply claimed_step|simpl; lia].
Qed.

Lemma claimed_app init r r1 r2 bs1 bs2 : claimed init r r1 bs1 -> claimed init r1 r2 bs2 -> claimed init r r2 (bs1 ++ bs2).
Proof.
  intros (Hr1 & Hn1 & Hi1 & Hf1) (Hr2 & Hn2 & Hi2 & Hf2).
  assert (forall b, b ∈ bs1 -> b ∉ bs2) as Hd.
  { intros b [_ H1]%Hi1 [H2 _]%Hi2. congruence. }
  split; [done|]. split; [by apply NoDup_app|]. split.
  - intros b [Hb|Hb]%elem_of_app.
    + rewrite Hf2 by auto. by apply Hi1.
    + destruct (Hi2 b Hb) as [H2 ?]. rewrite Hf1 in H2; [done|]. intros ?. by apply (Hd b).
  - intros b Hb. rewrite elem_of_app in Hb. rewrite Hf2, Hf1; [done| |]; tauto.
Qed.

(** As many new buffers as were asked for. *)
Lemma runs_new_buffers init n r (Q : list Z -> rel F P -> Prop) : rel_ok r ->
  (forall bs r', claimed init r r' bs -> length bs = n -> Q bs r') -> runs (new_buffers init n) r Q.
Proof.
  intros Hr HQ. destruct n as [|[|n]]; cbn [new_buffers].
  - by apply HQ; [apply claimed_nil|].
  - apply runs_bind, runs_new_buffer; [done|]. intros b r1 Hr1 Hb Hp1. apply HQ; [|done].
    eapply claimed_step; [done|done|]. by apply claimed_nil.
  - apply runs_bind. eapply runs_on_fsm; [apply drain_ok, Hr|]. intros bs f [Ht Hlen].
    apply runs_bind, runs_init_pages; [apply Ht|by apply taken_but|]. intros r2 Hc2.
    apply runs_bind, runs_init_new_buffers; [apply Hc2|]. intros rest r3 Hc3 Hlr. apply HQ.
    + apply (claimed_app init r r2); done.
    + rewrite length_app. lia.
Qed.

Lemma foldr_delete_lookup (m : gmap Z P) bs b :
  foldr delete m bs !! b = if decide (b ∈ bs) then None else m !! b.
Proof.
  induction bs as [|b' bs IH]; simpl; [done|].
  destruct (decide (b = b')) as [->|Hne].
  - rewrite lookup_delete_eq, decide_True by set_solver. done.
  - rewrite lookup_delete_ne, IH by done. repeat case_decide; set_solver.
Qed.

(** The relation as it would be without the pages [bs]. *)
Definition without (r : rel F P) (bs : list Z) : rel F P := mkRel (fsm r) (foldr delete (pages r) bs).

(** Releasing blocks of the client. *)
Lemma runs_release xid bs r (Q : unit -> rel F P -> Prop) :
  rel_ok r -> normal_xid xid -> NoDup bs -> (forall b, b ∈ bs -> is_Some (pages r !! b)) ->
  (forall r', rel_ok r' -> pages r' = foldr delete (pages r) bs -> Q tt r') ->
  runs (release xid bs) r Q.
Proof.
  intros [Hf Hp _ He Hc] Hxid Hnd Hbs HQ. pose proof (nblocks_bound _ Hf). apply runs_bind. eapply runs_on_fsm.
  { apply extend_with_ok; [done|done|done|]. intros b Hb. destruct (Hp b (Hbs b Hb)) as (? & ? & _). done. }
  intros [] f [Hf' Hn Ho].
  assert (forall b, b ∈ owned f <-> b ∈ owned (fsm r) \/ b ∈ bs \/ nblocks (fsm r) <= b < nblocks f) as E.
  { intros b. rewrite Ho, !elem_of_union, elem_of_list_to_set, elem_of_block_range. tauto. }
  apply HQ; [|done]. split; cbn [fsm pages]; [done| |by intros b ?%elem_of_nil| |].
  - intros b. rewrite foldr_delete_lookup. case_decide as Hd; [by intros [? ?]|]. intros Hb.
    destruct (Hp _ Hb) as (? & ? & ? & ?). rewrite E. split; [lia|]. split; [|done]. intros [?|[?|?]]; [done|done|lia].
  - intros b Hb. destruct (He b Hb). rewrite E. split; [lia|]. intros [?|[Hx%Hbs%Hp|?]]; [done|tauto|lia].
  - intros b Hb. rewrite E, foldr_delete_lookup. case_decide as Hd; [auto|].
    destruct (decide (b < nblocks (fsm r))) as [Hlt|Hge]; [|left; right; right; lia]. destruct (Hc b) as [?|[?|[?|?]]]; [lia|auto..].
Qed.

Lemma runs_release_now xid bs r (Q : unit -> rel F P -> Prop) :
  rel_ok r -> NoDup bs -> (forall b, b ∈ bs -> is_Some (pages r !! b)) ->
  (forall r', rel_ok r' -> pages r' = foldr delete (pages r) bs -> Q tt r') ->
  runs (release_now xid bs) r Q.
Proof. intros. apply runs_release; [done|unfold normal_xid; lia|done|done|done]. Qed.

End buffers.

(** ** Pages linked through [next_blockno] *)

Section chains.
Context {P : Type} (next : P -> Z).
Implicit Types (m : gmap Z P) (ch : list (Z * P)).

(** The pages from block [b] up to, not including, block [b']. *)
Fixpoint seg m (b : Z) ch (b' : Z) : Prop :=
  match ch with
  | [] => b = b'
  | (b0, p) :: ch => b = b0 /\ b <> InvalidBlockNumber /\ m !! b = Some p /\ seg m (next p) ch b'
  end.

(** All pages from block [b] on. *)
Definition chain m (b : Z) ch : Prop := seg m b ch InvalidBlockNumber.

Lemma seg_app m b ch1 ch2 b' : seg m b (ch1 ++ ch2) b' <-> exists b1, seg m b ch1 b1 /\ seg m b1 ch2 b'.
Proof.
  revert b. induction ch1 as [|[b0 p] ch1 IH]; intros b; simpl; [naive_solver|].
  rewrite IH. naive_solver.
Qed.

Lemma seg_frame m m' b ch b' : seg m b ch b' -> (forall x, x ∈ ch.*1 -> m' !! x = m !! x) -> seg m' b ch b'.
Proof.
  revert b. induction ch as [|[b0 p] ch IH]; intros b; simpl; [done|].
  intros (-> & Hb & Hp & Hs) Hf. split; [done|]. split; [done|]. split.
  - rewrite Hf; [done|left].
  - apply IH; [done|]. intros x Hx. apply Hf. by right.
Qed.

Lemma seg_lookup m b ch b' x p : seg m b ch b' -> (x, p) ∈ ch -> m !! x = Some p /\ x <> InvalidBlockNumber.
Proof.
  revert b. induction ch as [|[b0 q] ch IH]; intros b; simpl; [by intros _ ?%elem_of_nil|].
  intros (-> & Hb & Hp & Hs) [[= -> ->]|Hin]%elem_of_cons; [done|]. by eapply IH.
Qed.

Lemma seg_in m b ch b' x : seg m b ch b' -> x ∈ ch.*1 -> is_Some (m !! x).
Proof.
  intros Hs ([x' p] & -> & Hin)%list_elem_of_fmap. destruct (seg_lookup _ _ _ _ _ _ Hs Hin) as [? _]. by eexists.
Qed.

Lemma chain_length m b ch b' : seg m b ch b' -> NoDup ch.*1 -> (length ch <= size m)%nat.
Proof.
  intros Hs Hnd. rewrite <- (length_fmap fst ch), <- size_dom.
  rewrite <- (size_list_to_set (C := gset Z) ch.*1) by done. apply subseteq_size.
  intros x Hx%elem_of_list_to_set. apply elem_of_dom. by eapply seg_in.
Qed.

Lemma chain_cons_inv m b ch : chain m b ch -> b <> InvalidBlockNumber ->
  exists p ch', ch = (b, p) :: ch' /\ m !! b = Some p /\ chain m (next p) ch'.
Proof.
  destruct ch as [|[b0 p] ch]; simpl; [done|]. intros (-> & _ & Hp & Hs) _. by exists p, ch.
Qed.

Lemma chain_mid m b0 w b p rest : chain m b0 (w ++ (b, p) :: rest) ->
  seg m b0 w b /\ b <> InvalidBlockNumber /\ m !! b = Some p /\ chain m (next p) rest.
Proof. intros (b1 & Hw & -> & Hb & Hp & Hr)%seg_app. done. Qed.

(** Changing a page but not its link. *)
Lemma chain_update m b0 w b p p' rest :
  chain m b0 (w ++ (b, p) :: rest) -> NoDup (w ++ (b, p) :: rest).*1 -> next p' = next p ->
  chain (<[b := p']> m) b0 (w ++ (b, p') :: rest).
Proof.
  intros (Hw & Hb & Hp & Hr)%chain_mid Hnd Hn. rewrite fmap_app, fmap_cons in Hnd.
  apply NoDup_app in Hnd as (_ & Hd & [Hnb _]%NoDup_cons). cbn [fst] in *.
  apply seg_app. exists b. split.
  - eapply seg_frame; [done|]. intros x Hx. apply lookup_insert_ne. intros ->. apply (Hd x Hx). left.
  - split; [done|]. split; [done|]. split; [apply lookup_insert_eq|]. rewrite Hn.
    eapply seg_frame; [done|]. intros x Hx. apply lookup_insert_ne. by intros ->.
Qed.

(** Linking a last page that was not in the chain. *)
Lemma chain_extend m b0 w b p p' nb q :
  chain m b0 (w ++ [(b, p)]) -> NoDup (w ++ [(b, p)]).*1 -> nb ∉ (w ++ [(b, p)]).*1 -> nb <> InvalidBlockNumber ->
  next p' = nb -> next q = InvalidBlockNumber ->
  chain (<[b := p']> (<[nb := q]> m)) b0 (w ++ [(b, p'); (nb, q)]) /\ NoDup (w ++ [(b, p'); (nb, q)]).*1.
Proof.
  intros Hch Hnd Hnb Hnv Hn Hq.
  pose proof (chain_mid _ _ _ _ _ _ Hch) as (Hw & Hb & Hp & _).
  rewrite !fmap_app in *. cbn [fmap list_fmap fst] in *. split.
  - apply seg_app. exists b. split.
    + eapply seg_frame; [done|]. intros x Hx. apply NoDup_app in Hnd as (_ & Hd & _).
      rewrite !lookup_insert_ne; [done| |]; intros ->; [set_solver|]. apply (Hd x Hx). left.
    + split; [done|]. split; [done|]. split; [apply lookup_insert_eq|]. split; [done|]. split; [by rewrite Hn|].
      rewrite Hn. split; [|done]. rewrite lookup_insert_ne by set_solver. apply lookup_insert_eq.
  - change [b; nb] with ([b] ++ [nb]). rewrite app_assoc. apply NoDup_app. split; [done|].
    split; [set_solver|apply NoDup_singleton].
Qed.

(** Linking a new last page. *)
Lemma chain_link m b0 w b p p' nb q :
  chain m b0 (w ++ [(b, p)]) -> NoDup (w ++ [(b, p)]).*1 -> m !! nb = None -> nb <> InvalidBlockNumber ->
  next p' = nb -> next q = InvalidBlockNumber ->
  chain (<[b := p']> (<[nb := q]> m)) b0 (w ++ [(b, p'); (nb, q)]) /\ NoDup (w ++ [(b, p'); (nb, q)]).*1.
Proof.
  intros Hch Hnd Hnone. apply (chain_extend m b0 w b p); [done|done|]. intros Hx.
  apply (seg_in m b0 _ _ nb Hch) in Hx as [? ?]. congruence.
Qed.

End chains.

(** ** A concrete manager: a stack of free blocks *)

Record stack_fsm := mkStack { st_free : list Z; st_n : Z }.

#[global] Instance stack_ops : FreeSpaceManagerOps stack_fsm := {|
  fsm_ok f := NoDup (st_free f) /\ 0 < st_n f <= InvalidBlockNumber /\ forall b, b ∈ st_free f -> 0 < b < st_n f;
  owned f := list_to_set (st_free f);
  nblocks := st_n;
  pop f := (Ok (head (st_free f)), mkStack (tail (st_free f)) (st_n f));
  drain many f := (Ok (take many (st_free f)), mkStack (drop many (st_free f)) (st_n f));
  extend_relation f :=
    if st_n f <? InvalidBlockNumber then (Ok (st_n f), mkStack (st_free f) (st_n f + 1)) else (Panic, f);
  extend_with_when_recyclable _ bs f := (Ok tt, mkStack (bs ++ st_free f) (st_n f));
|}.

Lemma stack_taken bs fr n : fsm_ok (mkStack (bs ++ fr) n) -> taken (mkStack (bs ++ fr) n) (mkStack fr n) bs.
Proof.
  intros ((Hnd1 & Hd & Hnd2)%NoDup_app & Hn & Hb). split; cbn in *.
  - split; [done|]. split; [done|]. intros b ?. apply Hb. set_solver.
  - lia.
  - done.
  - intros b. rewrite elem_of_list_to_set. apply Hd.
  - rewrite block_range_empty, list_to_set_app_L. set_solver.
Qed.

#[global, program] Instance stack_FreeSpaceManager : FreeSpaceManager stack_fsm.
Next Obligation. intros f b (_ & _ & Hb) Hin. apply elem_of_list_to_set in Hin. by apply Hb. Qed.
Next Obligation. by intros f (_ & ? & _). Qed.
Next Obligation. intros [[|b fr] n] Hf; [by apply (stack_taken [])|by apply (stack_taken [b])]. Qed.
Next Obligation.
  intros [fr n] many Hf. cbn. split; [|rewrite length_take; lia].
  rewrite <- (take_drop many fr) at 1. apply stack_taken. by rewrite take_drop.
Qed.
Next Obligation.
  intros [fr n] xid bs (Hnd & Hn & Hb) _ Hnd' Hin. cbn in *. split; cbn; [split; [|split; [done|]]|lia|].
  - apply NoDup_app. split; [done|]. split; [|done]. intros b H1 H2. apply Hin in H1 as [_ H1]. set_solver.
  - intros b [Hb'|Hb']%elem_of_app; [by apply Hin|by apply Hb].
  - rewrite block_range_empty. set_solver.
Qed.
Next Obligation.
  intros [fr n] (Hnd & Hn & Hb). cbn in *. destruct (Z.ltb_spec n InvalidBlockNumber) as [Hlt|Hge]; cbn.
  - split; [|done]. split; [done|]. cbn. split; [lia|]. intros b Hin. apply Hb in Hin. lia.
  - unfold large, InvalidBlockNumber in *. lia.
Qed.

(** A concrete relation of which the blocks [es] are elsewhere. *)
Lemma stack_rel_ok {P} (es : list Z) (r : rel stack_fsm P) : 0 < st_n (fsm r) <= InvalidBlockNumber ->
  st_free (fsm r) ++ es ++ (map_to_list (pages r)).*1 ≡ₚ seqZ 1 (st_n (fsm r) - 1) ->
  rel_ok (Els := (list_to_set es : gset Z)) r.
Proof.
  intros Hn Hp. assert (NoDup (st_free (fsm r) ++ es ++ (map_to_list (pages r)).*1)) as Hnd by (rewrite Hp; apply NoDup_seqZ).
  apply NoDup_app in Hnd as (Hnd1 & Hd1 & (Hnd2 & Hd2 & _)%NoDup_app).
  assert (forall b, is_Some (pages r !! b) <-> b ∈ (map_to_list (pages r)).*1) as Ep.
  { intros b. split; [intros [p Hb%elem_of_map_to_list]; by apply (list_elem_of_fmap_2 fst) in Hb|].
    intros ([b' p] & -> & Hb%elem_of_map_to_list)%list_elem_of_fmap. by eexists. }
  assert (forall b, 0 < b < st_n (fsm r) <-> b ∈ st_free (fsm r) \/ b ∈ es \/ b ∈ (map_to_list (pages r)).*1) as Eb.
  { intros b. rewrite <- !elem_of_app, Hp, elem_of_seqZ. lia. }
  assert (forall b, b ∈ owned (fsm r) <-> b ∈ st_free (fsm r)) as Eo by (intros b; apply elem_of_list_to_set).
  assert (forall b, b ∈ (list_to_set es : gset Z) <-> b ∈ es) as Ee by (intros b; apply elem_of_list_to_set).
  split.
  - split; [done|]. split; [done|]. intros b ?. apply Eb. by left.
  - intros b. rewrite Ep, Eo, Ee. intros Hb. split; [apply Eb; auto|]. repeat split; [| |by intros ?%elem_of_nil]; intros Hx.
    + eapply Hd1; [exact Hx|]. apply elem_of_app. by right.
    + by eapply Hd2.
  - by intros b ?%elem_of_nil.
  - intros b. rewrite Eo, Ee. intros Hb. split; [apply Eb; auto|]. intros Hx. eapply Hd1; [exact Hx|]. apply elem_of_app. by left.
  - intros b Hb%Eb. rewrite Eo, Ep, Ee. tauto.
Qed.

(** Decides it. *)
Ltac stack_rel := apply stack_rel_ok; [by vm_compute|apply (bool_decide_unpack _); vm_compute; exact I].
