(* ===== verification/FsmV2.v ===== *)
(** * The free space manager on the AVL map

    [storage/fsm.rs], [v2]: the free blocks of a relation, grouped by the transaction from
    which on they may be reused.  The root page holds an AVL map from transaction ids to
    tags; a tag is the head of a chain of leaf pages with the block numbers of its group. *)

From stdpp Require Import prelude gmap sorting.
From Stdlib Require Import ZArith Lia.
From S2P Require Import Prelude Avl Pages.

Local Open Scope Z_scope.

Module FsmV2.

Inductive FSMBlockKind := v0 | v1_uncompressed | v2_avl_tree.

#[global] Instance FSMBlockKind_eq_dec : EqDecision FSMBlockKind.
Proof. solve_decision. Defined.

(** A leaf page: [AvlLeaf] and the next block of the page's special area. *)
Record AvlLeaf := mkLeaf {
  len : Z;
  entries : list Z;
  next_blockno : Z;
}.

Definition set_next (b : Z) (p : AvlLeaf) : AvlLeaf := mkLeaf (len p) (entries p) b.

Abbreviation AvlMut := (AvlMap.AvlTreeMap Z unit Z).

Record FSMRootBlock := mkRoot { kind : FSMBlockKind; avl : AvlMut }.

(** The manager's part of the relation: its root page, in block [start_blockno], its leaf
    pages and the number of blocks of the relation. *)
Record V2FSM := mkV2 {
  start_blockno : Z;
  root : FSMRootBlock;
  leaves : gmap Z AvlLeaf;
  nb : Z;
}.

(** What the backend in which the code runs looks like: whether it is creating the index,
    its transaction id (0 if it has none), the id the next transaction will get, and which
    conditional locks it is granted. *)
Record backend := mkBackend {
  is_create_index : bool;
  current_full_xid : Z;
  next_full_xid : Z;
  try_lock : V2FSM -> Z -> bool;
}.

Section ops.
Variables (MAX_ENTRIES MAX_SLOTS : nat) (be : backend).

Abbreviation VM := (M V2FSM AvlMap.Error).

(** ** Pages *)

Definition AvlLeaf_default : AvlLeaf := mkLeaf 0 (replicate MAX_ENTRIES InvalidBlockNumber) InvalidBlockNumber.

(** A page as [init_new_buffer] leaves it: zeros, and no next block. *)
Definition zero_leaf : AvlLeaf := mkLeaf 0 (replicate MAX_ENTRIES 0) InvalidBlockNumber.

Definition get_leaf (b : Z) : VM AvlLeaf := fun s =>
  match leaves s !! b with Some p => (Ok p, s) | None => (Panic, s) end.

Definition put_leaf (b : Z) (p : AvlLeaf) : VM unit :=
  modify (fun s => mkV2 (start_blockno s) (root s) (<[b := p]> (leaves s)) (nb s)).

(** [init_new_buffer]: PostgreSQL refuses block number 2^32 - 1. *)
Definition init_new_buffer : VM Z := fun s =>
  if nb s <? InvalidBlockNumber
  then (Ok (nb s), mkV2 (start_blockno s) (root s) (leaves s) (nb s + 1))
  else (Panic, s).

Definition init_new_page : VM Z :=
  b ← init_new_buffer; put_leaf b AvlLeaf_default;; mret b.

(** ** The root page *)

(** [avl_ref] and [avl_mut]: a call of the map on the root page. *)
Definition on_avl {A} (c : M AvlMut AvlMap.Error A) : VM A := fun s =>
  if decide (kind (root s) = v2_avl_tree) then
    let '(o, t) := c (avl (root s)) in
    (o, mkV2 (start_blockno s) (mkRoot (kind (root s)) t) (leaves s) (nb s))
  else (Panic, s).

(** [match c { Err(Error::Full) => h, .. }] *)
Definition on_full {A} (c h : VM A) : VM A := fun s =>
  match c s with
  | (Err AvlMap.Full, s') => h s'
  | x => x
  end.

(** ** Creation *)

Definition FSMRootBlock_default : FSMRootBlock :=
  mkRoot v2_avl_tree (AvlMap.mkMap AvlMap.AvlTreeMapHeader_default (replicate MAX_SLOTS AvlMap.Slot_default)).

Fixpoint create_tags (i n : nat) : VM unit :=
  match n with
  | O => mret tt
  | S n =>
      b ← init_new_buffer;
      put_leaf b zero_leaf;;
      on_avl (AvlMap.update i (AvlMap.put_tag b));;
      create_tags (S i) n
  end.

Definition create : VM Z :=
  b ← init_new_buffer;
  modify (fun s => mkV2 b FSMRootBlock_default (leaves s) (nb s));;
  create_tags 0 MAX_SLOTS;;
  on_avl AvlMap.new;;
  mret b.

(** ** Extension *)

Definition handle_full_tree (when_recyclable : Z) : VM Z :=
  o ← on_avl AvlMap.get_max_slot;
  i ← unwrap o;
  max_slot ← on_avl (AvlMap.index i);
  (if when_recyclable >? AvlMap.key max_slot
   then on_avl (AvlMap.update i (AvlMap.put_key when_recyclable))
   else mret tt);;
  mret (AvlMap.tag max_slot).

(** Blocks appended to a leaf while there is room; what did not fit. *)
Fixpoint fill (p : AvlLeaf) (extend_with : list Z) : AvlLeaf * list Z :=
  match extend_with with
  | [] => (p, [])
  | b :: rest =>
      if len p <? Z.of_nat (length (entries p))
      then fill (mkLeaf (u32 (len p + 1)) (<[Z.to_nat (len p) := b]> (entries p)) (next_blockno p)) rest
      else (p, extend_with)
  end.

(** From leaf [b] on; the result is the last leaf that was written. *)
Fixpoint extend_freelist (fuel : nat) (b : Z) (extend_with : list Z) : VM Z :=
  match fuel with
  | O => out_of_fuel
  | S fuel =>
      p ← get_leaf b;
      if (len p =? Z.of_nat (length (entries p))) && negb (next_blockno p =? InvalidBlockNumber) then
        new_blockno ← init_new_page;
        last_block ← extend_freelist fuel new_blockno extend_with;
        end_page ← get_leaf last_block;
        put_leaf last_block (set_next (next_blockno p) end_page);;
        put_leaf b (set_next new_blockno p);;
        mret last_block
      else
        let '(p, rest) := fill p extend_with in
        put_leaf b p;;
        match rest with
        | [] => mret b
        | _ =>
            if next_blockno p =? InvalidBlockNumber then
              new_blockno ← init_new_page;
              put_leaf b (set_next new_blockno p);;
              extend_freelist fuel new_blockno rest
            else extend_freelist fuel (next_blockno p) rest
        end
  end.

(** The list of the transaction: the one it has, a new one, or that of the greatest key
    when the map is full. *)
Definition find_freelist (when_recyclable : Z) : VM Z :=
  o ← on_avl (AvlMap.get when_recyclable);
  match o with
  | Some (_, tag) => mret tag
  | None =>
      on_full (res ← on_avl (AvlMap.insert when_recyclable tt); mret res.2)
        (handle_full_tree when_recyclable)
  end.

Definition extend_with_when_recyclable (when_recyclable : Z) (extend_with : list Z) : VM unit :=
  let when_recyclable := if is_create_index be then FirstNormalTransactionId else when_recyclable in
  match extend_with with
  | [] => mret tt
  | _ =>
      start_block ← find_freelist when_recyclable;
      _ ← extend_freelist (S (length extend_with)) start_block extend_with;
      mret tt
  end.

(** ** Draining *)

(** [while contents.len > 0 && blocks.len() < many]: the page and the blocks after it. *)
Fixpoint take_entries (room : nat) (p : AvlLeaf) (blocks : list Z) : VM (AvlLeaf * list Z) :=
  match room with
  | O => mret (p, blocks)
  | S room =>
      if 0 <? len p then
        b ← unwrap (entries p !! Z.to_nat (len p - 1));
        take_entries room (mkLeaf (len p - 1) (entries p) (next_blockno p)) (blocks ++ [b])
      else mret (p, blocks)
  end.

(** Make [next] the head of the transaction's list, if [head] still is. *)
Definition unlink_head (found_xid head next : Z) : VM bool :=
  o ← on_avl (AvlMap.get_slot_mut found_xid);
  match o with
  | Some i =>
      slot ← on_avl (AvlMap.index i);
      if AvlMap.tag slot =? head
      then on_avl (AvlMap.update i (AvlMap.put_tag next));; mret true
      else mret false
  | None => mret false
  end.

(** One transaction's list, from leaf [blockno] on. *)
Fixpoint drain_list (fuel : nat) (many : nat) (found_xid head blockno : Z) (cnt : Z) (blocks : list Z) : VM (list Z) :=
  match fuel with
  | O => out_of_fuel
  | S fuel =>
      if (length blocks <? many)%nat && negb (blockno =? InvalidBlockNumber) then
        granted ← gets (fun s => try_lock be s blockno);
        if negb granted then mret blocks
        else
          p ← get_leaf blockno;
          let next := next_blockno p in
          res ← (if (len p =? 0) && (head =? blockno) then mret (cnt, blocks, false)
                 else
                   taken ← take_entries (many - length blocks) p blocks;
                   put_leaf blockno taken.1;;
                   mret (cnt + len taken.1, taken.2,
                         (blockno =? head) && (len taken.1 =? 0) && negb (next =? InvalidBlockNumber)));
          let '(cnt, blocks, should_unlink_head) := res in
          if (should_unlink_head : bool) then
            did_update_head ← unlink_head found_xid head next;
            match did_update_head with
            | true =>
                extend_with_when_recyclable (next_full_xid be) [head];;
                drain_list fuel many found_xid next next cnt blocks
            | false => drain_list fuel many found_xid head next cnt blocks
            end
          else if (next =? InvalidBlockNumber) && (cnt =? 0) then
            _ ← on_avl (AvlMap.remove found_xid);
            mret blocks
          else drain_list fuel many found_xid head next cnt blocks
      else mret blocks
  end.

(** One round per transaction; [xid] is the greatest that is still considered. *)
Fixpoint drain_loop (fuel : nat) (many : nat) (xid : Z) (blocks : list Z) : VM (list Z) :=
  match fuel with
  | O => out_of_fuel
  | S fuel =>
      if (length blocks <? many)%nat then
        o ← on_avl (AvlMap.get_lte xid);
        match o with
        | None => mret blocks
        | Some (found_xid, _, tag) =>
            n ← gets (fun s => size (leaves s));
            blocks ← drain_list (S (n + 2 * many)) many found_xid tag tag 0 blocks;
            if (length blocks =? many)%nat then mret blocks
            else
              let xid := u64 (found_xid - 1) in
              if xid <? FirstNormalTransactionId then mret blocks else drain_loop fuel many xid blocks
        end
      else mret blocks
  end.

Definition drain (many : nat) : VM (list Z) :=
  let current_xid := Z.max (current_full_xid be) FirstNormalTransactionId in
  n ← gets (fun s => length (AvlMap.arena (avl (root s))));
  drain_loop (S (S n)) many current_xid [].

Definition pop : VM (option Z) := bs ← drain 1; mret (head bs).

(** ** Inspection *)

(** The leaf pages from block [b] on. *)
Fixpoint walk (fuel : nat) (m : gmap Z AvlLeaf) (b : Z) : list (Z * AvlLeaf) :=
  match fuel with
  | O => []
  | S fuel =>
      if b =? InvalidBlockNumber then []
      else match m !! b with Some p => (b, p) :: walk fuel m (next_blockno p) | None => [] end
  end.

Definition freelist (s : V2FSM) (tag : Z) : list (Z * AvlLeaf) := walk (S (size (leaves s))) (leaves s) tag.

Definition leaf_blocks (p : AvlLeaf) : list Z := take (Z.to_nat (len p)) (entries p).

(** [fsm_info]: transaction, leaf, tag and free block of each entry. *)
Definition fsm_info (s : V2FSM) : list (Z * Z * Z * Z) :=
  AvlMap.arena (avl (root s)) ≫= (fun slot =>
    if AvlMap.is_used slot then
      freelist s (AvlMap.tag slot) ≫= (fun bp =>
        (fun b => (u32 (AvlMap.key slot), bp.1, AvlMap.tag slot, b)) <$> leaf_blocks bp.2)
    else []).

(** [fsm_size]: the pages the manager occupies. *)
Definition fsm_size (s : V2FSM) : Z :=
  1 + Z.of_nat (length (AvlMap.arena (avl (root s)) ≫= (fun slot => freelist s (AvlMap.tag slot)))).

End ops.

End FsmV2.
