(* ===== verification/FsmV2Props.v ===== *)
(** * Correctness of the free space manager: leaf pages

    Running the manager's code, and what [extend_freelist], [take_entries] and the other
    routines on leaf pages do to a chain of leaves. *)

From stdpp Require Import prelude gmap sorting.
From Stdlib Require Import ZArith Lia.
From S2P Require Import Prelude Avl AvlRep AvlSpec AvlRefine AvlTheorems Pages FsmV2.
Import FsmV2.

Local Open Scope Z_scope.

Abbreviation chain := (chain next_blockno).
Abbreviation seg := (seg next_blockno).

(** ** Running a computation

    [vruns c s Q]: [c] returns with [Q], or stops because the relation cannot grow. *)

Section running.
Context {A : Type}.
Implicit Types (s : V2FSM) (Q : A -> V2FSM -> Prop).

Definition vruns (c : M V2FSM AvlMap.Error A) s Q : Prop := mwp (fun s' => nb s' = InvalidBlockNumber) c s Q.

Lemma vruns_ret (a : A) s Q : Q a s -> vruns (mret a) s Q.
Proof. done. Qed.

Lemma vruns_gets (f : V2FSM -> A) s Q : Q (f s) s -> vruns (gets f) s Q.
Proof. done. Qed.

Lemma vruns_mono c s Q Q' : vruns c s Q -> (forall a s', Q a s' -> Q' a s') -> vruns c s Q'.
Proof. apply mwp_mono. Qed.

Lemma vruns_eq c s a s' Q : c s = (Ok a, s') -> Q a s' -> vruns c s Q.
Proof. apply mwp_eq. Qed.

End running.

Lemma vruns_bind {A B} (c : M V2FSM AvlMap.Error A) (f : A -> M V2FSM AvlMap.Error B) s Q :
  vruns c s (fun a s' => vruns (f a) s' Q) -> vruns (c ≫= f) s Q.
Proof. apply mwp_bind. Qed.

Definition with_leaves (s : V2FSM) (m : gmap Z AvlLeaf) (n : Z) : V2FSM := mkV2 (start_blockno s) (root s) m n.

Definition with_avl (s : V2FSM) (t : AvlMut) : V2FSM :=
  mkV2 (start_blockno s) (mkRoot (kind (root s)) t) (leaves s) (nb s).

Lemma with_leaves_id s : with_leaves s (leaves s) (nb s) = s.
Proof. by destruct s. Qed.

Lemma vruns_get_leaf b p s (Q : AvlLeaf -> V2FSM -> Prop) : leaves s !! b = Some p -> Q p s -> vruns (get_leaf b) s Q.
Proof. intros Hb HQ. unfold vruns, mwp, get_leaf. by rewrite Hb. Qed.

Lemma vruns_put_leaf b p s (Q : unit -> V2FSM -> Prop) :
  Q tt (with_leaves s (<[b := p]> (leaves s)) (nb s)) -> vruns (put_leaf b p) s Q.
Proof. done. Qed.

Lemma vruns_init_new_buffer s (Q : Z -> V2FSM -> Prop) : nb s <= InvalidBlockNumber ->
  (nb s < InvalidBlockNumber -> Q (nb s) (with_leaves s (leaves s) (nb s + 1))) -> vruns init_new_buffer s Q.
Proof.
  intros Hn HQ. unfold vruns, mwp, init_new_buffer. destruct (Z.ltb_spec (nb s) InvalidBlockNumber); [by apply HQ|lia].
Qed.

Lemma vruns_init_new_page cap s (Q : Z -> V2FSM -> Prop) : nb s <= InvalidBlockNumber ->
  (nb s < InvalidBlockNumber -> Q (nb s) (with_leaves s (<[nb s := AvlLeaf_default cap]> (leaves s)) (nb s + 1))) ->
  vruns (init_new_page cap) s Q.
Proof.
  intros Hn HQ. unfold vruns, mwp, init_new_page, init_new_buffer, mbind, M_bind.
  destruct (Z.ltb_spec (nb s) InvalidBlockNumber); [by apply HQ|lia].
Qed.

Lemma vruns_on_avl {A} (c : M AvlMut AvlMap.Error A) s a t (Q : A -> V2FSM -> Prop) :
  kind (root s) = v2_avl_tree -> c (avl (root s)) = (Ok a, t) -> Q a (with_avl s t) -> vruns (on_avl c) s Q.
Proof. intros Hk E HQ. unfold vruns, mwp, on_avl. by rewrite decide_True, E. Qed.

(** A call that leaves the map as it was. *)
Lemma vruns_on_avl_ref {A} (c : M AvlMut AvlMap.Error A) s a (Q : A -> V2FSM -> Prop) :
  kind (root s) = v2_avl_tree -> c (avl (root s)) = (Ok a, avl (root s)) -> Q a s -> vruns (on_avl c) s Q.
Proof. intros Hk E HQ. eapply vruns_on_avl; [done|done|]. by destruct s as [? [] ? ?]. Qed.

(** ** Chains of leaves *)

Lemma seqZ_split n k n' : n <= k <= n' -> seqZ n (n' - n) = seqZ n (k - n) ++ seqZ k (n' - k).
Proof. intros Hk. replace (n' - n) with ((k - n) + (n' - k)) by lia. rewrite seqZ_app by lia. do 2 f_equal. lia. Qed.

Lemma seqZ_one n k : n < k -> seqZ n (k - n) = n :: seqZ (n + 1) (k - (n + 1)).
Proof. intros Hk. rewrite seqZ_cons by lia. unfold Z.succ. do 2 f_equal. lia. Qed.

Section leaves.
Variable MAX_ENTRIES : nat.
Hypothesis Hmax : (0 < MAX_ENTRIES)%nat /\ Z.of_nat MAX_ENTRIES < 2 ^ 32.

Implicit Types (p : AvlLeaf) (m : gmap Z AvlLeaf) (ch : list (Z * AvlLeaf)) (s : V2FSM) (bs : list Z).

Definition leaf_ok p : Prop := length (entries p) = MAX_ENTRIES /\ 0 <= len p <= Z.of_nat MAX_ENTRIES.

Definition leaves_ok ch : Prop := Forall (fun bp => leaf_ok bp.2) ch.

(** The free blocks recorded on a chain. *)
Definition recorded ch : list Z := ch ≫= (fun bp => leaf_blocks bp.2).

Lemma recorded_cons b p ch : recorded ((b, p) :: ch) = leaf_blocks p ++ recorded ch.
Proof. done. Qed.

Lemma recorded_app ch ch' : recorded (ch ++ ch') = recorded ch ++ recorded ch'.
Proof. apply bind_app. Qed.

Lemma leaf_default_ok : leaf_ok (AvlLeaf_default MAX_ENTRIES).
Proof. split; simpl; [apply length_replicate|lia]. Qed.

Lemma leaf_blocks_length p : leaf_ok p -> Z.of_nat (length (leaf_blocks p)) = len p.
Proof. intros [Hl Hn]. unfold leaf_blocks. rewrite length_take. lia. Qed.

Lemma leaf_blocks_push p b : leaf_ok p -> len p < Z.of_nat MAX_ENTRIES ->
  let p' := mkLeaf (u32 (len p + 1)) (<[Z.to_nat (len p) := b]> (entries p)) (next_blockno p) in
  leaf_ok p' /\ len p' = len p + 1 /\ leaf_blocks p' = leaf_blocks p ++ [b].
Proof.
  intros [Hl Hn] Hlt p'. assert (len p' = len p + 1) as El by (apply wrap_small; lia).
  split; [split; [simpl; by rewrite length_insert|lia]|]. split; [done|].
  unfold leaf_blocks. rewrite El. simpl. replace (Z.to_nat (len p + 1)) with (S (Z.to_nat (len p))) by lia.
  erewrite take_S_r; [|apply list_lookup_insert_eq; lia]. by rewrite take_insert_ge by lia.
Qed.

(** [fill] appends a prefix of the blocks; it stops only at a full page. *)
Lemma fill_spec p bs : leaf_ok p ->
  exists p' now rest, fill p bs = (p', rest) /\ leaf_ok p' /\ next_blockno p' = next_blockno p /\
    bs = now ++ rest /\ leaf_blocks p' = leaf_blocks p ++ now /\
    (rest <> [] -> len p' = Z.of_nat MAX_ENTRIES) /\
    (len p < Z.of_nat MAX_ENTRIES -> bs <> [] -> now <> []).
Proof.
  revert p. induction bs as [|b bs IH]; intros p Hp; simpl.
  { exists p, [], []. rewrite !app_nil_r. repeat split; done || apply Hp. }
  pose proof Hp as [Hl Hn]. rewrite Hl. destruct (Z.ltb_spec (len p) (Z.of_nat MAX_ENTRIES)) as [Hlt|Hge].
  - destruct (leaf_blocks_push p b Hp Hlt) as (Hp1 & _ & Eb).
    destruct (IH _ Hp1) as (p' & now & rest & E & Hp' & Hnx & -> & Eb' & Hf & _).
    exists p', (b :: now), rest. rewrite E. do 2 (split; [done|]). split; [by rewrite Hnx|]. split; [done|].
    split; [by rewrite Eb', Eb, <- app_assoc|]. by split.
  - exists p, [], (b :: bs). rewrite app_nil_r. do 5 (split; [done|]). split; [lia|lia].
Qed.

(** Whether the first page has room. *)
Definition spare ch : nat :=
  match ch with (_, p) :: _ => if len p <? Z.of_nat MAX_ENTRIES then 1 else 0 | [] => 0 end.

(** What [extend_freelist] does to the chain [ch] from block [b] on. *)
Record extended s (b : Z) ch bs (m' : gmap Z AvlLeaf) (n' : Z) (last : Z) ch' : Prop := {
  ex_chain : chain m' b ch';
  ex_ok : leaves_ok ch';
  ex_grow : nb s <= n' <= InvalidBlockNumber;
  ex_pages : ch'.*1 ≡ₚ ch.*1 ++ seqZ (nb s) (n' - nb s);
  ex_recorded : recorded ch' ≡ₚ recorded ch ++ bs;
  ex_frame : forall x, x ∉ ch.*1 -> x < nb s -> m' !! x = leaves s !! x;
  ex_last : exists w p r, ch' = w ++ (last, p) :: r /\ (tail ch = [] -> r = []);
  ex_length : (length ch' + spare ch <= length ch + length bs)%nat;
}.

Lemma chain_singleton m b p : b <> InvalidBlockNumber -> m !! b = Some p -> next_blockno p = InvalidBlockNumber ->
  chain m b [(b, p)].
Proof. intros Hb Hp Hn. split; [done|]. split; [done|]. by split. Qed.

(** The page at the end of [ch1] is linked to block [nx]. *)
Lemma seg_relink m b w lst pl r nx : chain m b (w ++ [(lst, pl)]) -> NoDup (w ++ [(lst, pl)]).*1 ->
  seg (<[lst := set_next nx pl]> m) nx r InvalidBlockNumber ->
  seg (<[lst := set_next nx pl]> m) b ((w ++ [(lst, set_next nx pl)]) ++ r) InvalidBlockNumber.
Proof.
  intros (Hw & Hl & Hp & _)%chain_mid Hnd Hr. rewrite <- app_assoc. apply seg_app. exists lst. split.
  - eapply seg_frame; [done|]. intros x Hx. rewrite lookup_insert_ne; [done|]. intros ->.
    rewrite fmap_app in Hnd. apply NoDup_app in Hnd as (_ & Hd & _). apply (Hd x Hx). left.
  - split; [done|]. split; [done|]. split; [apply lookup_insert_eq|done].
Qed.

(** A chain the routine may be called on. *)
Record extendable s (b : Z) ch : Prop := {
  xb_chain : chain (leaves s) b ch;
  xb_valid : b <> InvalidBlockNumber;
  xb_nodup : NoDup ch.*1;
  xb_ok : leaves_ok ch;
  xb_below : forall x, x ∈ ch.*1 -> x < nb s;
  xb_nb : nb s <= InvalidBlockNumber;
}.

Lemma extendable_inv s b ch : extendable s b ch ->
  exists p tl, ch = (b, p) :: tl /\ leaves s !! b = Some p /\ chain (leaves s) (next_blockno p) tl /\ leaf_ok p /\
    leaves_ok tl /\ b ∉ tl.*1 /\ NoDup tl.*1 /\ b < nb s /\ forall x, x ∈ tl.*1 -> x < nb s.
Proof.
  intros [Hc Hb Hnd Hok Hlt _]. destruct (chain_cons_inv _ _ _ _ Hc Hb) as (p & tl & -> & Hp & Ht).
  apply Forall_cons in Hok as [Hp' Hok]. apply NoDup_cons in Hnd as [Hni Hnd]. exists p, tl.
  do 7 (split; [done|]). split; [apply Hlt; left|]. intros x Hx. apply Hlt. by right.
Qed.

(** The first page takes everything. *)
Lemma extended_fill s b p p' tl bs : extendable s b ((b, p) :: tl) -> leaf_ok p' -> next_blockno p' = next_blockno p ->
  leaf_blocks p' = leaf_blocks p ++ bs -> (spare ((b, p) :: tl) <= length bs)%nat ->
  extended s b ((b, p) :: tl) bs (<[b := p']> (leaves s)) (nb s) b ((b, p') :: tl).
Proof.
  intros Hx Hp' Hnx Eb Hsp. destruct (extendable_inv _ _ _ Hx) as (p0 & tl0 & [= <- <-] & Hp & Ht & _ & Hok & Hni & _ & _ & _).
  split.
  - split; [done|]. split; [apply Hx|]. split; [apply lookup_insert_eq|]. rewrite Hnx.
    eapply seg_frame; [done|]. intros x Hx'. rewrite lookup_insert_ne; [done|]. by intros ->.
  - by constructor.
  - split; [lia|apply Hx].
  - rewrite Z.sub_diag, app_nil_r. done.
  - rewrite !recorded_cons, Eb, <- !app_assoc. apply Permutation_app_head. by rewrite Permutation_app_comm.
  - intros x Hx' _. rewrite lookup_insert_ne; [done|]. intros ->. apply Hx'. left.
  - exists [], p', tl. done.
  - simpl length. lia.
Qed.

(** The first page becomes [q]; the rest goes to the pages after it, from [b1] on. *)
Lemma extended_cons s s1 b p q tl b1 ch1 now rest m' n' lst ch' :
  extendable s b ((b, p) :: tl) -> leaf_ok q -> next_blockno q = b1 -> leaf_blocks q = leaf_blocks p ++ now ->
  (spare ((b, p) :: tl) <= length now)%nat -> (length ch1 <= length tl + spare ch1)%nat ->
  leaves s1 !! b = Some q -> nb s <= nb s1 -> ch1.*1 ≡ₚ tl.*1 ++ seqZ (nb s) (nb s1 - nb s) ->
  recorded ch1 = recorded tl -> (tl = [] -> tail ch1 = []) ->
  (forall x, x <> b -> x ∉ tl.*1 -> x < nb s -> leaves s1 !! x = leaves s !! x) ->
  extended s1 b1 ch1 rest m' n' lst ch' ->
  extended s b ((b, p) :: tl) (now ++ rest) m' n' lst ((b, q) :: ch').
Proof.
  intros Hx Hq Hnx Eb Hnow Hlen Hbq Hn Hpg Hrec Htl Hfr [Hc Hok Hg Hpg' Hrec' Hfr' (w & pl & r & -> & Hr) Hl].
  destruct (extendable_inv _ _ _ Hx) as (p0 & tl0 & [= <- <-] & _ & _ & _ & _ & Hni & _ & Hb & Htlt).
  assert (b ∉ ch1.*1) as Hb1 by (rewrite Hpg, elem_of_app, elem_of_seqZ; intros [?|?]; [done|lia]).
  split.
  - split; [done|]. split; [apply Hx|]. split; [by rewrite Hfr' by (done || lia)|]. by rewrite Hnx.
  - by constructor.
  - lia.
  - rewrite !fmap_cons. simpl. apply Permutation_skip. rewrite Hpg', Hpg, <- app_assoc. apply Permutation_app_head.
    by rewrite <- seqZ_split by lia.
  - rewrite !recorded_cons, Hrec', Hrec, Eb, <- !app_assoc. apply Permutation_app_head. solve_Permutation.
  - intros x Hx1 Hx2. rewrite fmap_cons, not_elem_of_cons in Hx1. destruct Hx1 as [Hxb Hxt].
    rewrite Hfr', Hfr; [done|done|done|done| |lia]. rewrite Hpg, elem_of_app, elem_of_seqZ. intros [?|?]; [done|lia].
  - exists ((b, q) :: w), pl, r. split; [done|]. simpl. intros ->. apply Hr. by apply Htl.
  - rewrite length_app in Hl. cbn [length] in Hl |- *. rewrite !length_app. cbn [length]. lia.
Qed.

(** A full page with a successor: a new list is put between the two. *)
Lemma extended_insert s b p tl bs m1 n1 lst w pl :
  extendable s b ((b, p) :: tl) -> len p = Z.of_nat MAX_ENTRIES ->
  extended (with_leaves s (<[nb s := AvlLeaf_default MAX_ENTRIES]> (leaves s)) (nb s + 1)) (nb s)
    [(nb s, AvlLeaf_default MAX_ENTRIES)] bs m1 n1 lst (w ++ [(lst, pl)]) ->
  extended s b ((b, p) :: tl) bs (<[b := set_next (nb s) p]> (<[lst := set_next (next_blockno p) pl]> m1)) n1 lst
    ((b, set_next (nb s) p) :: (w ++ [(lst, set_next (next_blockno p) pl)]) ++ tl).
Proof.
  intros Hx Hfull [Hc Hok Hg Hpg Hrec Hfr _ Hl]. cbn [with_leaves leaves nb] in *. set (nx := next_blockno p) in *.
  destruct (extendable_inv _ _ _ Hx) as (p0 & tl0 & [= <- <-] & Hp & Ht & Hpok & Htok & Hni & Hndt & Hb & Htlt).
  assert ((w ++ [(lst, pl)]).*1 ≡ₚ seqZ (nb s) (n1 - nb s)) as Hnew by (rewrite Hpg, (seqZ_one (nb s) n1) by lia; done).
  assert (forall x, x ∈ (w ++ [(lst, pl)]).*1 -> nb s <= x) as Hge.
  { intros x. rewrite Hnew, elem_of_seqZ. lia. }
  assert (NoDup (w ++ [(lst, pl)]).*1) as Hnd by (rewrite Hnew; apply NoDup_seqZ).
  assert (nb s <= lst) as Hlst by (apply Hge; rewrite fmap_app; set_solver).
  assert (forall x, x < nb s -> m1 !! x = leaves s !! x) as Hold.
  { intros x Hxn. rewrite Hfr by (simpl; set_solver by lia). apply lookup_insert_ne. lia. }
  set (m2 := <[lst := set_next nx pl]> m1).
  assert (seg m2 nx tl InvalidBlockNumber) as Ht2.
  { eapply seg_frame; [done|]. intros x Hxt%Htlt. unfold m2. rewrite lookup_insert_ne by lia. by apply Hold. }
  assert (recorded (w ++ [(lst, set_next nx pl)]) = recorded (w ++ [(lst, pl)])) as Hre by (by rewrite !recorded_app).
  split.
  - split; [done|]. split; [apply Hx|]. split; [apply lookup_insert_eq|]. simpl next_blockno.
    eapply seg_frame; [exact (seg_relink _ _ _ _ _ _ _ Hc Hnd Ht2)|]. intros x. rewrite !fmap_app. intros Hxin.
    rewrite lookup_insert_ne; [done|]. intros ->. apply elem_of_app in Hxin as [Hxin|Hxin]; [|done].
    rewrite fmap_app in Hge. specialize (Hge x Hxin). lia.
  - constructor; [done|]. apply Forall_app. split; [|done]. apply Forall_app in Hok as [? [Hpl _]%Forall_cons].
    apply Forall_app. split; [done|]. apply Forall_singleton. exact Hpl.
  - lia.
  - rewrite fmap_cons, fmap_app. simpl. apply Permutation_skip. rewrite Permutation_app_comm. apply Permutation_app_head.
    rewrite <- Hnew. by rewrite !fmap_app.
  - rewrite recorded_cons, recorded_app, Hre, Hrec. simpl. unfold leaf_blocks at 2. simpl.
    unfold set_next at 1, leaf_blocks at 1. simpl. fold (leaf_blocks p). rewrite <- app_assoc. apply Permutation_app_head.
    apply Permutation_app_comm.
  - intros x Hxn Hxlt. rewrite fmap_cons, not_elem_of_cons in Hxn. unfold m2. rewrite !lookup_insert_ne by (lia || naive_solver).
    by apply Hold.
  - exists ((b, set_next (nb s) p) :: w), (set_next nx pl), tl. split; [by rewrite <- app_assoc|done].
  - simpl in Hl |- *. rewrite Hfull, Z.ltb_irrefl. rewrite !length_app in *. simpl in *.
    destruct (Z.ltb_spec 0 (Z.of_nat MAX_ENTRIES)); lia.
Qed.

Lemma extendable_new s b ch : extendable s b ch -> nb s < InvalidBlockNumber -> forall m, m !! nb s = Some (AvlLeaf_default MAX_ENTRIES) ->
  extendable (with_leaves s m (nb s + 1)) (nb s) [(nb s, AvlLeaf_default MAX_ENTRIES)].
Proof.
  intros Hx Hn m Hm. split; cbn [with_leaves leaves nb].
  - by apply chain_singleton; [lia| |].
  - lia.
  - apply NoDup_singleton.
  - apply Forall_singleton, leaf_default_ok.
  - intros x ->%list_elem_of_singleton. simpl. lia.
  - lia.
Qed.

(** One round less is enough for a single page with room: no full page is met. *)
Definition slack ch : nat := match ch with [_] => spare ch | _ => 0 end.

Lemma spare_now b p tl bs (now : list Z) : (len p < Z.of_nat MAX_ENTRIES -> bs <> [] -> now <> []) -> bs <> [] ->
  (spare ((b, p) :: tl) <= length now)%nat.
Proof.
  intros Hnow Hbs. simpl. destruct (Z.ltb_spec (len p) (Z.of_nat MAX_ENTRIES)) as [Hlt|]; [|lia].
  destruct now; [by destruct (Hnow Hlt Hbs)|simpl; lia].
Qed.

Lemma spare_new b : spare [(b, AvlLeaf_default MAX_ENTRIES)] = 1%nat.
Proof. simpl. destruct (Z.ltb_spec 0 (Z.of_nat MAX_ENTRIES)); [done|lia]. Qed.

(** The page is full now, and it was the last one. *)
Lemma extended_link s b p p' now rest m' n' lst ch' :
  extendable s b [(b, p)] -> leaf_ok p' -> leaf_blocks p' = leaf_blocks p ++ now -> (spare [(b, p)] <= length now)%nat ->
  extended (with_leaves s (<[b := set_next (nb s) p']> (<[nb s := AvlLeaf_default MAX_ENTRIES]> (<[b := p']> (leaves s)))) (nb s + 1))
    (nb s) [(nb s, AvlLeaf_default MAX_ENTRIES)] rest m' n' lst ch' ->
  extended s b [(b, p)] (now ++ rest) m' n' lst ((b, set_next (nb s) p') :: ch').
Proof.
  intros Hx Hp' Eb Hsp He. eapply extended_cons; [done|done|done|done|done| | | | | | | |exact He]; cbn [with_leaves leaves nb].
  - by rewrite spare_new.
  - apply lookup_insert_eq.
  - lia.
  - simpl. by rewrite seqZ_one, Z.sub_diag by lia.
  - done.
  - done.
  - intros x Hxb _ Hxn. by rewrite !lookup_insert_ne by lia.
Qed.

Lemma extended_next s b p p' tl now rest m' n' lst ch' :
  extendable s b ((b, p) :: tl) -> leaf_ok p' -> next_blockno p' = next_blockno p ->
  leaf_blocks p' = leaf_blocks p ++ now -> (spare ((b, p) :: tl) <= length now)%nat ->
  extended (with_leaves s (<[b := p']> (leaves s)) (nb s)) (next_blockno p) tl rest m' n' lst ch' ->
  extended s b ((b, p) :: tl) (now ++ rest) m' n' lst ((b, p') :: ch').
Proof.
  intros Hx Hp' Hnx Eb Hsp He. eapply extended_cons; [done|done|done|done|done| | | | | | | |exact He]; cbn [with_leaves leaves nb].
  - lia.
  - apply lookup_insert_eq.
  - lia.
  - by rewrite Z.sub_diag, app_nil_r.
  - done.
  - by intros ->.
  - intros x Hxb _ _. by rewrite lookup_insert_ne.
Qed.

Lemma extendable_next s b p p' tl : extendable s b ((b, p) :: tl) -> next_blockno p <> InvalidBlockNumber ->
  extendable (with_leaves s (<[b := p']> (leaves s)) (nb s)) (next_blockno p) tl.
Proof.
  intros Hx Hv. destruct (extendable_inv _ _ _ Hx) as (p0 & tl0 & [= <- <-] & _ & Ht & _ & Htok & Hni & Hndt & _ & Htlt).
  split; cbn [with_leaves leaves nb]; try done; [|apply Hx].
  eapply seg_frame; [done|]. intros x Hxt. rewrite lookup_insert_ne; [done|]. by intros ->.
Qed.

Lemma extend_freelist_spec fuel s b ch bs (Q : Z -> V2FSM -> Prop) :
  extendable s b ch -> bs <> [] -> (S (length bs) <= fuel + slack ch)%nat ->
  (forall m' n' lst ch', extended s b ch bs m' n' lst ch' -> Q lst (with_leaves s m' n')) ->
  vruns (extend_freelist MAX_ENTRIES fuel b bs) s Q.
Proof.
  revert s b ch bs Q. induction fuel as [|fuel IH]; intros s b ch bs Q Hx Hbs Hf HQ.
  { exfalso. unfold slack, spare in Hf. destruct bs; [done|]. simpl in Hf. repeat case_match; lia. }
  destruct (extendable_inv _ _ _ Hx) as (p & tl & -> & Hp & Ht & Hpok & _ & _ & _ & _ & _).
  cbn [extend_freelist]. apply vruns_bind. eapply vruns_get_leaf; [done|]. rewrite (proj1 Hpok).
  destruct ((len p =? Z.of_nat MAX_ENTRIES) && negb (next_blockno p =? InvalidBlockNumber)) eqn:Efull.
  - apply andb_true_iff in Efull as [Hfull%Z.eqb_eq Hnv%negb_true_iff%Z.eqb_neq].
    apply vruns_bind, vruns_init_new_page; [apply Hx|]. intros Hn. apply vruns_bind.
    eapply IH; [by eapply extendable_new; [..|apply lookup_insert_eq]|done| |].
    { unfold slack at 1. rewrite spare_new. unfold slack, spare in Hf. rewrite Hfull, Z.ltb_irrefl in Hf. destruct tl; lia. }
    intros m1 n1 lst ch1 He. destruct (ex_last _ _ _ _ _ _ _ _ He) as (w & pl & r & -> & Hr).
    rewrite (Hr eq_refl) in *. apply vruns_bind. eapply vruns_get_leaf.
    { pose proof (ex_chain _ _ _ _ _ _ _ _ He) as Hc1. destruct (chain_mid _ _ _ _ _ _ _ Hc1) as (_ & _ & ? & _). done. }
    apply vruns_bind, vruns_put_leaf, vruns_bind, vruns_put_leaf, vruns_ret.
    eapply HQ, extended_insert; [done|done|exact He].
  - destruct (fill_spec p bs Hpok) as (p' & now & rest & -> & Hp' & Hnx & -> & Eb & Hpf & Hnow).
    pose proof (spare_now b p tl _ now Hnow Hbs) as Hsp. rewrite length_app in Hf.
    apply vruns_bind, vruns_put_leaf. destruct rest as [|x rest].
    { rewrite app_nil_r in *. apply vruns_ret. eapply HQ. by apply extended_fill. }
    rewrite Hnx. destruct (Z.eqb_spec (next_blockno p) InvalidBlockNumber) as [Hnv|Hnv].
    + rewrite Hnv in Ht. destruct tl as [|[b1 p1] tl]; [|by destruct Ht as (_ & ? & _)].
      apply vruns_bind, vruns_init_new_page; [apply Hx|]. cbn [with_leaves nb leaves]. intros Hn.
      apply vruns_bind, vruns_put_leaf.
      eapply IH; [eapply (extendable_new s); [done|done|]|done|unfold slack in *; rewrite spare_new; lia|].
      { rewrite lookup_insert_ne; [apply lookup_insert_eq|]. destruct (extendable_inv _ _ _ Hx) as (? & ? & _ & _ & _ & _ & _ & _ & _ & ? & _). lia. }
      intros m' n' lst ch' He. by eapply HQ, extended_link.
    + eapply IH; [by apply extendable_next|done| |].
      { rewrite andb_true_r in Efull. apply Z.eqb_neq in Efull. destruct Hpok as [_ Hpn].
        assert (now <> []) as Hn0 by (apply Hnow; [lia|done]). destruct now; [done|]. simpl in Hf |- *.
        destruct tl as [|[b1 p1] tl]; [by destruct Ht|]. lia. }
      intros m' n' lst ch' He. by eapply HQ, extended_next.
Qed.

End leaves.
