(* ===== verification/FsmV2Tree.v ===== *)
(** * Correctness of the free space manager: the root page

    The calls of the AVL map that the manager makes, with their effect on the pairs of
    transaction id and tag that are in use and on the tags that are not. *)

From stdpp Require Import prelude gmap sorting.
From Stdlib Require Import ZArith Lia.
From S2P Require Import Prelude Avl AvlRep AvlSpec AvlRefine AvlTheorems Pages FsmV2 FsmV2Props.
Import FsmV2.

Local Open Scope Z_scope.

Abbreviation tree_abs := (avl_abs Z unit Z).

Implicit Types (a : tree_abs) (s : V2FSM).

(** The transaction ids in use, each with its tag. *)
Definition keyed a : list (Z * Z) := (fun e => (e.1, e.2.2)) <$> a_entries a.

Definition all_tags a : list Z := (keyed a).*2 ++ a_free a.

Lemma elem_of_keyed a k tg : (k, tg) ∈ keyed a <-> (k, (tt, tg)) ∈ a_entries a.
Proof.
  unfold keyed. rewrite list_elem_of_fmap. split; [intros ([k' [[] tg']] & [= -> ->] & ?); done|].
  intros ?. by exists (k, (tt, tg)).
Qed.

Lemma keyed_keys a : (keyed a).*1 = (a_entries a).*1.
Proof. unfold keyed. by rewrite <- list_fmap_compose. Qed.

Lemma keyed_tags a : (keyed a).*2 = (a_entries a).*2.*2.
Proof. unfold keyed. by rewrite <- !list_fmap_compose. Qed.

Lemma all_tags_arena m a : models m a -> all_tags a ≡ₚ AvlMap.tag <$> AvlMap.arena m.
Proof. intros Hm. unfold all_tags. rewrite keyed_tags. by apply models_tags. Qed.

Lemma sorted_keys_nodup (es : list (Z * (unit * Z))) : sorted es -> NoDup es.*1.
Proof.
  unfold sorted. generalize (es.*1). induction l as [|k l IH]; [constructor|].
  intros [Hs Hall]%StronglySorted_inv. constructor; [|by apply IH]. rewrite Forall_forall in Hall.
  intros Hk. by apply (klt_irrefl k), Hall.
Qed.

Lemma keyed_nodup m a : models m a -> NoDup (keyed a).*1.
Proof. intros Hm. rewrite keyed_keys. by eapply sorted_keys_nodup, models_sorted. Qed.

Lemma keyed_fun m a k tg tg' : models m a -> (k, tg) ∈ keyed a -> (k, tg') ∈ keyed a -> tg = tg'.
Proof.
  intros Hm%models_sorted H1%elem_of_keyed H2%elem_of_keyed.
  apply (al_get_elem _ _ _ _ Hm) in H1. apply (al_get_elem _ _ _ _ Hm) in H2. congruence.
Qed.

Lemma abs_get_keyed m a k : models m a ->
  match abs_get k a with
  | Some (_, tg) => (k, tg) ∈ keyed a
  | None => k ∉ (keyed a).*1
  end.
Proof.
  intros Hm. pose proof (models_sorted _ _ Hm) as Hs. unfold abs_get. destruct (al_get k (a_entries a)) as [[[] tg]|] eqn:E.
  - apply elem_of_keyed. by apply al_get_Some_elem.
  - rewrite keyed_keys. intros ([k' [[] tg]] & -> & Hin)%list_elem_of_fmap.
    apply (al_get_elem _ _ _ _ Hs) in Hin. simpl in E. congruence.
Qed.

(** ** The specification's insertion and removal, up to order *)

Lemma al_insert_new k tg (es : list (Z * (unit * Z))) : al_get k es = None -> al_insert k tt tg es ≡ₚ (k, (tt, tg)) :: es.
Proof.
  induction es as [|[k1 [[] tg1]] es IH]; simpl; [done|]. destruct (Z.compare k k1); [done|done|].
  intros E. rewrite IH by done. apply Permutation_swap.
Qed.

Lemma al_remove_present k x (es : list (Z * (unit * Z))) : al_get k es = Some x -> es ≡ₚ (k, x) :: al_remove k es.
Proof.
  induction es as [|[k1 x1] es IH]; simpl; [done|]. destruct (Z.compare_spec k k1) as [->| |]; [by intros [= ->]| |].
  - intros E. rewrite IH at 1 by done. apply Permutation_swap.
  - intros E. rewrite IH at 1 by done. apply Permutation_swap.
Qed.

Lemma keyed_perm es es' f f' : es ≡ₚ es' -> keyed (mkAbs es f) ≡ₚ keyed (mkAbs es' f').
Proof. unfold keyed. simpl. by intros ->. Qed.

Lemma keyed_app xs k tg ys f : keyed (mkAbs (xs ++ (k, (tt, tg)) :: ys) f) ≡ₚ (k, tg) :: keyed (mkAbs (xs ++ ys) f).
Proof. unfold keyed. simpl. rewrite !fmap_app, fmap_cons. simpl. by rewrite Permutation_middle. Qed.

(** ** The calls *)

(** [s] is a manager whose root page implements [a]. *)
Definition rooted s a : Prop := kind (root s) = v2_avl_tree /\ models (avl (root s)) a.

Lemma vruns_get s a k (Q : option (unit * Z) -> V2FSM -> Prop) : rooted s a ->
  (forall tg, (k, tg) ∈ keyed a -> Q (Some (tt, tg)) s) -> (k ∉ (keyed a).*1 -> Q None s) ->
  vruns (on_avl (AvlMap.get k)) s Q.
Proof.
  intros [Hk Hm] H1 H2. eapply vruns_on_avl_ref; [done|by apply get_models|].
  pose proof (abs_get_keyed _ _ k Hm) as Hg. destruct (abs_get k a) as [[[] tg]|]; auto.
Qed.

(** The greatest key at most [k]. *)
Lemma vruns_get_lte s a k (Q : option (Z * unit * Z) -> V2FSM -> Prop) : rooted s a ->
  (forall k' tg, (k', tg) ∈ keyed a -> k' <= k -> (forall x, x ∈ (keyed a).*1 -> x <= k -> x <= k') -> Q (Some (k', tt, tg)) s) ->
  ((forall x, x ∈ (keyed a).*1 -> k < x) -> Q None s) ->
  vruns (on_avl (AvlMap.get_lte k)) s Q.
Proof.
  intros [Hk Hm] H1 H2. eapply vruns_on_avl_ref; [done|by apply get_lte_models|]. rewrite keyed_keys in *.
  unfold abs_lte. destruct (al_lte k (a_entries a)) as [[[k' []] tg]|] eqn:E.
  - destruct (al_lte_Some _ _ _ _ _ (models_sorted _ _ Hm) E) as (Hin & Hle & Hmx). apply H1.
    + by apply elem_of_keyed.
    + by apply Z.compare_le_iff.
    + intros x (e & -> & He)%list_elem_of_fmap Hx. apply Z.compare_le_iff, Hmx; [done|]. by apply Z.compare_le_iff.
  - apply H2. intros x (e & -> & He)%list_elem_of_fmap. apply Z.compare_lt_iff. by apply (proj1 (al_lte_None k (a_entries a)) E).
Qed.

(** A new key takes a tag from the pool; without one the map is full and unchanged. *)
Lemma vruns_insert s a k (h : M V2FSM AvlMap.Error Z) (Q : Z -> V2FSM -> Prop) : rooted s a -> k ∉ (keyed a).*1 ->
  (forall t a' tg, rooted (with_avl s t) a' -> keyed a' ≡ₚ (k, tg) :: keyed a -> a_free a = tg :: a_free a' -> Q tg (with_avl s t)) ->
  (a_free a = [] -> vruns h s Q) ->
  vruns (on_full (res ← on_avl (AvlMap.insert k tt); mret res.2) h) s Q.
Proof.
  intros [Hk Hm] Hni H1 H2. destruct (insert_models _ _ k tt Hm) as (t & E & Hm' & _ & Hfull).
  pose proof (abs_get_keyed _ _ k Hm) as Hg. unfold vruns, mwp, on_full, on_avl, mbind, M_bind. rewrite decide_True by done.
  rewrite E. unfold abs_insert in *. unfold abs_get in Hg. destruct (al_get k (a_entries a)) as [[[] tg]|] eqn:Eg.
  { exfalso. apply Hni. by apply (list_elem_of_fmap_2 fst) in Hg. }
  destruct (a_free a) as [|tg fr] eqn:Ef; cbn in *.
  - rewrite (Hfull eq_refl). destruct s as [st [kd av] lv n]. by apply H2.
  - eapply H1; [by split|by apply (keyed_perm _ ((k, (tt, tg)) :: a_entries a) fr (a_free a)), al_insert_new|done].
Qed.

(** The entry of a key goes, its tag returns to the pool. *)
Lemma vruns_remove s a k (Q : option unit -> V2FSM -> Prop) : rooted s a ->
  (forall t a' tg r, rooted (with_avl s t) a' -> keyed a ≡ₚ (k, tg) :: keyed a' -> a_free a' = tg :: a_free a -> Q r (with_avl s t)) ->
  (forall t, k ∉ (keyed a).*1 -> rooted (with_avl s t) a -> Q None (with_avl s t)) ->
  vruns (on_avl (AvlMap.remove k)) s Q.
Proof.
  intros [Hk Hm] H1 H2. destruct (remove_models _ _ k Hm) as (t & E & Hm' & _).
  pose proof (abs_get_keyed _ _ k Hm) as Hg. unfold abs_remove in *. unfold abs_get in Hg.
  destruct (al_get k (a_entries a)) as [[[] tg]|] eqn:Eg; (eapply vruns_on_avl; [done|exact E|]).
  - eapply H1; [by split| |done]. rewrite <- (keyed_perm _ _ (a_free a) (tg :: a_free a) (al_remove_present _ _ _ Eg)). by destruct a.
  - by apply H2.
Qed.

(** [tree.get_slot_mut(&k)], [slot.tag == head], [slot.tag = next] *)
Lemma vruns_unlink_head s a k head next (Q : bool -> V2FSM -> Prop) : rooted s a ->
  (forall t a' rest, rooted (with_avl s t) a' -> keyed a ≡ₚ (k, head) :: rest -> keyed a' ≡ₚ (k, next) :: rest ->
     a_free a' = a_free a -> Q true (with_avl s t)) ->
  ((k, head) ∉ keyed a -> Q false s) ->
  vruns (unlink_head k head next) s Q.
Proof.
  intros [Hk Hm] H1 H2. unfold unlink_head. destruct (get_slot_mut_slot _ _ k Hm) as (o & E & Ho).
  apply vruns_bind. eapply vruns_on_avl_ref; [done|done|]. destruct o as [i|].
  2:{ apply vruns_ret, H2. pose proof (abs_get_keyed _ _ k Hm) as Hg. rewrite Ho in Hg. intros Hin. apply Hg.
      by apply (list_elem_of_fmap_2 fst) in Hin. }
  destruct Ho as ([] & tg & xs & ys & Hi). destruct (in_slot_lookup _ _ _ _ _ _ _ _ Hi) as (sl & Hs & _ & _ & Ht).
  pose proof (in_slot_entries _ _ _ _ _ _ Hi) as Ee.
  assert (keyed a ≡ₚ (k, tg) :: keyed (mkAbs (xs ++ ys) (a_free a))) as Ek.
  { rewrite <- keyed_app. unfold keyed. by rewrite Ee. }
  apply vruns_bind. eapply vruns_on_avl_ref; [done|by apply index_ok|]. rewrite Ht.
  destruct (Z.eqb_spec tg head) as [->|Hne].
  - destruct (put_tag_models _ _ _ _ _ _ _ _ next Hi) as (t & Eu & Hm'). apply vruns_bind.
    eapply vruns_on_avl; [done|done|]. apply vruns_ret. eapply H1; [by split|done|apply keyed_app|done].
  - apply vruns_ret, H2. intros Hin. apply Hne. eapply keyed_fun; [done| |done]. rewrite Ek. left.
Qed.

(** [handle_full_tree]: the entry of the greatest key [k], moved to a later transaction if
    need be. *)
Lemma vruns_handle_full_tree s a w (Q : Z -> V2FSM -> Prop) : rooted s a -> keyed a <> [] ->
  (forall t a' k tg rest, rooted (with_avl s t) a' -> keyed a ≡ₚ (k, tg) :: rest -> keyed a' ≡ₚ (Z.max k w, tg) :: rest ->
     a_free a' = a_free a -> Q tg (with_avl s t)) ->
  vruns (handle_full_tree w) s Q.
Proof.
  intros [Hk Hm] Hne HQ. unfold handle_full_tree. destruct (get_max_slot_slot _ _ Hm) as (o & E & Ho).
  apply vruns_bind. eapply vruns_on_avl_ref; [done|done|]. destruct o as [i|].
  2:{ exfalso. apply Hne. unfold keyed. by rewrite Ho. }
  destruct Ho as (k & [] & tg & xs & Hi). destruct (in_slot_lookup _ _ _ _ _ _ _ _ Hi) as (sl & Hs & Hkey & _ & Ht).
  pose proof (in_slot_entries _ _ _ _ _ _ Hi) as Ee.
  assert (keyed a ≡ₚ (k, tg) :: keyed (mkAbs xs (a_free a))) as Ek.
  { rewrite <- (app_nil_r xs), <- keyed_app. unfold keyed. by rewrite Ee. }
  apply vruns_bind, vruns_ret, vruns_bind. eapply vruns_on_avl_ref; [done|by apply index_ok|]. rewrite Hkey, Ht.
  apply vruns_bind. destruct (Z.gtb_spec w k) as [Hgt|Hle].
  - destruct (put_key_models _ _ _ _ _ _ _ w Hi) as (t & Eu & Hm'); [by apply Z.compare_lt_iff|].
    eapply vruns_on_avl; [done|done|]. apply vruns_ret. eapply HQ; [by split|done| |done].
    rewrite Z.max_r by lia. by rewrite keyed_app, app_nil_r.
  - apply vruns_ret, vruns_ret. assert (s = with_avl s (avl (root s))) as Es by (by destruct s as [? [] ? ?]).
    rewrite Es. eapply HQ; [by rewrite <- Es|done| |done]. by rewrite Z.max_l by lia.
Qed.

(** ** The list a transaction's blocks go to *)

(** The list headed at [tg] is found for transaction [w], between [a] and [a']. *)
Inductive found a (w : Z) : Z -> tree_abs -> Prop :=
| found_old tg : (w, tg) ∈ keyed a -> found a w tg a
| found_new a' tg : w ∉ (keyed a).*1 -> keyed a' ≡ₚ (w, tg) :: keyed a -> a_free a = tg :: a_free a' -> found a w tg a'
| found_full a' k tg rest : w ∉ (keyed a).*1 -> keyed a ≡ₚ (k, tg) :: rest -> keyed a' ≡ₚ (Z.max k w, tg) :: rest ->
    a_free a = [] -> a_free a' = [] -> found a w tg a'.

Lemma vruns_find_freelist s a w (Q : Z -> V2FSM -> Prop) : rooted s a -> all_tags a <> [] ->
  (forall t a' tg, rooted (with_avl s t) a' -> found a w tg a' -> Q tg (with_avl s t)) ->
  vruns (find_freelist w) s Q.
Proof.
  intros Hr Hne HQ. unfold find_freelist. apply vruns_bind. eapply vruns_get; [done| |].
  - intros tg Hin. apply vruns_ret. assert (s = with_avl s (avl (root s))) as Es by (by destruct s as [? [] ? ?]).
    rewrite Es. apply (HQ _ a); [by rewrite <- Es|by constructor].
  - intros Hni. eapply vruns_insert; [done|done| |].
    + intros t a' tg Hr' Hk Hf. eapply HQ; [done|]. by apply found_new.
    + intros Hf. eapply vruns_handle_full_tree; [done| |].
      { intros Hk. apply Hne. unfold all_tags. by rewrite Hk, Hf. }
      intros t a' k tg rest Hr' Hk Hk' Hf'. eapply HQ; [done|]. eapply found_full; [done|done|done|done|congruence].
Qed.

Section found.
Variables (a a' : tree_abs) (w tg : Z).
Hypothesis Hf : found a w tg a'.

Lemma found_tags : all_tags a' ≡ₚ all_tags a.
Proof.
  unfold all_tags. destruct Hf as [tg0 _|a' tg0 _ Hk Hfr|a' k tg0 rest _ Hk Hk' Hf1 Hf2]; [done| |].
  - rewrite Hk, Hfr, fmap_cons. simpl. apply Permutation_middle.
  - by rewrite Hk, Hk', Hf1, Hf2.
Qed.

(** Its key is not before [w], and [w] itself unless the map was full. *)
Lemma found_key : exists k, (k, tg) ∈ keyed a' /\ w <= k /\ (k = w \/ a_free a = []).
Proof.
  destruct Hf as [tg0 ?|a' tg0 _ Hk Hfr|a' k tg0 rest _ Hk Hk' Hf1 Hf2].
  - exists w. split; [done|]. split; [lia|by left].
  - exists w. split; [rewrite Hk; left|]. split; [lia|by left].
  - exists (Z.max k w). split; [rewrite Hk'; left|]. split; [lia|by right].
Qed.

(** No list moves to an earlier transaction, and none moves unless the map was full. *)
Lemma found_later k tg' : (k, tg') ∈ keyed a -> exists k', k <= k' /\ (k', tg') ∈ keyed a' /\ (k' = k \/ a_free a = []).
Proof.
  intros Hin. destruct Hf as [tg0 ?|a' tg0 _ Hk Hfr|a' k0 tg0 rest _ Hk Hk' Hf1 Hf2].
  - exists k. split; [lia|]. auto.
  - exists k. split; [lia|]. split; [rewrite Hk; by right|by left].
  - rewrite Hk in Hin. apply elem_of_cons in Hin as [[= -> ->]|Hin].
    + exists (Z.max k0 w). split; [lia|]. split; [rewrite Hk'; left|by right].
    + exists k. split; [lia|]. split; [rewrite Hk'; by right|by left].
Qed.

(** A key that is new is [w]. *)
Lemma found_keys m k tg' : models m a -> (k, tg') ∈ keyed a' -> (k, tg') ∈ keyed a \/ (k = w /\ k ∉ (keyed a).*1 /\ tg' = tg).
Proof.
  intros Hm. destruct Hf as [tg0 ?|a' tg0 Hni Hk Hfr|a' k0 tg0 rest Hni Hk Hk' Hf1 Hf2]; [by left| |].
  - rewrite Hk. intros [[= -> ->]|?]%elem_of_cons; [by right|by left].
  - rewrite Hk'. intros [[= -> ->]|?]%elem_of_cons; [|left; rewrite Hk; by right].
    destruct (Z.max_spec k0 w) as [[_ ->]|[_ ->]]; [by right|left; rewrite Hk; left].
Qed.

Lemma found_free tg' : tg' ∈ a_free a' -> tg' ∈ a_free a.
Proof.
  destruct Hf as [tg0 _|a' tg0 _ Hk ->|a' k tg0 rest _ Hk Hk' -> ->]; [done|intros ?; by right|done].
Qed.

(** The list is in use, and not one of those that stay free. *)
Lemma found_used : tg ∈ (keyed a').*2.
Proof.
  destruct found_key as (k & Hin & _). by apply (list_elem_of_fmap_2 snd) in Hin.
Qed.

End found.
