(* ===== verification/FsmV2Inv.v ===== *)
(** * Correctness of the free space manager: the invariant

    Every tag of the root page heads a chain of leaves; the chains, the blocks recorded on
    them and the root page are all different blocks of the relation.  Extension adds the
    given blocks and new pages to this footprint and nothing is lost. *)

From stdpp Require Import prelude gmap sorting.
From Stdlib Require Import ZArith Lia.
From S2P Require Import Prelude Avl AvlRep AvlSpec AvlRefine AvlTheorems Pages FsmV2 FsmV2Props FsmV2Tree.
Import FsmV2.

Local Open Scope Z_scope.

(** The chain of leaves of each tag. *)
Abbreviation freelists := (Z -> list (Z * AvlLeaf)).

Definition upd (F : freelists) (tg : Z) (ch : list (Z * AvlLeaf)) : freelists :=
  fun x => if decide (x = tg) then ch else F x.

Section inv.
Variable MAX_ENTRIES : nat.

Abbreviation leaves_ok := (leaves_ok MAX_ENTRIES).
Abbreviation leaf_ok := (leaf_ok MAX_ENTRIES).
Abbreviation extended := (extended MAX_ENTRIES).
Implicit Types (a : tree_abs) (s : V2FSM) (F : freelists) (ch : list (Z * AvlLeaf)) (bs : list Z).

(** Pages and recorded blocks of a chain, of all chains, of the manager. *)
Definition chain_foot ch : list Z := ch.*1 ++ recorded ch.

Definition tags_foot (tgs : list Z) F : list Z := tgs ≫= (fun tg => chain_foot (F tg)).

Definition foot s a F : list Z := start_blockno s :: tags_foot (all_tags a) F.

Record inv s a F : Prop := {
  iv_root : rooted s a;
  iv_slots : all_tags a <> [];
  iv_list : forall tg, tg ∈ all_tags a -> chain (leaves s) tg (F tg) /\ tg <> InvalidBlockNumber /\ leaves_ok (F tg);
  iv_nodup : NoDup (foot s a F);
  iv_range : forall x, x ∈ foot s a F -> 0 < x < nb s;
  iv_nb : 0 < nb s <= InvalidBlockNumber;
  iv_free : forall tg, tg ∈ a_free a -> recorded (F tg) = [];
  iv_keys : forall k, k ∈ (keyed a).*1 -> normal_xid k;
}.

(** Block [b] is free from transaction [k] on. *)
Definition free_at a F (k b : Z) : Prop := exists tg, (k, tg) ∈ keyed a /\ b ∈ recorded (F tg).

(** ** Footprints *)

Lemma upd_eq F tg ch : upd F tg ch tg = ch.
Proof. unfold upd. by rewrite decide_True. Qed.

Lemma upd_ne F tg ch x : x <> tg -> upd F tg ch x = F x.
Proof. intros. unfold upd. by rewrite decide_False. Qed.

Lemma tags_foot_perm tgs tgs' F : tgs ≡ₚ tgs' -> tags_foot tgs F ≡ₚ tags_foot tgs' F.
Proof. unfold tags_foot. by intros ->. Qed.

Lemma tags_foot_cons tg tgs F : tags_foot (tg :: tgs) F = chain_foot (F tg) ++ tags_foot tgs F.
Proof. done. Qed.

Lemma tags_foot_upd tgs F tg ch : tg ∉ tgs -> tags_foot tgs (upd F tg ch) = tags_foot tgs F.
Proof.
  induction tgs as [|x tgs IH]; [done|]. intros [Hne Hni]%not_elem_of_cons. rewrite !tags_foot_cons, IH by done.
  by rewrite upd_ne by congruence.
Qed.

Lemma chain_foot_page ch x : x ∈ ch.*1 -> x ∈ chain_foot ch.
Proof. unfold chain_foot. rewrite elem_of_app. by left. Qed.

Lemma elem_of_tags_foot tgs F x : x ∈ tags_foot tgs F <-> exists tg, tg ∈ tgs /\ x ∈ chain_foot (F tg).
Proof. unfold tags_foot. rewrite list_elem_of_bind. naive_solver. Qed.

Section facts.
Variables (s : V2FSM) (a : tree_abs) (F : freelists).
Hypothesis Hinv : inv s a F.

Lemma inv_chain_head tg : tg ∈ all_tags a -> tg ∈ (F tg).*1.
Proof.
  intros Htg. destruct (iv_list _ _ _ Hinv tg Htg) as (Hc & Hv & _).
  destruct (chain_cons_inv _ _ _ _ Hc Hv) as (p & ch & -> & _). left.
Qed.

Lemma inv_tags_nodup : NoDup (all_tags a).
Proof.
  pose proof (iv_nodup _ _ _ Hinv) as Hnd. apply NoDup_cons in Hnd as [_ Hnd].
  pose proof inv_chain_head as Hh. revert Hnd Hh. generalize (all_tags a) as tgs.
  induction tgs as [|tg tgs IH]; intros Hnd Hh; [constructor|]. rewrite tags_foot_cons in Hnd.
  apply NoDup_app in Hnd as (_ & Hd & Hnd). constructor; [|apply IH; [done|set_solver]].
  intros Hin. apply (Hd tg); [apply chain_foot_page, Hh; left|]. apply elem_of_tags_foot. exists tg.
  split; [done|]. apply chain_foot_page, Hh. left.
Qed.

Lemma inv_used_not_free tg : tg ∈ (keyed a).*2 -> tg ∉ a_free a.
Proof. pose proof inv_tags_nodup as (_ & Hd & _)%NoDup_app. apply Hd. Qed.

(** The footprint, with the chain of [tg] first. *)
Lemma inv_split tg : tg ∈ all_tags a ->
  exists rest, all_tags a ≡ₚ tg :: rest /\ tg ∉ rest /\ foot s a F ≡ₚ start_blockno s :: chain_foot (F tg) ++ tags_foot rest F.
Proof.
  intros [rest Hp]%elem_of_Permutation. exists rest. split; [done|]. split.
  - pose proof inv_tags_nodup as Hnd. rewrite Hp in Hnd. by apply NoDup_cons in Hnd as [? _].
  - unfold foot. apply Permutation_skip. by rewrite (tags_foot_perm _ _ _ Hp).
Qed.

(** Two chains have nothing in common. *)
Lemma inv_chain_disjoint tg tg' x : tg ∈ all_tags a -> tg' ∈ all_tags a -> tg <> tg' ->
  x ∈ chain_foot (F tg) -> x ∉ chain_foot (F tg').
Proof.
  intros Htg Htg' Hne Hx Hx'. destruct (inv_split tg Htg) as (rest & Hp & Hni & Hf).
  pose proof (iv_nodup _ _ _ Hinv) as Hnd. rewrite Hf in Hnd. apply NoDup_cons in Hnd as [_ (_ & Hd & _)%NoDup_app].
  apply (Hd x Hx). apply elem_of_tags_foot. exists tg'. split; [|done]. rewrite Hp in Htg'. set_solver.
Qed.

Lemma inv_in_foot tg x : tg ∈ all_tags a -> x ∈ chain_foot (F tg) -> x ∈ foot s a F.
Proof. intros Htg Hx. right. apply elem_of_tags_foot. by exists tg. Qed.

Lemma inv_chain_nodup tg : tg ∈ all_tags a -> NoDup (chain_foot (F tg)).
Proof.
  intros Htg. destruct (inv_split tg Htg) as (rest & _ & _ & Hf). pose proof (iv_nodup _ _ _ Hinv) as Hnd.
  rewrite Hf in Hnd. by apply NoDup_cons in Hnd as [_ (? & _)%NoDup_app].
Qed.

Lemma inv_extendable tg : tg ∈ all_tags a -> extendable MAX_ENTRIES s tg (F tg).
Proof.
  intros Htg. destruct (iv_list _ _ _ Hinv tg Htg) as (Hc & Hv & Hok). split; try done.
  - by pose proof (inv_chain_nodup tg Htg) as (? & _)%NoDup_app.
  - intros x Hx. apply (iv_range _ _ _ Hinv), (inv_in_foot tg); [done|by apply chain_foot_page].
  - apply (iv_nb _ _ _ Hinv).
Qed.

(** A tag that is a page of a chain is that chain's head. *)
Lemma inv_tag_page tg tg' : tg ∈ all_tags a -> tg' ∈ all_tags a -> tg' ∈ (F tg).*1 -> tg' = tg.
Proof.
  intros Htg Htg' Hx. destruct (decide (tg' = tg)) as [|Hne]; [done|]. exfalso.
  eapply (inv_chain_disjoint tg' tg tg'); [done|done|done|by apply chain_foot_page, inv_chain_head|by apply chain_foot_page].
Qed.

End facts.

(** ** Changes of the state that keep the invariant *)

(** One chain and its pages change; blocks [add] join the footprint and blocks [del] leave. *)
Lemma inv_change s a F tg m' n' ch' (add del : list Z) : inv s a F -> tg ∈ all_tags a ->
  chain m' tg ch' -> leaves_ok ch' -> nb s <= n' <= InvalidBlockNumber ->
  (forall x, x ∉ (F tg).*1 -> x < nb s -> m' !! x = leaves s !! x) ->
  chain_foot ch' ++ del ≡ₚ chain_foot (F tg) ++ add -> NoDup add ->
  (forall x, x ∈ add -> 0 < x < n' /\ x ∉ foot s a F) -> (tg ∈ a_free a -> recorded ch' = []) ->
  inv (with_leaves s m' n') a (upd F tg ch') /\ foot (with_leaves s m' n') a (upd F tg ch') ++ del ≡ₚ foot s a F ++ add.
Proof.
  intros Hinv Htg Hc Hok Hn Hfr Hcf Hadd Hfresh Hfree.
  destruct (inv_split _ _ _ Hinv tg Htg) as (rest & Hp & Hni & Hf).
  assert (foot (with_leaves s m' n') a (upd F tg ch') ++ del ≡ₚ foot s a F ++ add) as Hperm.
  { rewrite Hf. unfold foot. rewrite (tags_foot_perm _ _ _ Hp), tags_foot_cons, upd_eq, tags_foot_upd by done. simpl.
    apply Permutation_skip. transitivity ((chain_foot ch' ++ del) ++ tags_foot rest F); [solve_Permutation|].
    rewrite Hcf. solve_Permutation. }
  split; [|done].
  assert (NoDup (foot (with_leaves s m' n') a (upd F tg ch') ++ del)) as Hnd.
  { rewrite Hperm. apply NoDup_app. split; [apply (iv_nodup _ _ _ Hinv)|]. split; [|done].
    intros x Hx Hx'. by apply (Hfresh x Hx'). }
  split; cbn [with_leaves leaves nb root start_blockno].
  - apply (iv_root _ _ _ Hinv).
  - apply (iv_slots _ _ _ Hinv).
  - intros tg' Htg'. destruct (decide (tg' = tg)) as [->|Hne].
    + rewrite upd_eq. split; [done|]. split; [apply (iv_list _ _ _ Hinv tg Htg)|done].
    + rewrite upd_ne by done. destruct (iv_list _ _ _ Hinv tg' Htg') as (Hc' & Hv & Hok'). split; [|done].
      eapply seg_frame; [done|]. intros x Hx. apply Hfr.
      * intros Hx'. eapply (inv_chain_disjoint _ _ _ Hinv tg' tg x); [done|done|done|by apply chain_foot_page..].
      * apply (iv_range _ _ _ Hinv). eapply (inv_in_foot s a F tg'); [done|by apply chain_foot_page].
  - by apply NoDup_app in Hnd as (? & _).
  - intros x Hx. assert (x ∈ foot s a F ++ add) as Hx' by (rewrite <- Hperm, elem_of_app; by left).
    apply elem_of_app in Hx' as [Hx'|Hx']; [pose proof (iv_range _ _ _ Hinv x Hx'); lia|by apply Hfresh].
  - pose proof (iv_nb _ _ _ Hinv). lia.
  - intros tg' Htg'. destruct (decide (tg' = tg)) as [->|Hne]; [rewrite upd_eq; auto|].
    rewrite upd_ne by done. by apply (iv_free _ _ _ Hinv).
  - apply (iv_keys _ _ _ Hinv).
Qed.

(** The root page changes, with the same tags. *)
Lemma inv_retag s a F t a' : inv s a F -> rooted (with_avl s t) a' -> all_tags a' ≡ₚ all_tags a ->
  (forall tg, tg ∈ a_free a' -> recorded (F tg) = []) -> (forall k, k ∈ (keyed a').*1 -> normal_xid k) ->
  inv (with_avl s t) a' F /\ foot (with_avl s t) a' F ≡ₚ foot s a F.
Proof.
  intros Hinv Hr Hp Hfree Hkeys.
  assert (foot (with_avl s t) a' F ≡ₚ foot s a F) as Hf.
  { unfold foot. simpl. apply Permutation_skip. by apply tags_foot_perm. }
  split; [|done]. split; cbn [with_avl leaves nb start_blockno]; try done.
  - intros Hnil. apply (iv_slots _ _ _ Hinv). apply Permutation_nil. by rewrite <- Hnil, Hp.
  - intros tg. rewrite Hp. apply (iv_list _ _ _ Hinv).
  - rewrite Hf. apply (iv_nodup _ _ _ Hinv).
  - intros x. rewrite Hf. apply (iv_range _ _ _ Hinv).
  - apply (iv_nb _ _ _ Hinv).
Qed.

(** ** Extension *)

Section extend.
Hypothesis Hmax : (0 < MAX_ENTRIES)%nat /\ Z.of_nat MAX_ENTRIES < 2 ^ 32.
Variable be : backend.

(** The transaction the blocks are recorded for. *)
Definition recorded_xid (w : Z) : Z := if is_create_index be then FirstNormalTransactionId else w.

Lemma recorded_xid_normal w : normal_xid w -> normal_xid (recorded_xid w).
Proof. unfold recorded_xid, normal_xid. destruct (is_create_index be); lia. Qed.

(** How the lists change when blocks [bs] are recorded for transaction [w]. *)
Definition grown a F w bs a' F' : Prop :=
  exists tg ch, found a w tg a' /\ F' = upd F tg ch /\ recorded ch ≡ₚ recorded (F tg) ++ bs /\
    (length ch <= length (F tg) + length bs)%nat.

Lemma chain_foot_extended s tg ch bs m' n' lst ch' : extended s tg ch bs m' n' lst ch' ->
  chain_foot ch' ++ [] ≡ₚ chain_foot ch ++ bs ++ seqZ (nb s) (n' - nb s).
Proof.
  intros He. unfold chain_foot. rewrite (ex_pages _ _ _ _ _ _ _ _ _ He), (ex_recorded _ _ _ _ _ _ _ _ _ He).
  solve_Permutation.
Qed.

Lemma extend_spec w bs s a F (Q : unit -> V2FSM -> Prop) : inv s a F -> normal_xid w -> NoDup bs ->
  (forall x, x ∈ bs -> 0 < x < nb s /\ x ∉ foot s a F) ->
  (forall s' a' F', inv s' a' F' -> nb s <= nb s' -> foot s' a' F' ≡ₚ foot s a F ++ bs ++ seqZ (nb s) (nb s' - nb s) ->
     (bs = [] /\ s' = s) \/ grown a F (recorded_xid w) bs a' F' -> Q tt s') ->
  vruns (extend_with_when_recyclable MAX_ENTRIES be w bs) s Q.
Proof.
  intros Hinv Hw%recorded_xid_normal Hnd Hfresh HQ. unfold extend_with_when_recyclable. fold (recorded_xid w).
  destruct (decide (bs = [])) as [->|Hbs].
  { apply vruns_ret. apply (HQ s a F); [done|lia|by rewrite Z.sub_diag, app_nil_r|by left]. }
  destruct bs as [|b0 bs0] eqn:Ebs; [done|]. rewrite <- Ebs in *. clear b0 bs0 Ebs.
  apply vruns_bind. eapply vruns_find_freelist; [apply (iv_root _ _ _ Hinv)|apply (iv_slots _ _ _ Hinv)|].
  intros t a' tg Hr' Hfd. destruct (inv_retag s a F t a' Hinv Hr' (found_tags _ _ _ _ Hfd)) as [Hinv' Hf'].
  { intros tg' Htg'. apply (iv_free _ _ _ Hinv). by eapply found_free. }
  { intros k ([k' tg'] & -> & Hin)%list_elem_of_fmap. simpl.
    destruct (found_keys _ _ _ _ Hfd _ k' tg' (proj2 (iv_root _ _ _ Hinv)) Hin) as [Hin'|(-> & _ & _)]; [|done].
    apply (iv_keys _ _ _ Hinv). by apply (list_elem_of_fmap_2 fst) in Hin'. }
  assert (tg ∈ all_tags a') as Htg by (apply elem_of_app; left; by eapply found_used).
  apply vruns_bind. eapply extend_freelist_spec; [done|by eapply inv_extendable|done|lia|].
  intros m' n' lst ch' He. apply vruns_ret. pose proof (ex_grow _ _ _ _ _ _ _ _ _ He) as Hg. cbn [with_avl nb] in Hg.
  destruct (inv_change _ _ _ tg m' n' ch' (bs ++ seqZ (nb s) (n' - nb s)) [] Hinv' Htg) as [Hinv'' Hf''].
  - apply (ex_chain _ _ _ _ _ _ _ _ _ He).
  - apply (ex_ok _ _ _ _ _ _ _ _ _ He).
  - done.
  - apply (ex_frame _ _ _ _ _ _ _ _ _ He).
  - apply (chain_foot_extended _ _ _ _ _ _ _ _ He).
  - apply NoDup_app. split; [done|]. split; [|apply NoDup_seqZ]. intros x Hx. rewrite elem_of_seqZ.
    destruct (Hfresh x Hx). lia.
  - intros x. rewrite Hf'. intros [Hx|Hx]%elem_of_app; [destruct (Hfresh x Hx); split; [lia|done]|].
    rewrite elem_of_seqZ in Hx. pose proof (iv_nb _ _ _ Hinv). split; [lia|]. intros Hx'.
    apply (iv_range _ _ _ Hinv) in Hx'. lia.
  - intros Hx. exfalso. by eapply (inv_used_not_free _ _ _ Hinv' tg), Hx; eapply found_used.
  - rewrite app_nil_r, Hf' in Hf''. eapply HQ; [exact Hinv''|simpl; lia|exact Hf''|]. right. exists tg, ch'.
    split; [done|]. split; [done|]. split; [apply (ex_recorded _ _ _ _ _ _ _ _ _ He)|].
    pose proof (ex_length _ _ _ _ _ _ _ _ _ He). lia.
Qed.

End extend.

End inv.
