(* ===== verification/FsmV2Drain.v ===== *)
(** * Correctness of the free space manager: draining

    The steps by which [drain] takes blocks from a list, unlinks its head and removes an
    exhausted transaction, and the loop over the pages of one list. *)

From stdpp Require Import prelude gmap sorting.
From Stdlib Require Import ZArith Lia.
From S2P Require Import Prelude Avl AvlRep AvlSpec AvlRefine AvlTheorems Pages FsmV2 FsmV2Props FsmV2Tree FsmV2Inv.
Import FsmV2.

Local Open Scope Z_scope.

Section drain.
Variable MAX_ENTRIES : nat.
Hypothesis Hmax : (0 < MAX_ENTRIES)%nat /\ Z.of_nat MAX_ENTRIES < 2 ^ 32.
Variable be : backend.
Hypothesis Hnext : normal_xid (next_full_xid be).

Abbreviation leaf_ok := (leaf_ok MAX_ENTRIES).
Abbreviation leaves_ok := (leaves_ok MAX_ENTRIES).
Abbreviation inv := (inv MAX_ENTRIES).
Implicit Types (a : tree_abs) (s : V2FSM) (F : freelists) (ch pre suf : list (Z * AvlLeaf)) (blocks : list Z) (p : AvlLeaf).

(** The transaction for which unlinked pages are recorded. *)
Definition next_xid : Z := recorded_xid be (next_full_xid be).

(** The map has room for that transaction. *)
Definition roomy a : Prop := a_free a <> [] \/ next_xid ∈ (keyed a).*1.

(** ** Taking blocks from a page *)

Lemma leaf_blocks_pop p b : leaf_ok p -> 0 < len p -> entries p !! Z.to_nat (len p - 1) = Some b ->
  leaf_blocks p = leaf_blocks (mkLeaf (len p - 1) (entries p) (next_blockno p)) ++ [b].
Proof.
  intros [Hl Hn] Hp Hb. unfold leaf_blocks. simpl. replace (Z.to_nat (len p)) with (S (Z.to_nat (len p - 1))) by lia.
  by apply take_S_r.
Qed.

Lemma take_entries_spec room p blocks s (Q : AvlLeaf * list Z -> V2FSM -> Prop) : leaf_ok p ->
  (forall p' got, leaf_ok p' -> next_blockno p' = next_blockno p -> leaf_blocks p = leaf_blocks p' ++ reverse got ->
     length got = Nat.min room (Z.to_nat (len p)) -> len p' = len p - Z.of_nat (length got) -> Q (p', blocks ++ got) s) ->
  vruns (take_entries room p blocks) s Q.
Proof.
  revert p blocks. induction room as [|room IH]; intros p blocks Hp HQ; cbn [take_entries].
  { apply vruns_ret. rewrite <- (app_nil_r blocks). apply HQ; try done; [by rewrite app_nil_r|simpl; lia]. }
  pose proof Hp as [Hl Hn]. destruct (Z.ltb_spec 0 (len p)) as [Hpos|Hz].
  - destruct (lookup_lt_is_Some_2 (entries p) (Z.to_nat (len p - 1))) as [b Hb]; [lia|]. rewrite Hb.
    apply vruns_bind, vruns_ret. set (p1 := mkLeaf _ _ _). apply IH; [split; [done|subst p1; cbn; lia]|].
    intros p' got Hp' Hnx Eb Hlen Hl'. subst p1. cbn [len] in Hlen, Hl'. rewrite <- app_assoc.
    apply (HQ p' (b :: got)); [done|done| |cbn [length]; lia|cbn [length]; lia].
    by rewrite (leaf_blocks_pop p b Hp Hpos Hb), Eb, <- app_assoc, reverse_cons.
  - apply vruns_ret. rewrite <- (app_nil_r blocks). apply HQ; try done; [by rewrite app_nil_r|cbn [length]; lia|cbn [length]; lia].
Qed.

(** ** A list that is being drained

    [F tg] is the list, [suf] what is left of it; it belongs to transaction [k] if that is
    still in the map. *)

Definition link suf : Z := match suf with (b, _) :: _ => b | [] => InvalidBlockNumber end.

Record draining s a F (k tg : Z) pre suf : Prop := {
  dn_inv : inv s a F;
  dn_tag : tg ∈ all_tags a;
  dn_list : F tg = pre ++ suf;
  dn_own : forall tg', (k, tg') ∈ keyed a -> tg' = tg;
}.

(** Nothing interferes with the list: the tree has room, and pages that are unlinked are
    recorded for another transaction. *)
Definition undisturbed a (k tg : Z) : Prop := roomy a /\ next_xid <> k /\ (k, tg) ∈ keyed a.

(** From one point of the loop to a later one. *)
Record step s a F (k tg : Z) pre suf blocks s1 a1 F1 (tg1 : Z) pre1 suf1 blocks1 : Prop := {
  sp_nb : nb s <= nb s1;
  sp_foot : foot s1 a1 F1 ++ blocks1 ≡ₚ foot s a F ++ blocks ++ seqZ (nb s) (nb s1 - nb s);
  sp_more : (length blocks <= length blocks1)%nat /\ forall b, b ∈ blocks -> b ∈ blocks1;
  sp_keys : forall x, x ∈ (keyed a1).*1 -> x ∈ (keyed a).*1 \/ x = next_xid;
  sp_calm : undisturbed a k tg -> undisturbed a1 k tg1 /\
    (forall x b, x <> next_xid -> free_at a1 F1 x b -> free_at a F x b) /\
    (forall x b, free_at a F x b -> free_at a1 F1 x b \/ b ∈ blocks1) /\
    (forall b, b ∈ blocks1 -> b ∈ blocks \/ b ∈ recorded suf) /\
    (forall b, b ∈ recorded suf1 -> b ∈ recorded suf);
}.

(** To the end of the list, with at most [many] blocks. *)
Record drained (many : nat) s a F (k tg : Z) pre suf blocks s' a' F' blocks' : Prop := {
  dr_inv : inv s' a' F';
  dr_nb : nb s <= nb s';
  dr_foot : foot s' a' F' ++ blocks' ≡ₚ foot s a F ++ blocks ++ seqZ (nb s) (nb s' - nb s);
  dr_many : (length blocks <= length blocks' <= many)%nat;
  dr_sub : forall b, b ∈ blocks -> b ∈ blocks';
  dr_keys : forall x, x ∈ (keyed a').*1 -> x ∈ (keyed a).*1 \/ x = next_xid;
  dr_calm : undisturbed a k tg -> roomy a' /\
    (forall x b, x <> next_xid -> free_at a' F' x b -> free_at a F x b) /\
    (forall x b, free_at a F x b -> free_at a' F' x b \/ b ∈ blocks') /\
    (forall b, b ∈ blocks' -> b ∈ blocks \/ b ∈ recorded suf);
  dr_all : undisturbed a k tg -> (forall s b, try_lock be s b = true) -> (length blocks' < many)%nat ->
    recorded pre = [] -> forall b, ~ free_at a' F' k b;
}.

Lemma drained_step many s a F k tg pre suf blocks s1 a1 F1 tg1 pre1 suf1 blocks1 s' a' F' blocks' :
  step s a F k tg pre suf blocks s1 a1 F1 tg1 pre1 suf1 blocks1 ->
  ((length blocks' < many)%nat -> recorded pre = [] -> recorded pre1 = []) ->
  drained many s1 a1 F1 k tg1 pre1 suf1 blocks1 s' a' F' blocks' ->
  drained many s a F k tg pre suf blocks s' a' F' blocks'.
Proof.
  intros [Hnb Hf [Hmo Hsb] Hk Hc] Hpre [Hi Hnb' Hf' Hm Hsb' Hk' Hc' Ha]. split; [done|lia| |lia|auto| | |].
  - rewrite Hf', app_assoc, Hf, (seqZ_split (nb s) (nb s1) (nb s')) by lia. by rewrite !app_assoc.
  - intros x [Hx| ->]%Hk'; [by apply Hk|by right].
  - intros Hu. destruct (Hc Hu) as (Hu1 & Hfa & Hkp & Hb & Hr). destruct (Hc' Hu1) as (? & Hfa' & Hkp' & Hb').
    split; [done|]. split; [naive_solver|]. split; [intros x b [Hx|Hx]%Hkp; auto|]. intros b [?|?]%Hb'; auto.
  - intros Hu Hl Hlt Hp. apply Ha; [by apply Hc|done|done|auto].
Qed.

Lemma drained_here many s a F k tg pre suf blocks : draining s a F k tg pre suf -> (length blocks <= many)%nat ->
  ((forall s b, try_lock be s b = true) -> (length blocks < many)%nat -> suf = []) ->
  drained many s a F k tg pre suf blocks s a F blocks.
Proof.
  intros [Hi Htg Hl Ho] Hlen Hend. split; [done|lia|by rewrite Z.sub_diag, app_nil_r|lia|done|by left| |].
  - intros [? _]. split; [done|]. split; [auto|]. split; by left.
  - intros (_ & _ & _) Hlk Hlt Hp b (tg' & Hin & Hb). rewrite (Ho tg' Hin), Hl, (Hend Hlk Hlt), app_nil_r, Hp in Hb.
    by apply elem_of_nil in Hb.
Qed.

(** *** The page at the front of [suf] *)

Lemma draining_page s a F k tg pre b p suf : draining s a F k tg pre ((b, p) :: suf) ->
  leaves s !! b = Some p /\ b <> InvalidBlockNumber /\ next_blockno p = link suf /\ leaf_ok p /\ leaves_ok suf /\ leaves_ok pre.
Proof.
  intros [Hi Htg Hl _]. destruct (iv_list _ _ _ _ Hi tg Htg) as (Hc & _ & Hok). rewrite Hl in Hc, Hok.
  destruct (chain_mid _ _ _ _ _ _ _ Hc) as (_ & Hv & Hp & Hs). apply Forall_app in Hok as [Hpre [Hpok Hok]%Forall_cons].
  split; [done|]. split; [done|]. split; [|done]. by destruct suf as [|[b' p'] suf]; [|destruct Hs].
Qed.

Lemma draining_advance s a F k tg pre b p suf blocks : draining s a F k tg pre ((b, p) :: suf) ->
  draining s a F k tg (pre ++ [(b, p)]) suf /\
  step s a F k tg pre ((b, p) :: suf) blocks s a F tg (pre ++ [(b, p)]) suf blocks.
Proof.
  intros [Hi Htg Hl Ho]. split; [split; try done; by rewrite Hl, <- app_assoc|].
  split; [lia|by rewrite Z.sub_diag, app_nil_r|done|by left|]. intros Hu. split; [done|]. split; [auto|]. do 2 (split; [by left|]).
  intros x Hx. rewrite recorded_cons. apply elem_of_app. by right.
Qed.

Lemma recorded_mid pre b p suf : recorded (pre ++ (b, p) :: suf) = recorded pre ++ leaf_blocks p ++ recorded suf.
Proof. by rewrite recorded_app, recorded_cons. Qed.

(** Blocks [got] are taken from the page. *)
Lemma draining_take s a F k tg pre b p p' suf blocks got : draining s a F k tg pre ((b, p) :: suf) ->
  leaf_ok p' -> next_blockno p' = next_blockno p -> leaf_blocks p = leaf_blocks p' ++ reverse got ->
  let s1 := with_leaves s (<[b := p']> (leaves s)) (nb s) in
  let F1 := upd F tg (pre ++ (b, p') :: suf) in
  draining s1 a F1 k tg pre ((b, p') :: suf) /\
  step s a F k tg pre ((b, p) :: suf) blocks s1 a F1 tg pre ((b, p') :: suf) (blocks ++ got).
Proof.
  intros Hd Hp' Hnx Eb s1 F1. destruct (draining_page _ _ _ _ _ _ _ _ _ Hd) as (Hb & Hv & _ & Hpok & Hsok & Hpre).
  pose proof Hd as [Hi Htg Hl Ho]. destruct (iv_list _ _ _ _ Hi tg Htg) as (Hc & _ & _). rewrite Hl in Hc.
  pose proof (inv_chain_nodup _ _ _ _ Hi tg Htg) as Hnd. unfold chain_foot in Hnd. rewrite Hl in Hnd.
  apply NoDup_app in Hnd as (Hnd & _ & _).
  destruct (inv_change _ s a F tg (<[b := p']> (leaves s)) (nb s) (pre ++ (b, p') :: suf) [] got Hi Htg) as [Hi1 Hf1].
  - by eapply chain_update.
  - apply Forall_app. split; [done|]. by constructor.
  - split; [lia|apply (iv_nb _ _ _ _ Hi)].
  - intros x Hx _. apply lookup_insert_ne. intros ->. apply Hx. rewrite Hl, fmap_app. apply elem_of_app. right. left.
  - rewrite Hl. unfold chain_foot. rewrite !fmap_app, !recorded_mid, Eb, app_nil_r. simpl.
    rewrite (reverse_Permutation got). solve_Permutation.
  - constructor.
  - by intros x ?%elem_of_nil.
  - intros Hfr. apply (iv_free _ _ _ _ Hi) in Hfr. rewrite Hl, recorded_mid, Eb in Hfr. rewrite recorded_mid.
    apply app_eq_nil in Hfr as [-> [[-> _]%app_eq_nil ->]%app_eq_nil]. done.
  - rewrite app_nil_r in Hf1. split.
    + split; [done|done|by unfold F1; rewrite upd_eq|done].
    + split; [simpl; lia| |split; [rewrite length_app; lia|set_solver]|by left|].
      * unfold s1, F1. simpl nb. rewrite Z.sub_diag, app_nil_r. rewrite <- Hf1. solve_Permutation.
      * assert (forall x, x ∈ leaf_blocks p' -> x ∈ leaf_blocks p) as Hsub by (intros x; rewrite Eb; set_solver).
        intros Hu. split; [done|]. split; [|split; [|split]].
        -- intros x y _ (tg' & Hin & Hy). exists tg'. split; [done|]. unfold F1 in Hy.
           destruct (decide (tg' = tg)) as [->|Hne]; [|by rewrite upd_ne in Hy].
           rewrite upd_eq, recorded_mid in Hy. rewrite Hl, recorded_mid. rewrite !elem_of_app in *. naive_solver.
        -- intros x y (tg' & Hin & Hy). destruct (decide (tg' = tg)) as [->|Hne].
           ++ rewrite Hl, recorded_mid, Eb, !elem_of_app, elem_of_reverse in Hy. destruct (decide (y ∈ got)); [right; set_solver|left].
              exists tg. split; [done|]. unfold F1. rewrite upd_eq, recorded_mid, !elem_of_app. naive_solver.
           ++ left. exists tg'. split; [done|]. unfold F1. by rewrite upd_ne.
        -- intros x [Hx|Hx]%elem_of_app; [by left|right]. rewrite recorded_cons, Eb. set_solver.
        -- intros x. rewrite !recorded_cons, !elem_of_app. naive_solver.
Qed.

(** *** Unlinking an empty head *)

Lemma inv_unlink s a F t a' k head nx p suf rest : inv s a F -> rooted (with_avl s t) a' ->
  keyed a ≡ₚ (k, head) :: rest -> keyed a' ≡ₚ (k, nx) :: rest -> a_free a' = a_free a ->
  F head = (head, p) :: suf -> leaf_blocks p = [] -> next_blockno p = nx -> nx <> InvalidBlockNumber ->
  inv (with_avl s t) a' (upd F nx suf) /\ head :: foot (with_avl s t) a' (upd F nx suf) ≡ₚ foot s a F.
Proof.
  intros Hi Hr Hk Hk' Hfr Hl Hp Hnx Hv. set (R := rest.*2 ++ a_free a).
  assert (all_tags a ≡ₚ head :: R) as Ha by (unfold all_tags; by rewrite Hk).
  assert (all_tags a' ≡ₚ nx :: R) as Ha' by (unfold all_tags; by rewrite Hk', Hfr).
  assert (head ∈ all_tags a) as Hh by (rewrite Ha; left).
  destruct (iv_list _ _ _ _ Hi head Hh) as (Hc & _ & Hok). rewrite Hl in Hc, Hok.
  destruct Hc as (_ & _ & _ & Hc). rewrite Hnx in Hc. apply Forall_cons in Hok as [_ Hok].
  pose proof (inv_chain_nodup _ _ _ _ Hi head Hh) as Hnd. rewrite Hl in Hnd. unfold chain_foot in Hnd.
  apply NoDup_app in Hnd as ([Hhs _]%NoDup_cons & _ & _).
  destruct (chain_cons_inv _ _ _ _ Hc Hv) as (p1 & suf1 & Es & _).
  assert (nx ∈ suf.*1) as Hns by (rewrite Es; left).
  assert (nx ∉ R) as HnR.
  { intros HR. assert (nx = head) as ->; [|done]. eapply (inv_tag_page _ _ _ _ Hi head nx); [done|rewrite Ha; by right|].
    rewrite Hl. by right. }
  assert (head :: foot (with_avl s t) a' (upd F nx suf) ≡ₚ foot s a F) as Hf.
  { unfold foot. simpl. rewrite (tags_foot_perm _ _ _ Ha'), (tags_foot_perm _ _ _ Ha), !tags_foot_cons, upd_eq, tags_foot_upd by done.
    rewrite Hl. unfold chain_foot. rewrite recorded_cons, Hp. simpl. apply Permutation_swap. }
  split; [|done]. pose proof (iv_nodup _ _ _ _ Hi) as HN. rewrite <- Hf in HN. apply NoDup_cons in HN as [_ HN].
  split; cbn [with_avl leaves nb start_blockno]; try done.
  - intros Hnil. rewrite Hnil in Ha'. by apply Permutation_nil_cons in Ha'.
  - intros tg. rewrite Ha'. intros [->|HR]%elem_of_cons; [by rewrite upd_eq|].
    rewrite upd_ne by (by intros ->). apply (iv_list _ _ _ _ Hi). rewrite Ha. by right.
  - intros x Hx. apply (iv_range _ _ _ _ Hi). rewrite <- Hf. by right.
  - apply (iv_nb _ _ _ _ Hi).
  - intros tg. rewrite Hfr. intros Hin. rewrite upd_ne; [by apply (iv_free _ _ _ _ Hi)|]. intros ->. apply HnR.
    apply elem_of_app. by right.
  - intros x. rewrite Hk'. intros Hx. apply (iv_keys _ _ _ _ Hi). by rewrite Hk.
Qed.

(** The page of the transaction's own tag is the first. *)
Lemma draining_head s a F k tg pre b p suf : draining s a F k tg pre ((b, p) :: suf) -> (k, b) ∈ keyed a ->
  tg = b /\ pre = [] /\ F b = (b, p) :: suf.
Proof.
  intros [Hi Htg Hl Ho] Hin. pose proof (Ho b Hin) as <-. destruct (iv_list _ _ _ _ Hi b Htg) as (Hc & _ & _).
  pose proof (inv_chain_nodup _ _ _ _ Hi b Htg) as Hnd. unfold chain_foot in Hnd. rewrite Hl in Hc, Hnd.
  apply NoDup_app in Hnd as (Hnd & _ & _). destruct pre as [|[b0 p0] pre]; [done|]. destruct Hc as (<- & _).
  exfalso. rewrite fmap_app in Hnd. apply NoDup_app in Hnd as (_ & Hd & _). apply (Hd b); left.
Qed.

Lemma found_room a a' tg : found a next_xid tg a' -> roomy a ->
  (next_xid, tg) ∈ keyed a' /\ (forall k tg', (k, tg') ∈ keyed a -> (k, tg') ∈ keyed a').
Proof.
  intros Hfd Hr. destruct Hfd as [tg Hin|a' tg Hni Hk Hf|a' k tg rest Hni _ _ Hf _].
  - split; [done|auto].
  - split; [rewrite Hk; left|]. intros k tg' Hin. rewrite Hk. by right.
  - destruct Hr; done.
Qed.

Lemma keyed_tag_inj s a F k k' tg : inv s a F -> (k, tg) ∈ keyed a -> (k', tg) ∈ keyed a -> k = k'.
Proof.
  intros Hi. pose proof (inv_tags_nodup _ _ _ _ Hi) as (Hnd & _ & _)%NoDup_app. revert Hnd.
  generalize (keyed a). induction l as [|[k0 tg0] l IH]; [by intros _ ?%elem_of_nil|]. simpl.
  intros [Hni Hnd]%NoDup_cons [[= -> ->]|H1]%elem_of_cons [[= ->]|H2]%elem_of_cons; try done.
  - by apply (list_elem_of_fmap_2 snd) in H2.
  - subst. by apply (list_elem_of_fmap_2 snd) in H1.
  - by apply IH.
Qed.

(** The head is unlinked and recorded as a free block. *)
Lemma draining_unlink s a F k tg pre b p suf blocks t a1 rest s2 a2 F2 :
  draining s a F k tg pre ((b, p) :: suf) -> leaf_blocks p = [] -> link suf <> InvalidBlockNumber ->
  rooted (with_avl s t) a1 -> keyed a ≡ₚ (k, b) :: rest -> keyed a1 ≡ₚ (k, link suf) :: rest -> a_free a1 = a_free a ->
  inv s2 a2 F2 -> nb s <= nb s2 ->
  foot s2 a2 F2 ≡ₚ foot (with_avl s t) a1 (upd F (link suf) suf) ++ [b] ++ seqZ (nb s) (nb s2 - nb s) ->
  grown a1 (upd F (link suf) suf) next_xid [b] a2 F2 ->
  draining s2 a2 F2 k (link suf) [] (F2 (link suf)) /\ (length (F2 (link suf)) <= S (length suf))%nat /\
  step s a F k tg pre ((b, p) :: suf) blocks s2 a2 F2 (link suf) [] (F2 (link suf)) blocks.
Proof.
  intros Hd Hp Hv Hr1 Hk Hk1 Hfr1 Hi2 Hnb Hf2 (tge & ch & Hfd & -> & Hrec & Hlen).
  set (nx := link suf) in *. set (F1 := upd F nx suf) in *.
  destruct (draining_head _ _ _ _ _ _ _ _ _ Hd) as (-> & -> & Hl); [rewrite Hk; left|].
  destruct (draining_page _ _ _ _ _ _ _ _ _ Hd) as (_ & _ & Hnx & _). fold nx in Hnx.
  destruct (inv_unlink _ _ _ _ _ _ _ nx _ _ _ (dn_inv _ _ _ _ _ _ _ Hd) Hr1 Hk Hk1 Hfr1 Hl Hp Hnx Hv) as [Hi1 Hf1].
  fold F1 in Hi1, Hf1. assert ((k, nx) ∈ keyed a1) as Hin1 by (rewrite Hk1; left).
  assert (nx ∈ all_tags a2) as Htg2.
  { rewrite (found_tags _ _ _ _ Hfd). apply elem_of_app. left. by apply (list_elem_of_fmap_2 snd) in Hin1. }
  assert ((keyed a1).*1 ≡ₚ (keyed a).*1) as Hkeys by (by rewrite Hk, Hk1).
  assert (F1 nx = suf) as EF1 by apply upd_eq.
  assert (forall x tg', (x, tg') ∈ rest -> tg' <> nx) as Hrest.
  { intros x tg' Hin ->. pose proof (inv_tags_nodup _ _ _ _ Hi1) as (HN & _ & _)%NoDup_app.
    rewrite Hk1 in HN. apply NoDup_cons in HN as [HN _]. apply HN. by apply (list_elem_of_fmap_2 snd) in Hin. }
  split; [split; try done; intros tg' Hin|split].
  - destruct (found_keys _ _ _ _ Hfd _ k tg' (proj2 Hr1) Hin) as [Hin'|(_ & Hni & _)]; [by eapply keyed_fun; [apply Hr1|..]|].
    exfalso. apply Hni. by apply (list_elem_of_fmap_2 fst) in Hin1.
  - destruct (decide (nx = tge)) as [<-|Hne]; [rewrite upd_eq; rewrite EF1 in Hlen; simpl in Hlen; lia|].
    rewrite upd_ne, EF1 by done. lia.
  - split; [done| |done| |].
    + rewrite Hf2, <- Hf1. solve_Permutation.
    + intros x ([k' tg'] & -> & Hin)%list_elem_of_fmap. simpl. rewrite <- Hkeys.
      destruct (found_keys _ _ _ _ Hfd _ k' tg' (proj2 Hr1) Hin) as [Hin'|(-> & _ & _)]; [left|by right].
      by apply (list_elem_of_fmap_2 fst) in Hin'.
    + intros (Hroom & Hne & _). assert (roomy a1) as Hroom1 by (unfold roomy; by rewrite Hfr1, Hkeys).
      destruct (found_room _ _ _ Hfd Hroom1) as [Hge Hsame].
      assert (nx <> tge) as Hnt.
      { intros ->. apply Hne. eapply keyed_tag_inj; [exact Hi2|exact Hge|by apply Hsame]. }
      assert (upd F1 tge ch nx = suf) as -> by (by rewrite upd_ne).
      split; [split; [right; by apply (list_elem_of_fmap_2 fst) in Hge|by split; [|apply Hsame]]|].
      split; [|split; [|split; [by left|intros x; by rewrite recorded_cons, Hp]]].
      2:{ intros x y (tg' & Hin & Hy). left. rewrite Hk in Hin. apply elem_of_cons in Hin as [[= -> ->]|Hin].
          - exists nx. split; [by apply Hsame|]. rewrite Hl, recorded_cons, Hp in Hy. by rewrite upd_ne, EF1.
          - assert ((x, tg') ∈ keyed a1) as Hin1' by (rewrite Hk1; by right).
            assert (y ∈ recorded (F1 tg')) as Hy1.
            { unfold F1. rewrite upd_ne; [done|]. by eapply Hrest. }
            exists tg'. split; [by apply Hsame|]. destruct (decide (tg' = tge)) as [->|Hte]; [|by rewrite upd_ne].
            rewrite upd_eq, Hrec. apply elem_of_app. by left. }
      intros x y Hx (tg' & Hin & Hy).
      destruct (found_keys _ _ _ _ Hfd _ x tg' (proj2 Hr1) Hin) as [Hin'|(-> & _ & _)]; [|done].
      assert (tg' <> tge) by (intros ->; apply Hx; eapply keyed_tag_inj; [exact Hi2|exact Hin|exact Hge]).
      rewrite upd_ne in Hy by done. rewrite Hk1 in Hin'. apply elem_of_cons in Hin' as [[= -> ->]|Hin'].
      * exists b. split; [rewrite Hk; left|]. rewrite EF1 in Hy. by rewrite Hl, recorded_cons, Hp.
      * exists tg'. split; [rewrite Hk; by right|]. unfold F1 in Hy. rewrite upd_ne in Hy; [done|]. by eapply Hrest.
Qed.

(** *** Removing the transaction of an empty list *)

Lemma drained_remove many s a F k tg pre suf blocks (Q : option unit -> V2FSM -> Prop) :
  draining s a F k tg pre suf -> recorded (F tg) = [] -> (length blocks <= many)%nat ->
  (forall o s' a', drained many s a F k tg pre suf blocks s' a' F blocks -> Q o s') ->
  vruns (on_avl (AvlMap.remove k)) s Q.
Proof.
  intros [Hi Htg Hl Ho] Hrec Hlen HQ. eapply vruns_remove; [apply (iv_root _ _ _ _ Hi)| |].
  - intros t a' tg0 o Hr Hk Hf. assert (tg0 = tg) as -> by (apply Ho; rewrite Hk; left).
    assert (forall x, x ∈ (keyed a').*1 -> x ∈ (keyed a).*1) as Hsub by (intros x; rewrite Hk; by right).
    destruct (inv_retag _ s a F t a' Hi Hr) as [Hi' Hf'].
    + unfold all_tags. rewrite Hk, Hf. simpl. symmetry. apply Permutation_middle.
    + rewrite Hf. intros tg' [->|?]%elem_of_cons; [done|by apply (iv_free _ _ _ _ Hi)].
    + intros x Hx. apply (iv_keys _ _ _ _ Hi). auto.
    + apply (HQ o _ a'). split; [done|simpl; lia| |lia|done|auto| |].
      * simpl nb. by rewrite Z.sub_diag, app_nil_r, Hf'.
      * intros _. split; [left; by rewrite Hf|]. split; [|split; [|by left]].
        -- intros x b _ (tg' & Hin & Hb). exists tg'. split; [|done]. rewrite Hk. by right.
        -- intros x b (tg' & Hin & Hb). left. rewrite Hk in Hin. apply elem_of_cons in Hin as [[= -> ->]|Hin]; [|by exists tg'].
           rewrite Hrec in Hb. by apply elem_of_nil in Hb.
      * intros _ _ _ _ b (tg' & Hin & _). pose proof (keyed_nodup _ _ (proj2 (iv_root _ _ _ _ Hi))) as Hnd.
        rewrite Hk in Hnd. apply NoDup_cons in Hnd as [Hnd _]. apply Hnd. by apply (list_elem_of_fmap_2 fst) in Hin.
  - intros t Hni Hr. destruct (inv_retag _ s a F t a Hi Hr) as [Hi' Hf']; [done|apply (iv_free _ _ _ _ Hi)|apply (iv_keys _ _ _ _ Hi)|].
    apply (HQ None _ a). split; [done|simpl; lia| |lia|done|by left| |].
    + simpl nb. by rewrite Z.sub_diag, app_nil_r, Hf'.
    + intros [? _]. split; [done|]. split; [auto|]. split; by left.
    + intros (_ & _ & Hin). by apply (list_elem_of_fmap_2 fst) in Hin.
Qed.

(** ** The loop over one list *)

Section loop.
Variables (fuel many : nat) (k : Z).

(** What the loop does with [fuel] rounds. *)
Definition loop_ok : Prop := forall head cnt blocks s a F tg pre suf (Q : list Z -> V2FSM -> Prop),
  draining s a F k tg pre suf -> 0 <= cnt -> (cnt = 0 -> recorded pre = []) -> (length blocks <= many)%nat ->
  (2 * (many - length blocks) + length suf < fuel)%nat ->
  (forall s' a' F' blocks', drained many s a F k tg pre suf blocks s' a' F' blocks' -> Q blocks' s') ->
  vruns (drain_list MAX_ENTRIES be fuel many k head (link suf) cnt blocks) s Q.

Hypothesis IH : loop_ok.

(** On to the next page. *)
Lemma loop_advance head cnt blocks s a F tg pre b p suf (Q : list Z -> V2FSM -> Prop) :
  draining s a F k tg pre ((b, p) :: suf) -> 0 <= cnt -> (cnt = 0 -> recorded (pre ++ [(b, p)]) = []) ->
  (length blocks <= many)%nat -> ((length blocks < many)%nat -> leaf_blocks p = []) ->
  (2 * (many - length blocks) + length suf < fuel)%nat ->
  (forall s' a' F' blocks', drained many s a F k tg pre ((b, p) :: suf) blocks s' a' F' blocks' -> Q blocks' s') ->
  vruns (drain_list MAX_ENTRIES be fuel many k head (link suf) cnt blocks) s Q.
Proof.
  intros Hd Hc Hc0 Hlen Hemp Hf HQ. destruct (draining_advance _ _ _ _ _ _ _ _ _ blocks Hd) as [Hd1 Hs1].
  eapply IH; [done|done|done|done|done|]. intros s' a' F' blocks' Hdr. apply (HQ s' a' F').
  eapply drained_step; [done| |done]. intros Hlt Hp. pose proof (dr_many _ _ _ _ _ _ _ _ _ _ _ _ _ Hdr).
  rewrite recorded_app, Hp. simpl. rewrite Hemp by lia. done.
Qed.

(** The rest of a round, once the blocks of the page have been taken. *)
Lemma loop_rest head (unlink : bool) cnt blocks s a F tg pre b p suf (Q : list Z -> V2FSM -> Prop) :
  draining s a F k tg pre ((b, p) :: suf) -> 0 <= cnt -> (cnt = 0 -> recorded (pre ++ [(b, p)]) = []) ->
  (length blocks <= many)%nat -> ((length blocks < many)%nat -> leaf_blocks p = []) ->
  (unlink = true -> b = head /\ leaf_blocks p = [] /\ link suf <> InvalidBlockNumber) ->
  (2 * (many - length blocks) + length suf + (if unlink then 1 else 0) < fuel)%nat ->
  (forall s' a' F' blocks', drained many s a F k tg pre ((b, p) :: suf) blocks s' a' F' blocks' -> Q blocks' s') ->
  vruns (if unlink then
           did_update_head ← unlink_head k head (link suf);
           match did_update_head with
           | true =>
               extend_with_when_recyclable MAX_ENTRIES be (next_full_xid be) [head];;
               drain_list MAX_ENTRIES be fuel many k (link suf) (link suf) cnt blocks
           | false => drain_list MAX_ENTRIES be fuel many k head (link suf) cnt blocks
           end
         else if (link suf =? InvalidBlockNumber) && (cnt =? 0) then
           _ ← on_avl (AvlMap.remove k); mret blocks
         else drain_list MAX_ENTRIES be fuel many k head (link suf) cnt blocks) s Q.
Proof.
  intros Hd Hc Hc0 Hlen Hemp Hun Hf HQ. pose proof (dn_inv _ _ _ _ _ _ _ Hd) as Hi. destruct unlink.
  - destruct (Hun eq_refl) as (<- & Hp & Hv). apply vruns_bind. eapply vruns_unlink_head; [apply (iv_root _ _ _ _ Hi)| |].
    2:{ intros _. eapply loop_advance; [done|done|done|done|done|lia|done]. }
    intros t a1 rest Hr1 Hk Hk1 Hfr1. destruct (draining_head _ _ _ _ _ _ _ _ _ Hd) as (-> & -> & Hl); [rewrite Hk; left|].
    destruct (draining_page _ _ _ _ _ _ _ _ _ Hd) as (_ & _ & Hnx & _).
    destruct (inv_unlink _ _ _ _ _ _ _ _ _ _ _ Hi Hr1 Hk Hk1 Hfr1 Hl Hp Hnx Hv) as [Hi1 Hf1].
    apply vruns_bind. eapply (extend_spec _ Hmax); [exact Hi1|exact Hnext|apply NoDup_singleton| |].
    { intros x ->%list_elem_of_singleton. pose proof (iv_nodup _ _ _ _ Hi) as HN. rewrite <- Hf1 in HN.
      apply NoDup_cons in HN as [HN _]. split; [|done]. apply (iv_range _ _ _ _ Hi). rewrite <- Hf1. left. }
    intros s2 a2 F2 Hi2 Hnb2 Hf2 [[? _]|Hg]; [done|]. cbn [with_avl nb] in Hnb2, Hf2.
    destruct (draining_unlink _ _ _ _ _ _ _ _ _ blocks _ _ _ _ _ _ Hd Hp Hv Hr1 Hk Hk1 Hfr1 Hi2 Hnb2 Hf2 Hg) as (Hd2 & Hl2 & Hs2).
    assert (link (F2 (link suf)) = link suf) as El.
    { destruct (iv_list _ _ _ _ Hi2 _ (dn_tag _ _ _ _ _ _ _ Hd2)) as (Hch & Hvv & _).
      by destruct (chain_cons_inv _ _ _ _ Hch Hvv) as (? & ? & -> & _). }
    rewrite <- El at 2. eapply IH; [exact Hd2|done|done|done|lia|]. intros s' a' F' blocks' Hdr.
    apply (HQ s' a' F'). by eapply drained_step.
  - destruct (Z.eqb_spec (link suf) InvalidBlockNumber) as [Hv|Hv]; simpl.
    + destruct (Z.eqb_spec cnt 0) as [->|Hne]; [|eapply loop_advance; [done|done|done|done|done|lia|done]].
      destruct suf as [|[b1 p1] suf].
      * apply vruns_bind. eapply drained_remove; [done| |done|].
        { rewrite (dn_list _ _ _ _ _ _ _ Hd). by apply Hc0. }
        intros o s' a' Hdr. apply vruns_ret. by eapply HQ.
      * exfalso. destruct (draining_advance _ _ _ _ _ _ _ _ _ blocks Hd) as [Hd1 _].
        destruct (draining_page _ _ _ _ _ _ _ _ _ Hd1) as (_ & ? & _). done.
    + eapply loop_advance; [done|done|done|done|done|lia|done].
Qed.

End loop.

Lemma leaf_empty p : leaf_ok p -> len p = 0 <-> leaf_blocks p = [].
Proof.
  intros Hp. pose proof (leaf_blocks_length _ Hmax p Hp) as Hl. split.
  - intros Hz. apply length_zero_iff_nil. lia.
  - intros Hz. rewrite Hz in Hl. simpl in Hl. lia.
Qed.

Lemma drain_list_ok fuel many k : loop_ok fuel many k.
Proof.
  induction fuel as [|fuel IH]; intros head cnt blocks s a F tg pre suf Q Hd Hc Hc0 Hlen Hf HQ; [lia|]. cbn [drain_list].
  destruct (Nat.ltb_spec (length blocks) many) as [Hlt|Hge]; cbn [andb].
  2:{ apply vruns_ret. eapply HQ, drained_here; [done|done|lia]. }
  destruct suf as [|[b p] suf]; [apply vruns_ret; by eapply HQ, drained_here|].
  destruct (draining_page _ _ _ _ _ _ _ _ _ Hd) as (Hb & Hv & Hnx & Hp & _). simpl link.
  rewrite (proj2 (Z.eqb_neq b InvalidBlockNumber) Hv). cbn [negb]. apply vruns_bind, vruns_gets.
  destruct (try_lock be s b) eqn:Elock; cbn [negb].
  2:{ apply vruns_ret. eapply HQ, drained_here; [done|done|]. intros Hall. by rewrite Hall in Elock. }
  apply vruns_bind. eapply vruns_get_leaf; [done|]. rewrite Hnx. apply vruns_bind. simpl length in Hf.
  destruct ((len p =? 0) && (head =? b)) eqn:Ehead.
  - apply andb_true_iff in Ehead as [Hz%Z.eqb_eq%(leaf_empty p Hp) _]. apply vruns_ret.
    apply (loop_rest fuel many k IH head false cnt blocks s a F tg pre b p suf Q); [done|done| |done|done|done|lia|done].
    intros ->. rewrite recorded_app, Hc0 by done. simpl. by rewrite Hz.
  - apply vruns_bind. apply take_entries_spec; [done|]. intros p' got Hp' Hnx' Eb Hgl Hl'. cbn [fst snd].
    destruct (draining_take _ _ _ _ _ _ _ _ _ _ blocks got Hd Hp' Hnx' Eb) as [Hd1 Hs1].
    apply vruns_bind, vruns_put_leaf, vruns_ret. pose proof Hp' as [_ Hpn']. pose proof Hp as [_ Hpn].
    eapply (loop_rest fuel many k IH head _ _ (blocks ++ got) _ _ _ _ _ b p' suf Q); [exact Hd1|lia| | | | | |].
    + intros Hz. rewrite recorded_app, Hc0 by lia. simpl. rewrite app_nil_r. apply leaf_empty; [done|lia].
    + rewrite length_app. lia.
    + rewrite length_app. intros Hlt'. apply leaf_empty; [done|lia].
    + intros [[Hbh%Z.eqb_eq Hz%Z.eqb_eq]%andb_true_iff Hv'%negb_true_iff%Z.eqb_neq]%andb_true_iff.
      split; [done|]. split; [by apply leaf_empty|done].
    + rewrite length_app. destruct ((b =? head) && (len p' =? 0) && negb (link suf =? InvalidBlockNumber)) eqn:Eun; [|lia].
      apply andb_true_iff in Eun as [[Hbh%Z.eqb_eq _]%andb_true_iff _]. subst head. rewrite Z.eqb_refl, andb_true_r in Ehead.
      apply Z.eqb_neq in Ehead. lia.
    + intros s' a' F' blocks' Hdr. apply (HQ s' a' F'). eapply drained_step; [exact Hs1|done|exact Hdr].
Qed.

End drain.
