(* ===== verification/FsmV2Class.v ===== *)
(** * The free space manager keeps its promises

    The loop over transactions, creation, and the proof that the manager on the AVL map is
    an instance of the interface its clients rely on. *)

From stdpp Require Import prelude gmap sorting.
From Stdlib Require Import ZArith Lia.
From S2P Require Import Prelude Avl AvlRep AvlSpec AvlRefine AvlTheorems Pages FsmV2 FsmV2Props FsmV2Tree FsmV2Inv FsmV2Drain.
Import FsmV2.

Local Open Scope Z_scope.

Lemma size_of_list (l : list Z) : (size (list_to_set l : gset Z) <= length l)%nat.
Proof.
  induction l as [|x l IH]; [by rewrite list_to_set_nil, size_empty|]. rewrite list_to_set_cons, size_union_alt, size_singleton. simpl.
  enough (size (list_to_set l ∖ {[x]} : gset Z) <= size (list_to_set l : gset Z))%nat by lia. apply subseteq_size. set_solver.
Qed.

Section loop.
Variable MAX_ENTRIES : nat.
Hypothesis Hmax : (0 < MAX_ENTRIES)%nat /\ Z.of_nat MAX_ENTRIES < 2 ^ 32.
Variable be : backend.
Hypothesis Hnext : normal_xid (next_full_xid be).

Abbreviation inv := (inv MAX_ENTRIES).
Abbreviation next_xid := (next_xid be).
Abbreviation roomy := (roomy be).
Implicit Types (a : tree_abs) (s : V2FSM) (F : freelists) (blocks : list Z).

(** ** The loop over transactions *)

(** Transactions that are, or will be, considered. *)
Definition candidates a (xid : Z) : gset Z := filter (fun x => x <= xid) (list_to_set (next_xid :: (keyed a).*1)).

Lemma elem_of_candidates a xid x : x ∈ candidates a xid <-> x <= xid /\ (x = next_xid \/ x ∈ (keyed a).*1).
Proof. unfold candidates. rewrite elem_of_filter, elem_of_list_to_set, elem_of_cons. done. Qed.

Record drained_upto (many : nat) (xid : Z) s a F blocks s' a' F' blocks' : Prop := {
  du_inv : inv s' a' F';
  du_nb : nb s <= nb s';
  du_foot : foot s' a' F' ++ blocks' ≡ₚ foot s a F ++ blocks ++ seqZ (nb s) (nb s' - nb s);
  du_many : (length blocks <= length blocks' <= many)%nat;
  du_sub : forall b, b ∈ blocks -> b ∈ blocks';
  du_calm : roomy a -> xid < next_xid -> roomy a' /\
    (forall x b, x <> next_xid -> free_at a' F' x b -> free_at a F x b) /\
    (forall x b, free_at a F x b -> free_at a' F' x b \/ b ∈ blocks') /\
    (forall b, b ∈ blocks' -> b ∈ blocks \/ exists x, x <= xid /\ free_at a F x b);
  du_all : roomy a -> xid < next_xid -> xid < 2 ^ 64 -> (forall s b, try_lock be s b = true) ->
    (length blocks' < many)%nat -> forall x b, x <= xid -> ~ free_at a' F' x b;
}.

Lemma drained_upto_here many xid s a F blocks : inv s a F -> (length blocks <= many)%nat ->
  ((length blocks < many)%nat -> forall x, x ∈ (keyed a).*1 -> xid < x) ->
  drained_upto many xid s a F blocks s a F blocks.
Proof.
  intros Hi Hlen Hk. split; [done|lia|by rewrite Z.sub_diag, app_nil_r|lia|done| |].
  - intros Hr _. split; [done|]. split; [auto|]. split; by left.
  - intros _ _ _ _ Hlt x b Hx (tg & Hin & _). apply (list_elem_of_fmap_2 fst) in Hin. specialize (Hk Hlt x Hin). lia.
Qed.

(** A round for transaction [k] on list [tg], then the rest for the ones up to [xid']. *)
Lemma drained_upto_round many xid k tg s a F blocks s1 a1 F1 blocks1 xid' s' a' F' blocks' :
  inv s a F -> (k, tg) ∈ keyed a -> k <= xid -> (forall x, x ∈ (keyed a).*1 -> x <= xid -> x <= k) ->
  drained MAX_ENTRIES be many s a F k tg [] (F tg) blocks s1 a1 F1 blocks1 ->
  xid' <= k - 1 -> (xid < 2 ^ 64 -> xid' = k - 1) -> drained_upto many xid' s1 a1 F1 blocks1 s' a' F' blocks' ->
  drained_upto many xid s a F blocks s' a' F' blocks'.
Proof.
  intros Hi Hin Hk Hmx [Hi1 Hn1 Hf1 Hm1 Hs1 Hk1 Hc1 Ha1] Hx' Hx'' [Hi2 Hn2 Hf2 Hm2 Hs2 Hc2 Ha2]. split; [done|lia| |lia|auto| |].
  - rewrite Hf2, app_assoc, Hf1, (seqZ_split (nb s) (nb s1) (nb s')) by lia. by rewrite !app_assoc.
  - intros Hr Hlt. destruct Hc1 as (Hr1 & Hfa1 & Hkp1 & Hb1); [split; [done|by split; [lia|]]|].
    destruct Hc2 as (Hr2 & Hfa2 & Hkp2 & Hb2); [done|lia|]. split; [done|]. split; [auto|].
    split; [intros x b [Hx|Hx]%Hkp1; auto|].
    intros b [Hb|(x & Hx & Hb)]%Hb2.
    + destruct (Hb1 b Hb) as [?|Hb']; [by left|right]. exists k. split; [done|]. by exists tg.
    + right. exists x. split; [lia|]. apply Hfa1; [lia|done].
  - intros Hr Hlt H64 Hlk Hl x b Hx Hfa. assert (undisturbed be a k tg) as Hu by (split; [done|by split; [lia|]]).
    destruct Hc1 as (Hr1 & Hfa1 & _); [done|]. destruct Hc2 as (_ & Hfa2 & _); [done|lia|].
    assert (free_at a1 F1 x b) as Hfa1' by (apply Hfa2; [lia|done]).
    destruct (Hfa1 x b ltac:(lia) Hfa1') as (tg' & Hin' & _). apply (list_elem_of_fmap_2 fst) in Hin'.
    specialize (Hmx x Hin' Hx). simpl in Hmx. destruct (decide (x = k)) as [->|Hne].
    + by apply (Ha1 Hu Hlk ltac:(lia) eq_refl b).
    + apply (Ha2 Hr1 ltac:(lia) ltac:(lia) Hlk Hl x b); [lia|done].
Qed.

Lemma candidates_shrink a a1 xid xid' k tg : (k, tg) ∈ keyed a -> k <= xid -> xid' < k ->
  (forall x, x ∈ (keyed a1).*1 -> x ∈ (keyed a).*1 \/ x = next_xid) ->
  (size (candidates a1 xid') < size (candidates a xid))%nat.
Proof.
  intros Hin Hk Hx Hk1. apply subset_size. split.
  - intros x. rewrite !elem_of_candidates. intros [? [->|Hx1%Hk1]]; (split; [lia|naive_solver]).
  - intros Hsub. specialize (Hsub k). rewrite !elem_of_candidates in Hsub. apply (list_elem_of_fmap_2 fst) in Hin.
    destruct Hsub; [naive_solver|lia].
Qed.

Lemma drain_loop_spec fuel many xid s a F blocks (Q : list Z -> V2FSM -> Prop) : inv s a F ->
  (length blocks <= many)%nat -> (size (candidates a xid) < fuel)%nat ->
  (forall s' a' F' blocks', drained_upto many xid s a F blocks s' a' F' blocks' -> Q blocks' s') ->
  vruns (drain_loop MAX_ENTRIES be fuel many xid blocks) s Q.
Proof.
  revert xid s a F blocks Q. induction fuel as [|fuel IH]; intros xid s a F blocks Q Hi Hlen Hf HQ; [lia|]. cbn [drain_loop].
  destruct (Nat.ltb_spec (length blocks) many) as [Hlt|Hge].
  2:{ apply vruns_ret. eapply HQ, drained_upto_here; [done|done|intros; lia]. }
  apply vruns_bind. eapply vruns_get_lte; [apply (iv_root _ _ _ _ Hi)| |].
  2:{ intros Hall. apply vruns_ret. by eapply HQ, drained_upto_here. }
  intros k tg Hin Hk Hmx. apply vruns_bind, vruns_gets.
  assert (tg ∈ all_tags a) as Htg by (apply elem_of_app; left; by apply (list_elem_of_fmap_2 snd) in Hin).
  assert (draining MAX_ENTRIES s a F k tg [] (F tg)) as Hd.
  { split; try done. intros tg' Hin'. by eapply keyed_fun; [apply (iv_root _ _ _ _ Hi)|..]. }
  pose proof (inv_extendable _ _ _ _ Hi tg Htg) as [Hc Hv Hnd _ _ _].
  assert (link (F tg) = tg) as El by (by destruct (chain_cons_inv _ _ _ _ Hc Hv) as (? & ? & -> & _)).
  pose proof (chain_length _ _ _ _ _ Hc Hnd) as Hcl. apply vruns_bind. rewrite <- El at 2.
  eapply (drain_list_ok _ Hmax be Hnext); [exact Hd|lia|done|done|lia|]. intros s1 a1 F1 blocks1 Hdr.
  pose proof (iv_keys _ _ _ _ Hi k ltac:(by apply (list_elem_of_fmap_2 fst) in Hin)) as Hkn. unfold normal_xid, FirstNormalTransactionId in *.
  assert (u64 (k - 1) <= k - 1) as Hw by (apply Z.mod_le; lia).
  assert (xid < 2 ^ 64 -> u64 (k - 1) = k - 1) as Hw' by (intros; apply wrap_small; lia).
  pose proof (dr_many _ _ _ _ _ _ _ _ _ _ _ _ _ _ _ Hdr) as Hm1. pose proof (dr_inv _ _ _ _ _ _ _ _ _ _ _ _ _ _ _ Hdr) as Hi1.
  destruct (Nat.eqb_spec (length blocks1) many) as [Heq|Hne].
  - apply vruns_ret. eapply HQ, drained_upto_round; [done|done|done|done|exact Hdr|done|done|].
    apply drained_upto_here; [done|lia|intros; lia].
  - destruct (Z.ltb_spec (u64 (k - 1)) 3) as [Hlow|Hhigh].
    + apply vruns_ret. eapply HQ, drained_upto_round; [done|done|done|done|exact Hdr|done|done|].
      apply drained_upto_here; [done|lia|]. intros _ x Hx%(iv_keys _ _ _ _ Hi1). unfold normal_xid, FirstNormalTransactionId in Hx. lia.
    + eapply IH; [done|lia| |].
      * enough (size (candidates a1 (u64 (k - 1))) < size (candidates a xid))%nat by lia.
        eapply candidates_shrink; [done|done|lia|apply (dr_keys _ _ _ _ _ _ _ _ _ _ _ _ _ _ _ Hdr)].
      * intros s' a' F' blocks' Hdu. by eapply HQ, drained_upto_round.
Qed.

(** The greatest transaction whose blocks may be reused now. *)
Definition horizon : Z := Z.max (current_full_xid be) FirstNormalTransactionId.

Lemma drain_spec many s a F (Q : list Z -> V2FSM -> Prop) : inv s a F ->
  (forall s' a' F' bs, drained_upto many horizon s a F [] s' a' F' bs -> Q bs s') ->
  vruns (drain MAX_ENTRIES be many) s Q.
Proof.
  intros Hi HQ. unfold drain. apply vruns_bind, vruns_gets. eapply drain_loop_spec; [done|simpl; lia| |done].
  pose proof (iv_root _ _ _ _ Hi) as [_ Hm]. pose proof (all_tags_arena _ _ Hm) as Hp%Permutation_length.
  unfold all_tags in Hp. rewrite length_app, !length_fmap in Hp.
  assert (size (candidates a horizon) <= S (length (keyed a)))%nat; [|unfold horizon in *; lia].
  etransitivity; [apply subseteq_size; intros x [_ ?]%elem_of_filter; done|].
  etransitivity; [apply size_of_list|]. simpl. by rewrite length_fmap.
Qed.

End loop.

(** ** Creation *)

Section create.
Variables MAX_ENTRIES MAX_SLOTS : nat.
Hypothesis Hmax : (0 < MAX_ENTRIES)%nat /\ Z.of_nat MAX_ENTRIES < 2 ^ 32.
Hypothesis Hslots : (0 < MAX_SLOTS)%nat /\ Z.of_nat MAX_SLOTS <= 65535.

(** The tags of the slots from [i] on are the next [n] blocks, each with an empty leaf. *)
Lemma create_tags_spec n i s (Q : unit -> V2FSM -> Prop) : kind (root s) = v2_avl_tree -> nb s <= InvalidBlockNumber ->
  length (AvlMap.arena (avl (root s))) = (i + n)%nat ->
  (forall s', start_blockno s' = start_blockno s -> kind (root s') = v2_avl_tree -> nb s' = nb s + Z.of_nat n ->
     nb s' <= InvalidBlockNumber -> length (AvlMap.arena (avl (root s'))) = (i + n)%nat ->
     AvlMap.tag <$> AvlMap.arena (avl (root s')) = take i (AvlMap.tag <$> AvlMap.arena (avl (root s))) ++ seqZ (nb s) (Z.of_nat n) ->
     (forall x, nb s <= x < nb s + Z.of_nat n -> leaves s' !! x = Some (zero_leaf MAX_ENTRIES)) ->
     (forall x, x < nb s -> leaves s' !! x = leaves s !! x) -> Q tt s') ->
  vruns (create_tags MAX_ENTRIES i n) s Q.
Proof.
  revert i s Q. induction n as [|n IH]; intros i s Q Hk Hn Hl HQ; cbn [create_tags].
  { apply vruns_ret, HQ; try done; [lia| |lia]. simpl. rewrite take_ge, app_nil_r; [done|]. rewrite length_fmap. lia. }
  apply vruns_bind, vruns_init_new_buffer; [done|]. intros Hlt. apply vruns_bind, vruns_put_leaf, vruns_bind.
  destruct s as [st [kd [hd ar]] lv n0]. cbn in Hk, Hn, Hl, Hlt, HQ. subst kd. cbn.
  destruct (lookup_lt_is_Some_2 ar i ltac:(lia)) as [sl Hsl].
  eapply vruns_on_avl; [done|unfold AvlMap.update; cbn; by rewrite Hsl|]. cbn.
  apply IH; cbn; [done|lia|rewrite length_insert; lia|]. intros s' H1 H2 H3 H4 H5 H6 H7 H8.
  apply HQ; try done; [lia|lia| | |].
  - rewrite H6, list_fmap_insert. cbn. erewrite take_S_r; [|apply list_lookup_insert_eq; rewrite length_fmap; lia].
    rewrite take_insert_ge by lia. rewrite <- app_assoc. f_equal. simpl.
    rewrite (seqZ_cons n0) by lia. unfold Z.succ. by replace (Z.pred (Z.of_nat (S n))) with (Z.of_nat n) by lia.
  - intros x Hx. destruct (decide (x = n0)) as [->|Hne]; [|apply H7; lia]. rewrite H8 by lia. apply lookup_insert_eq.
  - intros x Hx. rewrite H8 by lia. apply lookup_insert_ne. lia.
Qed.

Lemma zero_leaf_ok : leaf_ok MAX_ENTRIES (zero_leaf MAX_ENTRIES).
Proof. split; simpl; [apply length_replicate|lia]. Qed.

Lemma tags_foot_zero tgs : tags_foot tgs (fun tg => [(tg, zero_leaf MAX_ENTRIES)]) = tgs.
Proof. induction tgs as [|tg tgs IH]; [done|]. rewrite tags_foot_cons, IH. done. Qed.

(** On a relation of [n] blocks: the root page and an empty leaf per slot, and no free block. *)
Lemma v2_create_spec s (Q : Z -> V2FSM -> Prop) : 0 < nb s <= InvalidBlockNumber ->
  (forall s' a F, inv MAX_ENTRIES s' a F -> keyed a = [] -> length (a_free a) = MAX_SLOTS -> start_blockno s' = nb s ->
     nb s' = nb s + Z.of_nat (S MAX_SLOTS) -> foot s' a F = seqZ (nb s) (Z.of_nat (S MAX_SLOTS)) -> Q (nb s) s') ->
  vruns (create MAX_ENTRIES MAX_SLOTS) s Q.
Proof.
  intros Hn HQ. unfold create. apply vruns_bind, vruns_init_new_buffer; [lia|]. intros Hlt.
  apply vruns_bind. unfold modify. eapply vruns_eq; [done|]. apply vruns_bind.
  apply create_tags_spec; cbn; [done|lia|by rewrite length_replicate|]. intros s' Hst Hk Hnb Hnb' Hlen Htags Hlv _.
  destruct (new_models (avl (root s'))) as (t & E & Hm & _); [unfold small; lia|].
  apply vruns_bind. eapply vruns_on_avl; [done|exact E|]. apply vruns_ret.
  set (tgs := seqZ (nb s + 1) (Z.of_nat MAX_SLOTS)) in *. rewrite Htags in Hm.
  assert (foot (with_avl s' t) (mkAbs [] tgs) (fun tg => [(tg, zero_leaf MAX_ENTRIES)]) = seqZ (nb s) (Z.of_nat (S MAX_SLOTS))) as Hf.
  { change (start_blockno s' :: tags_foot tgs (fun tg => [(tg, zero_leaf MAX_ENTRIES)]) = seqZ (nb s) (Z.of_nat (S MAX_SLOTS))).
    rewrite tags_foot_zero, Hst. rewrite (seqZ_cons (nb s)) by lia. unfold Z.succ. do 2 f_equal. lia. }
  assert (forall tg, tg ∈ tgs -> nb s + 1 <= tg < nb s' /\ tg <> InvalidBlockNumber) as Htg.
  { intros tg. unfold tgs. rewrite elem_of_seqZ. lia. }
  apply (HQ _ (mkAbs [] tgs) (fun tg => [(tg, zero_leaf MAX_ENTRIES)])); [|done|cbn; unfold tgs; rewrite length_seqZ; lia|done|cbn; lia|exact Hf]. split.
  - by split.
  - change (tgs <> []). unfold tgs. rewrite seqZ_cons by lia. done.
  - intros tg Hin. change (tg ∈ tgs) in Hin. destruct (Htg tg Hin) as [? ?]. split; [|split; [done|]].
    + apply chain_singleton; [done|apply Hlv; lia|done].
    + apply Forall_singleton, zero_leaf_ok.
  - rewrite Hf. apply NoDup_seqZ.
  - intros x. rewrite Hf, elem_of_seqZ. cbn. lia.
  - cbn. lia.
  - intros tg _. done.
  - by intros k ?%elem_of_nil.
Qed.

End create.

(** ** The footprint on the pages *)

Section footprint.
Variable MAX_ENTRIES : nat.
Abbreviation inv := (inv MAX_ENTRIES).
Implicit Types (s : V2FSM).

(** The blocks of the manager, read off its pages. *)
Definition footprint s : list Z :=
  start_blockno s :: tags_foot (AvlMap.tag <$> AvlMap.arena (avl (root s))) (freelist s).

Lemma walk_chain fuel m b ch : chain m b ch -> (length ch < fuel)%nat -> walk fuel m b = ch.
Proof.
  revert b ch. induction fuel as [|fuel IH]; intros b ch Hc Hf; [lia|]. cbn [walk]. destruct ch as [|[b0 p] ch].
  - cbn in Hc. subst. done.
  - destruct Hc as (-> & Hv & Hp & Hc). rewrite (proj2 (Z.eqb_neq _ _) Hv), Hp. f_equal. apply IH; [done|]. simpl in Hf. lia.
Qed.

Lemma inv_freelist s a F tg : inv s a F -> tg ∈ all_tags a -> freelist s tg = F tg.
Proof.
  intros Hi Htg. pose proof (inv_extendable _ _ _ _ Hi tg Htg) as [Hc _ Hnd _ _ _].
  apply walk_chain; [done|]. pose proof (chain_length _ _ _ _ _ Hc Hnd). lia.
Qed.

Lemma tags_foot_ext tgs F F' : (forall tg, tg ∈ tgs -> F tg = F' tg) -> tags_foot tgs F = tags_foot tgs F'.
Proof.
  induction tgs as [|tg tgs IH]; intros He; [done|]. rewrite !tags_foot_cons, He, IH; [done| |left].
  intros tg' ?. apply He. by right.
Qed.

Lemma inv_footprint s a F : inv s a F -> footprint s ≡ₚ foot s a F.
Proof.
  intros Hi. unfold footprint, foot. apply Permutation_skip.
  rewrite <- (tags_foot_perm _ _ _ (all_tags_arena _ _ (proj2 (iv_root _ _ _ _ Hi)))).
  apply reflexive_eq, tags_foot_ext. intros tg Htg. by eapply inv_freelist.
Qed.

Lemma inv_grow s a F : inv s a F -> nb s < InvalidBlockNumber -> inv (with_leaves s (leaves s) (nb s + 1)) a F.
Proof.
  intros [H1 H2 H3 H4 H5 H6 H7 H8] Hlt. split; try done; cbn; [|lia]. intros x Hx. specialize (H5 x Hx). lia.
Qed.

End footprint.

(** ** The instance *)

Section instance.
Variable MAX_ENTRIES : nat.
Hypothesis Hmax : (0 < MAX_ENTRIES)%nat /\ Z.of_nat MAX_ENTRIES < 2 ^ 32.
Variable be : backend.
Hypothesis Hnext : normal_xid (next_full_xid be).

Abbreviation inv := (inv MAX_ENTRIES).
Implicit Types (s : V2FSM).

(** The manager's error type is empty as far as its clients can see. *)
Definition as_fsm {A} (c : M V2FSM AvlMap.Error A) : M V2FSM unit A := fun s =>
  match c s with
  | (Ok x, s') => (Ok x, s')
  | (Err _, s') => (Err tt, s')
  | (Panic, s') => (Panic, s')
  | (OutOfFuel, s') => (OutOfFuel, s')
  end.

Definition v2_ops : FreeSpaceManagerOps V2FSM := {|
  fsm_ok s := exists a F, inv s a F;
  owned s := list_to_set (footprint s);
  nblocks := nb;
  Pages.pop := as_fsm (FsmV2.pop MAX_ENTRIES be);
  Pages.drain many := as_fsm (FsmV2.drain MAX_ENTRIES be many);
  Pages.extend_with_when_recyclable w bs := as_fsm (FsmV2.extend_with_when_recyclable MAX_ENTRIES be w bs);
  extend_relation := as_fsm init_new_buffer;
|}.

Lemma elem_of_owned s b : b ∈ owned (FreeSpaceManagerOps := v2_ops) s <-> b ∈ footprint s.
Proof. apply elem_of_list_to_set. Qed.

Lemma returns_vruns {A} (c : M V2FSM AvlMap.Error A) s (Q : A -> V2FSM -> Prop) :
  vruns c s Q -> returns (H := v2_ops) (as_fsm c s) Q.
Proof.
  unfold vruns, mwp, returns, as_fsm. destruct (c s) as [[x| | |] s']; simpl; try done. intros ->. by vm_compute.
Qed.

Lemma list_to_set_perm (l l' : list Z) : l ≡ₚ l' -> list_to_set l =@{gset Z} list_to_set l'.
Proof. intros Hp. apply set_eq. intros x. by rewrite !elem_of_list_to_set, Hp. Qed.

Lemma v2_taken many s a F s' a' F' bs : inv s a F -> drained_upto MAX_ENTRIES be many (horizon be) s a F [] s' a' F' bs ->
  taken (H := v2_ops) s s' bs.
Proof.
  intros Hi [Hi' Hn Hf _ _ _ _]. rewrite app_nil_l in Hf. pose proof (inv_footprint _ _ _ _ Hi) as Hp. pose proof (inv_footprint _ _ _ _ Hi') as Hp'.
  assert (NoDup (foot s' a' F' ++ bs)) as (_ & Hd & Hnd)%NoDup_app.
  { rewrite Hf. apply NoDup_app. split; [apply (iv_nodup _ _ _ _ Hi)|]. split; [|apply NoDup_seqZ].
    intros x Hx%(iv_range _ _ _ _ Hi). rewrite elem_of_seqZ. lia. }
  split.
  - by exists a', F'.
  - done.
  - done.
  - intros b Hb. rewrite elem_of_owned, Hp'. intros Hb'. by apply (Hd b).
  - change (list_to_set (footprint s') ∪ list_to_set bs =@{gset Z} list_to_set (footprint s) ∪ block_range (nb s) (nb s')).
    unfold block_range. rewrite <- !list_to_set_app_L. apply list_to_set_perm. by rewrite Hp, Hp', Hf.
Qed.

Lemma v2_given w s a F s' a' F' bs : inv s a F -> inv s' a' F' -> nb s <= nb s' ->
  foot s' a' F' ≡ₚ foot s a F ++ bs ++ seqZ (nb s) (nb s' - nb s) -> normal_xid w -> given (H := v2_ops) s s' bs.
Proof.
  intros Hi Hi' Hn Hf Hw. split; [by exists a', F'|done|].
  change (list_to_set (footprint s') =@{gset Z} list_to_set (footprint s) ∪ list_to_set bs ∪ block_range (nb s) (nb s')).
  unfold block_range. rewrite <- !list_to_set_app_L. apply list_to_set_perm.
  rewrite (inv_footprint _ _ _ _ Hi'), Hf, (inv_footprint _ _ _ _ Hi). by rewrite app_assoc.
Qed.

Lemma v2_FreeSpaceManager : FreeSpaceManager V2FSM (H := v2_ops).
Proof.
  split.
  - intros s b (a & F & Hi). rewrite elem_of_owned, (inv_footprint _ _ _ _ Hi). apply (iv_range _ _ _ _ Hi).
  - intros s (a & F & Hi). apply (iv_nb _ _ _ _ Hi).
  - intros s (a & F & Hi). apply returns_vruns, vruns_bind. eapply drain_spec; [done|done|done|]. intros s' a' F' bs Hdr.
    apply vruns_ret. assert (option_list (head bs) = bs) as ->; [|by eapply v2_taken].
    pose proof (du_many _ _ _ _ _ _ _ _ _ _ _ _ Hdr). destruct bs as [|b [|]]; simpl in *; [done|done|lia].
  - intros s many (a & F & Hi). apply returns_vruns. eapply drain_spec; [done|done|done|]. intros s' a' F' bs Hdr.
    split; [by eapply v2_taken|]. apply (du_many _ _ _ _ _ _ _ _ _ _ _ _ Hdr).
  - intros s w bs (a & F & Hi) Hw Hnd Hfresh. apply returns_vruns. eapply extend_spec; [done|done|done|done| |].
    { intros x Hx. destruct (Hfresh x Hx) as [? Hno]. rewrite elem_of_owned, (inv_footprint _ _ _ _ Hi) in Hno. done. }
    intros s' a' F' Hi' Hn Hf _. by eapply v2_given.
  - intros s (a & F & Hi). apply returns_vruns, vruns_init_new_buffer; [apply (iv_nb _ _ _ _ Hi)|]. intros Hlt.
    split; [|done]. exists a, F. by apply inv_grow.
Qed.

End instance.
