(* ===== verification/FsmV2Laws.v ===== *)
(** * What the free space manager guarantees

    Whole histories of the manager and its clients, and the rule that a block is not reused
    before its transaction. *)

From stdpp Require Import prelude gmap sorting.
From Stdlib Require Import ZArith Lia.
From S2P Require Import Prelude Avl AvlRep AvlSpec AvlRefine AvlTheorems Pages FsmV2 FsmV2Props FsmV2Tree FsmV2Inv FsmV2Drain FsmV2Class.
Import FsmV2.

Local Open Scope Z_scope.

(** ** What is on the pages *)

Implicit Types (s : V2FSM) (F : freelists).

Abbreviation slots s := (AvlMap.arena (avl (root s))).

(** Block [b] is recorded for transaction [k]. *)
Definition records s (k b : Z) : Prop :=
  exists slot, slot ∈ slots s /\ AvlMap.is_used slot = true /\ AvlMap.key slot = k /\ b ∈ recorded (freelist s (AvlMap.tag slot)).

(** There is a slot for transaction [k]: a free one, or its own. *)
Definition has_slot s (k : Z) : Prop :=
  exists slot, slot ∈ slots s /\ (AvlMap.is_used slot = true -> AvlMap.key slot = k).

Section slots.
Context {K V T : Type} `{Ord K}.
Implicit Types (m : AvlMap.AvlTreeMap K V T) (a : avl_abs K V T).

Lemma rep_used ar (t : tree K V T) o n : rep ar t o -> n ∈ elements t ->
  exists sl, ar !! gi n = Some sl /\ AvlMap.is_used sl = true /\ AvlMap.key sl = gk n /\ AvlMap.val sl = gv n /\ AvlMap.tag sl = gt n.
Proof.
  revert o. induction t as [|tl IHl n' tr IHr]; intros o; [by intros _ ?%elem_of_nil|].
  intros (_ & sl & lo & ro & Hi & Hsi & Hl & Hr) [Hn|[->|Hn]%elem_of_cons]%elem_of_app; [by eapply IHl| |by eapply IHr].
  exists sl. by destruct Hsi.
Qed.

Lemma free_chain_unused ar o (fl : list (nat * T)) f tg (sl : AvlMap.Slot K V T) : free_chain ar o fl -> (f, tg) ∈ fl ->
  ar !! f = Some sl -> AvlMap.is_used sl = false /\ AvlMap.tag sl = tg.
Proof.
  revert o. induction fl as [|[f' tg'] fl IH]; intros o; [by intros _ ?%elem_of_nil|].
  intros (_ & sl' & Hs & Hu & Ht & Hc) [[= -> ->]|Hf]%elem_of_cons Hi; [naive_solver|by eapply IH].
Qed.

(** The used slots are the entries, the other slots are free. *)
Lemma models_slot m a slot : models m a -> slot ∈ AvlMap.arena m ->
  if AvlMap.is_used slot then (AvlMap.key slot, (AvlMap.val slot, AvlMap.tag slot)) ∈ a_entries a
  else AvlMap.tag slot ∈ a_free a.
Proof.
  intros (t & fl & Hinv & -> & ->) (i & Hi)%list_elem_of_lookup.
  assert (i ∈ indices t ++ fl.*1) as Hin.
  { rewrite (inv_slots _ _ _ Hinv). apply elem_of_seq. apply lookup_lt_Some in Hi. lia. }
  apply elem_of_app in Hin as [(n & -> & Hn)%list_elem_of_fmap|([f tg] & -> & Hf)%list_elem_of_fmap].
  - destruct (rep_used _ _ _ _ (inv_rep _ _ _ Hinv) Hn) as (sl & Hs & Hu & Hk & Hv & Ht).
    rewrite Hs in Hi. injection Hi as <-. rewrite Hu, Hk, Hv, Ht. apply list_elem_of_fmap. by exists n.
  - destruct (free_chain_unused _ _ _ _ _ _ (inv_free _ _ _ Hinv) Hf Hi) as [-> ->].
    apply list_elem_of_fmap. by exists (f, tg).
Qed.

Lemma entry_slot m a k v tg : models m a -> (k, (v, tg)) ∈ a_entries a ->
  exists slot, slot ∈ AvlMap.arena m /\ AvlMap.is_used slot = true /\ AvlMap.key slot = k /\ AvlMap.tag slot = tg.
Proof.
  intros (t & fl & Hinv & -> & _) (n & [= -> -> ->] & Hn)%list_elem_of_fmap.
  destruct (rep_used _ _ _ _ (inv_rep _ _ _ Hinv) Hn) as (sl & Hs & Hu & Hk & _ & Ht).
  exists sl. split; [by eapply list_elem_of_lookup_2|done].
Qed.

End slots.

Section facts.
Variable MAX_ENTRIES : nat.
Variables (s : V2FSM) (a : tree_abs) (F : freelists).
Hypothesis Hinv : inv MAX_ENTRIES s a F.

Lemma records_free_at k b : records s k b <-> free_at a F k b.
Proof.
  pose proof (iv_root _ _ _ _ Hinv) as [_ Hm]. split.
  - intros (slot & Hin & Hu & Hk & Hb). pose proof (models_slot _ _ _ Hm Hin) as He. rewrite Hu, Hk in He.
    exists (AvlMap.tag slot). assert ((k, AvlMap.tag slot) ∈ keyed a) as Hke by (apply elem_of_keyed; by destruct (AvlMap.val slot)).
    split; [done|]. rewrite <- (inv_freelist _ _ _ _ _ Hinv); [done|]. apply elem_of_app. left.
    by apply (list_elem_of_fmap_2 snd) in Hke.
  - intros (tg & Hin & Hb). pose proof Hin as Hin'. apply elem_of_keyed in Hin'.
    destruct (entry_slot _ _ _ _ _ Hm Hin') as (slot & Hs & Hu & Hk & Ht). exists slot. do 3 (split; [done|]).
    rewrite Ht, (inv_freelist _ _ _ _ _ Hinv); [done|]. apply elem_of_app. left. by apply (list_elem_of_fmap_2 snd) in Hin.
Qed.

Lemma has_slot_roomy k : has_slot s k -> a_free a <> [] \/ k ∈ (keyed a).*1.
Proof.
  pose proof (iv_root _ _ _ _ Hinv) as [_ Hm]. intros (slot & Hin & Hk). pose proof (models_slot _ _ _ Hm Hin) as He.
  destruct (AvlMap.is_used slot).
  - right. rewrite Hk in He by done. assert ((k, AvlMap.tag slot) ∈ keyed a) as Hke by (apply elem_of_keyed; by destruct (AvlMap.val slot)).
    by apply (list_elem_of_fmap_2 fst) in Hke.
  - left. intros Hnil. rewrite Hnil in He. by apply elem_of_nil in He.
Qed.

End facts.

(** ** Histories *)

Section histories.
Variable MAX_ENTRIES : nat.
Hypothesis Hmax : (0 < MAX_ENTRIES)%nat /\ Z.of_nat MAX_ENTRIES < 2 ^ 32.

(** The manager, and the blocks its clients hold: they drain it, in any backend, give
    blocks back, and extend the relation. *)
Inductive fsm_step : V2FSM * list Z -> V2FSM * list Z -> Prop :=
| step_drain be many s held bs s' : normal_xid (next_full_xid be) ->
    drain MAX_ENTRIES be many s = (Ok bs, s') -> fsm_step (s, held) (s', held ++ bs)
| step_extend be w bs s held held' s' : held ≡ₚ bs ++ held' -> normal_xid w ->
    extend_with_when_recyclable MAX_ENTRIES be w bs s = (Ok tt, s') -> fsm_step (s, held) (s', held')
| step_grow s held b s' : init_new_buffer s = (Ok b, s') -> fsm_step (s, held) (s', held ++ [b]).

(** Every block but the first is the manager's or a client's, and only once. *)
Definition accounted (x : V2FSM * list Z) : Prop :=
  exists a F, inv MAX_ENTRIES x.1 a F /\ foot x.1 a F ++ x.2 ≡ₚ seqZ 1 (nb x.1 - 1).

Lemma vruns_ok {A} (c : M V2FSM AvlMap.Error A) s r s' (Q : A -> V2FSM -> Prop) : vruns c s Q -> c s = (Ok r, s') -> Q r s'.
Proof. apply mwp_ok. Qed.

Lemma accounted_more (l l' held held' : list Z) n n' : 0 < n <= n' -> l ++ held ≡ₚ seqZ 1 (n - 1) ->
  l' ++ held' ≡ₚ (l ++ held) ++ seqZ n (n' - n) -> l' ++ held' ≡ₚ seqZ 1 (n' - 1).
Proof. intros Hn H1 H2. rewrite H2, H1. symmetry. apply reflexive_eq. apply (seqZ_split 1 n n'). lia. Qed.

Lemma fsm_step_accounted x y : fsm_step x y -> accounted x -> accounted y.
Proof.
  intros Hs (a & F & Hi & Hp). pose proof (iv_nb _ _ _ _ Hi) as Hnb. destruct Hs as [be many s held bs s' Hx E|be w bs s held held' s' Hh Hw E|s held b s' E]; cbn [fst snd] in *.
  - eapply vruns_ok in E; [|eapply (drain_spec _ Hmax be Hx many s a F (fun bs s' => exists a' F', drained_upto MAX_ENTRIES be many (horizon be) s a F [] s' a' F' bs)); [done|eauto]].
    destruct E as (a' & F' & Hdu). exists a', F'. split; [apply (du_inv _ _ _ _ _ _ _ _ _ _ _ _ Hdu)|].
    pose proof (du_nb _ _ _ _ _ _ _ _ _ _ _ _ Hdu). pose proof (du_foot _ _ _ _ _ _ _ _ _ _ _ _ Hdu) as Hf.
    apply (accounted_more (foot s a F) _ held _ (nb s) (nb s')); [lia|done|]. rewrite app_nil_l in Hf. cbn [fst snd].
    transitivity ((foot s' a' F' ++ bs) ++ held); [solve_Permutation|]. rewrite Hf. solve_Permutation.
  - assert (NoDup (foot s a F ++ held)) as Hnd by (rewrite Hp; apply NoDup_seqZ). rewrite Hh in Hnd.
    apply NoDup_app in Hnd as (_ & Hd & (Hndb & _)%NoDup_app).
    eapply vruns_ok in E; [|eapply (extend_spec _ Hmax be w bs s a F (fun _ s' => exists a' F', inv MAX_ENTRIES s' a' F' /\ nb s <= nb s' /\ foot s' a' F' ≡ₚ foot s a F ++ bs ++ seqZ (nb s) (nb s' - nb s))); [done|done|done| |]].
    + destruct E as (a' & F' & Hi' & Hle & Hf). exists a', F'. split; [done|].
      apply (accounted_more (foot s a F) _ held _ (nb s) (nb s')); [lia|done|]. cbn [fst snd]. rewrite Hf, Hh. solve_Permutation.
    + intros x Hx. split; [|intros Hx'; apply (Hd x Hx'); apply elem_of_app; by left].
      assert (x ∈ seqZ 1 (nb s - 1)) as Hin by (rewrite <- Hp, Hh; set_solver). rewrite elem_of_seqZ in Hin. lia.
    + intros s1 a1 F1 H1 H2 H3 _. by exists a1, F1.
  - unfold init_new_buffer in E. destruct (Z.ltb_spec (nb s) InvalidBlockNumber); [|done]. injection E as <- <-.
    exists a, F. split; [by apply inv_grow|]. apply (accounted_more (foot s a F) _ held _ (nb s) (nb s + 1)); [lia|done|]. cbn [fst snd].
    replace (nb s + 1 - nb s) with 1 by lia. change (seqZ (nb s) 1) with [nb s]. by rewrite <- app_assoc.
Qed.

(** A relation of [n] blocks that has no free space manager yet. *)
Definition no_fsm (n : Z) : V2FSM := mkV2 0 (mkRoot v0 (AvlMap.mkMap AvlMap.AvlTreeMapHeader_default [])) ∅ n.

Variable MAX_SLOTS : nat.
Hypothesis Hslots : (0 < MAX_SLOTS)%nat /\ Z.of_nat MAX_SLOTS <= 65535.

Lemma created_accounted n b s : 0 < n <= InvalidBlockNumber -> create MAX_ENTRIES MAX_SLOTS (no_fsm n) = (Ok b, s) ->
  accounted (s, seqZ 1 (n - 1)).
Proof.
  intros Hn E. eapply vruns_ok in E; [|eapply (v2_create_spec _ _ Hmax Hslots (no_fsm n) (fun b s' => exists a F, inv MAX_ENTRIES s' a F /\ nb s' = n + Z.of_nat (S MAX_SLOTS) /\ foot s' a F = seqZ n (Z.of_nat (S MAX_SLOTS)))); [done|]].
  - destruct E as (a & F & Hi & Hnb & Hf). exists a, F. split; [done|]. cbn [fst snd]. rewrite Hf, Permutation_app_comm.
    replace (nb s - 1) with ((n - 1) + Z.of_nat (S MAX_SLOTS)) by lia. rewrite seqZ_app by lia. by replace (1 + (n - 1)) with n by lia.
  - intros s' a F H1 _ _ _ H2 H3. by exists a, F.
Qed.

Lemma history_accounted x y : rtc fsm_step x y -> accounted x -> accounted y.
Proof. induction 1; [done|]. intros Hx. eauto using fsm_step_accounted. Qed.

(** C30: From its creation on, through any history of draining and extension in any
    backends and any growth of the relation, every block of the relation is at every moment
    either on the manager's pages (its root, a leaf, or recorded as free) or with a client,
    and only once: no block is lost and none is handed out twice.  And the manager is never
    stuck: the next request returns, unless the relation cannot grow. *)
Theorem v2_blocks_partitioned n b s x : 0 < n <= InvalidBlockNumber -> create MAX_ENTRIES MAX_SLOTS (no_fsm n) = (Ok b, s) ->
  rtc fsm_step (s, seqZ 1 (n - 1)) x ->
  footprint x.1 ++ x.2 ≡ₚ seqZ 1 (nb x.1 - 1) /\
  (forall be many, normal_xid (next_full_xid be) -> vruns (drain MAX_ENTRIES be many) x.1 (fun bs _ => (length bs <= many)%nat)) /\
  (forall be w bs rest, normal_xid w -> x.2 ≡ₚ bs ++ rest ->
     vruns (extend_with_when_recyclable MAX_ENTRIES be w bs) x.1 (fun _ _ => True)).
Proof.
  intros Hn E Hh. destruct (history_accounted _ _ Hh (created_accounted _ _ _ Hn E)) as (a & F & Hi & Hp).
  split; [by rewrite (inv_footprint _ _ _ _ Hi)|]. split.
  - intros be many Hx. eapply drain_spec; [done|done|done|]. intros s' a' F' bs Hdu.
    apply (du_many _ _ _ _ _ _ _ _ _ _ _ _ Hdu).
  - intros be w bs rest Hw Hh'. assert (NoDup (foot x.1 a F ++ x.2)) as Hnd by (rewrite Hp; apply NoDup_seqZ).
    rewrite Hh' in Hnd. apply NoDup_app in Hnd as (_ & Hd & (Hndb & _)%NoDup_app).
    eapply extend_spec; [done|done|done|done| |done]. intros y Hy. split; [|intros Hy'; apply (Hd y Hy'); apply elem_of_app; by left].
    assert (y ∈ seqZ 1 (nb x.1 - 1)) as Hin by (rewrite <- Hp, Hh'; set_solver). rewrite elem_of_seqZ in Hin. lia.
Qed.

End histories.

(** ** Which blocks are reused when *)

Section timing.
Variable MAX_ENTRIES : nat.
Hypothesis Hmax : (0 < MAX_ENTRIES)%nat /\ Z.of_nat MAX_ENTRIES < 2 ^ 32.

(** A state of the manager. *)
Definition well_formed s : Prop := exists a F, inv MAX_ENTRIES s a F.

(** C31: Draining hands out only blocks that were recorded for a transaction not after the
    current one, and moves no block to such a transaction; when it returns fewer than asked
    for although every lock was granted, no such block is left; and a block that was recorded
    is still recorded or has been handed out.  This needs a slot for the transaction under
    which emptied leaf pages are recorded, and that transaction to be later than the current
    one. *)
Theorem v2_drain_recyclable be s many : well_formed s -> normal_xid (next_full_xid be) ->
  horizon be < next_xid be -> has_slot s (next_xid be) ->
  vruns (drain MAX_ENTRIES be many) s (fun bs s' =>
    well_formed s' /\ NoDup bs /\ (length bs <= many)%nat /\
    (forall b, b ∈ bs -> exists k, k <= horizon be /\ records s k b) /\
    (forall k b, k <= horizon be -> records s' k b -> records s k b) /\
    (forall k b, records s k b -> records s' k b \/ b ∈ bs) /\
    ((forall s b, try_lock be s b = true) -> horizon be < 2 ^ 64 -> (length bs < many)%nat ->
       forall k b, k <= horizon be -> ~ records s' k b)).
Proof.
  intros (a & F & Hi) Hx Hlt Hroom. eapply drain_spec; [done|done|done|]. intros s' a' F' bs Hdu.
  pose proof (has_slot_roomy _ _ _ _ Hi _ Hroom) as Hr. assert (taken (H := v2_ops MAX_ENTRIES be) s s' bs) as Ht by by eapply v2_taken.
  destruct (du_calm _ _ _ _ _ _ _ _ _ _ _ _ Hdu Hr Hlt) as (_ & Hfa & Hkp & Hb).
  pose proof (du_inv _ _ _ _ _ _ _ _ _ _ _ _ Hdu) as Hi'. pose proof (records_free_at _ _ _ _ Hi) as E.
  pose proof (records_free_at _ _ _ _ Hi') as E'.
  split; [by exists a', F'|]. split; [apply Ht|]. split; [apply (du_many _ _ _ _ _ _ _ _ _ _ _ _ Hdu)|].
  split; [|split; [|split]].
  - intros b [?%elem_of_nil|(k & Hk & Hf)]%Hb; [done|]. exists k. by rewrite E.
  - intros k b Hk. rewrite E, E'. apply Hfa. lia.
  - intros k b. rewrite E, E'. apply Hkp.
  - intros Hlk H64 Hl k b Hk. rewrite E'. by apply (du_all _ _ _ _ _ _ _ _ _ _ _ _ Hdu).
Qed.

(** C32: Blocks that are given back become recorded for the transaction they were given
    back with, or for a later one if every slot is taken by another transaction (index
    creation records everything as reusable at once); no block that was recorded before is
    lost or moved to an earlier transaction. *)
Theorem v2_extend_records be s w bs : well_formed s -> normal_xid w -> NoDup bs ->
  (forall b, b ∈ bs -> 0 < b < nb s /\ b ∉ footprint s) ->
  vruns (extend_with_when_recyclable MAX_ENTRIES be w bs) s (fun _ s' =>
    well_formed s' /\
    (forall b, b ∈ bs -> exists k, recorded_xid be w <= k /\ records s' k b /\ (has_slot s (recorded_xid be w) -> k = recorded_xid be w)) /\
    (forall k b, records s k b -> exists k', k <= k' /\ records s' k' b /\ (has_slot s (recorded_xid be w) -> k' = k))).
Proof.
  intros (a & F & Hi) Hw Hnd Hfresh. eapply extend_spec; [done|done|done|done| |].
  { intros x Hx. rewrite <- (inv_footprint _ _ _ _ Hi). by apply Hfresh. }
  intros s' a' F' Hi' _ _ Hg. pose proof (records_free_at _ _ _ _ Hi) as E. pose proof (records_free_at _ _ _ _ Hi') as E'.
  split; [by exists a', F'|]. destruct Hg as [[-> ->]|(tg & ch & Hfd & -> & Hrec & _)].
  { split; [by intros b ?%elem_of_nil|]. intros k b Hr. exists k. split; [lia|]. done. }
  set (x := recorded_xid be w) in *.
  assert (has_slot s x -> a_free a = [] -> x ∈ (keyed a).*1) as Hroom.
  { intros Hs Hf. by destruct (has_slot_roomy _ _ _ _ Hi _ Hs). }
  split.
  - intros b Hb. destruct (found_key _ _ _ _ Hfd) as (k & Hin & Hle & Hk). exists k. split; [done|]. rewrite E'. split.
    + exists tg. split; [done|]. rewrite upd_eq, Hrec. apply elem_of_app. by right.
    + intros Hs. destruct Hk as [|Hk]; [done|]. pose proof (Hroom Hs Hk) as Hin'.
      destruct Hfd as [tg Hkd|a' tg Hni _ _|a' k0 tg rest Hni _ _ _ _]; [|done|done]. by eapply keyed_tag_inj.
  - intros k b. rewrite E. intros (tg' & Hin & Hb). destruct (found_later _ _ _ _ Hfd k tg' Hin) as (k' & Hle & Hin' & Hk').
    exists k'. split; [done|]. rewrite E'. split.
    + exists tg'. split; [done|]. destruct (decide (tg' = tg)) as [->|Hne]; [|by rewrite upd_ne].
      rewrite upd_eq, Hrec. apply elem_of_app. by left.
    + intros Hs. destruct Hk' as [|Hk']; [done|]. pose proof (Hroom Hs Hk') as Hin''.
      destruct Hfd as [tg Hkd|a' tg Hni _ _|a' k0 tg rest Hni _ _ _ _]; [|done|done]. by eapply keyed_tag_inj.
Qed.

(** Recorded blocks of a manager that has just been created: none. *)
Lemma extend_fresh be s a F w bs (Q : unit -> V2FSM -> Prop) : inv MAX_ENTRIES s a F -> keyed a = [] -> normal_xid w -> NoDup bs ->
  (forall b, b ∈ bs -> 0 < b < nb s /\ b ∉ foot s a F) -> bs <> [] ->
  (forall s' a' F' tg, inv MAX_ENTRIES s' a' F' -> keyed a' ≡ₚ [(recorded_xid be w, tg)] -> recorded (F' tg) ≡ₚ bs ->
     a_free a = tg :: a_free a' -> Q tt s') ->
  vruns (extend_with_when_recyclable MAX_ENTRIES be w bs) s Q.
Proof.
  intros Hi Hk Hw Hnd Hfresh Hne HQ. eapply extend_spec; [done|done|done|done|done|].
  intros s' a' F' Hi' _ _ [[? _]|(tg & ch & Hfd & -> & Hrec & _)]; [done|].
  destruct Hfd as [tg Hin|a' tg _ Hk' Hf|a' k tg rest _ Hk' _ _ _].
  - rewrite Hk in Hin. by apply elem_of_nil in Hin.
  - rewrite Hk in Hk'. eapply (HQ _ _ _ tg); [done|done| |done]. rewrite upd_eq, Hrec.
    rewrite (iv_free _ _ _ _ Hi); [done|]. rewrite Hf. left.
  - rewrite Hk in Hk'. by apply Permutation_nil_cons in Hk'.
Qed.

Variable MAX_SLOTS : nat.
Hypothesis Hslots : (0 < MAX_SLOTS)%nat /\ Z.of_nat MAX_SLOTS <= 65535.

(** C33: Blocks given to a new manager and drained later, by a backend whose transaction is
    not before theirs and to which all locks are granted, come back exactly once each. *)
Theorem v2_extend_then_drain n be1 be2 w bs : 0 < n <= InvalidBlockNumber -> (2 <= MAX_SLOTS)%nat ->
  normal_xid w -> NoDup bs -> (forall b, b ∈ bs -> 0 < b < n) ->
  normal_xid (next_full_xid be2) -> recorded_xid be1 w <= horizon be2 -> horizon be2 < next_xid be2 -> horizon be2 < 2 ^ 64 ->
  (forall s b, try_lock be2 s b = true) ->
  vruns (_ ← create MAX_ENTRIES MAX_SLOTS; extend_with_when_recyclable MAX_ENTRIES be1 w bs;; drain MAX_ENTRIES be2 (length bs))
    (no_fsm n) (fun bs' _ => bs' ≡ₚ bs).
Proof.
  intros Hn Hsl Hw Hnd Hbs Hx Hle Hlt H64 Hlk. apply vruns_bind, v2_create_spec; [done|done|done|].
  intros s a F Hi Hk Hfl Hst Hnb Hf. cbn [no_fsm nb] in Hnb, Hf. apply vruns_bind. destruct (decide (bs = [])) as [->|Hne].
  { apply vruns_ret. eapply drain_spec; [done|done|done|]. intros s' a' F' bs' Hdu.
    pose proof (du_many _ _ _ _ _ _ _ _ _ _ _ _ Hdu). destruct bs'; [done|simpl in *; lia]. }
  eapply extend_fresh; [done|done|done|done| |done|].
  { intros b Hb. specialize (Hbs b Hb). rewrite Hf, elem_of_seqZ. lia. }
  intros s1 a1 F1 tg Hi1 Hk1 Hrec Hfr. eapply drain_spec; [done|done|done|]. intros s' a' F' bs' Hdu.
  assert (forall k b, free_at a1 F1 k b <-> k = recorded_xid be1 w /\ b ∈ bs) as Hfree.
  { intros k b. split.
    - intros (tg' & Hin & Hb). rewrite Hk1, list_elem_of_singleton in Hin. injection Hin as -> ->. by rewrite <- Hrec.
    - intros [-> Hb]. exists tg. rewrite Hk1, Hrec. split; [by apply list_elem_of_singleton|done]. }
  assert (roomy be2 a1) as Hroom.
  { left. intros Hnil. rewrite Hfr, Hnil in Hfl. simpl in Hfl. lia. }
  assert (taken (H := v2_ops MAX_ENTRIES be2) s1 s' bs') as Ht by by eapply v2_taken.
  destruct (du_calm _ _ _ _ _ _ _ _ _ _ _ _ Hdu Hroom Hlt) as (_ & _ & Hkp & Hb).
  assert (forall b, b ∈ bs' -> b ∈ bs) as Hsub by (intros b [?%elem_of_nil|(k & _ & [_ ?]%Hfree)]%Hb; done).
  assert (bs' ⊆+ bs) as Hsm by (apply NoDup_submseteq; [apply Ht|done]).
  apply submseteq_length_Permutation; [done|]. apply Nat.nlt_ge. intros Hshort.
  pose proof (du_all _ _ _ _ _ _ _ _ _ _ _ _ Hdu Hroom Hlt H64 Hlk Hshort) as Hall.
  enough (bs ⊆+ bs') by (apply submseteq_length in H; lia). apply NoDup_submseteq; [done|]. intros b Hin.
  destruct (Hkp (recorded_xid be1 w) b) as [Hf'|]; [by apply Hfree| |done]. exfalso. by eapply Hall.
Qed.

End timing.

(** ** Examples *)

(** A backend whose transaction is 100 and which is granted every lock. *)
Definition be100 : backend := mkBackend false 100 101 (fun _ _ => true).

(** Leaves of two entries, three transactions; a relation of ten blocks, of which five were
    freed in transaction 50. *)
Definition fsm10 : V2FSM := (create 2 3 (no_fsm 10)).2.
Definition fsm10_freed : V2FSM := (extend_with_when_recyclable 2 be100 50 [2; 3; 4; 5; 6] fsm10).2.
Definition fsm10_drained : V2FSM := (drain 2 be100 3 fsm10_freed).2.

Definition fsm10_empty : V2FSM := (drain 2 be100 9 fsm10_freed).2.

Lemma two_entries : (0 < 2)%nat /\ Z.of_nat 2 < 2 ^ 32.
Proof. lia. Qed.

Lemma three_slots : (0 < 3)%nat /\ Z.of_nat 3 <= 65535.
Proof. lia. Qed.

Lemma fsm10_created : create 2 3 (no_fsm 10) = (Ok 10, fsm10).
Proof. vm_compute. reflexivity. Qed.

Lemma fsm10_extended : extend_with_when_recyclable 2 be100 50 [2; 3; 4; 5; 6] fsm10 = (Ok tt, fsm10_freed).
Proof. vm_compute. reflexivity. Qed.

Lemma fsm10_drains : drain 2 be100 3 fsm10_freed = (Ok [3; 2; 5], fsm10_drained).
Proof. vm_compute. reflexivity. Qed.

Lemma fsm10_drains_all : drain 2 be100 9 fsm10_freed = (Ok [3; 2; 5; 4; 6], fsm10_empty).
Proof. vm_compute. reflexivity. Qed.

Lemma normal_small x : 3 <= x <= 1000 -> normal_xid x.
Proof. unfold normal_xid, FirstNormalTransactionId. lia. Qed.

Lemma fsm10_history : rtc (fsm_step 2) (fsm10, seqZ 1 9) (fsm10_drained, [1; 7; 8; 9; 3; 2; 5]).
Proof.
  eapply rtc_l; [eapply (step_extend 2 be100 50 [2; 3; 4; 5; 6] fsm10 (seqZ 1 9) [1; 7; 8; 9])|].
  - change (seqZ 1 9) with [1; 2; 3; 4; 5; 6; 7; 8; 9]. solve_Permutation.
  - apply normal_small. lia.
  - apply fsm10_extended.
  - eapply rtc_l; [eapply (step_drain 2 be100 3), fsm10_drains; apply normal_small; simpl; lia|]. apply rtc_refl.
Qed.

Local Opaque fsm10 fsm10_freed fsm10_drained fsm10_empty.

Lemma v2_blocks_partitioned_witness :
  footprint fsm10_drained ++ [1; 7; 8; 9; 3; 2; 5] ≡ₚ seqZ 1 (nb fsm10_drained - 1) /\ In 4 (footprint fsm10_drained).
Proof.
  pose proof (v2_blocks_partitioned 2 two_entries 3 three_slots 10 10 fsm10 (fsm10_drained, [1; 7; 8; 9; 3; 2; 5])
    ltac:(vm_compute; split; [reflexivity|discriminate]) fsm10_created fsm10_history) as [H _]. cbn [fst snd] in H.
  split; [exact H|vm_compute; tauto].
Defined.

Lemma fsm10_accounted : accounted 2 (fsm10, seqZ 1 9).
Proof. eapply (created_accounted 2 two_entries 3 three_slots 10 10), fsm10_created. vm_compute. split; [reflexivity|discriminate]. Qed.

Lemma fsm10_freed_accounted : accounted 2 (fsm10_freed, [1; 7; 8; 9]).
Proof.
  refine (fsm_step_accounted 2 two_entries _ _ _ fsm10_accounted). eapply (step_extend 2 be100 50 [2; 3; 4; 5; 6]), fsm10_extended.
  - change (seqZ 1 9) with [1; 2; 3; 4; 5; 6; 7; 8; 9]. solve_Permutation.
  - apply normal_small. lia.
Qed.

Lemma fsm10_well_formed : well_formed 2 fsm10 /\ well_formed 2 fsm10_freed.
Proof.
  destruct fsm10_accounted as (a & F & Hi & _), fsm10_freed_accounted as (a' & F' & Hi' & _). split; eexists _, _; done.
Qed.

Lemma fsm10_has_slot : has_slot fsm10 50 /\ has_slot fsm10_freed 101.
Proof.
  split; [eexists (nth 1 (slots fsm10) AvlMap.Slot_default)|eexists (nth 1 (slots fsm10_freed) AvlMap.Slot_default)];
    (split; [apply list_elem_of_In; vm_compute; tauto|vm_compute; discriminate]).
Qed.

(** A backend that asks for more than there is gets everything that may be reused. *)
Lemma v2_drain_recyclable_witness :
  NoDup [3; 2; 5; 4; 6] /\ (forall k b, k <= 100 -> ~ records fsm10_empty k b).
Proof.
  pose proof (v2_drain_recyclable 2 two_entries be100 fsm10_freed 9 (proj2 fsm10_well_formed)
    (normal_small 101 ltac:(lia)) ltac:(vm_compute; reflexivity) (proj2 fsm10_has_slot)) as H.
  destruct (vruns_ok _ _ _ _ _ H fsm10_drains_all) as (_ & Hnd & _ & _ & _ & _ & Hall).
  split; [exact Hnd|]. apply Hall; [reflexivity|vm_compute; reflexivity|cbn; lia].
Defined.

Lemma v2_extend_records_witness :
  (forall b, b ∈ [2; 3; 4; 5; 6] -> records fsm10_freed 50 b) /\ well_formed 2 fsm10_freed.
Proof.
  assert (forall b, b ∈ [2; 3; 4; 5; 6] -> 0 < b < nb fsm10 /\ b ∉ footprint fsm10) as Hfr.
  { change (nb fsm10) with 14. replace (footprint fsm10) with [10; 11; 12; 13] by (vm_compute; reflexivity).
    intros b Hb. rewrite !elem_of_cons, elem_of_nil in *. lia. }
  pose proof (v2_extend_records 2 two_entries be100 fsm10 50 [2; 3; 4; 5; 6] (proj1 fsm10_well_formed)
    (normal_small 50 ltac:(lia)) ltac:(apply (bool_decide_unpack _); vm_compute; exact I) Hfr) as H.
  destruct (vruns_ok _ _ _ _ _ H fsm10_extended) as (Hw & Hb & _). split; [|exact Hw].
  intros b Hin. destruct (Hb b Hin) as (k & _ & Hr & Hk). rewrite (Hk (proj1 fsm10_has_slot)) in Hr. exact Hr.
Defined.

Lemma v2_extend_then_drain_witness :
  vruns (_ ← create 2 3; extend_with_when_recyclable 2 be100 50 [2; 3; 4; 5; 6];; drain 2 be100 5)
    (no_fsm 10) (fun bs _ => bs ≡ₚ [2; 3; 4; 5; 6]).
Proof.
  apply (v2_extend_then_drain 2 two_entries 3 three_slots 10 be100 be100 50 [2; 3; 4; 5; 6]);
    try (apply normal_small; cbn; lia); try (vm_compute; reflexivity); try lia.
  - vm_compute. split; [reflexivity|discriminate].
  - apply (bool_decide_unpack _); vm_compute; exact I.
  - intros b Hb. rewrite !elem_of_cons, elem_of_nil in Hb. lia.
  - vm_compute. discriminate.
Defined.

(** When the tree is full, the page that is unlinked joins the list that is being drained:
    of a manager with a single slot, block 11, the first leaf, is handed out by the call that
    emptied it. *)
Example full_tree_reuses_head :
  let s := (create 2 1 (no_fsm 10)).2 in
  let s := (extend_with_when_recyclable 2 be100 50 [2; 3; 4; 5; 6] s).2 in
  (freelist s 11).*1 = [11; 12; 13] /\ (drain 2 be100 9 s).1 = Ok [3; 2; 5; 4; 11; 6].
Proof. vm_compute. split; reflexivity. Qed.
