(* ===== verification/FsmV1.v ===== *)
(** * The first free space manager, and its conversion

    [storage/fsm.rs], [v1]: a chain of pages, each an array of pairs of a free block and the
    32-bit id of the transaction that freed it.  Pages of the format before it (v0) are
    skipped when blocks are taken and overwritten when blocks are added.  [convert_v1_to_v2]
    moves its blocks to the manager on the AVL map. *)

From stdpp Require Import prelude gmap.
From Stdlib Require Import ZArith Lia.
From S2P Require Import Prelude Avl Xid Pages FsmV2.

Local Open Scope Z_scope.

Module FsmV1.

Import FsmV2(FSMBlockKind(..), FSMBlockKind_eq_dec).

(** [FSMEntry(blockno, xid)] *)
Abbreviation FSMEntry := (Z * Z)%type.

(** [FSMBlock] and the next block of the page's special area. *)
Record FSMBlock := mkBlock {
  kind : FSMBlockKind;
  empty : bool;
  entries : list FSMEntry;
  next_blockno : Z;
}.

Record V1FSM := mkV1 {
  start_blockno : Z;
  blocks : gmap Z FSMBlock;
  nb : Z;
}.

(** The transaction id of the backend (0 if it has none), and the conditional locks it is
    granted. *)
Record backend := mkBackend {
  current_xid : Z;
  try_lock : V1FSM -> Z -> bool;
}.

Section ops.
Variables (MAX_ENTRIES_PER_PAGE : nat) (be : backend).

Abbreviation VM := (M V1FSM unit).

Definition FSMBlock_default (next : Z) : FSMBlock :=
  mkBlock v1_uncompressed false (replicate MAX_ENTRIES_PER_PAGE (InvalidBlockNumber, InvalidTransactionId)) next.

Definition get_block (b : Z) : VM FSMBlock := fun s =>
  match blocks s !! b with Some p => (Ok p, s) | None => (Panic, s) end.

Definition put_block (b : Z) (p : FSMBlock) : VM unit :=
  modify (fun s => mkV1 (start_blockno s) (<[b := p]> (blocks s)) (nb s)).

(** PostgreSQL refuses block number 2^32 - 1. *)
Definition init_new_buffer : VM Z := fun s =>
  if nb s <? InvalidBlockNumber
  then (Ok (nb s), mkV1 (start_blockno s) (blocks s) (nb s + 1))
  else (Panic, s).

Definition create : VM Z :=
  b ← init_new_buffer;
  put_block b (FSMBlock_default InvalidBlockNumber);;
  modify (fun s => mkV1 b (blocks s) (nb s));;
  mret b.

Definition any_invalid (p : FSMBlock) : bool :=
  existsb (fun e => e.1 =? InvalidBlockNumber) (entries p).

Definition passses_visibility_horizon (fsm_xid xid_horizon : Z) : bool :=
  Xid.TransactionIdPrecedesOrEquals fsm_xid xid_horizon.

Definition xid_horizon : Z := Z.max (current_xid be) FirstNormalTransactionId.

(** ** Taking one block *)

(** The loop over the entries of a page: the entries after it, the block that was found, and
    whether all entries are invalid now. *)
Fixpoint pop_entries (es : list FSMEntry) (found_blockno : option Z) : list FSMEntry * option Z * bool :=
  match es with
  | [] => ([], found_blockno, true)
  | (blockno, fsm_xid) :: es =>
      let '(blockno, found_blockno) :=
        if negb (bool_decide (is_Some found_blockno)) && negb (blockno =? InvalidBlockNumber) &&
           passses_visibility_horizon fsm_xid xid_horizon
        then (InvalidBlockNumber, Some blockno) else (blockno, found_blockno) in
      let '(es, found_blockno, all_invalid) := pop_entries es found_blockno in
      ((blockno, fsm_xid) :: es, found_blockno, (blockno =? InvalidBlockNumber) && all_invalid)
  end.

Fixpoint pop_loop (fuel : nat) (blockno : Z) : VM (option Z) :=
  match fuel with
  | O => out_of_fuel
  | S fuel =>
      if blockno =? InvalidBlockNumber then mret None
      else
        page ← get_block blockno;
        let next := next_blockno page in
        if bool_decide (kind page = v0) then pop_loop fuel next
        else if empty page then pop_loop fuel next
        else
          granted ← (if next =? InvalidBlockNumber then mret true else gets (fun s => try_lock be s blockno));
          if negb granted then pop_loop fuel next
          else
            let '(es, found_blockno, all_invalid) := pop_entries (entries page) None in
            put_block blockno (mkBlock (kind page) (if all_invalid then true else empty page) es next);;
            match found_blockno with
            | Some b => mret (Some b)
            | None => pop_loop fuel next
            end
  end.

Definition pop : VM (option Z) :=
  n ← gets (fun s => size (blocks s)); b ← gets start_blockno; pop_loop (S (S n)) b.

(** ** Taking many *)

Fixpoint drain_entries (n : nat) (es : list FSMEntry) (acc : list Z) : list FSMEntry * list Z * bool :=
  match es with
  | [] => ([], acc, true)
  | (blockno, fsm_xid) :: es =>
      let '(blockno, acc) :=
        if (length acc <? n)%nat && negb (blockno =? InvalidBlockNumber) &&
           passses_visibility_horizon fsm_xid xid_horizon
        then (InvalidBlockNumber, acc ++ [blockno]) else (blockno, acc) in
      let '(es, acc, all_invalid) := drain_entries n es acc in
      ((blockno, fsm_xid) :: es, acc, (blockno =? InvalidBlockNumber) && all_invalid)
  end.

Fixpoint drain_loop (fuel n : nat) (blockno : Z) (acc : list Z) : VM (list Z) :=
  match fuel with
  | O => out_of_fuel
  | S fuel =>
      if blockno =? InvalidBlockNumber then mret acc
      else
        page ← get_block blockno;
        let next := next_blockno page in
        if bool_decide (kind page = v0) then drain_loop fuel n next acc
        else if empty page then drain_loop fuel n next acc
        else
          granted ← gets (fun s => try_lock be s blockno);
          if negb granted then drain_loop fuel n next acc
          else
            let '(es, acc', all_invalid) := drain_entries n (entries page) acc in
            put_block blockno (mkBlock (kind page) (if all_invalid then true else empty page) es next);;
            if negb all_invalid && (length acc =? length acc')%nat then drain_loop fuel n next acc'
            else if (length acc' =? n)%nat then mret acc'
            else drain_loop fuel n next acc'
  end.

Definition drain (n : nat) : VM (list Z) :=
  k ← gets (fun s => size (blocks s)); b ← gets start_blockno; drain_loop (S (S k)) n b [].

(** ** Adding blocks *)

(** The invalid entries of a page zipped with the blocks; what is left of them. *)
Fixpoint fill_entries (xid : Z) (es : list FSMEntry) (extend_with : list Z) : list FSMEntry * list Z :=
  match es, extend_with with
  | [], _ | _, [] => (es, extend_with)
  | e :: es, b :: rest =>
      if e.1 =? InvalidBlockNumber
      then let '(es, rest) := fill_entries xid es rest in ((b, xid) :: es, rest)
      else let '(es, rest) := fill_entries xid es extend_with in (e :: es, rest)
  end.

Definition space_available (page : FSMBlock) : bool :=
  bool_decide (kind page = v0) || empty page || any_invalid page.

(** A page with space after blocks have been added to it, and what did not fit. *)
Definition extend_page (xid : Z) (page : FSMBlock) (extend_with : list Z) : FSMBlock * list Z :=
  let page := if bool_decide (kind page = v0) then FSMBlock_default (next_blockno page) else page in
  let '(es, rest) := fill_entries xid (entries page) extend_with in
  let cnt := (length extend_with - length rest)%nat in
  (mkBlock (kind page) (if (cnt =? 0)%nat then empty page else false) es (next_blockno page), rest).

(** A new page after block [blockno]. *)
Definition new_page (blockno : Z) : VM Z :=
  new_blockno ← init_new_buffer;
  put_block new_blockno (FSMBlock_default InvalidBlockNumber);;
  page ← get_block blockno;
  put_block blockno (mkBlock (kind page) (empty page) (entries page) new_blockno);;
  mret new_blockno.

Fixpoint extend_loop (fuel : nat) (xid blockno : Z) (extend_with : list Z) : VM unit :=
  match fuel with
  | O => out_of_fuel
  | S fuel =>
      page ← get_block blockno;
      if space_available page then
        let '(page, rest) := extend_page xid page extend_with in
        put_block blockno page;;
        match rest with
        | [] => mret tt
        | _ =>
            if negb (next_blockno page =? InvalidBlockNumber) then extend_loop fuel xid (next_blockno page) rest
            else new_blockno ← new_page blockno; extend_loop fuel xid new_blockno rest
        end
      else if negb (next_blockno page =? InvalidBlockNumber) then extend_loop fuel xid (next_blockno page) extend_with
      else new_blockno ← new_page blockno; extend_loop fuel xid new_blockno extend_with
  end.

Definition extend_with_when_recyclable (when_recyclable : Z) (extend_with : list Z) : VM unit :=
  n ← gets (fun s => size (blocks s)); b ← gets start_blockno;
  extend_loop (S (S (n + length extend_with))) (u32 when_recyclable) b extend_with.

(** ** The pages themselves *)

Fixpoint used_loop (fuel : nat) (blockno : Z) : VM (list Z) :=
  match fuel with
  | O => out_of_fuel
  | S fuel =>
      if blockno =? InvalidBlockNumber then mret []
      else page ← get_block blockno; rest ← used_loop fuel (next_blockno page); mret (blockno :: rest)
  end.

Definition used_blocks : VM (list Z) :=
  n ← gets (fun s => size (blocks s)); b ← gets start_blockno; used_loop (S (S n)) b.

End ops.

(** ** Conversion *)

(** Both managers of the relation; its number of blocks is kept with the second, the only
    one that grows here. *)
Definition both : Type := V1FSM * FsmV2.V2FSM.

Definition on_v1 {A} (c : M V1FSM unit A) : M both unit A := fun s =>
  let '(o, s1) := c s.1 in (o, (s1, s.2)).

Definition on_v2 {A} (c : M FsmV2.V2FSM AvlMap.Error A) : M both unit A := fun s =>
  match c s.2 with
  | (Ok x, s2) => (Ok x, (s.1, s2))
  | (Err _, s2) => (Err tt, (s.1, s2))
  | (Panic, s2) => (Panic, (s.1, s2))
  | (OutOfFuel, s2) => (OutOfFuel, (s.1, s2))
  end.

Section convert.
Variables (MAX_ENTRIES : nat) (be1 : backend) (be2 : FsmV2.backend).

Fixpoint convert_loop (fuel : nat) : M both unit unit :=
  match fuel with
  | O => out_of_fuel
  | S fuel =>
      drained ← on_v1 (drain be1 1000);
      match drained with
      | [] => mret tt
      | _ =>
          on_v2 (FsmV2.extend_with_when_recyclable MAX_ENTRIES be2 FirstNormalTransactionId drained);;
          convert_loop fuel
      end
  end.

(** Entries there can be at most. *)
Definition capacity (s : V1FSM) : nat := length (map_to_list (blocks s) ≫= (fun bp => entries bp.2)).

Definition convert_v1_to_v2 : M both unit unit :=
  n ← gets (fun s => capacity s.1);
  convert_loop (S n);;
  v1_used_blocks ← on_v1 used_blocks;
  on_v2 (FsmV2.extend_with_when_recyclable MAX_ENTRIES be2 FirstNormalTransactionId v1_used_blocks).

End convert.

End FsmV1.
