(* ===== verification/FsmV1Props.v ===== *)
(** * The first free space manager keeps its promises

    Pages of entries, the walks along the chain that take and add entries, and the proof
    that the manager is an instance of the interface its clients rely on. *)

From stdpp Require Import prelude gmap.
From Stdlib Require Import ZArith Lia.
From S2P Require Import Prelude Avl Xid Pages FsmV2 FsmV2Props FsmV1.
Import FsmV1.

Local Open Scope Z_scope.

(** ** Entries *)

Definition valid_entry (e : FSMEntry) : Prop := e.1 <> InvalidBlockNumber.

#[global] Instance valid_entry_dec e : Decision (valid_entry e).
Proof. unfold valid_entry. apply _. Defined.

Abbreviation live es := (filter valid_entry es).

Implicit Types (es tk : list FSMEntry) (p : FSMBlock) (ch pre suf : list (Z * FSMBlock)).

Definition page_entries p : list FSMEntry := if decide (kind p = FsmV2.v0) then [] else live (entries p).

(** The free blocks on the pages of [ch], with their transactions. *)
Definition listed ch : list FSMEntry := ch ≫= (fun bp => page_entries bp.2).

Lemma listed_cons b p ch : listed ((b, p) :: ch) = page_entries p ++ listed ch.
Proof. done. Qed.

Lemma listed_app ch1 ch2 : listed (ch1 ++ ch2) = listed ch1 ++ listed ch2.
Proof. apply bind_app. Qed.

Definition link1 suf : Z := match suf with (b, _) :: _ => b | [] => InvalidBlockNumber end.

Definition stop1 (s : V1FSM) : Prop := nb s = InvalidBlockNumber.

Lemma mwp_new_buffer_v1 (s : V1FSM) (Q : Z -> V1FSM -> Prop) : nb s <= InvalidBlockNumber ->
  (nb s < InvalidBlockNumber -> Q (nb s) (mkV1 (start_blockno s) (blocks s) (nb s + 1))) -> mwp stop1 init_new_buffer s Q.
Proof. intros Hle HQ. unfold mwp, init_new_buffer. destruct (Z.ltb_spec (nb s) InvalidBlockNumber); [by apply HQ|unfold stop1; lia]. Qed.

Section props.
Variable MAX : nat.

Record page_ok p : Prop := {
  po_kind : kind p = FsmV2.v0 \/ kind p = FsmV2.v1_uncompressed;
  po_length : kind p <> FsmV2.v0 -> length (entries p) = MAX;
  po_empty : kind p <> FsmV2.v0 -> empty p = true -> live (entries p) = [];
}.

Lemma default_ok n : page_ok (FSMBlock_default MAX n).
Proof. split; [by right|intros _; apply length_replicate|done]. Qed.

Lemma live_replicate n : live (replicate n (InvalidBlockNumber, InvalidTransactionId)) = [].
Proof. induction n as [|n IH]; [done|]. simpl. rewrite filter_cons_False; [done|]. by intros []. Qed.

Lemma page_entries_default n : page_entries (FSMBlock_default MAX n) = [].
Proof. apply live_replicate. Qed.

(** ** Taking entries from a page *)

Section taking.
Variable be : backend.

Definition passes (e : FSMEntry) : Prop := passses_visibility_horizon e.2 (xid_horizon be) = true.

#[global] Instance passes_dec e : Decision (passes e).
Proof. unfold passes. apply _. Defined.

(** Between the entries [es] and [es'] the entries [tk] have been taken; [all] says whether
    none is left. *)
Record picked (n : nat) es (acc : list Z) es' tk (all : bool) : Prop := {
  pi_live : live es ≡ₚ live es' ++ tk;
  pi_passes : Forall passes tk;
  pi_length : length es' = length es;
  pi_all : all = true <-> live es' = [];
  pi_none : tk = [] -> es' = es;
  pi_few : (length acc <= n -> length acc + length tk <= n)%nat;
  pi_rest : (length acc + length tk < n)%nat -> Forall (fun e => ~ passes e) (live es');
}.

Lemma drain_entries_spec n es acc : exists es' tk all,
  drain_entries be n es acc = (es', acc ++ tk.*1, all) /\ picked n es acc es' tk all.
Proof.
  revert acc. induction es as [|[b x] es IH]; intros acc.
  { exists [], [], true. simpl. rewrite app_nil_r. split; [done|]. split; simpl; try done. intros; lia. }
  cbn [drain_entries]. destruct ((length acc <? n)%nat && negb (b =? InvalidBlockNumber) && passses_visibility_horizon x (xid_horizon be)) eqn:E.
  - apply andb_true_iff in E as [[Hn%Nat.ltb_lt Hb%negb_true_iff%Z.eqb_neq]%andb_true_iff Hp].
    destruct (IH (acc ++ [b])) as (es' & tk & all & -> & [Hl Hf Hlen Ha Hno Hfew Hr]). rewrite <- app_assoc.
    exists ((InvalidBlockNumber, x) :: es'), ((b, x) :: tk), (true && all). split; [done|].
    rewrite length_app in *. cbn [length] in *. split; cbn [length]; try lia.
    + rewrite filter_cons_True by done. rewrite filter_cons_False by (by intros []). by rewrite <- Permutation_middle, Hl.
    + by constructor.
    + rewrite filter_cons_False by (by intros []). done.
    + done.
    + rewrite filter_cons_False by (by intros []). intros. apply Hr. lia.
  - destruct (IH acc) as (es' & tk & all & -> & [Hl Hf Hlen Ha Hno Hfew Hr]).
    exists ((b, x) :: es'), tk, ((b =? InvalidBlockNumber) && all). split; [done|].
    destruct (Z.eqb_spec b InvalidBlockNumber) as [->|Hb]; cbn [negb andb] in *.
    + assert (forall l, live ((InvalidBlockNumber, x) :: l) = live l) as El by (intros l; rewrite filter_cons_False; [done|by intros []]).
      split; rewrite ?El; cbn [length]; try done; try lia. intros Ht. by rewrite Hno.
    + assert (forall l, live ((b, x) :: l) = (b, x) :: live l) as El by (intros l; by apply filter_cons_True).
      split; rewrite ?El; cbn [length]; try done; try lia.
      * by rewrite Hl.
      * intros Ht. by rewrite Hno.
      * intros Hlt. constructor; [|by apply Hr]. unfold passes. cbn [snd]. intros Hp. rewrite Hp in E.
        rewrite (proj2 (Nat.ltb_lt (length acc) n)) in E by lia. done.
Qed.

(** Popping is draining one. *)
Lemma pop_entries_drain es o : pop_entries be es o =
  let '(es', acc, all) := drain_entries be 1 es (option_list o) in (es', head acc, all).
Proof.
  revert o. induction es as [|[b x] es IH]; intros o; [by destruct o|]. cbn [pop_entries drain_entries]. destruct o as [b'|].
  - cbn. rewrite (IH (Some b')). cbn. by destruct (drain_entries be 1 es [b']) as [[? ?] ?].
  - cbn. destruct (negb (b =? InvalidBlockNumber) && passses_visibility_horizon x (xid_horizon be)).
    + rewrite (IH (Some b)). cbn. by destruct (drain_entries be 1 es [b]) as [[? ?] ?].
    + rewrite (IH None). cbn. by destruct (drain_entries be 1 es []) as [[? ?] ?].
Qed.

(** ** Walking along the chain *)

Abbreviation chain1 := (Pages.chain next_blockno).
Implicit Types (s : V1FSM).

Record walking s pre suf : Prop := {
  wk_chain : chain1 (blocks s) (start_blockno s) (pre ++ suf);
  wk_nodup : NoDup (pre ++ suf).*1;
  wk_pages : Forall (fun bp => page_ok bp.2) (pre ++ suf);
}.

Lemma walking_head s pre b p suf : walking s pre ((b, p) :: suf) ->
  b <> InvalidBlockNumber /\ blocks s !! b = Some p /\ next_blockno p = link1 suf /\ page_ok p.
Proof.
  intros [(_ & Hv & Hb & Hn)%chain_mid _ [_ [Hp _]%Forall_cons]%Forall_app]. split; [done|]. split; [done|]. split; [|done].
  destruct suf as [|[b' p'] suf]; [done|]. by destruct Hn.
Qed.

Lemma walking_next s pre b p suf : walking s pre ((b, p) :: suf) -> walking s (pre ++ [(b, p)]) suf.
Proof. intros [? ? ?]. by split; rewrite <- app_assoc. Qed.

Definition with_blocks s (m : gmap Z FSMBlock) : V1FSM := mkV1 (start_blockno s) m (nb s).

Lemma walking_put s pre b p p' suf : walking s pre ((b, p) :: suf) -> next_blockno p' = next_blockno p -> page_ok p' ->
  walking (with_blocks s (<[b := p']> (blocks s))) pre ((b, p') :: suf).
Proof.
  intros [Hc Hnd Hp] Hn Hp'. split; cbn.
  - by eapply chain_update.
  - by rewrite fmap_app in *.
  - apply Forall_app in Hp as [? [_ ?]%Forall_cons]. apply Forall_app. split; [done|]. by constructor.
Qed.

(** The entries [tk] have been taken from the pages [suf]. *)
Record thinned s s' pre suf suf' tk : Prop := {
  th_walk : walking s' pre suf';
  th_start : start_blockno s' = start_blockno s;
  th_nb : nb s' = nb s;
  th_blocks : suf'.*1 = suf.*1;
  th_listed : listed suf ≡ₚ listed suf' ++ tk;
  th_passes : Forall passes tk;
}.

Lemma thinned_here s pre suf : walking s pre suf -> thinned s s pre suf suf [].
Proof. intros Hw. split; try done. by rewrite app_nil_r. Qed.

Lemma thinned_cons s s1 s' pre b p p' suf suf' tk1 tk2 : start_blockno s1 = start_blockno s -> nb s1 = nb s ->
  page_entries p ≡ₚ page_entries p' ++ tk1 -> Forall passes tk1 -> thinned s1 s' (pre ++ [(b, p')]) suf suf' tk2 ->
  thinned s s' pre ((b, p) :: suf) ((b, p') :: suf') (tk1 ++ tk2).
Proof.
  intros Hst Hnb Hp Hf [[Hc Hnd Hpg] Hst' Hnb' Hb Hl Hf']. rewrite <- app_assoc in *. split; [by split|congruence|congruence| | |by apply Forall_app].
  - rewrite !fmap_cons. by rewrite Hb.
  - rewrite !listed_cons, Hp, Hl. solve_Permutation.
Qed.

Definition no_stop (s : V1FSM) : Prop := False.

Lemma mwp_get_block b p s (Q : FSMBlock -> V1FSM -> Prop) stop : blocks s !! b = Some p -> Q p s -> mwp stop (get_block b) s Q.
Proof. intros Hb HQ. unfold mwp, get_block. by rewrite Hb. Qed.

(** A page after the loop over its entries. *)
Lemma picked_page n p acc es' tk all : page_ok p -> kind p <> FsmV2.v0 -> empty p = false -> picked n (entries p) acc es' tk all ->
  let p' := mkBlock (kind p) (if all then true else empty p) es' (next_blockno p) in
  page_ok p' /\ page_entries p ≡ₚ page_entries p' ++ tk.
Proof.
  intros [Hk Hl He] Hv Hne [Hp Hf Hlen Ha _ _ _]. cbn. split.
  - split; cbn; [done|intros _; by rewrite Hlen, Hl|]. intros _ Hx. apply Ha. destruct all; [done|congruence].
  - unfold page_entries. cbn. by rewrite !decide_False.
Qed.

Lemma drain_loop_v1_spec fuel n pre suf acc s (Q : list Z -> V1FSM -> Prop) : walking s pre suf -> (length suf < fuel)%nat ->
  (length acc <= n)%nat ->
  (forall s' suf' tk, thinned s s' pre suf suf' tk -> (length acc + length tk <= n)%nat ->
     ((forall s b, try_lock be s b = true) -> (length acc + length tk < n)%nat -> Forall (fun e => ~ passes e) (listed suf')) ->
     Q (acc ++ tk.*1) s') ->
  mwp no_stop (drain_loop be fuel n (link1 suf) acc) s Q.
Proof.
  revert fuel pre acc s Q. induction suf as [|[b p] suf IH]; intros [|fuel] pre acc s Q Hw Hf Hacc HQ; try (simpl in Hf; lia); cbn [drain_loop link1].
  { rewrite Z.eqb_refl. apply mwp_ret. rewrite <- (app_nil_r acc). apply (HQ s [] []); [by apply thinned_here|simpl; lia|by constructor]. }
  destruct (walking_head _ _ _ _ _ Hw) as (Hv & Hb & Hn & Hp). rewrite (proj2 (Z.eqb_neq _ _) Hv).
  apply mwp_bind. eapply mwp_get_block; [done|]. rewrite Hn. cbn [length] in Hf.
  assert ((page_entries p = [] \/ exists s b, try_lock be s b = false) -> mwp no_stop (drain_loop be fuel n (link1 suf) acc) s Q) as Hskip.
  { intros Hwhy. apply (IH fuel (pre ++ [(b, p)])); [by apply walking_next|lia|done|]. intros s' suf' tk Ht Hle Hall.
    apply (HQ s' ((b, p) :: suf') tk); [|done|].
    - apply (thinned_cons s s s' pre b p p suf suf' []); [done|done|by rewrite app_nil_r|done|done].
    - intros Hlk Hlt. rewrite listed_cons. apply Forall_app. split; [|by apply Hall].
      destruct Hwhy as [->|(s1 & b1 & Hno)]; [done|]. by rewrite Hlk in Hno. }
  case_bool_decide as Hk; [apply Hskip; left; unfold page_entries; by rewrite decide_True|].
  destruct (empty p) eqn:He; [apply Hskip; left; unfold page_entries; rewrite decide_False by done; by apply (po_empty _ Hp)|].
  apply mwp_bind, mwp_gets. destruct (try_lock be s b) eqn:Hlock; cbn [negb]; [|apply Hskip; right; eauto].
  destruct (drain_entries_spec n (entries p) acc) as (es' & tk & all & -> & Hpk). rewrite <- Hn at 1.
  destruct (picked_page _ _ _ _ _ _ Hp Hk He Hpk) as [Hp' Hl']. rewrite He in Hp', Hl'. set (p' := mkBlock _ _ _ _) in *.
  apply mwp_bind. set (s1 := with_blocks s (<[b := p']> (blocks s))). apply mwp_modify. change (mkV1 _ _ _) with s1.
  pose proof (walking_put _ _ _ _ p' _ Hw eq_refl Hp') as Hw1. fold s1 in Hw1.
  pose proof (pi_few _ _ _ _ _ _ Hpk Hacc) as Hfew. pose proof (pi_passes _ _ _ _ _ _ Hpk) as Hpass.
  assert (length (acc ++ tk.*1) = length acc + length tk)%nat as El by (by rewrite length_app, length_fmap).
  assert (mwp no_stop (drain_loop be fuel n (link1 suf) (acc ++ tk.*1)) s1 Q) as Hgo.
  { apply (IH fuel (pre ++ [(b, p')])); [by apply walking_next|lia|lia|]. rewrite El. intros s' suf' tk2 Ht Hle Hall.
    rewrite <- app_assoc, <- fmap_app. apply (HQ s' ((b, p') :: suf')); [by apply (thinned_cons s s1)|rewrite length_app; lia|].
    rewrite length_app. intros Hlk Hlt. rewrite listed_cons. apply Forall_app. split; [|apply Hall; [done|lia]].
    unfold page_entries. rewrite decide_False by done. apply (pi_rest _ _ _ _ _ _ Hpk). lia. }
  destruct (negb all && _); [done|]. destruct (Nat.eqb_spec (length (acc ++ tk.*1)) n) as [Hfull|]; [|done].
  apply mwp_ret. rewrite <- (app_nil_r tk). apply (HQ s1 ((b, p') :: suf)).
  - apply (thinned_cons s s1); [done..|]. by apply thinned_here, walking_next.
  - rewrite app_nil_r. lia.
  - rewrite app_nil_r. intros _ Hlt. lia.
Qed.

Lemma option_list_head {A} (l : list A) : (length l <= 1)%nat -> option_list (head l) = l.
Proof. destruct l as [|x [|y l]]; simpl; [done|done|lia]. Qed.

Lemma pop_loop_spec fuel pre suf s (Q : option Z -> V1FSM -> Prop) : walking s pre suf -> (length suf < fuel)%nat ->
  (forall s' suf' tk o, thinned s s' pre suf suf' tk -> option_list o = tk.*1 -> Q o s') ->
  mwp no_stop (pop_loop be fuel (link1 suf)) s Q.
Proof.
  revert fuel pre s Q. induction suf as [|[b p] suf IH]; intros [|fuel] pre s Q Hw Hf HQ; try (simpl in Hf; lia); cbn [pop_loop link1].
  { rewrite Z.eqb_refl. apply mwp_ret. eapply HQ; [by apply thinned_here|done]. }
  destruct (walking_head _ _ _ _ _ Hw) as (Hv & Hb & Hn & Hp). rewrite (proj2 (Z.eqb_neq _ _) Hv).
  apply mwp_bind. eapply mwp_get_block; [done|]. rewrite Hn. cbn [length] in Hf.
  assert (mwp no_stop (pop_loop be fuel (link1 suf)) s Q) as Hskip.
  { apply (IH fuel (pre ++ [(b, p)])); [by apply walking_next|lia|]. intros s' suf' tk o Ht Ho.
    apply (HQ s' ((b, p) :: suf') tk); [|done].
    apply (thinned_cons s s s' pre b p p suf suf' []); [done|done|by rewrite app_nil_r|done|done]. }
  case_bool_decide as Hk; [done|]. destruct (empty p) eqn:He; [done|]. apply mwp_bind.
  enough (mwp no_stop (let '(es, found_blockno, all_invalid) := pop_entries be (entries p) None in
    put_block b (mkBlock (kind p) (if all_invalid then true else false) es (link1 suf));;
    match found_blockno with Some b => mret (Some b) | None => pop_loop be fuel (link1 suf) end) s Q) as Hgo.
  { destruct (link1 suf =? InvalidBlockNumber); [by apply mwp_ret|]. apply mwp_gets. by destruct (try_lock be s b). }
  rewrite pop_entries_drain. destruct (drain_entries_spec 1 (entries p) []) as (es' & tk & all & E & Hpk).
  change (option_list (@None Z)) with (@nil Z). rewrite E, app_nil_l. rewrite <- Hn at 1. destruct (picked_page _ _ _ _ _ _ Hp Hk He Hpk) as [Hp' Hl'].
  rewrite He in Hp', Hl'. set (p' := mkBlock _ _ _ _) in *. apply mwp_bind.
  set (s1 := with_blocks s (<[b := p']> (blocks s))). apply mwp_modify. change (mkV1 _ _ _) with s1.
  pose proof (walking_put _ _ _ _ p' _ Hw eq_refl Hp') as Hw1. fold s1 in Hw1.
  pose proof (pi_few _ _ _ _ _ _ Hpk ltac:(simpl; lia)) as Hfew. pose proof (pi_passes _ _ _ _ _ _ Hpk) as Hpass.
  destruct tk as [|[b1 x1] [|? ?]]; [| |simpl in Hfew; lia]; cbn.
  - apply (IH fuel (pre ++ [(b, p')])); [by apply walking_next|lia|]. intros s' suf' tk o Ht Ho.
    eapply (HQ s' ((b, p') :: suf')); [|done]. by apply (thinned_cons s s1 s' pre b p p' suf suf' []).
  - apply (HQ s1 ((b, p') :: suf) ([(b1, x1)] ++ [])); [|done].
    apply (thinned_cons s s1); [done..|]. by apply thinned_here, walking_next.
Qed.

End taking.

(** ** Adding entries *)

Lemma live_length es : (length (live es) <= length es)%nat.
Proof. apply length_filter. Qed.

Lemma live_full es : length (live es) = length es <-> existsb (fun e => e.1 =? InvalidBlockNumber) es = false.
Proof.
  induction es as [|[b x] es IH]; [done|]. cbn [existsb fst]. destruct (Z.eqb_spec b InvalidBlockNumber) as [->|Hb].
  - rewrite filter_cons_False by (by intros []). cbn. pose proof (live_length es). split; [lia|done].
  - rewrite filter_cons_True by done. cbn. rewrite <- IH. lia.
Qed.

(** [done] has been added to the entries [es], [rest] did not fit. *)
Record filled (xid : Z) es (bs : list Z) es' (done rest : list Z) : Prop := {
  fi_split : bs = done ++ rest;
  fi_live : live es' ≡ₚ live es ++ ((fun b => (b, xid)) <$> done);
  fi_len : length es' = length es;
  fi_full : rest <> [] -> length (live es') = length es';
}.

Lemma fill_entries_spec xid es bs : (forall b, b ∈ bs -> b <> InvalidBlockNumber) -> exists es' done rest,
  fill_entries xid es bs = (es', rest) /\ filled xid es bs es' done rest.
Proof.
  revert bs. induction es as [|[b x] es IH]; intros bs Hbs.
  { exists [], [], bs. split; [by destruct bs|]. by split. }
  destruct bs as [|b0 bs]; [exists ((b, x) :: es), [], []; split; [done|]; split; try done; by rewrite app_nil_r|].
  cbn [fill_entries fst]. destruct (Z.eqb_spec b InvalidBlockNumber) as [->|Hb].
  - assert (b0 <> InvalidBlockNumber) as Hb0 by (apply Hbs; left).
    destruct (IH bs) as (es' & dn & rest & -> & [-> Hl Hlen Hfull]); [intros ? ?; apply Hbs; by right|].
    exists ((b0, xid) :: es'), (b0 :: dn), rest. split; [done|]. split; [done| |simpl; lia|].
    + rewrite filter_cons_True by done. rewrite filter_cons_False by (by intros []). cbn. by rewrite Hl, <- Permutation_middle.
    + intros Hr. rewrite filter_cons_True by done. simpl. by rewrite Hfull.
  - destruct (IH (b0 :: bs) Hbs) as (es' & dn & rest & -> & [E Hl Hlen Hfull]).
    exists ((b, x) :: es'), dn, rest. split; [done|]. split; [done| |simpl; lia|].
    + rewrite !filter_cons_True by done. cbn. by rewrite Hl.
    + intros Hr. rewrite filter_cons_True by done. simpl. by rewrite Hfull.
Qed.

Hypothesis Hmax : (0 < MAX)%nat.

Lemma space_room p : page_ok p -> kind p <> FsmV2.v0 -> space_available p = true -> (length (live (entries p)) < length (entries p))%nat.
Proof.
  intros [_ Hl He] Hk. unfold space_available. rewrite bool_decide_false by done. cbn. intros [Hx|Hx]%orb_true_iff.
  - rewrite He, Hl by done. simpl. lia.
  - pose proof (live_length (entries p)). destruct (decide (length (live (entries p)) = length (entries p))) as [E|]; [|lia].
    apply live_full in E. unfold any_invalid in Hx. congruence.
Qed.

Lemma extend_page_spec xid p bs : page_ok p -> space_available p = true -> (forall b, b ∈ bs -> b <> InvalidBlockNumber) ->
  exists p' dn rest, extend_page MAX xid p bs = (p', rest) /\ bs = dn ++ rest /\ (bs <> [] -> dn <> []) /\ page_ok p' /\
    next_blockno p' = next_blockno p /\ page_entries p' ≡ₚ page_entries p ++ ((fun b => (b, xid)) <$> dn).
Proof.
  intros Hp Hsp Hbs. unfold extend_page.
  set (p0 := if bool_decide (kind p = FsmV2.v0) then FSMBlock_default MAX (next_blockno p) else p).
  assert (page_ok p0 /\ kind p0 <> FsmV2.v0 /\ page_entries p0 = page_entries p /\ next_blockno p0 = next_blockno p /\
    (length (live (entries p0)) < length (entries p0))%nat) as (Hp0 & Hk0 & E0 & En & Hroom).
  { unfold p0. case_bool_decide as Hk.
    - split; [apply default_ok|]. split; [done|]. rewrite page_entries_default. split; [unfold page_entries; by rewrite decide_True|].
      split; [done|]. cbn. rewrite live_replicate, length_replicate. simpl. lia.
    - do 4 (split; [done|]). by apply space_room. }
  destruct (fill_entries_spec xid (entries p0) bs Hbs) as (es' & dn & rest & -> & [-> Hl Hlen Hfull]).
  eexists _, dn, rest. split; [done|]. split; [done|].
  assert (dn ++ rest <> [] -> dn <> []) as Hdn.
  { intros Hne ->. rewrite fmap_nil, app_nil_r in Hl. apply Permutation_length in Hl. rewrite Hfull in Hl by done. lia. }
  split; [done|]. rewrite length_app. replace (length dn + length rest - length rest)%nat with (length dn) by lia. split; [|split; [done|]].
  - split; cbn; [apply Hp0|intros _; rewrite Hlen; by apply Hp0|]. intros _. destruct (Nat.eqb_spec (length dn) 0) as [->%nil_length_inv|]; [|done].
    intros He. apply (po_empty _ Hp0 Hk0) in He. rewrite He in Hl. by apply Permutation_nil_r in Hl.
  - rewrite <- E0. unfold page_entries. cbn. by rewrite !decide_False.
Qed.

Record thickened (xid : Z) s s' pre suf suf' (bs : list Z) : Prop := {
  tc_walk : walking s' pre suf';
  tc_start : start_blockno s' = start_blockno s;
  tc_nb : nb s <= nb s' <= InvalidBlockNumber;
  tc_blocks : suf'.*1 = suf.*1 ++ seqZ (nb s) (nb s' - nb s);
  tc_listed : listed suf' ≡ₚ listed suf ++ ((fun b => (b, xid)) <$> bs);
}.

(** The blocks of the chain are below the end of the relation. *)
Definition below s ch : Prop := nb s <= InvalidBlockNumber /\ forall b, b ∈ ch.*1 -> b < nb s.

Lemma new_page_spec s pre b p (Q : Z -> V1FSM -> Prop) : walking s pre [(b, p)] -> below s (pre ++ [(b, p)]) ->
  (forall s' p', walking s' (pre ++ [(b, p')]) [(nb s, FSMBlock_default MAX InvalidBlockNumber)] -> page_entries p' = page_entries p ->
     start_blockno s' = start_blockno s -> nb s' = nb s + 1 -> nb s < InvalidBlockNumber -> Q (nb s) s') ->
  mwp stop1 (new_page MAX b) s Q.
Proof.
  intros Hw [Hle Hbl] HQ. destruct (walking_head _ _ _ _ _ Hw) as (Hv & Hb & Hn & Hp). unfold new_page. apply mwp_bind.
  apply mwp_new_buffer_v1; [done|]. intros Hlt. set (q := FSMBlock_default MAX InvalidBlockNumber).
  assert (b < nb s) as Hbn by (apply Hbl; rewrite fmap_app; apply elem_of_app; right; left).
  apply mwp_bind, mwp_modify, mwp_bind. eapply mwp_get_block; [cbn; rewrite lookup_insert_ne by lia; exact Hb|].
  set (p' := mkBlock (kind p) (empty p) (entries p) (nb s)). apply mwp_bind, mwp_modify, mwp_ret.
  eapply (HQ _ p'); [|done|done|done|done]. destruct Hw as [Hc Hnd Hpg].
  destruct (chain_extend next_blockno (blocks s) (start_blockno s) pre b p p' (nb s) q) as [Hc' Hnd']; try done; [|lia|].
  { intros Hx%Hbl. lia. }
  split; rewrite <- app_assoc; [exact Hc'|exact Hnd'|]. apply Forall_app in Hpg as [? _]. apply Forall_app. split; [done|].
  constructor; [by destruct Hp|]. constructor; [apply default_ok|constructor].
Qed.

Lemma below_mono s s' ch ch' : below s ch -> nb s <= nb s' <= InvalidBlockNumber -> (forall b, b ∈ ch'.*1 -> b ∈ ch.*1 \/ b < nb s') -> below s' ch'.
Proof. intros [Hle Hb] Hn Hs. split; [lia|]. intros b [Hx%Hb|?]%Hs; lia. Qed.

Lemma thickened_cons xid s s1 s' pre b p p' suf suf' bs1 bs2 : start_blockno s1 = start_blockno s -> nb s1 = nb s ->
  page_entries p' ≡ₚ page_entries p ++ ((fun b => (b, xid)) <$> bs1) -> thickened xid s1 s' (pre ++ [(b, p')]) suf suf' bs2 ->
  thickened xid s s' pre ((b, p) :: suf) ((b, p') :: suf') (bs1 ++ bs2).
Proof.
  intros Hst Hnb Hp [[Hc Hnd Hpg] Hst' Hnb' Hb Hl]. rewrite <- app_assoc in *. rewrite Hnb in *. split; [by split|congruence|done| |].
  - rewrite !fmap_cons, Hb. done.
  - rewrite !listed_cons, Hp, Hl, fmap_app. solve_Permutation.
Qed.

Lemma thickened_new xid s s1 s' pre b p p' suf' bs : nb s < InvalidBlockNumber -> start_blockno s1 = start_blockno s -> nb s1 = nb s + 1 ->
  page_entries p' = page_entries p -> thickened xid s1 s' (pre ++ [(b, p')]) [(nb s, FSMBlock_default MAX InvalidBlockNumber)] suf' bs ->
  thickened xid s s' pre [(b, p)] ((b, p') :: suf') bs.
Proof.
  intros Hlt Hst Hnb Hp [[Hc Hnd Hpg] Hst' Hnb' Hb Hl]. rewrite <- app_assoc in *. rewrite Hnb in *. split; [by split|congruence|lia| |].
  - rewrite !fmap_cons, Hb. cbn. rewrite (seqZ_cons (nb s)) by lia. unfold Z.succ. by replace (Z.pred (nb s' - nb s)) with (nb s' - (nb s + 1)) by lia.
  - rewrite !listed_cons, Hl, Hp, listed_cons, page_entries_default. change (listed []) with (@nil FSMEntry). by rewrite !app_nil_r.
Qed.

(** Iterations that are enough: one per page, one per block and, if the last page is full,
    one to get a new page. *)
Definition cost suf (bs : list Z) : nat :=
  length suf + length bs + (match last suf with Some (_, p) => if space_available p then 0 else 1 | None => 0 end).

Lemma cost_next x y suf bs bs' : (length bs' <= length bs)%nat -> (cost (y :: suf) bs' < cost (x :: y :: suf) bs)%nat.
Proof. intros Hle. unfold cost. rewrite (last_cons_cons x y suf). cbn [length]. lia. Qed.

Lemma cost_fresh b n bs : cost [(b, FSMBlock_default MAX n)] bs = S (length bs).
Proof.
  assert (space_available (FSMBlock_default MAX n) = true) as Hs by (unfold space_available, any_invalid; cbn; by destruct MAX; [lia|]).
  unfold cost. cbn [last length]. rewrite Hs. lia.
Qed.

Lemma extend_loop_spec fuel xid pre b p suf bs s (Q : unit -> V1FSM -> Prop) : walking s pre ((b, p) :: suf) ->
  below s (pre ++ (b, p) :: suf) -> (forall x, x ∈ bs -> x <> InvalidBlockNumber) -> (cost ((b, p) :: suf) bs < fuel)%nat ->
  (forall s' suf', thickened xid s s' pre ((b, p) :: suf) suf' bs -> Q tt s') -> mwp stop1 (extend_loop MAX fuel xid b bs) s Q.
Proof.
  revert pre b p suf bs s Q. induction fuel as [|fuel IH]; intros pre b p suf bs s Q Hw Hbl Hbs Hf HQ; [lia|]. cbn [extend_loop].
  destruct (walking_head _ _ _ _ _ Hw) as (Hv & Hb & Hn & Hp). apply mwp_bind. eapply mwp_get_block; [done|].
  (** From the page as it is now, with [bs2] still to be added. *)
  assert (forall s1 p1 bs1 bs2, walking s1 pre ((b, p1) :: suf) -> start_blockno s1 = start_blockno s -> nb s1 = nb s ->
    page_entries p1 ≡ₚ page_entries p ++ ((fun b => (b, xid)) <$> bs1) -> bs = bs1 ++ bs2 -> (suf = [] -> space_available p = true -> bs1 <> []) ->
    mwp stop1 (if negb (next_blockno p1 =? InvalidBlockNumber) then extend_loop MAX fuel xid (next_blockno p1) bs2
      else new_blockno ← new_page MAX b; extend_loop MAX fuel xid new_blockno bs2) s1 Q) as Hgo.
  { intros s1 p1 bs1 bs2 Hw1 Hst1 Hnb1 Hp1 -> Hsp. destruct (walking_head _ _ _ _ _ Hw1) as (_ & _ & Hn1 & _). rewrite Hn1.
    assert (below s1 (pre ++ (b, p1) :: suf)) as Hbl1 by (destruct Hbl as [? Hx]; split; rewrite Hnb1; [done|]; rewrite fmap_app in *; done).
    assert (forall x, x ∈ bs2 -> x <> InvalidBlockNumber) as Hbs2 by (intros x Hx; apply Hbs, elem_of_app; by right).
    destruct suf as [|[b' p'] suf]; cbn [link1].
    - rewrite Z.eqb_refl. cbn [negb]. apply mwp_bind. eapply new_page_spec; [done|done|]. intros s2 p2 Hw2 Hp2 Hst2 Hnb2 Hlt.
      eapply IH; [done| |done| |].
      + eapply below_mono; [done|lia|]. intros x. rewrite !fmap_app, !elem_of_app. cbn. rewrite !list_elem_of_singleton. intros [[?|?]| ->]; [tauto|tauto|right; lia].
      + rewrite cost_fresh. unfold cost in Hf. cbn [last length] in Hf. rewrite length_app in Hf.
        destruct (space_available p); [|lia]. destruct bs1; [by destruct (Hsp eq_refl eq_refl)|]. simpl in Hf. lia.
      + intros s' suf' Ht. apply (HQ s' ((b, p2) :: suf')).
        pose proof (thickened_new _ _ _ _ _ _ p1 _ _ _ Hlt Hst2 Hnb2 Hp2 Ht) as [? ? ? ? Hl]. split; [done|congruence|by rewrite <- Hnb1|by rewrite <- Hnb1|].
        rewrite Hl, !listed_cons, Hp1, fmap_app. cbn. rewrite !app_nil_r. by rewrite app_assoc.
    - destruct (walking_head _ _ _ _ _ (walking_next _ _ _ _ _ Hw1)) as (Hv' & _). rewrite (proj2 (Z.eqb_neq _ _) Hv'). cbn [negb].
      eapply (IH (pre ++ [(b, p1)]) b' p' suf); [by apply walking_next|by rewrite <- app_assoc|done| |].
      + pose proof (cost_next (b, p) (b', p') suf (bs1 ++ bs2) bs2). rewrite length_app in *. lia.
      + intros s' suf' Ht. eapply HQ, thickened_cons; [done|done|done|done]. }
  destruct (space_available p) eqn:Hsp.
  - destruct (extend_page_spec xid p bs Hp Hsp Hbs) as (p1 & dn & rest & -> & -> & Hdn & Hp1 & Hn1 & He1).
    apply mwp_bind, mwp_modify. pose proof (walking_put _ _ _ _ p1 _ Hw Hn1 Hp1) as Hw1. destruct rest as [|b1 rest].
    + apply mwp_ret. apply (HQ _ ((b, p1) :: suf)). split; [done|done|cbn; destruct Hbl; lia| |].
      * cbn. by rewrite Z.sub_diag, app_nil_r.
      * rewrite !listed_cons, He1, app_nil_r. solve_Permutation.
    + apply (Hgo _ p1 dn (b1 :: rest)); [exact Hw1|done|done|done|done|]. intros _ _. apply Hdn. by destruct dn.
  - apply (Hgo s p []); [done|done|done|by rewrite app_nil_r|done|done].
Qed.

End props.
