(* ===== verification/FsmV1Laws.v ===== *)
(** * What the first free space manager guarantees, and what its conversion loses

    The manager is an instance of the interface of its clients; the conversion to the
    manager on the AVL map moves exactly the blocks the converting backend may reuse. *)

From stdpp Require Import prelude gmap.
From Stdlib Require Import ZArith Lia.
From S2P Require Import Prelude Avl Xid Pages FsmV2 FsmV2Props FsmV2Inv FsmV2Class FsmV2Laws FsmV1 FsmV1Props.
Import FsmV1.

Local Open Scope Z_scope.

Implicit Types (s : V1FSM) (ch : list (Z * FSMBlock)) (tk : list FSMEntry).

(** ** The state, read off the pages *)

Fixpoint walk1 (fuel : nat) (m : gmap Z FSMBlock) (b : Z) : list (Z * FSMBlock) :=
  match fuel with
  | O => []
  | S fuel =>
      if b =? InvalidBlockNumber then []
      else match m !! b with Some p => (b, p) :: walk1 fuel m (next_blockno p) | None => [] end
  end.

(** The pages of the manager, and the free blocks on them with their transactions. *)
Definition v1_pages s : list (Z * FSMBlock) := walk1 (S (size (blocks s))) (blocks s) (start_blockno s).
Definition v1_free s : list FSMEntry := listed (v1_pages s).

(** Everything the manager holds. *)
Definition v1_footprint s : list Z := (v1_pages s).*1 ++ (v1_free s).*1.

Lemma walk1_chain fuel m b ch : Pages.chain next_blockno m b ch -> (length ch < fuel)%nat -> walk1 fuel m b = ch.
Proof.
  revert b ch. induction fuel as [|fuel IH]; intros b ch Hc Hf; [lia|]. cbn [walk1]. destruct ch as [|[b0 p] ch].
  - cbn in Hc. subst. done.
  - destruct Hc as (-> & Hv & Hp & Hc). rewrite (proj2 (Z.eqb_neq _ _) Hv), Hp. f_equal. apply IH; [done|]. simpl in Hf. lia.
Qed.

Section laws.
Variable MAX : nat.

Record inv1 s ch : Prop := {
  i1_walk : walking MAX s [] ch;
  i1_start : ch <> [];
  i1_nodup : NoDup (ch.*1 ++ (listed ch).*1);
  i1_range : forall b, b ∈ ch.*1 ++ (listed ch).*1 -> 0 < b < nb s;
  i1_nb : 0 < nb s <= InvalidBlockNumber;
}.

Lemma walking_length s pre suf : walking MAX s pre suf -> (length suf <= size (blocks s))%nat.
Proof.
  intros [Hc Hnd _]. pose proof (chain_length _ _ _ _ _ Hc Hnd) as Hl. rewrite length_app in Hl. lia.
Qed.

Lemma walking_pages s ch : walking MAX s [] ch -> v1_pages s = ch.
Proof. intros Hw. pose proof (walking_length _ _ _ Hw). apply walk1_chain; [apply (wk_chain _ _ _ _ Hw)|lia]. Qed.

Lemma walking_start s ch : walking MAX s [] ch -> start_blockno s = link1 ch.
Proof. intros [Hc _ _]. destruct ch as [|[b p] ch]; [done|]. by destruct Hc. Qed.

Lemma inv1_footprint s ch : inv1 s ch -> v1_footprint s = ch.*1 ++ (listed ch).*1.
Proof. intros Hi. unfold v1_footprint, v1_free. by rewrite (walking_pages _ _ (i1_walk _ _ Hi)). Qed.

(** ** The operations *)

Section taking.
Variable be : backend.

Lemma thinned_inv s s' ch ch' tk : inv1 s ch -> thinned MAX be s s' [] ch ch' tk ->
  inv1 s' ch' /\ ch'.*1 ++ (listed ch').*1 ++ tk.*1 ≡ₚ ch.*1 ++ (listed ch).*1.
Proof.
  intros [Hw Hne Hnd Hr Hn] [Hw' Hst Hnb Hb Hl Hp].
  assert (ch'.*1 ++ (listed ch').*1 ++ tk.*1 ≡ₚ ch.*1 ++ (listed ch).*1) as E by (by rewrite Hb, <- fmap_app, Hl).
  split; [|done]. rewrite app_assoc in E. split; [done|by intros ->; destruct ch| | |by rewrite Hnb].
  - rewrite <- E in Hnd. by apply NoDup_app in Hnd as [? _].
  - intros b Hx. rewrite Hnb. apply Hr. rewrite <- E. apply elem_of_app. by left.
Qed.

Lemma v1_drain_spec n s ch (Q : list Z -> V1FSM -> Prop) : walking MAX s [] ch ->
  (forall s' ch' tk, thinned MAX be s s' [] ch ch' tk -> (length tk <= n)%nat ->
     ((forall s b, try_lock be s b = true) -> (length tk < n)%nat -> Forall (fun e => ~ passes be e) (listed ch')) -> Q tk.*1 s') ->
  mwp no_stop (drain be n) s Q.
Proof.
  intros Hw HQ. unfold drain. apply mwp_bind, mwp_gets, mwp_bind, mwp_gets. rewrite (walking_start _ _ Hw).
  pose proof (walking_length _ _ _ Hw). eapply drain_loop_v1_spec; [done|lia|simpl; lia|]. intros s' ch' tk Ht Hle Hall. by eapply HQ.
Qed.

Lemma v1_pop_spec s ch (Q : option Z -> V1FSM -> Prop) : walking MAX s [] ch ->
  (forall s' ch' tk o, thinned MAX be s s' [] ch ch' tk -> option_list o = tk.*1 -> Q o s') -> mwp no_stop (pop be) s Q.
Proof.
  intros Hw HQ. unfold pop. apply mwp_bind, mwp_gets, mwp_bind, mwp_gets. rewrite (walking_start _ _ Hw).
  pose proof (walking_length _ _ _ Hw). eapply pop_loop_spec; [done|lia|done].
Qed.

End taking.

Lemma v1_create_spec s (Q : Z -> V1FSM -> Prop) : 0 < nb s <= InvalidBlockNumber ->
  (forall s', inv1 s' [(nb s, FSMBlock_default MAX InvalidBlockNumber)] -> nb s' = nb s + 1 -> Q (nb s) s') ->
  mwp stop1 (create MAX) s Q.
Proof.
  intros Hn HQ. unfold create. apply mwp_bind, mwp_new_buffer_v1; [lia|]. intros Hlt.
  apply mwp_bind, mwp_modify, mwp_bind, mwp_modify, mwp_ret, HQ; [|done]. assert (listed [(nb s, FSMBlock_default MAX InvalidBlockNumber)] = []) as El.
  { rewrite listed_cons, page_entries_default. done. }
  split; rewrite ?El; cbn; [|done|apply NoDup_singleton| |lia].
  - split; cbn; [|apply NoDup_singleton|constructor; [apply default_ok|constructor]].
    split; [done|]. split; [lia|]. split; [by rewrite lookup_insert_eq|done].
  - intros b ->%list_elem_of_singleton. lia.
Qed.

Lemma thickened_inv x s s' ch ch' bs : inv1 s ch -> thickened MAX x s s' [] ch ch' bs -> NoDup bs ->
  (forall b, b ∈ bs -> 0 < b < nb s /\ b ∉ ch.*1 ++ (listed ch).*1) ->
  inv1 s' ch' /\ ch'.*1 ++ (listed ch').*1 ≡ₚ (ch.*1 ++ (listed ch).*1) ++ bs ++ seqZ (nb s) (nb s' - nb s).
Proof.
  intros [Hw Hne Hnd Hr Hn] [Hw' Hst Hnb Hb Hl] Hndb Hfresh.
  assert (ch'.*1 ++ (listed ch').*1 ≡ₚ (ch.*1 ++ (listed ch).*1) ++ bs ++ seqZ (nb s) (nb s' - nb s)) as E.
  { rewrite Hb, Hl, fmap_app, <- list_fmap_compose.
    assert ((fst ∘ (fun b => (b, x))) <$> bs = bs) as -> by apply list_fmap_id. solve_Permutation. }
  split; [|done]. split; [done|by intros ->; destruct ch| | |lia].
  - rewrite E. apply NoDup_app. split; [done|]. split; [|apply NoDup_app; split; [done|]; split; [|apply NoDup_seqZ]].
    + intros b Hx. rewrite elem_of_app, elem_of_seqZ. intros [Hx'|?]; [by apply (Hfresh b Hx')|]. apply Hr in Hx. lia.
    + intros b Hx%Hfresh. rewrite elem_of_seqZ. lia.
  - intros b. rewrite E, !elem_of_app, elem_of_seqZ, <- elem_of_app. intros [Hx%Hr|[Hx%Hfresh|?]]; lia.
Qed.

Hypothesis Hmax : (0 < MAX)%nat.

Lemma v1_extend_spec w bs s ch (Q : unit -> V1FSM -> Prop) : inv1 s ch -> (forall b, b ∈ bs -> b < nb s) ->
  (forall s' ch', thickened MAX (u32 w) s s' [] ch ch' bs -> Q tt s') -> mwp stop1 (extend_with_when_recyclable MAX w bs) s Q.
Proof.
  intros [Hw Hne Hnd Hr Hn] Hbs HQ. unfold extend_with_when_recyclable. apply mwp_bind, mwp_gets, mwp_bind, mwp_gets.
  rewrite (walking_start _ _ Hw). pose proof (walking_length _ _ _ Hw) as Hlen. destruct ch as [|[b p] ch]; [done|]. cbn [link1].
  eapply extend_loop_spec; [done|done| | | |done].
  - split; [lia|]. intros x Hx. apply Hr, elem_of_app. by left.
  - intros x Hx%Hbs. lia.
  - unfold cost. destruct (last _) as [[? p']|]; [destruct (space_available p')|]; simpl in *; lia.
Qed.

(** ** The instance *)

Section backend.
Variable be : backend.

Definition v1_ops : FreeSpaceManagerOps V1FSM := {|
  fsm_ok s := exists ch, inv1 s ch;
  owned s := list_to_set (v1_footprint s);
  nblocks := nb;
  Pages.pop := FsmV1.pop be;
  Pages.drain := FsmV1.drain be;
  Pages.extend_with_when_recyclable := FsmV1.extend_with_when_recyclable MAX;
  extend_relation := init_new_buffer;
|}.

Lemma elem_of_owned_v1 s b : b ∈ owned (FreeSpaceManagerOps := v1_ops) s <-> b ∈ v1_footprint s.
Proof. apply elem_of_list_to_set. Qed.

Lemma returns_mwp {A} (c : M V1FSM unit A) s (Q : A -> V1FSM -> Prop) : mwp stop1 c s Q -> returns (H := v1_ops) (c s) Q.
Proof. unfold mwp, returns. destruct (c s) as [[x| | |] s']; simpl; try done. intros ->. by vm_compute. Qed.

Lemma mwp_no_stop {A} (c : M V1FSM unit A) s (Q : A -> V1FSM -> Prop) : mwp no_stop c s Q -> mwp stop1 c s Q.
Proof. unfold mwp. by destruct (c s) as [[] ?]. Qed.

Lemma v1_taken s s' ch ch' tk : inv1 s ch -> thinned MAX be s s' [] ch ch' tk -> taken (H := v1_ops) s s' tk.*1.
Proof.
  intros Hi Ht. destruct (thinned_inv _ _ _ _ _ _ Hi Ht) as [Hi' E]. pose proof (th_nb _ _ _ _ _ _ _ _ Ht) as Hnb.
  assert (NoDup ((ch'.*1 ++ (listed ch').*1) ++ tk.*1)) as (_ & Hd & Hnd)%NoDup_app by (rewrite <- app_assoc, E; apply (i1_nodup _ _ Hi)).
  split.
  - by exists ch'.
  - cbn. lia.
  - done.
  - intros b Hb. rewrite elem_of_owned_v1, (inv1_footprint _ _ Hi'). intros Hx. by apply (Hd b).
  - change (list_to_set (v1_footprint s') ∪ list_to_set tk.*1 =@{gset Z} list_to_set (v1_footprint s) ∪ block_range (nb s) (nb s')).
    rewrite Hnb, block_range_empty, (inv1_footprint _ _ Hi), (inv1_footprint _ _ Hi'), <- list_to_set_app_L, union_empty_r_L.
    apply list_to_set_perm. by rewrite <- app_assoc.
Qed.

(** C35: The first free space manager keeps the promises its clients rely on, in any backend
    and whatever conditional locks it is granted: blocks it hands out leave its control, once
    each, blocks given to it come under its control, with pages of the oldest format among
    its pages or not, and its calls return unless the relation cannot grow. *)
Theorem v1_FreeSpaceManager : FreeSpaceManager V1FSM (H := v1_ops).
Proof.
  split.
  - intros s b (ch & Hi). rewrite elem_of_owned_v1, (inv1_footprint _ _ Hi). apply (i1_range _ _ Hi).
  - intros s (ch & Hi). apply (i1_nb _ _ Hi).
  - intros s (ch & Hi). apply returns_mwp, mwp_no_stop. eapply v1_pop_spec; [apply (i1_walk _ _ Hi)|]. intros s' ch' tk o Ht ->.
    by eapply v1_taken.
  - intros s n (ch & Hi). apply returns_mwp, mwp_no_stop. eapply v1_drain_spec; [apply (i1_walk _ _ Hi)|]. intros s' ch' tk Ht Hle _.
    rewrite length_fmap. split; [by eapply v1_taken|done].
  - intros s w bs (ch & Hi) _ Hnd Hfresh. apply returns_mwp.
    assert (forall b, b ∈ bs -> 0 < b < nb s /\ b ∉ ch.*1 ++ (listed ch).*1) as Hfresh'.
    { intros b Hb. rewrite <- (inv1_footprint _ _ Hi). destruct (Hfresh b Hb) as [? Hno]. by rewrite elem_of_owned_v1 in Hno. }
    eapply v1_extend_spec; [done|intros b Hb; by apply Hfresh'|]. intros s' ch' Ht.
    destruct (thickened_inv _ _ _ _ _ _ Hi Ht Hnd Hfresh') as [Hi' E]. pose proof (tc_nb _ _ _ _ _ _ _ _ Ht). split; [by exists ch'|cbn; lia|].
    change (list_to_set (v1_footprint s') =@{gset Z} list_to_set (v1_footprint s) ∪ list_to_set bs ∪ block_range (nb s) (nb s')).
    unfold block_range. rewrite <- !list_to_set_app_L. apply list_to_set_perm.
    by rewrite (inv1_footprint _ _ Hi), (inv1_footprint _ _ Hi'), E, !app_assoc.
  - intros s (ch & Hi). apply returns_mwp. apply mwp_new_buffer_v1; [apply (i1_nb _ _ Hi)|]. intros Hlt. split; [|done].
    exists ch. destruct Hi as [[? ? ?] ? ? Hr ?]. split; [by split|done|done| |cbn; lia]. intros b Hb%Hr. cbn. lia.
Qed.

End backend.

End laws.

(** ** Conversion *)

(** The blocks [held] are in a relation of [n] blocks and not among [foot]. *)
Definition apart (n : Z) (foot held : list Z) : Prop :=
  0 < n /\ NoDup (foot ++ held) /\ forall b, b ∈ foot ++ held -> 0 < b < n.

Lemma apart_fresh n foot held held' moved : apart n foot held -> held ≡ₚ held' ++ moved ->
  NoDup moved /\ forall b, b ∈ moved -> 0 < b < n /\ b ∉ foot.
Proof.
  intros (_ & Hnd & Hr) E. rewrite E in Hnd. apply NoDup_app in Hnd as (_ & Hd & (_ & _ & Hnd)%NoDup_app). split; [done|].
  intros b Hb. assert (b ∈ held' ++ moved) as Hin by (apply elem_of_app; by right). split; [|intros Hb'; by apply (Hd b)].
  apply Hr. rewrite E. apply elem_of_app. by right.
Qed.

Lemma apart_move n n' foot foot' held held' moved : apart n foot held -> held ≡ₚ held' ++ moved -> n <= n' ->
  foot' ≡ₚ foot ++ moved ++ seqZ n (n' - n) -> apart n' foot' held'.
Proof.
  intros (Hpos & Hnd & Hr) E Hn E'. assert (foot' ++ held' ≡ₚ (foot ++ held) ++ seqZ n (n' - n)) as E2 by (rewrite E', E; solve_Permutation).
  split; [lia|]. split.
  - rewrite E2. apply NoDup_app. split; [done|]. split; [|apply NoDup_seqZ]. intros b Hb%Hr. rewrite elem_of_seqZ. lia.
  - intros b. rewrite E2, elem_of_app, elem_of_seqZ. intros [Hb%Hr|?]; lia.
Qed.

Section conversion.
Variables (MAX MAX_ENTRIES : nat) (be1 : backend) (be2 : FsmV2.backend).
Hypothesis Hentries : (0 < MAX_ENTRIES)%nat /\ Z.of_nat MAX_ENTRIES < 2 ^ 32.

Abbreviation inv2 := (FsmV2Inv.inv MAX_ENTRIES).
Abbreviation foot2 := FsmV2Inv.foot.
Abbreviation nb2 := FsmV2.nb.
Implicit Types (x : both) (v : FsmV2.V2FSM).

Definition stop2 x : Prop := nb2 x.2 = InvalidBlockNumber.

Lemma mwp_on_v1 {A} (c : M V1FSM unit A) x (Q : A -> both -> Prop) :
  mwp no_stop c x.1 (fun r s => Q r (s, x.2)) -> mwp stop2 (on_v1 c) x Q.
Proof. unfold mwp, on_v1. by destruct (c x.1) as [[] ?]. Qed.

Lemma mwp_on_v2 {A} (c : M FsmV2.V2FSM AvlMap.Error A) x (Q : A -> both -> Prop) :
  vruns c x.2 (fun r v => Q r (x.1, v)) -> mwp stop2 (on_v2 c) x Q.
Proof. unfold vruns, mwp, on_v2. by destruct (c x.2) as [[] ?]. Qed.

Lemma thinned_trans s1 s2 s3 ch1 ch2 ch3 tk1 tk2 : thinned MAX be1 s1 s2 [] ch1 ch2 tk1 -> thinned MAX be1 s2 s3 [] ch2 ch3 tk2 ->
  thinned MAX be1 s1 s3 [] ch1 ch3 (tk2 ++ tk1).
Proof.
  intros [_ Hst1 Hnb1 Hb1 Hl1 Hp1] [Hw Hst2 Hnb2 Hb2 Hl2 Hp2]. split; [done|congruence|congruence|congruence| |by apply Forall_app].
  by rewrite Hl1, Hl2, app_assoc.
Qed.

Abbreviation holds1 ch := (ch.*1 ++ (listed ch).*1).

Lemma thinned_held s s' ch ch' tk : thinned MAX be1 s s' [] ch ch' tk -> holds1 ch ≡ₚ holds1 ch' ++ tk.*1.
Proof. intros [_ _ _ Hb Hl _]. by rewrite Hb, Hl, fmap_app, app_assoc. Qed.

(** The entries [tk] have moved from the first manager to the second. *)
Record moved s ch v (a : FsmV2Tree.tree_abs) F s' ch' v' (a' : FsmV2Tree.tree_abs) F' tk : Prop := {
  mv_thinned : thinned MAX be1 s s' [] ch ch' tk;
  mv_inv : inv2 v' a' F';
  mv_nb : nb2 v <= nb2 v';
  mv_foot : foot2 v' a' F' ≡ₚ foot2 v a F ++ tk.*1 ++ seqZ (nb2 v) (nb2 v' - nb2 v);
}.

Lemma convert_loop_spec fuel s ch v a F (Q : unit -> both -> Prop) : walking MAX s [] ch -> inv2 v a F ->
  apart (nb2 v) (foot2 v a F) (holds1 ch) -> (length (listed ch) < fuel)%nat ->
  (forall s' ch' v' a' F' tk, moved s ch v a F s' ch' v' a' F' tk ->
     ((forall s b, try_lock be1 s b = true) -> Forall (fun e => ~ passes be1 e) (listed ch')) -> Q tt (s', v')) ->
  mwp stop2 (convert_loop MAX_ENTRIES be1 be2 fuel) (s, v) Q.
Proof.
  revert s ch v a F Q. induction fuel as [|fuel IH]; intros s ch v a F Q Hw Hi Hap Hf HQ; [lia|]. cbn [convert_loop].
  apply mwp_bind, mwp_on_v1. eapply v1_drain_spec; [done|]. cbn [fst snd]. intros s1 ch1 tk Ht Hle Hall.
  destruct tk as [|e tk].
  { apply mwp_ret. eapply HQ; [split; [done|done|lia|]|intros Hlk; apply Hall; [done|simpl; lia]]. by rewrite Z.sub_diag, app_nil_r. }
  pose proof (thinned_held _ _ _ _ _ Ht) as Eh. destruct (apart_fresh _ _ _ _ _ Hap Eh) as [Hnd Hfresh].
  apply mwp_bind, mwp_on_v2. cbn [fst snd]. eapply extend_spec; [done|done|unfold normal_xid; lia|done|done|].
  intros v1 a1 F1 Hi1 Hn1 Hf1 _. eapply IH; [apply (th_walk _ _ _ _ _ _ _ _ Ht)|done|by eapply apart_move| |].
  - pose proof (Permutation_length (th_listed _ _ _ _ _ _ _ _ Ht)) as Hl. rewrite length_app in Hl. simpl in Hl. lia.
  - intros s' ch' v' a' F' tk' [Ht' Hi' Hn' Hf'] Hall'. eapply (HQ _ _ _ _ _ (tk' ++ e :: tk)); [|done].
    split; [by eapply thinned_trans|done|lia|]. rewrite Hf', Hf1, (seqZ_split (nb2 v) (nb2 v1) (nb2 v')), fmap_app by lia.
    solve_Permutation.
Qed.

Lemma used_loop_spec fuel s pre suf (Q : list Z -> V1FSM -> Prop) : walking MAX s pre suf -> (length suf < fuel)%nat -> Q suf.*1 s ->
  mwp no_stop (used_loop fuel (link1 suf)) s Q.
Proof.
  revert fuel pre Q. induction suf as [|[b p] suf IH]; intros [|fuel] pre Q Hw Hf HQ; try (simpl in Hf; lia); cbn [used_loop link1].
  { rewrite Z.eqb_refl. by apply mwp_ret. }
  destruct (walking_head _ _ _ _ _ _ Hw) as (Hv & Hb & Hn & _). rewrite (proj2 (Z.eqb_neq _ _) Hv).
  apply mwp_bind. eapply mwp_get_block; [done|]. rewrite Hn. apply mwp_bind. simpl in Hf.
  eapply IH; [by apply walking_next|lia|]. by apply mwp_ret.
Qed.

Lemma capacity_ok s ch : walking MAX s [] ch -> (length (listed ch) <= capacity s)%nat.
Proof.
  intros [Hc Hnd _]. unfold capacity. assert (ch ⊆+ map_to_list (blocks s)) as Hs.
  { apply NoDup_submseteq; [by eapply NoDup_fmap_1|]. intros [b p] Hin. apply elem_of_map_to_list.
    by destruct (seg_lookup _ _ _ _ _ _ _ Hc Hin) as [? _]. }
  transitivity (length (ch ≫= (fun bp => entries bp.2))); [|apply submseteq_length; by rewrite Hs].
  clear. induction ch as [|[b p] ch IH]; [done|]. cbn. rewrite !length_app. unfold listed in IH.
  enough (length (page_entries p) <= length (entries p))%nat by lia. unfold page_entries. case_decide; [simpl; lia|apply length_filter].
Qed.

Lemma convert_spec s ch v a F (Q : unit -> both -> Prop) : walking MAX s [] ch -> inv2 v a F -> apart (nb2 v) (foot2 v a F) (holds1 ch) ->
  (forall s' v' a' F' tk left, inv2 v' a' F' -> nb2 v <= nb2 v' -> Forall (passes be1) tk -> listed ch ≡ₚ left ++ tk ->
     foot2 v' a' F' ≡ₚ foot2 v a F ++ (tk.*1 ++ ch.*1) ++ seqZ (nb2 v) (nb2 v' - nb2 v) ->
     ((forall s b, try_lock be1 s b = true) -> Forall (fun e => ~ passes be1 e) left) -> Q tt (s', v')) ->
  mwp stop2 (convert_v1_to_v2 MAX_ENTRIES be1 be2) (s, v) Q.
Proof.
  intros Hw Hi Hap HQ. unfold convert_v1_to_v2. apply mwp_bind, mwp_gets, mwp_bind. cbn [fst snd]. pose proof (capacity_ok _ _ Hw).
  eapply convert_loop_spec; [done|done|done|lia|]. intros s1 ch1 v1 a1 F1 tk [Ht Hi1 Hn1 Hf1] Hall.
  pose proof (th_walk _ _ _ _ _ _ _ _ Ht) as Hw1. apply mwp_bind, mwp_on_v1. cbn [fst snd]. unfold used_blocks.
  apply mwp_bind, mwp_gets, mwp_bind, mwp_gets. rewrite (walking_start _ _ _ Hw1). pose proof (walking_length _ _ _ _ Hw1).
  eapply used_loop_spec; [done|lia|]. pose proof (apart_move _ _ _ _ _ _ _ Hap (thinned_held _ _ _ _ _ Ht) Hn1 Hf1) as Hap1.
  destruct (apart_fresh _ _ _ _ _ Hap1 (Permutation_app_comm _ _)) as [Hnd Hfresh].
  apply mwp_on_v2. cbn [fst snd]. eapply extend_spec; [done|done|unfold normal_xid; lia|done|done|].
  intros v2 a2 F2 Hi2 Hn2 Hf2 _. eapply (HQ _ _ _ _ tk (listed ch1)); [done|lia|apply Ht|apply Ht| |done].
  rewrite Hf2, Hf1, (seqZ_split (nb2 v) (nb2 v1) (nb2 v2)), (th_blocks _ _ _ _ _ _ _ _ Ht) by lia. solve_Permutation.
Qed.

(** A state of the first manager. *)
Definition v1_well_formed s : Prop := exists ch, walking MAX s [] ch.

(** Both managers are in one relation and share no block. *)
Definition side_by_side s v : Prop :=
  v1_well_formed s /\ well_formed MAX_ENTRIES v /\ NoDup (footprint v ++ v1_footprint s) /\
  forall b, b ∈ v1_footprint s -> 0 < b < nb2 v.

Lemma side_by_side_apart s v : side_by_side s v -> exists ch a F,
  walking MAX s [] ch /\ v1_pages s = ch /\ inv2 v a F /\ footprint v ≡ₚ foot2 v a F /\ apart (nb2 v) (foot2 v a F) (holds1 ch).
Proof.
  intros ((ch & Hw) & (a & F & Hi) & Hnd & Hr). exists ch, a, F. pose proof (inv_footprint _ _ _ _ Hi) as E.
  pose proof (walking_pages _ _ _ Hw) as Ep. unfold v1_footprint, v1_free in *. rewrite Ep in *. do 4 (split; [done|]).
  pose proof (iv_nb _ _ _ _ Hi) as Hn. split; [lia|]. split; [by rewrite <- E|]. intros b [Hb|Hb]%elem_of_app; [|by apply Hr].
  by apply (iv_range _ _ _ _ Hi).
Qed.

Lemma filter_split (left tk l : list FSMEntry) : l ≡ₚ left ++ tk -> Forall (passes be1) tk -> Forall (fun e => ~ passes be1 e) left ->
  filter (passes be1) l ≡ₚ tk.
Proof.
  intros -> Ht Hl. rewrite filter_app. assert (filter (passes be1) left = []) as -> by (induction Hl; [done|by rewrite filter_cons_False]).
  apply reflexive_eq. clear Hl. induction Ht as [|e tk He _ IH]; [done|]. rewrite app_nil_l in *. by rewrite filter_cons_True, IH.
Qed.

(** Converting the first free space manager to the manager on the AVL map gives the
    latter, beside what it had, exactly the pages of the former and those of its free blocks
    whose transaction the converting backend considers past, each once; and the new manager
    is well-formed.  (All conditional locks are granted.) *)
Theorem convert_exact s v : side_by_side s v -> (forall s b, try_lock be1 s b = true) ->
  mwp stop2 (convert_v1_to_v2 MAX_ENTRIES be1 be2) (s, v) (fun _ x =>
    well_formed MAX_ENTRIES x.2 /\
    footprint x.2 ≡ₚ footprint v ++ ((filter (passes be1) (v1_free s)).*1 ++ (v1_pages s).*1) ++ seqZ (nb2 v) (nb2 x.2 - nb2 v)).
Proof.
  intros (ch & a & F & Hw & Ep & Hi & E & Hap)%side_by_side_apart Hlk. eapply convert_spec; [done|done|done|].
  intros s' v' a' F' tk left Hi' _ Hp Hl Hf Hall. cbn [fst snd]. split; [by exists a', F'|].
  rewrite (inv_footprint _ _ _ _ Hi'), Hf, E. unfold v1_free. rewrite Ep, (filter_split left tk); [done|done|done|by apply Hall].
Qed.

(** C37: A backend without a transaction id that opens an index of an older version, and so
    converts its free space manager, loses every free block in it that was freed by one of
    the 2^31 - 1 transactions after the first normal one: none of them is in the new manager,
    although the pages that listed them are. *)
Theorem conversion_loses_blocks s v : side_by_side s v -> current_xid be1 = 0 ->
  (forall e, e ∈ v1_free s -> FirstNormalTransactionId < e.2 < 2 ^ 31 + FirstNormalTransactionId) ->
  mwp stop2 (convert_v1_to_v2 MAX_ENTRIES be1 be2) (s, v) (fun _ x =>
    (forall b, b ∈ (v1_pages s).*1 -> b ∈ footprint x.2) /\ forall e, e ∈ v1_free s -> e.1 ∉ footprint x.2).
Proof.
  intros (ch & a & F & Hw & Ep & Hi & E & Hap)%side_by_side_apart Hx Hrecent. eapply convert_spec; [done|done|done|].
  intros s' v' a' F' tk left Hi' Hn Hp Hl Hf _. cbn [fst snd]. pose proof (inv_footprint _ _ _ _ Hi') as E'.
  assert (tk = []) as ->.
  { destruct tk as [|e tk]; [done|]. apply Forall_cons in Hp as [Hp _]. unfold v1_free in Hrecent. rewrite Ep in Hrecent.
    specialize (Hrecent e). rewrite Hl in Hrecent. specialize (Hrecent ltac:(apply elem_of_app; right; left)).
    unfold passes, passses_visibility_horizon, xid_horizon in Hp. rewrite Hx in Hp.
    rewrite Xid.later_not_precedes in Hp; [done|unfold FirstNormalTransactionId in *; lia..]. }
  split; intros b Hb; rewrite E', Hf.
  - rewrite Ep in Hb. set_solver.
  - unfold v1_free in Hb. rewrite Ep in Hb. destruct Hap as (_ & Hnd & Hr). apply NoDup_app in Hnd as (_ & Hd & (_ & Hd' & _)%NoDup_app).
    apply (list_elem_of_fmap_2 fst) in Hb. assert (b.1 ∈ holds1 ch) as Hin by (apply elem_of_app; by right).
    specialize (Hr b.1 ltac:(apply elem_of_app; by right)). rewrite !elem_of_app, elem_of_seqZ. intros [Hc|[[Hc|Hc]|Hc]]; [by apply (Hd b.1)|by apply elem_of_nil in Hc|by apply (Hd' b.1)|lia].
Qed.

End conversion.

(** ** Examples *)

(** Pages of three entries; five blocks freed by transaction 50 and two by transaction 150. *)
Definition old10 : V1FSM := (create 3 (mkV1 0 ∅ 10)).2.
Definition old10_50 : V1FSM := (extend_with_when_recyclable 3 50 [2; 3; 4; 5; 6] old10).2.
Definition old10_150 : V1FSM := (extend_with_when_recyclable 3 150 [7; 8] old10_50).2.

Definition granted (xid : Z) : backend := mkBackend xid (fun _ _ => true).

(** The new manager in the same relation. *)
Definition new20 : FsmV2.V2FSM := (FsmV2.create 2 3 (no_fsm 20)).2.

Lemma one_to_three : (0 < 3)%nat.
Proof. lia. Qed.

Lemma old10_ok : exists ch, inv1 3 old10 ch.
Proof.
  pose proof (v1_create_spec 3 (mkV1 0 ∅ 10) (fun _ s' => exists ch, inv1 3 s' ch)) as H.
  refine (mwp_ok stop1 _ _ 10 old10 _ (H _ _) _).
  - vm_compute. split; [reflexivity|discriminate].
  - intros s' Hi _. eauto.
  - vm_compute. reflexivity.
Qed.

(** Adding blocks that are not held keeps a concrete state well-formed. *)
Lemma extended_ok s w bs s' : (exists ch, inv1 3 s ch) -> extend_with_when_recyclable 3 w bs s = (Ok tt, s') ->
  bool_decide (NoDup (v1_footprint s ++ bs)) = true -> forallb (fun b => (0 <? b) && (b <? nb s)) bs = true -> exists ch, inv1 3 s' ch.
Proof.
  intros (ch & Hi) E Hnd%bool_decide_eq_true Hr. rewrite (inv1_footprint _ _ _ Hi) in Hnd. apply NoDup_app in Hnd as (_ & Hd & Hnd).
  assert (forall b, b ∈ bs -> 0 < b < nb s) as Hr' by (intros b Hb%list_elem_of_In; rewrite forallb_forall in Hr; specialize (Hr b Hb); lia).
  refine (mwp_ok stop1 _ _ _ _ (fun _ s' => exists ch, inv1 3 s' ch) _ E).
  eapply (v1_extend_spec 3 one_to_three); [done|intros b Hb%Hr'; lia|]. intros s1 ch1 Ht. exists ch1.
  eapply thickened_inv; [done|done|done|]. intros b Hb. split; [by apply Hr'|]. intros Hx. by apply (Hd b).
Qed.

Lemma old10_50_ok : exists ch, inv1 3 old10_50 ch.
Proof. eapply (extended_ok old10 50 [2; 3; 4; 5; 6]); [apply old10_ok|vm_compute; reflexivity..]. Qed.

Lemma old10_150_ok : exists ch, inv1 3 old10_150 ch.
Proof. eapply (extended_ok old10_50 150 [7; 8]); [apply old10_50_ok|vm_compute; reflexivity..]. Qed.

Lemma new20_created : FsmV2.create 2 3 (no_fsm 20) = (Ok 20, new20).
Proof. vm_compute. reflexivity. Qed.

Local Opaque new20.

Lemma new20_ok : well_formed 2 new20.
Proof.
  assert (accounted 2 (new20, seqZ 1 19)) as (a & F & Hi & _); [|eexists _, _; exact Hi].
  eapply (created_accounted 2 two_entries 3 three_slots 20 20), new20_created. vm_compute. split; [reflexivity|discriminate].
Qed.

Lemma old_and_new : side_by_side 3 2 old10_150 new20.
Proof.
  split; [destruct old10_150_ok as [ch Hi]; exists ch; apply (i1_walk _ _ _ Hi)|]. split; [apply new20_ok|]. split.
  - apply (bool_decide_unpack _). vm_compute. exact I.
  - intros b. replace (v1_footprint old10_150) with [10; 11; 12; 2; 3; 4; 5; 6; 7; 8] by (vm_compute; reflexivity).
    replace (FsmV2.nb new20) with 24 by (vm_compute; reflexivity). rewrite !elem_of_cons, elem_of_nil. lia.
Qed.

Lemma old10_150_free : v1_free old10_150 = [(2, 50); (3, 50); (4, 50); (5, 50); (6, 50); (7, 150); (8, 150)].
Proof. vm_compute. reflexivity. Qed.

Lemma old10_150_pages : (v1_pages old10_150).*1 = [10; 11; 12].
Proof. vm_compute. reflexivity. Qed.

Local Opaque old10 old10_50 old10_150.

Lemma v1_FreeSpaceManager_witness :
  returns (H := v1_ops 3 (granted 100)) (drain (granted 100) 4 old10_150)
    (fun bs s' => taken (H := v1_ops 3 (granted 100)) old10_150 s' bs) /\
  (drain (granted 100) 4 old10_150).1 = Ok [2; 3; 4; 5].
Proof.
  split; [|vm_compute; reflexivity].
  pose proof (drain_ok (FreeSpaceManager := v1_FreeSpaceManager 3 one_to_three (granted 100)) old10_150 4 old10_150_ok) as H.
  change (Pages.drain (FreeSpaceManagerOps := v1_ops 3 (granted 100)) 4 old10_150) with (drain (granted 100) 4 old10_150) in H.
  unfold returns in *. destruct (drain (granted 100) 4 old10_150) as [[x| | |] s']; [exact (proj1 H)|exact H..].
Defined.

Definition converted (xid : Z) : both := (convert_v1_to_v2 2 (granted xid) be100 (old10_150, new20)).2.

Lemma converted_run xid : xid = 0 \/ xid = 100 ->
  convert_v1_to_v2 2 (granted xid) be100 (old10_150, new20) = (Ok tt, converted xid).
Proof. intros [-> | ->]; vm_compute; reflexivity. Qed.

(** Transaction 100 gets what transaction 50 freed, and loses what transaction 150 freed. *)
Lemma convert_exact_witness :
  well_formed 2 (converted 100).2 /\ filter (passes (granted 100)) (v1_free old10_150) = [(2, 50); (3, 50); (4, 50); (5, 50); (6, 50)].
Proof.
  split; [|vm_compute; reflexivity].
  pose proof (convert_exact 3 2 (granted 100) be100 two_entries old10_150 new20 old_and_new (fun _ _ => eq_refl)) as H.
  exact (proj1 (mwp_ok _ _ _ _ _ _ H (converted_run 100 (or_intror eq_refl)))).
Defined.

(** A backend without a transaction loses all of it. *)
Lemma conversion_loses_blocks_witness : (3 ∉ footprint (converted 0).2) /\ 10 ∈ footprint (converted 0).2.
Proof.
  assert (forall e, e ∈ v1_free old10_150 -> FirstNormalTransactionId < e.2 < 2 ^ 31 + FirstNormalTransactionId) as Hr.
  { intros e. rewrite old10_150_free. unfold FirstNormalTransactionId. intros Hin.
    repeat (apply elem_of_cons in Hin as [->|Hin]; [cbn; lia|]). by apply elem_of_nil in Hin. }
  pose proof (conversion_loses_blocks 3 2 (granted 0) be100 two_entries old10_150 new20 old_and_new eq_refl Hr) as H.
  destruct (mwp_ok _ _ _ _ _ _ H (converted_run 0 (or_introl eq_refl))) as [H1 H2]. split.
  - apply (H2 (3, 50)). rewrite old10_150_free. apply list_elem_of_In. cbn. tauto.
  - apply H1. rewrite old10_150_pages. apply list_elem_of_In. cbn. tauto.
Defined.
