(* ===== verification/VacuumList.v ===== *)
(** * The list of segments being vacuumed

    [storage/merge.rs], [VacuumList]: segment ids on a chain of pages, rewritten by every
    [ambulkdelete] and read by the merge policy while the vacuum is running. *)

From stdpp Require Import prelude gmap sorting.
From Stdlib Require Import ZArith Lia.
From S2P Require Import Prelude Pages.

Local Open Scope Z_scope.

Module VacuumList.

(** One page: [VacuumListData] and the next block of its special area. *)
Record VacuumPage := mkVPage {
  segment_ids : list Z;
  nentries : Z;
  next_blockno : Z;
}.

Definition put_nentries (n : Z) (p : VacuumPage) : VacuumPage := mkVPage (segment_ids p) n (next_blockno p).
Definition put_next (b : Z) (p : VacuumPage) : VacuumPage := mkVPage (segment_ids p) (nentries p) b.

Section ops.
(** Ids that fit on a page. *)
Variable CAP : nat.
Context {F : Type} `{FreeSpaceManager F}.

Abbreviation RM := (M (rel F VacuumPage) unit).

Definition init_page : VacuumPage := mkVPage (replicate CAP 0) 0 InvalidBlockNumber.

(** Switch to the next page when the current one, in block [b], is full. *)
Definition advance (b : Z) : RM Z :=
  p ← get_buffer b;
  if Z.of_nat (length (segment_ids p)) <=? nentries p then
    if negb (next_blockno p =? InvalidBlockNumber) then
      let b' := next_blockno p in
      q ← get_buffer b';
      put_page b' (put_nentries 0 q);;
      mret b'
    else
      b' ← new_buffer init_page;
      put_page b (put_next b' p);;
      q ← get_buffer b';
      put_page b' (put_nentries 0 q);;
      mret b'
  else mret b.

Definition append_id (i : Z) (b : Z) : RM unit :=
  p ← get_buffer b;
  if nentries p <? Z.of_nat (length (segment_ids p)) then
    put_page b (mkVPage (<[Z.to_nat (nentries p) := i]> (segment_ids p)) (u16 (nentries p + 1)) (next_blockno p))
  else panic.

Fixpoint write_loop (ids : list Z) (b : Z) : RM unit :=
  match ids with
  | [] => mret tt
  | i :: ids =>
      b' ← advance b;
      append_id i b';;
      write_loop ids b'
  end.

Definition write_list (start : Z) (ids : list Z) : RM unit :=
  let ids := merge_sort Z.le ids in
  p ← get_buffer start;
  put_page start (put_nentries 0 p);;
  write_loop ids start.

Fixpoint read_loop (fuel : nat) (b : Z) (acc : gset Z) : RM (gset Z) :=
  match fuel with
  | O => out_of_fuel
  | S fuel =>
      p ← get_buffer b;
      if nentries p =? 0 then mret acc
      else
        let acc := acc ∪ list_to_set (take (Z.to_nat (nentries p)) (segment_ids p)) in
        if next_blockno p =? InvalidBlockNumber then mret acc
        else read_loop fuel (next_blockno p) acc
  end.

(** [running]: a vacuum holds its pin on the sentinel block. *)
Definition read_list (running : bool) (start : Z) : RM (gset Z) :=
  if negb running then mret ∅
  else n ← gets (fun r => size (pages r)); read_loop (S n) start ∅.

End ops.

End VacuumList.
