(* ===== verification/VacuumListProps.v ===== *)
(** * Properties of the vacuum list *)

From stdpp Require Import prelude gmap sorting.
From Stdlib Require Import ZArith Lia.
From S2P Require Import Prelude Pages VacuumList.
Import VacuumList.

Local Open Scope Z_scope.

Section props.
Variable CAP : nat.
Hypothesis HCAP : (0 < CAP)%nat /\ Z.of_nat CAP < 2 ^ 16.
Context {F : Type} `{FreeSpaceManager F} {Els : Elsewhere}.

Abbreviation rel := (rel F VacuumPage).
Abbreviation chain := (chain next_blockno).
Abbreviation seg := (seg next_blockno).
Implicit Types (r : rel) (p : VacuumPage) (ch : list (Z * VacuumPage)).

(** The ids on a page. *)
Definition entries p : list Z := take (Z.to_nat (nentries p)) (segment_ids p).

Definition page_ok p : Prop := length (segment_ids p) = CAP /\ 0 <= nentries p <= Z.of_nat CAP.

Definition contents ch : list Z := ch ≫= (fun bp => entries bp.2).

(** A well-formed list headed at [b]. *)
Record vlist_ok r b ch : Prop := {
  vo_rel : rel_ok r;
  vo_chain : chain (pages r) b ch;
  vo_nodup : NoDup ch.*1;
  vo_pages : Forall (fun bp => page_ok bp.2) ch;
}.

Lemma entries_length p : page_ok p -> length (entries p) = Z.to_nat (nentries p).
Proof. intros [Hl Hn]. unfold entries. rewrite length_take. lia. Qed.

Lemma init_page_ok : page_ok (init_page CAP) /\ entries (init_page CAP) = [].
Proof. split; [|done]. split; [apply length_replicate|simpl; lia]. Qed.

Lemma contents_cons b p ch : contents ((b, p) :: ch) = entries p ++ contents ch.
Proof. done. Qed.

Lemma contents_app c1 c2 : contents (c1 ++ c2) = contents c1 ++ contents c2.
Proof. apply bind_app. Qed.

(** The list headed at [b0] while it is written: the pages of [w] are behind, page [p] of
    block [b] is current, and [rest] has not been reached. *)
Record writing r b0 w b p rest : Prop := {
  wr_ok : vlist_ok r b0 (w ++ (b, p) :: rest);
  wr_behind : Forall (fun bp => 0 < nentries bp.2) w;
}.

(** What one step of the writer preserves, whatever it writes. *)
Record advances r w b p rest r' w' b' p' rest' : Prop := {
  ad_suffix : exists taken, rest = taken ++ rest';
  ad_blocks : rest' <> [] -> w'.*1 ++ b' :: rest'.*1 = w.*1 ++ b :: rest.*1;
  ad_frame : forall x, x ∉ (w ++ (b, p) :: rest).*1 -> is_Some (pages r !! x) -> pages r' !! x = pages r !! x;
  ad_grow : forall x, x ∈ (w' ++ (b', p') :: rest').*1 -> x ∈ (w ++ (b, p) :: rest).*1 \/ pages r !! x = None;
}.

Lemma vlist_update r b0 w b p p' rest (Q : unit -> rel -> Prop) :
  vlist_ok r b0 (w ++ (b, p) :: rest) -> next_blockno p' = next_blockno p -> page_ok p' ->
  (forall r', vlist_ok r' b0 (w ++ (b, p') :: rest) -> pages r' = <[b := p']> (pages r) -> Q tt r') ->
  runs (put_page b p') r Q.
Proof.
  intros [Hr Hch Hnd Hok] Hn Hp' HQ. destruct (chain_mid _ _ _ _ _ _ _ Hch) as (_ & _ & Hp & _).
  eapply runs_put_page; [done|done|]. intros r' Hr' Hpg. apply HQ; [|done]. split; [done|..].
  - rewrite Hpg. by eapply chain_update.
  - rewrite fmap_app in *. done.
  - apply Forall_app in Hok as [? [? ?]%Forall_cons]. apply Forall_app. split; [done|]. by constructor.
Qed.

Lemma advance_spec r b0 w b p rest (Q : Z -> rel -> Prop) : writing r b0 w b p rest ->
  (forall r' w' b' p' rest', writing r' b0 w' b' p' rest' -> advances r w b p rest r' w' b' p' rest' ->
     nentries p' < Z.of_nat CAP -> contents (w' ++ [(b', p')]) = contents (w ++ [(b, p)]) -> Q b' r') ->
  runs (advance CAP b) r Q.
Proof.
  intros [Hv Hw] HQ. pose proof Hv as [Hr Hch Hnd Hok]. destruct (chain_mid _ _ _ _ _ _ _ Hch) as (_ & Hb & Hp & Hrest).
  pose proof Hok as [_ [[Hlen Hn] Hokr]%Forall_cons]%Forall_app. cbn [snd] in *.
  unfold advance. apply runs_bind. eapply runs_get_buffer; [done|]. rewrite Hlen.
  destruct (Z.leb_spec (Z.of_nat CAP) (nentries p)) as [Hfull|Hroom].
  2: { apply runs_ret. eapply (HQ r w b p rest); [done| |lia|done]. split; [by exists []|done|done|auto]. }
  assert (contents (w ++ [(b, p)]) = contents w ++ entries p) as Hcur.
  { rewrite contents_app. unfold contents at 2. simpl. by rewrite app_nil_r. }
  destruct (Z.eqb_spec (next_blockno p) InvalidBlockNumber) as [Hi|Hi]; cbn [negb].
  - assert (rest = []) as ->.
    { destruct rest as [|[b1 q] rest]; [done|]. destruct Hrest as (? & ? & _). congruence. }
    apply runs_bind. eapply runs_new_buffer; [done|]. intros nb r1 Hr1 Hnone Hpg1.
    assert (nb <> b) as Hne by congruence.
    destruct (rel_ok_valid r1 nb (init_page CAP) Hr1) as [Hnv _]; [by rewrite Hpg1, lookup_insert_eq|].
    apply runs_bind. eapply (runs_put_page b p); [done|by rewrite Hpg1, lookup_insert_ne|]. intros r2 Hr2 Hpg2.
    assert (pages r2 !! nb = Some (init_page CAP)) as Hnb.
    { rewrite Hpg2, Hpg1, lookup_insert_ne by done. apply lookup_insert_eq. }
    apply runs_bind. eapply runs_get_buffer; [done|].
    destruct (chain_link next_blockno (pages r) b0 w b p (put_next nb p) nb (init_page CAP)) as [Hch' Hnd']; try done.
    apply runs_bind. eapply (vlist_update r2 b0 (w ++ [(b, put_next nb p)]) nb (init_page CAP) _ []); [|done|apply init_page_ok|].
    { split; [done| | |].
      - rewrite Hpg2, Hpg1, <- app_assoc. exact Hch'.
      - rewrite <- app_assoc. exact Hnd'.
      - apply Forall_app in Hok as [? _]. rewrite <- app_assoc. apply Forall_app. split; [done|].
        constructor; [done|]. constructor; [apply init_page_ok|constructor]. }
    intros r3 Hv3 Hpg3. apply runs_ret. eapply (HQ r3 _ nb _ []); [split; [exact Hv3|]| | |].
    + apply Forall_app. split; [done|]. constructor; [|constructor]. simpl. lia.
    + split; [by exists []|done| |].
      * intros x Hx Hs. rewrite Hpg3, Hpg2, Hpg1. rewrite fmap_app in Hx.
        rewrite !lookup_insert_ne; [done| | |]; intros ->; [destruct Hs; congruence|set_solver|destruct Hs; congruence].
      * intros x. rewrite !fmap_app. cbn. intros Hx. destruct (decide (x = nb)) as [->|]; [by right|left]. set_solver.
    + simpl. lia.
    + rewrite !contents_app. unfold contents. simpl. by rewrite !app_nil_r.
  - destruct (chain_cons_inv _ _ _ _ Hrest Hi) as (q & rest' & -> & Hq & Hrest').
    apply runs_bind. eapply runs_get_buffer; [done|]. apply Forall_cons in Hokr as [[Hql Hqn] _]. cbn [snd] in *.
    apply runs_bind. eapply (vlist_update r b0 (w ++ [(b, p)]) (next_blockno p) q _ rest'); [|done|by split; [|simpl; lia]|].
    { by rewrite <- app_assoc. }
    intros r1 Hv1 Hpg1. apply runs_ret. eapply (HQ r1 _ (next_blockno p) _ rest'); [split; [exact Hv1|]| | |].
    + apply Forall_app. split; [done|]. constructor; [|constructor]. simpl. lia.
    + split; [by exists [(next_blockno p, q)]| | |].
      * intros _. rewrite fmap_app. cbn. by rewrite <- app_assoc.
      * intros x Hx _. rewrite Hpg1. rewrite fmap_app in Hx. apply lookup_insert_ne. set_solver.
      * intros x. rewrite !fmap_app. cbn. set_solver.
    + simpl. lia.
    + rewrite !contents_app. unfold contents. simpl. by rewrite !app_nil_r.
Qed.

Lemma advances_refl r w b p rest : advances r w b p rest r w b p rest.
Proof. split; [by exists []|done|done|auto]. Qed.

Lemma advances_trans r w b p rest r1 w1 b1 p1 rest1 r2 w2 b2 p2 rest2 :
  advances r w b p rest r1 w1 b1 p1 rest1 -> advances r1 w1 b1 p1 rest1 r2 w2 b2 p2 rest2 ->
  advances r w b p rest r2 w2 b2 p2 rest2.
Proof.
  intros [[t1 E1] B1 F1 G1] [[t2 E2] B2 F2 G2]. split.
  - exists (t1 ++ t2). by rewrite E1, E2, app_assoc.
  - intros Hne. rewrite B2 by done. apply B1. intros ->. by destruct t2, rest2.
  - intros x Hx Hs. rewrite F2, F1; try done; [|by rewrite F1].
    intros Hin. apply G1 in Hin as [?|Hn]; [done|]. rewrite Hn in Hs. by destruct Hs.
  - intros x Hx. destruct (decide (x ∈ (w ++ (b, p) :: rest).*1)) as [|Hnx]; [by left|]. right.
    destruct (pages r !! x) eqn:Ex; [|done]. apply G2 in Hx as [Hx|Hx].
    + apply G1 in Hx as [?|?]; [done|congruence].
    + rewrite F1 in Hx; [congruence|done|by eexists].
Qed.

Lemma append_spec r b0 w b p rest i (Q : unit -> rel -> Prop) :
  writing r b0 w b p rest -> nentries p < Z.of_nat CAP ->
  (forall r' p', writing r' b0 w b p' rest -> advances r w b p rest r' w b p' rest -> 0 < nentries p' ->
     entries p' = entries p ++ [i] -> Q tt r') ->
  runs (append_id i b) r Q.
Proof.
  intros [Hv Hw] Hroom HQ. pose proof Hv as [Hr Hch Hnd Hok]. destruct (chain_mid _ _ _ _ _ _ _ Hch) as (_ & Hb & Hp & Hrest).
  pose proof Hok as [_ [[Hlen Hn] Hokr]%Forall_cons]%Forall_app. cbn [snd] in *.
  unfold append_id. apply runs_bind. eapply runs_get_buffer; [done|].
  rewrite Hlen, (proj2 (Z.ltb_lt _ _)) by done. rewrite wrap_small by lia.
  eapply (vlist_update r b0 w b p _ rest); [done|done|split; [by simpl; rewrite length_insert|simpl; lia]|].
  intros r' Hv' Hpg. eapply HQ; [by split| |simpl; lia|].
  - split; [by exists []|done| |rewrite !fmap_app; auto].
    intros x Hx _. rewrite Hpg. apply lookup_insert_ne. rewrite fmap_app in Hx. set_solver.
  - unfold entries. simpl. rewrite Z2Nat.inj_add, Nat.add_comm by lia. simpl.
    erewrite take_S_r by (apply list_lookup_insert_eq; lia). by rewrite take_insert_ge.
Qed.

Lemma vacuum_write_loop_spec ids r b0 w b p rest (Q : unit -> rel -> Prop) : writing r b0 w b p rest ->
  (forall r' w' b' p' rest', writing r' b0 w' b' p' rest' -> advances r w b p rest r' w' b' p' rest' ->
     (0 < nentries p \/ ids <> [] -> 0 < nentries p') ->
     contents (w' ++ [(b', p')]) = contents (w ++ [(b, p)]) ++ ids -> Q tt r') ->
  runs (write_loop CAP ids b) r Q.
Proof.
  revert r w b p rest. induction ids as [|i ids IH]; intros r w b p rest Hw HQ; cbn [write_loop].
  { apply runs_ret. eapply (HQ r w b p rest); [done|apply advances_refl|by intros [?|?]|]. by rewrite app_nil_r. }
  apply runs_bind. eapply advance_spec; [done|]. intros r1 w1 b1 p1 rest1 Hw1 Ha1 Hroom Hc1.
  apply runs_bind. eapply append_spec; [done|done|]. intros r2 p2 Hw2 Ha2 Hpos He2.
  eapply IH; [done|]. intros r3 w3 b3 p3 rest3 Hw3 Ha3 Hpos3 Hc3.
  eapply HQ; [done|by do 2 (eapply advances_trans; [done|])|auto|].
  rewrite Hc3, !contents_app in *. rewrite <- Hc1.
  assert (forall b p, contents [(b, p)] = entries p) as Hone by (intros; unfold contents; simpl; apply app_nil_r).
  rewrite !Hone in *. by rewrite He2, <- !app_assoc.
Qed.

(** ** Reading *)

(** What a reader collects from a chain: it stops at an empty page. *)
Fixpoint read_pages ch : list Z :=
  match ch with
  | [] => []
  | (_, p) :: ch => if nentries p =? 0 then [] else entries p ++ read_pages ch
  end.

Lemma vacuum_read_loop_spec fuel r b ch acc (Q : gset Z -> rel -> Prop) :
  chain (pages r) b ch -> b <> InvalidBlockNumber -> (length ch < fuel)%nat ->
  Q (acc ∪ list_to_set (read_pages ch)) r -> runs (read_loop fuel b acc) r Q.
Proof.
  revert b ch acc. induction fuel as [|fuel IH]; intros b ch acc Hch Hb Hf HQ; [lia|]. cbn [read_loop].
  destruct (chain_cons_inv _ _ _ _ Hch Hb) as (p & ch' & -> & Hp & Hch'). cbn [read_pages length] in *.
  apply runs_bind. eapply runs_get_buffer; [done|].
  destruct (nentries p =? 0); [apply runs_ret; simpl in HQ; by rewrite union_empty_r_L in HQ|].
  rewrite list_to_set_app_L, union_assoc_L in HQ.
  destruct (Z.eqb_spec (next_blockno p) InvalidBlockNumber) as [Hi|Hi].
  - destruct ch' as [|[b1 q] ch']; [|destruct Hch' as (? & ? & _); congruence].
    apply runs_ret. simpl in HQ. by rewrite union_empty_r_L in HQ.
  - eapply IH; [done|done|lia|done].
Qed.

Lemma read_pages_all w ch : Forall (fun bp => 0 < nentries bp.2) w ->
  read_pages (w ++ ch) = contents w ++ read_pages ch.
Proof.
  induction 1 as [|[b p] w Hp _ IH]; [done|]. simpl in *.
  destruct (Z.eqb_spec (nentries p) 0); [lia|]. by rewrite IH, app_assoc.
Qed.

Lemma contents_bound ch : Forall (fun bp => page_ok bp.2) ch -> (length (contents ch) <= CAP * length ch)%nat.
Proof.
  induction 1 as [|[b p] ch Hp _ IH]; [simpl; lia|]. rewrite contents_cons, length_app.
  cbn [snd length] in *. rewrite entries_length by done. destruct Hp as [_ Hn]. rewrite Nat.mul_succ_r. lia.
Qed.

(** Writing [ids] over any well-formed list, then reading: the ids, and what old pages
    still hold behind the last page written ([stale]). *)
Lemma write_read_lemma r b0 ch ids (Q : gset Z -> rel -> Prop) : vlist_ok r b0 ch -> b0 <> InvalidBlockNumber ->
  (forall r' ch' stale, vlist_ok r' b0 ch' ->
     (exists taken, ch = taken ++ stale) ->
     (CAP * (length ch - 1) < length ids -> stale = [])%nat ->
     (forall x, x ∉ ch.*1 -> is_Some (pages r !! x) -> pages r' !! x = pages r !! x) ->
     Q (list_to_set ids ∪ (if decide (ids = []) then ∅ else list_to_set (read_pages stale))) r') ->
  runs (write_list CAP b0 ids;; read_list true b0) r Q.
Proof.
  intros Hv Hb HQ. pose proof Hv as [Hr Hch Hnd Hok].
  destruct (chain_cons_inv _ _ _ _ Hch Hb) as (p & rest & -> & Hp & Hrest).
  pose proof (merge_sort_Permutation Z.le ids) as Hperm.
  apply runs_bind. unfold write_list. apply runs_bind. eapply runs_get_buffer; [done|].
  apply Forall_cons in Hok as [[Hlen Hn] Hok]. cbn [snd] in *.
  apply runs_bind. eapply (vlist_update r b0 [] b0 p _ rest); [done|done|by split; [|simpl; lia]|].
  intros r1 Hv1 Hpg1.
  assert (forall x, x ∉ ((b0, p) :: rest).*1 -> pages r1 !! x = pages r !! x) as Hfr1.
  { intros x Hx. rewrite Hpg1. apply lookup_insert_ne. intros ->. apply Hx. left. }
  destruct (decide (ids = [])) as [->|Hne].
  { apply runs_ret. unfold read_list. cbn [negb]. apply runs_bind, runs_gets.
    destruct Hv1 as [Hr1 Hch1 Hnd1 Hok1].
    eapply vacuum_read_loop_spec; [exact Hch1|done|apply chain_length in Hch1; [lia|done]|].
    rewrite union_empty_l_L. cbn. replace (∅ : gset Z) with (list_to_set [] ∪ ∅ : gset Z) by set_solver.
    eapply (HQ r1 _ []); [by split|exists ((b0, p) :: rest); by rewrite app_nil_r|done|auto]. }
  eapply (vacuum_write_loop_spec _ r1 b0 [] b0 _ rest); [by split|].
  intros r2 w b p' rest' [Hv2 Hw2] [[taken Et] Hbl Hfr _] Hpos Hc.
  assert (merge_sort Z.le ids <> []) as Hne' by (intros E; rewrite E in Hperm; by apply Permutation_nil_l in Hperm).
  assert (Forall (fun bp => 0 < nentries bp.2) (w ++ [(b, p')])) as Hall.
  { apply Forall_app. split; [done|]. constructor; [|constructor]. cbn [snd]. auto. }
  unfold read_list. cbn [negb]. apply runs_bind, runs_gets. pose proof Hv2 as [Hr2 Hch2 Hnd2 Hok2].
  eapply vacuum_read_loop_spec; [exact Hch2|done|apply chain_length in Hch2; [lia|done]|].
  rewrite union_empty_l_L. change ((b, p') :: rest') with ([(b, p')] ++ rest') in *. rewrite app_assoc in *.
  rewrite read_pages_all, Hc, list_to_set_app_L by done. simpl.
  replace (list_to_set (merge_sort Z.le ids) : gset Z) with (list_to_set ids : gset Z)
    by (apply set_eq; intros x; by rewrite !elem_of_list_to_set, Hperm).
  eapply HQ; [exact Hv2|exists ((b0, p) :: taken); by rewrite Et| |].
  - intros Hlt. destruct rest' as [|x rest']; [done|]. exfalso.
    specialize (Hbl ltac:(done)). apply (f_equal length) in Hbl.
    apply Forall_app in Hok2 as [Hok2 _]. pose proof (contents_bound _ Hok2) as Hcb.
    rewrite Hc, length_app in Hcb. simpl in Hcb. rewrite Hperm in Hcb.
    rewrite length_app in Hbl, Hcb. simpl in *. rewrite !length_fmap in *. nia.
  - intros x Hx Hs. rewrite Hfr; [by apply Hfr1|done|]. by rewrite Hfr1.
Qed.

End props.

(** ** What the merge policy may rely on *)

Section claims.
Variable CAP : nat.
Hypothesis HCAP : (0 < CAP)%nat /\ Z.of_nat CAP < 2 ^ 16.
Context {F : Type} `{FreeSpaceManager F} {Els : Elsewhere}.

(** Every segment id that a vacuum writes is seen by a reader while the vacuum runs,
    however long the list was before and is now, so no merge picks a segment that is being
    vacuumed; the list stays well formed and no other page of the relation changes. *)
Theorem vacuum_list_covers (r : rel F VacuumPage) b0 ch ids :
  vlist_ok CAP r b0 ch -> b0 <> InvalidBlockNumber ->
  runs (write_list CAP b0 ids;; read_list true b0) r (fun s r' =>
    list_to_set ids ⊆ s /\ (exists ch', vlist_ok CAP r' b0 ch') /\
    (forall x, x ∉ ch.*1 -> is_Some (pages r !! x) -> pages r' !! x = pages r !! x)).
Proof.
  intros Hv Hb. eapply write_read_lemma; [done|apply _|done|done|]. intros r' ch' stale Hv' _ _ Hfr.
  split; [set_solver|]. split; [by eexists|done].
Qed.

(** When the ids need all pages the list has (or there are none to write), a reader
    sees exactly the ids that were written. *)
Theorem vacuum_list_exact (r : rel F VacuumPage) b0 ch ids :
  vlist_ok CAP r b0 ch -> b0 <> InvalidBlockNumber ->
  ids = [] \/ (CAP * (length ch - 1) < length ids)%nat ->
  runs (write_list CAP b0 ids;; read_list true b0) r (fun s _ => s = list_to_set ids).
Proof.
  intros Hv Hb Hc. eapply write_read_lemma; [done|apply _|done|done|]. intros r' ch' stale _ _ Hst _.
  destruct Hc as [->|Hlt]; [rewrite decide_True by done; set_solver|]. rewrite (Hst Hlt). case_decide; set_solver.
Qed.

End claims.

(** ** A concrete list, two ids to a page *)

Definition demo_rel : rel stack_fsm VacuumPage := mkRel (mkStack [5; 9] 12) {[3 := init_page 2]}.

#[local] Instance demo_elsewhere : Elsewhere := (list_to_set [1; 2; 4; 6; 7; 8; 10; 11] : gset Z).

Lemma demo_vlist : vlist_ok 2 demo_rel 3 [(3, init_page 2)].
Proof.
  split.
  - stack_rel.
  - by split.
  - apply NoDup_singleton.
  - constructor; [|constructor]. by split.
Qed.

Lemma vacuum_list_covers_witness :
  runs (write_list 2 3 [8; 7; 9];; read_list true 3) demo_rel (fun s _ => list_to_set [8; 7; 9] ⊆ s).
Proof.
  eapply runs_mono; [apply (vacuum_list_covers 2 ltac:(lia) demo_rel 3 _ [8; 7; 9] demo_vlist); discriminate|].
  intros s r' Hs. apply Hs.
Defined.

Lemma vacuum_list_exact_witness :
  runs (write_list 2 3 [8; 7; 9];; read_list true 3) demo_rel (fun s _ => s = {[7; 8; 9]}).
Proof.
  eapply runs_mono; [apply (vacuum_list_exact 2 ltac:(lia) demo_rel 3 _ [8; 7; 9] demo_vlist); [discriminate|simpl; lia]|].
  intros s r' ->. set_solver.
Defined.

(** "This overwrites any existing content in the list": it does not.  A write that ends on
    a page before the last leaves the ids of the later pages in place, and a reader follows
    the links to them. *)
Example stale_ids_survive :
  match (write_list 2 3 [1; 2; 4];; write_list 2 3 [9];; read_list true 3) demo_rel with
  | (Ok s, _) => bool_decide (s = {[4; 9]})
  | _ => false
  end = true.
Proof. vm_compute. reflexivity. Qed.
