(* ===== verification/BlockList.v ===== *)
(** * The block list of a file

    [storage/blocklist.rs]: the block numbers of a byte list, bit packed in chunks on a
    chain of pages of their own.  The packing itself is the bitpacking crate's and is a
    parameter. *)

From stdpp Require Import prelude gmap.
From Stdlib Require Import ZArith Lia.
From S2P Require Import Prelude Pages.

Local Open Scope Z_scope.

(** Pages of the linked lists: a header ([LinkedListData]), a page of bytes, or a page of
    items, each behind a line pointer that may be flagged dead.  A page just initialized is
    an empty page of either kind; it is written [Data []]. *)
Inductive lpage :=
| Header (start_blockno last_blockno blocklist_start : Z)
| Data (bytes : list Z) (next : Z)
| Items (lps : list (bool * list Z)) (next : Z).

Definition lnext (p : lpage) : Z :=
  match p with Data _ n | Items _ n => n | Header _ _ _ => InvalidBlockNumber end.

Definition init_page : lpage := Data [] InvalidBlockNumber.

Module BlockList.

(** [u32::to_le_bytes] and [u32::from_le_bytes] *)
Definition to_le_bytes (z : Z) : list Z := [z mod 256; z / 256 mod 256; z / 65536 mod 256; z / 16777216 mod 256].

Definition from_le_bytes (l : list Z) : option Z :=
  match l with
  | [a; b; c; d] => Some (a + 256 * b + 65536 * c + 16777216 * d)
  | _ => None
  end.

(** ** The bitpacking crate *)

Inductive width := W1x | W4x | W8x.

Definition BLOCK_LEN (w : width) : nat := match w with W1x => 32 | W4x => 128 | W8x => 256 end.

Record packer := mkPacker {
  num_bits_sorted : Z -> list Z -> Z;
  compress_sorted : Z -> list Z -> Z -> list Z;
  decompress_sorted : Z -> list Z -> Z -> list Z * nat;
  num_bits_strictly_sorted : option Z -> list Z -> Z;
  compress_strictly_sorted : option Z -> list Z -> Z -> list Z;
  decompress_strictly_sorted : option Z -> list Z -> Z -> list Z * nat;
}.

(** ** Chunks *)

Inductive ChunkStyle :=
| Sorted (w : width) (num_bits initial : Z) (bytes : list Z)
| StrictlySorted (w : width) (num_bits initial : Z) (bytes : list Z)
| Uncompressed (values : list Z).

Inductive ChunkStyleTag := TSorted (w : width) | TStrictlySorted (w : width) | TUncompressed.

Definition tag_to_u8 (t : ChunkStyleTag) : Z :=
  match t with
  | TSorted W1x => 0 | TSorted W4x => 1 | TSorted W8x => 2
  | TStrictlySorted W1x => 3 | TStrictlySorted W4x => 4 | TStrictlySorted W8x => 5
  | TUncompressed => 6
  end.

(** [None] is the panic "invalid chunk style tag". *)
Definition tag_from_u8 (v : Z) : option ChunkStyleTag :=
  if v =? 0 then Some (TSorted W1x) else if v =? 1 then Some (TSorted W4x)
  else if v =? 2 then Some (TSorted W8x) else if v =? 3 then Some (TStrictlySorted W1x)
  else if v =? 4 then Some (TStrictlySorted W4x) else if v =? 5 then Some (TStrictlySorted W8x)
  else if v =? 6 then Some TUncompressed else None.

Definition tag (c : ChunkStyle) : ChunkStyleTag :=
  match c with
  | Sorted w _ _ _ => TSorted w
  | StrictlySorted w _ _ _ => TStrictlySorted w
  | Uncompressed _ => TUncompressed
  end.

Definition byte_len (c : ChunkStyle) : Z :=
  match c with
  | Sorted _ _ _ bytes | StrictlySorted _ _ _ bytes => 1 + 1 + 4 + Z.of_nat (length bytes)
  | Uncompressed values => 1 + 1 + Z.of_nat (length values) * 4
  end.

Definition into_bytes (c : ChunkStyle) : list Z :=
  let t := tag_to_u8 (tag c) in
  match c with
  | Sorted _ num_bits initial bytes | StrictlySorted _ num_bits initial bytes =>
      t :: num_bits :: to_le_bytes initial ++ bytes
  | Uncompressed values =>
      t :: u8 (Z.of_nat (length values)) :: (values ≫= to_le_bytes)
  end.

(** ** The builder *)

(** [slice.is_sorted()] *)
Fixpoint is_sorted (l : list Z) : bool :=
  match l with
  | x :: (y :: _) as l' => (x <=? y) && is_sorted l'
  | _ => true
  end.

Record builder := mkBuilder {
  chunks : list ChunkStyle;
  queue : list Z;
  last_chunked_blockno : option Z;
}.

Definition builder_default : builder := mkBuilder [] [] None.

Section codec.
Variable pk : width -> packer.

(** [pack_1x], [pack_4x] and [pack_8x] *)
Definition pack (w : width) (slice : list Z) (initial : option Z) : ChunkStyle :=
  if is_sorted slice then
    let num_bits := num_bits_strictly_sorted (pk w) initial slice in
    StrictlySorted w num_bits (default 0 initial) (compress_strictly_sorted (pk w) initial slice num_bits)
  else
    let num_bits := num_bits_sorted (pk w) (default 0 initial) slice in
    Sorted w num_bits (default 0 initial) (compress_sorted (pk w) (default 0 initial) slice num_bits).

(** [None] is the assertion that block 0 is never added. *)
Definition push (block_number : Z) (b : builder) : option builder :=
  if block_number =? 0 then None
  else
    match last (queue b) with
    | Some l => if l =? block_number then Some b
                else if (length (queue b) =? BLOCK_LEN W4x)%nat then
                  Some (mkBuilder (chunks b ++ [pack W4x (queue b) (last_chunked_blockno b)]) [block_number] (Some l))
                else Some (mkBuilder (chunks b) (queue b ++ [block_number]) (last_chunked_blockno b))
    | None => Some (mkBuilder (chunks b) (queue b ++ [block_number]) (last_chunked_blockno b))
    end.

(** The first loop of [finish]: pack what is left in the queue. *)
Fixpoint finish_queue (fuel : nat) (q : list Z) (lst : option Z) (cs : list ChunkStyle) : option (list ChunkStyle) :=
  match fuel with
  | O => None
  | S fuel =>
      match q with
      | [] => Some cs
      | _ =>
          let split w := finish_queue fuel (drop (BLOCK_LEN w) q) (last (take (BLOCK_LEN w) q))
                           (cs ++ [pack w (take (BLOCK_LEN w) q) lst]) in
          if (BLOCK_LEN W8x <=? length q)%nat then split W8x
          else if (BLOCK_LEN W4x <=? length q)%nat then split W4x
          else if (BLOCK_LEN W1x <=? length q)%nat then split W1x
          else Some (cs ++ [Uncompressed q])
      end
  end.

(** ** The reader, one page *)

(** The [for _ in 0..len] loop over the values of an uncompressed chunk. *)
Fixpoint read_values (n : nat) (slice : list Z) : option (list Z * list Z) :=
  match n with
  | O => Some ([], slice)
  | S n =>
      value ← from_le_bytes (take 4 slice);
      '(vs, rest) ← read_values n (drop 4 slice);
      Some (value :: vs, rest)
  end.

(** [blocks.extend] for one chunk at the start of the slice: the values and the rest of the
    slice; [None] is an index out of range or an invalid tag. *)
Definition read_chunk (slice : list Z) : option (list Z * list Z) :=
  match slice with
  | [] => None
  | t :: slice =>
      tag ← tag_from_u8 t;
      match tag with
      | TUncompressed =>
          match slice with
          | [] => None
          | len :: slice => read_values (Z.to_nat len) slice
          end
      | TSorted w =>
          match slice with
          | [] => None
          | num_bits :: slice =>
              initial ← from_le_bytes (take 4 slice);
              let slice := drop 4 slice in
              let '(vs, n) := decompress_sorted (pk w) initial slice num_bits in
              Some (vs, drop n slice)
          end
      | TStrictlySorted w =>
          match slice with
          | [] => None
          | num_bits :: slice =>
              initial ← from_le_bytes (take 4 slice);
              let slice := drop 4 slice in
              let initial := if initial =? 0 then None else Some initial in
              let '(vs, n) := decompress_strictly_sorted (pk w) initial slice num_bits in
              Some (vs, drop n slice)
          end
      end
  end.

(** The chunks of a page, until the slice is used up. *)
Fixpoint read_slice (fuel : nat) (slice : list Z) : option (list Z) :=
  match fuel with
  | O => None
  | S fuel =>
      '(vs, rest) ← read_chunk slice;
      match rest with
      | [] => Some vs
      | _ => vs' ← read_slice fuel rest; Some (vs ++ vs')
      end
  end.

(** ** Pages *)

Section pages.
(** Bytes a page holds: [bm25_max_free_space()]. *)
Variable MAX : Z.
Context {F : Type} `{FreeSpaceManager F}.

Abbreviation RM := (M (rel F lpage) unit).

(** A data page; another kind of page would be misread, which does not happen. *)
Definition get_data (b : Z) : RM (list Z * Z) :=
  p ← get_buffer b;
  match p with Data d n => mret (d, n) | _ => panic end.

Definition can_fit (d : list Z) (len : Z) : bool := Z.of_nat (length d) + len <=? MAX.

(** The second loop of [finish]: chunk after chunk onto the page of block [b], or onto a new
    page linked to it when the chunk does not fit. *)
Fixpoint write_chunks (fuel : nat) (c : ChunkStyle) (cs : list ChunkStyle) (b : Z) : RM unit :=
  match fuel with
  | O => out_of_fuel
  | S fuel =>
      p ← get_data b;
      if can_fit p.1 (byte_len c) then
        put_page b (Data (p.1 ++ into_bytes c) p.2);;
        match cs with
        | [] => mret tt
        | c' :: cs => write_chunks fuel c' cs b
        end
      else
        b' ← new_buffer init_page;
        put_page b (Data p.1 b');;
        write_chunks fuel c cs b'
  end.

Definition finish (bl : builder) : RM (option Z) :=
  cs ← (match finish_queue (S (length (queue bl))) (queue bl) (last_chunked_blockno bl) (chunks bl) with
        | Some cs => mret cs
        | None => out_of_fuel
        end);
  match cs with
  | [] => mret None
  | c :: cs =>
      b ← new_buffer init_page;
      write_chunks (2 * length (c :: cs)) c cs b;;
      mret (Some b)
  end.

(** [reader::BlockList::new] *)
Fixpoint read_blocks (fuel : nat) (b : Z) : RM (list Z) :=
  match fuel with
  | O => out_of_fuel
  | S fuel =>
      p ← get_data b;
      vs ← unwrap (read_slice (S (length p.1)) p.1);
      if p.2 =? InvalidBlockNumber then mret vs
      else rest ← read_blocks fuel p.2; mret (vs ++ rest)
  end.

Definition reader_new (starting_block : Z) : RM (list Z) :=
  if starting_block =? InvalidBlockNumber then mret []
  else n ← gets (fun r => size (pages r)); read_blocks (S n) starting_block.

End pages.

End codec.

End BlockList.
