(* ===== verification/BlockListProps.v ===== *)
(** * The block list round trip

    What is pushed into the builder comes back from the reader, whatever mix of chunks and
    pages it was spread over. *)

From stdpp Require Import prelude gmap sorting.
From Stdlib Require Import ZArith Lia.
From S2P Require Import Prelude Pages BlockList.
Import BlockList.

Local Open Scope Z_scope.

Definition block_ok (b : Z) : Prop := 0 < b < 2 ^ 32.

(** What the crate promises of a packer for blocks of [BLOCK_LEN w] numbers: the packed
    size, and that unpacking gives back the numbers and the bytes it consumed.  Differences
    are taken modulo 2^32, so the sorted variant takes any numbers; the strict variant
    stores differences less one and needs a strictly increasing block. *)
Record packer_ok (w : width) (p : packer) : Prop := {
  sorted_bits : forall i l, 0 <= num_bits_sorted p i l <= 32;
  sorted_size : forall i l nb, length l = BLOCK_LEN w -> 0 <= nb <= 32 ->
    Z.of_nat (length (compress_sorted p i l nb)) = nb * Z.of_nat (BLOCK_LEN w) / 8;
  sorted_unpack : forall i l rest, length l = BLOCK_LEN w -> Forall block_ok l ->
    let nb := num_bits_sorted p i l in
    decompress_sorted p i (compress_sorted p i l nb ++ rest) nb = (l, length (compress_sorted p i l nb));
  strict_bits : forall i l, 0 <= num_bits_strictly_sorted p i l <= 32;
  strict_size : forall i l nb, length l = BLOCK_LEN w -> 0 <= nb <= 32 ->
    Z.of_nat (length (compress_strictly_sorted p i l nb)) = nb * Z.of_nat (BLOCK_LEN w) / 8;
  strict_unpack : forall i l rest, length l = BLOCK_LEN w -> Forall block_ok l -> StronglySorted Z.lt l ->
    let nb := num_bits_strictly_sorted p i l in
    decompress_strictly_sorted p i (compress_strictly_sorted p i l nb ++ rest) nb =
      (l, length (compress_strictly_sorted p i l nb));
}.

Lemma le_bytes_roundtrip z : 0 <= z < 2 ^ 32 -> from_le_bytes (to_le_bytes z) = Some z.
Proof.
  intros Hz. unfold from_le_bytes, to_le_bytes. f_equal.
  rewrite (Z.mod_small (z / 16777216)) by (split; [apply Z.div_pos; lia|apply Z.div_lt_upper_bound; lia]).
  assert (z / 65536 = z / 256 / 256) as -> by by rewrite Z.div_div.
  assert (z / 16777216 = z / 256 / 256 / 256) as -> by by rewrite !Z.div_div.
  pose proof (Z.div_mod z 256 ltac:(lia)). pose proof (Z.div_mod (z / 256) 256 ltac:(lia)).
  pose proof (Z.div_mod (z / 256 / 256) 256 ltac:(lia)). lia.
Qed.

Lemma tag_roundtrip t : tag_from_u8 (tag_to_u8 t) = Some t.
Proof. by destruct t as [[]|[]|]. Qed.

Lemma is_sorted_strict l : is_sorted l = true -> NoDup l -> StronglySorted Z.lt l.
Proof.
  intros Hs Hnd. apply StronglySorted_le_lt; [|done]. clear Hnd.
  apply Sorted.Sorted_StronglySorted; [intros x y z; lia|].
  induction l as [|x l IH]; [constructor|]. constructor.
  - apply IH. destruct l; [done|]. by apply andb_true_iff in Hs as [_ ?].
  - destruct l; constructor. apply andb_true_iff in Hs as [?%Z.leb_le _]. done.
Qed.

Section roundtrip.
Variable pk : width -> packer.
Hypothesis pk_ok : forall w, packer_ok w (pk w).

(** ** Chunks *)

(** The chunk decodes to [vs], whatever follows it. *)
Record chunk_ok (c : ChunkStyle) (vs : list Z) : Prop := {
  ck_read : forall rest, read_chunk pk (into_bytes c ++ rest) = Some (vs, rest);
  ck_len : byte_len c = Z.of_nat (length (into_bytes c));
  ck_small : 0 < byte_len c <= 1030;
}.

Definition initial_ok (o : option Z) : Prop := match o with Some i => block_ok i | None => True end.

Lemma initial_roundtrip o : initial_ok o -> (if default 0 o =? 0 then None else Some (default 0 o)) = o.
Proof. destruct o as [i|]; simpl; [|done]. intros [? ?]. by destruct (Z.eqb_spec i 0); [lia|]. Qed.

Lemma initial_range o : initial_ok o -> 0 <= default 0 o < 2 ^ 32.
Proof. destruct o as [i|]; simpl; [intros [? ?]; lia|lia]. Qed.

Lemma packed_bytes_bound w nb : 0 <= nb <= 32 -> 0 <= nb * Z.of_nat (BLOCK_LEN w) / 8 <= 1024.
Proof.
  intros Hnb. split; [apply Z.div_pos; lia|]. transitivity (32 * 256 / 8); [|done].
  apply Z.div_le_mono; [lia|]. destruct w; simpl; nia.
Qed.

Lemma pack_chunk_ok w slice o : length slice = BLOCK_LEN w -> Forall block_ok slice -> NoDup slice ->
  initial_ok o -> chunk_ok (pack pk w slice o) slice.
Proof.
  intros Hlen Hb Hnd Ho. pose proof (initial_range o Ho) as Hr. pose proof (pk_ok w) as Hpk.
  unfold pack. destruct (is_sorted slice) eqn:Es.
  - pose proof (strict_bits _ _ Hpk o slice) as Hnb. pose proof (strict_size _ _ Hpk o slice _ Hlen Hnb) as Hsz.
    pose proof (packed_bytes_bound w _ Hnb). split.
    + intros rest. unfold into_bytes. cbn [tag app read_chunk]. rewrite tag_roundtrip. cbn [mbind option_bind].
      rewrite <- app_assoc. change (take 4 (to_le_bytes ?i ++ ?x)) with (to_le_bytes i).
      change (drop 4 (to_le_bytes ?i ++ ?x)) with x. rewrite le_bytes_roundtrip by done. cbn [mbind option_bind].
      rewrite initial_roundtrip, (strict_unpack _ _ Hpk) by (done || by apply is_sorted_strict).
      by rewrite drop_app_length.
    + unfold byte_len, into_bytes. simpl. lia.
    + unfold byte_len. lia.
  - pose proof (sorted_bits _ _ Hpk (default 0 o) slice) as Hnb.
    pose proof (sorted_size _ _ Hpk (default 0 o) slice _ Hlen Hnb) as Hsz.
    pose proof (packed_bytes_bound w _ Hnb). split.
    + intros rest. unfold into_bytes. cbn [tag app read_chunk]. rewrite tag_roundtrip. cbn [mbind option_bind].
      rewrite <- app_assoc. change (take 4 (to_le_bytes ?i ++ ?x)) with (to_le_bytes i).
      change (drop 4 (to_le_bytes ?i ++ ?x)) with x. rewrite le_bytes_roundtrip by done. cbn [mbind option_bind].
      rewrite (sorted_unpack _ _ Hpk) by done. by rewrite drop_app_length.
    + unfold byte_len, into_bytes. simpl. lia.
    + unfold byte_len. lia.
Qed.

Lemma uncompressed_chunk_ok q : (length q < 32)%nat -> Forall block_ok q -> chunk_ok (Uncompressed q) q.
Proof.
  intros Hlen Hb. split.
  - intros rest. unfold into_bytes. cbn [tag app read_chunk]. rewrite tag_roundtrip. cbn [mbind option_bind].
    rewrite wrap_small, Nat2Z.id by lia. clear Hlen. induction Hb as [|b q Hb _ IH]; [done|].
    rewrite bind_cons, <- app_assoc. cbn [length read_values].
    change (take 4 (to_le_bytes b ++ ?x)) with (to_le_bytes b).
    change (drop 4 (to_le_bytes b ++ ?x)) with x. rewrite le_bytes_roundtrip by (unfold block_ok in Hb; lia).
    cbn [mbind option_bind]. by rewrite IH.
  - unfold byte_len, into_bytes. cbn [length]. assert (length (q ≫= to_le_bytes) = 4 * length q)%nat as ->; [|lia].
    clear. induction q as [|b q IH]; [done|]. rewrite bind_cons, length_app, IH. simpl. lia.
  - unfold byte_len. lia.
Qed.

(** ** The builder *)

(** What has been pushed: a block that repeats the last one is dropped. *)
Definition collapse_step (vs : list Z) (b : Z) : list Z := if decide (last vs = Some b) then vs else vs ++ [b].
Definition collapse (bs : list Z) : list Z := foldl collapse_step [] bs.

Record builder_ok (bl : builder) (vs : list Z) : Prop := {
  bo_chunks : exists css, Forall2 chunk_ok (chunks bl) css /\ vs = concat css ++ queue bl;
  bo_queue : (length (queue bl) <= 128)%nat;
  bo_empty : queue bl = [] -> chunks bl = [];
  bo_last : initial_ok (last_chunked_blockno bl);
}.

Lemma builder_default_ok : builder_ok builder_default [].
Proof. split; [by exists []|simpl; lia|done|done]. Qed.

Lemma last_app_r {A} (l1 l2 : list A) : l2 <> [] -> last (l1 ++ l2) = last l2.
Proof. intros Hne. rewrite last_app. destruct (last l2) eqn:E; [done|]. by apply last_None in E. Qed.

Lemma push_ok bl vs b : builder_ok bl vs -> block_ok b -> Forall block_ok vs -> NoDup vs ->
  exists bl', push pk b bl = Some bl' /\ builder_ok bl' (collapse_step vs b).
Proof.
  intros [(css & Hcs & ->) Hq He Hl] Hb Hall Hnd. unfold push, collapse_step.
  destruct (Z.eqb_spec b 0) as [|_]; [unfold block_ok in Hb; lia|].
  destruct (last (queue bl)) as [lst|] eqn:El.
  2: { apply last_None in El. rewrite (He El) in *. apply Forall2_nil_inv_l in Hcs as ->. rewrite El. simpl.
       eexists. split; [done|]. split; [by exists []|simpl; lia|done|done]. }
  assert (queue bl <> []) as Hqne by (intros Hn; by rewrite Hn in El).
  rewrite last_app_r, El by done. apply Forall_app in Hall as [_ Hallq]. apply NoDup_app in Hnd as (_ & _ & Hndq).
  destruct (Z.eqb_spec lst b) as [->|Hne].
  { rewrite decide_True by done. exists bl. split; [done|]. split; try done. by exists css. }
  rewrite decide_False by congruence. destruct (Nat.eqb_spec (length (queue bl)) (BLOCK_LEN W4x)) as [Hfull|Hroom].
  - eexists. split; [done|]. split; cbn [chunks queue last_chunked_blockno].
    + exists (css ++ [queue bl]). split; [|by rewrite concat_app; simpl; rewrite app_nil_r].
      apply Forall2_app; [done|]. constructor; [|constructor]. by apply pack_chunk_ok.
    + simpl. lia.
    + done.
    + simpl. rewrite Forall_forall in Hallq. apply Hallq. by apply last_Some_elem_of.
  - eexists. split; [done|]. split; cbn [chunks queue last_chunked_blockno]; [|simpl in *; rewrite length_app; simpl; lia| |done].
    + exists css. by rewrite app_assoc.
    + intros E. by apply app_eq_nil in E as [_ ?].
Qed.

Lemma finish_queue_ok fuel q lst cs css : (length q < fuel)%nat -> Forall block_ok q -> NoDup q -> initial_ok lst ->
  Forall2 chunk_ok cs css ->
  exists cs' css', finish_queue pk fuel q lst cs = Some cs' /\ Forall2 chunk_ok cs' css' /\ concat css' = concat css ++ q.
Proof.
  revert q lst cs css. induction fuel as [|fuel IH]; intros q lst cs css Hf Hall Hnd Hl Hcs; [lia|]. cbn [finish_queue].
  destruct q as [|x q0] eqn:Eq; [exists cs, css; by rewrite app_nil_r|]. rewrite <- Eq in *. assert (q <> []) by (by subst).
  clear Eq x q0.
  assert (forall w, (BLOCK_LEN w <= length q)%nat -> exists cs' css',
    finish_queue pk fuel (drop (BLOCK_LEN w) q) (last (take (BLOCK_LEN w) q)) (cs ++ [pack pk w (take (BLOCK_LEN w) q) lst]) = Some cs' /\
    Forall2 chunk_ok cs' css' /\ concat css' = concat css ++ q) as Hsplit.
  { intros w Hw. assert (0 < BLOCK_LEN w)%nat by (destruct w; simpl; lia).
    rewrite <- (take_drop (BLOCK_LEN w) q) in Hall, Hnd.
    apply Forall_app in Hall as [Ha1 Ha2]. apply NoDup_app in Hnd as (Hn1 & _ & Hn2).
    destruct (IH (drop (BLOCK_LEN w) q) (last (take (BLOCK_LEN w) q)) (cs ++ [pack pk w (take (BLOCK_LEN w) q) lst])
      (css ++ [take (BLOCK_LEN w) q])) as (cs' & css' & E & Hc' & Ec); try done.
    - rewrite length_drop. lia.
    - destruct (last (take (BLOCK_LEN w) q)) as [l|] eqn:El; [|done]. simpl.
      rewrite Forall_forall in Ha1. apply Ha1. by apply last_Some_elem_of.
    - apply Forall2_app; [done|]. constructor; [|constructor]. apply pack_chunk_ok; try done. rewrite length_take. lia.
    - exists cs', css'. split; [done|]. split; [done|]. rewrite Ec, concat_app. simpl.
      by rewrite app_nil_r, <- app_assoc, take_drop. }
  destruct q as [|x q0] eqn:Eq; [done|]. rewrite <- Eq in *. clear Eq x q0.
  destruct (Nat.leb_spec (BLOCK_LEN W8x) (length q)); [by apply Hsplit|].
  destruct (Nat.leb_spec (BLOCK_LEN W4x) (length q)); [by apply Hsplit|].
  destruct (Nat.leb_spec (BLOCK_LEN W1x) (length q)); [by apply Hsplit|].
  exists (cs ++ [Uncompressed q]), (css ++ [q]). split; [done|]. split.
  - apply Forall2_app; [done|]. constructor; [|constructor]. by apply uncompressed_chunk_ok.
  - rewrite concat_app. simpl. by rewrite app_nil_r.
Qed.

(** ** Pages *)

(** A page's bytes are the chunks [cs]; a chain of such pages. *)
Definition cbytes (cs : list ChunkStyle) : list Z := cs ≫= into_bytes.

Lemma cbytes_app c1 c2 : cbytes (c1 ++ c2) = cbytes c1 ++ cbytes c2.
Proof. apply bind_app. Qed.

Lemma read_slice_ok fuel cs css : cs <> [] -> Forall2 chunk_ok cs css -> (length cs < fuel)%nat ->
  read_slice pk fuel (cbytes cs) = Some (concat css).
Proof.
  intros Hne Hcs. revert fuel. induction Hcs as [|c vs cs css Hc Hcs IH]; intros fuel Hf; [done|].
  destruct fuel as [|fuel]; [lia|]. cbn [read_slice length] in *. change (cbytes (c :: cs)) with (into_bytes c ++ cbytes cs).
  rewrite (ck_read _ _ Hc). cbn [mbind option_bind concat].
  destruct Hcs as [|c' vs' cs css Hc' Hcs]; [by rewrite app_nil_r|].
  change (cbytes (c' :: cs)) with (into_bytes c' ++ cbytes cs) in *.
  pose proof (ck_len _ _ Hc') as Hl. pose proof (ck_small _ _ Hc') as Hs.
  rewrite IH by (done || lia).
  destruct (into_bytes c' ++ cbytes cs) eqn:E; [|done]. apply app_eq_nil in E as [E _]. rewrite E in Hl. simpl in Hl. lia.
Qed.

Lemma cbytes_length cs css : Forall2 chunk_ok cs css -> (length cs <= length (cbytes cs))%nat.
Proof.
  induction 1 as [|c vs cs css Hc _ IH]; [done|]. change (cbytes (c :: cs)) with (into_bytes c ++ cbytes cs).
  rewrite length_app. cbn [length]. pose proof (ck_len _ _ Hc). pose proof (ck_small _ _ Hc). lia.
Qed.

Inductive holds : list (Z * lpage) -> list Z -> Prop :=
| holds_nil : holds [] []
| holds_cons b cs css n ch vs : cs <> [] -> Forall2 chunk_ok cs css -> holds ch vs ->
    holds ((b, Data (cbytes cs) n) :: ch) (concat css ++ vs).

Lemma holds_snoc ch vs b cs css n : holds ch vs -> cs <> [] -> Forall2 chunk_ok cs css ->
  holds (ch ++ [(b, Data (cbytes cs) n)]) (vs ++ concat css).
Proof.
  intros Hh Hne Hcs. induction Hh as [|b' cs' css' n' ch vs Hne' Hcs' Hh IH]; simpl.
  - rewrite <- (app_nil_r (concat css)). by apply holds_cons; [..|constructor].
  - rewrite <- app_assoc. by constructor.
Qed.

Section pages.
Variable MAX : Z.
Hypothesis HMAX : 1030 <= MAX.
Context {F : Type} `{FreeSpaceManager F} {Els : Elsewhere}.

Abbreviation rel := (rel F lpage).
Abbreviation chain := (chain lnext).
Implicit Types (r : rel).

Lemma runs_get_data b d n r (Q : list Z * Z -> rel -> Prop) :
  pages r !! b = Some (Data d n) -> Q (d, n) r -> runs (get_data b) r Q.
Proof. intros Hb HQ. unfold get_data. apply runs_bind. by eapply runs_get_buffer. Qed.

Lemma read_blocks_spec fuel r b ch vs (Q : list Z -> rel -> Prop) :
  chain (pages r) b ch -> b <> InvalidBlockNumber -> holds ch vs -> (length ch < fuel)%nat ->
  Q vs r -> runs (read_blocks pk fuel b) r Q.
Proof.
  revert b ch vs Q. induction fuel as [|fuel IH]; intros b ch vs Q Hch Hb Hh Hf HQ; [lia|]. cbn [read_blocks].
  destruct Hh as [|b' cs css n ch vs Hne Hcs Hh]; [by simpl in Hch|]. destruct Hch as (-> & _ & Hp & Hch). cbn [lnext length] in *.
  apply runs_bind. eapply runs_get_data; [done|]. cbn [fst snd]. pose proof (cbytes_length _ _ Hcs).
  rewrite (read_slice_ok (S (length (cbytes cs))) cs css Hne Hcs) by lia. cbn [unwrap]. apply runs_bind, runs_ret.
  destruct (Z.eqb_spec n InvalidBlockNumber) as [->|Hn].
  - destruct Hh as [|b1 ? ? ? ? ? ? ? ?]; [|destruct Hch as (? & ? & _); congruence].
    apply runs_ret. by rewrite app_nil_r in HQ.
  - apply runs_bind. eapply (IH n ch vs); [done|done|done|lia|]. by apply runs_ret.
Qed.

(** Every block but those of [bs] is as it was. *)
Definition framed r r' (bs : list Z) : Prop := forall x, x ∉ bs -> pages r' !! x = pages r !! x.

(** While chunks are written: the pages of [w] are complete, block [b] holds [cs0]. *)
Lemma write_chunks_spec fuel c cs vs css r b0 w ws b cs0 css0 (Q : unit -> rel -> Prop) :
  rel_ok r -> chain (pages r) b0 (w ++ [(b, Data (cbytes cs0) InvalidBlockNumber)]) ->
  NoDup (w ++ [(b, Data (cbytes cs0) InvalidBlockNumber)]).*1 -> holds w ws -> Forall2 chunk_ok cs0 css0 ->
  chunk_ok c vs -> Forall2 chunk_ok cs css ->
  (2 * length cs + (if decide (cs0 = []) then 1 else 2) <= fuel)%nat ->
  (forall r' ch', rel_ok r' -> chain (pages r') b0 ch' -> NoDup ch'.*1 ->
     holds ch' (ws ++ concat css0 ++ vs ++ concat css) ->
     (forall x, x ∈ ch'.*1 -> x ∈ w.*1 \/ x = b \/ pages r !! x = None) ->
     (forall x, x ∈ w.*1 \/ x = b -> x ∈ ch'.*1) -> framed r r' ch'.*1 -> Q tt r') ->
  runs (write_chunks MAX fuel c cs b) r Q.
Proof.
  revert c cs vs css r w ws b cs0 css0.
  induction fuel as [|fuel IH]; intros c cs vs css r w ws b cs0 css0 Hr Hch Hnd Hw Hc0 Hc Hcs Hf HQ; [by case_decide; lia|].
  cbn [write_chunks]. destruct (chain_mid _ _ _ _ _ _ _ Hch) as (_ & _ & Hp & _).
  apply runs_bind. eapply runs_get_data; [done|]. cbn [fst snd]. unfold can_fit.
  destruct (Z.leb_spec (Z.of_nat (length (cbytes cs0)) + byte_len c) MAX) as [Hfit|Hno].
  - apply runs_bind. eapply runs_put_page; [done|done|]. intros r1 Hr1 Hpg1.
    assert (cbytes cs0 ++ into_bytes c = cbytes (cs0 ++ [c])) as Hcb
      by (rewrite cbytes_app; unfold cbytes at 3; simpl; by rewrite app_nil_r).
    rewrite Hcb in Hpg1. assert (Forall2 chunk_ok (cs0 ++ [c]) (css0 ++ [vs])) as Hc1 by (apply Forall2_app; [done|by constructor]).
    assert (chain (pages r1) b0 (w ++ [(b, Data (cbytes (cs0 ++ [c])) InvalidBlockNumber)])) as Hch1
      by (rewrite Hpg1; by eapply chain_update).
    assert (NoDup (w ++ [(b, Data (cbytes (cs0 ++ [c])) InvalidBlockNumber)]).*1) as Hnd1 by (by rewrite fmap_app in *).
    assert (forall x, x <> b -> pages r1 !! x = pages r !! x) as Hfr1.
    { intros x Hx. rewrite Hpg1. by apply lookup_insert_ne. }
    destruct Hcs as [|c' vs' cs css Hc' Hcs].
    + apply runs_ret. eapply HQ; [done|exact Hch1|done| | | |].
      * replace (concat css0 ++ vs ++ concat []) with (concat (css0 ++ [vs])) by (rewrite concat_app; simpl; by rewrite !app_nil_r).
        apply holds_snoc; [done|by destruct cs0|done].
      * intros x. rewrite fmap_app. set_solver.
      * intros x. rewrite fmap_app. set_solver.
      * intros x. rewrite fmap_app. intros Hx. apply Hfr1. set_solver.
    + eapply (IH c' cs vs' css r1 w ws b (cs0 ++ [c]) (css0 ++ [vs])); try done.
      { cbn [length] in Hf. repeat case_decide; lia. }
      intros r' ch' Hr' Hch' Hnd' Hh Hin Hsub Hfr. eapply HQ; [done|done|done| | |done|].
      * rewrite concat_app in Hh. simpl in Hh. rewrite app_nil_r in Hh. by rewrite <- app_assoc in Hh.
      * intros x Hx. destruct (Hin x Hx) as [?|[?|Hx']]; [by left|by right; left|]. rewrite Hpg1 in Hx'.
        apply lookup_insert_None in Hx' as [? _]. auto.
      * intros x Hx. rewrite Hfr by done. apply Hfr1. intros ->. apply Hx, Hsub. by right.
  - assert (cs0 <> []) as Hne.
    { intros ->. simpl in Hno. pose proof (ck_small _ _ Hc). lia. }
    apply runs_bind. eapply runs_new_buffer; [done|]. intros nb r1 Hr1 Hnone Hpg1.
    assert (nb <> b) as Hnb by congruence.
    destruct (rel_ok_valid r1 nb init_page Hr1) as [Hnv _]; [by rewrite Hpg1, lookup_insert_eq|].
    apply runs_bind. eapply (runs_put_page b); [done|by rewrite Hpg1, lookup_insert_ne|]. intros r2 Hr2 Hpg2.
    destruct (chain_link lnext (pages r) b0 w b _ (Data (cbytes cs0) nb) nb init_page Hch Hnd) as [Hch2 Hnd2]; try done.
    rewrite <- Hpg1, <- Hpg2 in Hch2. change [(b, Data (cbytes cs0) nb); (nb, init_page)]
      with ([(b, Data (cbytes cs0) nb)] ++ [(nb, init_page)]) in *. rewrite app_assoc in *.
    eapply (IH c cs vs css r2 (w ++ [(b, Data (cbytes cs0) nb)]) (ws ++ concat css0) nb [] []); try done.
    { by apply holds_snoc. }
    { rewrite decide_True by done. rewrite decide_False in Hf by done. lia. }
    intros r' ch' Hr' Hch' Hnd' Hh Hin Hsub Hfr. eapply HQ; [done|done|done| | | |].
    * cbn [concat app] in Hh. exact Hh.
    * intros x Hx. destruct (Hin x Hx) as [Hx'|[->|Hx']].
      -- rewrite fmap_app in Hx'. set_solver.
      -- auto.
      -- rewrite Hpg2, Hpg1 in Hx'. apply lookup_insert_None in Hx' as [Hx' _].
         apply lookup_insert_None in Hx' as [? _]. auto.
    * intros x Hx. apply Hsub. rewrite fmap_app. set_solver.
    * intros x Hx. rewrite Hfr, Hpg2, Hpg1, !lookup_insert_ne; try done; intros <-; apply Hx, Hsub;
        rewrite fmap_app; set_solver.
Qed.

(** [finish] allocates new pages only and leaves a list that holds what was pushed. *)
Lemma finish_spec r bl vs (Q : option Z -> rel -> Prop) :
  rel_ok r -> builder_ok bl vs -> Forall block_ok vs -> NoDup vs ->
  (vs = [] -> Q None r) ->
  (forall r' b ch, vs <> [] -> b <> InvalidBlockNumber -> rel_ok r' -> chain (pages r') b ch -> NoDup ch.*1 -> holds ch vs ->
     (forall x, x ∈ ch.*1 -> pages r !! x = None) -> framed r r' ch.*1 -> Q (Some b) r') ->
  runs (finish pk MAX bl) r Q.
Proof.
  intros Hr [(css & Hcs & ->) Hq He Hl] Hall Hnd HQ0 HQ. unfold finish.
  apply Forall_app in Hall as [_ Hallq]. apply NoDup_app in Hnd as (_ & _ & Hndq).
  destruct (finish_queue_ok (S (length (queue bl))) (queue bl) (last_chunked_blockno bl) (chunks bl) css)
    as (cs & css' & E & Hcs' & Ec); try done; [lia|].
  rewrite E. apply runs_bind, runs_ret. rewrite <- Ec in HQ0, HQ. destruct Hcs' as [|c vs0 cs css' Hc Hcs'].
  { apply runs_ret. by apply HQ0. }
  assert (concat (vs0 :: css') <> []) as Hne.
  { intros Hz. rewrite Ec in Hz. apply app_eq_nil in Hz as [_ Hz]. rewrite (He Hz), Hz in E. done. }
  apply runs_bind. eapply runs_new_buffer; [done|]. intros b r1 Hr1 Hnone Hpg1.
  destruct (rel_ok_valid r1 b init_page Hr1) as [Hnv _]; [by rewrite Hpg1, lookup_insert_eq|].
  apply runs_bind. eapply (write_chunks_spec _ c cs vs0 css' r1 b [] [] b [] []); try done.
  - split; [done|]. split; [done|]. split; [by rewrite Hpg1, lookup_insert_eq|done].
  - apply NoDup_singleton.
  - constructor.
  - rewrite decide_True by done. cbn [length]. lia.
  - intros r' ch' Hr' Hch' Hnd' Hh Hin Hsub Hfr. apply runs_ret. eapply HQ; try done.
    + intros x Hx. destruct (Hin x Hx) as [Hx'|[->|Hx']]; [by apply elem_of_nil in Hx'|done|].
      rewrite Hpg1 in Hx'. by apply lookup_insert_None in Hx' as [? _].
    + intros x Hx. rewrite Hfr, Hpg1, lookup_insert_ne; try done. intros <-. apply Hx, Hsub. by right.
Qed.

End pages.

End roundtrip.

(** ** Pushing, finishing, reading *)

(** [push] for each block, in order. *)
Definition push_all (pk : width -> packer) (bs : list Z) (bl : builder) : option builder :=
  foldl (fun o b => o ≫= push pk b) (Some bl) bs.

Lemma collapse_step_elem vs b x : x ∈ collapse_step vs b -> x ∈ vs \/ x = b.
Proof. unfold collapse_step. case_decide; set_solver. Qed.

Lemma collapse_sub bs vs x : x ∈ foldl collapse_step vs bs -> x ∈ vs \/ x ∈ bs.
Proof.
  revert vs. induction bs as [|b bs IH]; intros vs; simpl; [auto|]. intros [Hx|Hx]%IH; [|set_solver].
  apply collapse_step_elem in Hx. set_solver.
Qed.

Lemma collapse_prefix bs vs : exists more, foldl collapse_step vs bs = vs ++ more.
Proof.
  revert vs. induction bs as [|b bs IH]; intros vs; simpl; [exists []; by rewrite app_nil_r|].
  destruct (IH (collapse_step vs b)) as [more ->]. unfold collapse_step. case_decide; [by eexists|].
  exists ([b] ++ more). by rewrite app_assoc.
Qed.

Section push_all.
Variable pk : width -> packer.
Hypothesis pk_ok : forall w, packer_ok w (pk w).

Lemma push_all_ok bs bl vs : builder_ok pk bl vs -> Forall block_ok bs -> Forall block_ok vs ->
  NoDup (foldl collapse_step vs bs) ->
  exists bl', push_all pk bs bl = Some bl' /\ builder_ok pk bl' (foldl collapse_step vs bs).
Proof.
  unfold push_all. revert bl vs. induction bs as [|b bs IH]; intros bl vs Hbl Hbs Hvs Hnd; simpl; [by eexists|].
  apply Forall_cons in Hbs as [Hb Hbs].
  assert (NoDup (collapse_step vs b)) as Hnd'.
  { simpl in Hnd. destruct (collapse_prefix bs (collapse_step vs b)) as [more E]. rewrite E in Hnd.
    by apply NoDup_app in Hnd as [? _]. }
  assert (NoDup vs) as Hnd0 by (unfold collapse_step in Hnd'; case_decide; [done|by apply NoDup_app in Hnd' as [? _]]).
  destruct (push_ok pk pk_ok bl vs b Hbl Hb Hvs Hnd0) as (bl' & -> & Hbl'). apply IH; [done|done| |done].
  rewrite Forall_forall in Hvs |- *. intros x Hx. apply collapse_step_elem in Hx as [?| ->]; [by apply Hvs|done].
Qed.

(** C17: The block numbers pushed while a file is written are what the reader of the
    finished block list returns, in order, each once for a run of equal pushes, however
    they were split into packed chunks and over pages; writing the list touches only new
    pages. *)
Theorem blocklist_roundtrip (MAX : Z) {F : Type} `{FreeSpaceManager F} {Els : Elsewhere} (r : rel F lpage) bs :
  1030 <= MAX -> rel_ok r -> Forall block_ok bs -> NoDup (collapse bs) ->
  exists bl, push_all pk bs builder_default = Some bl /\
    runs (o ← finish pk MAX bl; reader_new pk (default InvalidBlockNumber o)) r (fun vs r' =>
      vs = collapse bs /\ forall x, is_Some (pages r !! x) -> pages r' !! x = pages r !! x).
Proof.
  intros HMAX Hr Hbs Hnd. destruct (push_all_ok bs builder_default []) as (bl & E & Hbl);
    [apply builder_default_ok|done|constructor|done|]. exists bl. split; [done|]. fold (collapse bs) in Hbl.
  apply runs_bind. eapply (finish_spec pk pk_ok MAX HMAX r bl (collapse bs)); [done|done| |done| |].
  - rewrite Forall_forall in Hbs |- *. intros x Hx. apply collapse_sub in Hx as [Hx|Hx]; [by apply elem_of_nil in Hx|auto].
  - intros Hz. rewrite Hz. by apply runs_ret.
  - intros r' b ch _ Hb Hr' Hch Hnd' Hh Hfresh Hfr. unfold reader_new. cbn [default]. 
    rewrite (proj2 (Z.eqb_neq _ _)) by done. apply runs_bind, runs_gets.
    eapply read_blocks_spec; [done|done|done|apply chain_length in Hch; [lia|done]|].
    split; [done|]. intros x Hx. apply Hfr. intros Hin. apply Hfresh in Hin. destruct Hx. congruence.
Qed.

End push_all.

(** A packer that always uses 32 bits per number. *)
Definition plain_decode (w : width) (bytes : list Z) : list Z * nat :=
  match read_values (BLOCK_LEN w) bytes with Some (vs, _) => (vs, (4 * BLOCK_LEN w)%nat) | None => ([], O) end.
Definition plain_encode (w : width) (l : list Z) (nb : Z) : list Z :=
  if nb =? 32 then l ≫= to_le_bytes else replicate (Z.to_nat (nb * Z.of_nat (BLOCK_LEN w) / 8)) 0.
Definition plain_packer (w : width) : packer :=
  mkPacker (fun _ _ => 32) (fun _ l nb => plain_encode w l nb) (fun _ bytes _ => plain_decode w bytes)
    (fun _ _ => 32) (fun _ l nb => plain_encode w l nb) (fun _ bytes _ => plain_decode w bytes).

Lemma plain_read l rest : Forall block_ok l -> read_values (length l) ((l ≫= to_le_bytes) ++ rest) = Some (l, rest).
Proof.
  induction 1 as [|b l Hb _ IH]; [done|]. rewrite bind_cons, <- app_assoc. cbn [length read_values].
  change (take 4 (to_le_bytes b ++ ?x)) with (to_le_bytes b). change (drop 4 (to_le_bytes b ++ ?x)) with x.
  rewrite le_bytes_roundtrip by (unfold block_ok in Hb; lia). cbn [mbind option_bind]. by rewrite IH.
Qed.

Lemma plain_size w l nb : length l = BLOCK_LEN w -> 0 <= nb <= 32 ->
  Z.of_nat (length (plain_encode w l nb)) = nb * Z.of_nat (BLOCK_LEN w) / 8.
Proof.
  intros Hl Hnb. unfold plain_encode. destruct (Z.eqb_spec nb 32) as [->|].
  - rewrite <- Hl. assert (length (l ≫= to_le_bytes) = 4 * length l)%nat as ->.
    { clear. induction l as [|b l IH]; [done|]. rewrite bind_cons, length_app, IH. simpl. lia. }
    replace (32 * Z.of_nat (length l)) with (4 * Z.of_nat (length l) * 8) by lia. rewrite Z.div_mul; lia.
  - rewrite length_replicate. pose proof (packed_bytes_bound w nb Hnb). lia.
Qed.

Lemma plain_unpack w l rest : length l = BLOCK_LEN w -> Forall block_ok l ->
  plain_decode w (plain_encode w l 32 ++ rest) = (l, length (plain_encode w l 32)).
Proof.
  intros Hl Hb. unfold plain_decode, plain_encode. change (32 =? 32) with true. cbn iota. rewrite <- Hl, plain_read by done. f_equal.
  clear. induction l as [|b l IH]; [done|]. rewrite bind_cons, length_app, <- IH. simpl. lia.
Qed.

Lemma plain_packer_ok w : packer_ok w (plain_packer w).
Proof.
  split; cbn; intros; try lia; try by apply plain_size.
  - by apply plain_unpack.
  - by apply plain_unpack.
Qed.

#[local] Instance demo_elsewhere : Elsewhere := (list_to_set [1; 2; 3; 4] : gset Z).

Lemma blocklist_roundtrip_witness :
  exists bl, push_all plain_packer [7; 7; 9; 8] builder_default = Some bl /\
    runs (o ← finish plain_packer 1100 bl; reader_new plain_packer (default InvalidBlockNumber o))
      (mkRel (mkStack [5] 6) ∅ : rel stack_fsm lpage) (fun vs _ => vs = [7; 9; 8]).
Proof.
  destruct (blocklist_roundtrip plain_packer plain_packer_ok 1100 (mkRel (mkStack [5] 6) ∅ : rel stack_fsm lpage)
    [7; 7; 9; 8]) as (bl & E & Hr).
  - lia.
  - stack_rel.
  - repeat constructor; lia.
  - apply (bool_decide_unpack _). vm_compute. exact I.
  - exists bl. split; [exact E|]. eapply runs_mono; [exact Hr|]. intros vs r' [-> _]. vm_compute. reflexivity.
Defined.
