(* ===== verification/LinkedBytes.v ===== *)
(** * Files: lists of bytes on linked pages

    [storage/linked_bytes.rs]: a header page, a chain of data pages filled one after the
    other, and the block list that gives random access to them. *)

From stdpp Require Import prelude gmap.
From Stdlib Require Import ZArith Lia.
From S2P Require Import Prelude Pages BlockList.
Import BlockList.

Local Open Scope Z_scope.

Module LinkedBytes.

Section ops.
Variable pk : width -> packer.
(** [bm25_max_free_space()] *)
Variable MAX : Z.
Context {F : Type} `{FreeSpaceManager F}.

Abbreviation RM := (M (rel F lpage) unit).

Definition get_header (hb : Z) : RM (Z * Z * Z) :=
  p ← get_buffer hb;
  match p with Header s l bl => mret (s, l, bl) | _ => panic end.

Definition assert_block (b : Z) : RM Z :=
  if block_number_is_valid b then mret b else panic.

Definition get_start_blockno (hb : Z) : RM Z := h ← get_header hb; assert_block h.1.1.
Definition get_last_blockno (hb : Z) : RM Z := h ← get_header hb; assert_block h.1.2.

(** ** Creation *)

Definition create_with_fsm : RM Z :=
  bufs ← new_buffers init_page 2;
  header ← unwrap (bufs !! 0%nat);
  start ← unwrap (bufs !! 1%nat);
  put_page header (Header start start InvalidBlockNumber);;
  mret header.

Definition create_without_fsm : RM Z :=
  header ← init_new_buffer init_page;
  start ← init_new_buffer init_page;
  put_page header (Header start start InvalidBlockNumber);;
  mret header.

(** ** Writing *)

Record LinkedBytesListWriter := mkWriter {
  list_header : Z;
  blocklist_builder : builder;
  w_last_blockno : Z;
}.

Definition writer (hb : Z) : RM LinkedBytesListWriter :=
  last_blockno ← get_last_blockno hb;
  mret (mkWriter hb builder_default last_blockno).

Definition free_space (d : list Z) : Z := MAX - Z.of_nat (length d).

(** The number of pages beyond the last one that [n] more bytes need.  The source computes
    the quotient in [f64] and rounds it up, which is exact for any file below 2^52 bytes. *)
Definition new_buffers_needed (n : nat) (free : Z) : nat :=
  Z.to_nat ((Z.max 0 (Z.of_nat n - free) + MAX - 1) / MAX).

Fixpoint write_loop (fuel : nat) (bytes : list Z) (bufs : list Z) (w : LinkedBytesListWriter)
  : RM LinkedBytesListWriter :=
  match fuel with
  | O => out_of_fuel
  | S fuel =>
      match bytes with
      | [] => mret w
      | _ =>
          bl ← unwrap (push pk (w_last_blockno w) (blocklist_builder w));
          p ← get_data (w_last_blockno w);
          let free := free_space p.1 in
          let bytes_to_write := Z.to_nat (Z.min free (Z.of_nat (length bytes))) in
          if (bytes_to_write =? 0)%nat then
            match bufs with
            | [] => panic
            | new_blockno :: bufs =>
                put_page (w_last_blockno w) (Data p.1 new_blockno);;
                put_page new_blockno init_page;;
                write_loop fuel bytes bufs (mkWriter (list_header w) bl new_blockno)
            end
          else
            put_page (w_last_blockno w) (Data (p.1 ++ take bytes_to_write bytes) p.2);;
            write_loop fuel (drop bytes_to_write bytes) bufs (mkWriter (list_header w) bl (w_last_blockno w))
      end
  end.

Definition write (bytes : list Z) (w : LinkedBytesListWriter) : RM LinkedBytesListWriter :=
  p ← get_data (w_last_blockno w);
  bufs ← new_buffers init_page (new_buffers_needed (length bytes) (free_space p.1));
  write_loop (2 * length bytes + 2) bytes bufs w.

Definition finalize_and_write (w : LinkedBytesListWriter) : RM Z :=
  let hb := list_header w in
  h ← get_header hb;
  put_page hb (Header h.1.1 (w_last_blockno w) h.2);;
  o ← finish pk MAX (blocklist_builder w);
  (match o with
   | Some blockno => put_page hb (Header h.1.1 (w_last_blockno w) blockno)
   | None => mret tt
   end);;
  mret hb.

(** ** Reading *)

Fixpoint read_loop (fuel : nat) (b : Z) : RM (list Z) :=
  match fuel with
  | O => out_of_fuel
  | S fuel =>
      if b =? InvalidBlockNumber then mret []
      else p ← get_data b; rest ← read_loop fuel p.2; mret (p.1 ++ rest)
  end.

Definition page_count : RM nat := gets (fun r => size (pages r)).

Definition read_all (hb : Z) : RM (list Z) :=
  start ← get_start_blockno hb;
  n ← page_count;
  read_loop (S n) start.

Definition is_empty (hb : Z) : RM bool :=
  start ← get_start_blockno hb;
  p ← get_data start;
  mret (match p.1 with [] => true | _ => false end).

Definition block_for_ord (hb : Z) (ord : nat) : RM (option Z) :=
  h ← get_header hb;
  blocks ← reader_new pk h.2;
  mret (blocks !! ord).

(** ** Blocks to free *)

(** The blocks of a chain of pages: here those of the block list itself. *)
Fixpoint chain_blocks (fuel : nat) (b : Z) : RM (list Z) :=
  match fuel with
  | O => out_of_fuel
  | S fuel =>
      if b =? InvalidBlockNumber then mret []
      else p ← get_data b; rest ← chain_blocks fuel p.2; mret (b :: rest)
  end.

Definition freeable_blocks (hb : Z) : RM (list Z) :=
  h ← get_header hb;
  blocks ← reader_new pk h.2;
  n ← page_count;
  own ← chain_blocks (S n) h.2;
  mret (blocks ++ [hb] ++ own).

Definition return_to_fsm (current_xid : Z) (hb : Z) : RM unit :=
  bs ← freeable_blocks hb;
  release_now current_xid bs.

(** ** Random access *)

(** The multi-page loop of [get_bytes_range]; [first] is the offset into the first page.
    [as_slice_range] reads the page's memory without a bounds check; what lies past the
    data of a page is not modelled, so a slice that reaches there is short. *)
Fixpoint range_loop (fuel : nat) (b : Z) (first : nat) (remaining : nat) : RM (list Z) :=
  match fuel with
  | O => out_of_fuel
  | S fuel =>
      if (remaining =? 0)%nat || (b =? InvalidBlockNumber) then mret []
      else
        p ← get_data b;
        let slice_len := Nat.min (Z.to_nat MAX - first) remaining in
        rest ← range_loop fuel p.2 O (remaining - slice_len);
        mret (take slice_len (drop first p.1) ++ rest)
  end.

(** [block_bytes.slice(a..b)] *)
Definition slice (a n : nat) (d : list Z) : RM (list Z) :=
  if (a + n <=? length d)%nat then mret (take n (drop a d)) else panic.

(** The read cache: the most recently used blocks by their ordinal, oldest first. *)
Definition BLOCK_CACHE_SIZE : nat := 16.
Definition cache : Type := list (nat * list Z).

Definition get_bytes_range_block (hb : Z) (ord : nat) (c : cache) : RM (list Z * cache) :=
  match list_find (fun e : nat * list Z => e.1 = ord) (reverse c) with
  | Some (i, e) =>
      let pos := (length c - 1 - i)%nat in
      mret (e.2, delete pos c ++ [e])
  | None =>
      o ← block_for_ord hb ord;
      blockno ← unwrap o;
      p ← get_data blockno;
      let c := if (BLOCK_CACHE_SIZE <=? length c)%nat then tail c else c in
      mret (p.1, c ++ [(ord, p.1)])
  end.

Definition get_bytes_range (hb : Z) (start stop : nat) (c : cache) : RM (list Z * cache) :=
  if (stop <=? start)%nat then mret ([], c)
  else
    let item_size := Z.to_nat MAX in
    let start_block_ord := (start / item_size)%nat in
    let end_block_ord := ((stop - 1) / item_size)%nat in
    if (start_block_ord =? end_block_ord)%nat then
      d ← get_bytes_range_block hb start_block_ord c;
      bytes ← slice (start mod item_size)%nat (stop - start)%nat d.1;
      mret (bytes, d.2)
    else
      o ← block_for_ord hb start_block_ord;
      blockno ← unwrap o;
      n ← page_count;
      bytes ← range_loop (S (S n)) blockno (start mod item_size)%nat (stop - start)%nat;
      mret (bytes, c).

End ops.

End LinkedBytes.
