(* ===== verification/LinkedBytesProps.v ===== *)
(** * Files: what is written is read, and freed

    The writer fills page after page and tells the block list which blocks it used.  From
    this follow: reading gives back what was written, by the whole file or by any range,
    through the read cache or not; and freeing a finished file gives back exactly the blocks
    it took. *)

From stdpp Require Import prelude gmap.
From Stdlib Require Import ZArith Lia.
From S2P Require Import Prelude Pages BlockList BlockListProps LinkedBytes.
Import BlockList LinkedBytes.

Local Open Scope Z_scope.

Section files.
Variable pk : width -> packer.
Hypothesis pk_ok : forall w, packer_ok w (pk w).
Variable MAX : Z.
Hypothesis HMAX : 1030 <= MAX.
Context {F : Type} `{FreeSpaceManager F} {Els : Elsewhere}.

Abbreviation rel := (rel F lpage).
Abbreviation chain := (chain lnext).
Implicit Types (r : rel) (w : LinkedBytesListWriter) (bytes d : list Z) (init : list (Z * lpage)).

(** ** The data pages *)

Definition pdata (p : lpage) : list Z := match p with Data d _ => d | _ => [] end.
Definition content (ch : list (Z * lpage)) : list Z := ch ≫= (fun e => pdata e.2).

Lemma content_app ch1 ch2 : content (ch1 ++ ch2) = content ch1 ++ content ch2.
Proof. apply bind_app. Qed.

Abbreviation tail_page b d := (b, Data d InvalidBlockNumber).

(** The pages from [st]: those of [init] are full, the last one, [b], holds [d]. *)
Record filling r (st : Z) init (b : Z) d : Prop := {
  fl_chain : chain (pages r) st (init ++ [tail_page b d]);
  fl_nodup : NoDup (init.*1 ++ [b]);
  fl_full : Forall (fun e => Z.of_nat (length (pdata e.2)) = MAX) init;
  fl_room : Z.of_nat (length d) <= MAX;
}.

Lemma fmap_tail init b d : (init ++ [tail_page b d]).*1 = init.*1 ++ [b].
Proof. by rewrite fmap_app. Qed.

Lemma rel_ok_block r b p : rel_ok r -> pages r !! b = Some p -> block_ok b.
Proof.
  intros [Hf Hp _ _ _] Hb. destruct (Hp b) as [? _]; [by eexists|]. pose proof (nblocks_bound _ Hf).
  unfold block_ok, InvalidBlockNumber in *. lia.
Qed.

Lemma filling_blocks r st init b d : rel_ok r -> filling r st init b d -> Forall block_ok (init.*1 ++ [b]).
Proof.
  intros Hr [Hch _ _ _]. rewrite <- (fmap_tail init b d). apply Forall_forall. intros x Hx.
  destruct (seg_in _ _ _ _ _ _ Hch Hx) as [p Hp]. by eapply rel_ok_block.
Qed.

Lemma filling_last r st init b d : filling r st init b d -> pages r !! b = Some (Data d InvalidBlockNumber).
Proof. intros [Hch _ _ _]. by apply chain_mid in Hch as (_ & _ & ? & _). Qed.

(** Appending to the last page. *)
Lemma filling_append r r' st init b d x : filling r st init b d -> Z.of_nat (length (d ++ x)) <= MAX ->
  pages r' = <[b := Data (d ++ x) InvalidBlockNumber]> (pages r) -> filling r' st init b (d ++ x).
Proof.
  intros [Hch Hnd Hfull _] Hroom Hpg. split; try done. rewrite Hpg.
  eapply chain_update; [done| |done]. by rewrite fmap_tail.
Qed.

(** Moving on to a new page when the last one is full. *)
Lemma filling_next r r' st init b d nb : filling r st init b d -> Z.of_nat (length d) = MAX ->
  nb ∉ init.*1 ++ [b] -> nb <> InvalidBlockNumber ->
  pages r' = <[b := Data d nb]> (<[nb := init_page]> (pages r)) ->
  filling r' st (init ++ [(b, Data d nb)]) nb [].
Proof.
  intros [Hch Hnd Hfull _] Hd Hnb Hnv Hpg.
  destruct (chain_extend lnext (pages r) st init b _ (Data d nb) nb init_page Hch) as [Hch' Hnd']; try done;
    rewrite ?fmap_tail; try done. split.
  - rewrite Hpg, <- app_assoc. exact Hch'.
  - rewrite fmap_app, <- app_assoc. by rewrite fmap_app in Hnd'.
  - apply Forall_app. split; [done|]. by constructor.
  - simpl. lia.
Qed.

(** ** Writing *)

Lemma needed_write n free k : (k <= n)%nat -> new_buffers_needed MAX (n - k) (free - Z.of_nat k) = new_buffers_needed MAX n free.
Proof. intros Hk. unfold new_buffers_needed. do 4 f_equal. lia. Qed.

Lemma needed_none n free : Z.of_nat n <= free -> new_buffers_needed MAX n free = O.
Proof. intros Hn. unfold new_buffers_needed. rewrite Z.max_l, Z.div_small by lia. done. Qed.

Lemma needed_switch n : (0 < n)%nat -> new_buffers_needed MAX n 0 = S (new_buffers_needed MAX n MAX).
Proof.
  intros Hn. unfold new_buffers_needed. rewrite <- Z2Nat.inj_succ by (apply Z.div_pos; lia). f_equal.
  rewrite <- Z.add_1_r, <- Z.div_add by lia. destruct (decide (Z.of_nat n <= MAX)) as [Hle|Hgt].
  - replace (Z.max 0 (Z.of_nat n - MAX) + MAX - 1 + 1 * MAX) with (MAX - 1 + 1 * MAX) by lia.
    rewrite Z.div_add, (Z.div_small (MAX - 1)) by lia.
    replace (Z.max 0 (Z.of_nat n - 0) + MAX - 1) with (Z.of_nat n - 1 + 1 * MAX) by lia.
    rewrite Z.div_add, Z.div_small by lia. done.
  - f_equal. lia.
Qed.

Lemma push_last bl vs (done_ : list Z) b : builder_ok pk bl vs -> vs = done_ \/ vs = done_ ++ [b] ->
  NoDup (done_ ++ [b]) -> Forall block_ok (done_ ++ [b]) ->
  exists bl', push pk b bl = Some bl' /\ builder_ok pk bl' (done_ ++ [b]).
Proof.
  intros Hbl Hvs Hnd Hall.
  assert (collapse_step vs b = done_ ++ [b]) as <-.
  { unfold collapse_step. destruct Hvs as [->| ->]; [|by rewrite last_snoc, decide_True].
    rewrite decide_False; [done|]. intros Hl%last_Some_elem_of. apply NoDup_app in Hnd as (_ & Hd & _).
    apply (Hd b Hl). left. }
  pose proof (Forall_inv (proj2 (proj1 (Forall_app _ _ _) Hall))) as Hb.
  eapply push_ok; [exact pk_ok|exact Hbl|exact Hb| |].
  - destruct Hvs as [->| ->]; [by apply Forall_app in Hall as [? _]|done].
  - destruct Hvs as [->| ->]; [by apply NoDup_app in Hnd as [? _]|done].
Qed.

(** What [write] leaves behind: the same file with [bytes] added on pages [bufs]. *)
Record written r r' w w' st init b d bytes bufs vs init' b' d' vs' : Prop := {
  wr_ok : rel_ok r';
  wr_fill : filling r' st init' b' d';
  wr_last : w_last_blockno w' = b';
  wr_header : list_header w' = list_header w;
  wr_builder : builder_ok pk (blocklist_builder w') vs';
  wr_vs : vs' = if decide (bytes = []) then vs else init'.*1 ++ [b'];
  wr_blocks : init'.*1 ++ [b'] = init.*1 ++ [b] ++ bufs;
  wr_content : content init' ++ d' = content init ++ d ++ bytes;
  wr_frame : framed r r' (init'.*1 ++ [b']);
}.

Lemma write_loop_spec fuel bytes bufs w r st init b d vs (Q : LinkedBytesListWriter -> rel -> Prop) :
  rel_ok r -> filling r st init b d -> w_last_blockno w = b ->
  builder_ok pk (blocklist_builder w) vs -> vs = init.*1 \/ vs = init.*1 ++ [b] ->
  length bufs = new_buffers_needed MAX (length bytes) (free_space MAX d) -> NoDup bufs ->
  (forall x, x ∈ bufs -> pages r !! x = Some init_page /\ x ∉ init.*1 ++ [b]) ->
  (2 * length bytes + (if decide (free_space MAX d = 0%Z) then 1 else 0) < fuel)%nat ->
  (forall r' w' init' b' d' vs', written r r' w w' st init b d bytes bufs vs init' b' d' vs' -> Q w' r') ->
  runs (write_loop pk MAX fuel bytes bufs w) r Q.
Proof.
  revert bytes bufs w r init b d vs.
  induction fuel as [|fuel IH]; intros bytes bufs w r init b d vs Hr Hfl Hw Hbl Hvs Hn Hnd Hbufs Hf HQ; [lia|].
  cbn [write_loop]. destruct bytes as [|x0 bytes0] eqn:Eb.
  { apply runs_ret. apply (HQ r w init b d vs). rewrite <- Eb in *. subst bytes.
    assert (bufs = []) as ->.
    { apply nil_length_inv. rewrite Hn. apply needed_none. pose proof (fl_room _ _ _ _ _ Hfl). unfold free_space. simpl. lia. }
    split; rewrite ?app_nil_r; done. }
  rewrite <- Eb in *. assert (0 < length bytes)%nat as Hpos by (subst; simpl; lia).
  assert (bytes <> []) as Hbne by (by subst). clear Eb x0 bytes0.
  pose proof (filling_blocks _ _ _ _ _ Hr Hfl) as Hall. pose proof (fl_nodup _ _ _ _ _ Hfl) as Hnd0.
  destruct (push_last _ _ _ _ Hbl Hvs Hnd0 Hall) as (bl & E & Hbl'). rewrite Hw, E. cbn [unwrap].
  apply runs_bind, runs_ret, runs_bind. eapply runs_get_data; [by eapply filling_last|]. cbn [fst snd].
  pose proof (fl_room _ _ _ _ _ Hfl) as Hroom.
  set (k := Z.to_nat (Z.min (free_space MAX d) (Z.of_nat (length bytes)))). destruct (Nat.eqb_spec k 0) as [Hk|Hk].
  - assert (free_space MAX d = 0) as Hfree by (unfold free_space in *; lia). rewrite Hfree in *.
    rewrite decide_True in Hf by done. rewrite needed_switch in Hn by done.
    destruct bufs as [|nb bufs]; [done|]. cbn [length] in Hn. apply NoDup_cons in Hnd as [Hnb Hnd].
    destruct (Hbufs nb ltac:(left)) as [Hpnb Hnbn].
    assert (nb <> b) as Hneb by set_solver. destruct (rel_ok_valid _ _ _ Hr Hpnb) as [Hnv _].
    apply runs_bind. eapply runs_put_page; [done|by eapply filling_last|]. intros r1 Hr1 Hpg1.
    apply runs_bind. eapply runs_put_page; [done|by rewrite Hpg1, lookup_insert_ne|]. intros r2 Hr2 Hpg2.
    rewrite Hpg1, insert_insert_ne in Hpg2 by done.
    assert (filling r2 st (init ++ [(b, Data d nb)]) nb []) as Hfl2.
    { eapply filling_next; try done. unfold free_space in Hfree. lia. }
    eapply (IH bytes bufs _ r2 _ nb [] (init.*1 ++ [b])); try done.
    + left. by rewrite fmap_app.
    + injection Hn as ->. unfold free_space. simpl. by rewrite Z.sub_0_r.
    + intros x Hx. destruct (Hbufs x ltac:(by right)) as [Hpx Hxn]. assert (x <> nb) by (by intros ->).
      rewrite Hpg2, !lookup_insert_ne by set_solver. split; [done|]. rewrite fmap_app. set_solver.
    + unfold free_space. rewrite decide_False by (simpl; lia). lia.
    + intros r' w' init' b' d' vs' [H1 H2 H3 H4 H5 H6 H7 H8 H9]. eapply HQ. split; try done.
      * by rewrite H6, !decide_False.
      * rewrite H7, fmap_app. simpl. by rewrite <- !app_assoc.
      * rewrite H8, content_app. unfold content at 2. simpl. by rewrite app_nil_r, <- !app_assoc.
      * intros x Hx. rewrite H9, Hpg2, !lookup_insert_ne; try done; intros <-; apply Hx; rewrite H7, fmap_app; set_solver.
  - apply runs_bind. eapply runs_put_page; [done|by eapply filling_last|]. intros r1 Hr1 Hpg1.
    assert (length (take k bytes) = k) as Hlt by (rewrite length_take; lia).
    assert (filling r1 st init b (d ++ take k bytes)) as Hfl1.
    { eapply filling_append; [done| |done]. rewrite length_app, Hlt. unfold free_space in k. lia. }
    assert (free_space MAX (d ++ take k bytes) = free_space MAX d - Z.of_nat k) as Hfree.
    { unfold free_space. rewrite length_app, Hlt. lia. }
    eapply (IH (drop k bytes) bufs _ r1 init b (d ++ take k bytes) (init.*1 ++ [b])); try done.
    + by right.
    + by rewrite Hn, length_drop, Hfree, needed_write by lia.
    + intros x Hx. destruct (Hbufs x Hx) as [Hpx Hxn]. rewrite Hpg1, lookup_insert_ne by set_solver. done.
    + rewrite length_drop. repeat case_decide; lia.
    + intros r' w' init' b' d' vs' [H1 H2 H3 H4 H5 H6 H7 H8 H9]. eapply HQ. split; try done.
      * rewrite H6, (decide_False (P := bytes = [])) by done. case_decide as Hd; [|done].
        rewrite H7. assert (bufs = []) as ->; [|done]. apply nil_length_inv. rewrite Hn, <- (needed_write _ _ k), <- length_drop, Hd by lia.
        apply needed_none. unfold free_space in *. simpl. lia.
      * rewrite H8, <- !app_assoc. by rewrite take_drop.
      * intros x Hx. rewrite H9, Hpg1, lookup_insert_ne; try done. intros <-. apply Hx. rewrite H7. set_solver.
Qed.

Lemma framed_trans r1 r2 r3 bs : framed r1 r2 bs -> framed r2 r3 bs -> framed r1 r3 bs.
Proof. intros H1 H2 x Hx. by rewrite H2, H1. Qed.

Lemma framed_mono r1 r2 bs bs' : framed r1 r2 bs -> bs ⊆ bs' -> framed r1 r2 bs'.
Proof. intros H1 Hs x Hx. apply H1. set_solver. Qed.

Lemma new_buffers_spec n r (Q : list Z -> rel -> Prop) : rel_ok r ->
  (forall bs r', rel_ok r' -> length bs = n -> NoDup bs ->
     (forall x, x ∈ bs -> pages r !! x = None /\ pages r' !! x = Some init_page) -> framed r r' bs -> Q bs r') ->
  runs (new_buffers init_page n) r Q.
Proof.
  intros Hr HQ. apply runs_new_buffers; [done|]. intros bs r' (Hr' & Hnd & Hin & Hfr) Hlen. by apply HQ.
Qed.

(** ** A file that is being written

    [r0] is the relation before the file was created: its pages are untouched, and all the
    blocks of the file are new. *)
Definition owned_blocks hb init (b : Z) : list Z := hb :: init.*1 ++ [b].

Record writer_ok r0 r w st init b d : Prop := {
  wo_rel : rel_ok r;
  wo_header : pages r !! list_header w = Some (Header st st InvalidBlockNumber);
  wo_fill : filling r st init b d;
  wo_last : w_last_blockno w = b;
  wo_builder : builder_ok pk (blocklist_builder w) (if decide (content init ++ d = []) then [] else init.*1 ++ [b]);
  wo_nodup : NoDup (owned_blocks (list_header w) init b);
  wo_fresh : forall x, x ∈ owned_blocks (list_header w) init b -> pages r0 !! x = None;
  wo_frame : framed r0 r (owned_blocks (list_header w) init b);
}.

Lemma full_nonempty init : Forall (fun e : Z * lpage => Z.of_nat (length (pdata e.2)) = MAX) init ->
  content init = [] -> init = [].
Proof.
  destruct 1 as [|e init He _]; [done|]. unfold content. rewrite bind_cons. intros [E _]%app_eq_nil.
  rewrite E in He. simpl in He. lia.
Qed.

Lemma write_spec r0 r w st init b d bytes (Q : LinkedBytesListWriter -> rel -> Prop) :
  writer_ok r0 r w st init b d ->
  (forall r' w' init' b' d', writer_ok r0 r' w' st init' b' d' -> list_header w' = list_header w ->
     content init' ++ d' = (content init ++ d) ++ bytes -> Q w' r') ->
  runs (write pk MAX bytes w) r Q.
Proof.
  intros [Hr Hh Hfl Hw Hbl Hnd Hfresh Hfr] HQ. unfold write. rewrite Hw. apply runs_bind.
  eapply runs_get_data; [by eapply filling_last|]. cbn [fst snd]. apply runs_bind.
  apply new_buffers_spec; [done|]. intros bufs r1 Hr1 Hlen Hndb Hbufs Hfr1.
  assert (forall x, x ∈ owned_blocks (list_header w) init b -> x ∉ bufs) as Hdis.
  { intros x Hx Hxb. destruct (Hbufs x Hxb) as [Hn _]. unfold owned_blocks in Hx. apply elem_of_cons in Hx as [->|Hx]; [congruence|].
    rewrite <- (fmap_tail init b d) in Hx. apply (seg_in lnext _ _ _ _ _ (fl_chain _ _ _ _ _ Hfl)) in Hx as [? ?]. congruence. }
  assert (filling r1 st init b d) as Hfl1.
  { destruct Hfl as [Hc Hnd' Hfu Hro]. split; try done. eapply seg_frame; [done|]. intros x Hx. apply Hfr1, Hdis.
    rewrite fmap_tail in Hx. by right. }
  eapply (write_loop_spec _ bytes bufs w r1 st init b d _); [done|done|done|exact Hbl| |done|done| | |].
  - clear Hbl. case_decide as Hd; [|by right]. apply app_eq_nil in Hd as [Hc _].
    rewrite (full_nonempty init (fl_full _ _ _ _ _ Hfl) Hc). by left.
  - intros x Hx. split; [by apply Hbufs|]. intros Hx'. by apply (Hdis x ltac:(by right)).
  - clear Hbl. case_decide; lia.
  - intros r' w' init' b' d' vs' [H1 H2 H3 H4 H5 H6 H7 H8 H9].
    assert (owned_blocks (list_header w') init' b' = owned_blocks (list_header w) init b ++ bufs) as Eo.
    { unfold owned_blocks. rewrite H4, H7. simpl. by rewrite <- app_assoc. }
    eapply HQ; [|done|by rewrite H8, app_assoc]. split; rewrite ?Eo; try done.
    + rewrite H4, H9, Hfr1; [done|apply Hdis; left|].
      rewrite H7, app_assoc. intros [Hx|Hx]%elem_of_app; [by apply NoDup_cons in Hnd as [? _]|].
      eapply Hdis; [left|done].
    + rewrite H8, app_assoc. rewrite H6 in H5. destruct (decide (bytes = [])) as [->|Hne].
      * rewrite app_nil_r. assert (bufs = []) as ->; [|by rewrite H7, app_nil_r].
        apply nil_length_inv. rewrite Hlen. apply needed_none. pose proof (fl_room _ _ _ _ _ Hfl). unfold free_space. simpl. lia.
      * rewrite decide_False; [done|]. by intros [_ ?]%app_eq_nil.
    + apply NoDup_app. split; [done|]. split; [exact Hdis|done].
    + intros x [Hx|Hx]%elem_of_app; [by apply Hfresh|]. destruct (Hbufs x Hx) as [Hn _].
      destruct (decide (x ∈ owned_blocks (list_header w) init b)) as [|Hno]; [by apply Hfresh|]. by rewrite <- (Hfr x Hno).
    + intros x Hx. rewrite H9, Hfr1, Hfr; [done|set_solver|set_solver|]. rewrite H7. unfold owned_blocks in Hx. set_solver.
Qed.

Lemma runs_get_header hb st l bl r (Q : Z * Z * Z -> rel -> Prop) :
  pages r !! hb = Some (Header st l bl) -> Q (st, l, bl) r -> runs (get_header hb) r Q.
Proof. intros Hb HQ. unfold get_header. apply runs_bind. by eapply runs_get_buffer. Qed.

Lemma valid_block r b p : rel_ok r -> pages r !! b = Some p -> block_number_is_valid b = true.
Proof.
  intros Hr Hb. destruct (rel_ok_valid _ _ _ Hr Hb) as [H1 H2]. unfold block_number_is_valid.
  by rewrite (proj2 (Z.eqb_neq _ _) H1), (proj2 (Z.eqb_neq _ _) H2).
Qed.

(** [LinkedBytesList::create_with_fsm(rel).writer()] *)
Lemma runs_create_writer {B} r0 (k : Z -> LinkedBytesListWriter -> M rel unit B) (Q : B -> rel -> Prop) : rel_ok r0 ->
  (forall r w st, writer_ok r0 r w st [] st [] -> runs (k (list_header w) w) r Q) ->
  runs (hb ← create_with_fsm; w ← writer hb; k hb w) r0 Q.
Proof.
  intros Hr HQ. unfold create_with_fsm. apply runs_bind, runs_bind, new_buffers_spec; [done|].
  intros [|hb [|st [|]]] r2 Hr2 Hlen Hnd Hin Hfr2; try done. apply NoDup_cons in Hnd as [Hne%not_elem_of_cons _]. destruct Hne as [Hne _].
  destruct (Hin hb ltac:(left)) as [Hn1 Hp1], (Hin st ltac:(right; left)) as [Hn2 Hp2].
  apply runs_bind, runs_ret, runs_bind, runs_ret, runs_bind. eapply runs_put_page; [done|done|]. intros r3 Hr3 Hp3.
  assert (pages r3 !! st = Some init_page) as Hst by (by rewrite Hp3, lookup_insert_ne).
  assert (pages r3 !! hb = Some (Header st st InvalidBlockNumber)) as Hhb by (by rewrite Hp3, lookup_insert_eq).
  apply runs_ret. unfold writer, get_last_blockno. apply runs_bind, runs_bind, runs_bind. eapply runs_get_header; [done|]. cbn [fst snd].
  unfold assert_block. rewrite (valid_block _ _ _ Hr3 Hst). apply runs_ret, runs_ret.
  apply (HQ r3 (mkWriter hb builder_default st) st). split; cbn [list_header w_last_blockno blocklist_builder]; try done.
  - split; try done.
    + split; [done|]. split; [by eapply rel_ok_valid|]. split; [exact Hst|done].
    + apply NoDup_singleton.
    + simpl. lia.
  - apply builder_default_ok.
  - apply NoDup_cons. split; [set_solver|apply NoDup_singleton].
  - intros x Hx. by apply Hin.
  - intros x Hx. change (x ∉ [hb; st]) in Hx. rewrite Hp3, lookup_insert_ne by set_solver. by apply Hfr2.
Qed.

Definition create_writer : M rel unit LinkedBytesListWriter := hb ← create_with_fsm; w ← writer hb; mret w.

Lemma create_writer_spec r0 (Q : LinkedBytesListWriter -> rel -> Prop) : rel_ok r0 ->
  (forall r w st, writer_ok r0 r w st [] st [] -> Q w r) -> runs create_writer r0 Q.
Proof. intros Hr HQ. apply runs_create_writer; [done|]. intros r w st Hw. apply runs_ret. by eapply HQ. Qed.

(** Successive calls of [write]. *)
Fixpoint write_all (parts : list (list Z)) (w : LinkedBytesListWriter) : M rel unit LinkedBytesListWriter :=
  match parts with
  | [] => mret w
  | bytes :: parts => w ← write pk MAX bytes w; write_all parts w
  end.

Lemma write_all_spec parts r0 r w st init b d (Q : LinkedBytesListWriter -> rel -> Prop) :
  writer_ok r0 r w st init b d ->
  (forall r' w' init' b' d', writer_ok r0 r' w' st init' b' d' -> list_header w' = list_header w ->
     content init' ++ d' = (content init ++ d) ++ concat parts -> Q w' r') ->
  runs (write_all parts w) r Q.
Proof.
  revert r w init b d. induction parts as [|bytes parts IH]; intros r w init b d Hw HQ; cbn [write_all concat].
  - apply runs_ret. eapply HQ; [done|done|by rewrite app_nil_r].
  - apply runs_bind. eapply write_spec; [done|]. intros r1 w1 init1 b1 d1 Hw1 Hl1 Hc1. eapply IH; [done|].
    intros r' w' init' b' d' Hw' Hl' Hc'. eapply HQ; [done|congruence|]. by rewrite Hc', Hc1, <- app_assoc.
Qed.

(** ** A finished file *)

(** The block list at [bl] occupies the pages [blch]; an empty file has none. *)
Record file_ok r0 r (hb st bl : Z) init b d (blch : list (Z * lpage)) : Prop := {
  fo_rel : rel_ok r;
  fo_header : pages r !! hb = Some (Header st b bl);
  fo_fill : filling r st init b d;
  fo_empty : content init ++ d = [] -> bl = InvalidBlockNumber /\ blch = [];
  fo_list : content init ++ d <> [] -> bl <> InvalidBlockNumber /\ holds pk blch (init.*1 ++ [b]);
  fo_chain : chain (pages r) bl blch;
  fo_nodup : NoDup (owned_blocks hb init b ++ blch.*1);
  fo_fresh : forall x, x ∈ owned_blocks hb init b ++ blch.*1 -> pages r0 !! x = None;
  fo_frame : framed r0 r (owned_blocks hb init b ++ blch.*1);
}.

(** Header changes leave the data pages alone. *)
Lemma filling_frame r r' st init b d : filling r st init b d ->
  (forall x, x ∈ init.*1 ++ [b] -> pages r' !! x = pages r !! x) -> filling r' st init b d.
Proof.
  intros [Hc Hnd Hfu Hro] Hx. split; try done. eapply seg_frame; [done|]. intros x. rewrite fmap_tail. apply Hx.
Qed.

Lemma finalize_spec r0 r w st init b d (Q : Z -> rel -> Prop) : writer_ok r0 r w st init b d ->
  (forall r' bl blch, file_ok r0 r' (list_header w) st bl init b d blch -> Q (list_header w) r') ->
  runs (finalize_and_write pk MAX w) r Q.
Proof.
  intros [Hr Hh Hfl Hw Hbl Hnd Hfresh Hfr] HQ. unfold finalize_and_write. apply runs_bind.
  eapply runs_get_header; [done|]. cbn [fst snd]. apply runs_bind. rewrite Hw.
  eapply runs_put_page; [done|done|]. intros r1 Hr1 Hp1. set (hb := list_header w) in *.
  pose proof Hnd as [Hhb Hndb]%NoDup_cons.
  assert (filling r1 st init b d) as Hfl1.
  { eapply filling_frame; [done|]. intros x Hx. rewrite Hp1. apply lookup_insert_ne. by intros ->. }
  pose proof (filling_blocks _ _ _ _ _ Hr1 Hfl1) as Hall.
  assert (forall x, x ∈ owned_blocks hb init b -> is_Some (pages r1 !! x)) as Hin1.
  { intros x [->|Hx]%elem_of_cons; [rewrite Hp1, lookup_insert_eq; by eexists|].
    rewrite <- (fmap_tail init b d) in Hx. eapply seg_in; [apply (fl_chain _ _ _ _ _ Hfl1)|done]. }
  assert (framed r0 r1 (owned_blocks hb init b)) as Hfr1.
  { intros x Hx. rewrite Hp1, lookup_insert_ne by (intros ->; apply Hx; left). by apply Hfr. }
  apply runs_bind. eapply finish_spec; [done|exact HMAX|apply _|done|exact Hbl| | | |].
  - by case_decide; [constructor|].
  - by case_decide; [constructor|].
  - intros Hz. apply runs_bind, runs_ret, runs_ret.
    assert (content init ++ d = []) as Hc by (case_decide as Hd; [done|by apply app_eq_nil in Hz as [_ ?]]).
    eapply (HQ r1 InvalidBlockNumber []). split; try done; rewrite ?app_nil_r; try done. by rewrite Hp1, lookup_insert_eq.
  - intros r2 bl blch Hne Hv Hr2 Hch Hndl Hh2 Hfresh2 Hfr2. rewrite decide_False in Hh2 by (intros Hd; by rewrite decide_True in Hne).
    assert (content init ++ d <> []) as Hc by (intros Hd; by rewrite decide_True in Hne). clear Hne.
    assert (forall x, x ∈ owned_blocks hb init b -> x ∉ blch.*1) as Hdis.
    { intros x Hx Hx'. apply Hfresh2 in Hx'. apply Hin1 in Hx as [? ?]. congruence. }
    apply runs_bind. eapply (runs_put_page hb (Header st b InvalidBlockNumber)); [done| |].
    { rewrite Hfr2, Hp1; [apply lookup_insert_eq|]. apply Hdis. left. }
    intros r3 Hr3 Hp3. apply runs_ret, (HQ r3 bl blch).
    assert (forall x, x <> hb -> x ∉ blch.*1 -> pages r3 !! x = pages r1 !! x) as H31.
    { intros x Hx Hx'. rewrite Hp3, lookup_insert_ne by done. by apply Hfr2. }
    split; try done.
    + by rewrite Hp3, lookup_insert_eq.
    + eapply filling_frame; [done|]. intros x Hx. apply H31; [by intros ->|]. apply Hdis. by right.
    + eapply seg_frame; [done|]. intros x Hx. rewrite Hp3. apply lookup_insert_ne. intros <-. by apply (Hdis hb); [left|].
    + apply NoDup_app. split; [done|]. split; [exact Hdis|done].
    + intros x [Hx|Hx]%elem_of_app; [by apply Hfresh|].
      rewrite <- (Hfr1 x); [by apply Hfresh2|]. intros Hx'. by apply (Hdis x).
    + intros x Hx. rewrite H31, Hfr1; [done|set_solver| |set_solver]. intros ->. apply Hx, elem_of_app. left. left.
Qed.

(** ** Reading *)

Definition is_data (e : Z * lpage) : Prop := e.2 = Data (pdata e.2) (lnext e.2).

Lemma filling_data r st init b d : filling r st init b d -> Forall is_data (init ++ [tail_page b d]).
Proof.
  intros [_ _ Hfu _]. apply Forall_app. split; [|by constructor]. eapply Forall_impl; [done|].
  intros [x [s l bl|d' n|]]; unfold is_data; simpl; [lia|done|lia].
Qed.

Lemma read_loop_spec fuel r b ch (Q : list Z -> rel -> Prop) : chain (pages r) b ch -> Forall is_data ch ->
  (length ch < fuel)%nat -> Q (content ch) r -> runs (read_loop fuel b) r Q.
Proof.
  revert b ch Q. induction fuel as [|fuel IH]; intros b ch Q Hch Hd Hf HQ; [lia|]. cbn [read_loop].
  destruct Hd as [|[b' p] ch Hp Hd].
  { rewrite (Hch : b = InvalidBlockNumber), Z.eqb_refl. by apply runs_ret. }
  destruct Hch as (-> & Hnv & Hb & Hch). unfold is_data in Hp. cbn [snd] in Hp. rewrite (proj2 (Z.eqb_neq _ _) Hnv).
  rewrite Hp in Hb. apply runs_bind. eapply runs_get_data; [done|]. cbn [fst snd length] in *.
  apply runs_bind. eapply IH; [done|done|lia|]. by apply runs_ret.
Qed.

Lemma chain_blocks_spec fuel r b ch vs (Q : list Z -> rel -> Prop) : chain (pages r) b ch -> holds pk ch vs ->
  (length ch < fuel)%nat -> Q ch.*1 r -> runs (chain_blocks fuel b) r Q.
Proof.
  revert b ch vs Q. induction fuel as [|fuel IH]; intros b ch vs Q Hch Hh Hf HQ; [lia|]. cbn [chain_blocks].
  destruct Hh as [|b' cs css n ch vs Hne Hcs Hh].
  { rewrite (Hch : b = InvalidBlockNumber), Z.eqb_refl. by apply runs_ret. }
  destruct Hch as (-> & Hnv & Hb & Hch). rewrite (proj2 (Z.eqb_neq _ _) Hnv). apply runs_bind.
  eapply runs_get_data; [done|]. cbn [fst snd length lnext] in *. apply runs_bind. eapply IH; [done|done|lia|]. by apply runs_ret.
Qed.

(** Pages from block [x], all full but the last. *)
Lemma range_loop_spec fuel r x init b d first remaining (Q : list Z -> rel -> Prop) :
  chain (pages r) x (init ++ [tail_page b d]) ->
  Forall (fun e => Z.of_nat (length (pdata e.2)) = MAX) init -> Z.of_nat (length d) <= MAX ->
  (first < Z.to_nat MAX)%nat -> (first + remaining <= length (content init ++ d))%nat -> (length init + 1 < fuel)%nat ->
  Q (take remaining (drop first (content init ++ d))) r ->
  runs (range_loop MAX fuel x first remaining) r Q.
Proof.
  revert x init first remaining Q. induction fuel as [|fuel IH]; intros x init first remaining Q Hch Hfu Hro Hfi Hle Hf HQ; [lia|].
  cbn [range_loop]. destruct (Nat.eqb_spec remaining 0) as [->|Hrem]; cbn [orb]; [by apply runs_ret|].
  destruct Hfu as [|[b0 p] init Hp Hfu]; destruct Hch as (-> & Hnv & Hb & Hch); rewrite (proj2 (Z.eqb_neq _ _) Hnv).
  - apply runs_bind. eapply runs_get_data; [done|]. cbn [fst snd] in *. unfold content in *. cbn [mbind list_bind app] in *.
    rewrite Nat.min_r, Nat.sub_diag by lia. apply runs_bind. destruct fuel as [|fuel]; [simpl in Hf; lia|]. cbn [range_loop]. cbn [Nat.eqb orb].
    apply runs_ret, runs_ret. by rewrite app_nil_r.
  - cbn [snd] in Hp. destruct p as [?|dd n|?]; cbn [pdata lnext] in *; [simpl in Hp; lia| |simpl in Hp; lia].
    assert (content ((b0, Data dd n) :: init) = dd ++ content init) as Ec by reflexivity. rewrite Ec in *.
    assert (length dd = Z.to_nat MAX) as Hdd by lia. rewrite <- app_assoc in *. rewrite length_app in Hle.
    apply runs_bind. eapply runs_get_data; [done|]. cbn [fst snd]. rewrite <- Hdd in *. apply runs_bind.
    eapply (IH n init O); [done|done|done|lia|lia|simpl in Hf; lia|]. apply runs_ret. cbn [drop].
    rewrite drop_app_le in HQ by lia. destruct (decide (remaining <= length dd - first)%nat) as [Hs|Hs].
    + rewrite Nat.min_r, Nat.sub_diag, take_0, app_nil_r by lia. by rewrite take_app_le in HQ by (rewrite length_drop; lia).
    + rewrite Nat.min_l by lia. rewrite take_app_ge in HQ by (rewrite length_drop; lia). rewrite length_drop in HQ.
      by rewrite (take_ge (drop first dd)) by (rewrite length_drop; lia).
Qed.

Lemma content_length init : Forall (fun e => Z.of_nat (length (pdata e.2)) = MAX) init ->
  length (content init) = (length init * Z.to_nat MAX)%nat.
Proof.
  induction 1 as [|[b0 p] l Hp _ IH]; [done|].
  assert (content ((b0, p) :: l) = pdata p ++ content l) as -> by reflexivity. rewrite length_app, IH. simpl in *. lia.
Qed.

(** The [ord]-th page holds the bytes from [ord * MAX] on. *)
Lemma content_at (init : list (Z * lpage)) start stop : Forall (fun e => Z.of_nat (length (pdata e.2)) = MAX) init ->
  forall ord, (ord <= length init)%nat -> (ord * Z.to_nat MAX <= start)%nat -> forall d : list Z,
  take stop (drop start (content init ++ d)) =
  take stop (drop (start - ord * Z.to_nat MAX) (content (drop ord init) ++ d)).
Proof.
  intros Hfu. revert start. induction Hfu as [|[b0 p] init Hp Hfu IH]; intros start ord Ho Hs d.
  { simpl in Ho. replace ord with O by lia. by rewrite Nat.mul_0_l, Nat.sub_0_r. }
  destruct ord as [|ord]; [by rewrite Nat.mul_0_l, Nat.sub_0_r|]. cbn [snd] in Hp. cbn [drop].
  assert (content ((b0, p) :: init) = pdata p ++ content init) as -> by reflexivity.
  rewrite <- app_assoc, drop_app_ge by lia. cbn [length] in Ho. rewrite (IH (start - length (pdata p))%nat ord) by lia.
  do 2 f_equal. lia.
Qed.

Section file.
Context {r0 r : rel} {hb st bl : Z} {init : list (Z * lpage)} {b : Z} {d : list Z} {blch : list (Z * lpage)}.
Hypothesis Hfile : file_ok r0 r hb st bl init b d blch.

Let Hfl := fo_fill _ _ _ _ _ _ _ _ _ Hfile.

Lemma file_start_valid : exists p, pages r !! st = Some p /\ block_number_is_valid st = true.
Proof.
  destruct (seg_app lnext (pages r) st init [tail_page b d] InvalidBlockNumber) as [Hs _].
  destruct (Hs (fl_chain _ _ _ _ _ Hfl)) as (b1 & Hi & Ht). destruct init as [|[b0 p0] init'].
  - simpl in Hi. subst b1. destruct Ht as (-> & _ & Hb & _). eexists. split; [done|]. eapply valid_block; [apply (fo_rel _ _ _ _ _ _ _ _ _ Hfile)|done].
  - destruct Hi as (-> & _ & Hb & _). eexists. split; [done|]. eapply valid_block; [apply (fo_rel _ _ _ _ _ _ _ _ _ Hfile)|done].
Qed.

Lemma read_all_spec (Q : list Z -> rel -> Prop) : Q (content init ++ d) r -> runs (read_all hb) r Q.
Proof.
  intros HQ. unfold read_all, get_start_blockno. apply runs_bind, runs_bind.
  eapply runs_get_header; [apply (fo_header _ _ _ _ _ _ _ _ _ Hfile)|]. cbn [fst snd].
  destruct file_start_valid as (p & _ & Hv). unfold assert_block. rewrite Hv. apply runs_ret, runs_bind, runs_gets.
  eapply read_loop_spec; [apply (fl_chain _ _ _ _ _ Hfl)|by eapply filling_data| |].
  - pose proof (chain_length _ _ _ _ _ (fl_chain _ _ _ _ _ Hfl)) as Hl. rewrite fmap_tail in Hl.
    specialize (Hl (fl_nodup _ _ _ _ _ Hfl)). lia.
  - rewrite content_app. unfold content at 2. simpl. by rewrite app_nil_r.
Qed.

Lemma blch_nodup : NoDup blch.*1.
Proof. by pose proof (fo_nodup _ _ _ _ _ _ _ _ _ Hfile) as (_ & _ & ?)%NoDup_app. Qed.

Lemma file_reader_spec (Q : list Z -> rel -> Prop) :
  Q (if decide (content init ++ d = []) then [] else init.*1 ++ [b]) r -> runs (reader_new pk bl) r Q.
Proof.
  intros HQ. unfold reader_new. destruct (decide (content init ++ d = [])) as [Hc|Hc].
  - destruct (fo_empty _ _ _ _ _ _ _ _ _ Hfile Hc) as [-> _]. by apply runs_ret.
  - destruct (fo_list _ _ _ _ _ _ _ _ _ Hfile Hc) as [Hv Hh]. rewrite (proj2 (Z.eqb_neq _ _) Hv).
    apply runs_bind, runs_gets. eapply read_blocks_spec; [apply (fo_chain _ _ _ _ _ _ _ _ _ Hfile)|done|done| |done].
    pose proof (chain_length _ _ _ _ _ (fo_chain _ _ _ _ _ _ _ _ _ Hfile) blch_nodup). lia.
Qed.

Lemma freeable_blocks_spec (Q : list Z -> rel -> Prop) :
  Q ((if decide (content init ++ d = []) then [] else init.*1 ++ [b]) ++ [hb] ++ blch.*1) r ->
  runs (freeable_blocks pk hb) r Q.
Proof.
  intros HQ. unfold freeable_blocks. apply runs_bind. eapply runs_get_header; [apply (fo_header _ _ _ _ _ _ _ _ _ Hfile)|].
  cbn [fst snd]. apply runs_bind, file_reader_spec, runs_bind, runs_gets, runs_bind.
  assert (exists vs, holds pk blch vs) as [vs Hh].
  { destruct (decide (content init ++ d = [])) as [Hc|Hc].
    - destruct (fo_empty _ _ _ _ _ _ _ _ _ Hfile Hc) as [_ ->]. eexists. constructor.
    - destruct (fo_list _ _ _ _ _ _ _ _ _ Hfile Hc) as [_ ?]. by eexists. }
  eapply chain_blocks_spec; [apply (fo_chain _ _ _ _ _ _ _ _ _ Hfile)|exact Hh| |by apply runs_ret].
  pose proof (chain_length _ _ _ _ _ (fo_chain _ _ _ _ _ _ _ _ _ Hfile) blch_nodup). lia.
Qed.

Lemma block_for_ord_spec ord (Q : option Z -> rel -> Prop) : content init ++ d <> [] ->
  Q ((init.*1 ++ [b]) !! ord) r -> runs (block_for_ord pk hb ord) r Q.
Proof.
  intros Hc HQ. unfold block_for_ord. apply runs_bind. eapply runs_get_header; [apply (fo_header _ _ _ _ _ _ _ _ _ Hfile)|].
  cbn [fst snd]. apply runs_bind, file_reader_spec. rewrite decide_False by done. by apply runs_ret.
Qed.

(** The page of an ordinal. *)
Lemma page_of_ord ord : (ord <= length init)%nat ->
  exists e, (init ++ [tail_page b d]) !! ord = Some e /\ (init.*1 ++ [b]) !! ord = Some e.1 /\
    pages r !! e.1 = Some (Data (pdata e.2) (lnext e.2)) /\ chain (pages r) e.1 (drop ord init ++ [tail_page b d]) /\
    exists more, content (drop ord init) ++ d = pdata e.2 ++ more /\
      (more = [] /\ (ord = length init)%nat \/ Z.of_nat (length (pdata e.2)) = MAX).
Proof.
  intros Ho. destruct (lookup_lt_is_Some_2 (init ++ [tail_page b d]) ord) as [e He]; [rewrite length_app; simpl; lia|].
  exists e. split; [done|]. rewrite <- (fmap_tail init b d), list_lookup_fmap, He. split; [done|]. split.
  - assert (is_data e) as <-.
    { pose proof (filling_data _ _ _ _ _ Hfl) as Hd. rewrite Forall_forall in Hd. by eapply Hd, list_elem_of_lookup_2. }
    destruct e as [x p]. eapply seg_lookup; [apply (fl_chain _ _ _ _ _ Hfl)|by eapply list_elem_of_lookup_2].
  - pose proof (fl_chain _ _ _ _ _ Hfl) as Hch. rewrite <- (take_drop ord init), <- app_assoc in Hch at 1.
    apply seg_app in Hch as (b1 & _ & Hch).
    destruct (drop ord init) as [|e' rest] eqn:Ed.
    + assert (ord = length init) as -> by (apply (f_equal length) in Ed; rewrite length_drop in Ed; simpl in Ed; lia).
      rewrite list_lookup_middle in He by done. injection He as <-. destruct Hch as (-> & Hch). split; [by split|].
      exists []. split; [by rewrite app_nil_r|by left].
    + assert (init !! ord = Some e') as Hi by (rewrite <- (Nat.add_0_r ord), <- lookup_drop, Ed; done).
      rewrite lookup_app_l, Hi in He by (by eapply lookup_lt_Some). injection He as ->. destruct e as [x p]. split.
      * by destruct Hch as (-> & Hch).
      * exists (content rest ++ d). split; [by rewrite app_assoc|right].
        pose proof (fl_full _ _ _ _ _ Hfl) as Hfu. rewrite Forall_forall in Hfu. by eapply (Hfu (x, p)), list_elem_of_lookup_2.
Qed.

(** Every cached block is the data of the page of its ordinal. *)
Definition cache_ok (c : cache) : Prop :=
  Forall (fun e => exists p, (init ++ [tail_page b d]) !! e.1 = Some p /\ pdata p.2 = e.2) c.

Lemma get_block_spec ord c e (Q : list Z * cache -> rel -> Prop) : cache_ok c -> content init ++ d <> [] ->
  (ord <= length init)%nat -> (init ++ [tail_page b d]) !! ord = Some e ->
  (forall c', cache_ok c' -> Q (pdata e.2, c') r) -> runs (get_bytes_range_block pk hb ord c) r Q.
Proof.
  intros Hc Hne Ho He HQ. unfold get_bytes_range_block.
  destruct (list_find _ (reverse c)) as [[i x]|] eqn:Ef.
  - apply list_find_Some in Ef as (Hi & Hx & _). apply list_elem_of_lookup_2 in Hi. rewrite elem_of_reverse in Hi. apply runs_ret. cbn [fst snd].
    pose proof (proj1 (Forall_forall _ _) Hc x Hi) as (p & Hp & E). rewrite Hx, He in Hp. injection Hp as <-. rewrite <- E.
    apply HQ, Forall_app. split; [by apply Forall_delete|]. constructor; [|constructor]. exists e. by rewrite Hx.
  - apply runs_bind, block_for_ord_spec; [done|]. destruct (page_of_ord ord Ho) as (e' & He' & -> & Hp & _).
    rewrite He in He'. injection He' as <-. cbn [unwrap]. apply runs_bind, runs_ret, runs_bind.
    eapply runs_get_data; [done|]. apply runs_ret. cbn [fst snd]. apply HQ, Forall_app. split.
    + destruct (_ <=? _)%nat; [|done]. by destruct Hc.
    + constructor; [|constructor]. by exists e.
Qed.

Lemma get_bytes_range_spec start stop c (Q : list Z * cache -> rel -> Prop) : cache_ok c ->
  (stop <= length (content init ++ d))%nat ->
  (forall c', cache_ok c' -> Q (take (stop - start) (drop start (content init ++ d)), c') r) ->
  runs (get_bytes_range pk MAX hb start stop c) r Q.
Proof.
  intros Hc Hstop HQ. unfold get_bytes_range. destruct (Nat.leb_spec stop start) as [Hle|Hlt].
  { apply runs_ret. rewrite (proj2 (Nat.sub_0_le stop start)) in HQ by done. rewrite take_0 in HQ. by apply HQ. }
  set (S := Z.to_nat MAX) in *. assert (0 < S)%nat as HS by lia. set (ord := (start / S)%nat).
  assert (content init ++ d <> []) as Hne by (intros Hz; rewrite Hz in Hstop; simpl in Hstop; lia).
  pose proof (fl_full _ _ _ _ _ Hfl) as Hfu. pose proof (fl_room _ _ _ _ _ Hfl) as Hro.
  pose proof (Nat.div_mod_eq start S) as Hdm. fold ord in Hdm. pose proof (Nat.mod_upper_bound start S ltac:(lia)) as Hmod.
  pose proof (content_length init Hfu) as Hlen. fold S in Hlen.
  rewrite length_app, Hlen in Hstop.
  assert (ord <= length init)%nat as Ho by (assert (ord * S < length init * S + S)%nat by lia; nia).
  destruct (page_of_ord ord Ho) as (e & He & Hb & Hp & Hch & more & Em & Hfull).
  assert (start - ord * S = start mod S)%nat as Hoff by lia.
  rewrite (content_at init start (stop - start) Hfu ord Ho) in HQ by (fold S; lia). fold S in HQ. rewrite Hoff in HQ.
  destruct (Nat.eqb_spec ord ((stop - 1) / S)) as [Heq|Hneq].
  - apply runs_bind. eapply get_block_spec; try done. intros c' Hc'. cbn [fst snd]. apply runs_bind.
    assert (stop <= (ord + 1) * S)%nat as Hend.
    { pose proof (Nat.div_mod_eq (stop - 1) S). pose proof (Nat.mod_upper_bound (stop - 1) S ltac:(lia)). nia. }
    assert (start mod S + (stop - start) <= length (pdata e.2))%nat as Hin.
    { destruct Hfull as [[-> ->]|Hfull]; [|lia]. rewrite drop_all, app_nil_r in Em. cbn in Em. rewrite <- Em. lia. }
    rewrite Em in HQ.
    unfold slice. rewrite (proj2 (Nat.leb_le _ _)) by done. apply runs_ret, runs_ret.
    rewrite drop_app_le, take_app_le in HQ by (rewrite ?length_drop; lia). by apply HQ.
  - apply runs_bind, block_for_ord_spec; [done|]. rewrite Hb. cbn [unwrap]. apply runs_bind, runs_ret, runs_bind, runs_gets, runs_bind.
    eapply (range_loop_spec _ _ _ (drop ord init) b d); [|by apply Forall_drop|done|done| | |apply runs_ret; by apply HQ].
    + exact Hch.
    + rewrite length_app. assert (length (content (drop ord init)) = (length init - ord) * S)%nat as ->; [|nia].
      rewrite <- length_drop. apply content_length. by apply Forall_drop.
    + rewrite length_drop. pose proof (chain_length _ _ _ _ _ (fl_chain _ _ _ _ _ Hfl)) as Hl. rewrite fmap_tail, length_app in Hl.
      specialize (Hl (fl_nodup _ _ _ _ _ Hfl)). simpl in Hl. lia.
Qed.

End file.

(** ** The life of a file *)

(** A file whose content is written in parts, finished. *)
Definition create_file (parts : list (list Z)) : M rel unit Z :=
  w ← create_writer; w ← write_all parts w; finalize_and_write pk MAX w.

(** Reads of ranges, one after the other, through one cache. *)
Fixpoint read_ranges hb (ranges : list (nat * nat)) (c : cache) : M rel unit (list (list Z)) :=
  match ranges with
  | [] => mret []
  | (start, stop) :: ranges =>
      x ← get_bytes_range pk MAX hb start stop c;
      rest ← read_ranges hb ranges x.2;
      mret (x.1 :: rest)
  end.

Definition range_of (bytes : list Z) (x : nat * nat) : list Z := take (x.2 - x.1) (drop x.1 bytes).

Lemma create_file_spec r0 parts (Q : Z -> rel -> Prop) : rel_ok r0 ->
  (forall r hb st bl init b d blch, file_ok r0 r hb st bl init b d blch -> content init ++ d = concat parts -> Q hb r) ->
  runs (create_file parts) r0 Q.
Proof.
  intros Hr HQ. unfold create_file. apply runs_bind, create_writer_spec; [done|]. intros r1 w st Hw.
  apply runs_bind. eapply write_all_spec; [done|]. intros r2 w2 init b d Hw2 Hl Hc.
  eapply finalize_spec; [done|]. intros r3 bl blch Hf. by eapply HQ.
Qed.

Lemma read_ranges_spec r0 r hb st bl init b d blch ranges c (Q : list (list Z) -> rel -> Prop) :
  file_ok r0 r hb st bl init b d blch -> cache_ok (init := init) (b := b) (d := d) c ->
  Forall (fun x => x.2 <= length (content init ++ d))%nat ranges ->
  Q (map (range_of (content init ++ d)) ranges) r -> runs (read_ranges hb ranges c) r Q.
Proof.
  intros Hf. revert c Q. induction ranges as [|[start stop] ranges IH]; intros c Q Hc Hr HQ; cbn [read_ranges].
  { by apply runs_ret. }
  apply Forall_cons in Hr as [Hr1 Hr2]. cbn [snd] in Hr1. apply runs_bind. eapply get_bytes_range_spec; try done.
  intros c' Hc'. cbn [fst snd]. apply runs_bind, (IH c'); [done|done|]. by apply runs_ret.
Qed.

(** C18: A file written in any parts and finished reads back as exactly what was written, as
    a whole and by every range within it, however the reads hit or miss the block cache, and
    writing it changes no page that existed before. *)
Theorem file_roundtrip r0 parts ranges : rel_ok r0 ->
  Forall (fun x => x.2 <= length (concat parts))%nat ranges ->
  runs (hb ← create_file parts; all ← read_all hb; rs ← read_ranges hb ranges []; mret (all, rs)) r0
    (fun x r => x = (concat parts, map (range_of (concat parts)) ranges) /\
                forall b, is_Some (pages r0 !! b) -> pages r !! b = pages r0 !! b).
Proof.
  intros Hr Hrs. apply runs_bind, create_file_spec; [done|]. intros r hb st bl init b d blch Hf Hc.
  apply runs_bind. eapply read_all_spec; [done|]. rewrite Hc. apply runs_bind.
  eapply read_ranges_spec; [done|constructor|by rewrite Hc|]. rewrite Hc. apply runs_ret. split; [done|].
  intros x Hx. apply (fo_frame _ _ _ _ _ _ _ _ _ Hf). intros Hin. apply (fo_fresh _ _ _ _ _ _ _ _ _ Hf) in Hin. destruct Hx. congruence.
Qed.

(** Changes elsewhere do not touch a file. *)
Lemma file_ok_rebase r0 r r1 hb st bl init b d blch : file_ok r0 r hb st bl init b d blch -> rel_ok r1 ->
  (forall x, x ∈ owned_blocks hb init b ++ blch.*1 -> pages r1 !! x = pages r !! x) ->
  file_ok (without r1 (owned_blocks hb init b ++ blch.*1)) r1 hb st bl init b d blch.
Proof.
  intros [Hr Hh Hfi He Hl Hc Hnd Hf Hfr] Hr1 Hx. split; try done.
  - rewrite Hx; [done|]. apply elem_of_app. left. left.
  - eapply filling_frame; [done|]. intros x Hin. apply Hx, elem_of_app. left. by right.
  - eapply seg_frame; [done|]. intros x Hin. apply Hx, elem_of_app. by right.
  - intros x Hin. cbn [without pages]. by rewrite foldr_delete_lookup, decide_True.
  - intros x Hin. cbn [without pages]. by rewrite foldr_delete_lookup, decide_False.
Qed.

Lemma file_ok_same r0 r r1 hb st bl init b d blch : file_ok r0 r hb st bl init b d blch -> rel_ok r1 -> pages r1 = pages r ->
  file_ok r0 r1 hb st bl init b d blch.
Proof.
  intros [Hr Hh Hfi He Hl Hc Hnd Hf Hfr] Hr1 E. split; try done; try by rewrite E.
  - eapply filling_frame; [done|]. by rewrite E.
  - intros x. rewrite E. apply Hfr.
Qed.

Lemma file_blocks r0 r hb st bl init b d blch x : file_ok r0 r hb st bl init b d blch ->
  x ∈ owned_blocks hb init b ++ blch.*1 -> is_Some (pages r !! x).
Proof.
  intros Hf [[->|Hx]%elem_of_cons|Hx]%elem_of_app.
  - rewrite (fo_header _ _ _ _ _ _ _ _ _ Hf). by eexists.
  - rewrite <- (fmap_tail init b d) in Hx. eapply seg_in; [apply (fl_chain _ _ _ _ _ (fo_fill _ _ _ _ _ _ _ _ _ Hf))|done].
  - eapply seg_in; [apply (fo_chain _ _ _ _ _ _ _ _ _ Hf)|done].
Qed.

Lemma return_to_fsm_spec r0 r hb st bl init b d blch xid (Q : unit -> rel -> Prop) : file_ok r0 r hb st bl init b d blch ->
  content init ++ d <> [] -> (forall r', rel_ok r' -> pages r' = pages r0 -> Q tt r') -> runs (return_to_fsm pk xid hb) r Q.
Proof.
  intros Hf Hne HQ. unfold return_to_fsm. apply runs_bind. eapply freeable_blocks_spec; [done|]. rewrite decide_False by done.
  pose proof (fo_nodup _ _ _ _ _ _ _ _ _ Hf) as Hnd. pose proof (fo_fresh _ _ _ _ _ _ _ _ _ Hf) as Hfresh.
  pose proof (fo_frame _ _ _ _ _ _ _ _ _ Hf) as Hfr.
  assert ((init.*1 ++ [b]) ++ [hb] ++ blch.*1 ≡ₚ owned_blocks hb init b ++ blch.*1) as Hp.
  { unfold owned_blocks. simpl. by rewrite <- Permutation_middle. }
  eapply runs_release_now; [apply (fo_rel _ _ _ _ _ _ _ _ _ Hf)|by rewrite Hp| |].
  - intros x. rewrite Hp. by eapply file_blocks.
  - intros r' Hr' Hpg. apply HQ; [done|]. apply map_eq. intros x. rewrite Hpg, foldr_delete_lookup. case_decide as Hin.
    + rewrite Hp in Hin. symmetry. by apply Hfresh.
    + rewrite Hp in Hin. by apply Hfr.
Qed.

(** An empty file has no block list: only its header is returned. *)
Lemma return_empty_spec r0 r hb st bl init b d blch xid (Q : unit -> rel -> Prop) : file_ok r0 r hb st bl init b d blch ->
  content init ++ d = [] -> (forall r', rel_ok r' -> pages r0 !! b = None -> pages r' = <[b := init_page]> (pages r0) -> Q tt r') -> runs (return_to_fsm pk xid hb) r Q.
Proof.
  intros Hf Hc HQ. unfold return_to_fsm. apply runs_bind. eapply freeable_blocks_spec; [done|]. rewrite decide_True by done.
  destruct (fo_empty _ _ _ _ _ _ _ _ _ Hf Hc) as [_ ->]. pose proof (fo_nodup _ _ _ _ _ _ _ _ _ Hf) as Hnd.
  pose proof (fo_fresh _ _ _ _ _ _ _ _ _ Hf) as Hfresh. pose proof (fo_frame _ _ _ _ _ _ _ _ _ Hf) as Hfr. pose proof (fo_fill _ _ _ _ _ _ _ _ _ Hf) as Hfl.
  apply app_eq_nil in Hc as [Hc ->]. apply (full_nonempty _ (fl_full _ _ _ _ _ Hfl)) in Hc as ->.
  unfold owned_blocks in *. cbn [fmap list_fmap app] in *. eapply runs_release_now; [apply (fo_rel _ _ _ _ _ _ _ _ _ Hf)|apply NoDup_singleton| |].
  - intros x ->%list_elem_of_singleton. rewrite (fo_header _ _ _ _ _ _ _ _ _ Hf). by eexists.
  - intros r' Hr' Hpg. assert (hb <> b) as Hb by (intros ->; apply NoDup_cons in Hnd as [Hno _]; apply Hno; left). apply HQ; [done|apply Hfresh; right; left|].
    apply map_eq. intros x. rewrite Hpg, foldr_delete_lookup. destruct (decide (x = b)) as [->|Hx]; [rewrite lookup_insert_eq, decide_False by set_solver; by rewrite (filling_last _ _ _ _ _ Hfl)|].
    rewrite lookup_insert_ne by done. case_decide as Hin; [apply list_elem_of_singleton in Hin as ->; symmetry; apply Hfresh; left|]. apply Hfr. set_solver.
Qed.

(** C19: Giving a finished file back to the free space manager returns exactly the blocks it
    took: header, data pages and block list pages.  The pages left are those from before the
    file was created, unchanged, and every other block of the relation that is not in use
    elsewhere is again the manager's.  Only of an empty file one block is not returned: its
    data page, which stays allocated. *)
Theorem file_space_returned r0 parts xid : rel_ok r0 ->
  runs (hb ← create_file parts; return_to_fsm pk xid hb) r0 (fun _ r =>
    (concat parts <> [] -> pages r = pages r0) /\
    (concat parts = [] -> exists b, pages r0 !! b = None /\ pages r = <[b := init_page]> (pages r0) /\ b ∉ owned (fsm r)) /\
    owned (fsm r) = block_range 1 (nblocks (fsm r)) ∖ (dom (pages r) ∪ elsewhere)).
Proof.
  intros Hr. apply runs_bind, create_file_spec; [done|]. intros r hb st bl init b d blch Hf Hc. destruct (decide (concat parts = [])) as [He|Hne].
  - eapply return_empty_spec; [done|by rewrite Hc|]. intros r' Hr' Hb E. split; [done|]. split; [|by apply rel_ok_owned]. intros _. exists b. split; [done|]. split; [done|].
    apply rel_ok_not_owned; [done|]. rewrite E, lookup_insert_eq. by eexists.
  - eapply return_to_fsm_spec; [done|by rewrite Hc|]. intros r' Hr' E. split; [done|]. split; [done|by apply rel_ok_owned].
Qed.

Lemma unfinished_freeable r hb st l (Q : list Z -> rel -> Prop) : pages r !! hb = Some (Header st l InvalidBlockNumber) ->
  Q [hb] r -> runs (freeable_blocks pk hb) r Q.
Proof.
  intros Hh HQ. unfold freeable_blocks. apply runs_bind. eapply runs_get_header; [done|]. cbn [fst snd].
  apply runs_bind. unfold reader_new. rewrite Z.eqb_refl. apply runs_ret, runs_bind, runs_gets, runs_bind. cbn [chain_blocks].
  rewrite Z.eqb_refl. by apply runs_ret, runs_ret.
Qed.

(** A file that was written but never finished gives back its header block only: every
    other block of it stays allocated and is on no free list. *)
Theorem unfinished_file_leaks r0 parts xid : rel_ok r0 ->
  runs (w ← create_writer; w ← write_all parts w; return_to_fsm pk xid (list_header w)) r0
    (fun _ r => exists b, pages r0 !! b = None /\ is_Some (pages r !! b) /\ b ∉ owned (fsm r)).
Proof.
  intros Hr. apply runs_bind, create_writer_spec; [done|]. intros r1 w st Hw. apply runs_bind.
  eapply write_all_spec; [done|]. intros r2 w2 init b d [Hr2 Hh2 Hfl2 _ _ Hnd2 Hfresh2 _] _ _.
  unfold return_to_fsm. apply runs_bind. eapply unfinished_freeable; [done|]. eapply runs_release_now; [done|apply NoDup_singleton| |].
  - intros x ->%list_elem_of_singleton. rewrite Hh2. by eexists.
  - intros r' Hr' Hpg. exists b. split; [apply Hfresh2; right; set_solver|].
    enough (is_Some (pages r' !! b)) as Hb by (split; [done|by apply rel_ok_not_owned]). rewrite Hpg, foldr_delete_lookup, decide_False.
    + rewrite (filling_last _ _ _ _ _ Hfl2). by eexists.
    + intros ->%list_elem_of_singleton. apply NoDup_cons in Hnd2 as [Hno _]. apply Hno. set_solver.
Qed.

End files.

(** ** Instances *)

Definition small_rel : rel stack_fsm lpage := mkRel (mkStack [5; 8] 12) {[ 3 := Data [1] InvalidBlockNumber ]}.

#[local] Instance small_elsewhere : Elsewhere := (list_to_set [1; 2; 4; 6; 7; 9; 10; 11] : gset Z).

Lemma small_rel_ok : rel_ok small_rel.
Proof. stack_rel. Qed.

Lemma file_roundtrip_witness :
  runs (hb ← create_file plain_packer 1100 [replicate 1500 7; [8; 9]]; all ← read_all hb;
        rs ← read_ranges plain_packer 1100 hb [(1499, 1502); (0, 2); (1, 3); (1098, 1101)]%nat []; mret (all, rs)) small_rel
    (fun x r => x.2 = [[7; 8; 9]; [7; 7]; [7; 7]; [7; 7; 7]] /\ pages r !! 3 = Some (Data [1] InvalidBlockNumber)).
Proof.
  eapply runs_mono.
  - apply (file_roundtrip plain_packer plain_packer_ok 1100 ltac:(lia) small_rel [replicate 1500 7; [8; 9]]
      [(1499, 1502); (0, 2); (1, 3); (1098, 1101)]%nat).
    + exact small_rel_ok.
    + repeat constructor; vm_compute; lia.
  - intros x r [-> Hx]. split; [vm_compute; reflexivity|]. rewrite Hx; [vm_compute; reflexivity|]. vm_compute. by eexists.
Defined.

Lemma file_space_returned_witness :
  runs (hb ← create_file plain_packer 1100 [replicate 1500 7; [8; 9]]; return_to_fsm plain_packer 42 hb) small_rel
    (fun _ r => pages r = pages small_rel).
Proof.
  eapply runs_mono.
  - apply (file_space_returned plain_packer plain_packer_ok 1100 ltac:(lia) small_rel [replicate 1500 7; [8; 9]] 42).
    exact small_rel_ok.
  - intros x r [E _]. apply E. discriminate.
Defined.

Lemma unfinished_file_leaks_witness :
  runs (w ← create_writer; w ← write_all plain_packer 1100 [[8; 9]] w; return_to_fsm plain_packer 42 (list_header w)) small_rel
    (fun _ r => exists b, pages small_rel !! b = None /\ is_Some (pages r !! b) /\ b ∉ owned (fsm r)).
Proof.
  apply (unfinished_file_leaks plain_packer plain_packer_ok 1100 ltac:(lia) small_rel [[8; 9]] 42). exact small_rel_ok.
Defined.
