(* ===== verification/LinkedItems.v ===== *)
(** * Lists of items on linked pages

    [storage/linked_items.rs] and the item routines of [storage/buffer.rs] and
    [storage/utils.rs]: a header page and a chain of pages, each with line pointers to
    serialized items. *)

From stdpp Require Import prelude gmap.
From Stdlib Require Import ZArith Lia.
From S2P Require Import Prelude Pages BlockList LinkedBytes.
Import LinkedBytes.

Local Open Scope Z_scope.

(** What [LinkedItemList<T>] asks of [T]: [Into<PgItem>] and [From<PgItem>].  An item has
    storage, and reading back what was stored gives the same value. *)
Class ItemCodec (T : Type) := {
  into_item : T -> list Z;
  from_item : list Z -> T;
  item_roundtrip : forall x, from_item (into_item x) = x;
  item_storage : forall x, into_item x <> [];
}.

(** PostgreSQL's [PageAddItemExtended]: whether an item fits on a page with these items.  It
    depends on the sizes only, an empty page takes any item of the lists, and removing items
    never makes a page fuller. *)
Class ItemSpace := {
  fits : list (list Z) -> list Z -> bool;
  storable : list Z -> Prop;
  fits_empty : forall x, storable x -> fits [] x = true;
  fits_size : forall l l' x x', length <$> l = length <$> l' -> length x = length x' -> fits l x = fits l' x';
  fits_sub : forall l l' x, sublist l' l -> fits l x = true -> fits l' x = true;
}.

Module LinkedItems.

Abbreviation lp := (bool * list Z)%type.

(** [read_item]: the item behind a line pointer that is normal and has storage. *)
Definition read_item (x : lp) : option (list Z) :=
  if x.1 || (length x.2 =? 0)%nat then None else Some x.2.

(** An empty page of items is an empty page. *)
Definition mk_items (l : list lp) (n : Z) : lpage := match l with [] => Data [] n | _ => Items l n end.

Definition items_of (p : lpage) : option (list lp * Z) :=
  match p with Items l n => Some (l, n) | Data [] n => Some ([], n) | _ => None end.

Section ops.
Context {T : Type} `{ItemCodec T} `{ItemSpace}.
Context {F : Type} `{FreeSpaceManager F}.

Abbreviation RM := (M (rel F lpage) unit).

Definition get_items (b : Z) : RM (list lp * Z) := p ← get_buffer b; unwrap (items_of p).

(** [deserialize_item] *)
Definition deserialize_item (x : lp) : option T := from_item <$> read_item x.

(** [append_item]: [None] is [InvalidOffsetNumber]. *)
Definition append_item (x : list Z) (l : list lp) : option (list lp) :=
  if fits l.*2 x then Some (l ++ [(false, x)]) else None.

(** ** Creation *)

Definition create_without_fsm : RM Z :=
  header ← init_new_buffer init_page;
  start ← init_new_buffer init_page;
  put_page header (Header start start 0);;
  mret header.

Definition create_without_start_page : RM Z := new_buffer init_page.

Definition create_with_fsm : RM Z :=
  header ← create_without_start_page;
  start ← new_buffer init_page;
  put_page header (Header start start 0);;
  mret header.

(** ** Reading *)

Fixpoint list_loop (fuel : nat) (b : Z) : RM (list T) :=
  match fuel with
  | O => out_of_fuel
  | S fuel =>
      if b =? InvalidBlockNumber then mret []
      else p ← get_items b; rest ← list_loop fuel p.2; mret (omap deserialize_item p.1 ++ rest)
  end.

(** [list()], and the items [for_each] visits. *)
Definition list (hb : Z) : RM (list T) :=
  start ← get_start_blockno hb;
  n ← page_count;
  list_loop (S n) start.

Fixpoint is_empty_loop (fuel : nat) (b : Z) : RM bool :=
  match fuel with
  | O => out_of_fuel
  | S fuel =>
      if b =? InvalidBlockNumber then mret true
      else
        p ← get_items b;
        match omap deserialize_item p.1 with
        | _ :: _ => mret false
        | [] => is_empty_loop fuel p.2
        end
  end.

Definition is_empty (hb : Z) : RM bool :=
  start ← get_start_blockno hb;
  n ← page_count;
  is_empty_loop (S n) start.

(** The first line pointer of a page whose item matches, with its offset (from 0). *)
Fixpoint find_item (cmp : T -> bool) (l : Datatypes.list lp) : option (T * nat) :=
  match l with
  | [] => None
  | x :: l =>
      let rest := (fun '(t, i) => (t, S i)) <$> find_item cmp l in
      match deserialize_item x with
      | Some t => if cmp t then Some (t, O) else rest
      | None => rest
      end
  end.

Fixpoint lookup_loop (fuel : nat) (cmp : T -> bool) (b : Z) : RM (option (T * Z * nat)) :=
  match fuel with
  | O => out_of_fuel
  | S fuel =>
      if b =? InvalidBlockNumber then mret None
      else
        p ← get_items b;
        match find_item cmp p.1 with
        | Some (t, i) => mret (Some (t, b, i))
        | None => lookup_loop fuel cmp p.2
        end
  end.

(** [lookup_ex]; [None] is the error that the entry was not found. *)
Definition lookup_ex (cmp : T -> bool) (start : Z) : RM (option (T * Z * nat)) :=
  n ← page_count; lookup_loop (S n) cmp start.

Definition lookup (cmp : T -> bool) (hb : Z) : RM (option T) :=
  start ← get_start_blockno hb;
  o ← lookup_ex cmp start;
  mret ((fun x => x.1.1) <$> o).

(** ** Adding *)

(** ['append_loop] for one item, from the page of block [b]; the block it went to. *)
Fixpoint append_loop (fuel : nat) (x : Datatypes.list Z) (b : Z) : RM Z :=
  match fuel with
  | O => out_of_fuel
  | S fuel =>
      p ← get_items b;
      match append_item x p.1 with
      | Some l => put_page b (mk_items l p.2);; mret b
      | None =>
          if negb (p.2 =? InvalidBlockNumber) then append_loop fuel x p.2
          else
            new_blockno ← new_buffer init_page;
            put_page b (mk_items p.1 new_blockno);;
            append_loop fuel x new_blockno
      end
  end.

Fixpoint add_loop (items : Datatypes.list T) (b : Z) : RM unit :=
  match items with
  | [] => mret tt
  | item :: items =>
      n ← page_count;
      b ← append_loop (S (S n)) (into_item item) b;
      add_loop items b
  end.

(** [add_items(items, None)] *)
Definition add_items (items : Datatypes.list T) (hb : Z) : RM unit :=
  start ← get_start_blockno hb; add_loop items start.

(** ** Changing items *)

(** [remove_item]: the search holds no write lock, so the item is checked again under one;
    [retries] bounds how often another backend got in between. *)
Fixpoint remove_loop (retries : nat) (cmp : T -> bool) (start : Z) : RM (option T) :=
  match retries with
  | O => out_of_fuel
  | S retries =>
      o ← lookup_ex cmp start;
      match o with
      | None => mret None
      | Some (_, b, i) =>
          p ← get_items b;
          match (p.1 !! i) ≫= deserialize_item with
          | Some item =>
              if cmp item then put_page b (mk_items (delete i p.1) p.2);; mret (Some item)
              else remove_loop retries cmp start
          | None => remove_loop retries cmp start
          end
      end
  end.

Definition remove_item (cmp : T -> bool) (hb : Z) : RM (option T) :=
  h ← get_header hb; remove_loop 1 cmp h.1.1.

(** [update_item]; a change of the item's size is an assertion failure. *)
Fixpoint update_loop (retries : nat) (cmp : T -> bool) (update : T -> T) (start : Z) : RM (option unit) :=
  match retries with
  | O => out_of_fuel
  | S retries =>
      o ← lookup_ex cmp start;
      match o with
      | None => mret None
      | Some (_, b, i) =>
          p ← get_items b;
          match (p.1 !! i) ≫= (fun x => (fun t => (t, length x.2)) <$> deserialize_item x) with
          | Some (item, old_size) =>
              if cmp item then
                let bytes := into_item (update item) in
                if (old_size =? length bytes)%nat then
                  put_page b (mk_items (<[i := (false, bytes)]> p.1) p.2);; mret (Some tt)
                else panic
              else update_loop retries cmp update start
          | None => update_loop retries cmp update start
          end
      end
  end.

Definition update_item (cmp : T -> bool) (update : T -> T) (hb : Z) : RM (option unit) :=
  h ← get_header hb; update_loop 1 cmp update h.1.1.

(** ** Removing and compacting *)

(** One page of [retain]: the line pointers left, and the entries removed. *)
Fixpoint retain_page (f : T -> bool) (l : Datatypes.list lp) : Datatypes.list lp * Datatypes.list T :=
  match l with
  | [] => ([], [])
  | x :: l =>
      let '(kept, removed) := retain_page f l in
      match deserialize_item x with
      | Some entry => if f entry then (kept, entry :: removed) else (x :: kept, removed)
      | None => (x :: kept, removed)
      end
  end.

Definition set_next (n : Z) (p : lpage) : lpage :=
  match p with Data d _ => Data d n | Items l _ => Items l n | Header _ _ _ => p end.

(** [f] says which entries to remove; [prev] is the last page kept, if there is one. *)
Fixpoint retain_loop (fuel : nat) (xid : Z) (f : T -> bool) (b : Z) (prev : option Z) : RM (Datatypes.list T) :=
  match fuel with
  | O => out_of_fuel
  | S fuel =>
      if b =? InvalidBlockNumber then mret []
      else
        p ← get_items b;
        let '(kept, removed) := retain_page f p.1 in
        (match removed with [] => mret tt | _ => put_page b (mk_items kept p.2) end);;
        rest ← (match prev with
                | Some pb =>
                    match kept with
                    | [] =>
                        q ← get_buffer pb;
                        put_page pb (set_next p.2 q);;
                        release xid [b];;
                        retain_loop fuel xid f p.2 prev
                    | _ => retain_loop fuel xid f p.2 (Some b)
                    end
                | None => retain_loop fuel xid f p.2 (Some b)
                end);
        mret (removed ++ rest)
  end.

Definition retain (xid : Z) (f : T -> bool) (hb : Z) : RM (Datatypes.list T) :=
  start ← get_start_blockno hb;
  n ← page_count;
  retain_loop (S n) xid f start None.

(** [garbage_collect]: [recyclable] is the entry's [MVCCEntry] test. *)
Definition garbage_collect (xid : Z) (recyclable : T -> bool) (hb : Z) : RM (Datatypes.list T) :=
  retain xid recyclable hb.

(** ** Blocks to free *)

Fixpoint freeable_blocks_without_header (fuel : nat) (b : Z) : RM (Datatypes.list Z) :=
  match fuel with
  | O => out_of_fuel
  | S fuel =>
      if b =? InvalidBlockNumber then mret []
      else p ← get_buffer b; rest ← freeable_blocks_without_header fuel (lnext p); mret (b :: rest)
  end.

Definition freeable_blocks (hb : Z) : RM (Datatypes.list Z) :=
  start ← get_start_blockno hb;
  n ← page_count;
  bs ← freeable_blocks_without_header (S n) start;
  mret (hb :: bs).

(** ** Atomic changes *)

(** The items copied to a fresh page; one that does not fit is an assertion failure. *)
Fixpoint copy_items (l new : Datatypes.list lp) : option (Datatypes.list lp) :=
  match l with
  | [] => Some new
  | x :: l =>
      match read_item x with
      | Some item => new ← append_item item new; copy_items l new
      | None => copy_items l new
      end
  end.

(** The copy of the pages from block [b] on, behind [prev] or else behind the header [ch]. *)
Fixpoint clone_loop (fuel : nat) (ch : Z) (b : Z) (prev : option Z) : RM unit :=
  match fuel with
  | O => out_of_fuel
  | S fuel =>
      if b =? InvalidBlockNumber then mret tt
      else
        p ← get_items b;
        new_blockno ← new_buffer init_page;
        (match prev with
         | Some pb => q ← get_buffer pb; put_page pb (set_next new_blockno q)
         | None => put_page ch (Header new_blockno 0 0)
         end);;
        new ← unwrap (copy_items p.1 []);
        put_page new_blockno (mk_items new p.2);;
        clone_loop fuel ch p.2 (Some new_blockno)
  end.

(** [atomically()]: the header block of the copy. *)
Definition atomically (hb : Z) : RM Z :=
  h ← get_header hb;
  cloned ← create_without_start_page;
  if h.1.1 =? InvalidBlockNumber then panic
  else
    n ← page_count;
    clone_loop (S n) cloned h.1.1 None;;
    mret cloned.

(** [AtomicGuard::commit()] *)
Definition commit (xid : Z) (hb cloned : Z) : RM unit :=
  c ← get_header cloned;
  h ← get_header hb;
  put_page hb (Header c.1.1 c.1.2 c.2);;
  n ← page_count;
  bs ← freeable_blocks_without_header (S n) h.1.1;
  release xid (bs ++ [cloned]).

End ops.

End LinkedItems.
