(* ===== verification/LinkedItemsProps.v ===== *)
(** * Item lists: refinement, conservation of blocks, atomic changes

    A list of items refines a multiset; on a list whose items all have one size and that is
    only ever added to, the order is kept as well.  Every page of a list is reachable from
    its header or has been given back.  A copy made by [atomically] is changed apart from
    the list and replaces it on [commit]. *)

From stdpp Require Import prelude gmap.
From Stdlib Require Import ZArith Lia.
From S2P Require Import Prelude Pages BlockList BlockListProps LinkedBytes LinkedBytesProps LinkedItems.
Import LinkedBytes LinkedItems.

Local Open Scope Z_scope.

Lemma items_of_mk l n : items_of (mk_items l n) = Some (l, n).
Proof. by destruct l. Qed.

Lemma set_next_mk l n n' : set_next n (mk_items l n') = mk_items l n.
Proof. by destruct l. Qed.

Lemma lnext_mk l n : lnext (mk_items l n) = n.
Proof. by destruct l. Qed.

Section lists.
Context {T : Type} `{ItemCodec T} `{ItemSpace}.
Context {F : Type} `{FreeSpaceManager F} {Els : Elsewhere}.

Abbreviation rel := (rel F lpage).
Implicit Types (r : rel) (t : T) (ts : Datatypes.list T) (ch w rest : Datatypes.list (Z * Datatypes.list T)).

(** ** One page *)

Definition enc ts : Datatypes.list lp := (fun t => (false, into_item t)) <$> ts.

Lemma deserialize_enc t : deserialize_item (false, into_item t) = Some t.
Proof.
  unfold deserialize_item, read_item. cbn [fst snd orb]. pose proof (item_storage t) as Hs.
  destruct (into_item t) as [|z l] eqn:E; [done|]. cbn [length Nat.eqb]. cbn. by rewrite <- E, item_roundtrip.
Qed.

Lemma omap_enc ts : omap deserialize_item (enc ts) = ts.
Proof.
  induction ts as [|t ts IH]; [done|]. unfold enc. rewrite fmap_cons. cbn [omap list_omap]. rewrite deserialize_enc.
  by f_equal.
Qed.

Lemma enc_app ts1 ts2 : enc (ts1 ++ ts2) = enc ts1 ++ enc ts2.
Proof. apply fmap_app. Qed.

Lemma enc_items ts : (enc ts).*2 = into_item <$> ts.
Proof. unfold enc. rewrite <- list_fmap_compose. done. Qed.

(** The items of a page fitted one after the other. *)
Definition packed ts : Prop :=
  forall ts1 t ts2, ts = ts1 ++ t :: ts2 -> fits (into_item <$> ts1) (into_item t) = true.

Lemma packed_nil : packed [].
Proof. intros ts1 t ts2 E. by destruct ts1. Qed.

Lemma packed_snoc ts t : packed ts -> fits (into_item <$> ts) (into_item t) = true -> packed (ts ++ [t]).
Proof.
  intros Hp Hf ts1 t' ts2 E. destruct ts2 as [|x ts2 _] using rev_ind.
  - by apply app_inj_tail in E as [-> ->].
  - rewrite app_comm_cons, app_assoc in E. apply app_inj_tail in E as [-> _]. by eapply Hp.
Qed.

Lemma packed_sub ts ts' : packed ts -> sublist ts' ts -> packed ts'.
Proof.
  intros Hp Hs ts1 t ts2 ->. apply sublist_app_l in Hs as (k1 & k2 & -> & Hs1 & Hs2).
  apply sublist_cons_l in Hs2 as (k3 & k4 & -> & _).
  eapply fits_sub; [|apply (Hp (k1 ++ k3) t k4); by rewrite <- app_assoc].
  rewrite fmap_app. apply sublist_inserts_r. clear - Hs1.
  induction Hs1; simpl; by constructor.
Qed.

Lemma packed_size ts ts' : packed ts -> length <$> (into_item <$> ts) = length <$> (into_item <$> ts') -> packed ts'.
Proof.
  intros Hp Hs ts1 t ts2 ->. rewrite !fmap_app, !fmap_cons in Hs.
  pose proof (f_equal length Hs) as Hl. rewrite length_app in Hl. cbn [length] in Hl. rewrite !length_fmap in Hl.
  destruct (lookup_lt_is_Some_2 ts (length ts1)) as [x Hx]; [lia|].
  pose proof (take_drop_middle ts _ _ Hx) as E. rewrite <- E in Hs. rewrite !fmap_app, !fmap_cons in Hs.
  apply app_inj_1 in Hs as [Hs1 Hs2]; [|rewrite !length_fmap, length_take; apply lookup_lt_Some in Hx; lia].
  injection Hs2 as Hs2 _. rewrite <- (fits_size (into_item <$> take (length ts1) ts) (into_item <$> ts1) (into_item x)) by done.
  eapply Hp. by rewrite E.
Qed.

Lemma find_item_enc cmp ts : find_item cmp (enc ts) = (fun x => (x.2, x.1)) <$> list_find (fun t => cmp t = true) ts.
Proof.
  induction ts as [|t ts IH]; [done|]. unfold enc in *. rewrite fmap_cons. cbn [find_item list_find]. rewrite deserialize_enc.
  destruct (cmp t) eqn:E; [by rewrite decide_True|]. rewrite decide_False by congruence. rewrite IH.
  by destruct (list_find _ ts) as [[i x]|].
Qed.

Lemma retain_page_enc (f : T -> bool) ts :
  retain_page f (enc ts) = (enc (filter (fun t => f t = false) ts), filter (fun t => f t = true) ts).
Proof.
  induction ts as [|t ts IH]; [done|]. unfold enc in *. rewrite fmap_cons. cbn [retain_page]. rewrite IH, deserialize_enc, !filter_cons.
  destruct (f t) eqn:E; [by rewrite decide_False, decide_True|by rewrite decide_True, decide_False].
Qed.

Lemma append_enc ts t : append_item (into_item t) (enc ts) =
  if fits (into_item <$> ts) (into_item t) then Some (enc (ts ++ [t])) else None.
Proof. unfold append_item. rewrite enc_items, enc_app. done. Qed.

Lemma copy_enc ts new : packed (new ++ ts) -> copy_items (enc ts) (enc new) = Some (enc (new ++ ts)).
Proof.
  revert new. induction ts as [|t ts IH]; intros new Hp; [by rewrite app_nil_r|].
  change (enc (t :: ts)) with ((false, into_item t) :: enc ts). cbn [copy_items].
  assert (read_item (false, into_item t) = Some (into_item t)) as ->.
  { unfold read_item. cbn [fst snd orb]. pose proof (item_storage t). by destruct (into_item t). }
  rewrite append_enc, (Hp new t ts eq_refl). cbn [mbind option_bind]. rewrite IH, <- app_assoc; [done|by rewrite <- app_assoc].
Qed.

(** ** The pages *)

Definition link ch (e : Z) : Z := match ch with [] => e | (b, _) :: _ => b end.

(** The pages of [ch], linked in this order and then to block [e]. *)
Fixpoint iseg (m : gmap Z lpage) ch (e : Z) : Prop :=
  match ch with
  | [] => True
  | (b, ts) :: ch => b <> InvalidBlockNumber /\ m !! b = Some (mk_items (enc ts) (link ch e)) /\ iseg m ch e
  end.

Lemma link_app ch1 ch2 e : link (ch1 ++ ch2) e = link ch1 (link ch2 e).
Proof. by destruct ch1 as [|[b ts] ch1]. Qed.

Lemma iseg_app m ch1 ch2 e : iseg m (ch1 ++ ch2) e <-> iseg m ch1 (link ch2 e) /\ iseg m ch2 e.
Proof.
  induction ch1 as [|[b ts] ch1 IH]; simpl; [naive_solver|]. rewrite IH, link_app. naive_solver.
Qed.

Lemma iseg_frame m m' ch e : iseg m ch e -> (forall x, x ∈ ch.*1 -> m' !! x = m !! x) -> iseg m' ch e.
Proof.
  induction ch as [|[b ts] ch IH]; simpl; [done|]. intros (Hb & Hp & Hs) Hx. split; [done|]. split.
  - rewrite Hx; [done|left].
  - apply IH; [done|]. intros x Hin. apply Hx. by right.
Qed.

Lemma iseg_in m ch e x : iseg m ch e -> x ∈ ch.*1 -> is_Some (m !! x) /\ x <> InvalidBlockNumber.
Proof.
  induction ch as [|[b ts] ch IH]; simpl; [by intros _ ?%elem_of_nil|].
  intros (Hb & Hp & Hs) [->|Hx]%elem_of_cons; [split; [by eexists|done]|auto].
Qed.

Lemma iseg_length m ch e : iseg m ch e -> NoDup ch.*1 -> (length ch <= size m)%nat.
Proof.
  intros Hs Hnd. rewrite <- (length_fmap fst ch), <- size_dom.
  rewrite <- (size_list_to_set (C := gset Z) ch.*1) by done. apply subseteq_size.
  intros x Hx%elem_of_list_to_set. apply elem_of_dom. by eapply iseg_in.
Qed.

Lemma iseg_valid m ch : iseg m ch InvalidBlockNumber -> (link ch InvalidBlockNumber =? InvalidBlockNumber) = match ch with [] => true | _ => false end.
Proof. destruct ch as [|[b ts] ch]; simpl; [done|]. intros (Hb & _). by apply Z.eqb_neq. Qed.

(** Changing the items of one page. *)
Lemma iseg_update m w b ts ts' rest e : iseg m (w ++ (b, ts) :: rest) e -> NoDup (w ++ (b, ts) :: rest).*1 ->
  iseg (<[b := mk_items (enc ts') (link rest e)]> m) (w ++ (b, ts') :: rest) e.
Proof.
  intros (Hw & Hb & Hp & Hr)%iseg_app Hnd. rewrite fmap_app, fmap_cons in Hnd.
  apply NoDup_app in Hnd as (_ & Hd & [Hnb _]%NoDup_cons). cbn [fst] in *. apply iseg_app. split.
  - eapply iseg_frame; [exact Hw|]. intros x Hx. apply lookup_insert_ne. intros ->. apply (Hd x Hx). left.
  - split; [done|]. split; [apply lookup_insert_eq|]. eapply iseg_frame; [done|]. intros x Hx.
    apply lookup_insert_ne. by intros ->.
Qed.

(** ** The list

    [r0] is the relation before the list was created. *)
Definition items ch : Datatypes.list T := concat ch.*2.

Record ilist r0 r (hb : Z) ch : Prop := {
  il_rel : rel_ok r;
  il_head : exists l bl, pages r !! hb = Some (Header (link ch InvalidBlockNumber) l bl);
  il_ne : ch <> [];
  il_seg : iseg (pages r) ch InvalidBlockNumber;
  il_nodup : NoDup (hb :: ch.*1);
  il_packed : Forall (fun e => packed e.2) ch;
  il_fresh : forall x, x ∈ hb :: ch.*1 -> pages r0 !! x = None;
  il_frame : framed r0 r (hb :: ch.*1);
}.

Lemma items_app ch1 ch2 : items (ch1 ++ ch2) = items ch1 ++ items ch2.
Proof. unfold items. by rewrite fmap_app, concat_app. Qed.

Lemma items_cons b ts ch : items ((b, ts) :: ch) = ts ++ items ch.
Proof. done. Qed.

Lemma ilist_nodup r0 r hb ch : ilist r0 r hb ch -> hb ∉ ch.*1 /\ NoDup ch.*1.
Proof. intros Hl. by apply NoDup_cons, (il_nodup _ _ _ _ Hl). Qed.

Lemma ilist_mid r0 r hb w b ts rest : ilist r0 r hb (w ++ (b, ts) :: rest) ->
  b <> InvalidBlockNumber /\ pages r !! b = Some (mk_items (enc ts) (link rest InvalidBlockNumber)) /\ packed ts.
Proof.
  intros Hl. pose proof (il_seg _ _ _ _ Hl) as (_ & Hb & Hp & _)%iseg_app.
  pose proof (il_packed _ _ _ _ Hl) as [_ [Hk _]%Forall_cons]%Forall_app.
  done.
Qed.

Lemma runs_get_items b l n r (Q : Datatypes.list lp * Z -> rel -> Prop) :
  pages r !! b = Some (mk_items l n) -> Q (l, n) r -> runs (get_items b) r Q.
Proof.
  intros Hb HQ. unfold get_items. apply runs_bind. eapply runs_get_buffer; [done|]. rewrite items_of_mk. by apply runs_ret.
Qed.

Lemma runs_start r0 r hb ch (Q : Z -> rel -> Prop) : ilist r0 r hb ch ->
  Q (link ch InvalidBlockNumber) r -> runs (get_start_blockno hb) r Q.
Proof.
  intros Hl HQ. destruct (il_head _ _ _ _ Hl) as (l & bl & Hh). unfold get_start_blockno. apply runs_bind.
  eapply runs_get_header; [done|]. cbn [fst snd]. unfold assert_block.
  pose proof (il_seg _ _ _ _ Hl) as Hs. pose proof (il_ne _ _ _ _ Hl) as Hne. destruct ch as [|[b ts] ch]; [done|].
  destruct Hs as (_ & Hp & _). cbn [link] in *. rewrite (valid_block _ _ _ (il_rel _ _ _ _ Hl) Hp). by apply runs_ret.
Qed.

(** Changing the items of one page of the list. *)
Lemma ilist_update r0 r r' hb w b ts ts' rest : ilist r0 r hb (w ++ (b, ts) :: rest) -> packed ts' -> rel_ok r' ->
  pages r' = <[b := mk_items (enc ts') (link rest InvalidBlockNumber)]> (pages r) ->
  ilist r0 r' hb (w ++ (b, ts') :: rest).
Proof.
  intros Hl Hk Hr' Hpg. destruct (ilist_nodup _ _ _ _ Hl) as [Hhb Hnd]. destruct Hl as [Hr (l & bl & Hh) Hne Hs Hnd0 Hp Hf Hfr].
  assert ((w ++ (b, ts') :: rest).*1 = (w ++ (b, ts) :: rest).*1) as Eb by by rewrite !fmap_app.
  assert (hb <> b) as Hhb' by (rewrite fmap_app in Hhb; set_solver).
  split; rewrite ?Eb; try done.
  - exists l, bl. rewrite Hpg, lookup_insert_ne by done. rewrite Hh. do 2 f_equal. by rewrite !link_app.
  - by destruct w.
  - rewrite Hpg. by eapply iseg_update.
  - apply Forall_app in Hp as [Hp1 [_ Hp2]%Forall_cons]. apply Forall_app. split; [done|]. by constructor.
  - intros x Hx. rewrite Hpg, lookup_insert_ne; [by apply Hfr|]. intros ->. apply Hx. rewrite fmap_app. set_solver.
Qed.

(** Linking a new page at the end. *)
Lemma ilist_extend r0 r r' hb w b ts nb : ilist r0 r hb (w ++ [(b, ts)]) -> rel_ok r' -> pages r !! nb = None ->
  pages r' = <[b := mk_items (enc ts) nb]> (<[nb := init_page]> (pages r)) ->
  ilist r0 r' hb (w ++ [(b, ts); (nb, [])]).
Proof.
  intros Hl Hr' Hnb Hpg. destruct (ilist_nodup _ _ _ _ Hl) as [Hhb Hnd].
  destruct (ilist_mid _ _ _ _ _ _ _ Hl) as (Hbv & Hb & Hk). destruct Hl as [Hr (l & bl & Hh) Hne Hs Hnd0 Hp Hf Hfr].
  assert (nb ∉ hb :: (w ++ [(b, ts)]).*1) as Hnew.
  { intros [->|Hx]%elem_of_cons; [congruence|]. apply (iseg_in _ _ _ _ Hs) in Hx as [[? ?] _]. congruence. }
  assert ((w ++ [(b, ts); (nb, [])]).*1 = (w ++ [(b, ts)]).*1 ++ [nb]) as Eb by (rewrite !fmap_app; simpl; by rewrite <- app_assoc).
  assert (nb <> b) as Hnbb by (rewrite fmap_app in Hnew; set_solver).
  destruct (rel_ok_valid r' nb init_page Hr') as [Hnv _].
  { by rewrite Hpg, lookup_insert_ne, lookup_insert_eq by done. }
  split; rewrite ?Eb; try done.
  - exists l, bl. rewrite Hpg, !lookup_insert_ne by (rewrite fmap_app in *; set_solver). rewrite Hh. by rewrite !link_app.
  - by destruct w.
  - apply iseg_app in Hs as [Hw _]. apply iseg_app. split; [|split; [done|]; split; [|split; [done|]; split; [|done]]].
    + eapply iseg_frame; [exact Hw|]. intros x Hx. rewrite Hpg, !lookup_insert_ne; [done| |].
      * intros ->. rewrite fmap_app in Hnew. set_solver.
      * intros ->. rewrite fmap_app in Hnd. apply NoDup_app in Hnd as (_ & Hd & _). apply (Hd x Hx). left.
    + by rewrite Hpg, lookup_insert_eq.
    + by rewrite Hpg, lookup_insert_ne, lookup_insert_eq.
  - apply (NoDup_app (hb :: (w ++ [(b, ts)]).*1) [nb]). split; [done|]. split; [|apply NoDup_singleton]. set_solver.
  - change (w ++ [(b, ts); (nb, [])]) with (w ++ [(b, ts)] ++ [(nb, [])]). rewrite app_assoc. apply Forall_app. split; [done|].
    constructor; [apply packed_nil|constructor].
  - intros x [Hx|Hx]%(elem_of_app (hb :: (w ++ [(b, ts)]).*1) [nb] x); [by apply Hf|]. apply list_elem_of_singleton in Hx as ->.
    by rewrite <- (Hfr nb Hnew).
  - intros x Hx. rewrite Hpg, !lookup_insert_ne.
    + apply Hfr. intros Hx'. apply Hx. by apply (elem_of_app (hb :: (w ++ [(b, ts)]).*1) [nb] x); left.
    + intros ->. apply Hx. apply (elem_of_app (hb :: (w ++ [(b, ts)]).*1) [x] x); right. left.
    + intros ->. apply Hx. right. rewrite fmap_app. set_solver.
Qed.

(** Bound of the loops over the pages of a list. *)
Lemma ilist_length r0 r hb ch : ilist r0 r hb ch -> (length ch <= size (pages r))%nat.
Proof. intros Hl. eapply iseg_length; [apply (il_seg _ _ _ _ Hl)|by eapply ilist_nodup]. Qed.

(** ** Reading *)

Lemma list_loop_spec fuel r ch (Q : Datatypes.list T -> rel -> Prop) : iseg (pages r) ch InvalidBlockNumber ->
  (length ch < fuel)%nat -> Q (items ch) r -> runs (list_loop fuel (link ch InvalidBlockNumber)) r Q.
Proof.
  revert ch Q. induction fuel as [|fuel IH]; intros ch Q Hs Hf HQ; [lia|]. cbn [list_loop].
  rewrite (iseg_valid _ _ Hs). destruct ch as [|[b ts] ch]; [by apply runs_ret|]. destruct Hs as (_ & Hp & Hs). cbn [link].
  apply runs_bind. eapply runs_get_items; [done|]. cbn [fst snd length] in *. apply runs_bind. apply (IH ch); [done|lia|].
  apply runs_ret. by rewrite omap_enc.
Qed.

Lemma list_spec r0 r hb ch (Q : Datatypes.list T -> rel -> Prop) : ilist r0 r hb ch -> Q (items ch) r ->
  runs (LinkedItems.list hb) r Q.
Proof.
  intros Hl HQ. unfold LinkedItems.list. apply runs_bind. eapply runs_start; [done|]. apply runs_bind, runs_gets.
  pose proof (ilist_length _ _ _ _ Hl). apply list_loop_spec; [apply (il_seg _ _ _ _ Hl)|lia|done].
Qed.

Lemma is_empty_loop_spec fuel r ch (Q : bool -> rel -> Prop) : iseg (pages r) ch InvalidBlockNumber ->
  (length ch < fuel)%nat -> Q (match items ch with [] => true | _ => false end) r ->
  runs (is_empty_loop (T := T) fuel (link ch InvalidBlockNumber)) r Q.
Proof.
  revert ch Q. induction fuel as [|fuel IH]; intros ch Q Hs Hf HQ; [lia|]. cbn [is_empty_loop].
  rewrite (iseg_valid _ _ Hs). destruct ch as [|[b ts] ch]; [by apply runs_ret|]. destruct Hs as (_ & Hp & Hs). cbn [link].
  apply runs_bind. eapply runs_get_items; [done|]. cbn [fst snd length] in *. rewrite omap_enc. rewrite items_cons in HQ.
  destruct ts as [|t ts]; [|by apply runs_ret]. apply (IH ch); [done|lia|done].
Qed.

Lemma is_empty_spec r0 r hb ch (Q : bool -> rel -> Prop) : ilist r0 r hb ch ->
  Q (match items ch with [] => true | _ => false end) r -> runs (is_empty (T := T) hb) r Q.
Proof.
  intros Hl HQ. unfold is_empty. apply runs_bind. eapply runs_start; [done|]. apply runs_bind, runs_gets.
  pose proof (ilist_length _ _ _ _ Hl). apply is_empty_loop_spec; [apply (il_seg _ _ _ _ Hl)|lia|done].
Qed.

(** The first match, and where it is. *)
Lemma lookup_loop_spec fuel cmp r ch (Q : option (T * Z * nat) -> rel -> Prop) : iseg (pages r) ch InvalidBlockNumber ->
  (length ch < fuel)%nat ->
  (Forall (fun t => cmp t = false) (items ch) -> Q None r) ->
  (forall w b ts1 t ts2 rest, ch = w ++ (b, ts1 ++ t :: ts2) :: rest -> cmp t = true ->
     Forall (fun t => cmp t = false) (items w ++ ts1) -> Q (Some (t, b, length ts1)) r) ->
  runs (lookup_loop fuel cmp (link ch InvalidBlockNumber)) r Q.
Proof.
  revert ch Q. induction fuel as [|fuel IH]; intros ch Q Hs Hf HN HS; [lia|]. cbn [lookup_loop].
  rewrite (iseg_valid _ _ Hs). destruct ch as [|[b ts] ch]; [apply runs_ret, HN; constructor|]. destruct Hs as (_ & Hp & Hs). cbn [link].
  apply runs_bind. eapply runs_get_items; [done|]. cbn [fst snd length] in *. rewrite find_item_enc.
  destruct (list_find (fun t => cmp t = true) ts) as [[i t]|] eqn:Ef; cbn [fmap option_fmap option_map fst snd].
  - apply list_find_Some in Ef as (Hi & Ht & Hbefore). apply runs_ret.
    rewrite <- (length_take_le ts i) by (apply lookup_lt_Some in Hi; lia).
    apply (HS [] b (take i ts) t (drop (S i) ts) ch); [by rewrite take_drop_middle|done|].
    apply Forall_forall. cbn. intros x (j & Hj)%list_elem_of_lookup. apply lookup_take_Some in Hj as [Hj Hlt].
    apply not_true_iff_false. by eapply Hbefore.
  - apply list_find_None in Ef.
    assert (Forall (fun t => cmp t = false) ts) as Hts by (eapply Forall_impl; [done|]; intros x Hx; by apply not_true_iff_false).
    apply IH; [done|lia| |].
    + intros Hall. apply HN. rewrite items_cons. by apply Forall_app.
    + intros w b' ts1 t ts2 rest -> Ht Hall. apply (HS ((b, ts) :: w) b' ts1 t ts2 rest); [done|done|].
      rewrite items_cons, <- app_assoc. by apply Forall_app.
Qed.

Lemma lookup_ex_spec cmp r0 r hb ch (Q : option (T * Z * nat) -> rel -> Prop) : ilist r0 r hb ch ->
  (Forall (fun t => cmp t = false) (items ch) -> Q None r) ->
  (forall w b ts1 t ts2 rest, ch = w ++ (b, ts1 ++ t :: ts2) :: rest -> cmp t = true ->
     Forall (fun t => cmp t = false) (items w ++ ts1) -> Q (Some (t, b, length ts1)) r) ->
  runs (lookup_ex cmp (link ch InvalidBlockNumber)) r Q.
Proof.
  intros Hl HN HS. unfold lookup_ex. apply runs_bind, runs_gets. pose proof (ilist_length _ _ _ _ Hl).
  apply lookup_loop_spec; [apply (il_seg _ _ _ _ Hl)|lia|done|done].
Qed.

(** ** Adding *)

(** Where the item went: a page of the list with room, after full ones, or a new last page. *)
Record appended ch (t : T) w1 (b : Z) ts1 rest1 : Prop := {
  ap_place : ch = w1 ++ (b, ts1) :: rest1 \/
    (ch = w1 /\ ts1 = [] /\ rest1 = [] /\
     exists w0 b0 ts0, ch = w0 ++ [(b0, ts0)] /\ fits (into_item <$> ts0) (into_item t) = false);
  ap_room : fits (into_item <$> ts1) (into_item t) = true;
}.

Lemma append_loop_spec fuel t r0 r hb w b ts rest (Q : Z -> rel -> Prop) : ilist r0 r hb (w ++ (b, ts) :: rest) ->
  storable (into_item t) -> (length rest + 1 < fuel)%nat ->
  (forall r' w1 b1 ts1 rest1, ilist r0 r' hb (w1 ++ (b1, ts1 ++ [t]) :: rest1) ->
     appended (w ++ (b, ts) :: rest) t w1 b1 ts1 rest1 -> Q b1 r') ->
  runs (append_loop fuel (into_item t) b) r Q.
Proof.
  intros Hl Hst. revert r w b ts rest Hl. induction fuel as [|fuel IH]; intros r w b ts rest Hl Hf HQ; [lia|]. cbn [append_loop].
  destruct (ilist_mid _ _ _ _ _ _ _ Hl) as (Hbv & Hb & Hk). apply runs_bind. eapply runs_get_items; [done|]. cbn [fst snd].
  rewrite append_enc. destruct (fits (into_item <$> ts) (into_item t)) eqn:Efit.
  - apply runs_bind. eapply runs_put_page; [apply (il_rel _ _ _ _ Hl)|done|]. intros r' Hr' Hpg. apply runs_ret.
    apply (HQ r' w b ts rest); [eapply ilist_update; [done|by apply packed_snoc|done|done]|]. split; [by left|done].
  - destruct rest as [|[b' ts'] rest]; cbn [link].
    + rewrite Z.eqb_refl. cbn [negb]. apply runs_bind. eapply runs_new_buffer; [apply (il_rel _ _ _ _ Hl)|]. intros nb r1 Hr1 Hn1 Hp1.
      assert (nb <> b) as Hnb by congruence.
      apply runs_bind. eapply runs_put_page; [done|by rewrite Hp1, lookup_insert_ne|]. intros r2 Hr2 Hp2. rewrite Hp1 in Hp2.
      pose proof (ilist_extend r0 r r2 hb w b ts nb Hl Hr2 Hn1 Hp2) as Hl2.
      change (w ++ [(b, ts); (nb, [])]) with (w ++ [(b, ts)] ++ [(nb, [])]) in Hl2. rewrite app_assoc in Hl2.
      destruct fuel as [|fuel]; [simpl in Hf; lia|]. clear IH.
      cbn [append_loop]. destruct (ilist_mid _ _ _ _ _ _ _ Hl2) as (_ & Hnp & _). apply runs_bind.
      eapply runs_get_items; [done|]. cbn [fst snd]. rewrite append_enc, fits_empty by done.
      apply runs_bind. eapply runs_put_page; [done|done|]. intros r3 Hr3 Hp3. apply runs_ret.
      apply (HQ r3 (w ++ [(b, ts)]) nb [] []); [|split; [right; by eauto 10|by apply fits_empty]].
      eapply ilist_update; [done| |done|done]. apply (packed_snoc []); [apply packed_nil|by apply fits_empty].
    + assert (iseg (pages r) ((b', ts') :: rest) InvalidBlockNumber) as (Hv & _)
        by (pose proof (il_seg _ _ _ _ Hl) as (_ & _ & _ & ?)%iseg_app; done).
      rewrite (proj2 (Z.eqb_neq _ _) Hv). cbn [negb].
      change (w ++ (b, ts) :: (b', ts') :: rest) with (w ++ [(b, ts)] ++ (b', ts') :: rest) in *. rewrite app_assoc in *.
      cbn [length] in Hf. eapply IH; [done|lia|]. intros r' w1 b1 ts1 rest1 Hl' Ha. by eapply HQ.
Qed.

Inductive appends : Datatypes.list (Z * Datatypes.list T) -> Datatypes.list T -> Datatypes.list (Z * Datatypes.list T) -> Prop :=
| appends_nil ch : appends ch [] ch
| appends_cons ch t ts w1 b1 ts1 rest1 ch' : appended ch t w1 b1 ts1 rest1 ->
    appends (w1 ++ (b1, ts1 ++ [t]) :: rest1) ts ch' -> appends ch (t :: ts) ch'.

Lemma add_loop_spec ts r0 r hb ch b (Q : unit -> rel -> Prop) : ilist r0 r hb ch -> b ∈ ch.*1 ->
  Forall (fun t => storable (into_item t)) ts ->
  (forall r' ch', ilist r0 r' hb ch' -> appends ch ts ch' -> Q tt r') ->
  runs (add_loop ts b) r Q.
Proof.
  revert r ch b. induction ts as [|t ts IH]; intros r ch b Hl Hb Hst HQ; cbn [add_loop].
  { apply runs_ret. eapply HQ; [done|constructor]. }
  apply Forall_cons in Hst as [Ht Hst]. apply runs_bind, runs_gets, runs_bind.
  apply list_elem_of_fmap in Hb as ([b' ts0] & -> & (w & rest & ->)%list_elem_of_split). cbn [fst].
  eapply append_loop_spec; [done|done| |].
  { pose proof (ilist_length _ _ _ _ Hl) as Hlen. rewrite length_app in Hlen. simpl in Hlen. lia. }
  intros r1 w1 b1 ts1 rest1 Hl1 Ha. eapply IH; [done| |done|].
  - rewrite fmap_app. set_solver.
  - intros r' ch' Hl' Hap. eapply HQ; [done|]. by econstructor.
Qed.

Lemma add_items_spec ts r0 r hb ch (Q : unit -> rel -> Prop) : ilist r0 r hb ch ->
  Forall (fun t => storable (into_item t)) ts ->
  (forall r' ch', ilist r0 r' hb ch' -> appends ch ts ch' -> Q tt r') ->
  runs (add_items ts hb) r Q.
Proof.
  intros Hl Hst HQ. unfold add_items. apply runs_bind. eapply runs_start; [done|]. eapply add_loop_spec; [done| |done|done].
  pose proof (il_ne _ _ _ _ Hl). destruct ch as [|[b ts0] ch]; [done|]. left.
Qed.

Lemma appends_perm ch ts ch' : appends ch ts ch' -> items ch' ≡ₚ items ch ++ ts.
Proof.
  induction 1 as [|ch t ts w1 b1 ts1 rest1 ch' [Hp _] _ IH]; [by rewrite app_nil_r|]. rewrite IH.
  destruct Hp as [->|(-> & -> & -> & _)]; rewrite !items_app, !items_cons; rewrite <- ?app_assoc; cbn [app items fmap list_fmap concat].
  - do 2 apply Permutation_app_head. change (t :: items rest1 ++ ts) with ([t] ++ items rest1 ++ ts).
    rewrite (app_assoc [t]), (Permutation_app_comm [t]). by rewrite <- app_assoc.
  - done.
Qed.

(** All pages but the last are full. *)
Definition log_ok ch : Prop := exists init b ts, ch = init ++ [(b, ts)] /\
  Forall (fun e => forall t, fits (into_item <$> e.2) (into_item t) = false) init.

(** When all items have the same size, a list that was only added to keeps them in order. *)
Lemma appends_log ch ts ch' : (forall t1 t2 : T, length (into_item t1) = length (into_item t2)) ->
  log_ok ch -> appends ch ts ch' -> log_ok ch' /\ items ch' = items ch ++ ts.
Proof.
  intros Hsz Hlog Hap. induction Hap as [|ch t ts w1 b1 ts1 rest1 ch' [Hp Hroom] _ IH]; [by rewrite app_nil_r|].
  assert (rest1 = [] /\ Forall (fun e => forall t, fits (into_item <$> e.2) (into_item t) = false) w1 /\
    items (w1 ++ [(b1, ts1)]) = items ch) as (-> & Hw1 & Ei).
  { destruct Hlog as (init & b & tsl & E & Hfull). destruct Hp as [Ep|(Ep & -> & -> & w0 & b0 & ts0 & E0 & Hf0)].
    - destruct rest1 as [|e rest1 _] using rev_ind.
      + rewrite Ep in E. apply app_inj_tail in E as [-> _]. by rewrite Ep.
      + rewrite Ep, app_comm_cons, app_assoc in E. apply app_inj_tail in E as [<- _].
        apply Forall_app in Hfull as [_ [Hx _]%Forall_cons]. cbn [snd] in Hx. by rewrite Hx in Hroom.
    - subst w1. split; [done|]. split; [|by rewrite items_app, app_nil_r]. rewrite E0 in E. apply app_inj_tail in E as [-> [= -> ->]].
      rewrite E0. apply Forall_app. split; [done|]. constructor; [|constructor]. intros t'. cbn [snd].
      rewrite <- Hf0. by apply fits_size. }
  destruct IH as [Hlog' E']; [by exists w1, b1, (ts1 ++ [t])|]. split; [done|]. rewrite E', <- Ei, !items_app, !items_cons.
  cbn [items fmap list_fmap concat]. rewrite <- !app_assoc. done.
Qed.

(** ** Removing and updating *)

Lemma enc_delete i ts : delete i (enc ts) = enc (delete i ts).
Proof. unfold enc. revert i. induction ts as [|t ts IH]; intros [|i]; cbn; try done. f_equal. apply IH. Qed.

Lemma enc_insert i t ts : <[i := (false, into_item t)]> (enc ts) = enc (<[i := t]> ts).
Proof. unfold enc. symmetry. apply (list_fmap_insert (fun t => (false, into_item t))). Qed.

Lemma enc_lookup_mid ts1 t ts2 : enc (ts1 ++ t :: ts2) !! length ts1 = Some (false, into_item t).
Proof. unfold enc. rewrite list_lookup_fmap, list_lookup_middle by done. done. Qed.

Lemma runs_list_header r0 r hb ch (Q : Z * Z * Z -> rel -> Prop) : ilist r0 r hb ch ->
  (forall l bl, Q (link ch InvalidBlockNumber, l, bl) r) -> runs (get_header hb) r Q.
Proof. intros Hl HQ. destruct (il_head _ _ _ _ Hl) as (l & bl & Hh). by eapply runs_get_header. Qed.

Lemma remove_item_spec cmp r0 r hb ch (Q : option T -> rel -> Prop) : ilist r0 r hb ch ->
  (Forall (fun t => cmp t = false) (items ch) -> Q None r) ->
  (forall r' ch' pre t post, ilist r0 r' hb ch' -> items ch = pre ++ t :: post -> items ch' = pre ++ post ->
     cmp t = true -> Forall (fun t => cmp t = false) pre -> Q (Some t) r') ->
  runs (remove_item cmp hb) r Q.
Proof.
  intros Hl HN HS. unfold remove_item. apply runs_bind. eapply runs_list_header; [done|]. intros l bl. cbn [fst snd remove_loop].
  apply runs_bind. eapply lookup_ex_spec; [done| |].
  { intros Hall. apply runs_ret. auto. }
  intros w b ts1 t ts2 rest -> Ht Hall. destruct (ilist_mid _ _ _ _ _ _ _ Hl) as (Hbv & Hb & Hk).
  apply runs_bind. eapply runs_get_items; [done|]. cbn [fst snd]. rewrite enc_lookup_mid. cbn [mbind option_bind].
  rewrite deserialize_enc, Ht. apply runs_bind. eapply runs_put_page; [apply (il_rel _ _ _ _ Hl)|done|]. intros r' Hr' Hpg.
  apply runs_ret. rewrite enc_delete, delete_middle in Hpg.
  apply (HS r' (w ++ (b, ts1 ++ ts2) :: rest) (items w ++ ts1) t (ts2 ++ items rest)); try done.
  - eapply ilist_update; [done| |done|done]. eapply packed_sub; [done|]. apply sublist_app; [done|]. by apply sublist_cons.
  - rewrite items_app, items_cons, <- !app_assoc. done.
  - rewrite items_app, items_cons, <- !app_assoc. done.
Qed.

Lemma update_item_spec cmp update r0 r hb ch (Q : option unit -> rel -> Prop) : ilist r0 r hb ch ->
  (forall t, length (into_item (update t)) = length (into_item t)) ->
  (Forall (fun t => cmp t = false) (items ch) -> Q None r) ->
  (forall r' ch' pre t post, ilist r0 r' hb ch' -> items ch = pre ++ t :: post -> items ch' = pre ++ update t :: post ->
     cmp t = true -> Forall (fun t => cmp t = false) pre -> Q (Some tt) r') ->
  runs (update_item cmp update hb) r Q.
Proof.
  intros Hl Hsz HN HS. unfold update_item. apply runs_bind. eapply runs_list_header; [done|]. intros l bl. cbn [fst snd update_loop].
  apply runs_bind. eapply lookup_ex_spec; [done| |].
  { intros Hall. apply runs_ret. auto. }
  intros w b ts1 t ts2 rest -> Ht Hall. destruct (ilist_mid _ _ _ _ _ _ _ Hl) as (Hbv & Hb & Hk).
  apply runs_bind. eapply runs_get_items; [done|]. cbn [fst snd]. rewrite enc_lookup_mid. cbn [mbind option_bind].
  rewrite deserialize_enc. cbn [fmap option_fmap option_map snd]. rewrite Ht, Hsz, Nat.eqb_refl. apply runs_bind.
  eapply runs_put_page; [apply (il_rel _ _ _ _ Hl)|done|]. intros r' Hr' Hpg.
  apply runs_ret. rewrite enc_insert, insert_app_r_alt, Nat.sub_diag in Hpg by done. cbn [insert list_insert] in Hpg.
  apply (HS r' (w ++ (b, ts1 ++ update t :: ts2) :: rest) (items w ++ ts1) t (ts2 ++ items rest)); try done.
  - eapply ilist_update; [done| |done|done]. eapply packed_size; [done|]. rewrite !fmap_app, !fmap_cons. by rewrite Hsz.
  - rewrite items_app, items_cons, <- !app_assoc. done.
  - rewrite items_app, items_cons, <- !app_assoc. done.
Qed.

(** ** Removing and compacting *)

Lemma ilist_drop r0 r r' hb w0 pb tsp b ts rest : ilist r0 r hb ((w0 ++ [(pb, tsp)]) ++ (b, ts) :: rest) -> rel_ok r' ->
  pages r' = delete b (<[pb := mk_items (enc tsp) (link rest InvalidBlockNumber)]> (pages r)) ->
  ilist r0 r' hb ((w0 ++ [(pb, tsp)]) ++ rest).
Proof.
  intros Hl Hr' Hpg. destruct (ilist_nodup _ _ _ _ Hl) as [Hhb Hnd]. destruct Hl as [Hr (l & bl & Hh) Hne Hs Hnd0 Hp Hf Hfr].
  rewrite <- !app_assoc in *. cbn [app] in *.
  assert (b ∉ w0.*1 ++ pb :: rest.*1) as Hb.
  { rewrite fmap_app, !fmap_cons in Hnd. cbn [fst] in Hnd. apply NoDup_app in Hnd as (_ & Hd & Hnd).
    apply NoDup_cons in Hnd as [Hpb Hnd]. apply NoDup_cons in Hnd as [Hbr _]. set_solver. }
  assert (NoDup (w0.*1 ++ pb :: rest.*1)) as Hnd1.
  { rewrite fmap_app, !fmap_cons in Hnd. cbn [fst] in Hnd. eapply sublist_NoDup; [exact Hnd|].
    apply sublist_app; [done|]. apply sublist_skip. by apply sublist_cons. }
  assert ((w0 ++ (pb, tsp) :: rest).*1 = w0.*1 ++ pb :: rest.*1) as Eb by (by rewrite fmap_app).
  assert ((w0 ++ (pb, tsp) :: (b, ts) :: rest).*1 = w0.*1 ++ pb :: b :: rest.*1) as Eo by (by rewrite fmap_app).
  rewrite Eo in *. apply iseg_app in Hs as [Hw (Hpv & Hpp & Hbv & _ & Hrest)].
  assert (forall x, x <> b -> x <> pb -> pages r' !! x = pages r !! x) as Hx.
  { intros x Hxb Hxp. by rewrite Hpg, lookup_delete_ne, lookup_insert_ne. }
  split; rewrite ?Eb; try done.
  - exists l, bl. rewrite Hx by set_solver. rewrite Hh. by rewrite !link_app.
  - by destruct w0.
  - apply iseg_app. split; [|split; [done|split]].
    + eapply iseg_frame; [exact Hw|]. intros x Hin. apply Hx; [set_solver|]. intros ->.
      apply NoDup_app in Hnd1 as (_ & Hd & _). apply (Hd pb Hin). left.
    + rewrite Hpg, lookup_delete_ne by set_solver. apply lookup_insert_eq.
    + eapply iseg_frame; [exact Hrest|]. intros x Hin. apply Hx; [set_solver|]. intros ->.
      apply NoDup_app in Hnd1 as (_ & _ & [Hd _]%NoDup_cons). done.
  - apply NoDup_cons. split; [|done]. set_solver.
  - apply Forall_app in Hp as [Hp1 [Hp2 [_ Hp3]%Forall_cons]%Forall_cons]. apply Forall_app. split; [done|]. by constructor.
  - intros x Hin. apply Hf. set_solver.
  - intros x Hin. destruct (decide (x = b)) as [->|Hxb].
    + rewrite Hpg, lookup_delete_eq. symmetry. apply Hf. set_solver.
    + rewrite Hx by set_solver. apply Hfr. set_solver.
Qed.

Lemma filter_all_kept (f : T -> bool) ts :
  filter (fun t => f t = true) ts = [] -> filter (fun t => f t = false) ts = ts.
Proof.
  induction ts as [|t ts IH]; [done|]. rewrite !filter_cons. destruct (f t) eqn:E; [by rewrite decide_True|].
  rewrite decide_False, decide_True by done. intros Hf. by rewrite IH.
Qed.

Lemma retain_put_spec (f : T -> bool) r0 r hb w b ts rest (Q : unit -> rel -> Prop) : ilist r0 r hb (w ++ (b, ts) :: rest) ->
  (forall r1, ilist r0 r1 hb (w ++ (b, filter (fun t => f t = false) ts) :: rest) -> Q tt r1) ->
  runs (match filter (fun t => f t = true) ts with
        | [] => mret tt
        | _ => put_page b (mk_items (enc (filter (fun t => f t = false) ts)) (link rest InvalidBlockNumber))
        end) r Q.
Proof.
  intros Hl HQ. destruct (ilist_mid _ _ _ _ _ _ _ Hl) as (Hbv & Hb & Hk).
  destruct (filter (fun t => f t = true) ts) as [|t0 removed0] eqn:Er.
  - apply runs_ret, HQ. by rewrite filter_all_kept.
  - eapply runs_put_page; [apply (il_rel _ _ _ _ Hl)|done|]. intros r1 Hr1 Hpg1. apply HQ.
    eapply ilist_update; [done| |done|done]. eapply packed_sub; [done|]. apply sublist_filter.
Qed.

Lemma retain_loop_spec fuel xid f r0 r hb w rest prev (Q : Datatypes.list T -> rel -> Prop) :
  normal_xid xid -> ilist r0 r hb (w ++ rest) -> prev = fst <$> last w -> (length rest < fuel)%nat ->
  (forall r' rest', ilist r0 r' hb (w ++ rest') -> items rest' = filter (fun t => f t = false) (items rest) ->
     Q (filter (fun t => f t = true) (items rest)) r') ->
  runs (retain_loop fuel xid f (link rest InvalidBlockNumber) prev) r Q.
Proof.
  intros Hxid. revert r w rest prev Q. induction fuel as [|fuel IH]; intros r w rest prev Q Hl Hprev Hf HQ; [lia|]. cbn [retain_loop].
  pose proof (il_seg _ _ _ _ Hl) as [_ Hs]%iseg_app. rewrite (iseg_valid _ _ Hs).
  destruct rest as [|[b ts] rest]; [apply runs_ret; by apply (HQ r [])|]. cbn [link length] in *.
  destruct (ilist_mid _ _ _ _ _ _ _ Hl) as (Hbv & Hb & Hk). apply runs_bind. eapply runs_get_items; [done|]. cbn [fst snd].
  rewrite retain_page_enc. set (kept := filter (fun t => f t = false) ts). set (removed := filter (fun t => f t = true) ts).
  apply runs_bind.
  eapply retain_put_spec; [done|]. fold kept. intros r1 Hl1. apply runs_bind.
  assert (runs (retain_loop fuel xid f (link rest InvalidBlockNumber) (Some b)) r1
    (fun rs r' => runs (mret (removed ++ rs)) r' Q)) as Hkeep.
  { apply (IH r1 (w ++ [(b, kept)]) rest (Some b)); [by rewrite <- app_assoc|by rewrite last_snoc|lia|].
    intros r' rest' Hl' Er. apply runs_ret. rewrite items_cons, !filter_app in HQ.
    apply (HQ r' ((b, kept) :: rest')); [by rewrite <- app_assoc in Hl'|]. by rewrite items_cons, Er. }
  destruct prev as [pb|]; [|done]. destruct kept as [|t0 kept0] eqn:Ek; [|done].
  destruct w as [|[pb' tsp] w0 _] using rev_ind; [done|]. rewrite last_snoc in Hprev. injection Hprev as ->.
  change (enc []) with (@nil lp). cbn iota.
  assert (pages r1 !! pb' = Some (mk_items (enc tsp) b)) as Hpb.
  { pose proof Hl1 as Hl1'. rewrite <- app_assoc in Hl1'. by destruct (ilist_mid _ _ _ _ _ _ _ Hl1') as (_ & ? & _). }
  apply runs_bind. eapply runs_get_buffer; [done|]. rewrite set_next_mk. apply runs_bind.
  eapply runs_put_page; [apply (il_rel _ _ _ _ Hl1)|done|]. intros r2 Hr2 Hpg2. apply runs_bind.
  eapply runs_release; [done|done|apply NoDup_singleton| |].
  { intros x ->%list_elem_of_singleton. destruct (ilist_mid _ _ _ _ _ _ _ Hl1) as (_ & Hbb & _).
    rewrite Hpg2, lookup_insert. case_decide; by eexists. }
  intros r3 Hr3 Hpg3. cbn [foldr] in Hpg3. rewrite Hpg2 in Hpg3.
  apply (IH r3 (w0 ++ [(pb', tsp)]) rest (Some pb')); [by eapply ilist_drop|by rewrite last_snoc|lia|].
  intros r' rest' Hl' Er. apply runs_ret. rewrite items_cons, !filter_app in HQ. apply (HQ r' rest'); [done|].
  rewrite Er. fold kept. by rewrite Ek.
Qed.

Lemma retain_spec xid f r0 r hb ch (Q : Datatypes.list T -> rel -> Prop) : normal_xid xid -> ilist r0 r hb ch ->
  (forall r' ch', ilist r0 r' hb ch' -> items ch' = filter (fun t => f t = false) (items ch) ->
     Q (filter (fun t => f t = true) (items ch)) r') ->
  runs (retain xid f hb) r Q.
Proof.
  intros Hxid Hl HQ. unfold retain. apply runs_bind. eapply runs_start; [done|]. apply runs_bind, runs_gets.
  pose proof (ilist_length _ _ _ _ Hl). by apply (retain_loop_spec _ xid f r0 r hb [] ch None); [done|done|done|lia|].
Qed.

(** ** Creating and freeing *)

Lemma create_spec r0 (Q : Z -> rel -> Prop) : rel_ok r0 ->
  (forall r hb st, ilist r0 r hb [(st, [])] -> Q hb r) -> runs create_with_fsm r0 Q.
Proof.
  intros Hr HQ. unfold create_with_fsm, create_without_start_page. apply runs_bind. eapply runs_new_buffer; [done|]. intros hb r1 Hr1 Hn1 Hp1.
  apply runs_bind. eapply runs_new_buffer; [done|]. intros st r2 Hr2 Hn2 Hp2.
  assert (hb <> st) as Hne. { intros ->. by rewrite Hp1, lookup_insert_eq in Hn2. }
  apply runs_bind. eapply runs_put_page; [done|by rewrite Hp2, lookup_insert_ne, Hp1, lookup_insert_eq|]. intros r3 Hr3 Hp3.
  assert (pages r3 !! st = Some init_page) as Hst by (by rewrite Hp3, lookup_insert_ne, Hp2, lookup_insert_eq).
  apply runs_ret. eapply (HQ r3 hb st). split; try done.
  - exists st, 0. by rewrite Hp3, lookup_insert_eq.
  - split; [by eapply rel_ok_valid|]. by split.
  - apply NoDup_cons. split; [cbn; set_solver|apply NoDup_singleton].
  - constructor; [apply packed_nil|constructor].
  - cbn. intros x Hx. assert (x = hb \/ x = st) as [->| ->] by set_solver; [done|].
    rewrite Hp1 in Hn2. by apply lookup_insert_None in Hn2 as [? _].
  - cbn. intros x Hx. rewrite Hp3, Hp2, Hp1, !lookup_insert_ne; [done|set_solver..].
Qed.

Lemma freeable_loop_spec fuel r ch (Q : Datatypes.list Z -> rel -> Prop) : iseg (pages r) ch InvalidBlockNumber ->
  (length ch < fuel)%nat -> Q ch.*1 r -> runs (freeable_blocks_without_header fuel (link ch InvalidBlockNumber)) r Q.
Proof.
  revert ch Q. induction fuel as [|fuel IH]; intros ch Q Hs Hf HQ; [lia|]. cbn [freeable_blocks_without_header].
  rewrite (iseg_valid _ _ Hs). destruct ch as [|[b ts] ch]; [by apply runs_ret|]. destruct Hs as (_ & Hp & Hs). cbn [link].
  apply runs_bind. eapply runs_get_buffer; [done|]. cbn [length] in *. rewrite lnext_mk. apply runs_bind. apply (IH ch); [done|lia|].
  by apply runs_ret.
Qed.

Lemma freeable_blocks_items_spec r0 r hb ch (Q : Datatypes.list Z -> rel -> Prop) : ilist r0 r hb ch ->
  Q (hb :: ch.*1) r -> runs (freeable_blocks hb) r Q.
Proof.
  intros Hl HQ. unfold freeable_blocks. apply runs_bind. eapply runs_start; [done|]. apply runs_bind, runs_gets, runs_bind.
  pose proof (ilist_length _ _ _ _ Hl). apply freeable_loop_spec; [apply (il_seg _ _ _ _ Hl)|lia|]. by apply runs_ret.
Qed.

Lemma ilist_blocks r0 r hb ch x : ilist r0 r hb ch -> x ∈ hb :: ch.*1 -> is_Some (pages r !! x).
Proof.
  intros Hl [->|Hx]%elem_of_cons.
  - destruct (il_head _ _ _ _ Hl) as (l & bl & ->). by eexists.
  - by eapply (iseg_in _ _ _ _ (il_seg _ _ _ _ Hl)).
Qed.

(** ** Atomic changes *)

(** [w]: the pages copied so far, behind the header [cb]; the last copy still points to the
    rest of the original. *)
Record cloning r0 r (cb : Z) w rest : Prop := {
  cl_rel : rel_ok r;
  cl_head : pages r !! cb = Some (match w with [] => init_page | _ => Header (link w 0) 0 0 end);
  cl_seg : iseg (pages r) w (link rest InvalidBlockNumber);
  cl_rest : iseg (pages r0) rest InvalidBlockNumber;
  cl_nodup : NoDup (cb :: w.*1);
  cl_packed : Forall (fun e => packed e.2) (w ++ rest);
  cl_fresh : forall x, x ∈ cb :: w.*1 -> pages r0 !! x = None;
  cl_frame : framed r0 r (cb :: w.*1);
}.

(** One more page: [pb] is the block whose link is set to the new one. *)
Lemma cloning_step r0 r r' cb w b ts rest nb p :
  cloning r0 r cb w ((b, ts) :: rest) -> rel_ok r' -> pages r !! nb = None ->
  p = match last w with Some (_, tsp) => mk_items (enc tsp) nb | None => Header nb 0 0 end ->
  pages r' = <[nb := mk_items (enc ts) (link rest InvalidBlockNumber)]>
    (<[default cb (fst <$> last w) := p]> (<[nb := init_page]> (pages r))) ->
  cloning r0 r' cb (w ++ [(nb, ts)]) rest.
Proof.
  intros [Hr Hh Hs Hrest Hnd Hpk Hfresh Hfr] Hr' Hnb Ep Hpg.
  assert (nb ∉ cb :: w.*1) as Hnew.
  { intros [->|Hx]%elem_of_cons; [congruence|]. apply (iseg_in _ _ _ _ Hs) in Hx as [[? ?] _]. congruence. }
  remember (default cb (fst <$> last w)) as pb eqn:Epb.
  assert (pb ∈ cb :: w.*1) as Hpb.
  { subst pb. destruct (last w) as [e|] eqn:El; [|left]. right. apply last_Some_elem_of in El. cbn. by apply (list_elem_of_fmap_2 fst). }
  assert (forall x, x <> nb -> x <> pb -> pages r' !! x = pages r !! x) as Hx by (intros; by rewrite Hpg, !lookup_insert_ne).
  assert (pages r' !! pb = Some p) as Hpbp by (rewrite Hpg, lookup_insert_ne by set_solver; by rewrite lookup_insert_eq).
  assert (pages r' !! nb = Some (mk_items (enc ts) (link rest InvalidBlockNumber))) as Hnbp by (by rewrite Hpg, lookup_insert_eq).
  destruct (rel_ok_valid _ _ _ Hr' Hnbp) as [Hnv _]. destruct Hrest as (_ & _ & Hrest).
  assert ((w ++ [(nb, ts)]).*1 = w.*1 ++ [nb]) as Ew by by rewrite fmap_app.
  apply NoDup_cons in Hnd as [Hcb Hnd].
  split; rewrite ?Ew; try done.
  - destruct w as [|e w0 _] using rev_ind.
    + cbn in Epb, Ep |- *. by rewrite <- Epb, Hpbp, Ep.
    + rewrite last_snoc in Epb. destruct e as [pb' tsp]. cbn in Epb. subst pb.
      assert (cb <> nb) by (intros ->; apply Hnew; left).
      assert (cb <> pb') by (intros ->; apply Hcb; rewrite fmap_app; apply elem_of_app; right; left).
      rewrite Hx by done. rewrite Hh. destruct w0; [done|]. done.
  - apply iseg_app. split; [|by split].
    destruct w as [|[pb' tsp] w0 _] using rev_ind; [done|]. rewrite last_snoc in Epb, Ep. cbn in Epb, Ep. subst pb. apply iseg_app in Hs as [Hw (Hv & _)].
    apply iseg_app. split; [|split; [done|]; split; [|done]]; [|by rewrite Hpbp, Ep].
    eapply iseg_frame; [exact Hw|]. intros x Hin. apply Hx.
    + intros ->. apply Hnew. right. rewrite fmap_app. apply elem_of_app. by left.
    + intros ->. rewrite fmap_app in Hnd. apply NoDup_app in Hnd as (_ & Hd & _). apply (Hd pb' Hin). left.
  - apply (NoDup_app (cb :: w.*1) [nb]). split; [by apply NoDup_cons|]. split; [set_solver|apply NoDup_singleton].
  - rewrite <- app_assoc. apply Forall_app in Hpk as [Hpk1 [Hpk2 Hpk3]%Forall_cons]. apply Forall_app. split; [done|]. by constructor.
  - intros x Hin. destruct (decide (x = nb)) as [->|]; [by rewrite <- (Hfr nb Hnew)|]. apply Hfresh. set_solver.
  - intros x Hin. rewrite Hx by set_solver. apply Hfr. set_solver.
Qed.

Lemma clone_loop_spec fuel r0 r cb w rest (Q : unit -> rel -> Prop) : cloning r0 r cb w rest ->
  (length rest < fuel)%nat ->
  (forall r' w', cloning r0 r' cb w' [] -> w'.*2 = w.*2 ++ rest.*2 -> Q tt r') ->
  runs (clone_loop fuel cb (link rest InvalidBlockNumber) (fst <$> last w)) r Q.
Proof.
  revert r w rest Q. induction fuel as [|fuel IH]; intros r w rest Q Hc Hf HQ; [lia|]. cbn [clone_loop].
  rewrite (iseg_valid _ _ (cl_rest _ _ _ _ _ Hc)). destruct rest as [|[b ts] rest].
  { apply runs_ret. eapply HQ; [done|by rewrite app_nil_r]. }
  destruct (cl_rest _ _ _ _ _ Hc) as (Hbv & Hb & _). cbn [link length] in *.
  assert (pages r !! b = Some (mk_items (enc ts) (link rest InvalidBlockNumber))) as Hb'.
  { rewrite (cl_frame _ _ _ _ _ Hc); [done|]. intros Hin. apply (cl_fresh _ _ _ _ _ Hc) in Hin. congruence. }
  apply runs_bind. eapply runs_get_items; [done|]. cbn [fst snd].
  apply runs_bind. eapply runs_new_buffer; [apply (cl_rel _ _ _ _ _ Hc)|]. intros nb r1 Hr1 Hn1 Hp1.
  assert (packed ts) as Hpk by (by pose proof (cl_packed _ _ _ _ _ Hc) as [_ [? _]%Forall_cons]%Forall_app).
  rewrite (copy_enc ts [] Hpk : copy_items (enc ts) [] = Some (enc ts)). cbn [unwrap].
  assert (forall r2, rel_ok r2 ->
    pages r2 = <[default cb (fst <$> last w) := match last w with Some (_, tsp) => mk_items (enc tsp) nb | None => Header nb 0 0 end]>
      (pages r1) -> runs (mret (enc ts) ≫= (fun new => put_page nb (mk_items new (link rest InvalidBlockNumber));;
        clone_loop fuel cb (link rest InvalidBlockNumber) (Some nb))) r2 Q) as Hrest.
  { intros r2 Hr2 Hp2. apply runs_bind, runs_ret, runs_bind.
    assert (is_Some (pages r2 !! nb)) as [q Hq].
    { rewrite Hp2, Hp1, lookup_insert. case_decide; [by eexists|]. rewrite lookup_insert_eq. by eexists. }
    eapply runs_put_page; [done|exact Hq|]. intros r3 Hr3 Hp3. rewrite Hp2, Hp1 in Hp3. pose proof (cloning_step _ _ _ _ _ _ _ _ _ _ Hc Hr3 Hn1 eq_refl Hp3) as Hc3.
    pose proof (IH r3 (w ++ [(nb, ts)]) rest Q Hc3) as IH3. rewrite last_snoc in IH3. apply IH3; [lia|].
    intros r' w' Hc' E. eapply HQ; [done|]. rewrite E, fmap_app, <- app_assoc. done. }
  apply runs_bind. destruct w as [|[pb tsp] w0 _] using rev_ind.
  - cbn [last fmap option_fmap option_map]. eapply runs_put_page; [done| |].
    { rewrite Hp1, lookup_insert_ne by (intros ->; pose proof (cl_head _ _ _ _ _ Hc); congruence). apply (cl_head _ _ _ _ _ Hc). }
    intros r2 Hr2 Hp2. by apply Hrest.
  - rewrite last_snoc in *. cbn [fmap option_fmap option_map fst].
    pose proof (cl_seg _ _ _ _ _ Hc) as [_ (_ & Hpb & _)]%iseg_app.
    assert (pages r1 !! pb = Some (mk_items (enc tsp) b)) as Hpb1 by (rewrite Hp1, lookup_insert_ne by congruence; done).
    apply runs_bind. eapply runs_get_buffer; [done|]. rewrite set_next_mk. eapply runs_put_page; [done|done|].
    intros r2 Hr2 Hp2. by apply Hrest.
Qed.

(** The copy is a list of its own, over the relation the original lives in. *)
Lemma atomically_spec r0 r hb ch (Q : Z -> rel -> Prop) : ilist r0 r hb ch ->
  (forall r' cb ch', ilist r r' cb ch' -> ch'.*2 = ch.*2 -> Q cb r') ->
  runs (atomically hb) r Q.
Proof.
  intros Hl HQ. unfold atomically. apply runs_bind. eapply runs_list_header; [done|]. intros l bl. cbn [fst snd].
  unfold create_without_start_page. apply runs_bind. eapply runs_new_buffer; [apply (il_rel _ _ _ _ Hl)|]. intros cb r1 Hr1 Hn1 Hp1.
  rewrite (iseg_valid _ _ (il_seg _ _ _ _ Hl)). destruct ch as [|e ch0] eqn:Ech; [by destruct (il_ne _ _ _ _ Hl)|]. rewrite <- Ech in *.
  apply runs_bind, runs_gets, runs_bind. eapply (clone_loop_spec _ r r1 cb [] ch).
  - split; try done.
    + by rewrite Hp1, lookup_insert_eq.
    + apply (il_seg _ _ _ _ Hl).
    + apply NoDup_singleton.
    + apply (il_packed _ _ _ _ Hl).
    + by intros x ->%list_elem_of_singleton.
    + intros x Hx. rewrite Hp1, lookup_insert_ne by set_solver. done.
  - pose proof (ilist_length _ _ _ _ Hl). rewrite Hp1, map_size_insert_None by done. lia.
  - intros r' w' [Hr Hh Hs _ Hnd Hpk Hf Hfr] E. apply runs_ret. apply (HQ r' cb w'); [|done]. rewrite app_nil_r in Hpk.
    destruct w' as [|[b1 ts1] w2]; [by rewrite Ech in E|]. split; try done. by exists 0, 0.
Qed.

(** Committing a changed copy. *)
Lemma commit_spec xid r0 r r1 hb ch cb ch' (Q : unit -> rel -> Prop) : normal_xid xid -> ilist r0 r hb ch -> ilist r r1 cb ch' ->
  (forall r', ilist r0 r' hb ch' -> Q tt r') -> runs (commit xid hb cb) r1 Q.
Proof.
  intros Hxid Hl Hc HQ. unfold commit. apply runs_bind. destruct (il_head _ _ _ _ Hc) as (cl & cbl & Hch). eapply runs_get_header; [done|].
  assert (forall x, x ∈ hb :: ch.*1 -> x ∉ cb :: ch'.*1) as Hdis.
  { intros x Hx Hx'. apply (il_fresh _ _ _ _ Hc) in Hx'. apply (ilist_blocks _ _ _ _ _ Hl) in Hx as [? ?]. congruence. }
  assert (forall x, x ∈ hb :: ch.*1 -> pages r1 !! x = pages r !! x) as Hsame by (intros x Hx; by apply (il_frame _ _ _ _ Hc), Hdis).
  destruct (il_head _ _ _ _ Hl) as (l & bl & Hh). assert (pages r1 !! hb = Some (Header (link ch InvalidBlockNumber) l bl)) as Hh1.
  { rewrite Hsame; [done|left]. }
  apply runs_bind. eapply runs_get_header; [done|]. cbn [fst snd]. apply runs_bind.
  eapply runs_put_page; [apply (il_rel _ _ _ _ Hc)|done|]. intros r2 Hr2 Hp2. apply runs_bind, runs_gets, runs_bind.
  destruct (ilist_nodup _ _ _ _ Hl) as [Hhb Hnd]. destruct (ilist_nodup _ _ _ _ Hc) as [Hcb Hnd'].
  assert (iseg (pages r2) ch InvalidBlockNumber) as Hs2.
  { eapply iseg_frame; [apply (il_seg _ _ _ _ Hl)|]. intros x Hx. rewrite Hp2, lookup_insert_ne by (by intros ->).
    apply Hsame. by right. }
  apply freeable_loop_spec; [done|pose proof (iseg_length _ _ _ Hs2 Hnd); lia|].
  assert (hb <> cb /\ hb ∉ ch'.*1) as [Hhc Hhc'].
  { pose proof (Hdis hb ltac:(left)) as Hd. set_solver. }
  eapply runs_release; [done|done| | |].
  - apply NoDup_app. split; [done|]. split; [|apply NoDup_singleton]. intros x Hx ->%list_elem_of_singleton.
    apply (Hdis cb); [by right|left].
  - intros x [Hx|Hx]%elem_of_app; [by eapply iseg_in|]. apply list_elem_of_singleton in Hx as ->.
    rewrite Hp2, lookup_insert_ne, Hch by done. by eexists.
  - intros r3 Hr3 Hp3. apply HQ. assert (forall x, pages r3 !! x = if decide (x ∈ ch.*1 ++ [cb]) then None else
      if decide (x = hb) then Some (Header (link ch' InvalidBlockNumber) cl cbl) else pages r1 !! x) as Hx3.
    { intros x. rewrite Hp3, foldr_delete_lookup, Hp2. case_decide; [done|]. rewrite lookup_insert. repeat case_decide; congruence. }
    split; try done.
    + exists cl, cbl. rewrite Hx3, decide_False, decide_True; [done|done|]. set_solver.
    + apply (il_ne _ _ _ _ Hc).
    + eapply iseg_frame; [apply (il_seg _ _ _ _ Hc)|]. intros x Hx. rewrite Hx3, decide_False, decide_False; [done|set_solver|].
      intros [Hin|Hin]%elem_of_app; [by apply (Hdis x); [right|right]|set_solver].
    + by apply NoDup_cons.
    + apply (il_packed _ _ _ _ Hc).
    + intros x [->|Hx]%elem_of_cons; [apply (il_fresh _ _ _ _ Hl); left|].
      destruct (decide (x ∈ hb :: ch.*1)) as [Hin|Hno]; [by apply (il_fresh _ _ _ _ Hl)|].
      rewrite <- (il_frame _ _ _ _ Hl x Hno). apply (il_fresh _ _ _ _ Hc). by right.
    + intros x Hx. rewrite Hx3. case_decide as Hd.
      * symmetry. apply elem_of_app in Hd as [Hd|Hd]; [apply (il_fresh _ _ _ _ Hl); by right|].
        apply list_elem_of_singleton in Hd as ->. rewrite <- (il_frame _ _ _ _ Hl cb) by (intros Hin; apply (Hdis cb); [done|left]).
        apply (il_fresh _ _ _ _ Hc). left.
      * rewrite decide_False by set_solver. rewrite (il_frame _ _ _ _ Hc) by set_solver. apply (il_frame _ _ _ _ Hl). set_solver.
Qed.

(** Changes elsewhere do not touch a list: it can be seen as created on the relation without
    its blocks. *)
Lemma ilist_rebase r0 r r1 hb ch : ilist r0 r hb ch -> rel_ok r1 ->
  (forall x, x ∈ hb :: ch.*1 -> pages r1 !! x = pages r !! x) -> ilist (without r1 (hb :: ch.*1)) r1 hb ch.
Proof.
  intros [Hr (l & bl & Hh) Hne Hs Hnd Hp Hf Hfr] Hr1 Hx. split; try done.
  - exists l, bl. rewrite Hx; [done|left].
  - eapply iseg_frame; [done|]. intros x Hin. apply Hx. by right.
  - intros x Hin. cbn [without pages]. by rewrite foldr_delete_lookup, decide_True.
  - intros x Hin. cbn [without pages]. by rewrite foldr_delete_lookup, decide_False.
Qed.

(** ** Sequences of operations *)

Inductive iop :=
| IAdd (ts : Datatypes.list T)
| IRemove (cmp : T -> bool)
| IUpdate (cmp : T -> bool) (update : T -> T)
| IRetain (xid : Z) (f : T -> bool).

Inductive lop :=
| Plain (o : iop)
| Atomically (xid : Z) (os : Datatypes.list iop).

(** Items fit on a page; updates keep an item's size; transaction ids are normal. *)
Definition iop_ok (o : iop) : Prop :=
  match o with
  | IAdd ts => Forall (fun t => storable (into_item t)) ts
  | IUpdate _ update => forall t, length (into_item (update t)) = length (into_item t)
  | IRetain xid _ => normal_xid xid
  | IRemove _ => True
  end.
Definition lop_ok (o : lop) : Prop := match o with Plain o => iop_ok o | Atomically xid os => normal_xid xid /\ Forall iop_ok os end.

(** The operation, and the entries it hands back. *)
Definition run_iop (o : iop) (hb : Z) : M rel unit (Datatypes.list T) :=
  match o with
  | IAdd ts => add_items ts hb;; mret []
  | IRemove cmp => x ← remove_item cmp hb; mret (option_list x)
  | IUpdate cmp update => _ ← update_item cmp update hb; mret []
  | IRetain xid f => retain xid f hb
  end.

Fixpoint run_iops (os : Datatypes.list iop) (hb : Z) : M rel unit (Datatypes.list (Datatypes.list T)) :=
  match os with
  | [] => mret []
  | o :: os => x ← run_iop o hb; xs ← run_iops os hb; mret (x :: xs)
  end.

Definition run_lop (o : lop) (hb : Z) : M rel unit (Datatypes.list (Datatypes.list T)) :=
  match o with
  | Plain o => x ← run_iop o hb; mret [x]
  | Atomically xid os => c ← atomically hb; xs ← run_iops os c; commit xid hb c;; mret xs
  end.

Fixpoint run_lops (os : Datatypes.list lop) (hb : Z) : M rel unit (Datatypes.list (Datatypes.list (Datatypes.list T))) :=
  match os with
  | [] => mret []
  | o :: os => x ← run_lop o hb; xs ← run_lops os hb; mret (x :: xs)
  end.

(** *** What the operations mean: the items before, the entries handed back, the items after *)

Inductive istep : iop -> Datatypes.list T -> Datatypes.list T -> Datatypes.list T -> Prop :=
| step_add ts l l' : l' ≡ₚ l ++ ts -> istep (IAdd ts) l [] l'
| step_remove cmp pre t post : cmp t = true -> Forall (fun t => cmp t = false) pre ->
    istep (IRemove cmp) (pre ++ t :: post) [t] (pre ++ post)
| step_remove_none cmp l : Forall (fun t => cmp t = false) l -> istep (IRemove cmp) l [] l
| step_update cmp update pre t post : cmp t = true -> Forall (fun t => cmp t = false) pre ->
    istep (IUpdate cmp update) (pre ++ t :: post) [] (pre ++ update t :: post)
| step_update_none cmp update l : Forall (fun t => cmp t = false) l -> istep (IUpdate cmp update) l [] l
| step_retain xid f l : istep (IRetain xid f) l (filter (fun t => f t = true) l) (filter (fun t => f t = false) l).

Inductive isteps : Datatypes.list iop -> Datatypes.list T -> Datatypes.list (Datatypes.list T) -> Datatypes.list T -> Prop :=
| isteps_nil l : isteps [] l [] l
| isteps_cons o os l x l' xs l'' : istep o l x l' -> isteps os l' xs l'' -> isteps (o :: os) l (x :: xs) l''.

Inductive lsteps : Datatypes.list lop -> Datatypes.list T -> Datatypes.list (Datatypes.list (Datatypes.list T)) -> Datatypes.list T -> Prop :=
| lsteps_nil l : lsteps [] l [] l
| lsteps_plain o os l x l' xs l'' : istep o l x l' -> lsteps os l' xs l'' -> lsteps (Plain o :: os) l ([x] :: xs) l''
| lsteps_atomic xid ios os l x l' xs l'' : isteps ios l x l' -> lsteps os l' xs l'' ->
    lsteps (Atomically xid ios :: os) l (x :: xs) l''.

Lemma run_iop_spec o r0 r hb ch (Q : Datatypes.list T -> rel -> Prop) : ilist r0 r hb ch -> iop_ok o ->
  (forall r' ch' x, ilist r0 r' hb ch' -> istep o (items ch) x (items ch') -> Q x r') -> runs (run_iop o hb) r Q.
Proof.
  intros Hl Ho HQ. destruct o as [ts|cmp|cmp update|xid f]; cbn [run_iop iop_ok] in *.
  - apply runs_bind. eapply add_items_spec; [done|done|]. intros r' ch' Hl' Hap. apply runs_ret. eapply HQ; [done|].
    constructor. by apply appends_perm.
  - apply runs_bind. eapply remove_item_spec; [done| |].
    + intros Hall. apply runs_ret. eapply HQ; [done|]. by constructor.
    + intros r' ch' pre t post Hl' E E' Ht Hpre. apply runs_ret. eapply HQ; [done|]. rewrite E, E'. by constructor.
  - apply runs_bind. eapply update_item_spec; [done|done| |].
    + intros Hall. apply runs_ret. eapply HQ; [done|]. by constructor.
    + intros r' ch' pre t post Hl' E E' Ht Hpre. apply runs_ret. eapply HQ; [done|]. rewrite E, E'. by constructor.
  - eapply retain_spec; [done|done|]. intros r' ch' Hl' E. eapply HQ; [done|]. rewrite E. constructor.
Qed.

Lemma run_iops_spec os r0 r hb ch (Q : Datatypes.list (Datatypes.list T) -> rel -> Prop) : ilist r0 r hb ch -> Forall iop_ok os ->
  (forall r' ch' xs, ilist r0 r' hb ch' -> isteps os (items ch) xs (items ch') -> Q xs r') -> runs (run_iops os hb) r Q.
Proof.
  revert r ch Q. induction os as [|o os IH]; intros r ch Q Hl Hos HQ; cbn [run_iops].
  { apply runs_ret. eapply HQ; [done|constructor]. }
  apply Forall_cons in Hos as [Ho Hos]. apply runs_bind. eapply run_iop_spec; [done|done|]. intros r1 ch1 x Hl1 Hx.
  apply runs_bind. eapply IH; [done|done|]. intros r' ch' xs Hl' Hxs. apply runs_ret. eapply HQ; [done|]. by econstructor.
Qed.

Lemma items_same ch ch' : ch'.*2 = ch.*2 -> items ch' = items ch.
Proof. unfold items. by intros ->. Qed.

Lemma run_lops_spec os r0 r hb ch (Q : Datatypes.list (Datatypes.list (Datatypes.list T)) -> rel -> Prop) :
  ilist r0 r hb ch -> Forall lop_ok os ->
  (forall r' ch' xs, ilist r0 r' hb ch' -> lsteps os (items ch) xs (items ch') -> Q xs r') -> runs (run_lops os hb) r Q.
Proof.
  revert r ch Q. induction os as [|o os IH]; intros r ch Q Hl Hos HQ; cbn [run_lops].
  { apply runs_ret. eapply HQ; [done|constructor]. }
  apply Forall_cons in Hos as [Ho Hos]. apply runs_bind. destruct o as [o|xid ios]; cbn [run_lop lop_ok] in *.
  - apply runs_bind. eapply run_iop_spec; [done|done|]. intros r1 ch1 x Hl1 Hx. apply runs_ret, runs_bind.
    eapply IH; [done|done|]. intros r' ch' xs Hl' Hxs. apply runs_ret. eapply HQ; [done|]. by econstructor.
  - destruct Ho as [Hxid Ho]. apply runs_bind. eapply atomically_spec; [done|]. intros r1 cb cch Hc Ec. apply runs_bind.
    eapply run_iops_spec; [done|done|]. intros r2 cch' x Hc' Hx. apply runs_bind. eapply commit_spec; [done|done|done|].
    intros r3 Hl3. apply runs_ret, runs_bind. eapply IH; [done|done|]. intros r' ch' xs Hl' Hxs. apply runs_ret.
    eapply HQ; [done|]. rewrite (items_same _ _ Ec) in Hx. by econstructor.
Qed.

Lemma ilist_freed r0 r r' hb ch : ilist r0 r hb ch -> pages r' = foldr delete (pages r) (hb :: ch.*1) -> pages r' = pages r0.
Proof.
  intros Hl Hpg. apply map_eq. intros x. rewrite Hpg, foldr_delete_lookup. case_decide as Hin.
  - symmetry. by apply (il_fresh _ _ _ _ Hl).
  - by apply (il_frame _ _ _ _ Hl).
Qed.

(** C21: Whatever additions, removals, updates, compactions and atomic groups of them a list
    has gone through, it holds the items those operations leave, and they handed back the
    entries they removed: the first match of a removal, exactly the recyclable entries of a
    garbage collection. *)
Theorem list_refines r0 os : rel_ok r0 -> Forall lop_ok os ->
  runs (hb ← create_with_fsm; xs ← run_lops os hb; l ← LinkedItems.list hb; e ← is_empty (T := T) hb; mret (xs, l, e)) r0
    (fun x _ => lsteps os [] x.1.1 x.1.2 /\ (x.2 = true <-> x.1.2 = [])).
Proof.
  intros Hr Hos. apply runs_bind, create_spec; [done|]. intros r hb st Hl. apply runs_bind.
  eapply run_lops_spec; [done|done|]. intros r' ch' xs Hl' Hxs. apply runs_bind. eapply list_spec; [done|].
  apply runs_bind. eapply is_empty_spec; [done|]. apply runs_ret. split; [done|]. cbn [fst snd]. by destruct (items ch').
Qed.

(** Through any such history no page is lost: the blocks the list reports as freeable
    at the end are exactly those it still occupies, and once they are given back the
    relation's pages are what they were before the list was created and every other block
    of the relation that is not in use elsewhere is again the manager's. *)
Theorem list_blocks_conserved r0 os xid : rel_ok r0 -> Forall lop_ok os -> normal_xid xid ->
  runs (hb ← create_with_fsm; _ ← run_lops os hb; bs ← freeable_blocks hb; release xid bs) r0
    (fun _ r => pages r = pages r0 /\ owned (fsm r) = block_range 1 (nblocks (fsm r)) ∖ (dom (pages r0) ∪ elsewhere)).
Proof.
  intros Hr Hos Hxid. apply runs_bind, create_spec; [done|]. intros r hb st Hl. apply runs_bind.
  eapply run_lops_spec; [done|done|]. intros r' ch' xs Hl' Hxs. apply runs_bind. eapply freeable_blocks_items_spec; [done|].
  eapply runs_release; [apply (il_rel _ _ _ _ Hl')|done|apply (il_nodup _ _ _ _ Hl')|intros x; by apply ilist_blocks with (1 := Hl')|].
  intros r2 Hr2 Hpg%(ilist_freed r0 _ _ _ _ Hl'). split; [done|]. rewrite <- Hpg. by apply rel_ok_owned.
Qed.

(** C23: While a change is prepared on a copy of the list, readers of the list see it as it
    was; after the commit they see the changed copy, all of it. *)
Theorem atomic_isolation r0 os1 os2 xid : rel_ok r0 -> Forall lop_ok os1 -> Forall iop_ok os2 -> normal_xid xid ->
  runs (hb ← create_with_fsm; _ ← run_lops os1 hb; l1 ← LinkedItems.list hb;
        c ← atomically hb; xs ← run_iops os2 c; l2 ← LinkedItems.list hb; l3 ← LinkedItems.list c;
        commit xid hb c;; l4 ← LinkedItems.list hb; mret (xs, [l1; l2; l3; l4])) r0
    (fun x _ => exists l l', x.2 = [l; l; l'; l'] /\ isteps os2 l x.1 l').
Proof.
  intros Hr Hos1 Hos2 Hxid. apply runs_bind, create_spec; [done|]. intros r hb st Hl. apply runs_bind.
  eapply run_lops_spec; [done|done|]. intros r1 ch1 xs1 Hl1 _. apply runs_bind. eapply list_spec; [done|].
  apply runs_bind. eapply atomically_spec; [done|]. intros r2 cb cch Hc Ec. apply runs_bind.
  eapply run_iops_spec; [done|done|]. intros r3 cch' xs Hc' Hxs. rewrite (items_same _ _ Ec) in Hxs.
  assert (ilist (without r3 (hb :: ch1.*1)) r3 hb ch1) as Hl3.
  { eapply ilist_rebase; [exact Hl1|apply (il_rel _ _ _ _ Hc')|]. intros x Hx. apply (il_frame _ _ _ _ Hc'). intros Hx'. apply (il_fresh _ _ _ _ Hc') in Hx'.
    apply (ilist_blocks _ _ _ _ _ Hl1) in Hx as [? ?]. congruence. }
  apply runs_bind. eapply list_spec; [done|]. apply runs_bind. eapply list_spec; [done|]. apply runs_bind.
  eapply commit_spec; [done|exact Hl1|exact Hc'|]. intros r4 Hl4. apply runs_bind. eapply list_spec; [exact Hl4|]. apply runs_ret.
  exists (items ch1), (items cch'). split; [done|]. exact Hxs.
Qed.

(** Additions one after the other. *)
Fixpoint add_parts (parts : Datatypes.list (Datatypes.list T)) (hb : Z) : M rel unit unit :=
  match parts with
  | [] => mret tt
  | ts :: parts => add_items ts hb;; add_parts parts hb
  end.

Lemma add_parts_spec parts r0 r hb ch (Q : unit -> rel -> Prop) :
  (forall t1 t2 : T, length (into_item t1) = length (into_item t2)) -> ilist r0 r hb ch -> log_ok ch ->
  Forall (fun ts => Forall (fun t => storable (into_item t)) ts) parts ->
  (forall r' ch', ilist r0 r' hb ch' -> items ch' = items ch ++ concat parts -> Q tt r') ->
  runs (add_parts parts hb) r Q.
Proof.
  intros Hsz. revert r ch. induction parts as [|ts parts IH]; intros r ch Hl Hlog Hp HQ; cbn [add_parts concat].
  { apply runs_ret. eapply HQ; [done|by rewrite app_nil_r]. }
  apply Forall_cons in Hp as [Hts Hp]. apply runs_bind. eapply add_items_spec; [done|done|]. intros r1 ch1 Hl1 Hap.
  destruct (appends_log _ _ _ Hsz Hlog Hap) as [Hlog1 E1]. eapply IH; [done|done|done|]. intros r' ch' Hl' E'.
  eapply HQ; [done|]. by rewrite E', E1, <- app_assoc.
Qed.

(** A list whose items all have the same size and that is only added to, such as the
    log of a mutable segment, lists them in the order they were added, over any number of
    calls and pages. *)
Theorem log_keeps_order r0 parts : rel_ok r0 -> (forall t1 t2 : T, length (into_item t1) = length (into_item t2)) ->
  Forall (fun ts => Forall (fun t => storable (into_item t)) ts) parts ->
  runs (hb ← create_with_fsm; add_parts parts hb;; LinkedItems.list hb) r0 (fun l _ => l = concat parts).
Proof.
  intros Hr Hsz Hp. apply runs_bind, create_spec; [done|]. intros r hb st Hl. apply runs_bind.
  eapply add_parts_spec; [done|done| |done|].
  - exists [], st, []. split; [done|constructor].
  - intros r' ch' Hl' E. by eapply list_spec.
Qed.

End lists.

(** ** Instances *)

Definition z_from_item (l : Datatypes.list Z) : Z := match l with [z] => z | _ => 0 end.

#[global] Program Instance Z_ItemCodec : ItemCodec Z := {| into_item z := [z]; from_item := z_from_item |}.
Next Obligation. done. Qed.
Next Obligation. done. Qed.

(** A page of eight bytes, one of them taken by each line pointer. *)
Definition used_space (l : Datatypes.list (Datatypes.list Z)) : nat := foldr (fun x n => S (length x) + n)%nat O l.

#[global] Program Instance small_ItemSpace : ItemSpace := {|
  fits l x := (used_space l + S (length x) <=? 8)%nat;
  storable x := (length x < 8)%nat;
|}.
Next Obligation. intros x Hx. cbv beta in Hx. apply Nat.leb_le. change (S (length x) <= 8)%nat. lia. Qed.
Next Obligation.
  intros l l' x x' Hl Hx. cbv beta. assert (used_space l = used_space l') as ->; [|by rewrite Hx].
  revert l' Hl. induction l as [|y l IH]; intros [|y' l'] Hl; try done. injection Hl as Hy Hl. simpl. rewrite (IH l'); [lia|done].
Qed.
Next Obligation.
  intros l l' x Hs. cbv beta. rewrite !Nat.leb_le. assert (used_space l' <= used_space l)%nat; [|lia]. induction Hs; simpl; lia.
Qed.

Definition sample_ops : Datatypes.list lop :=
  [Plain (IAdd [1; 2; 3; 4; 5; 6]); Plain (IRemove (fun z => z =? 3)); Plain (IUpdate (fun z => z =? 5) (fun z => z + 10));
   Atomically 7 [IRetain 7 (fun z => z <? 3); IAdd [8; 9]]].

Lemma sample_ops_ok : Forall lop_ok sample_ops.
Proof. repeat constructor; cbn; unfold normal_xid, FirstNormalTransactionId; lia. Qed.

#[local] Existing Instance small_elsewhere.

Lemma list_refines_witness :
  runs (hb ← create_with_fsm; xs ← run_lops sample_ops hb; l ← LinkedItems.list hb; e ← is_empty (T := Z) hb; mret (xs, l, e)) small_rel
    (fun x _ => lsteps sample_ops [] x.1.1 x.1.2).
Proof.
  eapply runs_mono; [apply (list_refines small_rel sample_ops)|].
  - exact small_rel_ok.
  - exact sample_ops_ok.
  - intros x r [Hx _]. exact Hx.
Defined.

Lemma list_blocks_conserved_witness :
  runs (hb ← create_with_fsm; _ ← run_lops sample_ops hb; bs ← freeable_blocks hb; release 9 bs) small_rel
    (fun _ r => pages r = pages small_rel).
Proof.
  eapply runs_mono; [apply (list_blocks_conserved small_rel sample_ops 9)|].
  - exact small_rel_ok.
  - exact sample_ops_ok.
  - unfold normal_xid, FirstNormalTransactionId. lia.
  - intros x r [Hx _]. exact Hx.
Defined.

Lemma atomic_isolation_witness :
  runs (hb ← create_with_fsm; _ ← run_lops sample_ops hb; l1 ← LinkedItems.list hb;
        c ← atomically hb; xs ← run_iops [IRemove (fun z => z =? 8)] c; l2 ← LinkedItems.list hb; l3 ← LinkedItems.list c;
        commit 9 hb c;; l4 ← LinkedItems.list hb; mret (xs, [l1; l2; l3; l4])) small_rel
    (fun x _ => exists l l', x.2 = [l; l; l'; l'] /\ isteps [IRemove (fun z => z =? 8)] l x.1 l').
Proof.
  apply (atomic_isolation small_rel sample_ops [IRemove (fun z => z =? 8)] 9).
  - exact small_rel_ok.
  - exact sample_ops_ok.
  - repeat constructor.
  - unfold normal_xid, FirstNormalTransactionId. lia.
Defined.

Lemma log_keeps_order_witness :
  runs (hb ← create_with_fsm; add_parts [[1; 2; 3]; [4; 5]; [6; 7; 8; 9]] hb;; LinkedItems.list hb) small_rel
    (fun l _ => l = [1; 2; 3; 4; 5; 6; 7; 8; 9]).
Proof.
  apply (log_keeps_order small_rel [[1; 2; 3]; [4; 5]; [6; 7; 8; 9]]).
  - exact small_rel_ok.
  - reflexivity.
  - repeat constructor; simpl; lia.
Defined.

(** The sample history, run. *)
Example sample_run :
  (hb ← create_with_fsm; xs ← run_lops sample_ops hb; l ← LinkedItems.list hb; mret (xs, l)) small_rel =
  (Ok ([[[]]; [[3]]; [[]]; [[1; 2]; []]], [4; 8; 9; 15; 6]),
   ((hb ← create_with_fsm; run_lops sample_ops hb) small_rel).2).
Proof. vm_compute. reflexivity. Qed.
