(* ===== verification/Storage.v ===== *)
(** * The structures of an index over the free space manager

    Files and item lists live in one relation and share its free space manager.  Here the
    manager is the one on the AVL map, not an arbitrary one: its blocks are read off its
    pages. *)

From stdpp Require Import prelude gmap.
From Stdlib Require Import ZArith Lia.
From S2P Require Import Prelude Pages FsmV2 FsmV2Inv FsmV2Class FsmV2Laws BlockList BlockListProps LinkedBytes LinkedBytesProps LinkedItems LinkedItemsProps.

Local Open Scope Z_scope.

Section storage.
Variable MAX_ENTRIES : nat.
Hypothesis Hmax : (0 < MAX_ENTRIES)%nat /\ Z.of_nat MAX_ENTRIES < 2 ^ 32.
Variable be : FsmV2.backend.
Hypothesis Hnext : normal_xid (FsmV2.next_full_xid be).
Variable pk : BlockList.width -> BlockList.packer.
Hypothesis pk_ok : forall w, packer_ok w (pk w).
Variable MAX : Z.
Hypothesis HMAX : 1030 <= MAX.
Context {T : Type} `{ItemCodec T} `{ItemSpace} {Els : Elsewhere}.

#[local] Instance ops : FreeSpaceManagerOps FsmV2.V2FSM := v2_ops MAX_ENTRIES be.
#[local] Instance laws : FreeSpaceManager FsmV2.V2FSM := v2_FreeSpaceManager MAX_ENTRIES Hmax be Hnext.

(** C34: A non-empty file and an item list side by side in a relation managed by the manager on the
    AVL map: whatever is done to the list, the file reads back as it was written and the list
    holds what its operations leave; and after both have been given back the pages are those
    of before, and every other block of the relation that is not in use elsewhere is on the
    manager's pages. *)
Theorem file_and_list_share_space (r0 : rel FsmV2.V2FSM BlockList.lpage) parts (os : list (lop (T := T))) xid now :
  rel_ok r0 -> concat parts <> [] -> Forall lop_ok os -> normal_xid xid ->
  runs (file ← create_file pk MAX parts; hb ← LinkedItems.create_with_fsm; xs ← run_lops os hb;
        bytes ← LinkedBytes.read_all file; l ← LinkedItems.list hb;
        bs ← LinkedItems.freeable_blocks hb; release xid bs;; LinkedBytes.return_to_fsm pk now file;;
        mret (bytes, xs, l)) r0
    (fun x r => x.1.1 = concat parts /\ lsteps os [] x.1.2 x.2 /\ pages r = pages r0 /\
       forall b, 0 < b < FsmV2.nb (fsm r) -> (b ∈ footprint (fsm r) <-> pages r0 !! b = None /\ b ∉ elsewhere)).
Proof.
  intros Hr Hne Hos Hxid. apply runs_bind. eapply (create_file_spec pk pk_ok MAX HMAX); [done|].
  intros r1 file st bl init b d blch Hf Hc. pose proof (fo_rel _ _ _ _ _ _ _ _ _ _ _ Hf) as Hr1.
  apply runs_bind. eapply create_spec; [done|]. intros r2 hb st2 Hl2.
  apply runs_bind. eapply run_lops_spec; [done|done|]. intros r3 ch3 xs Hl3 Hxs.
  apply runs_bind. eapply read_all_spec; [exact HMAX|apply _|eapply file_ok_rebase; [apply _|exact Hf|apply (il_rel _ _ _ _ Hl3)|]|].
  { intros x [p Hx]%(file_blocks _ _ _ _ _ _ _ _ _ _ _ _ Hf). apply (il_frame _ _ _ _ Hl3). intros Hin%(il_fresh _ _ _ _ Hl3). congruence. }
  apply runs_bind. eapply list_spec; [done|]. apply runs_bind. eapply freeable_blocks_items_spec; [done|].
  apply runs_bind. eapply runs_release; [apply (il_rel _ _ _ _ Hl3)|done|apply (il_nodup _ _ _ _ Hl3)|intros x; by apply ilist_blocks with (1 := Hl3)|].
  intros r4 Hr4 Hpg%(ilist_freed r1 _ _ _ _ Hl3). apply runs_bind.
  eapply return_to_fsm_spec; [apply _|eapply file_ok_same; [exact Hf|exact Hr4|exact Hpg]|by rewrite Hc|].
  intros r5 Hr5 Hpg5. apply runs_ret. cbn [fst snd]. split; [done|]. split; [done|]. split; [done|].
  intros x Hx. rewrite <- (elem_of_owned MAX_ENTRIES be). change (x ∈ owned (fsm r5) <-> pages r0 !! x = None /\ x ∉ elsewhere).
  rewrite (rel_ok_owned _ Hr5), elem_of_difference, elem_of_union, elem_of_block_range, elem_of_dom, Hpg5, eq_None_not_Some.
  change (nblocks (fsm r5)) with (FsmV2.nb (fsm r5)). split; [tauto|]. intros [? ?]. split; [lia|tauto].
Qed.

End storage.

(** ** Example *)

(** The relation of which [fsm10_freed] is the manager: five free blocks, four elsewhere. *)
Definition rel10 : rel FsmV2.V2FSM BlockList.lpage := mkRel fsm10_freed ∅.

#[local] Instance rel10_elsewhere : Elsewhere := (list_to_set [1; 7; 8; 9] : gset Z).

Lemma v2_rel_ok MAX_ENTRIES be (es : list Z) f held : accounted MAX_ENTRIES (f, es) -> held = ∅ ->
  rel_ok (H := v2_ops MAX_ENTRIES be) (Els := (list_to_set es : gset Z)) (mkRel f held : rel FsmV2.V2FSM BlockList.lpage).
Proof.
  intros (a & F & Hi & Hp) ->. pose proof (inv_footprint _ _ _ _ Hi) as Ef. cbn [fst snd] in *.
  assert (NoDup (foot f a F ++ es)) as (_ & Hd & _)%NoDup_app by (rewrite Hp; apply NoDup_seqZ).
  assert (forall b, b ∈ foot f a F ++ es <-> 0 < b < FsmV2.nb f) as Eb by (intros b; rewrite Hp, elem_of_seqZ; lia).
  assert (forall b, b ∈ owned (FreeSpaceManagerOps := v2_ops MAX_ENTRIES be) f <-> b ∈ foot f a F) as Eo.
  { intros b. rewrite elem_of_owned, Ef. done. }
  split; cbn [fsm pages].
  - by exists a, F.
  - intros b. rewrite lookup_empty. by intros [? ?].
  - by intros b ?%elem_of_nil.
  - intros b Hb%elem_of_list_to_set. rewrite Eo. split; [apply Eb, elem_of_app; by right|]. intros Hx. by apply (Hd b).
  - intros b Hb%Eb. rewrite Eo. apply elem_of_app in Hb as [?|?]; [by left|]. right. right. left. by apply elem_of_list_to_set.
Qed.

#[local] Instance ops10 : FreeSpaceManagerOps FsmV2.V2FSM := v2_ops 2 be100.

Lemma rel10_ok : rel_ok rel10.
Proof. apply (v2_rel_ok 2 be100 [1; 7; 8; 9]); [apply fsm10_freed_accounted|done]. Qed.

Lemma file_and_list_share_space_witness :
  runs (file ← create_file plain_packer 1100 [replicate 1500 7; [8; 9]]; hb ← LinkedItems.create_with_fsm; xs ← run_lops sample_ops hb;
     bytes ← LinkedBytes.read_all file; l ← LinkedItems.list hb;
     bs ← LinkedItems.freeable_blocks hb; release 9 bs;; LinkedBytes.return_to_fsm plain_packer 42 file;;
     mret (bytes, xs, l)) rel10
    (fun x r => x.1.1 = replicate 1500 7 ++ [8; 9] /\ lsteps sample_ops [] x.1.2 x.2 /\ pages r = ∅).
Proof.
  eapply runs_mono.
  - apply (file_and_list_share_space 2 two_entries be100 (normal_small 101 ltac:(lia)) plain_packer plain_packer_ok 1100 ltac:(lia)
      rel10 [replicate 1500 7; [8; 9]] sample_ops 9 42).
    + exact rel10_ok.
    + discriminate.
    + exact sample_ops_ok.
    + apply normal_small. lia.
  - intros x r (Hb & Hl & Hp & _). split; [exact Hb|]. split; [exact Hl|exact Hp].
Defined.
