(* ===== verification/ItemOwners.v ===== *)
(** * Lists of items that own blocks

    The entries of a list may stand for structures with pages of their own: the byte list
    with the ids of a merge, the files of a segment.  The list and those structures are
    apart from each other, and changing the list leaves them alone. *)

From stdpp Require Import prelude gmap.
From Stdlib Require Import ZArith Lia.
From S2P Require Import Prelude Pages BlockList BlockListProps LinkedBytes LinkedBytesProps LinkedItems LinkedItemsProps.

Local Open Scope Z_scope.

Section owners.
Context {T : Type} `{ItemCodec T} `{ItemSpace}.
Context {F : Type} `{FreeSpaceManager F} {Els : Elsewhere}.

Abbreviation rel := (rel F lpage).
Implicit Types (r : rel) (ch : list (Z * list T)).

(** Structures, their blocks, and when they are on the pages. *)
Context {X : Type} (blocks_of : X -> list Z) (at_pages : rel -> X -> Prop).
Hypothesis at_frame : forall r r' x, at_pages r x -> (forall b, b ∈ blocks_of x -> pages r' !! b = pages r !! b) -> at_pages r' x.
Hypothesis at_some : forall r x b, at_pages r x -> b ∈ blocks_of x -> is_Some (pages r !! b).

Record owners_ok r hb ch (xs : list X) : Prop := {
  ow_list : exists r0, ilist r0 r hb ch;
  ow_at : Forall (at_pages r) xs;
  ow_apart : NoDup (hb :: ch.*1 ++ (xs ≫= blocks_of));
}.

Lemma owners_rebase r hb ch xs : owners_ok r hb ch xs -> ilist (without r (hb :: ch.*1)) r hb ch.
Proof. intros [[r0 Hl] _ _]. by eapply ilist_rebase; [done|apply (il_rel _ _ _ _ Hl)|]. Qed.

(** The blocks of the structures are not those of the list. *)
Lemma owners_blocks r hb ch xs b : owners_ok r hb ch xs -> b ∈ xs ≫= blocks_of ->
  is_Some (pages r !! b) /\ b ∉ hb :: ch.*1.
Proof.
  intros [_ Hf Ha] Hb. split.
  - apply list_elem_of_bind in Hb as (x & Hb & Hx). rewrite Forall_forall in Hf. by eapply at_some; [apply Hf|].
  - intros Hb'. apply (NoDup_app (hb :: ch.*1)) in Ha as (_ & Hd & _). by apply (Hd b).
Qed.

(** A change of the list: the pages of all structures are as before. *)
Lemma owners_item_change r r' hb ch ch' xs xs' : owners_ok r hb ch xs ->
  ilist (without r (hb :: ch.*1)) r' hb ch' -> (forall x, x ∈ xs' -> x ∈ xs) ->
  NoDup (xs' ≫= blocks_of) -> owners_ok r' hb ch' xs'.
Proof.
  intros Ho Hl' Hsub Hnd.
  assert (forall x b, x ∈ xs' -> b ∈ blocks_of x -> b ∉ hb :: ch'.*1 /\ pages r' !! b = pages r !! b) as Hx.
  { intros x b Hx Hb. destruct (owners_blocks r hb ch xs b Ho) as [[p Hp] Hno]; [apply list_elem_of_bind; eauto|].
    assert (pages (without r (hb :: ch.*1)) !! b = pages r !! b) as E by (cbn [without pages]; by rewrite foldr_delete_lookup, decide_False).
    assert (b ∉ hb :: ch'.*1) as Hno' by (intros Hin; apply (il_fresh _ _ _ _ Hl') in Hin; congruence). split; [done|].
    by rewrite (il_frame _ _ _ _ Hl' b Hno'). }
  destruct Ho as [_ Hf _]. split; [by eexists| |].
  - apply Forall_forall. intros x Hin. eapply at_frame; [|intros b Hb; by apply (Hx x)].
    rewrite Forall_forall in Hf. by apply Hf, Hsub.
  - apply (NoDup_app (hb :: ch'.*1)). split; [apply (il_nodup _ _ _ _ Hl')|]. split; [|done].
    intros b Hin (x & Hxb & Hm)%list_elem_of_bind. by destruct (Hx x b Hm Hxb).
Qed.

(** A change of other pages leaves everything as it is. *)
Lemma owners_frame r r' hb ch xs : owners_ok r hb ch xs -> rel_ok r' ->
  (forall b, b ∈ hb :: ch.*1 ++ (xs ≫= blocks_of) -> pages r' !! b = pages r !! b) -> owners_ok r' hb ch xs.
Proof.
  intros [[r0 Hl] Hf Ha] Hr' Hx. split; [|apply Forall_forall; intros x Hin|done].
  - eexists. eapply ilist_rebase; [done|done|]. intros b Hb. apply Hx. change (b ∈ (hb :: ch.*1) ++ (xs ≫= blocks_of)). apply elem_of_app. by left.
  - rewrite Forall_forall in Hf. eapply at_frame; [by apply Hf|]. intros b Hb. apply Hx.
    change (b ∈ (hb :: ch.*1) ++ (xs ≫= blocks_of)). apply elem_of_app. right. apply list_elem_of_bind. eauto.
Qed.

(** Another structure on new pages. *)
Lemma owners_add r r' hb ch xs x : owners_ok r hb ch xs -> rel_ok r' -> at_pages r' x -> NoDup (blocks_of x) ->
  (forall b, b ∈ blocks_of x -> pages r !! b = None) -> (forall b, is_Some (pages r !! b) -> pages r' !! b = pages r !! b) ->
  owners_ok r' hb ch (x :: xs).
Proof.
  intros Ho Hr' Hx Hnd Hfresh Hold.
  assert (forall b, b ∈ hb :: ch.*1 ++ (xs ≫= blocks_of) -> is_Some (pages r !! b)) as Hsome.
  { intros b [Hb|Hb]%(elem_of_app (hb :: ch.*1)); [|by apply (owners_blocks _ _ _ _ _ Ho)].
    destruct Ho as [[r0 Hl] _ _]. by eapply ilist_blocks. }
  assert (owners_ok r' hb ch xs) as [Hl Hf Ha] by (by eapply owners_frame; [|done|intros b Hb%Hsome; auto]).
  split; [done|by constructor|]. rewrite bind_cons, (app_comm_cons ch.*1), (Permutation_app_swap_app (hb :: ch.*1)).
  apply NoDup_app. split; [done|]. split; [|done]. intros b Hb Hb'. apply Hfresh in Hb. destruct (Hsome b Hb') as [? ?]. congruence.
Qed.

(** The item of a structure that is on the pages is added to the list. *)
Lemma owners_add_item (entry : X -> T) r hb ch xs x (Q : unit -> rel -> Prop) : owners_ok r hb ch (x :: xs) ->
  items ch = entry <$> xs -> storable (into_item (entry x)) ->
  (forall r' ch' xs', owners_ok r' hb ch' xs' -> items ch' = entry <$> xs' -> xs' ≡ₚ x :: xs -> Q tt r') ->
  runs (LinkedItems.add_items [entry x] hb) r Q.
Proof.
  intros Ho Hi Hst HQ. eapply add_items_spec; [exact (owners_rebase _ _ _ _ Ho)|by constructor|]. intros r' ch' Hl' Hap%appends_perm.
  rewrite Hi in Hap. change ([entry x]) with (entry <$> [x]) in Hap. rewrite <- fmap_app in Hap.
  apply Permutation_map_inv in Hap as (xs' & Hi' & Hp').
  assert (xs' ≡ₚ x :: xs) as Hpm by (rewrite <- Hp', Permutation_app_comm; done).
  apply (HQ r' ch' xs'); [|done|done]. eapply owners_item_change; [exact Ho|exact Hl'| |].
  - intros y Hy. by rewrite <- Hpm.
  - rewrite Hpm. pose proof (ow_apart _ _ _ _ Ho) as Hn. apply (NoDup_app (hb :: ch.*1)) in Hn as (_ & _ & Hn). exact Hn.
Qed.

End owners.
