(* ===== verification/MergeList.v ===== *)
(** * The list of running merges

    The [MergeList] of [storage/merge.rs]: an item list of [MergeEntry], each naming a byte
    list with the ids of the segments that are being merged. *)

From stdpp Require Import prelude gmap.
From Stdlib Require Import ZArith Lia.
From S2P Require Import Prelude Pages BlockList LinkedBytes LinkedItems.

Local Open Scope Z_scope.

Record MergeEntry := mkMergeEntry {
  pid : Z;
  xmin : Z;
  unused : Z;
  segment_ids_start_blockno : Z;
}.

#[global] Instance MergeEntry_eq_dec : EqDecision MergeEntry.
Proof. solve_decision. Defined.

Module MergeList.

(** A segment id is its 16 bytes. *)
Definition SegmentIdBytes : Type := list Z.
Definition id_size : nat := 16.

Section ops.
Variable pk : BlockList.width -> BlockList.packer.
Variable MAX : Z.
Context `{ItemCodec MergeEntry} `{ItemSpace}.
Context {F : Type} `{FreeSpaceManager F}.

Abbreviation RM := (M (rel F lpage) unit).

(** [MergeEntry::recyclable]: [in_progress] is PostgreSQL's [TransactionIdIsInProgress]. *)
Definition recyclable (in_progress : Z -> bool) (e : MergeEntry) : bool :=
  negb (xmin e =? InvalidTransactionId) && negb (in_progress (xmin e)).

(** [bytes.chunks(16)], each of which must be a whole id. *)
Fixpoint chunk_ids (fuel : nat) (bytes : list Z) : option (list SegmentIdBytes) :=
  match fuel with
  | O => None
  | S fuel =>
      match bytes with
      | [] => Some []
      | _ =>
          if (length (take id_size bytes) =? id_size)%nat
          then rest ← chunk_ids fuel (drop id_size bytes); Some (take id_size bytes :: rest)
          else None
      end
  end.

(** [MergeEntry::segment_ids] *)
Definition segment_ids (e : MergeEntry) : RM (list SegmentIdBytes) :=
  bytes ← LinkedBytes.read_all (segment_ids_start_blockno e);
  unwrap (chunk_ids (S (length bytes)) bytes).

(** [add_segment_ids]: the ids are written and the entry is added. *)
Definition add_segment_ids (my_pid current_xid : Z) (ids : list SegmentIdBytes) (hb : Z) : RM MergeEntry :=
  let segment_id_bytes := concat ids in
  start ← LinkedBytes.create_with_fsm;
  w ← LinkedBytes.writer start;
  _ ← LinkedBytes.write pk MAX segment_id_bytes w;
  let merge_entry := mkMergeEntry my_pid (u32 current_xid) InvalidTransactionId start in
  LinkedItems.add_items [merge_entry] hb;;
  mret merge_entry.

Fixpoint collect_ids (es : list MergeEntry) : RM (list SegmentIdBytes) :=
  match es with
  | [] => mret []
  | e :: es => ids ← segment_ids e; rest ← collect_ids es; mret (ids ++ rest)
  end.

Definition list_segment_ids (hb : Z) : RM (list SegmentIdBytes) :=
  es ← LinkedItems.list hb; collect_ids es.

Definition is_empty (hb : Z) : RM bool := LinkedItems.is_empty (T := MergeEntry) hb.

(** [remove_entry]; [None] is the error that there is no such entry. *)
Definition remove_entry (xid : Z) (merge_entry : MergeEntry) (hb : Z) : RM (option MergeEntry) :=
  o ← LinkedItems.remove_item (fun e => bool_decide (e = merge_entry)) hb;
  match o with
  | None => mret None
  | Some e => LinkedBytes.return_to_fsm pk xid (segment_ids_start_blockno e);; mret (Some e)
  end.

Fixpoint freeable_all (es : list MergeEntry) : RM (list Z) :=
  match es with
  | [] => mret []
  | e :: es => bs ← LinkedBytes.freeable_blocks pk (segment_ids_start_blockno e); rest ← freeable_all es; mret (bs ++ rest)
  end.

(** [garbage_collect]: entries of transactions that have ended. *)
Definition garbage_collect (when_recyclable current_xid : Z) (in_progress : Z -> bool) (hb : Z) : RM unit :=
  recycled ← LinkedItems.garbage_collect when_recyclable (recyclable in_progress) hb;
  bs ← freeable_all recycled;
  release_now current_xid bs.

End ops.

End MergeList.
