(* ===== verification/MergeListProps.v ===== *)
(** * The merge list tracks which segments are being merged *)

From stdpp Require Import prelude gmap.
From Stdlib Require Import ZArith Lia.
From S2P Require Import Prelude Pages BlockList BlockListProps LinkedBytes LinkedBytesProps LinkedItems LinkedItemsProps ItemOwners MergeList.
Import MergeList.

Local Open Scope Z_scope.

Lemma chunk_ids_concat fuel ids : Forall (fun i => length i = id_size) ids -> (length (concat ids) < fuel)%nat ->
  chunk_ids fuel (concat ids) = Some ids.
Proof.
  intros Hall. revert fuel. induction Hall as [|i ids Hi _ IH]; intros fuel Hf; destruct fuel as [|fuel]; [simpl in Hf; lia|done|lia|].
  cbn [concat] in *. rewrite length_app in Hf.
  assert (take id_size (i ++ concat ids) = i) as Et by (rewrite <- Hi; apply take_app_length).
  assert (drop id_size (i ++ concat ids) = concat ids) as Ed by (rewrite <- Hi; apply drop_app_length).
  cbn [chunk_ids]. rewrite Et, Ed, Hi, Nat.eqb_refl, IH by (unfold id_size in *; lia).
  destruct i as [|z i]; [done|]. done.
Qed.

Section merges.
Variable pk : BlockList.width -> BlockList.packer.
Hypothesis pk_ok : forall w, packer_ok w (pk w).
Variable MAX : Z.
Hypothesis HMAX : 1030 <= MAX.
Context `{ItemCodec MergeEntry} `{ItemSpace}.
Hypothesis entry_storable : forall e : MergeEntry, storable (into_item e).
Context {F : Type} `{FreeSpaceManager F} {Els : Elsewhere}.

Abbreviation rel := (rel F lpage).
Implicit Types (r : rel).

(** A merge: its entry, its segments, and the blocks of the byte list with their ids. *)
Record merge := mkMerge { m_entry : MergeEntry; m_ids : list SegmentIdBytes; m_blocks : list Z }.

Record merge_at r (m : merge) : Prop := {
  ma_file : exists st init b d,
    pages r !! segment_ids_start_blockno (m_entry m) = Some (Header st st InvalidBlockNumber) /\ filling MAX r st init b d /\
    content init ++ d = concat (m_ids m) /\ m_blocks m = owned_blocks (segment_ids_start_blockno (m_entry m)) init b;
  ma_ids : Forall (fun i => length i = id_size) (m_ids m);
  ma_some : forall x, x ∈ m_blocks m -> is_Some (pages r !! x);
}.

(** The item list and the byte lists of the merges [ms], apart from each other. *)
Abbreviation files_ok := (owners_ok m_blocks merge_at).

Definition merges_ok r hb ch (ms : list merge) : Prop := files_ok r hb ch ms /\ items ch = m_entry <$> ms.

Lemma merge_at_frame r r' m : merge_at r m -> (forall x, x ∈ m_blocks m -> pages r' !! x = pages r !! x) -> merge_at r' m.
Proof.
  intros [(st & init & b & d & Hh & Hfl & Hc & Hb) Hids Hs] Hx. split; [|done|].
  - exists st, init, b, d. rewrite Hx by (rewrite Hb; left). split; [done|]. split; [|done].
    eapply filling_frame; [done|]. intros x Hin. apply Hx. rewrite Hb. by right.
  - intros x Hin. rewrite Hx by done. by apply Hs.
Qed.

(** Changing the item list leaves the byte lists alone. *)
Lemma item_change r r' hb ch ch' ms ms' : files_ok r hb ch ms -> ilist (without r (hb :: ch.*1)) r' hb ch' ->
  (forall m, m ∈ ms' -> m ∈ ms) -> NoDup (ms' ≫= m_blocks) -> files_ok r' hb ch' ms'.
Proof. apply owners_item_change; [exact merge_at_frame|intros r1 m b Hm; by apply (ma_some _ _ Hm)]. Qed.

(** ** Reading *)

Lemma segment_ids_spec r m (Q : list SegmentIdBytes -> rel -> Prop) : rel_ok r -> merge_at r m -> Q (m_ids m) r ->
  runs (segment_ids (m_entry m)) r Q.
Proof.
  intros Hr [(st & init & b & d & Hh & Hfl & Hc & Hb) Hids Hs] HQ. unfold segment_ids. apply runs_bind.
  unfold LinkedBytes.read_all, LinkedBytes.get_start_blockno. apply runs_bind, runs_bind. eapply runs_get_header; [done|]. cbn [fst snd].
  pose proof (fl_chain _ _ _ _ _ _ Hfl) as Hch.
  assert (exists p, pages r !! st = Some p) as [p Hp].
  { destruct init as [|[b0 p0] init]; destruct Hch as (-> & _ & Hp & _); by eexists. }
  unfold LinkedBytes.assert_block. rewrite (valid_block _ _ _ Hr Hp). apply runs_ret, runs_bind, runs_gets.
  eapply read_loop_spec; [done|by eapply filling_data| |].
  - pose proof (chain_length _ _ _ _ _ Hch) as Hl. rewrite fmap_app in Hl. specialize (Hl (fl_nodup _ _ _ _ _ _ Hfl)). lia.
  - rewrite content_app. replace (content [(b, Data d InvalidBlockNumber)]) with d by (unfold content; simpl; by rewrite app_nil_r).
    rewrite Hc, chunk_ids_concat by (done || lia). by apply runs_ret.
Qed.

Lemma collect_ids_spec r ms (Q : list SegmentIdBytes -> rel -> Prop) : rel_ok r -> Forall (merge_at r) ms ->
  Q (concat (m_ids <$> ms)) r -> runs (collect_ids (m_entry <$> ms)) r Q.
Proof.
  intros Hr Hms. revert Q. induction Hms as [|m ms Hm _ IH]; intros Q HQ; cbn [collect_ids fmap list_fmap].
  { by apply runs_ret. }
  apply runs_bind. eapply segment_ids_spec; [done|done|]. apply runs_bind, IH. by apply runs_ret.
Qed.

Lemma list_segment_ids_spec r hb ch ms (Q : list SegmentIdBytes -> rel -> Prop) : merges_ok r hb ch ms ->
  Q (concat (m_ids <$> ms)) r -> runs (list_segment_ids hb) r Q.
Proof.
  intros [[[r0 Hl] Hf _] Hi] HQ. unfold list_segment_ids. apply runs_bind. eapply list_spec; [done|]. rewrite Hi.
  apply collect_ids_spec; [apply (il_rel _ _ _ _ Hl)|done|done].
Qed.

(** ** Operations *)

Lemma add_segment_ids_spec my_pid xid ids r hb ch ms (Q : MergeEntry -> rel -> Prop) : merges_ok r hb ch ms ->
  Forall (fun i => length i = id_size) ids ->
  (forall r' ch' ms' m, merges_ok r' hb ch' ms' -> ms' ≡ₚ m :: ms -> m_ids m = ids -> Q (m_entry m) r') ->
  runs (add_segment_ids pk MAX my_pid xid ids hb) r Q.
Proof.
  intros [[[r0 Hl] Hf Ha] Hi] Hids HQ. unfold add_segment_ids. apply (runs_create_writer pk pk_ok MAX HMAX); [apply (il_rel _ _ _ _ Hl)|].
  intros r1 w st Hw. apply runs_bind. eapply (write_spec pk pk_ok MAX HMAX); [exact Hw|].
  intros r2 w2 init b d Hw2 Hlh Hc.
  set (start := LinkedBytes.list_header w) in *. set (e := mkMergeEntry my_pid (u32 xid) InvalidTransactionId start).
  set (m := mkMerge e ids (owned_blocks start init b)).
  destruct Hw2 as [Hr2 Hh2 Hfl2 _ _ Hnd2 Hfresh2 Hfr2]. rewrite Hlh in Hh2, Hnd2, Hfresh2, Hfr2.
  fold start in Hh2, Hnd2, Hfresh2, Hfr2.
  assert (forall x, is_Some (pages r !! x) -> pages r2 !! x = pages r !! x) as Hold.
  { intros x [p Hp]. apply Hfr2. intros Hin. apply Hfresh2 in Hin. congruence. }
  assert (merge_at r2 m) as Hma.
  { split; [|done|].
    - by exists st, init, b, d.
    - intros x [->|Hx]%elem_of_cons; [rewrite Hh2; by eexists|]. rewrite <- (fmap_tail init b d) in Hx.
      by eapply (seg_in _ _ _ _ _ _ (fl_chain _ _ _ _ _ _ Hfl2)). }
  assert (files_ok r2 hb ch (m :: ms)) as Hm2.
  { eapply (owners_add m_blocks merge_at merge_at_frame); [intros ? ? ? Hx; by apply (ma_some _ _ Hx)|by split; [exists r0|..]|done|done|done|done|done]. }
  apply runs_bind. eapply (owners_add_item m_blocks merge_at merge_at_frame) with (entry := m_entry) (x := m);
    [intros ? ? ? Hx; by apply (ma_some _ _ Hx)|exact Hm2|exact Hi|done|]. intros r3 ch3 ms' Hm3 Hi3 Hpm. apply runs_ret.
  by apply (HQ r3 ch3 ms' m).
Qed.

(** The blocks tell merges apart, and so the entries do. *)
Lemma merges_distinct ms m m' x : NoDup (ms ≫= m_blocks) -> m ∈ ms -> m' ∈ ms -> x ∈ m_blocks m -> x ∈ m_blocks m' -> m = m'.
Proof.
  induction ms as [|m0 ms IH]; [by intros _ ?%elem_of_nil|]. rewrite bind_cons. intros (Hnd0 & Hd & Hnd)%NoDup_app.
  assert (forall m1, m1 ∈ ms -> x ∈ m_blocks m1 -> x ∈ ms ≫= m_blocks) as Hin by (intros m1 ? ?; apply list_elem_of_bind; by exists m1).
  intros [->|Hm]%elem_of_cons [->|Hm']%elem_of_cons Hx Hx'; [done|by destruct (Hd x Hx); eauto|by destruct (Hd x Hx'); eauto|auto].
Qed.

Lemma split_merges r ms m pre post : Forall (merge_at r) ms -> NoDup (ms ≫= m_blocks) -> m ∈ ms ->
  m_entry <$> ms = pre ++ m_entry m :: post ->
  exists pre' post', ms = pre' ++ m :: post' /\ pre = m_entry <$> pre' /\ post = m_entry <$> post'.
Proof.
  intros Hf Hnd Hm (pre' & rest & -> & Hrest & ->)%fmap_app_inv. symmetry in Hrest.
  apply fmap_cons_inv in Hrest as (m' & post' & He & -> & ->). exists pre', post'. split; [|done]. do 2 f_equal.
  assert (m' ∈ pre' ++ m' :: post') as Hm' by (apply elem_of_app; right; left). rewrite Forall_forall in Hf.
  destruct (ma_file _ _ (Hf m Hm)) as (? & ? & ? & ? & _ & _ & _ & Hb). destruct (ma_file _ _ (Hf m' Hm')) as (? & ? & ? & ? & _ & _ & _ & Hb').
  eapply (merges_distinct _ m' m (segment_ids_start_blockno (m_entry m))); [done|done|done| |]; [rewrite Hb', <- He|rewrite Hb]; left.
Qed.

(** Removing an entry gives back the header block of its ids and forgets the rest. *)
Lemma remove_entry_spec xid r hb ch ms m (Q : option MergeEntry -> rel -> Prop) : merges_ok r hb ch ms -> m ∈ ms ->
  (forall r' ch' ms', merges_ok r' hb ch' ms' -> ms ≡ₚ m :: ms' -> Q (Some (m_entry m)) r') ->
  runs (remove_entry pk xid (m_entry m) hb) r Q.
Proof.
  intros [Hfo Hi] Hm HQ. pose proof Hfo as [[r0 Hl] Hf Ha]. unfold remove_entry. apply runs_bind.
  pose proof (ilist_rebase _ _ r hb ch Hl (il_rel _ _ _ _ Hl) ltac:(done)) as Hl1.
  eapply remove_item_spec; [exact Hl1| |].
  { intros Hall. rewrite Forall_forall in Hall. assert (m_entry m ∈ items ch) as Hin by (rewrite Hi; by apply list_elem_of_fmap_2).
    apply Hall in Hin. by rewrite bool_decide_true in Hin. }
  intros r1 ch1 pre t post Hl2 E E1 Ht Hpre. apply bool_decide_eq_true in Ht as ->.
  assert (NoDup (ms ≫= m_blocks)) as Hndb by (by apply (NoDup_app (hb :: ch.*1)) in Ha as (_ & _ & ?)).
  destruct (split_merges r ms m pre post Hf Hndb Hm) as (pre' & post' & -> & -> & ->); [by rewrite <- Hi|].
  assert (files_ok r1 hb ch1 (pre' ++ m :: post')) as Hm1 by (by eapply item_change).
  clear Hfo Hi Hl Hf Ha Hl1 E Hpre. pose proof Hm1 as [_ Hf1 Ha1]. pose proof (proj1 (Forall_forall _ _) Hf1 m Hm) as Hma.
  destruct (ma_file _ _ Hma) as (st & init & b & d & Hh & Hfl & _ & Hb).
  set (start := segment_ids_start_blockno (m_entry m)) in *. apply runs_bind.
  assert (start ∈ m_blocks m) as Hsb by (rewrite Hb; left).
  assert (forall x, x ∈ hb :: ch1.*1 -> x <> start) as Hne1.
  { intros x Hx ->. apply (NoDup_app (hb :: ch1.*1)) in Ha1 as (_ & Hd & _). apply (Hd start Hx). apply list_elem_of_bind. by exists m. }
  assert (forall m' x, m' ∈ pre' ++ post' -> x ∈ m_blocks m' -> x <> start) as Hne2.
  { intros m' x Hm' Hx ->. rewrite bind_app, bind_cons, (Permutation_app_swap_app (pre' ≫= m_blocks)), <- bind_app in Hndb.
    apply NoDup_app in Hndb as (_ & Hd & _). apply (Hd start Hsb). apply list_elem_of_bind. by exists m'. }
  unfold LinkedBytes.return_to_fsm. apply runs_bind. eapply unfinished_freeable; [done|].
  eapply runs_release_now; [apply (il_rel _ _ _ _ Hl2)|apply NoDup_singleton| |].
  { intros x ->%list_elem_of_singleton. rewrite Hh. by eexists. }
  intros r2 Hr2 Hp2. apply runs_ret. cbn [foldr] in Hp2. apply (HQ r2 ch1 (pre' ++ post')); [|by rewrite Permutation_middle].
  split; [|by rewrite E1, fmap_app]. split.
  - eexists. eapply ilist_rebase; [exact Hl2|done|]. intros x Hx. rewrite Hp2, lookup_delete_ne; [done|]. apply not_eq_sym. auto.
  - apply Forall_forall. intros m' Hm'. eapply merge_at_frame.
    + apply (proj1 (Forall_forall _ _) Hf1). apply elem_of_app in Hm' as [?|?]; apply elem_of_app; [by left|right; by right].
    + intros x Hx. rewrite Hp2, lookup_delete_ne; [done|]. apply not_eq_sym. eauto.
  - eapply sublist_NoDup; [exact Ha1|]. apply sublist_skip, sublist_app; [done|]. rewrite !bind_app, bind_cons.
    apply sublist_app; [done|]. by apply sublist_inserts_l.
Qed.

(** ** A history of merges *)

(** Merges that start one after the other: process, transaction, segments. *)
Fixpoint add_all (starts : list (Z * Z * list SegmentIdBytes)) (hb : Z) : M rel unit (list MergeEntry) :=
  match starts with
  | [] => mret []
  | (p, xid, ids) :: starts =>
      e ← add_segment_ids pk MAX p xid ids hb; es ← add_all starts hb; mret (e :: es)
  end.

(** Those of [es] at the given positions end. *)
Fixpoint remove_all (xid : Z) (es : list MergeEntry) (hb : Z) : M rel unit unit :=
  match es with
  | [] => mret tt
  | e :: es => _ ← remove_entry pk xid e hb; remove_all xid es hb
  end.

Lemma add_all_spec starts r hb ch ms (Q : list MergeEntry -> rel -> Prop) : merges_ok r hb ch ms ->
  Forall (fun x => Forall (fun i => length i = id_size) x.2) starts ->
  (forall r' ch' ms' new, merges_ok r' hb ch' ms' -> ms' ≡ₚ new ++ ms -> m_ids <$> new = starts.*2 ->
     Q (m_entry <$> new) r') ->
  runs (add_all starts hb) r Q.
Proof.
  revert r ch ms Q. induction starts as [|[[p xid] ids] starts IH]; intros r ch ms Q Hm Hs HQ; cbn [add_all].
  { apply runs_ret. by apply (HQ r ch ms []). }
  apply Forall_cons in Hs as [Hids Hs]. apply runs_bind. eapply add_segment_ids_spec; [done|done|]. intros r1 ch1 ms1 m Hm1 Hp1 Ei.
  apply runs_bind. eapply IH; [done|done|]. intros r2 ch2 ms2 new Hm2 Hp2 En. apply runs_ret.
  apply (HQ r2 ch2 ms2 (m :: new)); [done| |by rewrite fmap_cons, Ei, En]. rewrite Hp2, Hp1. by rewrite <- Permutation_middle.
Qed.

Lemma remove_all_spec xid gone r hb ch ms kept (Q : unit -> rel -> Prop) : merges_ok r hb ch ms -> ms ≡ₚ gone ++ kept ->
  (forall r' ch' ms', merges_ok r' hb ch' ms' -> ms' ≡ₚ kept -> Q tt r') ->
  runs (remove_all xid (m_entry <$> gone) hb) r Q.
Proof.
  revert r ch ms. induction gone as [|m gone IH]; intros r ch ms Hm Hp HQ; cbn [remove_all fmap list_fmap].
  { apply runs_ret. by eapply HQ. }
  apply runs_bind. eapply remove_entry_spec; [done|rewrite Hp; left|]. intros r1 ch1 ms1 Hm1 Hp1. eapply IH; [done| |done].
  rewrite Hp in Hp1. cbn [app] in Hp1. by apply Permutation_cons_inv in Hp1.
Qed.

Lemma create_merges_ok r0 (Q : Z -> rel -> Prop) : rel_ok r0 ->
  (forall r hb ch, merges_ok r hb ch [] -> Q hb r) -> runs LinkedItems.create_with_fsm r0 Q.
Proof.
  intros Hr HQ. apply create_spec; [done|]. intros r hb st Hl. apply (HQ r hb [(st, [])]). split; [|done].
  split; [by eexists|constructor|]. apply (il_nodup _ _ _ _ Hl).
Qed.

(** The merge list names exactly the segments of the merges that are running: those of
    all merges that have started and not ended, whatever the order of starts and ends. *)
Theorem merge_list_tracks r0 starts1 starts2 xid k : rel_ok r0 ->
  Forall (fun x => Forall (fun i => length i = id_size) x.2) (starts1 ++ starts2) ->
  runs (hb ← LinkedItems.create_with_fsm; es ← add_all starts1 hb; remove_all xid (take k es) hb;;
        _ ← add_all starts2 hb; list_segment_ids hb) r0
    (fun ids _ => ids ≡ₚ concat ((drop k starts1).*2 ++ starts2.*2)).
Proof.
  intros Hr [Hs1 Hs2]%Forall_app. apply runs_bind, create_merges_ok; [done|]. intros r hb ch Hm. apply runs_bind.
  eapply add_all_spec; [done|done|]. intros r1 ch1 ms1 new1 Hm1 Hp1 En1. rewrite app_nil_r in Hp1.
  apply runs_bind. rewrite <- fmap_take. eapply (remove_all_spec xid (take k new1) r1 hb ch1 ms1 (drop k new1)); [done|by rewrite take_drop|].
  intros r2 ch2 ms2 Hm2 Hp2. apply runs_bind. eapply add_all_spec; [done|done|]. intros r3 ch3 ms3 new3 Hm3 Hp3 En3.
  eapply list_segment_ids_spec; [done|]. rewrite Hp3, Hp2, Permutation_app_comm, fmap_app, fmap_drop, En1, En3, fmap_drop. done.
Qed.

End merges.

(** ** Instance *)

Definition entry_to_item (e : MergeEntry) : list Z := [pid e; xmin e; unused e; segment_ids_start_blockno e].
Definition entry_from_item (l : list Z) : MergeEntry :=
  match l with [a; b; c; d] => mkMergeEntry a b c d | _ => mkMergeEntry 0 0 0 0 end.

#[global] Program Instance MergeEntry_ItemCodec : ItemCodec MergeEntry := {| into_item := entry_to_item; from_item := entry_from_item |}.
Next Obligation. by intros []. Qed.
Next Obligation. done. Qed.

Lemma small_entry_storable (e : MergeEntry) : storable (into_item e).
Proof. change (4 < 8)%nat. lia. Qed.

#[local] Existing Instance small_elsewhere.

Lemma merge_list_tracks_witness :
  runs (hb ← LinkedItems.create_with_fsm; es ← add_all plain_packer 1100 [(71, 5, [replicate 16 1; replicate 16 2]); (72, 6, [replicate 16 3])] hb;
        remove_all plain_packer 6 (take 1 es) hb;; _ ← add_all plain_packer 1100 [(73, 7, [replicate 16 4])] hb; list_segment_ids hb) small_rel
    (fun ids _ => ids ≡ₚ [replicate 16 3; replicate 16 4]).
Proof.
  apply (merge_list_tracks plain_packer plain_packer_ok 1100 ltac:(lia) small_entry_storable small_rel
    [(71, 5, [replicate 16 1; replicate 16 2]); (72, 6, [replicate 16 3])] [(73, 7, [replicate 16 4])] 6 1).
  - exact small_rel_ok.
  - repeat constructor.
Defined.
