(* ===== verification/MergeDriver.v ===== *)
(** * Driving merges and collecting garbage

    [postgres/merge.rs]: which layers are merged in the foreground and in the background,
    what a merge does to the merge list, and how the blocks of dead segments get back to the
    free space manager.  Merging itself is tantivy's. *)

From stdpp Require Import prelude gmap sorting.
From Stdlib Require Import ZArith Lia.
From S2P Require Import Prelude SegmentMeta MergePolicy Pages BlockList LinkedBytes LinkedItems MergeList.

Local Open Scope Z_scope.

Module MergeDriver.

(** ** Layer sizes *)

Record IndexLayerSizes := mkSizes {
  user_configured_bg_layers : bool;
  foreground_layer_sizes : list Z;
  background_layer_sizes : list Z;
}.

(** The totals over the visible segments: bytes, and how many there are. *)
Definition visible_bytes (entries : list SegmentMeta.SegmentMetaEntry) : Z :=
  MergePolicy.sum_u64 (SegmentMeta.byte_size <$> filter (fun e => SegmentMeta.visible e = true) entries).

Definition visible_count (entries : list SegmentMeta.SegmentMetaEntry) : Z :=
  Z.of_nat (length (filter (fun e => SegmentMeta.visible e = true) entries)).

(** The size a segment should have, less a third. *)
Definition target_byte_size (target_segment_count index_byte_size : Z) : Z :=
  let t := index_byte_size / target_segment_count in t - t / 3.

(** [From<&PgSearchRelation>]: the options of the index are its target count and its layer
    sizes.  [None] is the panic of a division by zero. *)
Definition index_layer_sizes (target_segment_count : Z) (foreground background : list Z)
    (entries : list SegmentMeta.SegmentMetaEntry) : option IndexLayerSizes :=
  if visible_count entries <=? target_segment_count then Some (mkSizes false [] [])
  else if target_segment_count =? 0 then None
  else
    let target_segment_byte_size := target_byte_size target_segment_count (visible_bytes entries) in
    Some (mkSizes (negb (bool_decide (background = []))) foreground
            (filter (fun layer_size => layer_size <= target_segment_byte_size) background)).

(** [Vec::dedup]: of equal neighbours the first is kept. *)
Fixpoint dedup (l : list Z) : list Z :=
  match l with
  | [] => []
  | x :: l => x :: match dedup l with
                   | [] => []
                   | y :: l' => if x =? y then l' else y :: l'
                   end
  end.

Definition combined (s : IndexLayerSizes) : list Z :=
  dedup (merge_sort Z.le (foreground_layer_sizes s ++ background_layer_sizes s)).

(** ** Garbage *)

Section garbage.
Variable pk : BlockList.width -> BlockList.packer.
Context `{ItemCodec SegmentMeta.SegmentMetaEntry} `{ItemSpace}.
Context {F : Type} `{FreeSpaceManager F}.

Abbreviation RM := (M (rel F lpage) unit).

Fixpoint collect {A} (f : A -> RM (list Z)) (l : list A) : RM (list Z) :=
  match l with
  | [] => mret []
  | x :: l => bs ← f x; rest ← collect f l; mret (bs ++ rest)
  end.

(** [SegmentMetaEntry::freeable_blocks], reading the lists themselves. *)
Definition entry_freeable_blocks (e : SegmentMeta.SegmentMetaEntry) : RM (list Z) :=
  match SegmentMeta.content e with
  | SegmentMeta.Immutable c =>
      if SegmentMeta.is_orphaned_delete e then
        d ← unwrap (SegmentMeta.delete c);
        LinkedBytes.freeable_blocks pk (SegmentMeta.starting_block (SegmentMeta.file_entry_of d))
      else collect (fun p => LinkedBytes.freeable_blocks pk (SegmentMeta.starting_block p.1)) (SegmentMeta.file_entries c)
  | SegmentMeta.Mutable c => LinkedItems.freeable_blocks (SegmentMeta.header_block c)
  end.

Definition free_entries (current_xid : Z) (freeable_entries : list SegmentMeta.SegmentMetaEntry) : RM unit :=
  bs ← collect entry_freeable_blocks freeable_entries;
  release current_xid bs.

(** Which entries go: [cleanup] says which blocks a cleanup lock is granted for. *)
Definition goes (cleanup : Z -> bool) (e : SegmentMeta.SegmentMetaEntry) : bool :=
  match SegmentMeta.recyclable cleanup e with Ok b => b | _ => false end.

(** [entry.recyclable()] panics on a deleted entry without files; the copy of the list is
    then left behind, and the list is as it was. *)
Definition testable (cleanup : Z -> bool) (e : SegmentMeta.SegmentMetaEntry) : bool :=
  match SegmentMeta.recyclable cleanup e with Ok _ => true | _ => false end.

(** [commit_xid] is the [ReadNextFullTransactionId()] of [commit]. *)
Definition garbage_collect_index (cleanup : Z -> bool) (current_xid next_xid commit_xid : Z) (segment_metas : Z) : RM unit :=
  cloned ← LinkedItems.atomically segment_metas;
  es ← LinkedItems.list cloned;
  (if forallb (testable cleanup) es then mret tt else panic);;
  entries ← LinkedItems.garbage_collect next_xid (goes cleanup) cloned;
  LinkedItems.commit commit_xid segment_metas cloned;;
  free_entries current_xid entries.

End garbage.

(** ** Deciding and merging *)

Inductive MergeStyle := Insert | Vacuum.

#[global] Instance MergeStyle_eq_dec : EqDecision MergeStyle.
Proof. solve_decision. Defined.

(** [TryFrom<u8>] *)
Definition merge_style_try_from (value : Z) : option MergeStyle :=
  if value =? 0 then Some Insert else if value =? 1 then Some Vacuum else None.

Section driver.
Variable pk : BlockList.width -> BlockList.packer.
Variable MAX : Z.
Context `{ItemCodec MergeList.MergeEntry} `{ItemCodec SegmentMeta.SegmentMetaEntry} `{ItemSpace}.
Context {F : Type} `{FreeSpaceManager F}.
(** tantivy's [SegmentId]: its bytes, and the id of bytes. *)
Variables (uuid_bytes : Z -> MergeList.SegmentIdBytes) (id_of_bytes : MergeList.SegmentIdBytes -> Z).

Abbreviation RM := (M (rel F lpage) unit).
Abbreviation entries_of := (list (Z * SegmentMeta.SegmentMetaEntry)).

(** The policy over the segments that are in neither list: [merge_list] is the header of the
    merge list, [vacuum] the ids of the vacuum list, [all_entries] what the merger sees. *)
Definition run_policy (policy : MergePolicy.LayeredMergePolicy) (vacuum : gset Z) (all_entries : entries_of)
    (merge_list : Z) : RM (list (list Z) * MergePolicy.LayeredMergePolicy) :=
  ids ← MergeList.list_segment_ids merge_list;
  let policy := MergePolicy.set_mergeable_segment_entries policy vacuum (list_to_set (id_of_bytes <$> ids)) all_entries in
  match MergePolicy.simulate policy with
  | (Ok candidates, policy) => mret (candidates, policy)
  | _ => panic
  end.

(** What the backend is told while it merges: tantivy's merge of the given segments, [false]
    if it failed; for the n-th garbage collection the cleanup locks that are granted and the
    next transaction id; whether an interrupt is raised at the end, or is only pending. *)
Record backend := mkBackend {
  my_pid : Z;
  merge_segments : list Z -> RM bool;
  cleanup : nat -> Z -> bool;
  commit_xid : nat -> Z;
  removal_xid : Z;
  interrupt_raised : bool;
  interrupt_pending : bool;
}.

Section merging.
Variables (be : backend) (current_xid next_xid merge_list segment_metas : Z).

(** The first half of [merge_index], under the merge lock: choose the candidates and record
    the segments they are made of. *)
Definition begin_merge (policy : MergePolicy.LayeredMergePolicy) (vacuum : gset Z) (all_entries : entries_of)
    : RM (option (list (list Z) * MergeList.MergeEntry)) :=
  x ← run_policy policy vacuum all_entries merge_list;
  let '(merge_candidates, policy) := x in
  match merge_candidates with
  | [] => mret None
  | _ =>
      merge_entry ← MergeList.add_segment_ids pk MAX (my_pid be) current_xid
                      (uuid_bytes <$> (MergePolicy.mergeable_segments policy).*1) merge_list;
      mret (Some (merge_candidates, merge_entry))
  end.

Definition collect_garbage (n : nat) : RM unit :=
  garbage_collect_index pk (cleanup be n) current_xid next_xid (commit_xid be n) segment_metas.

(** The candidates one after the other: whether all were merged, and whether garbage still
    has to be collected. *)
Fixpoint merge_loop (n : nat) (gc_after_merge : bool) (candidates : list (list Z)) (need_gc : bool) : RM (bool * bool) :=
  match candidates with
  | [] => mret (true, need_gc)
  | candidate :: candidates =>
      merged ← merge_segments be candidate;
      if negb merged then mret (false, need_gc)
      else if gc_after_merge then collect_garbage n;; merge_loop (S n) gc_after_merge candidates false
      else merge_loop (S n) gc_after_merge candidates need_gc
  end.

(** The second half: the entry goes whether the merges worked or not, and only then is a
    failure raised. *)
Definition end_merge (merge_entry : MergeList.MergeEntry) (n : nat) (merged need_gc : bool) : RM unit :=
  removed ← MergeList.remove_entry pk (removal_xid be) merge_entry merge_list;
  _ ← unwrap removed;
  (if need_gc then collect_garbage n else mret tt);;
  (if interrupt_raised be then panic else mret tt);;
  if merged || interrupt_pending be then mret tt else panic.

Definition merge_index (policy : MergePolicy.LayeredMergePolicy) (vacuum : gset Z) (all_entries : entries_of)
    (gc_after_merge : bool) : RM unit :=
  o ← begin_merge policy vacuum all_entries;
  match o with
  | None => mret tt
  | Some (merge_candidates, merge_entry) =>
      res ← merge_loop O gc_after_merge merge_candidates (negb gc_after_merge);
      end_merge merge_entry (length merge_candidates) res.1 res.2
  end.

End merging.

(** Whether a background worker should merge. *)
Definition needs_background_merge (sizes : IndexLayerSizes) (vacuum : gset Z) (all_entries : entries_of)
    (merge_list : Z) : RM bool :=
  if user_configured_bg_layers sizes then
    idle ← MergeList.is_empty merge_list;
    if idle : bool then
      x ← run_policy (MergePolicy.new (combined sizes)) vacuum all_entries merge_list;
      mret (negb (bool_decide (x.1 = [])))
    else mret false
  else mret false.

(** [true]: the background merger is to be launched ([try_launch_background_merger]). *)
Definition do_merge (be : backend) (sizes : IndexLayerSizes) (style : MergeStyle) (current_xid next_xid : option Z)
    (vacuum : gset Z) (all_entries : entries_of) (merge_list segment_metas : Z) : RM bool :=
  background ← needs_background_merge sizes vacuum all_entries merge_list;
  if background : bool then mret true
  else if bool_decide (style = Insert) && negb (bool_decide (foreground_layer_sizes sizes = [])) then
    current_xid ← unwrap current_xid;
    next_xid ← unwrap next_xid;
    merge_index be current_xid next_xid merge_list segment_metas
      (MergePolicy.new (foreground_layer_sizes sizes)) vacuum all_entries false;;
    mret false
  else mret false.

End driver.

End MergeDriver.
