(* ===== verification/GarbageProps.v ===== *)
(** * Garbage collection frees exactly the dead segments

    The list of segments, the files and lists of each segment, and the free space manager,
    together: what [garbage_collect_index] does to all of them. *)

From stdpp Require Import prelude gmap countable.
From Stdlib Require Import ZArith Lia.
From S2P Require Import Prelude SegmentMeta Pages BlockList BlockListProps LinkedBytes LinkedBytesProps LinkedItems LinkedItemsProps ItemOwners MergePolicy MergeDriver.
From stdpp Require Import list.
Import SegmentMeta MergeDriver.

Local Open Scope Z_scope.

Section garbage.
Variable pk : BlockList.width -> BlockList.packer.
Hypothesis pk_ok : forall w, packer_ok w (pk w).
Variable MAX : Z.
Hypothesis HMAX : 1030 <= MAX.
Context `{ItemCodec SegmentMetaEntry} `{ItemCodec MutableSegmentEntry} `{ItemSpace}.
Context {F : Type} `{FreeSpaceManager F} {Els : Elsewhere}.

Abbreviation rel := (rel F lpage).
Implicit Types (r : rel).

(** A file: the block it starts at, its bytes, and all its blocks. *)
Record file := mkFileAt { f_start : Z; f_bytes : list Z; f_blocks : list Z }.

(** It is on the pages of [r] as it was on those of [r1]. *)
Definition file_at r (f : file) : Prop := exists r0 r1 st bl init b d blch,
  file_ok pk MAX r0 r1 (f_start f) st bl init b d blch /\
  f_bytes f = LinkedBytesProps.content init ++ d /\ f_bytes f <> [] /\
  f_blocks f = (init.*1 ++ [b]) ++ [f_start f] ++ blch.*1 /\
  forall x, x ∈ f_blocks f -> pages r !! x = pages r1 !! x.

Lemma file_at_frame r r' f : file_at r f -> (forall x, x ∈ f_blocks f -> pages r' !! x = pages r !! x) -> file_at r' f.
Proof.
  intros (r0 & r1 & st & bl & init & b & d & blch & Hf & Hb & Hne & Hbl & Hx) Hx'.
  exists r0, r1, st, bl, init, b, d, blch. split; [done|]. split; [done|]. split; [done|]. split; [done|].
  intros x Hin. rewrite Hx' by done. by apply Hx.
Qed.

Lemma file_blocks_perm (hb : Z) (init : list (Z * lpage)) b (blch : list (Z * lpage)) :
  (init.*1 ++ [b]) ++ [hb] ++ blch.*1 ≡ₚ owned_blocks hb init b ++ blch.*1.
Proof. unfold owned_blocks. simpl. by rewrite <- Permutation_middle. Qed.

Lemma file_at_ok r f : rel_ok r -> file_at r f -> exists r0 st bl init b d blch,
  file_ok pk MAX r0 r (f_start f) st bl init b d blch /\ f_bytes f = LinkedBytesProps.content init ++ d /\ f_bytes f <> [] /\
  f_blocks f = (init.*1 ++ [b]) ++ [f_start f] ++ blch.*1.
Proof.
  intros Hr (r0 & r1 & st & bl & init & b & d & blch & Hf & Hb & Hne & Hbl & Hx).
  eexists _, st, bl, init, b, d, blch. split; [|done]. eapply file_ok_rebase; [apply _|exact Hf|exact Hr|].
  intros x Hin. apply Hx. rewrite Hbl, file_blocks_perm. exact Hin.
Qed.

Lemma file_at_some r f x : file_at r f -> x ∈ f_blocks f -> is_Some (pages r !! x).
Proof.
  intros (r0 & r1 & st & bl & init & b & d & blch & Hf & Hb & Hne & Hbl & Hx) Hin. rewrite (Hx x Hin).
  rewrite Hbl, file_blocks_perm in Hin. by eapply file_blocks.
Qed.

(** It reads back, and gives all its blocks for freeing. *)
Lemma file_at_read r f (Q : list Z -> rel -> Prop) : rel_ok r -> file_at r f -> Q (f_bytes f) r ->
  runs (LinkedBytes.read_all (f_start f)) r Q.
Proof.
  intros Hr Hf HQ. destruct (file_at_ok r f Hr Hf) as (r0 & st & bl & init & b & d & blch & Hok & Eb & _ & _).
  eapply read_all_spec; [exact HMAX|apply _|exact Hok|]. by rewrite <- Eb.
Qed.

Lemma file_at_freeable r f (Q : list Z -> rel -> Prop) : rel_ok r -> file_at r f -> Q (f_blocks f) r ->
  runs (LinkedBytes.freeable_blocks pk (f_start f)) r Q.
Proof.
  intros Hr Hf HQ. destruct (file_at_ok r f Hr Hf) as (r0 & st & bl & init & b & d & blch & Hok & Eb & Hne & Ebl).
  eapply freeable_blocks_spec; [exact Hok|]. rewrite decide_False by (by rewrite <- Eb). by rewrite <- Ebl.
Qed.

(** ** Segments *)

(** A segment: its entry, its files if it is immutable, the blocks that are its own.  Of an
    "orphaned" entry only the delete file is its own. *)
Record segment := mkSeg { s_entry : SegmentMetaEntry; s_files : list file; s_blocks : list Z }.

Definition own_starts (e : SegmentMetaEntry) (c : SegmentMetaEntryImmutable) : list Z :=
  if is_orphaned_delete e then option_list ((fun d => starting_block (file_entry_of d)) <$> delete c)
  else (fun p => starting_block p.1) <$> file_entries c.

Definition list_at r (hb : Z) (bs : list Z) : Prop := exists r0 r1 (ch : list (Z * list MutableSegmentEntry)),
  ilist r0 r1 hb ch /\ bs = hb :: ch.*1 /\ forall x, x ∈ bs -> pages r !! x = pages r1 !! x.

Definition seg_at r (s : segment) : Prop :=
  match SegmentMeta.content (s_entry s) with
  | Immutable c =>
      own_starts (s_entry s) c = f_start <$> s_files s /\ Forall (file_at r) (s_files s) /\
      s_blocks s = s_files s ≫= f_blocks /\ (is_orphaned_delete (s_entry s) = true -> is_Some (delete c))
  | Mutable c => list_at r (header_block c) (s_blocks s)
  end.

Lemma seg_at_frame r r' s : seg_at r s -> (forall x, x ∈ s_blocks s -> pages r' !! x = pages r !! x) -> seg_at r' s.
Proof.
  unfold seg_at. destruct (SegmentMeta.content (s_entry s)) as [c|c].
  - intros (Hst & Hf & Hb & Ho) Hx. split; [done|]. split; [|done]. rewrite Forall_forall in *. intros f Hin.
    eapply file_at_frame; [by apply Hf|]. intros x Hxf. apply Hx. rewrite Hb. apply list_elem_of_bind. by exists f.
  - intros (r0 & r1 & ch & Hl & Hb & Hx) Hx'. exists r0, r1, ch. split; [done|]. split; [done|]. intros x Hin. rewrite Hx' by done. by apply Hx.
Qed.

Lemma seg_at_some r s x : seg_at r s -> x ∈ s_blocks s -> is_Some (pages r !! x).
Proof.
  unfold seg_at. destruct (SegmentMeta.content (s_entry s)) as [c|c].
  - intros (Hst & Hf & Hb & Ho). rewrite Hb. intros (f & Hx & Hin)%list_elem_of_bind. rewrite Forall_forall in Hf. by eapply file_at_some; [apply Hf, Hin|].
  - intros (r0 & r1 & ch & Hl & -> & Hx) Hin. rewrite Hx by done. by eapply ilist_blocks.
Qed.

Lemma collect_blocks_spec {A B} (g : A -> M rel unit (list Z)) (h : B -> A) (blocks : B -> list Z) xs r (Q : list Z -> rel -> Prop) :
  (forall x (Q : list Z -> rel -> Prop), x ∈ xs -> Q (blocks x) r -> runs (g (h x)) r Q) -> Q (xs ≫= blocks) r ->
  runs (collect g (h <$> xs)) r Q.
Proof.
  revert Q. induction xs as [|x xs IH]; intros Q Hg HQ; cbn [collect fmap list_fmap]; [by apply runs_ret|].
  apply runs_bind, Hg; [left|]. apply runs_bind, IH; [intros y Q' Hy; apply Hg; by right|]. by apply runs_ret.
Qed.

Lemma collect_fmap {A B} (g : A -> M rel unit (list Z)) (h : B -> A) xs : collect g (h <$> xs) = collect (fun x => g (h x)) xs.
Proof. induction xs as [|x xs IH]; [done|]. cbn [collect fmap list_fmap]. by rewrite <- IH. Qed.

(** What [freeable_blocks] of an entry finds are the segment's own blocks. *)
Lemma entry_freeable_spec r s (Q : list Z -> rel -> Prop) : rel_ok r -> seg_at r s -> Q (s_blocks s) r ->
  runs (entry_freeable_blocks pk (s_entry s)) r Q.
Proof.
  intros Hr Hs HQ. unfold seg_at, own_starts in Hs. unfold entry_freeable_blocks.
  destruct (SegmentMeta.content (s_entry s)) as [c|c].
  - destruct Hs as (Hst & Hf & Hb & Ho). rewrite Forall_forall in Hf. destruct (is_orphaned_delete (s_entry s)).
    + destruct (Ho eq_refl) as [dl Hd]. rewrite Hd in *. cbn [fmap option_fmap option_map option_list] in Hst.
      destruct (s_files s) as [|f [|? ?]]; try discriminate Hst. injection Hst as Hst.
      apply runs_bind, runs_ret. rewrite Hst. apply file_at_freeable; [done|apply Hf; left|].
      rewrite Hb in HQ. cbn in HQ. by rewrite app_nil_r in HQ.
    + rewrite <- (collect_fmap (LinkedBytes.freeable_blocks pk) (fun p => starting_block p.1)), Hst.
      apply (collect_blocks_spec _ f_start f_blocks); [|by rewrite <- Hb]. intros f Q' Hin HQ'. by apply file_at_freeable; [|apply Hf|].
  - destruct Hs as (r0 & r1 & ch & Hl & Hb & Hx).
    eapply freeable_blocks_items_spec; [eapply ilist_rebase; [exact Hl|exact Hr|rewrite <- Hb; exact Hx]|]. by rewrite <- Hb.
Qed.

(** The list [hb] of the segments [ss], and all that belongs to them. *)
Definition segments_ok r hb ch (ss : list segment) : Prop :=
  owners_ok s_blocks seg_at r hb ch ss /\ items ch = s_entry <$> ss.

(** ** Collecting *)

Definition dead (cleanup : Z -> bool) (ss : list segment) : list segment := filter (fun s => goes cleanup (s_entry s) = true) ss.
Definition live (cleanup : Z -> bool) (ss : list segment) : list segment := filter (fun s => goes cleanup (s_entry s) = false) ss.

Lemma live_dead cleanup ss : ss ≡ₚ live cleanup ss ++ dead cleanup ss.
Proof.
  unfold live, dead. induction ss as [|s ss IH]; [done|]. rewrite !filter_cons. destruct (goes cleanup (s_entry s)).
  - rewrite decide_False, decide_True by done. rewrite <- Permutation_middle. by constructor.
  - rewrite decide_True, decide_False by done. simpl. by constructor.
Qed.

Lemma filter_entries (f : SegmentMetaEntry -> bool) b (ss : list segment) :
  filter (fun e => f e = b) (s_entry <$> ss) = s_entry <$> filter (fun s => f (s_entry s) = b) ss.
Proof. induction ss as [|s ss IH]; [done|]. rewrite fmap_cons, !filter_cons. case_decide; [rewrite fmap_cons|]; by rewrite IH. Qed.

Lemma foldr_release r3 r4 hb (ch2 : list (Z * list SegmentMetaEntry)) ss cleanup : owners_ok s_blocks seg_at r3 hb ch2 ss -> rel_ok r4 ->
  pages r4 = foldr base.delete (pages r3) (dead cleanup ss ≫= s_blocks) -> owners_ok s_blocks seg_at r4 hb ch2 (live cleanup ss).
Proof.
  intros [Hl Hat Ha] Hr4 Hpg. pose proof (live_dead cleanup ss) as Hp. rewrite Hp, bind_app, app_comm_cons, app_assoc in Ha.
  apply NoDup_app in Ha as (Hnd & Hdis & _).
  eapply (owners_frame s_blocks seg_at seg_at_frame r3); [|done|].
  - split; [done| |done]. rewrite Forall_forall in *. intros s [_ Hs]%list_elem_of_filter. auto.
  - intros b Hb. rewrite Hpg, foldr_delete_lookup, decide_False; [done|]. by apply Hdis.
Qed.

(** ** Saving a segment *)

(** A file is written and an entry that names it is added to the list. *)
Definition save_segment (entry : Z -> SegmentMetaEntry) (parts : list (list Z)) (hb : Z) : M rel unit unit :=
  start ← create_file pk MAX parts; LinkedItems.add_items [entry start] hb.

Lemma save_segment_spec entry parts r hb ch ss (Q : unit -> rel -> Prop) : segments_ok r hb ch ss -> concat parts <> [] ->
  (forall start, storable (into_item (entry start)) /\ is_orphaned_delete (entry start) = false /\
     exists c, SegmentMeta.content (entry start) = Immutable c /\ own_starts (entry start) c = [start]) ->
  (forall r' ch' ss' s, segments_ok r' hb ch' ss' -> ss' ≡ₚ s :: ss -> s_entry s = entry (default 0 (f_start <$> head (s_files s))) ->
     f_bytes <$> s_files s = [concat parts] -> Q tt r') ->
  runs (save_segment entry parts hb) r Q.
Proof.
  intros [Ho Hi] Hne He HQ. pose proof (ow_list _ _ _ _ _ _ Ho) as [r0 Hl]. unfold save_segment. apply runs_bind.
  eapply (create_file_spec pk pk_ok MAX HMAX); [apply (il_rel _ _ _ _ Hl)|]. intros r1 start st bl init b d blch Hf Hc.
  destruct (He start) as (Hst & Ho1 & c & Ec & Es). pose proof (file_blocks_perm start init b blch) as Hp.
  set (f := mkFileAt start (concat parts) ((init.*1 ++ [b]) ++ [start] ++ blch.*1)).
  set (s := mkSeg (entry start) [f] (f_blocks f)).
  assert (seg_at r1 s) as Hs.
  { unfold seg_at. cbn [s s_entry s_files s_blocks]. rewrite Ec, Es, Ho1. split; [done|]. split; [|by cbn; rewrite app_nil_r].
    constructor; [|done]. by exists r, r1, st, bl, init, b, d, blch. }
  eapply (owners_add_item s_blocks seg_at seg_at_frame seg_at_some) with (entry := s_entry) (x := s); [|exact Hi|exact Hst|].
  - eapply (owners_add s_blocks seg_at seg_at_frame seg_at_some); [exact Ho|apply (fo_rel _ _ _ _ _ _ _ _ _ _ _ Hf)|exact Hs| | |].
    + cbn [s s_blocks f f_blocks]. rewrite Hp. apply (fo_nodup _ _ _ _ _ _ _ _ _ _ _ Hf).
    + cbn [s s_blocks f f_blocks]. intros x. rewrite Hp. apply (fo_fresh _ _ _ _ _ _ _ _ _ _ _ Hf).
    + intros x [p Hx]. apply (fo_frame _ _ _ _ _ _ _ _ _ _ _ Hf). intros Hin%(fo_fresh _ _ _ _ _ _ _ _ _ _ _ Hf). congruence.
  - intros r2 ch2 ss2 Ho2 Hi2 Hp2. by apply (HQ r2 ch2 ss2 s).
Qed.

Lemma create_segments_ok r0 (Q : Z -> rel -> Prop) : rel_ok r0 ->
  (forall r hb ch, segments_ok r hb ch [] -> Q hb r) -> runs LinkedItems.create_with_fsm r0 Q.
Proof.
  intros Hr HQ. apply (create_spec (T := SegmentMetaEntry)); [done|]. intros r hb st Hl. apply (HQ r hb [(st, [])]). split; [|done].
  split; [by eexists|constructor|]. apply (il_nodup _ _ _ _ Hl).
Qed.

(** What is collected, what stays, and where the blocks go. *)
Lemma garbage_collected r hb ch ss cleanup current_xid next_xid commit_xid :
  segments_ok r hb ch ss -> Forall (fun s => testable cleanup (s_entry s) = true) ss ->
  normal_xid current_xid -> normal_xid next_xid -> normal_xid commit_xid ->
  runs (garbage_collect_index pk cleanup current_xid next_xid commit_xid hb) r (fun _ r' => exists ch',
    segments_ok r' hb ch' (live cleanup ss) /\
    (forall b, b ∉ hb :: ch'.*1 -> pages r' !! b =
       if decide (b ∈ ch.*1 ++ (dead cleanup ss ≫= s_blocks)) then None else pages r !! b) /\
    owned (fsm r') = block_range 1 (nblocks (fsm r')) ∖ (dom (pages r') ∪ elsewhere)).
Proof.
  intros [Ho Hi] Ht Hc Hn Hm. pose proof (owners_rebase _ _ _ _ _ _ Ho) as Hl. unfold garbage_collect_index.
  apply runs_bind. eapply (atomically_spec (T := SegmentMetaEntry)); [exact Hl|]. intros r1 cb ch1 Hl1 E1%items_same.
  apply runs_bind. eapply list_spec; [exact Hl1|]. rewrite E1, Hi. apply runs_bind.
  replace (forallb (testable cleanup) (s_entry <$> ss)) with true.
  2: { symmetry. apply forallb_forall. intros e (s & -> & Hs)%list_elem_of_In%list_elem_of_fmap. rewrite Forall_forall in Ht. by apply Ht. }
  apply runs_ret, runs_bind. eapply retain_spec; [done|exact Hl1|]. intros r2 ch2 Hl2 E2. rewrite E1, Hi in *. rewrite filter_entries in *.
  apply runs_bind. eapply (commit_spec (T := SegmentMetaEntry)); [done|exact Hl|exact Hl2|]. intros r3 Hl3. clear Hl1 Hl2 r1 r2 cb E1 ch1.
  assert (NoDup (ss ≫= s_blocks)) as Hnd by (pose proof (ow_apart _ _ _ _ _ _ Ho) as Hx; by apply (NoDup_app (hb :: ch.*1)) in Hx as (_ & _ & ?)).
  assert (owners_ok s_blocks seg_at r3 hb ch2 ss) as Ho3.
  { eapply (owners_item_change s_blocks seg_at seg_at_frame seg_at_some); [exact Ho|exact Hl3|done|done]. }
  pose proof (ow_at _ _ _ _ _ _ Ho3) as Hat. rewrite Forall_forall in Hat. pose proof (il_rel _ _ _ _ Hl3) as Hr3.
  unfold free_entries. apply runs_bind. apply (collect_blocks_spec _ s_entry s_blocks).
  { intros s Q [_ Hs]%list_elem_of_filter HQ. apply entry_freeable_spec; [done|by apply Hat|done]. }
  fold (dead cleanup ss). fold (live cleanup ss) in E2. eapply runs_release; [done|done| | |].
  - rewrite (live_dead cleanup ss), bind_app in Hnd. by apply NoDup_app in Hnd as (_ & _ & ?).
  - intros b (s & Hb & [_ Hs]%list_elem_of_filter)%list_elem_of_bind. by eapply seg_at_some; [apply Hat|].
  - intros r4 Hr4 Hpg. exists ch2. split; [split; [by eapply foldr_release|done]|]. split; [|by apply rel_ok_owned].
    intros b Hb. rewrite Hpg, foldr_delete_lookup, (il_frame _ _ _ _ Hl3 b Hb). cbn [without pages]. rewrite foldr_delete_lookup.
    apply not_elem_of_cons in Hb as [Hb _].
    destruct (decide (b ∈ dead cleanup ss ≫= s_blocks)), (decide (b ∈ hb :: ch.*1)) as [Hx|Hx], (decide (b ∈ ch.*1 ++ (dead cleanup ss ≫= s_blocks))) as [Hy|Hy];
      try done; exfalso; set_solver.
Qed.

(** *** What may be collected *)

(** A merge or a vacuum has deleted the segment. *)
Definition was_deleted (s : segment) : bool := h_xmax (header (s_entry s)) =? FrozenTransactionId.

(** Nobody uses the segment: a reader would have its first block pinned, so that no cleanup lock
    is granted for it. *)
Definition not_in_use (cleanup : Z -> bool) (s : segment) : bool :=
  match pintest_blockno (s_entry s) with Some b => (b =? InvalidBlockNumber) || cleanup b | None => false end.

Lemma goes_spec cleanup s : goes cleanup (s_entry s) = was_deleted s && not_in_use cleanup s.
Proof. unfold goes, recyclable, is_deleted, was_deleted, not_in_use, xmax. destruct (_ =? FrozenTransactionId); [|done]. by destruct (pintest_blockno _). Qed.

Lemma testable_spec cleanup s : (was_deleted s = true -> is_Some (pintest_blockno (s_entry s))) -> testable cleanup (s_entry s) = true.
Proof.
  unfold testable, recyclable, is_deleted, was_deleted, xmax. destruct (_ =? FrozenTransactionId); [|done]. intros Hp. by destruct (Hp eq_refl) as [b ->].
Qed.

(** C38: Garbage collection of an index frees the segments that are marked as deleted and whose
    first block nobody has pinned, and nothing else: the list afterwards holds the other segments
    in their order, all their files and lists are where they were with the same bytes; outside the
    pages of the new list exactly the pages of the old list and of the freed segments are gone;
    and the blocks that are no page any more are the free space manager's.  Every deleted segment
    has a file (without one the collection panics), and no file is empty. *)
Theorem gc_frees_dead_segments r hb ch ss cleanup current_xid next_xid commit_xid :
  segments_ok r hb ch ss -> Forall (fun s => was_deleted s = true -> is_Some (pintest_blockno (s_entry s))) ss ->
  normal_xid current_xid -> normal_xid next_xid -> normal_xid commit_xid ->
  runs (garbage_collect_index pk cleanup current_xid next_xid commit_xid hb) r (fun _ r' => exists ch',
    segments_ok r' hb ch' (filter (fun s => was_deleted s && not_in_use cleanup s = false) ss) /\
    (forall b, b ∉ hb :: ch'.*1 -> pages r' !! b =
       if decide (b ∈ ch.*1 ++ (filter (fun s => was_deleted s && not_in_use cleanup s = true) ss ≫= s_blocks)) then None else pages r !! b) /\
    owned (fsm r') = block_range 1 (nblocks (fsm r')) ∖ (dom (pages r') ∪ elsewhere)).
Proof.
  intros Hs Ht Hc Hn Hm. assert (Forall (fun s => testable cleanup (s_entry s) = true) ss) as Ht'.
  { eapply Forall_impl; [exact Ht|]. intros s. apply testable_spec. }
  assert (dead cleanup ss = filter (fun s => was_deleted s && not_in_use cleanup s = true) ss) as <- by (unfold dead; apply list_filter_iff; intros s; by rewrite goes_spec).
  assert (live cleanup ss = filter (fun s => was_deleted s && not_in_use cleanup s = false) ss) as <- by (unfold live; apply list_filter_iff; intros s; by rewrite goes_spec).
  by apply (garbage_collected r hb ch ss cleanup current_xid next_xid commit_xid).
Qed.

End garbage.

(** ** Example *)

Definition entry_tuple (e : SegmentMetaEntry) :=
  let f x := (starting_block x, total_bytes x) in
  ((h_segment_id (header e), h_max_doc (header e), tag_to_u32 (h_tag (header e)), h_xmax (header e)),
   match SegmentMeta.content e with
   | Immutable c => inl (f <$> postings c, f <$> positions c, f <$> fast_fields c, f <$> field_norms c, f <$> terms c,
                         f <$> store c, f <$> temp_store c, (fun d => (f (file_entry_of d), d_num_deleted_docs d)) <$> delete c)
   | Mutable c => inr (header_block c, m_num_deleted_docs c, frozen c)
   end).

Definition entry_of_tuple (x : (Z * Z * Z * Z) * _) : SegmentMetaEntry :=
  let f (p : Z * Z) := mkFile p.1 p.2 in
  let '((i, m, t, x), c) := x in
  mkEntry (mkHeader i m (if t =? 1 then TagMutable else TagImmutable) x)
    match c with
    | inl (a1, a2, a3, a4, a5, a6, a7, a8) =>
        Immutable (mkImmutable (f <$> a1) (f <$> a2) (f <$> a3) (f <$> a4) (f <$> a5) (f <$> a6) (f <$> a7)
          ((fun d : (Z * Z) * Z => mkDelete (f d.1) d.2) <$> a8))
    | inr (h, n, fr) => Mutable (mkMutable h n fr)
    end.

Lemma entry_of_entry_tuple e : entry_of_tuple (entry_tuple e) = e.
Proof.
  destruct e as [[i m [] x] [[a1 a2 a3 a4 a5 a6 a7 a8]|[h n fr]]]; cbn; [|done| |done].
  all: repeat match goal with o : option FileEntry |- _ => destruct o as [[]|] | o : option DeleteEntry |- _ => destruct o as [[[] ?]|] end; done.
Qed.

(** An item of one number. *)
Definition entry_from_number (l : list Z) : SegmentMetaEntry :=
  match l with
  | [Zpos n] => from_option entry_of_tuple (new_mutable 0 0 0 (mkMutable 0 0 false)) (decode n)
  | _ => new_mutable 0 0 0 (mkMutable 0 0 false)
  end.

#[local] Program Instance SegmentMetaEntry_ItemCodec : ItemCodec SegmentMetaEntry :=
  Build_ItemCodec _ (fun e => [Zpos (encode (entry_tuple e))]) entry_from_number _ _.
Next Obligation. intros e. cbn [entry_from_number]. rewrite decode_encode. cbn [from_option]. apply entry_of_entry_tuple. Qed.
Next Obligation. done. Qed.

Definition change_from_numbers (l : list Z) : MutableSegmentEntry :=
  match l with [0; ctid] => Add ctid | [_; ctid] => Remove ctid | _ => Add 0 end.

#[local] Program Instance MutableSegmentEntry_ItemCodec : ItemCodec MutableSegmentEntry :=
  Build_ItemCodec _ (fun e => match e with Add ctid => [0; ctid] | Remove ctid => [1; ctid] end) change_from_numbers _ _.
Next Obligation. by intros []. Qed.
Next Obligation. by intros []. Qed.

(** Two segments with a postings file each, the second one deleted. *)
Definition live_entry (start : Z) : SegmentMetaEntry :=
  new_immutable 11 5 0 (mkImmutable (Some (mkFile start 3)) None None None None None None None).
Definition dead_entry (start : Z) : SegmentMetaEntry :=
  new_immutable 12 5 FrozenTransactionId (mkImmutable (Some (mkFile start 1500)) None None None None None None None).

#[local] Existing Instance small_elsewhere.

Lemma one_file_segment (mk : Z -> SegmentMetaEntry) : mk = live_entry \/ mk = dead_entry -> forall start,
  storable (into_item (mk start)) /\ is_orphaned_delete (mk start) = false /\
  exists c, SegmentMeta.content (mk start) = Immutable c /\ own_starts (mk start) c = [start].
Proof.
  intros Hmk start. split; [change (1 < 8)%nat; lia|]. destruct Hmk as [-> | ->]; (split; [done|]); (eexists; split; [reflexivity|]); done.
Qed.

Lemma gc_frees_dead_segments_witness :
  runs (hb ← LinkedItems.create_with_fsm; save_segment plain_packer 1100 dead_entry [replicate 1500 7] hb;;
        save_segment plain_packer 1100 live_entry [[1; 2]; [3]] hb;;
        garbage_collect_index plain_packer (fun _ => true) 8 9 9 hb;;
        es ← LinkedItems.list hb; collect (fun e => match SegmentMeta.content e with
                                                    | Immutable c => collect (fun p => LinkedBytes.read_all (starting_block p.1)) (file_entries c)
                                                    | _ => mret [] end) es) small_rel
    (fun bytes _ => bytes = [1; 2; 3]).
Proof.
  assert (forall x, 3 <= x -> normal_xid x) as Hn by (intros x Hx; exact Hx).
  apply runs_bind. apply (create_segments_ok plain_packer 1100 small_rel _ small_rel_ok). intros r hb ch Hs.
  apply runs_bind. apply (save_segment_spec plain_packer plain_packer_ok 1100 ltac:(lia) dead_entry [replicate 1500 7] r hb ch []);
    [exact Hs|discriminate|apply one_file_segment; right; reflexivity|].
  intros r1 ch1 ss1 s1 Hs1 Hp1 E1 B1. apply runs_bind.
  apply (save_segment_spec plain_packer plain_packer_ok 1100 ltac:(lia) live_entry [[1; 2]; [3]] r1 hb ch1 ss1);
    [exact Hs1|discriminate|apply one_file_segment; left; reflexivity|].
  intros r2 ch2 ss2 s2 Hs2 Hp2 E2 B2. apply runs_bind. rewrite Hp1 in Hp2.
  eapply runs_mono.
  { apply (gc_frees_dead_segments plain_packer plain_packer_ok 1100 ltac:(lia) r2 hb ch2 ss2 (fun _ => true) 8 9 9); [exact Hs2| |apply Hn; lia..].
    rewrite Hp2. repeat constructor; [rewrite E2|rewrite E1]; intros _; eexists; reflexivity. }
  intros [] r3 (ch3 & Hs3 & _ & _).
  assert (forall s, was_deleted s = (h_xmax (header (s_entry s)) =? FrozenTransactionId)) as Hdel by reflexivity.
  set (keep := fun s => was_deleted s && not_in_use (fun _ => true) s = false) in Hs3.
  assert (filter keep ss2 = [s2]) as El.
  { assert (filter keep ss2 ≡ₚ filter keep [s2; s1]) as Hx by (by rewrite Hp2).
    apply Permutation_singleton_r. rewrite Hx. rewrite filter_cons, decide_True, filter_cons, decide_False; [done| |]; unfold keep, not_in_use; rewrite Hdel.
    - rewrite E1. cbn. by rewrite orb_true_r.
    - rewrite E2. done. }
  rewrite El in Hs3. destruct Hs3 as [[[r4 Hl] Hat _] Hi]. apply runs_bind. eapply list_spec; [exact Hl|]. rewrite Hi.
  apply Forall_cons in Hat as [Hat _]. unfold seg_at in Hat. rewrite E2 in Hat. cbn [live_entry new_immutable SegmentMeta.content] in Hat.
  destruct Hat as (Hst & Hf & _). destruct (s_files s2) as [|f [|? ?]]; try discriminate B2. injection B2 as B2.
  cbn [fmap list_fmap collect]. rewrite E2. cbn [live_entry new_immutable SegmentMeta.content file_entries collect app postings].
  do 2 apply runs_bind. eapply (file_at_read plain_packer 1100); [lia|apply _|apply (il_rel _ _ _ _ Hl)|apply Forall_cons in Hf as [Hf _]; exact Hf|].
  rewrite B2. done.
Defined.
