(* ===== verification/MergeDriverProps.v ===== *)
(** * Merges never share a segment *)

From stdpp Require Import prelude gmap sorting.
From Stdlib Require Import ZArith Lia.
From S2P Require Import Prelude SegmentMeta Pages BlockList BlockListProps LinkedBytes LinkedBytesProps LinkedItems LinkedItemsProps ItemOwners MergeList MergeListProps MergePolicy MergePolicyProps MergeDriver GarbageProps.
From stdpp Require Import list.
Import MergeDriver.

Local Open Scope Z_scope.

(** ** The policy decides *)

Section policy.
Import MergePolicy.

(** What a merger sees: segments with documents under distinct ids, fewer than 2^64
    documents in all. *)
Definition total_docs (l : list (Z * SegmentMetaEntry)) : Z := foldr (fun e n => SegmentMeta.max_doc e.2 + n) 0 l.

Record entries_ok (l : list (Z * SegmentMetaEntry)) : Prop := {
  eo_keys : NoDup l.*1;
  eo_ids : Forall (fun e => e.1 = SegmentMeta.segment_id e.2) l;
  eo_docs : Forall (fun e => 0 < SegmentMeta.max_doc e.2) l;
  eo_total : total_docs l < 2 ^ 64;
}.

Lemma sublist_Forall {A} (P : A -> Prop) l l' : sublist l' l -> Forall P l -> Forall P l'.
Proof. induction 1; [done|..]; intros [Hx Hl]%Forall_cons; auto. Qed.

Lemma entries_ok_sub l l' : sublist l' l -> entries_ok l -> entries_ok l'.
Proof.
  intros Hs [Hk Hi Hd Ht]. split.
  - eapply sublist_NoDup; [exact Hk|]. by apply fmap_sublist.
  - by eapply sublist_Forall.
  - by eapply sublist_Forall.
  - enough (0 <= total_docs l' <= total_docs l) by lia. clear -Hs Hd.
    induction Hs as [|x l1 l2 Hs IH|x l1 l2 Hs IH]; cbn [total_docs foldr]; [lia|..];
      apply Forall_cons in Hd as [Hx Hd]; apply IH in Hd; unfold total_docs in *; lia.
Qed.

Lemma docs_of_entry e : 0 < SegmentMeta.max_doc e < 2 ^ 64 ->
  u64 (SegmentMeta.num_docs e + SegmentMeta.num_deleted_docs e) = SegmentMeta.max_doc e.
Proof.
  intros Hm. unfold SegmentMeta.num_docs, u64, wrap. rewrite Zplus_mod_idemp_l, Z.sub_add. apply Z.mod_small. lia.
Qed.

Lemma sum_docs acc l : entries_ok l -> 0 <= acc -> acc + total_docs l < 2 ^ 64 ->
  foldl (fun a x => u64 (a + x)) acc ((fun e => u64 (SegmentMeta.num_docs e.2 + SegmentMeta.num_deleted_docs e.2)) <$> l) =
    acc + total_docs l.
Proof.
  intros [_ _ Hd _]. revert acc. induction Hd as [|x l Hx Hd IH]; intros acc Ha Ht; cbn [fmap list_fmap foldl total_docs foldr] in *; [lia|].
  fold (total_docs l) in *.
  assert (0 <= total_docs l) by (clear -Hd; induction Hd; cbn [total_docs foldr]; unfold total_docs in *; lia).
  rewrite docs_of_entry by lia. unfold u64 at 2, wrap. rewrite Z.mod_small by lia. rewrite IH by lia. lia.
Qed.

Lemma avg_doc_size_some p : entries_ok (mergeable_segments p) -> mergeable_segments p <> [] -> exists avg, avg_doc_size p = Some avg.
Proof.
  intros He Hne. unfold avg_doc_size, sum_u64. pose proof (eo_total _ He). rewrite (sum_docs 0) by (done || lia).
  destruct He as [_ _ Hd _]. destruct Hd as [|x l Hx Hd]; [done|].
  assert (0 <= total_docs l) by (clear -Hd; induction Hd; cbn [total_docs foldr]; unfold total_docs in *; lia).
  cbn [total_docs foldr]. fold (total_docs l). destruct (Z.eqb_spec (0 + (SegmentMeta.max_doc x.2 + total_docs l)) 0); [lia|]. by eexists.
Qed.

Lemma segment_ids_of l : entries_ok l -> id <$> ((fun e => segment_of e.2) <$> l) = l.*1.
Proof. intros [_ Hi _ _]. induction Hi as [|x l Hx _ IH]; [done|]. rewrite !fmap_cons, IH. f_equal. rewrite Hx. unfold segment_of, SegmentMeta.as_tantivy. by destruct (SegmentMeta.content x.2). Qed.

(** A fresh policy over such segments always decides; the segments it keeps are those of its
    candidates. *)
Lemma simulate_decides p : entries_ok (mergeable_segments p) -> already_processed p = false ->
  exists cands p', simulate p = (Ok cands, p') /\ NoDup (concat cands) /\
    mergeable_segments p' = filter (fun e => e.1 ∈ (list_to_set (concat cands) : gset Z)) (mergeable_segments p) /\
    forall i, i ∈ concat cands -> i ∈ (mergeable_segments p).*1.
Proof.
  intros He Hap. unfold simulate. set (segs := (fun e => segment_of e.2) <$> mergeable_segments p).
  assert (id <$> segs = (mergeable_segments p).*1) as Hids by (by apply segment_ids_of).
  assert (NoDup (id <$> segs)) as Hnds by (rewrite Hids; apply He).
  destruct (compute_merge_candidates p segs) as [o p1] eqn:E.
  assert (exists cands, o = Ok cands /\ mergeable_segments p1 = mergeable_segments p) as (cands & -> & Ep).
  { destruct (decide (mergeable_segments p = [])) as [Hm|Hm].
    - assert (segs = []) as Es by (unfold segs; by rewrite Hm). rewrite Es in E. injection E as <- <-. by eexists.
    - destruct (avg_doc_size_some p He Hm) as [avg Ha]. rewrite (compute_unfold p segs Hnds avg) in E; [|by destruct (mergeable_segments p)|done|done|done].
      injection E as <- <-. eexists. split; [done|]. by case_match. }
  eexists _, _. split; [done|].
  destruct (candidates_distinct p segs Hnds ltac:(apply He) cands p1 E) as [Hnd Hin].
  split; [done|]. split; [by rewrite <- Ep|]. intros i [_ Hi]%Hin. by rewrite <- Hids.
Qed.

End policy.

(** ** Merges that begin and end *)

Section merges.
Variable pk : BlockList.width -> BlockList.packer.
Hypothesis pk_ok : forall w, packer_ok w (pk w).
Variable MAX : Z.
Hypothesis HMAX : 1030 <= MAX.
Context `{ItemCodec MergeEntry} `{ItemSpace}.
Hypothesis entry_storable : forall e : MergeEntry, storable (into_item e).
Context {F : Type} `{FreeSpaceManager F} {Els : Elsewhere}.
(** tantivy: the bytes of an id are 16, and give the id back. *)
Variables (uuid_bytes : Z -> MergeList.SegmentIdBytes) (id_of_bytes : MergeList.SegmentIdBytes -> Z).
Hypothesis uuid_length : forall i, length (uuid_bytes i) = MergeList.id_size.
Hypothesis uuid_roundtrip : forall i, id_of_bytes (uuid_bytes i) = i.

Abbreviation rel := (rel F lpage).
Abbreviation running := (list (list Z) * MergeEntry)%type.
Implicit Types (r : rel) (ms : list MergeListProps.merge).

(** A merge begins, with its layers, the vacuum list and the segments it sees, or the one at
    a position ends: the two parts of [merge_index] under the merge lock. *)
Inductive event :=
| Begins (be : backend (F := F)) (xid : Z) (layers : list Z) (vacuum : gset Z) (all_entries : list (Z * SegmentMeta.SegmentMetaEntry))
| Ends (i : nat) (xid : Z).

Definition step (hb : Z) (run : list running) (ev : event) : M rel unit (list running) :=
  match ev with
  | Begins be xid layers vacuum all_entries =>
      o ← begin_merge pk MAX uuid_bytes id_of_bytes be xid hb (MergePolicy.new layers) vacuum all_entries;
      mret (run ++ option_list o)
  | Ends i xid =>
      match run !! i with
      | Some x => removed ← MergeList.remove_entry pk xid x.2 hb; _ ← unwrap removed; mret (delete i run)
      | None => mret run
      end
  end.

Fixpoint steps (hb : Z) (run : list running) (evs : list event) : M rel unit (list running) :=
  match evs with
  | [] => mret run
  | ev :: evs => run ← step hb run ev; steps hb run evs
  end.

Definition event_ok (ev : event) : Prop := match ev with Begins _ _ _ _ l => entries_ok l | Ends _ _ => True end.

(** The segments that are being merged. *)
Definition merging (run : list running) : list Z := run ≫= (fun x => concat x.1).

Definition tracked (x : running) (m : MergeListProps.merge) : Prop :=
  x.2 = m_entry m /\ NoDup (concat x.1) /\ forall i, i ∈ concat x.1 -> uuid_bytes i ∈ m_ids m.

(** The merge list has an entry for each, with distinct ids. *)
Definition history_ok r hb (run : list running) : Prop := exists ch ms ms',
  merges_ok MAX r hb ch ms /\ ms ≡ₚ ms' /\ Forall2 tracked run ms' /\ NoDup (ms' ≫= m_ids).

Lemma history_merging r hb run : history_ok r hb run -> NoDup (merging run).
Proof.
  intros (ch & ms & ms' & _ & _ & Ht & Hnd). unfold merging. induction Ht as [|x m run ms' (_ & Hx & Hin) Ht IH]; [constructor|].
  rewrite bind_cons in *. apply NoDup_app in Hnd as (_ & Hdis & Hnd). apply NoDup_app. split; [done|]. split; [|by apply IH].
  intros i Hi (y & Hiy & Hy)%list_elem_of_bind. apply (Hdis (uuid_bytes i)); [by apply Hin|].
  apply list_elem_of_lookup in Hy as [n Hy]. destruct (Forall2_lookup_l _ _ _ _ _ Ht Hy) as (m' & Hm' & (_ & _ & Hin')).
  apply list_elem_of_bind. exists m'. split; [by apply Hin'|]. by eapply list_elem_of_lookup_2.
Qed.

Lemma run_policy_spec layers vacuum all_entries r hb ch ms (Q : list (list Z) * MergePolicy.LayeredMergePolicy -> rel -> Prop) :
  merges_ok MAX r hb ch ms -> entries_ok all_entries ->
  (forall cands p, NoDup (concat cands) -> NoDup (MergePolicy.mergeable_segments p).*1 ->
     (forall i, i ∈ concat cands -> i ∈ (MergePolicy.mergeable_segments p).*1) ->
     (forall i, i ∈ (MergePolicy.mergeable_segments p).*1 -> uuid_bytes i ∉ ms ≫= m_ids) -> Q (cands, p) r) ->
  runs (run_policy id_of_bytes (MergePolicy.new layers) vacuum all_entries hb) r Q.
Proof.
  intros Hm He HQ. unfold run_policy. apply runs_bind. eapply (list_segment_ids_spec MAX HMAX); [exact Hm|].
  set (ids := concat (m_ids <$> ms)). set (p0 := MergePolicy.set_mergeable_segment_entries _ _ _ _).
  assert (entries_ok (MergePolicy.mergeable_segments p0)) as He0 by (eapply entries_ok_sub; [apply sublist_filter|exact He]).
  destruct (simulate_decides p0 He0 eq_refl) as (cands & p' & -> & Hnd & Hms & Hin). apply runs_ret, HQ; [done|..].
  - rewrite Hms. eapply sublist_NoDup; [apply He0|]. apply fmap_sublist, sublist_filter.
  - intros i Hi. rewrite Hms. apply Hin in Hi as Hk. apply list_elem_of_fmap in Hk as (e & -> & Hk).
    apply list_elem_of_fmap_2, list_elem_of_filter. split; [by apply elem_of_list_to_set|done].
  - intros i. rewrite Hms. intros (e & -> & [_ [Hn _]%list_elem_of_filter]%list_elem_of_filter)%list_elem_of_fmap Hx.
    apply Hn, elem_of_union_r, elem_of_list_to_set. rewrite <- (uuid_roundtrip e.1). apply list_elem_of_fmap_2.
    unfold ids. by rewrite concat_bind.
Qed.

Lemma begins_spec be xid layers vacuum all_entries r hb run (Q : list running -> rel -> Prop) :
  history_ok r hb run -> entries_ok all_entries -> (forall r' run', history_ok r' hb run' -> Q run' r') ->
  runs (step hb run (Begins be xid layers vacuum all_entries)) r Q.
Proof.
  intros (ch & ms & ms' & Hm & Hp & Ht & Hnd) He HQ. cbn [step]. unfold begin_merge. apply runs_bind, runs_bind.
  eapply run_policy_spec; [exact Hm|exact He|]. intros cands p Hc Hk Hin Hnew. destruct cands as [|c cs].
  { apply runs_ret, runs_ret, HQ. cbn [option_list]. rewrite app_nil_r. by exists ch, ms, ms'. }
  set (cands := c :: cs) in *. apply runs_bind. eapply (add_segment_ids_spec pk pk_ok MAX HMAX entry_storable); [exact Hm| |].
  { apply Forall_fmap, Forall_forall. intros i _. apply uuid_length. }
  intros r1 ch1 ms1 m Hm1 Hp1 Ei. apply runs_ret, runs_ret, HQ. exists ch1, ms1, (ms' ++ [m]). split; [done|].
  split; [by rewrite Hp1, Hp, Permutation_app_comm|]. split.
  - apply Forall2_app; [done|]. constructor; [|constructor]. split; [done|]. split; [done|]. cbn [fst].
    intros i Hi%Hin. rewrite Ei. by apply list_elem_of_fmap_2.
  - rewrite bind_app, bind_cons, app_nil_r, Ei. apply NoDup_app. split; [done|]. split.
    + intros x Hx (i & -> & Hi)%list_elem_of_fmap. apply (Hnew i Hi). by rewrite Hp.
    + apply NoDup_fmap_2; [|done]. intros i j E. rewrite <- (uuid_roundtrip i), E. apply uuid_roundtrip.
Qed.

Lemma ends_spec i xid r hb run (Q : list running -> rel -> Prop) :
  history_ok r hb run -> (forall r' run', history_ok r' hb run' -> Q run' r') -> runs (step hb run (Ends i xid)) r Q.
Proof.
  intros (ch & ms & ms' & Hm & Hp & Ht & Hnd) HQ. cbn [step].
  destruct (run !! i) as [x|] eqn:Ei; [|apply runs_ret, HQ; by exists ch, ms, ms'].
  destruct (Forall2_lookup_l _ _ _ _ _ Ht Ei) as (m & Hi & (Ex & _)). rewrite Ex.
  apply runs_bind. eapply (remove_entry_spec pk MAX); [exact Hm|rewrite Hp; by eapply list_elem_of_lookup_2|].
  intros r1 ch1 ms1 Hm1 Hp1. apply runs_bind, runs_ret, runs_ret, HQ. exists ch1, ms1, (delete i ms'). split; [done|].
  pose proof (delete_Permutation ms' i m Hi) as Hd. split.
  - apply (Permutation_cons_inv (a := m)). by rewrite <- Hp1, <- Hd.
  - split; [by apply Forall2_delete|]. rewrite Hd, bind_cons in Hnd. by apply NoDup_app in Hnd as (_ & _ & ?).
Qed.

Lemma steps_spec evs r hb run (Q : list running -> rel -> Prop) : history_ok r hb run -> Forall event_ok evs ->
  (forall r' run', history_ok r' hb run' -> Q run' r') -> runs (steps hb run evs) r Q.
Proof.
  revert r run. induction evs as [|ev evs IH]; intros r run Hh He HQ; cbn [steps]; [by apply runs_ret, HQ|].
  apply Forall_cons in He as [Hev He]. apply runs_bind. destruct ev as [be xid layers vacuum all_entries|i xid].
  - eapply begins_spec; [done|exact Hev|]. intros r1 run1 Hh1. by eapply IH.
  - eapply ends_spec; [done|]. intros r1 run1 Hh1. by eapply IH.
Qed.

(** C39: However merges begin and end, in any number and order and each with its own layers,
    vacuum list and view of the segments: none of them fails to begin or end, and no segment
    is ever in two merges that are running, or twice in one. *)
Theorem merges_never_share r0 evs : rel_ok r0 -> Forall event_ok evs ->
  runs (hb ← LinkedItems.create_with_fsm; steps hb [] evs) r0 (fun run _ => NoDup (merging run)).
Proof.
  intros Hr He. apply runs_bind, (create_merges_ok MAX); [done|]. intros r hb ch Hm.
  eapply steps_spec; [|done|intros r' run' Hh; by eapply history_merging]. exists ch, [], []. split; [done|]. split; [done|]. by split; constructor.
Qed.

End merges.

Definition demo_uuid (i : Z) : MergeList.SegmentIdBytes := i :: replicate 15 0.
Definition demo_id (l : MergeList.SegmentIdBytes) : Z := default 0 (head l).

Definition demo_backend (pid : Z) : backend (F := stack_fsm) :=
  mkBackend pid (fun _ => mret true) (fun _ _ => true) (fun _ => 9) 9 false false.

Lemma demo_entries_ok : entries_ok demo_entries.
Proof.
  split.
  - apply (bool_decide_unpack _). vm_compute. exact I.
  - repeat constructor.
  - repeat constructor.
  - vm_compute. reflexivity.
Qed.

#[local] Existing Instance small_elsewhere.

(** Two merges begin, the first ends, and a third one begins. *)
Lemma merges_never_share_witness :
  runs (hb ← LinkedItems.create_with_fsm;
        steps plain_packer 1100 demo_uuid demo_id hb []
          [Begins (demo_backend 71) 8 [1000] ∅ (take 2 demo_entries); Begins (demo_backend 72) 9 [1000] ∅ demo_entries; Ends 0 9;
           Begins (demo_backend 73) 9 [1000] ∅ demo_entries]) small_rel
    (fun run _ => NoDup (merging run)).
Proof.
  apply (merges_never_share plain_packer plain_packer_ok 1100 ltac:(lia) small_entry_storable demo_uuid demo_id).
  - intros i. reflexivity.
  - intros i. reflexivity.
  - exact small_rel_ok.
  - constructor; [apply (entries_ok_sub demo_entries); [apply sublist_take|exact demo_entries_ok]|].
    constructor; [exact demo_entries_ok|]. constructor; [exact I|]. constructor; [exact demo_entries_ok|constructor].
Defined.

(** ** Layers *)

Lemma dedup_head x l : exists l', dedup (x :: l) = x :: l'.
Proof. cbn [dedup]. by eexists. Qed.

Lemma dedup_elem l x : x ∈ dedup l <-> x ∈ l.
Proof.
  induction l as [|y l IH]; [done|]. cbn [dedup]. destruct (dedup l) as [|z l'].
  - rewrite !elem_of_cons. rewrite <- IH. done.
  - destruct (Z.eqb_spec y z) as [->|Hne]; rewrite !elem_of_cons in *; rewrite <- IH; [|done]. naive_solver.
Qed.

Lemma dedup_sorted l : StronglySorted Z.le l -> StronglySorted Z.lt (dedup l).
Proof.
  induction 1 as [|x l Hl IH Hx]; [constructor|]. cbn [dedup].
  assert (forall y, y ∈ dedup l -> x <= y) as Hle by (intros y; rewrite dedup_elem; by apply (proj1 (Forall_forall _ _) Hx)).
  destruct (dedup l) as [|z l']; [by repeat constructor|]. apply StronglySorted_inv in IH as [IH Hz]. rewrite Forall_forall in Hz.
  destruct (Z.eqb_spec x z) as [->|Hne]; constructor; [done|by apply Forall_forall|by constructor; [|apply Forall_forall]|].
  pose proof (Hle z ltac:(left)). apply Forall_forall. intros y [->|Hy]%elem_of_cons; [lia|]. apply Hz in Hy. lia.
Qed.

Lemma combined_sorted s : StronglySorted Z.lt (combined s).
Proof. apply dedup_sorted, StronglySorted_merge_sort; apply _. Qed.

Lemma combined_elem s x : x ∈ combined s <-> x ∈ foreground_layer_sizes s \/ x ∈ background_layer_sizes s.
Proof. unfold combined. by rewrite dedup_elem, merge_sort_Permutation, elem_of_app. Qed.

Lemma target_byte_size_two_thirds t bytes x : x <= target_byte_size t bytes <-> 3 * x <= 2 * (bytes / t) + 2.
Proof. unfold target_byte_size. pose proof (Z.div_mod (bytes / t) 3 ltac:(lia)). pose proof (Z.mod_pos_bound (bytes / t) 3 ltac:(lia)). lia. Qed.

Section layers.
Variable pk : BlockList.width -> BlockList.packer.
Variable MAX : Z.
Context `{ItemCodec MergeEntry} `{ItemCodec SegmentMeta.SegmentMetaEntry} `{ItemSpace}.
Context {F : Type} `{FreeSpaceManager F}.
Variables (uuid_bytes : Z -> MergeList.SegmentIdBytes) (id_of_bytes : MergeList.SegmentIdBytes -> Z).

(** The layers of an index follow its target segment count.  With no more visible
    segments than that [do_merge] changes nothing and launches nothing.  With more, the
    layers a background merge uses are, in strictly increasing order, the foreground layers
    and those background layers that are at most two thirds of the size a segment would have
    if the index had just the target count. *)
Theorem layers_follow_target t foreground background entries s : 0 < t ->
  index_layer_sizes t foreground background entries = Some s ->
  StronglySorted Z.lt (combined s) /\
  (visible_count entries <= t -> forall be style current_xid next_xid vacuum all_entries merge_list segment_metas r,
     do_merge pk MAX uuid_bytes id_of_bytes be s style current_xid next_xid vacuum all_entries merge_list segment_metas r = (Ok false, r)) /\
  (t < visible_count entries -> forall x, x ∈ combined s <->
     x ∈ foreground \/ x ∈ background /\ 3 * x <= 2 * (visible_bytes entries / t) + 2).
Proof.
  intros Ht. unfold index_layer_sizes. destruct (Z.leb_spec (visible_count entries) t) as [Hc|Hc].
  - intros [= <-]. split; [apply combined_sorted|]. split; [|lia]. intros _ be [] *; done.
  - destruct (Z.eqb_spec t 0) as [|_]; [lia|]. intros [= <-]. split; [apply combined_sorted|]. split; [lia|].
    intros _ x. rewrite combined_elem. cbn [foreground_layer_sizes background_layer_sizes].
    rewrite list_elem_of_filter, target_byte_size_two_thirds. tauto.
Qed.

End layers.

#[local] Existing Instance SegmentMetaEntry_ItemCodec.

Lemma layers_follow_target_witness : exists s,
  index_layer_sizes 2 [100; 900] [900; 400; 100000] (demo_entries).*2 = Some s /\ combined s = [100; 400; 900] /\
  StronglySorted Z.lt (combined s).
Proof.
  destruct (index_layer_sizes 2 [100; 900] [900; 400; 100000] (demo_entries).*2) as [s|] eqn:E; [|vm_compute in E; discriminate E].
  exists s. split; [reflexivity|]. split; [injection E as <-; vm_compute; reflexivity|].
  exact (proj1 (layers_follow_target plain_packer 1100 (F := stack_fsm) demo_uuid demo_id 2 [100; 900] [900; 400; 100000] (demo_entries).*2 s
    ltac:(lia) E)).
Defined.
