(* ===== verification/Metas.v ===== *)
(** * Saving and loading the list of segments

    [index/directory/utils.rs]: [save_new_metas] records what a tantivy commit, merge or
    vacuum has changed in the list of segments, on a copy of the list that then replaces it;
    [load_metas] decides which segments a reader sees. *)

From stdpp Require Import prelude gmap sets strings.
From Stdlib Require Import ZArith Lia.
From S2P Require Import Prelude SegmentMeta Pages BlockList LinkedBytes LinkedItems.
Import SegmentMeta.

Local Open Scope Z_scope.

(** PostgreSQL's [PageIndexTupleOverwrite]: whether the item at an offset can be replaced.  It
    can by one of the same size, and the page afterwards is one to which its items could have
    been added one after the other. *)
Class ItemOverwrite `{ItemSpace} := {
  overwrites : list (list Z) -> nat -> list Z -> bool;
  overwrites_same : forall l i x y, l !! i = Some x -> length y = length x -> overwrites l i y = true;
  overwrites_fits : forall l i x, overwrites l i x = true -> (i < length l)%nat ->
    (forall l1 y l2, l = l1 ++ y :: l2 -> fits l1 y = true) ->
    forall l1 y l2, <[i := x]> l = l1 ++ y :: l2 -> fits l1 y = true;
}.

#[global] Instance SegmentComponent_countable : Countable SegmentComponent.
Proof.
  refine (inj_countable' (fun c => match c with Postings => 0 | Positions => 1 | FastFields => 2 | FieldNorms => 3 | Terms => 4
    | Store => 5 | TempStore => 6 | Delete => 7 end)
    (fun z => match z with 0 => Postings | 1 => Positions | 2 => FastFields | 3 => FieldNorms | 4 => Terms
    | 5 => Store | 6 => TempStore | _ => Delete end) _). by intros [].
Defined.

Module Metas.

(** tantivy's [SegmentMeta], as far as it is read here; an [IndexMeta] is the list of them. *)
Record TantivySegment := mkTantivy { t_id : Z; t_max_doc : Z; t_num_deleted_docs : Z }.

Inductive MvccSatisfies :=
| ParallelWorker (only_these : gset Z)
| LargestSegment
| Snapshot
| Vacuum
| Mergeable.

Abbreviation files_of := (gmap SegmentComponent (FileEntry * string)).

Section saving.
Variables (component_of_ext : string -> option SegmentComponent) (from_uuid_string : string -> option Z).

(** "first, reorganize the directory_entries by segment id"; [None] is the panic on a path
    that names no segment or component. *)
Definition group_file (new_files : gmap Z files_of) (e : string * FileEntry) : option (gmap Z files_of) :=
  segment_id ← path_segment_id from_uuid_string e.1;
  component_type ← path_component_type component_of_ext e.1;
  Some (<[segment_id := <[component_type := (e.2, e.1)]> (default ∅ (new_files !! segment_id))]> new_files).

Definition group_files (directory_entries : list (string * FileEntry)) : option (gmap Z files_of) :=
  foldl (fun acc e => acc ≫= (fun m => group_file m e)) (Some ∅) directory_entries.

(** [iter().map(|s| (s.id(), s)).collect()] *)
Definition incoming_segments (new_meta : list TantivySegment) : gmap Z TantivySegment :=
  foldl (fun m s => <[t_id s := s]> m) ∅ new_meta.

Definition ids_of_meta (meta : list TantivySegment) : gset Z := list_to_set (t_id <$> meta).

Definition created_ids (new_meta prev_meta : list TantivySegment) : list Z :=
  elements (ids_of_meta new_meta ∖ ids_of_meta prev_meta).

Definition deleted_ids (new_meta prev_meta : list TantivySegment) : list Z :=
  elements (ids_of_meta prev_meta ∖ ids_of_meta new_meta).

(** Of the segments that stay, those with a new delete file. *)
Definition modified_ids (new_files : gmap Z files_of) (new_meta prev_meta : list TantivySegment) : list Z :=
  filter (fun id => is_Some (new_files !! id ≫= (fun files => files !! Delete)))
    (elements (ids_of_meta prev_meta ∩ ids_of_meta new_meta)).

Definition created_entry (id : Z) (segment : TantivySegment) (files : files_of) : SegmentMetaEntry :=
  let file k := fst <$> files !! k in
  new_immutable id (t_max_doc segment) InvalidTransactionId
    (mkImmutable (file Postings) (file Positions) (file FastFields) (file FieldNorms) (file Terms) (file Store) (file TempStore)
       ((fun f => mkDelete f (t_num_deleted_docs segment)) <$> file Delete)).

(** The new segments that have files, and the files that are left. *)
Fixpoint create_loop (incoming : gmap Z TantivySegment) (ids : list Z) (new_files : gmap Z files_of)
  : option (list SegmentMetaEntry * gmap Z files_of) :=
  match ids with
  | [] => Some ([], new_files)
  | id :: ids =>
      created_segment ← incoming !! id;
      match new_files !! id with
      | None => create_loop incoming ids new_files
      | Some files =>
          '(entries, rest) ← create_loop incoming ids (base.delete id new_files);
          Some (created_entry id created_segment files :: entries, rest)
      end
  end.

Context `{ItemCodec SegmentMetaEntry} `{ItemOverwrite}.
Context {F : Type} `{FreeSpaceManager F}.

Abbreviation RM := (M (rel F lpage) unit).

(** [lookup_ex(|entry| entry.segment_id() == *id, None)], which must find the entry. *)
Definition lookup_segment (id : Z) (hb : Z) : RM (SegmentMetaEntry * Z) :=
  start ← LinkedBytes.get_start_blockno hb;
  o ← LinkedItems.lookup_ex (fun entry => segment_id entry =? id) start;
  x ← unwrap o;
  mret x.1.

Record modified := mkModified {
  entries_of : list (SegmentMetaEntry * Z);
  orphaned_deletes_files : list SegmentMetaEntry;
  rest_files : gmap Z files_of;
}.

Fixpoint modify_loop (incoming : gmap Z TantivySegment) (ids : list Z) (new_files : gmap Z files_of) (hb : Z) : RM modified :=
  match ids with
  | [] => mret (mkModified [] [] new_files)
  | id :: ids =>
      match new_files !! id with
      | None => modify_loop incoming ids new_files hb
      | Some files =>
          new_delete ← (if (size files =? 1)%nat then unwrap (files !! Delete) else panic);
          existing_segment ← unwrap (incoming !! id);
          found ← lookup_segment id hb;
          replaced ← unwrap (replace_deletes (mkDelete new_delete.1 (t_num_deleted_docs existing_segment)) found.1);
          m ← modify_loop incoming ids (base.delete id new_files) hb;
          mret (mkModified ((replaced.2, found.2) :: entries_of m) (option_list replaced.1 ++ orphaned_deletes_files m) (rest_files m))
      end
  end.

(** [in_transaction] is PostgreSQL's [IsTransactionState()]. *)
Fixpoint delete_loop (in_transaction : bool) (ids : list Z) (hb : Z) : RM (list (SegmentMetaEntry * Z)) :=
  match ids with
  | [] => mret []
  | id :: ids =>
      found ← lookup_segment id hb;
      (if in_transaction && (xmax found.1 =? InvalidTransactionId) then mret tt else panic);;
      rest ← delete_loop in_transaction ids hb;
      mret ((set_xmax FrozenTransactionId found.1, found.2) :: rest)
  end.

(** [page.find_item]: the first item that matches; an unreadable one ends the search. *)
Fixpoint page_find_item (cmp : SegmentMetaEntry -> bool) (l : list LinkedItems.lp) : option nat :=
  match l with
  | [] => None
  | x :: l =>
      t ← LinkedItems.deserialize_item x;
      if cmp t then Some O else S <$> page_find_item cmp l
  end.

(** The page, and where the entry with the id of [entry] is on it. *)
Definition find_on_page (entry : SegmentMetaEntry) (blockno : Z) : RM (list LinkedItems.lp * Z * nat) :=
  p ← LinkedItems.get_items blockno;
  offno ← unwrap (page_find_item (fun item => segment_id item =? segment_id entry) p.1);
  mret (p, offno).

Fixpoint write_deleted (l : list (SegmentMetaEntry * Z)) : RM unit :=
  match l with
  | [] => mret tt
  | (entry, blockno) :: l =>
      (if xmax entry =? FrozenTransactionId then mret tt else panic);;
      x ← find_on_page entry blockno;
      let '((items, next), offno) := x in
      (if overwrites items.*2 offno (into_item entry)
       then put_page blockno (LinkedItems.mk_items (<[offno := (false, into_item entry)]> items) next)
       else panic);;
      write_deleted l
  end.

Fixpoint write_modified (l : list (SegmentMetaEntry * Z)) : RM unit :=
  match l with
  | [] => mret tt
  | (entry, blockno) :: l =>
      x ← find_on_page entry blockno;
      let '((items, next), offno) := x in
      (if overwrites items.*2 offno (into_item entry)
       then put_page blockno (LinkedItems.mk_items (<[offno := (false, into_item entry)]> items) next)
       else
         put_page blockno (LinkedItems.mk_items (base.delete offno items) next);;
         LinkedItems.add_loop [entry] blockno);;
      write_modified l
  end.

(** Returns the directory entries of segments this call does not deal with; [commit_xid] is
    the transaction id of [commit]. *)
Definition save_new_metas (in_transaction : bool) (commit_xid : Z) (new_meta prev_meta : list TantivySegment)
    (directory_entries : list (string * FileEntry)) (segment_metas : Z) : RM (list (string * FileEntry)) :=
  linked_list ← LinkedItems.atomically segment_metas;
  let incoming := incoming_segments new_meta in
  new_files ← unwrap (group_files directory_entries);
  let modified_ids := modified_ids new_files new_meta prev_meta in
  c ← unwrap (create_loop incoming (created_ids new_meta prev_meta) new_files);
  let '(created_entries, new_files) := c in
  m ← modify_loop incoming modified_ids new_files linked_list;
  deleted_entries ← delete_loop in_transaction (deleted_ids new_meta prev_meta) linked_list;
  write_deleted deleted_entries;;
  write_modified (entries_of m);;
  (match created_entries with [] => mret tt | _ => LinkedItems.add_items created_entries linked_list end);;
  (match orphaned_deletes_files m with [] => mret tt | _ => LinkedItems.add_items (orphaned_deletes_files m) linked_list end);;
  LinkedItems.commit commit_xid segment_metas linked_list;;
  mret ((map_to_list (rest_files m)) ≫= (fun s => (fun f : _ * (FileEntry * string) => (f.2.2, f.2.1)) <$> map_to_list s.2)).

End saving.

(** ** Loading *)

Section loading.
Context `{ItemCodec SegmentMetaEntry} `{ItemSpace}.
Context {F : Type} `{FreeSpaceManager F}.

Abbreviation RM := (M (rel F lpage) unit).

(** [mutable_rows] is the index option [mutable_segment_rows]. *)
Definition satisfies (mutable_rows : option Z) (solve_mvcc : MvccSatisfies) (e : SegmentMetaEntry) : bool :=
  match solve_mvcc with
  | ParallelWorker only_these => bool_decide (segment_id e ∈ only_these)
  | Vacuum => xmax e =? InvalidTransactionId
  | Snapshot | LargestSegment => visible e
  | Mergeable => is_mergeable mutable_rows e
  end.

(** The entries seen so far, the blocks pinned for them, the number of entries that were
    accepted and the size of the largest. *)
Record LoadedMetas := mkLoaded {
  entries : list SegmentMetaEntry;
  pin_cushion : gset Z;
  total_segments : nat;
  largest_doc_count : Z;
}.

Definition load_entry (cleanup : Z -> bool) (mutable_rows : option Z) (solve_mvcc : MvccSatisfies) (s : LoadedMetas)
    (e : SegmentMetaEntry) : outcome unit LoadedMetas :=
  match recyclable cleanup e with
  | Ok recyclable =>
      if negb recyclable && satisfies mutable_rows solve_mvcc e then
        let s := mkLoaded (entries s) (pin_cushion s) (S (total_segments s)) (largest_doc_count s) in
        let pushed s :=
          match pintest_blockno e with
          | Some blockno => Ok (mkLoaded (entries s ++ [e]) ({[blockno]} ∪ pin_cushion s) (total_segments s) (largest_doc_count s))
          | None => Panic
          end in
        match solve_mvcc with
        | LargestSegment =>
            if largest_doc_count s <? num_docs e
            then pushed (mkLoaded [] ∅ (total_segments s) (num_docs e))
            else Ok s
        | _ => pushed s
        end
      else Ok s
  | _ => Panic
  end.

Fixpoint load_entries (cleanup : Z -> bool) (mutable_rows : option Z) (solve_mvcc : MvccSatisfies) (s : LoadedMetas)
    (es : list SegmentMetaEntry) : outcome unit LoadedMetas :=
  match es with
  | [] => Ok s
  | e :: es =>
      match load_entry cleanup mutable_rows solve_mvcc s e with
      | Ok s => load_entries cleanup mutable_rows solve_mvcc s es
      | o => o
      end
  end.

Definition lift_outcome {A} (o : outcome unit A) : RM A := fun r => (o, r).

(** One turn of the loop over the lists. *)
Definition load_list (cleanup : Z -> bool) (mutable_rows : option Z) (solve_mvcc : MvccSatisfies) (s : LoadedMetas)
    (hb : Z) : RM LoadedMetas :=
  es ← LinkedItems.list hb;
  lift_outcome (load_entries cleanup mutable_rows solve_mvcc s es).

(** A parallel worker that has not found all its segments looks into the garbage list too. *)
Definition missing (solve_mvcc : MvccSatisfies) (s : LoadedMetas) : bool :=
  match solve_mvcc with
  | ParallelWorker only_these => negb (length (entries s) =? size only_these)%nat
  | _ => false
  end.

Definition load_metas (cleanup : Z -> bool) (mutable_rows : option Z) (solve_mvcc : MvccSatisfies)
    (segment_metas : Z) (segment_metas_garbage : option Z) : RM LoadedMetas :=
  s ← load_list cleanup mutable_rows solve_mvcc (mkLoaded [] ∅ 0 0) segment_metas;
  if missing solve_mvcc s then
    match segment_metas_garbage with
    | Some garbage =>
        s ← load_list cleanup mutable_rows solve_mvcc s garbage;
        if missing solve_mvcc s then panic else mret s
    | None => panic
    end
  else mret s.

End loading.

End Metas.
