(* ===== verification/MetasProps.v ===== *)
(** * What saving and loading do to the list of segments *)

From stdpp Require Import prelude gmap sets strings.
From Stdlib Require Import ZArith Lia.
From S2P Require Import Prelude SegmentMeta Pages BlockList BlockListProps LinkedBytes LinkedBytesProps LinkedItems LinkedItemsProps Metas.
From stdpp Require Import list.
Import SegmentMeta Metas.

Local Open Scope Z_scope.

(** ** Entries by id *)

(** [e] is the entry with the id [id], and there is no other. *)
Definition has (id : Z) (e : SegmentMetaEntry) (es : list SegmentMetaEntry) : Prop :=
  filter (fun x => segment_id x = id) es = [e].

Lemma has_in id e es : has id e es -> e ∈ es /\ segment_id e = id.
Proof.
  intros Hh. assert (e ∈ filter (fun x => segment_id x = id) es) as [? ?]%list_elem_of_filter by (rewrite Hh; left). done.
Qed.

Lemma has_unique id e es e' : has id e es -> e' ∈ es -> segment_id e' = id -> e' = e.
Proof.
  intros Hh Hin He. assert (e' ∈ filter (fun x => segment_id x = id) es) as Hx by (by apply list_elem_of_filter).
  rewrite Hh in Hx. by apply list_elem_of_singleton in Hx.
Qed.

#[global] Instance has_Proper id e : Proper ((≡ₚ) ==> iff) (has id e).
Proof.
  intros es es' Hp. unfold has. split; intros E; apply Permutation_singleton_r; [rewrite <- Hp|rewrite Hp]; by rewrite E.
Qed.

(** The entry with the id of [e'] becomes [e']. *)
Definition set_entry (e' : SegmentMetaEntry) (es : list SegmentMetaEntry) : list SegmentMetaEntry :=
  (fun e => if segment_id e =? segment_id e' then e' else e) <$> es.

Lemma set_entry_ids e' es : segment_id <$> set_entry e' es = segment_id <$> es.
Proof.
  induction es as [|e es IH]; [done|]. unfold set_entry in *. rewrite !fmap_cons, IH. f_equal.
  by destruct (Z.eqb_spec (segment_id e) (segment_id e')).
Qed.

Lemma set_entry_other id e e' es : segment_id e' <> id -> has id e es -> has id e (set_entry e' es).
Proof.
  intros Hne. unfold has. intros <-. induction es as [|x es IH]; [done|]. unfold set_entry in *. rewrite fmap_cons, !filter_cons, IH.
  destruct (Z.eqb_spec (segment_id x) (segment_id e')) as [Ex|Ex]; [|done]. rewrite !decide_False by congruence. done.
Qed.

Lemma set_entry_absent e' es : Forall (fun e => segment_id e <> segment_id e') es -> set_entry e' es = es.
Proof. induction 1 as [|e es He _ IH]; [done|]. unfold set_entry in *. rewrite fmap_cons, IH. by rewrite (proj2 (Z.eqb_neq _ _) He). Qed.

(** In a list with the entry [e] of this id, the others have other ids, and [e] is replaced. *)
Lemma has_split id e pre post : has id e (pre ++ e :: post) ->
  Forall (fun x => segment_id x <> id) pre /\ Forall (fun x => segment_id x <> id) post.
Proof.
  intros Hh. pose proof Hh as Hh'. unfold has in Hh. rewrite filter_app, filter_cons, decide_True in Hh by (by apply (has_in _ _ _ Hh')).
  pose proof (f_equal length Hh) as Hl. rewrite length_app in Hl. simpl in Hl.
  assert (forall l x, (length (filter (fun y => segment_id y = id) l) = 0)%nat -> x ∈ l -> segment_id x <> id) as Hno.
  { intros l x Hl0 Hx Ex. apply nil_length_inv in Hl0.
    assert (x ∈ filter (fun y => segment_id y = id) l) as Hf by (by apply list_elem_of_filter). rewrite Hl0 in Hf. by apply elem_of_nil in Hf. }
  split; apply Forall_forall; intros x; apply Hno; lia.
Qed.

Lemma set_entry_split e e' pre post : has (segment_id e') e (pre ++ e :: post) ->
  set_entry e' (pre ++ e :: post) = pre ++ e' :: post.
Proof.
  intros Hh. destruct (has_split _ _ _ _ Hh) as [Hpre Hpost]. apply has_in in Hh as [_ He].
  apply set_entry_absent in Hpre, Hpost. unfold set_entry in *. rewrite fmap_app, fmap_cons, Hpre, Hpost.
  by rewrite He, Z.eqb_refl.
Qed.

#[global] Instance set_entry_Proper e' : Proper ((≡ₚ) ==> (≡ₚ)) (set_entry e').
Proof. intros es es' Hp. unfold set_entry. by rewrite Hp. Qed.

Definition set_entries (l : list SegmentMetaEntry) (es : list SegmentMetaEntry) : list SegmentMetaEntry :=
  foldl (fun es e => set_entry e es) es l.

#[global] Instance set_entries_Proper l : Proper ((≡ₚ) ==> (≡ₚ)) (set_entries l).
Proof. induction l as [|e l IH]; intros es es' Hp; [done|]. cbn. apply IH. by rewrite Hp. Qed.

Lemma set_entries_other l id e es : id ∉ segment_id <$> l -> has id e es -> has id e (set_entries l es).
Proof.
  revert es. induction l as [|x l IH]; intros es Hni Hh; [done|]. rewrite fmap_cons in Hni. apply not_elem_of_cons in Hni as [Hne Hni].
  cbn. apply IH; [done|]. by apply set_entry_other; [congruence|].
Qed.

Lemma set_entries_cons x l es : set_entries (x :: l) es = set_entries l (set_entry x es).
Proof. done. Qed.

(** With distinct ids the order of the changes does not matter. *)
Lemma set_entries_map l es : NoDup (segment_id <$> l) ->
  set_entries l es = (fun e => from_option snd e (list_find (fun x => segment_id x = segment_id e) l)) <$> es.
Proof.
  revert es. induction l as [|x l IH]; intros es Hnd; [by rewrite list_fmap_id|]. rewrite fmap_cons in Hnd. apply NoDup_cons in Hnd as [Hx Hnd].
  rewrite set_entries_cons, IH by done. unfold set_entry. rewrite <- list_fmap_compose. apply list_fmap_ext. intros _ e _. unfold compose.
  cbn [list_find]. destruct (Z.eqb_spec (segment_id e) (segment_id x)) as [Ex|Ex].
  - rewrite (decide_True (P := segment_id x = segment_id e)) by done.
    destruct (list_find (fun y => segment_id y = segment_id x) l) as [[n y]|] eqn:Ef; [|done].
    apply list_find_Some in Ef as (Hy & Hid & _). exfalso. apply Hx. rewrite <- Hid. by eapply list_elem_of_fmap_2, list_elem_of_lookup_2.
  - rewrite (decide_False (P := segment_id x = segment_id e)) by done.
    by destruct (list_find (fun y => segment_id y = segment_id e) l) as [[n y]|].
Qed.

(** The entry with an id. *)
Definition ent (es : list SegmentMetaEntry) (id : Z) : option SegmentMetaEntry := head (filter (fun x => segment_id x = id) es).

Lemma has_ent id e es : has id e es -> ent es id = Some e.
Proof. unfold has, ent. by intros ->. Qed.

(** The entries with given ids, in either order. *)
Lemma entries_with_ids ids es : NoDup ids -> (forall id, id ∈ ids -> exists e, has id e es) ->
  omap (ent es) ids ≡ₚ filter (fun e => segment_id e ∈ ids) es.
Proof.
  induction ids as [|id ids IH]; intros Hnd Hh.
  { cbn. induction es as [|e es IH]; [done|]. rewrite filter_cons, decide_False; [|apply not_elem_of_nil]. apply IH.
    by intros id ?%elem_of_nil. }
  apply NoDup_cons in Hnd as [Hni Hnd]. destruct (Hh id ltac:(left)) as [e He]. cbn [omap list_omap]. rewrite (has_ent _ _ _ He).
  rewrite IH by (done || intros; apply Hh; by right). change (e :: ?l) with ([e] ++ l). rewrite <- He. clear -Hni.
  induction es as [|x es IH]; [done|]. rewrite !filter_cons. destruct (decide (segment_id x = id)) as [Ex|Ex].
  - rewrite (decide_False (P := segment_id x ∈ ids)) by congruence. rewrite decide_True by (rewrite Ex; left). cbn [app]. by constructor.
  - destruct (decide (segment_id x ∈ ids)) as [Hx|Hx].
    + rewrite decide_True by (by right). rewrite <- IH. by rewrite Permutation_middle.
    + rewrite decide_False by (intros [?|?]%elem_of_cons; done). done.
Qed.

(** ** What a call is to change *)

Section changes.
Variables (incoming : gmap Z TantivySegment) (new_files : gmap Z files_of).

Definition created_of (ids : list Z) : list SegmentMetaEntry :=
  omap (fun id => segment ← incoming !! id; files ← new_files !! id; Some (created_entry id segment files)) ids.

Definition new_delete (id : Z) : option DeleteEntry :=
  files ← new_files !! id; file ← files !! Delete; segment ← incoming !! id;
  Some (mkDelete file.1 (t_num_deleted_docs segment)).

(** The change of an entry that gets a new delete file, and the clone for the old one. *)
Definition replacement (e : SegmentMetaEntry) : option (option SegmentMetaEntry * SegmentMetaEntry) :=
  d ← new_delete (segment_id e); replace_deletes d e.

Definition changed (deleted modified : list Z) (e : SegmentMetaEntry) : SegmentMetaEntry :=
  if decide (segment_id e ∈ deleted) then set_xmax FrozenTransactionId e
  else if decide (segment_id e ∈ modified) then from_option snd e (replacement e)
  else e.

Definition orphan (modified : list Z) (e : SegmentMetaEntry) : option SegmentMetaEntry :=
  if decide (segment_id e ∈ modified) then replacement e ≫= fst else None.

End changes.

(** Changes of the entries with given ids, as a change of each entry. *)
Lemma set_entries_change (f : SegmentMetaEntry -> SegmentMetaEntry) l ids es es0 : NoDup ids -> segment_id <$> l = ids ->
  (forall x, x ∈ l -> exists e, e ∈ es0 /\ x = f e /\ segment_id x = segment_id e) -> (forall id, id ∈ ids -> exists e, has id e es0) ->
  (forall e, e ∈ es -> segment_id e ∈ ids -> e ∈ es0) ->
  set_entries l es = (fun e => if decide (segment_id e ∈ ids) then f e else e) <$> es.
Proof.
  intros Hnd Hids Hl Hh Hes. rewrite set_entries_map by (by rewrite Hids). apply list_fmap_ext. intros i e He%list_elem_of_lookup_2.
  destruct (list_find (fun x => segment_id x = segment_id e) l) as [[n x]|] eqn:Ef; cbn [from_option snd].
  - apply list_find_Some in Ef as (Hx & Hid & _). apply list_elem_of_lookup_2 in Hx.
    assert (segment_id e ∈ ids) as Hin by (rewrite <- Hids, <- Hid; by apply list_elem_of_fmap_2). rewrite decide_True by done.
    destruct (Hl x Hx) as (e0 & He0 & -> & Hid0). f_equal. destruct (Hh _ Hin) as [e1 Hh1].
    rewrite (has_unique _ _ _ e0 Hh1), (has_unique _ _ _ e Hh1); [done|by apply Hes|done|done|congruence].
  - rewrite decide_False; [done|]. intros Hin. rewrite <- Hids in Hin. apply list_elem_of_fmap in Hin as (x & Hid & Hx).
    apply list_find_None in Ef. rewrite Forall_forall in Ef. by apply (Ef x).
Qed.

Lemma ent_in es id e : ent es id = Some e -> e ∈ es /\ segment_id e = id.
Proof. intros He%head_Some_elem_of. by apply list_elem_of_filter in He as [? ?]. Qed.

Lemma incoming_some meta id : id ∈ ids_of_meta meta -> is_Some (incoming_segments meta !! id).
Proof.
  unfold ids_of_meta, incoming_segments. rewrite elem_of_list_to_set.
  assert (forall m : gmap Z TantivySegment, id ∈ t_id <$> meta \/ is_Some (m !! id) -> is_Some (foldl (fun m s => <[t_id s := s]> m) m meta !! id)) as Hx; [|auto].
  induction meta as [|s meta IH]; intros m [Hin|Hm]; cbn [foldl].
  - by apply elem_of_nil in Hin.
  - done.
  - apply IH. rewrite fmap_cons in Hin. apply elem_of_cons in Hin as [->|Hin]; [right|by left]. rewrite lookup_insert_eq. by eexists.
  - apply IH. right. rewrite lookup_insert_is_Some'. by right.
Qed.

Lemma create_loop_spec incoming ids new_files : NoDup ids -> (forall id, id ∈ ids -> is_Some (incoming !! id)) ->
  exists rest, create_loop incoming ids new_files = Some (created_of incoming new_files ids, rest) /\
    forall id, rest !! id = if decide (id ∈ ids) then None else new_files !! id.
Proof.
  revert new_files. induction ids as [|id ids IH]; intros nf Hnd Hin.
  { exists nf. split; [done|]. intros id. rewrite decide_False; [done|]. apply not_elem_of_nil. }
  apply NoDup_cons in Hnd as [Hni Hnd]. destruct (Hin id ltac:(left)) as [segment Hs]. cbn [create_loop created_of omap list_omap].
  assert (forall id0, id0 ∈ ids -> is_Some (incoming !! id0)) as Hin' by (intros; apply Hin; by right).
  rewrite Hs. cbn [mbind option_bind]. destruct (nf !! id) as [files|] eqn:Ef; cbn [mbind option_bind].
  - destruct (IH (base.delete id nf) Hnd Hin') as (rest & E & Hrest). rewrite E. cbn [mbind option_bind]. exists rest. split.
    + do 3 f_equal. unfold created_of. apply list_omap_ext, Forall_Forall2_diag, Forall_forall. intros id0 Hid0.
      rewrite lookup_delete_ne by (by intros ->). done.
    + intros id0. rewrite Hrest. destruct (decide (id0 = id)) as [->|Hne].
      * rewrite (decide_True (P := id ∈ id :: ids)) by left. case_decide; [done|apply lookup_delete_eq].
      * rewrite lookup_delete_ne by done. repeat case_decide; set_solver.
  - destruct (IH nf Hnd Hin') as (rest & E & Hrest). exists rest. split; [done|]. intros id0. rewrite Hrest.
    destruct (decide (id0 = id)) as [->|Hne]; [rewrite Ef|]; repeat case_decide; set_solver.
Qed.

Lemma modified_ids_elem nf new_meta prev_meta id : id ∈ modified_ids nf new_meta prev_meta <->
  is_Some (nf !! id ≫= (fun files => files !! Delete)) /\ id ∈ ids_of_meta prev_meta /\ id ∈ ids_of_meta new_meta.
Proof. unfold modified_ids. rewrite list_elem_of_filter, elem_of_elements, elem_of_intersection. done. Qed.

(** The ids a call touches are apart. *)
Lemma modified_not_deleted nf new_meta prev_meta id : id ∈ modified_ids nf new_meta prev_meta -> id ∉ deleted_ids new_meta prev_meta.
Proof. intros (_ & _ & Hn)%modified_ids_elem. unfold deleted_ids. rewrite elem_of_elements. set_solver. Qed.

Lemma modified_not_created nf new_meta prev_meta id : id ∈ modified_ids nf new_meta prev_meta -> id ∉ created_ids new_meta prev_meta.
Proof. intros (_ & Hp & _)%modified_ids_elem. unfold created_ids. rewrite elem_of_elements. set_solver. Qed.

Lemma modified_ids_nodup nf new_meta prev_meta : NoDup (modified_ids nf new_meta prev_meta).
Proof. apply NoDup_filter, NoDup_elements. Qed.

Section saving.
Variables (component_of_ext : string -> option SegmentComponent) (from_uuid_string : string -> option Z).
Context `{ItemCodec SegmentMetaEntry} `{ItemOverwrite}.
Hypothesis entry_storable : forall e : SegmentMetaEntry, storable (into_item e).
(** bincode: the two special transaction ids take the same space. *)
Hypothesis frozen_size : forall e, xmax e = InvalidTransactionId ->
  length (into_item (set_xmax FrozenTransactionId e)) = length (into_item e).
Context {F : Type} `{FreeSpaceManager F} {Els : Elsewhere}.

Abbreviation rel := (rel F lpage).
Implicit Types (r : rel) (ch : list (Z * list SegmentMetaEntry)).

(** The page [b] holds the entry with this id. *)
Definition loc ch (id b : Z) : Prop := exists ts e, (b, ts) ∈ ch /\ e ∈ ts /\ segment_id e = id.

Lemma lookup_segment_spec id e r0 r hb ch (Q : SegmentMetaEntry * Z -> rel -> Prop) : ilist r0 r hb ch -> has id e (items ch) ->
  (forall b, loc ch id b -> Q (e, b) r) -> runs (lookup_segment id hb) r Q.
Proof.
  intros Hl Hh HQ. unfold lookup_segment. apply runs_bind. eapply runs_start; [exact Hl|]. apply runs_bind.
  eapply lookup_ex_spec; [exact Hl| |].
  - intros Hall. destruct (has_in _ _ _ Hh) as [Hin He]. rewrite Forall_forall in Hall. apply Hall in Hin. by apply Z.eqb_neq in Hin.
  - intros w b ts1 t ts2 rest -> Ht%Z.eqb_eq _. apply runs_bind, runs_ret, runs_ret. cbn [fst snd].
    assert (t = e) as -> by (eapply has_unique; [exact Hh| |done]; rewrite items_app, items_cons; set_solver).
    apply HQ. exists (ts1 ++ e :: ts2), e. split; [set_solver|]. split; [set_solver|done].
Qed.

(** On its page the entry is found where it is. *)
Lemma page_find_spec id ts1 e ts2 : segment_id e = id -> Forall (fun x => segment_id x <> id) ts1 ->
  page_find_item (fun item => segment_id item =? id) (enc (ts1 ++ e :: ts2)) = Some (length ts1).
Proof.
  intros He. induction 1 as [|x ts1 Hx _ IH]; rewrite ?app_nil_l.
  - change (enc (e :: ts2)) with ((false, into_item e) :: enc ts2). cbn [page_find_item]. rewrite deserialize_enc. cbn [mbind option_bind].
    by rewrite (proj2 (Z.eqb_eq _ _) He).
  - change (enc ((x :: ts1) ++ e :: ts2)) with ((false, into_item x) :: enc (ts1 ++ e :: ts2)). cbn [page_find_item].
    rewrite deserialize_enc. cbn [mbind option_bind]. by rewrite (proj2 (Z.eqb_neq _ _) Hx), IH.
Qed.

Lemma loc_split ch id b e : loc ch id b -> has id e (items ch) ->
  exists w ts1 ts2 rest, ch = w ++ (b, ts1 ++ e :: ts2) :: rest /\ Forall (fun x => segment_id x <> id) ts1.
Proof.
  intros (ts & e' & (w & rest & ->)%list_elem_of_split & (ts1 & ts2 & ->)%list_elem_of_split & He) Hh.
  rewrite items_app, items_cons, <- app_assoc, app_assoc in Hh. cbn [app] in Hh.
  assert (e' = e) as -> by (eapply has_unique; [exact Hh| |done]; set_solver). exists w, ts1, ts2, rest. split; [done|].
  apply has_split in Hh as [Hp _]. by apply Forall_app in Hp as [_ ?].
Qed.

Lemma loc_update w b ts ts' rest id b' : (forall e, e ∈ ts -> segment_id e = id -> e ∈ ts') ->
  loc (w ++ (b, ts) :: rest) id b' -> loc (w ++ (b, ts') :: rest) id b'.
Proof.
  intros Hsub (ts0 & e & Hin & He & Hid). rewrite elem_of_app, elem_of_cons in Hin.
  destruct Hin as [Hin|[[= -> ->]|Hin]]; [exists ts0|exists ts'|exists ts0]; exists e; rewrite elem_of_app, elem_of_cons; auto 10.
Qed.

Lemma loc_appends ch ts ch' id b : appends ch ts ch' -> loc ch id b -> loc ch' id b.
Proof.
  induction 1 as [|ch t ts w1 b1 ts1 rest1 ch' [Hp _] _ IH]; [done|]. intros Hloc. apply IH.
  destruct Hp as [->|(-> & -> & -> & _)].
  - eapply loc_update; [|exact Hloc]. set_solver.
  - destruct Hloc as (ts0 & e & Hin & He & Hid). exists ts0, e. split; [set_solver|done].
Qed.

Lemma find_on_page_spec e' e r0 r hb ch b (Q : list LinkedItems.lp * Z * nat -> rel -> Prop) : ilist r0 r hb ch ->
  loc ch (segment_id e') b -> has (segment_id e') e (items ch) ->
  (forall w ts1 ts2 rest, ch = w ++ (b, ts1 ++ e :: ts2) :: rest ->
     Q (enc (ts1 ++ e :: ts2), link rest InvalidBlockNumber, length ts1) r) ->
  runs (find_on_page e' b) r Q.
Proof.
  intros Hl Hloc Hh HQ. destruct (loc_split _ _ _ _ Hloc Hh) as (w & ts1 & ts2 & rest & -> & Hne).
  destruct (ilist_mid _ _ _ _ _ _ _ Hl) as (_ & Hb & _). unfold find_on_page. apply runs_bind. eapply runs_get_items; [exact Hb|].
  cbn [fst snd]. rewrite page_find_spec; [|by apply (has_in _ _ _ Hh)|done]. apply runs_bind, runs_ret, runs_ret. by eapply HQ.
Qed.

(** The entry is replaced on its page. *)
Lemma replace_on_page e' e r0 r hb w b ts1 ts2 rest (Q : unit -> rel -> Prop) : ilist r0 r hb (w ++ (b, ts1 ++ e :: ts2) :: rest) ->
  segment_id e = segment_id e' -> overwrites (enc (ts1 ++ e :: ts2)).*2 (length ts1) (into_item e') = true ->
  (forall r', ilist r0 r' hb (w ++ (b, ts1 ++ e' :: ts2) :: rest) -> Q tt r') ->
  runs (put_page b (LinkedItems.mk_items (<[length ts1 := (false, into_item e')]> (enc (ts1 ++ e :: ts2))) (link rest InvalidBlockNumber))) r Q.
Proof.
  intros Hl Hid Ho HQ. destruct (ilist_mid _ _ _ _ _ _ _ Hl) as (_ & Hb & Hk).
  rewrite enc_insert, insert_app_r_alt, Nat.sub_diag by done. cbn [insert list_insert].
  eapply runs_put_page; [apply (il_rel _ _ _ _ Hl)|exact Hb|]. intros r' Hr' Hpg. apply HQ. eapply ilist_update; [exact Hl| |done|done].
  intros l1 y l2 E. rewrite enc_items in Ho. apply (overwrites_fits _ _ _ Ho) with (l2 := into_item <$> l2).
  - rewrite length_fmap, length_app. simpl. lia.
  - intros k1 z k2 Ek. apply fmap_app_inv in Ek as (j1 & j2 & -> & Ej & Et). symmetry in Ej.
    apply fmap_cons_inv in Ej as (u & j3 & -> & -> & ->). by apply (Hk j1 u j3).
  - rewrite <- list_fmap_insert, insert_app_r_alt, Nat.sub_diag by done. cbn [insert list_insert]. rewrite E. by rewrite fmap_app.
Qed.

(** ** Writing the changes *)

(** Entries to be written over the ones with their ids, which are on the given pages. *)
Definition pending (P : SegmentMetaEntry -> SegmentMetaEntry -> Prop) ch (l : list (SegmentMetaEntry * Z)) : Prop :=
  NoDup (segment_id <$> l.*1) /\
  Forall (fun x => loc ch (segment_id x.1) x.2 /\ exists e, has (segment_id x.1) e (items ch) /\ P e x.1) l.

(** What is pending under other ids still is. *)
Lemma pending_frame P ch ch' l written : pending P ch l -> items ch' ≡ₚ set_entries written (items ch) ->
  (forall id b, id ∉ segment_id <$> written -> loc ch id b -> loc ch' id b) ->
  (forall x, x ∈ l -> segment_id x.1 ∉ segment_id <$> written) -> pending P ch' l.
Proof.
  intros [Hnd Hp] Hi Hloc Hne. split; [done|]. rewrite Forall_forall in *. intros x Hx.
  destruct (Hp x Hx) as (Hl & e & Hh & HP). split; [by apply Hloc; [apply Hne|]|]. exists e. split; [|done]. rewrite Hi.
  apply set_entries_other; [by apply Hne|done].
Qed.

(** After one of them has been written the others are still pending. *)
Lemma pending_step P ch ch' e' b l : pending P ch ((e', b) :: l) -> items ch' ≡ₚ set_entry e' (items ch) ->
  (forall id b, id <> segment_id e' -> loc ch id b -> loc ch' id b) -> pending P ch' l.
Proof.
  intros [Hnd [Hx Hp]%Forall_cons] Hi Hloc. rewrite !fmap_cons in Hnd. apply NoDup_cons in Hnd as [Hni Hnd].
  eapply (pending_frame P ch ch' l [e']); [done|done| |].
  - intros id b'. rewrite fmap_cons, fmap_nil, list_elem_of_singleton. apply Hloc.
  - intros x Hx'. rewrite fmap_cons, fmap_nil, list_elem_of_singleton. intros E. apply Hni. cbn [fst]. rewrite <- E.
    by apply list_elem_of_fmap_2, list_elem_of_fmap_2.
Qed.

(** The change of one page on the level of the list. *)
Lemma replaced_items e' e w b ts1 ts2 rest : has (segment_id e') e (items (w ++ (b, ts1 ++ e :: ts2) :: rest)) ->
  items (w ++ (b, ts1 ++ e' :: ts2) :: rest) = set_entry e' (items (w ++ (b, ts1 ++ e :: ts2) :: rest)).
Proof.
  rewrite !items_app, !items_cons, <- !app_assoc, !(app_assoc (items w)). cbn [app]. intros Hh. by rewrite set_entry_split.
Qed.

Lemma replaced_loc e' e w b ts1 ts2 rest id b' : segment_id e = segment_id e' -> id <> segment_id e' ->
  loc (w ++ (b, ts1 ++ e :: ts2) :: rest) id b' -> loc (w ++ (b, ts1 ++ e' :: ts2) :: rest) id b'.
Proof. intros Hid Hne. apply loc_update. intros x. rewrite !elem_of_app, !elem_of_cons. intros [?|[->|?]] Hx; [auto|congruence|auto]. Qed.

Lemma write_deleted_spec l r0 r hb ch (Q : unit -> rel -> Prop) : ilist r0 r hb ch ->
  pending (fun e e' => xmax e = InvalidTransactionId /\ e' = set_xmax FrozenTransactionId e) ch l ->
  (forall r' ch', ilist r0 r' hb ch' -> items ch' ≡ₚ set_entries l.*1 (items ch) ->
     (forall id b, id ∉ segment_id <$> l.*1 -> loc ch id b -> loc ch' id b) -> Q tt r') ->
  runs (write_deleted l) r Q.
Proof.
  revert r ch. induction l as [|[e' b] l IH]; intros r ch Hl Hp HQ; cbn [write_deleted].
  { apply runs_ret. by apply (HQ r ch). }
  pose proof Hp as [_ [(Hloc & e & Hh & Hx & Ee) _]%Forall_cons]. cbn [fst snd] in *.
  assert (xmax e' = FrozenTransactionId) as -> by (by rewrite Ee). apply runs_bind. rewrite Z.eqb_refl. apply runs_ret, runs_bind.
  eapply find_on_page_spec; [exact Hl|exact Hloc|exact Hh|]. intros w ts1 ts2 rest ->. apply runs_bind.
  assert (overwrites (enc (ts1 ++ e :: ts2)).*2 (length ts1) (into_item e') = true) as Ho.
  { eapply overwrites_same; [rewrite enc_items, list_lookup_fmap, list_lookup_middle by done; reflexivity|]. rewrite Ee. by apply frozen_size. }
  rewrite Ho. eapply replace_on_page; [exact Hl|by rewrite Ee|exact Ho|]. intros r1 Hl1.
  pose proof (replaced_items _ _ _ _ _ _ _ Hh) as Ei. eapply IH; [exact Hl1| |].
  - eapply pending_step; [exact Hp|by rewrite Ei|]. intros id b0 Hne. apply replaced_loc; [by rewrite Ee|done].
  - intros r2 ch2 Hl2 Hi2 Hloc2. apply (HQ r2 ch2); [done| |].
    + rewrite Hi2, Ei. done.
    + intros id b0. rewrite !fmap_cons. intros [Hne Hni]%not_elem_of_cons Hb0. apply Hloc2; [done|]. apply (replaced_loc e' e); [by rewrite Ee|done|done].
Qed.

Lemma write_modified_spec l r0 r hb ch (Q : unit -> rel -> Prop) : ilist r0 r hb ch ->
  pending (fun _ _ => True) ch l ->
  (forall r' ch', ilist r0 r' hb ch' -> items ch' ≡ₚ set_entries l.*1 (items ch) -> Q tt r') ->
  runs (write_modified l) r Q.
Proof.
  revert r ch. induction l as [|[e' b] l IH]; intros r ch Hl Hp HQ; cbn [write_modified].
  { apply runs_ret. by apply (HQ r ch). }
  pose proof Hp as [_ [(Hloc & e & Hh & _) _]%Forall_cons]. cbn [fst snd] in *.
  apply runs_bind. eapply find_on_page_spec; [exact Hl|exact Hloc|exact Hh|]. intros w ts1 ts2 rest ->. apply runs_bind.
  pose proof (has_in _ _ _ Hh) as [_ Hid].
  destruct (overwrites (enc (ts1 ++ e :: ts2)).*2 (length ts1) (into_item e')) eqn:Ho.
  - eapply replace_on_page; [exact Hl|done|exact Ho|]. intros r1 Hl1.
    pose proof (replaced_items _ _ _ _ _ _ _ Hh) as Ei. eapply IH; [exact Hl1| |].
    + eapply pending_step; [exact Hp|by rewrite Ei|]. intros id b0 Hne. by apply replaced_loc.
    + intros r2 ch2 Hl2 Hi2. apply (HQ r2 ch2); [done|]. rewrite Hi2, Ei. done.
  - destruct (ilist_mid _ _ _ _ _ _ _ Hl) as (_ & Hb & Hk). rewrite enc_delete, delete_middle. apply runs_bind.
    eapply runs_put_page; [apply (il_rel _ _ _ _ Hl)|exact Hb|]. intros r1 Hr1 Hpg.
    assert (ilist r0 r1 hb (w ++ (b, ts1 ++ ts2) :: rest)) as Hl1.
    { eapply ilist_update; [exact Hl| |done|done]. eapply packed_sub; [exact Hk|]. apply sublist_app; [done|]. by apply sublist_cons. }
    eapply add_loop_spec; [exact Hl1|rewrite fmap_app; set_solver|by repeat constructor|]. intros r2 ch2 Hl2 Hap.
    assert (items ch2 ≡ₚ set_entry e' (items (w ++ (b, ts1 ++ e :: ts2) :: rest))) as Ei.
    { rewrite (appends_perm _ _ _ Hap), <- (replaced_items e' e) by done. rewrite !items_app, !items_cons, <- !app_assoc.
      do 2 apply Permutation_app_head. rewrite app_assoc, Permutation_app_comm. done. }
    eapply IH; [exact Hl2| |].
    + eapply pending_step; [exact Hp|exact Ei|]. intros id b0 Hne Hb0. eapply loc_appends; [exact Hap|]. revert Hb0. apply loc_update.
      intros x. rewrite !elem_of_app, !elem_of_cons. intros [?|[->|?]] Hx; [auto|congruence|auto].
    + intros r3 ch3 Hl3 Hi3. apply (HQ r3 ch3); [done|]. rewrite Hi3. cbn. by rewrite Ei.
Qed.

(** ** Collecting the changes *)

Lemma delete_loop_spec in_transaction ids r0 r hb ch (Q : list (SegmentMetaEntry * Z) -> rel -> Prop) : ilist r0 r hb ch ->
  NoDup ids -> in_transaction = true \/ ids = [] ->
  (forall id, id ∈ ids -> exists e, has id e (items ch) /\ xmax e = InvalidTransactionId) ->
  (forall l, l.*1 = set_xmax FrozenTransactionId <$> omap (ent (items ch)) ids -> segment_id <$> l.*1 = ids ->
     pending (fun e e' => xmax e = InvalidTransactionId /\ e' = set_xmax FrozenTransactionId e) ch l -> Q l r) ->
  runs (delete_loop in_transaction ids hb) r Q.
Proof.
  intros Hl Hnd Htx. revert Q. induction ids as [|id ids IH]; intros Q Hh HQ; cbn [delete_loop].
  { apply runs_ret, HQ; [done|done|]. split; constructor. }
  pose proof Hnd as [Hni Hnd']%NoDup_cons. destruct Htx as [->|?]; [|done]. destruct (Hh id ltac:(left)) as (e & He & Hx).
  apply runs_bind. eapply lookup_segment_spec; [exact Hl|exact He|]. intros b Hloc. cbn [fst snd]. rewrite Hx, Z.eqb_refl.
  apply runs_bind, runs_ret, runs_bind. apply IH; [done|by left|intros; apply Hh; by right|]. intros l El Eids [_ Hpl].
  destruct (has_in _ _ _ He) as [_ Hid].
  assert (segment_id <$> ((set_xmax FrozenTransactionId e, b) :: l).*1 = id :: ids) as Eids'.
  { rewrite !fmap_cons, Eids. cbn [fst]. by rewrite <- Hid. }
  apply runs_ret, HQ; [|done|].
  - cbn [omap list_omap]. rewrite (has_ent _ _ _ He), !fmap_cons. by rewrite <- El.
  - split; [by rewrite Eids'|]. constructor; [|done]. cbn [fst snd]. change (segment_id (set_xmax FrozenTransactionId e)) with (segment_id e).
    rewrite Hid. split; [done|]. by exists e.
Qed.

Lemma replace_deletes_some d e : is_mutable e = false ->
  exists o e', replace_deletes d e = Some (o, e') /\ segment_id e' = segment_id e /\ xmax e' = xmax e.
Proof. unfold is_mutable, replace_deletes. destruct (SegmentMeta.content e) as [c|c]; [|done]. intros _. by eexists _, _. Qed.

(** The files of a modified segment are one delete file. *)
Definition modifiable (incoming : gmap Z TantivySegment) (new_files : gmap Z files_of) (es : list SegmentMetaEntry) (id : Z) : Prop :=
  (exists files, new_files !! id = Some files /\ size files = 1%nat /\ is_Some (files !! Delete)) /\
  is_Some (incoming !! id) /\ exists e, has id e es /\ is_mutable e = false.

Lemma modify_loop_spec incoming ids new_files nf r0 r hb ch (Q : Metas.modified -> rel -> Prop) : ilist r0 r hb ch ->
  NoDup ids -> (forall id, id ∈ ids -> new_files !! id = nf !! id) ->
  (forall id, id ∈ ids -> modifiable incoming nf (items ch) id) ->
  (forall m, (entries_of m).*1 = omap (fun e => snd <$> replacement incoming nf e) (omap (ent (items ch)) ids) ->
     orphaned_deletes_files m = omap (fun e => replacement incoming nf e ≫= fst) (omap (ent (items ch)) ids) ->
     segment_id <$> (entries_of m).*1 = ids -> pending (fun _ _ => True) ch (entries_of m) ->
     (forall id, rest_files m !! id = if decide (id ∈ ids) then None else new_files !! id) -> Q m r) ->
  runs (modify_loop incoming ids new_files hb) r Q.
Proof.
  intros Hl. revert new_files Q. induction ids as [|id ids IH]; intros new_files Q Hnd Hnf Hm HQ; cbn [modify_loop].
  { apply runs_ret, HQ; [done|done|done|split; constructor|]. intros id. rewrite decide_False; [done|]. apply not_elem_of_nil. }
  pose proof Hnd as [Hni Hnd']%NoDup_cons. destruct (Hm id ltac:(left)) as ((files & Hf & Hsz & [fd Hd]) & [segment Hs] & e & He & Hmu).
  destruct (has_in _ _ _ He) as [_ Hid].
  rewrite (Hnf id ltac:(left)), Hf, Hsz. cbn [Nat.eqb]. rewrite Hd, Hs. apply runs_bind, runs_ret, runs_bind, runs_ret, runs_bind.
  eapply lookup_segment_spec; [exact Hl|exact He|]. intros b Hloc. cbn [fst snd]. set (d := mkDelete fd.1 (t_num_deleted_docs segment)).
  destruct (replace_deletes_some d e Hmu) as (o & e' & Er & Eid & _). rewrite Er. apply runs_bind, runs_ret, runs_bind.
  assert (replacement incoming nf e = Some (o, e')) as Erep.
  { unfold replacement, new_delete. rewrite Hid, Hf. cbn [mbind option_bind]. rewrite Hd. cbn [mbind option_bind]. rewrite Hs. exact Er. }
  apply IH; [done| |intros id0 Hid0; apply Hm; by right|].
  { intros id0 Hid0. rewrite lookup_delete_ne by (by intros ->). apply Hnf. by right. }
  intros m Em Eo Eids [_ Hpm] Hrest. cbn [fst snd].
  assert (segment_id <$> ((e', b) :: entries_of m).*1 = id :: ids) as Eids' by (rewrite !fmap_cons, Eids; cbn [fst]; by rewrite Eid, Hid).
  apply runs_ret, HQ; cbn [entries_of orphaned_deletes_files rest_files omap list_omap]; rewrite ?(has_ent _ _ _ He); cbn [omap list_omap]; rewrite ?Erep.
  - cbn. by f_equal.
  - cbn. rewrite Eo. by destruct o.
  - exact Eids'.
  - split; [by rewrite Eids'|]. constructor; [|done]. cbn [fst snd]. rewrite Eid, Hid. split; [done|]. by exists e.
  - intros id0. rewrite Hrest. destruct (decide (id0 = id)) as [->|Hne].
    + rewrite (decide_True (P := id ∈ id :: ids)) by left. case_decide; [done|apply lookup_delete_eq].
    + rewrite lookup_delete_ne by done. repeat case_decide; set_solver.
Qed.

(** ** The whole call *)

(** The files can be grouped; a segment that stays and gets new files gets one delete file and
    is immutable; a segment that goes is in the list and not deleted yet. *)
Record save_ok (in_transaction : bool) (new_meta prev_meta : list TantivySegment) (directory_entries : list (string * FileEntry))
    (new_files : gmap Z files_of) (es : list SegmentMetaEntry) : Prop := {
  so_group : group_files component_of_ext from_uuid_string directory_entries = Some new_files;
  so_modified : forall id, id ∈ modified_ids new_files new_meta prev_meta ->
    (exists files, new_files !! id = Some files /\ size files = 1%nat) /\ exists e, has id e es /\ is_mutable e = false;
  so_deleted : forall id, id ∈ deleted_ids new_meta prev_meta -> exists e, has id e es /\ xmax e = InvalidTransactionId;
  so_transaction : in_transaction = true \/ deleted_ids new_meta prev_meta = [];
}.

Definition saved (new_meta prev_meta : list TantivySegment) (new_files : gmap Z files_of) (es : list SegmentMetaEntry) : list SegmentMetaEntry :=
  let incoming := incoming_segments new_meta in
  let modified := modified_ids new_files new_meta prev_meta in
  (changed incoming new_files (deleted_ids new_meta prev_meta) modified <$> es) ++
  created_of incoming new_files (created_ids new_meta prev_meta) ++
  omap (orphan incoming new_files modified) es.

Lemma save_modifiable tx new_meta prev_meta dirs nf es id : save_ok tx new_meta prev_meta dirs nf es ->
  id ∈ modified_ids nf new_meta prev_meta -> modifiable (incoming_segments new_meta) nf es id.
Proof.
  intros Hs Hid. destruct (so_modified _ _ _ _ _ _ Hs id Hid) as ((files & Hf & Hsz) & He).
  apply modified_ids_elem in Hid as (Hd & _ & Hn). rewrite Hf in Hd. split; [by exists files|]. split; [by apply incoming_some|done].
Qed.

(** Both rounds of changes together. *)
Lemma changes_done tx new_meta prev_meta dirs nf es ld lm : save_ok tx new_meta prev_meta dirs nf es ->
  let incoming := incoming_segments new_meta in
  let del := deleted_ids new_meta prev_meta in let md := modified_ids nf new_meta prev_meta in
  ld = set_xmax FrozenTransactionId <$> omap (ent es) del -> segment_id <$> ld = del ->
  lm = omap (fun e => snd <$> replacement incoming nf e) (omap (ent es) md) -> segment_id <$> lm = md ->
  set_entries lm (set_entries ld es) = changed incoming nf del md <$> es.
Proof.
  intros Hs incoming del md Eld Hld Elm Hlm.
  assert (set_entries ld es = (fun e => if decide (segment_id e ∈ del) then set_xmax FrozenTransactionId e else e) <$> es) as ->.
  { apply (set_entries_change _ _ _ _ es); [apply NoDup_elements|done| |intros id Hid; destruct (so_deleted _ _ _ _ _ _ Hs id Hid) as (e & He & _); by exists e|done].
    rewrite Eld. intros x (e & -> & (id & _ & [He _]%ent_in)%list_elem_of_omap)%list_elem_of_fmap. by exists e. }
  assert (forall e, segment_id e ∈ md -> is_mutable e = false -> exists o e', replacement incoming nf e = Some (o, e') /\ segment_id e' = segment_id e) as Hrep.
  { intros e Hid Hmu. destruct (save_modifiable _ _ _ _ _ _ _ Hs Hid) as ((files & Hf & _ & [fd Hd]) & [sg Hsg] & _).
    unfold replacement, new_delete. rewrite Hf. cbn [mbind option_bind]. rewrite Hd. cbn [mbind option_bind]. subst incoming. rewrite Hsg. cbn [mbind option_bind].
    destruct (replace_deletes_some (mkDelete fd.1 (t_num_deleted_docs sg)) e Hmu) as (o & e' & Er & Ei & _). by exists o, e'. }
  rewrite (set_entries_change (fun e => from_option snd e (replacement incoming nf e)) lm md _ es); [|apply modified_ids_nodup|done| | |].
  - rewrite <- list_fmap_compose. apply list_fmap_ext. intros i e He. unfold compose, changed.
    destruct (decide (segment_id e ∈ del)) as [Hd|Hd]; [|done]. change (segment_id (set_xmax FrozenTransactionId e)) with (segment_id e).
    rewrite decide_False; [done|]. intros Hm%modified_not_deleted. done.
  - rewrite Elm. intros x (e & (id & Hid & [He Ei]%ent_in)%list_elem_of_omap & E)%list_elem_of_omap. exists e. split; [done|]. subst id.
    destruct (so_modified _ _ _ _ _ _ Hs _ Hid) as (_ & e0 & Hh0 & Hmu0). rewrite <- (has_unique _ _ _ e Hh0 He eq_refl) in Hmu0.
    destruct (Hrep e Hid Hmu0) as (o & e' & Er & Ei'). rewrite Er in *. injection E as <-. by split.
  - intros id Hid. destruct (so_modified _ _ _ _ _ _ Hs id Hid) as (_ & e & He & _). by exists e.
  - intros x (e & -> & He)%list_elem_of_fmap Hid. destruct (decide (segment_id e ∈ del)); [|done].
    by apply modified_not_deleted in Hid.
Qed.

Lemma orphans_done tx new_meta prev_meta dirs nf es : save_ok tx new_meta prev_meta dirs nf es ->
  let incoming := incoming_segments new_meta in let md := modified_ids nf new_meta prev_meta in
  omap (fun e => replacement incoming nf e ≫= fst) (omap (ent es) md) ≡ₚ omap (orphan incoming nf md) es.
Proof.
  intros Hs incoming md. rewrite (entries_with_ids md es); [|apply modified_ids_nodup|].
  2: { intros id Hid. destruct (so_modified _ _ _ _ _ _ Hs id Hid) as (_ & e & He & _). by exists e. }
  clear Hs. induction es as [|e es IH]; [done|]. rewrite filter_cons. cbn [omap list_omap]. unfold orphan at 1.
  destruct (decide (segment_id e ∈ md)); cbn [omap list_omap]; [|done]. destruct (replacement incoming nf e ≫= fst); by rewrite IH.
Qed.

(** The directory entries that are given back. *)
Definition left_over (new_meta prev_meta : list TantivySegment) (nf : gmap Z files_of) (left : list (string * FileEntry)) : Prop :=
  forall p f, (p, f) ∈ left <-> exists id files k, id ∉ created_ids new_meta prev_meta /\ id ∉ modified_ids nf new_meta prev_meta /\
    nf !! id = Some files /\ files !! k = Some (f, p).

Lemma left_over_ok new_meta prev_meta (nf nf1 nf2 : gmap Z files_of) :
  (forall id, nf1 !! id = if decide (id ∈ created_ids new_meta prev_meta) then None else nf !! id) ->
  (forall id, nf2 !! id = if decide (id ∈ modified_ids nf new_meta prev_meta) then None else nf1 !! id) ->
  left_over new_meta prev_meta nf (map_to_list nf2 ≫= (fun s => (fun f : _ * (FileEntry * string) => (f.2.2, f.2.1)) <$> map_to_list s.2)).
Proof.
  intros E1 E2 p f. rewrite list_elem_of_bind. split.
  - intros ([id files] & ([k [f' p']] & [= -> ->] & Hk%elem_of_map_to_list)%list_elem_of_fmap & Hid%elem_of_map_to_list). cbn [fst snd] in *.
    rewrite E2, E1 in Hid. do 2 (case_decide; [done|]). by exists id, files, k.
  - intros (id & files & k & Hc & Hm & Hid & Hk). exists (id, files). split.
    + apply list_elem_of_fmap. exists (k, (f, p)). split; [done|]. by apply elem_of_map_to_list.
    + apply elem_of_map_to_list. by rewrite E2, E1, !decide_False.
Qed.

Lemma save_new_metas_spec tx commit_xid new_meta prev_meta dirs nf r0 r hb ch (Q : list (string * FileEntry) -> rel -> Prop) :
  ilist r0 r hb ch -> normal_xid commit_xid -> save_ok tx new_meta prev_meta dirs nf (items ch) ->
  (forall left r' ch', ilist r0 r' hb ch' -> items ch' ≡ₚ saved new_meta prev_meta nf (items ch) ->
     left_over new_meta prev_meta nf left -> Q left r') ->
  runs (save_new_metas component_of_ext from_uuid_string tx commit_xid new_meta prev_meta dirs hb) r Q.
Proof.
  intros Hl Hx Hs HQ. set (incoming := incoming_segments new_meta). set (es := items ch) in *. unfold save_new_metas. apply runs_bind.
  eapply (atomically_spec (T := SegmentMetaEntry)); [exact Hl|]. intros r1 cb ch1 Hl1 E1%items_same. fold es in E1.
  rewrite (so_group _ _ _ _ _ _ Hs). apply runs_bind, runs_ret, runs_bind. set (md := modified_ids nf new_meta prev_meta).
  destruct (create_loop_spec incoming (created_ids new_meta prev_meta) nf) as (nf1 & Ec & Hnf1); [apply NoDup_elements| |].
  { intros id. unfold created_ids. rewrite elem_of_elements, elem_of_difference. intros [Hn _]. by apply incoming_some. }
  fold incoming. rewrite Ec. apply runs_ret, runs_bind. set (created := created_of incoming nf (created_ids new_meta prev_meta)) in *.
  eapply (modify_loop_spec incoming md nf1 nf); [exact Hl1|apply modified_ids_nodup| | |].
  { intros id Hid. rewrite Hnf1, decide_False; [done|]. by apply modified_not_created in Hid. }
  { intros id Hid. rewrite E1. by eapply save_modifiable. }
  intros m Em Eo Eidm Hpm Hrest. rewrite E1 in Em, Eo. apply runs_bind.
  eapply delete_loop_spec; [exact Hl1|apply NoDup_elements|apply (so_transaction _ _ _ _ _ _ Hs)|rewrite E1; apply (so_deleted _ _ _ _ _ _ Hs)|].
  intros ld Eld Eidd Hpd. rewrite E1 in Eld. apply runs_bind. eapply write_deleted_spec; [exact Hl1|exact Hpd|].
  intros r2 ch2 Hl2 Hi2 Hloc2. rewrite E1 in Hi2. apply runs_bind. eapply write_modified_spec; [exact Hl2| |].
  { eapply pending_frame; [exact Hpm|by rewrite E1|exact Hloc2|]. intros x Hx'. rewrite Eidd. apply (modified_not_deleted nf).
    fold md. rewrite <- Eidm. by apply list_elem_of_fmap_2, list_elem_of_fmap_2. }
  intros r3 ch3 Hl3 Hi3. rewrite Hi2, (changes_done tx _ _ dirs nf es _ _ Hs Eld Eidd Em Eidm) in Hi3.
  apply runs_bind.
  assert (forall l r4 ch4 (Q' : unit -> rel -> Prop), ilist r r4 cb ch4 ->
    (forall r5 ch5, ilist r r5 cb ch5 -> items ch5 ≡ₚ items ch4 ++ l -> Q' tt r5) ->
    runs (match l with [] => mret tt | _ => LinkedItems.add_items l cb end) r4 Q') as Hadd.
  { intros l r4 ch4 Q' Hl4 HQ'. destruct l as [|e l]; [apply runs_ret, (HQ' r4 ch4 Hl4); by rewrite app_nil_r|].
    eapply add_items_spec; [exact Hl4|by apply Forall_forall|]. intros r5 ch5 Hl5 Hap%appends_perm. by apply (HQ' r5 ch5). }
  eapply Hadd; [exact Hl3|]. intros r4 ch4 Hl4 Hi4. apply runs_bind. eapply Hadd; [exact Hl4|]. intros r5 ch5 Hl5 Hi5.
  apply runs_bind. eapply (commit_spec (T := SegmentMetaEntry)); [done|exact Hl|exact Hl5|]. intros r6 Hl6. apply runs_ret.
  apply (HQ _ r6 ch5); [done| |by eapply left_over_ok].
  pose proof (orphans_done tx new_meta prev_meta dirs nf es Hs) as Ho. cbv zeta in Ho. fold incoming md in Ho.
  rewrite Hi5, Hi4, Hi3, Eo, Ho. by rewrite <- app_assoc.
Qed.

End saving.

(** ** Loading *)

Section loading.
Context `{ItemCodec SegmentMetaEntry} `{ItemSpace}.
Context {F : Type} `{FreeSpaceManager F} {Els : Elsewhere}.

Abbreviation rel := (rel F lpage).
Implicit Types (r : rel) (ch : list (Z * list SegmentMetaEntry)).

Variables (cleanup : Z -> bool) (mutable_rows : option Z).

Definition has_files (e : SegmentMetaEntry) : Prop := is_Some (pintest_blockno e).

Definition accepted (solve_mvcc : MvccSatisfies) (e : SegmentMetaEntry) : bool :=
  match recyclable cleanup e with Ok b => negb b && satisfies mutable_rows solve_mvcc e | _ => false end.

Lemma recyclable_ok e : has_files e -> exists b, recyclable cleanup e = Ok b.
Proof. intros [b Hb]. unfold recyclable. rewrite Hb. case_match; by eexists. Qed.

(** Whoever is not looking for the largest segment gets all that it accepts, pinned. *)
Lemma load_entries_spec solve_mvcc s es : solve_mvcc <> LargestSegment -> Forall has_files es ->
  let acc := filter (fun e => accepted solve_mvcc e = true) es in
  exists s', load_entries cleanup mutable_rows solve_mvcc s es = Ok s' /\ entries s' = entries s ++ acc /\
    pin_cushion s' = pin_cushion s ∪ list_to_set (omap pintest_blockno acc) /\ total_segments s' = (total_segments s + length acc)%nat.
Proof.
  intros Hm Hf. revert s. induction Hf as [|e es He _ IH]; intros s; cbn [load_entries].
  { exists s. rewrite app_nil_r. cbn. split; [done|]. split; [done|]. split; [set_solver|lia]. }
  destruct (recyclable_ok e He) as [b Hb]. destruct He as [blk Hblk]. unfold load_entry. rewrite Hb, filter_cons.
  assert (accepted solve_mvcc e = negb b && satisfies mutable_rows solve_mvcc e) as Eacc by (unfold accepted; by rewrite Hb).
  destruct (negb b && satisfies mutable_rows solve_mvcc e) eqn:Ea.
  - rewrite decide_True by (by rewrite Eacc). destruct solve_mvcc as [only| | | |]; [|done|..]; rewrite Hblk;
      (edestruct IH as (s' & E & Ee & Ep & Et); rewrite E; exists s'; split; [done|]; cbn [entries pin_cushion total_segments] in *;
       split; [rewrite Ee, <- app_assoc; done|]; split; [rewrite Ep; cbn [omap list_omap]; rewrite Hblk; cbn; set_solver|rewrite Et; cbn; lia]).
  - rewrite decide_False by (by rewrite Eacc). apply IH.
Qed.

Lemma accepted_snapshot e : has_files e -> accepted Snapshot e = visible e.
Proof.
  intros He. unfold accepted, recyclable, satisfies, visible. destruct (is_deleted e); [|done]. destruct He as [b ->]. cbn. apply andb_false_r.
Qed.

Lemma load_metas_snapshot r0 r hb ch garbage (Q : LoadedMetas -> rel -> Prop) : ilist r0 r hb ch -> Forall has_files (items ch) ->
  (forall s, entries s = filter (fun e => visible e = true) (items ch) -> pin_cushion s = list_to_set (omap pintest_blockno (entries s)) -> Q s r) ->
  runs (load_metas cleanup mutable_rows Snapshot hb garbage) r Q.
Proof.
  intros Hl Hf HQ. unfold load_metas, load_list. apply runs_bind, runs_bind. eapply list_spec; [exact Hl|].
  destruct (load_entries_spec Snapshot (mkLoaded [] ∅ 0 0) (items ch) ltac:(done) Hf) as (s & E & Ee & Ep & _).
  unfold lift_outcome, runs at 1, mwp. rewrite E. cbn [missing]. apply runs_ret.
  assert (filter (fun e => accepted Snapshot e = true) (items ch) = filter (fun e => visible e = true) (items ch)) as Ef.
  { clear -Hf. induction Hf as [|e es He _ IH]; [done|]. rewrite !filter_cons, IH, (accepted_snapshot e He). done. }
  cbn [entries pin_cushion app] in Ee, Ep. rewrite Ef in Ee, Ep. apply HQ; [exact Ee|]. rewrite Ep, Ee. set_solver.
Qed.

(** Whoever looks for the largest segment gets one with the most documents, if there is one
    with any. *)
Definition largest_of (es : list SegmentMetaEntry) (l : list SegmentMetaEntry) : Prop :=
  match l with
  | [] => Forall (fun e => num_docs e <= 0) es
  | [e] => e ∈ es /\ 0 < num_docs e /\ Forall (fun e' => num_docs e' <= num_docs e) es
  | _ => False
  end.

Lemma largest_snoc es l e : largest_of es l -> num_docs e <= from_option num_docs 0 (head l) -> largest_of (es ++ [e]) l.
Proof.
  destruct l as [|e0 [|? ?]]; cbn; [| |done].
  - intros Hf He. apply Forall_app. by repeat constructor.
  - intros (Hin & Hpos & Hf) He. split; [set_solver|]. split; [done|]. apply Forall_app. by repeat constructor.
Qed.

Lemma largest_new es l e : largest_of es l -> from_option num_docs 0 (head l) < num_docs e -> largest_of (es ++ [e]) [e].
Proof.
  intros Hl He. cbn. split; [set_solver|]. assert (0 <= from_option num_docs 0 (head l) /\ Forall (fun e' => num_docs e' <= from_option num_docs 0 (head l)) es) as [Hpos Hf].
  { destruct l as [|e0 [|? ?]]; cbn in *; [done| |done]. destruct Hl as (_ & ? & ?). split; [lia|done]. }
  split; [lia|]. apply Forall_app. split; [|by repeat constructor]. eapply Forall_impl; [exact Hf|]. intros x Hx. cbv beta in Hx. lia.
Qed.

Lemma load_largest s es0 es : largest_of es0 (entries s) -> largest_doc_count s = from_option num_docs 0 (head (entries s)) ->
  Forall has_files es -> exists s', load_entries cleanup mutable_rows LargestSegment s es = Ok s' /\
    largest_of (es0 ++ filter (fun e => accepted LargestSegment e = true) es) (entries s').
Proof.
  intros Hl Hd Hf. revert s es0 Hl Hd. induction Hf as [|e es He _ IH]; intros s es0 Hl Hd; cbn [load_entries].
  { exists s. split; [done|]. cbn. by rewrite app_nil_r. }
  destruct (recyclable_ok e He) as [b Hb]. destruct He as [blk Hblk]. unfold load_entry. rewrite Hb, filter_cons.
  assert (accepted LargestSegment e = negb b && satisfies mutable_rows LargestSegment e) as Eacc by (unfold accepted; by rewrite Hb).
  destruct (negb b && satisfies mutable_rows LargestSegment e) eqn:Ea; [|rewrite decide_False by (by rewrite Eacc); by apply IH].
  rewrite decide_True by (by rewrite Eacc). change (e :: ?l) with ([e] ++ l). rewrite (app_assoc es0). cbn [largest_doc_count].
  destruct (Z.ltb_spec (largest_doc_count s) (num_docs e)) as [Hlt|Hge].
  - rewrite Hblk. apply IH; [|done]. cbn [entries app]. eapply largest_new; [exact Hl|lia].
  - apply IH; [|done]. apply largest_snoc; [done|cbn [entries]; lia].
Qed.

Lemma load_metas_largest r0 r hb ch garbage (Q : LoadedMetas -> rel -> Prop) : ilist r0 r hb ch -> Forall has_files (items ch) ->
  (forall s, largest_of (filter (fun e => visible e = true) (items ch)) (entries s) -> Q s r) ->
  runs (load_metas cleanup mutable_rows LargestSegment hb garbage) r Q.
Proof.
  intros Hl Hf HQ. unfold load_metas, load_list. apply runs_bind, runs_bind. eapply list_spec; [exact Hl|].
  destruct (load_largest (mkLoaded [] ∅ 0 0) [] (items ch)) as (s & E & Hs); [constructor|done|done|].
  unfold lift_outcome, runs at 1, mwp. rewrite E. cbn [missing]. apply runs_ret, HQ.
  replace (filter (fun e => visible e = true) (items ch)) with (filter (fun e => accepted LargestSegment e = true) (items ch)); [exact Hs|].
  clear -Hf. induction Hf as [|e es He _ IH]; [done|]. rewrite !filter_cons, IH. by rewrite <- (accepted_snapshot e He).
Qed.

End loading.

(** ** Saving, then loading *)

Section visibility.
Variables (component_of_ext : string -> option SegmentComponent) (from_uuid_string : string -> option Z).
Context `{ItemCodec SegmentMetaEntry} `{ItemOverwrite}.
Hypothesis entry_storable : forall e : SegmentMetaEntry, storable (into_item e).
Hypothesis frozen_size : forall e, xmax e = InvalidTransactionId ->
  length (into_item (set_xmax FrozenTransactionId e)) = length (into_item e).
Context {F : Type} `{FreeSpaceManager F} {Els : Elsewhere}.

Lemma changed_visible incoming nf del md e : visible (changed incoming nf del md e) = visible e && negb (bool_decide (segment_id e ∈ del)).
Proof.
  unfold changed. case_decide as Hd; [by rewrite bool_decide_true, andb_false_r|]. rewrite bool_decide_false, andb_true_r by done.
  case_decide; [|done]. unfold replacement. destruct (new_delete incoming nf (segment_id e)) as [d|]; [|done]. cbn [mbind option_bind].
  unfold replace_deletes. by destruct (SegmentMeta.content e).
Qed.

Lemma changed_id incoming nf del md e : segment_id (changed incoming nf del md e) = segment_id e.
Proof.
  unfold changed. case_decide; [done|]. case_decide; [|done]. unfold replacement.
  destruct (new_delete incoming nf (segment_id e)) as [dl|]; [|done]. cbn [mbind option_bind]. unfold replace_deletes.
  by destruct (SegmentMeta.content e).
Qed.

Lemma orphan_invisible incoming nf md e o : orphan incoming nf md e = Some o -> visible o = false.
Proof.
  unfold orphan. case_decide; [|done]. unfold replacement. destruct (new_delete incoming nf (segment_id e)) as [d|]; [|done]. cbn [mbind option_bind].
  unfold replace_deletes. destruct (SegmentMeta.content e) as [c|c]; [|done]. cbn. destruct (delete c); [|done]. by intros [= <-].
Qed.

Lemma created_visible incoming nf ids e : e ∈ created_of incoming nf ids -> visible e = true.
Proof.
  intros (id & _ & E)%list_elem_of_omap. destruct (incoming !! id) as [sg|]; [|done]. cbn in E. destruct (nf !! id); [|done]. by injection E as <-.
Qed.

(** What is visible after a call. *)
Lemma saved_visible new_meta prev_meta nf es :
  let incoming := incoming_segments new_meta in
  let del := deleted_ids new_meta prev_meta in let md := modified_ids nf new_meta prev_meta in
  filter (fun e => visible e = true) (saved new_meta prev_meta nf es) =
    (changed incoming nf del md <$> filter (fun e => visible e = true /\ segment_id e ∉ del) es) ++
    created_of incoming nf (created_ids new_meta prev_meta).
Proof.
  intros incoming del md. unfold saved. fold incoming del md. rewrite !filter_app.
  assert (filter (fun e => visible e = true) (omap (orphan incoming nf md) es) = []) as ->.
  { apply filter_none. intros e (e0 & _ & Ho%orphan_invisible)%list_elem_of_omap. congruence. }
  rewrite app_nil_r. f_equal.
  - induction es as [|e es IH]; [done|]. rewrite fmap_cons, !filter_cons, IH, changed_visible.
    destruct (decide (visible e = true /\ segment_id e ∉ del)) as [[Hv Hd]|Hn].
    + rewrite decide_True by (by rewrite Hv, bool_decide_false). done.
    + rewrite decide_False; [done|]. intros [? Hx]%andb_true_iff. apply Hn. split; [done|]. by apply negb_true_iff, bool_decide_eq_false in Hx.
  - apply filter_every. apply created_visible.
Qed.

(** C24: A commit, merge or vacuum that is saved becomes visible as a whole: the segments
    it deletes are seen no more, those it gives a new delete file are seen with it, those it
    creates are seen, every other visible segment is seen as before, and all that is seen is
    pinned.  Who asks for the largest segment gets one with the most documents of these.  The
    files of other segments are given back to the caller. *)
Theorem commit_becomes_visible r0 (r : rel F lpage) hb ch tx commit_xid new_meta prev_meta dirs nf cleanup rows :
  let incoming := incoming_segments new_meta in
  let del := deleted_ids new_meta prev_meta in let md := modified_ids nf new_meta prev_meta in
  ilist r0 r hb ch -> normal_xid commit_xid -> save_ok component_of_ext from_uuid_string tx new_meta prev_meta dirs nf (items ch) ->
  Forall has_files (saved new_meta prev_meta nf (items ch)) ->
  runs (left ← save_new_metas component_of_ext from_uuid_string tx commit_xid new_meta prev_meta dirs hb;
        s ← load_metas cleanup rows Snapshot hb None; l ← load_metas cleanup rows LargestSegment hb None; mret (left, s, l)) r
    (fun x _ => left_over new_meta prev_meta nf x.1.1 /\
       entries x.1.2 ≡ₚ (changed incoming nf del md <$> filter (fun e => visible e = true /\ segment_id e ∉ del) (items ch)) ++
         created_of incoming nf (created_ids new_meta prev_meta) /\
       pin_cushion x.1.2 = list_to_set (omap pintest_blockno (entries x.1.2)) /\
       largest_of (entries x.1.2) (entries x.2)).
Proof.
  intros incoming del md Hl Hx Hs Hf. apply runs_bind. eapply (save_new_metas_spec component_of_ext from_uuid_string entry_storable frozen_size); [exact Hl|done|exact Hs|].
  intros left r1 ch1 Hl1 Hi1 Hleft. rewrite <- Hi1 in Hf. apply runs_bind. eapply load_metas_snapshot; [exact Hl1|exact Hf|]. intros s Es Ep.
  apply runs_bind. eapply load_metas_largest; [exact Hl1|exact Hf|]. intros l Hlg. apply runs_ret. cbn [fst snd].
  split; [done|]. split; [|split; [done|by rewrite Es]]. rewrite Es, Hi1. by rewrite saved_visible.
Qed.

End visibility.

(** ** Example *)

Lemma used_space_app l1 l2 : used_space (l1 ++ l2) = (used_space l1 + used_space l2)%nat.
Proof. unfold used_space. induction l1 as [|x l1 IH]; cbn in *; [done|]. rewrite IH. lia. Qed.

Lemma used_space_insert l i x y : l !! i = Some x -> (used_space (<[i := y]> l) + length x = used_space l + length y)%nat.
Proof.
  intros Hx. assert (used_space l = used_space (take i l ++ x :: drop (S i) l)) as -> by (by rewrite (take_drop_middle _ _ _ Hx)).
  rewrite insert_take_drop by (by eapply lookup_lt_Some). rewrite (used_space_app (take i l) (y :: _)), (used_space_app (take i l) (x :: _)). cbn. lia.
Qed.

(** An item is replaced when the page has the room. *)
#[global] Program Instance small_ItemOverwrite : ItemOverwrite := {|
  overwrites l i y := (used_space (<[i := y]> l) <=? Nat.max 8 (used_space l))%nat;
|}.
Next Obligation. intros l i x y Hx Hl. apply Nat.leb_le. pose proof (used_space_insert l i x y Hx). lia. Qed.
Next Obligation.
  intros l i x Ho%Nat.leb_le Hi Hf l1 y l2 E. apply Nat.leb_le. assert (used_space l <= 8)%nat as Hu.
  { destruct l as [|z l] using rev_ind; [cbn in *; lia|]. clear IHl. specialize (Hf l z [] eq_refl). apply Nat.leb_le in Hf.
    rewrite used_space_app. cbn in *. lia. }
  rewrite E, used_space_app in Ho. cbn in Ho. lia.
Qed.

From S2P Require Import GarbageProps.

#[local] Existing Instance small_elsewhere.
#[local] Existing Instance SegmentMetaEntry_ItemCodec.

(** Of three segments the first gets a delete file and the second goes; a fourth is new. *)
Definition sample_postings (start : Z) (d : option DeleteEntry) : SegmentMetaEntryImmutable :=
  mkImmutable (Some (mkFile start 100)) None None None None None None d.
Definition sample_entry (id start : Z) (d : option DeleteEntry) : SegmentMetaEntry :=
  new_immutable id 10 InvalidTransactionId (sample_postings start d).
Definition sample_entries : list SegmentMetaEntry := [sample_entry 21 50 None; sample_entry 22 60 None; sample_entry 23 70 None].

Definition sample_ext (s : string) : option SegmentComponent :=
  if String.eqb s "idx" then Some Postings else if String.eqb s "del" then Some Delete else None.
Definition sample_uuid (s : string) : option Z :=
  if String.eqb s "a" then Some 21 else if String.eqb s "d" then Some 24 else None.
Definition sample_dirs : list (string * FileEntry) := [("a.del"%string, mkFile 80 2); ("d.idx"%string, mkFile 90 100)].

Definition sample_new : list TantivySegment := [mkTantivy 21 10 3; mkTantivy 23 10 0; mkTantivy 24 10 0].
Definition sample_prev : list TantivySegment := [mkTantivy 21 10 0; mkTantivy 22 10 0; mkTantivy 23 10 0].
Definition sample_files : gmap Z files_of := default ∅ (group_files sample_ext sample_uuid sample_dirs).

Lemma sample_modified : modified_ids sample_files sample_new sample_prev = [21].
Proof. vm_compute. reflexivity. Qed.

Lemma sample_deleted : deleted_ids sample_new sample_prev = [22].
Proof. vm_compute. reflexivity. Qed.

Lemma sample_save_ok : save_ok sample_ext sample_uuid true sample_new sample_prev sample_dirs sample_files sample_entries.
Proof.
  split.
  - reflexivity.
  - intros id. rewrite sample_modified. intros ->%list_elem_of_singleton. split.
    + eexists. split; vm_compute; reflexivity.
    + exists (sample_entry 21 50 None). split; vm_compute; reflexivity.
  - intros id. rewrite sample_deleted. intros ->%list_elem_of_singleton. exists (sample_entry 22 60 None). split; vm_compute; reflexivity.
  - by left.
Qed.

Lemma save_ok_perm coe fus tx new_meta prev_meta dirs nf es es' : es ≡ₚ es' ->
  save_ok coe fus tx new_meta prev_meta dirs nf es -> save_ok coe fus tx new_meta prev_meta dirs nf es'.
Proof.
  intros Hp [Hg Hm Hd Ht]. split; [done| | |done].
  - intros id Hid. destruct (Hm id Hid) as (Hf & e & He & Hmu). split; [done|]. exists e. by rewrite <- Hp.
  - intros id Hid. destruct (Hd id Hid) as (e & He & Hx). exists e. by rewrite <- Hp.
Qed.

Lemma saved_perm new_meta prev_meta nf es es' : es ≡ₚ es' -> saved new_meta prev_meta nf es ≡ₚ saved new_meta prev_meta nf es'.
Proof. intros Hp. unfold saved. by rewrite Hp. Qed.

Lemma small_storable (e : SegmentMetaEntry) : storable (into_item e).
Proof. change (1 < 8)%nat. lia. Qed.

Lemma commit_becomes_visible_witness :
  runs (hb ← LinkedItems.create_with_fsm; LinkedItems.add_items sample_entries hb;;
        left ← save_new_metas sample_ext sample_uuid true 9 sample_new sample_prev sample_dirs hb;
        s ← load_metas (fun _ => false) None Snapshot hb None; l ← load_metas (fun _ => false) None LargestSegment hb None;
        mret (left, s, l)) small_rel
    (fun x _ => entries x.1.2 ≡ₚ [sample_entry 21 50 (Some (mkDelete (mkFile 80 2) 3)); sample_entry 23 70 None; sample_entry 24 90 None]).
Proof.
  apply runs_bind. apply (create_spec (T := SegmentMetaEntry)); [exact small_rel_ok|]. intros r hb st Hl. apply runs_bind.
  eapply (add_items_spec (T := SegmentMetaEntry)); [exact Hl|repeat constructor; simpl; lia|]. intros r1 ch1 Hl1 Hap%appends_perm.
  change (items ch1 ≡ₚ sample_entries) in Hap.
  eapply runs_mono.
  { apply (commit_becomes_visible sample_ext sample_uuid small_storable (fun e _ => eq_refl) _ r1 hb ch1 true 9
      sample_new sample_prev sample_dirs sample_files (fun _ => false) None Hl1).
    - unfold normal_xid, FirstNormalTransactionId. lia.
    - by eapply save_ok_perm; [symmetry; exact Hap|exact sample_save_ok].
    - rewrite (saved_perm _ _ _ _ _ Hap). apply (bool_decide_unpack _). vm_compute. exact I. }
  intros x r2 (_ & E & _). rewrite Hap in E. rewrite E. vm_compute. reflexivity.
Defined.
