(* ===== verification/MetasOwners.v ===== *)
(** * Saving keeps track of every file

    The files of a commit are on their pages before [save_new_metas] is called.  Here: each
    file and list has one entry it belongs to, before and after the call. *)

From stdpp Require Import prelude gmap sets strings.
From Stdlib Require Import ZArith Lia.
From S2P Require Import Prelude SegmentMeta Pages BlockList BlockListProps LinkedBytes LinkedBytesProps LinkedItems LinkedItemsProps ItemOwners MergePolicy MergeDriver GarbageProps Metas MetasProps.
From stdpp Require Import list.
Import SegmentMeta Metas.

Local Open Scope Z_scope.

(** ** Components *)

Definition base_entries (c : SegmentMetaEntryImmutable) : list (FileEntry * SegmentComponent) :=
  file_entries (mkImmutable (postings c) (positions c) (fast_fields c) (field_norms c) (terms c) (store c) (temp_store c) None).

(** The delete file comes last. *)
Lemma file_entries_base c : file_entries c = base_entries c ++ option_list ((fun d => (file_entry_of d, Delete)) <$> delete c).
Proof. unfold base_entries, file_entries. cbn [postings positions fast_fields field_norms terms store temp_store delete fmap option_fmap option_map].
  rewrite app_nil_r, <- !app_assoc. by destruct (delete c). Qed.

Lemma file_entries_nodup c : NoDup (file_entries c).*2.
Proof.
  destruct c as [a1 a2 a3 a4 a5 a6 a7 a8]. apply (bool_decide_unpack _).
  destruct a1, a2, a3, a4, a5, a7, a8; exact I.
Qed.

(** The files of a created entry are those that were written for it. *)
Lemma created_files id sg (files : files_of) c fe k : SegmentMeta.content (created_entry id sg files) = Immutable c ->
  (fe, k) ∈ file_entries c -> k <> Store /\ exists p, files !! k = Some (fe, p).
Proof.
  intros [= <-]. unfold file_entries. cbn [postings positions fast_fields field_norms terms store temp_store delete].
  rewrite !elem_of_app. intros Hin. 
  destruct_or! Hin; repeat match type of Hin with context [fst <$> files !! ?x] => destruct (files !! x) as [[? ?]|] eqn:?; cbn in Hin end;
    rewrite ?list_elem_of_singleton in Hin; try (by apply elem_of_nil in Hin); injection Hin as -> ->; (split; [done|by eexists]).
Qed.

(** ** The keys of the new files

    A store file is never written. *)

Definition all_keys (nf : gmap Z files_of) : list (Z * SegmentComponent) :=
  filter (fun x => x.2 <> Store) (map_to_list nf ≫= (fun s => (fun f : _ * _ => (s.1, f.1)) <$> map_to_list s.2)).

Lemma all_keys_elem nf id k : (id, k) ∈ all_keys nf <-> k <> Store /\ is_Some (nf !! id ≫= (fun files => files !! k)).
Proof.
  unfold all_keys. rewrite list_elem_of_filter. apply and_iff_compat_l. rewrite list_elem_of_bind. split.
  - intros ([id' files] & ([k' f] & [= -> ->] & Hk%elem_of_map_to_list)%list_elem_of_fmap & Hid%elem_of_map_to_list). cbn [fst snd] in *.
    rewrite Hid. cbn. rewrite Hk. by eexists.
  - intros [f Hf]. destruct (nf !! id) as [files|] eqn:Hid; [|done]. cbn in Hf. exists (id, files). split.
    + apply list_elem_of_fmap. exists (k, f). split; [done|]. by apply elem_of_map_to_list.
    + by apply elem_of_map_to_list.
Qed.

(** Some of the keys, each once. *)
Lemma keys_submseteq {A} (g : Z * SegmentComponent -> list A) K nf : NoDup K -> (forall x, x ∈ K -> x ∈ all_keys nf) ->
  exists rest, (K ≫= g) ++ rest ≡ₚ all_keys nf ≫= g.
Proof.
  intros Hnd Hin. destruct (submseteq_Permutation K (all_keys nf)) as [k Hk]; [by apply NoDup_submseteq|].
  exists (k ≫= g). by rewrite Hk, bind_app.
Qed.

Section owners.
Variable pk : BlockList.width -> BlockList.packer.
Hypothesis pk_ok : forall w, packer_ok w (pk w).
Variable MAX : Z.
Hypothesis HMAX : 1030 <= MAX.
Context `{ItemCodec SegmentMetaEntry} `{ItemCodec MutableSegmentEntry} `{ItemOverwrite}.
Context {F : Type} `{FreeSpaceManager F} {Els : Elsewhere}.

Abbreviation rel := (rel F lpage).
Implicit Types (r : rel) (ch : list (Z * list SegmentMetaEntry)) (s : segment).
Abbreviation seg_at := (seg_at pk MAX).

(** ** What a call does to the segments *)

Section change.
(** The new files as they are on the pages. *)
Variables (newfile : Z * SegmentComponent -> file) (new_meta prev_meta : list TantivySegment) (nf : gmap Z files_of).

Abbreviation incoming := (incoming_segments new_meta).
Abbreviation del := (deleted_ids new_meta prev_meta).
Abbreviation md := (modified_ids nf new_meta prev_meta).
Abbreviation cr := (created_ids new_meta prev_meta).

Definition news_at r : Prop := forall id files k fe p, k <> Store -> nf !! id = Some files -> files !! k = Some (fe, p) ->
  f_start (newfile (id, k)) = starting_block fe /\ file_at pk MAX r (newfile (id, k)).

Definition with_files (e : SegmentMetaEntry) (fs : list file) : segment := mkSeg e fs (fs ≫= f_blocks).

(** How many files of a segment are not its delete file. *)
Definition base_count (e : SegmentMetaEntry) : nat :=
  match SegmentMeta.content e with Immutable c => length (base_entries c) | Mutable _ => O end.

Definition seg_changed s : segment :=
  let e := changed incoming nf del md (s_entry s) in
  if decide (segment_id (s_entry s) ∈ del) then mkSeg e (s_files s) (s_blocks s)
  else if decide (segment_id (s_entry s) ∈ md)
  then with_files e (take (base_count (s_entry s)) (s_files s) ++ [newfile (segment_id (s_entry s), Delete)])
  else s.

Definition seg_orphan s : option segment :=
  (fun o => with_files o (drop (base_count (s_entry s)) (s_files s))) <$> orphan incoming nf md (s_entry s).

Definition created_keys (id : Z) : list (Z * SegmentComponent) :=
  match (segment ← incoming !! id; files ← nf !! id; Some (SegmentMeta.content (created_entry id segment files))) with
  | Some (Immutable c) => (fun k => (id, k)) <$> (file_entries c).*2
  | _ => []
  end.

Definition seg_created (id : Z) : option segment :=
  segment ← incoming !! id; files ← nf !! id; Some (with_files (created_entry id segment files) (newfile <$> created_keys id)).

Definition segs_saved (ss : list segment) : list segment :=
  (seg_changed <$> ss) ++ omap seg_created cr ++ omap seg_orphan ss.

(** The entries are those [save_new_metas] leaves. *)
Lemma segs_saved_entries ss : s_entry <$> segs_saved ss = saved new_meta prev_meta nf (s_entry <$> ss).
Proof.
  unfold segs_saved, saved. rewrite !fmap_app. f_equal; [|f_equal].
  - rewrite <- !list_fmap_compose. apply list_fmap_ext. intros i s _. unfold compose, seg_changed, changed. repeat case_decide; done.
  - unfold created_of. induction cr as [|id ids IH]; [done|]. cbn [omap list_omap]. unfold seg_created at 1.
    destruct (incoming !! id); [|done]. cbn [mbind option_bind]. destruct (nf !! id); [|done]. cbn [mbind option_bind]. rewrite fmap_cons, IH. done.
  - induction ss as [|s ss IH]; [done|]. cbn [omap list_omap]. rewrite fmap_cons. cbn [omap list_omap]. unfold seg_orphan at 1.
    destruct (orphan incoming nf md (s_entry s)); [|done]. cbn [fmap option_fmap option_map]. rewrite fmap_cons, IH. done.
Qed.

(** ** The segments are on the pages *)

Lemma with_files_at r e c fs : SegmentMeta.content e = Immutable c -> own_starts e c = f_start <$> fs -> Forall (file_at pk MAX r) fs ->
  (is_orphaned_delete e = true -> is_Some (delete c)) -> seg_at r (with_files e fs).
Proof. intros Hc Hst Hf Ho. unfold GarbageProps.seg_at. cbn [with_files s_entry s_files s_blocks]. rewrite Hc. done. Qed.

Lemma seg_created_at r id s : news_at r -> id <> 0 -> seg_created id = Some s -> seg_at r s.
Proof.
  intros Hn Hz Hs. unfold seg_created, created_keys in Hs. destruct (incoming !! id) as [sg|]; [|done]. cbn [mbind option_bind] in Hs.
  destruct (nf !! id) as [files|] eqn:Hf; [|done]. cbn [mbind option_bind] in Hs. injection Hs as <-.
  set (e := created_entry id sg files). destruct (SegmentMeta.content e) as [c|c] eqn:Hc; [|done].
  assert (is_orphaned_delete e = false) as Ho by (by apply Z.eqb_neq).
  assert (forall fe k, (fe, k) ∈ file_entries c -> f_start (newfile (id, k)) = starting_block fe /\ file_at pk MAX r (newfile (id, k))) as Hx.
  { intros fe k (Hk & p & Hp)%(created_files id sg files c fe k Hc). by eapply Hn. }
  revert Hx. injection Hc as <-. intros Hx. eapply (with_files_at r e); [reflexivity| | |by rewrite Ho].
  - unfold own_starts. rewrite Ho, <- !list_fmap_compose. apply list_fmap_ext. intros i [fe k] Hin%list_elem_of_lookup_2. unfold compose.
    cbn [fst snd]. symmetry. by apply Hx.
  - rewrite <- list_fmap_compose. apply Forall_fmap, Forall_fmap, Forall_forall. intros [fe k] Hin. unfold compose. cbn [snd]. by eapply Hx.
Qed.

(** A segment that gets a new delete file, and what its old one belongs to. *)
Lemma seg_modified_at r s c : news_at r -> seg_at r s -> segment_id (s_entry s) ∈ md -> segment_id (s_entry s) <> 0 ->
  SegmentMeta.content (s_entry s) = Immutable c ->
  seg_at r (seg_changed s) /\ (forall o, seg_orphan s = Some o -> seg_at r o) /\
  s_blocks (seg_changed s) ++ from_option s_blocks [] (seg_orphan s) ≡ₚ
    s_blocks s ++ f_blocks (newfile (segment_id (s_entry s), Delete)).
Proof.
  intros Hn Hs Hid Hz Hc. set (e := s_entry s) in *. assert (segment_id e ∉ del) as Hnd by exact (modified_not_deleted _ _ _ _ Hid).
  pose proof Hs as Hs'. unfold GarbageProps.seg_at in Hs'. fold e in Hs'. rewrite Hc in Hs'. destruct Hs' as (Hst & Hfs & Hbl & _).
  assert (is_orphaned_delete e = false) as Ho by (by apply Z.eqb_neq). unfold own_starts in Hst. rewrite Ho, file_entries_base, fmap_app in Hst.
  destruct (proj1 (modified_ids_elem _ _ _ _) Hid) as ([[fe p] Hd] & _ & Hnew).
  destruct (nf !! segment_id e) as [files|] eqn:Hf; [|done]. cbn [mbind option_bind] in Hd.
  destruct (Hn _ _ Delete _ _ ltac:(done) Hf Hd) as [Hst' Hfa]. destruct (incoming_some new_meta _ Hnew) as [sg Hsg].
  set (d := mkDelete fe (t_num_deleted_docs sg)).
  assert (replacement incoming nf e = replace_deletes d e) as Er.
  { unfold replacement, new_delete. rewrite Hf. cbn [mbind option_bind]. rewrite Hd. cbn [mbind option_bind]. by rewrite Hsg. }
  unfold replace_deletes in Er. rewrite Hc in Er.
  unfold seg_changed, seg_orphan, orphan, changed, base_count. fold e. rewrite Hc, Er. rewrite !(decide_False (P := segment_id e ∈ del)), !(decide_True (P := segment_id e ∈ md)) by done. cbn [from_option snd mbind option_bind fst].
  assert (length (base_entries c) = length (fmap (fun p => starting_block p.1) (base_entries c))) as El by (by rewrite length_fmap).
  pose proof (f_equal (take (length (base_entries c))) Hst) as Ht. rewrite El, take_app_length, <- El, <- fmap_take in Ht.
  pose proof (f_equal (drop (length (base_entries c))) Hst) as Hdr. rewrite El, drop_app_length, <- El, <- fmap_drop in Hdr.
  pose proof (Forall_take _ (length (base_entries c)) _ Hfs) as Hft. pose proof (Forall_drop _ (length (base_entries c)) _ Hfs) as Hfd. split; [|split].
  - eapply with_files_at; [reflexivity| |by apply Forall_app; split; [|constructor]|intros Hx; change (is_orphaned_delete e = true) in Hx; congruence].
    unfold own_starts. change (is_orphaned_delete _) with (is_orphaned_delete e). rewrite Ho, file_entries_base, !fmap_app. f_equal; [exact Ht|].
    cbn. by rewrite Hst'.
  - intros o. destruct (delete c) as [od|] eqn:Eod; [|done]. intros [= <-]. eapply with_files_at; [reflexivity| |done|by rewrite Eod; eexists].
    unfold own_starts. change (is_orphaned_delete _) with true. cbn iota. rewrite Eod. exact Hdr.
  - assert (s_blocks s = (take (length (base_entries c)) (s_files s) ≫= f_blocks) ++ (drop (length (base_entries c)) (s_files s) ≫= f_blocks)) as ->
      by (by rewrite Hbl, <- bind_app, take_drop).
    cbn [with_files s_blocks]. rewrite bind_app, bind_cons, app_nil_r. rewrite <- !app_assoc. apply Permutation_app_head.
    destruct (delete c) as [od|] eqn:Eod; cbn [fmap option_fmap option_map from_option with_files s_blocks]; [apply Permutation_app_comm|].
    destruct (drop (length (base_entries c)) (s_files s)) as [|? ?]; [|done]. by rewrite app_nil_r.
Qed.

(** ** The blocks before and after *)

Abbreviation new_blocks := (fun x => f_blocks (newfile x)).

Lemma created_keys_in id x : x ∈ created_keys id -> x.1 = id /\ x ∈ all_keys nf.
Proof.
  unfold created_keys. destruct (incoming !! id) as [sg|]; [|by intros ?%elem_of_nil]. cbn [mbind option_bind].
  destruct (nf !! id) as [files|] eqn:Hf; [|by intros ?%elem_of_nil]. cbn [mbind option_bind].
  destruct (SegmentMeta.content (created_entry id sg files)) as [c|c] eqn:Hc; [|by intros ?%elem_of_nil].
  intros (k & -> & ([fe k'] & -> & Hk)%list_elem_of_fmap)%list_elem_of_fmap. split; [done|]. cbn [snd].
  destruct (created_files id sg files c fe k' Hc Hk) as (Hns & p & Hp). apply all_keys_elem. split; [done|]. rewrite Hf. cbn [mbind option_bind]. rewrite Hp. by eexists.
Qed.

Lemma created_keys_nodup id : NoDup (created_keys id).
Proof.
  unfold created_keys. destruct (incoming !! id) as [sg|]; [|constructor]. cbn [mbind option_bind].
  destruct (nf !! id) as [files|]; [|constructor]. cbn [mbind option_bind].
  destruct (SegmentMeta.content (created_entry id sg files)) as [c|c]; [|constructor].
  apply NoDup_fmap_2; [by intros k1 k2 [= ->]|apply file_entries_nodup].
Qed.

(** The files that become part of a segment are among the new ones, each used once. *)
Definition used_keys : list (Z * SegmentComponent) := ((fun id => (id, Delete)) <$> md) ++ (cr ≫= created_keys).

Lemma used_keys_ok : NoDup used_keys /\ forall x, x ∈ used_keys -> x ∈ all_keys nf.
Proof.
  unfold used_keys. split.
  - apply NoDup_app. split; [apply NoDup_fmap_2; [by intros a b [= ->]|apply modified_ids_nodup]|]. split.
    + intros x (id & -> & Hid)%list_elem_of_fmap (id' & [E _]%created_keys_in & Hid')%list_elem_of_bind. cbn [fst] in E. subst id'.
      by apply modified_not_created in Hid.
    + apply NoDup_bind; [|intros; apply created_keys_nodup|apply NoDup_elements].
      intros a b x _ _ [<- _]%created_keys_in [<- _]%created_keys_in. done.
  - intros x [(id & -> & ([f Hf] & _)%modified_ids_elem)%list_elem_of_fmap|(id & [_ Hx]%created_keys_in & _)%list_elem_of_bind]%elem_of_app; [|done].
    apply all_keys_elem. split; [done|]. rewrite Hf. by eexists.
Qed.

Lemma seg_created_blocks id : from_option s_blocks [] (seg_created id) = created_keys id ≫= new_blocks.
Proof.
  unfold seg_created. destruct (incoming !! id) as [sg|] eqn:Es; cbn [mbind option_bind]; [|unfold created_keys; by rewrite Es].
  destruct (nf !! id) as [files|] eqn:Ef; cbn [mbind option_bind]; [|unfold created_keys; by rewrite Es, Ef].
  cbn [from_option with_files s_blocks]. induction (created_keys id) as [|x l IH]; [done|]. by rewrite fmap_cons, !bind_cons, IH.
Qed.

Lemma bind_omap {A B C} (f : A -> option B) (g : B -> list C) l : omap f l ≫= g = l ≫= (fun x => from_option g [] (f x)).
Proof. induction l as [|x l IH]; [done|]. rewrite bind_cons, <- IH. cbn [omap list_omap]. by destruct (f x). Qed.

Lemma created_blocks : omap seg_created cr ≫= s_blocks = (cr ≫= created_keys) ≫= new_blocks.
Proof. rewrite bind_omap. induction cr as [|id ids IH]; [done|]. by rewrite !bind_cons, bind_app, <- IH, seg_created_blocks. Qed.

Lemma bind_perm_split {A B} (f g h k : A -> list B) l : Forall (fun x => f x ++ g x ≡ₚ h x ++ k x) l ->
  (l ≫= f) ++ (l ≫= g) ≡ₚ (l ≫= h) ++ (l ≫= k).
Proof.
  induction 1 as [|x l Hx _ IH]; [done|]. rewrite !bind_cons.
  rewrite <- app_assoc, (Permutation_app_swap_app (l ≫= f)), app_assoc, IH, Hx.
  rewrite <- !app_assoc, (Permutation_app_swap_app (k x)). done.
Qed.

(** The new delete files, by entry and by id. *)
Lemma modified_blocks {A} (h : Z -> list A) es : (forall id, id ∈ md -> exists e, has id e es) ->
  es ≫= (fun e => if decide (segment_id e ∈ md) then h (segment_id e) else []) ≡ₚ md ≫= h.
Proof.
  intros Hh. trans (filter (fun e => segment_id e ∈ md) es ≫= (fun e => h (segment_id e))).
  { clear Hh. induction es as [|e es IH]; [done|]. rewrite filter_cons, bind_cons. case_decide; rewrite ?bind_cons; by rewrite IH. }
  rewrite <- (entries_with_ids md es (modified_ids_nodup _ _ _) Hh), bind_omap.
  clear -Hh. induction md as [|id ids IH]; [done|]. rewrite !bind_cons, IH by (intros; apply Hh; by right).
  destruct (Hh id ltac:(left)) as [e He]. rewrite (has_ent _ _ _ He). cbn [from_option]. by rewrite (proj2 (has_in _ _ _ He)).
Qed.

(** Ids of segments are never zero, the id of the "orphaned" entries. *)
Definition ids_nonzero : Prop := forall id, id ∈ ids_of_meta new_meta ∪ ids_of_meta prev_meta -> id <> 0.

(** Each segment by itself. *)
Lemma seg_saved_at coe fus tx dirs r ss s : save_ok coe fus tx new_meta prev_meta dirs nf (s_entry <$> ss) -> ids_nonzero -> news_at r ->
  s ∈ ss -> seg_at r s ->
  seg_at r (seg_changed s) /\ (forall o, seg_orphan s = Some o -> seg_at r o) /\
  s_blocks (seg_changed s) ++ from_option s_blocks [] (seg_orphan s) ≡ₚ
    s_blocks s ++ (if decide (segment_id (s_entry s) ∈ md) then new_blocks (segment_id (s_entry s), Delete) else []).
Proof.
  intros Hs Hz Hn Hin Hat. destruct (decide (segment_id (s_entry s) ∈ md)) as [Hid|Hid].
  - destruct (so_modified _ _ _ _ _ _ _ _ Hs _ Hid) as (_ & e & Hh & Hmu).
    rewrite <- (has_unique _ _ _ (s_entry s) Hh ltac:(by apply list_elem_of_fmap_2) eq_refl) in Hmu. unfold is_mutable in Hmu.
    destruct (SegmentMeta.content (s_entry s)) as [c|c] eqn:Hc; [|done]. eapply seg_modified_at; [done|done|done| |done].
    apply Hz. apply modified_ids_elem in Hid as (_ & _ & ?). by apply elem_of_union_l.
  - assert (seg_orphan s = None) as -> by (unfold seg_orphan, orphan; by rewrite decide_False).
    split; [|split; [done|cbn [from_option]; rewrite !app_nil_r]]; unfold seg_changed.
    + case_decide as Hd; [|by rewrite decide_False]. unfold changed. rewrite decide_True by done.
      unfold GarbageProps.seg_at, own_starts in *. cbn [s_entry s_files s_blocks set_xmax SegmentMeta.content].
      by change (is_orphaned_delete (set_xmax FrozenTransactionId (s_entry s))) with (is_orphaned_delete (s_entry s)).
    + case_decide as Hd; [done|]. by rewrite decide_False.
Qed.

(** The segments after a call own their files as those before did. *)
Lemma owners_saved coe fus tx dirs r hb ch ss : save_ok coe fus tx new_meta prev_meta dirs nf (s_entry <$> ss) -> ids_nonzero -> news_at r ->
  owners_ok s_blocks seg_at r hb ch ss -> NoDup (hb :: ch.*1 ++ (ss ≫= s_blocks) ++ (all_keys nf ≫= new_blocks)) ->
  owners_ok s_blocks seg_at r hb ch (segs_saved ss).
Proof.
  intros Hs Hz Hn [Hl Hat _] Hnd. rewrite Forall_forall in Hat.
  pose proof (fun s Hin => seg_saved_at _ _ _ _ r ss s Hs Hz Hn Hin (Hat s Hin)) as Hseg.
  split; [done| |].
  - unfold segs_saved. rewrite !Forall_app. split; [|split].
    + apply Forall_fmap, Forall_forall. intros s Hin. by apply Hseg.
    + apply Forall_forall. intros s (id & Hid & E)%list_elem_of_omap. eapply seg_created_at; [done| |exact E].
      apply Hz, elem_of_union_l. unfold created_ids in Hid. rewrite elem_of_elements in Hid. set_solver.
    + apply Forall_forall. intros o (s & Hin & E)%list_elem_of_omap. by apply (proj1 (proj2 (Hseg s Hin))).
  - destruct used_keys_ok as [Hku Hkin]. destruct (keys_submseteq new_blocks used_keys nf Hku Hkin) as [rest Hrest].
    assert ((segs_saved ss ≫= s_blocks) ++ rest ≡ₚ (ss ≫= s_blocks) ++ (all_keys nf ≫= new_blocks)) as Hp.
    { rewrite <- Hrest. unfold segs_saved, used_keys. rewrite !bind_app, created_blocks, bind_omap.
      assert ((seg_changed <$> ss) ≫= s_blocks = ss ≫= (fun s => s_blocks (seg_changed s))) as -> by apply list_fmap_bind.
      rewrite (Permutation_app_comm ((cr ≫= created_keys) ≫= new_blocks)), (app_assoc (ss ≫= _)).
      rewrite (bind_perm_split _ _ s_blocks (fun s => if decide (segment_id (s_entry s) ∈ md) then new_blocks (segment_id (s_entry s), Delete) else [])).
      2: { apply Forall_forall. intros s Hin. by apply Hseg. }
      assert (ss ≫= (fun s => if decide (segment_id (s_entry s) ∈ md) then new_blocks (segment_id (s_entry s), Delete) else []) ≡ₚ
        ((fun id => (id, Delete)) <$> md) ≫= new_blocks) as ->.
      { rewrite !list_fmap_bind. rewrite <- (modified_blocks (fun id => new_blocks (id, Delete)) (s_entry <$> ss)), list_fmap_bind; [done|].
        intros id Hid. destruct (so_modified _ _ _ _ _ _ _ _ Hs _ Hid) as (_ & e & He & _). by exists e. }
      by rewrite <- !app_assoc. }
    rewrite app_comm_cons, <- Hp, app_assoc in Hnd. apply NoDup_app in Hnd as (Hnd & _). exact Hnd.
Qed.

End change.

(** ** The call *)

Section call.
Variables (component_of_ext : string -> option SegmentComponent) (from_uuid_string : string -> option Z).
Hypothesis entry_storable : forall e : SegmentMetaEntry, storable (into_item e).
Hypothesis frozen_size : forall e, xmax e = InvalidTransactionId ->
  length (into_item (set_xmax FrozenTransactionId e)) = length (into_item e).

(** New files are apart from each other and from all that the segments own. *)
Definition apart newfile nf hb ch (ss : list segment) : Prop :=
  NoDup (hb :: ch.*1 ++ (ss ≫= s_blocks) ++ (all_keys nf ≫= (fun x => f_blocks (newfile x)))).

Lemma save_segments newfile tx commit_xid new_meta prev_meta dirs nf r hb ch ss (Q : list (string * FileEntry) -> rel -> Prop) :
  segments_ok pk MAX r hb ch ss -> normal_xid commit_xid ->
  save_ok component_of_ext from_uuid_string tx new_meta prev_meta dirs nf (s_entry <$> ss) ->
  ids_nonzero new_meta prev_meta -> news_at newfile nf r -> apart newfile nf hb ch ss ->
  (forall left r' ch' ss', segments_ok pk MAX r' hb ch' ss' -> ss' ≡ₚ segs_saved newfile new_meta prev_meta nf ss -> Q left r') ->
  runs (save_new_metas component_of_ext from_uuid_string tx commit_xid new_meta prev_meta dirs hb) r Q.
Proof.
  intros [Ho Hi] Hx Hs Hz Hn Ha HQ. pose proof (owners_saved newfile _ _ _ _ _ _ _ r hb ch ss Hs Hz Hn Ho Ha) as Ho'.
  rewrite <- Hi in Hs. eapply (save_new_metas_spec component_of_ext from_uuid_string entry_storable frozen_size); [exact (owners_rebase _ _ _ _ _ _ Ho)|done|exact Hs|].
  intros left r' ch' Hl' Hi' _. rewrite Hi, <- (segs_saved_entries newfile) in Hi'.
  apply Permutation_map_inv in Hi' as (ss' & Hi' & Hp). apply (HQ left r' ch' ss'); [|done]. split; [|done].
  eapply (owners_item_change s_blocks seg_at (seg_at_frame pk MAX) (seg_at_some pk MAX)); [exact Ho'|exact Hl'| |].
  - intros s Hin. by rewrite Hp.
  - rewrite <- Hp. pose proof (ow_apart _ _ _ _ _ _ Ho') as Hnd. apply (NoDup_app (hb :: ch.*1)) in Hnd as (_ & _ & Hnd). exact Hnd.
Qed.

End call.

End owners.
