(* ===== verification/Directory.v ===== *)
(** * The directory tantivy works on

    [index/directory/mvcc.rs] with [index/writer/segment_component.rs] and
    [index/reader/segment_component.rs]: the files tantivy writes and reads are byte lists of
    the relation.  A directory remembers the files that were written through it, with a
    counter of their bytes that their writers share, the segments it has loaded, and the
    handles it has given out. *)

From stdpp Require Import prelude gmap sets strings.
From Stdlib Require Import ZArith Lia.
From S2P Require Import Prelude SegmentMeta MergePolicy Pages BlockList LinkedBytes LinkedItems Metas.
Import SegmentMeta.

Local Open Scope Z_scope.

Module Directory.

(** What a handle reads from: a file of the relation, or a file of a mutable segment that is
    indexed in memory when it is read. *)
Inductive FileHandle :=
| Component (entry : FileEntry)
| InMemory (segment : SegmentMetaEntry) (path : string).

(** [counters]: the [Arc<AtomicUsize>]s; [new_files]: the start of a new file and its counter. *)
Record MVCCDirectory {F : Type} := mkDirectory {
  index : rel F lpage;
  counters : list Z;
  new_files : gmap string (Z * nat);
  readers : gmap string FileHandle;
  all_entries : gmap Z SegmentMetaEntry;
  pin_cushion : option (gset Z);
  total_segment_count : nat;
  loaded_metas : option (list InnerSegmentMeta);
}.
Arguments MVCCDirectory : clear implicits.

(** The standard library's [BufWriter] around the writer of a byte list: [buf] is what it has
    not passed on yet. *)
Record BufWriter := mkBuf { buf : list Z; out : LinkedBytes.LinkedBytesListWriter }.

(** What [BufWriter::new] allocates. *)
Definition DEFAULT_BUF_SIZE : nat := 8 * 1024.

(** [inner] is [None] for a store file, which is never written. *)
Record SegmentComponentWriter := mkComponentWriter {
  inner : option BufWriter;
  w_total_bytes : nat;
}.

Section directory.
Variable pk : BlockList.width -> BlockList.packer.
Variable MAX : Z.
Variables (component_ext : SegmentComponent -> string) (component_of_ext : string -> option SegmentComponent).
Variable from_uuid_string : string -> option Z.
Context `{ItemCodec SegmentMetaEntry} `{ItemOverwrite}.
Context {F : Type} `{FreeSpaceManager F}.

Abbreviation Dir := (MVCCDirectory F).
Abbreviation DM := (M Dir unit).

(** ** Changing one field *)

Definition set_index (r : rel F lpage) (d : Dir) : Dir :=
  mkDirectory F r (counters d) (new_files d) (readers d) (all_entries d) (pin_cushion d) (total_segment_count d) (loaded_metas d).
Definition set_counters (c : list Z) (d : Dir) : Dir :=
  mkDirectory F (index d) c (new_files d) (readers d) (all_entries d) (pin_cushion d) (total_segment_count d) (loaded_metas d).
Definition set_new_files (n : gmap string (Z * nat)) (d : Dir) : Dir :=
  mkDirectory F (index d) (counters d) n (readers d) (all_entries d) (pin_cushion d) (total_segment_count d) (loaded_metas d).
Definition set_readers (m : gmap string FileHandle) (d : Dir) : Dir :=
  mkDirectory F (index d) (counters d) (new_files d) m (all_entries d) (pin_cushion d) (total_segment_count d) (loaded_metas d).
Definition set_pins (p : gset Z) (d : Dir) : Dir :=
  mkDirectory F (index d) (counters d) (new_files d) (readers d) (all_entries d) (Some p) (total_segment_count d) (loaded_metas d).
Definition set_loaded (es : gmap Z SegmentMetaEntry) (p : gset Z) (n : nat) (metas : list InnerSegmentMeta) (d : Dir) : Dir :=
  mkDirectory F (index d) (counters d) (new_files d) (readers d) es (Some p) n (Some metas).

Definition with_mvcc_style (r : rel F lpage) : Dir := mkDirectory F r [] ∅ ∅ ∅ None 0 None.

(** Work on the relation. *)
Definition on_index {A} (c : M (rel F lpage) unit A) : DM A := fun d =>
  let '(o, r) := c (index d) in (o, set_index r d).

(** ** Writing *)

Definition new_counter : DM nat := fun d => (Ok (length (counters d)), set_counters (counters d ++ [0]) d).

(** [open_write_inner] with [SegmentComponentWriter::new] *)
Definition open_write (path : string) : DM SegmentComponentWriter :=
  inner ← (match path_component_type component_of_ext path with
           | Some Store => mret None
           | _ =>
               header ← on_index LinkedBytes.create_with_fsm;
               w ← on_index (LinkedBytes.writer header);
               mret (Some (mkBuf [] w))
           end);
  counter ← new_counter;
  let starting_block := match inner with Some w => LinkedBytes.list_header (out w) | None => InvalidBlockNumber end in
  modify (fun d => set_new_files (<[path := (starting_block, counter)]> (new_files d)) d);;
  mret (mkComponentWriter inner counter).

Definition flush_buf (w : BufWriter) : DM BufWriter :=
  match buf w with
  | [] => mret w
  | _ => lw ← on_index (LinkedBytes.write pk MAX (buf w) (out w)); mret (mkBuf [] lw)
  end.

(** The [BufWriter]'s [write]: what does not fit with what is there is written after it, and
    what does not fit at all is written at once. *)
Definition buf_write (data : list Z) (w : BufWriter) : DM BufWriter :=
  if (length data <? DEFAULT_BUF_SIZE - length (buf w))%nat then mret (mkBuf (buf w ++ data) (out w))
  else
    w ← (if (DEFAULT_BUF_SIZE - length (buf w) <? length data)%nat then flush_buf w else mret w);
    if (DEFAULT_BUF_SIZE <=? length data)%nat
    then lw ← on_index (LinkedBytes.write pk MAX data (out w)); mret (mkBuf (buf w) lw)
    else mret (mkBuf (buf w ++ data) (out w)).

Definition write (data : list Z) (w : SegmentComponentWriter) : DM SegmentComponentWriter :=
  match inner w with
  | None => mret w
  | Some bw =>
      bw ← buf_write data bw;
      modify (fun d => set_counters (alter (fun n => n + Z.of_nat (length data)) (w_total_bytes w) (counters d)) d);;
      mret (mkComponentWriter (Some bw) (w_total_bytes w))
  end.

Definition terminate (w : SegmentComponentWriter) : DM unit :=
  match inner w with
  | None => mret tt
  | Some bw => bw ← flush_buf bw; _ ← on_index (LinkedBytes.finalize_and_write pk MAX (out bw)); mret tt
  end.

(** ** Reading *)

Definition counter (d : Dir) (i : nat) : Z := default 0 (counters d !! i).

(** The errors of [file_entry]: a name that is no segment's, a segment that was not loaded. *)
Inductive open_error := InvalidArgument | DoesNotExist.

Definition file_entry (path : string) (d : Dir) : outcome open_error FileHandle :=
  let uuid_string := default EmptyString (head (split_dot path)) in
  match from_uuid_string uuid_string with
  | None => Err InvalidArgument
  | Some segment_id =>
      match all_entries d !! segment_id with
      | None => Err DoesNotExist
      | Some meta =>
          match SegmentMeta.content meta with
          | Immutable entry =>
              match SegmentMeta.file_entry component_ext entry uuid_string path with
              | Some fe => Ok (Component fe)
              | None => Panic
              end
          | Mutable _ => Ok (InMemory meta path)
          end
      end
  end.

(** [None] is the error that there is no such file. *)
Definition get_file_handle (path : string) : DM (option FileHandle) := fun d =>
  match readers d !! path with
  | Some handle => (Ok (Some handle), d)
  | None =>
      match file_entry path d with
      | Ok handle => (Ok (Some handle), set_readers (<[path := handle]> (readers d)) d)
      | Err _ =>
          match new_files d !! path with
          | Some (starting_block, i) =>
              let handle := Component (mkFile starting_block (counter d i)) in
              (Ok (Some handle), set_readers (<[path := handle]> (readers d)) d)
          | None => (Ok None, d)
          end
      | Panic => (Panic, d)
      | OutOfFuel => (OutOfFuel, d)
      end
  end.

(** [SegmentComponentReader::read_bytes]; the read cache belongs to the handle. *)
Definition read_bytes (entry : FileEntry) (start stop : nat) (c : LinkedBytes.cache) : DM (list Z * LinkedBytes.cache) :=
  let stop := Nat.min stop (Z.to_nat (total_bytes entry)) in
  on_index (LinkedBytes.get_bytes_range pk MAX (starting_block entry) start stop c).

(** Whether a segment is mutable; one that was not loaded is not. *)
Definition is_mutable (segment_id : Z) (d : Dir) : bool :=
  match all_entries d !! segment_id with
  | Some e => match SegmentMeta.content e with Immutable _ => false | Mutable _ => true end
  | None => false
  end.

(** ** Pins *)

(** [None]: the segment was not loaded. *)
Definition drop_pin (segment_id : Z) : DM (option unit) := fun d =>
  match all_entries d !! segment_id with
  | Some e =>
      match pintest_blockno e with
      | Some b =>
          match pin_cushion d with
          | Some p => (Ok (Some tt), set_pins (p ∖ {[b]}) d)
          | None => (Ok None, d)
          end
      | None => (Panic, d)
      end
  | None => (Ok None, d)
  end.

(** The loop of [drop_pins]; [None] is the error on the first segment that was not loaded. *)
Fixpoint drop_loop (segment_ids : list Z) : DM (option unit) :=
  match segment_ids with
  | [] => mret (Some tt)
  | id :: ids =>
      o ← drop_pin id;
      match o with Some _ => drop_loop ids | None => mret None end
  end.

Definition drop_pins (segment_ids : list Z) : DM (option unit) :=
  p ← gets pin_cushion;
  match p with
  | Some _ => drop_loop segment_ids
  | None => panic
  end.

(** ** Metadata *)

(** The new files with their sizes as they are now. *)
Definition new_file_entries (d : Dir) : list (string * FileEntry) :=
  (fun x : string * (Z * nat) => (x.1, mkFile x.2.1 (counter d x.2.2))) <$> map_to_list (new_files d).

(** [save_schema] and [save_settings]: written once. *)
Definition save_once (bytes : list Z) (hb : Z) : DM unit :=
  empty ← on_index (LinkedBytes.is_empty hb);
  if empty : bool then
    w ← on_index (LinkedBytes.writer hb);
    _ ← on_index (LinkedBytes.write pk MAX bytes w);
    mret tt
  else mret tt.

(** [payload]: the entries tantivy hands over, if it does. *)
Definition save_metas (in_transaction : bool) (commit_xid : Z) (schema settings : list Z)
    (meta previous_meta : list Metas.TantivySegment) (payload : option (list (string * FileEntry)))
    (schema_bytes settings_bytes segment_metas : Z) : DM unit :=
  file_entries ← (match payload with Some p => mret p | None => gets new_file_entries end);
  save_once schema schema_bytes;;
  save_once settings settings_bytes;;
  match meta with
  | [] => mret tt
  | _ =>
      _ ← on_index (Metas.save_new_metas component_of_ext from_uuid_string in_transaction commit_xid meta previous_meta file_entries segment_metas);
      mret tt
  end.

Definition list_managed_files (uuid_string : Z -> string) (segment_metas : Z) : DM (gset string) :=
  es ← on_index (LinkedItems.list segment_metas);
  mret (list_to_set (es ≫= get_component_paths component_ext uuid_string)).

(** How long a segment is expected to take to query: those in memory come last. *)
Definition query_cost (e : SegmentMetaEntry) : Z :=
  match SegmentMeta.content e with
  | Immutable _ => num_docs e
  | Mutable _ => u64 (2 ^ 32 - 1 + num_docs e)
  end.

(** Ascending; the order of equal ones is not specified by the source ([sort_unstable]). *)
Fixpoint insert_by_cost (e : SegmentMetaEntry) (l : list SegmentMetaEntry) : list SegmentMetaEntry :=
  match l with
  | [] => [e]
  | x :: l' => if query_cost e <=? query_cost x then e :: l else x :: insert_by_cost e l'
  end.

Fixpoint sort_by_cost (l : list SegmentMetaEntry) : list SegmentMetaEntry :=
  match l with [] => [] | e :: l => insert_by_cost e (sort_by_cost l) end.

(** [load_metas] runs once per directory. *)
Definition load_metas (cleanup : Z -> bool) (mutable_rows : option Z) (mvcc_style : Metas.MvccSatisfies)
    (segment_metas : Z) (segment_metas_garbage : option Z) : DM (list InnerSegmentMeta) :=
  o ← gets loaded_metas;
  match o with
  | Some metas => mret metas
  | None =>
      loaded ← on_index (Metas.load_metas cleanup mutable_rows mvcc_style segment_metas segment_metas_garbage);
      let entries := list_to_map ((fun e => (segment_id e, e)) <$> reverse (Metas.entries loaded)) in
      let metas := as_tantivy <$> sort_by_cost (Metas.entries loaded) in
      modify (set_loaded entries (Metas.pin_cushion loaded) (Metas.total_segments loaded) metas);;
      mret metas
  end.

End directory.

End Directory.
