(* ===== verification/DirectoryProps.v ===== *)
(** * The files of a directory

    However tantivy interleaves the writing of its files, each of them ends up on pages of
    its own, with the bytes that were written to it. *)

From stdpp Require Import prelude gmap sets strings.
From Stdlib Require Import ZArith Lia.
From S2P Require Import Prelude SegmentMeta MergePolicy Pages BlockList BlockListProps LinkedBytes LinkedBytesProps LinkedItems LinkedItemsProps ItemOwners MergeDriver GarbageProps Metas MetasProps MetasOwners Directory.
From stdpp Require Import list.
Import SegmentMeta Directory.

Local Open Scope Z_scope.

Section directory.
Variable pk : BlockList.width -> BlockList.packer.
Hypothesis pk_ok : forall w, packer_ok w (pk w).
Variable MAX : Z.
Hypothesis HMAX : 1030 <= MAX.
Context {F : Type} `{FreeSpaceManager F} {Els : Elsewhere}.

Abbreviation rel := (rel F lpage).
Abbreviation Dir := (MVCCDirectory F).
Implicit Types (r : rel) (d : Dir).

(** ** Work on a directory *)

Definition druns {A} (c : M Dir unit A) d (Q : A -> Dir -> Prop) : Prop :=
  mwp (fun d' => large (nblocks (fsm (index d')))) c d Q.

Lemma druns_ret {A} (a : A) d (Q : A -> Dir -> Prop) : Q a d -> druns (mret a) d Q.
Proof. done. Qed.

Lemma druns_bind {A B} (c : M Dir unit A) (f : A -> M Dir unit B) d Q :
  druns c d (fun a d' => druns (f a) d' Q) -> druns (c ≫= f) d Q.
Proof. apply mwp_bind. Qed.

Lemma druns_mono {A} (c : M Dir unit A) d (Q Q' : A -> Dir -> Prop) :
  druns c d Q -> (forall a d', Q a d' -> Q' a d') -> druns c d Q'.
Proof. apply mwp_mono. Qed.

Lemma druns_modify f d (Q : unit -> Dir -> Prop) : Q tt (f d) -> druns (modify f) d Q.
Proof. done. Qed.

Lemma druns_gets {A} (f : Dir -> A) d (Q : A -> Dir -> Prop) : Q (f d) d -> druns (gets f) d Q.
Proof. done. Qed.

Lemma druns_index {A} (c : M rel unit A) d (Q : A -> Dir -> Prop) :
  runs c (index d) (fun a r => Q a (set_index r d)) -> druns (on_index c) d Q.
Proof. unfold druns, runs, mwp, on_index. by destruct (c (index d)) as [[] r]. Qed.

(** ** A file that is being written *)

(** Its bytes so far are on the pages or in the buffer. *)
Definition writer_at r (w : BufWriter) (blocks bytes : list Z) : Prop := exists r0 r1 st init b dd,
  writer_ok pk MAX r0 r1 (out w) st init b dd /\ blocks = owned_blocks (LinkedBytes.list_header (out w)) init b /\
  bytes = (LinkedBytesProps.content init ++ dd) ++ buf w /\ forall x, x ∈ blocks -> pages r !! x = pages r1 !! x.

Lemma writer_at_frame r r' w blocks bytes : writer_at r w blocks bytes ->
  (forall x, x ∈ blocks -> pages r' !! x = pages r !! x) -> writer_at r' w blocks bytes.
Proof.
  intros (r0 & r1 & st & init & b & dd & Hw & -> & -> & Hx) Hx'. exists r0, r1, st, init, b, dd. split; [done|]. split; [done|]. split; [done|].
  intros x Hin. rewrite Hx' by done. by apply Hx.
Qed.

Lemma writer_ok_rebase r0 r1 r w st init b dd : writer_ok pk MAX r0 r1 w st init b dd -> rel_ok r ->
  (forall x, x ∈ owned_blocks (LinkedBytes.list_header w) init b -> pages r !! x = pages r1 !! x) ->
  writer_ok pk MAX (without r (owned_blocks (LinkedBytes.list_header w) init b)) r w st init b dd.
Proof.
  intros [Hr Hh Hfi Hl Hb Hnd Hf Hfr] Hr' Hx. split; try done.
  - rewrite Hx; [done|]. left.
  - eapply filling_frame; [done|]. intros x Hin. apply Hx. by right.
  - intros x Hin. cbn [without pages]. by rewrite foldr_delete_lookup, decide_True.
  - intros x Hin. cbn [without pages]. by rewrite foldr_delete_lookup, decide_False.
Qed.

Lemma writer_at_some r w blocks bytes x : writer_at r w blocks bytes -> x ∈ blocks -> is_Some (pages r !! x).
Proof.
  intros (r0 & r1 & st & init & b & dd & Hw & -> & -> & Hx) Hin. rewrite Hx by done.
  apply elem_of_cons in Hin as [->|Hin]; [rewrite (wo_header _ _ _ _ _ _ _ _ _ Hw); by eexists|].
  pose proof (wo_fill _ _ _ _ _ _ _ _ _ Hw) as Hfl. rewrite <- (LinkedBytesProps.fmap_tail init b dd) in Hin. eapply seg_in; [apply (fl_chain _ _ _ _ _ _ Hfl)|done].
Qed.

(** Only pages outside of [r] are new in [r'], and only those of [blocks] are other. *)
Definition grows r r' (blocks blocks' : list Z) : Prop :=
  (forall x, x ∈ blocks' -> x ∈ blocks \/ pages r !! x = None) /\
  forall x, x ∉ blocks -> is_Some (pages r !! x) -> pages r' !! x = pages r !! x.

Lemma grows_refl r blocks : grows r r blocks blocks.
Proof. split; auto. Qed.

Lemma grows_trans r r1 r2 bs bs1 bs2 : grows r r1 bs bs1 -> grows r1 r2 bs1 bs2 -> grows r r2 bs bs2.
Proof.
  intros [Ha Hb] [Hc Hd]. split.
  - intros x [Hx|Hx]%Hc; [by apply Ha|]. destruct (decide (x ∈ bs)) as [?|Hn]; [by left|]. right.
    destruct (pages r !! x) as [p|] eqn:E; [|done]. rewrite Hb in Hx by (done || by eexists). congruence.
  - intros x Hn Hx. assert (x ∉ bs1) as Hn1 by (intros [?|E]%Ha; [done|]; rewrite E in Hx; by destruct Hx).
    rewrite Hd; [by apply Hb|done|]. by rewrite Hb.
Qed.

(** From a base without the blocks. *)
Lemma grows_framed r r' bs bs' : (forall x, x ∈ bs' -> pages (without r bs) !! x = None) -> framed (without r bs) r' bs' -> grows r r' bs bs'.
Proof.
  intros Hf Hfr. assert (forall x, x ∉ bs -> pages (without r bs) !! x = pages r !! x) as Hx.
  { intros x Hn. cbn [without pages]. by rewrite foldr_delete_lookup, decide_False. }
  split.
  - intros x Hin. destruct (decide (x ∈ bs)) as [?|Hn]; [by left|right]. rewrite <- Hx by done. by apply Hf.
  - intros x Hn Hs. rewrite Hfr; [by apply Hx|]. intros Hin%Hf. rewrite Hx in Hin by done. rewrite Hin in Hs. by destruct Hs.
Qed.

(** ** The buffer *)

Lemma out_write_spec d w blocks bytes data (Q : LinkedBytes.LinkedBytesListWriter -> Dir -> Prop) :
  rel_ok (index d) -> writer_at (index d) (mkBuf [] w) blocks bytes ->
  (forall r' w' blocks', rel_ok r' -> writer_at r' (mkBuf [] w') blocks' (bytes ++ data) ->
     LinkedBytes.list_header w' = LinkedBytes.list_header w -> grows (index d) r' blocks blocks' -> Q w' (set_index r' d)) ->
  druns (on_index (LinkedBytes.write pk MAX data w)) d Q.
Proof.
  intros Hr (r0 & r1 & st & init & b & dd & Hw & -> & -> & Hx) HQ. cbn [out buf] in *. apply druns_index.
  eapply (write_spec pk pk_ok MAX HMAX); [eapply writer_ok_rebase; [exact Hw|exact Hr|exact Hx]|].
  intros r' w' init' b' d' Hw' Hh Hc. apply (HQ r' w' (owned_blocks (LinkedBytes.list_header w') init' b')); [apply (wo_rel _ _ _ _ _ _ _ _ _ Hw')| |done|].
  - eexists _, r', st, init', b', d'. split; [exact Hw'|]. split; [done|]. split; [|done]. cbn [buf]. rewrite Hc, !app_nil_r. done.
  - apply grows_framed; [apply (wo_fresh _ _ _ _ _ _ _ _ _ Hw')|apply (wo_frame _ _ _ _ _ _ _ _ _ Hw')].
Qed.

Lemma writer_at_buf r w blocks bytes : writer_at r w blocks bytes ->
  exists b0, bytes = b0 ++ buf w /\ forall x, writer_at r (mkBuf x (out w)) blocks (b0 ++ x).
Proof.
  intros (r0 & r1 & st & init & b & dd & Hw & -> & -> & Hx). eexists. split; [reflexivity|]. intros x.
  exists r0, r1, st, init, b, dd. done.
Qed.

Lemma flush_buf_spec d w blocks bytes (Q : BufWriter -> Dir -> Prop) : rel_ok (index d) -> writer_at (index d) w blocks bytes ->
  (forall r' w' blocks', rel_ok r' -> writer_at r' w' blocks' bytes -> buf w' = [] ->
     LinkedBytes.list_header (out w') = LinkedBytes.list_header (out w) -> grows (index d) r' blocks blocks' -> Q w' (set_index r' d)) ->
  druns (flush_buf pk MAX w) d Q.
Proof.
  intros Hr Hw HQ. unfold flush_buf. destruct (writer_at_buf _ _ _ _ Hw) as (b0 & E & Hb).
  destruct (buf w) as [|z l] eqn:Eb.
  { apply druns_ret. pose proof (HQ (index d) w blocks Hr Hw Eb eq_refl (grows_refl _ _)) as Hx. by destruct d. }
  apply druns_bind. eapply out_write_spec; [done|exact (Hb [])|]. intros r' w' blocks' Hr' Hw' Hh Hg. apply druns_ret.
  apply (HQ r' _ blocks'); try done. rewrite app_nil_r, <- E in Hw'. done.
Qed.

Lemma buf_write_spec d w blocks bytes data (Q : BufWriter -> Dir -> Prop) : rel_ok (index d) -> writer_at (index d) w blocks bytes ->
  (forall r' w' blocks', rel_ok r' -> writer_at r' w' blocks' (bytes ++ data) ->
     LinkedBytes.list_header (out w') = LinkedBytes.list_header (out w) -> grows (index d) r' blocks blocks' -> Q w' (set_index r' d)) ->
  druns (buf_write pk MAX data w) d Q.
Proof.
  intros Hr Hw HQ.
  assert (forall r1 w1 blocks1 (Q' : BufWriter -> Dir -> Prop), rel_ok r1 -> writer_at r1 w1 blocks1 bytes ->
    LinkedBytes.list_header (out w1) = LinkedBytes.list_header (out w) -> grows (index d) r1 blocks blocks1 ->
    (Q (mkBuf (buf w1 ++ data) (out w1)) (set_index r1 d))) as Hkeep.
  { intros r1 w1 blocks1 _ Hr1 Hw1 Hh1 Hg1. destruct (writer_at_buf _ _ _ _ Hw1) as (b0 & E & Hb).
    apply (HQ r1 _ blocks1); try done. rewrite E, <- app_assoc. apply Hb. }
  unfold buf_write. destruct (Nat.ltb_spec (length data) (DEFAULT_BUF_SIZE - length (buf w))) as [Hs|Hs].
  { apply druns_ret. specialize (Hkeep (index d) w blocks Q Hr Hw eq_refl (grows_refl _ _)). by destruct d. }
  apply druns_bind.
  assert (forall (P : BufWriter -> Dir -> Prop), (forall r1 w1 blocks1, rel_ok r1 -> writer_at r1 w1 blocks1 bytes ->
      LinkedBytes.list_header (out w1) = LinkedBytes.list_header (out w) -> grows (index d) r1 blocks blocks1 ->
      ((DEFAULT_BUF_SIZE <= length data)%nat -> buf w1 = []) -> P w1 (set_index r1 d)) ->
    druns (if (DEFAULT_BUF_SIZE - length (buf w) <? length data)%nat then flush_buf pk MAX w else mret w) d P) as Hfl.
  { intros P HP. destruct (Nat.ltb_spec (DEFAULT_BUF_SIZE - length (buf w)) (length data)) as [Hlt|Hge].
    - eapply flush_buf_spec; [done|exact Hw|]. intros r1 w1 blocks1 Hr1 Hw1 Hb1 Hh1 Hg1. by apply (HP r1 w1 blocks1).
    - apply druns_ret. assert ((DEFAULT_BUF_SIZE <= length data)%nat -> buf w = []) as Hx.
      { intros Hx. apply nil_length_inv. unfold DEFAULT_BUF_SIZE in *. lia. }
      specialize (HP (index d) w blocks Hr Hw eq_refl (grows_refl _ _) Hx). by destruct d. }
  apply Hfl. intros r1 w1 blocks1 Hr1 Hw1 Hh1 Hg1 Hb1.
  destruct (Nat.leb_spec DEFAULT_BUF_SIZE (length data)) as [Hbig|Hsmall]; [|apply druns_ret; by eapply Hkeep].
  apply druns_bind. destruct (writer_at_buf _ _ _ _ Hw1) as (b0 & E & Hb). rewrite (Hb1 Hbig), app_nil_r in E. subst b0.
  specialize (Hb []). rewrite app_nil_r in Hb. eapply out_write_spec; [exact Hr1|exact Hb|].
  intros r' w' blocks' Hr' Hw' Hh' Hg'. apply druns_ret. rewrite (Hb1 Hbig).
  apply (HQ r' _ blocks'); try done; [cbn [out] in *; congruence|by eapply grows_trans].
Qed.

Lemma terminate_spec d bw i start blocks bytes (Q : unit -> Dir -> Prop) : rel_ok (index d) -> writer_at (index d) bw blocks bytes ->
  LinkedBytes.list_header (out bw) = start ->
  (forall r' f, rel_ok r' -> f_start f = start -> f_bytes f = bytes -> NoDup (f_blocks f) ->
     (forall x, x ∈ f_blocks f -> is_Some (pages r' !! x)) -> (bytes <> [] -> file_at pk MAX r' f) ->
     grows (index d) r' blocks (f_blocks f) -> Q tt (set_index r' d)) ->
  druns (terminate pk MAX (mkComponentWriter (Some bw) i)) d Q.
Proof.
  intros Hr Hw Hst HQ. unfold terminate. cbn [inner]. apply druns_bind. eapply flush_buf_spec; [done|exact Hw|].
  intros r1 w1 blocks1 Hr1 (r0 & r2 & st & init & b & dd & Hok & -> & E & Hx) Hb1 Hh1 Hg1. rewrite Hb1, app_nil_r in E.
  apply druns_bind, druns_index. cbn [set_index index].
  eapply (finalize_spec pk pk_ok MAX HMAX); [eapply writer_ok_rebase; [exact Hok|exact Hr1|exact Hx]|]. intros r' bl blch Hf. apply druns_ret.
  set (hb := LinkedBytes.list_header (out w1)) in *. pose proof (file_blocks_perm hb init b blch) as Hp.
  apply (HQ r' (mkFileAt hb bytes ((init.*1 ++ [b]) ++ [hb] ++ blch.*1))); cbn [f_start f_bytes f_blocks].
  - apply (fo_rel _ _ _ _ _ _ _ _ _ _ _ Hf).
  - congruence.
  - done.
  - rewrite Hp. apply (fo_nodup _ _ _ _ _ _ _ _ _ _ _ Hf).
  - intros x. rewrite Hp. intros Hin. by eapply file_blocks.
  - intros Hne. eexists _, r', st, bl, init, b, dd, blch. split; [exact Hf|]. by split.
  - eapply grows_trans; [exact Hg1|]. apply grows_framed.
    + intros x. rewrite Hp. apply (fo_fresh _ _ _ _ _ _ _ _ _ _ _ Hf).
    + intros x. rewrite Hp. apply (fo_frame _ _ _ _ _ _ _ _ _ _ _ Hf).
Qed.

(** ** What tantivy does with its files *)

Variable component_of_ext : string -> option SegmentComponent.

Inductive dop := OpenWrite (path : string) | Write (path : string) (data : list Z) | Terminate (path : string).

(** The writers tantivy holds, by path. *)
Abbreviation writers := (gmap string SegmentComponentWriter).

Definition run_dop (o : dop) (ws : writers) : M Dir unit writers :=
  match o with
  | OpenWrite p => w ← open_write component_of_ext p; mret (<[p := w]> ws)
  | Write p data => w ← unwrap (ws !! p); w ← write pk MAX data w; mret (<[p := w]> ws)
  | Terminate p => w ← unwrap (ws !! p); terminate pk MAX w;; mret (base.delete p ws)
  end.

Fixpoint run_dops (l : list dop) (ws : writers) : M Dir unit writers :=
  match l with
  | [] => mret ws
  | o :: l => ws ← run_dop o ws; run_dops l ws
  end.

(** What the files are to hold, and whether they are open; [None] if a path is opened twice,
    or written to when it is not open. *)
Abbreviation contents := (gmap string (bool * list Z)).

Definition spec_dop (o : dop) (m : contents) : option contents :=
  match o, m !! (match o with OpenWrite p | Write p _ | Terminate p => p end) with
  | OpenWrite p, None => Some (<[p := (true, [])]> m)
  | Write p data, Some (true, bytes) => Some (<[p := (true, bytes ++ data)]> m)
  | Terminate p, Some (true, bytes) => Some (<[p := (false, bytes)]> m)
  | _, _ => None
  end.

Definition spec_dops (l : list dop) (m : contents) : option contents := foldl (fun m o => m ≫= spec_dop o) (Some m) l.

Definition is_store (p : string) : Prop := path_component_type component_of_ext p = Some Store.

#[global] Instance is_store_dec p : Decision (is_store p) := _.

(** A path with its number of counter [i]; [fo] is where the file is. *)
Definition file_state d (ws : writers) (p : string) (st : bool * list Z) (fo : option file) (i : nat) : Prop :=
  if decide (is_store p) then
    fo = None /\ new_files d !! p = Some (InvalidBlockNumber, i) /\ counters d !! i = Some 0 /\
    (st.1 = true -> ws !! p = Some (mkComponentWriter None i))
  else exists f, fo = Some f /\ new_files d !! p = Some (f_start f, i) /\ counters d !! i = Some (Z.of_nat (length st.2)) /\ f_bytes f = st.2 /\
    NoDup (f_blocks f) /\ (forall x, x ∈ f_blocks f -> is_Some (pages (index d) !! x)) /\
    if st.1 then exists bw, ws !! p = Some (mkComponentWriter (Some bw) i) /\ LinkedBytes.list_header (out bw) = f_start f /\
                            writer_at (index d) bw (f_blocks f) (f_bytes f)
    else f_bytes f <> [] -> file_at pk MAX (index d) f.

(** [r0] is the relation before. *)
Record dir_ok r0 d (ws : writers) (m : contents) (lay : gmap string file) : Prop := {
  dk_rel : rel_ok (index d);
  dk_file : forall p st, m !! p = Some st -> exists i, file_state d ws p st (lay !! p) i;
  dk_none : forall p, m !! p = None -> lay !! p = None /\ new_files d !! p = None;
  dk_counters : forall p p' x x' i, new_files d !! p = Some (x, i) -> new_files d !! p' = Some (x', i) -> p = p';
  dk_apart : forall p p' f f' x, lay !! p = Some f -> lay !! p' = Some f' -> x ∈ f_blocks f -> x ∈ f_blocks f' -> p = p';
  dk_fresh : forall p f x, lay !! p = Some f -> x ∈ f_blocks f -> pages r0 !! x = None;
  dk_frame : forall x, is_Some (pages r0 !! x) -> pages (index d) !! x = pages r0 !! x;
}.

Definition blocks_at (lay : gmap string file) (p : string) : list Z := from_option f_blocks [] (lay !! p).

Lemma blocks_at_some r0 d ws m lay p x : dir_ok r0 d ws m lay -> x ∈ blocks_at lay p -> is_Some (pages (index d) !! x) /\ pages r0 !! x = None.
Proof.
  intros Hd. unfold blocks_at. destruct (lay !! p) as [f|] eqn:E; [|by intros ?%elem_of_nil]. cbn [from_option]. intros Hx.
  split; [|by eapply (dk_fresh _ _ _ _ _ Hd)]. destruct (m !! p) as [st|] eqn:Em; [|destruct (dk_none _ _ _ _ _ Hd p Em); congruence].
  destruct (dk_file _ _ _ _ _ Hd p st Em) as [i Hs]. unfold file_state in Hs. case_decide; [destruct Hs; congruence|].
  destruct Hs as (f' & E' & _ & _ & _ & _ & Hso & _). apply Hso. congruence.
Qed.

(** One path changes; the others are as they were. *)
Lemma dir_ok_update r0 d d' ws ws' m lay p st' fo i : dir_ok r0 d ws m lay -> rel_ok (index d') ->
  (exists x, new_files d' = <[p := (x, i)]> (new_files d)) -> (forall p' x, p' <> p -> new_files d !! p' <> Some (x, i)) ->
  (forall j, j <> i -> (j < length (counters d))%nat -> counters d' !! j = counters d !! j) ->
  (forall p', p' <> p -> ws' !! p' = ws !! p') ->
  grows (index d) (index d') (blocks_at lay p) (from_option f_blocks [] fo) ->
  file_state d' ws' p st' fo i ->
  dir_ok r0 d' ws' (<[p := st']> m) (partial_alter (fun _ => fo) p lay).
Proof.
  intros Hd Hr' [y Hn] Hi Hc Hw [Hga Hgb] Hs.
  assert (forall p', p' <> p -> forall x, x ∈ blocks_at lay p' -> x ∉ blocks_at lay p) as Hap.
  { intros p' Hne x Hx Hx'. apply Hne. unfold blocks_at in *. destruct (lay !! p') eqn:E1; [|by apply elem_of_nil in Hx].
    destruct (lay !! p) eqn:E2; [|by apply elem_of_nil in Hx']. by eapply (dk_apart _ _ _ _ _ Hd). }
  assert (forall p', p' <> p -> forall x, x ∈ blocks_at lay p' -> pages (index d') !! x = pages (index d) !! x) as Hsame.
  { intros p' Hne x Hx. apply Hgb; [by eapply Hap|]. by apply (blocks_at_some _ _ _ _ _ _ _ Hd Hx). }
  split.
  - done.
  - intros q st. rewrite lookup_insert. case_decide as Hq.
    + intros [= <-]. subst q. exists i. by rewrite lookup_partial_alter_eq.
    + intros Hm. destruct (dk_file _ _ _ _ _ Hd q st Hm) as [j Hj]. exists j. rewrite lookup_partial_alter_ne by done.
      assert (forall x, new_files d !! q = Some (x, j) -> counters d !! j <> None -> counters d' !! j = counters d !! j) as Hcj.
      { intros x Hx Hl. apply Hc; [intros ->; by eapply (Hi q)|]. destruct (counters d !! j) eqn:E; [|done]. by eapply lookup_lt_Some. }
      unfold file_state in *. rewrite Hn, lookup_insert_ne, Hw by done. case_decide.
      * destruct Hj as (? & Hx & Hct & ?). rewrite (Hcj _ Hx) by congruence. done.
      * destruct Hj as (f & Ef & Hx & Hct & Hb & Hnd & Hso & Hst). exists f. rewrite (Hcj _ Hx) by congruence.
        assert (forall x, x ∈ f_blocks f -> pages (index d') !! x = pages (index d) !! x) as Hsf.
        { intros x Hxf. apply (Hsame q); [done|]. unfold blocks_at. by rewrite Ef. }
        do 5 (split; [done|]). split; [intros x Hxf; rewrite Hsf by done; auto|]. destruct (st.1).
        -- destruct Hst as (bw & ? & ? & Hwa). exists bw. do 2 (split; [done|]). by eapply writer_at_frame.
        -- intros Hne'. eapply file_at_frame; [by apply Hst|]. done.
  - intros q. rewrite lookup_insert_None. intros [Hm Hne]. rewrite Hn, lookup_insert_ne, lookup_partial_alter_ne by done.
    by apply (dk_none _ _ _ _ _ Hd).
  - intros q q' x x' j. rewrite Hn, !lookup_insert. repeat case_decide; try congruence.
    + intros [= <- <-] Hx. by destruct (Hi q' x').
    + intros Hx [= <- <-]. by destruct (Hi q x).
    + apply (dk_counters _ _ _ _ _ Hd).
  - assert (forall q f' x, q <> p -> lay !! q = Some f' -> x ∈ f_blocks f' -> x ∉ from_option f_blocks [] fo) as Hx.
    { intros q f' x Hne Hf' Hx Hx'. assert (x ∈ blocks_at lay q) as Hxq by (unfold blocks_at; by rewrite Hf').
      destruct (Hga x Hx') as [Ha|Ha]; [by eapply Hap|]. destruct (blocks_at_some _ _ _ _ _ _ _ Hd Hxq) as [[? ?] _]. congruence. }
    intros q q' f f' x. rewrite !lookup_partial_alter. repeat case_decide; try congruence.
    + intros -> Hf' Hin Hin'. exfalso. by eapply (Hx q' f' x).
    + intros Hf -> Hin Hin'. exfalso. by eapply (Hx q f x).
    + by eapply (dk_apart _ _ _ _ _ Hd).
  - intros q f x. rewrite lookup_partial_alter. case_decide as Hq; [|by apply (dk_fresh _ _ _ _ _ Hd)]. intros -> Hx. cbn [from_option] in Hga.
    destruct (Hga x Hx) as [Ha|Ha]; [by apply (blocks_at_some _ _ _ _ _ _ _ Hd Ha)|].
    destruct (pages r0 !! x) as [pg|] eqn:E; [|done]. rewrite (dk_frame _ _ _ _ _ Hd) in Ha by (by eexists). congruence.
  - intros x Hx. rewrite <- (dk_frame _ _ _ _ _ Hd x Hx). apply Hgb.
    + intros Hin. destruct (blocks_at_some _ _ _ _ _ _ _ Hd Hin) as [_ E]. rewrite E in Hx. by destruct Hx.
    + by rewrite (dk_frame _ _ _ _ _ Hd).
Qed.

Lemma counter_lt r0 d ws m lay p x i : dir_ok r0 d ws m lay -> new_files d !! p = Some (x, i) -> (i < length (counters d))%nat.
Proof.
  intros Hd Hp. destruct (m !! p) as [st|] eqn:Em; [|destruct (dk_none _ _ _ _ _ Hd p Em); congruence].
  destruct (dk_file _ _ _ _ _ Hd p st Em) as [j Hs]. unfold file_state in Hs. case_decide.
  - destruct Hs as (_ & Hn & Hc & _). rewrite Hp in Hn. injection Hn as -> ->. by eapply lookup_lt_Some.
  - destruct Hs as (f & _ & Hn & Hc & _). rewrite Hp in Hn. injection Hn as -> ->. by eapply lookup_lt_Some.
Qed.

Lemma runs_bind_inv {A B} (c : M rel unit A) (k : A -> M rel unit B) r Q : runs (c ≫= k) r Q -> runs c r (fun a r' => runs (k a) r' Q).
Proof. unfold runs, mwp, mbind, M_bind. by destruct (c r) as [[] ?]. Qed.

Lemma open_write_spec r0 d ws m lay p (Q : SegmentComponentWriter -> Dir -> Prop) : dir_ok r0 d ws m lay -> m !! p = None ->
  (forall d' w lay', dir_ok r0 d' (<[p := w]> ws) (<[p := (true, [])]> m) lay' -> Q w d') ->
  druns (open_write component_of_ext p) d Q.
Proof.
  intros Hd Hm HQ. destruct (dk_none _ _ _ _ _ Hd p Hm) as [Hlp Hnp]. set (i := length (counters d)).
  assert (forall p' x, p' <> p -> new_files d !! p' <> Some (x, i)) as Hi.
  { intros p' x _ Hx. pose proof (counter_lt _ _ _ _ _ _ _ _ Hd Hx). lia. }
  assert (forall l (j : nat), j <> i -> (j < length (counters d))%nat -> (counters d ++ l) !! j = counters d !! j) as Hj.
  { intros l j _ Hlt. by rewrite lookup_app_l. }
  assert (forall l x, (counters d ++ x :: l) !! i = Some x) as Hci by (intros; by apply list_lookup_middle).
  assert (blocks_at lay p = []) as Hbl by (unfold blocks_at; by rewrite Hlp).
  unfold open_write. apply druns_bind. destruct (decide (is_store p)) as [Hst|Hst].
  - pose proof Hst as Hst'. unfold is_store in Hst'. rewrite Hst'. apply druns_ret, druns_bind. unfold new_counter, druns, mwp. cbn [fst snd].
    eapply HQ. eapply (dir_ok_update r0 d _ ws _ m lay p _ None i); [done|apply (dk_rel _ _ _ _ _ Hd)|by eexists|done|by apply Hj| | |].
    + intros p' Hne. by rewrite lookup_insert_ne.
    + rewrite Hbl. apply grows_refl.
    + unfold file_state. rewrite decide_True by done. cbn. rewrite !lookup_insert_eq, Hci. done.
  - assert (druns (header ← on_index LinkedBytes.create_with_fsm; w ← on_index (LinkedBytes.writer header); mret (Some (mkBuf [] w))) d
      (fun o d' => exists w r' st, o = Some (mkBuf [] w) /\ d' = set_index r' d /\ writer_ok pk MAX (index d) r' w st [] st [])) as Hc.
    { assert (runs create_writer (index d) (fun w r' => exists st, writer_ok pk MAX (index d) r' w st [] st [])) as Hcw.
      { apply (create_writer_spec pk pk_ok MAX HMAX); [apply (dk_rel _ _ _ _ _ Hd)|]. intros r' w st Hw. by exists st. }
      unfold create_writer in Hcw. apply runs_bind_inv in Hcw. apply druns_bind, druns_index. eapply runs_mono; [exact Hcw|].
      intros hb r1 Hw%runs_bind_inv. apply druns_bind, druns_index. cbn [set_index index]. eapply runs_mono; [exact Hw|].
      intros w r' [st Hok]. apply druns_ret. by exists w, r', st. }
    assert (match path_component_type component_of_ext p with Some Store => mret None
            | _ => header ← on_index LinkedBytes.create_with_fsm; w ← on_index (LinkedBytes.writer header); mret (Some (mkBuf [] w)) end =
            (header ← on_index LinkedBytes.create_with_fsm; w ← on_index (LinkedBytes.writer header); mret (Some (mkBuf [] w)) : M Dir unit _)) as ->.
    { unfold is_store in Hst. destruct (path_component_type component_of_ext p) as [[]|]; done. }
    eapply druns_mono; [exact Hc|]. intros o d' (w & r' & st & -> & -> & Hw). apply druns_bind. unfold new_counter, druns, mwp. cbn [fst snd out].
    set (hb := LinkedBytes.list_header w). set (f := mkFileAt hb [] (owned_blocks hb [] st)).
    assert (writer_at r' (mkBuf [] w) (f_blocks f) []) as Hwa by (by exists (index d), r', st, [], st, []).
    eapply HQ. eapply (dir_ok_update r0 d _ ws _ m lay p _ (Some f) i); [done|apply (wo_rel _ _ _ _ _ _ _ _ _ Hw)|by eexists|done|by apply Hj| | |].
    + intros p' Hne. by rewrite lookup_insert_ne.
    + rewrite Hbl. split.
      * intros x Hx. right. by apply (wo_fresh _ _ _ _ _ _ _ _ _ Hw).
      * intros x _ [pg Hx]. apply (wo_frame _ _ _ _ _ _ _ _ _ Hw). intros Hin%(wo_fresh _ _ _ _ _ _ _ _ _ Hw). congruence.
    + unfold file_state. rewrite decide_False by done. cbn. rewrite !lookup_insert_eq, Hci. exists f. do 4 (split; [done|]).
      split; [apply (wo_nodup _ _ _ _ _ _ _ _ _ Hw)|]. split; [intros x Hx; by eapply writer_at_some|]. by exists (mkBuf [] w).
Qed.

Lemma run_dop_spec r0 d ws m lay o m' (Q : writers -> Dir -> Prop) : dir_ok r0 d ws m lay -> spec_dop o m = Some m' ->
  (forall d' ws' lay', dir_ok r0 d' ws' m' lay' -> Q ws' d') -> druns (run_dop o ws) d Q.
Proof.
  intros Hd Ho HQ. unfold spec_dop in Ho. destruct o as [p|p data|p]; cbn [run_dop].
  - destruct (m !! p) eqn:Hm; [done|]. injection Ho as <-. apply druns_bind. eapply open_write_spec; [done|done|].
    intros d' w lay' Hd'. apply druns_ret. by eapply HQ.
  - destruct (m !! p) as [[[] bytes]|] eqn:Hm; try done. injection Ho as <-. destruct (dk_file _ _ _ _ _ Hd p _ Hm) as [i Hs].
    unfold file_state in Hs. cbn [fst snd] in Hs. case_decide as Hst.
    + destruct Hs as (Hf & Hn & Hc & Hw). rewrite (Hw eq_refl). apply druns_bind, druns_ret, druns_bind. cbn [write inner]. apply druns_ret, druns_ret.
      eapply HQ. eapply (dir_ok_update r0 d d ws _ m lay p _ None i); [done|apply (dk_rel _ _ _ _ _ Hd)| | |done| | |].
      * exists InvalidBlockNumber. by rewrite insert_id.
      * intros p' x Hne Hx. apply Hne. by eapply (dk_counters _ _ _ _ _ Hd).
      * intros p' Hne. by rewrite lookup_insert_ne.
      * unfold blocks_at. rewrite Hf. apply grows_refl.
      * unfold file_state. rewrite decide_True by done. rewrite lookup_insert_eq. done.
    + destruct Hs as (f & Hf & Hn & Hc & Hb & Hnd & Hso & bw & Hw & Hh & Hwa). rewrite Hw. apply druns_bind, druns_ret, druns_bind. cbn [write inner].
      apply druns_bind. eapply buf_write_spec; [apply (dk_rel _ _ _ _ _ Hd)|exact Hwa|]. intros r' bw' blocks' Hr' Hwa' Hh' Hg. rewrite Hb in Hwa'.
      apply druns_bind, druns_modify, druns_ret, druns_ret. cbn [w_total_bytes]. set (f' := mkFileAt (f_start f) (bytes ++ data) blocks').
      assert (NoDup blocks') as Hnd' by (destruct Hwa' as (? & ? & ? & ? & ? & ? & Hok & -> & _); apply (wo_nodup _ _ _ _ _ _ _ _ _ Hok)).
      eapply HQ. eapply (dir_ok_update r0 d _ ws _ m lay p _ (Some f') i); [done|exact Hr'| | | | | |].
      * exists (f_start f). cbn. by rewrite insert_id.
      * intros p' x Hne Hx. apply Hne. by eapply (dk_counters _ _ _ _ _ Hd).
      * intros j Hne _. cbn. by apply list_lookup_alter_ne.
      * intros p' Hne. by rewrite lookup_insert_ne.
      * unfold blocks_at. by rewrite Hf.
      * unfold file_state. rewrite decide_False by done. exists f'. cbn. rewrite lookup_insert_eq, list_lookup_alter_eq, Hc. split; [done|]. split; [done|].
        split; [cbn; f_equal; rewrite length_app; lia|]. do 2 (split; [done|]). split; [intros x Hx; by eapply writer_at_some|].
        exists bw'. split; [done|]. split; [congruence|done].
  - destruct (m !! p) as [[[] bytes]|] eqn:Hm; try done. injection Ho as <-. destruct (dk_file _ _ _ _ _ Hd p _ Hm) as [i Hs].
    unfold file_state in Hs. cbn [fst snd] in Hs. case_decide as Hst.
    + destruct Hs as (Hf & Hn & Hc & Hw). rewrite (Hw eq_refl). apply druns_bind, druns_ret, druns_bind. cbn [terminate inner]. apply druns_ret, druns_ret.
      eapply HQ. eapply (dir_ok_update r0 d d ws _ m lay p _ None i); [done|apply (dk_rel _ _ _ _ _ Hd)| | |done| | |].
      * exists InvalidBlockNumber. by rewrite insert_id.
      * intros p' x Hne Hx. apply Hne. by eapply (dk_counters _ _ _ _ _ Hd).
      * intros p' Hne. by rewrite lookup_delete_ne.
      * unfold blocks_at. rewrite Hf. apply grows_refl.
      * unfold file_state. rewrite decide_True by done. done.
    + destruct Hs as (f & Hf & Hn & Hc & Hb & Hnd & Hso & bw & Hw & Hh & Hwa). rewrite Hw. apply druns_bind, druns_ret, druns_bind.
      eapply terminate_spec; [apply (dk_rel _ _ _ _ _ Hd)|exact Hwa|exact Hh|]. intros r' f' Hr' Hst' Hb' Hnd' Hso' Hat Hg. apply druns_ret.
      eapply HQ. eapply (dir_ok_update r0 d _ ws _ m lay p _ (Some f') i); [done|exact Hr'| | |done| | |].
      * exists (f_start f). cbn. by rewrite insert_id.
      * intros p' x Hne Hx. apply Hne. by eapply (dk_counters _ _ _ _ _ Hd).
      * intros p' Hne. by rewrite lookup_delete_ne.
      * unfold blocks_at. by rewrite Hf.
      * unfold file_state. rewrite decide_False by done. exists f'. cbn. rewrite Hst', Hb', <- Hb. rewrite Hb in *. by do 6 (split; [done|]).
Qed.

Lemma run_dops_spec r0 l d ws m lay m' (Q : writers -> Dir -> Prop) : dir_ok r0 d ws m lay -> spec_dops l m = Some m' ->
  (forall d' ws' lay', dir_ok r0 d' ws' m' lay' -> Q ws' d') -> druns (run_dops l ws) d Q.
Proof.
  revert d ws m lay. induction l as [|o l IH]; intros d ws m lay Hd Hs HQ; cbn [run_dops].
  { injection Hs as <-. apply druns_ret. by eapply HQ. }
  unfold spec_dops in Hs. cbn [foldl mbind option_bind] in Hs. destruct (spec_dop o m) as [m1|] eqn:Ho.
  - apply druns_bind. eapply run_dop_spec; [done|exact Ho|]. intros d1 ws1 lay1 Hd1. by eapply IH.
  - exfalso. clear -Hs. induction l as [|o' l IH]; [done|]. by apply IH.
Qed.

End directory.
