(* ===== verification/Commits.v ===== *)
(** * Committing through a directory

    The files of a commit, the list of segments and a later reader, together: what was
    written under a path is read back under it. *)

From stdpp Require Import prelude gmap sets strings.
From Stdlib Require Import ZArith Lia.
From S2P Require Import Prelude SegmentMeta SegmentMetaProps MergePolicy Pages BlockList BlockListProps LinkedBytes LinkedBytesProps LinkedItems LinkedItemsProps ItemOwners MergeDriver GarbageProps Metas MetasProps MetasOwners Directory DirectoryProps.
From stdpp Require Import list.
Import SegmentMeta Metas Directory.

Local Open Scope Z_scope.

(** ** Grouping the files *)

Section grouping.
Variables (component_of_ext : string -> option SegmentComponent) (from_uuid_string : string -> option Z).

Definition grouped (dirs : list (string * FileEntry)) (nf : gmap Z files_of) : Prop :=
  (forall id files k fe p, nf !! id = Some files -> files !! k = Some (fe, p) ->
     (p, fe) ∈ dirs /\ path_segment_id from_uuid_string p = Some id /\ path_component_type component_of_ext p = Some k) /\
  (forall p fe id k, (p, fe) ∈ dirs -> path_segment_id from_uuid_string p = Some id -> path_component_type component_of_ext p = Some k ->
     is_Some (nf !! id ≫= (fun files => files !! k))) /\
  forall id, nf !! id <> Some ∅.

Lemma group_file_grouped dirs nf p fe nf' : grouped dirs nf -> group_file component_of_ext from_uuid_string nf (p, fe) = Some nf' ->
  grouped (dirs ++ [(p, fe)]) nf'.
Proof.
  intros (Ha & Hb & Hc). unfold group_file. cbn [fst snd]. destruct (path_segment_id from_uuid_string p) as [id|] eqn:Hid; [|done]. cbn [mbind option_bind].
  destruct (path_component_type component_of_ext p) as [k|] eqn:Hk; [|done]. cbn [mbind option_bind]. intros [= <-]. split; [|split].
  - intros id' files k' fe' p'. rewrite lookup_insert. case_decide as Hi.
    + intros [= <-]. rewrite lookup_insert. case_decide as Hkk.
      * intros [= <- <-]. subst. split; [set_solver|done].
      * destruct (nf !! id) as [fs|] eqn:Ef; cbn [default]; [|by rewrite lookup_empty]. intros Hl. subst id'.
        destruct (Ha _ _ _ _ _ Ef Hl) as (? & ? & ?). split; [set_solver|done].
    + intros Hf Hl. destruct (Ha _ _ _ _ _ Hf Hl) as (? & ? & ?). split; [set_solver|done].
  - intros p' fe' id' k' [Hin|[= -> ->]%list_elem_of_singleton]%elem_of_app Hid' Hk'.
    + specialize (Hb _ _ _ _ Hin Hid' Hk'). rewrite lookup_insert. case_decide as Hi; [|done]. subst id'. cbn [mbind option_bind].
      rewrite lookup_insert. case_decide; [by eexists|]. by destruct (nf !! id).
    + rewrite Hid in Hid'. rewrite Hk in Hk'. injection Hid' as <-. injection Hk' as <-. rewrite lookup_insert_eq. cbn [mbind option_bind].
      rewrite lookup_insert_eq. by eexists.
  - intros id'. rewrite lookup_insert. case_decide; [|done]. intros [= Hx]. by apply insert_non_empty in Hx.
Qed.

Lemma group_files_grouped dirs nf : group_files component_of_ext from_uuid_string dirs = Some nf -> grouped dirs nf.
Proof.
  unfold group_files.
  assert (forall dirs0 nf0, grouped dirs0 nf0 -> foldl (fun acc e => acc ≫= (fun m => group_file component_of_ext from_uuid_string m e)) (Some nf0) dirs = Some nf ->
    grouped (dirs0 ++ dirs) nf) as Hx.
  { induction dirs as [|[p fe] dirs IH]; intros dirs0 nf0 Hg E; cbn [foldl mbind option_bind] in E.
    - injection E as <-. by rewrite app_nil_r.
    - destruct (group_file component_of_ext from_uuid_string nf0 (p, fe)) as [nf1|] eqn:E1.
      + change ((p, fe) :: dirs) with ([(p, fe)] ++ dirs). rewrite app_assoc. eapply IH; [|exact E]. by eapply group_file_grouped.
      + exfalso. clear -E. induction dirs as [|e dirs IH]; [done|]. by apply IH. }
  intros E. apply (Hx [] ∅); [|done]. split; [intros ? ? ? ? ?; by rewrite lookup_empty|]. split; [|intros id; by rewrite lookup_empty].
  intros ? ? ? ? Hin. by apply elem_of_nil in Hin.
Qed.

Lemma group_files_some dirs : (forall p fe, (p, fe) ∈ dirs -> is_Some (path_segment_id from_uuid_string p) /\ is_Some (path_component_type component_of_ext p)) ->
  exists nf, group_files component_of_ext from_uuid_string dirs = Some nf.
Proof.
  unfold group_files. generalize (∅ : gmap Z files_of). induction dirs as [|[p fe] dirs IH]; intros nf Hp; cbn [foldl mbind option_bind]; [by eexists|].
  destruct (Hp p fe ltac:(left)) as [[id Hid] [k Hk]]. unfold group_file at 2. cbn [fst snd]. rewrite Hid. cbn [mbind option_bind]. rewrite Hk. cbn [mbind option_bind].
  apply IH. intros p' fe' Hin. apply (Hp p' fe'). by right.
Qed.

End grouping.

Section commits.
Variable pk : BlockList.width -> BlockList.packer.
Hypothesis pk_ok : forall w, packer_ok w (pk w).
Variable MAX : Z.
Hypothesis HMAX : 1030 <= MAX.
Variables (component_ext : SegmentComponent -> string) (component_of_ext : string -> option SegmentComponent).
Variables (uuid_string : Z -> string) (from_uuid_string : string -> option Z).
Context `{ItemCodec SegmentMetaEntry} `{ItemCodec MutableSegmentEntry} `{ItemOverwrite}.
Hypothesis entry_storable : forall e : SegmentMetaEntry, storable (into_item e).
Hypothesis frozen_size : forall e, xmax e = InvalidTransactionId ->
  length (into_item (set_xmax FrozenTransactionId e)) = length (into_item e).
Context {F : Type} `{FreeSpaceManager F} {Els : Elsewhere}.

Abbreviation rel := (rel F lpage).
Abbreviation Dir := (MVCCDirectory F).
Implicit Types (r : rel) (d : Dir) (ch : list (Z * list SegmentMetaEntry)) (s : segment).

(** ** The new files of a directory *)

(** All files are finished, and those with pages are not empty. *)
Definition finished (m : gmap string (bool * list Z)) : Prop :=
  forall p st, m !! p = Some st -> st.1 = false /\ (~ is_store component_of_ext p -> st.2 <> []).

Lemma new_file_entry r0 d ws m lay p fe : dir_ok pk MAX component_of_ext r0 d ws m lay -> ~ is_store component_of_ext p ->
  (p, fe) ∈ new_file_entries d <-> exists st f, m !! p = Some st /\ lay !! p = Some f /\ fe = mkFile (f_start f) (Z.of_nat (length st.2)) /\ f_bytes f = st.2.
Proof.
  intros Hd Hst. unfold new_file_entries. rewrite list_elem_of_fmap. split.
  - intros ([q [start i]] & [= -> ->] & Hq%elem_of_map_to_list). cbn [fst snd].
    destruct (m !! q) as [st|] eqn:Hm; [|destruct (dk_none _ _ _ _ _ _ _ _ Hd q Hm); congruence]. exists st.
    destruct (dk_file _ _ _ _ _ _ _ _ Hd q st Hm) as [j Hs]. unfold file_state in Hs. rewrite decide_False in Hs by done.
    destruct Hs as (f & Hf & Hn & Hc & Hb & _). rewrite Hq in Hn. injection Hn as -> ->. exists f. unfold counter. by rewrite Hc.
  - intros (st & f & Hm & Hf & -> & Hb). destruct (dk_file _ _ _ _ _ _ _ _ Hd p st Hm) as [j Hs]. unfold file_state in Hs.
    rewrite decide_False in Hs by done. destruct Hs as (f' & Hf' & Hn & Hc & _). rewrite Hf in Hf'. injection Hf' as <-.
    exists (p, (f_start f, j)). cbn [fst snd]. unfold counter. rewrite Hc. split; [done|]. by apply elem_of_map_to_list.
Qed.

(** The file of a segment's component. *)
Definition file_for (lay : gmap string file) (nf : gmap Z files_of) (x : Z * SegmentComponent) : file :=
  default (mkFileAt 0 [] []) (fp ← nf !! x.1 ≫= (fun files => files !! x.2); lay !! fp.2).

Lemma file_for_ok r0 d ws m lay nf id files k fe p : dir_ok pk MAX component_of_ext r0 d ws m lay ->
  grouped component_of_ext from_uuid_string (new_file_entries d) nf -> k <> Store -> nf !! id = Some files -> files !! k = Some (fe, p) ->
  exists st, m !! p = Some st /\ lay !! p = Some (file_for lay nf (id, k)) /\
    fe = mkFile (f_start (file_for lay nf (id, k))) (Z.of_nat (length st.2)) /\ f_bytes (file_for lay nf (id, k)) = st.2.
Proof.
  intros Hd [Hg _] Hk Hid Hf. destruct (Hg _ _ _ _ _ Hid Hf) as (Hin & _ & Hc).
  assert (~ is_store component_of_ext p) as Hst by (unfold is_store; congruence).
  apply (new_file_entry _ _ _ _ _ _ _ Hd Hst) in Hin as (st & f & Hm & Hl & Hfe & Hb). exists st.
  assert (file_for lay nf (id, k) = f) as ->; [|done].
  unfold file_for. cbn [fst snd]. rewrite Hid. cbn [mbind option_bind]. rewrite Hf. cbn [mbind option_bind snd]. by rewrite Hl.
Qed.

Lemma written_news r0 d ws m lay nf : dir_ok pk MAX component_of_ext r0 d ws m lay -> finished m ->
  grouped component_of_ext from_uuid_string (new_file_entries d) nf -> news_at pk MAX (file_for lay nf) nf (index d).
Proof.
  intros Hd Hfin Hg id files k fe p Hk Hid Hf. destruct (file_for_ok _ _ _ _ _ _ _ _ _ _ _ Hd Hg Hk Hid Hf) as (st & Hm & Hl & -> & Hb).
  split; [done|]. destruct Hg as [Hg _]. destruct (Hg _ _ _ _ _ Hid Hf) as (_ & _ & Hc).
  assert (~ is_store component_of_ext p) as Hst by (unfold is_store; congruence). destruct (Hfin p st Hm) as [Ho Hne].
  destruct (dk_file _ _ _ _ _ _ _ _ Hd p st Hm) as [j Hs]. unfold file_state in Hs. rewrite decide_False in Hs by done.
  destruct Hs as (f & Hf' & _ & _ & _ & _ & _ & Hs). rewrite Hl in Hf'. injection Hf' as <-. rewrite Ho in Hs. apply Hs. rewrite Hb. by apply Hne.
Qed.

(** The new files are apart from each other. *)
Lemma written_apart r0 d ws m lay nf : dir_ok pk MAX component_of_ext r0 d ws m lay ->
  grouped component_of_ext from_uuid_string (new_file_entries d) nf ->
  NoDup (all_keys nf ≫= (fun x => f_blocks (file_for lay nf x))) /\
  forall b, b ∈ all_keys nf ≫= (fun x => f_blocks (file_for lay nf x)) -> pages r0 !! b = None.
Proof.
  intros Hd Hg.
  assert (forall x, x ∈ all_keys nf -> exists p, lay !! p = Some (file_for lay nf x) /\
    path_segment_id from_uuid_string p = Some x.1 /\ path_component_type component_of_ext p = Some x.2) as Hx.
  { intros [id k] (Hk & [[fe p] Hf])%all_keys_elem. destruct (nf !! id) as [files|] eqn:Hid; [|done]. cbn [mbind option_bind] in Hf.
    destruct (file_for_ok _ _ _ _ _ _ _ _ _ _ _ Hd Hg Hk Hid Hf) as (st & _ & Hl & _). destruct Hg as [Hg _].
    exists p. split; [done|]. by apply (Hg _ _ _ _ _ Hid Hf). }
  split.
  - apply NoDup_bind.
    + intros x y b Hx1 Hy1 Hbx Hby. destruct (Hx x Hx1) as (p & Hp & Hi & Hk), (Hx y Hy1) as (q & Hq & Hi' & Hk').
      assert (p = q) as <- by (by eapply (dk_apart _ _ _ _ _ _ _ _ Hd)). destruct x, y. cbn [fst snd] in *. congruence.
    + intros x Hx1. destruct (Hx x Hx1) as (p & Hp & _). destruct (m !! p) as [st|] eqn:Hm; [|destruct (dk_none _ _ _ _ _ _ _ _ Hd p Hm); congruence].
      destruct (dk_file _ _ _ _ _ _ _ _ Hd p st Hm) as [j Hs]. unfold file_state in Hs. case_decide; [destruct Hs; congruence|].
      destruct Hs as (f & Hf & _ & _ & _ & Hnd & _). rewrite Hp in Hf. by injection Hf as ->.
    + unfold all_keys. apply NoDup_filter. apply NoDup_bind.
      * intros [i fs] [j gs] z Hi%elem_of_map_to_list Hj%elem_of_map_to_list (? & -> & _)%list_elem_of_fmap (? & [= -> _] & _)%list_elem_of_fmap.
        cbn [fst] in *. congruence.
      * intros [i fs] _. cbn [fst snd].
        assert ((fun f : SegmentComponent * (FileEntry * string) => (i, f.1)) <$> map_to_list fs = pair i <$> (map_to_list fs).*1) as -> by (by rewrite <- list_fmap_compose).
        apply NoDup_fmap_2; [by intros ? ? [= ->]|apply NoDup_fst_map_to_list].
      * apply NoDup_map_to_list.
  - intros b (x & Hb & Hin)%list_elem_of_bind. destruct (Hx x Hin) as (p & Hp & _). by eapply (dk_fresh _ _ _ _ _ _ _ _ Hd).
Qed.

(** ** A commit *)

(** The files of a commit, before they are written: every path names a segment and a
    component; a segment that stays and gets a delete file gets nothing else and is
    immutable; a segment that goes is in the list and not deleted yet. *)
Record planned (in_transaction : bool) (new_meta prev_meta : list TantivySegment) (m : gmap string (bool * list Z)) (es : list SegmentMetaEntry) : Prop := {
  pl_paths : forall p st, m !! p = Some st -> is_Some (path_segment_id from_uuid_string p) /\ is_Some (path_component_type component_of_ext p);
  pl_modified : forall p st id, m !! p = Some st -> path_segment_id from_uuid_string p = Some id -> path_component_type component_of_ext p = Some Delete ->
    id ∈ ids_of_meta prev_meta -> id ∈ ids_of_meta new_meta ->
    (forall q st', m !! q = Some st' -> path_segment_id from_uuid_string q = Some id -> path_component_type component_of_ext q = Some Delete) /\
    exists e, has id e es /\ SegmentMeta.is_mutable e = false;
  pl_deleted : forall id, id ∈ deleted_ids new_meta prev_meta -> exists e, has id e es /\ xmax e = InvalidTransactionId;
  pl_transaction : in_transaction = true \/ deleted_ids new_meta prev_meta = [];
}.

Lemma planned_perm tx new_meta prev_meta m es es' : es ≡ₚ es' -> planned tx new_meta prev_meta m es -> planned tx new_meta prev_meta m es'.
Proof.
  intros Hp [Ha Hb Hc Ht]. split; [done| | |done].
  - intros p st id Hm Hi Hk Ho Hn. destruct (Hb p st id Hm Hi Hk Ho Hn) as (Hx & e & He & Hmu). split; [done|]. exists e. by rewrite <- Hp.
  - intros id Hid. destruct (Hc id Hid) as (e & He & Hx). exists e. by rewrite <- Hp.
Qed.

Lemma new_file_paths r0 d ws m lay p fe : dir_ok pk MAX component_of_ext r0 d ws m lay -> (p, fe) ∈ new_file_entries d -> is_Some (m !! p).
Proof.
  intros Hd. unfold new_file_entries. intros ([q [start i]] & [= -> ->] & Hq%elem_of_map_to_list)%list_elem_of_fmap. cbn [fst].
  destruct (m !! q) as [st|] eqn:Hm; [by eexists|]. destruct (dk_none _ _ _ _ _ _ _ _ Hd q Hm). congruence.
Qed.

Lemma planned_save_ok r0 d ws m lay tx new_meta prev_meta es : dir_ok pk MAX component_of_ext r0 d ws m lay -> planned tx new_meta prev_meta m es ->
  exists nf, save_ok component_of_ext from_uuid_string tx new_meta prev_meta (new_file_entries d) nf es /\
    grouped component_of_ext from_uuid_string (new_file_entries d) nf.
Proof.
  intros Hd Hp. destruct (group_files_some component_of_ext from_uuid_string (new_file_entries d)) as [nf Hnf].
  { intros p fe [st Hm]%(new_file_paths _ _ _ _ _ _ _ Hd). by apply (pl_paths _ _ _ _ _ Hp p st). }
  pose proof (group_files_grouped _ _ _ _ Hnf) as Hg. exists nf. split; [|done].
  split; [done| |apply (pl_deleted _ _ _ _ _ Hp)|apply (pl_transaction _ _ _ _ _ Hp)].
  intros id ([[fe p] Hf] & Hpr & Hnw)%modified_ids_elem. destruct (nf !! id) as [files|] eqn:Hid; [|done]. cbn [mbind option_bind] in Hf.
  destruct Hg as [Hg _]. destruct (Hg _ _ _ _ _ Hid Hf) as (Hin & Hi & Hk). destruct (new_file_paths _ _ _ _ _ _ _ Hd Hin) as [st Hm].
  destruct (pl_modified _ _ _ _ _ Hp p st id Hm Hi Hk Hpr Hnw) as [Hall He]. split; [|done]. exists files. split; [done|].
  assert (files = {[ Delete := (fe, p) ]}) as ->; [|apply map_size_singleton]. apply map_eq. intros k. rewrite lookup_singleton.
  case_decide as Hkk; [by subst k|]. destruct (files !! k) as [[fe' p']|] eqn:Hk'; [|done]. exfalso.
  destruct (Hg _ _ _ _ _ Hid Hk') as (Hin' & Hi' & Hkt). destruct (new_file_paths _ _ _ _ _ _ _ Hd Hin') as [st' Hm'].
  specialize (Hall p' st' Hm' Hi'). congruence.
Qed.

(** The byte list at [hb] holds something. *)
Definition holds_bytes r (hb : Z) : Prop := exists start last bl data next, pages r !! hb = Some (Header start last bl) /\
  block_number_is_valid start = true /\ pages r !! start = Some (Data data next) /\ data <> [].

Lemma holds_bytes_frame r r' hb : holds_bytes r hb -> (forall x, is_Some (pages r !! x) -> pages r' !! x = pages r !! x) -> holds_bytes r' hb.
Proof.
  intros (start & l & bl & data & next & Hh & Hv & Hs & Hne) Hx. exists start, l, bl, data, next.
  rewrite !Hx by (rewrite ?Hh, ?Hs; by eexists). done.
Qed.

Lemma save_once_kept bytes hb d (Q : unit -> Dir -> Prop) : holds_bytes (index d) hb -> Q tt d -> druns (save_once pk MAX bytes hb) d Q.
Proof.
  intros (start & l & bl & data & next & Hh & Hv & Hs & Hne) HQ. unfold save_once. apply druns_bind, druns_index.
  unfold LinkedBytes.is_empty, LinkedBytes.get_start_blockno. apply runs_bind, runs_bind. eapply runs_get_header; [exact Hh|]. cbn [fst snd].
  unfold LinkedBytes.assert_block. rewrite Hv. apply runs_ret, runs_bind. eapply runs_get_data; [exact Hs|]. apply runs_ret. cbn [fst].
  destruct data as [|z data]; [done|]. apply druns_ret. by destruct d.
Qed.

(** Tantivy writes its files and saves its metadata. *)
Definition commit_files (l : list dop) (tx : bool) (xid : Z) (schema settings : list Z) (new_meta prev_meta : list TantivySegment)
    (schema_bytes settings_bytes hb : Z) : M Dir unit unit :=
  _ ← run_dops pk MAX component_of_ext l ∅;
  save_metas pk MAX component_of_ext from_uuid_string tx xid schema settings new_meta prev_meta None schema_bytes settings_bytes hb.

Lemma commit_files_spec r hb ch ss l m tx xid schema settings new_meta prev_meta sb stb (Q : unit -> Dir -> Prop) :
  segments_ok pk MAX r hb ch ss -> spec_dops l ∅ = Some m -> finished m -> planned tx new_meta prev_meta m (s_entry <$> ss) ->
  ids_nonzero new_meta prev_meta -> new_meta <> [] -> normal_xid xid -> holds_bytes r sb -> holds_bytes r stb ->
  (forall d d1 ws lay nf ch' ss', dir_ok pk MAX component_of_ext r d1 ws m lay ->
     save_ok component_of_ext from_uuid_string tx new_meta prev_meta (new_file_entries d1) nf (s_entry <$> ss) ->
     grouped component_of_ext from_uuid_string (new_file_entries d1) nf ->
     segments_ok pk MAX (index d) hb ch' ss' -> ss' ≡ₚ segs_saved (file_for lay nf) new_meta prev_meta nf ss -> Q tt d) ->
  druns (commit_files l tx xid schema settings new_meta prev_meta sb stb hb) (with_mvcc_style r) Q.
Proof.
  intros Hss Hl Hfin Hpl Hnz Hne Hx Hsb Hstb HQ. pose proof Hss as [Ho Hi]. destruct (ow_list _ _ _ _ _ _ Ho) as [rb Hlist].
  unfold commit_files. apply druns_bind. eapply (run_dops_spec pk pk_ok MAX HMAX component_of_ext r l (with_mvcc_style r) ∅ ∅ ∅ m); [|exact Hl|].
  { split.
    - apply (il_rel _ _ _ _ Hlist).
    - intros p st. by rewrite lookup_empty.
    - intros p _. by rewrite lookup_empty.
    - intros p p' x x' i. cbn. by rewrite lookup_empty.
    - intros p p' f f' x. by rewrite lookup_empty.
    - intros p f x. by rewrite lookup_empty.
    - done. }
  intros d1 ws lay Hd1. destruct (planned_save_ok _ _ _ _ _ _ _ _ _ Hd1 Hpl) as (nf & Hs & Hg).
  assert (forall x, is_Some (pages r !! x) -> pages (index d1) !! x = pages r !! x) as Hfr by apply (dk_frame _ _ _ _ _ _ _ _ Hd1).
  pose proof (written_news _ _ _ _ _ _ Hd1 Hfin Hg) as Hnews. destruct (written_apart _ _ _ _ _ _ Hd1 Hg) as [Hnd Hfresh].
  assert (forall x, x ∈ hb :: ch.*1 ++ (ss ≫= s_blocks) -> is_Some (pages r !! x)) as Hold.
  { intros x [Hx'|Hx']%(elem_of_app (hb :: ch.*1)); [eapply (ilist_blocks (T := SegmentMetaEntry)); [exact Hlist|exact Hx']|].
    by apply (owners_blocks s_blocks (seg_at pk MAX) (seg_at_some pk MAX) _ _ _ _ _ Ho). }
  assert (segments_ok pk MAX (index d1) hb ch ss) as Hss1.
  { split; [|done]. eapply (owners_frame s_blocks (seg_at pk MAX) (seg_at_frame pk MAX)); [exact Ho|apply (dk_rel _ _ _ _ _ _ _ _ Hd1)|].
    intros b Hb%Hold. by apply Hfr. }
  assert (apart (file_for lay nf) nf hb ch ss) as Hap.
  { unfold apart. rewrite app_assoc, app_comm_cons. apply NoDup_app. split; [apply (ow_apart _ _ _ _ _ _ Ho)|]. split; [|done].
    intros b Hb%Hold Hb'%Hfresh. rewrite Hb' in Hb. by destruct Hb. }
  unfold save_metas. apply druns_bind, druns_gets, druns_bind, save_once_kept; [by eapply holds_bytes_frame|].
  apply druns_bind, save_once_kept; [by eapply holds_bytes_frame|]. destruct new_meta as [|t new_meta]; [done|].
  apply druns_bind, druns_index.
  eapply (save_segments pk pk_ok MAX HMAX component_of_ext from_uuid_string entry_storable frozen_size (file_for lay nf)); try done.
  intros left r' ch' ss' Hss' Hp. apply druns_ret. by eapply HQ.
Qed.

(** ** Reading through a directory *)

Hypothesis ext_no_dot : forall c, no_dot (component_ext c).
Hypothesis ext_parses : forall c, component_of_ext (component_ext c) = Some c.
Hypothesis uuid_no_dot : forall id, no_dot (uuid_string id).
Hypothesis uuid_parses : forall id, from_uuid_string (uuid_string id) = Some id.

Definition open_and_read (p : string) (start stop : nat) : M Dir unit (list Z) :=
  h ← get_file_handle component_ext from_uuid_string p;
  match h with
  | Some (Component fe) => x ← read_bytes pk MAX fe start stop []; mret x.1
  | _ => panic
  end.

(** The bytes from [start] to [stop], or to the end. *)
Definition part (bytes : list Z) (start stop : nat) : list Z := take (Nat.min stop (length bytes) - start) (drop start bytes).

Lemma file_at_range r f start stop (Q : list Z * LinkedBytes.cache -> rel -> Prop) : rel_ok r -> file_at pk MAX r f ->
  (stop <= length (f_bytes f))%nat -> (forall c, Q (take (stop - start) (drop start (f_bytes f)), c) r) ->
  runs (LinkedBytes.get_bytes_range pk MAX (f_start f) start stop []) r Q.
Proof.
  intros Hr Hf Hle HQ. destruct (file_at_ok pk MAX r f Hr Hf) as (r0 & st & bl & init & b & dd & blch & Hok & Eb & _ & _).
  rewrite Eb in *. eapply (get_bytes_range_spec pk MAX HMAX Hok); [constructor|done|]. intros c _. apply HQ.
Qed.

Lemma open_and_read_spec d e c fe k f start stop (Q : list Z -> Dir -> Prop) : rel_ok (index d) ->
  let p := path component_ext (uuid_string (segment_id e)) k in
  readers d !! p = None -> all_entries d !! segment_id e = Some e -> SegmentMeta.content e = Immutable c ->
  (fe, k) ∈ file_entries c -> file_at pk MAX (index d) f -> f_start f = starting_block fe -> total_bytes fe = Z.of_nat (length (f_bytes f)) ->
  (forall d', Q (part (f_bytes f) start stop) d') -> druns (open_and_read p start stop) d Q.
Proof.
  intros Hr p Hrd Hall Hc Hin Hf Hst Hlen HQ. unfold open_and_read. apply druns_bind.
  assert (file_entry component_ext from_uuid_string p d = Ok (Component fe)) as Ef.
  { unfold file_entry. destruct (split_path component_ext uuid_string ext_no_dot uuid_no_dot (segment_id e) k) as (mid & E & _).
    fold p in E. rewrite E. cbn [head from_option id]. rewrite uuid_parses, Hall, Hc.
    unfold p. by rewrite (path_file_entry component_ext component_of_ext uuid_string ext_no_dot ext_parses uuid_no_dot c (segment_id e) fe k Hin). }
  unfold get_file_handle, druns at 1, mwp. rewrite Hrd, Ef. apply druns_bind. unfold read_bytes. apply druns_index. cbn [set_readers index].
  rewrite <- Hst, Hlen, Nat2Z.id. apply file_at_range; [done|done|lia|]. intros c'. apply druns_ret. apply HQ.
Qed.

Lemma dir_load_spec r hb ch ss cleanup rows garbage (Q : list InnerSegmentMeta -> Dir -> Prop) : segments_ok pk MAX r hb ch ss ->
  Forall (fun s => has_files (s_entry s)) ss ->
  (let es := filter (fun e => visible e = true) (s_entry <$> ss) in
   forall metas d, index d = r -> readers d = ∅ -> all_entries d = list_to_map ((fun e => (segment_id e, e)) <$> reverse es) ->
     pin_cushion d = Some (list_to_set (omap pintest_blockno es)) -> Q metas d) ->
  druns (load_metas cleanup rows Snapshot hb garbage) (with_mvcc_style r) Q.
Proof.
  intros [Ho Hi] Hf HQ. destruct (ow_list _ _ _ _ _ _ Ho) as [rb Hl]. unfold load_metas. apply druns_bind, druns_gets. cbn [loaded_metas with_mvcc_style].
  apply druns_bind, druns_index. eapply load_metas_snapshot; [exact Hl|rewrite Hi; by apply Forall_fmap|]. intros s Es Ep. rewrite Hi in Es.
  apply druns_bind, druns_modify, druns_ret. apply HQ; cbn; [done|done|by rewrite Es|by rewrite Ep, Es].
Qed.

Lemma loaded_entry (es : list SegmentMetaEntry) e : NoDup (segment_id <$> es) -> e ∈ es ->
  (list_to_map ((fun e => (segment_id e, e)) <$> reverse es) : gmap Z SegmentMetaEntry) !! segment_id e = Some e.
Proof.
  intros Hnd Hin. apply elem_of_list_to_map_1.
  - rewrite <- list_fmap_compose. change (NoDup (segment_id <$> reverse es)). by rewrite (reverse_Permutation es).
  - apply list_elem_of_fmap. exists e. split; [done|]. by rewrite elem_of_reverse.
Qed.

(** The file of a segment's component, and what its entry says of it. *)
Lemma seg_file_at r s c fe k : seg_at pk MAX r s -> SegmentMeta.content (s_entry s) = Immutable c -> segment_id (s_entry s) <> 0 ->
  (fe, k) ∈ file_entries c -> exists f, f ∈ s_files s /\ f_start f = starting_block fe /\ file_at pk MAX r f.
Proof.
  intros Hs Hc Hz Hin. unfold seg_at in Hs. rewrite Hc in Hs. destruct Hs as (Hst & Hf & _). unfold own_starts in Hst.
  assert (is_orphaned_delete (s_entry s) = false) as Ho by (by apply Z.eqb_neq). rewrite Ho in Hst.
  assert (starting_block fe ∈ (fun p => starting_block p.1) <$> file_entries c) as Hx by (apply list_elem_of_fmap; by exists (fe, k)).
  rewrite Hst in Hx. apply list_elem_of_fmap in Hx as (f & E & Hfin). exists f. rewrite Forall_forall in Hf. auto.
Qed.

(** ** The segments of a commit *)

Lemma created_file_entries id sg (files : files_of) c fe k p : SegmentMeta.content (created_entry id sg files) = Immutable c ->
  k <> Store -> files !! k = Some (fe, p) -> (fe, k) ∈ file_entries c.
Proof.
  intros [= <-] Hk Hf. unfold file_entries. cbn [postings positions fast_fields field_norms terms store temp_store delete].
  rewrite !elem_of_app. destruct k; try done; rewrite Hf; cbn; rewrite list_elem_of_singleton; tauto.
Qed.

Lemma created_of_ids incoming nf ids : NoDup ids -> NoDup (segment_id <$> created_of incoming nf ids) /\
  forall id, id ∈ segment_id <$> created_of incoming nf ids -> id ∈ ids.
Proof.
  induction 1 as [|id ids Hni Hnd [IH1 IH2]]; [split; [constructor|done]|]. unfold created_of in *. cbn [omap list_omap].
  destruct (incoming !! id) as [sg|]; cbn [mbind option_bind]; [|split; [done|intros; right; auto]].
  destruct (nf !! id) as [fs|]; cbn [mbind option_bind]; [|split; [done|intros; right; auto]]. rewrite fmap_cons. cbn [created_entry segment_id new_immutable].
  change (segment_id (created_entry id sg fs)) with id. split.
  - apply NoDup_cons. split; [|done]. intros Hin%IH2. done.
  - intros id' [->|Hin]%elem_of_cons; [left|right; auto].
Qed.

(** No two visible segments have the same id. *)
Definition ids_distinct (es : list SegmentMetaEntry) : Prop := NoDup (segment_id <$> filter (fun e => visible e = true) es).

Lemma ids_distinct_saved new_meta prev_meta nf es : ids_distinct es ->
  (forall e, e ∈ es -> segment_id e ∉ created_ids new_meta prev_meta) -> ids_distinct (saved new_meta prev_meta nf es).
Proof.
  unfold ids_distinct. intros Hd Hn. rewrite saved_visible, fmap_app. set (del := deleted_ids new_meta prev_meta).
  assert (segment_id <$> (changed (incoming_segments new_meta) nf del (modified_ids nf new_meta prev_meta) <$> filter (fun e => visible e = true /\ segment_id e ∉ del) es) =
    segment_id <$> filter (fun e => visible e = true /\ segment_id e ∉ del) es) as ->.
  { rewrite <- list_fmap_compose. apply list_fmap_ext. intros i e _. apply changed_id. }
  destruct (created_of_ids (incoming_segments new_meta) nf (created_ids new_meta prev_meta)) as [Hc1 Hc2]; [apply NoDup_elements|].
  apply NoDup_app. split; [|split; [|done]].
  - eapply sublist_NoDup; [exact Hd|]. apply fmap_sublist. clear. induction es as [|e es IH]; [constructor|]. rewrite !filter_cons.
    repeat case_decide; try constructor; try done; tauto.
  - intros id (e & -> & [_ He]%list_elem_of_filter)%list_elem_of_fmap Hin. by eapply Hn; [|apply Hc2].
Qed.

(** Every segment that gets a file gets one that is not a store file. *)
Definition has_more_than_store (new_meta prev_meta : list TantivySegment) (m : gmap string (bool * list Z)) : Prop :=
  forall p st id, m !! p = Some st -> path_segment_id from_uuid_string p = Some id -> id ∈ created_ids new_meta prev_meta ->
  exists q st' k, m !! q = Some st' /\ path_segment_id from_uuid_string q = Some id /\ path_component_type component_of_ext q = Some k /\ k <> Store.

Lemma new_file_path r0 d ws m lay p st : dir_ok pk MAX component_of_ext r0 d ws m lay -> m !! p = Some st -> exists fe, (p, fe) ∈ new_file_entries d.
Proof.
  intros Hd Hm. destruct (dk_file _ _ _ _ _ _ _ _ Hd p st Hm) as [j Hs]. assert (exists x, new_files d !! p = Some (x, j)) as [x Hx].
  { unfold file_state in Hs. case_decide; [destruct Hs as (_ & ? & _)|destruct Hs as (? & _ & ? & _)]; by eexists. }
  eexists. unfold new_file_entries. apply list_elem_of_fmap. exists (p, (x, j)). split; [reflexivity|]. by apply elem_of_map_to_list.
Qed.

Lemma has_files_saved tx new_meta prev_meta dirs nf m r d ws lay ss : dir_ok pk MAX component_of_ext r d ws m lay ->
  save_ok component_of_ext from_uuid_string tx new_meta prev_meta dirs nf (s_entry <$> ss) ->
  grouped component_of_ext from_uuid_string (new_file_entries d) nf -> has_more_than_store new_meta prev_meta m ->
  Forall has_files (s_entry <$> ss) -> Forall has_files (saved new_meta prev_meta nf (s_entry <$> ss)).
Proof.
  intros Hd Hs (Hg1 & Hg2 & Hg3) Hm Hf. unfold saved. set (es := s_entry <$> ss) in *. rewrite Forall_forall in Hf.
  assert (forall c, delete c <> None -> file_entries c <> []) as Hne.
  { intros c Hc. rewrite file_entries_base. destruct (delete c); [|done]. intros [_ ?]%app_eq_nil. done. }
  assert (forall e c, SegmentMeta.content e = Immutable c -> delete c <> None -> has_files e) as Hdel.
  { intros e c Hc Hd'. unfold has_files, pintest_blockno. rewrite Hc. destruct (file_entries c) as [|[? ?] ?] eqn:E; [by apply Hne in E|by eexists]. }
  rewrite !Forall_app. split; [|split].
  - apply Forall_fmap, Forall_forall. intros e He. specialize (Hf e He). unfold compose, changed. case_decide; [exact Hf|]. case_decide; [|done].
    unfold replacement. destruct (new_delete (incoming_segments new_meta) nf (segment_id e)) as [dl|]; [|done]. cbn [mbind option_bind]. unfold replace_deletes.
    destruct (SegmentMeta.content e) as [c|c] eqn:Hc; [|done]. cbn [from_option snd]. by eapply Hdel.
  - apply Forall_forall. intros e (id & Hid & E)%list_elem_of_omap. destruct (incoming_segments new_meta !! id) as [sg|]; [|done]. cbn [mbind option_bind] in E.
    destruct (nf !! id) as [files|] eqn:Hfs; [|done]. cbn [mbind option_bind] in E. injection E as <-.
    assert (exists k f, k <> Store /\ files !! k = Some f) as (k & [fe p] & Hk & Hfe).
    { destruct (map_choose_or_empty files) as [(k & [fe p] & Hkf)|Hem].
      - destruct (Hg1 _ _ _ _ _ Hfs Hkf) as (Hin & Hpi & _). destruct (new_file_paths _ _ _ _ _ _ _ Hd Hin) as [st Hst].
        destruct (Hm _ _ _ Hst Hpi Hid) as (q & st' & k' & Hq & Hqi & Hqk & Hk'). exists k'.
        destruct (new_file_path _ _ _ _ _ _ _ Hd Hq) as [fe' Hin']. destruct (Hg2 _ _ _ _ Hin' Hqi Hqk) as [x Hx]. rewrite Hfs in Hx. by exists x.
      - subst files. by destruct (Hg3 id Hfs). }
    unfold has_files, pintest_blockno. destruct (SegmentMeta.content (created_entry id sg files)) as [c|c] eqn:Hc; [|done].
    pose proof (created_file_entries id sg files c fe k p Hc Hk Hfe) as Hin. destruct (file_entries c) as [|[? ?] ?]; [by apply elem_of_nil in Hin|by eexists].
  - apply Forall_forall. intros o (e & He & Ho)%list_elem_of_omap. unfold orphan in Ho. case_decide; [|done]. unfold replacement in Ho.
    destruct (new_delete (incoming_segments new_meta) nf (segment_id e)) as [dl|]; [|done]. cbn [mbind option_bind] in Ho. unfold replace_deletes in Ho.
    destruct (SegmentMeta.content e) as [c|c] eqn:Hc; [|done]. cbn [mbind option_bind fst] in Ho. destruct (delete c) eqn:Hdc; [|done]. injection Ho as <-.
    eapply Hdel; [done|congruence].
Qed.

(** What a commit assumes: the index is in order, its schema and settings have been written,
    tantivy has finished its files and asks for nothing impossible, and the ids of the
    new segments are new. *)
Record commit_ok r hb ch ss (l : list dop) m tx xid new_meta prev_meta sb stb : Prop := {
  co_segments : segments_ok pk MAX r hb ch ss;
  co_files : Forall (fun s => has_files (s_entry s)) ss;
  co_distinct : ids_distinct (s_entry <$> ss);
  co_ops : spec_dops l ∅ = Some m;
  co_finished : finished m;
  co_planned : planned tx new_meta prev_meta m (s_entry <$> ss);
  co_nonzero : ids_nonzero new_meta prev_meta;
  co_new : new_meta <> [];
  co_xid : normal_xid xid;
  co_schema : holds_bytes r sb;
  co_settings : holds_bytes r stb;
  co_fresh : forall s, s ∈ ss -> segment_id (s_entry s) ∉ created_ids new_meta prev_meta;
  co_more : has_more_than_store new_meta prev_meta m;
}.

Lemma commit_ok_files r hb ch ss l m tx xid new_meta prev_meta sb stb d1 ws lay nf ss' :
  commit_ok r hb ch ss l m tx xid new_meta prev_meta sb stb -> dir_ok pk MAX component_of_ext r d1 ws m lay ->
  save_ok component_of_ext from_uuid_string tx new_meta prev_meta (new_file_entries d1) nf (s_entry <$> ss) ->
  grouped component_of_ext from_uuid_string (new_file_entries d1) nf ->
  ss' ≡ₚ segs_saved (file_for lay nf) new_meta prev_meta nf ss ->
  Forall (fun s => has_files (s_entry s)) ss' /\ ids_distinct (s_entry <$> ss').
Proof.
  intros Hco Hd1 Hs Hg Hp. pose proof (segs_saved_entries (file_for lay nf) new_meta prev_meta nf ss) as Ese. split.
  - apply (Forall_fmap s_entry has_files). rewrite Hp, Ese. eapply has_files_saved; try done; [apply (co_more _ _ _ _ _ _ _ _ _ _ _ _ Hco)|].
    apply Forall_fmap, (co_files _ _ _ _ _ _ _ _ _ _ _ _ Hco).
  - unfold ids_distinct. rewrite Hp, Ese. apply ids_distinct_saved; [apply (co_distinct _ _ _ _ _ _ _ _ _ _ _ _ Hco)|].
    intros e (s & -> & Hin)%list_elem_of_fmap. by apply (co_fresh _ _ _ _ _ _ _ _ _ _ _ _ Hco).
Qed.

(** C12: What tantivy writes to the files of a new segment, through writers that are used in
    any interleaving, is what a reader that opens the index after the commit gets: under the
    path of each of its components but the document store, by any range of bytes.  What is
    written to the store is discarded by its writer. *)
Theorem committed_files_read_back r hb ch ss l m tx xid schema settings new_meta prev_meta sb stb cleanup rows garbage id k bytes start stop :
  commit_ok r hb ch ss l m tx xid new_meta prev_meta sb stb ->
  id ∈ created_ids new_meta prev_meta -> k <> Store ->
  (forall q st k', m !! q = Some st -> path_segment_id from_uuid_string q = Some id -> path_component_type component_of_ext q = Some k' ->
     q = path component_ext (uuid_string id) k') ->
  m !! path component_ext (uuid_string id) k = Some (false, bytes) ->
  druns (commit_files l tx xid schema settings new_meta prev_meta sb stb hb) (with_mvcc_style r) (fun _ d =>
    druns (_ ← load_metas cleanup rows Snapshot hb garbage; open_and_read (path component_ext (uuid_string id) k) start stop)
      (with_mvcc_style (index d)) (fun read _ => read = part bytes start stop)).
Proof.
  intros Hco Hid Hk Hcan Hm. pose proof Hco as [Hss Hf Hdi Hl Hfin Hpl Hnz Hne Hx Hsb Hstb Hfr Hmo].
  eapply commit_files_spec; [exact Hss|exact Hl|exact Hfin|exact Hpl|done..|]. intros d d1 ws lay nf ch' ss' Hd1 Hs Hg Hss' Hp.
  destruct (commit_ok_files _ _ _ _ _ _ _ _ _ _ _ _ _ _ _ _ _ Hco Hd1 Hs Hg Hp) as [Hf' Hdi'].
  apply druns_bind. eapply dir_load_spec; [exact Hss'|exact Hf'|]. intros es metas d2 Hd2 Hrd Hall _. subst es.
  set (p := path component_ext (uuid_string id) k) in *.
  destruct (incoming_some new_meta id) as [sg Hsg]; [unfold created_ids in Hid; rewrite elem_of_elements in Hid; set_solver|].
  assert (path_segment_id from_uuid_string p = Some id) as Hpi by (by apply path_segment).
  assert (path_component_type component_of_ext p = Some k) as Hpk by (by apply path_component).
  destruct (new_file_path _ _ _ _ _ _ _ Hd1 Hm) as [fe0 Hin0]. pose proof Hg as (Hg1 & Hg2 & _).
  destruct (Hg2 _ _ _ _ Hin0 Hpi Hpk) as [[fe q] Hq]. destruct (nf !! id) as [files|] eqn:Hfs; [|done]. cbn [mbind option_bind] in Hq.
  assert (q = p) as ->.
  { destruct (Hg1 _ _ _ _ _ Hfs Hq) as (Hinq & Hqi & Hqk). destruct (new_file_paths _ _ _ _ _ _ _ Hd1 Hinq) as [st Hst]. by eapply Hcan. }
  destruct (file_for_ok _ _ _ _ _ _ _ _ _ _ _ Hd1 Hg Hk Hfs Hq) as (st & Hst & _ & Hfe & Hb). rewrite Hm in Hst. injection Hst as <-. cbn [snd] in *.
  destruct (SegmentMeta.content (created_entry id sg files)) as [c|c] eqn:Hc; [|done].
  pose proof (created_file_entries id sg files c fe k p Hc Hk Hq) as Hinf. set (e := created_entry id sg files) in *.
  assert (seg_created (file_for lay nf) new_meta nf id = Some (with_files e (file_for lay nf <$> created_keys new_meta nf id))) as Es.
  { unfold seg_created. rewrite Hsg. cbn [mbind option_bind]. rewrite Hfs. done. }
  set (s := with_files e (file_for lay nf <$> created_keys new_meta nf id)) in *.
  assert (s ∈ ss') as Hsin.
  { rewrite Hp. unfold segs_saved. rewrite !elem_of_app. right. left. apply list_elem_of_omap. by exists id. }
  assert (file_for lay nf (id, k) ∈ s_files s) as Hfin'.
  { cbn [s with_files s_files]. apply list_elem_of_fmap_2. unfold created_keys. rewrite Hsg. cbn [mbind option_bind]. rewrite Hfs. cbn [mbind option_bind].
    fold e. rewrite Hc. apply list_elem_of_fmap_2. by apply (list_elem_of_fmap_2 snd _ (fe, k)). }
  destruct Hss' as [Ho' Hi']. pose proof (ow_at _ _ _ _ _ _ Ho') as Hat. rewrite Forall_forall in Hat. specialize (Hat s Hsin).
  unfold seg_at in Hat. change (s_entry s) with e in Hat. rewrite Hc in Hat. destruct Hat as (_ & Hat & _). rewrite Forall_forall in Hat.
  destruct (ow_list _ _ _ _ _ _ Ho') as [rb Hlist]. subst p. change id with (segment_id e).
  eapply (open_and_read_spec d2 e c fe k (file_for lay nf (id, k))); rewrite ?Hd2, ?Hrd, ?Hall.
  - apply (il_rel _ _ _ _ Hlist).
  - apply lookup_empty.
  - apply loaded_entry; [exact Hdi'|]. apply list_elem_of_filter. split; [done|]. by apply (list_elem_of_fmap_2 s_entry _ s).
  - done.
  - done.
  - by apply Hat.
  - by rewrite Hfe.
  - by rewrite Hfe, Hb.
  - intros _. by rewrite Hb.
Qed.

End commits.

(** ** Example *)

#[local] Existing Instance small_elsewhere.
#[local] Existing Instance SegmentMetaEntry_ItemCodec.
#[local] Existing Instance MutableSegmentEntry_ItemCodec.

(** An index with a schema and one segment. *)
Definition sample_make : M (rel stack_fsm lpage) unit (Z * Z) :=
  sb ← create_file plain_packer 1100 [[1]];
  hb ← LinkedItems.create_with_fsm;
  save_segment plain_packer 1100 live_entry [[1; 2]; [3]] hb;; mret (sb, hb).

Definition sample_index : rel stack_fsm lpage := (sample_make small_rel).2.

Lemma sample_made : sample_make small_rel = (Ok (5, 13), sample_index).
Proof. vm_compute. reflexivity. Qed.

Lemma sample_index_ok : exists ch s, segments_ok plain_packer 1100 sample_index 13 ch [s] /\
  s_entry s = live_entry (default 0 (f_start <$> head (s_files s))) /\ f_bytes <$> s_files s = [[1; 2; 3]].
Proof.
  assert (runs sample_make small_rel (fun x r => exists ch s, segments_ok plain_packer 1100 r x.2 ch [s] /\
    s_entry s = live_entry (default 0 (f_start <$> head (s_files s))) /\ f_bytes <$> s_files s = [[1; 2; 3]])) as Hr;
    [|exact (mwp_ok _ _ _ _ _ _ Hr sample_made)]. unfold sample_make.
  apply runs_bind. apply (create_file_spec plain_packer plain_packer_ok 1100 ltac:(lia)); [exact small_rel_ok|]. intros r sb st bl init b dd blch Hf _.
  apply runs_bind. apply (create_segments_ok plain_packer 1100); [apply (fo_rel _ _ _ _ _ _ _ _ _ _ _ Hf)|]. intros r1 hb ch Hs.
  apply runs_bind. apply (save_segment_spec plain_packer plain_packer_ok 1100 ltac:(lia) live_entry [[1; 2]; [3]] r1 hb ch []);
    [exact Hs|discriminate|apply one_file_segment; left; reflexivity|].
  intros r2 ch2 ss2 s Hs2 Hp E B. apply runs_ret. apply Permutation_singleton_r in Hp as ->. by exists ch2, s.
Qed.

Lemma sample_schema : holds_bytes sample_index 5.
Proof. do 5 eexists. split; [vm_compute; reflexivity|]. split; [vm_compute; reflexivity|]. split; [vm_compute; reflexivity|discriminate]. Qed.

(** A merge of that segment into a new one, with its three files open at the same time. *)
Definition merge_ops : list dop :=
  [OpenWrite "pa.idx"; OpenWrite "pa.store"; Write "pa.idx" [5; 6]; OpenWrite "pa.pos"; Write "pa.pos" (replicate 1500 7);
   Write "pa.store" [9]; Write "pa.idx" [7; 8]; Terminate "pa.store"; Terminate "pa.idx"; Terminate "pa.pos"].
Definition merge_new : list TantivySegment := [mkTantivy 1 4 0].
Definition merge_prev : list TantivySegment := [mkTantivy 11 5 0].
Definition merge_files : gmap string (bool * list Z) :=
  {[ "pa.idx"%string := (false, [5; 6; 7; 8]); "pa.pos"%string := (false, replicate 1500 7); "pa.store"%string := (false, [9]) ]}.

Lemma merge_ops_ok : spec_dops merge_ops ∅ = Some merge_files.
Proof. vm_compute. reflexivity. Qed.

Lemma merge_files_cases p st : merge_files !! p = Some st ->
  p = "pa.idx"%string /\ st = (false, [5; 6; 7; 8]) \/ p = "pa.pos"%string /\ st = (false, replicate 1500 7) \/ p = "pa.store"%string /\ st = (false, [9]).
Proof. unfold merge_files. rewrite !lookup_insert, lookup_singleton. repeat case_decide; intros; simplify_eq; auto. Qed.

Lemma merge_planned x : planned demo_of_ext demo_parse_uuid true merge_new merge_prev merge_files [live_entry x].
Proof.
  split.
  - intros p st [[-> ->]|[[-> ->]|[-> ->]]]%merge_files_cases; split; eexists; vm_compute; reflexivity.
  - intros p st id [[-> ->]|[[-> ->]|[-> ->]]]%merge_files_cases _ Hk; vm_compute in Hk; discriminate Hk.
  - assert (deleted_ids merge_new merge_prev = [11]) as -> by (vm_compute; reflexivity). intros id ->%list_elem_of_singleton.
    exists (live_entry x). split; vm_compute; reflexivity.
  - by left.
Qed.

Lemma merge_finished : finished demo_of_ext merge_files.
Proof. intros p st [[-> ->]|[[-> ->]|[-> ->]]]%merge_files_cases; (split; [done|]); intros _ Hx; discriminate Hx. Qed.

Lemma merge_nonzero : ids_nonzero merge_new merge_prev.
Proof. intros id Hid. unfold ids_of_meta, merge_new, merge_prev in Hid. cbn in Hid. set_solver. Qed.

Lemma committed_files_read_back_witness :
  druns (commit_files plain_packer 1100 demo_of_ext demo_parse_uuid merge_ops true 9 [] [] merge_new merge_prev 5 5 13) (with_mvcc_style sample_index) (fun _ d =>
    druns (_ ← load_metas (fun _ => true) None Snapshot 13 None; open_and_read plain_packer 1100 demo_ext demo_parse_uuid "pa.idx" 1 9)
      (with_mvcc_style (index d)) (fun read _ => read = [6; 7; 8])).
Proof.
  destruct sample_index_ok as (ch & s & Hss & Es & _). destruct demo_names as (N1 & N2 & N3 & N4).
  change "pa.idx"%string with (path demo_ext (demo_uuid 1) Postings). change [6; 7; 8] with (part [5; 6; 7; 8] 1 9).
  apply (committed_files_read_back plain_packer plain_packer_ok 1100 ltac:(lia) demo_ext demo_of_ext demo_uuid demo_parse_uuid small_storable (fun e _ => eq_refl)
    N1 N2 N3 N4 sample_index 13 ch [s] merge_ops merge_files true 9 [] [] merge_new merge_prev 5 5 (fun _ => true) None None 1 Postings).
  - split.
    + exact Hss.
    + constructor; [rewrite Es; by eexists|constructor].
    + unfold ids_distinct. cbn [fmap list_fmap]. rewrite Es. apply NoDup_singleton.
    + exact merge_ops_ok.
    + exact merge_finished.
    + cbn [fmap list_fmap]. rewrite Es. apply merge_planned.
    + exact merge_nonzero.
    + discriminate.
    + unfold normal_xid, FirstNormalTransactionId. lia.
    + exact sample_schema.
    + exact sample_schema.
    + intros s' ->%list_elem_of_singleton. rewrite Es. apply (bool_decide_unpack _). vm_compute. exact I.
    + intros p st id Hp Hid _. exists "pa.idx"%string, (false, [5; 6; 7; 8]), Postings. split; [vm_compute; reflexivity|].
      split; [|split; [vm_compute; reflexivity|discriminate]]. rewrite <- Hid. by apply merge_files_cases in Hp as [[-> ->]|[[-> ->]|[-> ->]]].
  - apply (bool_decide_unpack _). vm_compute. exact I.
  - discriminate.
  - intros q st k' Hq _ Hk. apply merge_files_cases in Hq as [[-> ->]|[[-> ->]|[-> ->]]]; vm_compute in Hk; injection Hk as <-; reflexivity.
  - vm_compute. reflexivity.
Defined.
