(* ===== verification/Readers.v ===== *)
(** * Readers and concurrent changes of the index

    A reader loads the list of segments once and pins a block of each segment it sees.
    Meanwhile other backends commit, merge and vacuum, and collect garbage.  The reader's
    files stay where they are. *)

From stdpp Require Import prelude gmap sets strings relations.
From Stdlib Require Import ZArith Lia.
From S2P Require Import Prelude SegmentMeta SegmentMetaProps MergePolicy Pages BlockList BlockListProps LinkedBytes LinkedBytesProps LinkedItems LinkedItemsProps ItemOwners MergeDriver GarbageProps Metas MetasProps MetasOwners Directory DirectoryProps Commits.
From stdpp Require Import list.
Import SegmentMeta Metas Directory.

Local Open Scope Z_scope.

Section readers.
Variable pk : BlockList.width -> BlockList.packer.
Hypothesis pk_ok : forall w, packer_ok w (pk w).
Variable MAX : Z.
Hypothesis HMAX : 1030 <= MAX.
Variables (component_ext : SegmentComponent -> string) (component_of_ext : string -> option SegmentComponent).
Variables (uuid_string : Z -> string) (from_uuid_string : string -> option Z).
Hypothesis ext_no_dot : forall c, no_dot (component_ext c).
Hypothesis ext_parses : forall c, component_of_ext (component_ext c) = Some c.
Hypothesis uuid_no_dot : forall id, no_dot (uuid_string id).
Hypothesis uuid_parses : forall id, from_uuid_string (uuid_string id) = Some id.
Context `{ItemCodec SegmentMetaEntry} `{ItemCodec MutableSegmentEntry} `{ItemOverwrite}.
Hypothesis entry_storable : forall e : SegmentMetaEntry, storable (into_item e).
Hypothesis frozen_size : forall e, xmax e = InvalidTransactionId ->
  length (into_item (set_xmax FrozenTransactionId e)) = length (into_item e).
Context {F : Type} `{FreeSpaceManager F} {Els : Elsewhere}.

Abbreviation rel := (rel F lpage).
Implicit Types (r : rel) (ch : list (Z * list SegmentMetaEntry)) (s : segment) (P : gset Z).

(** ** What happens meanwhile *)

(** A segment that gets a new delete file has other files. *)
Definition has_base (e : SegmentMetaEntry) : Prop :=
  match SegmentMeta.content e with Immutable c => base_entries c <> [] | Mutable _ => True end.

(** The steps of other backends while the blocks [P] are pinned: a commit, merge or vacuum
    that is saved, and a garbage collection, which gets no cleanup lock on a pinned block. *)
Inductive step (hb : Z) P : rel -> rel -> Prop :=
| step_commit r es l m tx xid schema settings new_meta prev_meta sb stb d :
    LinkedItems.list hb r = (Ok es, r) -> spec_dops l ∅ = Some m -> finished component_of_ext m ->
    planned component_of_ext from_uuid_string tx new_meta prev_meta m es -> Forall has_base es ->
    ids_nonzero new_meta prev_meta -> new_meta <> [] -> normal_xid xid -> holds_bytes r sb -> holds_bytes r stb ->
    commit_files pk MAX component_of_ext from_uuid_string l tx xid schema settings new_meta prev_meta sb stb hb (with_mvcc_style r) = (Ok tt, d) ->
    step hb P r (index d)
| step_collect r es cleanup current_xid next_xid commit_xid r' :
    (forall b, b ∈ P -> cleanup b = false) ->
    LinkedItems.list hb r = (Ok es, r) -> Forall (fun e => MergeDriver.testable cleanup e = true) es ->
    normal_xid current_xid -> normal_xid next_xid -> normal_xid commit_xid ->
    MergeDriver.garbage_collect_index pk cleanup current_xid next_xid commit_xid hb r = (Ok tt, r') ->
    step hb P r r'.

(** ** What stays *)

(** [f] belongs to a segment whose test block is pinned. *)
Definition held P (f : file) (ss : list segment) : Prop := exists s c b, s ∈ ss /\ f ∈ s_files s /\
  SegmentMeta.content (s_entry s) = Immutable c /\ pintest_blockno (s_entry s) = Some b /\ b ∈ P /\ b <> InvalidBlockNumber.

Lemma held_perm P f ss ss' : ss ≡ₚ ss' -> held P f ss -> held P f ss'.
Proof. intros Hp (s & c & b & Hin & Hx). exists s, c, b. by rewrite <- Hp. Qed.

Lemma listed r hb ch ss es : segments_ok pk MAX r hb ch ss -> LinkedItems.list hb r = (Ok es, r) -> es = s_entry <$> ss.
Proof.
  intros [Ho Hi] E. destruct (ow_list _ _ _ _ _ _ Ho) as [r0 Hl]. rewrite <- Hi.
  exact (mwp_ok _ _ _ _ _ (fun es _ => es = items ch) (list_spec r0 r hb ch (fun es _ => es = items ch) Hl eq_refl) E).
Qed.

Lemma held_live P f ss cleanup : (forall b, b ∈ P -> cleanup b = false) -> held P f ss -> held P f (live cleanup ss).
Proof.
  intros Hc (s & c & b & Hin & Hf & Hct & Hb & HbP & Hne). exists s, c, b. split; [|done]. apply list_elem_of_filter. split; [|done].
  unfold MergeDriver.goes, recyclable. rewrite Hb, (Hc b HbP), (proj2 (Z.eqb_neq _ _) Hne). by destruct (is_deleted (s_entry s)).
Qed.

(** The test block of an entry with other files does not depend on the delete file. *)
Lemma pintest_base e c : SegmentMeta.content e = Immutable c -> base_entries c <> [] ->
  pintest_blockno e = (fun x => starting_block x.1) <$> head (base_entries c).
Proof.
  intros Hc Hne. unfold pintest_blockno. rewrite Hc, file_entries_base. destruct (base_entries c) as [|[fe k] l]; [done|]. done.
Qed.

(** A commit leaves the files of a segment with the segment, or moves an old delete file to
    an entry with the same test block. *)
Lemma held_saved newfile tx new_meta prev_meta dirs nf r ss P f :
  save_ok component_of_ext from_uuid_string tx new_meta prev_meta dirs nf (s_entry <$> ss) -> ids_nonzero new_meta prev_meta ->
  Forall has_base (s_entry <$> ss) -> Forall (seg_at pk MAX r) ss -> held P f ss -> held P f (segs_saved newfile new_meta prev_meta nf ss).
Proof.
  intros Hs Hz Hb Hat (s & c & b & Hin & Hf & Hc & Hpt & HbP & Hne). rewrite Forall_forall in Hat. specialize (Hat s Hin).
  rewrite Forall_forall in Hb. specialize (Hb (s_entry s) ltac:(by apply list_elem_of_fmap_2)). unfold has_base in Hb. rewrite Hc in Hb.
  unfold segs_saved. set (del := deleted_ids new_meta prev_meta). set (md := modified_ids nf new_meta prev_meta).
  assert (forall s', s' ∈ (seg_changed newfile new_meta prev_meta nf <$> ss) ++ omap (seg_created newfile new_meta nf) (created_ids new_meta prev_meta) ++ omap (seg_orphan new_meta prev_meta nf) ss ->
    f ∈ s_files s' -> (exists c', SegmentMeta.content (s_entry s') = Immutable c' /\ base_entries c' = base_entries c) ->
    held P f ((seg_changed newfile new_meta prev_meta nf <$> ss) ++ omap (seg_created newfile new_meta nf) (created_ids new_meta prev_meta) ++ omap (seg_orphan new_meta prev_meta nf) ss)) as Hdone.
  { intros s' Hs' Hf' (c' & Hc' & Eb). exists s', c', b. do 3 (split; [done|]). split; [|done].
    rewrite <- Hpt, (pintest_base _ c' Hc'), (pintest_base _ c Hc), Eb by (rewrite ?Eb; done). done. }
  destruct (decide (segment_id (s_entry s) ∈ md)) as [Hmd|Hmd].
  - assert (segment_id (s_entry s) ∉ del) as Hnd by (by apply (modified_not_deleted nf)).
    destruct (proj1 (modified_ids_elem _ _ _ _) Hmd) as ([[fe p] Hd] & _ & Hnew). destruct (incoming_some new_meta _ Hnew) as [sg Hsg].
    assert (replacement (incoming_segments new_meta) nf (s_entry s) = replace_deletes (mkDelete fe (t_num_deleted_docs sg)) (s_entry s)) as Er.
    { unfold replacement, new_delete. destruct (nf !! segment_id (s_entry s)) as [files|]; [|done]. cbn [mbind option_bind] in *. rewrite Hd. cbn [mbind option_bind]. by rewrite Hsg. }
    unfold replace_deletes in Er. rewrite Hc in Er. rewrite <- (take_drop (base_count (s_entry s)) (s_files s)) in Hf. apply elem_of_app in Hf as [Hf|Hf].
    + apply (Hdone (seg_changed newfile new_meta prev_meta nf s)); [apply elem_of_app; left; by apply list_elem_of_fmap_2| |];
        unfold seg_changed; fold del md; rewrite decide_False, decide_True by done; cbn [with_files s_files s_entry].
      * apply elem_of_app. by left.
      * unfold changed. rewrite decide_False, decide_True by done. rewrite Er. cbn [from_option snd SegmentMeta.content]. by eexists.
    + assert (exists od, delete c = Some od) as [od Hod].
      { unfold seg_at in Hat. rewrite Hc in Hat. destruct Hat as (Hst & _). unfold own_starts in Hst.
        assert (is_orphaned_delete (s_entry s) = false) as Ho by (apply Z.eqb_neq, Hz; set_solver). rewrite Ho, file_entries_base in Hst.
        destruct (delete c) as [od|]; [by eexists|]. cbn [fmap option_fmap option_map option_list] in Hst. rewrite app_nil_r in Hst.
        apply (f_equal length) in Hst. rewrite !length_fmap in Hst. unfold base_count in Hf. rewrite Hc, drop_ge in Hf by lia. by apply elem_of_nil in Hf. }
      rewrite Hod in Er. eapply (Hdone (with_files (new_immutable 0 (max_doc (s_entry s)) FrozenTransactionId c) (drop (base_count (s_entry s)) (s_files s)))).
      * apply elem_of_app; right; apply elem_of_app; right. apply list_elem_of_omap. exists s. split; [done|]. unfold seg_orphan, orphan. fold md.
        rewrite decide_True by done. by rewrite Er.
      * exact Hf.
      * by exists c.
  - apply (Hdone (seg_changed newfile new_meta prev_meta nf s)); [apply elem_of_app; left; by apply list_elem_of_fmap_2| |];
      unfold seg_changed; fold del md; case_decide; rewrite ?(decide_False (P := segment_id (s_entry s) ∈ md)) by done; try done; [|by exists c].
    exists c. split; [|done]. unfold changed. by rewrite decide_True.
Qed.

(** ** The history *)

Definition kept (hb : Z) P (f : file) r : Prop := exists ch ss, segments_ok pk MAX r hb ch ss /\ held P f ss.

Lemma kept_step hb P f r r' : step hb P r r' -> kept hb P f r -> kept hb P f r'.
Proof.
  intros Hstep (ch & ss & Hss & Hh). destruct Hstep as [r es l m tx xid schema settings new_meta prev_meta sb stb d El Hl Hfin Hpl Hb Hz Hne Hx Hsb Hstb Hrun
    |r es cleanup cx nx xid r' Hc El Ht Hcx Hnx Hx Hrun]; pose proof (listed _ _ _ _ _ Hss El) as ->.
  - refine (mwp_ok _ _ _ _ _ (fun _ d => kept hb P f (index d)) _ Hrun).
    eapply (commit_files_spec pk pk_ok MAX HMAX component_of_ext from_uuid_string entry_storable frozen_size); [exact Hss|exact Hl|exact Hfin|exact Hpl|done..|].
    intros d' d1 ws lay nf ch' ss' Hd1 Hs Hg Hss' Hp. exists ch', ss'. split; [done|]. eapply held_perm; [symmetry; exact Hp|].
    eapply held_saved; [exact Hs|done|done|apply (ow_at _ _ _ _ _ _ (proj1 Hss))|done].
  - refine (mwp_ok _ _ _ _ _ (fun _ r' => kept hb P f r') _ Hrun). apply Forall_fmap in Ht.
    eapply mwp_mono; [by eapply (garbage_collected pk pk_ok MAX HMAX)|]. intros [] r1 (ch' & Hss' & _).
    exists ch', (live cleanup ss). split; [done|]. by apply held_live.
Qed.

Lemma kept_steps hb P f r r' : rtc (step hb P) r r' -> kept hb P f r -> kept hb P f r'.
Proof. induction 1 as [|r r1 r' Hs _ IH]; [done|]. intros Hk. by eapply IH, kept_step. Qed.

(** The files of a visible segment are held by whoever has loaded it. *)
Lemma loaded_held hb r ch ss s c f : segments_ok pk MAX r hb ch ss -> s ∈ ss -> visible (s_entry s) = true -> segment_id (s_entry s) <> 0 ->
  SegmentMeta.content (s_entry s) = Immutable c -> f ∈ s_files s ->
  held (list_to_set (omap pintest_blockno (filter (fun e => visible e = true) (s_entry <$> ss)))) f ss.
Proof.
  intros [Ho Hi] Hin Hv Hz Hc Hf. pose proof (ow_at _ _ _ _ _ _ Ho) as Hat. rewrite Forall_forall in Hat. specialize (Hat s Hin).
  destruct (ow_list _ _ _ _ _ _ Ho) as [r0 Hl].
  destruct (file_entries c) as [|[fe k] rest] eqn:Ef.
  { unfold seg_at in Hat. rewrite Hc in Hat. destruct Hat as (Hst & _). unfold own_starts in Hst.
    assert (is_orphaned_delete (s_entry s) = false) as Hor by (by apply Z.eqb_neq). rewrite Hor, Ef in Hst.
    destruct (s_files s); [by apply elem_of_nil in Hf|done]. }
  assert (pintest_blockno (s_entry s) = Some (starting_block fe)) as Hpt by (unfold pintest_blockno; by rewrite Hc, Ef).
  exists s, c, (starting_block fe). do 4 (split; [done|]). split.
  - apply elem_of_list_to_set, list_elem_of_omap. exists (s_entry s). split; [|done]. apply list_elem_of_filter. split; [done|]. by apply list_elem_of_fmap_2.
  - destruct (seg_file_at pk MAX r s c fe k Hat Hc Hz) as (f0 & _ & Hst & Hfa); [rewrite Ef; left|].
    rewrite <- Hst. destruct (file_at_ok pk MAX r f0 (il_rel _ _ _ _ Hl) Hfa) as (r1 & st & bl & init & b & dd & blch & Hok & _).
    destruct (rel_ok_valid _ _ _ (il_rel _ _ _ _ Hl) (fo_header _ _ _ _ _ _ _ _ _ _ _ Hok)). done.
Qed.

(** C29: A reader keeps its files.  After a backend has loaded the segments that are visible
    to it, and whatever commits, merges, vacuums and garbage collections others complete
    meanwhile, every file of every one of these segments opens under its path and reads, by
    any range, as it did when the segments were loaded, though the segments may be deleted,
    have other delete files, and the list be rewritten many times. *)
Theorem readers_keep_their_files r hb ch ss cleanup rows garbage : segments_ok pk MAX r hb ch ss ->
  Forall (fun s => has_files (s_entry s)) ss -> ids_distinct (s_entry <$> ss) ->
  druns (load_metas cleanup rows Snapshot hb garbage) (with_mvcc_style r) (fun _ d =>
    forall P r' s c fe k f start stop, pin_cushion d = Some P -> rtc (step hb P) r r' ->
      s ∈ ss -> visible (s_entry s) = true -> segment_id (s_entry s) <> 0 -> SegmentMeta.content (s_entry s) = Immutable c ->
      (fe, k) ∈ file_entries c -> f ∈ s_files s -> f_start f = starting_block fe -> total_bytes fe = Z.of_nat (length (f_bytes f)) ->
      druns (open_and_read pk MAX component_ext from_uuid_string (path component_ext (uuid_string (segment_id (s_entry s))) k) start stop)
        (set_index r' d) (fun read _ => read = part (f_bytes f) start stop)).
Proof.
  intros Hss Hf Hdi. eapply (dir_load_spec pk MAX); [exact Hss|exact Hf|]. intros es metas d Hd Hrd Hall Hpin P r' s c fe k f start stop HP Hsteps Hin Hv Hz Hc Hfe Hfs Hst Hlen.
  rewrite Hpin in HP. injection HP as <-. subst es.
  destruct (kept_steps _ _ f _ _ Hsteps) as (ch' & ss' & [Ho' _] & s' & c' & b & Hin' & Hf' & Hc' & _).
  { exists ch, ss. split; [done|]. by eapply loaded_held. }
  pose proof (ow_at _ _ _ _ _ _ Ho') as Hat. rewrite Forall_forall in Hat. specialize (Hat s' Hin'). unfold seg_at in Hat. rewrite Hc' in Hat.
  destruct Hat as (_ & Hat & _). rewrite Forall_forall in Hat. destruct (ow_list _ _ _ _ _ _ Ho') as [r0 Hl].
  eapply (open_and_read_spec pk MAX HMAX component_ext component_of_ext uuid_string from_uuid_string ext_no_dot ext_parses uuid_no_dot uuid_parses _ (s_entry s) c fe k f);
    cbn [set_index index readers all_entries]; try done.
  - apply (il_rel _ _ _ _ Hl).
  - by rewrite Hrd, lookup_empty.
  - rewrite Hall. apply loaded_entry; [exact Hdi|]. apply list_elem_of_filter. split; [done|]. by apply list_elem_of_fmap_2.
  - by apply Hat.
Qed.

End readers.

(** ** Example *)

#[local] Existing Instance small_elsewhere.
#[local] Existing Instance SegmentMetaEntry_ItemCodec.
#[local] Existing Instance MutableSegmentEntry_ItemCodec.

(** A reader loads the one segment; another backend merges it away and collects garbage. *)
Definition reading : MVCCDirectory stack_fsm := (load_metas (fun _ => true) None Snapshot 13 None (with_mvcc_style sample_index)).2.
Definition pinned : gset Z := default ∅ (pin_cushion reading).
Definition not_pinned (b : Z) : bool := negb (bool_decide (b ∈ pinned)).

Definition merging : MVCCDirectory stack_fsm :=
  (commit_files plain_packer 1100 demo_of_ext demo_parse_uuid merge_ops true 9 [] [] merge_new merge_prev 5 5 13 (with_mvcc_style sample_index)).2.
Definition collected : rel stack_fsm lpage := (MergeDriver.garbage_collect_index plain_packer not_pinned 9 9 9 13 (index merging)).2.

Lemma reading_ok : exists metas, load_metas (fun _ => true) None Snapshot 13 None (with_mvcc_style sample_index) = (Ok metas, reading) /\
  pin_cushion reading = Some pinned.
Proof. eexists. split; vm_compute; reflexivity. Qed.

Definition entries_in (r : rel stack_fsm lpage) : list SegmentMetaEntry :=
  match (LinkedItems.list (T := SegmentMetaEntry) 13 r).1 with Ok es => es | _ => [] end.

Lemma merge_step : step plain_packer 1100 demo_of_ext demo_parse_uuid 13 pinned sample_index (index merging).
Proof.
  apply (step_commit _ _ _ _ _ _ _ (entries_in sample_index) merge_ops merge_files true 9 [] [] merge_new merge_prev 5 5 merging).
  - vm_compute. reflexivity.
  - exact merge_ops_ok.
  - exact merge_finished.
  - change (entries_in sample_index) with [live_entry (match entries_in sample_index with e :: _ => default 0 (pintest_blockno e) | _ => 0 end)].
    apply merge_planned.
  - vm_compute. repeat constructor. discriminate.
  - exact merge_nonzero.
  - discriminate.
  - unfold normal_xid, FirstNormalTransactionId. lia.
  - exact sample_schema.
  - exact sample_schema.
  - vm_compute. reflexivity.
Qed.

Lemma collect_step : step plain_packer 1100 demo_of_ext demo_parse_uuid 13 pinned (index merging) collected.
Proof.
  apply (step_collect _ _ _ _ _ _ _ (entries_in (index merging)) not_pinned 9 9 9 collected);
    try (unfold normal_xid, FirstNormalTransactionId; lia).
  - intros b Hb. unfold not_pinned. by rewrite bool_decide_true.
  - vm_compute. reflexivity.
  - apply (bool_decide_unpack _). vm_compute. exact I.
  - vm_compute. reflexivity.
Qed.

Lemma readers_keep_their_files_witness :
  rtc (step plain_packer 1100 demo_of_ext demo_parse_uuid 13 pinned) sample_index collected /\
  druns (open_and_read plain_packer 1100 demo_ext demo_parse_uuid (path demo_ext (demo_uuid 11) Postings) 1 3) (set_index collected reading)
    (fun read _ => read = [2; 3]).
Proof.
  assert (rtc (step plain_packer 1100 demo_of_ext demo_parse_uuid 13 pinned) sample_index collected) as Hsteps
    by (eapply rtc_l; [exact merge_step|apply rtc_once; exact collect_step]). split; [exact Hsteps|].
  destruct sample_index_ok as (ch & s & Hss & Es & Eb). destruct demo_names as (N1 & N2 & N3 & N4). destruct reading_ok as (metas & El & Ep).
  destruct (s_files s) as [|f [|? ?]] eqn:Ef; try discriminate Eb. injection Eb as Eb. cbn [head fmap option_fmap option_map from_option id] in Es.
  assert (segment_id (s_entry s) = 11) as Eid by (by rewrite Es).
  pose proof (readers_keep_their_files plain_packer plain_packer_ok 1100 ltac:(lia) demo_ext demo_of_ext demo_uuid demo_parse_uuid N1 N2 N3 N4
    small_storable (fun e _ => eq_refl) sample_index 13 ch [s] (fun _ => true) None None Hss) as Hr.
  specialize (Hr ltac:(constructor; [rewrite Es; by eexists|constructor]) ltac:(unfold ids_distinct; cbn [fmap list_fmap]; rewrite Es; apply NoDup_singleton)).
  pose proof (mwp_ok _ _ _ _ _ _ Hr El) as Hk. clear Hr. cbv beta in Hk.
  specialize (Hk pinned collected s (mkImmutable (Some (mkFile (f_start f) 3)) None None None None None None None) (mkFile (f_start f) 3) Postings f 1%nat 3%nat Ep Hsteps).
  rewrite Eid in Hk. eapply druns_mono; [apply Hk|].
  - left.
  - by rewrite Es.
  - lia.
  - by rewrite Es.
  - left.
  - rewrite Ef. left.
  - reflexivity.
  - by rewrite Eb.
  - intros read d' ->. by rewrite Eb.
Defined.
