(* ===== verification/BgMerger.v ===== *)
(** * The background merger's state

    The [BgMergerPage] of [storage/metadata.rs] and its use by [try_launch_background_merger]
    and [background_merge] of [postgres/merge.rs]: one page says whether a background merge is
    stopped, starting or running, and under which process.  The processes that use it, their
    failures, and the SQL function [reset_bgworker_state], which anybody may call at any time,
    are the events of a state machine. *)

From stdpp Require Import prelude gmap.
From Stdlib Require Import ZArith Lia.
From S2P Require Import Prelude.

Local Open Scope Z_scope.

Module BgMerger.

Inductive BgMergerState := Stopped | Starting | Running.

#[global] Instance BgMergerState_eq_dec : EqDecision BgMergerState.
Proof. solve_decision. Defined.

Record BgMergerPageData := mkData { d_pid : Z; d_state : BgMergerState }.

(** A page just initialized is all zeros. *)
Definition zero_data : BgMergerPageData := mkData 0 Stopped.

(** [try_starting]; [IsBackendPid] is PostgreSQL's. *)
Definition try_starting (IsBackendPid : Z -> bool) (data : BgMergerPageData) : bool * BgMergerPageData :=
  match d_state data with
  | Stopped => (true, mkData 1 Starting)
  | Running => if negb (IsBackendPid (d_pid data)) then (true, mkData 1 Starting) else (false, data)
  | Starting => (false, data)
  end.

Definition set_running (MyProcPid : Z) (data : BgMergerPageData) : BgMergerPageData := mkData MyProcPid Running.

Definition set_stopped (data : BgMergerPageData) : BgMergerPageData := mkData 0 Stopped.

(** The SQL function: it does not look at the state. *)
Definition reset_bgworker_state (data : BgMergerPageData) : BgMergerPageData := set_stopped data.

(** ** The processes

    [launching]: backends between a successful [try_starting] and the outcome of
    [load_dynamic]; [pending]: workers registered but not yet past [set_running];
    [merging]: workers between [set_running] and [set_stopped]; [live]: the backend pids
    there are. *)
Record world := mkWorld {
  page : BgMergerPageData;
  launching : nat;
  pending : nat;
  merging : list Z;
  live : gset Z;
}.

Definition is_backend (w : world) (pid : Z) : bool := bool_decide (pid ∈ live w).

Definition put_page (d : BgMergerPageData) (w : world) : world :=
  mkWorld d (launching w) (pending w) (merging w) (live w).

Inductive event :=
| TryLaunch
| WorkerRegistered
| LaunchFailed
| LauncherDies
| WorkerDiesEarly
| WorkerRuns (pid : Z)
| WorkerDone (pid : Z)
| WorkerCrashes (pid : Z)
| BackendStarts (pid : Z)
| BackendExits (pid : Z)
| Reset.

#[global] Instance event_eq_dec : EqDecision event.
Proof. solve_decision. Defined.

(** One event; [None] when it cannot happen. *)
Definition step (e : event) (w : world) : option world :=
  match e with
  | TryLaunch =>
      let '(ok, d) := try_starting (is_backend w) (page w) in
      Some (mkWorld d (if ok then S (launching w) else launching w) (pending w) (merging w) (live w))
  | WorkerRegistered =>
      match launching w with
      | S n => Some (mkWorld (page w) n (S (pending w)) (merging w) (live w))
      | O => None
      end
  | LaunchFailed =>
      match launching w with
      | S n => Some (mkWorld (set_stopped (page w)) n (pending w) (merging w) (live w))
      | O => None
      end
  | LauncherDies =>
      match launching w with
      | S n => Some (mkWorld (page w) n (pending w) (merging w) (live w))
      | O => None
      end
  | WorkerDiesEarly =>
      match pending w with
      | S n => Some (mkWorld (page w) (launching w) n (merging w) (live w))
      | O => None
      end
  | WorkerRuns pid =>
      match pending w with
      | S n =>
          if decide (pid ∈ live w) then None
          else Some (mkWorld (set_running pid (page w)) (launching w) n (pid :: merging w) ({[pid]} ∪ live w))
      | O => None
      end
  | WorkerDone pid =>
      if decide (pid ∈ merging w)
      then Some (mkWorld (set_stopped (page w)) (launching w) (pending w) (filter (fun p => p <> pid) (merging w)) (live w))
      else None
  | WorkerCrashes pid =>
      if decide (pid ∈ merging w)
      then Some (mkWorld (page w) (launching w) (pending w) (filter (fun p => p <> pid) (merging w)) (live w ∖ {[pid]}))
      else None
  | BackendStarts pid =>
      if decide (pid ∈ live w) then None
      else Some (mkWorld (page w) (launching w) (pending w) (merging w) ({[pid]} ∪ live w))
  | BackendExits pid =>
      if decide (pid ∈ merging w) then None
      else Some (mkWorld (page w) (launching w) (pending w) (merging w) (live w ∖ {[pid]}))
  | Reset => Some (put_page (reset_bgworker_state (page w)) w)
  end.

(** A history of events, in their order. *)
Fixpoint run (es : list event) (w : world) : option world :=
  match es with [] => Some w | e :: es => w' ← step e w; run es w' end.

Definition resets (es : list event) : nat := length (filter (fun e => e = Reset) es).

(** A new index: nobody is merging. *)
Definition initial (pids : gset Z) : world := mkWorld zero_data 0 0 [] pids.

(** The merges that are under way. *)
Definition under_way (w : world) : nat := (launching w + pending w + length (merging w))%nat.

(** ** Mutual exclusion *)

(** Whether the next [try_starting] may succeed: nobody who is merging holds the page. *)
Definition vacant (w : world) : nat :=
  match d_state (page w) with
  | Stopped => 1
  | Starting => 0
  | Running => if decide (d_pid (page w) ∈ merging w) then 0 else 1
  end.

Definition merging_live (w : world) : Prop := forall p, p ∈ merging w -> p ∈ live w.

Lemma filter_shorter (p : Z) l : p ∈ l -> (length (filter (fun q => q <> p) l) < length l)%nat.
Proof.
  induction l as [|x l IH]; intros Hp; [by apply elem_of_nil in Hp|]. rewrite filter_cons. pose proof (length_filter (fun q => q <> p) l).
  apply elem_of_cons in Hp as [->|Hp]; [rewrite decide_False by tauto; cbn; lia|]. case_decide; cbn; specialize (IH Hp); lia.
Qed.

Lemma vacant_le w : (vacant w <= 1)%nat.
Proof. unfold vacant. destruct (d_state (page w)); [lia|lia|]. case_decide; lia. Qed.

Ltac inv_step :=
  repeat match goal with
  | H : context [match ?n with O => _ | S _ => _ end] |- _ => destruct n eqn:?; try done
  | H : context [decide (_ ∈ _)] |- _ => destruct (decide (_ ∈ _)); try done
  | H : Some _ = Some _ |- _ => injection H as <-
  end.

Lemma merging_live_step e w w' : merging_live w -> step e w = Some w' -> merging_live w'.
Proof.
  intros Hlive Hs. unfold merging_live in *. destruct w as [[dp ds] la pe me li]. cbn in Hlive.
  destruct e as [| | | | |pid|pid|pid|pid|pid|]; cbn in Hs; try (destruct (try_starting _ _) in Hs); inv_step; cbn; try done; try set_solver.
  all: intros p; rewrite ?list_elem_of_filter; try (destruct 1 as [? Hp]); try (intros Hp); specialize (Hlive p Hp); try set_solver.
Qed.

(** An event adds to the merges under way only when the page is vacant, and only a reset makes
    it vacant without an end of a merge. *)
Lemma under_way_step e w w' : merging_live w -> step e w = Some w' ->
  (under_way w' + vacant w' <= under_way w + vacant w + (if decide (e = Reset) then 1 else 0))%nat.
Proof.
  intros Hlive Hs. pose proof (vacant_le w') as Hv'. unfold under_way in *. destruct e as [| | | | |pid|pid|pid|pid|pid|]; rewrite ?decide_True, ?decide_False by done; cbn in Hs.
  - unfold vacant, try_starting in *. destruct w as [[dp ds] la pe me li]. cbn in *. destruct ds.
    + injection Hs as <-. cbn. lia.
    + injection Hs as <-. cbn. lia.
    + destruct (negb (is_backend _ dp)) eqn:Eb; injection Hs as <-; cbn; [|lia]. rewrite decide_False; [lia|].
      intros Hp%Hlive. by apply negb_true_iff, bool_decide_eq_false in Eb.
  - inv_step. unfold vacant. cbn. lia.
  - inv_step. cbn in *. lia.
  - inv_step. unfold vacant. cbn. lia.
  - inv_step. unfold vacant. cbn. lia.
  - inv_step. unfold vacant in *. cbn in *. rewrite decide_True by left. lia.
  - inv_step. pose proof (filter_shorter pid (merging w)). cbn in *. naive_solver lia.
  - inv_step. pose proof (filter_shorter pid (merging w) ltac:(done)). cbn in *. lia.
  - inv_step. unfold vacant. cbn. lia.
  - inv_step. unfold vacant. cbn. lia.
  - inv_step. cbn in *. lia.
Qed.

Lemma run_bound es w w' : merging_live w -> run es w = Some w' ->
  merging_live w' /\ (under_way w' + vacant w' <= under_way w + vacant w + resets es)%nat.
Proof.
  revert w. induction es as [|e es IH]; intros w Hlive Hr; cbn [run] in Hr; [injection Hr as <-; unfold resets; cbn; split; [done|lia]|].
  apply bind_Some in Hr as (w1 & Hs & Hr). pose proof (under_way_step e w w1 Hlive Hs) as H1. destruct (IH w1 (merging_live_step _ _ _ Hlive Hs) Hr) as [Hl H2]. split; [done|].
  unfold resets in *. rewrite filter_cons. case_decide; cbn [length]; lia.
Qed.

(** Without a reset the page tells who merges. *)
Definition inv (w : world) : Prop :=
  (forall p, p ∈ merging w -> p ∈ live w) /\
  match d_state (page w) with
  | Stopped => launching w = O /\ pending w = O /\ merging w = []
  | Starting => (launching w + pending w <= 1)%nat /\ merging w = []
  | Running => launching w = O /\ pending w = O /\ (merging w = [] \/ merging w = [d_pid (page w)])
  end.

Lemma filter_self (p : Z) : filter (fun q => q <> p) [p] = [].
Proof. rewrite filter_cons, decide_False by tauto. done. Qed.

Lemma inv_step_ok e w w' : e <> Reset -> inv w -> step e w = Some w' -> inv w'.
Proof.
  intros Hr [Hlive Hst] Hs. destruct w as [[dp ds] la pe me li]; cbn [page d_state launching pending merging live d_pid] in *.
  destruct e as [| | | | |pid|pid|pid|pid|pid|]; unfold step in Hs; cbn [page d_state launching pending merging live d_pid] in Hs.
  - unfold try_starting in Hs. cbn [d_state d_pid] in Hs.
    destruct ds.
    + injection Hs as <-. destruct Hst as (-> & -> & ->). split; cbn; [done|]. split; [lia|done].
    + by injection Hs as <-.
    + destruct (negb (is_backend _ dp)) eqn:Eb; injection Hs as <-; [|done].
      destruct Hst as (-> & -> & [->| ->]); [split; cbn; [done|]; split; [lia|done]|]. exfalso.
      apply negb_true_iff, bool_decide_eq_false in Eb. apply Eb, Hlive. left.
  - inv_step. split; cbn in *; [done|]. destruct ds; [by destruct Hst as (? & _)| |by destruct Hst as (? & _)]. destruct Hst. split; [lia|done].
  - inv_step. split; cbn in *; [done|]. destruct ds; [by destruct Hst as (? & _)| |by destruct Hst as (? & _)].
    destruct Hst as [Hle ->]. split; [lia|]. split; [lia|done].
  - inv_step. split; cbn in *; [done|]. destruct ds; [by destruct Hst as (? & _)| |by destruct Hst as (? & _)]. destruct Hst. split; [lia|done].
  - inv_step. split; cbn in *; [done|]. destruct ds; [by destruct Hst as (_ & ? & _)| |by destruct Hst as (_ & ? & _)]. destruct Hst. split; [lia|done].
  - inv_step. split; cbn in *; [set_solver|]. destruct ds; [by destruct Hst as (_ & ? & _)| |by destruct Hst as (_ & ? & _)].
    destruct Hst as [Hle ->]. split; [lia|]. split; [lia|]. by right.
  - inv_step. split; cbn in *; [intros p [_ Hp]%list_elem_of_filter; auto|].
    destruct ds; [by destruct Hst as (_ & _ & ->); set_solver|by destruct Hst as (_ & ->); set_solver|].
    destruct Hst as (-> & -> & [->| ->]); [done|]. split; [done|]. split; [done|].
    assert (pid = dp) as -> by set_solver. apply filter_self.
  - inv_step. split; cbn in *; [intros p [? Hp]%list_elem_of_filter; apply Hlive in Hp; set_solver|].
    destruct ds; [by destruct Hst as (_ & _ & ->); set_solver|by destruct Hst as (_ & ->); set_solver|].
    destruct Hst as (-> & -> & [->| ->]); [split; [done|]; split; [done|]; by left|]. split; [done|]. split; [done|]. left.
    assert (pid = dp) as -> by set_solver. apply filter_self.
  - inv_step. split; cbn in *; [set_solver|done].
  - inv_step. split; cbn in *; [|done]. intros p Hp. assert (p <> pid) by (by intros ->). set_solver.
  - done.
Qed.

Lemma inv_run es w w' : Reset ∉ es -> inv w -> run es w = Some w' -> inv w'.
Proof.
  revert w. induction es as [|e es IH]; intros w Hno Hi Hr; cbn [run] in Hr; [by injection Hr as <-|].
  apply not_elem_of_cons in Hno as [Hne Hno]. apply bind_Some in Hr as (w1 & Hs & Hr). apply (IH w1); try done. by eapply inv_step_ok.
Qed.

(** C26: Whatever backends launch mergers, whatever processes die, and in whatever order: the
    background merges of an index that are under way (launchers in flight, workers about to run
    and workers merging) are at most one more than the calls of [reset_bgworker_state].  In
    particular there is at most one as long as nobody calls it, and then a merging worker is the
    one that the page names. *)
Theorem at_most_one_merger pids es w : run es (initial pids) = Some w ->
  (under_way w <= 1 + resets es)%nat /\ (Reset ∉ es -> forall p, p ∈ merging w -> page w = mkData p Running).
Proof.
  intros Hr. destruct (run_bound es (initial pids) w) as [_ Hb]; [by intros p ?%elem_of_nil|done|]. unfold under_way at 2 in Hb. cbn in Hb. split; [lia|].
  intros Hno p Hp. destruct (inv_run es (initial pids) w Hno) as [_ Hst]; [|done|]. { split; [by intros q ?%elem_of_nil|done]. }
  destruct (page w) as [dp []]; cbn in Hst.
  - destruct Hst as (_ & _ & E). rewrite E in Hp. by apply elem_of_nil in Hp.
  - destruct Hst as (_ & E). rewrite E in Hp. by apply elem_of_nil in Hp.
  - destruct Hst as (_ & _ & [E|E]); rewrite E in Hp; [by apply elem_of_nil in Hp|]. by apply list_elem_of_singleton in Hp as ->.
Qed.

(** A reset while a worker merges lets a second one start. *)
Example reset_starts_second :
  (w ← run [TryLaunch; WorkerRegistered; WorkerRuns 20; Reset; TryLaunch; WorkerRegistered; WorkerRuns 21] (initial ∅); Some (merging w)) = Some [21; 20].
Proof. vm_compute. reflexivity. Qed.

(** C27: A merge whose launcher or worker dies between [try_starting] and [set_running]
    leaves the page at [Starting]: no sequence of events launches another background merge of
    that index, unless [reset_bgworker_state] is called, after which the next launch
    succeeds. *)
Theorem starting_is_stuck w es w' : d_state (page w) = Starting -> under_way w = O -> run es w = Some w' ->
  (Reset ∉ es -> d_state (page w') = Starting /\ under_way w' = O) /\
  (exists w'', run [Reset; TryLaunch] w' = Some w'' /\ launching w'' = S (launching w')).
Proof.
  intros H1 H2 Hr. split; [|by eexists]. revert w H1 H2 Hr. induction es as [|e es IH]; intros w H1 H2 Hr Hno; cbn [run] in Hr; [by injection Hr as <-|].
  apply not_elem_of_cons in Hno as [Hne Hno]. apply bind_Some in Hr as (w1 & Hs & Hr).
  enough (d_state (page w1) = Starting /\ under_way w1 = O) as [? ?] by (by apply (IH w1)). clear IH Hr.
  destruct w as [[dp ds] la pe me li]; unfold under_way in *; cbn in H1, H2; subst ds. destruct me as [|m me]; [|cbn in H2; lia]. assert (la = O) as -> by lia. assert (pe = O) as -> by lia.
  destruct e as [| | | | |pid|pid|pid|pid|pid|]; cbn in Hs; inv_step; try done.
  all: by match goal with H : _ ∈ [] |- _ => apply elem_of_nil in H end.
Qed.

Lemma at_most_one_merger_witness :
  let w := mkWorld (mkData 20 Running) 0 0 [20] {[10; 11; 20]} in
  run [TryLaunch; WorkerRegistered; WorkerRuns 20] (initial {[10; 11]}) = Some w /\ (under_way w <= 1)%nat.
Proof.
  intros w. assert (run [TryLaunch; WorkerRegistered; WorkerRuns 20] (initial {[10; 11]}) = Some w) as Hr by (vm_compute; reflexivity).
  split; [exact Hr|]. exact (proj1 (at_most_one_merger _ _ _ Hr)).
Defined.

Lemma starting_is_stuck_witness :
  let w' := mkWorld (mkData 1 Starting) 0 0 [] {[10; 12]} in d_state (page w') = Starting /\ under_way w' = O.
Proof.
  intros w'. destruct (starting_is_stuck (mkWorld (mkData 1 Starting) 0 0 [] {[10]}) [TryLaunch; BackendStarts 12] w') as [A _].
  - reflexivity.
  - reflexivity.
  - vm_compute. reflexivity.
  - apply A. apply (bool_decide_unpack _). vm_compute. reflexivity.
Defined.

End BgMerger.
