(* ===== verification/MetaPage.v ===== *)
(** * The metadata page

    [storage/metadata.rs]: the page at block 0 that says where everything else of the index
    is.  It has grown over the versions of the extension, so opening an index fills in what
    an older version did not have. *)

From stdpp Require Import prelude gmap.
From Stdlib Require Import ZArith Lia.
From S2P Require Import Prelude Pages.

Local Open Scope Z_scope.

Module MetaPage.

Record MetaPageData := mkMeta {
  active_vacuum_list : Z;
  ambulkdelete_sentinel : Z;
  merge_lock : Z;
  cleanup_lock : Z;
  schema_start : Z;
  settings_start : Z;
  segment_metas_start : Z;
  v1_fsm : Z;
  segment_meta_garbage : Z;
  ambulkdelete_epoch : Z;
  v2_fsm : Z;
  bgmerger : Z;
}.

(** A page just initialized is all zeros. *)
Definition zero_meta : MetaPageData := mkMeta 0 0 0 0 0 0 0 0 0 0 0 0.

(** The relation, as far as the metadata page is concerned: how many blocks it has, what
    each was made for, and the page itself. *)
Inductive use := UVacuumList | USentinel | UMergeLock | UV2Fsm | USegmentMetas | UGarbage | UCleanupLock
  | USchema | USettings | UBgMerger | UMeta | UFsmLeaf | UListStart.

#[global] Instance use_eq_dec : EqDecision use.
Proof. solve_decision. Defined.

Record index := mkIndex {
  uses : list use;
  meta : MetaPageData;
  converted : list (Z * Z);
}.

Abbreviation IM := (M index unit).

(** [init_new_buffer(rel).number()] *)
Definition init_new_buffer (u : use) : IM Z := fun i =>
  (Ok (Z.of_nat (length (uses i))), mkIndex (uses i ++ [u]) (meta i) (converted i)).

Definition put_meta (f : MetaPageData -> MetaPageData) : IM unit :=
  modify (fun i => mkIndex (uses i) (f (meta i)) (converted i)).

Section ops.
(** As many leaves are created with the tree of the free space manager. *)
Variable MAX_SLOTS : nat.

Fixpoint new_leaves (n : nat) : IM unit :=
  match n with O => mret tt | S n => _ ← init_new_buffer UFsmLeaf; new_leaves n end.

(** [V2FSM::create] *)
Definition v2_create : IM Z := root ← init_new_buffer UV2Fsm; new_leaves MAX_SLOTS;; mret root.

(** [create_without_fsm] of either kind of list: header and start page. *)
Definition list_create (u : use) : IM Z := header ← init_new_buffer u; _ ← init_new_buffer UListStart; mret header.

(** [convert_v1_to_v2]: recorded, not carried out here. *)
Definition convert_v1_to_v2 (v1 v2 : Z) : IM unit :=
  modify (fun i => mkIndex (uses i) (meta i) (converted i ++ [(v1, v2)])).

Definition set_vacuum_list b (m : MetaPageData) := mkMeta b (ambulkdelete_sentinel m) (merge_lock m) (cleanup_lock m) (schema_start m) (settings_start m) (segment_metas_start m) (v1_fsm m) (segment_meta_garbage m) (ambulkdelete_epoch m) (v2_fsm m) (bgmerger m).
Definition set_sentinel b (m : MetaPageData) := mkMeta (active_vacuum_list m) b (merge_lock m) (cleanup_lock m) (schema_start m) (settings_start m) (segment_metas_start m) (v1_fsm m) (segment_meta_garbage m) (ambulkdelete_epoch m) (v2_fsm m) (bgmerger m).
Definition set_merge_lock b (m : MetaPageData) := mkMeta (active_vacuum_list m) (ambulkdelete_sentinel m) b (cleanup_lock m) (schema_start m) (settings_start m) (segment_metas_start m) (v1_fsm m) (segment_meta_garbage m) (ambulkdelete_epoch m) (v2_fsm m) (bgmerger m).
Definition set_cleanup_lock b (m : MetaPageData) := mkMeta (active_vacuum_list m) (ambulkdelete_sentinel m) (merge_lock m) b (schema_start m) (settings_start m) (segment_metas_start m) (v1_fsm m) (segment_meta_garbage m) (ambulkdelete_epoch m) (v2_fsm m) (bgmerger m).
Definition set_schema b (m : MetaPageData) := mkMeta (active_vacuum_list m) (ambulkdelete_sentinel m) (merge_lock m) (cleanup_lock m) b (settings_start m) (segment_metas_start m) (v1_fsm m) (segment_meta_garbage m) (ambulkdelete_epoch m) (v2_fsm m) (bgmerger m).
Definition set_settings b (m : MetaPageData) := mkMeta (active_vacuum_list m) (ambulkdelete_sentinel m) (merge_lock m) (cleanup_lock m) (schema_start m) b (segment_metas_start m) (v1_fsm m) (segment_meta_garbage m) (ambulkdelete_epoch m) (v2_fsm m) (bgmerger m).
Definition set_segment_metas b (m : MetaPageData) := mkMeta (active_vacuum_list m) (ambulkdelete_sentinel m) (merge_lock m) (cleanup_lock m) (schema_start m) (settings_start m) b (v1_fsm m) (segment_meta_garbage m) (ambulkdelete_epoch m) (v2_fsm m) (bgmerger m).
Definition set_v1_fsm b (m : MetaPageData) := mkMeta (active_vacuum_list m) (ambulkdelete_sentinel m) (merge_lock m) (cleanup_lock m) (schema_start m) (settings_start m) (segment_metas_start m) b (segment_meta_garbage m) (ambulkdelete_epoch m) (v2_fsm m) (bgmerger m).
Definition set_garbage b (m : MetaPageData) := mkMeta (active_vacuum_list m) (ambulkdelete_sentinel m) (merge_lock m) (cleanup_lock m) (schema_start m) (settings_start m) (segment_metas_start m) (v1_fsm m) b (ambulkdelete_epoch m) (v2_fsm m) (bgmerger m).
Definition set_epoch b (m : MetaPageData) := mkMeta (active_vacuum_list m) (ambulkdelete_sentinel m) (merge_lock m) (cleanup_lock m) (schema_start m) (settings_start m) (segment_metas_start m) (v1_fsm m) (segment_meta_garbage m) b (v2_fsm m) (bgmerger m).
Definition set_v2_fsm b (m : MetaPageData) := mkMeta (active_vacuum_list m) (ambulkdelete_sentinel m) (merge_lock m) (cleanup_lock m) (schema_start m) (settings_start m) (segment_metas_start m) (v1_fsm m) (segment_meta_garbage m) (ambulkdelete_epoch m) b (bgmerger m).
Definition set_bgmerger b (m : MetaPageData) := mkMeta (active_vacuum_list m) (ambulkdelete_sentinel m) (merge_lock m) (cleanup_lock m) (schema_start m) (settings_start m) (segment_metas_start m) (v1_fsm m) (segment_meta_garbage m) (ambulkdelete_epoch m) (v2_fsm m) b.

(** [MetaPage::init] *)
Definition init : IM unit :=
  b ← init_new_buffer UMeta;
  (if b =? 0 then mret tt else panic);;
  b ← init_new_buffer UVacuumList; put_meta (set_vacuum_list b);;
  b ← init_new_buffer USentinel; put_meta (set_sentinel b);;
  b ← init_new_buffer UMergeLock; put_meta (set_merge_lock b);;
  b ← v2_create; put_meta (set_v2_fsm b);;
  b ← list_create UGarbage; put_meta (set_garbage b);;
  b ← init_new_buffer UCleanupLock; put_meta (set_cleanup_lock b);;
  b ← list_create USchema; put_meta (set_schema b);;
  b ← list_create USettings; put_meta (set_settings b);;
  b ← list_create USegmentMetas; put_meta (set_segment_metas b);;
  b ← init_new_buffer UBgMerger; put_meta (set_bgmerger b).

Definition may_need_init (m : MetaPageData) : bool :=
  negb (block_number_is_valid (active_vacuum_list m)) || negb (block_number_is_valid (ambulkdelete_sentinel m)) ||
  negb (block_number_is_valid (merge_lock m)) || negb (block_number_is_valid (v2_fsm m)) ||
  negb (block_number_is_valid (segment_meta_garbage m)) || negb (block_number_is_valid (bgmerger m)).

(** [if !block_number_is_valid(metadata.field) { metadata.field = ...; }] *)
Definition fill (get : MetaPageData -> Z) (act : IM unit) : IM unit :=
  b ← gets (fun i => get (meta i)); if block_number_is_valid b then mret tt else act.

Definition open_v2 : IM unit :=
  b ← v2_create; put_meta (set_v2_fsm b);;
  v1 ← gets (fun i => v1_fsm (meta i));
  v2 ← gets (fun i => v2_fsm (meta i));
  if block_number_is_valid v1 then
    convert_v1_to_v2 v1 v2;;
    put_meta (set_v1_fsm InvalidBlockNumber)
  else mret tt.

(** [MetaPage::open] *)
Definition open : IM MetaPageData :=
  m ← gets meta;
  if may_need_init m then
    fill active_vacuum_list (b ← init_new_buffer UVacuumList; put_meta (set_vacuum_list b));;
    fill ambulkdelete_sentinel (b ← init_new_buffer USentinel; put_meta (set_sentinel b));;
    fill merge_lock (b ← init_new_buffer UMergeLock; put_meta (set_merge_lock b));;
    fill v2_fsm open_v2;;
    fill segment_meta_garbage (b ← list_create UGarbage; put_meta (set_garbage b));;
    fill bgmerger (b ← init_new_buffer UBgMerger; put_meta (set_bgmerger b));;
    gets meta
  else mret m.

(** Old indexes have these at fixed blocks. *)
Definition LEGACY_CLEANUP_LOCK : Z := 1.
Definition LEGACY_SCHEMA_START : Z := 2.
Definition LEGACY_SETTINGS_START : Z := 4.
Definition LEGACY_SEGMENT_METAS_START : Z := 6.

Definition cleanup_lock_block (m : MetaPageData) : Z := if cleanup_lock m =? 0 then LEGACY_CLEANUP_LOCK else cleanup_lock m.
Definition schema_bytes (m : MetaPageData) : Z := if schema_start m =? 0 then LEGACY_SCHEMA_START else schema_start m.
Definition settings_bytes (m : MetaPageData) : Z := if settings_start m =? 0 then LEGACY_SETTINGS_START else settings_start m.
Definition segment_metas (m : MetaPageData) : Z := if segment_metas_start m =? 0 then LEGACY_SEGMENT_METAS_START else segment_metas_start m.

Definition increment_ambulkdelete_epoch : IM unit := put_meta (fun m => set_epoch (u32 (ambulkdelete_epoch m + 1)) m).

End ops.

End MetaPage.
