(* ===== verification/MetaPageProps.v ===== *)
(** * Creating and opening an index *)

From stdpp Require Import prelude gmap.
From Stdlib Require Import ZArith Lia.
From S2P Require Import Prelude Pages MetaPage.
Import MetaPage.

Local Open Scope Z_scope.

(** The fields that opening an index completes. *)
Inductive field := FVacuum | FSentinel | FMergeLock | FV2 | FGarbage | FBgMerger.

#[global] Instance field_eq_dec : EqDecision field.
Proof. solve_decision. Defined.

Definition getf (f : field) : MetaPageData -> Z :=
  match f with
  | FVacuum => active_vacuum_list | FSentinel => ambulkdelete_sentinel | FMergeLock => merge_lock
  | FV2 => v2_fsm | FGarbage => segment_meta_garbage | FBgMerger => bgmerger
  end.

Definition setf (f : field) : Z -> MetaPageData -> MetaPageData :=
  match f with
  | FVacuum => set_vacuum_list | FSentinel => set_sentinel | FMergeLock => set_merge_lock
  | FV2 => set_v2_fsm | FGarbage => set_garbage | FBgMerger => set_bgmerger
  end.

Definition usef (f : field) : use :=
  match f with
  | FVacuum => UVacuumList | FSentinel => USentinel | FMergeLock => UMergeLock
  | FV2 => UV2Fsm | FGarbage => UGarbage | FBgMerger => UBgMerger
  end.

Definition all_fields : list field := [FVacuum; FSentinel; FMergeLock; FV2; FGarbage; FBgMerger].

(** The fields opening never touches. *)
Definition others (m : MetaPageData) : list Z :=
  [cleanup_lock m; schema_start m; settings_start m; segment_metas_start m; ambulkdelete_epoch m].

Section opening.
Variable MAX_SLOTS : nat.

Definition need (f : field) : nat := match f with FV2 => S MAX_SLOTS | FGarbage => 2 | _ => 1 end.

(** A field that was set is left alone; one that was not is a new block made for it. *)
Definition completed (i0 i : index) (f : field) : Prop :=
  if block_number_is_valid (getf f (meta i0)) then getf f (meta i) = getf f (meta i0)
  else Z.of_nat (length (uses i0)) <= getf f (meta i) /\ uses i !! Z.to_nat (getf f (meta i)) = Some (usef f).

(** The free space of an old index is handed over once. *)
Definition converted_ok (i0 i : index) : Prop :=
  if negb (block_number_is_valid (v2_fsm (meta i0))) && block_number_is_valid (v1_fsm (meta i0))
  then converted i = converted i0 ++ [(v1_fsm (meta i0), v2_fsm (meta i))] /\ v1_fsm (meta i) = InvalidBlockNumber
  else converted i = converted i0 /\ v1_fsm (meta i) = v1_fsm (meta i0).

Record opening (i0 i : index) (done_ : list field) : Prop := {
  op_prefix : exists more, uses i = uses i0 ++ more /\ (length more <= foldr (fun f n => need f + n) 0 done_)%nat;
  op_done : forall f, f ∈ done_ -> completed i0 i f;
  op_todo : forall f, f ∉ done_ -> getf f (meta i) = getf f (meta i0);
  op_others : others (meta i) = others (meta i0);
  op_conv : if decide (FV2 ∈ done_) then converted_ok i0 i else converted i = converted i0 /\ v1_fsm (meta i) = v1_fsm (meta i0);
}.

Lemma getf_setf f g b m : getf g (setf f b m) = if decide (g = f) then b else getf g m.
Proof. by destruct f, g. Qed.

Lemma others_setf f b m : others (setf f b m) = others m.
Proof. by destruct f. Qed.

Lemma v1_setf f b m : v1_fsm (setf f b m) = v1_fsm m.
Proof. by destruct f. Qed.

Lemma new_leaves_run n i : new_leaves n i = (Ok tt, mkIndex (uses i ++ replicate n UFsmLeaf) (meta i) (converted i)).
Proof.
  revert i. induction n as [|n IH]; intros i; [cbn; rewrite app_nil_r; by destruct i|].
  change (new_leaves (S n) i) with (new_leaves n (mkIndex (uses i ++ [UFsmLeaf]) (meta i) (converted i))).
  rewrite IH. cbn. by rewrite <- app_assoc.
Qed.

Lemma completed_mono i0 i us f mt cv : completed i0 i f -> getf f mt = getf f (meta i) ->
  completed i0 (mkIndex (uses i ++ us) mt cv) f.
Proof.
  unfold completed. cbn. intros Hc ->. destruct (block_number_is_valid _); [done|]. destruct Hc as [? Hu].
  split; [done|]. by apply lookup_app_l_Some.
Qed.

(** A field that is set already. *)
Lemma opening_skip i0 i done_ f : opening i0 i done_ -> f ∉ done_ -> block_number_is_valid (getf f (meta i0)) = true ->
  opening i0 i (f :: done_).
Proof.
  intros [(more & Hu & Hlen) Hd Ht Ho Hc] Hf Hv. split; [exists more; split; [done|simpl; lia]| | |done|].
  - intros g [->|Hg]%elem_of_cons; [|auto]. unfold completed. rewrite Hv. auto.
  - intros g Hg. apply Ht. set_solver.
  - destruct (decide (FV2 ∈ f :: done_)) as [Hin|Hno].
    + apply elem_of_cons in Hin as [<-|Hin]; [|by rewrite decide_True in Hc].
      rewrite decide_False in Hc by done. unfold converted_ok. cbn in Hv. rewrite Hv. done.
    + rewrite decide_False in Hc by set_solver. done.
Qed.

(** A field that is filled in with the first of the new blocks [us]. *)
Lemma opening_fill i0 i done_ f us cv mt : opening i0 i done_ -> f ∉ done_ -> block_number_is_valid (getf f (meta i0)) = false ->
  us !! O = Some (usef f) -> (length us <= need f)%nat ->
  (forall g, getf g mt = getf g (setf f (Z.of_nat (length (uses i))) (meta i))) -> others mt = others (meta i) ->
  (if decide (f = FV2) then converted_ok i0 (mkIndex (uses i ++ us) mt cv) else cv = converted i /\ v1_fsm mt = v1_fsm (meta i)) ->
  opening i0 (mkIndex (uses i ++ us) mt cv) (f :: done_).
Proof.
  intros [(more & Hu & Hlen) Hd Ht Ho Hc] Hf Hv Hus Hneed Hget Hoth Hcv. split; cbn [uses meta converted].
  - exists (more ++ us). rewrite Hu, app_assoc. split; [done|]. rewrite length_app. simpl. lia.
  - intros g [->|Hg]%elem_of_cons.
    + unfold completed. rewrite Hv. cbn [meta uses]. rewrite Hget, getf_setf, decide_True, Nat2Z.id by done.
      rewrite lookup_app_r, Nat.sub_diag by done. split; [rewrite Hu, length_app; lia|done].
    + apply completed_mono; [auto|]. rewrite Hget, getf_setf, decide_False; [done|]. by intros ->.
  - intros g Hg. rewrite Hget, getf_setf, decide_False by set_solver. apply Ht. set_solver.
  - by rewrite Hoth.
  - destruct (decide (f = FV2)) as [->|Hne]; [rewrite decide_True by left; done|]. destruct Hcv as [-> Hv1].
    destruct (decide (FV2 ∈ done_)) as [Hin|Hno].
    + rewrite decide_True by (by right). unfold converted_ok in *. cbn. rewrite Hv1.
      assert (v2_fsm mt = v2_fsm (meta i)) as ->; [|done].
      change (getf FV2 mt = getf FV2 (meta i)). rewrite Hget, getf_setf, decide_False; [done|]. by intros <-.
    + rewrite decide_False by set_solver. by rewrite Hv1.
Qed.

(** One [fill] of [open]. *)
Lemma fill_step i0 i done_ f act us cv mt : opening i0 i done_ -> f ∉ done_ ->
  (block_number_is_valid (getf f (meta i0)) = false -> act i = (Ok tt, mkIndex (uses i ++ us) mt cv) /\
     us !! O = Some (usef f) /\ (length us <= need f)%nat /\
     (forall g, getf g mt = getf g (setf f (Z.of_nat (length (uses i))) (meta i))) /\ others mt = others (meta i) /\
     (if decide (f = FV2) then converted_ok i0 (mkIndex (uses i ++ us) mt cv) else cv = converted i /\ v1_fsm mt = v1_fsm (meta i))) ->
  exists i', fill (getf f) act i = (Ok tt, i') /\ opening i0 i' (f :: done_).
Proof.
  intros Ho Hf Hact. unfold fill. rewrite bind_gets, (op_todo _ _ _ Ho f Hf).
  destruct (block_number_is_valid (getf f (meta i0))) eqn:Hv.
  - exists i. split; [done|]. by apply opening_skip.
  - destruct (Hact eq_refl) as (E & Hus & Hn & Hg & Hoth & Hcv). eexists. split; [exact E|]. by eapply opening_fill.
Qed.

(** The ordinary fields. *)
Lemma fill_plain i0 i done_ f : opening i0 i done_ -> f ∉ done_ -> f <> FV2 -> f <> FGarbage ->
  exists i', fill (getf f) (b ← init_new_buffer (usef f); put_meta (setf f b)) i = (Ok tt, i') /\ opening i0 i' (f :: done_).
Proof.
  intros Ho Hf H1 H2. eapply (fill_step i0 i done_ f _ [usef f] (converted i) (setf f (Z.of_nat (length (uses i))) (meta i))); [done|done|].
  intros _. split; [done|]. split; [done|]. split; [by destruct f|]. split; [done|]. split; [apply others_setf|].
  rewrite decide_False by done. split; [done|apply v1_setf].
Qed.

Lemma fill_garbage i0 i done_ : opening i0 i done_ -> FGarbage ∉ done_ ->
  exists i', fill segment_meta_garbage (b ← list_create UGarbage; put_meta (set_garbage b)) i = (Ok tt, i') /\ opening i0 i' (FGarbage :: done_).
Proof.
  intros Ho Hf. eapply (fill_step i0 i done_ FGarbage _ [UGarbage; UListStart] (converted i) (setf FGarbage (Z.of_nat (length (uses i))) (meta i))); [done|done|].
  intros _. split; [unfold list_create, mbind, M_bind; cbn; by rewrite <- app_assoc|]. split; [done|]. split; [simpl; lia|]. split; [done|]. split; [done|].
  rewrite decide_False by done. done.
Qed.

Lemma fill_v2 i0 i done_ : opening i0 i done_ -> FV2 ∉ done_ ->
  exists i', fill v2_fsm (open_v2 MAX_SLOTS) i = (Ok tt, i') /\ opening i0 i' (FV2 :: done_).
Proof.
  intros Ho Hf. pose proof (op_conv _ _ _ Ho) as Hc. rewrite decide_False in Hc by done. destruct Hc as [Hcv Hv1].
  set (b := Z.of_nat (length (uses i))). set (conv := block_number_is_valid (v1_fsm (meta i))).
  set (mt := if conv then set_v1_fsm InvalidBlockNumber (set_v2_fsm b (meta i)) else set_v2_fsm b (meta i)).
  eapply (fill_step i0 i done_ FV2 _ (UV2Fsm :: replicate MAX_SLOTS UFsmLeaf)
    (if conv then converted i ++ [(v1_fsm (meta i), b)] else converted i) mt); [done|done|].
  intros Hv. split; [|split; [done|split; [simpl; rewrite length_replicate; lia|split; [|split]]]].
  - unfold open_v2, v2_create. rewrite !bind_assoc. unfold mbind, M_bind. cbn [init_new_buffer].
    rewrite new_leaves_run. cbn -[block_number_is_valid]. fold conv. unfold mt. rewrite <- app_assoc. by destruct conv.
  - intros g. unfold mt. destruct conv; by destruct g.
  - unfold mt. by destruct conv.
  - rewrite decide_True by done. unfold converted_ok. cbn [meta converted getf] in *. rewrite Hv, <- Hv1. cbn [negb andb]. fold conv. unfold mt.
    rewrite <- Hcv. by destruct conv.
Qed.

Lemma opening_refl i : opening i i [].
Proof.
  split; [exists []; by rewrite app_nil_r|by intros f ?%elem_of_nil|done|done|].
  rewrite decide_False by (by intros ?%elem_of_nil). done.
Qed.

Lemma may_need_init_false m : may_need_init m = false <-> forall f, block_number_is_valid (getf f m) = true.
Proof.
  unfold may_need_init. rewrite !orb_false_iff, !negb_false_iff. split.
  - intros (((((? & ?) & ?) & ?) & ?) & ?) []; done.
  - intros Hf. pose proof (Hf FVacuum). pose proof (Hf FSentinel). pose proof (Hf FMergeLock). pose proof (Hf FV2).
    pose proof (Hf FGarbage). pose proof (Hf FBgMerger). done.
Qed.

Lemma open_run i : exists i', open MAX_SLOTS i = (Ok (meta i'), i') /\
  (opening i i' (rev all_fields) \/ i' = i /\ may_need_init (meta i) = false).
Proof.
  unfold open. rewrite bind_gets. destruct (may_need_init (meta i)) eqn:En; [|by exists i; auto].
  destruct (fill_plain i i [] FVacuum (opening_refl i)) as (i1 & E1 & O1); [set_solver|done|done|].
  destruct (fill_plain i i1 _ FSentinel O1) as (i2 & E2 & O2); [set_solver|done|done|].
  destruct (fill_plain i i2 _ FMergeLock O2) as (i3 & E3 & O3); [set_solver|done|done|].
  destruct (fill_v2 i i3 _ O3) as (i4 & E4 & O4); [set_solver|].
  destruct (fill_garbage i i4 _ O4) as (i5 & E5 & O5); [set_solver|].
  destruct (fill_plain i i5 _ FBgMerger O5) as (i6 & E6 & O6); [set_solver|done|done|].
  exists i6. split; [|by left]. cbn [getf usef setf] in *.
  rewrite (bind_ok _ _ _ _ _ E1), (bind_ok _ _ _ _ _ E2), (bind_ok _ _ _ _ _ E3), (bind_ok _ _ _ _ _ E4), (bind_ok _ _ _ _ _ E5), (bind_ok _ _ _ _ _ E6).
  done.
Qed.

(** Opening an index of any age completes its metadata: afterwards every block the code
    needs is there, each field that was missing names a new block made for just that, what
    was set is unchanged, the free space of the old manager is handed over exactly when the
    index had no new one, and opening again changes nothing. *)
Theorem open_completes i : uses i <> [] -> Z.of_nat (length (uses i) + MAX_SLOTS + 8) < InvalidBlockNumber ->
  exists i', open MAX_SLOTS i = (Ok (meta i'), i') /\ open MAX_SLOTS i' = (Ok (meta i'), i') /\
    (forall f, completed i i' f /\ block_number_is_valid (getf f (meta i')) = true) /\
    uses i `prefix_of` uses i' /\ others (meta i') = others (meta i) /\ converted_ok i i'.
Proof.
  intros Hne Hlen. destruct (open_run i) as (i' & E & Ho).
  assert (may_need_init (meta i') = false /\ (forall f, completed i i' f) /\ uses i `prefix_of` uses i' /\
    others (meta i') = others (meta i) /\ converted_ok i i') as (Hm & Hc & Hp & Hoth & Hcv).
  { destruct Ho as [[(more & Hu & Hmore) Hd _ Hoth Hcv]|[-> Hn]].
    - assert (forall f, completed i i' f) as Hc by (intros f; apply Hd; destruct f; set_solver).
      rewrite decide_True in Hcv by set_solver. split; [|split; [done|split; [by exists more|done]]].
      apply may_need_init_false. intros f. pose proof (Hc f) as Hcf. unfold completed in Hcf.
      destruct (block_number_is_valid (getf f (meta i))) eqn:Hv; [by rewrite Hcf|]. destruct Hcf as [Hge Hlk].
      apply lookup_lt_Some in Hlk. rewrite Hu, length_app in Hlk. simpl in Hmore.
      assert (0 < length (uses i))%nat by (destruct (uses i); [done|simpl; lia]).
      unfold block_number_is_valid. rewrite !(proj2 (Z.eqb_neq _ _)) by lia. done.
    - pose proof (proj1 (may_need_init_false _) Hn) as Hv. split; [done|]. split; [intros f; unfold completed; by rewrite Hv|].
      split; [done|]. split; [done|]. unfold converted_ok. pose proof (Hv FV2) as Hv2. cbn in Hv2. by rewrite Hv2. }
  exists i'. split; [done|]. split; [unfold open; rewrite bind_gets, Hm; done|].
  split; [intros f; split; [done|by apply may_need_init_false]|]. done.
Qed.

(** The blocks of a new index, in order. *)
Definition new_uses : list use :=
  [UMeta; UVacuumList; USentinel; UMergeLock; UV2Fsm] ++ replicate MAX_SLOTS UFsmLeaf ++
  [UGarbage; UListStart; UCleanupLock; USchema; UListStart; USettings; UListStart; USegmentMetas; UListStart; UBgMerger].

Definition new_meta : MetaPageData :=
  let n := Z.of_nat MAX_SLOTS in
  mkMeta 1 2 3 (n + 7) (n + 8) (n + 10) (n + 12) 0 (n + 5) 0 4 (n + 14).

Lemma set_all_fields b1 b2 b3 b4 b5 b6 b7 b8 b9 b10 :
  set_bgmerger b10 (set_segment_metas b9 (set_settings b8 (set_schema b7 (set_cleanup_lock b6 (set_garbage b5
    (set_v2_fsm b4 (set_merge_lock b3 (set_sentinel b2 (set_vacuum_list b1 zero_meta))))))))) =
  mkMeta b1 b2 b3 b6 b7 b8 b9 0 b5 0 b4 b10.
Proof. reflexivity. Qed.

Lemma init_run : init MAX_SLOTS (mkIndex [] zero_meta []) = (Ok tt, mkIndex new_uses new_meta []).
Proof.
  unfold init, v2_create, list_create, mbind, M_bind. cbn [init_new_buffer uses meta converted app length Z.of_nat Z.eqb put_meta modify mret M_ret].
  cbn -[new_leaves Z.of_nat]. change (Z.of_nat 0 =? 0) with true. cbn -[new_leaves Z.of_nat]. rewrite new_leaves_run. cbn -[new_leaves Z.of_nat]. unfold new_uses, new_meta.
  unfold put_meta, modify. cbn [uses meta converted]. f_equal. f_equal; [rewrite <- !app_assoc; done|].
  rewrite set_all_fields, !length_app, !length_replicate. cbn [length]. f_equal; lia.
Qed.

Lemma new_uses_late k : new_uses !! Z.to_nat (Z.of_nat MAX_SLOTS + Z.of_nat (5 + k)) =
  [UGarbage; UListStart; UCleanupLock; USchema; UListStart; USettings; UListStart; USegmentMetas; UListStart; UBgMerger] !! k.
Proof.
  unfold new_uses. rewrite !lookup_app_r; rewrite ?length_replicate; cbn [length]; try lia. f_equal. lia.
Qed.

(** A freshly created index is complete: [init] takes block 0 for the metadata page,
    every object gets a block of its own made for it, and opening the index adds nothing. *)
Theorem init_complete : Z.of_nat (MAX_SLOTS + 20) < InvalidBlockNumber ->
  exists i, init MAX_SLOTS (mkIndex [] zero_meta []) = (Ok tt, i) /\ open MAX_SLOTS i = (Ok (meta i), i) /\
    uses i !! O = Some UMeta /\
    (forall f, uses i !! Z.to_nat (getf f (meta i)) = Some (usef f)) /\
    (uses i !! Z.to_nat (cleanup_lock_block (meta i)) = Some UCleanupLock /\
     uses i !! Z.to_nat (schema_bytes (meta i)) = Some USchema /\
     uses i !! Z.to_nat (settings_bytes (meta i)) = Some USettings /\
     uses i !! Z.to_nat (segment_metas (meta i)) = Some USegmentMetas).
Proof.
  intros Hlen. exists (mkIndex new_uses new_meta []). split; [apply init_run|]. cbn [uses meta]. split; [|split; [done|split]].
  - unfold open. rewrite bind_gets. cbn [meta]. rewrite (proj2 (may_need_init_false new_meta)); [done|].
    intros f. unfold block_number_is_valid. destruct f; cbn [getf new_meta active_vacuum_list ambulkdelete_sentinel merge_lock v2_fsm segment_meta_garbage bgmerger];
      rewrite !(proj2 (Z.eqb_neq _ _)) by (unfold InvalidBlockNumber in *; lia); done.
  - intros []; [done..|apply (new_uses_late 0)|apply (new_uses_late 9)].
  - unfold cleanup_lock_block, schema_bytes, settings_bytes, segment_metas, new_meta. cbn [cleanup_lock schema_start settings_start segment_metas_start].
    rewrite !(proj2 (Z.eqb_neq _ _)) by lia.
    split; [apply (new_uses_late 2)|]. split; [apply (new_uses_late 3)|]. split; [apply (new_uses_late 5)|apply (new_uses_late 7)].
Qed.

End opening.

(** An index of a version that had the old free space manager and no background merger. *)
Definition old_index : index :=
  mkIndex [UMeta; UCleanupLock; USchema; UListStart; USettings; UListStart; USegmentMetas; UListStart; UVacuumList; USentinel; UMergeLock; UMeta]
    (mkMeta 8 9 10 0 0 0 0 11 0 5 0 0) [].

Lemma open_completes_witness :
  exists i', open 3 old_index = (Ok (meta i'), i') /\ open 3 i' = (Ok (meta i'), i') /\
    uses i' !! Z.to_nat (v2_fsm (meta i')) = Some UV2Fsm /\ v1_fsm (meta i') = InvalidBlockNumber.
Proof.
  destruct (open_completes 3 old_index) as (i' & E & E' & Hc & _ & _ & Hcv).
  - discriminate.
  - vm_compute. reflexivity.
  - exists i'. split; [exact E|]. split; [exact E'|]. split; [exact (proj2 (proj1 (Hc FV2)))|exact (proj2 Hcv)].
Defined.

Lemma init_complete_witness :
  exists i, init 338 (mkIndex [] zero_meta []) = (Ok tt, i) /\ open 338 i = (Ok (meta i), i) /\ uses i !! O = Some UMeta.
Proof.
  destruct (init_complete 338) as (i & A & B & C & _).
  - vm_compute. reflexivity.
  - exists i. split; [exact A|]. split; [exact B|exact C].
Defined.
