(* ===== verification/ParallelScan.v ===== *)
(** * The state that parallel workers share

    [postgres/mod.rs]: [ParallelScanState] lies in shared memory.  Its payload is a block of
    bytes that is cut into ranges: the query, the ids, deleted and maximal documents of the
    segments, who has claimed each segment, and the results of aggregates.  Every operation
    holds the spinlock, so the operations of the workers follow each other. *)

From stdpp Require Import prelude gmap.
From Stdlib Require Import ZArith Lia.
From Stdlib Require String.
From S2P Require Import Prelude.

Local Open Scope Z_scope.

Module ParallelScan.

(** ** Memory layouts

    Of the standard library's [Layout], what is used; [None] is a [LayoutError]. *)

Record Layout := mkLayout { size : nat; align : nat }.

Definition isize_max : Z := 2 ^ 63 - 1.

Definition round_up (n a : nat) : nat := ((n + a - 1) / a * a)%nat.

Definition from_size_align (n a : nat) : option Layout :=
  if Z.of_nat n <=? isize_max - (Z.of_nat a - 1) then Some (mkLayout n a) else None.

(** [Layout::array] of elements of [w] bytes that are aligned to their size. *)
Definition array (w n : nat) : option Layout := from_size_align (w * n) w.

Definition extend (l next : Layout) : option (Layout * nat) :=
  let offset := round_up (size l) (align next) in
  l' ← from_size_align (offset + size next) (Nat.max (align l) (align next));
  Some (l', offset).

Definition pad_to_align (l : Layout) : Layout := mkLayout (round_up (size l) (align l)) (align l).

(** A [Range<usize>]: start and end. *)
Record range := mkRange { start : nat; stop : nat }.

Definition len (r : range) : nat := (stop r - start r)%nat.

Definition SEGMENT_ID_SIZE : nat := 16.
Definition SEGMENT_CLAIM_UNCLAIMED : Z := -2.
Definition WORKER_METRICS_MAX_COUNT : nat := 256.
Definition USIZE : nat := 8.
Definition HEADER_SIZE : nat := 24.

Record AggregatesPayloadHeader := mkHeader { watermark : Z; received_count : Z; serialized_aggregations_len : Z }.

Record ParallelScanPayloadLayout := mkPayloadLayout {
  query : range;
  ids : range;
  deleted_docs : range;
  max_docs : range;
  claims : range;
  aggregates_header : option range;
  aggregates_data : option range;
  total : Layout;
}.

(** [nsegments * SEGMENT_ID_SIZE] does not wrap for fewer than 2^60 segments.
    [data_size] is the setting [max_window_aggregate_response_bytes]. *)
Definition layout_new (data_size : nat) (nsegments : nat) (query_len : nat) (with_aggregates : bool) : option ParallelScanPayloadLayout :=
  layout ← from_size_align query_len 1;
  let query_range := mkRange 0 (size layout) in
  ids_layout ← from_size_align (nsegments * SEGMENT_ID_SIZE) 1;
  '(layout, ids_offset) ← extend layout ids_layout;
  let ids_range := mkRange ids_offset (ids_offset + size ids_layout) in
  deleted_docs_layout ← array 4 nsegments;
  '(layout, deleted_docs_offset) ← extend layout deleted_docs_layout;
  let deleted_docs_range := mkRange deleted_docs_offset (deleted_docs_offset + size deleted_docs_layout) in
  max_docs_layout ← array 4 nsegments;
  '(layout, max_docs_offset) ← extend layout max_docs_layout;
  let max_docs_range := mkRange max_docs_offset (max_docs_offset + size max_docs_layout) in
  claims_layout ← array 4 nsegments;
  '(layout, claims_offset) ← extend layout claims_layout;
  let claims_range := mkRange claims_offset (claims_offset + size claims_layout) in
  '(layout, aggregates_header, aggregates_data) ←
    (if with_aggregates : bool then
       '(l, offset) ← extend layout (mkLayout HEADER_SIZE USIZE);
       let header_range := mkRange offset (offset + HEADER_SIZE) in
       data_layout ← from_size_align data_size 1;
       '(l, offset) ← extend l data_layout;
       Some (l, Some header_range, Some (mkRange offset (offset + data_size)))
     else Some (layout, None, None));
  Some (mkPayloadLayout query_range ids_range deleted_docs_range max_docs_range claims_range aggregates_header aggregates_data
          (pad_to_align layout)).

(** [ParallelScanState::size_of]; [self_size] is the size of the fixed part of the struct.
    [None]: the layout fails, which panics. *)
Definition size_of (self_size data_size nsegments query_len : nat) (with_aggregates : bool) : option nat :=
  dynamic_layout ← layout_new data_size nsegments query_len with_aggregates;
  Some (self_size + size (total dynamic_layout))%nat.

(** [u16::MAX] *)
Definition amestimateparallelscan (self_size data_size : nat) : option nat := size_of self_size data_size (Z.to_nat (2 ^ 16 - 1)) 0 false.

(** ** Numbers in memory, least significant byte first *)

Fixpoint le_bytes (n : nat) (v : Z) : list Z :=
  match n with O => [] | S n => v mod 256 :: le_bytes n (v / 256) end.

Fixpoint le_value (l : list Z) : Z :=
  match l with [] => 0 | b :: l => b + 256 * le_value l end.

Definition i32_value (l : list Z) : Z := let v := le_value l in if v <? 2 ^ 31 then v else v - 2 ^ 32.

(** ** The state *)

(** What is read of a tantivy [SegmentReader]. *)
Record SegmentReader := mkReader { uuid_bytes : list Z; num_deleted_docs : Z; max_doc : Z }.

(** [data]: the memory after the fixed part of the struct. *)
Record ParallelScanState := mkState {
  remaining_segments : nat;
  nsegments : nat;
  queries_per_worker : list Z;
  layout : ParallelScanPayloadLayout;
  data : list Z;
}.

Definition set_data (d : list Z) (s : ParallelScanState) : ParallelScanState :=
  mkState (remaining_segments s) (nsegments s) (queries_per_worker s) (layout s) d.
Definition set_remaining (n : nat) (s : ParallelScanState) : ParallelScanState :=
  mkState n (nsegments s) (queries_per_worker s) (layout s) (data s).
Definition set_queries (q : list Z) (s : ParallelScanState) : ParallelScanState :=
  mkState (remaining_segments s) (nsegments s) q (layout s) (data s).

Definition sub (d : list Z) (r : range) : list Z := take (len r) (drop (start r) d).

Definition splice (d : list Z) (off : nat) (x : list Z) : list Z := take off d ++ x ++ drop (off + length x) d.

Section state.
(** Where the memory starts. *)
Variable base : nat.
Context {E : Type}.

Abbreviation SM := (M ParallelScanState E).

(** [&self.data()[range]] *)
Definition slice (r : range) : SM (list Z) := fun s =>
  if ((start r <=? stop r) && (stop r <=? size (total (layout s))))%nat then (Ok (sub (data s) r), s) else (Panic, s).

(** Overwrites a part of [data_mut()]. *)
Definition store (off : nat) (x : list Z) : SM unit := fun s =>
  if (off + length x <=? size (total (layout s)))%nat then (Ok tt, set_data (splice (data s) off x) s) else (Panic, s).

Fixpoint chunks (n : nat) (k : nat) (l : list Z) : list (list Z) :=
  match k with O => [] | S k => take n l :: chunks n k (drop n l) end.

(** [bytemuck::try_cast_slice(..).unwrap()] to elements of [w] bytes, aligned to [a]. *)
Definition cast_slice (w a : nat) (r : range) : SM (list (list Z)) :=
  bytes ← slice r;
  if ((len r mod w =? 0) && ((base + start r) mod a =? 0))%nat then mret (chunks w (len r / w) bytes) else panic.

Definition segment_ids : SM (list (list Z)) := l ← gets layout; cast_slice SEGMENT_ID_SIZE 1 (ids l).
Definition segment_deleted_docs : SM (list Z) := l ← gets layout; x ← cast_slice 4 4 (deleted_docs l); mret (le_value <$> x).
Definition segment_max_docs : SM (list Z) := l ← gets layout; x ← cast_slice 4 4 (max_docs l); mret (le_value <$> x).
Definition segment_claims : SM (list Z) := l ← gets layout; x ← cast_slice 4 4 (claims l); mret (i32_value <$> x).

(** The serialized query; [None] if there is none. *)
Definition query_bytes : SM (option (list Z)) :=
  l ← gets layout;
  if (len (query l) =? 0)%nat then mret None else x ← slice (query l); mret (Some x).

(** [self.segment_claims_mut()[i] = v] *)
Definition set_claim (i : nat) (v : Z) : SM unit :=
  l ← gets layout;
  x ← cast_slice 4 4 (claims l);
  if (i <? length x)%nat then store (start (claims l) + 4 * i) (le_bytes 4 (v mod 2 ^ 32)) else panic.

(** Writes the elements of a range one after the other, from [off] on. *)
Fixpoint store_each (w : nat) (off : nat) (xs : list (list Z)) : SM unit :=
  match xs with
  | [] => mret tt
  | x :: xs => store off x;; store_each w (off + w) xs
  end.

(** [iter().zip(target)]: as many elements as there are in both. *)
Definition fill_range (w a : nat) (r : range) (xs : list (list Z)) : SM unit :=
  targets ← cast_slice w a r;
  store_each w (start r) (take (length targets) xs).

(** [init_without_mutex]; the memory holds anything before. *)
Definition payload_init (data_size : nat) (segments : list SegmentReader) (q : list Z) (with_aggregates : bool) : SM unit :=
  l ← unwrap (layout_new data_size (length segments) (length q) with_aggregates);
  modify (fun s => mkState (remaining_segments s) (nsegments s) (queries_per_worker s) l (data s));;
  _ ← slice (query l);
  store (start (query l)) q;;
  fill_range SEGMENT_ID_SIZE 1 (ids l) (uuid_bytes <$> segments);;
  fill_range 4 4 (deleted_docs l) (le_bytes 4 <$> (num_deleted_docs <$> segments));;
  fill_range 4 4 (max_docs l) (le_bytes 4 <$> (max_doc <$> segments));;
  fill_range 4 4 (claims l) (replicate (length segments) (le_bytes 4 (SEGMENT_CLAIM_UNCLAIMED mod 2 ^ 32))).

Definition init_without_mutex (data_size : nat) (segments : list SegmentReader) (q : list Z) (with_aggregates : bool) : SM unit :=
  payload_init data_size segments q with_aggregates;;
  modify (fun s => mkState (length segments) (length segments) (replicate WORKER_METRICS_MAX_COUNT 0) (layout s) (data s)).

(** Where the counter of a worker is; the leader has the number -1. *)
Definition metrics_offset (parallel_worker_number : Z) : SM nat :=
  if parallel_worker_number + 1 <? 0 then panic else mret (Z.to_nat (parallel_worker_number + 1)).

Definition increment_query_count (parallel_worker_number : Z) : SM unit :=
  offset ← metrics_offset parallel_worker_number;
  modify (fun s => set_queries (alter (fun n => Z.min (n + 1) (2 ^ 16 - 1)) offset (queries_per_worker s)) s).

(** ** Claiming segments *)

Definition segment_id (i : nat) : SM (list Z) := l ← segment_ids; unwrap (l !! i).

(** One turn of the loop of [checkout_segment]; [None] is its [continue].  [waiting]: the
    server debugs parallel queries and the deadline has not passed. *)
Definition try_checkout (waiting : bool) (parallel_worker_number : Z) : SM (option (option (list Z))) :=
  s ← gets id;
  if (remaining_segments s =? 0)%nat then mret (Some None)
  else if waiting && (parallel_worker_number =? -1) && (remaining_segments s =? nsegments s)%nat then mret None
  else
    let claimed_segment := (remaining_segments s - 1)%nat in
    modify (set_remaining claimed_segment);;
    set_claim claimed_segment parallel_worker_number;;
    id ← segment_id claimed_segment;
    mret (Some (Some id)).

(** [clock]: what [waiting] is in each turn. *)
Fixpoint checkout_segment (clock : list bool) (parallel_worker_number : Z) : SM (option (list Z)) :=
  match clock with
  | [] => out_of_fuel
  | waiting :: clock =>
      o ← try_checkout waiting parallel_worker_number;
      match o with
      | Some r => mret r
      | None => checkout_segment clock parallel_worker_number
      end
  end.

Definition reset : SM unit := modify (fun s => set_remaining (nsegments s) s).

(** ** What EXPLAIN shows *)

Record ClaimedSegmentData := mkClaimed { c_id : String.string; c_deleted_docs : Z; c_max_doc : Z }.
Record ParallelExplainWorkerData := mkWorker { query_count : option Z; claimed_segments : list ClaimedSegmentData }.
Record ParallelExplainData := mkExplain { total_query_count : Z; workers : gmap Z ParallelExplainWorkerData }.

(** tantivy's [SegmentId::short_uuid_string]. *)
Variable short_uuid_string : list Z -> String.string.

Fixpoint explain_claims (claimed : list (nat * Z)) (workers : gmap Z (list ClaimedSegmentData)) : SM (gmap Z (list ClaimedSegmentData)) :=
  match claimed with
  | [] => mret workers
  | (i, claiming_worker) :: claimed =>
      if claiming_worker <=? SEGMENT_CLAIM_UNCLAIMED then explain_claims claimed workers
      else
        id ← segment_id i;
        dels ← segment_deleted_docs;
        d ← unwrap (dels !! i);
        maxs ← segment_max_docs;
        m ← unwrap (maxs !! i);
        explain_claims claimed (<[claiming_worker := default [] (workers !! claiming_worker) ++ [mkClaimed (short_uuid_string id) d m]]> workers)
  end.

(** [segment_claims().iter().enumerate().rev()] *)
Definition explain_data : SM ParallelExplainData :=
  cs ← segment_claims;
  ws ← explain_claims (reverse (imap pair cs)) ∅;
  s ← gets id;
  let count w := queries_per_worker s !! Z.to_nat (w + 1) in
  mret (mkExplain (foldr (fun w n => default 0 (count w) + n) 0 (map_to_list ws).*1)
          (map_imap (fun w l => Some (mkWorker (count w) l)) ws)).

(** [segments()]: the deleted documents of each segment, by its id. *)
Definition segments : SM (gmap (list Z) Z) :=
  n ← gets nsegments;
  xs ← segment_ids;
  ds ← segment_deleted_docs;
  if ((n <=? length xs) && (n <=? length ds))%nat
  then mret (foldl (fun m (e : list Z * Z) => <[e.1 := e.2]> m) ∅ (take n (zip xs ds))) else panic.

(** ** Aggregates

    [Res]: tantivy's intermediate results; [merge_fruits], and postcard's [to_allocvec] and
    [from_bytes], may fail. *)

Context {Res : Type}.
Variables (to_allocvec : Res -> option (list Z)) (from_bytes : list Z -> option Res).
Variable merge_fruits : Res -> Res -> option Res.
Variables (failed : E) (max_response_bytes : Z).

Definition read_usize (off : nat) : SM Z := x ← slice (mkRange off (off + USIZE)); mret (le_value x).

(** [bytemuck::from_bytes] *)
Definition read_header (r : range) : SM AggregatesPayloadHeader :=
  _ ← slice r;
  if ((len r =? HEADER_SIZE) && ((base + start r) mod USIZE =? 0))%nat then
    w ← read_usize (start r);
    c ← read_usize (start r + USIZE);
    l ← read_usize (start r + 2 * USIZE);
    mret (mkHeader w c l)
  else panic.

Definition write_header (r : range) (h : AggregatesPayloadHeader) : SM unit :=
  store (start r) (le_bytes 8 (watermark h));;
  store (start r + USIZE) (le_bytes 8 (received_count h));;
  store (start r + 2 * USIZE) (le_bytes 8 (serialized_aggregations_len h)).

(** The buffer is [agg_data[serialized_aggregations_len..]]. *)
Definition buffer_range (h : AggregatesPayloadHeader) (r : range) : SM range :=
  if (serialized_aggregations_len h <=? Z.of_nat (len r)) && (0 <=? serialized_aggregations_len h)
  then mret (mkRange (start r + Z.to_nat (serialized_aggregations_len h)) (stop r)) else panic.

(** [buffer[a..b]] *)
Definition buffer_slice (b : range) (from to : Z) : SM (list Z) :=
  if (0 <=? from) && (from <=? to) && (to <=? Z.of_nat (len b))
  then slice (mkRange (start b + Z.to_nat from) (start b + Z.to_nat to)) else panic.

(** [buffer[at..at + x.len()].copy_from_slice(x)] *)
Definition buffer_store (b : range) (at_ : Z) (x : list Z) : SM unit :=
  if (0 <=? at_) && (at_ + Z.of_nat (length x) <=? Z.of_nat (len b)) then store (start b + Z.to_nat at_) x else panic.

(** A length and that many bytes. *)
Definition store_record (b : range) (at_ : Z) (x : list Z) : SM unit :=
  buffer_store b at_ (le_bytes 8 (Z.of_nat (length x)));;
  buffer_store b (at_ + 8) x.

Definition load_record (b : range) (at_ : Z) : SM (list Z) :=
  l ← buffer_slice b at_ (at_ + 8);
  buffer_slice b (at_ + 8) (at_ + 8 + le_value l).

(** The loop that merges what is in the buffer. *)
Fixpoint merge_loop (fuel : nat) (b : range) (current_offset watermark : Z) (result : Res) : SM Res :=
  match fuel with
  | O => out_of_fuel
  | S fuel =>
      if current_offset <? watermark then
        bytes ← load_record b current_offset;
        res ← ok_or (from_bytes bytes) failed;
        result ← ok_or (merge_fruits result res) failed;
        merge_loop fuel b (current_offset + 8 + Z.of_nat (length bytes)) watermark result
      else mret result
  end.

Definition aggregation_append (result : Res) (segment_count : Z) : SM unit :=
  l ← gets layout;
  match aggregates_header l, aggregates_data l with
  | Some hr, Some dr =>
      h ← read_header hr;
      serialized_result ← ok_or (to_allocvec result) failed;
      let result_len := Z.of_nat (length serialized_result) in
      (if result_len <? max_response_bytes then mret tt else panic);;
      let buffer_full := Z.of_nat (len dr) - serialized_aggregations_len h <? watermark h + 8 + result_len in
      let h := mkHeader (watermark h) ((received_count h + segment_count) mod 2 ^ 64) (serialized_aggregations_len h) in
      write_header hr h;;
      n ← gets nsegments;
      b ← buffer_range h dr;
      if negb buffer_full && negb (received_count h =? Z.of_nat n) then
        store_record b (watermark h) serialized_result;;
        write_header hr (mkHeader (watermark h + 8 + result_len) (received_count h) (serialized_aggregations_len h))
      else
        merged ← merge_loop (S (Z.to_nat (watermark h))) b 0 (watermark h) result;
        serialized_merged ← ok_or (to_allocvec merged) failed;
        let merged_len := Z.of_nat (length serialized_merged) in
        (if merged_len <? max_response_bytes then mret tt else panic);;
        write_header hr (mkHeader 0 (received_count h) (serialized_aggregations_len h));;
        store_record b 0 serialized_merged;;
        write_header hr (mkHeader (8 + merged_len) (received_count h) (serialized_aggregations_len h))
  | _, _ => panic
  end.

(** One turn of the loop of [aggregation_wait]; [None] is its [continue]. *)
Definition aggregation_poll : SM (option Res) :=
  l ← gets layout;
  match aggregates_header l with
  | Some hr =>
      h ← read_header hr;
      n ← gets nsegments;
      if received_count h =? Z.of_nat n then
        dr ← unwrap (aggregates_data l);
        b ← buffer_range h dr;
        (if 0 <? watermark h then mret tt else panic);;
        bytes ← load_record b 0;
        r ← unwrap (from_bytes bytes);
        mret (Some r)
      else mret None
  | None => panic
  end.

End state.

End ParallelScan.
