(* ===== verification/ParallelScanMem.v ===== *)
(** * The memory of a parallel scan

    The ranges of a layout, and what overwriting one of them does to the others. *)

From stdpp Require Import prelude gmap.
From Stdlib Require Import ZArith Lia Permutation.
From S2P Require Import Prelude ParallelScan.
From stdpp Require Import list.
Import ParallelScan.

Local Open Scope Z_scope.

(** ** Layouts *)

Lemma round_up_spec n a : (0 < a)%nat -> (n <= round_up n a < n + a)%nat /\ (round_up n a mod a = 0)%nat.
Proof.
  intros Ha. unfold round_up. split; [|by apply Nat.Div0.mod_mul].
  pose proof (Nat.div_mod_eq (n + a - 1) a). pose proof (Nat.mod_upper_bound (n + a - 1) a ltac:(lia)). nia.
Qed.

Lemma round_up_mono n m a : (n <= m)%nat -> (round_up n a <= round_up m a)%nat.
Proof. intros Hnm. unfold round_up. apply Nat.mul_le_mono_r. destruct a as [|a]; [done|]. apply Nat.Div0.div_le_mono. lia. Qed.

Lemma round_up_id n a : (0 < a)%nat -> (n mod a = 0)%nat -> round_up n a = n.
Proof.
  intros Ha Hn. unfold round_up. pose proof (Nat.div_mod_eq n a) as E. rewrite Hn in E.
  replace (n + a - 1)%nat with ((n / a) * a + (a - 1))%nat by lia. rewrite Nat.div_add_l, (Nat.div_small (a - 1)) by lia. lia.
Qed.

Lemma from_size_align_Some n a l : from_size_align n a = Some l -> l = mkLayout n a.
Proof. unfold from_size_align. case_match; [|done]. by intros [= <-]. Qed.

Lemma extend_Some l next l' off : extend l next = Some (l', off) ->
  off = round_up (size l) (align next) /\ l' = mkLayout (off + size next) (Nat.max (align l) (align next)).
Proof.
  unfold extend. destruct (from_size_align _ _) as [x|] eqn:E; [|done]. apply from_size_align_Some in E as ->. cbn. by intros [= <- <-].
Qed.

(** One range after the other. *)
Definition follows (r r' : range) : Prop := (stop r <= start r')%nat.

(** What the ranges of a layout are. *)
Record layout_ok (data_size nsegs query_len : nat) (l : ParallelScanPayloadLayout) : Prop := {
  lo_query : query l = mkRange 0 query_len;
  lo_ids : ids l = mkRange query_len (query_len + 16 * nsegs);
  lo_deleted : follows (ids l) (deleted_docs l) /\ stop (deleted_docs l) = (start (deleted_docs l) + 4 * nsegs)%nat /\ (start (deleted_docs l) mod 4 = 0)%nat;
  lo_max : follows (deleted_docs l) (max_docs l) /\ stop (max_docs l) = (start (max_docs l) + 4 * nsegs)%nat /\ (start (max_docs l) mod 4 = 0)%nat;
  lo_claims : follows (max_docs l) (claims l) /\ stop (claims l) = (start (claims l) + 4 * nsegs)%nat /\ (start (claims l) mod 4 = 0)%nat;
  lo_header : forall h, aggregates_header l = Some h -> follows (claims l) h /\ stop h = (start h + 24)%nat /\ (start h mod 8 = 0)%nat /\
    exists d, aggregates_data l = Some d /\ follows h d /\ stop d = (start d + data_size)%nat /\ (stop d <= size (total l))%nat;
  lo_none : aggregates_header l = None -> aggregates_data l = None;
  lo_total : (stop (claims l) <= size (total l))%nat /\
    forall h d, aggregates_header l = Some h -> aggregates_data l = Some d -> (stop h <= size (total l))%nat /\ (stop d <= size (total l))%nat;
}.

(** The size of a layout. *)
Definition claims_end (nsegs query_len : nat) : nat :=
  (round_up (round_up (round_up (query_len + nsegs * 16) 4 + 4 * nsegs) 4 + 4 * nsegs) 4 + 4 * nsegs)%nat.

Definition total_size (data_size nsegs query_len : nat) (aggs : bool) : nat :=
  if aggs then round_up (round_up (claims_end nsegs query_len) 8 + 24 + data_size) 8 else round_up (claims_end nsegs query_len) 4.

Lemma round_up_1 n : round_up n 1 = n.
Proof. apply round_up_id; [lia|apply Nat.mod_1_r]. Qed.

Lemma layout_new_ok data_size nsegs query_len aggs l : layout_new data_size nsegs query_len aggs = Some l ->
  layout_ok data_size nsegs query_len l /\ (aggregates_header l = None <-> aggs = false) /\ size (total l) = total_size data_size nsegs query_len aggs.
Proof.
  unfold layout_new, array, SEGMENT_ID_SIZE. intros E.
  destruct (from_size_align query_len 1) as [l1|] eqn:E1; [|done]. cbn [mbind option_bind] in E. apply from_size_align_Some in E1 as ->.
  destruct (from_size_align (nsegs * 16) 1) as [l2|] eqn:E2; [|done]. cbn [mbind option_bind] in E. apply from_size_align_Some in E2 as ->.
  destruct (extend _ _) as [[l3 o3]|] eqn:E3 in E; [|done]. cbn [mbind option_bind] in E. apply extend_Some in E3 as [O3 ->].
  destruct (from_size_align (4 * nsegs) 4) as [l4|] eqn:E4; [|done]. cbn [mbind option_bind] in E. apply from_size_align_Some in E4 as ->.
  destruct (extend _ _) as [[l5 o5]|] eqn:E5 in E; [|done]. cbn [mbind option_bind] in E. apply extend_Some in E5 as [O5 ->].
  destruct (extend _ _) as [[l6 o6]|] eqn:E6 in E; [|done]. cbn [mbind option_bind] in E. apply extend_Some in E6 as [O6 ->].
  destruct (extend _ _) as [[l7 o7]|] eqn:E7 in E; [|done]. cbn [mbind option_bind] in E. apply extend_Some in E7 as [O7 ->].
  cbn [size align] in *.
  pose proof (round_up_spec query_len 1 ltac:(lia)) as [H3 _]. rewrite <- O3 in H3.
  pose proof (round_up_spec (o3 + nsegs * 16) 4 ltac:(lia)) as [H5 H5']. rewrite <- O5 in H5, H5'.
  pose proof (round_up_spec (o5 + 4 * nsegs) 4 ltac:(lia)) as [H6 H6']. rewrite <- O6 in H6, H6'.
  pose proof (round_up_spec (o6 + 4 * nsegs) 4 ltac:(lia)) as [H7 H7']. rewrite <- O7 in H7, H7'.
  destruct aggs; cbn [mbind option_bind] in E.
  - unfold HEADER_SIZE, USIZE in E.
    destruct (extend _ _) as [[l8 o8]|] eqn:E8 in E; [|done]. cbn [mbind option_bind] in E. apply extend_Some in E8 as [O8 ->].
    destruct (from_size_align data_size 1) as [l9|] eqn:E9; [|done]. cbn [mbind option_bind] in E. apply from_size_align_Some in E9 as ->.
    destruct (extend _ _) as [[l10 o10]|] eqn:E10 in E; [|done]. cbn [mbind option_bind] in E. apply extend_Some in E10 as [O10 ->].
    cbn [size align] in *. pose proof (round_up_spec (o7 + 4 * nsegs) 8 ltac:(lia)) as [H8 H8']. rewrite <- O8 in H8, H8'.
    pose proof (round_up_spec (o8 + 24) 1 ltac:(lia)) as [H10 _]. rewrite <- O10 in H10. 
    rewrite round_up_1 in O3, O10. apply (inj Some) in E. subst l. split; [|split; [done|]].
    2: { unfold total_size, claims_end. cbn [total size pad_to_align align Nat.max]. rewrite <- O3, <- O5, <- O6, <- O7, <- O8. by rewrite O10. }
    clear O3 O5 O6 O7 O8 O10.
    pose proof (proj1 (round_up_spec (o10 + data_size) 8 ltac:(lia))) as Hp.
    split; unfold follows; cbn [query ids deleted_docs max_docs claims aggregates_header aggregates_data total start stop size align pad_to_align Nat.max].
    + done.
    + f_equal; lia.
    + repeat split; lia.
    + repeat split; lia.
    + repeat split; lia.
    + intros h [= <-]. cbn [start stop]. do 3 (split; [lia|]). eexists. split; [reflexivity|]. cbn [start stop]. lia.
    + done.
    + split; [lia|]. intros h d [= <-] [= <-]. cbn [stop]. lia.
  - rewrite round_up_1 in O3. apply (inj Some) in E. subst l. split; [|split; [done|]].
    2: { unfold total_size, claims_end. cbn [total size pad_to_align align Nat.max]. by rewrite <- O3, <- O5, <- O6, <- O7. }
    clear O3 O5 O6 O7. pose proof (proj1 (round_up_spec (o7 + 4 * nsegs) 4 ltac:(lia))) as Hp.
    split; unfold follows; cbn [query ids deleted_docs max_docs claims aggregates_header aggregates_data total start stop size align pad_to_align Nat.max].
    + done.
    + f_equal; lia.
    + repeat split; lia.
    + repeat split; lia.
    + repeat split; lia.
    + done.
    + done.
    + split; [lia|done].
Qed.

Lemma total_size_mono data_size n n' query_len aggs : (n <= n')%nat -> (total_size data_size n query_len aggs <= total_size data_size n' query_len aggs)%nat.
Proof.
  intros Hn. unfold total_size, claims_end. destruct aggs; repeat (apply round_up_mono || apply Nat.add_le_mono); lia.
Qed.

Lemma from_size_align_ok n a : Z.of_nat (n + a) <= isize_max -> from_size_align n a = Some (mkLayout n a).
Proof. intros Hn. unfold from_size_align. by rewrite (proj2 (Z.leb_le _ _)) by lia. Qed.

Lemma extend_ok l next : (0 < align next)%nat -> Z.of_nat (size l + align next + size next + Nat.max (align l) (align next)) <= isize_max ->
  exists l' off, extend l next = Some (l', off) /\ (size l' <= size l + align next + size next)%nat /\ align l' = Nat.max (align l) (align next).
Proof.
  intros Ha Hl. unfold extend. pose proof (round_up_spec (size l) (align next) Ha) as [Hr _]. rewrite from_size_align_ok by lia. cbn [mbind option_bind].
  eexists _, _. split; [reflexivity|]. cbn [size align]. lia.
Qed.

(** A layout fails only for sizes beyond the address space. *)
Lemma layout_new_some data_size nsegs query_len aggs : Z.of_nat (query_len + 28 * nsegs + data_size + 200) <= isize_max ->
  exists l, layout_new data_size nsegs query_len aggs = Some l.
Proof.
  intros Hs. unfold layout_new, array, SEGMENT_ID_SIZE. rewrite (from_size_align_ok query_len 1) by lia. cbn [mbind option_bind]. rewrite (from_size_align_ok (nsegs * 16) 1) by lia. cbn [mbind option_bind].
  edestruct (extend_ok (mkLayout query_len 1) (mkLayout (nsegs * 16) 1)) as (l1 & o1 & -> & S1 & A1); cbn [size align] in *; [lia|lia|]. cbn [mbind option_bind].
  rewrite (from_size_align_ok (4 * nsegs) 4) by lia. cbn [mbind option_bind].
  edestruct (extend_ok l1 (mkLayout (4 * nsegs) 4)) as (l2 & o2 & -> & S2 & A2); cbn [size align] in *; [lia|lia|]. cbn [mbind option_bind].
  edestruct (extend_ok l2 (mkLayout (4 * nsegs) 4)) as (l3 & o3 & -> & S3 & A3); cbn [size align] in *; [lia|lia|]. cbn [mbind option_bind].
  edestruct (extend_ok l3 (mkLayout (4 * nsegs) 4)) as (l4 & o4 & -> & S4 & A4); cbn [size align] in *; [lia|lia|]. cbn [mbind option_bind].
  destruct aggs; cbn [mbind option_bind]; [|by eexists]. unfold HEADER_SIZE, USIZE.
  edestruct (extend_ok l4 (mkLayout 24 8)) as (l5 & o5 & -> & S5 & A5); cbn [size align] in *; [lia|lia|]. cbn [mbind option_bind].
  rewrite (from_size_align_ok data_size 1) by lia. cbn [mbind option_bind].
  edestruct (extend_ok l5 (mkLayout data_size 1)) as (l6 & o6 & -> & S6 & A6); cbn [size align] in *; [lia|lia|]. cbn [mbind option_bind]. by eexists.
Qed.

(** ** Memory *)

Lemma length_splice d off x : (off + length x <= length d)%nat -> length (splice d off x) = length d.
Proof. intros Hl. unfold splice. rewrite !length_app, length_take, length_drop. lia. Qed.

(** The [n] bytes from [off] on. *)
Definition bytes_at (d : list Z) (off n : nat) : list Z := take n (drop off d).

Lemma bytes_at_lookup d off n i : (i < n)%nat -> bytes_at d off n !! i = d !! (off + i)%nat.
Proof. intros Hi. unfold bytes_at. by rewrite lookup_take_lt, lookup_drop by done. Qed.

Lemma length_bytes_at d off n : (off + n <= length d)%nat -> length (bytes_at d off n) = n.
Proof. intros Hl. unfold bytes_at. rewrite length_take, length_drop. lia. Qed.

Lemma splice_lookup_in d off x i : (off + length x <= length d)%nat -> (off <= i < off + length x)%nat -> splice d off x !! i = x !! (i - off)%nat.
Proof.
  intros Hl Hi. unfold splice. rewrite lookup_app_r by (rewrite length_take; lia). rewrite length_take, Nat.min_l by lia. by rewrite lookup_app_l by lia.
Qed.

Lemma splice_lookup_out d off x i : (off + length x <= length d)%nat -> (i < off \/ off + length x <= i)%nat -> splice d off x !! i = d !! i.
Proof.
  intros Hl Hi. unfold splice. destruct (decide (i < off)%nat) as [Hlt|Hge].
  - rewrite lookup_app_l by (rewrite length_take; lia). by rewrite lookup_take_lt.
  - rewrite lookup_app_r by (rewrite length_take; lia). rewrite length_take, Nat.min_l by lia. rewrite lookup_app_r by lia. rewrite lookup_drop. f_equal. lia.
Qed.

Lemma bytes_at_ext d d' off off' n : length d = length d' -> (off + n <= length d)%nat -> (off' + n <= length d')%nat ->
  (forall i, (i < n)%nat -> d !! (off + i)%nat = d' !! (off' + i)%nat) -> bytes_at d off n = bytes_at d' off' n.
Proof.
  intros Hl H1 H2 Hx. apply list_eq. intros i. destruct (decide (i < n)%nat) as [Hi|Hi].
  - rewrite !bytes_at_lookup by done. by apply Hx.
  - rewrite !lookup_ge_None_2; [done|rewrite length_bytes_at; lia..].
Qed.

Lemma bytes_at_splice_out d off x a n : (off + length x <= length d)%nat -> (a + n <= length d)%nat -> (a + n <= off \/ off + length x <= a)%nat ->
  bytes_at (splice d off x) a n = bytes_at d a n.
Proof.
  intros Hl Ha Hd. apply bytes_at_ext; [by apply length_splice|by rewrite length_splice|done|]. intros i Hi. apply splice_lookup_out; lia.
Qed.

Lemma bytes_at_splice_in d off x n : (off + length x <= length d)%nat -> n = length x -> bytes_at (splice d off x) off n = x.
Proof.
  intros Hl ->. apply list_eq. intros i. destruct (decide (i < length x)%nat) as [Hi|Hi].
  - rewrite bytes_at_lookup, splice_lookup_in by lia. f_equal. lia.
  - rewrite !lookup_ge_None_2; [done|lia|rewrite length_bytes_at; [lia|rewrite length_splice; lia]].
Qed.

(** A part of a part. *)
Lemma bytes_at_bytes_at d off n a k : (a + k <= n)%nat -> bytes_at (bytes_at d off n) a k = bytes_at d (off + a) k.
Proof.
  intros Hl. unfold bytes_at. rewrite skipn_firstn_comm, take_take, drop_drop. f_equal. lia.
Qed.

Lemma bytes_at_app d off n m : bytes_at d off (n + m) = bytes_at d off n ++ bytes_at d (off + n) m.
Proof. unfold bytes_at. rewrite <- (take_take_drop _ n m), drop_drop. done. Qed.

Lemma splice_splice d off x y : (off + length x + length y <= length d)%nat -> splice (splice d off x) (off + length x) y = splice d off (x ++ y).
Proof.
  intros Hl. assert (length (splice d off x) = length d) as E1 by (apply length_splice; lia). apply list_eq. intros i.
  destruct (decide (i < off \/ off + length x + length y <= i)%nat) as [Ho|Hi].
  - rewrite !splice_lookup_out; rewrite ?E1, ?length_app; try lia. done.
  - destruct (decide (i < off + length x)%nat) as [Hx|Hx].
    + rewrite splice_lookup_out by (rewrite ?E1; lia). rewrite !splice_lookup_in by (rewrite ?length_app; lia). by rewrite lookup_app_l by lia.
    + rewrite !splice_lookup_in by (rewrite ?E1, ?length_app; lia). rewrite lookup_app_r by lia. f_equal. lia.
Qed.

Lemma splice_nil d off : splice d off [] = d.
Proof. unfold splice. cbn [app length]. by rewrite Nat.add_0_r, take_drop. Qed.

Lemma splice_overwrite d off x : (off + length x <= length d)%nat -> bytes_at d off (length x) = x -> splice d off x = d.
Proof.
  intros Hl Hx. apply list_eq. intros i. destruct (decide (i < off \/ off + length x <= i)%nat) as [Ho|Hi]; [by apply splice_lookup_out|].
  rewrite splice_lookup_in by lia. rewrite <- Hx at 1. rewrite bytes_at_lookup by lia. f_equal. lia.
Qed.

(** ** Elements of the same size *)

Definition of_width (w : nat) (xs : list (list Z)) : Prop := Forall (fun x => length x = w) xs.

Lemma concat_width w xs : of_width w xs -> length (concat xs) = (w * length xs)%nat.
Proof. induction 1 as [|x xs Hx _ IH]; cbn; [lia|]. rewrite length_app, IH, Hx. lia. Qed.

Lemma chunks_concat w xs rest : of_width w xs -> chunks w (length xs) (concat xs ++ rest) = xs.
Proof.
  induction 1 as [|x xs Hx _ IH]; [done|]. cbn [concat length chunks]. rewrite <- app_assoc, take_app_length', drop_app_length' by done. by rewrite IH.
Qed.

Lemma concat_insert w xs i x : of_width w xs -> length x = w -> (i < length xs)%nat ->
  concat (<[i := x]> xs) = splice (concat xs) (w * i) x.
Proof.
  intros Hw Hx. revert i. induction Hw as [|y xs Hy _ IH]; intros i Hi; [cbn in Hi; lia|]. destruct i as [|i].
  - change (x ++ concat xs = splice (y ++ concat xs) (w * 0) x). unfold splice. rewrite Nat.mul_0_r. cbn [take app Nat.add].
    by rewrite drop_app_length' by congruence.
  - cbn [insert list_insert concat]. cbn in Hi. fold (<[i := x]> xs). rewrite IH by lia. unfold splice.
    replace (w * S i)%nat with (length y + w * i)%nat by lia. rewrite take_app_add. rewrite <- !app_assoc. do 3 f_equal.
    replace (length y + w * i + length x)%nat with (length y + (w * i + length x))%nat by lia. by rewrite drop_app_add.
Qed.

(** The range from [off] on holds the elements [xs]. *)
Definition holds (d : list Z) (off w : nat) (xs : list (list Z)) : Prop :=
  of_width w xs /\ (off + w * length xs <= length d)%nat /\ bytes_at d off (w * length xs) = concat xs.

Lemma holds_frame d d' off w xs : holds d off w xs -> length d' = length d -> bytes_at d' off (w * length xs) = bytes_at d off (w * length xs) ->
  holds d' off w xs.
Proof. intros (Hw & Hl & Hb) Hd E. split; [done|]. rewrite Hd, E. done. Qed.

Lemma holds_out d off w xs o x : holds d off w xs -> (o + length x <= length d)%nat -> (o + length x <= off \/ off + w * length xs <= o)%nat ->
  holds (splice d o x) off w xs.
Proof. intros Hh Hl Ho. pose proof Hh as (_ & Hl' & _). eapply holds_frame; [done|by apply length_splice|]. apply bytes_at_splice_out; lia. Qed.

Lemma holds_all d off w xs : of_width w xs -> (off + length (concat xs) <= length d)%nat -> holds (splice d off (concat xs)) off w xs.
Proof.
  intros Hw Hl. pose proof (concat_width w xs Hw) as Ec. split; [done|]. rewrite length_splice by done. split; [lia|].
  rewrite <- Ec. by apply bytes_at_splice_in.
Qed.

Lemma holds_insert d off w xs i x : holds d off w xs -> length x = w -> (i < length xs)%nat -> holds (splice d (off + w * i) x) off w (<[i := x]> xs).
Proof.
  intros (Hw & Hl & Hb) Hx Hi. assert (w * i + w <= w * length xs)%nat as Hle by nia. split; [by apply Forall_insert|].
  rewrite length_insert, length_splice by lia. split; [done|]. rewrite (concat_insert w) by done. rewrite <- Hb.
  apply list_eq. intros j. destruct (decide (j < w * length xs)%nat) as [Hj|Hj].
  - rewrite bytes_at_lookup by done. assert (length (bytes_at d off (w * length xs)) = (w * length xs)%nat) as Hlb by (apply length_bytes_at; lia).
    destruct (decide (w * i <= j < w * i + w)%nat) as [Hin|Hout].
    + rewrite !splice_lookup_in by lia. f_equal. lia.
    + rewrite !splice_lookup_out by lia. by rewrite bytes_at_lookup.
  - rewrite !lookup_ge_None_2; [done| |rewrite length_bytes_at; [lia|rewrite length_splice; lia]].
    rewrite length_splice; rewrite length_bytes_at; lia.
Qed.

(** ** Numbers *)

Lemma length_le_bytes n v : length (le_bytes n v) = n.
Proof. revert v. induction n as [|n IH]; intros v; [done|]. cbn. by rewrite IH. Qed.

Lemma le_value_bytes n v : 0 <= v < 256 ^ Z.of_nat n -> le_value (le_bytes n v) = v.
Proof.
  revert v. induction n as [|n IH]; intros v Hv; [cbn in Hv; cbn; lia|]. cbn [le_bytes le_value].
  rewrite Nat2Z.inj_succ, Z.pow_succ_r in Hv by lia. rewrite IH.
  - pose proof (Z.div_mod v 256). lia.
  - split; [apply Z.div_pos; lia|]. apply Z.div_lt_upper_bound; lia.
Qed.

Lemma u32_bytes v : 0 <= v < 2 ^ 32 -> le_value (le_bytes 4 v) = v.
Proof. intros Hv. by apply le_value_bytes. Qed.

Lemma usize_bytes v : 0 <= v < 2 ^ 64 -> le_value (le_bytes 8 v) = v.
Proof. intros Hv. by apply le_value_bytes. Qed.

Lemma i32_bytes v : - 2 ^ 31 <= v < 2 ^ 31 -> i32_value (le_bytes 4 (v mod 2 ^ 32)) = v.
Proof.
  intros Hv. unfold i32_value. pose proof (Z.mod_pos_bound v (2 ^ 32) ltac:(lia)) as Hm. rewrite u32_bytes by done.
  destruct (decide (0 <= v)) as [Hp|Hn].
  - rewrite Z.mod_small by lia. by rewrite (proj2 (Z.ltb_lt _ _)) by lia.
  - assert (v mod 2 ^ 32 = v + 2 ^ 32) as -> by (symmetry; apply (Z.mod_unique _ _ (-1)); lia). rewrite (proj2 (Z.ltb_ge _ _)) by lia. lia.
Qed.
