(* ===== verification/ParallelScanProps.v ===== *)
(** * Parallel workers share a scan

    However the workers interleave, every segment is claimed once, and the result of an
    aggregate has every partial result in it once. *)

From stdpp Require Import prelude gmap.
From Stdlib Require Import ZArith Lia Permutation.
From S2P Require Import Prelude ParallelScan ParallelScanMem.
From stdpp Require Import list.
Import ParallelScan.

Local Open Scope Z_scope.

Section scan.
Variable base : nat.
(** Shared memory is aligned. *)
Hypothesis base_aligned : (base mod 8 = 0)%nat.
Context {E : Type}.

Implicit Types (s : ParallelScanState).

(** [c] returns with [Q]; it does not panic. *)
Definition sruns {A} (c : M ParallelScanState E A) s (Q : A -> ParallelScanState -> Prop) : Prop := mwp (fun _ => False) c s Q.

Lemma sruns_ret {A} (a : A) s (Q : A -> ParallelScanState -> Prop) : Q a s -> sruns (mret a) s Q.
Proof. done. Qed.

Lemma sruns_bind {A B} (c : M ParallelScanState E A) (f : A -> M ParallelScanState E B) s Q :
  sruns c s (fun a s' => sruns (f a) s' Q) -> sruns (c ≫= f) s Q.
Proof. apply mwp_bind. Qed.

Lemma sruns_gets {A} (f : ParallelScanState -> A) s (Q : A -> ParallelScanState -> Prop) : Q (f s) s -> sruns (gets f) s Q.
Proof. done. Qed.

Lemma sruns_modify f s (Q : unit -> ParallelScanState -> Prop) : Q tt (f s) -> sruns (modify f) s Q.
Proof. done. Qed.

Lemma sruns_mono {A} (c : M ParallelScanState E A) s (Q Q' : A -> ParallelScanState -> Prop) :
  sruns c s Q -> (forall a s', Q a s' -> Q' a s') -> sruns c s Q'.
Proof. apply mwp_mono. Qed.

(** ** Reading and writing *)

(** All of the layout is in memory. *)
Definition in_memory s : Prop := (size (total (layout s)) <= length (data s))%nat.

Lemma slice_spec r s (Q : list Z -> ParallelScanState -> Prop) : (start r <= stop r)%nat -> (stop r <= size (total (layout s)))%nat ->
  Q (bytes_at (data s) (start r) (len r)) s -> sruns (slice r) s Q.
Proof. intros H1 H2 HQ. unfold slice, sruns, mwp. by rewrite (proj2 (Nat.leb_le _ _) H1), (proj2 (Nat.leb_le _ _) H2). Qed.

Lemma store_spec off x s (Q : unit -> ParallelScanState -> Prop) : (off + length x <= size (total (layout s)))%nat ->
  Q tt (set_data (splice (data s) off x) s) -> sruns (store off x) s Q.
Proof. intros Hl HQ. unfold store, sruns, mwp. by rewrite (proj2 (Nat.leb_le _ _) Hl). Qed.

Lemma cast_slice_spec w a r xs s (Q : list (list Z) -> ParallelScanState -> Prop) : (0 < w)%nat -> holds (data s) (start r) w xs ->
  stop r = (start r + w * length xs)%nat -> (stop r <= size (total (layout s)))%nat -> ((base + start r) mod a = 0)%nat ->
  Q xs s -> sruns (cast_slice base w a r) s Q.
Proof.
  intros Hw (Hwd & Hl & Hb) Hst Ht Ha HQ. unfold cast_slice. apply sruns_bind, slice_spec; [lia|done|].
  assert (len r = w * length xs)%nat as Hlen by (unfold len; lia). rewrite Hlen, Hb, (Nat.mul_comm w), Nat.Div0.mod_mul, Ha. cbn [Nat.eqb andb].
  rewrite Nat.div_mul by lia. apply sruns_ret. rewrite <- (app_nil_r (concat xs)), chunks_concat by done. exact HQ.
Qed.

(** Without regard to what is there. *)
Lemma cast_slice_any w a r n s (Q : list (list Z) -> ParallelScanState -> Prop) : (0 < w)%nat ->
  stop r = (start r + w * n)%nat -> (stop r <= size (total (layout s)))%nat -> ((base + start r) mod a = 0)%nat ->
  (forall xs, length xs = n -> Q xs s) -> sruns (cast_slice base w a r) s Q.
Proof.
  intros Hw Hst Ht Ha HQ. unfold cast_slice. apply sruns_bind, slice_spec; [lia|done|].
  assert (len r = w * n)%nat as -> by (unfold len; lia). rewrite (Nat.mul_comm w), Nat.Div0.mod_mul, Ha. cbn [Nat.eqb andb].
  rewrite Nat.div_mul by lia. apply sruns_ret, HQ. generalize (bytes_at (data s) (start r) (n * w)). clear. induction n as [|n IH]; intros l; [done|].
  cbn. by rewrite IH.
Qed.

Lemma store_each_spec w xs off s (Q : unit -> ParallelScanState -> Prop) : in_memory s -> of_width w xs ->
  (off + w * length xs <= size (total (layout s)))%nat -> Q tt (set_data (splice (data s) off (concat xs)) s) -> sruns (store_each w off xs) s Q.
Proof.
  clear base_aligned. intros Hm Hw. revert off s Hm Q. induction Hw as [|x xs Hx Hw IH]; intros off s Hm Q Hl HQ; cbn [store_each].
  { apply sruns_ret. cbn [concat] in HQ. rewrite splice_nil in HQ. by destruct s. }
  cbn [length] in Hl. unfold in_memory in Hm. apply sruns_bind, store_spec; [lia|]. apply IH.
  - unfold in_memory. cbn [set_data layout data]. by rewrite length_splice by lia.
  - cbn [set_data layout]. lia.
  - cbn [set_data data remaining_segments nsegments queries_per_worker layout concat] in *. unfold set_data. cbn [remaining_segments nsegments queries_per_worker layout].
    rewrite <- Hx, splice_splice; [done|]. rewrite (concat_width w) by done. lia.
Qed.

Lemma fill_range_spec w a r xs s (Q : unit -> ParallelScanState -> Prop) : (0 < w)%nat -> in_memory s -> of_width w xs ->
  stop r = (start r + w * length xs)%nat -> (stop r <= size (total (layout s)))%nat -> ((base + start r) mod a = 0)%nat ->
  Q tt (set_data (splice (data s) (start r) (concat xs)) s) -> sruns (fill_range base w a r xs) s Q.
Proof.
  intros Hw Hm Hwd Hst Ht Ha HQ. unfold fill_range. apply sruns_bind. eapply cast_slice_any; [done|exact Hst|done|done|]. intros ts Hts.
  rewrite take_ge by lia. apply store_each_spec; [done|done|lia|done].
Qed.

(** ** The state after [init] *)

Record seg_ok (g : SegmentReader) : Prop := {
  sg_uuid : length (uuid_bytes g) = 16%nat;
  sg_deleted : 0 <= num_deleted_docs g < 2 ^ 32;
  sg_max : 0 <= max_doc g < 2 ^ 32;
}.

Definition claim_bytes (v : Z) : list Z := le_bytes 4 (v mod 2 ^ 32).

(** [cs]: who has claimed each segment. *)
Record scan_ok (data_size : nat) (segs : list SegmentReader) (q : list Z) (cs : list Z) s : Prop := {
  sk_layout : layout_ok data_size (length segs) (length q) (layout s);
  sk_memory : in_memory s;
  sk_nsegments : nsegments s = length segs;
  sk_query : bytes_at (data s) 0 (length q) = q;
  sk_ids : holds (data s) (start (ids (layout s))) 16 (uuid_bytes <$> segs);
  sk_deleted : holds (data s) (start (deleted_docs (layout s))) 4 (le_bytes 4 <$> (num_deleted_docs <$> segs));
  sk_max : holds (data s) (start (max_docs (layout s))) 4 (le_bytes 4 <$> (max_doc <$> segs));
  sk_claims : holds (data s) (start (claims (layout s))) 4 (claim_bytes <$> cs);
  sk_length : length cs = length segs;
  sk_workers : Forall (fun w => -2 <= w < 2 ^ 31) cs;
}.

Lemma of_width_le {A} w (f : A -> Z) xs : of_width w ((fun x => le_bytes w (f x)) <$> xs).
Proof. apply Forall_fmap, Forall_forall. intros x _. apply length_le_bytes. Qed.

(** Overwriting what lies behind the claims. *)
Lemma scan_ok_behind data_size segs q cs s off x : scan_ok data_size segs q cs s -> (stop (claims (layout s)) <= off)%nat ->
  (off + length x <= size (total (layout s)))%nat -> scan_ok data_size segs q cs (set_data (splice (data s) off x) s).
Proof.
  clear base_aligned. intros [Hl Hm Hn Hq Hi Hd Hx Hc Hlen Hw] Ho Hs. pose proof Hl as [Lq Li (Ld1 & Ld2 & _) (Lm1 & Lm2 & _) (Lc1 & Lc2 & _) _ _ _].
  unfold in_memory, follows in *. rewrite Li in *. cbn [start stop] in *.
  split; cbn [set_data layout data nsegments]; try done.
  - unfold in_memory. cbn [set_data layout data]. rewrite length_splice by lia. done.
  - rewrite bytes_at_splice_out by lia. done.
  - apply holds_out; rewrite ?Li; cbn [start]; rewrite ?length_fmap; [done|lia|lia].
  - apply holds_out; rewrite ?length_fmap; [done|lia|lia].
  - apply holds_out; rewrite ?length_fmap; [done|lia|lia].
  - apply holds_out; rewrite ?length_fmap; [done|lia|lia].
Qed.

Lemma scan_ok_other data_size segs q cs s r qs : scan_ok data_size segs q cs s ->
  scan_ok data_size segs q cs (mkState r (nsegments s) qs (layout s) (data s)).
Proof. by intros [Hl Hm Hn Hq Hi Hd Hx Hc Hlen Hw]. Qed.

Lemma aligned_mod a n : (8 mod a = 0)%nat -> (0 < a)%nat -> (n mod a = 0)%nat -> ((base + n) mod a = 0)%nat.
Proof.
  intros Ha Hp Hn. apply Nat.Lcm0.mod_divide in Ha as [k Hk], base_aligned as [j Hj], Hn as [i Hi]. rewrite Hj, Hi, Hk.
  replace (j * (k * a) + i * a)%nat with ((j * k + i) * a)%nat by lia. apply Nat.Div0.mod_mul.
Qed.

Lemma bytes_at_splice_behind d off x a n : (off + length x <= length d)%nat -> (off + length x <= a)%nat ->
  bytes_at (splice d off x) a n = bytes_at d a n.
Proof.
  clear base_aligned. intros Hl Ha. unfold bytes_at. f_equal. apply list_eq. intros i. rewrite !lookup_drop. apply splice_lookup_out; [done|lia].
Qed.

Lemma concat_le_length {A} w (f : A -> Z) xs : length (concat ((fun x => le_bytes w (f x)) <$> xs)) = (w * length xs)%nat.
Proof. rewrite (concat_width w) by apply of_width_le. by rewrite length_fmap. Qed.

Lemma init_spec data_size segs q aggs l s0 (Q : unit -> ParallelScanState -> Prop) :
  layout_new data_size (length segs) (length q) aggs = Some l -> (size (total l) <= length (data s0))%nat -> Forall seg_ok segs ->
  (forall s, scan_ok data_size segs q (replicate (length segs) SEGMENT_CLAIM_UNCLAIMED) s -> layout s = l ->
     remaining_segments s = length segs -> queries_per_worker s = replicate WORKER_METRICS_MAX_COUNT 0 ->
     (forall off n, (stop (claims l) <= off)%nat -> bytes_at (data s) off n = bytes_at (data s0) off n) -> Q tt s) ->
  sruns (init_without_mutex base data_size segs q aggs) s0 Q.
Proof.
  intros El Hmem Hsegs HQ. destruct (layout_new_ok _ _ _ _ _ El) as (Hl & _ & _).
  pose proof Hl as [Lq Li (Ld1 & Ld2 & Ld3) (Lm1 & Lm2 & Lm3) (Lc1 & Lc2 & Lc3) _ _ (Lt & _)]. unfold follows in *. rewrite Li in Ld1. cbn [stop] in Ld1.
  assert (of_width 16 (uuid_bytes <$> segs)) as Wi by (apply Forall_fmap; eapply Forall_impl; [exact Hsegs|]; intros g Hg; apply (sg_uuid _ Hg)).
  pose proof (of_width_le 4 id (num_deleted_docs <$> segs)) as Wd. pose proof (of_width_le 4 id (max_doc <$> segs)) as Wm.
  change (of_width 4 (le_bytes 4 <$> (num_deleted_docs <$> segs))) in Wd. change (of_width 4 (le_bytes 4 <$> (max_doc <$> segs))) in Wm.
  set (un := replicate (length segs) (claim_bytes SEGMENT_CLAIM_UNCLAIMED)).
  assert (of_width 4 un) as Wc by (apply Forall_replicate; apply length_le_bytes).
  pose proof (concat_width _ _ Wi) as Ci. pose proof (concat_width _ _ Wd) as Cd. pose proof (concat_width _ _ Wm) as Cm. pose proof (concat_width _ _ Wc) as Cc.
  rewrite length_fmap in Ci. do 2 rewrite length_fmap in Cd. do 2 rewrite length_fmap in Cm. unfold un in Cc at 2. rewrite length_replicate in Cc.
  unfold init_without_mutex, payload_init. rewrite El. apply sruns_bind, sruns_bind, sruns_ret, sruns_bind, sruns_modify, sruns_bind.
  rewrite Lq. apply slice_spec; cbn [start stop layout]; [lia|lia|]. apply sruns_bind, store_spec; cbn [layout start data set_data remaining_segments nsegments queries_per_worker]; [lia|].
  remember (splice (data s0) 0 q) as d1 eqn:D1. assert (length d1 = length (data s0)) as E1 by (rewrite D1; apply length_splice; lia).
  apply sruns_bind. eapply (fill_range_spec 16 1); cbn [set_data layout data]; [lia|unfold in_memory; cbn [set_data layout data]; lia|done|rewrite Li, length_fmap; done|rewrite Li; cbn; lia|apply Nat.mod_1_r|].
  remember (splice d1 (start (ids l)) (concat (uuid_bytes <$> segs))) as d2 eqn:D2. assert (length d2 = length (data s0)) as E2 by (rewrite D2, length_splice; rewrite ?Li; cbn [start]; lia).
  apply sruns_bind. eapply (fill_range_spec 4 4); cbn [set_data layout data]; [lia|unfold in_memory; cbn [set_data layout data]; lia|done|rewrite !length_fmap; done|lia|apply aligned_mod; [done|lia|done]|].
  remember (splice d2 (start (deleted_docs l)) (concat (le_bytes 4 <$> (num_deleted_docs <$> segs)))) as d3 eqn:D3. assert (length d3 = length (data s0)) as E3 by (rewrite D3, length_splice; lia).
  apply sruns_bind. eapply (fill_range_spec 4 4); cbn [set_data layout data]; [lia|unfold in_memory; cbn [set_data layout data]; lia|done|rewrite !length_fmap; done|lia|apply aligned_mod; [done|lia|done]|].
  remember (splice d3 (start (max_docs l)) (concat (le_bytes 4 <$> (max_doc <$> segs)))) as d4 eqn:D4. assert (length d4 = length (data s0)) as E4 by (rewrite D4, length_splice; lia).
  eapply (fill_range_spec 4 4); cbn [set_data layout data]; [lia|unfold in_memory; cbn [set_data layout data]; lia|exact Wc|unfold un; rewrite length_replicate; done|lia|apply aligned_mod; [done|lia|done]|].
  change (replicate (length segs) (le_bytes 4 (SEGMENT_CLAIM_UNCLAIMED mod 2 ^ 32))) with un. remember (splice d4 (start (claims l)) (concat un)) as d5 eqn:D5. assert (length d5 = length (data s0)) as E5 by (rewrite D5, length_splice; lia).
  apply sruns_modify, HQ; cbn; [|done|done|done|].
  - split; cbn [layout data nsegments]; unfold in_memory; cbn [layout data].
    + done.
    + lia.
    + done.
    + rewrite D5, bytes_at_splice_out, D4, bytes_at_splice_out, D3, bytes_at_splice_out, D2, bytes_at_splice_out by (rewrite ?Li; cbn [start]; lia).
      rewrite D1. apply bytes_at_splice_in; [lia|done].
    + rewrite D5. apply holds_out; rewrite ?length_fmap; [rewrite D4; apply holds_out; rewrite ?length_fmap; [rewrite D3; apply holds_out; rewrite ?length_fmap;
        [rewrite D2; apply holds_all; [done|rewrite Li; cbn [start]; lia]|..]|..]|..]; rewrite ?Li; cbn [start]; lia.
    + rewrite D5. apply holds_out; rewrite ?length_fmap; [rewrite D4; apply holds_out; rewrite ?length_fmap; [rewrite D3; apply holds_all; [done|lia]|..]|..]; lia.
    + rewrite D5. apply holds_out; rewrite ?length_fmap; [rewrite D4; apply holds_all; [done|lia]|..]; lia.
    + rewrite fmap_replicate, D5. fold un. apply holds_all; [done|lia].
    + apply length_replicate.
    + apply Forall_replicate. unfold SEGMENT_CLAIM_UNCLAIMED. lia.
  - intros off n Ho. rewrite D5, bytes_at_splice_behind, D4, bytes_at_splice_behind, D3, bytes_at_splice_behind, D2, bytes_at_splice_behind, D1, bytes_at_splice_behind; rewrite ?Li; cbn [start]; try done; lia.
Qed.

(** ** What can be read *)

Section reading.
Context {data_size : nat} {segs : list SegmentReader} {q cs : list Z} {s : ParallelScanState}.
Hypothesis Hok : scan_ok data_size segs q cs s.
Hypothesis Hsegs : Forall seg_ok segs.

Lemma scan_ids_spec (Q : list (list Z) -> ParallelScanState -> Prop) : Q (uuid_bytes <$> segs) s -> sruns (segment_ids base) s Q.
Proof.
  intros HQ. pose proof (sk_layout _ _ _ _ _ Hok) as [Lq Li (Ld1 & Ld2 & _) (Lm1 & Lm2 & _) (Lc1 & Lc2 & _) _ _ (Lt & _)]. unfold follows in *.
  unfold segment_ids. apply sruns_bind, sruns_gets. eapply cast_slice_spec; [unfold SEGMENT_ID_SIZE; lia|apply (sk_ids _ _ _ _ _ Hok)| | |apply Nat.mod_1_r|done];
    rewrite Li in *; cbn [start stop] in *; rewrite ?length_fmap; unfold SEGMENT_ID_SIZE; lia.
Qed.

Lemma segment_deleted_docs_spec (Q : list Z -> ParallelScanState -> Prop) : Q (num_deleted_docs <$> segs) s -> sruns (segment_deleted_docs base) s Q.
Proof.
  intros HQ. pose proof (sk_layout _ _ _ _ _ Hok) as [Lq Li (Ld1 & Ld2 & Ld3) (Lm1 & Lm2 & _) (Lc1 & Lc2 & _) _ _ (Lt & _)]. unfold follows in *.
  unfold segment_deleted_docs. apply sruns_bind, sruns_gets, sruns_bind. eapply cast_slice_spec; [lia|apply (sk_deleted _ _ _ _ _ Hok)|rewrite !length_fmap; lia|lia|apply aligned_mod; [done|lia|done]|].
  apply sruns_ret. rewrite <- list_fmap_compose.
  assert (le_value ∘ le_bytes 4 <$> (num_deleted_docs <$> segs) = num_deleted_docs <$> segs) as ->; [|done].
  rewrite <- list_fmap_compose. apply list_fmap_ext. intros i g Hg%list_elem_of_lookup_2. rewrite Forall_forall in Hsegs. unfold compose.
  apply u32_bytes. apply (sg_deleted _ (Hsegs g Hg)).
Qed.

Lemma segment_max_docs_spec (Q : list Z -> ParallelScanState -> Prop) : Q (max_doc <$> segs) s -> sruns (segment_max_docs base) s Q.
Proof.
  intros HQ. pose proof (sk_layout _ _ _ _ _ Hok) as [Lq Li (Ld1 & Ld2 & _) (Lm1 & Lm2 & Lm3) (Lc1 & Lc2 & _) _ _ (Lt & _)]. unfold follows in *.
  unfold segment_max_docs. apply sruns_bind, sruns_gets, sruns_bind. eapply cast_slice_spec; [lia|apply (sk_max _ _ _ _ _ Hok)|rewrite !length_fmap; lia|lia|apply aligned_mod; [done|lia|done]|].
  apply sruns_ret. rewrite <- list_fmap_compose.
  assert (le_value ∘ le_bytes 4 <$> (max_doc <$> segs) = max_doc <$> segs) as ->; [|done].
  rewrite <- list_fmap_compose. apply list_fmap_ext. intros i g Hg%list_elem_of_lookup_2. rewrite Forall_forall in Hsegs. unfold compose.
  apply u32_bytes. apply (sg_max _ (Hsegs g Hg)).
Qed.

Lemma segment_claims_spec (Q : list Z -> ParallelScanState -> Prop) : Q cs s -> sruns (segment_claims base) s Q.
Proof.
  intros HQ. pose proof (sk_layout _ _ _ _ _ Hok) as [Lq Li (Ld1 & Ld2 & _) (Lm1 & Lm2 & Lm3) (Lc1 & Lc2 & Lc3) _ _ (Lt & _)]. unfold follows in *.
  pose proof (sk_length _ _ _ _ _ Hok) as Hlen.
  unfold segment_claims. apply sruns_bind, sruns_gets, sruns_bind. eapply cast_slice_spec; [lia|apply (sk_claims _ _ _ _ _ Hok)|rewrite !length_fmap; lia|lia|apply aligned_mod; [done|lia|done]|].
  apply sruns_ret. assert (i32_value <$> (claim_bytes <$> cs) = cs) as ->; [|done].
  rewrite <- list_fmap_compose. rewrite <- (list_fmap_id cs) at 2. apply list_fmap_ext. intros i w Hw%list_elem_of_lookup_2.
  pose proof (sk_workers _ _ _ _ _ Hok) as Hws. rewrite Forall_forall in Hws. specialize (Hws w Hw). cbv beta in Hws. unfold compose, claim_bytes. apply i32_bytes. unfold id. lia.
Qed.

Lemma query_bytes_spec (Q : option (list Z) -> ParallelScanState -> Prop) : Q (if decide (q = []) then None else Some q) s -> sruns query_bytes s Q.
Proof.
  intros HQ. pose proof (sk_layout _ _ _ _ _ Hok) as [Lq Li (Ld1 & Ld2 & _) (Lm1 & Lm2 & Lm3) (Lc1 & Lc2 & Lc3) _ _ (Lt & _)]. unfold follows in *.
  unfold query_bytes. apply sruns_bind, sruns_gets. rewrite Lq. unfold len. cbn [start stop]. rewrite Nat.sub_0_r. rewrite Li in *. cbn [start stop] in *.
  case_decide as Hq; [rewrite Hq; by apply sruns_ret|]. destruct (Nat.eqb_spec (length q) 0) as [Hz|_]; [by apply nil_length_inv in Hz|].
  apply sruns_bind, slice_spec; cbn [start stop]; [lia|lia|]. apply sruns_ret. unfold len. cbn [start stop]. rewrite Nat.sub_0_r. by rewrite (sk_query _ _ _ _ _ Hok).
Qed.

Lemma segment_id_spec i g (Q : list Z -> ParallelScanState -> Prop) : segs !! i = Some g -> Q (uuid_bytes g) s -> sruns (segment_id base i) s Q.
Proof.
  intros Hg HQ. unfold segment_id. apply sruns_bind, scan_ids_spec. rewrite list_lookup_fmap, Hg. by apply sruns_ret.
Qed.

Lemma set_claim_spec i w (Q : unit -> ParallelScanState -> Prop) : (i < length segs)%nat -> -1 <= w < 2 ^ 31 ->
  (forall d, scan_ok data_size segs q (<[i := w]> cs) (set_data d s) -> length d = length (data s) ->
     (forall off n, (stop (claims (layout s)) <= off)%nat -> bytes_at d off n = bytes_at (data s) off n) -> Q tt (set_data d s)) ->
  sruns (set_claim base i w) s Q.
Proof.
  intros Hi Hw HQ. pose proof Hok as [Hl Hm Hn Hq Hids Hd Hx Hc Hlen Hws].
  pose proof Hl as [Lq Li (Ld1 & Ld2 & _) (Lm1 & Lm2 & Lm3) (Lc1 & Lc2 & Lc3) _ _ (Lt & _)]. unfold follows, in_memory in *.
  unfold set_claim. apply sruns_bind, sruns_gets, sruns_bind. eapply cast_slice_spec; [lia|exact Hc|rewrite !length_fmap; lia|lia|apply aligned_mod; [done|lia|done]|].
  rewrite length_fmap. rewrite (proj2 (Nat.ltb_lt _ _)) by lia. apply store_spec; [rewrite length_le_bytes; lia|]. fold (claim_bytes w).
  assert (length (claim_bytes w) = 4%nat) as Hcb by apply length_le_bytes. rewrite Li in *. cbn [start stop] in *.
  apply HQ.
  - split; cbn [set_data layout data nsegments]; unfold in_memory; cbn [set_data layout data].
    + done.
    + rewrite length_splice; lia.
    + done.
    + rewrite bytes_at_splice_out by lia. done.
    + rewrite Li. cbn [start]. apply holds_out; rewrite ?length_fmap; [done|lia|lia].
    + apply holds_out; rewrite ?length_fmap; [done|lia|lia].
    + apply holds_out; rewrite ?length_fmap; [done|lia|lia].
    + rewrite list_fmap_insert. apply holds_insert; [done|done|rewrite length_fmap; lia].
    + by rewrite length_insert.
    + apply Forall_insert; [done|lia].
  - rewrite length_splice; lia.
  - intros off n Ho. apply bytes_at_splice_behind; lia.
Qed.

End reading.

(** ** Claiming *)

(** The claims when [ws] have claimed the last segments, one after the other; the others are
    as in [prev]. *)
Definition claims_after (prev : list Z) (ws : list Z) : list Z := take (length prev - length ws) prev ++ reverse ws.

Lemma claims_after_nil prev : claims_after prev [] = prev.
Proof. clear. unfold claims_after. cbn. by rewrite Nat.sub_0_r, take_ge, app_nil_r by lia. Qed.

Lemma claims_after_snoc prev ws w : (length ws < length prev)%nat ->
  <[(length prev - length ws - 1)%nat := w]> (claims_after prev ws) = claims_after prev (ws ++ [w]).
Proof.
  clear base_aligned. intros Hl. unfold claims_after. rewrite length_app, reverse_app. cbn [length reverse app rev_append].
  replace (length prev - (length ws + 1))%nat with (length prev - length ws - 1)%nat by lia. set (k := (length prev - length ws - 1)%nat).
  replace (length prev - length ws)%nat with (S k) by lia. destruct (lookup_lt_is_Some_2 prev k) as [x Hx]; [lia|].
  rewrite (take_S_r _ _ _ Hx), <- app_assoc. rewrite insert_app_r_alt by (rewrite length_take; lia).
  rewrite length_take, Nat.min_l by lia. by rewrite Nat.sub_diag.
Qed.

(** Where the round stands: [ws] have claimed segments in it. *)
Record round_ok data_size segs q prev ws s : Prop := {
  rd_scan : scan_ok data_size segs q (claims_after prev ws) s;
  rd_left : remaining_segments s = (length segs - length ws)%nat;
  rd_prev : length prev = length segs;
  rd_most : (length ws <= length segs)%nat;
}.

Definition worker_ok (w : Z) : Prop := -1 <= w < 2 ^ 31.

(** What lies behind the claims. *)
Definition same_behind s s' : Prop := layout s' = layout s /\ nsegments s' = nsegments s /\ length (data s') = length (data s) /\
  forall off n, (stop (claims (layout s)) <= off)%nat -> bytes_at (data s') off n = bytes_at (data s) off n.

Lemma same_behind_refl s : same_behind s s.
Proof. done. Qed.

Lemma same_behind_trans s1 s2 s3 : same_behind s1 s2 -> same_behind s2 s3 -> same_behind s1 s3.
Proof. intros (E1 & N1 & L1 & B1) (E2 & N2 & L2 & B2). rewrite E1 in B2. split; [congruence|]. split; [congruence|]. split; [congruence|]. intros off n Ho. by rewrite B2, B1. Qed.

Lemma claim_spec data_size segs q prev ws s w (Q : option (option (list Z)) -> ParallelScanState -> Prop) : round_ok data_size segs q prev ws s ->
  Forall seg_ok segs -> worker_ok w -> (0 < remaining_segments s)%nat ->
  (forall s', round_ok data_size segs q prev (ws ++ [w]) s' -> same_behind s s' -> queries_per_worker s' = queries_per_worker s ->
     Q (Some (reverse (uuid_bytes <$> segs) !! length ws)) s') ->
  sruns (let claimed_segment := (remaining_segments s - 1)%nat in
         modify (set_remaining claimed_segment);; set_claim base claimed_segment w;; id ← segment_id base claimed_segment; mret (Some (Some id))) s Q.
Proof.
  intros [Hs Hr Hp Hm] Hsegs Hw Hpos HQ. cbv zeta. set (i := (remaining_segments s - 1)%nat). assert (i = (length prev - length ws - 1)%nat) as Ei by lia.
  apply sruns_bind, sruns_modify, sruns_bind. assert (i < length segs)%nat as Hi by lia.
  pose proof (scan_ok_other _ _ _ _ _ i (queries_per_worker s) Hs) as Hs1. change (mkState i _ _ _ _) with (set_remaining i s) in Hs1.
  eapply (set_claim_spec Hs1 i w); [done|exact Hw|]. intros d Hs2 Hld Hbe. apply sruns_bind.
  destruct (lookup_lt_is_Some_2 segs i Hi) as [g Hg].
  eapply (segment_id_spec Hs2); [exact Hg|]. apply sruns_ret.
  assert (reverse (uuid_bytes <$> segs) !! length ws = Some (uuid_bytes g)) as <-.
  { rewrite reverse_lookup by (rewrite length_fmap; lia). rewrite length_fmap, list_lookup_fmap. replace (length segs - S (length ws))%nat with i by lia. by rewrite Hg. }
  pose proof (sk_memory _ _ _ _ _ Hs2) as Hmem. apply HQ; [|split; [done|split; [done|split]]|done].
  - split; cbn [set_data set_remaining remaining_segments]; [|rewrite length_app; cbn; lia|done|rewrite length_app; cbn; lia].
    rewrite Ei in Hs2. rewrite claims_after_snoc in Hs2 by lia. rewrite <- Ei in Hs2. exact Hs2.
  - exact Hld.
  - exact Hbe.
Qed.

End scan.
