(* ===== verification/ParallelClaims.v ===== *)
(** * Who works on which segment

    The workers of a parallel scan claim segments and count their queries in any order.  What
    they are handed, and what EXPLAIN shows of it, depends only on the order of the claims. *)

From stdpp Require Import prelude gmap.
From Stdlib Require Import ZArith Lia Sorted.
From Stdlib Require String.
From S2P Require Import Prelude ParallelScan ParallelScanMem ParallelScanProps.
From stdpp Require Import list.
Import ParallelScan.

Local Open Scope Z_scope.

(** ** A round of the scan *)

(** What a worker does; -1 is the leader.  [clock]: see [checkout_segment]. *)
Inductive op := Claim (w : Z) (clock : list bool) | CountQuery (w : Z).

(** A worker is numbered from -1 on; its deadline passes. *)
Definition op_ok (o : op) : Prop :=
  match o with
  | Claim w clock => worker_ok w /\ false ∈ clock
  | CountQuery w => worker_ok w
  end.

(** Who claims, in order. *)
Definition claimers (ops : list op) : list Z := omap (fun o => match o with Claim w _ => Some w | _ => None end) ops.

Definition queries_of (w : Z) (ops : list op) : nat :=
  length (filter (fun w' => w' = w) (omap (fun o => match o with CountQuery w' => Some w' | _ => None end) ops)).

Section round.
Variable base : nat.
Hypothesis base_aligned : (base mod 8 = 0)%nat.
Context {E : Type}.
Variable short_uuid_string : list Z -> String.string.

Implicit Types (s : ParallelScanState).

(** What the claims returned. *)
Fixpoint run (ops : list op) : M ParallelScanState E (list (Z * option (list Z))) :=
  match ops with
  | [] => mret []
  | Claim w clock :: ops => r ← checkout_segment base clock w; l ← run ops; mret ((w, r) :: l)
  | CountQuery w :: ops => increment_query_count w;; run ops
  end.

(** From the last segment to the first, each once; then nothing. *)
Definition handed (segs : list SegmentReader) (ws : list Z) : list (Z * option (list Z)) :=
  imap (fun j w => (w, reverse (uuid_bytes <$> segs) !! j)) ws.

(** How many queries each worker has counted. *)
Definition counted (ops : list op) s : Prop :=
  length (queries_per_worker s) = WORKER_METRICS_MAX_COUNT /\
  forall w, -1 <= w < 255 -> queries_per_worker s !! Z.to_nat (w + 1) = Some (Z.min (Z.of_nat (queries_of w ops)) (2 ^ 16 - 1)).

(** Claims beyond the last segment change nothing. *)
Definition taken (segs : list SegmentReader) (ws : list Z) : list Z := take (length segs) ws.

Lemma checkout_spec data_size segs q prev ws s w clock (Q : option (list Z) -> ParallelScanState -> Prop) :
  round_ok data_size segs q prev (taken segs ws) s -> Forall seg_ok segs -> worker_ok w -> false ∈ clock ->
  (forall s', round_ok data_size segs q prev (taken segs (ws ++ [w])) s' -> same_behind s s' -> queries_per_worker s' = queries_per_worker s ->
     Q (reverse (uuid_bytes <$> segs) !! length ws) s') ->
  sruns (E := E) (checkout_segment base clock w) s Q.
Proof.
  intros Hr Hsegs Hw Hc HQ. pose proof (rd_left _ _ _ _ _ _ Hr) as Hl. pose proof (length_take ws (length segs)) as Ht. fold (taken segs ws) in Ht.
  assert (forall wt (Q' : option (option (list Z)) -> ParallelScanState -> Prop), Q' None s \/ wt = false -> (forall r s', Q r s' -> Q' (Some r) s') ->
    sruns (E := E) (try_checkout base wt w) s Q') as Htry.
  { intros wt Q' HN HQ'. unfold try_checkout. apply sruns_bind, sruns_gets. unfold id. destruct (Nat.eqb_spec (remaining_segments s) 0) as [Ez|Ez].
    - apply sruns_ret, HQ'. assert (reverse (uuid_bytes <$> segs) !! length ws = None) as <-; [apply lookup_ge_None; rewrite length_reverse, length_fmap; lia|].
      apply HQ; [|apply same_behind_refl|done]. unfold taken in *. rewrite take_app_le by lia. exact Hr.
    - destruct (wt && (w =? -1) && (remaining_segments s =? nsegments s)%nat) eqn:Ew; [destruct HN as [HN| ->]; [by apply sruns_ret|done]|].
      assert (taken segs ws = ws /\ (length ws < length segs)%nat) as [Et Hlt] by (split; [apply take_ge|]; lia). rewrite Et in Hr.
      eapply (claim_spec base base_aligned _ _ _ _ _ _ w _ Hr Hsegs Hw); [lia|]. intros s' Hr' Hb Hqs. apply HQ', HQ; [|done|done].
      unfold taken. rewrite take_ge by (rewrite length_app; cbn; lia). exact Hr'. }
  induction clock as [|wt clock IH]; [by apply not_elem_of_nil in Hc|]. cbn [checkout_segment]. apply sruns_bind. apply Htry.
  - destruct wt; [|by right]. left. apply IH. by apply elem_of_cons in Hc as [?|?].
  - intros r s' HQ'. by apply sruns_ret.
Qed.

Lemma count_spec ops w s : counted ops s -> worker_ok w ->
  sruns (E := E) (increment_query_count w) s (fun _ s' => counted (ops ++ [CountQuery w]) s' /\ layout s' = layout s /\ data s' = data s /\
    remaining_segments s' = remaining_segments s /\ nsegments s' = nsegments s).
Proof.
  intros [Hl Hc] [Hw _]. unfold increment_query_count, metrics_offset. apply sruns_bind.
  destruct (Z.ltb_spec (w + 1) 0) as [?|_]; [lia|]. apply sruns_ret, sruns_modify. split; [|done]. unfold counted. cbn [set_queries queries_per_worker].
  split; [by rewrite length_alter|]. intros v Hv. specialize (Hc v Hv). cbv beta in Hc. unfold queries_of in *. rewrite omap_app, filter_app, length_app. cbn [omap list_omap].
  destruct (decide (v = w)) as [->|Hne].
  - rewrite list_lookup_alter_eq, Hc, filter_cons_True by done. cbn [fmap option_fmap option_map length filter list_filter]. f_equal. lia.
  - rewrite list_lookup_alter_ne by lia. rewrite Hc, filter_cons_False by congruence. cbn [length filter list_filter]. by rewrite Nat.add_0_r.
Qed.

Lemma counted_other ops o s s' : counted ops s -> (forall w, o <> CountQuery w) -> queries_per_worker s' = queries_per_worker s -> counted (ops ++ [o]) s'.
Proof.
  intros [Hl Hc] Ho E1. split; [by rewrite E1|]. intros w Hw. rewrite E1, Hc by done. unfold queries_of. rewrite omap_app.
  destruct o as [v clock|v]; [|by destruct (Ho v)]. cbn [omap list_omap]. by rewrite app_nil_r.
Qed.

Lemma round_ok_same data_size segs q prev ws s s' : round_ok data_size segs q prev ws s -> layout s' = layout s -> data s' = data s ->
  remaining_segments s' = remaining_segments s -> nsegments s' = nsegments s -> round_ok data_size segs q prev ws s'.
Proof.
  intros [Hs Hr Hp Hm] El Ed Er En. split; [|by rewrite Er|done|done].
  pose proof (scan_ok_other _ _ _ _ _ (remaining_segments s') (queries_per_worker s') Hs) as Hs'. rewrite <- El, <- Ed, <- En in Hs'. by destruct s'.
Qed.

(** [done]: what was done before. *)
Lemma run_from data_size segs q prev ops done0 ws s (Q : list (Z * option (list Z)) -> ParallelScanState -> Prop) :
  round_ok data_size segs q prev (taken segs ws) s -> counted done0 s -> Forall seg_ok segs -> Forall op_ok ops ->
  (forall s', round_ok data_size segs q prev (taken segs (ws ++ claimers ops)) s' -> counted (done0 ++ ops) s' -> same_behind s s' ->
     Q (imap (fun j w => (w, reverse (uuid_bytes <$> segs) !! (length ws + j)%nat)) (claimers ops)) s') ->
  sruns (run ops) s Q.
Proof.
  intros Hr Hc Hsegs Hops. revert done0 ws s Hr Hc Q. induction Hops as [|o ops Ho Hops IH]; intros done0 ws s Hr Hc Q HQ; cbn [run].
  { apply sruns_ret. apply HQ; rewrite ?app_nil_r; [done|done|apply same_behind_refl]. }
  destruct o as [w clock|w].
  - destruct Ho as [Hw Hcl]. apply sruns_bind. eapply checkout_spec; [done|done|done|done|]. intros s1 Hr1 Hb1 Hq1.
    apply sruns_bind. apply (IH (done0 ++ [Claim w clock]) (ws ++ [w])); [done|by eapply counted_other|].
    intros s2 Hr2 Hc2 Hb2. apply sruns_ret. rewrite <- !app_assoc in Hr2, Hc2. pose proof (HQ s2 Hr2 Hc2 (same_behind_trans _ _ _ Hb1 Hb2)) as HQ2.
    cbn [claimers omap list_omap] in HQ2. fold (claimers ops) in HQ2. cbn [imap] in HQ2. rewrite Nat.add_0_r in HQ2.
    match goal with |- Q ?a _ => match type of HQ2 with Q ?b _ => replace a with b; [done|] end end.
    f_equal. apply imap_ext. intros j v _. unfold compose. rewrite length_app. cbn [length]. do 2 f_equal. lia.
  - apply sruns_bind. eapply sruns_mono; [by apply (count_spec done0)|]. intros [] s1 (Hc1 & El & Ed & Er & En).
    apply (IH (done0 ++ [CountQuery w]) ws); [by eapply round_ok_same|done|]. intros s2 Hr2 Hc2 Hb2. rewrite <- app_assoc in Hc2. apply HQ; [done|done|].
    eapply same_behind_trans; [|done]. split; [done|]. split; [done|]. split; [by rewrite Ed|]. intros. by rewrite Ed.
Qed.

Lemma run_spec data_size segs q prev ops done0 s (Q : list (Z * option (list Z)) -> ParallelScanState -> Prop) :
  round_ok data_size segs q prev [] s -> counted done0 s -> Forall seg_ok segs -> Forall op_ok ops ->
  (forall s', round_ok data_size segs q prev (taken segs (claimers ops)) s' -> counted (done0 ++ ops) s' -> same_behind s s' ->
     Q (handed segs (claimers ops)) s') ->
  sruns (run ops) s Q.
Proof. intros Hr Hc Hsegs Hops HQ. eapply (run_from _ _ _ _ _ _ []); [|done|done|done|exact HQ]. unfold taken. by rewrite take_nil. Qed.

(** After [reset], a new round. *)
Lemma reset_spec data_size segs q prev ws s (Q : unit -> ParallelScanState -> Prop) : round_ok data_size segs q prev ws s ->
  (forall s', round_ok data_size segs q (claims_after prev ws) [] s' -> queries_per_worker s' = queries_per_worker s -> same_behind s s' -> Q tt s') ->
  sruns (E := E) reset s Q.
Proof.
  intros [Hs Hr Hp Hm] HQ. apply sruns_modify, HQ; [|done|done]. pose proof (sk_length _ _ _ _ _ Hs) as Hlen. pose proof (sk_nsegments _ _ _ _ _ Hs) as Hn.
  split; [rewrite claims_after_nil; by apply scan_ok_other|cbn; lia|done|cbn; lia].
Qed.

(** ** What EXPLAIN shows *)

Definition claimed_data (g : SegmentReader) : ClaimedSegmentData :=
  mkClaimed (short_uuid_string (uuid_bytes g)) (num_deleted_docs g) (max_doc g).

(** The segments of [w]. *)
Definition claimed_by (w : Z) (l : list (Z * SegmentReader)) : list ClaimedSegmentData :=
  omap (fun e => if decide (e.1 = w) then Some (claimed_data e.2) else None) l.

Lemma claimed_by_app w l1 l2 : claimed_by w (l1 ++ l2) = claimed_by w l1 ++ claimed_by w l2.
Proof. apply omap_app. Qed.

Lemma claimed_by_none w v gs : v <> w -> forall l, claimed_by w (zip (replicate l v) gs) = [].
Proof.
  intros Hne l. revert gs. induction l as [|l IH]; intros [|g gs]; [done|done|done|].
  cbn [replicate zip zip_with claimed_by omap list_omap fst]. rewrite decide_False by done. apply IH.
Qed.

(** Each entry of [l] is a worker and the segment at the index in [claimed]. *)
Lemma explain_claims_spec data_size segs q cs s l claimed m (Q : gmap Z (list ClaimedSegmentData) -> ParallelScanState -> Prop) :
  scan_ok data_size segs q cs s -> Forall seg_ok segs ->
  Forall2 (fun c e => c.2 = e.1 /\ segs !! c.1 = Some e.2) claimed l ->
  (forall w, m !! w <> Some []) ->
  (forall m', (forall w, m' !! w <> Some []) -> (forall w, -1 <= w -> default [] (m' !! w) = default [] (m !! w) ++ claimed_by w l) ->
     (forall w, w < -1 -> m' !! w = m !! w) -> Q m' s) ->
  sruns (E := E) (explain_claims base short_uuid_string claimed m) s Q.
Proof.
  intros Hok Hsegs Hl. revert m Q. induction Hl as [|[i w] [w' g] claimed l [Hw Hg] Hl IH]; intros m Q Hm HQ; cbn [explain_claims].
  { apply sruns_ret, HQ; [done| |done]. intros v Hv. cbn. by rewrite app_nil_r. }
  cbn [fst snd] in Hw, Hg. subst w'. unfold SEGMENT_CLAIM_UNCLAIMED. destruct (Z.leb_spec w (-2)) as [Hle|Hgt].
  { apply IH; [done|]. intros m' Hm' Hv Hlow. apply HQ; [done| |done]. intros v Hge. rewrite Hv by done. cbn [claimed_by omap list_omap fst].
    by rewrite decide_False by lia. }
  apply sruns_bind. eapply (segment_id_spec base base_aligned Hok); [done|]. apply sruns_bind. apply (segment_deleted_docs_spec base base_aligned Hok Hsegs).
  apply sruns_bind. rewrite list_lookup_fmap, Hg. apply sruns_ret, sruns_bind. apply (segment_max_docs_spec base base_aligned Hok Hsegs).
  apply sruns_bind. rewrite list_lookup_fmap, Hg. apply sruns_ret. apply IH.
  { intros v. destruct (decide (v = w)) as [->|Hne]; [|by rewrite lookup_insert_ne]. rewrite lookup_insert_eq. by destruct (default [] (m !! w)). }
  intros m' Hm' Hv Hlow. apply HQ; [done| |].
  - intros v Hge. rewrite Hv by done. cbn [claimed_by omap list_omap fst snd]. destruct (decide (w = v)) as [->|Hne].
    + rewrite lookup_insert_eq. cbn [from_option id]. by rewrite <- app_assoc.
    + by rewrite lookup_insert_ne.
  - intros v Hv'. rewrite Hlow by done. by rewrite lookup_insert_ne by lia.
Qed.

Lemma reverse_zip {A B} (l : list A) (k : list B) : length l = length k -> reverse (zip l k) = zip (reverse l) (reverse k).
Proof.
  clear. revert k. induction l as [|x l IH]; intros [|y k] Hl; [done|done|done|]. injection Hl as Hl. cbn [zip_with].
  rewrite !reverse_cons, zip_with_app by (by rewrite !length_reverse). by rewrite IH.
Qed.

Lemma indexed_claims cs (segs : list SegmentReader) : length cs = length segs ->
  Forall2 (fun (c : nat * Z) e => c.2 = e.1 /\ segs !! c.1 = Some e.2) (reverse (imap pair cs)) (reverse (zip cs segs)).
Proof.
  clear. intros Hl. apply Forall2_reverse, Forall2_lookup. intros i. rewrite list_lookup_imap.
  destruct (cs !! i) as [w|] eqn:Ew; [|].
  - destruct (lookup_lt_is_Some_2 segs i) as [g Hg]; [apply lookup_lt_Some in Ew; lia|].
    assert (zip cs segs !! i = Some (w, g)) as -> by (apply lookup_zip_Some; done). by constructor.
  - assert (zip cs segs !! i = None) as ->; [|constructor]. apply lookup_ge_None in Ew. apply lookup_ge_None. rewrite length_zip_with. lia.
Qed.

(** What is shown of a worker when [ws] have claimed. *)
Definition shown (segs : list SegmentReader) (ops : list op) (w : Z) : option ParallelExplainWorkerData :=
  match claimed_by w (zip (claimers ops) (reverse segs)) with
  | [] => None
  | l => Some (mkWorker (if decide (w < 255) then Some (Z.min (Z.of_nat (queries_of w ops)) (2 ^ 16 - 1)) else None) l)
  end.

Lemma zip_take {A B} (l : list A) (k : list B) : zip (take (length k) l) k = zip l k.
Proof. clear. revert l. induction k as [|y k IH]; intros [|x l]; [done..|]. cbn. by rewrite IH. Qed.

Lemma explain_spec data_size segs q ops s (Q : ParallelExplainData -> ParallelScanState -> Prop) :
  round_ok data_size segs q (replicate (length segs) SEGMENT_CLAIM_UNCLAIMED) (taken segs (claimers ops)) s -> Forall seg_ok segs ->
  Forall op_ok ops -> counted ops s -> (forall e, (forall w, workers e !! w = shown segs ops w) -> Q e s) ->
  sruns (E := E) (explain_data base short_uuid_string) s Q.
Proof.
  intros Hr Hsegs Hops [Hcl Hcount] HQ. pose proof (rd_scan _ _ _ _ _ _ Hr) as Hok. set (cs := claims_after _ _) in Hok.
  unfold explain_data. apply sruns_bind. apply (segment_claims_spec base base_aligned Hok). apply sruns_bind.
  eapply explain_claims_spec; [done|done|apply indexed_claims; apply (sk_length _ _ _ _ _ Hok)|intros w; by rewrite lookup_empty|].
  intros m Hm Hge Hlow. apply sruns_bind, sruns_gets, sruns_ret, HQ. intros w. cbn [workers]. rewrite map_lookup_imap. unfold shown, id.
  assert (Forall worker_ok (claimers ops)) as Hws.
  { clear -Hops. induction Hops as [|[v c|v] ops Ho Hops IH]; cbn; [done| |done]. constructor; [apply Ho|done]. }
  destruct (Z_lt_le_dec w (-1)) as [Hw|Hw].
  { rewrite Hlow, lookup_empty by done. cbn. assert (claimed_by w (zip (claimers ops) (reverse segs)) = []) as ->; [|done].
    clear -Hws Hw. generalize (reverse segs). induction Hws as [|v vs Hv Hws IH]; intros [|g gs]; [done..|]. destruct Hv as [Hv _].
    cbn [zip zip_with claimed_by omap list_omap fst]. rewrite decide_False by lia. apply IH. }
  specialize (Hge w Hw). specialize (Hm w). rewrite lookup_empty in Hge. cbn [from_option id app] in Hge.
  assert (claimed_by w (reverse (zip cs segs)) = claimed_by w (zip (claimers ops) (reverse segs))) as Eby.
  { rewrite reverse_zip by apply (sk_length _ _ _ _ _ Hok). unfold cs, claims_after. rewrite length_replicate, take_replicate, reverse_app, reverse_involutive, reverse_replicate.
    set (ws := taken segs (claimers ops)). assert (length ws <= length segs)%nat as Hlw by (unfold ws, taken; rewrite length_take; lia).
    rewrite <- (take_drop (length ws) (reverse segs)) at 1. rewrite zip_with_app by (rewrite length_take, length_reverse; lia).
    rewrite claimed_by_app, claimed_by_none, app_nil_r by (unfold SEGMENT_CLAIM_UNCLAIMED; lia). f_equal.
    rewrite <- (zip_take (claimers ops)), length_reverse. fold (taken segs (claimers ops)). fold ws.
    clear. revert ws. generalize (reverse segs). intros k ws. revert k. induction ws as [|x ws IH]; intros [|y k]; [done..|]. cbn. by rewrite IH. }
  rewrite Eby in Hge. destruct (m !! w) as [l|]; cbn [from_option id] in Hge.
  - rewrite <- Hge. cbn. destruct l as [|c l]; [done|]. do 2 f_equal. case_decide as Hlt; [apply Hcount; lia|].
    apply lookup_ge_None. rewrite Hcl. unfold WORKER_METRICS_MAX_COUNT. lia.
  - rewrite <- Hge. done.
Qed.

(** ** Reading what the leader wrote *)

Lemma segments_spec (data_size : nat) (segs : list SegmentReader) (q cs : list Z) (s : ParallelScanState) (Q : gmap (list Z) Z -> ParallelScanState -> Prop) : scan_ok data_size segs q cs s -> Forall seg_ok segs ->
  (forall m, (NoDup (uuid_bytes <$> segs) -> m = list_to_map (zip (uuid_bytes <$> segs) (num_deleted_docs <$> segs))) -> Q m s) ->
  sruns (E := E) (segments base) s Q.
Proof.
  intros Hok Hsegs HQ. unfold segments. apply sruns_bind, sruns_gets, sruns_bind, (scan_ids_spec base base_aligned Hok), sruns_bind.
  apply (segment_deleted_docs_spec base base_aligned Hok Hsegs). rewrite !length_fmap, (sk_nsegments _ _ _ _ _ Hok), Nat.leb_refl. cbn [andb].
  apply sruns_ret, HQ. intros Hnd. rewrite take_ge by (rewrite length_zip_with, !length_fmap; lia).
  assert (forall l (m0 : gmap (list Z) Z), NoDup l.*1 -> (forall k, k ∈ l.*1 -> m0 !! k = None) ->
    foldl (fun m (e : list Z * Z) => <[e.1 := e.2]> m) m0 l = list_to_map l ∪ m0) as Hfold.
  { clear. induction l as [|[k v] l IH]; intros m0 Hnd Hm; cbn [foldl list_to_map foldr fmap list_fmap fst snd] in *; [by rewrite left_id_L by apply _|].
    apply NoDup_cons in Hnd as [Hk Hnd]. rewrite IH; [|done|].
    - rewrite <- insert_union_r by (by apply not_elem_of_list_to_map_1). by rewrite insert_union_l.
    - intros k' Hk'. rewrite lookup_insert_ne by (intros ->; done). apply Hm. by right. }
  rewrite Hfold.
  - by rewrite (right_id_L ∅ (∪)).
  - rewrite fst_zip; [done|rewrite !length_fmap; lia].
  - intros k _. apply lookup_empty.
Qed.

End round.

(** ** The layout *)

(** All ranges, in order. *)
Definition ranges (l : ParallelScanPayloadLayout) : list range :=
  [query l; ids l; deleted_docs l; max_docs l; claims l] ++ option_list (aggregates_header l) ++ option_list (aggregates_data l).

Definition aligned (a : nat) (r : range) : Prop := (start r mod a = 0)%nat.

Ltac each_range := repeat (apply SSorted_cons || apply SSorted_nil || apply Forall_cons_2 || apply Forall_nil_2); cbn [start stop]; lia.

Lemma layout_ranges data_size nsegs query_len aggs l : layout_new data_size nsegs query_len aggs = Some l ->
  StronglySorted follows (ranges l) /\ Forall (fun r => stop r <= size (total l))%nat (ranges l) /\
  len <$> ranges l = [query_len; 16 * nsegs; 4 * nsegs; 4 * nsegs; 4 * nsegs]%nat ++ (if aggs then [24; data_size]%nat else []) /\
  Forall (aligned 4) [deleted_docs l; max_docs l; claims l] /\ Forall (aligned 8) (option_list (aggregates_header l)).
Proof.
  intros Hl. destruct (layout_new_ok _ _ _ _ _ Hl) as ([Lq Li (Ld1 & Ld2 & Ld3) (Lm1 & Lm2 & Lm3) (Lc1 & Lc2 & Lc3) Lh Ln (Lt & Lt2)] & Ha & _).
  unfold ranges, follows, len, aligned in *. rewrite Lq, Li in *. cbn [start stop] in *.
  destruct (aggregates_header l) as [h|].
  - destruct (Lh h eq_refl) as (L1 & L2 & L3 & d & Ed & L4 & L5 & L6). specialize (Lt2 h d eq_refl Ed) as [Lt2 _]. rewrite Ed.
    destruct aggs; [|destruct Ha as [_ Ha]; discriminate (Ha eq_refl)]. cbn [option_list app fmap list_fmap start stop].
    split; [each_range|]. split; [each_range|]. split; [repeat (apply (f_equal2 cons); [lia|]); done|].
    split; repeat constructor; assumption.
  - rewrite (Ln eq_refl). destruct aggs; [destruct Ha as [Ha _]; discriminate (Ha eq_refl)|]. cbn [option_list app fmap list_fmap start stop].
    split; [each_range|]. split; [each_range|]. split; [repeat (apply (f_equal2 cons); [lia|]); done|].
    split; repeat constructor; assumption.
Qed.

(** C6: The memory that is estimated for a parallel scan of up to [n] segments is enough for the
    layout of a scan of fewer: the layout exists, its ranges follow each other without overlap
    inside its total size, each has the size that its contents need, and the numbers are
    aligned. *)
Theorem estimate_suffices self_size data_size n nsegs query_len aggs :
  (nsegs <= n)%nat -> Z.of_nat (query_len + 28 * n + data_size + 200) <= isize_max ->
  exists l bytes, layout_new data_size nsegs query_len aggs = Some l /\
    size_of self_size data_size n query_len aggs = Some bytes /\ (self_size + size (total l) <= bytes)%nat /\
    StronglySorted follows (ranges l) /\ Forall (fun r => stop r <= size (total l))%nat (ranges l) /\
    len <$> ranges l = [query_len; 16 * nsegs; 4 * nsegs; 4 * nsegs; 4 * nsegs]%nat ++ (if aggs then [24; data_size]%nat else []) /\
    Forall (aligned 4) [deleted_docs l; max_docs l; claims l] /\ Forall (aligned 8) (option_list (aggregates_header l)).
Proof.
  intros Hn Hs. destruct (layout_new_some data_size nsegs query_len aggs) as [l Hl]; [lia|]. destruct (layout_new_some data_size n query_len aggs Hs) as [l' Hl'].
  exists l, (self_size + size (total l'))%nat. split; [done|]. split; [unfold size_of; by rewrite Hl'|]. split; [|by eapply layout_ranges].
  destruct (layout_new_ok _ _ _ _ _ Hl) as (_ & _ & ->). destruct (layout_new_ok _ _ _ _ _ Hl') as (_ & _ & ->). pose proof (total_size_mono data_size _ _ query_len aggs Hn). lia.
Qed.

(** A scan of two segments. *)
Definition demo_segs : list SegmentReader := [mkReader (replicate 16 7) 1 10; mkReader (replicate 16 9) 0 20].

Lemma demo_segs_ok : Forall seg_ok demo_segs.
Proof. repeat (apply Forall_cons_2; [by split|]). by apply Forall_nil_2. Qed.

Lemma estimate_suffices_witness : exists l bytes, layout_new 0 2 0 false = Some l /\ amestimateparallelscan 600 0 = Some bytes /\ (600 + size (total l) <= bytes)%nat.
Proof.
  destruct (estimate_suffices 600 0 (Z.to_nat (2 ^ 16 - 1)) 2 0 false) as (l & bytes & H1 & H2 & H3 & _); [lia|unfold isize_max; lia|].
  exists l, bytes. by split_and!.
Defined.

(** C14: In a parallel scan the segments are handed out from the last to the first, each to
    one worker only, in whatever order the leader and the workers claim them and count their
    queries; when none is left a claim returns nothing, and every claim returns.  EXPLAIN shows
    of each worker exactly the segments it claimed and how many queries it counted (up to
    65535, and of the first 256 only).  After [reset] all are handed out once again. *)
Theorem segments_claimed_once base E short_uuid_string data_size segs q aggs l s0 ops ops' :
  (base mod 8 = 0)%nat -> layout_new data_size (length segs) (length q) aggs = Some l -> (size (total l) <= length (data s0))%nat ->
  Forall seg_ok segs -> Forall op_ok ops -> Forall op_ok ops' ->
  sruns (E := E)
    (init_without_mutex base data_size segs q aggs;;
     given ← run base ops;
     e ← explain_data base short_uuid_string;
     reset;;
     again ← run base ops';
     mret (given, e, again)) s0
    (fun r _ => r.1.1 = handed segs (claimers ops) /\ (forall w, workers r.1.2 !! w = shown short_uuid_string segs ops w) /\
       r.2 = handed segs (claimers ops')).
Proof.
  intros Hb Hl Hmem Hsegs Hops Hops'. apply sruns_bind. eapply init_spec; [done..|]. intros s1 Hok1 El1 Hr1 Hq1 _.
  apply sruns_bind. eapply (run_spec _ Hb data_size segs q (replicate (length segs) SEGMENT_CLAIM_UNCLAIMED) ops []); [| |done|done|].
  { split; [by rewrite claims_after_nil|cbn; lia|by rewrite length_replicate|cbn; lia]. }
  { split; [by rewrite Hq1, length_replicate|]. intros w Hw. rewrite Hq1. apply lookup_replicate_2. unfold WORKER_METRICS_MAX_COUNT. lia. }
  intros s2 Hr2 Hc2 _. apply sruns_bind. eapply (explain_spec _ Hb); [done|done|done|done|]. intros e He. apply sruns_bind. eapply (reset_spec _ Hb); [done|].
  intros s3 Hr3 Hq3 _. apply sruns_bind. eapply (run_spec _ Hb _ _ _ _ _ ops); [done| |done|done|].
  { destruct Hc2 as [Hc2 Hc2']. by split; rewrite Hq3. }
  intros s4 _ _ _. by apply sruns_ret.
Qed.

(** The leader must wait in its first turn, two workers claim, the leader finds nothing left. *)
Definition demo_ops : list op := [CountQuery 0; Claim 0 [true; false]; CountQuery 1; Claim 1 [false]; Claim (-1) [true; false]].

Lemma demo_ops_ok : Forall op_ok demo_ops.
Proof. repeat (apply Forall_cons_2; [repeat split; try (by vm_compute); apply list_elem_of_In; cbn; tauto|]). by apply Forall_nil_2. Qed.

Definition demo_memory : ParallelScanState := mkState 0 0 [] (mkPayloadLayout (mkRange 0 0) (mkRange 0 0) (mkRange 0 0) (mkRange 0 0) (mkRange 0 0) None None (mkLayout 0 1)) (replicate 120 0).

Lemma segments_claimed_once_witness : exists l,
  layout_new 0 2 3 false = Some l /\ handed demo_segs (claimers demo_ops) = [(0, Some (replicate 16 9)); (1, Some (replicate 16 7)); (-1, None)] /\
  sruns (E := unit)
    (init_without_mutex 0 0 demo_segs [1; 2; 3] false;;
     given ← run 0 demo_ops;
     e ← explain_data 0 (fun _ => String.EmptyString);
     reset;;
     again ← run 0 demo_ops;
     mret (given, e, again)) demo_memory
    (fun r _ => r.1.1 = handed demo_segs (claimers demo_ops) /\ (forall w, workers r.1.2 !! w = shown (fun _ => String.EmptyString) demo_segs demo_ops w) /\
       r.2 = handed demo_segs (claimers demo_ops)).
Proof.
  eexists. split; [vm_compute; reflexivity|]. split; [vm_compute; reflexivity|].
  eapply segments_claimed_once; [done|vm_compute; reflexivity|vm_compute; lia|apply demo_segs_ok|apply demo_ops_ok|apply demo_ops_ok].
Defined.

(** C10: The query and the segments with their deleted documents that the leader wrote to the
    shared memory are what a worker reads from it, whatever segments were claimed meanwhile. *)
Theorem payload_read_back base E data_size segs q aggs l s0 ops :
  (base mod 8 = 0)%nat -> layout_new data_size (length segs) (length q) aggs = Some l -> (size (total l) <= length (data s0))%nat ->
  Forall seg_ok segs -> Forall op_ok ops -> NoDup (uuid_bytes <$> segs) ->
  sruns (E := E)
    (init_without_mutex base data_size segs q aggs;;
     _ ← run base ops;
     q' ← query_bytes;
     m ← segments base;
     mret (q', m)) s0
    (fun r _ => r.1 = (if decide (q = []) then None else Some q) /\
       r.2 = list_to_map (zip (uuid_bytes <$> segs) (num_deleted_docs <$> segs))).
Proof.
  intros Hb Hl Hmem Hsegs Hops Hnd. apply sruns_bind. eapply init_spec; [done..|]. intros s1 Hok1 El1 Hr1 Hq1 _.
  apply sruns_bind. eapply (run_spec _ Hb data_size segs q (replicate (length segs) SEGMENT_CLAIM_UNCLAIMED) ops []); [| |done|done|].
  { split; [by rewrite claims_after_nil|cbn; lia|by rewrite length_replicate|cbn; lia]. }
  { split; [by rewrite Hq1, length_replicate|]. intros w Hw. rewrite Hq1. apply lookup_replicate_2. unfold WORKER_METRICS_MAX_COUNT. lia. }
  intros s2 Hr2 _ _. pose proof (rd_scan _ _ _ _ _ _ Hr2) as Hok2. apply sruns_bind, (query_bytes_spec _ Hb Hok2), sruns_bind.
  eapply (segments_spec _ Hb); [done|done|]. intros m Hm. apply sruns_ret. split; [done|]. by apply Hm.
Qed.

Lemma payload_read_back_witness : exists l, layout_new 0 2 3 false = Some l /\
  sruns (E := unit) (init_without_mutex 0 0 demo_segs [1; 2; 3] false;; _ ← run 0 demo_ops; q' ← query_bytes; m ← segments 0; mret (q', m)) demo_memory
    (fun r _ => r.1 = Some [1; 2; 3] /\ r.2 = list_to_map [(replicate 16 7, 1); (replicate 16 9, 0)]).
Proof.
  eexists. split; [vm_compute; reflexivity|].
  eapply (payload_read_back 0 unit 0 demo_segs [1; 2; 3]); [done|vm_compute; reflexivity|vm_compute; lia|apply demo_segs_ok|apply demo_ops_ok|].
  apply NoDup_cons; split; [by rewrite list_elem_of_singleton|apply NoDup_singleton].
Defined.
