(* ===== verification/ParallelAggregates.v ===== *)
(** * Aggregates of a parallel scan

    Each worker appends the results of its segments.  However the appends interleave with the
    rest of the scan, and however often the buffer fills up, what the workers wait for is every
    appended result merged once. *)

From stdpp Require Import prelude gmap.
From Stdlib Require Import ZArith Lia Permutation.
From S2P Require Import Prelude ParallelScan ParallelScanMem ParallelScanProps ParallelClaims.
From stdpp Require Import list.
Import ParallelScan.

Local Open Scope Z_scope.

(** ** The bytes *)

(** A length and that many bytes. *)
Definition record (b : list Z) : list Z := le_bytes 8 (Z.of_nat (length b)) ++ b.

Definition records (bs : list (list Z)) : list Z := concat (record <$> bs).

Definition header_bytes (w c : Z) : list Z := le_bytes 8 w ++ le_bytes 8 c ++ le_bytes 8 0.

Lemma length_record b : length (record b) = (8 + length b)%nat.
Proof. unfold record. by rewrite length_app, length_le_bytes. Qed.

Lemma records_snoc bs b : records (bs ++ [b]) = records bs ++ record b.
Proof. unfold records. rewrite fmap_app, concat_app. cbn. by rewrite app_nil_r. Qed.

Lemma length_header_bytes w c : length (header_bytes w c) = 24%nat.
Proof. unfold header_bytes. by rewrite !length_app, !length_le_bytes. Qed.

Lemma count_records bs : (8 * length bs <= length (records bs))%nat.
Proof. induction bs as [|b bs IH]; [done|]. unfold records in *. cbn [fmap list_fmap concat]. rewrite length_app, length_record. cbn [length]. lia. Qed.

(** Parts of what is known to lie at [off]. *)
Lemma bytes_at_part d off x y z : bytes_at d off (length (x ++ y ++ z)) = x ++ y ++ z -> bytes_at d (off + length x) (length y) = y.
Proof.
  intros Hb. rewrite <- (bytes_at_bytes_at d off (length (x ++ y ++ z))) by (rewrite !length_app; lia). rewrite Hb. unfold bytes_at.
  by rewrite drop_app_length, take_app_length.
Qed.

Section aggregates.
Variable base : nat.
Hypothesis base_aligned : (base mod 8 = 0)%nat.
Context {E : Type}.

Implicit Types (s : ParallelScanState).

Abbreviation sruns := (sruns (E := E)).

(** All of the range is in the layout. *)
Definition inside s (r : range) : Prop := (start r <= stop r)%nat /\ (stop r <= size (total (layout s)))%nat /\ in_memory s.

Lemma inside_same s s' r : layout s' = layout s -> length (data s') = length (data s) -> inside s r -> inside s' r.
Proof. unfold inside, in_memory. by intros -> ->. Qed.

Lemma read_usize_spec off v s (Q : Z -> ParallelScanState -> Prop) : (off + 8 <= size (total (layout s)))%nat ->
  bytes_at (data s) off 8 = le_bytes 8 v -> 0 <= v < 2 ^ 64 -> Q v s -> sruns (read_usize off) s Q.
Proof.
  intros Ho Hb Hv HQ. unfold read_usize. apply sruns_bind, slice_spec; unfold USIZE; cbn [start stop]; [lia|lia|]. apply sruns_ret.
  unfold len. cbn [start stop]. replace (off + 8 - off)%nat with 8%nat by lia. by rewrite Hb, usize_bytes.
Qed.

Lemma read_header_spec r w c s (Q : AggregatesPayloadHeader -> ParallelScanState -> Prop) : inside s r -> len r = 24%nat -> (start r mod 8 = 0)%nat ->
  bytes_at (data s) (start r) 24 = header_bytes w c -> 0 <= w < 2 ^ 64 -> 0 <= c < 2 ^ 64 -> Q (mkHeader w c 0) s -> sruns (read_header base r) s Q.
Proof.
  intros (I1 & I2 & I3) Hlen Ha Hb Hw Hc HQ. unfold len in Hlen. unfold read_header. apply sruns_bind, slice_spec; [done|done|].
  unfold len, HEADER_SIZE, USIZE. rewrite Hlen, Nat.eqb_refl. rewrite (aligned_mod base base_aligned 8) by (done || lia). cbn [andb Nat.eqb].
  rewrite <- (length_header_bytes w c) in Hb. unfold header_bytes in Hb.
  assert (forall v, 8%nat = length (le_bytes 8 v)) as L8 by (intros; by rewrite length_le_bytes).
  pose proof (bytes_at_part _ _ [] (le_bytes 8 w) (le_bytes 8 c ++ le_bytes 8 0) Hb) as Hb1. cbn [length] in Hb1. rewrite Nat.add_0_r in Hb1.
  pose proof (bytes_at_part _ _ (le_bytes 8 w) (le_bytes 8 c) (le_bytes 8 0) Hb) as Hb2.
  pose proof (bytes_at_part (data s) (start r) (le_bytes 8 w ++ le_bytes 8 c) (le_bytes 8 0) []) as Hb3. rewrite app_nil_r, <- app_assoc in Hb3. specialize (Hb3 Hb).
  rewrite length_app in Hb3. rewrite <- !L8 in Hb1, Hb2, Hb3.
  apply sruns_bind. eapply read_usize_spec; [lia|done|done|]. apply sruns_bind. eapply read_usize_spec; [lia|done|done|].
  apply sruns_bind. eapply (read_usize_spec _ 0); [lia|done|done|]. by apply sruns_ret.
Qed.

Lemma write_header_spec r w c s (Q : unit -> ParallelScanState -> Prop) : inside s r -> len r = 24%nat ->
  Q tt (set_data (splice (data s) (start r) (header_bytes w c)) s) -> sruns (write_header r (mkHeader w c 0)) s Q.
Proof.
  intros (I1 & I2 & I3) Hlen HQ. unfold len, in_memory in *. unfold write_header, USIZE. cbn [watermark received_count serialized_aggregations_len].
  assert (forall v, length (le_bytes 8 v) = 8%nat) as L8 by (intros; by rewrite length_le_bytes).
  apply sruns_bind, store_spec; [rewrite L8; lia|]. apply sruns_bind, store_spec; cbn [set_data layout data]; [rewrite L8; lia|].
  apply store_spec; cbn [set_data layout data]; [rewrite L8; lia|]. unfold set_data in *. cbn [remaining_segments nsegments queries_per_worker layout data] in *.
  rewrite <- (L8 w) at 1. rewrite splice_splice by (rewrite !L8; lia).
  replace (start r + 2 * 8)%nat with (start r + length (le_bytes 8 w ++ le_bytes 8 c))%nat by (rewrite length_app, !L8; lia).
  rewrite splice_splice by (rewrite length_app, !L8; lia). by rewrite <- app_assoc.
Qed.

Lemma buffer_slice_spec b from n s (Q : list Z -> ParallelScanState -> Prop) : inside s b -> (from + n <= len b)%nat ->
  Q (bytes_at (data s) (start b + from) n) s -> sruns (buffer_slice b (Z.of_nat from) (Z.of_nat (from + n))) s Q.
Proof.
  intros (I1 & I2 & I3) Hl HQ. unfold buffer_slice. rewrite (proj2 (Z.leb_le _ _)), (proj2 (Z.leb_le _ _)), (proj2 (Z.leb_le _ _)) by lia. cbn [andb].
  rewrite !Nat2Z.id. unfold len in Hl. apply slice_spec; cbn [start stop]; [lia|lia|]. unfold len. cbn [start stop].
  by replace (start b + (from + n) - (start b + from))%nat with n by lia.
Qed.

Lemma buffer_store_spec b at_ x s (Q : unit -> ParallelScanState -> Prop) : inside s b -> (at_ + length x <= len b)%nat ->
  Q tt (set_data (splice (data s) (start b + at_) x) s) -> sruns (buffer_store b (Z.of_nat at_) x) s Q.
Proof.
  intros (I1 & I2 & I3) Hl HQ. unfold buffer_store. rewrite (proj2 (Z.leb_le _ _)), (proj2 (Z.leb_le _ _)) by lia. cbn [andb].
  rewrite Nat2Z.id. unfold len in Hl. apply store_spec; [lia|done].
Qed.

Lemma store_record_spec b at_ x s (Q : unit -> ParallelScanState -> Prop) : inside s b -> (at_ + length (record x) <= len b)%nat ->
  Q tt (set_data (splice (data s) (start b + at_) (record x)) s) -> sruns (store_record b (Z.of_nat at_) x) s Q.
Proof.
  intros Hi Hl HQ. rewrite length_record in Hl. pose proof Hi as (I1 & I2 & I3). unfold in_memory, len in *. unfold store_record.
  pose proof (length_le_bytes 8 (Z.of_nat (length x))) as L8. set (n8 := le_bytes 8 (Z.of_nat (length x))) in *.
  apply sruns_bind, buffer_store_spec; [done|unfold len; lia|]. replace (Z.of_nat at_ + 8) with (Z.of_nat (at_ + 8)) by lia.
  apply buffer_store_spec; [eapply inside_same; [..|exact Hi]; cbn [set_data layout data]; [done|rewrite length_splice; lia]|unfold len; lia|].
  unfold set_data in *. cbn [remaining_segments nsegments queries_per_worker layout data] in *.
  replace (start b + (at_ + 8))%nat with (start b + at_ + length n8)%nat by lia. rewrite splice_splice by lia. exact HQ.
Qed.

Lemma load_record_spec b at_ x s (Q : list Z -> ParallelScanState -> Prop) : inside s b -> (at_ + length (record x) <= len b)%nat ->
  bytes_at (data s) (start b + at_) (length (record x)) = record x -> Z.of_nat (length x) < 2 ^ 64 -> Q x s -> sruns (load_record b (Z.of_nat at_)) s Q.
Proof.
  intros Hi Hl Hb Hx HQ. unfold load_record. pose proof (length_le_bytes 8 (Z.of_nat (length x))) as L8.
  pose proof (bytes_at_part _ _ [] (le_bytes 8 (Z.of_nat (length x))) x Hb) as Hb1. pose proof (bytes_at_part (data s) (start b + at_) (le_bytes 8 (Z.of_nat (length x))) x []) as Hb2.
  rewrite app_nil_r in Hb2. specialize (Hb2 Hb). cbn [length] in Hb1. rewrite L8 in Hb1, Hb2. rewrite Nat.add_0_r in Hb1. rewrite length_record in Hl.
  apply sruns_bind. replace (Z.of_nat at_ + 8) with (Z.of_nat (at_ + 8)) by lia. apply buffer_slice_spec; [done|lia|]. rewrite Hb1, usize_bytes by lia.
  replace (Z.of_nat (at_ + 8) + Z.of_nat (length x)) with (Z.of_nat (at_ + 8 + length x)) by lia. apply buffer_slice_spec; [done|lia|].
  by rewrite Nat.add_assoc, Hb2.
Qed.

(** ** Merging *)

Context {Res : Type}.
Variables (to_allocvec : Res -> option (list Z)) (from_bytes : list Z -> option Res).
Variable merge_fruits : Res -> Res -> option Res.
Variables (failed : E) (max_response_bytes : Z) (data_size : nat).

(** [v] is the results [l], each merged into it once. *)
Inductive merged : list Res -> Res -> Prop :=
| merged_one r : merged [r] r
| merged_two l1 l2 a b c : merged l1 a -> merged l2 b -> merge_fruits a b = Some c -> merged (l1 ++ l2) c
| merged_perm l1 l2 v : l1 ≡ₚ l2 -> merged l1 v -> merged l2 v.

(** The results that occur: they can be merged; serialized, they can be read back, and they are
    below the limit. *)
Record good_results (good : Res -> Prop) : Prop := {
  gr_merge : forall a b, good a -> good b -> exists c, merge_fruits a b = Some c /\ good c;
  gr_bytes : forall r, good r -> exists b, to_allocvec r = Some b /\ from_bytes b = Some r /\
    (8 + length b <= data_size)%nat /\ Z.of_nat (length b) < max_response_bytes;
}.

Variable good : Res -> Prop.
Hypothesis Hgood : good_results good.
Hypothesis data_size_u64 : Z.of_nat data_size < 2 ^ 64.

Definition decodes (b : list Z) (v : Res) : Prop := from_bytes b = Some v /\ good v.

Lemma merge_loop_spec fuel b s bs0 bs vs result (Q : Res -> ParallelScanState -> Prop) : inside s b ->
  bytes_at (data s) (start b) (length (records (bs0 ++ bs))) = records (bs0 ++ bs) -> (length (records (bs0 ++ bs)) <= len b)%nat -> (len b <= data_size)%nat ->
  Forall2 decodes bs vs -> good result -> (length bs < fuel)%nat ->
  (forall v, good v -> (forall l ls, merged l result -> Forall2 merged ls vs -> merged (l ++ concat ls) v) -> Q v s) ->
  sruns (merge_loop from_bytes merge_fruits failed fuel b (Z.of_nat (length (records bs0))) (Z.of_nat (length (records (bs0 ++ bs)))) result) s Q.
Proof.
  intros Hi Hb Hl Hd Hvs. revert fuel bs0 result Hb Hl. induction Hvs as [|x v bs vs [Hx Hv] Hvs IH]; intros fuel bs0 result Hb Hl Hr Hf HQ.
  - destruct fuel as [|fuel]; [cbn in Hf; lia|]. cbn [merge_loop]. rewrite app_nil_r, (proj2 (Z.ltb_ge _ _)) by lia. apply sruns_ret, HQ; [done|].
    intros l ls Hm Hls. apply Forall2_nil_inv_r in Hls as ->. cbn. by rewrite app_nil_r.
  - destruct fuel as [|fuel]; [cbn in Hf; lia|]. cbn [merge_loop]. unfold records in Hb, Hl.
    assert (records (bs0 ++ x :: bs) = records bs0 ++ record x ++ records bs) as Er by (unfold records; by rewrite fmap_app, concat_app).
    fold (records (bs0 ++ x :: bs)) in Hb, Hl. rewrite Er in Hb, Hl |- *. pose proof (bytes_at_part _ _ _ _ _ Hb) as Hbx. rewrite !length_app, length_record in Hl.
    rewrite (proj2 (Z.ltb_lt _ _)) by (rewrite !length_app, length_record; lia). apply sruns_bind.
    eapply (load_record_spec b _ x); [done|rewrite length_record; lia|done|lia|]. apply sruns_bind. rewrite Hx. apply sruns_ret, sruns_bind.
    destruct (gr_merge _ Hgood result v Hr Hv) as (c & Hc & Hgc). rewrite Hc. apply sruns_ret.
    replace (Z.of_nat (length (records bs0)) + 8 + Z.of_nat (length x)) with (Z.of_nat (length (records (bs0 ++ [x])))) by (rewrite records_snoc, length_app, length_record; lia).
    assert (records bs0 ++ record x ++ records bs = records ((bs0 ++ [x]) ++ bs)) as Er' by (by rewrite <- app_assoc; cbn [app]). rewrite Er' in *.
    cbn [length] in Hf. apply IH; [done|rewrite <- Er', !length_app, length_record; lia|done|lia|].
    intros u Hu Hm. apply HQ; [done|]. intros l ls Hl' Hls. apply Forall2_cons_inv_r in Hls as (l1 & ls1 & Hl1 & Hls1 & ->). cbn [concat]. rewrite app_assoc.
    apply Hm; [|done]. by eapply merged_two.
Qed.

(** ** The buffer *)

(** What the header and the buffer hold. *)
Record agg_ok (hr dr : range) (bs : list (list Z)) (c : Z) s : Prop := {
  ag_header : aggregates_header (layout s) = Some hr;
  ag_data : aggregates_data (layout s) = Some dr;
  ag_hbytes : bytes_at (data s) (start hr) 24 = header_bytes (Z.of_nat (length (records bs))) c;
  ag_records : bytes_at (data s) (start dr) (length (records bs)) = records bs;
  ag_fit : (length (records bs) <= data_size)%nat;
  ag_count : 0 <= c < 2 ^ 64;
}.

(** [rs]: what was appended. *)
Definition holds_results (bs : list (list Z)) (rs : list Res) : Prop :=
  exists vs ls, Forall2 decodes bs vs /\ Forall2 merged ls vs /\ concat ls ≡ₚ rs.

Lemma agg_ok_behind hr dr bs c s s' segs q cs : agg_ok hr dr bs c s -> scan_ok data_size segs q cs s -> same_behind s s' -> agg_ok hr dr bs c s'.
Proof.
  intros [H1 H2 H3 H4 H5 H6] Hok (El & En & Elen & Hb). pose proof (lo_header _ _ _ _ (sk_layout _ _ _ _ _ Hok) hr H1) as (L1 & L2 & _ & d & Hd & L3 & L4 & _).
  rewrite H2 in Hd. injection Hd as <-. unfold follows in *. split; rewrite ?El; [done|done| | |done|done]; (rewrite Hb; [done|lia]).
Qed.

Section append.
Context {segs : list SegmentReader} {q prev ws : list Z} {hr dr : range}.

(** The scan, and where its aggregates are. *)
Definition scan_with s : Prop := round_ok data_size segs q prev ws s /\ aggregates_header (layout s) = Some hr /\ aggregates_data (layout s) = Some dr.

Lemma agg_ranges s : scan_with s -> inside s hr /\ len hr = 24%nat /\ (start hr mod 8 = 0)%nat /\ inside s dr /\ len dr = data_size /\
  (stop hr = start hr + 24 /\ stop hr <= start dr /\ stop (claims (layout s)) <= start hr)%nat.
Proof.
  intros ([Hok _ _ _] & H1 & H2). pose proof (lo_header _ _ _ _ (sk_layout _ _ _ _ _ Hok) hr H1) as (L1 & L2 & L3 & d & Hd & L4 & L5 & L6).
  rewrite H2 in Hd. injection Hd as <-. pose proof (sk_memory _ _ _ _ _ Hok) as Hm. unfold inside, follows, len in *. repeat split; try done; lia.
Qed.

(** Overwriting the header or a part of the buffer. *)
Lemma scan_with_splice s off x : scan_with s -> (start hr <= off)%nat -> (off + length x <= stop dr)%nat -> scan_with (set_data (splice (data s) off x) s).
Proof.
  intros Hs Ho Hl. pose proof (agg_ranges s Hs) as (I1 & _ & _ & (I2 & I3 & _) & _ & A1 & A2 & A3). destruct Hs as ([Hok Hr Hp Hw] & H1 & H2).
  split; [|done]. split; [|done|done|done]. apply scan_ok_behind; [done|lia|lia].
Qed.

Lemma set_header_spec w c s (Q : unit -> ParallelScanState -> Prop) : scan_with s ->
  (forall d, scan_with (set_data d s) -> bytes_at d (start hr) 24 = header_bytes w c ->
     (forall off n, (start dr <= off)%nat -> bytes_at d off n = bytes_at (data s) off n) -> Q tt (set_data d s)) ->
  sruns (write_header hr (mkHeader w c 0)) s Q.
Proof.
  intros Hs HQ. pose proof (agg_ranges s Hs) as (I1 & L1 & _ & (I2 & I3 & I4) & L2 & A1 & A2 & A3). pose proof (length_header_bytes w c) as L.
  unfold in_memory in *. apply write_header_spec; [done|done|]. apply HQ.
  - apply scan_with_splice; [done|lia|lia].
  - apply bytes_at_splice_in; lia.
  - intros off n Ho. apply bytes_at_splice_behind; lia.
Qed.

(** A record behind [bs]. *)
Lemma put_record_spec bs x c s (Q : unit -> ParallelScanState -> Prop) : scan_with s -> 0 <= c < 2 ^ 64 ->
  bytes_at (data s) (start dr) (length (records bs)) = records bs -> (length (records bs) + length (record x) <= data_size)%nat ->
  (forall d, scan_with (set_data d s) -> agg_ok hr dr (bs ++ [x]) c (set_data d s) -> Q tt (set_data d s)) ->
  sruns (store_record dr (Z.of_nat (length (records bs))) x;;
         write_header hr (mkHeader (Z.of_nat (length (records bs)) + 8 + Z.of_nat (length x)) c 0)) s Q.
Proof.
  intros Hs Hc Hb Hl HQ. pose proof (agg_ranges s Hs) as (I1 & L1 & _ & Id & L2 & A1 & A2 & A3). pose proof Id as (I2 & I3 & I4). unfold in_memory, len in *.
  apply sruns_bind, store_record_spec; [done|unfold len; lia|]. set (off := (start dr + length (records bs))%nat).
  assert (bytes_at (splice (data s) off (record x)) (start dr) (length (records (bs ++ [x]))) = records (bs ++ [x])) as Hb'.
  { rewrite records_snoc, length_app, bytes_at_app. f_equal; [|apply bytes_at_splice_in; unfold off; lia]. rewrite bytes_at_splice_out by (unfold off; lia). done. }
  apply set_header_spec; [apply scan_with_splice; [done|unfold off; lia|unfold off; lia]|]. cbn [set_data data]. intros d Hd Hh Hbe.
  change (set_data d (set_data _ s)) with (set_data d s) in *. apply HQ; [done|]. destruct Hd as (_ & H1 & H2). split; cbn [set_data data]; [done|done| | | |done].
  - rewrite Hh, records_snoc, length_app, length_record. do 2 f_equal. lia.
  - rewrite Hbe by lia. done.
  - rewrite records_snoc, length_app. lia.
Qed.

Lemma buffer_range_spec w c s (Q : range -> ParallelScanState -> Prop) : Q dr s -> sruns (buffer_range (mkHeader w c 0) dr) s Q.
Proof.
  intros HQ. unfold buffer_range. cbn [serialized_aggregations_len]. rewrite (proj2 (Z.leb_le _ _)) by lia. cbn [andb Z.leb Z.compare].
  apply sruns_ret. change (Z.to_nat 0) with 0%nat. rewrite Nat.add_0_r. by destruct dr.
Qed.

Lemma agg_append_spec bs rs r k c s (Q : unit -> ParallelScanState -> Prop) : scan_with s -> agg_ok hr dr bs c s -> holds_results bs rs -> good r ->
  0 <= k -> c + k < 2 ^ 64 ->
  (forall s' bs', scan_with s' -> agg_ok hr dr bs' (c + k) s' -> holds_results bs' (rs ++ [r]) -> queries_per_worker s' = queries_per_worker s ->
     (c + k = Z.of_nat (length segs) -> length bs' = 1%nat) -> Q tt s') ->
  sruns (aggregation_append base to_allocvec from_bytes merge_fruits failed max_response_bytes r k) s Q.
Proof.
  intros Hs [Ha1 Ha2 Ha3 Ha4 Ha5 Ha6] (vs & ls & Hdec & Hls & Hrs) Hr Hk Hck HQ.
  pose proof (agg_ranges s Hs) as (Ih & Lh & Mh & Id & Ld & A1 & A2 & A3). destruct (gr_bytes _ Hgood r Hr) as (b & Hser & Hback & Hfit & Hmax).
  unfold aggregation_append. apply sruns_bind, sruns_gets. rewrite Ha1, Ha2. apply sruns_bind. eapply read_header_spec; [done|done|done|done|lia|done|].
  apply sruns_bind. rewrite Hser. apply sruns_ret, sruns_bind. rewrite (proj2 (Z.ltb_lt _ _) Hmax). apply sruns_ret. cbn [watermark received_count serialized_aggregations_len].
  rewrite Z.mod_small, Z.sub_0_r, Ld by lia. apply sruns_bind, set_header_spec; [done|]. intros d1 Hs1 Hh1 Hbe1. apply sruns_bind, sruns_gets, sruns_bind, buffer_range_spec.
  rewrite (sk_nsegments _ _ _ _ _ (rd_scan _ _ _ _ _ _ (proj1 Hs1))). rewrite <- (Hbe1 (start dr)) in Ha4 by lia.
  destruct (negb (Z.of_nat data_size <? Z.of_nat (length (records bs)) + 8 + Z.of_nat (length b)) && negb (c + k =? Z.of_nat (length segs))) eqn:Ecase.
  - apply andb_prop in Ecase as [Hfull%negb_true_iff%Z.ltb_ge Hall%negb_true_iff%Z.eqb_neq].
    eapply put_record_spec; [done|lia|done|rewrite length_record; lia|]. intros d2 Hs2 Hg2. eapply (HQ _ (bs ++ [b])); [exact Hs2|exact Hg2| |done|done].
    exists (vs ++ [r]), (ls ++ [[r]]). split; [apply Forall2_app; [done|]; by repeat constructor|]. split; [apply Forall2_app; [done|]; by repeat constructor|].
    rewrite concat_app, Hrs. done.
  - apply sruns_bind. eapply (merge_loop_spec _ _ _ [] bs vs); [apply (agg_ranges _ Hs1)|done|cbn [app]; lia|lia|done|done|pose proof (count_records bs); lia|].
    intros v Hv Hm. destruct (gr_bytes _ Hgood v Hv) as (bv & Hserv & Hbackv & Hfitv & Hmaxv).
    apply sruns_bind. rewrite Hserv. apply sruns_ret, sruns_bind. rewrite (proj2 (Z.ltb_lt _ _) Hmaxv). apply sruns_ret.
    apply sruns_bind, set_header_spec; [done|]. intros d2 Hs2 _ _.
    eapply (put_record_spec []); [done|lia|done|cbn [records fmap list_fmap concat length]; rewrite length_record; lia|]. intros d3 Hs3 Hg3.
    eapply (HQ _ [bv]); [exact Hs3|exact Hg3| |done|done]. exists [v], [r :: concat ls]. split; [by repeat constructor|]. split.
    + repeat constructor. apply (Hm [r]); [constructor|done].
    + cbn [concat]. rewrite app_nil_r, Hrs. by rewrite Permutation_app_comm.
Qed.

Lemma poll_spec bs rs c s (Q : option Res -> ParallelScanState -> Prop) : scan_with s -> agg_ok hr dr bs c s -> holds_results bs rs ->
  (c = Z.of_nat (length segs) -> length bs = 1%nat) ->
  (c <> Z.of_nat (length segs) -> Q None s) -> (forall v, c = Z.of_nat (length segs) -> merged rs v -> Q (Some v) s) ->
  sruns (aggregation_poll base from_bytes) s Q.
Proof.
  intros Hs [Ha1 Ha2 Ha3 Ha4 Ha5 Ha6] (vs & ls & Hdec & Hls & Hrs) Hone HN HS. pose proof (agg_ranges s Hs) as (Ih & Lh & Mh & Id & Ld & A1 & A2 & A3).
  unfold aggregation_poll. apply sruns_bind, sruns_gets. rewrite Ha1. apply sruns_bind. eapply read_header_spec; [done|done|done|done|lia|done|].
  apply sruns_bind, sruns_gets. rewrite (sk_nsegments _ _ _ _ _ (rd_scan _ _ _ _ _ _ (proj1 Hs))). cbn [received_count watermark].
  destruct (Z.eqb_spec c (Z.of_nat (length segs))) as [Ec|Ec]; [|by apply sruns_ret, HN].
  destruct bs as [|b [|? ?]]; [by specialize (Hone Ec)| |by specialize (Hone Ec)].
  apply Forall2_cons_inv_l in Hdec as (v & vs' & [Hv _] & Hnil%Forall2_nil_inv_l & ->). subst vs'.
  apply Forall2_cons_inv_r in Hls as (l & ls' & Hm & Hnil%Forall2_nil_inv_r & ->). subst ls'. cbn [concat] in Hrs. rewrite app_nil_r in Hrs.
  assert (records [b] = record b) as Er by (unfold records; cbn; by rewrite app_nil_r). rewrite Er in *. pose proof (length_record b) as Lb.
  apply sruns_bind. rewrite Ha2. apply sruns_ret, sruns_bind, buffer_range_spec, sruns_bind. rewrite (proj2 (Z.ltb_lt _ _)) by lia. apply sruns_ret, sruns_bind.
  eapply (load_record_spec dr 0 b); [done|lia|by rewrite Nat.add_0_r|lia|]. apply sruns_bind. rewrite Hv. apply sruns_ret, sruns_ret, HS; [done|]. by eapply merged_perm.
Qed.

End append.

(** ** The whole scan *)

(** What happens to the shared state, in any order. *)
Inductive aop := Scan (o : op) | Rescan | Append (r : Res) (segment_count : Z).

Definition aop_ok (o : aop) : Prop :=
  match o with
  | Scan o => op_ok o
  | Rescan => True
  | Append r k => good r /\ 0 <= k
  end.

Fixpoint run_aops (ops : list aop) : M ParallelScanState E unit :=
  match ops with
  | [] => mret tt
  | Scan o :: ops => run base [o];; run_aops ops
  | Rescan :: ops => reset;; run_aops ops
  | Append r k :: ops => aggregation_append base to_allocvec from_bytes merge_fruits failed max_response_bytes r k;; run_aops ops
  end.

Definition appended (ops : list aop) : list Res := omap (fun o => match o with Append r _ => Some r | _ => None end) ops.

(** For how many segments results were appended. *)
Definition reported (ops : list aop) : Z := foldr (fun o n => (match o with Append _ k => k | _ => 0 end) + n) 0 ops.

Lemma reported_nonneg ops : Forall aop_ok ops -> 0 <= reported ops.
Proof.
  clear base_aligned data_size_u64 Hgood. intros Hops. induction Hops as [|[o| |r k] ops Ho Hops IH]; cbn [reported foldr]; [done|done|done|]. fold (reported ops).
  destruct Ho as [_ Hk]. lia.
Qed.

Lemma reported_app ops ops' : reported (ops ++ ops') = reported ops + reported ops'.
Proof. clear. unfold reported. induction ops as [|o ops IH]; cbn; [done|]. rewrite IH. lia. Qed.

Section whole.
Context {segs : list SegmentReader} {q : list Z} {hr dr : range}.
Hypothesis Hsegs : Forall seg_ok segs.

Definition agg_inv (rs : list Res) (c : Z) s : Prop := exists prev ws ops bs,
  scan_with (segs := segs) (q := q) (prev := prev) (ws := taken segs ws) (hr := hr) (dr := dr) s /\ counted ops s /\
  agg_ok hr dr bs c s /\ holds_results bs rs /\ (rs = [] \/ (c = Z.of_nat (length segs) -> length bs = 1%nat)).

Lemma same_behind_ranges s s' : same_behind s s' -> aggregates_header (layout s) = Some hr /\ aggregates_data (layout s) = Some dr ->
  aggregates_header (layout s') = Some hr /\ aggregates_data (layout s') = Some dr.
Proof. by intros (-> & _). Qed.

Lemma run_aops_spec ops rs c s (Q : unit -> ParallelScanState -> Prop) : agg_inv rs c s -> Forall aop_ok ops -> 0 <= c -> c + reported ops < 2 ^ 64 ->
  (forall s', agg_inv (rs ++ appended ops) (c + reported ops) s' -> Q tt s') -> sruns (run_aops ops) s Q.
Proof.
  intros Hinv Hops. revert rs c s Hinv. induction Hops as [|o ops Ho Hops IH]; intros rs c s Hinv Hc Hrep HQ; cbn [run_aops].
  { apply sruns_ret, HQ. cbn. by rewrite app_nil_r, Z.add_0_r. }
  pose proof (reported_nonneg ops Hops) as Hpos.
  destruct Hinv as (prev & ws & ops0 & bs & (Hr & Hrg) & Hcount & Hag & Hres & Hone).
  destruct o as [o| |r k]; cbn [reported foldr appended omap list_omap] in Hrep, HQ; fold (reported ops) in Hrep, HQ; fold (appended ops) in HQ; rewrite ?Z.add_0_l in Hrep, HQ.
  - apply sruns_bind. eapply (run_from _ base_aligned _ _ _ _ [o] ops0 ws); [done|done|done|by constructor|]. intros s1 Hr1 Hc1 Hb1.
    apply (IH rs c); [|done|lia|exact HQ]. exists prev, (ws ++ claimers [o]), (ops0 ++ [o]), bs. split; [split; [done|by eapply same_behind_ranges]|]. split; [done|].
    split; [|done]. eapply agg_ok_behind; [done|apply (rd_scan _ _ _ _ _ _ Hr)|done].
  - apply sruns_bind. eapply (reset_spec _ base_aligned); [done|]. intros s1 Hr1 Hq1 Hb1.
    apply (IH rs c); [|done|lia|exact HQ]. exists (claims_after prev (taken segs ws)), [], ops0, bs. split; [split; [unfold taken; by rewrite take_nil|by eapply same_behind_ranges]|].
    split; [destruct Hcount as [C1 C2]; by split; rewrite Hq1|]. split; [|done]. eapply agg_ok_behind; [done|apply (rd_scan _ _ _ _ _ _ Hr)|done].
  - destruct Ho as [Hg Hk]. apply sruns_bind. eapply agg_append_spec; [by split|done|done|done|done|lia|]. intros s1 bs1 Hs1 Hag1 Hres1 Hq1 Hone1.
    eapply (IH (rs ++ [r]) (c + k)); [|lia|lia|].
    + exists prev, ws, ops0, bs1. split; [exact Hs1|]. split; [destruct Hcount as [C1 C2]; by split; rewrite Hq1|]. split; [done|]. split; [done|]. by right.
    + intros s2 Hinv2. apply HQ. by rewrite <- app_assoc, <- Z.add_assoc in Hinv2.
Qed.

Lemma poll_inv rs c s (Q : option Res -> ParallelScanState -> Prop) : agg_inv rs c s -> rs <> [] \/ c <> Z.of_nat (length segs) ->
  (c <> Z.of_nat (length segs) -> Q None s) -> (forall v, c = Z.of_nat (length segs) -> merged rs v -> Q (Some v) s) ->
  sruns (aggregation_poll base from_bytes) s Q.
Proof.
  intros (prev & ws & ops0 & bs & Hs & _ & Hag & Hres & Hone) Hne HN HS. eapply poll_spec; [done|done|done| |done|done].
  intros Hc. destruct Hone as [->|Hone]; [by destruct Hne as [?|?]|by apply Hone].
Qed.

End whole.

Lemma init_inv segs q l hr dr s0 (Q : unit -> ParallelScanState -> Prop) : layout_new data_size (length segs) (length q) true = Some l ->
  (size (total l) <= length (data s0))%nat -> Forall seg_ok segs -> aggregates_header l = Some hr -> aggregates_data l = Some dr ->
  bytes_at (data s0) (start hr) 24 = replicate 24 0 ->
  (forall s, agg_inv (segs := segs) (q := q) (hr := hr) (dr := dr) [] 0 s -> Q tt s) ->
  sruns (init_without_mutex base data_size segs q true) s0 Q.
Proof.
  intros Hl Hmem Hsegs Hh Hd Hz HQ. eapply init_spec; [done..|]. intros s Hok El Hr Hq Hb. apply HQ. exists (replicate (length segs) SEGMENT_CLAIM_UNCLAIMED), [], [], [].
  assert (taken segs [] = []) as Et by (unfold taken; by rewrite take_nil). rewrite Et. split; [|split; [|split; [|split; [|by left]]]].
  - split; [|by rewrite El]. split; [by rewrite claims_after_nil|cbn; lia|by rewrite length_replicate|cbn; lia].
  - split; [by rewrite Hq, length_replicate|]. intros w Hw. rewrite Hq. apply lookup_replicate_2. unfold WORKER_METRICS_MAX_COUNT. lia.
  - destruct (layout_new_ok _ _ _ _ _ Hl) as (Lok & _). pose proof (lo_header _ _ _ _ Lok hr Hh) as (L1 & _). unfold follows in L1.
    split; rewrite ?El; [done|done|rewrite Hb by lia; exact Hz|done|cbn; lia|lia].
  - by exists [], [].
Qed.

End aggregates.

(** ** What the workers wait for *)

Section waiting.
Variables (base data_size : nat).
Context {E Res : Type}.
Variables (to_allocvec : Res -> option (list Z)) (from_bytes : list Z -> option Res) (merge_fruits : Res -> Res -> option Res).
Variables (failed : E) (max_response_bytes : Z) (good : Res -> Prop).

(** The header is zero in the memory that the scan is given. *)
Definition zeroed (l : ParallelScanPayloadLayout) (s : ParallelScanState) : Prop :=
  exists hr dr, aggregates_header l = Some hr /\ aggregates_data l = Some dr /\ bytes_at (data s) (start hr) 24 = replicate 24 0.

Definition scan_and_poll (segs : list SegmentReader) (q : list Z) (ops : list (aop (Res := Res))) : M ParallelScanState E (option Res) :=
  init_without_mutex base data_size segs q true;;
  run_aops base to_allocvec from_bytes merge_fruits failed max_response_bytes ops;;
  aggregation_poll base from_bytes.

Lemma scan_and_poll_spec segs q l s0 ops : (base mod 8 = 0)%nat -> good_results to_allocvec from_bytes merge_fruits max_response_bytes data_size good ->
  Z.of_nat data_size < 2 ^ 64 -> layout_new data_size (length segs) (length q) true = Some l -> (size (total l) <= length (data s0))%nat ->
  zeroed l s0 -> Forall seg_ok segs -> Forall (aop_ok good) ops -> reported ops < 2 ^ 64 -> appended ops <> [] \/ reported ops <> Z.of_nat (length segs) ->
  sruns (scan_and_poll segs q ops) s0 (fun o _ =>
    match o with
    | Some v => reported ops = Z.of_nat (length segs) /\ merged merge_fruits (appended ops) v
    | None => reported ops <> Z.of_nat (length segs)
    end).
Proof.
  intros Hb Hgood Hds Hl Hmem (hr & dr & Hh & Hd & Hz) Hsegs Hops Hrep Hne. unfold scan_and_poll. apply sruns_bind.
  eapply (init_inv base Hb); [done..|]. intros s1 Hinv1. apply sruns_bind. eapply run_aops_spec; [done|done|done|done|exact Hinv1|done|done|cbn; lia|].
  intros s2 Hinv2. cbn [app] in Hinv2. rewrite Z.add_0_l in Hinv2. eapply poll_inv; [done|done|exact Hinv2|exact Hne|done|]. by intros v.
Qed.

(** What merging adds up is the sum over the results. *)
Lemma merged_sum (f : Res -> Z) rs v : (forall a b c, merge_fruits a b = Some c -> f c = f a + f b) -> merged merge_fruits rs v ->
  f v = foldr Z.add 0 (f <$> rs).
Proof.
  intros Hf Hm. induction Hm as [r|l1 l2 a b c _ IH1 _ IH2 Hc|l1 l2 v Hp _ IH].
  - cbn. lia.
  - rewrite (Hf _ _ _ Hc), IH1, IH2, fmap_app. generalize (f <$> l1) as k1. induction k1 as [|x k1 IHk]; cbn; lia.
  - rewrite IH. apply (fmap_Permutation f) in Hp. revert Hp. generalize (f <$> l1), (f <$> l2). induction 1; cbn; lia.
Qed.

End waiting.

(** Results of one byte. *)
Definition demo_to (r : Z) : option (list Z) := Some [r].
Definition demo_from (b : list Z) : option Z := match b with [r] => Some r | _ => None end.
Definition demo_merge (a b : Z) : option Z := Some ((a + b) mod 256).
Definition demo_good (r : Z) : Prop := 0 <= r < 256.

Lemma demo_good_results : good_results demo_to demo_from demo_merge 16 16 demo_good.
Proof.
  split.
  - intros a b _ _. eexists. split; [reflexivity|]. unfold demo_good. apply Z.mod_pos_bound. lia.
  - intros r Hr. exists [r]. cbn. repeat split; lia.
Qed.

Definition demo_aops : list (aop (Res := Z)) := [Scan (Claim 0 [false]); Append 3 1; Scan (Claim 1 [false]); Append 4 1].

Lemma demo_aops_ok : Forall (aop_ok demo_good) demo_aops.
Proof. repeat (apply Forall_cons_2; [cbn; unfold worker_ok, demo_good; rewrite ?list_elem_of_singleton; lia|]). by apply Forall_nil_2. Qed.

(** C16: When results were reported for as many segments as the scan has, and only then, waiting
    for the aggregates ends, with every appended result merged into the returned one exactly
    once: any quantity that merging adds up is the sum over the appended results.  This holds
    in whatever order the workers append, claim segments and restart the scan, and however
    often the buffer fills up. *)
Theorem results_merged_once base data_size {E Res : Type} to_allocvec from_bytes merge_fruits (failed : E) max_response_bytes (good : Res -> Prop) segs q l s0 ops :
  (base mod 8 = 0)%nat -> good_results to_allocvec from_bytes merge_fruits max_response_bytes data_size good ->
  Z.of_nat data_size < 2 ^ 64 -> layout_new data_size (length segs) (length q) true = Some l -> (size (total l) <= length (data s0))%nat ->
  zeroed l s0 -> Forall seg_ok segs -> Forall (aop_ok good) ops -> reported ops < 2 ^ 64 -> appended ops <> [] \/ reported ops <> Z.of_nat (length segs) ->
  sruns (scan_and_poll base data_size to_allocvec from_bytes merge_fruits failed max_response_bytes segs q ops) s0 (fun o _ =>
    match o with
    | Some v => reported ops = Z.of_nat (length segs) /\ merged merge_fruits (appended ops) v /\
        forall f, (forall a b c, merge_fruits a b = Some c -> f c = f a + f b) -> f v = foldr Z.add 0 (f <$> appended ops)
    | None => reported ops <> Z.of_nat (length segs)
    end).
Proof.
  intros Hb Hgood Hds Hl Hmem Hz Hsegs Hops Hrep Hne. eapply sruns_mono; [by eapply scan_and_poll_spec|].
  intros [v|] s; [|done]. cbv beta. intros [Hc Hm]. split; [done|]. split; [done|]. intros f Hf. by eapply merged_sum.
Qed.

Lemma results_merged_once_witness : exists l, layout_new 16 2 3 true = Some l /\
  sruns (scan_and_poll 0 16 demo_to demo_from demo_merge tt 16 demo_segs [1; 2; 3] demo_aops) demo_memory (fun o _ =>
    match o with
    | Some v => reported demo_aops = 2 /\ merged demo_merge [3; 4] v /\
        forall f, (forall a b c, demo_merge a b = Some c -> f c = f a + f b) -> f v = foldr Z.add 0 (f <$> [3; 4])
    | None => reported demo_aops <> 2
    end).
Proof.
  eexists. split; [vm_compute; reflexivity|]. eapply results_merged_once; [done|apply demo_good_results|done|vm_compute; reflexivity|vm_compute; lia| |apply demo_segs_ok|apply demo_aops_ok|vm_compute; reflexivity|by left].
  eexists _, _. by vm_compute.
Defined.

(** Once results were reported for more segments than the scan has, as when a worker runs a
    second query or the scan is restarted, waiting never ends, whatever is done later. *)
Theorem overrun_waits_forever base data_size {E Res : Type} to_allocvec from_bytes merge_fruits (failed : E) max_response_bytes (good : Res -> Prop) segs q l s0 ops later :
  (base mod 8 = 0)%nat -> good_results to_allocvec from_bytes merge_fruits max_response_bytes data_size good ->
  Z.of_nat data_size < 2 ^ 64 -> layout_new data_size (length segs) (length q) true = Some l -> (size (total l) <= length (data s0))%nat ->
  zeroed l s0 -> Forall seg_ok segs -> Forall (aop_ok good) (ops ++ later) -> reported (ops ++ later) < 2 ^ 64 ->
  Z.of_nat (length segs) < reported ops ->
  sruns (scan_and_poll base data_size to_allocvec from_bytes merge_fruits failed max_response_bytes segs q (ops ++ later)) s0 (fun o _ => o = None).
Proof.
  intros Hb Hgood Hds Hl Hmem Hz Hsegs Hops Hrep Hover.
  assert (Z.of_nat (length segs) < reported (ops ++ later)) as Hlt.
  { apply Forall_app in Hops as [_ Hlater]. pose proof (reported_nonneg good later Hlater). rewrite reported_app. lia. }
  eapply sruns_mono; [eapply scan_and_poll_spec; try done; right; lia|]. intros [v|] s; [|done]. cbv beta. lia.
Qed.

Lemma overrun_waits_forever_witness : exists l, layout_new 16 2 3 true = Some l /\
  sruns (scan_and_poll 0 16 demo_to demo_from demo_merge tt 16 demo_segs [1; 2; 3] ((demo_aops ++ [Rescan; Append 3 1]) ++ [Append 4 1])) demo_memory (fun o _ => o = None).
Proof.
  eexists. split; [vm_compute; reflexivity|].
  eapply overrun_waits_forever; [done|apply demo_good_results|done|vm_compute; reflexivity|vm_compute; lia| |apply demo_segs_ok| |vm_compute; reflexivity|vm_compute; reflexivity].
  - eexists _, _. by vm_compute.
  - repeat (apply Forall_app; split); [apply demo_aops_ok|repeat (apply Forall_cons_2; [cbn; unfold demo_good; lia|]); by apply Forall_nil_2..].
Defined.
