(* ===== verification/Query.v ===== *)
(** * Search queries

    [query/mod.rs]: [SearchQueryInput] is what a search is written as; [into_tantivy_query] makes
    a tantivy query of it.  [solve_expr.rs] replaces the expressions that PostgreSQL evaluates.
    [query/score.rs] and [query/heap_field_filter.rs] add two queries to those of tantivy. *)

From stdpp Require Import prelude gmap strings.
From Stdlib Require Import ZArith Lia SpecFloat.
From S2P Require Import Prelude.

Local Open Scope Z_scope.

Module Query.

(** [std::ops::Bound] *)
Inductive Bound (A : Type) := Included (a : A) | Excluded (a : A) | Unbounded.
Arguments Included {A} a.
Arguments Excluded {A} a.
Arguments Unbounded {A}.

(** Scores are [f32]. *)
Definition Score := spec_float.

(** [(lower, upper).contains(&x)] *)
Definition contains {A} (lt le : A -> A -> bool) (b : Bound A * Bound A) (x : A) : bool :=
  match b.1 with Included a => le a x | Excluded a => lt a x | Unbounded => true end &&
  match b.2 with Included a => le x a | Excluded a => lt x a | Unbounded => true end.

(** An address; 0 is null. *)
Abbreviation Pointer := Z (only parsing).

Record HeapFieldFilter := mkHeapFieldFilter { expr_node : Pointer; description : string }.

(** Of [pdb::Query] the variants that a [Qual] is converted to; [PQ] are the others. *)
Inductive pdb_Query (PQ : Type) := Term_Bool (value : bool) | Exists | Other (q : PQ).
Arguments Term_Bool {PQ} value.
Arguments Exists {PQ}.
Arguments Other {PQ} q.

(** [for x in l { .. f(x)?.. }], with the results. *)
Definition each {S E A B} (f : A -> M S E B) : list A -> M S E (list B) :=
  fix go l := match l with [] => mret [] | x :: l => y ← f x; ys ← go l; mret (y :: ys) end.

Section query.
(** [P]: the arguments of a [MoreLikeThis], [Parse] or [TermSet]. *)
Context {PQ P : Type}.

Inductive SearchQueryInput :=
| Uninitialized
| All
| Boolean (must should must_not : list SearchQueryInput)
| Boost (query : SearchQueryInput) (factor : Score)
| ConstScore (query : SearchQueryInput) (score : Score)
| ScoreFilter (bounds : list (Bound Score * Bound Score)) (query : option SearchQueryInput)
| DisjunctionMax (disjuncts : list SearchQueryInput) (tie_breaker : option Score)
| Empty
| MoreLikeThis (p : P)
| Parse (p : P)
| TermSet (p : P)
| WithIndex (oid : Z) (query : SearchQueryInput)
| PostgresExpression (node expr_state : Pointer)
| HeapFilter (indexed_query : SearchQueryInput) (field_filters : list HeapFieldFilter)
| FieldedQuery (field : string) (query : pdb_Query PQ).

Definition postgres_expression (node : Pointer) : SearchQueryInput := PostgresExpression node 0.

Definition is_all (q : SearchQueryInput) : bool := match q with All => true | _ => false end.
Definition is_empty (q : SearchQueryInput) : bool := match q with Empty => true | _ => false end.
Definition is_score_filter (q : SearchQueryInput) : bool := match q with ScoreFilter _ _ => true | _ => false end.

Fixpoint need_scores (q : SearchQueryInput) : bool :=
  match q with
  | Boolean must should must_not => existsb need_scores must || existsb need_scores should || existsb need_scores must_not
  | Boost q _ | ConstScore q _ | WithIndex _ q | HeapFilter q _ => need_scores q
  | DisjunctionMax disjuncts _ => existsb need_scores disjuncts
  | MoreLikeThis _ => true
  | ScoreFilter _ _ => true
  | _ => false
  end.

Definition index_oid (q : SearchQueryInput) : option Z := match q with WithIndex oid _ => Some oid | _ => None end.

Definition is_nil {A} (l : list A) : bool := match l with [] => true | _ => false end.

Fixpoint is_full_scan_query (q : SearchQueryInput) : bool :=
  match q with
  | All => true
  | Boolean must should must_not =>
      let all_must_match_all := is_nil must || forallb is_full_scan_query must in
      let has_matching_clause := if negb (is_nil must) then all_must_match_all else existsb is_full_scan_query should in
      let must_not_excludes_nothing := is_nil must_not || forallb is_empty must_not in
      all_must_match_all && has_matching_clause && must_not_excludes_nothing
  | DisjunctionMax disjuncts _ => existsb is_full_scan_query disjuncts
  | WithIndex _ q | Boost q _ | ConstScore q _ | ScoreFilter _ (Some q) | HeapFilter q _ => is_full_scan_query q
  | _ => false
  end.

(** [root]: the part of a field name before the first dot. *)
Variable root : string -> string.

Fixpoint extract_field_names (q : SearchQueryInput) (field_names : gset string) : gset string :=
  match q with
  | Boolean must should must_not =>
      fold_left (fun names q => extract_field_names q names) must_not
        (fold_left (fun names q => extract_field_names q names) should
           (fold_left (fun names q => extract_field_names q names) must field_names))
  | Boost q _ | ConstScore q _ | WithIndex _ q | HeapFilter q _ => extract_field_names q field_names
  | DisjunctionMax disjuncts _ => fold_left (fun names q => extract_field_names q names) disjuncts field_names
  | FieldedQuery field _ => {[ root field ]} ∪ field_names
  | _ => field_names
  end.

(** ** Visiting

    The visitor may replace the node; its new children are visited.  Its state is [S].
    [fuel]: the depth of the query. *)

Section visit.
Context {S E : Type}.
Variable visitor : SearchQueryInput -> M S E SearchQueryInput.


Fixpoint visit (fuel : nat) (q : SearchQueryInput) : M S E SearchQueryInput :=
  match fuel with
  | O => out_of_fuel
  | Datatypes.S fuel =>
      q ← visitor q;
      match q with
      | Boolean must should must_not =>
          must_not ← each (visit fuel) must_not;
          should ← each (visit fuel) should;
          must ← each (visit fuel) must;
          mret (Boolean must should must_not)
      | Boost q factor => q ← visit fuel q; mret (Boost q factor)
      | ConstScore q score => q ← visit fuel q; mret (ConstScore q score)
      | ScoreFilter bounds q => q ← unwrap q; q ← visit fuel q; mret (ScoreFilter bounds (Some q))
      | DisjunctionMax disjuncts tie => disjuncts ← each (visit fuel) disjuncts; mret (DisjunctionMax disjuncts tie)
      | WithIndex oid q => q ← visit fuel q; mret (WithIndex oid q)
      | HeapFilter q filters => q ← visit fuel q; mret (HeapFilter q filters)
      | _ => mret q
      end
  end.

End visit.

Definition has_heap_filters {E} (fuel : nat) : SearchQueryInput -> M bool E SearchQueryInput :=
  visit (fun q => match q with HeapFilter _ _ => modify (fun _ => true);; mret q | _ => mret q end) fuel.

Definition has_postgres_expressions {E} (fuel : nat) : SearchQueryInput -> M bool E SearchQueryInput :=
  visit (fun q => match q with PostgresExpression node expr_state => modify (fun _ => true);; mret (PostgresExpression node expr_state) | _ => mret q end) fuel.

(** [ExecInitExpr] and [ExecEvalExpr]; a null result is [None]. *)
Variables (exec_init : Pointer -> Pointer) (exec_eval : Pointer -> option SearchQueryInput).

Definition init_postgres_expressions {E} (fuel : nat) : SearchQueryInput -> M Z E SearchQueryInput :=
  visit (fun q => match q with
    | PostgresExpression node _ => modify (fun cnt => cnt + 1);; mret (PostgresExpression node (exec_init node))
    | _ => mret q
    end) fuel.

Definition solve_postgres_expressions {E} (fuel : nat) : SearchQueryInput -> M unit E SearchQueryInput :=
  visit (fun q => match q with
    | PostgresExpression _ expr_state => mret (match exec_eval expr_state with Some resolved => resolved | None => Empty end)
    | _ => mret q
    end) fuel.

(** [prepare_query_for_execution]; the flag, the count and the outcome of each visit are passed
    on. *)
Definition prepare_query_for_execution {E} (fuel : nat) (q : SearchQueryInput) : outcome E SearchQueryInput :=
  match has_postgres_expressions fuel q false with
  | (Ok q, true) =>
      match init_postgres_expressions fuel q 0 with
      | (Ok q, _) => fst (solve_postgres_expressions fuel q tt)
      | (o, _) => o
      end
  | (o, _) => o
  end.

(** ** Tantivy queries *)

Inductive Occur := Must | Should | MustNot.

(** [Leaf]: the queries that are built from a field, a parsed string, terms or a document. *)
Context {Leaf E : Type}.

Inductive TantivyQuery :=
| AllQuery
| EmptyQuery
| BooleanQuery (subqueries : list (Occur * TantivyQuery))
| BoostQuery (query : TantivyQuery) (factor : Score)
| ConstScoreQuery (query : TantivyQuery) (score : Score)
| DisjunctionMaxQuery (disjuncts : list TantivyQuery) (tie_breaker : option Score)
| ScoreFilterQuery (bounds : list (Bound Score * Bound Score)) (query : TantivyQuery)
| HeapFilterQuery (indexed_query : TantivyQuery) (field_filters : list HeapFieldFilter)
| LeafQuery (l : Leaf).

Variables (more_like_this parse term_set : P -> M unit E Leaf) (fielded : string -> pdb_Query PQ -> M unit E Leaf).
(** Whether an expression context and the oid of the relation were given. *)
Variables (expr_context relation_oid : bool).

Definition zero_score : Score := S754_zero false.

Fixpoint into_tantivy_query (q : SearchQueryInput) : M unit E TantivyQuery :=
  match q with
  | Uninitialized => panic
  | All => mret (ConstScoreQuery AllQuery zero_score)
  | Boolean must should must_not =>
      a ← each into_tantivy_query must;
      b ← each into_tantivy_query should;
      c ← each into_tantivy_query must_not;
      mret (BooleanQuery ((pair Must <$> a) ++ (pair Should <$> b) ++ (pair MustNot <$> c)))
  | Boost q factor => t ← into_tantivy_query q; mret (BoostQuery t factor)
  | ConstScore q score => t ← into_tantivy_query q; mret (ConstScoreQuery t score)
  | ScoreFilter bounds (Some q) => t ← into_tantivy_query q; mret (ScoreFilterQuery bounds t)
  | ScoreFilter bounds None => panic
  | DisjunctionMax disjuncts tie_breaker =>
      ts ← each into_tantivy_query disjuncts;
      mret (DisjunctionMaxQuery ts tie_breaker)
  | Empty => mret EmptyQuery
  | MoreLikeThis p => l ← more_like_this p; mret (LeafQuery l)
  | Parse p => l ← parse p; mret (LeafQuery l)
  | TermSet p => l ← term_set p; mret (LeafQuery l)
  | WithIndex _ q => into_tantivy_query q
  | HeapFilter q filters =>
      t ← into_tantivy_query q;
      if expr_context then if relation_oid then mret (HeapFilterQuery t filters) else panic else panic
  | PostgresExpression _ _ => panic
  | FieldedQuery field q => l ← fielded field q; mret (LeafQuery l)
  end.

End query.

Arguments SearchQueryInput : clear implicits.
Arguments TantivyQuery : clear implicits.

End Query.
