(* ===== verification/Scorers.v ===== *)
(** * Scorers

    A tantivy query runs over a segment by way of a [Scorer], which walks over the documents
    that match.  [query/score.rs] and [query/heap_field_filter.rs] implement the trait: they wrap
    another scorer and skip the documents that do not pass. *)

From stdpp Require Import prelude gmap strings.
From Stdlib Require Import ZArith Lia SpecFloat.
From S2P Require Import Prelude Xid Query.
From stdpp Require Import list.
Import Query.

Local Open Scope Z_scope.

Module Scorers.

(** [tantivy::TERMINATED] *)
Definition TERMINATED : Z := 2 ^ 31 - 1.

(** The traits [DocSet] and [Scorer]; [None]: the call does not return. *)
Class Scorer (T : Type) := {
  doc : T -> Z;
  advance : T -> option (Z * T);
  score : T -> Score;
}.

(** What a scorer promises: it is at the first of these documents and walks over them; at the
    end it stays. *)
Inductive enumerates {T : Type} `{Scorer T} : T -> list (Z * Score) -> Prop :=
| enumerates_end t : doc t = TERMINATED -> advance t = Some (TERMINATED, t) -> enumerates t []
| enumerates_doc t t' l : doc t <> TERMINATED -> advance t = Some (doc t', t') -> enumerates t' l ->
    enumerates t ((doc t, score t) :: l).

(** A scorer over known documents. *)
#[global] Instance list_scorer : Scorer (list (Z * Score)) := {
  doc l := match l with [] => TERMINATED | e :: _ => e.1 end;
  advance l := Some (match tail l with [] => TERMINATED | e :: _ => e.1 end, tail l);
  score l := match l with [] => zero_score | e :: _ => e.2 end;
}.

(** [while doc != TERMINATED { .. advance() }] *)
Fixpoint collect {T} `{Scorer T} (fuel : nat) (t : T) : option (list (Z * Score)) :=
  match fuel with
  | O => None
  | S fuel =>
      if doc t =? TERMINATED then Some []
      else '(_, t') ← advance t; l ← collect fuel t'; Some ((doc t, score t) :: l)
  end.

(** ** Filtering by score *)

Definition in_bounds (bounds : list (Bound Score * Bound Score)) (s : Score) : bool :=
  existsb (fun b => contains SFltb SFleb b s) bounds.

Section score_filter.
Context {T : Type} `{Scorer T}.

(** [None]: the [EmptyScorer]. *)
Record ScoreFilterScorer := mkScoreFilterScorer { bounds : list (Bound Score * Bound Score); scorer : option T }.

(** More turns than there are documents. *)
Variable fuel : nat.

Fixpoint score_filter_first (fuel : nat) (bounds : list (Bound Score * Bound Score)) (t : T) : option (option T) :=
  match fuel with
  | O => None
  | S fuel =>
      if in_bounds bounds (score t) then Some (Some t)
      else '(d, t') ← advance t; if d =? TERMINATED then Some None else score_filter_first fuel bounds t'
  end.

(** [ScoreFilterWeight::scorer] *)
Definition score_filter_scorer (bounds : list (Bound Score * Bound Score)) (t : T) : option ScoreFilterScorer :=
  t' ← score_filter_first fuel bounds t;
  Some (mkScoreFilterScorer bounds t').

Fixpoint score_filter_advance (fuel : nat) (bounds : list (Bound Score * Bound Score)) (t : T) : option (Z * T) :=
  match fuel with
  | O => None
  | S fuel =>
      '(d, t') ← advance t;
      if (d =? TERMINATED) || in_bounds bounds (score t') then Some (d, t') else score_filter_advance fuel bounds t'
  end.

#[global] Instance ScoreFilterScorer_scorer : Scorer ScoreFilterScorer := {
  doc f := match scorer f with Some t => doc t | None => TERMINATED end;
  advance f :=
    match scorer f with
    | Some t => '(d, t') ← score_filter_advance fuel (bounds f) t; Some (d, mkScoreFilterScorer (bounds f) (Some t'))
    | None => Some (TERMINATED, f)
    end;
  score f := match scorer f with Some t => score t | None => zero_score end;
}.

End score_filter.

Arguments ScoreFilterScorer : clear implicits.

(** ** Filtering by the row *)

Section heap_filter.
Context {T : Type} `{Scorer T}.

(** The fast field [ctid]; [fetch]: the row is visible to the snapshot; [exec]: what its
    expression evaluates to. *)
Variables (ctid : Z -> option Z) (fetch : Xid.ItemPointerData -> bool) (exec : Pointer -> Xid.ItemPointerData -> option bool).

Definition evaluate (f : HeapFieldFilter) (ip : Xid.ItemPointerData) : bool :=
  if expr_node f =? 0 then true
  else if negb (fetch ip) then false
  else default false (exec (expr_node f) ip).

Record HeapFilterScorer := mkHeapFilterScorer { indexed_scorer : T; field_filters : list HeapFieldFilter; current_doc : Z }.

(** [None]: it panics. *)
Definition passes_heap_filters (filters : list HeapFieldFilter) (doc_id : Z) : option bool :=
  ctid_value ← ctid doc_id;
  Some (forallb (fun f => evaluate f (Xid.u64_to_item_pointer ctid_value)) filters).

Variable fuel : nat.

Fixpoint heap_filter_advance (fuel : nat) (filters : list HeapFieldFilter) (t : T) : option (Z * HeapFilterScorer) :=
  match fuel with
  | O => None
  | S fuel =>
      '(d, t') ← advance t;
      if d =? TERMINATED then Some (TERMINATED, mkHeapFilterScorer t' filters TERMINATED)
      else
        b ← passes_heap_filters filters d;
        if b : bool then Some (d, mkHeapFilterScorer t' filters d) else heap_filter_advance fuel filters t'
  end.

(** [HeapFilterScorer::new] with [find_first_valid_document] *)
Definition heap_filter_scorer (filters : list HeapFieldFilter) (t : T) : option HeapFilterScorer :=
  let s := mkHeapFilterScorer t filters (doc t) in
  b ← (if current_doc s =? TERMINATED then Some false else passes_heap_filters filters (current_doc s));
  if b : bool then Some s else '(_, s') ← heap_filter_advance fuel filters t; Some s'.

#[global] Instance HeapFilterScorer_scorer : Scorer HeapFilterScorer := {
  doc s := current_doc s;
  advance s := heap_filter_advance fuel (field_filters s) (indexed_scorer s);
  score s := score (indexed_scorer s);
}.

End heap_filter.

Arguments HeapFilterScorer : clear implicits.

End Scorers.
