(* ===== verification/ScorersProps.v ===== *)
(** * What the wrapping scorers walk over

    Over any scorer, of tantivy or a wrapper itself, each wrapper is again a scorer: it walks
    over exactly the documents that pass, with their scores. *)

From stdpp Require Import prelude gmap strings.
From Stdlib Require Import ZArith Lia SpecFloat.
From S2P Require Import Prelude Xid Query Scorers.
From stdpp Require Import list.
Import Query Scorers.

Local Open Scope Z_scope.

(** ** Scorers in general *)

Lemma enumerates_doc_ne {T} `{Scorer T} t l : enumerates t l -> Forall (fun e => e.1 <> TERMINATED) l.
Proof. induction 1; by constructor. Qed.

Lemma enumerates_list l : Forall (fun e => e.1 <> TERMINATED) l -> enumerates (T := list (Z * Score)) l l.
Proof.
  induction l as [|[d s] l IH]; intros Hl; [by eapply enumerates_end|]. apply Forall_cons in Hl as [Hd Hl].
  change ((d, s) :: l) with ((doc ((d, s) :: l), score ((d, s) :: l)) :: l) at 2. by apply (enumerates_doc (T := list (Z * Score)) ((d, s) :: l) l); [| |apply IH].
Qed.

(** A scorer walks over one list of documents only. *)
Lemma enumerates_fun {T} `{Scorer T} t l l' : enumerates t l -> enumerates t l' -> l = l'.
Proof.
  intros Hl. revert l'. induction Hl as [t Hd Ha|t t' l Hd Ha Hl IH]; intros l' Hl'.
  - inversion Hl'; [done|congruence].
  - inversion Hl' as [|? t'' l'' Hd' Ha' Hl'']; subst; [congruence|]. rewrite Ha in Ha'. injection Ha' as _ <-. by rewrite (IH l'').
Qed.

Lemma collect_enumerates {T} `{Scorer T} t l fuel : enumerates t l -> (length l < fuel)%nat -> collect fuel t = Some l.
Proof.
  intros Hl. revert fuel. induction Hl as [t Hd Ha|t t' l Hd Ha Hl IH]; intros [|fuel] Hf; cbn [length] in Hf; try lia; cbn [collect].
  - by rewrite Hd, Z.eqb_refl.
  - rewrite (proj2 (Z.eqb_neq _ _) Hd), Ha. cbn [mbind option_bind]. rewrite IH by lia. done.
Qed.

(** ** Filtering by score *)

Section score_filter.
Context {T : Type} `{Scorer T}.
Variables (fuel : nat) (bs : list (Bound Score * Bound Score)).

#[local] Instance score_filter : Scorer (ScoreFilterScorer T) := ScoreFilterScorer_scorer fuel.

Definition in_bounds_of (e : Z * Score) : Prop := in_bounds bs e.2 = true.

#[global] Instance in_bounds_of_dec e : Decision (in_bounds_of e).
Proof. unfold in_bounds_of. apply _. Defined.

Lemma score_filter_advance_spec f (t t' : T) l : advance t = Some (doc t', t') -> enumerates t' l -> (length l < f)%nat ->
  exists t'' l', score_filter_advance f bs t = Some (doc t'', t'') /\ enumerates t'' l' /\ (length l' <= length l)%nat /\
    filter in_bounds_of l' = filter in_bounds_of l /\ (l' = [] \/ in_bounds bs (score t'') = true).
Proof.
  intros Ha Hl. revert f t Ha. induction Hl as [t' Hd Hu|t' u l Hd Hu Hl IH]; intros [|f] t Ha Hf; cbn [length] in Hf; try lia; cbn [score_filter_advance]; rewrite Ha; cbn [mbind option_bind].
  - rewrite Hd, Z.eqb_refl. exists t', []. rewrite Hd. split; [done|]. split; [by eapply enumerates_end|]. by auto.
  - rewrite (proj2 (Z.eqb_neq _ _) Hd). cbn [orb]. destruct (in_bounds bs (score t')) eqn:Eb.
    + exists t', ((doc t', score t') :: l). split; [done|]. split; [by eapply enumerates_doc|]. by auto.
    + destruct (IH f t' Hu ltac:(lia)) as (t'' & l' & Hadv & Hl' & Hlen & Hfil & Hin). exists t'', l'. split; [done|]. split; [done|]. split; [cbn [length]; lia|].
      split; [|done]. by rewrite filter_cons_False by (unfold in_bounds_of; cbn [snd]; congruence).
Qed.

Lemma score_filter_from (t : T) l : (length l < fuel)%nat -> enumerates t l -> (l = [] \/ in_bounds bs (score t) = true) ->
  enumerates (T := ScoreFilterScorer T) (mkScoreFilterScorer bs (Some t)) (filter in_bounds_of l).
Proof.
  revert t. induction l as [l IH] using (induction_ltof1 _ length); unfold ltof in IH. intros t Hf Hl Hfirst. inversion Hl as [? Hd Ha E1 E2|? t' l' Hd Ha Hl' E1 E2]; subst.
  - eapply (enumerates_end (T := ScoreFilterScorer T)); [exact Hd|]. cbn [advance score_filter ScoreFilterScorer_scorer scorer bounds].
    destruct fuel as [|f]; [cbn in Hf; lia|]. cbn [score_filter_advance]. rewrite Ha. cbn [mbind option_bind]. by rewrite Z.eqb_refl.
  - destruct Hfirst as [?|Hb]; [done|]. rewrite filter_cons_True by done. cbn [length] in Hf.
    destruct (score_filter_advance_spec fuel t t' l' Ha Hl' ltac:(lia)) as (t'' & k & Hadv & Hk & Hlen & Hfil & Hin).
    change (doc t, score t) with (doc (mkScoreFilterScorer bs (Some t)), score (mkScoreFilterScorer bs (Some t))).
    apply (enumerates_doc (T := ScoreFilterScorer T) _ (mkScoreFilterScorer bs (Some t''))); [exact Hd| |].
    + cbn [advance score_filter ScoreFilterScorer_scorer scorer bounds]. by rewrite Hadv.
    + rewrite <- Hfil. apply IH; [cbn [length]; lia|lia|done|done].
Qed.

Lemma score_filter_first_spec f (t : T) l : enumerates t l -> (length l < f)%nat ->
  exists o, score_filter_first f bs t = Some o /\
    match o with
    | Some t' => exists l', enumerates t' l' /\ (length l' <= length l)%nat /\ filter in_bounds_of l' = filter in_bounds_of l /\ (l' = [] \/ in_bounds bs (score t') = true)
    | None => filter in_bounds_of l = []
    end.
Proof.
  intros Hl. revert f. induction Hl as [t Hd Hu|t u l Hd Hu Hl IH]; intros [|f] Hf; cbn [length] in Hf; try lia; cbn [score_filter_first].
  - destruct (in_bounds bs (score t)).
    + exists (Some t). split; [done|]. exists []. split; [by eapply enumerates_end|]. by auto.
    + rewrite Hu. cbn [mbind option_bind]. rewrite Z.eqb_refl. by exists None.
  - destruct (in_bounds bs (score t)) eqn:Eb.
    + exists (Some t). split; [done|]. eexists. split; [by eapply enumerates_doc|]. by auto.
    + rewrite Hu. cbn [mbind option_bind]. rewrite filter_cons_False by (unfold in_bounds_of; cbn [snd]; congruence).
      destruct (Z.eqb_spec (doc u) TERMINATED) as [Ed|Ed].
      { exists None. split; [done|]. inversion Hl; [done|congruence]. }
      destruct (IH f ltac:(lia)) as ([t'|] & -> & Hpost); eexists; (split; [done|]); [|done]. destruct Hpost as (l' & Hl' & Hlen & Hpost). exists l'. cbn [length]. split; [done|]. split; [lia|done].
Qed.

Lemma score_filter_spec (t : T) l : enumerates t l -> (length l < fuel)%nat ->
  exists s, score_filter_scorer fuel bs t = Some s /\ enumerates (T := ScoreFilterScorer T) s (filter in_bounds_of l).
Proof.
  intros Hl Hf. unfold score_filter_scorer. destruct (score_filter_first_spec fuel t l Hl Hf) as (o & -> & Hpost). eexists. split; [done|].
  destruct o as [t'|].
  - destruct Hpost as (l' & Hl' & Hlen & <- & Hin). apply score_filter_from; [lia|done|done].
  - rewrite Hpost. by eapply (enumerates_end (T := ScoreFilterScorer T)).
Qed.

End score_filter.

(** ** Filtering by the row *)

Section heap_filter.
Context {T : Type} `{Scorer T}.
Variables (ctid : Z -> option Z) (fetch : Xid.ItemPointerData -> bool) (exec : Z -> Xid.ItemPointerData -> option bool).
Variables (fuel : nat) (fs : list HeapFieldFilter).

#[local] Instance heap_filter : Scorer (HeapFilterScorer T) := HeapFilterScorer_scorer ctid fetch exec fuel.

(** The row of the document passes all filters. *)
Definition row_passes (e : Z * Score) : Prop := passes_heap_filters ctid fetch exec fs e.1 = Some true.

#[global] Instance row_passes_dec e : Decision (row_passes e).
Proof. unfold row_passes. apply _. Defined.

(** Every document has the address of its row. *)
Definition has_ctid (l : list (Z * Score)) : Prop := Forall (fun e => is_Some (ctid e.1)) l.

Lemma heap_filter_advance_spec f (t t' : T) l : advance t = Some (doc t', t') -> enumerates t' l -> has_ctid l -> (length l < f)%nat ->
  exists t'' l', heap_filter_advance ctid fetch exec f fs t = Some (doc t'', mkHeapFilterScorer t'' fs (doc t'')) /\ enumerates t'' l' /\ (length l' <= length l)%nat /\
    has_ctid l' /\ filter row_passes l' = filter row_passes l /\ (l' = [] \/ passes_heap_filters ctid fetch exec fs (doc t'') = Some true).
Proof.
  intros Ha Hl. revert f t Ha. induction Hl as [t' Hd Hu|t' u l Hd Hu Hl IH]; intros [|f] t Ha Hct Hf; cbn [length] in Hf; try lia; cbn [heap_filter_advance]; rewrite Ha; cbn [mbind option_bind].
  - rewrite Hd, Z.eqb_refl. exists t', []. rewrite Hd. split; [done|]. split; [by eapply enumerates_end|]. by auto.
  - rewrite (proj2 (Z.eqb_neq _ _) Hd). pose proof Hct as Hct0. apply Forall_cons in Hct as [[c Hc] Hct]. cbn [fst] in Hc.
    destruct (passes_heap_filters ctid fetch exec fs (doc t')) as [b|] eqn:Eb; [|unfold passes_heap_filters in Eb; by rewrite Hc in Eb]. cbn [mbind option_bind].
    destruct b.
    + exists t', ((doc t', score t') :: l). split; [done|]. split; [by eapply enumerates_doc|]. by auto.
    + destruct (IH f t' Hu Hct ltac:(lia)) as (t'' & l' & Hadv & Hl' & Hlen & Hct' & Hfil & Hin). exists t'', l'. split; [done|]. split; [done|]. split; [cbn [length]; lia|].
      split; [done|]. split; [|done]. by rewrite filter_cons_False by (unfold row_passes; cbn [fst]; congruence).
Qed.

Lemma heap_filter_advance_end f (t : T) : (0 < f)%nat -> advance t = Some (TERMINATED, t) ->
  heap_filter_advance ctid fetch exec f fs t = Some (TERMINATED, mkHeapFilterScorer t fs TERMINATED).
Proof. intros Hf Ha. destruct f as [|f]; [lia|]. cbn [heap_filter_advance]. rewrite Ha. cbn [mbind option_bind]. by rewrite Z.eqb_refl. Qed.

Lemma heap_filter_from (t : T) l : (length l < fuel)%nat -> enumerates t l -> has_ctid l -> (l = [] \/ passes_heap_filters ctid fetch exec fs (doc t) = Some true) ->
  enumerates (T := HeapFilterScorer T) (mkHeapFilterScorer t fs (doc t)) (filter row_passes l).
Proof.
  revert t. induction l as [l IH] using (induction_ltof1 _ length); unfold ltof in IH. intros t Hf Hl Hct Hfirst. inversion Hl as [? Hd Ha E1 E2|? t' l' Hd Ha Hl' E1 E2]; subst.
  - eapply (enumerates_end (T := HeapFilterScorer T)); [exact Hd|]. rewrite Hd. apply heap_filter_advance_end; [cbn in Hf; lia|done].
  - destruct Hfirst as [?|Hb]; [done|]. rewrite filter_cons_True by done. cbn [length] in Hf. apply Forall_cons in Hct as [_ Hct].
    destruct (heap_filter_advance_spec fuel t t' l' Ha Hl' Hct ltac:(lia)) as (t'' & k & Hadv & Hk & Hlen & Hctk & Hfil & Hin).
    change (doc t, score t) with (doc (mkHeapFilterScorer t fs (doc t)), score (mkHeapFilterScorer t fs (doc t))).
    apply (enumerates_doc (T := HeapFilterScorer T) _ (mkHeapFilterScorer t'' fs (doc t''))); [exact Hd| |].
    + exact Hadv.
    + rewrite <- Hfil. apply IH; [cbn [length]; lia|lia|done|done|done].
Qed.

Lemma heap_filter_spec (t : T) l : enumerates t l -> has_ctid l -> (length l < fuel)%nat ->
  exists s, heap_filter_scorer ctid fetch exec fuel fs t = Some s /\ enumerates (T := HeapFilterScorer T) s (filter row_passes l).
Proof.
  intros Hl Hct Hf. unfold heap_filter_scorer. cbn [current_doc]. inversion Hl as [? Hd Ha E1 E2|? t' l' Hd Ha Hl' E1 E2]; subst.
  - rewrite Hd, Z.eqb_refl. cbn [mbind option_bind]. cbn [length] in Hf. rewrite heap_filter_advance_end by (lia || done). eexists. split; [done|].
    eapply (enumerates_end (T := HeapFilterScorer T)); [done|]. apply heap_filter_advance_end; [lia|done].
  - rewrite (proj2 (Z.eqb_neq _ _) Hd). pose proof Hct as Hct0. apply Forall_cons in Hct as [[c Hc] Hct]. cbn [fst] in Hc. cbn [length] in Hf.
    destruct (passes_heap_filters ctid fetch exec fs (doc t)) as [b|] eqn:Eb; [|unfold passes_heap_filters in Eb; by rewrite Hc in Eb]. cbn [mbind option_bind]. destruct b.
    + eexists. split; [done|]. apply heap_filter_from; [cbn [length]; lia|done|done|by right].
    + destruct (heap_filter_advance_spec fuel t t' l' Ha Hl' Hct ltac:(lia)) as (t'' & k & Hadv & Hk & Hlen & Hctk & Hfil & Hin). rewrite Hadv. cbn [mbind option_bind].
      eexists. split; [done|]. rewrite filter_cons_False by (unfold row_passes; cbn [fst]; congruence). rewrite <- Hfil. apply heap_filter_from; [lia|done|done|done].
Qed.

End heap_filter.
