(* ===== verification/QuerySem.v ===== *)
(** * What a search query finds

    What tantivy documents of its queries is a class; the documents that a [SearchQueryInput]
    finds follow from it by [into_tantivy_query]. *)

From stdpp Require Import prelude gmap strings.
From Stdlib Require Import ZArith Lia SpecFloat.
From S2P Require Import Prelude Xid Query Scorers ScorersProps.
From stdpp Require Import list.
Import Query Scorers.

Local Open Scope Z_scope.

(** ** Computations without state *)

Definition yields {E A} (c : M unit E A) (a : A) : Prop := c tt = (Ok a, tt).

Lemma yields_ret {E A} (a : A) : yields (E := E) (mret a) a.
Proof. done. Qed.

Lemma yields_bind {E A B} (c : M unit E A) (f : A -> M unit E B) a b : yields c a -> yields (f a) b -> yields (c ≫= f) b.
Proof. unfold yields. intros Hc Hf. by rewrite (bind_ok _ _ _ _ _ Hc). Qed.

Lemma yields_bind_inv {E A B} (c : M unit E A) (f : A -> M unit E B) b : yields (c ≫= f) b -> exists a, yields c a /\ yields (f a) b.
Proof. unfold yields, mbind, M_bind. destruct (c tt) as [[a|e| |] []]; try done. by exists a. Qed.

Lemma yields_unwrap {E A} (o : option A) a : yields (E := E) (unwrap o) a <-> o = Some a.
Proof. unfold yields, unwrap. destruct o; split; try done; [by intros [= ->]|by intros [= ->]]. Qed.

Lemma yields_ret_inv {E A} (a b : A) : yields (E := E) (mret a) b -> a = b.
Proof. by intros [= ->]. Qed.

Lemma yields_fun {E A} (c : M unit E A) a b : yields c a -> yields c b -> a = b.
Proof. unfold yields. intros -> [= ->]. done. Qed.

Lemma yields_each {E A B} (f : A -> M unit E B) l k : Forall2 (fun x y => yields (f x) y) l k -> yields (each f l) k.
Proof. induction 1 as [|x y l k Hx _ IH]; [done|]. cbn [each]. by eapply yields_bind, yields_bind. Qed.

Lemma yields_each_inv {E A B} (f : A -> M unit E B) l k : yields (each f l) k -> Forall2 (fun x y => yields (f x) y) l k.
Proof.
  revert k. induction l as [|x l IH]; intros k Hk; cbn [each] in Hk.
  - apply yields_ret_inv in Hk. by subst k.
  - apply yields_bind_inv in Hk as (y & Hy & Hk). apply yields_bind_inv in Hk as (ys & Hys & Hk). apply yields_ret_inv in Hk. subst k. constructor; [done|by apply IH].
Qed.

(** ** Induction on queries *)

Section induction.
Context {PQ P : Type} (Pr : SearchQueryInput PQ P -> Prop).
Hypotheses (h_un : Pr Uninitialized) (h_all : Pr All)
  (h_bool : forall a b c, Forall Pr a -> Forall Pr b -> Forall Pr c -> Pr (Boolean a b c))
  (h_boost : forall q f, Pr q -> Pr (Boost q f)) (h_const : forall q s, Pr q -> Pr (ConstScore q s))
  (h_score : forall bs q, Pr q -> Pr (ScoreFilter bs (Some q))) (h_noscore : forall bs, Pr (ScoreFilter bs None))
  (h_max : forall l tie, Forall Pr l -> Pr (DisjunctionMax l tie)) (h_empty : Pr Empty)
  (h_mlt : forall p, Pr (MoreLikeThis p)) (h_parse : forall p, Pr (Parse p)) (h_terms : forall p, Pr (TermSet p))
  (h_index : forall o q, Pr q -> Pr (WithIndex o q)) (h_expr : forall n s, Pr (PostgresExpression n s))
  (h_heap : forall q fs, Pr q -> Pr (HeapFilter q fs)) (h_field : forall f q, Pr (FieldedQuery f q)).

Fixpoint query_induction (q : SearchQueryInput PQ P) : Pr q :=
  let go := fix go l : Forall Pr l := match l with [] => Forall_nil_2 Pr | q :: l => Forall_cons_2 Pr q l (query_induction q) (go l) end in
  match q with
  | Uninitialized => h_un
  | All => h_all
  | Boolean a b c => h_bool a b c (go a) (go b) (go c)
  | Boost q f => h_boost q f (query_induction q)
  | ConstScore q s => h_const q s (query_induction q)
  | ScoreFilter bs (Some q) => h_score bs q (query_induction q)
  | ScoreFilter bs None => h_noscore bs
  | DisjunctionMax l tie => h_max l tie (go l)
  | Empty => h_empty
  | MoreLikeThis p => h_mlt p
  | Parse p => h_parse p
  | TermSet p => h_terms p
  | WithIndex o q => h_index o q (query_induction q)
  | PostgresExpression n s => h_expr n s
  | HeapFilter q fs => h_heap q fs (query_induction q)
  | FieldedQuery f q => h_field f q
  end.

End induction.

(** ** Tantivy *)

(** The index: its documents, the rows of these, and what the scorer of a query walks over. *)
Class Index (Leaf : Type) := {
  all_docs : list Z;
  ctid : Z -> option Z;
  fetch : Xid.ItemPointerData -> bool;
  exec : Z -> Xid.ItemPointerData -> option bool;
  run : TantivyQuery Leaf -> list (Z * Score);
}.

Definition found {Leaf} `{Index Leaf} (t : TantivyQuery Leaf) (d : Z) : Prop := d ∈ (run t).*1.

(** What tantivy documents; the two queries that are not of tantivy run by their scorers. *)
Class TantivyLaws (Leaf : Type) `{Index Leaf} : Prop := {
  ti_docs : forall t d, found t d -> d ∈ all_docs;
  ti_valid : TERMINATED ∉ all_docs;
  ti_ctid : forall d, d ∈ all_docs -> is_Some (ctid d);
  ti_all : forall d, d ∈ all_docs -> found AllQuery d;
  ti_empty : forall d, ~ found EmptyQuery d;
  ti_boolean : forall l d, found (BooleanQuery l) d <->
    (forall t, (Must, t) ∈ l -> found t d) /\ (exists o t, (o, t) ∈ l /\ o <> MustNot /\ found t d) /\ (forall t, (MustNot, t) ∈ l -> ~ found t d);
  ti_boost : forall t f d, found (BoostQuery t f) d <-> found t d;
  ti_const : forall t s d, found (ConstScoreQuery t s) d <-> found t d;
  ti_max : forall l tie d, found (DisjunctionMaxQuery l tie) d <-> exists t, t ∈ l /\ found t d;
  ti_score_filter : forall bs t, exists s, score_filter_scorer (S (length (run t))) bs (run t) = Some s /\
    enumerates (T := ScoreFilterScorer (list (Z * Score))) (H := ScoreFilterScorer_scorer (S (length (run t)))) s (run (ScoreFilterQuery bs t));
  ti_heap_filter : forall fs t, exists s, heap_filter_scorer ctid fetch exec (S (length (run t))) fs (run t) = Some s /\
    enumerates (T := HeapFilterScorer (list (Z * Score))) (H := HeapFilterScorer_scorer ctid fetch exec (S (length (run t)))) s (run (HeapFilterQuery t fs));
}.

Section laws.
Context {Leaf : Type} `{Index Leaf} `{!TantivyLaws Leaf}.

Lemma run_enumerates t : enumerates (run t) (run t).
Proof.
  apply enumerates_list, Forall_forall. intros [d s] Hd Ht. cbn [fst] in Ht. subst d. apply ti_valid, (ti_docs t). apply list_elem_of_fmap. by exists (TERMINATED, s).
Qed.

(** A filter by score leaves the documents whose score is within the bounds. *)
Lemma run_score_filter bs t : run (ScoreFilterQuery bs t) = filter (in_bounds_of bs) (run t).
Proof.
  destruct (ti_score_filter bs t) as (s & Hs & Hen). destruct (score_filter_spec (S (length (run t))) bs (run t) (run t)) as (s' & Hs' & Hen'); [apply run_enumerates|lia|].
  rewrite Hs in Hs'. injection Hs' as <-. by eapply (enumerates_fun (H := ScoreFilterScorer_scorer _)).
Qed.

(** A filter by the row leaves the documents whose row passes. *)
Lemma run_heap_filter fs t : run (HeapFilterQuery t fs) = filter (row_passes ctid fetch exec fs) (run t).
Proof.
  destruct (ti_heap_filter fs t) as (s & Hs & Hen).
  destruct (heap_filter_spec ctid fetch exec (S (length (run t))) fs (run t) (run t)) as (s' & Hs' & Hen'); [apply run_enumerates| |lia|].
  - apply Forall_forall. intros e He. apply ti_ctid, (ti_docs t). apply list_elem_of_fmap. by exists e.
  - rewrite Hs in Hs'. injection Hs' as <-. by eapply (enumerates_fun (H := HeapFilterScorer_scorer _ _ _ _)).
Qed.

Lemma found_heap_filter fs t d : found (HeapFilterQuery t fs) d <-> found t d /\ passes_heap_filters ctid fetch exec fs d = Some true.
Proof.
  unfold found. rewrite run_heap_filter. rewrite !list_elem_of_fmap. split.
  - intros (e & -> & [Hp He]%list_elem_of_filter). split; [by exists e|done].
  - intros [(e & -> & He) Hp]. exists e. split; [done|]. by apply list_elem_of_filter.
Qed.

End laws.

(** ** Converted queries *)

Section convert.
Context {PQ P Leaf E : Type} `{Index Leaf} `{!TantivyLaws Leaf}.
Variables (more_like_this parse term_set : P -> M unit E Leaf) (fielded : string -> pdb_Query PQ -> M unit E Leaf).

Abbreviation into := (into_tantivy_query more_like_this parse term_set fielded true true).

Implicit Types (q : SearchQueryInput PQ P) (t : TantivyQuery Leaf).

(** The query can be converted, and what it becomes finds the document. *)
Definition finds q d : Prop := exists t, yields (into q) t /\ found t d.

Definition converts q : Prop := exists t, yields (into q) t.

Lemma finds_yields q t d : yields (into q) t -> finds q d <-> found t d.
Proof. intros Ht. split; [|by exists t]. intros (t' & Ht' & Hf). by rewrite (yields_fun _ _ _ Ht Ht'). Qed.

Lemma converts_list qs : Forall converts qs -> exists ts, Forall2 (fun q t => yields (into q) t) qs ts.
Proof. intros Hq. induction Hq as [|q qs [t Ht] _ [ts Hts]]; [by exists []|]. exists (t :: ts). by constructor. Qed.

Lemma elem_of_occur (o o' : Occur) (ts : list (TantivyQuery Leaf)) t : (o, t) ∈ pair o' <$> ts <-> o = o' /\ t ∈ ts.
Proof. rewrite list_elem_of_fmap. split; [intros (x & [= -> ->] & Hx); done|intros [-> Ht]; by exists t]. Qed.

Lemma finds_all qs ts d : Forall2 (fun q t => yields (into q) t) qs ts -> (forall t, t ∈ ts -> found t d) <-> Forall (fun q => finds q d) qs.
Proof.
  intros Hts. induction Hts as [|q t qs ts Ht Hts IH]; [split; [done|]; intros _ t Ht; by apply not_elem_of_nil in Ht|].
  rewrite Forall_cons, <- IH, (finds_yields _ _ d Ht). split.
  - intros Hall. split; [apply Hall; by left|]. intros t' Ht'. apply Hall. by right.
  - intros [Hf Hall] t' [->|Ht']%elem_of_cons; [done|by apply Hall].
Qed.

Lemma finds_some qs ts d : Forall2 (fun q t => yields (into q) t) qs ts -> (exists t, t ∈ ts /\ found t d) <-> List.Exists (fun q => finds q d) qs.
Proof.
  intros Hts. induction Hts as [|q t qs ts Ht Hts IH]; [split; [intros (t & Ht & _); by apply not_elem_of_nil in Ht|by intros ?%Exists_nil]|].
  rewrite Exists_cons, <- IH, (finds_yields _ _ d Ht). split.
  - intros (t' & [->|Ht']%elem_of_cons & Hf); [by left|right; by exists t'].
  - intros [Hf|(t' & Ht' & Hf)]; [exists t; split; [by left|done]|exists t'; split; [by right|done]].
Qed.

(** Everything that must match does, something does, and nothing that must not. *)
Lemma finds_boolean a b c d : Forall converts a -> Forall converts b -> Forall converts c ->
  converts (Boolean a b c) /\
  (finds (Boolean a b c) d <-> Forall (fun q => finds q d) a /\ (List.Exists (fun q => finds q d) a \/ List.Exists (fun q => finds q d) b) /\ ~ List.Exists (fun q => finds q d) c).
Proof.
  intros [ta Ha]%converts_list [tb Hb]%converts_list [tc Hc]%converts_list.
  assert (yields (into (Boolean a b c)) (BooleanQuery ((pair Must <$> ta) ++ (pair Should <$> tb) ++ (pair MustNot <$> tc)))) as Hy.
  { cbn [into_tantivy_query]. eapply yields_bind; [by apply yields_each|]. eapply yields_bind; [by apply yields_each|]. eapply yields_bind; [by apply yields_each|done]. }
  split; [by eexists|]. rewrite (finds_yields _ _ d Hy), ti_boolean, <- (finds_all a ta d Ha), <- (finds_some a ta d Ha), <- (finds_some b tb d Hb), <- (finds_some c tc d Hc).
  setoid_rewrite elem_of_app. setoid_rewrite elem_of_app. setoid_rewrite elem_of_occur. split.
  - intros (Hm & (o & t & Hin & Ho & Hf) & Hn). split; [intros t' Ht'; apply Hm; by left|]. split.
    + destruct Hin as [[_ Ht]|[[_ Ht]|[-> _]]]; [left; by exists t|right; by exists t|done].
    + intros (t' & Ht' & Hf'). apply (Hn t'); [|done]. by right; right.
  - intros (Hm & Hs & Hn). split; [|split].
    + intros t [[_ Ht]|[[? _]|[? _]]]; [by apply Hm|done|done].
    + destruct Hs as [(t & Ht & Hf)|(t & Ht & Hf)]; [exists Must, t|exists Should, t]; split_and!; try done; [by left|by right; left].
    + intros t [[? _]|[[? _]|[_ Ht]]]; [done|done|]. intros Hf. apply Hn. by exists t.
Qed.

(** No filter by score or row. *)
Fixpoint unfiltered q : bool :=
  match q with
  | Boolean a b c => forallb unfiltered a && forallb unfiltered b && forallb unfiltered c
  | Boost q _ | ConstScore q _ | WithIndex _ q => unfiltered q
  | DisjunctionMax l _ => forallb unfiltered l
  | ScoreFilter _ _ | HeapFilter _ _ => false
  | _ => true
  end.

Definition full_scan q : Prop := unfiltered q = true -> is_full_scan_query q = true -> converts q -> forall d, d ∈ all_docs -> finds q d.

Lemma converts_boolean_inv a b c : converts (Boolean a b c) -> Forall converts a /\ Forall converts b /\ Forall converts c.
Proof.
  intros [t Ht]. cbn [into_tantivy_query] in Ht. apply yields_bind_inv in Ht as (ta & Ha & Ht). apply yields_bind_inv in Ht as (tb & Hb & Ht). apply yields_bind_inv in Ht as (tc & Hc & _).
  apply yields_each_inv in Ha, Hb, Hc. split_and!; (eapply Forall2_Forall_l; [done|]; apply Forall_forall; intros t' _ q Hq; by exists t').
Qed.

Lemma full_scan_list qs : Forall full_scan qs -> forallb unfiltered qs = true -> Forall converts qs -> forall d, d ∈ all_docs ->
  (forallb is_full_scan_query qs = true -> Forall (fun q => finds q d) qs) /\ (existsb is_full_scan_query qs = true -> List.Exists (fun q => finds q d) qs).
Proof.
  intros Hf Hu Hc d Hd. induction Hf as [|q qs Hq Hqs IH]; [done|]. cbn [forallb existsb] in *. apply andb_prop in Hu as [Hu1 Hu2]. apply Forall_cons in Hc as [Hc1 Hc2].
  destruct (IH Hu2 Hc2) as [IH1 IH2]. split.
  - intros [H1 H2]%andb_prop. constructor; [by apply Hq|by apply IH1].
  - intros [H1|H2]%orb_prop; [left; by apply Hq|right; by apply IH2].
Qed.

Lemma full_scan_all q : full_scan q.
Proof.
  induction q as [| |a b c Ha Hb Hc|q f IH|q s IH|bs q IH|bs|l tie IH| |p|p|p|o q IH|n s|q fs IH|f q] using query_induction; intros Hu Hs Hcv d Hd; try done.
  - eexists. split; [apply yields_ret|]. by apply ti_const, ti_all.
  - cbn [unfiltered] in Hu. apply andb_prop in Hu as [[Hua Hub]%andb_prop Huc]. destruct (converts_boolean_inv _ _ _ Hcv) as (Ca & Cb & Cc).
    apply finds_boolean; [done|done|done|]. cbn [is_full_scan_query] in Hs. apply andb_prop in Hs as [[Hs1 Hs2]%andb_prop Hs3].
    destruct (full_scan_list a Ha Hua Ca d Hd) as [Fa _]. destruct (full_scan_list b Hb Hub Cb d Hd) as [_ Fb].
    assert (Forall (fun q => finds q d) a) as Fall. { destruct a as [|x a]; [done|]. by apply Fa. }
    split; [done|]. split.
    + destruct a as [|x a]; [right; by apply Fb|left]. apply Forall_cons in Fall as [Fx _]. by left.
    + intros Hex. assert (forallb is_empty c = true) as Hemp by (by destruct c). apply Exists_exists in Hex as (x & Hx & t & Ht & Hf).
      rewrite forallb_forall in Hemp. specialize (Hemp x (proj1 (list_elem_of_In _ _) Hx)). destruct x; try done. cbn [into_tantivy_query] in Ht.
      apply yields_ret_inv in Ht. subst t. by eapply ti_empty.
  - destruct Hcv as [t Ht]. cbn [into_tantivy_query] in Ht. pose proof Ht as Ht0. apply yields_bind_inv in Ht as (t' & Ht' & Ht). apply yields_ret_inv in Ht. subst t.
    eexists. split; [exact Ht0|]. apply ti_boost, (finds_yields _ _ d Ht'). apply IH; [done|done|by eexists|done].
  - destruct Hcv as [t Ht]. cbn [into_tantivy_query] in Ht. pose proof Ht as Ht0. apply yields_bind_inv in Ht as (t' & Ht' & Ht). apply yields_ret_inv in Ht. subst t.
    eexists. split; [exact Ht0|]. apply ti_const, (finds_yields _ _ d Ht'). apply IH; [done|done|by eexists|done].
  - destruct Hcv as [t Ht]. cbn [into_tantivy_query] in Ht. pose proof Ht as Ht0. apply yields_bind_inv in Ht as (ts & Hts & Ht). apply yields_ret_inv in Ht. subst t.
    apply yields_each_inv in Hts. eexists. split; [exact Ht0|]. apply ti_max. apply (finds_some l ts d Hts).
    destruct (full_scan_list l IH Hu) with (d := d) as [_ Fl]; [|done|by apply Fl]. eapply Forall2_Forall_l; [done|]. apply Forall_forall. intros t' _ q Hq. by exists t'.
  - destruct Hcv as [t Ht]. exists t. split; [done|]. apply (finds_yields q t d Ht). apply IH; [done|done|by exists t|done].
Qed.

End convert.

(** * A small index

    An index that is a list of documents, in which [leaf] says what the queries on a field find,
    and every score zero.  It keeps the laws above, so these can hold. *)

Module SmallIndex.

Section index.
Context {Leaf : Type} (leaf : Leaf -> Z -> bool).
Variables (docs : list Z) (row : Z -> option bool).

Abbreviation Tq := (TantivyQuery Leaf).

(** A row is at the address of its document. *)
Definition row_exec (node : Z) (ip : Xid.ItemPointerData) : option bool := row (Xid.item_pointer_to_u64 ip).

Fixpoint holds (t : Tq) (d : Z) : bool :=
  match t with
  | AllQuery => true
  | EmptyQuery => false
  | BooleanQuery l =>
      forallb (fun e => match e.1 with Must => holds e.2 d | _ => true end) l &&
      existsb (fun e => match e.1 with MustNot => false | _ => holds e.2 d end) l &&
      forallb (fun e => match e.1 with MustNot => negb (holds e.2 d) | _ => true end) l
  | BoostQuery t _ | ConstScoreQuery t _ => holds t d
  | DisjunctionMaxQuery l _ => existsb (fun t => holds t d) l
  | ScoreFilterQuery bs t => holds t d && in_bounds bs zero_score
  | HeapFilterQuery t fs => holds t d && match passes_heap_filters Some (fun _ => true) row_exec fs d with Some b => b | None => false end
  | LeafQuery p => leaf p d
  end.

#[local] Instance small_index : Index Leaf := {
  all_docs := docs;
  ctid := Some;
  fetch := fun _ => true;
  exec := row_exec;
  run t := (fun d => (d, zero_score)) <$> filter (fun d => holds t d = true) docs;
}.

Lemma found_holds t d : found t d <-> d ∈ docs /\ holds t d = true.
Proof.
  unfold found. cbn [run small_index]. rewrite <- list_fmap_compose, list_elem_of_fmap. unfold compose. cbn [fst]. split.
  - intros (x & -> & [Hx Hd]%list_elem_of_filter). done.
  - intros [Hd Hx]. exists d. split; [done|]. by apply list_elem_of_filter.
Qed.

Lemma filter_run (Q : Z * Score -> Prop) `{forall e, Decision (Q e)} (p : Z -> bool) t (Hp : forall d, Q (d, zero_score) <-> p d = true) (t' : Tq) :
  (forall d, holds t' d = holds t d && p d) -> filter Q (run t) = run t'.
Proof.
  intros Ht. cbn [run small_index]. induction docs as [|d l IH]; [done|]. rewrite !filter_cons. specialize (Ht d). specialize (Hp d).
  destruct (holds t d); cbn [andb] in Ht.
  - rewrite decide_True by done. cbn [fmap list_fmap]. rewrite filter_cons. destruct (p d).
    + rewrite decide_True by tauto. rewrite decide_True by done. cbn [fmap list_fmap]. by rewrite IH.
    + rewrite decide_False by (intros Hq; by apply Hp in Hq). by rewrite decide_False by congruence.
  - rewrite decide_False by done. by rewrite decide_False by congruence.
Qed.

Hypothesis docs_ok : TERMINATED ∉ docs.

Lemma small_enumerates t : enumerates (run t) (run t).
Proof.
  apply enumerates_list, Forall_forall. intros [d s] Hd Ht. cbn [fst] in Ht. subst d. apply docs_ok. apply (found_holds t). apply list_elem_of_fmap. by exists (TERMINATED, s).
Qed.

#[local] Instance small_laws : TantivyLaws Leaf.
Proof.
  split.
  - intros t d Hf. by apply found_holds in Hf as [? _].
  - exact docs_ok.
  - intros d _. by exists d.
  - intros d Hd. by apply found_holds.
  - intros d [_ Hf]%found_holds. done.
  - intros l d. rewrite found_holds. cbn [holds]. rewrite !andb_true_iff, !forallb_forall, existsb_exists. setoid_rewrite <- list_elem_of_In. setoid_rewrite found_holds. split.
    + intros (Hd & (H1 & (e & He & Hx)) & H3). split; [intros t Ht; split; [done|by apply (H1 _ Ht)]|]. split.
      * destruct e as [o t]. exists o, t. destruct o; naive_solver.
      * intros t Ht [_ Hf]. specialize (H3 _ Ht). cbn in H3. by rewrite Hf in H3.
    + intros (H1 & (o & t & Ht & Ho & Hd & Hf) & H3). split; [done|]. split; [split|].
      * intros [o' t'] Ht'. destruct o'; [|done|done]. by apply H1.
      * exists (o, t). split; [done|]. by destruct o.
      * intros [o' t'] Ht'. destruct o'; [done|done|]. specialize (H3 t' Ht'). cbn [fst snd]. destruct (holds t' d); [|done]. by destruct H3.
  - intros t f d. by rewrite !found_holds.
  - intros t s d. by rewrite !found_holds.
  - intros l tie d. rewrite found_holds. cbn [holds]. rewrite existsb_exists. setoid_rewrite <- list_elem_of_In. setoid_rewrite found_holds. naive_solver.
  - intros bs t. destruct (score_filter_spec (S (length (run t))) bs (run t) (run t)) as (s & Hs & He); [apply small_enumerates|lia|]. exists s. split; [exact Hs|].
    erewrite (filter_run (in_bounds_of bs) (fun _ => in_bounds bs zero_score)) in He; [exact He|done|done].
  - intros fs t. destruct (heap_filter_spec Some (fun _ => true) row_exec (S (length (run t))) fs (run t) (run t)) as (s & Hs & He);
      [apply small_enumerates|apply Forall_forall; intros e _; by eexists|lia|]. exists s. split; [exact Hs|].
    erewrite (filter_run (row_passes Some (fun _ => true) row_exec fs) (fun d => match passes_heap_filters Some (fun _ => true) row_exec fs d with Some b => b | None => false end)) in He; [exact He| |done].
    intros d. unfold row_passes. cbn [fst]. destruct (passes_heap_filters _ _ _ _ _) as [[]|]; naive_solver.
Qed.

End index.

End SmallIndex.

(** * Solving the expressions of a query

    [visit] goes over all nodes of a query, those of replaced nodes included.  It ends, and
    [solve_postgres_expressions] leaves no expression behind. *)

Section visit.
Context {PQ P : Type}.

Implicit Types (q : SearchQueryInput PQ P).

Definition most (l : list nat) : nat := foldr Nat.max 0%nat l.

Fixpoint depth q : nat :=
  match q with
  | Boolean a b c => S (Nat.max (most (map depth a)) (Nat.max (most (map depth b)) (most (map depth c))))
  | Boost q _ | ConstScore q _ | ScoreFilter _ (Some q) | WithIndex _ q | HeapFilter q _ => S (depth q)
  | DisjunctionMax l _ => S (most (map depth l))
  | _ => 0%nat
  end.

(** How many expressions there are. *)
Fixpoint expressions q : nat :=
  match q with
  | Boolean a b c => (sum_list_with expressions c + (sum_list_with expressions b + sum_list_with expressions a))%nat
  | Boost q _ | ConstScore q _ | ScoreFilter _ (Some q) | WithIndex _ q | HeapFilter q _ => expressions q
  | DisjunctionMax l _ => sum_list_with expressions l
  | PostgresExpression _ _ => 1%nat
  | _ => 0%nat
  end.

(** Every filter by score has its query. *)
Fixpoint visitable q : bool :=
  match q with
  | Boolean a b c => forallb visitable a && forallb visitable b && forallb visitable c
  | Boost q _ | ConstScore q _ | ScoreFilter _ (Some q) | WithIndex _ q | HeapFilter q _ => visitable q
  | DisjunctionMax l _ => forallb visitable l
  | ScoreFilter _ None => false
  | _ => true
  end.

(** Each expression replaced by [h]. *)
Fixpoint replaced (h : Z -> Z -> SearchQueryInput PQ P) q : SearchQueryInput PQ P :=
  match q with
  | Boolean a b c => Boolean (map (replaced h) a) (map (replaced h) b) (map (replaced h) c)
  | Boost q f => Boost (replaced h q) f
  | ConstScore q s => ConstScore (replaced h q) s
  | ScoreFilter bs (Some q) => ScoreFilter bs (Some (replaced h q))
  | DisjunctionMax l tie => DisjunctionMax (map (replaced h) l) tie
  | WithIndex o q => WithIndex o (replaced h q)
  | HeapFilter q fs => HeapFilter (replaced h q) fs
  | PostgresExpression n s => h n s
  | _ => q
  end.

Lemma most_le l n : Forall (fun m => m <= n)%nat l <-> (most l <= n)%nat.
Proof. induction l as [|m l IH]; cbn [most foldr]; [split; [lia|done]|]. rewrite Forall_cons, IH. unfold most. lia. Qed.

Lemma depth_list l n : (most (map depth l) <= n)%nat -> Forall (fun q => depth q <= n)%nat l.
Proof. by rewrite <- most_le, Forall_map. Qed.

Lemma forallb_Forall {A} (p : A -> bool) l : forallb p l = true -> Forall (fun x => p x = true) l.
Proof. rewrite forallb_forall. intros Hl. apply Forall_forall. intros x Hx. by apply Hl, list_elem_of_In. Qed.

Section visitor.
Context {S E : Type}.
(** The visitor changes its state by [g] at an expression. *)
Variables (h : Z -> Z -> SearchQueryInput PQ P) (g : S -> S) (k : nat).
(** An expression is replaced by an expression, or by a query without any. *)
Hypothesis h_ok : forall n s, (exists n' s', h n s = PostgresExpression n' s') \/
  (expressions (h n s) = 0%nat /\ visitable (h n s) = true /\ (depth (h n s) <= k)%nat).

Definition visitor q : M S E (SearchQueryInput PQ P) :=
  match q with PostgresExpression n s => modify g;; mret (h n s) | _ => mret q end.

(** A step for each expression. *)
Definition visits (c : M S E (SearchQueryInput PQ P)) q n : Prop := forall s, c s = (Ok q, Nat.iter n g s).

Lemma each_visits (f : SearchQueryInput PQ P -> M S E (SearchQueryInput PQ P)) F C l : Forall (fun q => visits (f q) (F q) (C q)) l ->
  forall s, each f l s = (Ok (map F l), Nat.iter (sum_list_with C l) g s).
Proof.
  induction 1 as [|q l Hq _ IH]; intros s; [done|]. cbn [each]. rewrite (bind_ok _ _ _ _ _ (Hq s)), (bind_ok _ _ _ _ _ (IH _)). cbn [map sum_list_with].
  rewrite Nat.add_comm, Nat.iter_add. done.
Qed.

Lemma visit_one fuel q F n (ctor : SearchQueryInput PQ P -> SearchQueryInput PQ P) : visits (visit visitor fuel q) F n ->
  visits (q ← visit visitor fuel q; mret (ctor q)) (ctor F) n.
Proof. intros Hq s. by rewrite (bind_ok _ _ _ _ _ (Hq s)). Qed.

Lemma visit_each fuel l F (ctor : list (SearchQueryInput PQ P) -> SearchQueryInput PQ P) : Forall (fun q => visits (visit visitor fuel q) (F q) (expressions q)) l ->
  visits (l ← each (visit visitor fuel) l; mret (ctor l)) (ctor (map F l)) (sum_list_with expressions l).
Proof. intros Hl s. by rewrite (bind_ok _ _ _ _ _ (each_visits _ _ _ _ Hl s)). Qed.

Lemma visit_boolean fuel a b c F : Forall (fun q => visits (visit visitor fuel q) (F q) (expressions q)) a ->
  Forall (fun q => visits (visit visitor fuel q) (F q) (expressions q)) b -> Forall (fun q => visits (visit visitor fuel q) (F q) (expressions q)) c ->
  visits (visit visitor (Datatypes.S fuel) (Boolean a b c)) (Boolean (map F a) (map F b) (map F c)) (expressions (Boolean a b c)).
Proof.
  intros Ha Hb Hc s. cbn [visit visitor]. rewrite bind_ret, (bind_ok _ _ _ _ _ (each_visits _ _ _ _ Hc s)), (bind_ok _ _ _ _ _ (each_visits _ _ _ _ Hb _)), (bind_ok _ _ _ _ _ (each_visits _ _ _ _ Ha _)).
  cbn [expressions]. rewrite <- !Nat.iter_add. do 2 f_equal. lia.
Qed.

(** The expressions can be visited. *)
Definition expressions_ok (extra : nat) : Prop := forall n s fuel, (extra < fuel)%nat -> visits (visit visitor fuel (PostgresExpression n s)) (h n s) 1.

Lemma sum_zero {A} (f : A -> nat) l : sum_list_with f l = 0%nat -> Forall (fun x => f x = 0%nat) l.
Proof. induction l as [|x l IH]; [done|]. cbn [sum_list_with]. intros Hs. constructor; [lia|apply IH; lia]. Qed.

Lemma visit_gen extra q : visitable q = true -> expressions q = 0%nat \/ expressions_ok extra ->
  forall fuel, (depth q + extra < fuel)%nat -> visits (visit visitor fuel q) (replaced h q) (expressions q).
Proof.
  assert (forall l, Forall (fun q => visitable q = true -> expressions q = 0%nat \/ expressions_ok extra ->
      forall fuel, (depth q + extra < fuel)%nat -> visits (visit visitor fuel q) (replaced h q) (expressions q)) l ->
    forallb visitable l = true -> sum_list_with expressions l = 0%nat \/ expressions_ok extra -> forall fuel, (most (map depth l) + extra < fuel)%nat ->
    Forall (fun q => visits (visit visitor fuel q) (replaced h q) (expressions q)) l) as Hlist.
  { intros l IH Hv He fuel Hf. apply forallb_Forall in Hv. assert (Forall (fun q => expressions q = 0%nat \/ expressions_ok extra) l) as He'.
    { destruct He as [Hz|He]; [|apply Forall_forall; intros x _; by right]. eapply Forall_impl; [by apply sum_zero|]. intros x Hx. by left. }
    pose proof (depth_list l _ (le_n _)) as Hd. rewrite !Forall_forall in *. intros q' Hq. apply IH; [done|by apply Hv|by apply He'|]. specialize (Hd q' Hq). cbv beta in Hd. lia. }
  induction q as [| |a b c Ha Hb Hc|q f IH|q s IH|bs q IH|bs|l tie IH| |p|p|p|o q IH|n s|q fs IH|f q] using query_induction; intros Hv He [|fuel] Hf; try (cbn [depth] in Hf; lia); try done.
  - cbn [visitable expressions depth] in *. apply andb_prop in Hv as [[Hva Hvb]%andb_prop Hvc]. cbn [replaced].
    apply visit_boolean; apply Hlist; try done; try lia; (destruct He as [He|He]; [left; lia|by right]).
  - apply (visit_one fuel q _ _ (fun q => Boost q f)), IH; [done|done|cbn [depth] in Hf; lia].
  - apply (visit_one fuel q _ _ (fun q => ConstScore q s)), IH; [done|done|cbn [depth] in Hf; lia].
  - apply (visit_one fuel q _ _ (fun q => ScoreFilter bs (Some q))), IH; [done|done|cbn [depth] in Hf; lia].
  - apply (visit_each fuel l (replaced h) (fun l => DisjunctionMax l tie)). apply Hlist; [done|done|done|cbn [depth] in Hf; lia].
  - apply (visit_one fuel q _ _ (fun q => WithIndex o q)), IH; [done|done|cbn [depth] in Hf; lia].
  - destruct He as [?|He]; [done|]. apply He. cbn [depth] in Hf. lia.
  - apply (visit_one fuel q _ _ (fun q => HeapFilter q fs)), IH; [done|done|cbn [depth] in Hf; lia].
Qed.

Lemma replaced_none q : expressions q = 0%nat -> replaced h q = q.
Proof.
  assert (forall l, Forall (fun q => expressions q = 0%nat -> replaced h q = q) l -> sum_list_with expressions l = 0%nat -> map (replaced h) l = l) as Hlist.
  { clear q. intros l IH Hz%sum_zero. induction IH as [|q l Hq _ IHl]; [done|]. apply Forall_cons in Hz as [H1 H2]. cbn [map]. by rewrite Hq, IHl. }
  induction q as [| |a b c Ha Hb Hc|q f IH|q s IH|bs q IH|bs|l tie IH| |p|p|p|o q IH|n s|q fs IH|f q] using query_induction; intros Hz; cbn [expressions replaced] in *; try done;
    try (by rewrite IH). - rewrite !Hlist by (done || lia). done. - by rewrite Hlist.
Qed.

Lemma visit_expression : expressions_ok k.
Proof.
  intros n s [|fuel] Hf; [lia|]. intros st. destruct (h_ok n s) as [(n' & s' & Hh)|(Hz & Hv & Hd)].
  - cbn [visit visitor]. rewrite bind_assoc, bind_modify, bind_ret, Hh. done.
  - pose proof (visit_gen 0 (h n s) Hv (or_introl Hz) (Datatypes.S fuel) ltac:(lia) (g st)) as Hr. rewrite Hz, (replaced_none _ Hz) in Hr.
    etransitivity; [|exact Hr]. cbn [visit visitor]. rewrite bind_assoc, bind_modify, bind_ret. destruct (h n s); try done.
Qed.

Lemma visit_spec q : visitable q = true -> forall fuel, (depth q + k < fuel)%nat -> visits (visit visitor fuel q) (replaced h q) (expressions q).
Proof. intros Hv. apply visit_gen; [done|]. right. exact visit_expression. Qed.

End visitor.

Lemma replaced_compose h h' q : replaced h' (replaced h q) = replaced (fun n s => replaced h' (h n s)) q.
Proof.
  assert (forall l, Forall (fun q => replaced h' (replaced h q) = replaced (fun n s => replaced h' (h n s)) q) l ->
    map (replaced h') (map (replaced h) l) = map (replaced (fun n s => replaced h' (h n s))) l) as Hlist.
  { clear q. induction 1 as [|q l Hq _ IH]; [done|]. cbn [map]. by rewrite Hq, IH. }
  induction q as [| |a b c Ha Hb Hc|q f IH|q s IH|bs q IH|bs|l tie IH| |p|p|p|o q IH|n s|q fs IH|f q] using query_induction; cbn [replaced]; rewrite ?IH, ?Hlist; done.
Qed.

(** Replacing by expressions keeps the shape. *)
Lemma replaced_shape (h : Z -> Z -> Z) q : let h' n s := PostgresExpression n (h n s) in
  depth (replaced h' q) = depth q /\ visitable (replaced h' q) = visitable q.
Proof.
  cbv zeta. set (h' := fun n s => PostgresExpression n (h n s)).
  assert (forall l, Forall (fun q => depth (replaced h' q) = depth q /\ visitable (replaced h' q) = visitable q) l ->
    map depth (map (replaced h') l) = map depth l /\ forallb visitable (map (replaced h') l) = forallb visitable l) as Hlist.
  { clear q. induction 1 as [|q l [H1 H2] _ [IH1 IH2]]; [done|]. cbn [map forallb]. by rewrite H1, H2, IH1, IH2. }
  induction q as [| |a b c Ha Hb Hc|q f IH|q s IH|bs q IH|bs|l tie IH| |p|p|p|o q IH|n s|q fs IH|f q] using query_induction; cbn [replaced depth visitable]; try done;
    try (destruct IH as [-> ->]; done).
  - destruct (Hlist a Ha) as [-> ->], (Hlist b Hb) as [-> ->], (Hlist c Hc) as [-> ->]. done.
  - destruct (Hlist l IH) as [-> ->]. done.
Qed.

Lemma replaced_same q : replaced (fun n s => PostgresExpression n s) q = q.
Proof.
  assert (forall l, Forall (fun q => replaced (fun n s => PostgresExpression n s) q = q) l -> map (replaced (fun n s => PostgresExpression n s)) l = l) as Hlist.
  { clear q. induction 1 as [|q l Hq _ IH]; [done|]. cbn [map]. by rewrite Hq, IH. }
  induction q as [| |a b c Ha Hb Hc|q f IH|q s IH|bs q IH|bs|l tie IH| |p|p|p|o q IH|n s|q fs IH|f q] using query_induction; cbn [replaced]; rewrite ?IH, ?Hlist; done.
Qed.

Lemma replaced_expressions h q : (forall n s, expressions (h n s) = 0%nat) -> expressions (replaced h q) = 0%nat.
Proof.
  intros Hh. assert (forall l, Forall (fun q => expressions (replaced h q) = 0%nat) l -> sum_list_with expressions (map (replaced h) l) = 0%nat) as Hlist.
  { clear q. induction 1 as [|q l Hq _ IH]; [done|]. cbn [map sum_list_with]. lia. }
  induction q as [| |a b c Ha Hb Hc|q f IH|q s IH|bs q IH|bs|l tie IH| |p|p|p|o q IH|n s|q fs IH|f q] using query_induction; cbn [replaced expressions]; try done.
  - by rewrite (Hlist a Ha), (Hlist b Hb), (Hlist c Hc).
  - by apply Hlist.
Qed.

Section solve.
Context {E : Type}.
Variables (exec_init : Z -> Z) (exec_eval : Z -> option (SearchQueryInput PQ P)) (k : nat).

(** What an expression evaluates to has no expression in it. *)
Definition evaluates_plain : Prop := forall x r, exec_eval x = Some r -> expressions r = 0%nat /\ visitable r = true /\ (depth r <= k)%nat.

Definition value_of (x : Z) : SearchQueryInput PQ P := match exec_eval x with Some r => r | None => Empty end.

Lemma iter_flag n : Nat.iter n (fun _ => true) false = negb (n =? 0)%nat.
Proof. by destruct n. Qed.

Lemma prepare_spec q fuel : evaluates_plain -> visitable q = true -> (depth q + k < fuel)%nat ->
  prepare_query_for_execution (E := E) exec_init exec_eval fuel q = Ok (replaced (fun n _ => value_of (exec_init n)) q).
Proof.
  intros Hev Hv Hf. unfold prepare_query_for_execution.
  pose proof (visit_spec (E := E) (fun n s => PostgresExpression n s) (fun _ => true) k ltac:(intros; left; by eexists _, _) q Hv fuel Hf false) as Hhas.
  rewrite replaced_same, iter_flag in Hhas. change (has_postgres_expressions fuel q false) with (visit (visitor (E := E) (fun n s => PostgresExpression n s) (fun _ : bool => true)) fuel q false).
  rewrite Hhas. destruct (expressions q) as [|m] eqn:Em; cbn [Nat.eqb negb]; [by rewrite replaced_none|].
  pose proof (visit_spec (E := E) (fun n s => PostgresExpression n (exec_init n)) (fun cnt => cnt + 1) k ltac:(intros; left; by eexists _, _) q Hv fuel Hf 0) as Hinit.
  change (init_postgres_expressions exec_init fuel q 0) with (visit (visitor (E := E) (fun n s => PostgresExpression n (exec_init n)) (fun cnt => cnt + 1)) fuel q 0). rewrite Hinit.
  destruct (replaced_shape (fun n _ => exec_init n) q) as [Hd Hv'].
  assert (forall n s : Z, (exists n' s', value_of s = PostgresExpression n' s') \/ (expressions (value_of s) = 0%nat /\ visitable (value_of s) = true /\ (depth (value_of s) <= k)%nat)) as Hok.
  { intros n s. right. unfold value_of. destruct (exec_eval s) as [r|] eqn:Er; [by apply (Hev s)|]. cbn. lia. }
  pose proof (visit_spec (E := E) (fun _ s => value_of s) (fun u : unit => u) k Hok (replaced (fun n s => PostgresExpression n (exec_init n)) q)) as Hsolve.
  rewrite Hd, Hv' in Hsolve. specialize (Hsolve Hv fuel Hf tt).
  change (solve_postgres_expressions exec_eval fuel (replaced (fun n s => PostgresExpression n (exec_init n)) q) tt)
    with (visit (visitor (E := E) (fun _ s => value_of s) (fun u : unit => u)) fuel (replaced (fun n s => PostgresExpression n (exec_init n)) q) tt).
  rewrite Hsolve. cbn [fst]. by rewrite replaced_compose.
Qed.

(** C8: Before a search runs, the expressions in its query are solved: this ends, for any query
    whose filters by score have their query; every expression is replaced by the query that it
    evaluates to, or by one that finds nothing when that is NULL; the rest stays as it is, and no
    expression is left. *)
Theorem expressions_solved q fuel : evaluates_plain -> visitable q = true -> (depth q + k < fuel)%nat ->
  exists q', prepare_query_for_execution (E := E) exec_init exec_eval fuel q = Ok q' /\ q' = replaced (fun n _ => value_of (exec_init n)) q /\ expressions q' = 0%nat.
Proof.
  intros Hev Hv Hf. exists (replaced (fun n _ => value_of (exec_init n)) q). split; [by apply prepare_spec|]. split; [done|].
  apply replaced_expressions. intros n _. unfold value_of. destruct (exec_eval (exec_init n)) as [r|] eqn:Er; [by apply (Hev _ _ Er)|done].
Qed.

End solve.

End visit.

Lemma expressions_solved_witness : exists q', prepare_query_for_execution (PQ := unit) (P := unit) (E := unit) (fun n => n + 100) (fun x => if x =? 105 then Some (Boost All zero_score) else None) 4
    (Boolean [PostgresExpression 5 0; All] [PostgresExpression 6 0] []) = Ok q' /\ q' = Boolean [Boost All zero_score; All] [Empty] [] /\ expressions q' = 0%nat.
Proof.
  apply (expressions_solved (PQ := unit) (P := unit) (fun n => n + 100) (fun x => if x =? 105 then Some (Boost All zero_score) else None) 1 (Boolean [PostgresExpression 5 0; All] [PostgresExpression 6 0] [])); [|done|cbn; lia].
  intros x r. destruct (x =? 105); [|done]. intros [= <-]. cbn. lia.
Defined.
