(* ===== verification/Qual.v ===== *)
(** * From a WHERE clause to a search query

    [customscan/qual_inspect.rs]: a [Qual] is what was understood of a WHERE clause.  It is
    optimized, and converted to a [SearchQueryInput].  Conversion evaluates constants and
    expressions of PostgreSQL, which are parameters, and may panic. *)

From stdpp Require Import prelude gmap strings.
From Stdlib Require Import ZArith Lia SpecFloat.
From S2P Require Import Prelude Query.
From stdpp Require Import list.
Import Query.

Local Open Scope Z_scope.

Module Qual.

Section qual.
Context {PQ P : Type}.

Abbreviation SearchQueryInput := (SearchQueryInput PQ P).

(** A [PushdownField] is known by its name. *)
Inductive Qual :=
| QAll
| ExternalVar
| ExternalExpr
| OpExpr (lhs : Pointer) (opno : Z) (val : Pointer)
| Expr (node expr_state : Pointer)
| PushdownExpr (funcexpr : Pointer)
| PushdownVarEqTrue (field : string)
| PushdownVarEqFalse (field : string)
| PushdownVarIsTrue (field : string)
| PushdownVarIsFalse (field : string)
| PushdownIsNotNull (field : string)
| ScoreExpr (opoid : Z) (value : Pointer)
| HeapExpr (node : Pointer) (expr_desc : string) (search_query_input : SearchQueryInput)
| And (quals : list Qual)
| Or (quals : list Qual)
| Not (qual : Qual).

Fixpoint contains_all (q : Qual) : bool :=
  match q with
  | QAll => true
  | HeapExpr _ _ search_query_input => is_all search_query_input
  | And quals | Or quals => existsb contains_all quals
  | Not q => contains_all q
  | _ => false
  end.

Fixpoint contains_external_var (q : Qual) : bool :=
  match q with
  | ExternalVar | ExternalExpr => true
  | And quals | Or quals => existsb contains_external_var quals
  | Not q => contains_external_var q
  | _ => false
  end.

(** The function of the same name on nodes. *)
Variable node_contains_exec_param : Pointer -> bool.

Fixpoint contains_exec_param (q : Qual) : bool :=
  match q with
  | Expr node _ => node_contains_exec_param node
  | And quals | Or quals => existsb contains_exec_param quals
  | Not q => contains_exec_param q
  | _ => false
  end.

Fixpoint contains_exprs (q : Qual) : bool :=
  match q with
  | Expr _ _ => true
  | PushdownVarEqTrue _ | PushdownVarEqFalse _ | PushdownVarIsTrue _ | PushdownVarIsFalse _ => true
  | HeapExpr _ _ _ => true
  | And quals | Or quals => existsb contains_exprs quals
  | Not q => contains_exprs q
  | _ => false
  end.

Fixpoint contains_score_exprs (q : Qual) : bool :=
  match q with
  | ScoreExpr _ _ => true
  | And quals | Or quals => existsb contains_score_exprs quals
  | Not q => contains_score_exprs q
  | _ => false
  end.

Fixpoint collect_exprs (q : Qual) : list Qual :=
  match q with
  | Expr _ _ | HeapExpr _ _ _ => [q]
  | And quals | Or quals => flat_map collect_exprs quals
  | Not q => collect_exprs q
  | _ => []
  end.

Fixpoint contains_heap_expr (q : Qual) : bool :=
  match q with
  | HeapExpr _ _ _ => true
  | Not q => contains_heap_expr q
  | And quals | Or quals => existsb contains_heap_expr quals
  | _ => false
  end.

Definition is_query_compatible_with_partial_index (q : Qual) : bool := negb (contains_heap_expr q).

(** ** Conversion *)

Context {E : Type}.

(** The query that a [Const] holds, or an expression evaluates to; [None] is NULL. *)
Variables (const_query eval_query : Pointer -> option SearchQueryInput).
(** What the other side of a comparison with the score evaluates to; [None] is NULL or no
    floating point number. *)
Variable score_value : Pointer -> option Score.
Variable operator_oid : string -> Z.

(** The comparisons, in the order in which they are tried. *)
Definition score_operators (v : Score) : list (string * (Bound Score * Bound Score)) :=
  [("=", (Included v, Included v)); ("<", (Unbounded, Excluded v)); (">", (Excluded v, Unbounded));
   ("<=", (Unbounded, Included v)); (">=", (Included v, Unbounded)); ("<>", (Excluded v, Excluded v))]%string.

Definition score_bounds (opoid : Z) (v : Score) : option (Bound Score * Bound Score) :=
  snd <$> head (filter (fun c => opoid = operator_oid (c.1.1 +:+ "(float4," +:+ c.1.2 +:+ ")"))
    (((fun c => ((c.1, "float4"%string), c.2)) <$> score_operators v) ++
     ((fun c => ((c.1, "float8"%string), c.2)) <$> score_operators v))).

(** [vec.remove(i)] of the first [ScoreFilter]. *)
Fixpoint popscore (vec : list SearchQueryInput) : option (SearchQueryInput * list SearchQueryInput) :=
  match vec with
  | [] => None
  | q :: vec =>
      if is_score_filter q then Some (q, vec)
      else match popscore vec with Some (s, vec) => Some (s, q :: vec) | None => None end
  end.

(** [while let Some(score_filter) = popscore(&mut must)] *)
Fixpoint pop_scores (fuel : nat) (must must_scores : list SearchQueryInput) : list SearchQueryInput * list SearchQueryInput :=
  match fuel, popscore must with
  | S fuel, Some (s, must) => pop_scores fuel must (must_scores ++ [s])
  | _, _ => (must, must_scores)
  end.

(** Wraps the query in the filters, from the last to the first. *)
Definition wrap_scores (must_scores : list SearchQueryInput) (boolean : SearchQueryInput) : SearchQueryInput :=
  foldr (fun s boolean => match s with ScoreFilter bounds _ => ScoreFilter bounds (Some boolean) | _ => boolean end) boolean must_scores.

Definition from_and (must : list SearchQueryInput) : SearchQueryInput :=
  let '(must, must_scores) := pop_scores (length must) must [] in
  wrap_scores must_scores (Boolean must [] []).

Definition from_or (queries : list SearchQueryInput) : SearchQueryInput :=
  let should := filter (fun q => is_score_filter q = false) queries in
  match length should with
  | O => Boolean [] [] []
  | _ => Boolean [] should []
  end.

Definition from_eq (field : string) (value : bool) : SearchQueryInput := FieldedQuery field (Term_Bool value).

Fixpoint from (value : Qual) : M unit E SearchQueryInput :=
  match value with
  | QAll => mret All
  | ExternalVar => mret All
  | ExternalExpr => mret All
  | OpExpr _ _ val => unwrap (const_query val)
  | Expr node _ => mret (postgres_expression node)
  | PushdownExpr funcexpr => unwrap (eval_query funcexpr)
  | PushdownVarEqTrue field => mret (from_eq field true)
  | PushdownVarEqFalse field => mret (from_eq field false)
  | PushdownVarIsTrue field => mret (from_eq field true)
  | PushdownVarIsFalse field => mret (from_eq field false)
  | PushdownIsNotNull field => mret (FieldedQuery field Exists)
  | ScoreExpr opoid value =>
      v ← unwrap (score_value value);
      bounds ← unwrap (score_bounds opoid v);
      mret (ScoreFilter [bounds] None)
  | HeapExpr node expr_desc search_query_input =>
      mret (HeapFilter search_query_input [mkHeapFieldFilter node expr_desc])
  | And quals => must ← each from quals; mret (from_and must)
  | Or quals => queries ← each from quals; mret (from_or queries)
  | Not qual =>
      match qual with
      | PushdownVarEqTrue field => mret (from_eq field false)
      | PushdownVarEqFalse field => mret (from_eq field true)
      | ExternalVar => mret All
      | ExternalExpr => mret All
      | _ => s ← from qual; mret (Boolean [All] [] [s])
      end
  end.

(** ** Optimization *)

(** A [HeapExpr] that scans everything. *)
Definition is_heap_scan (q : Qual) : bool := match q with HeapExpr _ _ s => is_all s | _ => false end.

Definition is_indexed (q : Qual) : bool :=
  match q with
  | OpExpr _ _ _ | PushdownExpr _ | PushdownVarEqTrue _ | PushdownVarEqFalse _ | PushdownVarIsTrue _
  | PushdownVarIsFalse _ | PushdownIsNotNull _ | Or _ => true
  | _ => false
  end.

Fixpoint indices {A} (p : A -> bool) (i : nat) (l : list A) : list nat :=
  match l with [] => [] | x :: l => if p x then i :: indices p (S i) l else indices p (S i) l end.

Fixpoint from_indices (quals : list Qual) (idx : list nat) : M unit E (list SearchQueryInput) :=
  match idx with
  | [] => mret []
  | i :: idx => q ← unwrap (quals !! i); s ← from q; ss ← from_indices quals idx; mret (s :: ss)
  end.

Definition set_search_query (s : SearchQueryInput) (q : Qual) : Qual :=
  match q with HeapExpr node expr_desc s' => if is_all s' then HeapExpr node expr_desc s else q | _ => q end.

Definition optimize_and_branch_with_heap_expr (quals : list Qual) : M unit E (list Qual) :=
  let heap_expr_indices := indices is_heap_scan 0 quals in
  let indexed_qual_indices := indices is_indexed 0 quals in
  if negb (is_nil heap_expr_indices) && negb (is_nil indexed_qual_indices) then
    indexed_queries ← from_indices quals indexed_qual_indices;
    let quals := foldl (fun quals i => alter (set_search_query (Boolean indexed_queries [] [])) i quals) quals heap_expr_indices in
    mret (foldl (fun quals i => delete i quals) quals (reverse indexed_qual_indices))
  else mret quals.

Fixpoint optimize_quals_with_heap_expr (q : Qual) : M unit E Qual :=
  match q with
  | And quals => quals ← each optimize_quals_with_heap_expr quals; quals ← optimize_and_branch_with_heap_expr quals; mret (And quals)
  | Or quals => quals ← each optimize_quals_with_heap_expr quals; mret (Or quals)
  | Not q => q ← optimize_quals_with_heap_expr q; mret (Not q)
  | _ => mret q
  end.

End qual.

Arguments Qual : clear implicits.

End Qual.
