(* ===== verification/QualProps.v ===== *)
(** * The search query finds what the WHERE clause says

    A [Qual] has the meaning that SQL gives it, in three values.  The query it is converted to
    finds exactly the rows for which this is true; optimizing it does not change what is found. *)

From stdpp Require Import prelude gmap strings.
From Stdlib Require Import ZArith Lia SpecFloat.
From S2P Require Import Prelude Xid Query Scorers ScorersProps QuerySem Qual.
From stdpp Require Import list.
Import Query Scorers Qual.

Local Open Scope Z_scope.

(** ** Induction on quals *)

Section induction.
Context {PQ P : Type} (Pr : Qual PQ P -> Prop).
Hypotheses (h_leaf : forall q, (forall l, q <> And l) -> (forall l, q <> Or l) -> (forall q', q <> Not q') -> Pr q)
  (h_and : forall l, Forall Pr l -> Pr (And l)) (h_or : forall l, Forall Pr l -> Pr (Or l)) (h_not : forall q, Pr q -> Pr (Not q)).

Fixpoint qual_induction (q : Qual PQ P) : Pr q.
Proof.
  pose (go := fix go l : Forall Pr l := match l with [] => Forall_nil_2 Pr | q :: l => Forall_cons_2 Pr q l (qual_induction q) (go l) end).
  destruct q; try (apply h_leaf; discriminate); [apply h_and, go|apply h_or, go|apply h_not, qual_induction].
Defined.

End induction.

(** For all of a list, by recursion. *)
Definition every {A} (Pr : A -> Prop) : list A -> Prop := fix go l := match l with [] => True | x :: l => Pr x /\ go l end.

Lemma every_Forall {A} (Pr : A -> Prop) l : every Pr l <-> Forall Pr l.
Proof. induction l as [|x l IH]; cbn [every]; [done|]. by rewrite Forall_cons, IH. Qed.

(** ** Three-valued logic *)

Definition and3 (a b : option bool) : option bool :=
  match a, b with
  | Some false, _ | _, Some false => Some false
  | Some true, Some true => Some true
  | _, _ => None
  end.

Definition or3 (a b : option bool) : option bool :=
  match a, b with
  | Some true, _ | _, Some true => Some true
  | Some false, Some false => Some false
  | _, _ => None
  end.

Definition not3 (a : option bool) : option bool := negb <$> a.

Lemma and3_true l : foldr and3 (Some true) l = Some true <-> Forall (fun a => a = Some true) l.
Proof. induction l as [|[[]|] l IH]; cbn [foldr]; rewrite ?Forall_cons; [done| | |]; destruct (foldr and3 (Some true) l) as [[]|]; naive_solver. Qed.

Lemma or3_true l : foldr or3 (Some false) l = Some true <-> List.Exists (fun a => a = Some true) l.
Proof. induction l as [|[[]|] l IH]; cbn [foldr]; rewrite ?Exists_cons, ?Exists_nil; [done| | |]; destruct (foldr or3 (Some false) l) as [[]|]; naive_solver. Qed.

(** ** Lists by index *)

Lemma indices_map {A} (p : A -> bool) (g : A -> A) l k : (forall x, p (g x) = p x) -> indices p k (g <$> l) = indices p k l.
Proof. intros Hg. revert k. induction l as [|x l IH]; intros k; [done|]. cbn [fmap list_fmap indices]. by rewrite Hg, !IH. Qed.

Lemma indices_nil {A} (p : A -> bool) l k : indices p k l = [] <-> Forall (fun x => p x = false) l.
Proof. revert k. induction l as [|x l IH]; intros k; [done|]. cbn [indices]. rewrite Forall_cons, <- (IH (S k)). destruct (p x); naive_solver. Qed.

Lemma alter_indices {A} (p : A -> bool) (f : A -> A) l pre :
  foldl (fun l i => alter f i l) (pre ++ l) (indices p (length pre) l) = pre ++ ((fun x => if p x then f x else x) <$> l).
Proof.
  revert pre. induction l as [|x l IH]; intros pre; [done|]. cbn [indices fmap list_fmap]. specialize (IH (pre ++ [if p x then f x else x])).
  rewrite length_app, Nat.add_1_r, <- !app_assoc in IH. cbn [app] in IH. destruct (p x); [|exact IH]. cbn [foldl].
  rewrite alter_app_r_alt by lia. rewrite Nat.sub_diag. exact IH.
Qed.

Lemma delete_indices {A} (p : A -> bool) l pre :
  foldl (fun l i => base.delete i l) (pre ++ l) (reverse (indices p (length pre) l)) = pre ++ filter (fun x => p x = false) l.
Proof.
  revert pre. induction l as [|x l IH]; intros pre; [done|]. cbn [indices]. specialize (IH (pre ++ [x])). rewrite length_app, Nat.add_1_r, <- !app_assoc in IH. cbn [app] in IH.
  destruct (p x) eqn:Ex.
  - rewrite reverse_cons, foldl_app, IH, filter_cons_False by congruence. cbn [foldl]. by rewrite delete_middle.
  - by rewrite IH, filter_cons_True.
Qed.

Section conversion.
Context {PQ P Leaf E : Type} `{Index Leaf} `{!TantivyLaws Leaf}.
Variables (more_like_this parse term_set : P -> M unit E Leaf) (fielded : string -> pdb_Query PQ -> M unit E Leaf).
Variables (const_query eval_query : Z -> option (SearchQueryInput PQ P)) (score_value : Z -> option Score) (operator_oid : string -> Z).

Abbreviation converts := (converts more_like_this parse term_set fielded).
Abbreviation finds := (finds more_like_this parse term_set fielded).
Abbreviation from := (from (E := E) const_query eval_query score_value operator_oid).
Abbreviation optimize := (optimize_quals_with_heap_expr (E := E) const_query eval_query score_value operator_oid).

Implicit Types (q : Qual PQ P) (s : SearchQueryInput PQ P) (d : Z).

(** Values in the rows of the documents: of boolean fields, of the search operators, and of the
    comparisons that were pushed down.  [None] is NULL. *)
Variables (field_value : string -> Z -> option bool) (field_notnull : string -> Z -> bool).
Variables (op_value : Pointer -> Z -> Pointer -> Z -> option bool) (comparison_value : Pointer -> Z -> option bool).

(** Terms and existence of fields are found by their values. *)
Record field_laws : Prop := {
  fl_term : forall f b, converts (FieldedQuery f (Term_Bool b)) /\ forall d, d ∈ all_docs -> finds (FieldedQuery f (Term_Bool b)) d <-> field_value f d = Some b;
  fl_exists : forall f, converts (FieldedQuery f Exists) /\ forall d, d ∈ all_docs -> finds (FieldedQuery f Exists) d <-> field_notnull f d = true;
}.
Hypothesis Hfields : field_laws.

(** A query that stands in a clause: it can be run and is not a filter by score. *)
Definition plain s : Prop := converts s /\ is_score_filter s = false.

(** The clause has no comparison with the score and no expression that is yet to be solved, and
    the queries in it can be run. *)
Fixpoint convertible q : Prop :=
  match q with
  | OpExpr _ _ val => exists s, const_query val = Some s /\ plain s
  | PushdownExpr e => exists s, eval_query e = Some s /\ plain s
  | Expr _ _ | ScoreExpr _ _ => False
  | HeapExpr node _ s => node <> 0 /\ converts s
  | And l | Or l => every convertible l
  | Not q => convertible q
  | _ => True
  end.

(** ** Conversion, clause by clause *)

(** The clause is converted, and the query finds the document. *)
Definition qfinds q d : Prop := exists s, yields (from q) s /\ finds s d.

Lemma qfinds_yields q s d : yields (from q) s -> qfinds q d <-> finds s d.
Proof. intros Hs. split; [|by exists s]. intros (s' & Hs' & Hf). by rewrite (yields_fun _ _ _ Hs Hs'). Qed.

Lemma converts_all : converts All.
Proof. by eexists. Qed.

Lemma finds_all_docs d : d ∈ all_docs -> finds All d.
Proof. intros Hd. eexists. split; [apply yields_ret|]. by apply ti_const, ti_all. Qed.

Lemma converts_heap s fs : converts s -> converts (HeapFilter s fs).
Proof. intros [t Ht]. eexists. cbn [into_tantivy_query]. by eapply yields_bind. Qed.

Lemma finds_heap s fs d : converts s -> finds (HeapFilter s fs) d <-> finds s d /\ passes_heap_filters ctid fetch exec fs d = Some true.
Proof.
  intros [t Ht]. rewrite (finds_yields _ _ _ _ s t d Ht), <- found_heap_filter.
  apply finds_yields. cbn [into_tantivy_query]. by eapply yields_bind.
Qed.

Lemma plain_boolean a b c : Forall plain a -> Forall plain b -> Forall plain c -> plain (Boolean a b c).
Proof.
  intros Ha Hb Hc. split; [|done]. eapply (finds_boolean _ _ _ _ a b c 0); (eapply Forall_impl; [eassumption|]; by intros ? [? _]).
Qed.

Lemma popscore_none l : Forall (fun s => is_score_filter s = false) l -> popscore l = None.
Proof. induction 1 as [|s l Hs _ IH]; [done|]. cbn [popscore]. by rewrite Hs, IH. Qed.

Lemma from_and_plain l : Forall plain l -> from_and l = Boolean l [] [].
Proof.
  intros Hl. unfold from_and. assert (popscore l = None) as Hp by (apply popscore_none; eapply Forall_impl; [done|]; by intros ? [_ ?]).
  destruct (length l); cbn [pop_scores]; by rewrite ?Hp.
Qed.

Lemma from_or_plain l : Forall plain l -> from_or l = Boolean [] l [].
Proof.
  intros Hl. unfold from_or. assert (filter (fun s => is_score_filter s = false) l = l) as ->.
  { induction Hl as [|s l [_ Hs] _ IH]; [done|]. by rewrite filter_cons_True, IH. }
  by destruct l.
Qed.

(** The quals that are negated in a way of their own. *)
Definition negates_itself q : bool :=
  match q with PushdownVarEqTrue _ | PushdownVarEqFalse _ | ExternalVar | ExternalExpr => true | _ => false end.

Lemma from_not q : negates_itself q = false -> from (Not q) = (s ← from q; mret (Boolean [All] [] [s])).
Proof. by destruct q. Qed.

Lemma from_plain_list l : Forall (fun q => convertible q -> exists s, yields (from q) s /\ plain s) l -> Forall convertible l ->
  exists ss, Forall2 (fun q s => yields (from q) s) l ss /\ Forall plain ss.
Proof.
  intros IH Hc. induction IH as [|q l Hq _ IHl]; [by exists []|]. apply Forall_cons in Hc as [Hc1 Hc2]. destruct (Hq Hc1) as (s & Hs & Hps), (IHl Hc2) as (ss & Hss & Hpss).
  exists (s :: ss). split; by constructor.
Qed.

Lemma from_plain q : convertible q -> exists s, yields (from q) s /\ plain s.
Proof.
  destruct Hfields as [Hterm Hex].
  induction q as [q Hna Hno Hnn|l IH|l IH|q IH] using qual_induction; intros Hc.
  - destruct q; cbn [convertible] in Hc; try done; try (by edestruct Hna); try (by edestruct Hno); try (by edestruct Hnn);
      try (eexists; split; [apply yields_ret|]; split; [apply converts_all || apply Hterm || apply Hex|done]; fail).
    + destruct Hc as (s & Hs & Hp). exists s. split; [cbn [Qual.from]; by apply yields_unwrap|done].
    + destruct Hc as (s & Hs & Hp). exists s. split; [cbn [Qual.from]; by apply yields_unwrap|done].
    + eexists. split; [apply yields_ret|]. split; [|done]. by apply converts_heap, Hc.
  - cbn [convertible] in Hc. apply every_Forall in Hc. destruct (from_plain_list l IH Hc) as (ss & Hss & Hp).
    eexists. split; [cbn [Qual.from]; eapply yields_bind; [by apply yields_each|apply yields_ret]|]. rewrite from_and_plain by done. by apply plain_boolean.
  - cbn [convertible] in Hc. apply every_Forall in Hc. destruct (from_plain_list l IH Hc) as (ss & Hss & Hp).
    eexists. split; [cbn [Qual.from]; eapply yields_bind; [by apply yields_each|apply yields_ret]|]. rewrite from_or_plain by done. by apply plain_boolean.
  - cbn [convertible] in Hc. destruct (IH Hc) as (s & Hs & Hp). destruct (negates_itself q) eqn:En.
    + destruct q; try done; (eexists; split; [apply yields_ret|]; split; [apply converts_all || apply Hterm|done]).
    + eexists. split; [rewrite from_not by done; eapply yields_bind; [done|apply yields_ret]|].
      apply plain_boolean; [apply Forall_cons_2; [split; [apply converts_all|done]|]|by apply Forall_nil_2|apply Forall_cons_2; [done|]]; by apply Forall_nil_2.
Qed.

(** ** What the clauses find *)

Lemma from_list l : Forall convertible l -> exists ss, Forall2 (fun q s => yields (from q) s) l ss /\ Forall plain ss.
Proof. intros Hc. apply from_plain_list; [|done]. apply Forall_forall. intros q _. apply from_plain. Qed.

Lemma qfinds_Forall l ss d : Forall2 (fun q s => yields (from q) s) l ss -> Forall (fun s => finds s d) ss <-> Forall (fun q => qfinds q d) l.
Proof. induction 1 as [|q s l ss Hs _ IH]; [done|]. by rewrite !Forall_cons, IH, (qfinds_yields _ _ d Hs). Qed.

Lemma qfinds_Exists l ss d : Forall2 (fun q s => yields (from q) s) l ss -> List.Exists (fun s => finds s d) ss <-> List.Exists (fun q => qfinds q d) l.
Proof. induction 1 as [|q s l ss Hs _ IH]; [by rewrite !Exists_nil|]. by rewrite !Exists_cons, IH, (qfinds_yields _ _ d Hs). Qed.

Lemma plain_converts l : Forall plain l -> Forall converts l.
Proof. intros Hl. eapply Forall_impl; [done|]. by intros ? [? _]. Qed.

Lemma finds_must l d : Forall plain l -> l <> [] -> finds (Boolean l [] []) d <-> Forall (fun s => finds s d) l.
Proof.
  intros Hl Hne. rewrite (proj2 (finds_boolean _ _ _ _ l [] [] d (plain_converts _ Hl) (Forall_nil_2 _) (Forall_nil_2 _))).
  split; [by intros (? & _)|]. intros Hf. split; [done|]. split; [|by intros ?%Exists_nil]. left. destruct l as [|s l]; [done|]. apply Forall_cons in Hf as [Hf _]. by left.
Qed.

Lemma finds_should l d : Forall plain l -> finds (Boolean [] l []) d <-> List.Exists (fun s => finds s d) l.
Proof.
  intros Hl. rewrite (proj2 (finds_boolean _ _ _ _ [] l [] d (Forall_nil_2 _) (plain_converts _ Hl) (Forall_nil_2 _))).
  split; [by intros (_ & [?%Exists_nil|?] & _)|]. intros Hf. split; [done|]. split; [by right|by intros ?%Exists_nil].
Qed.

Lemma finds_must_not s d : plain s -> d ∈ all_docs -> finds (Boolean [All] [] [s]) d <-> ~ finds s d.
Proof.
  intros [Hs _] Hd. rewrite (proj2 (finds_boolean _ _ _ _ [All] [] [s] d (Forall_cons_2 _ _ _ converts_all (Forall_nil_2 _)) (Forall_nil_2 _) (Forall_cons_2 _ _ _ Hs (Forall_nil_2 _)))).
  rewrite !Exists_cons, !Exists_nil. split; [by intros (_ & _ & Hn) Hf; apply Hn; left|]. intros Hn. pose proof (finds_all_docs d Hd) as Ha.
  split; [by apply Forall_cons_2; [|apply Forall_nil_2]|]. split; [by left; left|]. by intros [?|[]].
Qed.

Lemma qfinds_and l d : Forall convertible l -> l <> [] -> qfinds (And l) d <-> Forall (fun q => qfinds q d) l.
Proof.
  intros (ss & Hss & Hp)%from_list Hne. assert (yields (from (And l)) (Boolean ss [] [])) as Hy.
  { cbn [Qual.from]. eapply yields_bind; [by apply yields_each|]. rewrite from_and_plain by done. apply yields_ret. }
  rewrite (qfinds_yields _ _ d Hy), <- (qfinds_Forall l ss d Hss). apply finds_must; [done|]. intros ->. by apply Forall2_nil_inv_r in Hss.
Qed.

Lemma qfinds_or l d : Forall convertible l -> qfinds (Or l) d <-> List.Exists (fun q => qfinds q d) l.
Proof.
  intros (ss & Hss & Hp)%from_list. assert (yields (from (Or l)) (Boolean [] ss [])) as Hy.
  { cbn [Qual.from]. eapply yields_bind; [by apply yields_each|]. rewrite from_or_plain by done. apply yields_ret. }
  rewrite (qfinds_yields _ _ d Hy), <- (qfinds_Exists l ss d Hss). by apply finds_should.
Qed.

Lemma qfinds_not q d : convertible q -> negates_itself q = false -> d ∈ all_docs -> qfinds (Not q) d <-> ~ qfinds q d.
Proof.
  intros Hc Hn Hd. destruct (from_plain q Hc) as (s & Hs & Hp). rewrite (qfinds_yields _ _ d Hs).
  assert (yields (from (Not q)) (Boolean [All] [] [s])) as Hy by (rewrite from_not by done; by eapply yields_bind).
  rewrite (qfinds_yields _ _ d Hy). by apply finds_must_not.
Qed.

(** The value of an expression in the row of a document. *)
Definition row_value (node : Z) d : option bool := c ← ctid d; exec node (Xid.u64_to_item_pointer c).

Definition row_visible d : Prop := exists c, ctid d = Some c /\ fetch (Xid.u64_to_item_pointer c) = true.

Lemma qfinds_heap node desc s d : converts s -> node <> 0 -> row_visible d -> qfinds (HeapExpr node desc s) d <-> finds s d /\ row_value node d = Some true.
Proof.
  intros Hc Hn (c & Ec & Hv). assert (yields (from (HeapExpr node desc s)) (HeapFilter s [mkHeapFieldFilter node desc])) as Hy by done.
  rewrite (qfinds_yields _ _ d Hy), finds_heap by done. unfold passes_heap_filters, row_value, evaluate. rewrite Ec. cbn [mbind option_bind forallb expr_node].
  rewrite (proj2 (Z.eqb_neq _ _) Hn), Hv, andb_true_r. cbn [negb]. destruct (exec node _) as [[]|]; naive_solver.
Qed.

(** ** The meaning of a clause *)

(** In SQL. *)
Fixpoint sem q d : option bool :=
  match q with
  | QAll => Some true
  | OpExpr lhs opno val => op_value lhs opno val d
  | PushdownExpr e => comparison_value e d
  | PushdownVarEqTrue f => field_value f d
  | PushdownVarEqFalse f => not3 (field_value f d)
  | PushdownVarIsTrue f => Some (bool_decide (field_value f d = Some true))
  | PushdownVarIsFalse f => Some (bool_decide (field_value f d = Some false))
  | PushdownIsNotNull f => Some (field_notnull f d)
  | HeapExpr node _ _ => row_value node d
  | And l => foldr and3 (Some true) (map (fun q => sem q d) l)
  | Or l => foldr or3 (Some false) (map (fun q => sem q d) l)
  | Not q => not3 (sem q d)
  | ExternalVar | ExternalExpr | Expr _ _ | ScoreExpr _ _ => None
  end.

(** What is negated is known, unless it is a comparison of a field. *)
Fixpoint negations_known q d : Prop :=
  match q with
  | And l | Or l => every (fun q => negations_known q d) l
  | Not q => negations_known q d /\ (negates_itself q = true \/ sem q d <> None)
  | _ => True
  end.

(** Each condition of its own finds the rows for which it is true: the query of a search operator
    and of a pushed down comparison does ([Comparisons.comparisons_found]), and a condition on the
    heap scans everything, as it does when the clause is extracted. *)
Fixpoint leaves_found q d : Prop :=
  match q with
  | OpExpr lhs opno val => forall s, const_query val = Some s -> finds s d <-> op_value lhs opno val d = Some true
  | PushdownExpr e => forall s, eval_query e = Some s -> finds s d <-> comparison_value e d = Some true
  | HeapExpr _ _ s => is_all s = true
  | And l | Or l => every (fun q => leaves_found q d) l
  | Not q => leaves_found q d
  | _ => True
  end.

(** No conjunction of nothing. *)
Fixpoint no_empty_and q : Prop :=
  match q with
  | And l => l <> [] /\ every no_empty_and l
  | Or l => every no_empty_and l
  | Not q => no_empty_and q
  | _ => True
  end.

Lemma qfinds_eq f b d : d ∈ all_docs -> finds (from_eq f b) d <-> field_value f d = Some b.
Proof. intros Hd. by apply (fl_term Hfields f b). Qed.

(** A leaf finds the rows for which it is true. *)
Lemma leaf_sem q d : (forall l, q <> And l) -> (forall l, q <> Or l) -> (forall q', q <> Not q') -> convertible q -> contains_external_var q = false ->
  leaves_found q d -> d ∈ all_docs -> row_visible d -> qfinds q d <-> sem q d = Some true.
Proof.
  intros Hna Hno Hnn Hc Hext Hl Hd Hv. destruct q as [| | |lhs opno val| |e|f|f|f|f|f| |node desc s|l|l|q]; try done; cbn [sem].
  - split; [done|]. intros _. by exists All; split; [|apply finds_all_docs].
  - destruct Hc as (s & Hs & Hp). rewrite (qfinds_yields _ s d) by (cbn [Qual.from]; by apply yields_unwrap). by apply Hl.
  - destruct Hc as (s & Hs & Hp). rewrite (qfinds_yields _ s d) by (cbn [Qual.from]; by apply yields_unwrap). by apply Hl.
  - rewrite (qfinds_yields _ (from_eq f true) d) by done. by apply qfinds_eq.
  - rewrite (qfinds_yields _ (from_eq f false) d) by done. rewrite qfinds_eq by done. destruct (field_value f d) as [[]|]; cbn; intuition congruence.
  - rewrite (qfinds_yields _ (from_eq f true) d) by done. rewrite qfinds_eq by done. case_bool_decide; split; congruence.
  - rewrite (qfinds_yields _ (from_eq f false) d) by done. rewrite qfinds_eq by done. case_bool_decide; split; congruence.
  - rewrite (qfinds_yields _ (FieldedQuery f Exists) d) by done. rewrite (proj2 (fl_exists Hfields f) d Hd). split; congruence.
  - destruct Hc as [Hn Hc]. destruct s; try done. rewrite qfinds_heap by done. pose proof (finds_all_docs d Hd). tauto.
  - by destruct (Hna l).
  - by destruct (Hno l).
  - by destruct (Hnn q).
Qed.

Lemma existsb_false {A} (p : A -> bool) l : existsb p l = false -> Forall (fun x => p x = false) l.
Proof. induction l as [|x l IH]; [done|]. cbn [existsb]. intros [Hx Hl]%orb_false_elim. constructor; [done|by apply IH]. Qed.

Lemma clause_sem q d : d ∈ all_docs -> row_visible d -> convertible q -> contains_external_var q = false -> no_empty_and q -> leaves_found q d -> negations_known q d ->
  qfinds q d <-> sem q d = Some true.
Proof.
  intros Hd Hv. induction q as [q Hna Hno Hnn|l IH|l IH|q IH] using qual_induction; intros Hc Hext Hne Hl Hk.
  - by apply leaf_sem.
  - cbn [convertible contains_external_var no_empty_and leaves_found negations_known sem] in *. destruct Hne as [Hnil Hne]. rewrite every_Forall in Hc, Hne, Hl, Hk. apply existsb_false in Hext.
    rewrite qfinds_and, and3_true, Forall_map by done. rewrite !Forall_forall in *. split; intros Hall q Hq; specialize (IH q Hq (Hc q Hq) (Hext q Hq) (Hne q Hq) (Hl q Hq) (Hk q Hq)); by apply IH, Hall.
  - cbn [convertible contains_external_var no_empty_and leaves_found negations_known sem] in *. rewrite every_Forall in Hc, Hne, Hl, Hk. apply existsb_false in Hext.
    rewrite qfinds_or, or3_true by done. rewrite Exists_map. rewrite !Exists_exists. rewrite !Forall_forall in *.
    split; intros (q & Hq & Hf); exists q; (split; [done|]); specialize (IH q Hq (Hc q Hq) (Hext q Hq) (Hne q Hq) (Hl q Hq) (Hk q Hq)); by apply IH.
  - cbn [convertible contains_external_var no_empty_and leaves_found negations_known] in *. destruct Hk as [Hk Hneg]. specialize (IH Hc Hext Hne Hl Hk). destruct (negates_itself q) eqn:En.
    + destruct q; try done; cbn [sem].
      * rewrite (qfinds_yields _ (from_eq field false) d) by done. rewrite qfinds_eq by done. destruct (field_value field d) as [[]|]; cbn; intuition congruence.
      * rewrite (qfinds_yields _ (from_eq field true) d) by done. rewrite qfinds_eq by done. destruct (field_value field d) as [[]|]; cbn; intuition congruence.
    + destruct Hneg as [?|Hneg]; [done|]. rewrite qfinds_not, IH by done. cbn [sem]. destruct (sem q d) as [[]|]; cbn; intuition congruence.
Qed.

(** A negation of what is unknown in SQL is found. *)
Lemma negated_unknown q d : d ∈ all_docs -> row_visible d -> convertible q -> contains_external_var q = false -> no_empty_and q -> leaves_found q d -> negations_known q d ->
  negates_itself q = false -> sem q d = None -> qfinds (Not q) d /\ sem (Not q) d = None.
Proof.
  intros Hd Hv Hc Hext Hne Hl Hk Hn Hs. rewrite qfinds_not, clause_sem by done. cbn [sem]. by rewrite Hs.
Qed.

(** ** Optimization *)

Abbreviation from_indices := (from_indices (E := E) const_query eval_query score_value operator_oid).
Abbreviation optimize_and := (optimize_and_branch_with_heap_expr (E := E) const_query eval_query score_value operator_oid).

Lemma from_indices_spec p l pre ss : Forall2 (fun q s => yields (from q) s) (filter (fun q => p q = true) l) ss ->
  yields (from_indices (pre ++ l) (indices p (length pre) l)) ss.
Proof.
  revert pre ss. induction l as [|q l IH]; intros pre ss Hss; cbn [indices]; [apply Forall2_nil_inv_l in Hss; by subst ss|].
  specialize (IH (pre ++ [q])). rewrite length_app, Nat.add_1_r, <- !app_assoc in IH. cbn [app] in IH. destruct (p q) eqn:Ep.
  - rewrite filter_cons_True in Hss by done. apply Forall2_cons_inv_l in Hss as (s & ss' & Hs & Hss' & ->). cbn [Qual.from_indices].
    eapply yields_bind; [apply yields_unwrap; by apply list_lookup_middle|]. eapply yields_bind; [exact Hs|]. eapply yields_bind; [by apply IH|apply yields_ret].
  - rewrite filter_cons_False in Hss by congruence. by apply IH.
Qed.

(** What merging the indexed clauses into the scans of the heap does to a clause. *)
Definition merged_clause ss q : Qual PQ P := if is_heap_scan q then set_search_query (Boolean ss [] []) q else q.

Lemma merged_indexed ss q : is_indexed (merged_clause ss q) = is_indexed q.
Proof. unfold merged_clause. destruct q; try done. cbn. by destruct (is_all search_query_input). Qed.

Lemma merged_other ss q : is_heap_scan q = false -> merged_clause ss q = q.
Proof. unfold merged_clause. by intros ->. Qed.

Lemma heap_scan_inv q : is_heap_scan q = true -> exists node desc, q = HeapExpr node desc All.
Proof. destruct q; try done. cbn. destruct search_query_input; try done. by eexists _, _. Qed.

Lemma optimize_and_spec l : Forall convertible l -> exists l', yields (optimize_and l) l' /\ Forall convertible l' /\ (l = [] <-> l' = []) /\
  forall d, d ∈ all_docs -> Forall (fun q => qfinds q d) l' <-> Forall (fun q => qfinds q d) l.
Proof.
  clear op_value comparison_value. intros Hc. unfold optimize_and_branch_with_heap_expr. destruct (is_nil (indices is_heap_scan 0 l)) eqn:Eh; [by exists l|]. destruct (is_nil (indices is_indexed 0 l)) eqn:Ei; [by exists l|]. cbn [negb andb].
  assert (exists h, h ∈ l /\ is_heap_scan h = true) as (h & Hh & Hscan).
  { destruct (decide (Forall (fun q => is_heap_scan q = false) l)) as [Hno|Hno]; [apply (indices_nil _ _ 0) in Hno; by rewrite Hno in Eh|].
    apply not_Forall_Exists in Hno; [|apply _]. apply Exists_exists in Hno as (h & Hh & Hs). exists h. split; [done|]. by apply not_false_is_true. }
  set (I := filter (fun q => is_indexed q = true) l). assert (I <> []) as HI.
  { intros Hnil. assert (Forall (fun q => is_indexed q = false) l) as Hno; [|apply (indices_nil _ _ 0) in Hno; by rewrite Hno in Ei].
    apply Forall_forall. intros q Hq. destruct (is_indexed q) eqn:Eq; [|done]. assert (q ∈ I) as Hin by (by apply list_elem_of_filter). rewrite Hnil in Hin. by apply not_elem_of_nil in Hin. }
  assert (Forall convertible I) as HcI by (rewrite Forall_forall in Hc |- *; intros q [_ Hq]%list_elem_of_filter; by apply Hc). destruct (from_list I HcI) as (ss & Hss & Hp).
  assert (ss <> []) as Hne by (intros ->; by apply Forall2_nil_inv_r in Hss).
  pose proof (alter_indices is_heap_scan (set_search_query (Boolean ss [] [])) l []) as Ha. cbn [app length] in Ha.
  pose proof (delete_indices is_indexed (merged_clause ss <$> l) []) as Hdel. cbn [app length] in Hdel. rewrite indices_map in Hdel by apply merged_indexed.
  exists (filter (fun q => is_indexed q = false) (merged_clause ss <$> l)). split.
  { eapply yields_bind; [by apply (from_indices_spec is_indexed l [])|]. cbv zeta. rewrite Ha. fold (merged_clause ss). rewrite Hdel. apply yields_ret. }
  assert (forall q, q ∈ filter (fun q => is_indexed q = false) (merged_clause ss <$> l) <-> exists q0, q0 ∈ l /\ q = merged_clause ss q0 /\ is_indexed q0 = false) as Hel.
  { intros q. rewrite list_elem_of_filter, list_elem_of_fmap. split.
    - intros [Hq (q0 & -> & Hq0)]. exists q0. rewrite merged_indexed in Hq. done.
    - intros (q0 & Hq0 & -> & Hi). rewrite merged_indexed. split; [done|]. by exists q0. }
  assert (forall node desc, HeapExpr node desc All ∈ l -> merged_clause ss (HeapExpr node desc All) = HeapExpr node desc (Boolean ss [] [])) as Hm by done.
  destruct (plain_boolean ss [] [] Hp (Forall_nil_2 _) (Forall_nil_2 _)) as [Hconv _]. rewrite !Forall_forall in Hc. split; [|split].
  - apply Forall_forall. intros q (q0 & Hq0 & -> & _)%Hel. destruct (is_heap_scan q0) eqn:E0; [|rewrite merged_other by done; by apply Hc].
    destruct (heap_scan_inv q0 E0) as (node & desc & ->). cbn. split; [|done]. by destruct (Hc _ Hq0).
  - split; [intros ->; by apply not_elem_of_nil in Hh|]. intros Hnil. destruct (heap_scan_inv h Hscan) as (node & desc & ->).
    assert (merged_clause ss (HeapExpr node desc All) ∈ filter (fun q => is_indexed q = false) (merged_clause ss <$> l)) as Hin by (apply Hel; by eexists). rewrite Hnil in Hin. by apply not_elem_of_nil in Hin.
  - intros d Hd. assert (forall node desc, HeapExpr node desc All ∈ l -> qfinds (HeapExpr node desc (Boolean ss [] [])) d <->
      Forall (fun q => qfinds q d) I /\ qfinds (HeapExpr node desc All) d) as Hheap.
    { intros node desc Hin. rewrite (qfinds_yields _ (HeapFilter (Boolean ss [] []) [mkHeapFieldFilter node desc]) d), (qfinds_yields _ (HeapFilter All [mkHeapFieldFilter node desc]) d) by done.
      rewrite !finds_heap by (done || apply converts_all). rewrite finds_must, (qfinds_Forall I ss d Hss) by done. pose proof (finds_all_docs d Hd). naive_solver. }
    rewrite !Forall_forall. split.
    + intros Hall. assert (forall node desc, HeapExpr node desc All ∈ l -> Forall (fun q => qfinds q d) I /\ qfinds (HeapExpr node desc All) d) as Hscans.
      { intros node desc Hin. apply Hheap; [done|]. apply Hall, Hel. by eexists. }
      intros q Hq. destruct (is_heap_scan q) eqn:Eq.
      * destruct (heap_scan_inv q Eq) as (node & desc & ->). by apply (Hscans node desc).
      * destruct (is_indexed q) eqn:Eqi.
        -- destruct (heap_scan_inv h Hscan) as (node & desc & ->). destruct (Hscans node desc Hh) as [HfI _]. rewrite Forall_forall in HfI. apply HfI. by apply list_elem_of_filter.
        -- apply Hall, Hel. exists q. by rewrite merged_other.
    + intros Hall q (q0 & Hq0 & -> & Hi)%Hel. destruct (is_heap_scan q0) eqn:E0; [|rewrite merged_other by done; by apply Hall].
      destruct (heap_scan_inv q0 E0) as (node & desc & ->). apply Hheap; [done|]. split; [|by apply Hall]. apply Forall_forall. intros q [_ Hq]%list_elem_of_filter. by apply Hall.
Qed.

(** The optimized clause is of the same kind, can be converted, and finds the same. *)
Definition same_found q q' : Prop := convertible q' /\ negates_itself q' = negates_itself q /\ forall d, d ∈ all_docs -> qfinds q' d <-> qfinds q d.

Lemma optimize_list l : Forall (fun q => convertible q -> exists q', yields (optimize q) q' /\ same_found q q') l -> Forall convertible l ->
  exists l', yields (each optimize l) l' /\ Forall2 same_found l l'.
Proof.
  intros IH Hc. assert (exists l', Forall2 (fun q q' => yields (optimize q) q') l l' /\ Forall2 same_found l l') as (l' & Hy & Hs); [|exists l'; split; [by apply yields_each|done]].
  induction IH as [|q l Hq _ IHl]; [by exists []|]. apply Forall_cons in Hc as [Hc1 Hc2]. destruct (Hq Hc1) as (q' & Hq' & Hs'), (IHl Hc2) as (l' & Hl' & Hsl).
  exists (q' :: l'). split; by constructor.
Qed.

Lemma same_found_lists l l' d : Forall2 same_found l l' -> d ∈ all_docs ->
  Forall convertible l' /\ (Forall (fun q => qfinds q d) l' <-> Forall (fun q => qfinds q d) l) /\ (List.Exists (fun q => qfinds q d) l' <-> List.Exists (fun q => qfinds q d) l).
Proof.
  intros Hl Hd. induction Hl as [|q q' l l' (Hc & _ & Hq) _ (IHc & IHf & IHe)]; [by rewrite !Exists_nil|].
  rewrite !Forall_cons, !Exists_cons, IHf, IHe, (Hq d Hd). done.
Qed.

Lemma optimize_spec q : convertible q -> exists q', yields (optimize q) q' /\ same_found q q'.
Proof.
  induction q as [q Hna Hno Hnn|l IH|l IH|q IH] using qual_induction; intros Hc.
  - exists q. split; [|by split]. destruct q; try done; [by destruct (Hna quals)|by destruct (Hno quals)|by destruct (Hnn q)].
  - cbn [convertible] in Hc. apply every_Forall in Hc. destruct (optimize_list l IH Hc) as (l1 & Hl1 & Hs1).
    assert (Forall convertible l1) as Hc1 by (clear -Hs1; induction Hs1 as [|? ? ? ? (? & _) _ ?]; by constructor).
    destruct (optimize_and_spec l1 Hc1) as (l2 & Hl2 & Hc2 & Hnil & Hf2). exists (And l2). split.
    { cbn [optimize_quals_with_heap_expr]. eapply yields_bind; [done|]. by eapply yields_bind. }
    split; [cbn [convertible]; by apply every_Forall|]. split; [done|]. intros d Hd. destruct (same_found_lists l l1 d Hs1 Hd) as (_ & Hf1 & _).
    destruct (decide (l = [])) as [->|Hne]; [apply Forall2_nil_inv_l in Hs1; subst l1; by rewrite (proj1 Hnil eq_refl)|].
    assert (l2 <> []) as Hne2. { intros E2. apply Hnil in E2. subst l1. by apply Forall2_nil_inv_r in Hs1. }
    rewrite !qfinds_and by done. by rewrite Hf2, Hf1.
  - cbn [convertible] in Hc. apply every_Forall in Hc. destruct (optimize_list l IH Hc) as (l1 & Hl1 & Hs1).
    assert (Forall convertible l1) as Hc1 by (clear -Hs1; induction Hs1 as [|? ? ? ? (? & _) _ ?]; by constructor).
    exists (Or l1). split; [cbn [optimize_quals_with_heap_expr]; by eapply yields_bind|]. split; [cbn [convertible]; by apply every_Forall|]. split; [done|]. intros d Hd.
    rewrite !qfinds_or by done. by apply (same_found_lists l l1 d).
  - cbn [convertible] in Hc. destruct (IH Hc) as (q' & Hq' & Hc' & Hn & Hf). exists (Not q'). split; [cbn [optimize_quals_with_heap_expr]; by eapply yields_bind|].
    split; [done|]. split; [done|]. intros d Hd. destruct (negates_itself q) eqn:En.
    + assert (q' = q) as ->; [|done]. by destruct q; try done; apply yields_ret_inv in Hq'.
    + rewrite !qfinds_not by done. by rewrite (Hf d Hd).
Qed.

(** ** Comparisons with the score *)

Lemma popscore_some l s k : popscore l = Some (s, k) -> filter (fun s => is_score_filter s = true) l = s :: filter (fun s => is_score_filter s = true) k /\
  filter (fun s => is_score_filter s = false) l = filter (fun s => is_score_filter s = false) k /\ length l = S (length k).
Proof.
  revert s k. induction l as [|x l IH]; intros s k; cbn [popscore]; [done|]. destruct (is_score_filter x) eqn:Ex.
  - intros [= -> ->]. by rewrite filter_cons_True, filter_cons_False by congruence.
  - destruct (popscore l) as [[s' k']|]; [|done]. intros [= -> <-]. destruct (IH s k' eq_refl) as (H1 & H2 & H3).
    rewrite !(filter_cons_False (fun s => is_score_filter s = true)), !(filter_cons_True (fun s => is_score_filter s = false)) by congruence. rewrite H1, H2. cbn [length]. by rewrite H3.
Qed.

Lemma popscore_all l : popscore l = None -> filter (fun s => is_score_filter s = true) l = [] /\ filter (fun s => is_score_filter s = false) l = l.
Proof.
  induction l as [|x l IH]; cbn [popscore]; [done|]. destruct (is_score_filter x) eqn:Ex; [done|]. destruct (popscore l) as [[s' k']|]; [done|]. intros _. destruct (IH eq_refl) as [H1 H2].
  by rewrite filter_cons_False, filter_cons_True, H1, H2 by congruence.
Qed.

Lemma pop_scores_spec fuel l acc : (length l <= fuel)%nat ->
  pop_scores fuel l acc = (filter (fun s => is_score_filter s = false) l, acc ++ filter (fun s => is_score_filter s = true) l).
Proof.
  revert l acc. induction fuel as [|fuel IH]; intros l acc Hl; [destruct l; [cbn; by rewrite app_nil_r|cbn in Hl; lia]|].
  cbn [pop_scores]. destruct (popscore l) as [[s k]|] eqn:E1.
  - apply popscore_some in E1 as (H1 & H2 & H3). rewrite IH by lia. by rewrite H1, H2, <- app_assoc.
  - apply popscore_all in E1 as [H1 H2]. by rewrite H1, H2, app_nil_r.
Qed.

Definition bounds_of s : option (list (Bound Score * Bound Score)) := match s with ScoreFilter bs _ => Some bs | _ => None end.

Lemma wrap_scores_run scores s t : Forall (fun s => is_score_filter s = true) scores -> yields (into_tantivy_query more_like_this parse term_set fielded true true s) t ->
  exists t', yields (into_tantivy_query more_like_this parse term_set fielded true true (wrap_scores scores s)) t' /\
    run t' = filter (fun e => Forall (fun bs => in_bounds bs e.2 = true) (omap bounds_of scores)) (run t).
Proof.
  intros Hs Ht. induction Hs as [|x scores Hx _ (t' & Ht' & Hrun)]; cbn [wrap_scores foldr].
  - exists t. split; [done|]. symmetry. rewrite (list_filter_iff _ (fun _ => True)) by (intros; split; done). induction (run t) as [|e l IHl]; [done|]. by rewrite filter_cons_True, IHl.
  - destruct x as [| | | | |bs o| | | | | | | | |]; try done. eexists. split; [cbn [into_tantivy_query]; eapply yields_bind; [exact Ht'|apply yields_ret]|].
    rewrite run_score_filter, Hrun, list_filter_filter. apply list_filter_iff. intros e. cbn [omap list_omap bounds_of]. rewrite Forall_cons. done.
Qed.

End conversion.
