(* ===== verification/Clauses.v ===== *)
(** * WHERE clauses and what is found

    The theorems on the conversion of clauses, and on what goes wrong with comparisons of the
    score. *)

From stdpp Require Import prelude gmap strings.
From Stdlib Require Import ZArith Lia SpecFloat.
From S2P Require Import Prelude Xid Query Scorers ScorersProps QuerySem Qual QualProps.
From stdpp Require Import list.
Import Query Scorers Qual.

Local Open Scope Z_scope.

(** ** Scores in SQL *)

Definition is_nan (x : Score) : bool := match x with S754_nan => true | _ => false end.

(** The order of [real] numbers in PostgreSQL: a NaN equals a NaN and is after everything else. *)
Definition float4_eq (x y : Score) : bool := if is_nan x then is_nan y else negb (is_nan y) && SFeqb x y.
Definition float4_lt (x y : Score) : bool := negb (is_nan x) && (is_nan y || SFltb x y).

(** What [x symbol y] means. *)
Definition compare_scores (symbol : string) (x y : Score) : bool :=
  match symbol with
  | "="%string => float4_eq x y | "<>"%string => negb (float4_eq x y)
  | "<"%string => float4_lt x y | ">"%string => float4_lt y x
  | "<="%string => float4_lt x y || float4_eq x y | ">="%string => float4_lt y x || float4_eq x y
  | _ => false
  end.

Definition score_symbols : list string := ["="; "<"; ">"; "<="; ">="; "<>"]%string.
Definition float_types : list string := ["float4"; "float8"]%string.

Definition operator_name (symbol type : string) : string := symbol +:+ "(float4," +:+ type +:+ ")".

Definition score_operator_names : list string := flat_map (fun type => (fun symbol => operator_name symbol type) <$> score_symbols) float_types.

Lemma SFcompare_swap x y : SFcompare y x = CompOpp <$> SFcompare x y.
Proof.
  unfold SFcompare. destruct x as [[]|[]| |[] m e], y as [[]|[]| |[] m' e']; try done;
    change (Pos.compare_cont Eq) with Pos.compare; rewrite (Z.compare_antisym e e'), (Pos.compare_antisym m m'); by destruct (e ?= e'), (m ?= m')%positive.
Qed.

Lemma SFcompare_numbers x y : is_nan x = false -> is_nan y = false -> exists c, SFcompare x y = Some c.
Proof. destruct x as [[]|[]| |[] m e], y as [[]|[]| |[] m' e']; try done; by eexists. Qed.

(** The bounds of a comparison hold the scores that compare so with a number. *)
Lemma bounds_compare symbol v x b : symbol <> "<>"%string -> is_nan v = false -> is_nan x = false -> (symbol, b) ∈ score_operators v ->
  in_bounds [b] x = compare_scores symbol x v.
Proof.
  intros Hs Hv Hx Hb. unfold in_bounds. cbn [existsb]. rewrite orb_false_r. destruct (SFcompare_numbers x v Hx Hv) as [c Hc]. pose proof (SFcompare_swap x v) as Hc'. rewrite Hc in Hc'.
  unfold score_operators in Hb. repeat (apply elem_of_cons in Hb as [Hb|Hb]); [..|by apply not_elem_of_nil in Hb]; injection Hb as -> ->; [..|done];
    unfold contains, compare_scores, float4_eq, float4_lt, SFltb, SFleb, SFeqb; cbn [fst snd]; rewrite ?Hx, ?Hv, ?Hc, ?Hc'; by destruct c.
Qed.

Section clauses.
Context {PQ P Leaf E : Type} `{Index Leaf} `{!TantivyLaws Leaf}.
Variables (more_like_this parse term_set : P -> M unit E Leaf) (fielded : string -> pdb_Query PQ -> M unit E Leaf).
Variables (const_query eval_query : Z -> option (SearchQueryInput PQ P)) (score_value : Z -> option Score) (operator_oid : string -> Z).
Variables (field_value : string -> Z -> option bool) (field_notnull : string -> Z -> bool).
Variables (op_value : Pointer -> Z -> Pointer -> Z -> option bool) (comparison_value : Pointer -> Z -> option bool).

Abbreviation into := (into_tantivy_query more_like_this parse term_set fielded true true).
Abbreviation from := (from (E := E) const_query eval_query score_value operator_oid).
Abbreviation optimize := (optimize_quals_with_heap_expr (E := E) const_query eval_query score_value operator_oid).
Abbreviation convertible := (convertible more_like_this parse term_set fielded const_query eval_query).
Abbreviation sem := (sem field_value field_notnull op_value comparison_value).
Abbreviation negations_known := (negations_known field_value field_notnull op_value comparison_value).
Abbreviation leaves_found := (leaves_found more_like_this parse term_set fielded const_query eval_query op_value comparison_value).
Abbreviation fields_ok := (field_laws more_like_this parse term_set fielded field_value field_notnull).

Lemma converted q : fields_ok -> convertible q -> exists s t, yields (from q) s /\ yields (into s) t /\
  forall d, qfinds more_like_this parse term_set fielded const_query eval_query score_value operator_oid q d <-> found t d.
Proof.
  intros Hf Hc. destruct (from_plain _ _ _ _ const_query eval_query score_value operator_oid _ _ Hf q Hc) as (s & Hs & (t & Ht) & _). exists s, t. split; [done|]. split; [done|].
  intros d. rewrite (qfinds_yields _ _ _ _ _ _ _ _ _ _ d Hs). by apply finds_yields.
Qed.

(** C3: The search query that a WHERE clause is converted to finds exactly the visible rows for
    which SQL, with its three values, says that the clause is true.  The clause has no comparison
    of the score, no expression that is yet to be solved, no variable of another table and no
    empty conjunction, and its queries can run; each search operator and each pushed down
    comparison in it finds by itself the rows for which it is true; and what is negated is not
    NULL in the row (comparisons of boolean fields are negated correctly in any case). *)
Theorem clause_finds_rows q d : fields_ok -> d ∈ all_docs -> row_visible d -> convertible q -> contains_external_var q = false -> no_empty_and q ->
  leaves_found q d -> negations_known q d ->
  exists s t, yields (from q) s /\ yields (into s) t /\ (found t d <-> sem q d = Some true).
Proof.
  intros Hf Hd Hv Hc Hext Hne Hl Hk. destruct (converted q Hf Hc) as (s & t & Hs & Ht & Hq). exists s, t. split; [done|]. split; [done|]. rewrite <- Hq.
  by apply (clause_sem _ _ _ _ _ _ _ _ _ _ _ _ Hf).
Qed.

(** A negation of a condition on the heap, and of any condition but that on a boolean field, finds
    the rows in which the condition is NULL, though it is NULL itself there. *)
Theorem negated_unknown_found q d : fields_ok -> d ∈ all_docs -> row_visible d -> convertible q -> contains_external_var q = false -> no_empty_and q ->
  leaves_found q d -> negations_known q d -> negates_itself q = false -> sem q d = None ->
  sem (Not q) d = None /\ exists s t, yields (from (Not q)) s /\ yields (into s) t /\ found t d.
Proof.
  intros Hf Hd Hv Hc Hext Hne Hl Hk Hn Hs. destruct (converted (Not q) Hf Hc) as (s & t & Hs' & Ht & Hq).
  destruct (negated_unknown more_like_this parse term_set fielded const_query eval_query score_value operator_oid _ _ op_value comparison_value Hf q d) as [Hfd Hnull]; try done.
  split; [done|]. exists s, t. split; [done|]. split; [done|]. by apply Hq.
Qed.

(** C4: Optimizing a clause without comparisons of the score, without expressions that are yet to be
    solved, and whose queries can run, does not change which documents are found: the indexed
    conditions of a conjunction are moved into its scans of the heap.  (The scores may change.) *)
Theorem optimize_finds_same q : fields_ok -> convertible q ->
  exists q' s t s' t', yields (optimize q) q' /\ yields (from q) s /\ yields (into s) t /\ yields (from q') s' /\ yields (into s') t' /\
    forall d, found t' d <-> found t d.
Proof.
  intros Hf Hc. destruct (optimize_spec _ _ _ _ const_query eval_query score_value operator_oid _ _ Hf q Hc) as (q' & Hq' & Hc' & _ & Hsame).
  destruct (converted q Hf Hc) as (s & t & Hs & Ht & Hq), (converted q' Hf Hc') as (s' & t' & Hs' & Ht' & Hq2). exists q', s, t, s', t'. split_and!; try done.
  intros d. destruct (decide (d ∈ all_docs)) as [Hd|Hd]; [by rewrite <- Hq, <- Hq2, Hsame|]. split; intros Hfd; by apply ti_docs in Hfd.
Qed.

(** With several scans of the heap, each of them gets the indexed conditions: a comparison of the
    score then sees the sum of as many copies of their score. *)
Theorem optimize_copies_scored n1 d1 n2 d2 lhs opno val op v s : const_query val = Some s ->
  yields (optimize (And [HeapExpr n1 d1 All; HeapExpr n2 d2 All; OpExpr lhs opno val; ScoreExpr op v]))
    (And [HeapExpr n1 d1 (Boolean [s] [] []); HeapExpr n2 d2 (Boolean [s] [] []); ScoreExpr op v]).
Proof.
  intros Hs. cbn [optimize_quals_with_heap_expr each]. eapply yields_bind; [repeat (eapply yields_bind; [apply yields_ret|]); apply yields_ret|].
  eapply yields_bind; [|apply yields_ret]. eapply yields_bind; [|apply yields_ret]. cbn [indices is_indexed is_heap_scan is_all from_indices].
  eapply yields_bind; [by apply yields_unwrap|]. eapply yields_bind; [by apply yields_unwrap|]. eapply yields_bind; apply yields_ret.
Qed.

(** *** Comparisons of the score *)

Definition is_score_expr (q : Qual PQ P) : bool := match q with ScoreExpr _ _ => true | _ => false end.

(** Whether the comparison holds of a score, by the name of its operator. *)
Definition score_holds (op val : Z) (x : Score) : bool :=
  match score_value val with
  | None => false
  | Some v => existsb (fun symbol => existsb (fun type => (op =? operator_oid (operator_name symbol type)) && compare_scores symbol x v) float_types) score_symbols
  end.

(** A comparison, other than for being unequal, with a number. *)
Definition score_comparison (q : Qual PQ P) : Prop :=
  match q with
  | ScoreExpr op val => exists symbol type v, symbol ∈ score_symbols /\ symbol <> "<>"%string /\ type ∈ float_types /\
      op = operator_oid (operator_name symbol type) /\ score_value val = Some v /\ is_nan v = false
  | _ => True
  end.

Definition score_condition (x : Score) (q : Qual PQ P) : bool := match q with ScoreExpr op val => score_holds op val x | _ => true end.

(** Operators are known by their names. *)
Definition operators_distinct : Prop := NoDup (operator_oid <$> score_operator_names).

Hypothesis Hoids : operators_distinct.

Lemma score_operator_names_elem symbol type : symbol ∈ score_symbols -> type ∈ float_types -> operator_name symbol type ∈ score_operator_names.
Proof. intros Hs Ht. unfold score_operator_names. apply list_elem_of_In, in_flat_map. exists type. split; [by apply list_elem_of_In|]. apply list_elem_of_In, list_elem_of_fmap. by exists symbol. Qed.

Lemma operator_oid_inj s1 t1 s2 t2 : s1 ∈ score_symbols -> t1 ∈ float_types -> s2 ∈ score_symbols -> t2 ∈ float_types ->
  operator_oid (operator_name s1 t1) = operator_oid (operator_name s2 t2) -> s1 = s2.
Proof.
  intros Hs1 Ht1 Hs2 Ht2 He. assert (operator_name s1 t1 = operator_name s2 t2) as Hn.
  { pose proof (score_operator_names_elem s1 t1 Hs1 Ht1) as [i Hi]%list_elem_of_lookup. pose proof (score_operator_names_elem s2 t2 Hs2 Ht2) as [j Hj]%list_elem_of_lookup.
    assert (i = j) as ->; [|congruence]. eapply NoDup_lookup; [exact Hoids|rewrite list_lookup_fmap, Hi; reflexivity|rewrite list_lookup_fmap, Hj; cbn; by rewrite He]. }
  clear -Hs1 Ht1 Hs2 Ht2 Hn. rewrite list_elem_of_In in *. cbn [In score_symbols float_types] in *. intuition (subst; (reflexivity || discriminate)).
Qed.

Lemma score_bounds_named symbol type v : symbol ∈ score_symbols -> type ∈ float_types ->
  exists b, score_bounds operator_oid (operator_oid (operator_name symbol type)) v = Some b /\ (symbol, b) ∈ score_operators v.
Proof.
  clear -Hoids. intros Hs Ht. unfold score_bounds. set (L := _ ++ _). assert (forall c, c ∈ L <-> c.1.2 ∈ float_types /\ (c.1.1, c.2) ∈ score_operators v) as HL.
  { intros [[s ty] b]. unfold L, float_types. rewrite elem_of_app, !list_elem_of_fmap, !elem_of_cons, elem_of_nil. cbn [fst snd]. split.
    - intros [([s' b'] & [= -> -> ->] & Hin)|([s' b'] & [= -> -> ->] & Hin)]; tauto.
    - intros [[->|[->|[]]] Hin]; [left|right]; by exists (s, b). }
  assert (exists b, (symbol, b) ∈ score_operators v) as [b Hb].
  { clear -Hs. unfold score_symbols in Hs. rewrite list_elem_of_In in Hs. cbn [In] in Hs. unfold score_operators. setoid_rewrite list_elem_of_In. cbn [In]. destruct Hs as [<-|[<-|[<-|[<-|[<-|[<-|[]]]]]]]; eexists; eauto 10. }
  destruct (head (filter _ L)) as [c|] eqn:Eh.
  - assert (c ∈ filter (fun c => operator_oid (operator_name symbol type) = operator_oid (c.1.1 +:+ "(float4," +:+ c.1.2 +:+ ")")) L) as [Ho [Hty Hin]%HL]%list_elem_of_filter.
    { destruct (filter _ L); [done|]. injection Eh as ->. by left. }
    exists c.2. split; [done|]. assert (symbol = c.1.1) as ->; [|done]. apply (operator_oid_inj symbol type c.1.1 c.1.2); try done.
    clear -Hin. unfold score_operators in Hin. unfold score_symbols. destruct c as [[s ty] b']. apply list_elem_of_In in Hin. apply list_elem_of_In. cbn [In fst snd] in *. intuition congruence.
  - exfalso. assert (((symbol, type), b) ∈ filter (fun c => operator_oid (operator_name symbol type) = operator_oid (c.1.1 +:+ "(float4," +:+ c.1.2 +:+ ")")) L) as Hin
      by (apply list_elem_of_filter; split; [done|by apply HL]).
    destruct (filter _ L); [by apply not_elem_of_nil in Hin|done].
Qed.

Lemma score_holds_named symbol type val v x : symbol ∈ score_symbols -> type ∈ float_types -> score_value val = Some v ->
  score_holds (operator_oid (operator_name symbol type)) val x = compare_scores symbol x v.
Proof.
  intros Hs Ht Hv. unfold score_holds. rewrite Hv. apply eq_true_iff_eq. rewrite existsb_exists. split.
  - intros (s & Hin & (ty & Hty & [Ho%Z.eqb_eq Hc]%andb_true_iff)%existsb_exists). apply list_elem_of_In in Hin, Hty. by rewrite (operator_oid_inj symbol type s ty).
  - intros Hc. exists symbol. split; [by apply list_elem_of_In|]. apply existsb_exists. exists type. split; [by apply list_elem_of_In|]. by rewrite Z.eqb_refl, Hc.
Qed.

Lemma score_expr_converted op val : score_comparison (ScoreExpr op val) ->
  exists b, yields (from (ScoreExpr op val)) (ScoreFilter [b] None) /\ forall x, is_nan x = false -> in_bounds [b] x = score_holds op val x.
Proof.
  intros (symbol & type & v & Hs & Hne & Ht & -> & Hv & Hnan). destruct (score_bounds_named symbol type v Hs Ht) as (b & Hb & Hin). exists b. split.
  - cbn [Qual.from]. eapply yields_bind; [by apply yields_unwrap|]. eapply yields_bind; [by apply yields_unwrap|apply yields_ret].
  - intros x Hx. erewrite score_holds_named by done. by apply bounds_compare.
Qed.

Lemma conjuncts_converted l ss0 : Forall score_comparison l -> Forall2 (fun q s => yields (from q) s) (filter (fun q => is_score_expr q = false) l) ss0 ->
  Forall (fun s => is_score_filter s = false) ss0 ->
  exists ss, Forall2 (fun q s => yields (from q) s) l ss /\ filter (fun s => is_score_filter s = false) ss = ss0 /\
    forall x, is_nan x = false -> Forall (fun bs => in_bounds bs x = true) (omap bounds_of ss) <-> forallb (score_condition x) l = true.
Proof.
  intros Hl. revert ss0. induction Hl as [|q l Hq _ IH]; intros ss0 H0 Hn; [apply Forall2_nil_inv_l in H0 as ->; by exists []|]. destruct (is_score_expr q) eqn:Eq.
  - rewrite filter_cons_False in H0 by congruence. destruct (IH ss0 H0 Hn) as (ss & Hss & Hf & Hx). destruct q as [| | | | | | | | | | |op val| | | |]; try done.
    destruct (score_expr_converted op val Hq) as (b & Hb & Hbx). exists (ScoreFilter [b] None :: ss). split; [by constructor|]. split; [by rewrite filter_cons_False|].
    intros x Hnan. cbn [omap list_omap bounds_of forallb score_condition]. rewrite Forall_cons, andb_true_iff, (Hx x Hnan), (Hbx x Hnan). done.
  - rewrite filter_cons_True in H0 by done. apply Forall2_cons_inv_l in H0 as (s & ss1 & Hs & H1 & ->). apply Forall_cons in Hn as [Hns Hn]. destruct (IH ss1 H1 Hn) as (ss & Hss & Hf & Hx).
    exists (s :: ss). split; [by constructor|]. split; [by rewrite filter_cons_True, Hf|]. intros x Hnan. cbn [omap list_omap forallb].
    assert (bounds_of s = None) as -> by (by destruct s). assert (score_condition x q = true) as -> by (by destruct q). by apply Hx.
Qed.

Lemma from_and_run ss t : yields (into (Boolean (filter (fun s => is_score_filter s = false) ss) [] [])) t ->
  exists t', yields (into (from_and ss)) t' /\ run t' = filter (fun e => Forall (fun bs => in_bounds bs e.2 = true) (omap bounds_of ss)) (run t).
Proof.
  intros Ht. assert (from_and ss = wrap_scores (filter (fun s => is_score_filter s = true) ss) (Boolean (filter (fun s => is_score_filter s = false) ss) [] [])) as Ef
    by (unfold from_and; by rewrite pop_scores_spec by lia).
  destruct (wrap_scores_run more_like_this parse term_set fielded (filter (fun s => is_score_filter s = true) ss) (Boolean (filter (fun s => is_score_filter s = false) ss) [] []) t) as (t' & Ht' & Hrun); [|done|].
  { apply Forall_forall. by intros s [Hs _]%list_elem_of_filter. }
  exists t'. rewrite Ef. split; [done|]. rewrite Hrun. apply list_filter_iff. intros e.
  assert (omap bounds_of (filter (fun s => is_score_filter s = true) ss) = omap bounds_of ss) as ->; [|done].
  clear. induction ss as [|s ss IH]; [done|]. rewrite filter_cons. cbn [omap list_omap]. destruct s; cbn [bounds_of]; try (rewrite decide_False by done; exact IH).
  rewrite decide_True by done. cbn [omap list_omap bounds_of]. by rewrite IH.
Qed.

(** C5: A conjunction of comparisons of the score by [=], [<], [>], [<=] or [>=] with numbers (a
    [float8] rounded to [float4]), and of other conditions none of which is converted to a filter
    by score, finds, with unchanged scores, those documents of the other conditions whose score
    compares with each of the numbers as PostgreSQL compares them; no score is NaN. *)
Theorem scores_conjoin l ss t : Forall score_comparison l ->
  Forall2 (fun q s => yields (from q) s) (filter (fun q => is_score_expr q = false) l) ss -> Forall (fun s => is_score_filter s = false) ss ->
  yields (into (Boolean ss [] [])) t -> Forall (fun e => is_nan e.2 = false) (run t) ->
  exists s' t', yields (from (And l)) s' /\ yields (into s') t' /\ run t' = filter (fun e => forallb (score_condition e.2) l = true) (run t).
Proof.
  intros Hl Hss Hn Ht Hnan. destruct (conjuncts_converted l ss Hl Hss Hn) as (all & Hall & <- & Hx). destruct (from_and_run all t Ht) as (t' & Ht' & Hrun).
  exists (from_and all), t'. split; [cbn [Qual.from]; eapply yields_bind; [by apply yields_each|apply yields_ret]|]. split; [done|]. rewrite Hrun.
  clear -Hnan Hx. induction Hnan as [|e run He _ IH]; [done|]. rewrite !filter_cons, IH. specialize (Hx e.2 He). by repeat case_decide; try tauto.
Qed.

(** A conjunction inside a conjunction loses its other conditions when it has a comparison of the
    score. *)
Theorem nested_and_drops a b op val sa sb v bs : yields (from a) sa -> is_score_filter sa = false -> yields (from b) sb -> is_score_filter sb = false ->
  score_value val = Some v -> score_bounds operator_oid op v = Some bs ->
  yields (from (And [a; And [b; ScoreExpr op val]])) (ScoreFilter [bs] (Some (Boolean [sa] [] []))).
Proof.
  intros Ha Hsa Hb Hsb Hv Hbs. cbn [Qual.from]. eapply yields_bind.
  - apply yields_each. apply Forall2_cons. split; [exact Ha|]. apply Forall2_cons. split; [|by apply Forall2_nil]. cbn [Qual.from]. eapply yields_bind; [|apply yields_ret].
    apply yields_each. apply Forall2_cons. split; [exact Hb|]. apply Forall2_cons. split; [|by apply Forall2_nil]. cbn [Qual.from]. eapply yields_bind; [by apply yields_unwrap|]. eapply yields_bind; [by apply yields_unwrap|apply yields_ret].
  - unfold from_and at 2. cbn [length pop_scores popscore]. rewrite Hsb. cbn [is_score_filter popscore]. rewrite Hsb. cbn [wrap_scores foldr app].
    unfold from_and. cbn [length pop_scores popscore]. rewrite Hsa. cbn [is_score_filter popscore]. rewrite Hsa. apply yields_ret.
Qed.

(** A clause with a comparison of the score is lost when it stands in a disjunction. *)
Theorem or_drops_scored a b op val sa sb v bs : yields (from a) sa -> is_score_filter sa = false -> yields (from b) sb -> is_score_filter sb = false ->
  score_value val = Some v -> score_bounds operator_oid op v = Some bs ->
  yields (from (And [a; ScoreExpr op val])) (ScoreFilter [bs] (Some (Boolean [sa] [] []))) /\
  yields (from (Or [And [a; ScoreExpr op val]; b])) (Boolean [] [sb] []).
Proof.
  intros Ha Hsa Hb Hsb Hv Hbs. assert (yields (from (And [a; ScoreExpr op val])) (ScoreFilter [bs] (Some (Boolean [sa] [] [])))) as Hand.
  { cbn [Qual.from each]. eapply yields_bind; [eapply yields_bind; [exact Ha|]; eapply yields_bind; [|apply yields_ret]; eapply yields_bind; [|eapply yields_bind; apply yields_ret]|].
    - eapply yields_bind; [by apply yields_unwrap|]. eapply yields_bind; [by apply yields_unwrap|apply yields_ret].
    - unfold from_and. cbn [length pop_scores popscore]. rewrite Hsa. cbn [is_score_filter popscore]. rewrite Hsa. apply yields_ret. }
  split; [done|]. change (from (Or [And [a; ScoreExpr op val]; b])) with (queries ← each from [And [a; ScoreExpr op val]; b]; mret (from_or queries)).
  eapply yields_bind; [apply yields_each; repeat (apply Forall2_cons; split); [exact Hand|exact Hb|by apply Forall2_nil]|]. unfold from_or. rewrite filter_cons_False by done. rewrite filter_cons_True by done. apply yields_ret.
Qed.

End clauses.

(** ** Unequal to a score *)

Lemma SFltb_asym x y : SFltb x y = true -> SFltb y x = false.
Proof.
  unfold SFltb, SFcompare. destruct x as [[]|[]| |[] m e], y as [[]|[]| |[] m' e']; try done;
    change (Pos.compare_cont Eq) with Pos.compare; rewrite (Z.compare_antisym e e'), (Pos.compare_antisym m m'); by destruct (e ?= e'), (m ?= m')%positive.
Qed.

(** [<>] is converted to bounds that no score is in. *)
Theorem score_unequal_finds_nothing v x : in_bounds [(Excluded v, Excluded v)] x = false.
Proof.
  unfold in_bounds, contains. cbn [existsb fst snd]. rewrite orb_false_r. destruct (SFltb v x) eqn:Hl; [|done]. cbn [andb]. by apply SFltb_asym.
Qed.

(** ** An example *)

(** Three rows; the field is true, false and NULL in them. *)
Definition demo_field (f : string) (d : Z) : option bool := if d =? 1 then Some true else if d =? 2 then Some false else None.
Definition demo_notnull (f : string) (d : Z) : bool := if demo_field f d then true else false.
Definition demo_fielded (f : string) (q : pdb_Query unit) : M unit unit (Z -> bool) :=
  mret (fun d => match q with Term_Bool b => bool_decide (demo_field f d = Some b) | Exists => demo_notnull f d | Other _ => false end).
Definition demo_leaf (p : unit) : M unit unit (Z -> bool) := mret (fun _ => false).
Definition demo_const (p : Z) : option (SearchQueryInput unit unit) := Some All.
Definition demo_index : Index (Z -> bool) := SmallIndex.small_index (fun p d => p d) [1; 2; 3] (fun _ => Some true).

#[local] Existing Instance demo_index.

Lemma demo_found t d : found t d <-> d ∈ [1; 2; 3] /\ SmallIndex.holds (fun p d => p d) (fun _ => Some true) t d = true.
Proof. exact (SmallIndex.found_holds (fun (p : Z -> bool) d => p d) [1; 2; 3] (fun _ => Some true) t d). Qed.

Lemma demo_laws : TantivyLaws (Z -> bool).
Proof. apply SmallIndex.small_laws. vm_compute. by intros Hd; repeat (apply elem_of_cons in Hd as [Hd|Hd]); [..|apply not_elem_of_nil in Hd]. Qed.

Lemma demo_fields : field_laws demo_leaf demo_leaf demo_leaf demo_fielded demo_field demo_notnull.
Proof.
  split.
  - intros f b. split; [by eexists|]. intros d Hd. rewrite (finds_yields demo_leaf demo_leaf demo_leaf demo_fielded (FieldedQuery f (Term_Bool b)) (LeafQuery (fun d => bool_decide (demo_field f d = Some b))) d eq_refl). rewrite demo_found. cbn [SmallIndex.holds].
    rewrite bool_decide_eq_true. naive_solver.
  - intros f. split; [by eexists|]. intros d Hd. rewrite (finds_yields demo_leaf demo_leaf demo_leaf demo_fielded (FieldedQuery f Exists) (LeafQuery (fun d => demo_notnull f d)) d eq_refl). rewrite demo_found. naive_solver.
Qed.

(** A comparison of a column, which is NULL in the third row. *)
Definition demo_eval (p : Z) : option (SearchQueryInput unit unit) := Some (FieldedQuery "c" (Term_Bool true)).
Definition demo_op_value (lhs opno val d : Z) : option bool := Some true.
Definition demo_comparison (e d : Z) : option bool := demo_field "c" d.

(** [a AND NOT (b IS NOT NULL AND NOT b) AND row AND field @@@ query AND c = value] *)
Definition demo_qual : Qual unit unit :=
  And [PushdownVarEqTrue "a"; Not (And [PushdownIsNotNull "b"; Not (PushdownVarEqTrue "b")]); HeapExpr 7 "row" All; OpExpr 0 0 5; PushdownExpr 9].

Lemma demo_convertible : convertible demo_leaf demo_leaf demo_leaf demo_fielded demo_const demo_eval demo_qual.
Proof. unfold demo_qual. cbn [convertible every]. (split_and!; try done). { by eexists. } { exists All. split; [done|]. split; [by eexists|done]. } eexists. split; [done|]. split; [by eexists|done]. Qed.

Lemma demo_leaves d : d ∈ [1; 2; 3] -> leaves_found demo_leaf demo_leaf demo_leaf demo_fielded demo_const demo_eval demo_op_value demo_comparison demo_qual d.
Proof.
  intros Hd. pose proof demo_laws. unfold demo_qual. cbn [leaves_found every]. split_and!; try done.
  - intros s [= <-]. split; [done|]. intros _. by apply (finds_all_docs demo_leaf demo_leaf demo_leaf demo_fielded d).
  - intros s [= <-]. by apply (fl_term _ _ _ _ _ _ demo_fields "c" true).
Qed.

Lemma clause_finds_rows_witness :
  sem demo_field demo_notnull demo_op_value demo_comparison demo_qual 1 = Some true /\
  exists s t, yields (E := unit) (from demo_const demo_eval (fun _ => None) (fun _ => 0) demo_qual) s /\
    yields (into_tantivy_query demo_leaf demo_leaf demo_leaf demo_fielded true true s) t /\ 
    (found t 1 <-> sem demo_field demo_notnull demo_op_value demo_comparison demo_qual 1 = Some true).
Proof.
  split; [vm_compute; reflexivity|]. pose proof demo_laws.
  apply (clause_finds_rows demo_leaf demo_leaf demo_leaf demo_fielded demo_const demo_eval (fun _ => None) (fun _ => 0) demo_field demo_notnull demo_op_value demo_comparison demo_qual 1);
    [apply demo_fields|by left|by exists 1|apply demo_convertible|done|by split_and!|apply demo_leaves; by left|].
  unfold demo_qual. cbn [negations_known every negates_itself]. split_and!; (done || (by left) || (right; by vm_compute)).
Defined.

Lemma optimize_finds_same_witness : exists q' s t s' t',
  yields (E := unit) (optimize_quals_with_heap_expr demo_const demo_eval (fun _ => None) (fun _ => 0) demo_qual) q' /\
  yields (E := unit) (from demo_const demo_eval (fun _ => None) (fun _ => 0) demo_qual) s /\
  yields (into_tantivy_query demo_leaf demo_leaf demo_leaf demo_fielded true true s) t /\
  yields (E := unit) (from demo_const demo_eval (fun _ => None) (fun _ => 0) q') s' /\
  yields (into_tantivy_query demo_leaf demo_leaf demo_leaf demo_fielded true true s') t' /\ forall d, found t' d <-> found t d.
Proof.
  pose proof demo_laws. apply (optimize_finds_same _ _ _ _ _ _ _ _ demo_field demo_notnull demo_qual); [apply demo_fields|apply demo_convertible].
Defined.

(** [a AND score > -1]: every score is zero. *)
Definition demo_oid (s : string) : Z := match list_find (fun x => x = s) score_operator_names with Some (i, _) => Z.of_nat i | None => -1 end.
Definition demo_score : Score := S754_finite true 1 0.

Lemma demo_oids : operators_distinct demo_oid.
Proof. apply (bool_decide_unpack _). by vm_compute. Qed.

Lemma scores_conjoin_witness : exists s' t',
  yields (E := unit) (from demo_const demo_eval (fun _ => Some demo_score) demo_oid (And [PushdownVarEqTrue "a"; ScoreExpr 2 1])) s' /\
  yields (into_tantivy_query demo_leaf demo_leaf demo_leaf demo_fielded true true s') t' /\ run t' = [(1, zero_score)].
Proof.
  pose proof demo_laws. edestruct (scores_conjoin (E := unit) demo_leaf demo_leaf demo_leaf demo_fielded demo_const demo_eval (fun _ => Some demo_score) demo_oid demo_oids
    [PushdownVarEqTrue "a"; ScoreExpr 2 1] [FieldedQuery "a" (Term_Bool true)]) as (s' & t' & Hs & Ht & Hrun).
  - apply Forall_cons. split; [done|]. apply Forall_cons. split; [|by apply Forall_nil]. exists ">"%string, "float4"%string, demo_score.
    split_and!; try done; apply (bool_decide_unpack _); vm_compute; reflexivity.
  - rewrite filter_cons_True, filter_cons_False by done. apply Forall2_cons. split; [apply yields_ret|by apply Forall2_nil].
  - by apply Forall_cons.
  - reflexivity.
  - apply (bool_decide_unpack _). vm_compute. reflexivity.
  - exists s', t'. split; [exact Hs|]. split; [exact Ht|]. rewrite Hrun. vm_compute. reflexivity.
Defined.
