(* ===== verification/Terms.v ===== *)
(** * Values, terms and bounds

    [query/mod.rs] makes the terms of a search out of values and canonicalizes bounds;
    [query/pdb_query.rs] builds the queries on one field that compare its value;
    [api/builder_fns] turns the comparisons of a WHERE clause into these. *)

From stdpp Require Import prelude gmap strings.
From Stdlib Require Import ZArith Lia SpecFloat Ascii.
From S2P Require Import Prelude Query.
Import Query.

Local Open Scope Z_scope.

(** Reinterpreting a bit pattern of 64 bits as an [i64]. *)
Definition i64 (z : Z) : Z := let r := u64 z in if r <? 2 ^ 63 then r else r - 2 ^ 64.
Definition i64_MAX : Z := 2 ^ 63 - 1.
Definition i64_MIN : Z := - 2 ^ 63.

Module Terms.

(** ** Values

    [tantivy::schema::OwnedValue]; a date is its [i64] of nanoseconds. *)

Inductive OwnedValue :=
| Null
| Str (s : string)
| PreTokStr (s : string)
| U64 (n : Z)
| I64 (n : Z)
| F64 (x : spec_float)
| Bool (b : bool)
| Date (nanos : Z)
| Facet (s : string)
| Bytes (l : list Z)
| Array (l : list OwnedValue)
| Object (l : list (string * OwnedValue))
| IpAddr (n : Z).

(** [PartialEq] *)
Fixpoint owned_eqb (v w : OwnedValue) : bool :=
  match v, w with
  | Null, Null => true
  | Str s, Str t | PreTokStr s, PreTokStr t | Facet s, Facet t => bool_decide (s = t)
  | U64 n, U64 m | I64 n, I64 m | Date n, Date m | IpAddr n, IpAddr m => n =? m
  | F64 x, F64 y => SFeqb x y
  | Bool b, Bool c => Bool.eqb b c
  | Bytes l, Bytes m => bool_decide (l = m)
  | Array l, Array m =>
      (fix go l m := match l, m with [], [] => true | x :: l, y :: m => owned_eqb x y && go l m | _, _ => false end) l m
  | Object l, Object m =>
      (fix go l m := match l, m with
         | [], [] => true
         | (k, x) :: l, (k', y) :: m => bool_decide (k = k') && owned_eqb x y && go l m
         | _, _ => false
         end) l m
  | _, _ => false
  end.

(** The types of PostgreSQL that the code tells apart. *)
Inductive PgOid :=
| CHAROID | INT2OID | INT4OID | INT8OID | FLOAT4OID | FLOAT8OID | BOOLOID | NUMERICOID
| TEXTOID | VARCHAROID | UUIDOID | DATEOID | TIMEOID | TIMETZOID | TIMESTAMPOID | TIMESTAMPTZOID
| INT4RANGEOID | INT8RANGEOID | NUMRANGEOID | DATERANGEOID | TSRANGEOID | TSTZRANGEOID
| OtherOid (oid : Z).

(** [tantivy::schema::FieldType] *)
Inductive FieldType :=
| TStr | TU64 | TI64 | TF64 | TBool | TDate | TFacet | TBytes | TJsonObject (expand_dots : bool) | TIpAddr.

Definition is_date_type (t : FieldType) : bool := match t with TDate => true | _ => false end.
Definition is_json_type (t : FieldType) : bool := match t with TJsonObject _ => true | _ => false end.

(** What is used of a [SearchField]. *)
Record SearchField := mkSearchField { sf_field : Z; sf_field_type : FieldType; sf_typeoid : PgOid }.

Definition is_datetime (f : SearchField) : bool := is_date_type (sf_field_type f).

Inductive QueryError := NonIndexedField (field : string) | FieldTypeMismatch | RegexError | TantivyValueError.

(** ** Terms *)

Inductive TermValue :=
| VStr (s : string) | VU64 (n : Z) | VI64 (n : Z) | VF64 (x : spec_float) | VBool (b : bool) | VDate (nanos : Z)
| VFacet (s : string) | VBytes (l : list Z) | VIpAddr (n : Z).

(** [tantivy::Term]: the path is that into a JSON object, empty for other fields. *)
Record Term := mkTerm { term_field : Z; term_path : string; term_expand_dots : bool; term_value : TermValue }.

(** The queries of tantivy that are made here. *)
Inductive TermLeaf :=
| TermQuery (t : Term)
| TermSetQuery (ts : list Term)
| RangeQuery (lower upper : Bound Term)
| RegexQuery (pattern : string) (field : Z)
| ExistsQuery (field : string) (json_subpaths : bool).

(** [DateTime::from_timestamp_micros] *)
Definition from_timestamp_micros (micros : Z) : Z := i64 (micros * 1000).

Section terms.
(** [FieldName::root] and [FieldName::path]. *)
Variables (root : string -> string) (path : string -> option string).
(** [SearchIndexSchema::search_field] *)
Variable search_field : string -> option SearchField.
(** chrono: the microseconds of an RFC 3339 date in UTC. *)
Variable parse_rfc3339 : string -> option Z.
(** pgrx and chrono: the microseconds of a date, a timestamp or a time of PostgreSQL. *)
Variable pg_micros : PgOid -> string -> option Z.
(** tantivy: [truncate(DATE_TIME_PRECISION_INDEXED)] *)
Variable truncate : Z -> Z.

Abbreviation Q := (M unit QueryError).

(** [TantivyDateTime::try_from] *)
Definition datetime_try_from (text : string) : Q Z :=
  micros ← ok_or (parse_rfc3339 text) FieldTypeMismatch;
  mret (from_timestamp_micros micros).

Definition value_to_json_term (field : Z) (value : OwnedValue) (path : option string) (expand_dots is_datetime : bool) : Q Term :=
  let term v := mkTerm field (default ""%string path) expand_dots v in
  match value with
  | Str text =>
      if is_datetime then
        date ← datetime_try_from text;
        mret (term (VDate (truncate date)))
      else mret (term (VStr text))
  | U64 n => mret (term (if n <? 2 ^ 63 then VI64 n else VU64 n))
  | I64 n => mret (term (VI64 n))
  | F64 x => mret (term (VF64 x))
  | Bool b => mret (term (VBool b))
  | Date d => mret (term (VDate d))
  | _ => panic
  end.

Definition value_to_term (field : Z) (value : OwnedValue) (field_type : FieldType) (path : option string) (is_datetime : bool) : Q Term :=
  let term v := mkTerm field "" false v in
  match field_type with
  | TJsonObject expand_dots => value_to_json_term field value path expand_dots is_datetime
  | _ =>
      match value with
      | Str text =>
          if is_datetime then
            date ← datetime_try_from text;
            mret (term (VDate (truncate date)))
          else mret (term (VStr text))
      | U64 n =>
          match field_type with
          | TI64 => mret (term (VI64 (i64 n)))
          | TU64 => mret (term (VU64 n))
          | _ => panic
          end
      | I64 n => mret (term (VI64 n))
      | F64 x => mret (term (VF64 x))
      | Bool b => mret (term (VBool b))
      | Date d => mret (term (VDate (truncate d)))
      | Facet s => mret (term (VFacet s))
      | Bytes l => mret (term (VBytes l))
      | IpAddr n => mret (term (VIpAddr n))
      | _ => panic
      end
  end.

(** ** Bounds *)

Definition convert_pg_date_string (typeoid : PgOid) (date_string : string) : Q Z :=
  match typeoid with
  | DATEOID | DATERANGEOID | TIMESTAMPOID | TSRANGEOID | TIMESTAMPTZOID | TSTZRANGEOID | TIMEOID | TIMETZOID =>
      micros ← unwrap (pg_micros typeoid date_string);
      mret (from_timestamp_micros micros)
  | _ => panic
  end.

Definition one_day_nanos : Z := 86400000000000.

Definition check_lower_bound (typeoid : PgOid) (lower_bound : Bound OwnedValue) : Q (Bound OwnedValue) :=
  match lower_bound, typeoid with
  | Excluded (U64 n), _ => mret (Included (U64 (u64 (n + 1))))
  | Excluded (I64 n), _ => mret (Included (I64 (i64 (n + 1))))
  | Excluded (Str s), (DATEOID | DATERANGEOID) =>
      nanos ← convert_pg_date_string typeoid s;
      mret (Included (Date (i64 (nanos + one_day_nanos))))
  | Excluded (Str s), (TIMESTAMPOID | TSRANGEOID | TIMESTAMPTZOID | TSTZRANGEOID) =>
      datetime ← convert_pg_date_string typeoid s;
      mret (Excluded (Date datetime))
  | Included (Str s), (DATEOID | DATERANGEOID | TIMESTAMPOID | TSRANGEOID | TIMESTAMPTZOID | TSTZRANGEOID) =>
      datetime ← convert_pg_date_string typeoid s;
      mret (Included (Date datetime))
  | _, _ => mret lower_bound
  end.

Definition check_upper_bound (typeoid : PgOid) (upper_bound : Bound OwnedValue) : Q (Bound OwnedValue) :=
  match upper_bound, typeoid with
  | Included (U64 n), _ => mret (Excluded (U64 (u64 (n + 1))))
  | Included (I64 n), _ => mret (Excluded (I64 (i64 (n + 1))))
  | Included (Str s), (DATEOID | DATERANGEOID) =>
      nanos ← convert_pg_date_string typeoid s;
      mret (Excluded (Date (i64 (nanos + one_day_nanos))))
  | Included (Str s), (TIMESTAMPOID | TSRANGEOID | TIMESTAMPTZOID | TSTZRANGEOID) =>
      datetime ← convert_pg_date_string typeoid s;
      mret (Included (Date datetime))
  | Excluded (Str s), (DATEOID | DATERANGEOID | TIMESTAMPOID | TSRANGEOID | TIMESTAMPTZOID | TSTZRANGEOID) =>
      datetime ← convert_pg_date_string typeoid s;
      mret (Excluded (Date datetime))
  | _, _ => mret upper_bound
  end.

Definition check_range_bounds (typeoid : PgOid) (lower_bound upper_bound : Bound OwnedValue) : Q (Bound OwnedValue * Bound OwnedValue) :=
  lower_bound ← check_lower_bound typeoid lower_bound;
  upper_bound ← check_upper_bound typeoid upper_bound;
  mret (lower_bound, upper_bound).

(** [n as f64]: rounded to the nearest, ties to even. *)
Definition as_f64 (n : Z) : spec_float := binary_normalize 53 1024 n 0 false.

Definition coerce_value (value : OwnedValue) (field_type : FieldType) : OwnedValue :=
  match value, field_type with
  | U64 n, TF64 | I64 n, TF64 => F64 (as_f64 n)
  | _, _ => value
  end.

Definition coerce_bound_to_field_type (bound : Bound OwnedValue) (field_type : FieldType) : Bound OwnedValue :=
  match bound with
  | Included v => Included (coerce_value v field_type)
  | Excluded v => Excluded (coerce_value v field_type)
  | Unbounded => Unbounded
  end.

(** ** Queries on a field *)

Abbreviation Tq := (TantivyQuery TermLeaf).

(** [match bound { Included(v) => Included(f(v)?), .. }] *)
Definition map_bound {A B} (f : A -> Q B) (bound : Bound A) : Q (Bound B) :=
  match bound with
  | Included v => t ← f v; mret (Included t)
  | Excluded v => t ← f v; mret (Excluded t)
  | Unbounded => mret Unbounded
  end.

Definition range (field : string) (lower_bound upper_bound : Bound OwnedValue) (datetime : bool) : Q Tq :=
  sf ← ok_or (search_field (root field)) (NonIndexedField field);
  let field_type := sf_field_type sf in
  let datetime := is_datetime sf || datetime in
  bounds ← check_range_bounds (sf_typeoid sf)
             (coerce_bound_to_field_type lower_bound field_type) (coerce_bound_to_field_type upper_bound field_type);
  let to_term v := value_to_term (sf_field sf) v field_type (path field) datetime in
  lower ← map_bound to_term bounds.1;
  upper ← map_bound to_term bounds.2;
  mret (LeafQuery (RangeQuery lower upper)).

Definition term (field : string) (value : OwnedValue) (datetime : bool) : Q Tq :=
  sf ← ok_or (search_field (root field)) (NonIndexedField field);
  t ← value_to_term (sf_field sf) value (sf_field_type sf) (path field) (is_datetime sf || datetime);
  mret (LeafQuery (TermQuery t)).

Definition exists_ (field : string) : Q Tq :=
  sf ← unwrap (search_field (root field));
  mret (LeafQuery (ExistsQuery field (is_json_type (sf_field_type sf)))).

Record TermInput := mkTermInput { ti_field : string; ti_value : OwnedValue; ti_is_datetime : bool }.

(** [expect] on the result of a call. *)
Definition expect {E A} (c : M unit E A) : M unit E A := fun s => match c s with (Err _, s') => (Panic, s') | r => r end.

(** [SearchQueryInput::TermSet] *)
Definition term_input_to_term (i : TermInput) : Q Term :=
  sf ← unwrap (search_field (root (ti_field i)));
  expect (value_to_term (sf_field sf) (ti_value i) (sf_field_type sf) (path (ti_field i)) (is_datetime sf || ti_is_datetime i)).

Definition term_set (terms : list TermInput) : Q Tq :=
  ts ← each term_input_to_term terms;
  mret (LeafQuery (TermSetQuery ts)).

(** ** Comparisons of a WHERE clause *)

(** Of [pdb::Query] the variants below are converted by this file and [RangeField]. *)
Inductive FieldQuery :=
| TermOf (value : OwnedValue) (datetime : bool)
| Range (lower_bound upper_bound : Bound OwnedValue) (datetime : bool)
| RangeContains (lower_bound upper_bound : Bound OwnedValue) (datetime : bool)
| RangeIntersects (lower_bound upper_bound : Bound OwnedValue) (datetime : bool)
| RangeTerm (value : OwnedValue) (datetime : bool)
| RangeWithin (lower_bound upper_bound : Bound OwnedValue) (datetime : bool).

Context {D : Type}.
(** A datum with its type, and its value as tantivy's: that of [TantivyValue::try_from], after
    the query was stored and read again, which turns [I64] of no negative number into [U64]. *)
Record AnyElement := mkAnyElement { oid : PgOid; datum : D }.
Variable tantivy_value : AnyElement -> option OwnedValue.

Definition generic_range_query (lower upper : Bound AnyElement) (datetime : bool) : Q FieldQuery :=
  let value e := ok_or (tantivy_value e) TantivyValueError in
  l ← map_bound value lower;
  u ← map_bound value upper;
  mret (Range l u datetime).

(** [term_fn!] *)
Definition eq_func (value : AnyElement) : Q FieldQuery :=
  v ← unwrap (tantivy_value value);
  mret (TermOf v (match v with Date _ => true | _ => false end)).

Abbreviation Sqi := (SearchQueryInput FieldQuery (list TermInput)).

Definition make_query (operator field : string) (value : AnyElement) (datetime : bool) : Q Sqi :=
  let fielded q := FieldedQuery field (Other q) in
  match operator with
  | "="%string => q ← eq_func value; mret (fielded q)
  | "<>"%string =>
      q ← eq_func value;
      mret (Boolean [FieldedQuery field Exists] [] [fielded q])
  | ">"%string => q ← generic_range_query (Excluded value) Unbounded datetime; mret (fielded q)
  | ">="%string => q ← generic_range_query (Included value) Unbounded datetime; mret (fielded q)
  | "<"%string => q ← generic_range_query Unbounded (Excluded value) datetime; mret (fielded q)
  | "<="%string => q ← generic_range_query Unbounded (Included value) datetime; mret (fielded q)
  | _ => panic
  end.

Definition term_with_operator (field operator : string) (value : AnyElement) : Q Sqi :=
  match oid value with
  | CHAROID | INT2OID | INT4OID | INT8OID | FLOAT4OID | FLOAT8OID | BOOLOID | NUMERICOID
  | TEXTOID | VARCHAROID | UUIDOID => make_query operator field value false
  | DATEOID | TIMEOID | TIMETZOID | TIMESTAMPOID | TIMESTAMPTZOID => make_query operator field value true
  | _ => panic
  end.

(** [str::trim], of the white space in ASCII. *)
Definition is_space (c : ascii) : bool := let n := nat_of_ascii c in ((9 <=? n) && (n <=? 13) || (n =? 32))%nat.
Fixpoint skip_spaces (l : list ascii) : list ascii :=
  match l with c :: l' => if is_space c then skip_spaces l' else l | [] => [] end.
Definition trim (s : string) : list ascii := rev (skip_spaces (rev (skip_spaces (String.list_ascii_of_string s)))).

Definition is_datetime_oid (o : PgOid) : bool :=
  match o with DATEOID | TIMEOID | TIMETZOID | TIMESTAMPOID | TIMESTAMPTZOID => true | _ => false end.

(** [array]: the elements, [None] for a null.  [array_type]: their type, none for no array. *)
Definition terms_with_operator (field operator : string) (array_type : option PgOid) (array : list (option D)) (conjunction_mode : bool) : Q Sqi :=
  array_type ← unwrap array_type;
  if negb conjunction_mode && bool_decide (trim operator = ["="%char]) then
    terms ← each (fun d =>
      v ← ok_or (tantivy_value (mkAnyElement array_type d)) TantivyValueError;
      mret (mkTermInput field v (is_datetime_oid array_type))) (omap id array);
    mret (TermSet terms)
  else if conjunction_mode && existsb (fun d => match d with None => true | _ => false end) array then mret Empty
  else
    quals ← each (fun d => expect (term_with_operator field operator (mkAnyElement array_type d))) (omap id array);
    if conjunction_mode then mret (Boolean quals [] []) else mret (Boolean [] quals []).

End terms.

Arguments AnyElement : clear implicits.
Arguments mkAnyElement {D} oid datum.
Arguments oid {D} _.
Arguments datum {D} _.

End Terms.
