(* ===== verification/RangeField.v ===== *)
(** * Range fields

    A range of PostgreSQL is indexed as a JSON object ([schema/range.rs], [postgres/range.rs]);
    [query/range.rs] has the queries on the keys of that object, [query/pdb_query.rs] composes
    them to queries that compare ranges, and [api/builder_fns/pdb.rs] has the SQL functions. *)

From stdpp Require Import prelude gmap strings.
From Stdlib Require Import ZArith Lia SpecFloat.
From S2P Require Import Prelude Query Terms.
Import Query Terms.

Local Open Scope Z_scope.

Module RangeField.

(** ** Indexing *)

(** [pgrx::RangeBound], and [pgrx::Range] by its [into_inner]: [None] is the empty range. *)
Inductive RangeBound (T : Type) := Infinite | Inclusive (v : T) | Exclusive (v : T).
Arguments Infinite {T}.
Arguments Inclusive {T} v.
Arguments Exclusive {T} v.

Definition Range_ (T : Type) := option (RangeBound T * RangeBound T).

Record TantivyRange (S : Type) := mkTantivyRange {
  tr_lower : option S; tr_upper : option S; tr_empty : bool;
  tr_lower_inclusive : bool; tr_upper_inclusive : bool; tr_lower_unbounded : bool; tr_upper_unbounded : bool }.
Arguments mkTantivyRange {S}.
Arguments tr_lower {S}. Arguments tr_upper {S}. Arguments tr_empty {S}.
Arguments tr_lower_inclusive {S}. Arguments tr_upper_inclusive {S}.
Arguments tr_lower_unbounded {S}. Arguments tr_upper_unbounded {S}.

Record TantivyRangeBuilder (S : Type) := mkBuilder {
  b_lower : option S; b_upper : option S; b_empty : option bool;
  b_lower_inclusive : option bool; b_upper_inclusive : option bool;
  b_lower_unbounded : option bool; b_upper_unbounded : option bool }.
Arguments mkBuilder {S}.

Section builder.
Context {S : Type}.

Definition builder_new : TantivyRangeBuilder S := mkBuilder None None None None None None None.

Definition set_empty (v : bool) (b : TantivyRangeBuilder S) : TantivyRangeBuilder S :=
  let '(mkBuilder l u e li ui lu uu) := b in mkBuilder l u (Some v) li ui lu uu.
Definition set_lower (v : option S) (b : TantivyRangeBuilder S) : TantivyRangeBuilder S :=
  let '(mkBuilder l u e li ui lu uu) := b in mkBuilder v u e li ui lu uu.
Definition set_upper (v : option S) (b : TantivyRangeBuilder S) : TantivyRangeBuilder S :=
  let '(mkBuilder l u e li ui lu uu) := b in mkBuilder l v e li ui lu uu.
Definition set_lower_inclusive (v : bool) (b : TantivyRangeBuilder S) : TantivyRangeBuilder S :=
  let '(mkBuilder l u e li ui lu uu) := b in mkBuilder l u e (Some v) ui lu uu.
Definition set_upper_inclusive (v : bool) (b : TantivyRangeBuilder S) : TantivyRangeBuilder S :=
  let '(mkBuilder l u e li ui lu uu) := b in mkBuilder l u e li (Some v) lu uu.
Definition set_lower_unbounded (v : bool) (b : TantivyRangeBuilder S) : TantivyRangeBuilder S :=
  let '(mkBuilder l u e li ui lu uu) := b in mkBuilder l u e li ui (Some v) uu.
Definition set_upper_unbounded (v : bool) (b : TantivyRangeBuilder S) : TantivyRangeBuilder S :=
  let '(mkBuilder l u e li ui lu uu) := b in mkBuilder l u e li ui lu (Some v).

Definition build (b : TantivyRangeBuilder S) : TantivyRange S :=
  let '(mkBuilder l u e li ui lu uu) := b in
  mkTantivyRange l u (default false e) (default true li) (default false ui) (default false lu) (default false uu).

(** serde's serialization of the struct, as a value of tantivy. *)
Definition to_value (json : S -> OwnedValue) (r : TantivyRange S) : OwnedValue :=
  let opt o := match o with Some v => json v | None => Null end in
  Object [("lower"%string, opt (tr_lower r)); ("upper"%string, opt (tr_upper r)); ("empty"%string, Bool (tr_empty r));
          ("lower_inclusive"%string, Bool (tr_lower_inclusive r)); ("upper_inclusive"%string, Bool (tr_upper_inclusive r));
          ("lower_unbounded"%string, Bool (tr_lower_unbounded r)); ("upper_unbounded"%string, Bool (tr_upper_unbounded r))].

End builder.

Section from_range.
Context {T S E : Type}.
(** [S::try_from], and [S] as a value of tantivy. *)
Variables (try_from : T -> option S) (json : S -> OwnedValue).

Definition bound_value (b : RangeBound T) : M unit E (option S) :=
  match b with Inclusive v | Exclusive v => s ← unwrap (try_from v); mret (Some s) | Infinite => mret None end.

Definition is_inclusive (b : RangeBound T) : bool := match b with Inclusive _ => true | _ => false end.
Definition is_infinite (b : RangeBound T) : bool := match b with Infinite => true | _ => false end.

Definition from_range (val : Range_ T) : M unit E OwnedValue :=
  match val with
  | None => mret (to_value json (build (set_empty true builder_new)))
  | Some (l, u) =>
      lower ← bound_value l;
      upper ← bound_value u;
      mret (to_value json (build
        (set_upper_unbounded (is_infinite u) (set_lower_unbounded (is_infinite l)
          (set_upper_inclusive (is_inclusive u) (set_lower_inclusive (is_inclusive l)
            (set_upper upper (set_lower lower builder_new))))))))
  end.

End from_range.

(** ** Queries on the keys *)

Record RangeField := mkRangeField { rf_field : Z; rf_is_datetime : bool }.

Inductive Comparison := LessThan | LessThanOrEqual | GreaterThan | GreaterThanOrEqual.

Definition EMPTY_KEY : string := "empty".
Definition LOWER_KEY : string := "lower".
Definition UPPER_KEY : string := "upper".
Definition LOWER_INCLUSIVE_KEY : string := "lower_inclusive".
Definition UPPER_INCLUSIVE_KEY : string := "upper_inclusive".
Definition LOWER_UNBOUNDED_KEY : string := "lower_unbounded".
Definition UPPER_UNBOUNDED_KEY : string := "upper_unbounded".
Definition EXPAND_DOTS : bool := false.

Section queries.
Variables (root : string -> string) (path : string -> option string) (search_field : string -> option SearchField).
Variables (parse_rfc3339 : string -> option Z) (pg_micros : PgOid -> string -> option Z) (truncate : Z -> Z).

Abbreviation Q := (M unit QueryError).
Abbreviation Tq := (TantivyQuery TermLeaf).

Definition as_range_term (f : RangeField) (value : OwnedValue) (path : option string) : Q Term :=
  value_to_json_term parse_rfc3339 truncate (rf_field f) value path EXPAND_DOTS (rf_is_datetime f).

(** [RegexQuery::from_pattern]: the pattern is a valid one. *)
Definition exists_range (f : RangeField) : Q Tq := mret (LeafQuery (RegexQuery ".*" (rf_field f))).

Definition bool_key (f : RangeField) (key : string) (val : bool) : Q Tq :=
  term ← as_range_term f (Bool val) (Some key);
  mret (LeafQuery (TermQuery term)).

Definition empty (f : RangeField) (val : bool) : Q Tq := bool_key f EMPTY_KEY val.
Definition upper_bound_inclusive (f : RangeField) (val : bool) : Q Tq := bool_key f UPPER_INCLUSIVE_KEY val.
Definition lower_bound_inclusive (f : RangeField) (val : bool) : Q Tq := bool_key f LOWER_INCLUSIVE_KEY val.
Definition upper_bound_unbounded (f : RangeField) (val : bool) : Q Tq := bool_key f UPPER_UNBOUNDED_KEY val.
Definition lower_bound_unbounded (f : RangeField) (val : bool) : Q Tq := bool_key f LOWER_UNBOUNDED_KEY val.

(** [owned] compared with the value of the key. *)
Definition compare_bound (f : RangeField) (key : string) (owned : OwnedValue) (comparison : Comparison) : Q Tq :=
  term ← as_range_term f owned (Some key);
  mret (LeafQuery match comparison with
    | LessThan => RangeQuery (Excluded term) Unbounded
    | LessThanOrEqual => RangeQuery (Included term) Unbounded
    | GreaterThan => RangeQuery Unbounded (Excluded term)
    | GreaterThanOrEqual => RangeQuery Unbounded (Included term)
    end).

Definition compare_lower_bound (f : RangeField) (owned : OwnedValue) (c : Comparison) : Q Tq := compare_bound f LOWER_KEY owned c.
Definition compare_upper_bound (f : RangeField) (owned : OwnedValue) (c : Comparison) : Q Tq := compare_bound f UPPER_KEY owned c.

(** ** Queries on ranges *)

Definition all_of (qs : list Tq) : Tq := BooleanQuery (pair Must <$> qs).
Definition one_of (qs : list Tq) : Tq := BooleanQuery (pair Should <$> qs).

(** [lower <= l], by whether the bound that is compared is inclusive. *)
Definition either (a b c d : Q Tq) : Q Tq :=
  a ← a; b ← b; c ← c; d ← d;
  mret (one_of [all_of [a; b]; all_of [c; d]]).

Definition must (q : Q Tq) : Q (list (Occur * Tq)) := t ← q; mret [(Must, t)].
Definition only (q : Q Tq) : Q Tq := t ← q; mret (all_of [t]).
Definition should (q : Q Tq) : Q (list (Occur * Tq)) := t ← q; mret [(Should, t)].

(** [Should q] or one of [satisfies]. *)
Definition or_satisfies (q : Q Tq) (satisfies : list (Occur * Tq)) : Q Tq :=
  t ← q; mret (one_of [t; BooleanQuery satisfies]).

Definition is_empty_range (lower_bound upper_bound : Bound OwnedValue) : bool :=
  match lower_bound, upper_bound with Included lower, Excluded upper => owned_eqb lower upper | _, _ => false end.

Definition range_within (field : string) (lower_bound upper_bound : Bound OwnedValue) (datetime : bool) : Q Tq :=
  sf ← ok_or (search_field (root field)) (NonIndexedField field);
  let datetime := is_datetime sf || datetime in
  bounds ← check_range_bounds pg_micros (sf_typeoid sf) lower_bound upper_bound;
  let f := mkRangeField (sf_field sf) datetime in
  satisfies_lower_bound ← match bounds.1 with
    | Excluded lower => must (only (compare_lower_bound f lower GreaterThanOrEqual))
    | Included lower => must (either
        (compare_lower_bound f lower GreaterThan) (lower_bound_inclusive f false)
        (compare_lower_bound f lower GreaterThanOrEqual) (lower_bound_inclusive f true))
    | Unbounded => mret []
    end;
  satisfies_upper_bound ← match bounds.2 with
    | Excluded upper => must (only (compare_upper_bound f upper LessThanOrEqual))
    | Included upper => must (either
        (compare_upper_bound f upper LessThan) (upper_bound_inclusive f false)
        (compare_upper_bound f upper LessThanOrEqual) (upper_bound_inclusive f true))
    | Unbounded => mret []
    end;
  satisfies_lower_bound ← or_satisfies (lower_bound_unbounded f true) satisfies_lower_bound;
  satisfies_upper_bound ← or_satisfies (upper_bound_unbounded f true) satisfies_upper_bound;
  if is_empty_range bounds.1 bounds.2 then exists_range f
  else mret (all_of [satisfies_lower_bound; satisfies_upper_bound]).

Definition range_term (field : string) (value : OwnedValue) (datetime : bool) : Q Tq :=
  sf ← ok_or (search_field (root field)) (NonIndexedField field);
  let f := mkRangeField (sf_field sf) datetime in
  lower_unbounded ← lower_bound_unbounded f true;
  lower ← either
    (lower_bound_inclusive f true) (compare_lower_bound f value GreaterThanOrEqual)
    (lower_bound_inclusive f false) (compare_lower_bound f value GreaterThan);
  upper_unbounded ← upper_bound_unbounded f true;
  upper ← either
    (upper_bound_inclusive f true) (compare_upper_bound f value LessThanOrEqual)
    (upper_bound_inclusive f false) (compare_upper_bound f value LessThan);
  mret (all_of [one_of [lower_unbounded; lower]; one_of [upper_unbounded; upper]]).

Definition range_intersects (field : string) (lower_bound upper_bound : Bound OwnedValue) (datetime : bool) : Q Tq :=
  sf ← ok_or (search_field (root field)) (NonIndexedField field);
  let datetime := is_datetime sf || datetime in
  bounds ← check_range_bounds pg_micros (sf_typeoid sf) lower_bound upper_bound;
  let f := mkRangeField (sf_field sf) datetime in
  satisfies_lower_bound ← match bounds.1 with
    | Excluded lower => must (only (compare_upper_bound f lower LessThan))
    | Included lower => must (either
        (compare_upper_bound f lower LessThanOrEqual) (upper_bound_inclusive f true)
        (compare_upper_bound f lower LessThan) (upper_bound_inclusive f false))
    | Unbounded => should (exists_range f)
    end;
  satisfies_upper_bound ← match bounds.2 with
    | Excluded upper => must (only (compare_lower_bound f upper GreaterThan))
    | Included upper => must (either
        (compare_lower_bound f upper GreaterThanOrEqual) (lower_bound_inclusive f true)
        (compare_lower_bound f upper GreaterThan) (lower_bound_inclusive f false))
    | Unbounded => should (exists_range f)
    end;
  satisfies_lower_bound ← or_satisfies (upper_bound_unbounded f true) satisfies_lower_bound;
  satisfies_upper_bound ← or_satisfies (lower_bound_unbounded f true) satisfies_upper_bound;
  if is_empty_range bounds.1 bounds.2 then mret EmptyQuery
  else not_empty ← empty f false;
       mret (all_of [satisfies_lower_bound; satisfies_upper_bound; not_empty]).

Definition range_contains (field : string) (lower_bound upper_bound : Bound OwnedValue) (datetime : bool) : Q Tq :=
  sf ← ok_or (search_field (root field)) (NonIndexedField field);
  let datetime := is_datetime sf || datetime in
  bounds ← check_range_bounds pg_micros (sf_typeoid sf) lower_bound upper_bound;
  let f := mkRangeField (sf_field sf) datetime in
  satisfies_lower_bound ← match bounds.1 with
    | Included lower => must (only (compare_lower_bound f lower LessThanOrEqual))
    | Excluded lower => must (either
        (compare_lower_bound f lower LessThan) (lower_bound_inclusive f true)
        (compare_lower_bound f lower LessThanOrEqual) (lower_bound_inclusive f false))
    | Unbounded => should (exists_range f)
    end;
  satisfies_upper_bound ← match bounds.2 with
    | Included upper => must (only (compare_upper_bound f upper GreaterThanOrEqual))
    | Excluded upper => must (either
        (compare_upper_bound f upper GreaterThan) (upper_bound_inclusive f true)
        (compare_upper_bound f upper GreaterThanOrEqual) (upper_bound_inclusive f false))
    | Unbounded => should (exists_range f)
    end;
  satisfies_lower_bound ← or_satisfies (empty f true) satisfies_lower_bound;
  satisfies_upper_bound ← or_satisfies (empty f true) satisfies_upper_bound;
  mret (all_of [satisfies_lower_bound; satisfies_upper_bound]).

(** [pdb::Query::into_tantivy_query], of the variants of [FieldQuery] and two others. *)
Definition fielded (field : string) (q : pdb_Query FieldQuery) : Q Tq :=
  match q with
  | Term_Bool value => term root path search_field parse_rfc3339 truncate field (Bool value) false
  | Exists => exists_ root search_field field
  | Other (TermOf value dt) => term root path search_field parse_rfc3339 truncate field value dt
  | Other (Range lower upper dt) => range root path search_field parse_rfc3339 pg_micros truncate field lower upper dt
  | Other (RangeContains lower upper dt) => range_contains field lower upper dt
  | Other (RangeIntersects lower upper dt) => range_intersects field lower upper dt
  | Other (RangeTerm value dt) => range_term field value dt
  | Other (RangeWithin lower upper dt) => range_within field lower upper dt
  end.

End queries.

(** ** The SQL functions [range_term] and [range] *)

Inductive RangeRelation := Intersects | Contains | Within.

Section sql.
Context {T : Type}.
Variables (value : T -> OwnedValue) (datetime : bool) (default_value : OwnedValue).

Definition bound_of (b : RangeBound T) : Bound OwnedValue :=
  match b with Infinite => Unbounded | Inclusive n => Included (value n) | Exclusive n => Excluded (value n) end.

Definition range_term_range_fn (range : Range_ T) (relation : RangeRelation) : FieldQuery :=
  let '(lower_bound, upper_bound) := match range with
    | None => (Included default_value, Excluded default_value)
    | Some (lower, upper) => (bound_of lower, bound_of upper)
    end in
  match relation with
  | Intersects => RangeIntersects lower_bound upper_bound datetime
  | Contains => RangeContains lower_bound upper_bound datetime
  | Within => RangeWithin lower_bound upper_bound datetime
  end.

(** The functions [range], which search a field of the elements. *)
Definition range_fn (range : Range_ T) : FieldQuery :=
  match range with
  | None => Range (Included default_value) (Excluded default_value) datetime
  | Some (lower, upper) => Range (bound_of lower) (bound_of upper) datetime
  end.

Definition range_term_fn (term : T) : FieldQuery := RangeTerm (value term) datetime.

End sql.

End RangeField.
