(* ===== verification/RangeOrder.v ===== *)
(** * Ranges as sets of points

    A range has bounds in [Z] and is a set of points of a line in which [Z] lies: the integers
    themselves, for a type whose ranges PostgreSQL writes as [[l, u)], or the rationals, for a
    type whose ranges it takes for continuous.  Intersection and inclusion are decided by
    comparing bounds. *)

From stdpp Require Import prelude.
From Stdlib Require Import ZArith Lia QArith Lqa.
From S2P Require Import Prelude Query Terms RangeField.
Import RangeField.

Local Open Scope Z_scope.

(** ** Bounds and comparisons of them *)

(** Something lies above the lower bound and below the upper one. *)
Definition meets (l u : RangeBound Z) : bool :=
  match l, u with
  | Inclusive a, Inclusive b => a <=? b
  | Infinite, _ | _, Infinite => true
  | Inclusive a, Exclusive b | Exclusive a, Inclusive b | Exclusive a, Exclusive b => a <? b
  end.

(** What lies above the lower bound [m] lies above [l]. *)
Definition lower_le (l m : RangeBound Z) : bool :=
  match l, m with
  | Infinite, _ => true
  | _, Infinite => false
  | Exclusive a, Inclusive b => a <? b
  | Inclusive a, Inclusive b | Inclusive a, Exclusive b | Exclusive a, Exclusive b => a <=? b
  end.

Definition upper_le (m u : RangeBound Z) : bool :=
  match m, u with
  | _, Infinite => true
  | Infinite, _ => false
  | Inclusive b, Exclusive a => b <? a
  | Inclusive b, Inclusive a | Exclusive b, Inclusive a | Exclusive b, Exclusive a => b <=? a
  end.

(** What does not lie above a lower bound lies below this upper bound, and conversely. *)
Definition beyond (b : RangeBound Z) : RangeBound Z :=
  match b with Infinite => Infinite | Inclusive a => Exclusive a | Exclusive a => Inclusive a end.

Definition max_lower (l m : RangeBound Z) : RangeBound Z := if lower_le l m then m else l.
Definition min_upper (m u : RangeBound Z) : RangeBound Z := if upper_le m u then m else u.

Definition finite (b : RangeBound Z) : bool := match b with Infinite => false | _ => true end.

(** A range as PostgreSQL has it: not empty, and if its type is [discrete] of the form [[l, u)]. *)
Definition lower_ok (discrete : bool) (l : RangeBound Z) : Prop := discrete = true -> match l with Exclusive _ => False | _ => True end.
Definition upper_ok (discrete : bool) (u : RangeBound Z) : Prop := discrete = true -> match u with Inclusive _ => False | _ => True end.

Definition range_ok (discrete : bool) (r : Range_ Z) : Prop :=
  match r with None => True | Some (l, u) => lower_ok discrete l /\ upper_ok discrete u /\ meets l u = true end.

Ltac bounds := repeat match goal with b : RangeBound Z |- _ => destruct b end; cbn [meets lower_le upper_le beyond finite max_lower min_upper] in *; try done.

Lemma meets_max_lower l m u : meets (max_lower l m) u = meets l u && meets m u.
Proof. unfold max_lower. apply eq_true_iff_eq. rewrite andb_true_iff. bounds; repeat (case_match; simplify_eq; cbn [meets]); lia. Qed.

Lemma meets_min_upper l m u : meets l (min_upper m u) = meets l m && meets l u.
Proof. unfold min_upper. apply eq_true_iff_eq. rewrite andb_true_iff. bounds; repeat (case_match; simplify_eq; cbn [meets]); lia. Qed.

Lemma meets_beyond_lower l m : finite l = true -> meets m (beyond l) = negb (lower_le l m).
Proof. intros Hf. apply eq_true_iff_eq. rewrite negb_true_iff. bounds; lia. Qed.

Lemma meets_beyond_upper m u : finite u = true -> meets (beyond u) m = negb (upper_le m u).
Proof. intros Hf. apply eq_true_iff_eq. rewrite negb_true_iff. bounds; lia. Qed.

Lemma lower_le_infinite m : lower_le Infinite m = true.
Proof. done. Qed.
Lemma upper_le_infinite m : upper_le m Infinite = true.
Proof. by destruct m. Qed.

(** ** Points *)

(** Points in a line that has the integers in order and no ends; only if its ranges are all of
    the form [[l, u)] may it have no point between two integers. *)
Class Line (discrete : bool) (P : Type) (le lt : P -> P -> Prop) (at_ : Z -> P) : Prop := {
  line_le_lt : forall x y, le x y <-> ~ lt y x;
  line_dec : forall x y, lt x y \/ ~ lt x y;
  line_lt_le : forall x y, lt x y -> le x y;
  line_trans : forall x y z, le x y -> le y z -> le x z;
  line_lt_trans : forall x y z, lt x y -> le y z -> lt x z;
  line_le_trans : forall x y z, le x y -> lt y z -> lt x z;
  line_at : forall a b, lt (at_ a) (at_ b) <-> a < b;
  line_below : forall a, exists x, lt x (at_ a);
  line_above : forall a, exists x, lt (at_ a) x;
  line_between : discrete = false -> forall a b, a < b -> exists x, lt (at_ a) x /\ lt x (at_ b);
}.

#[global] Instance Z_line : Line true Z Z.le Z.lt id.
Proof.
  split; try done; unfold id; try (intros; lia).
  - intros a. exists (a - 1). lia.
  - intros a. exists (a + 1). lia.
Qed.

#[global] Instance Q_line discrete : Line discrete Q Qle Qlt inject_Z.
Proof.
  split.
  - intros x y. split; [apply Qle_not_lt|apply Qnot_lt_le].
  - intros x y. destruct (Qlt_le_dec x y) as [?|Hle]; [by left|right]. by apply Qle_not_lt.
  - intros x y. apply Qlt_le_weak.
  - intros x y z. apply Qle_trans.
  - intros x y z. apply Qlt_le_trans.
  - intros x y z. apply Qle_lt_trans.
  - intros a b. by rewrite <- Zlt_Qlt.
  - intros a. exists (inject_Z (a - 1)). rewrite <- Zlt_Qlt. lia.
  - intros a. exists (inject_Z (a + 1)). rewrite <- Zlt_Qlt. lia.
  - intros _ a b Hab. exists (inject_Z a + (1 # 2))%Q. rewrite Zlt_Qlt in Hab. assert (inject_Z a + 1 <= inject_Z b)%Q as Hb.
    { rewrite <- Zlt_Qlt in Hab. change (inject_Z a + inject_Z 1 <= inject_Z b)%Q. rewrite <- inject_Z_plus, <- Zle_Qle. lia. }
    split; lra.
Qed.

Section points.
Context {discrete : bool} {P : Type} {le lt : P -> P -> Prop} {at_ : Z -> P} `{!Line discrete P le lt at_}.

Definition above (l : RangeBound Z) (x : P) : Prop :=
  match l with Infinite => True | Inclusive a => le (at_ a) x | Exclusive a => lt (at_ a) x end.
Definition below (u : RangeBound Z) (x : P) : Prop :=
  match u with Infinite => True | Inclusive a => le x (at_ a) | Exclusive a => lt x (at_ a) end.

(** The points of a range. *)
Definition in_range (r : Range_ Z) (x : P) : Prop := match r with None => False | Some (l, u) => above l x /\ below u x end.

Lemma at_le a b : le (at_ a) (at_ b) <-> a <= b.
Proof. rewrite line_le_lt, line_at. lia. Qed.

Lemma le_refl x : le x x.
Proof. apply line_le_lt. intros Hx. assert (le x x) as Hle by (by apply line_lt_le). by apply line_le_lt in Hle. Qed.

Lemma meets_point l u x : above l x -> below u x -> meets l u = true.
Proof.
  destruct l as [|a|a], u as [|b|b]; cbn [above below meets]; try done; intros Ha Hb.
  - apply Z.leb_le, at_le. by eapply line_trans.
  - apply Z.ltb_lt, line_at. by eapply line_le_trans.
  - apply Z.ltb_lt, line_at. by eapply line_lt_trans.
  - apply Z.ltb_lt, line_at. eapply line_lt_trans; [done|]. by apply line_lt_le.
Qed.

(** Bounds that meet have a point between them. *)
Lemma point_meets l u : lower_ok discrete l -> upper_ok discrete u -> meets l u = true -> exists x, above l x /\ below u x.
Proof.
  intros Hl Hu Hm. destruct l as [|a|a], u as [|b|b]; cbn [above below meets] in *.
  - by exists (at_ 0).
  - exists (at_ b). split; [done|apply le_refl].
  - destruct (line_below b) as [x Hx]. by exists x.
  - exists (at_ a). split; [apply le_refl|done].
  - exists (at_ a). split; [apply le_refl|]. apply at_le. lia.
  - exists (at_ a). split; [apply le_refl|]. apply line_at. lia.
  - destruct (line_above a) as [x Hx]. by exists x.
  - exists (at_ b). split; [apply line_at; lia|apply le_refl].
  - destruct discrete eqn:Ed; [by destruct (Hl eq_refl)|]. apply line_between; [done|lia].
Qed.

Lemma above_le l m x : lower_le l m = true -> above m x -> above l x.
Proof.
  destruct l as [|a|a], m as [|b|b]; cbn [above lower_le]; try done; intros Hle Hx.
  - eapply line_trans; [|done]. apply at_le. lia.
  - apply line_lt_le. eapply line_le_trans; [|done]. apply at_le. lia.
  - eapply line_lt_trans; [|done]. apply line_at. lia.
  - eapply line_le_trans; [|done]. apply at_le. lia.
Qed.

Lemma below_le m u x : upper_le m u = true -> below m x -> below u x.
Proof.
  destruct m as [|a|a], u as [|b|b]; cbn [below upper_le]; try done; intros Hle Hx.
  - eapply line_trans; [done|]. apply at_le. lia.
  - eapply line_le_trans; [done|]. apply line_at. lia.
  - apply line_lt_le. eapply line_lt_trans; [done|]. apply at_le. lia.
  - eapply line_lt_trans; [done|]. apply at_le. lia.
Qed.

Lemma lower_le_total l m : lower_le l m = true \/ lower_le m l = true.
Proof. bounds; lia. Qed.
Lemma upper_le_total l m : upper_le l m = true \/ upper_le m l = true.
Proof. bounds; lia. Qed.

Lemma above_max l m x : above (max_lower l m) x <-> above l x /\ above m x.
Proof.
  unfold max_lower. destruct (lower_le l m) eqn:E.
  - split; [|tauto]. intros Hx. split; [by eapply above_le|done].
  - destruct (lower_le_total l m) as [?|E']; [congruence|]. split; [|tauto]. intros Hx. split; [done|by eapply above_le].
Qed.

Lemma below_min m u x : below (min_upper m u) x <-> below m x /\ below u x.
Proof.
  unfold min_upper. destruct (upper_le m u) eqn:E.
  - split; [|tauto]. intros Hx. split; [done|by eapply below_le].
  - destruct (upper_le_total m u) as [?|E']; [congruence|]. split; [|tauto]. intros Hx. split; [by eapply below_le|done].
Qed.

Lemma below_beyond l x : finite l = true -> below (beyond l) x -> ~ above l x.
Proof.
  destruct l as [|a|a]; cbn; [done| |].
  - intros _ Hlt Hle. by apply line_le_lt in Hle.
  - intros _ Hle Hlt. by apply line_le_lt in Hle.
Qed.

Lemma above_beyond u x : finite u = true -> above (beyond u) x -> ~ below u x.
Proof.
  destruct u as [|a|a]; cbn; [done| |].
  - intros _ Hlt Hle. by apply line_le_lt in Hle.
  - intros _ Hle Hlt. by apply line_le_lt in Hle.
Qed.

Lemma ok_max l m : lower_ok discrete l -> lower_ok discrete m -> lower_ok discrete (max_lower l m).
Proof. unfold max_lower. by case_match. Qed.
Lemma ok_min l m : upper_ok discrete l -> upper_ok discrete m -> upper_ok discrete (min_upper l m).
Proof. unfold min_upper. by case_match. Qed.
Lemma ok_beyond_lower l : lower_ok discrete l -> upper_ok discrete (beyond l).
Proof. intros Hl Hd. specialize (Hl Hd). by destruct l. Qed.
Lemma ok_beyond_upper u : upper_ok discrete u -> lower_ok discrete (beyond u).
Proof. intros Hu Hd. specialize (Hu Hd). by destruct u. Qed.

(** ** Ranges *)

(** Two ranges have a point in common when each begins before the other ends. *)
Lemma ranges_intersect l u m w : range_ok discrete (Some (l, u)) -> range_ok discrete (Some (m, w)) ->
  (exists x, in_range (Some (l, u)) x /\ in_range (Some (m, w)) x) <-> meets l w = true /\ meets m u = true.
Proof.
  intros (Hl & Hu & Hlu) (Hm & Hw & Hmw). split.
  - intros (x & [Ha Hb] & [Ha' Hb']). split; by eapply meets_point.
  - intros [H1 H2]. destruct (point_meets (max_lower l m) (min_upper u w)) as (x & Ha & Hb); [by apply ok_max|by apply ok_min| |].
    { by rewrite meets_max_lower, !meets_min_upper, Hlu, H1, H2, Hmw. }
    apply above_max in Ha as []. apply below_min in Hb as []. by exists x.
Qed.

(** One range is within another when it begins no earlier and ends no later. *)
Lemma range_within_range l u m w : range_ok discrete (Some (l, u)) -> lower_ok discrete m -> upper_ok discrete w ->
  (forall x, in_range (Some (l, u)) x -> in_range (Some (m, w)) x) <-> lower_le m l = true /\ upper_le u w = true.
Proof.
  intros (Hl & Hu & Hlu) Hm Hw. split.
  - intros Hsub. split; apply not_false_is_true; intros Hle.
    + assert (finite m = true) as Hf by (by destruct m). destruct (point_meets l (min_upper u (beyond m))) as (x & Ha & Hb); [done|by apply ok_min, ok_beyond_lower| |].
      { by rewrite meets_min_upper, Hlu, meets_beyond_lower, Hle. }
      apply below_min in Hb as [Hb Hb']. apply below_beyond in Hb'; [|done]. by destruct (Hsub x) as [? _].
    + assert (finite w = true) as Hf by (destruct w; [by rewrite upper_le_infinite in Hle|done|done]).
      destruct (point_meets (max_lower l (beyond w)) u) as (x & Ha & Hb); [by apply ok_max, ok_beyond_upper|done| |].
      { by rewrite meets_max_lower, Hlu, meets_beyond_upper, Hle. }
      apply above_max in Ha as [Ha Ha']. apply above_beyond in Ha'; [|done]. by destruct (Hsub x) as [_ ?].
  - intros [H1 H2] x [Ha Hb]. split; [by eapply above_le|by eapply below_le].
Qed.

(** A range that is not empty has a point. *)
Lemma range_inhabited l u : range_ok discrete (Some (l, u)) -> exists x, in_range (Some (l, u)) x.
Proof. intros (Hl & Hu & Hm). by apply point_meets. Qed.

Lemma in_range_at l u a : in_range (Some (l, u)) (at_ a) <-> meets l (Inclusive a) = true /\ meets (Inclusive a) u = true.
Proof.
  assert (forall b, above b (at_ a) <-> meets b (Inclusive a) = true) as Hb by (intros []; cbn; [done|rewrite at_le; lia|rewrite line_at; lia]).
  assert (forall b, below b (at_ a) <-> meets (Inclusive a) b = true) as Hb' by (intros []; cbn; [done|rewrite at_le; lia|rewrite line_at; lia]).
  cbn [in_range]. by rewrite Hb, Hb'.
Qed.

End points.
