(* ===== verification/RangeSem.v ===== *)
(** * What the queries on a range field find

    What tantivy documents of terms and of JSON objects is the class [TermLaws].  An element type
    is given by how its values become terms, the class [Element]. *)

From stdpp Require Import prelude gmap strings.
From Stdlib Require Import ZArith Lia SpecFloat.
From S2P Require Import Prelude Xid Query Scorers ScorersProps QuerySem Terms RangeField RangeOrder.
From stdpp Require Import list.
Import Query Terms RangeField.

Local Open Scope Z_scope.

(** ** Terms in an index *)

(** Values that tantivy keeps as they are and orders as numbers: integers and dates of whole
    seconds. *)
Inductive Kind := Integers | Dates.

Definition kind (v : TermValue) : option Kind :=
  match v with
  | VI64 _ => Some Integers
  | VDate n => if n mod 1000000000 =? 0 then Some Dates else None
  | _ => None
  end.

Definition number (v : TermValue) : Z := match v with VI64 n | VDate n => n | _ => 0 end.

(** Values that are found exactly. *)
Definition exact (v : TermValue) : Prop := match v with VI64 _ | VBool _ => True | _ => False end.

Definition bound_terms (lower upper : Bound Term) : list Term :=
  match lower with Included t | Excluded t => [t] | Unbounded => [] end ++
  match upper with Included t | Excluded t => [t] | Unbounded => [] end.

Definition number_bound (b : Bound Term) : Bound Z :=
  match b with Included t => Included (number (term_value t)) | Excluded t => Excluded (number (term_value t)) | Unbounded => Unbounded end.

(** [values d f p]: the values of document [d] in field [f] at path [p]. *)
Class TermLaws (search_field : string -> option SearchField) (values : Z -> Z -> string -> list TermValue) `{Index TermLeaf} : Prop := {
  tl_tantivy :: TantivyLaws TermLeaf;
  tl_term : forall t d, exact (term_value t) ->
    found (LeafQuery (TermQuery t)) d <-> d ∈ all_docs /\ term_value t ∈ values d (term_field t) (term_path t);
  tl_term_set : forall ts d, Forall (fun t => exact (term_value t)) ts ->
    found (LeafQuery (TermSetQuery ts)) d <-> d ∈ all_docs /\ exists t, t ∈ ts /\ term_value t ∈ values d (term_field t) (term_path t);
  tl_range : forall k f p lower upper d, bound_terms lower upper <> [] ->
    Forall (fun t => term_field t = f /\ term_path t = p /\ kind (term_value t) = Some k) (bound_terms lower upper) ->
    Forall (fun v => kind v = Some k) (values d f p) ->
    found (LeafQuery (RangeQuery lower upper)) d <-> d ∈ all_docs /\
      exists v, v ∈ values d f p /\ contains Z.ltb Z.leb (number_bound lower, number_bound upper) (number v) = true;
  tl_any : forall f d, found (LeafQuery (RegexQuery ".*" f)) d <-> d ∈ all_docs /\ exists p v, v ∈ values d f p;
  tl_exists : forall name sf d, search_field name = Some sf -> is_json_type (sf_field_type sf) = false ->
    found (LeafQuery (ExistsQuery name false)) d <-> d ∈ all_docs /\ exists v, v ∈ values d (sf_field sf) "";
}.

(** The terms of a JSON object at a key; [of_string]: what a string is taken for. *)
Section json.
Variable of_string : string -> TermValue.

Definition json_value (v : OwnedValue) : list TermValue :=
  match v with
  | Bool b => [VBool b]
  | I64 n => [VI64 n]
  | U64 n => [if n <? 2 ^ 63 then VI64 n else VU64 n]
  | F64 x => [VF64 x]
  | Date n => [VDate n]
  | Str s => [of_string s]
  | _ => []
  end.

Fixpoint assoc (key : string) (l : list (string * OwnedValue)) : option OwnedValue :=
  match l with [] => None | (k, v) :: l => if decide (key = k) then Some v else assoc key l end.

Definition json_terms (v : OwnedValue) (key : string) : list TermValue :=
  match v with
  | Object l => match assoc key l with Some w => json_value w | None => [] end
  | _ => []
  end.

End json.

(** ** Booleans of queries *)

Section boolean.
Context {Leaf : Type} `{Index Leaf} `{!TantivyLaws Leaf}.

Lemma found_must (qs : list (TantivyQuery Leaf)) d : qs <> [] -> found (BooleanQuery (pair Must <$> qs)) d <-> Forall (fun q => found q d) qs.
Proof.
  intros Hne. rewrite ti_boolean, Forall_forall. split.
  - intros (Hm & _) q Hq. apply Hm, elem_of_occur. done.
  - intros Hall. split_and!.
    + intros q [_ Hq]%elem_of_occur. by apply Hall.
    + destruct qs as [|q qs]; [done|]. exists Must, q. rewrite elem_of_occur. assert (q ∈ q :: qs) as Hq by by left. split_and!; try done. by apply Hall.
    + by intros q [? _]%elem_of_occur.
Qed.

Lemma found_should (qs : list (TantivyQuery Leaf)) d : found (BooleanQuery (pair Should <$> qs)) d <-> List.Exists (fun q => found q d) qs.
Proof.
  rewrite ti_boolean, List.Exists_exists. split.
  - intros (_ & (o & q & [-> Hq]%elem_of_occur & _ & Hf) & _). exists q. by rewrite <- list_elem_of_In.
  - intros (q & Hq & Hf). apply list_elem_of_In in Hq. split_and!.
    + by intros t [? _]%elem_of_occur.
    + exists Should, q. rewrite elem_of_occur. done.
    + by intros t [? _]%elem_of_occur.
Qed.

Lemma found_must_one (q : TantivyQuery Leaf) d : found (BooleanQuery [(Must, q)]) d <-> found q d.
Proof. rewrite (found_must [q] d) by done. by rewrite Forall_singleton. Qed.
Lemma found_should_one (q : TantivyQuery Leaf) d : found (BooleanQuery [(Should, q)]) d <-> found q d.
Proof. rewrite (found_should [q] d). rewrite Exists_cons, Exists_nil. tauto. Qed.
Lemma found_none d : ~ found (BooleanQuery (Leaf := Leaf) []) d.
Proof. rewrite (found_should [] d). by intros ?%Exists_nil. Qed.
Lemma found_two (a b : TantivyQuery Leaf) d : found (BooleanQuery [(Must, a); (Must, b)]) d <-> found a d /\ found b d.
Proof. rewrite (found_must [a; b] d) by done. by rewrite Forall_cons, Forall_singleton. Qed.
Lemma found_three (a b c : TantivyQuery Leaf) d : found (BooleanQuery [(Must, a); (Must, b); (Must, c)]) d <-> found a d /\ found b d /\ found c d.
Proof. rewrite (found_must [a; b; c] d) by done. rewrite !Forall_cons, Forall_nil. tauto. Qed.
Lemma found_or (a b : TantivyQuery Leaf) d : found (BooleanQuery [(Should, a); (Should, b)]) d <-> found a d \/ found b d.
Proof. rewrite (found_should [a; b] d). rewrite !Exists_cons, Exists_nil. tauto. Qed.

End boolean.

Create HintDb found discriminated.
#[export] Hint Rewrite @found_must_one @found_should_one @found_two @found_three @found_or using done : found.

(** ** Elements *)

Section element.
Variables (root : string -> string) (path : string -> option string) (search_field : string -> option SearchField).
Variables (parse_rfc3339 : string -> option Z) (pg_micros : PgOid -> string -> option Z) (truncate : Z -> Z).

(** The elements of ranges of type [typeoid] are the numbers that are [ok].  [value n] is what a
    query has for [n], [value' n] what it has after its bounds were checked, [V n] the term. *)
Class Element (typeoid : PgOid) (dt discrete : bool) (k : Kind) (value value' : Z -> OwnedValue) (V : Z -> TermValue) (ok : Z -> Prop) : Prop := {
  el_zero : ok 0;
  el_lower : forall n, ok n -> yields (check_lower_bound pg_micros typeoid (Included (value n))) (Included (value' n));
  el_upper : forall n, ok n -> yields (check_upper_bound pg_micros typeoid (Excluded (value n))) (Excluded (value' n));
  el_lower' : discrete = false -> forall n, ok n -> yields (check_lower_bound pg_micros typeoid (Excluded (value n))) (Excluded (value' n));
  el_upper' : discrete = false -> forall n, ok n -> yields (check_upper_bound pg_micros typeoid (Included (value n))) (Included (value' n));
  el_eqb : forall n m, ok n -> ok m -> owned_eqb (value' n) (value' m) = (n =? m);
  el_term : forall n, ok n -> forall f key, yields (value_to_json_term parse_rfc3339 truncate f (value n) (Some key) false dt) (mkTerm f key false (V n));
  el_term' : forall n, ok n -> forall f key, yields (value_to_json_term parse_rfc3339 truncate f (value' n) (Some key) false dt) (mkTerm f key false (V n));
  el_kind : forall n, ok n -> kind (V n) = Some k;
  el_number : forall n, ok n -> number (V n) = n;
}.

Definition bound_elem (ok : Z -> Prop) (b : RangeBound Z) : Prop := match b with Infinite => True | Inclusive n | Exclusive n => ok n end.
Definition range_elem (ok : Z -> Prop) (r : Range_ Z) : Prop := match r with None => True | Some (l, u) => bound_elem ok l /\ bound_elem ok u end.

(** The terms that are indexed for a range. *)
Definition bound_term (V : Z -> TermValue) (b : RangeBound Z) : list TermValue := match b with Infinite => [] | Inclusive n | Exclusive n => [V n] end.

Definition range_terms (V : Z -> TermValue) (r : Range_ Z) (key : string) : list TermValue :=
  let flag (none : bool) (f : RangeBound Z -> RangeBound Z -> bool) := [VBool match r with None => none | Some (l, u) => f l u end] in
  if decide (key = LOWER_KEY) then match r with None => [] | Some (l, _) => bound_term V l end
  else if decide (key = UPPER_KEY) then match r with None => [] | Some (_, u) => bound_term V u end
  else if decide (key = EMPTY_KEY) then flag true (fun _ _ => false)
  else if decide (key = LOWER_INCLUSIVE_KEY) then flag true (fun l _ => is_inclusive l)
  else if decide (key = UPPER_INCLUSIVE_KEY) then flag false (fun _ u => is_inclusive u)
  else if decide (key = LOWER_UNBOUNDED_KEY) then flag false (fun l _ => is_infinite l)
  else if decide (key = UPPER_UNBOUNDED_KEY) then flag false (fun _ u => is_infinite u)
  else [].

(** They are those of the object that [from_range] makes. *)
Lemma from_range_terms {S E} (try_from : Z -> option S) json of_string V ok r :
  (forall n, ok n -> exists s, try_from n = Some s /\ json_value of_string (json s) = [V n]) -> range_elem ok r ->
  exists v, yields (E := E) (from_range try_from json r) v /\ forall key, json_terms of_string v key = range_terms V r key.
Proof.
  intros Hv Hr.
  assert (forall b, bound_elem ok b -> exists o, yields (E := E) (bound_value try_from b) o /\
    json_value of_string (match o with Some s => json s | None => Null end) = bound_term V b) as Hb.
  { intros [|n|n] Hn; cbn [bound_elem bound_value bound_term] in *; [by exists None|..];
      destruct (Hv n Hn) as (s & Hs & Hj); exists (Some s); rewrite Hs; done. }
  destruct r as [[l u]|].
  - destruct Hr as [Hl Hu]. destruct (Hb l Hl) as (o & Ho & Hjo). destruct (Hb u Hu) as (p & Hp & Hjp).
    eexists. split; [by eapply yields_bind, yields_bind|]. intros key. unfold range_terms, LOWER_KEY, UPPER_KEY, EMPTY_KEY, LOWER_INCLUSIVE_KEY, UPPER_INCLUSIVE_KEY, LOWER_UNBOUNDED_KEY, UPPER_UNBOUNDED_KEY. cbn [json_terms to_value assoc].
    case_decide; [exact Hjo|]. case_decide; [exact Hjp|]. by repeat case_decide.
  - eexists. split; [done|]. intros key. unfold range_terms, LOWER_KEY, UPPER_KEY, EMPTY_KEY, LOWER_INCLUSIVE_KEY, UPPER_INCLUSIVE_KEY, LOWER_UNBOUNDED_KEY, UPPER_UNBOUNDED_KEY. cbn [json_terms to_value assoc]. by repeat case_decide.
Qed.

End element.

(** * A small index of terms

    The index of [QuerySem] with the values of documents as a function.  It keeps [TermLaws],
    and together with an index of its queries [Boxed], so these can hold. *)

Import Scorers.

#[global] Instance spec_float_eq_dec : EqDecision spec_float.
Proof. solve_decision. Defined.
#[global] Instance TermValue_eq_dec : EqDecision TermValue.
Proof. solve_decision. Defined.

Module TermIndex.

Section index.
Variables (docs : list Z) (search_field : string -> option SearchField) (values : Z -> Z -> string -> list TermValue).
(** The paths that have values. *)
Variable paths : list string.

Definition leaf (l : TermLeaf) (d : Z) : bool :=
  match l with
  | TermQuery t => bool_decide (term_value t ∈ values d (term_field t) (term_path t))
  | TermSetQuery ts => existsb (fun t => bool_decide (term_value t ∈ values d (term_field t) (term_path t))) ts
  | RangeQuery lower upper =>
      match bound_terms lower upper with
      | [] => false
      | t :: _ => existsb (fun v => contains Z.ltb Z.leb (number_bound lower, number_bound upper) (number v)) (values d (term_field t) (term_path t))
      end
  | RegexQuery _ f => existsb (fun p => negb (is_nil (values d f p))) paths
  | ExistsQuery name _ => match search_field name with Some sf => negb (is_nil (values d (sf_field sf) "")) | None => false end
  end.

Definition term_index : Index TermLeaf := SmallIndex.small_index leaf docs (fun _ => Some true).
Definition query_index : Index (TantivyQuery TermLeaf) := SmallIndex.small_index (SmallIndex.holds leaf (fun _ => Some true)) docs (fun _ => Some true).

#[local] Existing Instances term_index query_index.

Lemma found_leaf l d : found (LeafQuery l) d <-> d ∈ docs /\ leaf l d = true.
Proof. exact (SmallIndex.found_holds leaf docs (fun _ => Some true) (LeafQuery l) d). Qed.

Lemma not_is_nil {A} (l : list A) : negb (is_nil l) = true <-> exists v, v ∈ l.
Proof.
  destruct l as [|v l]; cbn; split; [done|intros (v & Hv); by apply not_elem_of_nil in Hv|intros _; exists v; by left|done].
Qed.

Hypothesis docs_ok : TERMINATED ∉ docs.
Hypothesis paths_ok : forall d f p v, v ∈ values d f p -> p ∈ paths.

Lemma term_laws : TermLaws search_field values.
Proof.
  split; cbn [all_docs term_index].
  - by apply SmallIndex.small_laws.
  - intros t d _. by rewrite found_leaf; cbn [leaf]; rewrite bool_decide_eq_true.
  - intros ts d _. rewrite found_leaf. cbn [leaf]. rewrite existsb_exists. setoid_rewrite <- list_elem_of_In. by setoid_rewrite bool_decide_eq_true.
  - intros k f p lower upper d Hne Hb _. rewrite found_leaf. cbn [leaf]. destruct (bound_terms lower upper) as [|t ts]; [done|].
    apply Forall_cons in Hb as [(-> & -> & _) _]. rewrite existsb_exists. by setoid_rewrite <- list_elem_of_In.
  - intros f d. rewrite found_leaf. cbn [leaf]. rewrite existsb_exists. setoid_rewrite <- list_elem_of_In. setoid_rewrite not_is_nil. split.
    + intros (Hd & p & _ & v & Hv). split; [done|]. by exists p, v.
    + intros (Hd & p & v & Hv). split; [done|]. exists p. split; [by eapply paths_ok|by exists v].
  - intros name sf d Hf _. rewrite found_leaf. cbn [leaf]. by rewrite Hf, not_is_nil.
Qed.

Lemma query_laws : TantivyLaws (TantivyQuery TermLeaf).
Proof. by apply SmallIndex.small_laws. Qed.

End index.

End TermIndex.
