(* ===== verification/RangeQueries.v ===== *)
(** * Searching for ranges

    Each query of [RangeField] finds the documents whose range has the relation it is named
    after, for every type of elements.  The SQL function [range_term] finds the ranges that
    intersect, contain or are within the range it is given, and those that contain a value: for
    ranges of integers, and for ranges of dates and of timestamps. *)

From stdpp Require Import prelude gmap strings.
From Stdlib Require Import ZArith Lia SpecFloat QArith.
From S2P Require Import Prelude Xid Query Scorers ScorersProps QuerySem Terms RangeField RangeOrder RangeSem.
From stdpp Require Import list.
Import Query Terms RangeField.

Local Open Scope Z_scope.

(** ** Composing queries *)

Section compose.
Context {E : Type} `{Index TermLeaf} `{!TantivyLaws TermLeaf} (d : Z).
Abbreviation Tq := (TantivyQuery TermLeaf).

(** The computation makes a query, or the clauses of one, that finds [d] exactly if [φ]. *)
Definition decides (c : M unit QueryError Tq) (φ : Prop) : Prop := exists t, yields c t /\ (found t d <-> φ).
Definition decides_all (c : M unit QueryError (list (Occur * Tq))) (φ : Prop) : Prop := exists l, yields c l /\ (found (BooleanQuery l) d <-> φ).

Lemma decides_ret t φ : (found t d <-> φ) -> decides (mret t) φ.
Proof. intros Ht. by exists t. Qed.

Lemma decides_iff c φ ψ : decides c φ -> (φ <-> ψ) -> decides c ψ.
Proof. intros (t & Hy & Ht) Hi. exists t. by rewrite Ht. Qed.

Lemma decides_bind c f φ ψ : decides c φ -> (forall t, (found t d <-> φ) -> decides (f t) ψ) -> decides (c ≫= f) ψ.
Proof. intros (t & Hy & Ht) Hf. destruct (Hf t Ht) as (t' & Hy' & Ht'). exists t'. split; [by eapply yields_bind|done]. Qed.

Lemma decides_bind_all c f φ ψ : decides_all c φ -> (forall l, (found (BooleanQuery l) d <-> φ) -> decides (f l) ψ) -> decides (c ≫= f) ψ.
Proof. intros (t & Hy & Ht) Hf. destruct (Hf t Ht) as (t' & Hy' & Ht'). exists t'. split; [by eapply yields_bind|done]. Qed.

Lemma decides_yields {A} (c : M unit QueryError A) a f φ : yields c a -> decides (f a) φ -> decides (c ≫= f) φ.
Proof. intros Hy (t & Hy' & Ht). exists t. split; [by eapply yields_bind|done]. Qed.

Lemma decides_only c φ : decides c φ -> decides (only c) φ.
Proof. intros Hc. eapply decides_bind; [done|]. intros t Ht. apply decides_ret. unfold all_of. cbn [fmap list_fmap]. by rewrite found_must_one. Qed.

Lemma decides_either a b c e α β γ δ : decides a α -> decides b β -> decides c γ -> decides e δ -> decides (either a b c e) ((α /\ β) \/ (γ /\ δ)).
Proof.
  intros Ha Hb Hc He. unfold either. eapply decides_bind; [done|]. intros ta Ta. eapply decides_bind; [done|]. intros tb Tb.
  eapply decides_bind; [done|]. intros tc Tc. eapply decides_bind; [done|]. intros te Te. apply decides_ret.
  unfold one_of, all_of. cbn [fmap list_fmap]. by rewrite found_or, !found_two, Ta, Tb, Tc, Te.
Qed.

Lemma decides_must c φ : decides c φ -> decides_all (must c) φ.
Proof. intros (t & Hy & Ht). exists [(Must, t)]. split; [by eapply yields_bind|]. by rewrite found_must_one. Qed.

Lemma decides_should c φ : decides c φ -> decides_all (should c) φ.
Proof. intros (t & Hy & Ht). exists [(Should, t)]. split; [by eapply yields_bind|]. by rewrite found_should_one. Qed.

Lemma decides_all_iff c φ ψ : decides_all c φ -> (φ <-> ψ) -> decides_all c ψ.
Proof. intros (t & Hy & Ht) Hi. exists t. by rewrite Ht. Qed.

Lemma decides_nil : decides_all (mret []) False.
Proof. exists []. split; [done|]. split; [|done]. apply found_none. Qed.

Lemma decides_or c l φ ψ : decides c φ -> (found (BooleanQuery l) d <-> ψ) -> decides (or_satisfies c l) (φ \/ ψ).
Proof.
  intros Hc Hl. unfold or_satisfies. eapply decides_bind; [done|]. intros t Ht. apply decides_ret.
  unfold one_of. cbn [fmap list_fmap]. by rewrite found_or, Ht, Hl.
Qed.

End compose.

(** ** The keys of a range *)

Definition compares (c : Comparison) (n m : Z) : bool :=
  match c with LessThan => n <? m | LessThanOrEqual => n <=? m | GreaterThan => m <? n | GreaterThanOrEqual => m <=? n end.

(** A bound, if there is one, compares so with [n]. *)
Definition bound_compares (c : Comparison) (n : Z) (b : RangeBound Z) : bool :=
  match b with Infinite => false | Inclusive m | Exclusive m => compares c n m end.

Section relations.
Variables (root : string -> string) (path : string -> option string) (search_field : string -> option SearchField).
Variables (parse_rfc3339 : string -> option Z) (pg_micros : PgOid -> string -> option Z) (truncate : Z -> Z).
Variable values : Z -> Z -> string -> list TermValue.
Context `{Index TermLeaf} `{!TermLaws search_field values}.
Context {typeoid : PgOid} {dt discrete : bool} {k : Kind} {value value' : Z -> OwnedValue} {V : Z -> TermValue} {ok : Z -> Prop}.
Context `{!Element parse_rfc3339 pg_micros truncate typeoid dt discrete k value value' V ok}.

Lemma number_V n : ok n -> number (V n) = n.
Proof. by eapply el_number. Qed.
Lemma kind_V n : ok n -> kind (V n) = Some k.
Proof. by eapply el_kind. Qed.

Lemma eqb_value n m : ok n -> ok m -> owned_eqb (value' n) (value' m) = (n =? m).
Proof. by eapply el_eqb. Qed.

Variables (d f : Z) (r : Range_ Z).
Hypothesis in_index : d ∈ all_docs.
Hypothesis has_range : forall key, values d f key = range_terms V r key.
Hypothesis range_elems : range_elem ok r.

Abbreviation rf := (mkRangeField f dt).
Abbreviation as_term := (as_range_term parse_rfc3339 truncate).
Abbreviation cmp_bound := (compare_bound parse_rfc3339 truncate).
Abbreviation flag := (bool_key parse_rfc3339 truncate).

Lemma decides_flag key b : decides d (flag rf key b) (VBool b ∈ range_terms V r key).
Proof.
  eexists. split; [done|]. rewrite tl_term by done. cbn [term_value term_field term_path default]. rewrite has_range. naive_solver.
Qed.

Lemma decides_exists : decides d (exists_range rf) True.
Proof.
  eexists. split; [done|]. rewrite tl_any. split; [done|]. intros _. split; [done|]. exists EMPTY_KEY.
  rewrite has_range. eexists. by left.
Qed.

Lemma decides_compare key v n c : ok n -> (key = LOWER_KEY \/ key = UPPER_KEY) ->
  yields (as_term rf v (Some key)) (mkTerm f key false (V n)) ->
  decides d (cmp_bound rf key v c)
    match r with None => False | Some (l, u) => bound_compares c n (if decide (key = LOWER_KEY) then l else u) = true end.
Proof.
  intros Hn Hkey Hv. eexists. split; [by eapply yields_bind|].
  assert (forall b, bound_elem ok b -> Forall (fun v => kind v = Some k) (bound_term V b) /\
    ((exists v, v ∈ bound_term V b /\ compares c n (number v) = true) <-> bound_compares c n b = true)) as Hb.
  { intros [|m|m] Hm; cbn [bound_elem bound_term bound_compares] in *.
    - split; [done|]. split; [|done]. intros (v' & Hv' & _). by apply not_elem_of_nil in Hv'.
    - split; [rewrite Forall_singleton; by eapply el_kind|]. split.
      + intros (? & ->%list_elem_of_singleton & Hc). by rewrite number_V in Hc by done.
      + intros Hc. exists (V m). by rewrite list_elem_of_singleton, number_V by done.
    - split; [rewrite Forall_singleton; by eapply el_kind|]. split.
      + intros (? & ->%list_elem_of_singleton & Hc). by rewrite number_V in Hc by done.
      + intros Hc. exists (V m). by rewrite list_elem_of_singleton, number_V by done. }
  assert (Forall (fun v => kind v = Some k) (values d f key) /\ ((exists v, v ∈ values d f key /\ compares c n (number v) = true) <->
    match r with None => False | Some (l, u) => bound_compares c n (if decide (key = LOWER_KEY) then l else u) = true end)) as [Hk <-].
  { rewrite has_range. destruct r as [[l u]|].
    - destruct range_elems as [Hl Hu]. destruct Hkey as [-> | ->]; by apply Hb.
    - destruct Hkey as [-> | ->]; (split; [done|]; split; [|done]); intros (v' & Hv' & _); by apply not_elem_of_nil in Hv'. }
  destruct c; (rewrite (tl_range k f key); [|done| |done]);
    try (cbn [bound_terms app]; rewrite Forall_singleton; cbn [term_field term_path term_value]; split_and!; try done; by apply kind_V);
    (split; [intros (_ & v' & Hv' & Hc)|intros (v' & Hv' & Hc); split; [done|]]); exists v'; (split; [done|]); revert Hc;
    unfold contains; cbn [fst snd number_bound compares term_value]; rewrite (number_V n Hn), ?andb_true_r; done.
Qed.

(** What the five flags are. *)
Definition flag_of (key : string) : bool :=
  match r with
  | None => bool_decide (key = EMPTY_KEY \/ key = LOWER_INCLUSIVE_KEY)
  | Some (l, u) =>
      if decide (key = LOWER_INCLUSIVE_KEY) then is_inclusive l else if decide (key = UPPER_INCLUSIVE_KEY) then is_inclusive u
      else if decide (key = LOWER_UNBOUNDED_KEY) then is_infinite l else if decide (key = UPPER_UNBOUNDED_KEY) then is_infinite u
      else false
  end.

Lemma flag_empty : flag_of EMPTY_KEY = match r with None => true | Some _ => false end.
Proof. unfold flag_of. by destruct r as [[]|]. Qed.
Lemma flag_lower_inclusive : flag_of LOWER_INCLUSIVE_KEY = match r with None => true | Some (l, _) => is_inclusive l end.
Proof. unfold flag_of. by destruct r as [[]|]. Qed.
Lemma flag_upper_inclusive : flag_of UPPER_INCLUSIVE_KEY = match r with None => false | Some (_, u) => is_inclusive u end.
Proof. unfold flag_of. by destruct r as [[]|]. Qed.
Lemma flag_lower_unbounded : flag_of LOWER_UNBOUNDED_KEY = match r with None => false | Some (l, _) => is_infinite l end.
Proof. unfold flag_of. by destruct r as [[]|]. Qed.
Lemma flag_upper_unbounded : flag_of UPPER_UNBOUNDED_KEY = match r with None => false | Some (_, u) => is_infinite u end.
Proof. unfold flag_of. by destruct r as [[]|]. Qed.

Definition flag_keys : list string := [EMPTY_KEY; LOWER_INCLUSIVE_KEY; UPPER_INCLUSIVE_KEY; LOWER_UNBOUNDED_KEY; UPPER_UNBOUNDED_KEY].

Lemma decides_key key b : key ∈ flag_keys -> decides d (flag rf key b) (flag_of key = b).
Proof.
  intros Hk. eapply decides_iff; [apply decides_flag|]. assert (range_terms V r key = [VBool (flag_of key)]) as ->.
  { repeat (apply elem_of_cons in Hk as [->|Hk]; [unfold flag_of; by destruct r as [[]|]|]). by apply not_elem_of_nil in Hk. }
  rewrite list_elem_of_singleton. naive_solver.
Qed.

(** The bounds of a query, checked. *)
Lemma check_bounds l u : bound_elem ok l -> bound_elem ok u -> lower_ok discrete l -> upper_ok discrete u ->
  yields (check_range_bounds pg_micros typeoid (bound_of value l) (bound_of value u)) (bound_of value' l, bound_of value' u).
Proof.
  intros Hl Hu Ol Ou. eapply yields_bind; [|eapply yields_bind; [|done]].
  - destruct l as [|n|n]; cbn [bound_of bound_elem] in *; [done|by eapply el_lower|]. destruct discrete eqn:Ed; [by destruct (Ol eq_refl)|by eapply el_lower'].
  - destruct u as [|n|n]; cbn [bound_of bound_elem] in *; [done| |by eapply el_upper]. destruct discrete eqn:Ed; [by destruct (Ou eq_refl)|by eapply el_upper'].
Qed.

Lemma decides_lower n c : ok n -> decides d (compare_lower_bound parse_rfc3339 truncate rf (value' n) c)
  match r with None => False | Some (l, u) => bound_compares c n l = true end.
Proof. intros Hn. apply (decides_compare LOWER_KEY); [done|by left|]. by eapply el_term'. Qed.

Lemma decides_upper n c : ok n -> decides d (compare_upper_bound parse_rfc3339 truncate rf (value' n) c)
  match r with None => False | Some (l, u) => bound_compares c n u = true end.
Proof. intros Hn. apply (decides_compare UPPER_KEY); [done|by right|]. by eapply el_term'. Qed.

(** ** Queries *)

Variables (field : string) (sf : SearchField).
Hypothesis field_found : search_field (root field) = Some sf.
Hypothesis field_is : sf_field sf = f /\ sf_typeoid sf = typeoid /\ is_datetime sf = false.

Abbreviation within_q := (range_within root search_field parse_rfc3339 pg_micros truncate field).
Abbreviation intersects_q := (range_intersects root search_field parse_rfc3339 pg_micros truncate field).
Abbreviation contains_q := (range_contains root search_field parse_rfc3339 pg_micros truncate field).
Abbreviation term_q := (range_term root search_field parse_rfc3339 truncate field).

Lemma not_empty_range l u : bound_elem ok l -> bound_elem ok u -> meets l u = true -> is_empty_range (bound_of value' l) (bound_of value' u) = false.
Proof.
  intros Hl Hu Hm. destruct l as [|n|n], u as [|m|m]; cbn [bound_of is_empty_range bound_elem] in *; try done.
  rewrite eqb_value by done. cbn [meets] in Hm. lia.
Qed.

(** What a query does before it makes its clauses. *)
Lemma decides_start l u (c : SearchField -> Bound OwnedValue * Bound OwnedValue -> M unit QueryError (TantivyQuery TermLeaf)) φ :
  bound_elem ok l -> bound_elem ok u -> lower_ok discrete l -> upper_ok discrete u ->
  decides d (c sf (bound_of value' l, bound_of value' u)) φ ->
  decides d (x ← ok_or (search_field (root field)) (NonIndexedField field);
             bounds ← check_range_bounds pg_micros (sf_typeoid x) (bound_of value l) (bound_of value u); c x bounds) φ.
Proof.
  intros Hl Hu Ol Ou Hc. rewrite field_found. eapply decides_yields; [done|]. destruct field_is as (_ & -> & _).
  eapply decides_yields; [by apply check_bounds|done].
Qed.

(** The clauses that a bound of the query contributes. *)
Lemma decides_bound b (inc exc : OwnedValue -> M unit QueryError (list (Occur * TantivyQuery TermLeaf))) none φ : bound_elem ok b ->
  (forall n, ok n -> b = Inclusive n -> decides_all d (inc (value' n)) φ) ->
  (forall n, ok n -> b = Exclusive n -> decides_all d (exc (value' n)) φ) ->
  (b = Infinite -> decides_all d none φ) ->
  decides_all d (match bound_of value' b with Included v => inc v | Excluded v => exc v | Unbounded => none end) φ.
Proof. intros Hb Hi He Hn. destruct b; cbn [bound_of bound_elem] in *; [by apply Hn|by apply Hi|by apply He]. Qed.

(** Reduces a query on the keys of the range to a comparison of bounds. *)
Ltac decide_keys :=
  first [apply decides_only; decide_keys | apply decides_either; decide_keys | by apply decides_lower | by apply decides_upper
        | apply decides_key; repeat (try (by left); right) | apply decides_exists].
Ltac decide_clauses := first [apply decides_must; decide_keys | apply decides_should; decide_keys | apply decides_nil].
Ltac compare_bounds :=
  rewrite ?flag_empty, ?flag_lower_inclusive, ?flag_upper_inclusive, ?flag_lower_unbounded, ?flag_upper_unbounded;
  destruct r as [[]|]; bounds; cbn [is_inclusive is_infinite bound_compares compares andb]; first [lia | tauto | naive_solver lia].
Ltac decide_bound :=
  apply decides_bound; [done|..]; [intros n Hn ->|intros n Hn ->|intros ->]; (eapply decides_all_iff; [decide_clauses|compare_bounds]).

Lemma decides_within l u : bound_elem ok l -> bound_elem ok u -> lower_ok discrete l -> upper_ok discrete u ->
  decides d (within_q (bound_of value l) (bound_of value u) dt)
    (if is_empty_range (bound_of value' l) (bound_of value' u) then True else match r with None => False | Some (m, w) => lower_le m l = true /\ upper_le u w = true end).
Proof.
  intros Hl Hu Ol Ou. unfold range_within. apply decides_start; [done..|]. destruct field_is as (-> & _ & ->). cbn [orb fst snd].
  apply (decides_bind_all d _ _ match r with None => False | Some (m, _) => finite m && finite l && lower_le m l = true end).
  { decide_bound. }
  intros lc Hlc. apply (decides_bind_all d _ _ match r with None => False | Some (_, w) => finite w && finite u && upper_le u w = true end).
  { decide_bound. }
  intros uc Huc. eapply decides_bind; [apply decides_or; [decide_keys|exact Hlc]|]. intros t Ht.
  eapply decides_bind; [apply decides_or; [decide_keys|exact Huc]|]. intros t' Ht'.
  destruct (is_empty_range _ _); [apply decides_exists|]. apply decides_ret. unfold all_of. cbn [fmap list_fmap]. rewrite found_two, Ht, Ht'. clear Hlc Huc Ht Ht'.
  compare_bounds.
Qed.

Lemma decides_intersects l u : bound_elem ok l -> bound_elem ok u -> lower_ok discrete l -> upper_ok discrete u ->
  decides d (intersects_q (bound_of value l) (bound_of value u) dt)
    (if is_empty_range (bound_of value' l) (bound_of value' u) then False else match r with None => False | Some (m, w) => meets l w = true /\ meets m u = true end).
Proof.
  intros Hl Hu Ol Ou. unfold range_intersects. apply decides_start; [done..|]. destruct field_is as (-> & _ & ->). cbn [orb fst snd].
  apply (decides_bind_all d _ _ match r with None => finite l = false | Some (_, w) => (finite l && finite w || negb (finite l)) && meets l w = true end).
  { decide_bound. }
  intros lc Hlc. apply (decides_bind_all d _ _ match r with None => finite u = false | Some (m, _) => (finite m && finite u || negb (finite u)) && meets m u = true end).
  { decide_bound. }
  intros uc Huc. eapply decides_bind; [apply decides_or; [decide_keys|exact Hlc]|]. intros t Ht.
  eapply decides_bind; [apply decides_or; [decide_keys|exact Huc]|]. intros t' Ht'.
  destruct (is_empty_range _ _); [apply decides_ret; split; [apply ti_empty|done]|]. eapply decides_bind; [decide_keys|]. intros t'' Ht''.
  apply decides_ret. unfold all_of. cbn [fmap list_fmap]. rewrite found_three, Ht, Ht', Ht''. clear Hlc Huc Ht Ht' Ht''.
  compare_bounds.
Qed.

Lemma decides_contains l u : bound_elem ok l -> bound_elem ok u -> lower_ok discrete l -> upper_ok discrete u ->
  decides d (contains_q (bound_of value l) (bound_of value u) dt)
    match r with None => True | Some (m, w) => lower_le l m = true /\ upper_le w u = true end.
Proof.
  intros Hl Hu Ol Ou. unfold range_contains. apply decides_start; [done..|]. destruct field_is as (-> & _ & ->). cbn [orb fst snd].
  apply (decides_bind_all d _ _ match r with None => finite l = false | Some (m, _) => lower_le l m = true end).
  { decide_bound. }
  intros lc Hlc. apply (decides_bind_all d _ _ match r with None => finite u = false | Some (_, w) => upper_le w u = true end).
  { decide_bound. }
  intros uc Huc. eapply decides_bind; [apply decides_or; [decide_keys|exact Hlc]|]. intros t Ht.
  eapply decides_bind; [apply decides_or; [decide_keys|exact Huc]|]. intros t' Ht'.
  apply decides_ret. unfold all_of. cbn [fmap list_fmap]. rewrite found_two, Ht, Ht'. clear Hlc Huc Ht Ht'.
  compare_bounds.
Qed.

Lemma decides_lower_value n c : ok n -> decides d (compare_lower_bound parse_rfc3339 truncate rf (value n) c)
  match r with None => False | Some (l, u) => bound_compares c n l = true end.
Proof. intros Hn. apply (decides_compare LOWER_KEY); [done|by left|]. by eapply el_term. Qed.

Lemma decides_upper_value n c : ok n -> decides d (compare_upper_bound parse_rfc3339 truncate rf (value n) c)
  match r with None => False | Some (l, u) => bound_compares c n u = true end.
Proof. intros Hn. apply (decides_compare UPPER_KEY); [done|by right|]. by eapply el_term. Qed.

Lemma decides_term n : ok n ->
  decides d (term_q (value n) dt) match r with None => False | Some (m, w) => meets m (Inclusive n) = true /\ meets (Inclusive n) w = true end.
Proof.
  intros Hn. unfold range_term. rewrite field_found. eapply decides_yields; [done|]. destruct field_is as (-> & _ & _).
  eapply decides_bind; [decide_keys|]. intros t Ht.
  eapply decides_bind; [apply decides_either; first [by apply decides_lower_value|decide_keys]|]. intros t1 Ht1.
  eapply decides_bind; [decide_keys|]. intros t2 Ht2.
  eapply decides_bind; [apply decides_either; first [by apply decides_upper_value|decide_keys]|]. intros t3 Ht3.
  apply decides_ret. unfold all_of, one_of. cbn [fmap list_fmap]. rewrite found_two, !found_or, Ht, Ht1, Ht2, Ht3. clear Ht Ht1 Ht2 Ht3.
  compare_bounds.
Qed.

(** ** Relations of sets of points *)

Context {P : Type} {le lt : P -> P -> Prop} {at_ : Z -> P} `{!Line discrete P le lt at_}.

Abbreviation has := (in_range (le := le) (lt := lt) (at_ := at_)).

Definition related (rel : RangeRelation) (q : Range_ Z) : Prop :=
  match rel with
  | Intersects => exists x, has q x /\ has r x
  | Contains => forall x, has r x -> has q x
  | Within => forall x, has q x -> has r x
  end.

Hypothesis range_is_ok : range_ok discrete r.

Lemma empty_query : is_empty_range (bound_of value' (Inclusive 0)) (bound_of value' (Exclusive 0)) = true.
Proof. cbn [bound_of is_empty_range]. rewrite eqb_value by (by eapply el_zero). done. Qed.

Lemma zero_elem : bound_elem ok (Inclusive 0) /\ bound_elem ok (Exclusive 0) /\ lower_ok discrete (Inclusive 0) /\ upper_ok discrete (Exclusive 0).
Proof. split_and!; try done; by eapply el_zero. Qed.

Lemma no_points l u : range_ok discrete (Some (l, u)) -> ~ (forall x, has (Some (l, u)) x -> False).
Proof. intros Hok Hall. destruct (range_inhabited l u Hok) as [x Hx]. by apply (Hall x). Qed.

Lemma decides_relation q rel : range_elem ok q -> range_ok discrete q ->
  decides d (fielded root path search_field parse_rfc3339 pg_micros truncate field (Other (range_term_range_fn value dt (value 0) q rel))) (related rel q).
Proof.
  intros Hq Hok. destruct zero_elem as (Z1 & Z2 & Z3 & Z4). destruct q as [[l u]|].
  - destruct Hq as [Hl Hu]. pose proof Hok as (Ol & Ou & Hm). pose proof (not_empty_range l u Hl Hu Hm) as He. destruct rel; cbn [range_term_range_fn fielded related].
    + eapply decides_iff; [by apply decides_intersects|]. rewrite He. destruct r as [[m w]|]; [by rewrite ranges_intersect|]. split; [done|by intros (? & _ & ?)].
    + eapply decides_iff; [by apply decides_contains|]. destruct r as [[m w]|]; [by rewrite range_within_range|]. done.
    + eapply decides_iff; [by apply decides_within|]. rewrite He. destruct r as [[m w]|].
      * destruct range_is_ok as (? & ? & _). by rewrite range_within_range.
      * split; [done|]. by apply no_points.
  - destruct rel; cbn [range_term_range_fn fielded related].
    + eapply decides_iff; [by apply (decides_intersects (Inclusive 0) (Exclusive 0))|]. rewrite empty_query. split; [done|by intros (? & ? & _)].
    + eapply decides_iff; [by apply (decides_contains (Inclusive 0) (Exclusive 0))|]. destruct r as [[m w]|]; [|done]. split.
      * intros [H1 H2]. exfalso. destruct range_is_ok as (_ & _ & Hm). bounds; lia.
      * intros Hall. by apply no_points in Hall.
    + eapply decides_iff; [by apply (decides_within (Inclusive 0) (Exclusive 0))|]. by rewrite empty_query.
Qed.

Lemma decides_element n : ok n ->
  decides d (fielded root path search_field parse_rfc3339 pg_micros truncate field (Other (range_term_fn value dt n))) (has r (at_ n)).
Proof.
  intros Hn. eapply decides_iff; [by apply decides_term|]. destruct r as [[m w]|]; [by rewrite in_range_at|done].
Qed.

End relations.

(** * Searches on fields of integers and of times *)

Definition i64_ok (n : Z) : Prop := i64_MIN <= n <= i64_MAX.

Lemma i64_small n : i64_ok n -> i64 n = n.
Proof.
  unfold i64_ok, i64_MIN, i64_MAX, i64, wrap. intros Hn. destruct (Z.leb_spec 0 n).
  - rewrite Z.mod_small by lia. case_match; lia.
  - rewrite <- (Z.mod_add n 1) by lia. rewrite Z.mod_small by lia. case_match; lia.
Qed.

(** ** Integers *)

(** [v] is the number [n]; when a query is stored and read again [I64 n] becomes [U64 n] unless
    [n] is negative. *)
Definition stands (v : OwnedValue) (n : Z) : Prop := v = I64 n \/ (0 <= n /\ v = U64 n).

Lemma stands_json v n f key parse truncate dt : i64_ok n -> stands v n ->
  yields (value_to_json_term parse truncate f v (Some key) false dt) (mkTerm f key false (VI64 n)).
Proof. intros Hn [-> | [Hp ->]]; [done|]. cbn [value_to_json_term]. unfold i64_ok, i64_MAX in Hn. by rewrite (proj2 (Z.ltb_lt n (2 ^ 63))) by lia. Qed.

Lemma stands_value of_string v n : i64_ok n -> stands v n -> json_value of_string v = [VI64 n].
Proof. intros Hn [-> | [Hp ->]]; [done|]. cbn [json_value]. unfold i64_ok, i64_MAX in Hn. by rewrite (proj2 (Z.ltb_lt n (2 ^ 63))) by lia. Qed.

Lemma stands_eqb v w n m : stands v n -> stands w m -> (n = m -> v = w) -> owned_eqb v w = (n =? m).
Proof.
  intros Hv Hw He. destruct (Z.eqb_spec n m) as [Hnm|Hnm].
  - rewrite <- (He Hnm). destruct Hv as [-> | [_ ->]]; cbn; apply Z.eqb_refl.
  - destruct Hv as [-> | [_ ->]], Hw as [-> | [_ ->]]; cbn; try done; by apply Z.eqb_neq.
Qed.

Definition integer_range (o : PgOid) : Prop := o = INT4RANGEOID \/ o = INT8RANGEOID.

Lemma integer_element parse pg truncate o value : integer_range o -> (forall n, i64_ok n -> stands (value n) n) ->
  Element parse pg truncate o false true Integers value value VI64 i64_ok.
Proof.
  intros Ho Hv. split; try done; try (intros n Hn; by destruct (Hv n Hn) as [-> | [_ ->]]).
  - intros n m Hn Hm. apply stands_eqb; [by apply Hv|by apply Hv|congruence].
  - intros n Hn f key. apply stands_json; auto.
  - intros n Hn f key. apply stands_json; auto.
Qed.

(** ** Dates and timestamps *)

Definition seconds_ok (n : Z) : Prop := i64_ok n /\ n mod 1000000000 = 0.

Definition time_range (o : PgOid) : Prop := o = DATERANGEOID \/ o = TSRANGEOID \/ o = TSTZRANGEOID.

(** [v] is the time [n]; when a query is stored and read again a date becomes a string. *)
Definition tells (parse : string -> option Z) (pg : PgOid -> string -> option Z) (o : PgOid) (v : OwnedValue) (n : Z) : Prop :=
  v = Date n \/ exists s, v = Str s /\ parse s = Some (n / 1000) /\ pg o s = Some (n / 1000).

Lemma micros_nanos n : seconds_ok n -> from_timestamp_micros (n / 1000) = n.
Proof.
  intros [Hi Hm]. unfold from_timestamp_micros. rewrite Z.mul_comm, <- Z_div_exact_full_2; [by apply i64_small|done|].
  apply Z.mod_divide in Hm as [c ->]; [|done]. apply Z.mod_divide; [done|]. exists (c * 1000000). lia.
Qed.

Lemma converts_time pg o s n : time_range o -> seconds_ok n -> pg o s = Some (n / 1000) -> yields (convert_pg_date_string pg o s) n.
Proof. intros Ho Hn Hp. rewrite <- (micros_nanos n Hn). unfold yields. destruct Ho as [-> | [-> | ->]]; cbn [convert_pg_date_string]; by rewrite Hp. Qed.

Lemma reads_time parse s n : seconds_ok n -> parse s = Some (n / 1000) -> yields (datetime_try_from parse s) n.
Proof. intros Hn Hp. rewrite <- (micros_nanos n Hn). unfold yields, datetime_try_from. by rewrite Hp. Qed.

Definition is_daterange (o : PgOid) : bool := match o with DATERANGEOID => true | _ => false end.

Lemma time_element parse pg truncate o value : time_range o -> (forall n, seconds_ok n -> tells parse pg o (value n) n) ->
  (forall n, n mod 1000000000 = 0 -> truncate n = n) ->
  Element parse pg truncate o true (is_daterange o) Dates value Date VDate seconds_ok.
Proof.
  intros Ho Hv Ht. split; try done.
  - intros n Hn. destruct (Hv n Hn) as [-> | (s & -> & _ & Hp)]; [by destruct Ho as [-> | [-> | ->]]|].
    pose proof (converts_time pg o s n Ho Hn Hp) as Hc. destruct Ho as [-> | [-> | ->]]; try done; (eapply yields_bind; [exact Hc|done]).
  - intros n Hn. destruct (Hv n Hn) as [-> | (s & -> & _ & Hp)]; [by destruct Ho as [-> | [-> | ->]]|].
    pose proof (converts_time pg o s n Ho Hn Hp) as Hc. destruct Ho as [-> | [-> | ->]]; try done; (eapply yields_bind; [exact Hc|done]).
  - intros Hd n Hn. destruct (Hv n Hn) as [-> | (s & -> & _ & Hp)]; [by destruct Ho as [-> | [-> | ->]]|].
    pose proof (converts_time pg o s n Ho Hn Hp) as Hc. destruct Ho as [-> | [-> | ->]]; try done; (eapply yields_bind; [exact Hc|done]).
  - intros Hd n Hn. destruct (Hv n Hn) as [-> | (s & -> & _ & Hp)]; [by destruct Ho as [-> | [-> | ->]]|].
    pose proof (converts_time pg o s n Ho Hn Hp) as Hc. destruct Ho as [-> | [-> | ->]]; try done; (eapply yields_bind; [exact Hc|done]).
  - intros n Hn f key. destruct (Hv n Hn) as [-> | (s & -> & Hp & _)]; [done|]. cbn [value_to_json_term].
    eapply yields_bind; [by apply reads_time|]. by rewrite (Ht n) by apply Hn.
  - intros n [_ Hn]. cbn [kind]. by rewrite Hn.
Qed.

(** ** The properties *)

Section ranges.
Variables (root : string -> string) (path : string -> option string) (search_field : string -> option SearchField).
Variables (parse_rfc3339 : string -> option Z) (pg_micros : PgOid -> string -> option Z) (truncate : Z -> Z).
Variables (values : Z -> Z -> string -> list TermValue) (of_string : string -> TermValue).
Context `{Index TermLeaf} `{!TermLaws search_field values}.

(** The query makes a tantivy query that finds document [d] exactly if [φ]. *)
Definition finds_if (field : string) (q : FieldQuery) (d : Z) (φ : Prop) : Prop :=
  exists t, yields (fielded root path search_field parse_rfc3339 pg_micros truncate field (Other q)) t /\ (found t d <-> φ).

(** Document [d] was indexed with the range [r] in the field. *)
Definition indexed {S} (try_from : Z -> option S) (json : S -> OwnedValue) (sf : SearchField) (d : Z) (r : Range_ Z) : Prop :=
  d ∈ all_docs /\ forall v, yields (E := unit) (from_range try_from json r) v -> forall key, values d (sf_field sf) key = json_terms of_string v key.

(** C7: On a field of integer ranges, the search for the ranges that intersect, are contained in or
    contain a range finds a document exactly if the set of integers of its range does, empty and
    unbounded ranges included; and the search for a value finds the ranges that have it. *)
Theorem integer_ranges_related (value json : Z -> OwnedValue) field sf d (r q : Range_ Z) (rel : RangeRelation) (n : Z) :
  (forall n, i64_ok n -> stands (value n) n) -> (forall n, i64_ok n -> stands (json n) n) ->
  search_field (root field) = Some sf -> is_datetime sf = false -> integer_range (sf_typeoid sf) ->
  indexed Some json sf d r -> range_elem i64_ok r -> range_ok true r ->
  range_elem i64_ok q -> range_ok true q -> i64_ok n ->
  finds_if field (range_term_range_fn value false (value 0) q rel) d (related (le := Z.le) (lt := Z.lt) (at_ := id) r rel q) /\
  finds_if field (range_term_fn value false n) d (in_range (le := Z.le) (lt := Z.lt) (at_ := id) r n).
Proof.
  intros Hv Hj Hf Hd Ho [Hin Hvals] Hr Ok Hq Oq Hn. pose proof (integer_element parse_rfc3339 pg_micros truncate _ value Ho Hv).
  destruct (from_range_terms (E := unit) Some json of_string VI64 i64_ok r) as (v & Hy & Ht); [|done|].
  { intros m Hm. exists m. split; [done|]. by apply stands_value; [|apply Hj]. }
  assert (forall key, values d (sf_field sf) key = range_terms VI64 r key) as Hterms by (intros key; by rewrite (Hvals v Hy), Ht).
  split; [eapply decides_relation; (done || apply _)|].
  change (in_range (at_ := id) (le := Z.le) (lt := Z.lt) r n) with (in_range (at_ := id) (le := Z.le) (lt := Z.lt) r (id n)). eapply decides_element; (done || apply _).
Qed.

(** C15: The same for ranges of dates, timestamps and timestamps with a time zone, as sets of instants
    on a continuous line, for bounds that are whole seconds. *)
Theorem time_ranges_related {S} (value : Z -> OwnedValue) (try_from : Z -> option S) json field sf d (r q : Range_ Z) (rel : RangeRelation) (n : Z) :
  (forall n, seconds_ok n -> tells parse_rfc3339 pg_micros (sf_typeoid sf) (value n) n) ->
  (forall n, seconds_ok n -> exists s, try_from n = Some s /\ json_value of_string (json s) = [VDate n]) ->
  (forall n, n mod 1000000000 = 0 -> truncate n = n) ->
  search_field (root field) = Some sf -> is_datetime sf = false -> time_range (sf_typeoid sf) ->
  indexed try_from json sf d r -> range_elem seconds_ok r -> range_ok (is_daterange (sf_typeoid sf)) r ->
  range_elem seconds_ok q -> range_ok (is_daterange (sf_typeoid sf)) q -> seconds_ok n ->
  finds_if field (range_term_range_fn value true (value 0) q rel) d (related (le := Qle) (lt := Qlt) (at_ := inject_Z) r rel q) /\
  finds_if field (range_term_fn value true n) d (in_range (le := Qle) (lt := Qlt) (at_ := inject_Z) r (inject_Z n)).
Proof.
  intros Hv Hj Htr Hf Hd Ho [Hin Hvals] Hr Ok Hq Oq Hn. pose proof (time_element parse_rfc3339 pg_micros truncate _ value Ho Hv Htr).
  destruct (from_range_terms (E := unit) try_from json of_string VDate seconds_ok r) as (v & Hy & Ht); [done|done|].
  assert (forall key, values d (sf_field sf) key = range_terms VDate r key) as Hterms by (intros key; by rewrite (Hvals v Hy), Ht).
  split; [eapply decides_relation; (done || apply _)|eapply decides_element; (done || apply _)].
Qed.

End ranges.

(** ** An index of ranges *)

Module Demo.

Definition range_keys : list string :=
  [LOWER_KEY; UPPER_KEY; EMPTY_KEY; LOWER_INCLUSIVE_KEY; UPPER_INCLUSIVE_KEY; LOWER_UNBOUNDED_KEY; UPPER_UNBOUNDED_KEY].

Lemma range_terms_keys V r key v : v ∈ range_terms V r key -> key ∈ range_keys.
Proof. unfold range_terms. intros Hv. repeat case_decide; try (subst key; vm_compute; repeat (try (by left); right)). by apply not_elem_of_nil in Hv. Qed.

Section demo.
Variables (V : Z -> TermValue) (range : Z -> option (Range_ Z)) (o : PgOid).

Definition search_field (name : string) : option SearchField := if decide (name = "during"%string) then Some (mkSearchField 0 (TJsonObject false) o) else None.
Definition values (d f : Z) (key : string) : list TermValue := if f =? 0 then match range d with Some r => range_terms V r key | None => [] end else [].
Definition docs : list Z := [1; 2; 3].

Definition index : Index TermLeaf := TermIndex.term_index docs search_field values range_keys.
Lemma demo_range_laws : TermLaws (H := index) search_field values.
Proof.
  apply TermIndex.term_laws.
  - vm_compute. by intros Hd; repeat (apply elem_of_cons in Hd as [Hd|Hd]); [..|apply not_elem_of_nil in Hd].
  - intros d f p v Hv. unfold values in Hv. destruct (f =? 0); [|by apply not_elem_of_nil in Hv]. destruct (range d); [by eapply range_terms_keys|by apply not_elem_of_nil in Hv].
Qed.

(** Documents are indexed with their ranges. *)
Lemma is_indexed {S} (try_from : Z -> option S) json of_string ok d r : d ∈ docs -> range d = Some r -> range_elem ok r ->
  (forall n, ok n -> exists s, try_from n = Some s /\ json_value of_string (json s) = [V n]) ->
  indexed (H := index) values of_string try_from json (mkSearchField 0 (TJsonObject false) o) d r.
Proof.
  intros Hd Hr Hok Hj. split; [done|]. intros v Hv key. destruct (from_range_terms (E := unit) try_from json of_string V ok r Hj Hok) as (v' & Hy & Ht).
  rewrite (yields_fun _ _ _ Hv Hy), Ht. cbn [sf_field]. unfold values. by rewrite Hr.
Qed.

End demo.

Definition integers (d : Z) : option (Range_ Z) :=
  if d =? 1 then Some (Some (Inclusive 1, Exclusive 5)) else if d =? 2 then Some (Some (Infinite, Exclusive 3)) else Some None.

Definition time (n : Z) : Z := n * 1000000000.
Definition times (d : Z) : option (Range_ Z) :=
  if d =? 1 then Some (Some (Exclusive (time 1), Inclusive (time 5))) else if d =? 2 then Some (Some (Infinite, Exclusive (time 3))) else Some None.

End Demo.

Lemma integer_ranges_related_witness :
  let I := Demo.index VI64 Demo.integers INT8RANGEOID in
  finds_if (H := I) id (fun _ => None) (Demo.search_field INT8RANGEOID) (fun _ => None) (fun _ _ => None) id "during"
    (range_term_range_fn I64 false (I64 0) (Some (Inclusive 4, Infinite)) Intersects) 1
    (related (le := Z.le) (lt := Z.lt) (at_ := id) (Some (Inclusive 1, Exclusive 5)) Intersects (Some (Inclusive 4, Infinite))) /\
  finds_if (H := I) id (fun _ => None) (Demo.search_field INT8RANGEOID) (fun _ => None) (fun _ _ => None) id "during"
    (range_term_fn I64 false 5) 1 (in_range (le := Z.le) (lt := Z.lt) (at_ := id) (Some (Inclusive 1, Exclusive 5)) 5).
Proof.
  pose proof (Demo.demo_range_laws VI64 Demo.integers INT8RANGEOID) as Hl.
  apply (integer_ranges_related (H := Demo.index VI64 Demo.integers INT8RANGEOID) id (fun _ => None) (Demo.search_field INT8RANGEOID) (fun _ => None) (fun _ _ => None) id
    (Demo.values VI64 Demo.integers) VStr I64 I64 "during" (mkSearchField 0 (TJsonObject false) INT8RANGEOID)); try done.
  - by left.
  - by left.
  - by right.
  - apply (Demo.is_indexed VI64 Demo.integers INT8RANGEOID Some I64 VStr i64_ok); [by left|done|done|]. intros n _. by exists n.
Defined.

Lemma time_ranges_related_witness :
  let I := Demo.index VDate Demo.times TSRANGEOID in
  finds_if (H := I) id (fun _ => None) (Demo.search_field TSRANGEOID) (fun _ => None) (fun _ _ => None) id "during"
    (range_term_range_fn Date true (Date 0) (Some (Exclusive (Demo.time 1), Exclusive (Demo.time 4))) Within) 1
    (related (le := Qle) (lt := Qlt) (at_ := inject_Z) (Some (Exclusive (Demo.time 1), Inclusive (Demo.time 5))) Within (Some (Exclusive (Demo.time 1), Exclusive (Demo.time 4)))) /\
  finds_if (H := I) id (fun _ => None) (Demo.search_field TSRANGEOID) (fun _ => None) (fun _ _ => None) id "during"
    (range_term_fn Date true (Demo.time 5)) 1
    (in_range (le := Qle) (lt := Qlt) (at_ := inject_Z) (Some (Exclusive (Demo.time 1), Inclusive (Demo.time 5))) (inject_Z (Demo.time 5))).
Proof.
  pose proof (Demo.demo_range_laws VDate Demo.times TSRANGEOID) as Hl.
  apply (time_ranges_related (H := Demo.index VDate Demo.times TSRANGEOID) id (fun _ => None) (Demo.search_field TSRANGEOID) (fun _ => None) (fun _ _ => None) id
    (Demo.values VDate Demo.times) VStr Date Some Date "during" (mkSearchField 0 (TJsonObject false) TSRANGEOID)); try done.
  - by left.
  - intros n _. by exists n.
  - by right; left.
  - apply (Demo.is_indexed VDate Demo.times TSRANGEOID Some Date VStr seconds_ok); [by left|done|done|]. intros n _. by exists n.
Defined.
