(* ===== verification/Comparisons.v ===== *)
(** * Comparisons of an integer column

    A comparison in a WHERE clause with a value, or with some or all elements of an array, is
    replaced by a search query ([term_with_operator], [terms_with_operator]).  The query finds
    the rows for which the comparison is true in SQL, but for two cases. *)

From stdpp Require Import prelude gmap strings.
From Stdlib Require Import ZArith Lia SpecFloat.
From S2P Require Import Prelude Xid Query Scorers ScorersProps QuerySem Qual QualProps Terms RangeField RangeOrder RangeSem RangeQueries.
From stdpp Require Import list.
Import Query Terms RangeField.

Local Open Scope Z_scope.

(** ** SQL *)

Definition operators : list string := ["="; "<>"; ">"; ">="; "<"; "<="]%string.

Definition compare_numbers (operator : string) (m n : Z) : bool :=
  match operator with
  | "="%string => m =? n | "<>"%string => negb (m =? n) | ">"%string => n <? m
  | ">="%string => n <=? m | "<"%string => m <? n | "<="%string => m <=? n | _ => false
  end.

(** A comparison with a null is null. *)
Definition sql_compare (operator : string) (x y : option Z) : option bool :=
  m ← x; n ← y; Some (compare_numbers operator m n).

(** [x operator ALL (l)] if [all], otherwise [x operator ANY (l)]. *)
Definition sql_compare_array (operator : string) (all : bool) (x : option Z) (l : list (option Z)) : option bool :=
  if all then foldr and3 (Some true) (sql_compare operator x <$> l) else foldr or3 (Some false) (sql_compare operator x <$> l).

(** The bounds that wrap around. *)
Definition wraps (operator : string) (n : Z) : Prop := n = i64_MAX /\ (operator = ">" \/ operator = "<=")%string.

(** ** The queries *)

(** A query of a query: what is made of a field is a tantivy query itself. *)
Class Boxed `{Index (TantivyQuery TermLeaf)} `{Index TermLeaf} : Prop := {
  boxed_docs : all_docs (Leaf := TantivyQuery TermLeaf) = all_docs (Leaf := TermLeaf);
  boxed_found : forall (t : TantivyQuery TermLeaf) d, found (LeafQuery t) d <-> found t d;
}.

Section comparisons.
Context {D : Type}.
Variables (root : string -> string) (path : string -> option string) (search_field : string -> option SearchField).
Variables (parse_rfc3339 : string -> option Z) (pg_micros : PgOid -> string -> option Z) (truncate : Z -> Z).
Variable values : Z -> Z -> string -> list TermValue.
Context `{!Index (TantivyQuery TermLeaf)} `{!TantivyLaws (TantivyQuery TermLeaf)} `{!Index TermLeaf} `{!TermLaws search_field values} `{!Boxed}.
Variables (more_like_this parse : list TermInput -> M unit QueryError (TantivyQuery TermLeaf)).
Variables (tantivy_value : AnyElement D -> option OwnedValue) (num : D -> Z).
Variables (field : string) (sf : SearchField) (column : Z -> option Z).

Abbreviation set := (term_set root path search_field parse_rfc3339 truncate).
Abbreviation fields := (fielded root path search_field parse_rfc3339 pg_micros truncate).
Abbreviation finds := (finds more_like_this parse set fields).
Abbreviation converts := (converts more_like_this parse set fields).
Abbreviation docs := (all_docs (Leaf := TermLeaf)).

Definition integer_oid (o : PgOid) : Prop := o = INT2OID \/ o = INT4OID \/ o = INT8OID.

(** The field is an integer column; documents have its value in their row. *)
Definition integer_column : Prop :=
  root field = field /\ search_field field = Some sf /\ sf_field_type sf = TI64 /\
  (forall d, d ∈ docs -> values d (sf_field sf) "" = match column d with Some n => [VI64 n] | None => [] end) /\
  (forall d n, d ∈ docs -> column d = Some n -> i64_ok n).

(** The elements of type [o] are the numbers [num]. *)
Definition integer_values (o : PgOid) : Prop := forall e, exists v, tantivy_value (mkAnyElement o e) = Some v /\ stands v (num e) /\ i64_ok (num e).

Hypothesis column_ok : integer_column.

Abbreviation the_term n := (mkTerm (sf_field sf) "" false (VI64 n)).

Lemma stands_term v n p dt : i64_ok n -> stands v n -> yields (value_to_term parse_rfc3339 truncate (sf_field sf) v TI64 p dt) (the_term n).
Proof. intros Hn [-> | [Hp ->]]; [done|]. cbn [value_to_term]. by rewrite i64_small. Qed.

Lemma yields_term v n : i64_ok n -> stands v n -> yields (fields field (Other (TermOf v false))) (LeafQuery (TermQuery (the_term n))).
Proof.
  intros Hn Hv. destruct column_ok as (Hr & Hf & Ht & _). cbn [fielded]. unfold term. rewrite Hr, Hf. eapply yields_bind; [done|].
  rewrite Ht. eapply yields_bind; [by apply stands_term|done].
Qed.

Lemma found_value n d : d ∈ docs -> found (LeafQuery (TermQuery (the_term n))) d <-> column d = Some n.
Proof.
  intros Hd. destruct column_ok as (_ & _ & _ & Hv & _). rewrite tl_term by done. cbn [term_value term_field term_path]. rewrite Hv by done.
  destruct (column d) as [m|]; [rewrite list_elem_of_singleton; naive_solver|]. split; [intros [_ Hn]; by apply not_elem_of_nil in Hn|done].
Qed.

Lemma found_bounds lower upper d : d ∈ docs -> bound_terms lower upper <> [] ->
  Forall (fun t => term_field t = sf_field sf /\ term_path t = ""%string /\ kind (term_value t) = Some Integers) (bound_terms lower upper) ->
  found (LeafQuery (RangeQuery lower upper)) d <-> exists m, column d = Some m /\ contains Z.ltb Z.leb (number_bound lower, number_bound upper) m = true.
Proof.
  intros Hd Hne Hb. destruct column_ok as (_ & _ & _ & Hv & _). rewrite (tl_range Integers (sf_field sf) ""); [|done|done|rewrite Hv by done; by destruct (column d); repeat constructor].
  rewrite Hv by done. destruct (column d) as [m|].
  - setoid_rewrite list_elem_of_singleton. naive_solver.
  - split; [intros (_ & v & Hn & _); by apply not_elem_of_nil in Hn|by intros (? & ? & _)].
Qed.

Lemma found_exists d : d ∈ docs -> found (LeafQuery (ExistsQuery field false)) d <-> is_Some (column d).
Proof.
  intros Hd. destruct column_ok as (_ & Hf & Ht & Hv & _). rewrite (tl_exists field sf) by (done || by rewrite Ht). rewrite Hv by done.
  destruct (column d) as [m|]; split; [by eexists|intros _; split; [done|]; eexists; by left|intros (_ & v & Hn); by apply not_elem_of_nil in Hn|by intros []].
Qed.

(** ** One value *)

(** The terms of the two bounds that a comparison has. *)
Lemma yields_range lower upper l u : 
  yields (check_range_bounds pg_micros (sf_typeoid sf) lower upper) (l, u) ->
  forall tl tu, yields (map_bound (fun v => value_to_term parse_rfc3339 truncate (sf_field sf) v TI64 (path field) false) l) tl ->
  yields (map_bound (fun v => value_to_term parse_rfc3339 truncate (sf_field sf) v TI64 (path field) false) u) tu ->
  yields (fields field (Other (Range lower upper false))) (LeafQuery (RangeQuery tl tu)).
Proof.
  intros Hc tl tu Hl Hu. destruct column_ok as (Hr & Hf & Ht & _). cbn [fielded]. unfold range. rewrite Hr, Hf. eapply yields_bind; [done|].
  rewrite Ht. unfold is_datetime. rewrite Ht. cbn [is_date_type orb].
  assert (forall b, coerce_bound_to_field_type b TI64 = b) as Hco by (intros [[]|[]|]; done). rewrite !Hco.
  eapply yields_bind; [done|]. eapply yields_bind; [done|]. by eapply yields_bind.
Qed.

(** A value next to [n], at the width of 64 bits. *)
Definition next (v : OwnedValue) : OwnedValue :=
  match v with U64 n => U64 (u64 (n + 1)) | I64 n => I64 (i64 (n + 1)) | _ => v end.

Lemma next_term v n p dt : stands v n -> yields (value_to_term parse_rfc3339 truncate (sf_field sf) (next v) TI64 p dt) (the_term (i64 (n + 1))).
Proof.
  intros [-> | [Hp ->]]; [done|]. cbn [next value_to_term]. unfold yields, mret, M_ret. do 4 f_equal. unfold i64, wrap. by rewrite Z.mod_mod by done.
Qed.

(** What the query of a comparison compares. *)
Definition pushed (operator : string) (m n : Z) : bool :=
  match operator with
  | ">"%string => i64 (n + 1) <=? m | "<="%string => m <? i64 (n + 1) | _ => compare_numbers operator m n
  end.

Lemma finds_leaf q t d : yields (fields field q) t -> d ∈ docs ->
  converts (FieldedQuery field q) /\ (finds (FieldedQuery field q) d <-> found t d).
Proof.
  intros Hq Hd. assert (yields (into_tantivy_query more_like_this parse set fields true true (FieldedQuery field q)) (LeafQuery t)) as Hy.
  { cbn [into_tantivy_query]. by eapply yields_bind. }
  split; [by eexists|]. rewrite (finds_yields _ _ _ _ _ _ d Hy). apply boxed_found.
Qed.

(** The query finds the rows with a value that compares so. *)
Definition selects (q : SearchQueryInput FieldQuery (list TermInput)) (sel : Z -> bool) : Prop :=
  converts q /\ forall d, d ∈ docs -> finds q d <-> exists m, column d = Some m /\ sel m = true.

Lemma selects_range lower upper l u tl tu v :
  yields (check_range_bounds pg_micros (sf_typeoid sf) lower upper) (l, u) ->
  yields (map_bound (fun v => value_to_term parse_rfc3339 truncate (sf_field sf) v TI64 (path field) false) l) tl ->
  yields (map_bound (fun v => value_to_term parse_rfc3339 truncate (sf_field sf) v TI64 (path field) false) u) tu ->
  bound_terms tl tu = [the_term v] ->
  selects (FieldedQuery field (Other (Range lower upper false))) (contains Z.ltb Z.leb (number_bound tl, number_bound tu)).
Proof.
  intros Hc Hl Hu Hb. pose proof (yields_range _ _ _ _ Hc _ _ Hl Hu) as Hy. split; [eexists; cbn [into_tantivy_query]; by eapply yields_bind|].
  intros d Hd. destruct (finds_leaf _ _ d Hy Hd) as [_ ->]. apply found_bounds; [done|by rewrite Hb|rewrite Hb]. by repeat constructor.
Qed.

Lemma selects_eq v n : i64_ok n -> stands v n -> selects (FieldedQuery field (Other (TermOf v false))) (fun m => m =? n).
Proof.
  intros Hn Hv. pose proof (yields_term v n Hn Hv) as Hy. split; [eexists; cbn [into_tantivy_query]; by eapply yields_bind|].
  intros d Hd. destruct (finds_leaf _ _ d Hy Hd) as [_ ->]. rewrite found_value by done. split.
  - intros Hc. exists n. by rewrite Z.eqb_refl.
  - intros (m & Hm & ->%Z.eqb_eq). done.
Qed.

Lemma selects_exists : selects (FieldedQuery field Exists) (fun _ => true).
Proof.
  assert (yields (fields field Exists) (LeafQuery (ExistsQuery field false))) as Hy.
  { destruct column_ok as (Hr & Hf & Ht & _). cbn [fielded]. unfold exists_. rewrite Hr, Hf. eapply yields_bind; [done|]. by rewrite Ht. }
  split; [eexists; cbn [into_tantivy_query]; by eapply yields_bind|].
  intros d Hd. destruct (finds_leaf _ _ d Hy Hd) as [_ ->]. rewrite found_exists by done. split; [intros [m Hm]; by exists m|intros (m & Hm & _); by exists m].
Qed.

Lemma selects_iff q s s' : selects q s -> (forall m, s m = s' m) -> selects q s'.
Proof. intros [Hc Hf] Hs. split; [done|]. intros d Hd. rewrite Hf by done. by setoid_rewrite Hs. Qed.

Lemma selects_not q s : selects q s -> selects (Boolean [FieldedQuery field Exists] [] [q]) (fun m => negb (s m)).
Proof.
  intros [Hc Hf]. destruct selects_exists as [Hc' Hf'].
  assert (forall d, converts (Boolean [FieldedQuery field Exists] [] [q]) /\ (d ∈ docs -> finds (Boolean [FieldedQuery field Exists] [] [q]) d <->
    exists m, column d = Some m /\ negb (s m) = true)) as Hall; [|by split; [apply (Hall 0)|apply Hall]].
  intros d. destruct (finds_boolean more_like_this parse set fields [FieldedQuery field Exists] [] [q] d) as [Hb Hfb]; [by repeat constructor..|].
  split; [done|]. intros Hd. rewrite Hfb, !Exists_cons, !Exists_nil, Forall_singleton, Hf, Hf' by done. split.
  - intros ((m & Hm & _) & _ & Hn). exists m. split; [done|]. apply negb_true_iff, not_true_is_false. intros Hs. apply Hn. left. by exists m.
  - intros (m & Hm & Hs%negb_true_iff). split_and!; [by exists m|left; left; by exists m|]. intros [(m' & Hm' & Hs')|[]]. congruence.
Qed.

(** The query of a comparison that has one bound, which is made by [H]; [l] and [u] are the checked bounds. *)
Ltac push_bound H Hs l u :=
  eexists; split;
  [eapply yields_bind; [eapply yields_bind; [first [exact H|done]|eapply yields_bind; [first [exact H|done]|done]]|done]
  |eapply selects_iff;
   [eapply (selects_range _ _ l u);
    [by destruct Hs as [-> | [_ ->]]|first [done|eapply yields_bind; [first [by apply next_term|by apply stands_term]|done]]..|done]
   |intros m; first [done|apply andb_true_r]]].

Lemma selects_compare operator o e : operator ∈ operators -> integer_oid o -> integer_values o ->
  exists q, yields (term_with_operator tantivy_value field operator (mkAnyElement o e)) q /\ selects q (fun m => pushed operator m (num e)).
Proof.
  intros Hop Ho Hvals. destruct (Hvals e) as (v & Hv & Hs & Hn).
  assert (term_with_operator tantivy_value field operator (mkAnyElement o e) = make_query tantivy_value operator field (mkAnyElement o e) false) as ->
    by (by destruct Ho as [-> | [-> | ->]]).
  assert (yields (eq_func tantivy_value (mkAnyElement o e)) (TermOf v false)) as Heq.
  { unfold eq_func. rewrite Hv. eapply yields_bind; [done|]. by destruct Hs as [-> | [_ ->]]. }
  assert (yields (map_bound (fun e => ok_or (tantivy_value e) TantivyValueError) (Included (mkAnyElement o e))) (Included v) /\
    yields (map_bound (fun e => ok_or (tantivy_value e) TantivyValueError) (Excluded (mkAnyElement o e))) (Excluded v)) as [Hi He]
    by (cbn [map_bound]; by rewrite Hv).
  repeat (apply elem_of_cons in Hop as [->|Hop]); [..|by apply not_elem_of_nil in Hop].
  - eexists. split; [by eapply yields_bind|]. by apply selects_eq.
  - eexists. split; [by eapply yields_bind|]. eapply selects_iff; [by apply selects_not, selects_eq|]. done.
  - push_bound He Hs (Included (next v)) (@Unbounded OwnedValue).
  - push_bound Hi Hs (Included v) (@Unbounded OwnedValue).
  - push_bound He Hs (@Unbounded OwnedValue) (Excluded v).
  - push_bound Hi Hs (@Unbounded OwnedValue) (Excluded (next v)).
Qed.

(** But for the greatest value the comparison is the one of the operator. *)
Lemma pushed_compare operator m n : operator ∈ operators -> i64_ok n -> ~ wraps operator n -> pushed operator m n = compare_numbers operator m n.
Proof.
  intros Hop Hn Hw. assert ((operator = ">" \/ operator = "<=")%string -> i64 (n + 1) = n + 1) as Hnext.
  { intros Ho. apply i64_small. unfold i64_ok in *. assert (n <> i64_MAX) by (intros ->; by apply Hw). lia. }
  repeat (apply elem_of_cons in Hop as [->|Hop]); [..|by apply not_elem_of_nil in Hop]; try done; cbn [pushed compare_numbers]; rewrite Hnext by tauto; lia.
Qed.

Lemma selects_sql operator o e q : operator ∈ operators -> integer_values o -> ~ wraps operator (num e) ->
  selects q (fun m => pushed operator m (num e)) -> converts q /\ forall d, d ∈ docs -> finds q d <-> sql_compare operator (column d) (Some (num e)) = Some true.
Proof.
  intros Hop Hv Hw [Hc Hf]. split; [done|]. intros d Hd. rewrite Hf by done. destruct (Hv e) as (_ & _ & _ & Hn).
  setoid_rewrite pushed_compare; [|done..]. unfold sql_compare. destruct (column d) as [m|]; cbn.
  - split; [by intros (m' & [= ->] & ->)|intros [= Hm]; by exists m].
  - by split; [intros (? & ? & _)|].
Qed.

(** ** Arrays *)

Lemma yields_expect {E A} (c : M unit E A) a : yields c a -> yields (expect c) a.
Proof. unfold yields, expect. by intros ->. Qed.

Lemma elem_of_present (array : list (option D)) e : e ∈ omap id array <-> Some e ∈ array.
Proof. rewrite list_elem_of_omap. unfold id. split; [intros (x & Hx & He); by rewrite He in Hx|intros He; by exists (Some e)]. Qed.

(** The numbers of an array. *)
Definition numbers (array : list (option D)) : list (option Z) := fmap (M := list) (fmap (M := option) num) array.

Lemma sql_any operator x (array : list (option D)) :
  foldr or3 (Some false) (sql_compare operator x <$> (numbers array)) = Some true <-> exists e, Some e ∈ array /\ sql_compare operator x (Some (num e)) = Some true.
Proof.
  unfold numbers. rewrite or3_true, List.Exists_exists. split.
  - intros (b & Hb & ->). apply list_elem_of_In, list_elem_of_fmap in Hb as (y & Hy & Hin). apply list_elem_of_fmap in Hin as ([e|] & -> & Hin).
    + by exists e.
    + unfold sql_compare in Hy. by destruct x.
  - intros (e & He & Hs). exists (Some true). split; [|done]. apply list_elem_of_In, list_elem_of_fmap. exists (Some (num e)). split; [done|].
    apply list_elem_of_fmap. by exists (Some e).
Qed.

Lemma sql_all operator x (array : list (option D)) :
  foldr and3 (Some true) (sql_compare operator x <$> (numbers array)) = Some true <->
  forall y, y ∈ array -> exists e, y = Some e /\ sql_compare operator x (Some (num e)) = Some true.
Proof.
  unfold numbers. rewrite and3_true, !Forall_fmap, Forall_forall. unfold compose. split; intros Hall y Hy.
  - specialize (Hall y Hy). destruct y as [e|]; [by exists e|]. unfold sql_compare in Hall. by destruct x.
  - by destruct (Hall y Hy) as (e & -> & He).
Qed.

Section array.
Variables (operator : string) (o : PgOid) (array : list (option D)).
Hypotheses (Hop : operator ∈ operators) (Ho : integer_oid o) (Hv : integer_values o) (Hw : forall e, Some e ∈ array -> ~ wraps operator (num e)).

(** The queries of the elements. *)
Lemma yields_quals : exists qs,
  yields (each (fun e => expect (term_with_operator tantivy_value field operator (mkAnyElement o e))) (omap id array)) qs /\ Forall converts qs /\
  forall d, d ∈ docs -> (Forall (fun q => finds q d) qs <-> forall e, Some e ∈ array -> sql_compare operator (column d) (Some (num e)) = Some true) /\
    (List.Exists (fun q => finds q d) qs <-> exists e, Some e ∈ array /\ sql_compare operator (column d) (Some (num e)) = Some true).
Proof.
  setoid_rewrite <- elem_of_present. assert (Forall (fun e => ~ wraps operator (num e)) (omap id array)) as Hws.
  { apply Forall_forall. intros e He. by apply Hw, elem_of_present. }
  induction Hws as [|e l He _ (qs & Hqs & Hcs & IH)].
  - exists []. split_and!; [done|done|]. intros d _. split; split; try done; [intros _ e He; by apply not_elem_of_nil in He|by intros ?%Exists_nil|intros (e & He & _); by apply not_elem_of_nil in He].
  - destruct (selects_compare operator o e Hop Ho Hv) as (q & Hq & Hsel). destruct (selects_sql operator o e q Hop Hv He Hsel) as [Hc Hf].
    exists (q :: qs). split_and!; [|by constructor|].
    + eapply yields_bind; [by apply yields_expect|]. by eapply yields_bind.
    + intros d Hd. destruct (IH d Hd) as [IH1 IH2]. rewrite Forall_cons, Exists_cons, IH1, IH2, Hf by done. setoid_rewrite elem_of_cons. split; split; naive_solver.
Qed.

(** The terms of [= ANY]. *)
Lemma yields_term_set : exists terms,
  yields (each (fun e => v ← ok_or (tantivy_value (mkAnyElement o e)) TantivyValueError; mret (mkTermInput field v (is_datetime_oid o))) (omap id array)) terms /\
  yields (each (term_input_to_term root path search_field parse_rfc3339 truncate) terms) ((fun e => the_term (num e)) <$> omap id array).
Proof.
  induction (omap id array) as [|e l (terms & Ht & Hts)]; [by exists []|]. destruct (Hv e) as (v & Hval & Hs & Hn).
  exists (mkTermInput field v (is_datetime_oid o) :: terms). split.
  - eapply yields_bind; [eapply yields_bind; [by rewrite Hval|done]|]. by eapply yields_bind.
  - eapply yields_bind; [|by eapply yields_bind]. destruct column_ok as (Hr & Hf & Htt & _). unfold term_input_to_term. cbn [ti_field ti_value ti_is_datetime].
    rewrite Hr, Hf. eapply yields_bind; [done|]. rewrite Htt. apply yields_expect. by apply stands_term.
Qed.

Lemma finds_term_set terms d : d ∈ docs ->
  yields (each (term_input_to_term root path search_field parse_rfc3339 truncate) terms) ((fun e => the_term (num e)) <$> omap id array) ->
  converts (TermSet terms) /\ (finds (TermSet terms) d <-> exists e, Some e ∈ array /\ column d = Some (num e)).
Proof.
  intros Hd Ht. set (ts := (fun e => the_term (num e)) <$> omap id array) in *.
  assert (yields (into_tantivy_query more_like_this parse set fields true true (TermSet terms)) (LeafQuery (LeafQuery (TermSetQuery ts)))) as Hy.
  { cbn [into_tantivy_query]. eapply yields_bind; [by eapply yields_bind|done]. }
  split; [by eexists|]. rewrite (finds_yields _ _ _ _ _ _ d Hy), boxed_found, tl_term_set; [|apply Forall_fmap, Forall_forall; by intros].
  destruct column_ok as (_ & _ & _ & Hvals & _). split.
  - intros (_ & t & Ht' & Hin). apply list_elem_of_fmap in Ht' as (e & -> & He). exists e. split; [by apply elem_of_present|].
    cbn in Hin. rewrite Hvals in Hin by done. destruct (column d) as [m|]; [apply list_elem_of_singleton in Hin; congruence|by apply not_elem_of_nil in Hin].
  - intros (e & He & Hc). split; [done|]. exists (the_term (num e)). split; [apply list_elem_of_fmap; exists e; split; [done|by apply elem_of_present]|].
    cbn. rewrite Hvals, Hc by done. by left.
Qed.

Lemma array_found (all : bool) : (all = true -> array <> []) ->
  exists q, yields (terms_with_operator tantivy_value field operator (Some o) array all) q /\ converts q /\
    forall d, d ∈ docs -> finds q d <-> sql_compare_array operator all (column d) (numbers array) = Some true.
Proof.
  intros Hne. destruct yields_quals as (qs & Hqs & Hcs & Hfs). unfold terms_with_operator, sql_compare_array.
  destruct all; cbn [negb andb].
  - destruct (existsb _ array) eqn:Enull.
    + exists Empty. split; [done|]. split; [by eexists|]. intros d Hd. rewrite (finds_yields more_like_this parse set fields Empty EmptyQuery d eq_refl), sql_all.
      split; [by intros ?%ti_empty|]. intros Hall. apply existsb_exists in Enull as (x & Hx%list_elem_of_In & Hn). by destruct (Hall x Hx) as (e & -> & _).
    + exists (Boolean qs [] []). split; [by eapply yields_bind; [|eapply yields_bind]|].
      assert (forall x, x ∈ array -> exists e, x = Some e) as Hsome.
      { intros [e|] Hx; [by exists e|]. assert (existsb (fun d : option D => match d with None => true | _ => false end) array = true) as Hb; [|congruence].
        apply existsb_exists. exists None. by rewrite <- list_elem_of_In. }
      split; [by apply (finds_boolean more_like_this parse set fields qs [] [] 0)|]. intros d Hd.
      destruct (finds_boolean more_like_this parse set fields qs [] [] d) as [_ ->]; [done..|]. destruct (Hfs d Hd) as [-> ->]. rewrite Exists_nil, sql_all. split.
      * intros (Hall & _) x Hx. destruct (Hsome x Hx) as [e ->]. exists e. split; [done|by apply Hall].
      * intros Hall. assert (forall e, Some e ∈ array -> sql_compare operator (column d) (Some (num e)) = Some true) as Hall'.
        { intros e He. by destruct (Hall _ He) as (e' & [= ->] & Hs). }
        split_and!; [done| |tauto]. left. destruct array as [|x l]; [by destruct (Hne eq_refl)|]. destruct (Hsome x) as [e ->]; [by left|].
        exists e. split; [by left|]. apply Hall'. by left.
  - case_bool_decide as Heq.
    + destruct yields_term_set as (terms & Ht & Hts). exists (TermSet terms). split; [by eapply yields_bind; [|eapply yields_bind]|].
      assert (operator = "="%string) as ->. { clear -Hop Heq. repeat (apply elem_of_cons in Hop as [->|Hop]; [done|]). by apply not_elem_of_nil in Hop. }
      split. { eexists. cbn [into_tantivy_query]. eapply yields_bind; [by eapply yields_bind|done]. }
      intros d Hd. destruct (finds_term_set terms d Hd Hts) as [_ ->]. rewrite sql_any. unfold sql_compare.
      destruct (column d) as [m|]; cbn; [|split; [by intros (? & _ & ?)|by intros (? & _ & ?)]].
      split; intros (e & He & Hm); exists e; (split; [done|]); [injection Hm as ->; by rewrite Z.eqb_refl|]. injection Hm as Hm%Z.eqb_eq. by rewrite Hm.
    + exists (Boolean [] qs []). split; [by eapply yields_bind; [|eapply yields_bind]|]. split; [by apply (finds_boolean more_like_this parse set fields [] qs [] 0)|].
      intros d Hd. destruct (finds_boolean more_like_this parse set fields [] qs [] d) as [_ ->]; [done..|]. destruct (Hfs d Hd) as [_ ->].
      rewrite !Exists_nil, Forall_nil, sql_any. tauto.
Qed.

End array.

(** C11: The search query that replaces a comparison of an integer column with a value, or with some
    or all elements of an array, finds exactly the rows for which the comparison is true in SQL,
    nulls in the column and in the array included.  Not covered are [>] and [<=] with the greatest
    [bigint] (C20) and ALL of an empty array ([all_of_empty_array]), for which the query is wrong. *)
Theorem comparisons_found operator o e (array : list (option D)) (all : bool) :
  operator ∈ operators -> integer_oid o -> integer_values o ->
  ~ wraps operator (num e) -> (forall e, Some e ∈ array -> ~ wraps operator (num e)) -> (all = true -> array <> []) ->
  (exists q, yields (term_with_operator tantivy_value field operator (mkAnyElement o e)) q /\ converts q /\
    forall d, d ∈ docs -> finds q d <-> sql_compare operator (column d) (Some (num e)) = Some true) /\
  (exists q, yields (terms_with_operator tantivy_value field operator (Some o) array all) q /\ converts q /\
    forall d, d ∈ docs -> finds q d <-> sql_compare_array operator all (column d) (numbers array) = Some true).
Proof.
  intros Hop Ho Hv He Hw Hne. split; [|by apply array_found]. destruct (selects_compare operator o e Hop Ho Hv) as (q & Hq & Hsel).
  exists q. split; [done|by eapply selects_sql].
Qed.

(** C20: The bound next to the greatest [bigint] wraps around: [x > 9223372036854775807] finds every
    row that has a value, and [x <= 9223372036854775807] finds none. *)
Theorem greatest_bound_wraps o e : integer_oid o -> integer_values o -> num e = i64_MAX ->
  (exists q, yields (term_with_operator tantivy_value field ">" (mkAnyElement o e)) q /\ forall d, d ∈ docs -> finds q d <-> is_Some (column d)) /\
  (exists q, yields (term_with_operator tantivy_value field "<=" (mkAnyElement o e)) q /\ forall d, d ∈ docs -> ~ finds q d).
Proof.
  intros Ho Hv Hmax. assert (i64 (num e + 1) = i64_MIN) as Hnext by (by rewrite Hmax). pose proof column_ok as (_ & _ & _ & _ & Hi). split.
  - destruct (selects_compare ">" o e) as (q & Hq & _ & Hf); [by do 2 right; left|done|done|]. exists q. split; [done|]. intros d Hd. rewrite Hf by done. cbn [pushed]. rewrite Hnext.
    split; [intros (m & Hm & _); by exists m|]. intros [m Hm]. exists m. split; [done|]. apply Z.leb_le. by apply (Hi d m).
  - destruct (selects_compare "<=" o e) as (q & Hq & _ & Hf); [by do 5 right; left|done|done|]. exists q. split; [done|]. intros d Hd. rewrite Hf by done. cbn [pushed]. rewrite Hnext.
    intros (m & Hm & Hlt%Z.ltb_lt). destruct (Hi d m Hd Hm). lia.
Qed.

(** The function [range] finds the rows whose value is in the range; one that is unbounded on both
    sides is not searched for. *)
Theorem column_in_range (value : Z -> OwnedValue) (q : Range_ Z) :
  (forall n, i64_ok n -> stands (value n) n) -> range_elem i64_ok q -> range_ok true q -> q <> Some (Infinite, Infinite) ->
  exists t, yields (fields field (Other (range_fn value false (value 0) q))) t /\
    forall d, d ∈ docs -> found t d <-> exists m, column d = Some m /\ in_range (le := Z.le) (lt := Z.lt) (at_ := id) q m.
Proof.
  intros Hv Hq Hok Hne.
  assert (forall l u, bound_elem i64_ok l -> bound_elem i64_ok u -> lower_ok true l -> upper_ok true u -> (l, u) <> (Infinite, Infinite) ->
    exists t, yields (fields field (Other (Range (bound_of value l) (bound_of value u) false))) t /\
      forall d, d ∈ docs -> found t d <-> exists m, column d = Some m /\ in_range (le := Z.le) (lt := Z.lt) (at_ := id) (Some (l, u)) m) as Hr.
  { intros l u Hl Hu Ol Ou Hn. specialize (Ol eq_refl). specialize (Ou eq_refl).
    set (term_of b := match b with Infinite => Unbounded | Inclusive n => Included (the_term n) | Exclusive n => Excluded (the_term n) end).
    exists (LeafQuery (RangeQuery (term_of l) (term_of u))). split.
    - apply (yields_range _ _ (bound_of value l) (bound_of value u)).
      + destruct l as [|n|n], u as [|m|m]; cbn [bound_elem bound_of] in *; try done.
        * by destruct (Hv m Hu) as [-> | [_ ->]].
        * by destruct (Hv n Hl) as [-> | [_ ->]].
        * by destruct (Hv n Hl) as [-> | [_ ->]], (Hv m Hu) as [-> | [_ ->]].
      + destruct l as [|n|n]; [done| |done]. eapply yields_bind; [|done]. apply stands_term; [done|by apply Hv].
      + destruct u as [|n|n]; [done|done|]. eapply yields_bind; [|done]. apply stands_term; [done|by apply Hv].
    - intros d Hd. rewrite found_bounds; [|done|by destruct l, u|destruct l, u; by repeat constructor].
      destruct l as [|n|n], u as [|m|m]; try done; cbn; unfold contains, id; cbn; (split; intros (x & Hx & Hb); exists x; (split; [done|])); lia. }
  destruct q as [[l u]|]; cbn [range_fn].
  - destruct Hq, Hok as (? & ? & _). apply Hr; naive_solver.
  - destruct (Hr (Inclusive 0) (Exclusive 0)) as (t & Ht & Hf); [done..|]. exists t. split; [done|]. intros d Hd. rewrite Hf by done.
    split; intros (m & Hm & Hb); exists m; (split; [done|]); [|done]. destruct Hb as [Ha Hb]. cbn in Ha, Hb. unfold id in *. lia.
Qed.

(** A comparison with all elements of an empty array is true of every row in SQL, but its query finds none. *)
Theorem all_of_empty_array operator o : operator ∈ operators -> integer_oid o ->
  (exists q, yields (terms_with_operator tantivy_value field operator (Some o) [] true) q /\ forall d, ~ finds q d) /\
  forall d, sql_compare_array operator true (column d) [] = Some true.
Proof.
  intros Hop Ho. split; [|done]. exists (Boolean [] [] []). split; [done|]. intros d Hf.
  apply (finds_boolean more_like_this parse set fields [] [] [] d) in Hf as (_ & [?%Exists_nil|?%Exists_nil] & _); done.
Qed.

End comparisons.

(** ** A column *)

Module Column.

Definition column (d : Z) : option Z := if d =? 1 then Some 5 else if d =? 2 then Some (-3) else None.
Definition sf : SearchField := mkSearchField 0 TI64 INT8OID.
Definition search_field (name : string) : option SearchField := if decide (name = "rating"%string) then Some sf else None.
Definition values (d f : Z) (key : string) : list TermValue :=
  if decide (f = 0 /\ key = ""%string) then match column d with Some n => [VI64 n] | None => [] end else [].
Definition docs : list Z := [1; 2; 3].

Definition index : Index TermLeaf := TermIndex.term_index docs search_field values [""%string].
Definition queries : Index (TantivyQuery TermLeaf) := TermIndex.query_index docs search_field values [""%string].

Lemma docs_ok : Scorers.TERMINATED ∉ docs.
Proof. vm_compute. by intros Hd; repeat (apply elem_of_cons in Hd as [Hd|Hd]); [..|apply not_elem_of_nil in Hd]. Qed.

Lemma column_laws : TermLaws (H := index) search_field values.
Proof.
  apply TermIndex.term_laws; [apply docs_ok|]. intros d f p v Hv. unfold values in Hv. case_decide as Hp; [|by apply not_elem_of_nil in Hv].
  destruct Hp as [_ ->]. by left.
Qed.

Lemma column_query_laws : TantivyLaws (H := queries) (TantivyQuery TermLeaf).
Proof. apply TermIndex.query_laws, docs_ok. Qed.

Lemma boxed : Boxed (H := queries) (H0 := index).
Proof.
  split; [done|]. intros t d. etransitivity; [apply SmallIndex.found_holds|]. symmetry. exact (SmallIndex.found_holds (TermIndex.leaf search_field values [""%string]) docs (fun _ => Some true) t d).
Qed.

Definition tantivy_value (e : AnyElement Z) : option OwnedValue := Some (I64 (i64 (datum e))).
Definition no_query (p : list TermInput) : M unit QueryError (TantivyQuery TermLeaf) := panic.

Definition set := term_set id (fun _ => None) search_field (fun _ => None) id.
Definition fields := fielded id (fun _ => None) search_field (fun _ => None) (fun _ _ => None) id.

Lemma column_is : integer_column (Index1 := index) id search_field values "rating" sf column.
Proof.
  split_and!; try done. intros d n _ Hn. unfold column in Hn. repeat case_match; simplify_eq; by vm_compute.
Qed.

Lemma i64_range n : i64_ok (i64 n).
Proof. unfold i64_ok, i64_MIN, i64_MAX, i64. pose proof (wrap_range 64 n). case_match; lia. Qed.

Lemma values_are : integer_values tantivy_value i64 INT8OID.
Proof. intros e. eexists. split; [done|]. split; [by left|apply i64_range]. Qed.

End Column.

Lemma comparisons_found_witness :
  let finds := finds (H := Column.queries) Column.no_query Column.no_query Column.set Column.fields in
  (exists q, yields (term_with_operator Column.tantivy_value "rating" "<=" (mkAnyElement INT8OID 5)) q /\ converts Column.no_query Column.no_query Column.set Column.fields q /\
    forall d, d ∈ Column.docs -> finds q d <-> sql_compare "<=" (Column.column d) (Some (i64 5)) = Some true) /\
  (exists q, yields (terms_with_operator Column.tantivy_value "rating" "<=" (Some INT8OID) [Some 4; None] false) q /\ converts Column.no_query Column.no_query Column.set Column.fields q /\
    forall d, d ∈ Column.docs -> finds q d <-> sql_compare_array "<=" false (Column.column d) (numbers i64 [Some 4; None]) = Some true).
Proof.
  pose proof Column.column_laws. pose proof Column.column_query_laws. pose proof Column.boxed.
  apply (comparisons_found (Index0 := Column.queries) (Index1 := Column.index) id (fun _ => None) Column.search_field (fun _ => None) (fun _ _ => None) id Column.values
    Column.no_query Column.no_query Column.tantivy_value i64 "rating" Column.sf Column.column Column.column_is "<=" INT8OID 5 [Some 4; None] false);
    [by do 5 right; left|by right; right|apply Column.values_are|by intros [? _]| |done].
  intros e [[= ->]|[?|?%not_elem_of_nil]%elem_of_cons]%elem_of_cons; try done. by intros [? _].
Defined.

Lemma greatest_bound_wraps_witness :
  let finds := finds (H := Column.queries) Column.no_query Column.no_query Column.set Column.fields in
  (exists q, yields (term_with_operator Column.tantivy_value "rating" ">" (mkAnyElement INT8OID i64_MAX)) q /\ forall d, d ∈ Column.docs -> finds q d <-> is_Some (Column.column d)) /\
  (exists q, yields (term_with_operator Column.tantivy_value "rating" "<=" (mkAnyElement INT8OID i64_MAX)) q /\ forall d, d ∈ Column.docs -> ~ finds q d).
Proof.
  pose proof Column.column_laws. pose proof Column.column_query_laws. pose proof Column.boxed.
  apply (greatest_bound_wraps (Index0 := Column.queries) (Index1 := Column.index) id (fun _ => None) Column.search_field (fun _ => None) (fun _ _ => None) id Column.values
    Column.no_query Column.no_query Column.tantivy_value i64 "rating" Column.sf Column.column Column.column_is INT8OID i64_MAX);
    [by right; right|apply Column.values_are|done].
Defined.
