(* ===== verification/Proximity.v ===== *)
(** * Proximity queries

    [query/proximity]: a query finds the documents in which a term of its left side and one of its
    right side are at most a number of tokens apart.  [scorer.rs] walks over the documents that
    have both and over the positions in each, [weight.rs] reads the postings of the two sides. *)

From stdpp Require Import prelude strings.
From Stdlib Require Import ZArith Lia SpecFloat.
From S2P Require Import Prelude Query Scorers.
From stdpp Require Import list.
Import Query Scorers.

Local Open Scope Z_scope.

Module Proximity.

(** ** Distances *)

Inductive ProximityDistance := InOrder (d : Z) | AnyOrder (d : Z).

(** [r.wrapping_sub(l)] and [r.abs_diff(l)] *)
Definition diff (d : ProximityDistance) (l r : Z) : Z :=
  match d with InOrder _ => u32 (r - l) | AnyOrder _ => Z.abs (r - l) end.

Definition distance (d : ProximityDistance) : Z := match d with InOrder n | AnyOrder n => n end.
Definition in_order (d : ProximityDistance) : bool := match d with InOrder _ => true | _ => false end.

(** ** Clauses *)

Inductive ProximityClause :=
| Uninitialized
| Term (s : string)
| Regex (pattern : string) (max_expansions : Z)
| Clauses (l : list ProximityClause)
| Proximity (left : ProximityClause) (distance : ProximityDistance) (right : ProximityClause).

Inductive WhichTerms := Left | Right | All.
Inductive ProxTermStyle := TermStyle (s : string) | RegexStyle (pattern : string) (max_expansions : Z).

Definition as_str (t : ProxTermStyle) : string := match t with TermStyle s | RegexStyle s _ => s end.

Fixpoint is_empty (c : ProximityClause) : bool :=
  match c with
  | Uninitialized => true
  | Term _ | Regex _ _ => false
  | Clauses l => is_nil l || forallb is_empty l
  | Proximity l _ r => is_empty l || is_empty r
  end.

(** [segment_reader]: the terms of a segment that a pattern matches, if there is a segment. *)
Fixpoint terms (segment_reader : option (string -> list string)) (which_terms : WhichTerms) (c : ProximityClause) : list ProxTermStyle :=
  match c with
  | Uninitialized => []
  | Term s => [TermStyle s]
  | Regex pattern max_expansions =>
      match segment_reader with
      | None => [RegexStyle pattern max_expansions]
      | Some search => TermStyle <$> search pattern
      end
  | Clauses l => concat (map (terms segment_reader which_terms) l)
  | Proximity l _ r =>
      match which_terms with
      | Left => terms segment_reader which_terms l
      | Right => terms segment_reader which_terms r
      | All => terms segment_reader which_terms l ++ terms segment_reader which_terms r
      end
  end.

(** ** The operators and functions of SQL *)

(** [i32::try_into::<u32>] *)
Definition to_u32 {S E} (n : Z) : M S E Z := if n <? 0 then panic else mret n.

Definition lhs_prox {S E} (left : ProximityClause) (distance : Z) : M S E ProximityClause :=
  d ← to_u32 distance; mret (Proximity left (AnyOrder d) Uninitialized).

Definition rhs_prox {S E} (left right : ProximityClause) : M S E ProximityClause :=
  match left with
  | Proximity l distance Uninitialized => mret (Proximity l distance right)
  | _ => panic
  end.

Definition lhs_prox_in_order {S E} (left : ProximityClause) (distance : Z) : M S E ProximityClause :=
  d ← to_u32 distance; mret (Proximity left (InOrder d) Uninitialized).

Definition rhs_prox_in_order {S E} (left right : ProximityClause) : M S E ProximityClause :=
  match left with
  | Proximity l distance Uninitialized => mret (Proximity l distance right)
  | _ => panic
  end.

Definition prox_term (term : string) : ProximityClause := Term term.

(** [valid]: [Regex::new] takes the pattern. *)
Definition prox_regex {S E} (valid : string -> bool) (regex : string) (max_expansions : Z) : M S E ProximityClause :=
  if max_expansions <? 0 then panic else if valid regex then mret (Regex regex max_expansions) else panic.

(** The elements of the array that are not NULL. *)
Definition prox_array (clauses : list (option ProximityClause)) : ProximityClause := Clauses (omap id clauses).

Definition text_to_prox_clause (t : string) : ProximityClause := Term t.

Definition text_array_to_prox_clause (t : list string) : ProximityClause := Clauses (map text_to_prox_clause t).

Definition prox_clause {S E} (left : ProximityClause) (distance : Z) (right : ProximityClause) : M S E ProximityClause :=
  d ← to_u32 distance; mret (Proximity left (AnyOrder d) right).

Definition prox_clause_in_order {S E} (left : ProximityClause) (distance : Z) (right : ProximityClause) : M S E ProximityClause :=
  d ← to_u32 distance; mret (Proximity left (InOrder d) right).

(** [pdb::Query::Proximity] *)
Record ProximityQuery := mkProximityQuery { pq_left : ProximityClause; pq_distance : ProximityDistance; pq_right : ProximityClause }.

Definition proximity_fn {S E} (prox : ProximityClause) : M S E ProximityQuery :=
  match prox with Proximity l distance r => mret (mkProximityQuery l distance r) | _ => panic end.

Definition proximity_pair {S E} (left : ProximityClause) (distance : Z) (right : ProximityClause) : M S E ProximityQuery :=
  d ← to_u32 distance; mret (mkProximityQuery left (AnyOrder d) right).

Definition proximity_in_order {S E} (left : ProximityClause) (distance : Z) (right : ProximityClause) : M S E ProximityQuery :=
  d ← to_u32 distance; mret (mkProximityQuery left (InOrder d) right).

(** ** Pairs of positions *)

Record ProxIter := mkProxIter { it_distance : ProximityDistance; it_lpos : list Z; it_rpos : list Z; li : nat; ri : nat }.

Definition iter_new (d : ProximityDistance) (lpos rpos : list Z) : ProxIter := mkProxIter d lpos rpos 0 0.

(** The turns that the loop can take. *)
Definition iter_fuel (it : ProxIter) : nat := S ((length (it_lpos it) - li it) + (length (it_rpos it) - ri it)).

(** [None]: out of fuel; [next] returns [None] at the end. *)
Fixpoint next (fuel : nat) (it : ProxIter) : option (option (Z * Z) * ProxIter) :=
  match fuel with
  | O => None
  | S fuel =>
      let '(mkProxIter d lpos rpos li ri) := it in
      match lpos !! li, rpos !! ri with
      | Some l, Some r =>
          if diff d l r <=? u32 (distance d + 1) then Some (Some (l, r), mkProxIter d lpos rpos (S li) ri)
          else match l ?= r with
          | Lt => next fuel (mkProxIter d lpos rpos (S li) ri)
          | Eq => next fuel (mkProxIter d lpos rpos (S li) (S ri))
          | Gt => next fuel (mkProxIter d lpos rpos li (S ri))
          end
      | _, _ => Some (None, it)
      end
  end.

(** The pairs that are left; each one moves on to the next left position. *)
Fixpoint pairs_from (fuel : nat) (it : ProxIter) : option (list (Z * Z)) :=
  match fuel with
  | O => None
  | S fuel =>
      '(item, it') ← next (iter_fuel it) it;
      match item with
      | None => Some []
      | Some p => ps ← pairs_from fuel it'; Some (p :: ps)
      end
  end.

Definition pairs (it : ProxIter) : option (list (Z * Z)) := pairs_from (S (length (it_lpos it))) it.

(** ** The scorer *)

(** Documents with the positions in them. *)
Definition Postings := list (Z * list Z).

Section scorer.
(** tantivy: [SimpleUnion] and [Intersection]. *)
Variables (union : list Postings -> Postings) (intersect : Postings -> Postings -> list (Z * (list Z * list Z))).
(** [FieldNormReader::fieldnorm_id] *)
Variable fieldnorm_id : Z -> Z.

(** [weight_opt]: [Bm25Weight::score]. *)
Record ProximityScorer := mkProximityScorer {
  intersection : list (Z * (list Z * list Z)); ps_distance : ProximityDistance; weight_opt : option (Z -> Z -> Score);
  nmatches : Z; lpos : list Z; rpos : list Z }.

Definition prox_doc (s : ProximityScorer) : Z := match intersection s with [] => TERMINATED | e :: _ => e.1 end.

(** The iterator over the positions of the current document, which are kept in [lpos] and [rpos]. *)
Definition prox_iter (s : ProximityScorer) : ProxIter * ProximityScorer :=
  let '(l, r) := match intersection s with [] => ([], []) | e :: _ => e.2 end in
  (iter_new (ps_distance s) l r, mkProximityScorer (intersection s) (ps_distance s) (weight_opt s) (nmatches s) l r).

Definition prox_count (s : ProximityScorer) : option (Z * ProximityScorer) :=
  let '(it, s) := prox_iter s in
  ps ← pairs it; Some (Z.of_nat (length ps), s).

Definition prox_match (s : ProximityScorer) : option (bool * ProximityScorer) :=
  let '(it, s) := prox_iter s in
  if weight_opt s then
    ps ← pairs it;
    let count := Z.of_nat (length ps) in
    Some (count >? 0, mkProximityScorer (intersection s) (ps_distance s) (weight_opt s) count (lpos s) (rpos s))
  else
    '(item, _) ← next (iter_fuel it) it;
    Some (match item with Some _ => true | None => false end, s).

Definition inner_advance (s : ProximityScorer) : ProximityScorer :=
  mkProximityScorer (tail (intersection s)) (ps_distance s) (weight_opt s) (nmatches s) (lpos s) (rpos s).

Fixpoint prox_advance (fuel : nat) (s : ProximityScorer) : option (Z * ProximityScorer) :=
  match fuel with
  | O => None
  | S fuel =>
      let s := inner_advance s in
      if prox_doc s =? TERMINATED then Some (prox_doc s, s)
      else
        '(b, s') ← prox_match s;
        if b : bool then Some (prox_doc s', s') else prox_advance fuel s'
  end.

Definition advance_fuel (s : ProximityScorer) : nat := S (length (intersection s)).

(** [Intersection::seek] goes to the first document that is not before the target. *)
Fixpoint skip_to (target : Z) (l : list (Z * (list Z * list Z))) : list (Z * (list Z * list Z)) :=
  match l with [] => [] | e :: l' => if e.1 <? target then skip_to target l' else l end.

Definition prox_seek (target : Z) (s : ProximityScorer) : option (Z * ProximityScorer) :=
  let s := mkProximityScorer (skip_to target (intersection s)) (ps_distance s) (weight_opt s) (nmatches s) (lpos s) (rpos s) in
  if prox_doc s =? TERMINATED then Some (prox_doc s, s)
  else
    '(b, s') ← prox_match s;
    if b : bool then Some (prox_doc s', s') else prox_advance (advance_fuel s') s'.

Definition scorer_new (left : list Postings) (d : ProximityDistance) (right : list Postings) (weight_opt : option (Z -> Z -> Score)) : option ProximityScorer :=
  let s := mkProximityScorer (intersect (union left) (union right)) d weight_opt 0 [] [] in
  if prox_doc s =? TERMINATED then Some s
  else
    '(b, s) ← prox_match s;
    if b : bool then Some s else '(_, s) ← prox_advance (advance_fuel s) s; Some s.

Definition one_score : Score := binary_normalize 24 128 1 0 false.

Definition prox_score (s : ProximityScorer) : Score :=
  match weight_opt s with
  | Some w => w (fieldnorm_id (prox_doc s)) (u32 (nmatches s))
  | None => one_score
  end.

#[global] Instance ProximityScorer_scorer : Scorer ProximityScorer := {
  doc := prox_doc;
  advance s := prox_advance (advance_fuel s) s;
  score := prox_score;
}.

(** ** The weight *)

(** The terms of the segment that a pattern matches, and the postings of a term. *)
Variables (search : string -> list string) (segment_postings : string -> option Postings).
(** [RegexPhraseWeight::get_union_from_term_infos], of the terms that a pattern matches. *)
Variable regex_union : list string -> Postings.

(** [while scorer.doc() != TERMINATED { .. }] of a nested clause. *)
Fixpoint load (fuel : nat) (pick : Z * Z -> list Z) (s : ProximityScorer) : option Postings :=
  match fuel with
  | O => None
  | S fuel =>
      if prox_doc s =? TERMINATED then Some []
      else
        let d := prox_doc s in
        let '(it, s) := prox_iter s in
        ps ← pairs it;
        '(_, s') ← prox_advance (advance_fuel s) s;
        rest ← load fuel pick s';
        Some ((d, concat (map pick ps)) :: rest)
  end.

(** Which positions of a pair are passed on. *)
Definition picked (nested : bool) (which_terms : WhichTerms) (p : Z * Z) : list Z :=
  if nested then match which_terms with Left => [p.2] | Right => [p.1] | All => [p.1; p.2] end else [p.1; p.2].

(** The terms in turn; [num_regex_terms] counts the terms that patterns matched. *)
Fixpoint term_postings (num_regex_terms : Z) (ts : list ProxTermStyle) : list Postings :=
  match ts with
  | [] => []
  | TermStyle s :: ts =>
      match segment_postings s with Some p => p :: term_postings num_regex_terms ts | None => term_postings num_regex_terms ts end
  | RegexStyle pattern max_expansions :: ts =>
      let term_infos := search pattern in
      if is_nil term_infos then term_postings num_regex_terms ts
      else
        let num_regex_terms := num_regex_terms + Z.of_nat (length term_infos) in
        if num_regex_terms >? max_expansions then term_postings num_regex_terms ts
        else regex_union term_infos :: term_postings num_regex_terms ts
  end.

Fixpoint read_postings (weight_opt : option (Z -> Z -> Score)) (which_terms : WhichTerms) (nested : bool) (clause : ProximityClause) : option (list Postings) :=
  match clause with
  | Proximity l distance r =>
      left_postings ← read_postings weight_opt which_terms true l;
      right_postings ← read_postings weight_opt which_terms true r;
      s ← scorer_new left_postings distance right_postings weight_opt;
      loaded ← load (S (length (intersection s))) (picked nested which_terms) s;
      Some [loaded]
  | _ => Some (term_postings 0 (terms (Some search) which_terms clause))
  end.

(** [None] inside: nothing is found. *)
Definition prox_scorer (weight_opt : option (Z -> Z -> Score)) (q : ProximityQuery) : option (option ProximityScorer) :=
  left_postings ← read_postings weight_opt Left false (pq_left q);
  if is_nil left_postings then Some None
  else
    right_postings ← read_postings weight_opt Right false (pq_right q);
    if is_nil right_postings then Some None
    else s ← scorer_new left_postings (pq_distance q) right_postings weight_opt; Some (Some s).

End scorer.

End Proximity.
