(* ===== verification/ProximityQueries.v ===== *)
(** * What a proximity query finds

    The walk over two sorted lists of positions meets every left position that has a right one
    near it, and the scorer finds the documents that have such a pair.  A query whose sides
    have no proximity clause in them finds the documents in which a term of the left side is
    near one of the right side.  A nested clause passes on too few positions. *)

From stdpp Require Import prelude strings sorting.
From Stdlib Require Import ZArith Lia SpecFloat.
From S2P Require Import Prelude Query Scorers Proximity.
From stdpp Require Import list.
Import Query Scorers Proximity.

Local Open Scope Z_scope.

(** ** Near positions *)

(** At most the distance many tokens are between the two, and in order the left one comes first
    or is the same. *)
Definition near (d : ProximityDistance) (l r : Z) : Prop :=
  match d with InOrder n => l <= r <= l + n + 1 | AnyOrder n => l - n - 1 <= r <= l + n + 1 end.

#[global] Instance near_dec d l r : Decision (near d l r).
Proof. unfold near. destruct d; apply _. Defined.

(** Too far before the left position, as are all positions before it. *)
Definition behind (d : ProximityDistance) (l r : Z) : Prop :=
  match d with InOrder _ => r < l | AnyOrder n => r < l - n - 1 end.

(** Distances are at most [i32::MAX], positions below [2^31]. *)
Definition distance_ok (d : ProximityDistance) : Prop := 0 <= distance d < 2 ^ 31.
Definition position_ok (x : Z) : Prop := 0 <= x < 2 ^ 31.
Definition positions_ok (l : list Z) : Prop := StronglySorted Z.le l /\ Forall position_ok l.

(** The code's test, in [u32]. *)
Lemma diff_near d l r : distance_ok d -> position_ok l -> position_ok r -> (diff d l r <=? u32 (distance d + 1)) = bool_decide (near d l r).
Proof.
  unfold distance_ok, position_ok. intros Hd Hl Hr. apply eq_true_iff_eq. rewrite bool_decide_eq_true, Z.leb_le.
  rewrite (wrap_small 32 (distance d + 1)) by (cbn; lia). destruct d as [n|n]; cbn [diff distance near] in *; [|lia].
  destruct (Z.leb_spec l r).
  - rewrite wrap_small by (cbn; lia). lia.
  - assert (u32 (r - l) = r - l + 2 ^ 32) as ->; [|lia]. unfold wrap. rewrite <- (Z.mod_add (r - l) 1) by lia. rewrite Z.mod_small by lia. lia.
Qed.

(** One token alone is near itself, also in order. *)
Lemma near_self d l : distance_ok d -> near d l l.
Proof. unfold distance_ok. destruct d; cbn; lia. Qed.

Lemma behind_near d l r : distance_ok d -> behind d l r -> ~ near d l r.
Proof. unfold distance_ok. destruct d; cbn; lia. Qed.

Lemma behind_le d l l' r : behind d l r -> l <= l' -> behind d l' r.
Proof. destruct d; cbn; lia. Qed.

Lemma before_behind d l r : distance_ok d -> ~ near d l r -> r < l -> behind d l r.
Proof. unfold distance_ok. destruct d; cbn; lia. Qed.

Lemma ahead_near d l r r' : distance_ok d -> ~ near d l r -> l < r -> r <= r' -> ~ near d l r'.
Proof. unfold distance_ok. destruct d; cbn; lia. Qed.

(** ** The pairs *)

(** Each left position with the first right position near it. *)
Definition first_near (d : ProximityDistance) (rpos : list Z) (l : Z) : option Z := head (filter (near d l) rpos).

Definition near_pairs (d : ProximityDistance) (lpos rpos : list Z) : list (Z * Z) := omap (fun l => pair l <$> first_near d rpos l) lpos.

Lemma sorted_lookup (l : list Z) i j x y : StronglySorted Z.le l -> l !! i = Some x -> l !! j = Some y -> (i <= j)%nat -> x <= y.
Proof.
  intros Hs Hx Hy Hij. destruct (decide (i = j)) as [->|]; [simplify_eq; lia|]. rewrite <- (take_drop j l) in Hs.
  eapply StronglySorted_app_1_elem_of; [exact Hs| |].
  - apply list_elem_of_lookup. exists i. by rewrite lookup_take_lt by lia.
  - apply list_elem_of_lookup. exists 0%nat. by rewrite lookup_drop, Nat.add_0_r.
Qed.

Lemma omap_none {A B} (f : A -> option B) l : (forall x, x ∈ l -> f x = None) -> omap f l = [].
Proof. induction l as [|x l IH]; intros Hall; [done|]. cbn. rewrite (Hall x) by by left. apply IH. intros y Hy. apply Hall. by right. Qed.

Section pairs.
Variables (d : ProximityDistance) (lpos rpos : list Z).
Hypotheses (d_ok : distance_ok d) (l_ok : positions_ok lpos) (r_ok : positions_ok rpos).

Lemma not_near_none l : (forall j r, rpos !! j = Some r -> ~ near d l r) -> first_near d rpos l = None.
Proof.
  intros Hall. unfold first_near. assert (filter (near d l) rpos = []) as ->; [|done]. apply filter_none. intros r [j Hj]%list_elem_of_lookup. by eapply Hall.
Qed.

Lemma first_is_near l j r : rpos !! j = Some r -> near d l r -> (forall i r', (i < j)%nat -> rpos !! i = Some r' -> ~ near d l r') -> first_near d rpos l = Some r.
Proof.
  intros Hj Hn Hb. unfold first_near. rewrite <- (take_drop_middle rpos j r Hj), filter_app, filter_cons, decide_True by done.
  assert (filter (near d l) (take j rpos) = []) as ->; [|done]. apply filter_none. intros r' [i Hi]%list_elem_of_lookup.
  apply lookup_take_Some in Hi as [Hi Hij]. by eapply Hb.
Qed.

(** The right positions that were passed are behind all left ones to come. *)
Definition passed (li ri : nat) : Prop := forall i j l r, (li <= i)%nat -> (j < ri)%nat -> lpos !! i = Some l -> rpos !! j = Some r -> behind d l r.

Lemma lookup_ok (l : list Z) i x : positions_ok l -> l !! i = Some x -> position_ok x.
Proof. intros [_ Hf] Hx. by eapply Forall_lookup_1. Qed.

(** [next] returns the next of the pairs. *)
Lemma pair_next_spec fuel li ri : passed li ri -> (length lpos - li + (length rpos - ri) < fuel)%nat ->
  exists res li' ri', next fuel (mkProxIter d lpos rpos li ri) = Some (res, mkProxIter d lpos rpos li' ri') /\ passed li' ri' /\ (li <= li')%nat /\
    match res with
    | None => near_pairs d (drop li lpos) rpos = []
    | Some p => near_pairs d (drop li lpos) rpos = p :: near_pairs d (drop li' lpos) rpos /\ (li < li' <= length lpos)%nat
    end.
Proof.
  revert li ri. induction fuel as [|fuel IH]; intros li ri Hp Hf; [lia|]. cbn [next].
  destruct (lpos !! li) as [l|] eqn:El.
  2:{ exists None, li, ri. split_and!; try done. apply lookup_ge_None in El. by rewrite drop_ge by lia. }
  assert (near_pairs d (drop li lpos) rpos = match first_near d rpos l with Some r => (l, r) :: near_pairs d (drop (S li) lpos) rpos | None => near_pairs d (drop (S li) lpos) rpos end) as Hpairs.
  { rewrite (drop_S lpos l li El). unfold near_pairs. cbn [omap list_omap]. by destruct (first_near d rpos l). }
  assert (passed (S li) ri) as Hp' by (intros i j x y Hi; apply Hp; lia). pose proof (lookup_lt_Some _ _ _ El) as Hlen.
  destruct (rpos !! ri) as [r|] eqn:Er.
  2:{ exists None, li, ri. split_and!; try done. apply lookup_ge_None in Er.
      assert (forall x i, (li <= i)%nat -> lpos !! i = Some x -> first_near d rpos x = None) as Hnone.
      { intros x i Hi Hx. apply not_near_none. intros j r Hj. apply behind_near; [done|]. apply (Hp i j); try done. apply lookup_lt_Some in Hj. lia. }
      apply omap_none. intros x [i Hx]%list_elem_of_lookup. rewrite lookup_drop in Hx. by rewrite (Hnone x (li + i)%nat) by (done || lia). }
  rewrite diff_near; [|done|exact (lookup_ok lpos li l l_ok El)|exact (lookup_ok rpos ri r r_ok Er)]. case_bool_decide as Hn.
  { exists (Some (l, r)), (S li), ri. split; [done|]. split; [done|]. split; [lia|]. split; [|lia]. rewrite Hpairs, (first_is_near l ri r); [done|done|done|].
    intros i r' Hi Hr'. apply behind_near; [done|]. by apply (Hp li i). }
  destruct (Z.compare_spec l r) as [->|Hlr|Hlr]; [by destruct (Hn (near_self d r d_ok))|..].
  - assert (first_near d rpos l = None) as Hnone.
    { apply not_near_none. intros j r' Hj. destruct (decide (j < ri)%nat); [apply behind_near; [done|]; by apply (Hp li j)|].
      apply (ahead_near d l r r' d_ok Hn Hlr). eapply sorted_lookup; [apply r_ok|exact Er|exact Hj|lia]. }
    rewrite Hnone in Hpairs. destruct (IH (S li) ri Hp') as (res & li' & ri' & Hnx & Hp'' & Hle & Hres); [lia|].
    exists res, li', ri'. split_and!; [done|done|lia|]. rewrite Hpairs. destruct res; [|done]. destruct Hres. split; [done|lia].
  - destruct (IH li (S ri)) as (res & li' & ri' & Hnx & Hp'' & Hle & Hres); [|pose proof (lookup_lt_Some _ _ _ Er); lia|by exists res, li', ri'].
    intros i j x y Hi Hj Hx Hy. destruct (decide (j = ri)) as [->|]; [|apply (Hp i j); try done; lia]. simplify_eq.
    apply (behind_le d l x); [by apply before_behind|]. eapply sorted_lookup; [apply l_ok|exact El|exact Hx|done].
Qed.

Lemma pairs_from_spec fuel li ri : passed li ri -> (length lpos - li < fuel)%nat ->
  pairs_from fuel (mkProxIter d lpos rpos li ri) = Some (near_pairs d (drop li lpos) rpos).
Proof.
  revert li ri. induction fuel as [|fuel IH]; intros li ri Hp Hf; [lia|]. cbn [pairs_from].
  destruct (pair_next_spec (iter_fuel (mkProxIter d lpos rpos li ri)) li ri Hp) as (res & li' & ri' & Hnx & Hp' & Hle & Hres); [unfold iter_fuel; cbn; lia|].
  rewrite Hnx. cbn [mbind option_bind]. destruct res as [p|]; [|by rewrite Hres]. destruct Hres as [Hr Hlt]. rewrite Hr, IH by (done || lia). done.
Qed.

(** The iterator returns every left position that has a right one near it, with the first such. *)
Lemma pairs_spec : pairs (iter_new d lpos rpos) = Some (near_pairs d lpos rpos).
Proof. unfold pairs, iter_new. cbn [it_lpos]. rewrite pairs_from_spec; [by rewrite drop_0|intros i j l r Hi Hj; lia|lia]. Qed.

Lemma next_first : exists it', next (iter_fuel (iter_new d lpos rpos)) (iter_new d lpos rpos) = Some (head (near_pairs d lpos rpos), it').
Proof.
  destruct (pair_next_spec (iter_fuel (iter_new d lpos rpos)) 0 0) as (res & li' & ri' & Hnx & _ & _ & Hres); [intros i j l r Hi Hj; lia|unfold iter_fuel; cbn; lia|].
  exists (mkProxIter d lpos rpos li' ri'). change (mkProxIter d lpos rpos 0 0) with (iter_new d lpos rpos) in Hnx. rewrite Hnx. rewrite drop_0 in Hres. destruct res; [by destruct Hres as [-> _]|by rewrite Hres].
Qed.

End pairs.

Lemma near_pairs_nil d lpos rpos : near_pairs d lpos rpos <> [] <-> exists l r, l ∈ lpos /\ r ∈ rpos /\ near d l r.
Proof.
  split.
  - intros Hne. destruct (near_pairs d lpos rpos) as [|p ps] eqn:E; [done|]. assert (p ∈ near_pairs d lpos rpos) as Hp by (rewrite E; by left).
    apply list_elem_of_omap in Hp as (l & Hl & Hp). unfold first_near in Hp. destruct (filter (near d l) rpos) as [|r rs] eqn:Ef; [done|].
    assert (r ∈ filter (near d l) rpos) as Hr by (rewrite Ef; by left). apply list_elem_of_filter in Hr as [Hn Hr]. by exists l, r.
  - intros (l & r & Hl & Hr & Hn) Hnil. assert (r ∈ filter (near d l) rpos) as Hf by by apply list_elem_of_filter.
    destruct (filter (near d l) rpos) as [|r' rs] eqn:Ef; [by apply not_elem_of_nil in Hf|].
    assert ((l, r') ∈ near_pairs d lpos rpos) as Hin by (apply list_elem_of_omap; exists l; unfold first_near; by rewrite Ef).
    rewrite Hnil in Hin. by apply not_elem_of_nil in Hin.
Qed.

(** ** The scorer *)

(** Documents in order, with positions. *)
Definition entry_ok (e : Z * (list Z * list Z)) : Prop := e.1 <> TERMINATED /\ positions_ok e.2.1 /\ positions_ok e.2.2.

Section scorer.
Variables (fieldnorm_id : Z -> Z) (d : ProximityDistance) (w : option (Z -> Z -> Score)).
Hypothesis d_ok : distance_ok d.

(** The pairs of an entry, and the score of its document. *)
Definition entry_pairs (e : Z * (list Z * list Z)) : list (Z * Z) := near_pairs d e.2.1 e.2.2.
Definition entry_score (e : Z * (list Z * list Z)) : Score :=
  match w with Some w => w (fieldnorm_id e.1) (u32 (Z.of_nat (length (entry_pairs e)))) | None => one_score end.

Abbreviation matching := (fun e => entry_pairs e <> []).

(** The scorer is at a document that matches, or at the end. *)
Definition at_match (s : ProximityScorer) : Prop :=
  ps_distance s = d /\ weight_opt s = w /\ Forall entry_ok (intersection s) /\
  match intersection s with
  | [] => True
  | e :: _ => matching e /\ (is_Some w -> nmatches s = Z.of_nat (length (entry_pairs e)))
  end.

Lemma prox_match_spec s e l : ps_distance s = d -> weight_opt s = w -> intersection s = e :: l -> entry_ok e ->
  exists s', prox_match s = Some (bool_decide (matching e), s') /\ ps_distance s' = d /\ weight_opt s' = w /\ intersection s' = e :: l /\
    (is_Some w -> nmatches s' = Z.of_nat (length (entry_pairs e))).
Proof.
  intros Hd Hw Hi (_ & Hl & Hr). unfold prox_match, prox_iter. rewrite Hi, Hd, Hw. destruct e as [n [lp rp]]. cbn [fst snd weight_opt] in *.
  unfold entry_pairs. cbn [fst snd]. destruct w as [wf|].
  - rewrite pairs_spec by done. cbn [mbind option_bind intersection ps_distance lpos rpos].
    assert ((Z.of_nat (length (near_pairs d lp rp)) >? 0) = bool_decide (near_pairs d lp rp <> [])) as ->; [|by eexists].
    apply eq_true_iff_eq. rewrite bool_decide_eq_true. destruct (near_pairs d lp rp); cbn; [done|]. by split.
  - destruct (next_first d lp rp) as [it' Hnx]; [done..|]. rewrite Hnx. cbn [mbind option_bind].
    assert (match head (near_pairs d lp rp) with Some _ => true | None => false end = bool_decide (near_pairs d lp rp <> [])) as ->.
    { apply eq_true_iff_eq. rewrite bool_decide_eq_true. by destruct (near_pairs d lp rp). }
    eexists. split; [reflexivity|]. by split_and!; try done; intros [? ?].
Qed.

Lemma prox_advance_spec fuel s : ps_distance s = d -> weight_opt s = w -> Forall entry_ok (intersection s) -> (length (intersection s) < fuel)%nat ->
  exists s', prox_advance fuel s = Some (prox_doc s', s') /\ at_match s' /\ filter matching (intersection s') = filter matching (tail (intersection s)) /\
    (length (intersection s') <= pred (length (intersection s)))%nat.
Proof.
  revert s. induction fuel as [|fuel IH]; intros s Hd Hw Hall Hf; [lia|]. cbn [prox_advance].
  destruct (intersection s) as [|e0 l] eqn:Ei.
  { exists (inner_advance s). unfold inner_advance, prox_doc, at_match. rewrite Ei. cbn [tail intersection ps_distance weight_opt]. by rewrite Z.eqb_refl. }
  apply Forall_cons in Hall as [_ Hall]. destruct l as [|e l].
  { exists (inner_advance s). unfold inner_advance, prox_doc, at_match. rewrite Ei. cbn [tail intersection ps_distance weight_opt]. rewrite Z.eqb_refl. split_and!; try done; cbn; lia. }
  apply Forall_cons in Hall as [He Hall]. destruct (prox_match_spec (inner_advance s) e l) as (s' & Hm & Hd' & Hw' & Hi' & Hn'); [done|done|by unfold inner_advance; cbn; rewrite Ei|done|].
  assert (prox_doc (inner_advance s) = e.1) as -> by (unfold prox_doc, inner_advance; cbn; by rewrite Ei).
  rewrite (proj2 (Z.eqb_neq _ _)) by apply He. rewrite Hm. cbn [mbind option_bind]. case_bool_decide as Hmatch.
  - exists s'. split; [done|]. split.
    { unfold at_match. rewrite Hi'. split_and!; try done. by constructor. }
    rewrite Hi'. cbn. split; [done|lia].
  - destruct (IH s' Hd' Hw') as (s'' & Ha & Hat & Hfl & Hlen); [rewrite Hi'; by constructor|rewrite Hi'; cbn in *; lia|]. exists s''. split_and!; [done|done| |].
    + rewrite Hfl, Hi'. cbn [tail]. by rewrite filter_cons, decide_False by (by intros ?).
    + rewrite Hi' in Hlen. cbn in *. lia.
Qed.

(** A scorer at a match walks over the documents that match. *)
Lemma scorer_enumerates s : at_match s ->
  enumerates (H := ProximityScorer_scorer fieldnorm_id) s ((fun e => (e.1, entry_score e)) <$> filter matching (intersection s)).
Proof.
  remember (length (intersection s)) as n eqn:En. revert s En. induction n as [n IH] using lt_wf_ind. intros s -> Hat.
  pose proof Hat as (Hd & Hw & Hall & Hm). destruct (prox_advance_spec (advance_fuel s) s Hd Hw Hall) as (s' & Ha & Hat' & Hfl & Hlen); [unfold advance_fuel; lia|].
  destruct (intersection s) as [|e l] eqn:Ei.
  - assert (inner_advance s = s) as Hs by (destruct s; cbn in *; by subst). constructor; [by cbn; unfold prox_doc; rewrite Ei|].
    cbn [advance ProximityScorer_scorer]. unfold advance_fuel. cbn [prox_advance]. rewrite Hs. unfold prox_doc. by rewrite Ei.
  - destruct Hm as [Hm Hn]. rewrite filter_cons, decide_True by done. cbn [fmap list_fmap]. apply Forall_cons in Hall as [He Hall].
    assert (prox_doc s = e.1) as Hdoc by (unfold prox_doc; by rewrite Ei).
    assert (prox_score fieldnorm_id s = entry_score e) as Hsc.
    { unfold prox_score, entry_score. rewrite Hw, Hdoc. destruct w; [|done]. by rewrite Hn. }
    cbn [tail] in Hfl. rewrite <- Hfl, <- Hdoc, <- Hsc. eapply (enumerates_doc (H := ProximityScorer_scorer fieldnorm_id) s s'); [|exact Ha|].
    + cbn. rewrite Hdoc. apply He.
    + apply (IH (length (intersection s'))); [cbn in *; lia|done|done].
Qed.

(** A new scorer is at the first match. *)
Lemma scorer_new_spec union intersect (left right : list Postings) : Forall entry_ok (intersect (union left) (union right)) ->
  exists s, scorer_new union intersect left d right w = Some s /\ at_match s /\ filter matching (intersection s) = filter matching (intersect (union left) (union right)).
Proof.
  intros Hall. unfold scorer_new. set (s0 := mkProximityScorer _ _ _ _ _ _). destruct (intersect (union left) (union right)) as [|e l] eqn:Ei.
  { exists s0. unfold prox_doc. cbn [intersection s0]. rewrite Z.eqb_refl. done. }
  apply Forall_cons in Hall as [He Hall]. destruct (prox_match_spec s0 e l) as (s' & Hm & Hd' & Hw' & Hi' & Hn'); [done..|].
  unfold prox_doc. cbn [intersection s0]. rewrite (proj2 (Z.eqb_neq _ _)) by apply He. rewrite Hm. cbn [mbind option_bind]. case_bool_decide as Hmatch.
  - exists s'. split; [done|]. rewrite Hi'. split; [|done]. unfold at_match. rewrite Hi'. split_and!; try done. by constructor.
  - destruct (prox_advance_spec (advance_fuel s') s' Hd' Hw') as (s'' & Ha & Hat & Hfl & _); [rewrite Hi'; by constructor|unfold advance_fuel; lia|].
    rewrite Ha. cbn [mbind option_bind]. exists s''. split; [done|]. split; [done|]. rewrite Hfl, Hi'. cbn [tail]. by rewrite filter_cons, decide_False by (by intros ?).
Qed.

End scorer.

(** * Queries on a segment *)

(** ** Postings *)

(** Documents in order, with positions in any order. *)
Definition listed (p : Postings) : Prop :=
  StronglySorted Z.lt p.*1 /\ Forall (fun e => 0 <= e.1 < TERMINATED /\ Forall position_ok e.2) p.

(** What tantivy documents of a union and of an intersection: the documents in any, or both, with
    the positions of each in order. *)
Class DocSets (union : list Postings -> Postings) (intersect : Postings -> Postings -> list (Z * (list Z * list Z))) : Prop := {
  ds_listed : forall ps, Forall listed ps -> listed (union ps) /\ Forall (fun e => StronglySorted Z.le e.2) (union ps);
  ds_union : forall ps d x, Forall listed ps ->
    (exists pos, (d, pos) ∈ union ps /\ x ∈ pos) <-> exists p pos, p ∈ ps /\ (d, pos) ∈ p /\ x ∈ pos;
  ds_intersect : forall a b d l r, listed a -> listed b -> (d, (l, r)) ∈ intersect a b <-> (d, l) ∈ a /\ (d, r) ∈ b;
}.

(** A clause without proximity clauses in it. *)
Fixpoint plain (c : ProximityClause) : bool :=
  match c with Proximity _ _ _ => false | Clauses l => forallb plain l | _ => true end.

(** Induction on clauses. *)
Section induction.
Variable Pr : ProximityClause -> Prop.
Hypotheses (h_u : Pr Uninitialized) (h_t : forall s, Pr (Term s)) (h_r : forall p n, Pr (Regex p n))
  (h_c : forall l, Forall Pr l -> Pr (Clauses l)) (h_p : forall l d r, Pr l -> Pr r -> Pr (Proximity l d r)).

Fixpoint clause_induction (c : ProximityClause) : Pr c :=
  match c with
  | Uninitialized => h_u
  | Term s => h_t s
  | Regex p n => h_r p n
  | Clauses l => h_c l ((fix go l : Forall Pr l := match l with [] => Forall_nil_2 Pr | c :: l => Forall_cons_2 Pr c l (clause_induction c) (go l) end) l)
  | Proximity l d r => h_p l d r (clause_induction l) (clause_induction r)
  end.

End induction.

Section query.
Context {union : list Postings -> Postings} {intersect : Postings -> Postings -> list (Z * (list Z * list Z))} `{!DocSets union intersect}.
Variables (fieldnorm_id : Z -> Z) (search : string -> list string) (segment_postings : string -> option Postings) (regex_union : list string -> Postings).
Hypothesis postings_listed : forall t p, segment_postings t = Some p -> listed p.

(** With a segment at hand every pattern is replaced by all terms it matches: the limit of a
    pattern is not used. *)
Lemma terms_expanded which c t : t ∈ terms (Some search) which c -> exists s, t = TermStyle s.
Proof.
  revert t. induction c as [|s|p n|l IH|l d r IHl IHr] using clause_induction; intros t Ht; cbn [terms] in Ht.
  - by apply not_elem_of_nil in Ht.
  - apply list_elem_of_singleton in Ht as ->. by eexists.
  - apply list_elem_of_fmap in Ht as (s & -> & _). by eexists.
  - apply list_elem_of_In, in_concat in Ht as (ts & Hts & Ht). apply in_map_iff in Hts as (c & <- & Hc). rewrite Forall_forall in IH.
    by apply (IH c (proj2 (list_elem_of_In _ _) Hc)), list_elem_of_In.
  - destruct which; [by apply IHl|by apply IHr|]. apply elem_of_app in Ht as [Ht|Ht]; [by apply IHl|by apply IHr].
Qed.

(** The terms of a side, patterns expanded. *)
Definition side_terms (which : WhichTerms) (c : ProximityClause) : list string := as_str <$> terms (Some search) which c.

(** Term [t] is at position [x] of document [d]. *)
Definition occurs (t : string) (d x : Z) : Prop := exists p pos, segment_postings t = Some p /\ (d, pos) ∈ p /\ x ∈ pos.

Lemma term_postings_in n ts p : (forall t, t ∈ ts -> exists s, t = TermStyle s) ->
  p ∈ term_postings search segment_postings regex_union n ts <-> exists t, t ∈ as_str <$> ts /\ segment_postings t = Some p.
Proof.
  induction ts as [|t ts IH]; intros Hts; cbn [term_postings].
  - split; [by intros ?%not_elem_of_nil|]. by intros (? & ?%not_elem_of_nil & _).
  - destruct (Hts t) as [s ->]; [by left|]. assert (forall t, t ∈ ts -> exists s, t = TermStyle s) as Hts' by (intros t Ht; apply Hts; by right).
    specialize (IH Hts'). cbn [fmap list_fmap as_str]. setoid_rewrite elem_of_cons. destruct (segment_postings s) as [q|] eqn:Es; [rewrite elem_of_cons|]; rewrite IH; naive_solver.
Qed.

(** The postings that the terms of a side have in the segment. *)
Definition side_postings (which : WhichTerms) (c : ProximityClause) : list Postings := omap segment_postings (side_terms which c).

Lemma term_postings_eq n ts : (forall t, t ∈ ts -> exists s, t = TermStyle s) ->
  term_postings search segment_postings regex_union n ts = omap segment_postings (as_str <$> ts).
Proof.
  induction ts as [|t ts IH]; intros Hts; [done|]. cbn [term_postings fmap list_fmap omap list_omap]. destruct (Hts t) as [s ->]; [by left|]. cbn [as_str].
  rewrite IH by (intros t Ht; apply Hts; by right). by destruct (segment_postings s).
Qed.

(** The postings of a plain side. *)
Lemma plain_postings w which nested c : plain c = true ->
  exists ps, read_postings union intersect search segment_postings regex_union w which nested c = Some ps /\ ps = side_postings which c /\ Forall listed ps /\
    forall d x, (exists p pos, p ∈ ps /\ (d, pos) ∈ p /\ x ∈ pos) <-> exists t, t ∈ side_terms which c /\ occurs t d x.
Proof.
  intros Hc. exists (term_postings search segment_postings regex_union 0 (terms (Some search) which c)).
  pose proof (fun p => term_postings_in 0 (terms (Some search) which c) p (terms_expanded which c)) as Hin. split; [by destruct c|].
  split; [apply term_postings_eq, terms_expanded|]. split.
  - apply Forall_forall. intros p (t & _ & Hp)%Hin. by eapply postings_listed.
  - intros d x. unfold occurs. split.
    + intros (p & pos & (t & Ht & Hp)%Hin & Hd & Hx). exists t. split; [done|]. by exists p, pos.
    + intros (t & Ht & p & pos & Hp & Hd & Hx). exists p, pos. split; [|done]. apply Hin. by exists t.
Qed.

Lemma intersect_ok a b : listed a -> listed b -> Forall (fun e => StronglySorted Z.le e.2) a -> Forall (fun e => StronglySorted Z.le e.2) b ->
  Forall entry_ok (intersect a b).
Proof.
  intros Ha Hb Sa Sb. apply Forall_forall. intros [d [l r]] [Hl Hr]%ds_intersect; [|done..]. destruct Ha as [_ Ha], Hb as [_ Hb].
  rewrite Forall_forall in Ha, Hb, Sa, Sb. specialize (Ha _ Hl). specialize (Hb _ Hr). specialize (Sa _ Hl). specialize (Sb _ Hr).
  unfold entry_ok, positions_ok. cbn [fst snd] in *. split_and!; try tauto. lia.
Qed.

Lemma listed_unique (p : Postings) d a b : listed p -> (d, a) ∈ p -> (d, b) ∈ p -> a = b.
Proof.
  intros [Hs _]. induction p as [|e p IH]; [by intros ?%not_elem_of_nil|]. cbn in Hs. apply StronglySorted_cons in Hs as [Hall Hs].
  assert (forall c, (e.1, c) ∉ p) as Hno. { intros c Hc. rewrite Forall_forall in Hall. specialize (Hall e.1). assert (e.1 ∈ p.*1) as He by (apply list_elem_of_fmap; by exists (e.1, c)). specialize (Hall He). lia. }
  intros [Ha|Ha]%elem_of_cons [Hb|Hb]%elem_of_cons; [congruence| | |by apply IH]; subst e; by destruct (Hno _ Hb) || by destruct (Hno _ Ha).
Qed.

(** How many left positions have a right one near them. *)
Definition near_count (d : ProximityDistance) (lpos rpos : list Z) : nat := length (filter (fun l => List.Exists (near d l) rpos) lpos).

Lemma near_pairs_count d lpos rpos : length (near_pairs d lpos rpos) = near_count d lpos rpos.
Proof.
  unfold near_count, near_pairs. induction lpos as [|l lpos IH]; [done|]. cbn [omap list_omap]. rewrite filter_cons. unfold first_near.
  destruct (filter (near d l) rpos) as [|r rs] eqn:Ef; cbn [head fmap option_fmap option_map].
  - rewrite decide_False; [done|]. intros (r & Hr & Hn)%List.Exists_exists. assert (r ∈ filter (near d l) rpos) as Hf by (apply list_elem_of_filter; by rewrite list_elem_of_In).
    rewrite Ef in Hf. by apply not_elem_of_nil in Hf.
  - rewrite decide_True; [cbn; by f_equal|]. assert (r ∈ filter (near d l) rpos) as Hf by (rewrite Ef; by left). apply list_elem_of_filter in Hf as [Hn Hr].
    apply List.Exists_exists. exists r. by rewrite <- list_elem_of_In.
Qed.


End query.

(** ** A small segment *)

Module SmallSegment.

Definition sort (l : list Z) : list Z := merge_sort Z.le (remove_dups l).

Lemma elem_of_sort l x : x ∈ sort l <-> x ∈ l.
Proof. unfold sort. rewrite merge_sort_Permutation. apply elem_of_remove_dups. Qed.

Lemma sort_sorted l : StronglySorted Z.le (sort l).
Proof. apply StronglySorted_merge_sort; [intros x y z; lia|intros x y; lia]. Qed.

Lemma sort_strict l : StronglySorted Z.lt (sort l).
Proof.
  assert (NoDup (sort l)) as Hnd by (unfold sort; rewrite merge_sort_Permutation; apply NoDup_remove_dups). pose proof (sort_sorted l) as Hs.
  induction (sort l) as [|x k IH]; [constructor|]. apply NoDup_cons in Hnd as [Hx Hnd]. apply StronglySorted_cons in Hs as [Hall Hs].
  apply StronglySorted_cons. split; [|by apply IH]. rewrite Forall_forall in *. intros y Hy. specialize (Hall y Hy). assert (x <> y) by congruence. lia.
Qed.

Definition positions_at (d : Z) (ps : list Postings) : list Z := concat (map snd (filter (fun e => e.1 = d) (concat ps))).
Definition union (ps : list Postings) : Postings := (fun d => (d, sort (positions_at d ps))) <$> sort ((concat ps).*1).
Definition intersect (a b : Postings) : list (Z * (list Z * list Z)) :=
  omap (fun e => (fun e' => (e.1, (e.2, e'.2))) <$> head (filter (fun e' => e'.1 = e.1) b)) a.

Lemma elem_of_concat {A} (ls : list (list A)) x : x ∈ concat ls <-> exists l, x ∈ l /\ l ∈ ls.
Proof. rewrite list_elem_of_In, in_concat. setoid_rewrite <- list_elem_of_In. naive_solver. Qed.

Lemma elem_of_positions d ps x : x ∈ positions_at d ps <-> exists p pos, p ∈ ps /\ (d, pos) ∈ p /\ x ∈ pos.
Proof.
  unfold positions_at. rewrite elem_of_concat. split.
  - intros (pos & Hx & Hpos). apply list_elem_of_In, in_map_iff in Hpos as ([d' pos'] & <- & Hf). apply list_elem_of_In, list_elem_of_filter in Hf as [Hd Hin].
    cbn in Hd. subst d'. apply elem_of_concat in Hin as (p & Hin & Hp). by exists p, pos'.
  - intros (p & pos & Hp & Hin & Hx). exists pos. split; [done|]. apply list_elem_of_In, in_map_iff. exists (d, pos). split; [done|].
    apply list_elem_of_In, list_elem_of_filter. split; [done|]. apply elem_of_concat. by exists p.
Qed.

#[global] Instance small_doc_sets : DocSets union intersect.
Proof.
  split.
  - intros ps Hps. assert (forall p, p ∈ ps -> listed p) as Hl by (by apply Forall_forall). split; [split|].
    + unfold union. rewrite <- list_fmap_compose. unfold compose. cbn. rewrite list_fmap_id. apply sort_strict.
    + apply Forall_fmap, Forall_forall. intros d Hd. rewrite elem_of_sort in Hd. apply list_elem_of_fmap in Hd as ([d' pos] & -> & Hin). cbn [fst snd compose].
      apply elem_of_concat in Hin as (p & Hin & Hp). destruct (Hl p Hp) as [_ Hall]. rewrite Forall_forall in Hall. split; [apply (Hall _ Hin)|].
      apply Forall_forall. intros x Hx'. rewrite elem_of_sort in Hx'. apply elem_of_positions in Hx' as (p' & pos' & Hp' & Hin' & Hx). destruct (Hl p' Hp') as [_ Hall']. rewrite Forall_forall in Hall'.
      specialize (Hall' _ Hin') as [_ Hpos]. rewrite Forall_forall in Hpos. by apply Hpos.
    + apply Forall_fmap, Forall_forall. intros d _. apply sort_sorted.
  - intros ps d x Hps. rewrite <- elem_of_positions. split.
    + intros (pos & (d' & [= -> ->] & _)%list_elem_of_fmap & Hx). by rewrite elem_of_sort in Hx.
    + intros Hx. exists (sort (positions_at d ps)). split; [|by apply elem_of_sort]. apply list_elem_of_fmap. exists d. split; [done|]. apply elem_of_sort.
      apply elem_of_positions in Hx as (p & pos & Hp & Hin & _). apply list_elem_of_fmap. exists (d, pos). split; [done|].
      apply elem_of_concat. by exists p.
  - intros a b d l r Ha Hb. unfold intersect. rewrite list_elem_of_omap. split.
    + intros ([d' l'] & Hin & He). cbn [fst snd] in He. destruct (filter _ b) as [|[d'' r'] rs] eqn:Ef; [done|]. injection He as -> -> ->.
      assert ((d'', r) ∈ filter (fun e' : Z * list Z => e'.1 = d) b) as Hf by (rewrite Ef; by left). by apply list_elem_of_filter in Hf as [<- Hf].
    + intros [Hl Hr]. exists (d, l). split; [done|]. cbn [fst snd]. destruct (filter (fun e' : Z * list Z => e'.1 = d) b) as [|[d' r'] rs] eqn:Ef.
      * assert ((d, r) ∈ filter (fun e' : Z * list Z => e'.1 = d) b) as Hf by by apply list_elem_of_filter. rewrite Ef in Hf. by apply not_elem_of_nil in Hf.
      * assert ((d', r') ∈ filter (fun e' : Z * list Z => e'.1 = d) b) as Hf by (rewrite Ef; by left). apply list_elem_of_filter in Hf as [Hd Hf]. cbn in Hd. subst d'.
        cbn. by rewrite (listed_unique b d r r' Hb Hr Hf).
Qed.

(** The document 3 is [a b b x x x x c], the document 5 is [c b]. *)
Definition postings (t : string) : option Postings :=
  if decide (t = "a"%string) then Some [(3, [0])] else if decide (t = "b"%string) then Some [(3, [1; 2]); (5, [1])]
  else if decide (t = "c"%string) then Some [(3, [7]); (5, [0])] else None.

Definition no_search (pattern : string) : list string := [].
Definition no_union (l : list string) : Postings := [].

Lemma postings_are t p : postings t = Some p -> listed p.
Proof.
  assert (forall l, Forall (fun x => 0 <= x < 8) l -> Forall position_ok l) as Hp by (intros l Hl; eapply Forall_impl; [exact Hl|]; unfold position_ok; cbn; intros; lia).
  assert (forall d l, 0 <= d < 8 -> Forall (fun x => 0 <= x < 8) l -> listed [(d, l)]) as H1.
  { intros d l Hd Hl. split; [apply SSorted_cons; constructor|]. apply Forall_singleton. cbn [fst snd]. split; [unfold TERMINATED; lia|by apply Hp]. }
  assert (forall d l e k, 0 <= d < e -> e < 8 -> Forall (fun x => 0 <= x < 8) l -> Forall (fun x => 0 <= x < 8) k -> listed [(d, l); (e, k)]) as H2.
  { intros d l e k Hd He Hl Hk. destruct (H1 e k) as [S F]; [lia|done|]. split.
    - apply SSorted_cons; [done|]. apply Forall_singleton. cbn. lia.
    - apply Forall_cons. cbn [fst snd]. split; [|done]. split; [unfold TERMINATED; lia|by apply Hp]. }
  unfold postings. repeat case_decide; intros [= <-]; [apply H1|apply H2|apply H2]; try lia; repeat constructor; lia.
Qed.

End SmallSegment.


(** Of several right positions near a left one, a nested clause passes on the first only.  In the
    document [a b b x x x x c] the second [b] has at most four tokens between it and each of [a]
    and [c], but [('a' ## 4 ## 'b') ## 4 ## 'c'] does not find it. *)
Theorem nested_proximity_misses :
  (exists a b c, occurs SmallSegment.postings "a" 3 a /\ occurs SmallSegment.postings "b" 3 b /\ occurs SmallSegment.postings "c" 3 c /\
    near (AnyOrder 4) a b /\ near (AnyOrder 4) b c) /\
  exists s, prox_scorer SmallSegment.union SmallSegment.intersect SmallSegment.no_search SmallSegment.postings SmallSegment.no_union None
    (mkProximityQuery (Proximity (Term "a") (AnyOrder 4) (Term "b")) (AnyOrder 4) (Term "c")) = Some (Some s) /\ prox_doc s = TERMINATED.
Proof.
  split.
  - exists 0, 2, 7. unfold occurs. split_and!; [by eexists _, _; split_and!; [done|left|left]| | |cbn; lia|cbn; lia].
    + eexists _, _. split_and!; [done|left|right; left].
    + eexists _, _. split_and!; [done|left|left].
  - eexists. split; [vm_compute; reflexivity|done].
Qed.
