(* ===== verification/SearchReader.v ===== *)
(** * Searching the segments of an index

    [index/reader/index.rs] and [index/reader/scorer.rs]: the documents that match a query, in no
    particular order or the first of them in the order of an ORDER BY, with their heap pointers
    and scores. *)

From stdpp Require Import prelude gmap strings.
From Stdlib Require Import ZArith Lia SpecFloat.
From S2P Require Import Prelude Query Terms Scorers Proximity.
From stdpp Require Import list.
Import Query Scorers.

Local Open Scope Z_scope.

Module SearchReader.

(** [tantivy::DocAddress] *)
Record DocAddress := mkDocAddress { segment_ord : Z; doc_id : Z }.

Record SearchIndexScore := mkScored { ctid : Z; bm25 : Score }.

Definition Result := (SearchIndexScore * DocAddress)%type.

(** ** ORDER BY *)

Inductive SortDirection := Asc | Desc.
Inductive OrderByFeature := ScoreOrder | FieldOrder (name : string).
Record OrderByInfo := mkOrderBy { feature : OrderByFeature; direction : SortDirection }.

Definition is_score (o : OrderByInfo) : bool := match feature o with ScoreOrder => true | _ => false end.

Definition MAX_TOPN_FEATURES : nat := 3.

(** tantivy's [FieldFeature] and [ScoreFeature], and what they are for a document. *)
Inductive Feature := FieldFeature (t : Terms.FieldType) (name : string) | ScoreFeature.

Definition output (f : Feature) : Type := match f with FieldFeature _ _ => Terms.OwnedValue | ScoreFeature => Score end.

(** The features of the types that can be sorted. *)
Definition field_feature {S E} (t : Terms.FieldType) (sort_field : string) : M S E Feature :=
  match t with
  | Terms.TStr | Terms.TU64 | Terms.TI64 | Terms.TF64 | Terms.TBool | Terms.TDate => mret (FieldFeature t sort_field)
  | _ => panic
  end.

Record ErasedFeatures := mkErasedFeatures { features : list (Feature * SortDirection); score_index : option nat }.

Definition erased_default : ErasedFeatures := mkErasedFeatures [] None.

(** [push_ff_feature] and [push_string_feature] *)
Definition push_feature (f : Feature) (d : SortDirection) (e : ErasedFeatures) : ErasedFeatures :=
  mkErasedFeatures (features e ++ [(f, d)]) (score_index e).

Definition push_score_feature (d : SortDirection) (e : ErasedFeatures) : ErasedFeatures :=
  mkErasedFeatures (features e ++ [(ScoreFeature, d)]) (Some (length (features e))).

(** [f as Score] of a double. *)
Definition as_score (x : spec_float) : Score :=
  match x with
  | S754_finite s m e => binary_normalize 24 128 (if s then Zneg m else Zpos m) e s
  | x => x
  end.

Definition try_get_score {S E} (e : ErasedFeatures) (values : list Terms.OwnedValue) : M S E (option Score) :=
  match score_index e with
  | None => mret None
  | Some i =>
      v ← unwrap (values !! i);
      match v with
      | Terms.F64 f => mret (Some (as_score f))
      | Terms.Null => mret None
      | _ => panic
      end
  end.

(** The order of scores; a NaN has none. *)
Definition score_cmp (a b : Score) : option comparison := SFcompare a b.

(** [AscendingScore] *)
Definition ascending_cmp (a b : Score) : option comparison := CompOpp <$> SFcompare a b.

(** ** Segments *)

Section reader.
Context {T : Type} `{Scorer T}.

(** A segment as the reader uses it: [sr_scorer] is the scorer of the query on it. *)
Record SegmentReader := mkSegmentReader {
  segment_id : Z; alive_bitset : option (Z -> bool); ctid_fast_field : Z -> option Z; sr_scorer : T }.

(** A scorer that is made when it is first used. *)
Record DeferredScorer := mkDeferredScorer { ds_reader : SegmentReader; ds_cell : option T }.

Definition deferred_new (r : SegmentReader) : DeferredScorer := mkDeferredScorer r None.

(** [get_or_init] *)
Definition deferred_scorer (d : DeferredScorer) : T := match ds_cell d with Some t => t | None => sr_scorer (ds_reader d) end.

#[global] Instance DeferredScorer_scorer : Scorer DeferredScorer := {
  doc d := doc (deferred_scorer d);
  advance d := '(i, t) ← advance (deferred_scorer d); Some (i, mkDeferredScorer (ds_reader d) (Some t));
  score d := score (deferred_scorer d);
}.

Record ScorerIter := mkScorerIter { deferred : DeferredScorer; si_segment_ord : Z; si_reader : SegmentReader }.

Definition scorer_iter_new (d : DeferredScorer) (ord : Z) (r : SegmentReader) : ScorerIter := mkScorerIter d ord r.

Definition is_alive (r : SegmentReader) (doc_id : Z) : bool := match alive_bitset r with Some alive => alive doc_id | None => true end.

Fixpoint scorer_iter_next (fuel : nat) : M ScorerIter unit (option (Score * DocAddress)) :=
  match fuel with
  | O => out_of_fuel
  | S fuel =>
      d ← gets deferred; r ← gets si_reader; ord ← gets si_segment_ord;
      let doc_id := doc d in
      if doc_id =? TERMINATED then mret None
      else
        let this := (score d, mkDocAddress ord doc_id) in
        match advance d with
        | None => out_of_fuel
        | Some (_, d') =>
            modify (fun _ => mkScorerIter d' ord r);;
            if is_alive r doc_id then mret (Some this) else scorer_iter_next fuel
        end
  end.

(** ** Results in no particular order *)

(** [iterators]: the last one is the current one. *)
Record MultiSegmentSearchResults := mkMulti { iterators : list ScorerIter; ctid_column : option (Z -> option Z) }.

(** More turns than a segment has documents. *)
Variable docs_fuel : nat.

(** [Searcher::segment_readers] *)
Variable segment_readers : list SegmentReader.

Definition segment_reader {S E} (ord : Z) : M S E SegmentReader := unwrap (segment_readers !! Z.to_nat ord).

(** [self.iterators.last_mut()?.next()]; [None]: there is no iterator. *)
Definition last_next : M MultiSegmentSearchResults unit (option (option (Score * DocAddress))) := fun s =>
  match last (iterators s) with
  | None => (Ok None, s)
  | Some it =>
      let '(r, it') := scorer_iter_next docs_fuel it in
      (match r with Ok x => Ok (Some x) | Err e => Err e | Panic => Panic | OutOfFuel => OutOfFuel end,
       mkMulti (take (length (iterators s) - 1) (iterators s) ++ [it']) (ctid_column s))
  end.

Definition pop_segment (s : MultiSegmentSearchResults) : MultiSegmentSearchResults :=
  mkMulti (take (length (iterators s) - 1) (iterators s)) None.

Fixpoint multi_next (fuel : nat) : M MultiSegmentSearchResults unit (option Result) :=
  match fuel with
  | O => out_of_fuel
  | S fuel =>
      r ← last_next;
      match r with
      | None => mret None
      | Some (Some (sc, addr)) =>
          cached ← gets ctid_column;
          ctid_ff ← (match cached with
                     | Some c => mret c
                     | None => r ← segment_reader (segment_ord addr); mret (ctid_fast_field r)
                     end);
          modify (fun s => mkMulti (iterators s) (Some ctid_ff));;
          c ← unwrap (ctid_ff (doc_id addr));
          mret (Some (mkScored c sc, addr))
      | Some None => modify pop_segment;; multi_next fuel
      end
  end.

Definition multi_step : M MultiSegmentSearchResults unit (option Result) := fun s => multi_next (S (length (iterators s))) s.

(** [.find(|(_, reader)| reader.segment_id() == segment_id)] *)
Definition find_segment {S E} (id : Z) : M S E (Z * SegmentReader) :=
  '(ord, r) ← unwrap (list_find (fun r => segment_id r = id) segment_readers); mret (Z.of_nat ord, r).

Fixpoint segment_readers_in_segments {S E} (segment_ids : list Z) : M S E (list (Z * SegmentReader)) :=
  match segment_ids with
  | [] => mret []
  | id :: ids => r ← find_segment id; rs ← segment_readers_in_segments ids; mret (r :: rs)
  end.

Definition search_segments {S E} (segment_ids : list Z) : M S E MultiSegmentSearchResults :=
  rs ← segment_readers_in_segments segment_ids;
  mret (mkMulti ((fun '(ord, r) => scorer_iter_new (deferred_new r) ord r) <$> rs) None).

Definition search {S E} : M S E MultiSegmentSearchResults := search_segments (segment_id <$> segment_readers).

(** [.take(n).collect()]; the iterator stops at its end. *)
Fixpoint take_results (fuel : nat) (n : Z) : M MultiSegmentSearchResults unit (list Result) :=
  if n <=? 0 then mret []
  else match fuel with
  | O => out_of_fuel
  | S fuel =>
      r ← multi_step;
      match r with
      | None => mret []
      | Some x => rest ← take_results fuel (n - 1); mret (x :: rest)
      end
  end.

(** ** The first results *)

Context {A : Type}.

(** [results]: what is left of the iterator. *)
Record TopNSearchResults := mkTopNSearchResults {
  results_original_len : Z; results : list Result; aggregation_results : option A }.

Definition results_new (l : list Result) (agg : option A) : TopNSearchResults := mkTopNSearchResults (Z.of_nat (length l)) l agg.

Definition results_empty : TopNSearchResults := results_new [] None.

Definition results_next (r : TopNSearchResults) : option Result * TopNSearchResults :=
  match results r with
  | [] => (None, r)
  | x :: l => (Some x, mkTopNSearchResults (results_original_len r) l (aggregation_results r))
  end.

Definition original_len (r : TopNSearchResults) : Z := results_original_len r.

Definition take_aggregation_results (r : TopNSearchResults) : option A * TopNSearchResults :=
  (aggregation_results r, mkTopNSearchResults (results_original_len r) (results r) None).

(** The heap pointers of the documents; [ff_lookup] keeps the column of each segment. *)
Fixpoint lookup_ctids {S E} (ff_lookup : gmap Z (Z -> option Z)) (l : list (Score * DocAddress)) : M S E (list Result) :=
  match l with
  | [] => mret []
  | (sc, addr) :: l =>
      col ← (match ff_lookup !! segment_ord addr with
             | Some c => mret c
             | None => r ← segment_reader (segment_ord addr); mret (ctid_fast_field r)
             end);
      c ← unwrap (col (doc_id addr));
      rest ← lookup_ctids (<[segment_ord addr := col]> ff_lookup) l;
      mret ((mkScored c sc, addr) :: rest)
  end.

Definition new_for_score {S E} (l : list (Score * DocAddress)) (agg : option A) : M S E TopNSearchResults :=
  rs ← lookup_ctids ∅ l; mret (results_new rs agg).

Definition new_for_discarded_field {V S E} (r : list ((V * option Score) * DocAddress) * option A) : M S E TopNSearchResults :=
  new_for_score ((fun '((_, sc), d) => (default Proximity.one_score sc, d)) <$> r.1) r.2.

Definition search_top_n_unordered_in_segments {S E} (segment_ids : list Z) (n offset : Z) : M S E TopNSearchResults :=
  m ← search_segments segment_ids;
  let fuel := (1 + length segment_ids * docs_fuel)%nat in
  match (take_results fuel offset;; take_results fuel n) m with
  | (Ok l, _) => mret (results_new l None)
  | (Err _, _) | (Panic, _) => panic
  | (OutOfFuel, _) => out_of_fuel
  end.

(** *** Ordered results

    [TopDocs::with_limit(n).and_offset(offset)] of tantivy, with [order_by], and by the score
    with the order of scores given. *)

Variable order_by : forall f : Feature, SortDirection -> list (Feature * SortDirection) -> list Z -> Z -> Z ->
  list ((output f * list Terms.OwnedValue) * DocAddress).
Variable by_score : (Score -> Score -> option comparison) -> list Z -> Z -> Z -> list (Score * DocAddress).

(** [SearchIndexSchema::search_field], and whether the scan needs scores. *)
Variables (search_field : string -> option Terms.SearchField) (need_scores : bool).

(** [TopDocs::with_limit] *)
Definition with_limit {S E} (n : Z) : M S E unit := if n <? 1 then panic else mret tt.

Definition erase {S E} (o : OrderByInfo) (e : ErasedFeatures) : M S E ErasedFeatures :=
  match feature o with
  | FieldOrder sort_field =>
      field ← unwrap (search_field sort_field);
      f ← field_feature (Terms.sf_field_type field) sort_field;
      mret (push_feature f (direction o) e)
  | ScoreOrder => mret (push_score_feature (direction o) e)
  end.

Fixpoint erase_all {S E} (os : list OrderByInfo) (e : ErasedFeatures) : M S E ErasedFeatures :=
  match os with [] => mret e | o :: os => e' ← erase o e; erase_all os e' end.

Definition prepare_features {S E} (orderby_infos : list OrderByInfo) : M S E (OrderByInfo * ErasedFeatures) :=
  match orderby_infos with
  | [] => panic
  | first :: remainder =>
      e ← erase_all remainder erased_default;
      mret (first, if need_scores && bool_decide (score_index e = None) && negb (is_score first) then push_score_feature Desc e else e)
  end.

(** [collector.merge_fruits(self.collect_segments(..))], with the aggregation if there is one. *)
Definition collect_segments {B S E} (segment_ids : list Z) (n : Z) (top_docs : list Z -> list B) (agg : option (list Z -> A)) :
    M S E (list B * option A) :=
  with_limit n;;
  rs ← segment_readers_in_segments segment_ids;
  mret (top_docs rs.*1, (fun c => c rs.*1) <$> agg).

Fixpoint with_scores {V S E} (e : ErasedFeatures) (l : list ((V * list Terms.OwnedValue) * DocAddress)) : M S E (list ((V * option Score) * DocAddress)) :=
  match l with
  | [] => mret []
  | ((f, values), d) :: l => sc ← try_get_score e values; rest ← with_scores e l; mret (((f, sc), d) :: rest)
  end.

Definition top_in_segments {S E} (segment_ids : list Z) (first : Feature) (dir : SortDirection) (e : ErasedFeatures) (n offset : Z)
    (agg : option (list Z -> A)) : M S E (list ((output first * option Score) * DocAddress) * option A) :=
  if Nat.eqb (length (features e)) 0 then
    '(top_docs, a) ← collect_segments segment_ids n (fun segs => order_by first dir [] segs n offset) agg;
    mret ((fun '((f, _), d) => ((f, None), d)) <$> top_docs, a)
  else if Nat.leb (length (features e)) 2 then
    '(top_docs, a) ← collect_segments segment_ids n (fun segs => order_by first dir (features e) segs n offset) agg;
    l ← with_scores e top_docs;
    mret (l, a)
  else panic.

Definition top_by_score_in_segments {S E} (segment_ids : list Z) (sortdir : SortDirection) (n offset : Z) (agg : option (list Z -> A)) :
    M S E TopNSearchResults :=
  let cmp := match sortdir with Asc => ascending_cmp | Desc => score_cmp end in
  '(top_docs, a) ← collect_segments segment_ids n (fun segs => by_score cmp segs n offset) agg;
  new_for_score top_docs a.

Definition search_top_n_in_segments {S E} (segment_ids : list Z) (orderby_info : list OrderByInfo) (n offset : Z) (agg : option (list Z -> A)) :
    M S E TopNSearchResults :=
  '(first, e) ← prepare_features orderby_info;
  match feature first with
  | FieldOrder sort_field =>
      field ← unwrap (search_field sort_field);
      f ← field_feature (Terms.sf_field_type field) sort_field;
      r ← top_in_segments segment_ids f (direction first) e n offset agg;
      new_for_discarded_field r
  | ScoreOrder =>
      if Nat.eqb (length (features e)) 0 then top_by_score_in_segments segment_ids (direction first) n offset agg
      else
        '(top_docs, a) ← top_in_segments segment_ids ScoreFeature (direction first) e n offset agg;
        new_for_score ((fun '((f, _), d) => (f, d)) <$> top_docs) a
  end.

End reader.

Arguments SegmentReader : clear implicits.
Arguments ScorerIter : clear implicits.
Arguments MultiSegmentSearchResults : clear implicits.
Arguments TopNSearchResults : clear implicits.

End SearchReader.
