(* ===== verification/SearchReaderProps.v ===== *)
(** * What the reader finds

    The results of a search are parts of one ranking of the live documents that match in the
    segments, each with its own heap pointer and score. *)

From stdpp Require Import prelude gmap strings sorting.
From Stdlib Require Import ZArith Lia SpecFloat.
From S2P Require Import Prelude Query Terms Scorers ScorersProps Proximity SearchReader.
From stdpp Require Import list.
Import Query Scorers SearchReader.

Local Open Scope Z_scope.

Section reader.
Context {T : Type} `{Scorer T} (docs_fuel : nat) (segment_readers : list (SegmentReader T)).

(** The documents of the query in a segment. *)
Variable docs : SegmentReader T -> list (Z * Score).

(** What is left to read of a segment with this number. *)
Record Rest := mkRest { rest_ord : Z; rest_reader : SegmentReader T; rest_docs : list (Z * Score) }.

Definition item (ord : Z) (r : SegmentReader T) (e : Z * Score) : Result :=
  (mkScored (default 0 (ctid_fast_field r e.1)) e.2, mkDocAddress ord e.1).

Definition live (r : SegmentReader T) (l : list (Z * Score)) : list (Z * Score) := filter (fun e => is_alive r e.1 = true) l.

Definition found (x : Rest) : list Result := item (rest_ord x) (rest_reader x) <$> live (rest_reader x) (rest_docs x).

(** The last segment is read first. *)
Definition pending (xs : list Rest) : list Result := concat (reverse (found <$> xs)).

Lemma pending_snoc xs x : pending (xs ++ [x]) = found x ++ pending xs.
Proof. unfold pending. by rewrite fmap_app, reverse_app. Qed.

(** A segment of the reader whose documents have heap pointers. *)
Definition segment_ok (x : Rest) : Prop :=
  segment_readers !! Z.to_nat (rest_ord x) = Some (rest_reader x) /\ (length (rest_docs x) < docs_fuel)%nat /\
  Forall (fun e => is_Some (ctid_fast_field (rest_reader x) e.1)) (rest_docs x).

Definition iter_at (it : ScorerIter T) (x : Rest) : Prop :=
  enumerates (deferred_scorer (deferred it)) (rest_docs x) /\ si_segment_ord it = rest_ord x /\ si_reader it = rest_reader x.

Lemma iter_next_spec fuel it x : iter_at it x -> (length (rest_docs x) < fuel)%nat ->
  exists it' rest, let x' := mkRest (rest_ord x) (rest_reader x) rest in
    iter_at it' x' /\ suffix rest (rest_docs x) /\
    ((live (rest_reader x) (rest_docs x) = [] /\ live (rest_reader x) rest = [] /\ scorer_iter_next fuel it = (Ok None, it')) \/
     exists e, e ∈ rest_docs x /\ live (rest_reader x) (rest_docs x) = e :: live (rest_reader x) rest /\
       scorer_iter_next fuel it = (Ok (Some (e.2, mkDocAddress (rest_ord x) e.1)), it')).
Proof.
  revert it x. induction fuel as [|fuel IH]; intros it [ord r l]; cbn [rest_ord rest_reader rest_docs]; intros (Hen & Ho & Hr) Hf; [lia|].
  cbn [rest_ord rest_reader rest_docs] in *. destruct it as [d o r']. cbn [deferred si_segment_ord si_reader] in *. subst o r'.
  cbn [scorer_iter_next]. rewrite !bind_gets. cbn [deferred si_segment_ord si_reader]. cbn [doc advance score DeferredScorer_scorer].
  inversion Hen as [t Hd Ha Ht|t t' l' Hd Ha Hen' Ht]; subst.
  - rewrite Hd, Z.eqb_refl. eexists (mkScorerIter d ord r), []. split; [done|]. split; [done|]. left. done.
  - rewrite (proj2 (Z.eqb_neq _ _) Hd), Ha. cbn [mbind option_bind]. rewrite bind_modify. set (d' := mkDeferredScorer (ds_reader d) (Some t')).
    unfold live at 1 3. rewrite filter_cons. cbn [fst]. destruct (is_alive r (doc (deferred_scorer d))) eqn:Ea.
    + rewrite decide_True by done. eexists (mkScorerIter d' ord r), l'. split; [done|]. split; [by eexists [_]|]. right. eexists. split; [by left|]. done.
    + rewrite decide_False by done. destruct (IH (mkScorerIter d' ord r) (mkRest ord r l')) as (it' & rest & Hat & Hsuf & Hcase); [done|cbn in *; lia|].
      cbn [rest_ord rest_reader rest_docs] in *. exists it', rest. split; [done|]. split; [by apply suffix_cons_r|].
      destruct Hcase as [Hc|(e & He & Hc)]; [by left|right]. exists e. split; [by right|done].
Qed.

Lemma ok_suffix x rest : segment_ok x -> suffix rest (rest_docs x) -> segment_ok (mkRest (rest_ord x) (rest_reader x) rest).
Proof.
  intros (H1 & H2 & H3) [k Hk]. rewrite Hk in H2, H3. apply Forall_app in H3 as [_ H3]. rewrite length_app in H2. split; [done|]. split; [cbn; lia|done].
Qed.

(** The cached column is that of the current segment. *)
Definition multi_at (m : MultiSegmentSearchResults T) (xs : list Rest) : Prop :=
  Forall2 iter_at (iterators m) xs /\ Forall segment_ok xs /\
  (forall col, ctid_column m = Some col -> exists x, last xs = Some x /\ col = ctid_fast_field (rest_reader x)).

Lemma multi_next_spec fuel m xs : multi_at m xs -> (length xs < fuel)%nat ->
  exists m' xs', multi_next docs_fuel segment_readers fuel m = (Ok (head (pending xs)), m') /\ multi_at m' xs' /\ pending xs' = tail (pending xs).
Proof.
  revert m xs. induction fuel as [|fuel IH]; intros m xs (Hit & Hok & Hcol) Hf; [lia|]. cbn [multi_next].
  destruct m as [its cache]. cbn [iterators ctid_column] in *. destruct xs as [|x xs _] using rev_ind.
  { apply Forall2_nil_inv_r in Hit as ->. rewrite (bind_ok _ _ _ None (mkMulti [] cache)) by done. exists (mkMulti [] cache), []. by split_and!. }
  apply Forall2_app_inv_r in Hit as (its' & k & Hits & Hk & ->). apply Forall2_cons_inv_r in Hk as (it & k' & Hat & Hk & ->). apply Forall2_nil_inv_r in Hk as ->.
  apply Forall_app in Hok as [Hoks Hokx]. rewrite Forall_singleton in Hokx. pose proof Hokx as (Hseg & Hlen & Hcols). rewrite length_app in Hf. cbn in Hf.
  destruct (iter_next_spec docs_fuel it x Hat Hlen) as (it' & rest & Hat' & Hsuf & Hcase). cbv zeta in Hat'. set (x' := mkRest _ _ rest) in *.
  assert (forall v, scorer_iter_next docs_fuel it = (Ok v, it') -> last_next docs_fuel (mkMulti (its' ++ [it]) cache) = (Ok (Some v), mkMulti (its' ++ [it']) cache)) as Hlast.
  { intros v Hv. unfold last_next. cbn [iterators ctid_column]. rewrite last_snoc, Hv. rewrite length_app, Nat.add_sub, take_app_length. done. }
  rewrite pending_snoc. unfold found at 1 2. destruct Hcase as [(Hl & Hl' & Hn)|(e & He & Hl & Hn)].
  - rewrite (bind_ok _ _ _ _ _ (Hlast _ Hn)), bind_modify, Hl. cbn [fmap list_fmap app]. unfold pop_segment. cbn [iterators]. rewrite length_app, Nat.add_sub, take_app_length.
    destruct (IH (mkMulti its' None) xs) as (m' & xs' & Hm & Hat'' & Hp); [by split_and!|lia|]. by exists m', xs'.
  - rewrite (bind_ok _ _ _ _ _ (Hlast _ Hn)), bind_gets, Hl. cbn [fmap list_fmap app head tail ctid_column].
    rewrite (bind_ok _ _ _ (ctid_fast_field (rest_reader x)) (mkMulti (its' ++ [it']) cache)).
    2:{ destruct cache as [c|]; [|by cbn [segment_ord]; unfold segment_reader; rewrite Hseg]. destruct (Hcol c) as (y & Hy & ->); [done|]. rewrite last_snoc in Hy. by injection Hy as ->. }
    rewrite bind_modify. cbn [iterators doc_id]. rewrite Forall_forall in Hcols. destruct (Hcols e He) as [c Hc].
    rewrite (bind_ok _ _ _ c (mkMulti (its' ++ [it']) (Some (ctid_fast_field (rest_reader x))))) by (by rewrite Hc).
    eexists _, (xs ++ [x']). split; [unfold item; by rewrite Hc|]. split; [|by rewrite pending_snoc].
    split; [by apply Forall2_app; [|constructor]|]. split; [apply Forall_app; split; [done|by apply Forall_singleton, ok_suffix]|].
    intros col [= <-]. exists x'. by rewrite last_snoc.
Qed.

Lemma multi_step_spec m xs : multi_at m xs ->
  exists m' xs', multi_step docs_fuel segment_readers m = (Ok (head (pending xs)), m') /\ multi_at m' xs' /\ pending xs' = tail (pending xs).
Proof. intros Hat. apply multi_next_spec; [done|]. destruct Hat as (Hit & _). rewrite (Forall2_length _ _ _ Hit). lia. Qed.

Lemma take_results_spec fuel n m xs : multi_at m xs -> 0 <= n -> (length (pending xs) < fuel)%nat ->
  exists m' xs', take_results docs_fuel segment_readers fuel n m = (Ok (take (Z.to_nat n) (pending xs)), m') /\ multi_at m' xs' /\ pending xs' = drop (Z.to_nat n) (pending xs).
Proof.
  revert n m xs. induction fuel as [|fuel IH]; intros n m xs Hat Hn Hf; [lia|]. cbn [take_results]. destruct (Z.leb_spec n 0) as [Hle|Hgt].
  { assert (n = 0) as -> by lia. exists m, xs. by rewrite take_0, drop_0. }
  replace (Z.to_nat n) with (S (Z.to_nat (n - 1))) by lia. destruct (multi_step_spec m xs Hat) as (m' & xs' & Hs & Hat' & Hp). rewrite (bind_ok _ _ _ _ _ Hs).
  destruct (pending xs) as [|e l]; cbn [head tail take drop] in *; [by exists m', xs'|].
  destruct (IH (n - 1) m' xs') as (m'' & xs'' & Ht & Hat'' & Hp'); [done|lia|rewrite Hp; cbn in Hf; lia|]. exists m'', xs''. rewrite (bind_ok _ _ _ _ _ Ht). by rewrite Hp' , Hp.
Qed.

(** ** The segments of a search *)

Hypothesis readers_ok : forall ord r, segment_readers !! ord = Some r ->
  enumerates (sr_scorer r) (docs r) /\ (length (docs r) < docs_fuel)%nat /\ Forall (fun e => is_Some (ctid_fast_field r e.1)) (docs r).

(** The segments with these ids are those of the reader. *)
Definition segments_are (ids : list Z) (rs : list (Z * SegmentReader T)) : Prop :=
  Forall2 (fun id '(ord, r) => 0 <= ord /\ segment_readers !! Z.to_nat ord = Some r /\ segment_id r = id) ids rs.

Definition located (ids : list Z) : list (Z * SegmentReader T) :=
  omap (fun id => (fun e => (Z.of_nat e.1, e.2)) <$> list_find (fun r => segment_id r = id) segment_readers) ids.

Definition ids_known (ids : list Z) : Prop := Forall (fun id => id ∈ segment_id <$> segment_readers) ids.

Lemma readers_found ids : ids_known ids -> segments_are ids (located ids) /\
  forall S E (s : S), segment_readers_in_segments (E := E) segment_readers ids s = (Ok (located ids), s).
Proof.
  induction 1 as [|id ids Hid _ [Hrs IH]]; [split; [constructor|done]|]. apply list_elem_of_fmap in Hid as (r & -> & Hr).
  destruct (list_find_elem_of (fun r' => segment_id r' = segment_id r) segment_readers r Hr eq_refl) as [[ord r'] Hf].
  unfold located. cbn [omap list_omap]. rewrite Hf. cbn [fmap option_fmap option_map fst snd]. fold (located ids). pose proof Hf as Hf'. apply list_find_Some in Hf' as (Hl & Hi & _). split.
  - constructor; [|done]. rewrite Nat2Z.id. split; [lia|done].
  - intros S E s. cbn [segment_readers_in_segments]. unfold find_segment. rewrite Hf. cbn [unwrap]. rewrite (bind_ok _ _ _ (Z.of_nat ord, r') s) by done. by rewrite (bind_ok _ _ _ _ _ (IH S E s)).
Qed.

Definition rest_of (e : Z * SegmentReader T) : Rest := mkRest e.1 e.2 (docs e.2).

Lemma search_at {S E} ids (s : S) : ids_known ids ->
  exists m, search_segments (E := E) segment_readers ids s = (Ok m, s) /\ multi_at m (rest_of <$> located ids).
Proof.
  intros [Hrs Hs]%readers_found. unfold search_segments. rewrite (bind_ok _ _ _ _ _ (Hs S E s)). eexists. split; [done|]. split; [|split; [|done]]; cbn [iterators]; clear Hs.
  - induction Hrs as [|id [ord r] ids rs (Ho & Hr & _) _ IH]; [constructor|]. constructor; [|done]. by destruct (readers_ok _ _ Hr) as (He & _).
  - induction Hrs as [|id [ord r] ids rs (Ho & Hr & _) _ IH]; constructor; [|done]. destruct (readers_ok _ _ Hr) as (_ & Hl & Hc). by split_and!.
Qed.

Lemma pending_short ids rs : segments_are ids rs -> (length (pending (rest_of <$> rs)) <= length ids * docs_fuel)%nat.
Proof.
  unfold pending. induction 1 as [|id [ord r] ids rs (Ho & Hr & _) _ IH]; [done|]. cbn [fmap list_fmap length]. rewrite reverse_cons, concat_app, length_app. cbn [concat].
  rewrite app_nil_r. unfold found at 2, live. rewrite length_fmap. cbn [rest_of rest_docs rest_reader snd]. destruct (readers_ok _ _ Hr) as (_ & Hl & _).
  pose proof (length_filter (fun e => is_alive r e.1 = true) (docs r)). cbn [fmap list_fmap] in IH. lia.
Qed.

(** A search in no particular order returns a part of the live documents. *)
Lemma unordered_found {A S E} ids n off (s : S) : ids_known ids -> 0 <= n -> 0 <= off ->
  search_top_n_unordered_in_segments (A := A) (E := E) docs_fuel segment_readers ids n off s =
    (Ok (results_new (take (Z.to_nat n) (drop (Z.to_nat off) (pending (rest_of <$> located ids)))) None), s).
Proof.
  intros Hids Hn Ho. unfold search_top_n_unordered_in_segments. destruct (search_at (E := E) ids s Hids) as (m & Hm & Hat). rewrite (bind_ok _ _ _ _ _ Hm). cbv zeta.
  pose proof (pending_short ids _ (proj1 (readers_found ids Hids))) as Hsh. set (fuel := (1 + _)%nat).
  destruct (take_results_spec fuel off m _ Hat Ho) as (m1 & xs1 & H1 & Hat1 & Hp1); [lia|].
  destruct (take_results_spec fuel n m1 xs1 Hat1 Hn) as (m2 & xs2 & H2 & _ & _); [rewrite Hp1, length_drop; lia|].
  rewrite (bind_ok _ _ _ _ _ H1), H2, Hp1. done.
Qed.

(** ** Heap pointers *)

(** A document of a segment of the reader. *)
Definition doc_ok (d : DocAddress) : Prop :=
  exists r, segment_readers !! Z.to_nat (segment_ord d) = Some r /\ is_Some (ctid_fast_field r (doc_id d)).

Definition ctid_of (d : DocAddress) : Z := default 0 (r ← segment_readers !! Z.to_nat (segment_ord d); ctid_fast_field r (doc_id d)).

Lemma lookup_ctids_spec {S E} (ff : gmap Z (Z -> option Z)) l (s : S) :
  (forall ord col, ff !! ord = Some col -> exists r, segment_readers !! Z.to_nat ord = Some r /\ col = ctid_fast_field r) -> Forall (fun e => doc_ok e.2) l ->
  lookup_ctids (E := E) segment_readers ff l s = (Ok ((fun e => (mkScored (ctid_of e.2) e.1, e.2)) <$> l), s).
Proof.
  intros Hff Hl. revert ff Hff. induction Hl as [|[sc d] l (r & Hr & c & Hc) _ IH]; intros ff Hff; [done|]. cbn [snd] in Hr, Hc. cbn [lookup_ctids].
  assert (forall ord col, <[segment_ord d := ctid_fast_field r]> ff !! ord = Some col -> exists r, segment_readers !! Z.to_nat ord = Some r /\ col = ctid_fast_field r) as Hff'.
  { intros ord col. destruct (decide (ord = segment_ord d)) as [->|Hne]; [|rewrite lookup_insert_ne by done; apply Hff]. rewrite lookup_insert_eq. intros [= <-]. by exists r. }
  rewrite (bind_ok _ _ _ (ctid_fast_field r) s).
  2:{ destruct (ff !! segment_ord d) as [col|] eqn:Ef; [|by unfold segment_reader; rewrite Hr]. destruct (Hff _ _ Ef) as (r' & Hr' & ->). rewrite Hr in Hr'. by injection Hr' as ->. }
  rewrite (bind_ok _ _ _ c s) by (by rewrite Hc). rewrite (bind_ok _ _ _ _ _ (IH (<[segment_ord d := ctid_fast_field r]> ff) Hff')).
  assert (ctid_of d = c) as <-; [|done]. unfold ctid_of. rewrite Hr. cbn [mbind option_bind]. by rewrite Hc.
Qed.

Lemma new_for_score_spec {A S E} l (a : option A) (s : S) : Forall (fun e => doc_ok e.2) l ->
  new_for_score (E := E) segment_readers l a s = (Ok (results_new ((fun e => (mkScored (ctid_of e.2) e.1, e.2)) <$> l) a), s).
Proof. intros Hl. unfold new_for_score. rewrite (bind_ok _ _ _ _ _ (lookup_ctids_spec ∅ l s ltac:(intros ??; rewrite lookup_empty; done) Hl)). done. Qed.

(** ** Ordered results *)

(** How a feature orders two documents, and a list of features, the first being the most
    important. *)
Variables (order_by : forall f : Feature, SortDirection -> list (Feature * SortDirection) -> list Z -> Z -> Z -> list ((output f * list Terms.OwnedValue) * DocAddress))
  (by_score : (Score -> Score -> option comparison) -> list Z -> Z -> Z -> list (Score * DocAddress))
  (feature_cmp : Feature -> DocAddress -> DocAddress -> comparison) (score_of : DocAddress -> Score).

Definition directed (d : SortDirection) (c : comparison) : comparison := match d with Asc => c | Desc => CompOpp c end.

Fixpoint lex (fs : list (Feature * SortDirection)) (a b : DocAddress) : comparison :=
  match fs with
  | [] => Eq
  | (f, d) :: fs => match directed d (feature_cmp f a b) with Eq => lex fs a b | c => c end
  end.

Definition sorted_by (fs : list (Feature * SortDirection)) : list DocAddress -> Prop := StronglySorted (fun a b => lex fs a b <> Gt).

(** The live documents of segments. *)
Definition matching (rs : list (Z * SegmentReader T)) : list DocAddress := snd <$> pending (rest_of <$> rs).

(** The score as a first feature is that of the document. *)
Definition first_ok (f : Feature) : (DocAddress -> output f) -> Prop :=
  match f with ScoreFeature => fun first => forall a, first a = score_of a | FieldFeature _ _ => fun _ => True end.

(** What tantivy documents of [TopDocs]: the documents in order of the features, from [offset],
    [n] at most, with the values of the features. *)
Class TopDocs : Prop := {
  td_order : forall f d fs ids, ids_known ids -> exists l first erased, l ≡ₚ matching (located ids) /\ sorted_by ((f, d) :: fs) l /\
    (forall n off, 1 <= n -> 0 <= off ->
      order_by f d fs (located ids).*1 n off = (fun a => ((first a, (fun g => erased g.1 a) <$> fs), a)) <$> take (Z.to_nat n) (drop (Z.to_nat off) l)) /\
    (forall a, exists x, erased ScoreFeature a = Terms.F64 x /\ as_score x = score_of a) /\ first_ok f first;
  td_score : forall cmp ids, ids_known ids -> cmp = score_cmp \/ cmp = ascending_cmp ->
    exists l, l ≡ₚ matching (located ids) /\ StronglySorted (fun a b => cmp (score_of a) (score_of b) <> Some Lt) l /\
    forall n off, 1 <= n -> 0 <= off -> by_score cmp (located ids).*1 n off = (fun a => (score_of a, a)) <$> take (Z.to_nat n) (drop (Z.to_nat off) l);
  td_score_cmp : forall a b, feature_cmp ScoreFeature a b = default Eq (SFcompare (score_of a) (score_of b));
}.

Context `{!TopDocs} (search_field : string -> option Terms.SearchField) (need_scores : bool).

(** The features of an ORDER BY. *)
Definition sortable (t : Terms.FieldType) : bool :=
  match t with Terms.TStr | Terms.TU64 | Terms.TI64 | Terms.TF64 | Terms.TBool | Terms.TDate => true | _ => false end.

Definition feature_of (o : OrderByInfo) : option Feature :=
  match feature o with
  | ScoreOrder => Some ScoreFeature
  | FieldOrder name => f ← search_field name; if sortable (Terms.sf_field_type f) then Some (FieldFeature (Terms.sf_field_type f) name) else None
  end.

Definition features_are (os : list OrderByInfo) (fs : list (Feature * SortDirection)) : Prop :=
  Forall2 (fun o '(f, d) => feature_of o = Some f /\ direction o = d) os fs.

Lemma field_feature_ok {S E} t name (s : S) : sortable t = true -> field_feature (E := E) t name s = (Ok (FieldFeature t name), s).
Proof. by destruct t. Qed.

Lemma erase_spec {S E} o f (e : ErasedFeatures) (s : S) : feature_of o = Some f ->
  erase (E := E) search_field o e s = (Ok (mkErasedFeatures (features e ++ [(f, direction o)]) (if is_score o then Some (length (features e)) else score_index e)), s).
Proof.
  unfold feature_of, erase, is_score. destruct (feature o) as [|name]; [by intros [= <-]|]. destruct (search_field name) as [fd|] eqn:Ef; [|done]. cbn [mbind option_bind].
  destruct (sortable (Terms.sf_field_type fd)) eqn:Es; [|done]. intros [= <-]. rewrite (bind_ok _ _ _ fd s) by done. by rewrite (bind_ok _ _ _ _ _ (field_feature_ok _ name s Es)).
Qed.

(** The score, if it is among the features, is at its place. *)
Definition score_placed (e : ErasedFeatures) : Prop :=
  match score_index e with
  | Some i => exists d, features e !! i = Some (ScoreFeature, d)
  | None => Forall (fun g => g.1 <> ScoreFeature) (features e)
  end.

Lemma erase_all_spec os fs (e : ErasedFeatures) : features_are os fs -> score_placed e ->
  exists i, (forall S E (s : S), erase_all (E := E) search_field os e s = (Ok (mkErasedFeatures (features e ++ fs) i), s)) /\ score_placed (mkErasedFeatures (features e ++ fs) i) /\
    (i = None <-> score_index e = None /\ existsb is_score os = false).
Proof.
  intros Hos. revert e. induction Hos as [|o [f d] os fs (Hf & <-) _ IH]; intros e He.
  { exists (score_index e). rewrite app_nil_r. destruct e. cbn. split; [done|]. split; [done|]. tauto. }
  cbn [existsb]. edestruct (IH (mkErasedFeatures (features e ++ [(f, direction o)]) (if is_score o then Some (length (features e)) else score_index e))) as (i & Hi & Hp & Hn).
  { unfold score_placed in *. cbn [features score_index]. unfold is_score, feature_of in *. destruct (feature o) as [|name] eqn:Eo.
    - injection Hf as <-. exists (direction o). by rewrite lookup_app_r, Nat.sub_diag by lia.
    - destruct (search_field name) as [fd|]; [|done]. cbn [mbind option_bind] in Hf. destruct (sortable (Terms.sf_field_type fd)); [|done]. injection Hf as <-. destruct (score_index e) as [i|].
      + destruct He as [d He]. exists d. by apply lookup_app_l_Some.
      + apply Forall_app. split; [done|]. by apply Forall_singleton. }
  exists i. cbn [features score_index] in *. rewrite <- app_assoc in Hp. split; [intros S E s; cbn [erase_all]; rewrite (bind_ok _ _ _ _ _ (erase_spec o f e s Hf)), Hi; cbn [features]; by rewrite <- app_assoc|]. split; [exact Hp|]. rewrite Hn. destruct (is_score o); cbn [orb]; [|done]. split; [intros [[=] _]|intros [_ [=]]].
Qed.

Lemma lex_app fs gs a b : lex (fs ++ gs) a b <> Gt -> lex fs a b <> Gt.
Proof. induction fs as [|[f d] fs IH]; [done|]. cbn [app lex]. by destruct (directed d (feature_cmp f a b)). Qed.

Lemma sorted_app fs gs l : sorted_by (fs ++ gs) l -> sorted_by fs l.
Proof.
  unfold sorted_by. induction 1 as [|x l _ IH Hall]; constructor; [done|]. eapply Forall_impl; [exact Hall|]. intros y. apply lex_app.
Qed.

Lemma matching_ok ids rs : segments_are ids rs -> Forall doc_ok (matching rs).
Proof.
  unfold matching, pending. induction 1 as [|id [ord r] ids rs (Ho & Hr & _) _ IH]; [constructor|]. cbn [fmap list_fmap]. rewrite reverse_cons, concat_app, fmap_app. cbn [concat]. rewrite app_nil_r.
  apply Forall_app. split; [exact IH|]. unfold found. rewrite !Forall_fmap. apply Forall_forall. intros e He. unfold live in He. apply list_elem_of_filter in He as [_ He].
  cbn [rest_of rest_docs rest_reader rest_ord fst snd] in *. destruct (readers_ok _ _ Hr) as (_ & _ & Hc). rewrite Forall_forall in Hc. exists r. split; [done|]. by apply Hc.
Qed.

Lemma Forall_part {B} (P : B -> Prop) n off l k : l ≡ₚ k -> Forall P k -> Forall P (take n (drop off l)).
Proof. intros Hp Hk. apply Forall_take, Forall_drop. by rewrite Hp. Qed.

(** The score of a document, if the features have it. *)
Definition placed (e : ErasedFeatures) (a : DocAddress) : option Score := match score_index e with Some _ => Some (score_of a) | None => None end.

Lemma with_scores_spec {V S E} (e : ErasedFeatures) (first : DocAddress -> V) (erased : Feature -> DocAddress -> Terms.OwnedValue) k (s : S) :
  score_placed e -> (forall a, exists x, erased ScoreFeature a = Terms.F64 x /\ as_score x = score_of a) ->
  with_scores (E := E) e ((fun a => ((first a, (fun g => erased g.1 a) <$> features e), a)) <$> k) s = (Ok ((fun a => ((first a, placed e a), a)) <$> k), s).
Proof.
  intros Hp Hs. induction k as [|a k IH]; [done|]. cbn [fmap list_fmap with_scores]. rewrite (bind_ok _ _ _ (placed e a) s); [by rewrite (bind_ok _ _ _ _ _ IH)|].
  unfold try_get_score, placed, score_placed in *. destruct (score_index e) as [i|]; [|done]. destruct Hp as [d Hp]. destruct (Hs a) as (x & Hx & <-).
  rewrite list_lookup_fmap, Hp. cbn [fmap option_fmap option_map fst]. by rewrite (bind_ok _ _ _ (erased ScoreFeature a) s), Hx.
Qed.

Lemma collect_ok {A B S E} ids n (top : list Z -> list B) (agg : option (list Z -> A)) (s : S) : ids_known ids -> 1 <= n ->
  collect_segments (E := E) segment_readers ids n top agg s = (Ok (top (located ids).*1, (fun c => c (located ids).*1) <$> agg), s).
Proof.
  intros Hids Hn. unfold collect_segments, with_limit. rewrite (proj2 (Z.ltb_ge _ _) Hn). rewrite bind_ret. by rewrite (bind_ok _ _ _ _ _ (proj2 (readers_found ids Hids) S E s)).
Qed.

(** An ordered search on any features. *)
Lemma top_in_spec {A} ids f d (e : ErasedFeatures) : ids_known ids -> (length (features e) <= 2)%nat -> score_placed e ->
  exists l first, l ≡ₚ matching (located ids) /\ sorted_by ((f, d) :: features e) l /\
    first_ok f first /\
    forall n off (agg : option (list Z -> A)) S E (s : S), 1 <= n -> 0 <= off ->
      top_in_segments (E := E) segment_readers order_by ids f d e n off agg s =
        (Ok ((fun a => ((first a, placed e a), a)) <$> take (Z.to_nat n) (drop (Z.to_nat off) l), (fun c => c (located ids).*1) <$> agg), s).
Proof.
  intros Hids Hlen Hp. destruct (td_order f d (features e) ids Hids) as (l & first & erased & Hperm & Hsort & Hob & Hsc & Hfst). exists l, first.
  split; [done|]. split; [done|]. split; [done|]. intros n off agg S E s Hn Ho. unfold top_in_segments. specialize (Hob n off Hn Ho).
  destruct (Nat.eqb_spec (length (features e)) 0) as [Hz|Hz].
  - apply nil_length_inv in Hz. rewrite Hz in Hob. rewrite (bind_ok _ _ _ _ _ (collect_ok ids n _ agg s Hids Hn)). rewrite Hob, <- list_fmap_compose. unfold placed.
    unfold score_placed in Hp. rewrite Hz in Hp. destruct (score_index e) as [i|]; [by destruct Hp as [d' Hp]|]. done.
  - rewrite (proj2 (Nat.leb_le _ _) Hlen). rewrite (bind_ok _ _ _ _ _ (collect_ok ids n _ agg s Hids Hn)). cbn [fst snd]. rewrite Hob.
    by rewrite (bind_ok _ _ _ _ _ (with_scores_spec e first erased _ s Hp Hsc)).
Qed.

(** Scores are read even though the ORDER BY does not have them. *)
Definition extra (os : list OrderByInfo) : bool := need_scores && negb (existsb is_score os).

Definition shown (os : list OrderByInfo) (a : DocAddress) : Score := if need_scores || existsb is_score os then score_of a else Proximity.one_score.

Definition shown_result (os : list OrderByInfo) (a : DocAddress) : Result := (mkScored (ctid_of a) (shown os a), a).

Lemma by_score_spec {A} ids d : ids_known ids ->
  exists l, l ≡ₚ matching (located ids) /\ sorted_by [(ScoreFeature, d)] l /\
    forall n off (agg : option (list Z -> A)) S E (s : S), 1 <= n -> 0 <= off ->
      top_by_score_in_segments (E := E) segment_readers by_score ids d n off agg s =
        (Ok (results_new ((fun a => (mkScored (ctid_of a) (score_of a), a)) <$> take (Z.to_nat n) (drop (Z.to_nat off) l)) ((fun c => c (located ids).*1) <$> agg)), s).
Proof.
  intros Hids. set (cmp := match d with Asc => ascending_cmp | Desc => score_cmp end). destruct (td_score cmp ids Hids) as (l & Hperm & Hsort & Hby); [unfold cmp; destruct d; auto|]. exists l.
  split; [done|]. split.
  - unfold sorted_by. clear Hperm Hby. induction Hsort as [|x l _ IH Hall]; constructor; [done|]. eapply Forall_impl; [exact Hall|]. intros y Hy. cbn [lex]. rewrite td_score_cmp.
    unfold cmp, ascending_cmp, score_cmp in Hy. destruct d, (SFcompare (score_of x) (score_of y)) as [[]|]; done.
  - intros n off agg S E s Hn Ho. unfold top_by_score_in_segments. fold cmp. rewrite (bind_ok _ _ _ _ _ (collect_ok ids n _ agg s Hids Hn)), (Hby n off Hn Ho).
    rewrite new_for_score_spec; [by rewrite <- list_fmap_compose|]. apply Forall_fmap. eapply Forall_part; [exact Hperm|]. eapply matching_ok, readers_found, Hids.
Qed.

Lemma reader_prepare_spec o os f d fs : feature_of o = Some f -> direction o = d -> features_are os fs ->
  exists e, (forall S E (s : S), prepare_features (E := E) search_field need_scores (o :: os) s = (Ok (o, e), s)) /\ score_placed e /\
    features e = (if extra (o :: os) then fs ++ [(ScoreFeature, Desc)] else fs) /\
    (score_index e = None <-> extra (o :: os) = false /\ existsb is_score os = false).
Proof.
  intros Hf Hd Hfs. unfold extra. cbn [existsb]. destruct (erase_all_spec os fs erased_default Hfs) as (i & He & Hp & Hi); [by constructor|].
  cbn [features score_index erased_default app] in He, Hp, Hi. eexists. split; [intros S E s; unfold prepare_features; by rewrite (bind_ok _ _ _ _ _ (He S E s))|].
  assert (bool_decide (i = None) = negb (existsb is_score os)) as Hb.
  { destruct (existsb is_score os) eqn:Es; cbn [negb]; [apply bool_decide_eq_false; intros Hn; by apply Hi in Hn as [_ ?]|apply bool_decide_eq_true; by apply Hi]. }
  cbn [score_index]. rewrite Hb. destruct need_scores, (is_score o), (existsb is_score os) eqn:Es; cbn [negb andb orb]; (split; [|split; [done|]]); try done.
  all: try (cbn [score_index]; rewrite Hi; naive_solver).
  2:{ cbn [score_index push_score_feature]. split; [intros [=]|intros [[=] _]]. }
  unfold score_placed. cbn [score_index features push_score_feature]. exists Desc. by rewrite lookup_app_r, Nat.sub_diag by lia.
Qed.

(** An ordered search returns a part of one ranking of the live documents, which is in the order
    of the ORDER BY, with heap pointers and scores. *)
Lemma ordered_found {A} ids os fs : ids_known ids -> features_are os fs -> os <> [] -> (length os + (if extra os then 1 else 0) <= MAX_TOPN_FEATURES)%nat ->
  exists l, l ≡ₚ matching (located ids) /\ sorted_by fs l /\
    forall n off (agg : option (list Z -> A)) S E (s : S), 1 <= n -> 0 <= off ->
      search_top_n_in_segments (E := E) segment_readers order_by by_score search_field need_scores ids os n off agg s =
        (Ok (results_new (shown_result os <$> take (Z.to_nat n) (drop (Z.to_nat off) l)) ((fun c => c (located ids).*1) <$> agg)), s).
Proof.
  intros Hids Hfs Hne Hcount. destruct Hfs as [|o [f d] os fs (Hf & Hd) Hfs]; [done|]. clear Hne. cbn [length] in Hcount.
  pose proof (Forall2_length _ _ _ Hfs) as Hlen. unfold MAX_TOPN_FEATURES in Hcount.
  destruct (reader_prepare_spec o os f d fs Hf Hd Hfs) as (e & Hprep & Hpl & He & Hi).
  assert (length (features e) <= 2)%nat as Hle by (rewrite He; destruct (extra _); rewrite ?length_app; cbn [length]; lia).
  pose proof (matching_ok _ _ (proj1 (readers_found ids Hids))) as Hdocs.
  assert (forall l, sorted_by ((f, d) :: features e) l -> sorted_by ((f, d) :: fs) l) as Hsorted.
  { intros l. rewrite He. destruct (extra _); [|done]. apply (sorted_app ((f, d) :: fs)). }
  unfold feature_of in Hf. destruct (feature o) as [|name] eqn:Eo.
  - (* by the score first *)
    injection Hf as <-. assert (is_score o = true) as Hsc by (unfold is_score; by rewrite Eo).
    assert (extra (o :: os) = false) as Hex by (unfold extra; cbn [existsb]; rewrite Hsc; apply andb_false_r). rewrite Hex in He.
    assert (forall a, shown_result (o :: os) a = (mkScored (ctid_of a) (score_of a), a)) as Hshown by (intros a; unfold shown_result, shown; cbn [existsb]; rewrite Hsc; cbn [orb]; by rewrite orb_true_r).
    destruct (Nat.eqb_spec (length (features e)) 0) as [Hz|Hz].
    + destruct (by_score_spec (A := A) ids d Hids) as (l & Hperm & Hsort & Hby). exists l. split; [done|]. apply nil_length_inv in Hz. assert (fs = []) as -> by congruence. split; [exact Hsort|].
      intros n off agg S E s Hn Ho. unfold search_top_n_in_segments. rewrite (bind_ok _ _ _ _ _ (Hprep S E s)), Eo, He, Hd. cbn [length Nat.eqb]. rewrite Hby by done. do 3 f_equal. by apply list_fmap_ext.
    + destruct (top_in_spec (A := A) ids ScoreFeature d e Hids Hle Hpl) as (l & first & Hperm & Hsort & Hfst & Htop). exists l. split; [done|]. split; [by apply Hsorted|].
      intros n off agg S E s Hn Ho. unfold search_top_n_in_segments. rewrite (bind_ok _ _ _ _ _ (Hprep S E s)), Eo, Hd, (proj2 (Nat.eqb_neq _ _) Hz). rewrite (bind_ok _ _ _ _ _ (Htop n off agg S E s Hn Ho)).
      rewrite <- list_fmap_compose. rewrite new_for_score_spec by (apply Forall_fmap; by eapply Forall_part). rewrite <- list_fmap_compose. do 3 f_equal. apply list_fmap_ext.
      intros _ a _. rewrite Hshown. unfold compose. cbn [fst snd]. by rewrite <- (Hfst a).
  - (* by a field first *)
    assert (is_score o = false) as Hsc by (unfold is_score; by rewrite Eo). destruct (search_field name) as [fd|] eqn:Ef; [|done]. cbn [mbind option_bind] in Hf.
    destruct (sortable (Terms.sf_field_type fd)) eqn:Es; [|done]. injection Hf as <-.
    destruct (top_in_spec (A := A) ids (FieldFeature (Terms.sf_field_type fd) name) d e Hids Hle Hpl) as (l & first & Hperm & Hsort & _ & Htop). exists l. split; [done|]. split; [by apply Hsorted|].
    intros n off agg S E s Hn Ho. unfold search_top_n_in_segments. rewrite (bind_ok _ _ _ _ _ (Hprep S E s)), Eo, Hd. rewrite (bind_ok _ _ _ fd s) by (by rewrite Ef).
    rewrite (bind_ok _ _ _ _ _ (field_feature_ok _ name s Es)), (bind_ok _ _ _ _ _ (Htop n off agg S E s Hn Ho)). unfold new_for_discarded_field. cbn [fst snd]. rewrite <- list_fmap_compose.
    rewrite new_for_score_spec by (apply Forall_fmap; by eapply Forall_part). rewrite <- list_fmap_compose. do 3 f_equal. apply list_fmap_ext. intros _ a _. unfold compose, shown_result. cbn [fst snd]. do 2 f_equal.
    unfold placed, shown. unfold extra in Hi. cbn [existsb] in *. rewrite Hsc in *. cbn [orb] in *. destruct (score_index e) as [i|], need_scores, (existsb is_score os); cbn in *; try done.
    all: exfalso; naive_solver.
Qed.

End reader.
