(* ===== verification/TopN.v ===== *)
(** * The TopN scan

    [postgres/customscan/pdbscan/exec_methods/top_n.rs] with the loops of [exec_methods.rs] and of
    [exec_custom_scan]: the first rows of an ORDER BY ... LIMIT.  The index knows nothing of
    visibility, so that the first results may be too few, and more are fetched, in larger chunks. *)

From stdpp Require Import prelude gmap strings.
From Stdlib Require Import ZArith Lia SpecFloat.
From S2P Require Import Prelude Query MergePolicy SearchReader.
From stdpp Require Import list.
Import Query SearchReader.

Local Open Scope Z_scope.

Module TopN.

(** ** Doubles *)

Definition add : spec_float -> spec_float -> spec_float := SFadd F64.prec F64.emax.

(** [f64::max] *)
Definition fmax (a b : spec_float) : spec_float :=
  match a, b with
  | S754_nan, _ => b
  | _, S754_nan => a
  | _, _ => if SFltb a b then b else a
  end.

(** The settings. *)
Record Gucs := mkGucs { limit_fetch_multiplier : spec_float; topn_retry_scale_factor : Z; max_topn_chunk_size : Z }.

Section scan.
(** Intermediate results of aggregations, aggregates and values of PostgreSQL. *)
Context {A Agg D : Type}.

(** What the scan calls of [SearchIndexReader]. *)
Record Reader := mkReader {
  segment_ids : list Z;
  top_n_in_segments : list Z -> list OrderByInfo -> Z -> Z -> option (list Z -> A) -> option (TopNSearchResults A);
  top_n_unordered_in_segments : list Z -> Z -> Z -> option (TopNSearchResults A) }.

Record WindowAggregateInfo := mkWindowAggregateInfo { target_entry_index : Z; aggregates : list Agg }.

(** [PdbScanState]; [parallel_state]: the segments that this worker will be handed. *)
Record PdbScanState := mkPdbScanState {
  ps_search_reader : option Reader; parallel_state : option (list Z); ps_window_aggregates : list WindowAggregateInfo;
  window_aggregate_results : option (gmap Z D);
  query_count : Z; heap_tuple_check_count : Z; invisible_tuple_count : Z }.

Record TopNScanExecState := mkTopN {
  limit : Z; orderby_info : option (list OrderByInfo); search_reader : option Reader;
  search_results : TopNSearchResults A; nresults : Z; did_query : bool; exhausted : bool; found : Z; offset : Z; chunk_size : Z;
  claimed_segments : option (list Z); scale_factor : spec_float; window_aggregates : list WindowAggregateInfo }.

Definition St := (TopNScanExecState * PdbScanState)%type.

Variable gucs : Gucs.

(** ** Creation *)

Definition scale_factor_of (n_dead n_live : Z) : spec_float :=
  F64.mul (add (F64.of_Z 1) (F64.div (add (F64.of_Z 1) (F64.of_Z n_dead)) (add (F64.of_Z 1) (F64.of_Z n_live)))) (limit_fetch_multiplier gucs).

(** [n_dead], [n_live]: the statistics of the table; [None]: it panics. *)
Definition new (n_dead n_live limit : Z) (orderby_info : option (list OrderByInfo)) : option TopNScanExecState :=
  if match orderby_info with Some os => Nat.ltb MAX_TOPN_FEATURES (length os) | None => false end then None
  else Some (mkTopN limit orderby_info None results_empty 0 false false 0 0 0 None (scale_factor_of n_dead n_live) []).

Definition reset_with (state : PdbScanState) (s : TopNScanExecState) : TopNScanExecState :=
  mkTopN (limit s) (orderby_info s) (ps_search_reader state) results_empty (nresults s) false false 0 0 0 None (scale_factor s) (ps_window_aggregates state).

Definition reset : M St unit unit := modify (fun '(s, state) => (reset_with state s, state)).

(** The default [init] and the window aggregates of the scan. *)
Definition init : M St unit unit := reset.

(** [PdbScanState::reset], of a scan that is not parallel. *)
Definition rescan : M St unit unit :=
  modify (fun '(s, p) => (s, mkPdbScanState (ps_search_reader p) (parallel_state p) (ps_window_aggregates p) None 0 0 0));; reset.

(** ** Segments *)

Definition set_claimed (c : option (list Z)) (s : TopNScanExecState) : TopNScanExecState :=
  mkTopN (limit s) (orderby_info s) (search_reader s) (search_results s) (nresults s) (did_query s) (exhausted s) (found s) (offset s) (chunk_size s)
    c (scale_factor s) (window_aggregates s).

(** The segments, with the state when they have been emitted. *)
Definition segments_to_query (reader : Reader) : M St unit (list Z) := fun '(s, p) =>
  match parallel_state p, claimed_segments s with
  | None, _ => (Ok (segment_ids reader), (s, p))
  | Some _, Some claimed => (Ok claimed, (s, p))
  | Some handed, None =>
      (Ok handed, (set_claimed (Some handed) s,
        mkPdbScanState (ps_search_reader p) (Some []) (ps_window_aggregates p) (window_aggregate_results p) (query_count p) (heap_tuple_check_count p) (invisible_tuple_count p)))
  end.

(** ** Aggregates *)

(** The MVCC-filtered collection of aggregates from segments; [aggregation_append] and
    [aggregation_wait], on the memory that the workers share ([ParallelAggregates]): they may
    panic and need not return; the final values of aggregates. *)
Variables (collect_aggregates : list Agg -> list Z -> A) (exchange : A -> Z -> M St unit A) (final_datums : list Agg -> A -> option (list (option D))) (null : D).

Record PreparedAggregations := mkPrepared { combined_agg_types : list Agg; agg_index_to_te_index : list Z }.

Definition prepare_aggregations (s : TopNScanExecState) : option PreparedAggregations :=
  if is_nil (window_aggregates s) then None
  else Some (mkPrepared (concat (aggregates <$> window_aggregates s))
    (concat ((fun info => replicate (length (aggregates info)) (target_entry_index info)) <$> window_aggregates s))).

(** [.enumerate().map(..).collect()] into a map. *)
Fixpoint assign_datums (te_indexes : list Z) (agg_idx : nat) (datum_vec : list (option D)) (m : gmap Z D) : gmap Z D :=
  match te_indexes with
  | [] => m
  | te_idx :: rest => assign_datums rest (S agg_idx) datum_vec (<[te_idx := default null (mjoin (datum_vec !! agg_idx))]> m)
  end.

Definition finalize_aggregates (prepared : PreparedAggregations) (intermediate_results : A) : option (gmap Z D) :=
  datum_vec ← final_datums (combined_agg_types prepared) intermediate_results;
  Some (assign_datums (agg_index_to_te_index prepared) 0 datum_vec ∅).

(** ** Queries *)

Definition local_limit (s : TopNScanExecState) : Z :=
  F64.to_u64 (fmax (F64.mul (F64.of_Z (limit s)) (scale_factor s)) (F64.of_Z (chunk_size s))).

Definition set_did_query (s : TopNScanExecState) : TopNScanExecState :=
  mkTopN (limit s) (orderby_info s) (search_reader s) (search_results s) (nresults s) true (exhausted s) (found s) (offset s) (chunk_size s)
    (claimed_segments s) (scale_factor s) (window_aggregates s).

Definition set_results (r : TopNSearchResults A) (s : TopNScanExecState) : TopNScanExecState :=
  mkTopN (limit s) (orderby_info s) (search_reader s) r (nresults s) (did_query s) (exhausted s) (found s) (offset s) (chunk_size s)
    (claimed_segments s) (scale_factor s) (window_aggregates s).

Definition set_offset_exhausted (o : Z) (e : bool) (s : TopNScanExecState) : TopNScanExecState :=
  mkTopN (limit s) (orderby_info s) (search_reader s) (search_results s) (nresults s) (did_query s) e (found s) o (chunk_size s)
    (claimed_segments s) (scale_factor s) (window_aggregates s).

Definition set_chunk_size (c : Z) (s : TopNScanExecState) : TopNScanExecState :=
  mkTopN (limit s) (orderby_info s) (search_reader s) (search_results s) (nresults s) (did_query s) (exhausted s) (found s) (offset s) c
    (claimed_segments s) (scale_factor s) (window_aggregates s).

Definition increment_query_count (p : PdbScanState) : PdbScanState :=
  mkPdbScanState (ps_search_reader p) (parallel_state p) (ps_window_aggregates p) (window_aggregate_results p) (query_count p + 1)
    (heap_tuple_check_count p) (invisible_tuple_count p).

Definition set_window_results (w : gmap Z D) (p : PdbScanState) : PdbScanState :=
  mkPdbScanState (ps_search_reader p) (parallel_state p) (ps_window_aggregates p) (Some w) (query_count p) (heap_tuple_check_count p) (invisible_tuple_count p).

(** The results of the aggregates are published for the projection. *)
Definition publish_aggregates (prepared : PreparedAggregations) : M St unit unit :=
  r ← gets (fun st => search_results st.1);
  let '(agg, r) := take_aggregation_results r in
  agg_result ← unwrap agg;
  modify (fun st => (set_results r st.1, st.2));;
  st ← gets id;
  intermediate_results ← (match parallel_state st.2 with
                          | Some _ =>
                              claimed ← unwrap (claimed_segments st.1);
                              exchange agg_result (Z.of_nat (length claimed))
                          | None => mret agg_result
                          end);
  w ← unwrap (finalize_aggregates prepared intermediate_results);
  modify (fun st => (st.1, set_window_results w st.2)).

Definition query : M St unit bool :=
  modify (fun st => (set_did_query st.1, st.2));;
  s ← gets fst;
  if (limit s <=? found s) || exhausted s then mret false
  else
    modify (fun st => (st.1, increment_query_count st.2));;
    let n := local_limit s in
    let next_offset := u64 (offset s + n) in
    let prepared := prepare_aggregations s in
    reader ← unwrap (search_reader s);
    state_reader ← (p ← gets snd; unwrap (ps_search_reader p));
    segs ← segments_to_query state_reader;
    r ← (match orderby_info s with
         | Some orderby_info =>
             unwrap (top_n_in_segments reader segs orderby_info n (offset s) ((fun a => collect_aggregates (combined_agg_types a)) <$> prepared))
         | None => unwrap (top_n_unordered_in_segments reader segs n (offset s))
         end);
    modify (fun st => (set_results r st.1, st.2));;
    (match prepared with Some a => publish_aggregates a | None => mret tt end);;
    modify (fun st => (set_offset_exhausted next_offset (original_len (search_results st.1) <? n) st.1, st.2));;
    r ← gets (fun st => search_results st.1);
    mret (0 <? original_len r).

Definition increment_visible (s : TopNScanExecState) : TopNScanExecState :=
  mkTopN (limit s) (orderby_info s) (search_reader s) (search_results s) (nresults s) (did_query s) (exhausted s) (found s + 1) (offset s) (chunk_size s)
    (claimed_segments s) (scale_factor s) (window_aggregates s).

Definition increment_nresults (s : TopNScanExecState) : TopNScanExecState :=
  mkTopN (limit s) (orderby_info s) (search_reader s) (search_results s) (nresults s + 1) (did_query s) (exhausted s) (found s) (offset s) (chunk_size s)
    (claimed_segments s) (scale_factor s) (window_aggregates s).

Inductive ExecState := RequiresVisibilityCheck (r : Result) | Eof.

(** The size of the next chunk. *)
Definition next_chunk_size (s : TopNScanExecState) : Z :=
  Z.min (Z.max (u64 (chunk_size s * topn_retry_scale_factor gucs))
               (F64.to_u64 (F64.mul (F64.mul (F64.of_Z (limit s)) (scale_factor s)) (F64.of_Z (topn_retry_scale_factor gucs)))))
        (max_topn_chunk_size gucs).

Fixpoint internal_next (fuel : nat) : M St unit ExecState :=
  match fuel with
  | O => out_of_fuel
  | S fuel =>
      s ← gets fst;
      let '(item, r) := results_next (search_results s) in
      modify (fun st => (set_results r st.1, st.2));;
      match item with
      | None =>
          if negb (did_query s) then mret Eof
          else if limit s <=? found s then mret Eof
          else
            modify (fun st => (set_chunk_size (next_chunk_size st.1) st.1, st.2));;
            b ← query;
            if b : bool then internal_next fuel else mret Eof
      | Some x =>
          if limit s <=? found s then mret Eof
          else modify (fun st => (increment_nresults st.1, st.2));; mret (RequiresVisibilityCheck x)
      end
  end.

(** [ExecMethod::next] *)
Fixpoint next (fuel : nat) : M St unit ExecState :=
  match fuel with
  | O => out_of_fuel
  | S fuel' =>
      e ← internal_next 2;
      match e with
      | Eof => b ← query; if b : bool then next fuel' else mret Eof
      | other => mret other
      end
  end.

(** ** The loop of the executor *)

(** The rows that the snapshot sees. *)
Variable visible : Z -> bool.

Definition count_check (seen : bool) (p : PdbScanState) : PdbScanState :=
  mkPdbScanState (ps_search_reader p) (parallel_state p) (ps_window_aggregates p) (window_aggregate_results p) (query_count p)
    (if seen then heap_tuple_check_count p + 1 else heap_tuple_check_count p) (if seen then invisible_tuple_count p else invisible_tuple_count p + 1).

(** [None]: the end of the scan. *)
Fixpoint exec_custom_scan (fuel : nat) : M St unit (option Result) :=
  match fuel with
  | O => out_of_fuel
  | S fuel =>
      e ← next 2;
      match e with
      | Eof => mret None
      | RequiresVisibilityCheck r =>
          if visible (ctid r.1) then
            modify (fun st => (increment_visible st.1, count_check true st.2));; mret (Some r)
          else modify (fun st => (st.1, count_check false st.2));; exec_custom_scan fuel
      end
  end.

(** The rows that the executor gets from [n] calls. *)
Fixpoint run_scan (fuel n : nat) : M St unit (list (option Result)) :=
  match n with
  | O => mret []
  | S n => r ← exec_custom_scan fuel; rs ← run_scan fuel n; mret (r :: rs)
  end.

End scan.

Arguments Reader : clear implicits.
Arguments PdbScanState : clear implicits.
Arguments TopNScanExecState : clear implicits.

End TopN.
