(* ===== verification/TopNScan.v ===== *)
(** * ORDER BY ... LIMIT on an index

    Through all fetches of growing chunks the scan passes over the ranking of the index once, in
    order: the rows that it returns are the first visible ones, as many as the limit.

    The scan of [TopN] on the reader of [SearchReader]: what a query with an ORDER BY and a LIMIT
    returns. *)

From stdpp Require Import prelude gmap strings sorting.
From Stdlib Require Import ZArith Lia SpecFloat.
From S2P Require Import Prelude Query Terms MergePolicy Scorers ScorersProps Proximity SearchReader SearchReaderProps TopN.
From stdpp Require Import list.
Import Query Scorers SearchReader TopN.

Local Open Scope Z_scope.

(** ** Doubles *)

Lemma digits2_log2 p : Z.pos (digits2_pos p) = Z.log2 (Z.pos p) + 1.
Proof.
  induction p as [p IH|p IH|]; cbn [digits2_pos]; [| |done]; rewrite Pos2Z.inj_succ, IH.
  - rewrite Pos2Z.inj_xI, Z.log2_succ_double by lia. lia.
  - rewrite Pos2Z.inj_xO, Z.log2_double by lia. lia.
Qed.

Lemma shifted p d : Z.pos (Pos.iter xO p d) = Z.pos p * 2 ^ Z.pos d.
Proof.
  induction d as [|d IH] using Pos.peano_ind; [cbn; lia|]. rewrite Pos.iter_succ, Pos2Z.inj_xO, IH, Pos2Z.inj_succ, Z.pow_succ_r by lia. lia.
Qed.

(** Integers of at most 53 bits are doubles. *)
Lemma of_Z_exact k : 1 <= k < 2 ^ 53 -> F64.to_u64 (F64.of_Z k) = k.
Proof.
  intros Hk. destruct k as [|p|p]; try lia. unfold F64.of_Z, binary_normalize, binary_round, fexp, emin, F64.prec, F64.emax.
  pose proof (digits2_log2 p) as Hd. assert (Z.log2 (Z.pos p) <= 52) as Hl by (apply Z.lt_succ_r, Z.log2_lt_pow2; cbn; lia).
  pose proof (Z.log2_nonneg (Z.pos p)) as Hn. set (m := Z.log2 (Z.pos p)) in *. rewrite Hd. replace (Z.max _ _) with (m - 52) by lia.
  unfold shl_align. rewrite Z.sub_0_r.
  assert (forall q e, Z.pos (digits2_pos q) + e = m + 1 -> e = m - 52 ->
    binary_round_aux 53 1024 false (Z.pos q) e loc_Exact = S754_finite false q e) as Haux.
  { intros q e Hq He. unfold binary_round_aux, shr_fexp, fexp, emin, Zdigits2. rewrite Hq.
    replace (Z.max (m + 1 - 53) _ - e) with 0 by lia. cbn [shr shr_record_of_loc shr_m loc_of_shr_record round_nearest_even].
    unfold Zdigits2. rewrite Hq. replace (Z.max (m + 1 - 53) _ - e) with 0 by lia. cbn [shr shr_m]. rewrite (proj2 (Z.leb_le e (1024 - 53))) by lia. done. }
  destruct (m - 52) as [|d|d] eqn:Em; [| lia |].
  - rewrite Haux by lia. cbn [F64.to_u64]. change (0 <=? 0) with true. cbn iota. rewrite Z.mul_1_r. lia.
  - rewrite Haux; [|rewrite digits2_log2, shifted, Z.log2_mul_pow2 by lia; fold m; lia|lia]. cbn [F64.to_u64]. change (0 <=? Z.neg d) with false. cbn iota.
    change (- Z.neg d) with (Z.pos d). rewrite shifted, Z.div_mul by lia. lia.
Qed.

(** A fetch asks for something if the limit, scaled, does. *)
Lemma fmax_positive a k : 1 <= F64.to_u64 a -> 0 <= k < 2 ^ 53 -> 1 <= F64.to_u64 (fmax a (F64.of_Z k)).
Proof.
  intros Ha Hk. destruct (Z.eq_dec k 0) as [->|Hne].
  - assert (fmax a (F64.of_Z 0) = a) as ->; [|done]. change (F64.of_Z 0) with (S754_zero false). destruct a as [s|s| |s m e]; cbn in *; try lia; destruct s; done || (cbn in *; lia).
  - pose proof (of_Z_exact k ltac:(lia)) as He. assert (1 <= F64.to_u64 (F64.of_Z k)) as Hb by lia. unfold fmax.
    destruct a as [s|s| |s m e]; [| |done|]; (destruct (F64.of_Z k) as [s'|s'| |s' m' e']; [| |done|]); by case_match.
Qed.

(** ** One scan *)

Section scan.
Context {A Agg D : Type} (gucs : Gucs) (collect_aggregates : list Agg -> list Z -> A) (exchange : A -> Z -> M (TopNScanExecState A Agg * PdbScanState A Agg D) unit A)
  (final_datums : list Agg -> A -> option (list (option D))) (null : D) (visible : Z -> bool).

Implicit Types (st : TopNScanExecState A Agg * PdbScanState A Agg D).

Abbreviation query := (query collect_aggregates exchange final_datums null).
Abbreviation internal_next := (internal_next gucs collect_aggregates exchange final_datums null).
Abbreviation next := (next gucs collect_aggregates exchange final_datums null).
Abbreviation exec_custom_scan := (exec_custom_scan gucs collect_aggregates exchange final_datums null visible).
Abbreviation run_scan := (run_scan gucs collect_aggregates exchange final_datums null visible).

(** What the reader promises: a search returns a part of one ranking of the results in these
    segments, with results of the aggregation if it has one. *)
Definition ranks (rd : Reader A) (ob : option (list OrderByInfo)) (segs : list Z) (l : list Result) : Prop :=
  forall n off agg, 1 <= n -> 0 <= off -> exists a,
    match ob with
    | Some os => top_n_in_segments rd segs os n off agg
    | None => top_n_unordered_in_segments rd segs n off
    end = Some (results_new (take (Z.to_nat n) (drop (Z.to_nat off) l)) a) /\ (is_Some ob -> is_Some agg -> is_Some a).

Definition gucs_ok : Prop := 1 <= topn_retry_scale_factor gucs <= 100 /\ 1 <= max_topn_chunk_size gucs <= 1000000.

(** There are no window aggregates; or there is an ORDER BY, the scan is not parallel, and the
    aggregates have final values.  (Nothing is said of the exchange between workers.) *)
Definition aggregates_ok (ob : option (list OrderByInfo)) (ws : list (WindowAggregateInfo (Agg := Agg))) (p : PdbScanState A Agg D) : Prop :=
  ws = [] \/ (is_Some ob /\ parallel_state p = None /\ forall ts a, is_Some (final_datums ts a)).

Variables (rd : Reader A) (ob : option (list OrderByInfo)) (segs : list Z) (l : list Result) (L : Z) (sf : spec_float)
  (ws : list (WindowAggregateInfo (Agg := Agg))).
Hypotheses (Hranks : ranks rd ob segs l) (Hgucs : gucs_ok) (Hfetch : 1 <= F64.to_u64 (F64.mul (F64.of_Z L) sf))
  (Hlen : Z.of_nat (length l) < 2 ^ 64).

(** The segments of the scan: all, or those that the worker has claimed or will claim. *)
Definition scans st : Prop :=
  match parallel_state st.2 with
  | None => segment_ids rd = segs
  | Some handed => claimed_segments st.1 = Some segs \/ (claimed_segments st.1 = None /\ handed = segs)
  end.

Definition fixed st : Prop :=
  limit st.1 = L /\ orderby_info st.1 = ob /\ search_reader st.1 = Some rd /\ ps_search_reader st.2 = Some rd /\ scale_factor st.1 = sf /\
  window_aggregates st.1 = ws /\ scans st /\ 0 <= chunk_size st.1 <= 1000000 /\ aggregates_ok ob ws st.2.

(** [p] results of the ranking have been looked at and [F] were fetched. *)
Definition at_rank st (p F : nat) : Prop :=
  (p <= F <= length l)%nat /\ results (search_results st.1) = drop p (take F l) /\
  (if exhausted st.1 then F = length l else offset st.1 = Z.of_nat F) /\ (did_query st.1 = false -> F = 0%nat /\ exhausted st.1 = false).

Definition inv st p F : Prop := fixed st /\ at_rank st p F.

Lemma fixed_limit st : fixed st -> 1 <= local_limit st.1.
Proof.
  intros (HL & _ & _ & _ & Hsf & _ & _ & Hc & _). unfold local_limit. rewrite HL, Hsf. apply fmax_positive; [done|]. lia.
Qed.

(** With the limit reached, or nothing left, a query does nothing. *)
Lemma query_stops st : L <= found st.1 \/ exhausted st.1 = true -> limit st.1 = L -> query st = (Ok false, (set_did_query st.1, st.2)).
Proof.
  intros H HL. unfold TopN.query. rewrite bind_modify, bind_gets. cbn [fst set_did_query limit found exhausted]. rewrite HL.
  assert ((L <=? found st.1) || exhausted st.1 = true) as ->; [|done]. destruct H as [H| ->]; [by rewrite (proj2 (Z.leb_le _ _) H)|apply orb_true_r].
Qed.

(** Publishing the aggregates leaves the results alone. *)
Lemma publish_ok prepared st r agg : parallel_state st.2 = None -> (forall ts a, is_Some (final_datums ts a)) ->
  search_results st.1 = mkTopNSearchResults (Z.of_nat (length r)) r (Some agg) ->
  exists w, publish_aggregates exchange final_datums null prepared st = (Ok tt, (set_results (results_new r None) st.1, set_window_results w st.2)).
Proof.
  intros Hp Hfin Hr. unfold publish_aggregates. rewrite bind_gets, Hr. cbn [take_aggregation_results SearchReader.aggregation_results results results_original_len].
  rewrite (bind_ok _ _ _ agg st) by done. rewrite bind_modify, bind_gets. cbn [fst snd id set_results]. rewrite Hp, bind_ret.
  unfold finalize_aggregates. destruct (Hfin (combined_agg_types prepared) agg) as [d ->]. cbn [mbind option_bind]. by eexists.
Qed.

(** The segments are the same for every query. *)
Lemma segments_ok st : scans st -> exists st', segments_to_query rd st = (Ok segs, st') /\ scans st' /\ (parallel_state st.2 = None -> parallel_state st'.2 = None) /\
  st'.1 = set_claimed (claimed_segments st'.1) st.1 /\ ps_search_reader st'.2 = ps_search_reader st.2.
Proof.
  destruct st as [s p]. unfold scans, segments_to_query. cbn [fst snd]. destruct s. cbn [claimed_segments]. intros Hs. destruct (parallel_state p) as [handed|] eqn:Hp.
  - destruct Hs as [-> | [-> ->]]; eexists; (split; [done|]); cbn [fst snd claimed_segments set_claimed parallel_state]; rewrite ?Hp; split_and!; try done; try (by left); by eexists.
  - rewrite Hs. eexists. split; [done|]. cbn [fst snd]. rewrite Hp. split_and!; done.
Qed.

(** A query that has something to do fetches the next chunk. *)
Lemma query_fetches st F : inv st F F -> found st.1 < L -> exhausted st.1 = false ->
  exists st' F', query st = (Ok (bool_decide (F < F')%nat), st') /\ inv st' F F' /\ did_query st'.1 = true /\ found st'.1 = found st.1 /\
    (F < F' \/ (F' = F /\ F = length l /\ exhausted st'.1 = true))%nat.
Proof.
  intros [Hfix (Hle & Hres & Hoff & _)] Hfound Hex. pose proof (fixed_limit st Hfix) as Hn. rewrite Hex in Hoff.
  destruct Hfix as (HL & Hob & Hrd & Hprd & Hsf & Hws & Hsc & Hc & Haggs). unfold TopN.query. rewrite bind_modify, bind_gets. cbn [fst snd set_did_query limit found exhausted].
  rewrite HL, Hex, (proj2 (Z.leb_gt _ _) Hfound). cbn [orb]. rewrite bind_modify. cbn [fst snd set_did_query search_reader orderby_info offset].
  set (s1 := set_did_query st.1). assert (local_limit s1 = local_limit st.1) as -> by done. assert (prepare_aggregations s1 = prepare_aggregations st.1) as -> by done.
  set (n := local_limit st.1) in *. rewrite Hrd. rewrite (bind_ok _ _ _ rd (s1, increment_query_count st.2)) by done.
  rewrite (bind_ok _ _ _ rd (s1, increment_query_count st.2)) by (rewrite bind_gets; cbn [snd increment_query_count ps_search_reader]; by rewrite Hprd).
  destruct (segments_ok (s1, increment_query_count st.2)) as (st1 & Hseg & Hsc1 & Hpar1 & Hst1 & Hprd1); [done|].
  rewrite (bind_ok _ _ _ segs st1 Hseg). rewrite Hob, Hoff.
  destruct (Hranks n (Z.of_nat F) ((fun a => collect_aggregates (combined_agg_types a)) <$> prepare_aggregations st.1)) as (a & Hr & Ha); [done|lia|].
  rewrite Nat2Z.id in Hr. set (r := take (Z.to_nat n) (drop F l)) in *.
  rewrite (bind_ok _ _ _ (results_new r a) st1) by (destruct ob; by rewrite Hr). rewrite bind_modify. cbn [fst snd].
  (* the aggregates *)
  assert (exists a' p', (match prepare_aggregations st.1 with Some q => publish_aggregates exchange final_datums null q | None => mret tt end) (set_results (results_new r a) st1.1, st1.2) =
    (Ok tt, (set_results (results_new r a') st1.1, p')) /\ parallel_state p' = parallel_state st1.2 /\ ps_search_reader p' = ps_search_reader st1.2) as (a' & p' & Hpub & Hpar & Hpr).
  { unfold prepare_aggregations in Ha |- *. rewrite Hws in Ha |- *. destruct Haggs as [-> | (Hob' & Hser & Hfin)]; [by eexists _, _|]. destruct ws as [|w ws']; [by eexists _, _|].
    cbn [is_nil fmap option_fmap option_map] in Ha |- *. destruct Ha as [agg Ha]; [done|by eexists|].
    edestruct (publish_ok (mkPrepared (concat (aggregates <$> w :: ws')) (concat ((fun info => replicate (length (aggregates info)) (target_entry_index info)) <$> w :: ws')))
      (set_results (results_new r a) st1.1, st1.2) r agg) as [w' Hw]; [cbn [snd]; by rewrite Hpar1|done|cbn; by rewrite Ha|].
    exists None, (set_window_results w' st1.2). split; [exact Hw|done]. }
  rewrite (bind_ok _ _ _ tt _ Hpub), bind_modify, bind_gets. cbn [fst snd set_results search_results set_offset_exhausted original_len results_original_len results_new].
  assert (length r = Nat.min (Z.to_nat n) (length l - F))%nat as Hlr by (unfold r; by rewrite length_take, length_drop).
  eexists _, (F + length r)%nat. split.
  { unfold mret, M_ret. cbn [search_results set_offset_exhausted]. repeat f_equal. case_bool_decide; [apply Z.ltb_lt|apply Z.ltb_ge]; lia. }
  rewrite Hst1. cbn [fst snd set_claimed set_results set_offset_exhausted limit orderby_info search_reader scale_factor window_aggregates chunk_size did_query found exhausted s1 set_did_query].
  split; [split|].
  - unfold fixed. cbn [fst snd]. rewrite Hpr, Hprd1. cbn. split_and!; try done; try lia; [unfold scans in *; cbn; by rewrite Hpar|].
    destruct Haggs as [?|(? & Hser & ?)]; [by left|]. right. rewrite Hpar. split; [done|]. split; [by apply Hpar1|done].
  - unfold at_rank. cbn. split_and!; try lia; try done.
    + rewrite Hlr. clear Hlr. unfold r. rewrite take_drop_commute. f_equal. destruct (Nat.le_gt_cases (F + Z.to_nat n) (length l)).
      * f_equal. lia.
      * rewrite !take_ge by lia. done.
    + destruct (Z.ltb_spec (Z.of_nat (length r)) n) as [Hlt|Hge]; [lia|]. rewrite wrap_small by lia. lia.
  - split_and!; try done. destruct (Nat.eq_dec (length r) 0%nat) as [Hz|Hz]; [|left; lia]. right. split; [lia|]. split; [lia|]. apply Z.ltb_lt. lia.
Qed.

(** What one call of [next] does while the limit is not reached: it passes over one result of the
    ranking, or is at its end. *)
Definition passes (c : M (TopNScanExecState A Agg * PdbScanState A Agg D) unit ExecState) st (p : nat) : Prop :=
  exists st' F', inv st' (S p) F' /\ found st'.1 = found st.1 /\ did_query st'.1 = true /\
    exists x, l !! p = Some x /\ c st = (Ok (RequiresVisibilityCheck x), st').

Definition ends (c : M (TopNScanExecState A Agg * PdbScanState A Agg D) unit ExecState) st (p : nat) : Prop :=
  exists st', p = length l /\ inv st' p p /\ found st'.1 = found st.1 /\ exhausted st'.1 = true /\ did_query st'.1 = true /\ c st = (Ok Eof, st').

Lemma internal_next_item n st p F : inv st p F -> found st.1 < L -> (p < F)%nat -> passes (internal_next (S n)) st p.
Proof.
  intros [Hfix (Hle & Hres & Hoff & Hdid)] Hfound Hp. destruct (lookup_lt_is_Some_2 l p) as [x Hx]; [lia|].
  assert (drop p (take F l) = x :: drop (S p) (take F l)) as Hd by (apply drop_S; by rewrite lookup_take_lt).
  assert (did_query st.1 = true) as Hq. { destruct (did_query st.1); [done|]. destruct Hdid; [done|lia]. }
  pose proof Hfix as (HL & _). eexists _, F. split; [|split; [|split; [|exists x; split; [done|]]]].
  4:{ cbn [TopN.internal_next]. rewrite bind_gets. unfold results_next. rewrite Hres, Hd. rewrite bind_modify. cbn [limit found set_results]. rewrite HL.
      rewrite (proj2 (Z.leb_gt _ _) Hfound). rewrite bind_modify. reflexivity. }
  2,3: done. split; [exact Hfix|]. unfold at_rank. cbn. split_and!; try done; lia.
Qed.

Lemma results_next_nil (r : TopNSearchResults A) : results r = [] -> results_next r = (None, r).
Proof. intros H. unfold results_next. by rewrite H. Qed.

Lemma inv_nil st p : inv st p p -> results (search_results st.1) = [].
Proof. intros [_ (_ & Hres & _)]. rewrite Hres, drop_ge; [done|]. rewrite length_take. lia. Qed.

Lemma set_results_id (s : TopNScanExecState A Agg) : set_results (search_results s) s = s.
Proof. by destruct s. Qed.

Lemma chunk_bounds st : fixed st -> 0 <= next_chunk_size gucs st.1 <= 1000000.
Proof.
  intros Hfix. destruct Hgucs as [_ Hm]. unfold next_chunk_size. pose proof (wrap_range 64 (chunk_size st.1 * topn_retry_scale_factor gucs)). lia.
Qed.

Lemma inv_chunk st p F : inv st p F -> inv (set_chunk_size (next_chunk_size gucs st.1) st.1, st.2) p F.
Proof.
  intros [Hfix Hat]. pose proof (chunk_bounds st Hfix). split; [|done]. destruct Hfix as (? & ? & ? & ? & ? & ? & ? & ? & ?). unfold fixed. split_and!; try done; cbn; lia.
Qed.

(** All fetched results have been looked at: more are fetched. *)
Lemma internal_next_fetch st p : inv st p p -> found st.1 < L -> did_query st.1 = true -> passes (internal_next 2) st p \/ ends (internal_next 2) st p.
Proof.
  intros Hinv Hfound Hq. pose proof Hinv as [(HL & _) (Hle & _ & Hoff & _)].
  assert (forall Q : outcome unit ExecState * _ -> Prop, Q ((b ← query; if b : bool then internal_next 1 else mret Eof) (set_chunk_size (next_chunk_size gucs st.1) st.1, st.2)) -> Q (internal_next 2 st)) as Hstep.
  { intros Q HQ. cbn [TopN.internal_next]. rewrite bind_gets, (results_next_nil _ (inv_nil _ _ Hinv)), bind_modify. cbn [fst snd]. rewrite set_results_id, Hq, HL, (proj2 (Z.leb_gt _ _) Hfound).
    cbn [negb]. rewrite bind_modify. exact HQ. }
  pose proof (inv_chunk st p p Hinv) as Hinv'. set (st1 := (set_chunk_size _ _, _)) in *. destruct (exhausted st.1) eqn:Hex.
  - right. exists (set_did_query st1.1, st1.2). split; [lia|]. split; [|split; [done|split; [exact Hex|split; [done|]]]].
    + destruct Hinv' as [Hf (H1 & H2 & H3 & _)]. split; [exact Hf|]. unfold at_rank. split; [done|]. by split.
    + apply (Hstep (fun r => r = _)). rewrite (bind_ok _ _ _ false (set_did_query st1.1, st1.2)); [done|]. apply query_stops; [right; exact Hex|done].
  - destruct (query_fetches st1 p Hinv') as (st' & F' & Hqy & Hi & Hd & Hf & Hcase); [done|exact Hex|]. destruct Hcase as [Hlt|(-> & Hp & Hex')].
    + left. destruct (internal_next_item 0 st' p F' Hi) as (st'' & F'' & Hi' & Hf' & Hd' & x & Hx & Hc); [by rewrite Hf|done|].
      exists st'', F''. split; [done|]. split; [by rewrite Hf', Hf|]. split; [done|]. exists x. split; [done|].
      apply (Hstep (fun r => r = _)). rewrite (bind_ok _ _ _ _ _ Hqy). rewrite bool_decide_true by done. exact Hc.
    + right. exists st'. split; [done|]. split; [done|]. split; [done|]. split; [done|]. split; [done|]. apply (Hstep (fun r => r = _)). rewrite (bind_ok _ _ _ _ _ Hqy). rewrite bool_decide_false by lia. done.
Qed.

Lemma scan_next_spec st p F : inv st p F -> found st.1 < L -> passes (next 2) st p \/ ends (next 2) st p.
Proof.
  intros Hinv Hfound. pose proof Hinv as [(HL & _) (Hle & _ & _ & Hdid)].
  assert (forall k, passes (internal_next 2) st p -> passes (next (S k)) st p) as Hpass.
  { intros k (st' & F' & Hi & Hf & Hd & x & Hx & Hc). exists st', F'. split; [done|]. split; [done|]. split; [done|]. exists x. split; [done|].
    cbn [TopN.next]. by rewrite (bind_ok _ _ _ _ _ Hc). }
  destruct (did_query st.1) eqn:Hq.
  - destruct (Nat.eq_dec p F) as [->|Hne]; [|left; apply Hpass, (internal_next_item 1 st p F); [done|done|lia]].
    destruct (internal_next_fetch st F Hinv Hfound Hq) as [Hp|(st' & -> & Hi & Hf & Hex & Hd & Hc)]; [left; by apply Hpass|right].
    exists (set_did_query st'.1, st'.2). split; [done|]. split; [|split; [done|split; [exact Hex|split; [done|]]]].
    + destruct Hi as [Hfx (H1 & H2 & H3 & _)]. split; [exact Hfx|]. unfold at_rank. split; [done|]. by split.
    + cbn [TopN.next]. rewrite (bind_ok _ _ _ _ _ Hc), (bind_ok _ _ _ false (set_did_query st'.1, st'.2)); [done|]. apply query_stops; [by right|]. by destruct Hi as [(? & _) _].
  - destruct Hdid as [-> Hex]; [done|]. assert (p = 0%nat) as -> by lia.
    assert (internal_next 2 st = (Ok Eof, st)) as Hc.
    { cbn [TopN.internal_next]. rewrite bind_gets, (results_next_nil _ (inv_nil _ _ Hinv)), bind_modify. cbn [fst snd]. rewrite set_results_id, Hq. by destruct st. }
    destruct (query_fetches st 0 Hinv Hfound Hex) as (st' & F' & Hqy & Hi & Hd & Hf & Hcase). destruct Hcase as [Hlt|(-> & Hp & Hex')].
    + left. destruct (internal_next_item 1 st' 0 F' Hi) as (st'' & F'' & Hi' & Hf' & Hd' & x & Hx & Hc'); [by rewrite Hf|done|].
      exists st'', F''. split; [done|]. split; [by rewrite Hf', Hf|]. split; [done|]. exists x. split; [done|].
      cbn [TopN.next]. rewrite (bind_ok _ _ _ _ _ Hc), (bind_ok _ _ _ _ _ Hqy), bool_decide_true by done. by rewrite (bind_ok _ _ _ _ _ Hc').
    + right. exists st'. split; [done|]. split; [done|]. split; [done|]. split; [done|]. split; [done|].
      cbn [TopN.next]. by rewrite (bind_ok _ _ _ _ _ Hc), (bind_ok _ _ _ _ _ Hqy), bool_decide_false by lia.
Qed.

(** ** Rows *)

(** The visible results. *)
Definition rows (rs : list Result) : list Result := filter (fun r => visible (ctid r.1) = true) rs.

Lemma inv_counts st p F s p' : inv st p F -> (s = st.1 \/ s = increment_visible st.1) -> (exists b, p' = count_check b st.2) -> inv (s, p') p F.
Proof. intros H Hs [b ->]. by destruct Hs as [->| ->]. Qed.

Lemma exec_spec fuel st p F : inv st p F -> found st.1 < L -> (length l - p < fuel)%nat ->
  exists r st' p' F', exec_custom_scan fuel st = (Ok r, st') /\ inv st' p' F' /\
    match r with
    | Some x => rows (drop p l) = x :: rows (drop p' l) /\ found st'.1 = found st.1 + 1
    | None => rows (drop p l) = [] /\ p' = length l /\ found st'.1 = found st.1
    end.
Proof.
  revert st p F. induction fuel as [|fuel IH]; intros st p F Hinv Hfound Hfuel; [lia|]. cbn [TopN.exec_custom_scan].
  destruct (scan_next_spec st p F Hinv Hfound) as [(st' & F' & Hi & Hf & _ & x & Hx & Hc)|(st' & -> & Hi & Hf & _ & _ & Hc)]; rewrite (bind_ok _ _ _ _ _ Hc).
  - rewrite (drop_S l x p Hx). unfold rows. rewrite filter_cons. fold (rows (drop (S p) l)). pose proof (lookup_lt_Some _ _ _ Hx). destruct (visible (ctid x.1)) eqn:Ev.
    + rewrite bind_modify. eexists (Some x), _, (S p), F'. split; [done|]. split; [apply (inv_counts st'); [done|by right|by eexists]|]. split; [by rewrite decide_True|]. cbn. by rewrite Hf.
    + rewrite bind_modify, decide_False by done. edestruct (IH (st'.1, count_check false st'.2) (S p) F') as (r & st'' & p'' & F'' & He & Hi' & Hr); [apply (inv_counts st'); [done|by left|by eexists]|cbn; lia|lia|].
      exists r, st'', p'', F''. split; [done|]. split; [done|]. cbn [fst] in Hr. by rewrite Hf in Hr.
  - exists None, st', (length l), (length l). split; [done|]. split; [done|]. split; [|done]. by rewrite drop_all.
Qed.

(** Once the limit is reached the scan has ended. *)
Lemma exec_done fuel st : limit st.1 = L -> L <= found st.1 -> (0 < fuel)%nat ->
  exists st', exec_custom_scan fuel st = (Ok None, st') /\ limit st'.1 = L /\ L <= found st'.1.
Proof.
  intros HL Hf Hfuel. destruct fuel as [|fuel]; [lia|]. cbn [TopN.exec_custom_scan].
  destruct (results_next (search_results st.1)) as [item r] eqn:Er. set (st1 := (set_results r st.1, st.2)).
  assert (internal_next 2 st = (Ok Eof, st1)) as Hc.
  { cbn [TopN.internal_next]. rewrite bind_gets, Er, bind_modify. rewrite HL, (proj2 (Z.leb_le _ _) Hf). destruct item; [done|]. by destruct (did_query st.1). }
  exists (set_did_query st1.1, st1.2). split; [|done]. cbn [TopN.next]. rewrite (bind_ok _ _ _ Eof (set_did_query st1.1, st1.2)); [done|].
  rewrite (bind_ok _ _ _ _ _ Hc), (bind_ok _ _ _ false (set_did_query st1.1, st1.2)); [done|]. by apply query_stops; [left|].
Qed.

Lemma run_done fuel n st : limit st.1 = L -> L <= found st.1 -> (0 < fuel)%nat -> exists st', run_scan fuel n st = (Ok (replicate n None), st').
Proof.
  revert st. induction n as [|n IH]; intros st HL Hf Hfuel; [by eexists|]. cbn [TopN.run_scan].
  destruct (exec_done fuel st HL Hf Hfuel) as (st' & He & HL' & Hf'). rewrite (bind_ok _ _ _ _ _ He). destruct (IH st' HL' Hf' Hfuel) as [st'' Hr].
  exists st''. by rewrite (bind_ok _ _ _ _ _ Hr).
Qed.

Lemma scan_run_spec fuel n st p F : inv st p F -> found st.1 <= L -> (length l < fuel)%nat ->
  exists st', run_scan fuel n st = (Ok (take n ((Some <$> take (Z.to_nat (L - found st.1)) (rows (drop p l))) ++ replicate n None)), st').
Proof.
  revert st p F. induction n as [|n IH]; intros st p F Hinv Hf Hfuel; [by eexists|].
  destruct (Z.eq_dec (found st.1) L) as [HfL|Hne].
  { destruct (run_done fuel (S n) st) as [st' Hr]; [by destruct Hinv as [(? & _) _]|lia|lia|]. exists st'. rewrite Hr, HfL, Z.sub_diag. rewrite take_0. cbn [fmap list_fmap app]. by rewrite take_ge by (rewrite length_replicate; lia). }
  destruct (exec_spec fuel st p F Hinv) as (r & st' & p' & F' & He & Hi & Hr); [lia|lia|]. cbn [TopN.run_scan]. rewrite (bind_ok _ _ _ _ _ He).
  assert (found st'.1 <= L) as Hf' by (destruct r; destruct Hr as [_ Hr]; lia).
  destruct (IH st' p' F' Hi Hf' Hfuel) as [st'' Hrun]. exists st''. rewrite (bind_ok _ _ _ _ _ Hrun). unfold mret, M_ret. do 2 f_equal. destruct r as [x|].
  - destruct Hr as [-> ->]. replace (Z.to_nat (L - found st.1)) with (S (Z.to_nat (L - (found st.1 + 1)))) by lia. cbn [take fmap list_fmap app].
    f_equal. rewrite !take_app. f_equal. rewrite !take_replicate. f_equal. lia.
  - destruct Hr as (-> & -> & ->). rewrite drop_all. change (rows []) with (@nil Result). by rewrite !take_nil.
Qed.

End scan.

(** * The scan on an index *)

Section scan.
Context {T A Agg D : Type} `{Scorer T} (docs_fuel : nat) (segment_readers : list (SegmentReader T)) (docs : SegmentReader T -> list (Z * Score)).
Context (order_by : forall f : Feature, SortDirection -> list (Feature * SortDirection) -> list Z -> Z -> Z -> list ((output f * list Terms.OwnedValue) * DocAddress))
  (by_score : (Score -> Score -> option comparison) -> list Z -> Z -> Z -> list (Score * DocAddress))
  (search_field : string -> option Terms.SearchField) (need_scores : bool).

Definition returned {R} (r : outcome unit R * unit) : option R := match r.1 with Ok x => Some x | _ => None end.

(** The reader of the index as the scan uses it. *)
Definition index_reader : Reader A := mkReader (segment_id <$> segment_readers)
  (fun ids os n off agg => returned (search_top_n_in_segments segment_readers order_by by_score search_field need_scores ids os n off agg tt))
  (fun ids n off => returned (search_top_n_unordered_in_segments docs_fuel segment_readers ids n off tt)).

Context (feature_cmp : Feature -> DocAddress -> DocAddress -> comparison) (score_of : DocAddress -> Score).

Hypothesis readers_ok : forall ord r, segment_readers !! ord = Some r ->
  enumerates (sr_scorer r) (docs r) /\ (length (docs r) < docs_fuel)%nat /\ Forall (fun e => is_Some (ctid_fast_field r e.1)) (docs r).
Context `{!TopDocs segment_readers docs order_by by_score feature_cmp score_of}.

(** The reader keeps what the scan relies on. *)
Lemma ordered_ranks ids os fs : ids_known segment_readers ids -> features_are search_field os fs -> os <> [] ->
  (length os + (if extra need_scores os then 1 else 0) <= MAX_TOPN_FEATURES)%nat ->
  exists l, l ≡ₚ matching docs (located segment_readers ids) /\ sorted_by feature_cmp fs l /\
    ranks index_reader (Some os) ids (shown_result segment_readers score_of need_scores os <$> l).
Proof.
  intros Hids Hfs Hne Hc. destruct (ordered_found (A := A) docs_fuel segment_readers docs readers_ok order_by by_score feature_cmp score_of search_field need_scores ids os fs Hids Hfs Hne Hc)
    as (l & Hp & Hs & Hf). exists l. split; [done|]. split; [done|]. intros n off agg Hn Ho. exists ((fun c => c (located segment_readers ids).*1) <$> agg). split; [|by intros _ [? ->]; eexists].
  cbn. rewrite Hf by done. unfold returned. cbn [fst]. by rewrite <- fmap_drop, <- fmap_take.
Qed.

Lemma unordered_ranks ids : ids_known segment_readers ids -> ranks index_reader None ids (pending (rest_of docs <$> located segment_readers ids)).
Proof.
  intros Hids n off agg Hn Ho. exists None. split; [|by intros [? ?]]. cbn. by rewrite (unordered_found docs_fuel segment_readers docs readers_ok) by (done || lia).
Qed.

Context (gucs : Gucs) (collect_aggregates : list Agg -> list Z -> A) (exchange : A -> Z -> M (TopNScanExecState A Agg * PdbScanState A Agg D) unit A)
  (final_datums : list Agg -> A -> option (list (option D))) (null : D) (visible : Z -> bool).

(** A scan that starts; [segs] are the segments it is about. *)
Definition started (p : PdbScanState A Agg D) (ids : list Z) : Prop :=
  ps_search_reader p = Some index_reader /\ match parallel_state p with None => segment_id <$> segment_readers = ids | Some handed => handed = ids end.

Lemma scan_init_inv p ids ob l limit sf : started p ids -> aggregates_ok final_datums ob (ps_window_aggregates p) p ->
  inv final_datums index_reader ob ids l limit sf (ps_window_aggregates p)
    (reset_with p (mkTopN limit ob None results_empty 0 false false 0 0 0 None sf []), p) 0 0.
Proof.
  intros [Hrd Hseg] Hagg. split; [|split_and!; cbn; done || lia]. unfold fixed. cbn. split_and!; try done. unfold scans. cbn. destruct (parallel_state p); [by right|done].
Qed.

(** The start of a scan, then as many calls as the executor makes. *)
Definition scan (fuel calls : nat) : M (TopNScanExecState A Agg * PdbScanState A Agg D) unit (list (option Result)) :=
  init;; run_scan gucs collect_aggregates exchange final_datums null visible fuel calls.

(** C28: Through all its fetches of growing chunks, a scan with ORDER BY and LIMIT returns, one row per
    call and in order, the visible ones of the first documents in a ranking of all live
    documents that match in its segments, as many as the limit, and then the end; the ranking is
    in the order of the ORDER BY, every row has its own heap pointer, and its score when that is
    asked for.  The sort columns exist and are, with the score if that is asked for besides, at
    most three; the limit, scaled, is at least one; and there are no window aggregates, or the
    scan is not parallel and their final values can be computed. *)
Theorem top_n_rows (n_dead n_live limit : Z) (os : list OrderByInfo) (fs : list (Feature * SortDirection)) (s0 : TopNScanExecState A Agg)
    (p : PdbScanState A Agg D) (ids : list Z) (fuel : nat) :
  new gucs n_dead n_live limit (Some os) = Some s0 -> 0 <= limit -> started p ids -> ids_known segment_readers ids ->
  features_are search_field os fs -> os <> [] -> (length os + (if extra need_scores os then 1 else 0) <= MAX_TOPN_FEATURES)%nat ->
  gucs_ok gucs -> 1 <= F64.to_u64 (F64.mul (F64.of_Z limit) (scale_factor_of gucs n_dead n_live)) ->
  aggregates_ok final_datums (Some os) (ps_window_aggregates p) p ->
  Z.of_nat (length (matching docs (located segment_readers ids))) < 2 ^ 64 -> (length (matching docs (located segment_readers ids)) < fuel)%nat ->
  exists ranking, ranking ≡ₚ matching docs (located segment_readers ids) /\ sorted_by feature_cmp fs ranking /\
    forall calls, exists st, scan fuel calls (s0, p) =
      (Ok (take calls ((Some <$> take (Z.to_nat limit) (rows visible (shown_result segment_readers score_of need_scores os <$> ranking))) ++ replicate calls None)), st).
Proof.
  unfold new. destruct (Nat.ltb _ _); [done|]. intros [= <-] Hl Hst Hids Hfs Hne Hc Hg Hf Ha H64 Hfuel.
  destruct (ordered_ranks ids os fs Hids Hfs Hne Hc) as (l & Hp & Hs & Hr). exists l. split; [done|]. split; [done|]. intros calls. unfold scan, init, reset. rewrite bind_modify.
  rewrite <- Hp in H64, Hfuel.
  destruct (scan_run_spec gucs collect_aggregates exchange final_datums null visible index_reader (Some os) ids (shown_result segment_readers score_of need_scores os <$> l) limit
    (scale_factor_of gucs n_dead n_live) (ps_window_aggregates p) Hr Hg Hf ltac:(by rewrite length_fmap) fuel calls _ 0 0 (scan_init_inv p ids (Some os) _ limit _ Hst Ha)) as [st Hrun].
  - done.
  - by rewrite length_fmap.
  - exists st. rewrite Hrun. cbn [fst reset_with found]. by rewrite Z.sub_0_r, drop_0.
Qed.

(** The same without an ORDER BY: the rows are those of the segments from the last to the first. *)
Theorem limit_rows (n_dead n_live limit : Z) (s0 : TopNScanExecState A Agg) (p : PdbScanState A Agg D) (ids : list Z) (fuel calls : nat) :
  new gucs n_dead n_live limit None = Some s0 -> 0 <= limit -> started p ids -> ids_known segment_readers ids -> gucs_ok gucs ->
  1 <= F64.to_u64 (F64.mul (F64.of_Z limit) (scale_factor_of gucs n_dead n_live)) -> ps_window_aggregates p = [] ->
  let found := pending (rest_of docs <$> located segment_readers ids) in Z.of_nat (length found) < 2 ^ 64 -> (length found < fuel)%nat ->
  exists st, scan fuel calls (s0, p) = (Ok (take calls ((Some <$> take (Z.to_nat limit) (rows visible found)) ++ replicate calls None)), st).
Proof.
  intros [= <-] Hl Hst Hids Hg Hf Ha found H64 Hfuel. unfold scan, init, reset. rewrite bind_modify.
  destruct (scan_run_spec gucs collect_aggregates exchange final_datums null visible index_reader None ids found limit (scale_factor_of gucs n_dead n_live) (ps_window_aggregates p)
    (unordered_ranks ids Hids) Hg Hf H64 fuel calls _ 0 0 (scan_init_inv p ids None _ limit _ Hst (or_introl Ha))) as [st Hrun]; [done|done|].
  exists st. rewrite Hrun. cbn [fst reset_with TopN.found]. by rewrite Z.sub_0_r, drop_0.
Qed.

End scan.

(** ** A small index *)

Module SmallIndex.

Definition one := Proximity.one_score.

(** Two segments; the document 2 of the second is deleted. *)
Definition segment_a : SegmentReader (list (Z * Score)) := mkSegmentReader 10 None (fun d => Some (100 + d)) [(0, one); (1, one)].
Definition segment_b : SegmentReader (list (Z * Score)) := mkSegmentReader 20 (Some (fun d => negb (d =? 2))) (fun d => Some (200 + d)) [(2, one); (5, one)].
Definition segments := [segment_a; segment_b].
Definition docs (r : SegmentReader (list (Z * Score))) : list (Z * Score) := sr_scorer r.

Definition score_of (a : DocAddress) : Score := one.
Definition feature_cmp (f : Feature) (a b : DocAddress) : comparison :=
  match f with FieldFeature _ _ => doc_id a ?= doc_id b | ScoreFeature => default Eq (SFcompare one one) end.

Fixpoint first_field (fs : list (Feature * SortDirection)) : option SortDirection :=
  match fs with [] => None | (FieldFeature _ _, d) :: _ => Some d | (ScoreFeature, _) :: fs => first_field fs end.

Definition le_id (a b : DocAddress) : Prop := doc_id a <= doc_id b.
Definition ge_id (a b : DocAddress) : Prop := doc_id b <= doc_id a.
#[global] Instance le_id_dec : RelDecision le_id := fun a b => Z_le_dec (doc_id a) (doc_id b).
#[global] Instance ge_id_dec : RelDecision ge_id := fun a b => Z_le_dec (doc_id b) (doc_id a).

Definition rank (fs : list (Feature * SortDirection)) (l : list DocAddress) : list DocAddress :=
  match first_field fs with
  | None => l
  | Some Asc => merge_sort le_id l
  | Some Desc => merge_sort ge_id l
  end.

Definition of_ords (ords : list Z) : list (Z * SegmentReader (list (Z * Score))) := omap (fun ord => (fun r => (ord, r)) <$> segments !! Z.to_nat ord) ords.

Definition first (f : Feature) : DocAddress -> output f :=
  match f with FieldFeature _ _ => fun a => Terms.U64 (doc_id a) | ScoreFeature => fun _ => one end.
Definition erased (f : Feature) (a : DocAddress) : Terms.OwnedValue :=
  match f with FieldFeature _ _ => Terms.U64 (doc_id a) | ScoreFeature => Terms.F64 (F64.of_Z 1) end.

Definition part {B} (n off : Z) (l : list B) : list B := take (Z.to_nat n) (drop (Z.to_nat off) l).
Definition order_by (f : Feature) (d : SortDirection) (fs : list (Feature * SortDirection)) (ords : list Z) (n off : Z) : list ((output f * list Terms.OwnedValue) * DocAddress) :=
  (fun a => ((first f a, (fun g => erased g.1 a) <$> fs), a)) <$> part n off (rank ((f, d) :: fs) (matching docs (of_ords ords))).
Definition by_score (cmp : Score -> Score -> option comparison) (ords : list Z) (n off : Z) : list (Score * DocAddress) :=
  (fun a => (score_of a, a)) <$> part n off (matching docs (of_ords ords)).

Lemma of_located ids : ids_known segments ids -> of_ords (located segments ids).*1 = located segments ids.
Proof.
  intros [Hs _]%readers_found. induction Hs as [|id [ord r] ids rs (_ & Hr & _) _ IH]; [done|]. unfold of_ords. cbn [fmap list_fmap omap list_omap fst]. rewrite Hr. cbn [fmap option_fmap option_map]. f_equal. exact IH.
Qed.

Lemma lex_first fs a b : lex feature_cmp fs a b = match first_field fs with Some d => directed d (doc_id a ?= doc_id b) | None => Eq end.
Proof.
  induction fs as [|[[t name|] d] fs IH]; [done| |].
  - cbn [lex first_field feature_cmp]. rewrite IH. destruct (first_field fs) as [d'|]; destruct (Z.compare_spec (doc_id a) (doc_id b)) as [He|He|He]; destruct d; cbn [directed CompOpp]; try done; by destruct d'.
  - cbn [lex first_field]. rewrite IH. assert (directed d (feature_cmp ScoreFeature a b) = Eq) as ->; [|done]. by destruct d.
Qed.

Lemma sorted_impl {B} (P Q : B -> B -> Prop) l : (forall a b, P a b -> Q a b) -> StronglySorted P l -> StronglySorted Q l.
Proof. intros HPQ. induction 1 as [|x l _ IH Hall]; constructor; [done|]. eapply Forall_impl; [exact Hall|]. intros y. apply HPQ. Qed.

Lemma rank_ok fs l : rank fs l ≡ₚ l /\ sorted_by feature_cmp fs (rank fs l).
Proof.
  unfold rank, sorted_by. destruct (first_field fs) as [[]|] eqn:Ef.
  - split; [apply merge_sort_Permutation|]. eapply sorted_impl; [|apply StronglySorted_merge_sort; [intros ???; unfold le_id, ge_id; lia|intros ??; unfold le_id, ge_id; lia]].
    intros a b Hab. rewrite lex_first, Ef. cbn. by apply Z.compare_le_iff.
  - split; [apply merge_sort_Permutation|]. eapply sorted_impl; [|apply StronglySorted_merge_sort; [intros ???; unfold le_id, ge_id; lia|intros ??; unfold le_id, ge_id; lia]].
    intros a b Hab. rewrite lex_first, Ef. cbn. rewrite <- Z.compare_antisym. by apply Z.compare_le_iff.
  - split; [done|]. induction l as [|x l IH]; constructor; [done|]. apply Forall_forall. intros y _. rewrite lex_first, Ef. done.
Qed.

#[global] Instance small_top_docs : TopDocs segments docs order_by by_score feature_cmp score_of.
Proof.
  split.
  - intros f d fs ids Hids. exists (rank ((f, d) :: fs) (matching docs (located segments ids))), (first f), erased. destruct (rank_ok ((f, d) :: fs) (matching docs (located segments ids))) as [Hp Hs].
    split; [done|]. split; [done|]. split; [intros n off _ _; unfold order_by; by rewrite (of_located ids Hids)|]. split; [|by destruct f]. intros a. exists (F64.of_Z 1). split; [done|]. by vm_compute.
  - intros cmp ids Hids Hcmp. exists (matching docs (located segments ids)). split; [done|]. split.
    + induction (matching docs (located segments ids)) as [|x l IH]; constructor; [done|]. apply Forall_forall. intros y _. unfold score_of. destruct Hcmp as [->| ->]; by vm_compute.
    + intros n off _ _. unfold by_score. by rewrite (of_located ids Hids).
  - intros a b. done.
Qed.

Definition gucs := mkGucs (F64.of_Z 1) 2 1000.
Definition search_field (name : string) : option Terms.SearchField := Some (Terms.mkSearchField 0 Terms.TI64 Terms.INT8OID).
Definition orderby := [mkOrderBy (FieldOrder "id"%string) Desc].

Abbreviation reader := (index_reader (A := unit) 8 segments order_by by_score search_field false).
Definition state : PdbScanState unit unit unit := mkPdbScanState (Some reader) None [] None 0 0 0.

Lemma readers_ok ord r : segments !! ord = Some r ->
  enumerates (sr_scorer r) (docs r) /\ (length (docs r) < 8)%nat /\ Forall (fun e => is_Some (ctid_fast_field r e.1)) (docs r).
Proof.
  assert (Forall (fun r => Forall (fun e => e.1 <> TERMINATED) (docs r) /\ (length (docs r) < 8)%nat /\ Forall (fun e => is_Some (ctid_fast_field r e.1)) (docs r)) segments) as Hall.
  { repeat constructor; try done; by eexists. }
  rewrite Forall_forall in Hall. intros Hr%list_elem_of_lookup_2. destruct (Hall r Hr) as (H1 & H2 & H3). split; [by apply enumerates_list|]. by split.
Qed.

End SmallIndex.

(** The document 5, the first one, is not visible: two fetches are needed for a row. *)
Lemma top_n_rows_witness : exists s0, new (A := unit) (Agg := unit) SmallIndex.gucs 0 9 1 (Some SmallIndex.orderby) = Some s0 /\
  exists ranking, ranking ≡ₚ matching SmallIndex.docs (located SmallIndex.segments [10; 20]) /\
    sorted_by SmallIndex.feature_cmp [(FieldFeature Terms.TI64 "id"%string, Desc)] ranking /\
    forall calls, exists st, scan SmallIndex.gucs (fun _ _ => tt) (fun _ _ => panic) (fun _ _ => None) tt (fun c => negb (c =? 205)) 9 calls (s0, SmallIndex.state) =
      (Ok (take calls ((Some <$> take 1 (rows (fun c => negb (c =? 205)) (shown_result SmallIndex.segments SmallIndex.score_of false SmallIndex.orderby <$> ranking))) ++ replicate calls None)), st).
Proof.
  eexists. split; [reflexivity|].
  refine (top_n_rows (A := unit) (Agg := unit) (D := unit) 8 SmallIndex.segments SmallIndex.docs SmallIndex.order_by SmallIndex.by_score SmallIndex.search_field false SmallIndex.feature_cmp SmallIndex.score_of
    SmallIndex.readers_ok SmallIndex.gucs (fun _ _ => tt) (fun _ _ => panic) (fun _ _ => None) tt (fun c => negb (c =? 205)) 0 9 1 SmallIndex.orderby
    [(FieldFeature Terms.TI64 "id"%string, Desc)] _ SmallIndex.state [10; 20] 9 _ _ _ _ _ _ _ _ _ _ _ _).
  - reflexivity.
  - lia.
  - split; reflexivity.
  - repeat constructor; set_solver.
  - repeat constructor.
  - done.
  - vm_compute; lia.
  - unfold gucs_ok; vm_compute; split; split; discriminate.
  - vm_compute; discriminate.
  - left; reflexivity.
  - vm_compute; reflexivity.
  - vm_compute; lia.
Defined.

(** What it returns. *)
Example top_n_small :
  let r := (fun s0 => scan SmallIndex.gucs (fun _ _ => tt) (fun _ _ => panic) (fun _ _ => None) tt (fun c => negb (c =? 205)) 9 2 (s0, SmallIndex.state)) <$>
    new SmallIndex.gucs 0 9 1 (Some SmallIndex.orderby) in
  fst <$> r = Some (Ok [Some (mkScored 101 SmallIndex.one, mkDocAddress 0 1); None]) /\ (fun x => query_count x.2.2) <$> r = Some 2.
Proof. split; vm_compute; reflexivity. Qed.
