(* ===== verification/Tokenizers.v ===== *)
(** * Tokenizers

    [src/tokenizers]: the code tokenizer, the Chinese compatible tokenizer, the Unicode words
    tokenizer and the filter by length.  A text is the list of its characters, and offsets are in
    bytes of its UTF-8. *)

From stdpp Require Import prelude.
From Stdlib Require Import ZArith Lia.
From S2P Require Import Prelude.
From stdpp Require Import list.

Local Open Scope Z_scope.

Module Tokenizers.

(** ** Texts *)

(** [char::len_utf8] *)
Definition len_utf8 (c : Z) : Z := if c <? 128 then 1 else if c <? 2048 then 2 else if c <? 65536 then 3 else 4.

(** [str::len] *)
Definition str_len (text : list Z) : Z := foldr (fun c n => len_utf8 c + n) 0 text.

(** [str::char_indices], from an offset. *)
Fixpoint char_indices (off : Z) (text : list Z) : list (Z * Z) :=
  match text with [] => [] | c :: text => (off, c) :: char_indices (off + len_utf8 c) text end.

(** [&text[n..]] and [&text[..n]]; [None]: the offset is not between two characters. *)
Fixpoint drop_bytes (n : Z) (text : list Z) : option (list Z) :=
  if n =? 0 then Some text
  else match text with
  | [] => None
  | c :: text => if n <? len_utf8 c then None else drop_bytes (n - len_utf8 c) text
  end.

Fixpoint take_bytes (n : Z) (text : list Z) : option (list Z) :=
  if n =? 0 then Some []
  else match text with
  | [] => None
  | c :: text => if n <? len_utf8 c then None else t ← take_bytes (n - len_utf8 c) text; Some (c :: t)
  end.

Definition slice (text : list Z) (start stop : Z) : option (list Z) := t ← drop_bytes start text; take_bytes (stop - start) t.

(** ** Tokens *)

Record Token := mkToken { offset_from : Z; offset_to : Z; position : Z; text : list Z; position_length : Z }.

(** [Token::default] and [Token::reset] of tantivy. *)
Definition token_default : Token := mkToken 0 0 (2 ^ 64 - 1) [] 1.
Definition token_reset (t : Token) : Token := mkToken 0 0 (2 ^ 64 - 1) [] (position_length t).

(** [self.token.text.clear(); self.token.position = self.token.position.wrapping_add(1)] *)
Definition next_token (t : Token) : Token := mkToken (offset_from t) (offset_to t) (u64 (position t + 1)) [] (position_length t).

(** The trait [TokenStream]; [None]: the call panics. *)
Class TokenStream (T : Type) := { advance : T -> option (bool * T); token : T -> Token }.

(** The tokens of a stream up to its end. *)
Inductive produces {T} `{TokenStream T} : T -> list Token -> Prop :=
| produces_end t t' : advance t = Some (false, t') -> produces t []
| produces_next t t' ks : advance t = Some (true, t') -> produces t' ks -> produces t (token t' :: ks).

Section chars.
(** The classes of characters of Unicode. *)
Variables (is_alphabetic is_uppercase is_numeric : Z -> bool).

Definition is_alphanumeric (c : Z) : bool := is_alphabetic c || is_numeric c.

(** ** The code tokenizer *)

Inductive CharType := UpperCase | LowerCase | Numeric | Delimiter.

Definition get_char_type (c : Z) : CharType :=
  if is_alphabetic c then if is_uppercase c then UpperCase else LowerCase
  else if is_numeric c then Numeric else Delimiter.

Record ProcessingCharsState := mkProcessing {
  is_first_char : bool; start_offset : Z; current_char : Z; current_char_offset : Z; current_char_type : CharType }.

Inductive CodeTokenStreamState := Empty | ProcessingChars (s : ProcessingCharsState).

Definition TokenOffsets := (Z * Z)%type.

(** [CodeTokenStreamState::advance] *)
Definition state_advance (st : CodeTokenStreamState) (next_char_offset next_char : Z) : option TokenOffsets * CodeTokenStreamState :=
  let next_char_type := get_char_type next_char in
  match st with
  | Empty =>
      match next_char_type with
      | Delimiter => (None, Empty)
      | _ => (None, ProcessingChars (mkProcessing true next_char_offset next_char next_char_offset next_char_type))
      end
  | ProcessingChars s =>
      let whole := (start_offset s, current_char_offset s + len_utf8 (current_char s)) in
      match current_char_type s, next_char_type with
      | _, Delimiter => (Some whole, Empty)
      | UpperCase, LowerCase =>
          if is_first_char s then (None, ProcessingChars (mkProcessing false (start_offset s) next_char next_char_offset next_char_type))
          else (Some (start_offset s, current_char_offset s),
                ProcessingChars (mkProcessing false (current_char_offset s) next_char next_char_offset next_char_type))
      | UpperCase, UpperCase | LowerCase, LowerCase | Numeric, Numeric =>
          (None, ProcessingChars (mkProcessing false (start_offset s) next_char next_char_offset (current_char_type s)))
      | _, _ => (Some whole, ProcessingChars (mkProcessing true next_char_offset next_char next_char_offset next_char_type))
      end
  end.

Definition finalize (st : CodeTokenStreamState) : option TokenOffsets * CodeTokenStreamState :=
  match st with
  | Empty => (None, Empty)
  | ProcessingChars s => (Some (start_offset s, current_char_offset s + len_utf8 (current_char s)), Empty)
  end.

Record CodeTokenStream := mkCode { code_text : list Z; code_chars : list (Z * Z); code_token : Token; code_state : CodeTokenStreamState }.

(** [CodeTokenizer::token_stream]; the token is that of the tokenizer. *)
Definition code_token_stream (t : Token) (txt : list Z) : CodeTokenStream := mkCode txt (char_indices 0 txt) (token_reset t) Empty.

(** [while let Some((next_char_offset, next_char)) = self.chars.next() { .. }], then [finalize]. *)
Fixpoint code_loop (chars : list (Z * Z)) (st : CodeTokenStreamState) : option TokenOffsets * list (Z * Z) * CodeTokenStreamState :=
  match chars with
  | [] => let '(o, st') := finalize st in (o, [], st')
  | (off, c) :: rest =>
      let '(o, st') := state_advance st off c in
      match o with
      | None => code_loop rest st'
      | Some offsets => (Some offsets, rest, st')
      end
  end.

Definition update_token (txt : list Z) (offsets : TokenOffsets) (t : Token) : option Token :=
  s ← slice txt offsets.1 offsets.2;
  Some (mkToken offsets.1 offsets.2 (position t) (text t ++ s) (position_length t)).

Definition code_advance (s : CodeTokenStream) : option (bool * CodeTokenStream) :=
  let t := next_token (code_token s) in
  let '(o, chars, st) := code_loop (code_chars s) (code_state s) in
  match o with
  | None => Some (false, mkCode (code_text s) chars t st)
  | Some offsets => t' ← update_token (code_text s) offsets t; Some (true, mkCode (code_text s) chars t' st)
  end.

#[global] Instance code_stream : TokenStream CodeTokenStream := {| advance := code_advance; token := code_token |}.

(** ** The Chinese compatible tokenizer *)

Definition char_is_cjk (c : Z) : bool :=
  ((17664 <=? c) && (c <=? 40959)) || ((13312 <=? c) && (c <=? 19903)) || ((131072 <=? c) && (c <=? 173791)) || ((173824 <=? c) && (c <=? 183983)).

Inductive Grouping := Keep | SplitKeep | SplitIgnore.

Definition char_grouping (c : Z) : Grouping :=
  if is_alphanumeric c then if char_is_cjk c then SplitKeep else Keep else SplitIgnore.

Definition keeps (c : Z) : bool := match char_grouping c with Keep => true | _ => false end.

Record ChineseTokenStream := mkChinese { zh_text : list Z; last_char : option (Z * Z); zh_chars : list (Z * Z); zh_token : Token }.

Definition chinese_token_stream (txt : list Z) : ChineseTokenStream := mkChinese txt None (char_indices 0 txt) token_default.

(** [iter.find(|&(_, c)| char_grouping(c) != Grouping::Keep)] *)
Fixpoint find_other (chars : list (Z * Z)) : option (Z * Z) * list (Z * Z) :=
  match chars with
  | [] => (None, [])
  | (off, c) :: rest => if keeps c then find_other rest else (Some (off, c), rest)
  end.

(** The loop over [iter]: the offsets of the token, the character that was read too far, and what
    is left. *)
Fixpoint zh_loop (stop : Z) (chars : list (Z * Z)) : option TokenOffsets * option (Z * Z) * list (Z * Z) :=
  match chars with
  | [] => (None, None, [])
  | (off, c) :: rest =>
      match char_grouping c with
      | Keep => let '(next, rest) := find_other rest in (Some (off, match next with Some (i, _) => i | None => stop end), next, rest)
      | SplitKeep => (Some (off, off + len_utf8 c), None, rest)
      | SplitIgnore => zh_loop stop rest
      end
  end.

Definition chinese_advance (s : ChineseTokenStream) : option (bool * ChineseTokenStream) :=
  let t := next_token (zh_token s) in
  let iter := match last_char s with Some x => x :: zh_chars s | None => zh_chars s end in
  let '(o, last, chars) := zh_loop (str_len (zh_text s)) iter in
  match o with
  | None => Some (false, mkChinese (zh_text s) last chars t)
  | Some offsets => t' ← update_token (zh_text s) offsets t; Some (true, mkChinese (zh_text s) last chars t')
  end.

#[global] Instance chinese_stream : TokenStream ChineseTokenStream := {| advance := chinese_advance; token := zh_token |}.

End chars.

(** ** The filter by length *)

Section length_filter.
Context {T : Type} `{TokenStream T}.

Record TokenLengthFilterStream := mkLengthFilter { min : option Z; max : option Z; tail : T }.

(** [TokenLengthFilterWrapper::token_stream] *)
Definition length_filter_stream (min max : option Z) (t : T) : TokenLengthFilterStream := mkLengthFilter min max t.

Definition predicate (min max : option Z) (k : Token) : bool :=
  negb (match min with Some m => str_len (text k) <? m | None => false end) &&
  negb (match max with Some m => m <? str_len (text k) | None => false end).

(** More turns than there are tokens. *)
Variable fuel : nat.

Fixpoint length_filter_loop (fuel : nat) (s : TokenLengthFilterStream) : option (bool * TokenLengthFilterStream) :=
  match fuel with
  | O => None
  | S fuel =>
      '(b, t) ← advance (tail s);
      let s := mkLengthFilter (min s) (max s) t in
      if b : bool then if predicate (min s) (max s) (token t) then Some (true, s) else length_filter_loop fuel s
      else Some (false, s)
  end.

#[global] Instance length_filter_token_stream : TokenStream TokenLengthFilterStream :=
  {| advance := length_filter_loop fuel; token s := token (tail s) |}.

End length_filter.

Arguments TokenLengthFilterStream : clear implicits.

(** ** The Unicode words tokenizer *)

Section words.
(** [split_word_bounds] with offsets, [unicode_words().next().is_some()] and the emoji table. *)
Variables (split_word_bounds : list Z -> list (Z * list Z)) (is_word is_emoji : list Z -> bool).

Record UnicodeWordsTokenizer := mkWords { remove_emojis : bool; words_token : Token }.

Record UnicodeWordsTokenStream := mkWordsStream { ws_remove_emojis : bool; ws_iter : list (Z * list Z); ws_token : Token }.

(** The stream writes into the token of the tokenizer, which is as the stream before left it. *)
Definition words_token_stream (w : UnicodeWordsTokenizer) (txt : list Z) : UnicodeWordsTokenStream :=
  mkWordsStream (remove_emojis w) (split_word_bounds txt) (words_token w).

(** The tokenizer when the stream is dropped. *)
Definition words_after (s : UnicodeWordsTokenStream) : UnicodeWordsTokenizer := mkWords (ws_remove_emojis s) (ws_token s).

Fixpoint words_loop (remove_emojis : bool) (t : Token) (iter : list (Z * list Z)) : bool * list (Z * list Z) * Token :=
  match iter with
  | [] => (false, [], t)
  | (off, next) :: iter =>
      if is_word next || (negb remove_emojis && is_emoji next) then
        (true, iter, mkToken off (off + str_len next) (u64 (position t + 1)) next (position_length t))
      else words_loop remove_emojis t iter
  end.

Definition words_advance (s : UnicodeWordsTokenStream) : option (bool * UnicodeWordsTokenStream) :=
  let '(b, iter, t) := words_loop (ws_remove_emojis s) (ws_token s) (ws_iter s) in
  Some (b, mkWordsStream (ws_remove_emojis s) iter t).

#[global] Instance words_stream : TokenStream UnicodeWordsTokenStream := {| advance := words_advance; token := ws_token |}.

End words.

End Tokenizers.
