(* ===== verification/TokenizersProps.v ===== *)
(** * What the tokenizers produce

    The code tokenizer and the Chinese compatible tokenizer produce the words of a text: every
    token is the part of the text at its offsets, and their positions are consecutive. *)

From stdpp Require Import prelude.
From Stdlib Require Import ZArith Lia.
From S2P Require Import Prelude Tokenizers.
From stdpp Require Import list.
Import Tokenizers.

Local Open Scope Z_scope.

#[global] Instance CharType_eq_dec : EqDecision CharType.
Proof. solve_decision. Defined.

(** ** Texts *)

Lemma len_utf8_pos c : 1 <= len_utf8 c.
Proof. unfold len_utf8. repeat case_match; lia. Qed.

Lemma str_len_app a b : str_len (a ++ b) = str_len a + str_len b.
Proof. unfold str_len. induction a as [|c a IH]; [done|]. cbn [app foldr]. rewrite IH. lia. Qed.

Lemma str_len_one c : str_len [c] = len_utf8 c.
Proof. unfold str_len. cbn. lia. Qed.

Lemma str_len_nonneg a : 0 <= str_len a.
Proof. unfold str_len. induction a as [|c a IH]; cbn [foldr]; [lia|]. pose proof (len_utf8_pos c). lia. Qed.

Lemma drop_bytes_app a b : drop_bytes (str_len a) (a ++ b) = Some b.
Proof.
  induction a as [|c a IH]; [by destruct b|]. change (str_len (c :: a)) with (len_utf8 c + str_len a). pose proof (len_utf8_pos c). pose proof (str_len_nonneg a).
  cbn [app drop_bytes]. rewrite (proj2 (Z.eqb_neq _ _)), (proj2 (Z.ltb_ge _ _)) by lia. replace (len_utf8 c + str_len a - len_utf8 c) with (str_len a) by lia. done.
Qed.

Lemma take_bytes_app a b : take_bytes (str_len a) (a ++ b) = Some a.
Proof.
  induction a as [|c a IH]; [by destruct b|]. change (str_len (c :: a)) with (len_utf8 c + str_len a). pose proof (len_utf8_pos c). pose proof (str_len_nonneg a).
  cbn [app take_bytes]. rewrite (proj2 (Z.eqb_neq _ _)), (proj2 (Z.ltb_ge _ _)) by lia. replace (len_utf8 c + str_len a - len_utf8 c) with (str_len a) by lia. by rewrite IH.
Qed.

Lemma slice_app a b c : slice (a ++ b ++ c) (str_len a) (str_len a + str_len b) = Some b.
Proof. unfold slice. rewrite drop_bytes_app. cbn [mbind option_bind]. replace (_ - _) with (str_len b) by lia. apply take_bytes_app. Qed.

(** ** Words as tokens *)

(** A word at an offset is the part of the text there. *)
Definition word_of (txt : list Z) (w : Z * list Z) : Prop := exists a b, txt = a ++ w.2 ++ b /\ w.1 = str_len a.

Definition word_token (i : Z) (w : Z * list Z) : Token := mkToken w.1 (w.1 + str_len w.2) i w.2 1.

(** The tokens of words, with positions from [i]. *)
Fixpoint word_tokens (i : Z) (ws : list (Z * list Z)) : list Token :=
  match ws with [] => [] | w :: ws => word_token i w :: word_tokens (u64 (i + 1)) ws end.

Lemma update_word txt w t : word_of txt w -> text t = [] -> position_length t = 1 ->
  update_token txt (w.1, w.1 + str_len w.2) t = Some (word_token (position t) w).
Proof.
  intros (a & b & -> & Hs) Ht Hp. unfold update_token. cbn [fst snd]. rewrite Hs, slice_app. cbn [mbind option_bind]. unfold word_token. by rewrite Ht, Hp, Hs.
Qed.

Section chars.
Variables (is_alphabetic is_uppercase is_numeric : Z -> bool).

Abbreviation char_type := (get_char_type is_alphabetic is_uppercase is_numeric).
Abbreviation grouping := (char_grouping is_alphabetic is_numeric).

(** ** The words of code *)

(** A word ends between two characters of these types, with the type of the one after them. *)
Definition boundary (a b : CharType) (next : option CharType) : bool :=
  match a, b with
  | UpperCase, LowerCase | LowerCase, LowerCase | Numeric, Numeric => false
  | UpperCase, UpperCase => match next with Some LowerCase => true | _ => false end
  | _, _ => true
  end.

Definition one_word (start : Z) (cur : list Z) : list (Z * list Z) := match cur with [] => [] | _ => [(start, cur)] end.

(** The words of what is left of a text, [cur] being the word that has begun at [start]. *)
Fixpoint code_words (start : Z) (cur l : list Z) : list (Z * list Z) :=
  match l with
  | [] => one_word start cur
  | c :: l =>
      let off := start + str_len cur in
      match char_type c, last cur with
      | Delimiter, _ => one_word start cur ++ code_words (off + len_utf8 c) [] l
      | t, Some b => if boundary (char_type b) t (char_type <$> head l) then (start, cur) :: code_words off [c] l else code_words start (cur ++ [c]) l
      | _, None => code_words start [c] l
      end
  end.

(** No character is lost but the delimiters. *)
Lemma code_words_complete start cur l : concat (snd <$> code_words start cur l) = cur ++ filter (fun c => char_type c <> Delimiter) l.
Proof.
  revert start cur. induction l as [|c l IH]; intros start cur; cbn [code_words].
  - rewrite filter_nil, app_nil_r. destruct cur; [done|]. cbn. by rewrite app_nil_r.
  - rewrite filter_cons. destruct (char_type c) eqn:Ec; [..|rewrite decide_False by (intros H; by apply H)]; try (rewrite decide_True by done).
    4:{ rewrite fmap_app, concat_app, IH. cbn [app]. f_equal. destruct cur; [done|]. cbn. by rewrite app_nil_r. }
    all: destruct (last cur) as [b|] eqn:El; [case_match|apply last_None in El as ->]; cbn [fmap list_fmap concat snd]; rewrite IH, <- ?app_assoc; done.
Qed.

(** The words when the last character of the current one is not decided yet. *)
Definition undecided (start : Z) (pre : list Z) (c : Z) (l : list Z) : list (Z * list Z) :=
  match last pre with
  | Some b => if boundary (char_type b) (char_type c) (char_type <$> head l) then (start, pre) :: code_words (start + str_len pre) [c] l else code_words start (pre ++ [c]) l
  | None => code_words start [c] l
  end.

(** A state of the tokenizer that has read [consumed], with the words to come. *)
Inductive code_at (consumed : list Z) : CodeTokenStreamState -> list Z -> list (Z * list Z) -> Prop :=
| code_at_empty l : code_at consumed Empty l (code_words (str_len consumed) [] l)
| code_at_word done pre c l : consumed = done ++ pre ++ [c] -> char_type c <> Delimiter ->
    (forall b, last pre = Some b -> boundary (char_type b) (char_type c) None = false) ->
    code_at consumed (ProcessingChars (mkProcessing (bool_decide (pre = [])) (str_len done) c (str_len (done ++ pre)) (char_type c))) l (undecided (str_len done) pre c l).

Lemma snoc_ne_nil {B} (l : list B) x : bool_decide (l ++ [x] = []) = false.
Proof. apply bool_decide_eq_false. by destruct l. Qed.

(** A word of one character begins. *)
Lemma code_at_first consumed c l : char_type c <> Delimiter ->
  code_at (consumed ++ [c]) (ProcessingChars (mkProcessing true (str_len consumed) c (str_len consumed) (char_type c))) l (code_words (str_len consumed) [c] l).
Proof. intros Hc. pose proof (code_at_word (consumed ++ [c]) consumed [] c l eq_refl Hc ltac:(done)) as Hat. by rewrite app_nil_r in Hat. Qed.

(** A word goes on. *)
Lemma code_at_next done pre b c l : char_type c <> Delimiter -> boundary (char_type b) (char_type c) None = false ->
  code_at ((done ++ pre ++ [b]) ++ [c]) (ProcessingChars (mkProcessing false (str_len done) c (str_len (done ++ pre ++ [b])) (char_type c))) l (undecided (str_len done) (pre ++ [b]) c l).
Proof.
  intros Hc Hb. pose proof (code_at_word ((done ++ pre ++ [b]) ++ [c]) done (pre ++ [b]) c l) as Hat. rewrite snoc_ne_nil in Hat. apply Hat; [by rewrite <- !app_assoc|done|].
  intros x. rewrite last_snoc. by intros [= ->].
Qed.

(** The last character is decided by the next, which begins no capitalized word. *)
Lemma undecided_next start pre b c l : (forall x, last pre = Some x -> boundary (char_type x) (char_type b) None = false) ->
  (char_type b = UpperCase -> char_type c = LowerCase -> pre = []) -> undecided start pre b (c :: l) = code_words start (pre ++ [b]) (c :: l).
Proof.
  intros Hpre Hcap. unfold undecided. destruct (last pre) as [x|] eqn:El; [|by apply last_None in El as ->]. specialize (Hpre x eq_refl). cbn [head fmap option_fmap option_map].
  assert (boundary (char_type x) (char_type b) (Some (char_type c)) = false) as ->; [|done].
  destruct (char_type x), (char_type b); try done. cbn [boundary]. destruct (char_type c) eqn:Ec; try done. rewrite Hcap in El by done. done.
Qed.

Lemma whole_word done pre b : word_of (done ++ pre ++ [b]) (str_len done, pre ++ [b]).
Proof. exists done, []. by rewrite app_nil_r. Qed.

Lemma whole_len done pre b : str_len (done ++ pre) + len_utf8 b = str_len done + str_len (pre ++ [b]).
Proof. rewrite !str_len_app, str_len_one. lia. Qed.

(** Reading one character. *)
Lemma state_advance_spec consumed st c l ws : code_at consumed st (c :: l) ws ->
  exists o st' ws', state_advance is_alphabetic is_uppercase is_numeric st (str_len consumed) c = (o, st') /\ code_at (consumed ++ [c]) st' l ws' /\
    match o with
    | Some (s, e) => exists w, ws = (s, w) :: ws' /\ e = s + str_len w /\ word_of consumed (s, w)
    | None => ws = ws'
    end.
Proof.
  intros Hat. inversion Hat as [l'|done pre b l' Hc Hb Hpre]; subst; clear Hat.
  - cbn [state_advance code_words last one_word app]. change (str_len []) with 0. rewrite Z.add_0_r. destruct (char_type c) eqn:Ec.
    4:{ eexists _, _, _. split; [done|]. split; [constructor|]. by rewrite str_len_app, str_len_one. }
    all: eexists _, _, _; split; [done|]; split; [|done]; rewrite <- Ec; apply code_at_first; by rewrite Ec.
  - cbn [state_advance current_char_type start_offset current_char_offset current_char is_first_char]. rewrite whole_len.
    assert (char_type c = Delimiter \/ (char_type b = UpperCase /\ char_type c = LowerCase) \/ char_type b = char_type c \/
      (boundary (char_type b) (char_type c) None = true /\ char_type b <> char_type c /\ char_type c <> Delimiter)) as [Ec|[[Eb Ec]|[Ebc|(Hbd & Hne & Hc)]]].
    { destruct (char_type b), (char_type c); auto 10. }
    + (* a delimiter *)
      rewrite Ec. rewrite undecided_next by (done || by rewrite Ec). cbn [code_words]. rewrite Ec.
      eexists _, _, (code_words _ [] l). split; [by destruct (char_type b)|]. split; [constructor|]. exists (pre ++ [b]). split; [|by split; [|apply whole_word]].
      replace (str_len done + str_len (pre ++ [b]) + len_utf8 c) with (str_len ((done ++ pre ++ [b]) ++ [c])) by (rewrite !str_len_app, !str_len_one; lia).
      unfold one_word. destruct (pre ++ [b]) eqn:Ep; [by destruct pre|done].
    + (* a capital before a small letter *)
      rewrite Eb, Ec. case_bool_decide as Hp.
      * subst pre. rewrite undecided_next by done. cbn [app code_words last]. rewrite Ec, Eb. cbn [boundary]. eexists _, _, _. split; [done|]. split.
        { pose proof (code_at_next done [] b c l ltac:(by rewrite Ec) ltac:(by rewrite Eb, Ec)) as Hat. rewrite Ec in Hat. cbn [app] in Hat. exact Hat. }
        unfold undecided. cbn [app last]. by rewrite Ec, Eb.
      * destruct (last pre) as [x|] eqn:El; [|by apply last_None in El]. specialize (Hpre x eq_refl). rewrite Eb in Hpre.
        assert (char_type x = UpperCase) as Ex by (destruct (char_type x); done). unfold undecided at 1. rewrite El, Ex, Eb. cbn [head fmap option_fmap option_map]. rewrite Ec. cbn [boundary].
        eexists _, _, _. split; [done|]. split.
        { pose proof (code_at_next (done ++ pre) [] b c l ltac:(by rewrite Ec) ltac:(by rewrite Eb, Ec)) as Hat. rewrite Ec in Hat. cbn [app] in Hat. rewrite <- (app_assoc done pre [b]) in Hat. exact Hat. }
        exists pre. split; [|split; [apply str_len_app|by exists done, [b]]]. unfold undecided. cbn [app last code_words]. rewrite Ec, Eb. cbn [boundary]. by rewrite str_len_app.
    + (* the same type *)
      rewrite <- Ebc. rewrite undecided_next; [|done|by rewrite <- Ebc; intros ->]. eexists _, _, (undecided (str_len done) (pre ++ [b]) c l).
      split; [|split; [apply code_at_next; [by rewrite <- Ebc|rewrite <- Ebc; by destruct (char_type b)]|]].
      * rewrite <- Ebc. by destruct (char_type b).
      * cbn [code_words]. unfold undecided. rewrite last_snoc, <- Ebc. by destruct (char_type b).
    + (* another type *)
      rewrite undecided_next; [|done|by intros Hu Hl; rewrite Hu, Hl in Hbd]. eexists _, _, _. split; [|split; [apply code_at_first, Hc|]].
      * destruct (char_type b), (char_type c); done.
      * exists (pre ++ [b]). split; [|by split; [|apply whole_word]]. cbn [code_words]. rewrite last_snoc.
        assert (forall n, boundary (char_type b) (char_type c) n = true) as Hn by (intros n; destruct (char_type b), (char_type c); done).
        rewrite <- str_len_app. destruct (char_type c); [by rewrite Hn..|done].
Qed.

(** The next token. *)
Lemma code_loop_spec txt consumed st l ws : code_at consumed st l ws -> txt = consumed ++ l ->
  exists o consumed' l' st', code_loop is_alphabetic is_uppercase is_numeric (char_indices (str_len consumed) l) st = (o, char_indices (str_len consumed') l', st') /\ txt = consumed' ++ l' /\
    match ws with
    | [] => o = None
    | w :: ws' => o = Some (w.1, w.1 + str_len w.2) /\ word_of txt w /\ code_at consumed' st' l' ws'
    end.
Proof.
  revert consumed st ws. induction l as [|c l IH]; intros consumed st ws Hat Htxt; cbn [char_indices code_loop].
  - inversion Hat as [l'|done pre b l' Hc Hb Hpre]; subst; cbn [finalize]; [by exists None, consumed, [], Empty|].
    cbn [start_offset current_char_offset current_char]. rewrite whole_len. assert (undecided (str_len done) pre b [] = [(str_len done, pre ++ [b])]) as ->.
    { unfold undecided. destruct (last pre) as [x|] eqn:El; [|apply last_None in El as ->; done]. cbn [head fmap option_fmap option_map]. rewrite (Hpre x eq_refl). cbn [code_words]. unfold one_word. by destruct pre. }
    eexists _, (done ++ pre ++ [b]), [], Empty. split; [done|]. split; [done|]. split; [done|]. split; [rewrite app_nil_r; apply whole_word|constructor].
  - destruct (state_advance_spec consumed st c l ws Hat) as (o & st' & ws' & Hs & Hat' & Ho). rewrite Hs. replace (str_len consumed + len_utf8 c) with (str_len (consumed ++ [c])) by (rewrite str_len_app, str_len_one; lia).
    assert (txt = (consumed ++ [c]) ++ l) as Htxt' by (by rewrite <- app_assoc). destruct o as [[s e]|].
    + destruct Ho as (w & -> & -> & (a & b & Hw & Ha)). eexists _, (consumed ++ [c]), l, st'. split; [done|]. split; [done|]. split; [done|]. split; [|done].
      exists a, (b ++ c :: l). cbn [fst snd] in *. split; [|done]. rewrite Htxt, Hw. by rewrite <- !app_assoc.
    + subst ws'. by apply IH.
Qed.

Lemma code_produces txt t consumed st l ws : code_at consumed st l ws -> txt = consumed ++ l -> position_length t = 1 ->
  produces (H := code_stream is_alphabetic is_uppercase is_numeric) (mkCode txt (char_indices (str_len consumed) l) t st) (word_tokens (u64 (position t + 1)) ws).
Proof.
  revert t consumed st l. induction ws as [|w ws IH]; intros t consumed st l Hat Htxt Hpl; destruct (code_loop_spec txt consumed st l _ Hat Htxt) as (o & consumed' & l' & st' & Hl & Htxt' & Ho).
  - subst o. eapply produces_end. cbn [advance code_stream]. unfold code_advance. cbn [code_chars code_state]. rewrite Hl. done.
  - destruct Ho as (-> & Hw & Hat'). cbn [word_tokens]. change (word_token (u64 (position t + 1)) w) with (token (TokenStream := code_stream is_alphabetic is_uppercase is_numeric)
      (mkCode txt (char_indices (str_len consumed') l') (word_token (u64 (position t + 1)) w) st')).
    eapply produces_next; [|by apply (IH (word_token (u64 (position t + 1)) w))].
    cbn [advance code_stream]. unfold code_advance. cbn [code_chars code_state code_text code_token]. rewrite Hl. by rewrite update_word.
Qed.

(** The words of a text are its tokens. *)
Lemma code_tokens t txt : position_length t = 1 ->
  produces (H := code_stream is_alphabetic is_uppercase is_numeric) (code_token_stream t txt) (word_tokens 0 (code_words 0 [] txt)).
Proof. intros Hpl. by apply (code_produces txt (token_reset t) [] Empty txt (code_words 0 [] txt) (code_at_empty [] txt)). Qed.

(** ** Chinese words *)

(** Characters of Chinese are words of their own, other letters and digits are grouped. *)
Fixpoint chinese_words (start : Z) (cur l : list Z) : list (Z * list Z) :=
  match l with
  | [] => one_word start cur
  | c :: l =>
      let off := start + str_len cur in
      match grouping c with
      | Keep => chinese_words start (cur ++ [c]) l
      | SplitKeep => one_word start cur ++ (off, [c]) :: chinese_words (off + len_utf8 c) [] l
      | SplitIgnore => one_word start cur ++ chinese_words (off + len_utf8 c) [] l
      end
  end.

Lemma chinese_words_complete start cur l : concat (snd <$> chinese_words start cur l) = cur ++ filter (fun c => is_alphanumeric is_alphabetic is_numeric c = true) l.
Proof.
  assert (forall s w, concat (snd <$> one_word s w) = w) as Hone by (intros s w; destruct w; [done|cbn; by rewrite app_nil_r]).
  revert start cur. induction l as [|c l IH]; intros start cur; cbn [chinese_words]; [by rewrite filter_nil, app_nil_r|]. rewrite filter_cons. unfold char_grouping.
  destruct (is_alphanumeric is_alphabetic is_numeric c) eqn:Ea; [rewrite decide_True by done; destruct (char_is_cjk c)|rewrite decide_False by done].
  - rewrite fmap_app, concat_app, Hone. cbn [fmap list_fmap concat snd app]. by rewrite IH.
  - by rewrite IH, <- app_assoc.
  - by rewrite fmap_app, concat_app, Hone, IH.
Qed.

(** What was read too far comes first. *)
Definition ahead (next : option (Z * Z)) (rest : list (Z * Z)) : list (Z * Z) := match next with Some x => x :: rest | None => rest end.

Lemma find_other_spec off l : exists run l' next rest, find_other is_alphabetic is_numeric (char_indices off l) = (next, rest) /\ l = run ++ l' /\
  ahead next rest = char_indices (off + str_len run) l' /\ (forall d, match next with Some (i, _) => i | None => d end = if next then off + str_len run else d) /\ (next = None -> l' = []) /\
  forall start cur, cur <> [] -> chinese_words start cur l = (start, cur ++ run) :: chinese_words (start + str_len (cur ++ run)) [] l'.
Proof.
  revert off. induction l as [|c l IH]; intros off; cbn [char_indices find_other].
  - exists [], [], None, []. split; [done|]. split; [done|]. split; [done|]. split; [done|]. split; [done|]. intros start cur Hcur. cbn [chinese_words one_word]. rewrite app_nil_r. by destruct cur.
  - unfold keeps. destruct (grouping c) eqn:Eg.
    + destruct (IH (off + len_utf8 c)) as (run & l' & next & rest & Hf & -> & Ha & Hi & Hn & Hw). exists (c :: run), l', next, rest.
      change (str_len (c :: run)) with (len_utf8 c + str_len run). rewrite Z.add_assoc. split; [done|]. split; [done|]. split; [done|]. split; [done|]. split; [done|].
      intros start cur Hcur. cbn [chinese_words]. rewrite Eg, Hw by (by destruct cur). by rewrite <- !app_assoc.
    + exists [], (c :: l), (Some (off, c)), (char_indices (off + len_utf8 c) l). rewrite Z.add_0_r. split; [done|]. split; [done|]. split; [done|]. split; [done|]. split; [done|].
      intros start cur Hcur. rewrite app_nil_r. cbn [chinese_words]. rewrite Eg. change (str_len []) with 0. rewrite Z.add_0_r. by destruct cur.
    + exists [], (c :: l), (Some (off, c)), (char_indices (off + len_utf8 c) l). rewrite Z.add_0_r. split; [done|]. split; [done|]. split; [done|]. split; [done|]. split; [done|].
      intros start cur Hcur. rewrite app_nil_r. cbn [chinese_words]. rewrite Eg. change (str_len []) with 0. rewrite Z.add_0_r. by destruct cur.
Qed.

Lemma zh_loop_spec txt consumed l : txt = consumed ++ l ->
  exists o next consumed' l' rest, zh_loop is_alphabetic is_numeric (str_len txt) (char_indices (str_len consumed) l) = (o, next, rest) /\
    txt = consumed' ++ l' /\ ahead next rest = char_indices (str_len consumed') l' /\
    match chinese_words (str_len consumed) [] l with
    | [] => o = None
    | w :: ws' => o = Some (w.1, w.1 + str_len w.2) /\ word_of txt w /\ ws' = chinese_words (str_len consumed') [] l'
    end.
Proof.
  revert consumed. induction l as [|c l IH]; intros consumed Htxt; cbn [char_indices zh_loop chinese_words].
  - exists None, None, consumed, [], []. by split_and!.
  - assert (txt = (consumed ++ [c]) ++ l) as Htxt' by (by rewrite <- app_assoc). assert (str_len consumed + len_utf8 c = str_len (consumed ++ [c])) as Hc by (by rewrite str_len_app, str_len_one).
    change (str_len []) with 0. rewrite Z.add_0_r, Hc. destruct (grouping c) eqn:Eg; cbn [app one_word].
    + destruct (find_other_spec (str_len (consumed ++ [c])) l) as (run & l' & next & rest & Hf & Hl & Ha & Hi & Hn & Hw). rewrite Hf, (Hw _ [c]) by done. cbn [fst snd].
      assert (str_len (consumed ++ [c]) + str_len run = str_len (consumed ++ [c] ++ run)) as Hs by (by rewrite <- str_len_app, <- app_assoc).
      assert (txt = (consumed ++ [c] ++ run) ++ l') as Ht by (rewrite Htxt', Hl; by rewrite <- !app_assoc).
      exists (Some (str_len consumed, str_len consumed + str_len ([c] ++ run))), next, (consumed ++ [c] ++ run), l', rest. split.
      { do 3 f_equal. rewrite (Hi (str_len txt)). destruct next; [rewrite Hs|rewrite Ht, Hn, app_nil_r by done]; by rewrite str_len_app. }
      split; [done|]. split; [by rewrite Ha, Hs|]. split; [done|]. split; [|by rewrite (str_len_app consumed)]. exists consumed, l'. split; [|done]. cbn [snd]. rewrite Ht. by rewrite <- !app_assoc.
    + eexists _, None, (consumed ++ [c]), l, _. split; [done|]. split; [done|]. split; [done|]. cbn [fst snd]. split; [by rewrite str_len_one, Hc|]. split; [|done]. exists consumed, l. split; [|done]. done.
    + by apply IH.
Qed.

Lemma chinese_produces txt next rest t consumed l : txt = consumed ++ l -> ahead next rest = char_indices (str_len consumed) l -> position_length t = 1 ->
  produces (H := chinese_stream is_alphabetic is_numeric) (mkChinese txt next rest t) (word_tokens (u64 (position t + 1)) (chinese_words (str_len consumed) [] l)).
Proof.
  remember (chinese_words (str_len consumed) [] l) as ws eqn:Hws. revert next rest t consumed l Hws.
  induction ws as [|w ws IH]; intros next rest t consumed l Hws Htxt Ha Hpl; destruct (zh_loop_spec txt consumed l Htxt) as (o & next' & consumed' & l' & rest' & Hl & Htxt' & Ha' & Ho); rewrite <- Hws in Ho.
  - subst o. eapply produces_end. cbn [advance chinese_stream]. unfold chinese_advance. cbn [zh_text zh_chars last_char]. fold (ahead next rest). rewrite Ha, Hl. done.
  - destruct Ho as (-> & Hw & Hws'). cbn [word_tokens]. change (word_token (u64 (position t + 1)) w) with (token (TokenStream := chinese_stream is_alphabetic is_numeric)
      (mkChinese txt next' rest' (word_token (u64 (position t + 1)) w))).
    eapply produces_next; [|by apply (IH next' rest' (word_token (u64 (position t + 1)) w) consumed' l')].
    cbn [advance chinese_stream]. unfold chinese_advance. cbn [zh_text zh_chars zh_token last_char]. fold (ahead next rest). rewrite Ha, Hl. by rewrite update_word.
Qed.

Lemma chinese_tokens txt : produces (H := chinese_stream is_alphabetic is_numeric) (chinese_token_stream txt) (word_tokens 0 (chinese_words 0 [] txt)).
Proof. by apply (chinese_produces txt None (char_indices 0 txt) token_default [] txt). Qed.

End chars.

(** ** The filter by length *)

Lemma length_filter_spec {T} `{TokenStream T} fuel lo hi (t : T) ks : produces t ks -> (length ks < fuel)%nat ->
  produces (H := length_filter_token_stream fuel) (length_filter_stream lo hi t) (filter (fun k => predicate lo hi k = true) ks).
Proof.
  intros Hp Hf. unfold length_filter_stream.
  assert (forall n t ks, produces t ks -> (length ks < n)%nat -> exists b s ks', length_filter_loop n (mkLengthFilter lo hi t) = Some (b, mkLengthFilter lo hi s) /\
    (if b : bool then exists ks0, produces s ks' /\ (length ks' < length ks)%nat /\ filter (fun k => predicate lo hi k = true) ks = token s :: ks0 /\ ks0 = filter (fun k => predicate lo hi k = true) ks'
     else filter (fun k => predicate lo hi k = true) ks = [])) as Hloop.
  { clear t ks Hp Hf. induction n as [|n IH]; intros t ks Hp Hn; [lia|]. cbn [length_filter_loop tail min max]. destruct Hp as [t t' Ha|t t' ks Ha Hp]; rewrite Ha; cbn [mbind option_bind].
    - by exists false, t', [].
    - rewrite filter_cons. destruct (predicate lo hi (token t')) eqn:Ep.
      + exists true, t', ks. split; [done|]. eexists. split; [done|]. split; [cbn; lia|]. by rewrite decide_True.
      + rewrite decide_False by done. cbn [length] in Hn. destruct (IH t' ks Hp) as (b & s & ks' & Hl & Hb); [lia|]. exists b, s, ks'. split; [done|]. destruct b; [|done].
        destruct Hb as (ks0 & H1 & H2 & H3). exists ks0. split; [done|]. split; [cbn; lia|done]. }
  remember (length ks) as n eqn:Hn. assert (length ks <= n)%nat as Hle by lia. clear Hn. revert t ks Hp Hle. induction n as [|n IH]; intros t ks Hp Hle;
    (destruct (Hloop fuel t ks Hp) as (b & s & ks' & Hl & Hb); [lia|]); destruct b.
  - destruct Hb as (ks0 & _ & Hlt & _). lia.
  - rewrite Hb. by eapply produces_end.
  - destruct Hb as (ks0 & Hp' & Hlt & -> & ->). change (token s) with (token (TokenStream := length_filter_token_stream fuel) (mkLengthFilter lo hi s)). eapply produces_next; [exact Hl|]. apply IH; [lia|done|lia].
  - rewrite Hb. by eapply produces_end.
Qed.

(** ** Analyzing a text *)

Section analyze.
Variables (is_alphabetic is_uppercase is_numeric : Z -> bool).

Abbreviation code_words := (code_words is_alphabetic is_uppercase is_numeric).
Abbreviation chinese_words := (chinese_words is_alphabetic is_numeric).

(** The words are parts of the text, none of them empty. *)
Definition parts (txt : list Z) (ws : list (Z * list Z)) : Prop := Forall (fun w => word_of txt w /\ w.2 <> []) ws.

Lemma one_word_part txt done cur l : txt = done ++ cur ++ l -> parts txt (one_word (str_len done) cur).
Proof. intros ->. unfold one_word. destruct cur; constructor; [|constructor]. split; [|done]. by exists done, l. Qed.

Lemma code_words_parts txt done cur l : txt = done ++ cur ++ l -> parts txt (code_words (str_len done) cur l).
Proof.
  revert done cur. induction l as [|c l IH]; intros done cur Htxt; cbn [TokenizersProps.code_words]; [by apply (one_word_part txt done cur [])|].
  assert (parts txt (one_word (str_len done) cur)) as Hone by (by apply (one_word_part txt done cur (c :: l))).
  assert (parts txt (code_words (str_len done + str_len cur) [c] l)) as Hnew by (rewrite <- str_len_app; apply IH; rewrite Htxt; by rewrite <- app_assoc).
  assert (parts txt (code_words (str_len done + str_len cur + len_utf8 c) [] l)) as Hdel.
  { rewrite <- str_len_one, <- !str_len_app. apply IH. rewrite Htxt. by rewrite <- !app_assoc. }
  assert (parts txt (code_words (str_len done) (cur ++ [c]) l)) as Hgo by (apply IH; rewrite Htxt; by rewrite <- app_assoc).
  assert (forall b, last cur = Some b -> parts txt ((str_len done, cur) :: code_words (str_len done + str_len cur) [c] l)) as Hcut by (intros b Hb; by destruct cur; [|apply (Forall_app_2 _ _ _ Hone Hnew)]).
  destruct (get_char_type is_alphabetic is_uppercase is_numeric c); [..|by apply Forall_app_2]; (destruct (last cur) as [b|] eqn:El; [case_match; [by eapply Hcut|done]|apply last_None in El as ->; exact Hgo]).
Qed.

Lemma chinese_words_parts txt done cur l : txt = done ++ cur ++ l -> parts txt (chinese_words (str_len done) cur l).
Proof.
  revert done cur. induction l as [|c l IH]; intros done cur Htxt; cbn [TokenizersProps.chinese_words]; [by apply (one_word_part txt done cur [])|].
  assert (parts txt (one_word (str_len done) cur)) as Hone by (by apply (one_word_part txt done cur (c :: l))).
  assert (parts txt (chinese_words (str_len done + str_len cur + len_utf8 c) [] l)) as Hdel.
  { rewrite <- str_len_one, <- !str_len_app. apply IH. rewrite Htxt. by rewrite <- !app_assoc. }
  assert (parts txt (chinese_words (str_len done) (cur ++ [c]) l)) as Hgo by (apply IH; rewrite Htxt; by rewrite <- app_assoc).
  assert (parts txt [(str_len done + str_len cur, [c])]) as Hc by (rewrite <- str_len_app; apply (one_word_part txt (done ++ cur) [c] l); rewrite Htxt; by rewrite <- app_assoc).
  destruct (char_grouping is_alphabetic is_numeric c); [exact Hgo| |by apply Forall_app_2]. apply Forall_app_2; [done|]. by apply (Forall_app_2 _ _ _ Hc Hdel).
Qed.

Lemma parts_short txt ws l : parts txt ws -> concat (snd <$> ws) = l -> (length ws <= length l)%nat.
Proof.
  intros Hp <-. induction Hp as [|w ws [_ Hw] _ IH]; [done|]. cbn [fmap list_fmap concat length]. rewrite length_app. destruct (w.2); [done|]. cbn [length]. lia.
Qed.

Lemma length_word_tokens i ws : length (word_tokens i ws) = length ws.
Proof. revert i. induction ws as [|w ws IH]; intros i; [done|]. cbn. by rewrite IH. Qed.


End analyze.


(** ** Unicode words *)

Section words.
Variables (split_word_bounds : list Z -> list (Z * list Z)) (is_word is_emoji : list Z -> bool).

Definition kept (remove_emojis : bool) (w : Z * list Z) : bool := is_word w.2 || (negb remove_emojis && is_emoji w.2).

Abbreviation stream := (words_stream is_word is_emoji).

(** A stream produces these tokens and is then at its end as given. *)
Inductive runs : UnicodeWordsTokenStream -> list Token -> UnicodeWordsTokenStream -> Prop :=
| runs_end t t' : advance (TokenStream := stream) t = Some (false, t') -> runs t [] t'
| runs_next t t' ks t'' : advance (TokenStream := stream) t = Some (true, t') -> runs t' ks t'' -> runs t (token (TokenStream := stream) t' :: ks) t''.

(** The position of the token after [n] words. *)
Lemma u64_succ p n : u64 (u64 (p + 1) + n) = u64 (p + (n + 1)).
Proof. unfold wrap. rewrite Zplus_mod_idemp_l. f_equal. lia. Qed.

Lemma words_run e iter t : position_length t = 1 -> exists s', runs (mkWordsStream e iter t) (word_tokens (u64 (position t + 1)) (filter (fun w => kept e w = true) iter)) s' /\
  ws_remove_emojis s' = e /\ position_length (ws_token s') = 1 /\
  u64 (position (ws_token s') + 1) = u64 (position t + 1 + Z.of_nat (length (filter (fun w => kept e w = true) iter))).
Proof.
  revert t. induction iter as [|[off w] iter IH]; intros t Hpl.
  - eexists. split; [by apply runs_end|]. split; [done|]. split; [done|]. cbn. by rewrite Z.add_0_r.
  - rewrite filter_cons. assert (kept e (off, w) = is_word w || (negb e && is_emoji w)) as Hk by done. destruct (is_word w || (negb e && is_emoji w)) eqn:Ek.
    + rewrite !decide_True by done. set (t' := mkToken off (off + str_len w) (u64 (position t + 1)) w (position_length t)). destruct (IH t' Hpl) as (s' & Hr & He & Hp & Hu). exists s'.
      split; [|split; [done|split; [done|]]].
      * cbn [word_tokens]. assert (word_token (u64 (position t + 1)) (off, w) = t') as -> by (unfold word_token, t'; cbn; by rewrite Hpl).
        change t' with (token (TokenStream := stream) (mkWordsStream e iter t')) at 1. apply (runs_next _ (mkWordsStream e iter t')); [|exact Hr].
        cbn [advance words_stream]. unfold words_advance. cbn [ws_iter ws_remove_emojis ws_token words_loop]. by rewrite Ek.
      * rewrite Hu. cbn [length position t']. rewrite Nat2Z.inj_succ. unfold t'. cbn [position]. rewrite <- Z.add_assoc, u64_succ. f_equal. lia.
    + rewrite !decide_False by (by rewrite Hk). destruct (IH t Hpl) as (s' & Hr & Hs). exists s'. split; [|exact Hs].
      assert (advance (TokenStream := stream) (mkWordsStream e ((off, w) :: iter) t) = advance (TokenStream := stream) (mkWordsStream e iter t)) as Ha.
      { cbn [advance words_stream]. unfold words_advance. cbn [ws_iter ws_remove_emojis ws_token words_loop]. by rewrite Ek. }
      inversion Hr as [t1 t2 H1|t1 t2 ks t3 H1 H2]; subst; [apply runs_end|eapply runs_next; [|done]]; by rewrite Ha.
Qed.

(** The token is not reset when a new text begins: the positions of its words go on after those of
    the text before. *)
Theorem words_positions_continue e txt1 txt2 : let ws1 := filter (fun w => kept e w = true) (split_word_bounds txt1) in let ws2 := filter (fun w => kept e w = true) (split_word_bounds txt2) in
  exists s1 s2, runs (words_token_stream split_word_bounds (mkWords e token_default) txt1) (word_tokens 0 ws1) s1 /\
    runs (words_token_stream split_word_bounds (words_after s1) txt2) (word_tokens (u64 (Z.of_nat (length ws1))) ws2) s2.
Proof.
  intros ws1 ws2. destruct (words_run e (split_word_bounds txt1) token_default eq_refl) as (s1 & H1 & He & Hp & Hu).
  destruct (words_run e (split_word_bounds txt2) (ws_token s1) Hp) as (s2 & H2 & _). exists s1, s2. split; [exact H1|].
  unfold words_token_stream, words_after. cbn [remove_emojis words_token]. rewrite He. rewrite Hu in H2.
  replace (u64 (position token_default + 1 + Z.of_nat (length (filter (fun w => kept e w = true) (split_word_bounds txt1))))) with (u64 (Z.of_nat (length ws1))) in H2; [exact H2|].
  unfold wrap. fold ws1. change (position token_default + 1) with (1 * 2 ^ 64). rewrite Z.add_comm, Z.mod_add by done. done.
Qed.

End words.
