(* ===== verification/Values.v ===== *)
(** * Columns, fields and values

    [schema/mod.rs], [postgres/types.rs], [postgres/datetime.rs] and the rows of
    [postgres/utils.rs]: which field a column gets in the index, and which value of tantivy a
    value of PostgreSQL becomes. *)

From stdpp Require Import prelude strings.
From Stdlib Require Import ZArith Lia SpecFloat.
From S2P Require Import Prelude Query Terms RangeField.
From stdpp Require Import list.
Import Terms.

Local Open Scope Z_scope.

Module Values.

(** ** Types of PostgreSQL *)

Inductive BuiltinOid :=
| BOOLOID | INT2OID | INT4OID | INT8OID | OIDOID | XIDOID | FLOAT4OID | FLOAT8OID | NUMERICOID | TEXTOID | VARCHAROID
| DATEOID | TIMESTAMPOID | TIMESTAMPTZOID | TIMEOID | TIMETZOID | UUIDOID | INETOID
| INT4RANGEOID | INT8RANGEOID | NUMRANGEOID | DATERANGEOID | TSRANGEOID | TSTZRANGEOID
| JSONOID | JSONBOID | JSONARRAYOID | JSONBARRAYOID | OtherBuiltin (oid : Z).

Inductive PgOid := Invalid | BuiltIn (b : BuiltinOid) | Custom (oid : Z).

(** The catalog: [get_typtype] is a domain's, [getBaseType], [get_element_type], [type_is_enum]
    and [type_is_tokenizer]. *)
Record Catalog := mkCatalog {
  is_domain_type : PgOid -> bool; get_base_type : PgOid -> PgOid; get_element_type : PgOid -> PgOid;
  type_is_enum : Z -> bool; type_is_tokenizer : Z -> bool }.

(** ** Values of PostgreSQL *)

(** serde's [Value]. *)
Inductive Json :=
| JNull | JBool (b : bool) | JNumber (n : spec_float) | JString (s : string) | JArray (l : list Json) | JObject (l : list (string * Json)).

(** Hours, minutes, seconds and microseconds; a [numeric] and the bounds of a range are of types
    of their own; a [json] is its text with what it parses to. *)
Definition Hms := (Z * Z * Z * Z)%type.

Inductive Datum {Num Elem : Type} :=
| DBool (b : bool) | DInt2 (n : Z) | DInt4 (n : Z) | DInt8 (n : Z) | DOid (n : Z) | DXid (n : Z)
| DFloat4 (x : spec_float) | DFloat8 (x : spec_float) | DNumeric (n : Num) | DText (s : string)
| DDate (posix_time : Z) | DTimestamp (micros : Z) | DTimestampTz (year month day : Z) (hms : Hms) | DTime (hms : Hms) | DTimeTz (hms : Hms)
| DUuid (s : string) | DInet (s : string) | DRange (b : BuiltinOid) (r : RangeField.Range_ Elem)
| DJson (txt : string) (j : Json) | DJsonb (j : Json) | DEnum (ordinal : spec_float) | DArray (l : list (option Datum)).
Arguments Datum : clear implicits.

Inductive ValueError :=
| DatumDeref | InvalidOid | UnsupportedOid (oid : PgOid) | UnsupportedArrayOid (oid : PgOid) | UnsupportedJsonOid (oid : PgOid)
| UnsupportedIntoConversion (t : string) | NumericError | UuidError | InetError | ParseFloatError | DateTimeOutOfRange | SerdeJsonError | KeyIdNull.

(** ** Fields *)

Inductive SearchFieldType :=
| SText (oid : PgOid) | STokenized (oid : PgOid) (typmod : Z) (inner : PgOid) | SUuid (oid : PgOid) | SInet (oid : PgOid) | SI64 (oid : PgOid)
| SF64 (oid : PgOid) | SU64 (oid : PgOid) | SBool (oid : PgOid) | SJson (oid : PgOid) | SDate (oid : PgOid) | SRange (oid : PgOid).

Definition typeoid (t : SearchFieldType) : PgOid :=
  match t with
  | SText oid | STokenized oid _ _ | SUuid oid | SInet oid | SI64 oid | SF64 oid | SU64 oid | SBool oid | SJson oid | SDate oid | SRange oid => oid
  end.

Definition typmod (t : SearchFieldType) : Z := match t with STokenized _ m _ => m | _ => -1 end.

Inductive SchemaError := JsonArraysNotYetSupported | InvalidPgOid (oid : PgOid).

Section catalog.
Variable cat : Catalog.

(** The type with domains resolved, and whether it is an array of it. *)
Definition resolve_base_type (oid : PgOid) : option (PgOid * bool) :=
  let undomain t := if is_domain_type cat t then match get_base_type cat t with Invalid => None | b => Some b end else Some t in
  match oid with
  | Invalid => None
  | _ =>
      base_oid ← undomain oid;
      match get_element_type cat base_oid with
      | Invalid => Some (base_oid, false)
      | array_type => resolved ← undomain array_type; Some (resolved, true)
      end
  end.

(** [SearchFieldType::try_from] *)
Definition field_type_try_from (pg_oid : PgOid) (typmod : Z) (inner_typoid : PgOid) : M unit SchemaError SearchFieldType :=
  match pg_oid with
  | BuiltIn JSONBARRAYOID | BuiltIn JSONARRAYOID => throw JsonArraysNotYetSupported
  | _ =>
      '(base_oid, _) ← unwrap (resolve_base_type pg_oid);
      match base_oid with
      | BuiltIn b =>
          match b with
          | TEXTOID | VARCHAROID => mret (SText base_oid)
          | UUIDOID => mret (SUuid base_oid)
          | INETOID => mret (SInet base_oid)
          | INT2OID | INT4OID | INT8OID => mret (SI64 base_oid)
          | OIDOID | XIDOID => mret (SU64 base_oid)
          | FLOAT4OID | FLOAT8OID | NUMERICOID => mret (SF64 base_oid)
          | BOOLOID => mret (SBool base_oid)
          | JSONOID | JSONBOID => mret (SJson base_oid)
          | INT4RANGEOID | INT8RANGEOID | NUMRANGEOID | DATERANGEOID | TSRANGEOID | TSTZRANGEOID => mret (SRange base_oid)
          | DATEOID | TIMESTAMPOID | TIMESTAMPTZOID | TIMEOID | TIMETZOID => mret (SDate base_oid)
          | _ => throw (InvalidPgOid pg_oid)
          end
      | Custom custom =>
          if type_is_enum cat custom then mret (SF64 base_oid)
          else if type_is_tokenizer cat custom then mret (STokenized base_oid typmod inner_typoid)
          else throw (InvalidPgOid pg_oid)
      | Invalid => throw (InvalidPgOid pg_oid)
      end
  end.

(** The field that [create_index] adds; [expand_dots]: of its configuration. *)
Definition tantivy_field (expand_dots : bool) (t : SearchFieldType) : FieldType :=
  match t with
  | SText _ | SUuid _ => TStr
  | STokenized _ _ (BuiltIn JSONOID) | STokenized _ _ (BuiltIn JSONBOID) => TJsonObject expand_dots
  | STokenized _ _ _ => TStr
  | SInet _ => TIpAddr
  | SI64 _ => TI64
  | SU64 _ => TU64
  | SF64 _ => TF64
  | SBool _ => TBool
  | SJson _ | SRange _ => TJsonObject expand_dots
  | SDate _ => TDate
  end.

(** [CategorizedFieldData], as far as rows use it. *)
Record CategorizedFieldData := mkCategorized { base_oid : PgOid; is_key_field : bool; is_array : bool; is_json : bool }.

Definition categorize (inner_typoid : PgOid) (key : bool) : option CategorizedFieldData :=
  '(base, arr) ← resolve_base_type inner_typoid;
  Some (mkCategorized base key arr (match base with BuiltIn JSONBOID | BuiltIn JSONOID => true | _ => false end)).

(** ** From PostgreSQL to tantivy *)

Context {Num Elem : Type}.
Abbreviation Datum := (Datum Num Elem).

(** pgrx: a [numeric] as a double; the text of an [f32] read as an [f64]; the text of a UUID and
    the address of an [inet]; the days of a date since the epoch (chrono). *)
Variables (numeric_to_f64 : Num -> option spec_float) (f32_text_to_f64 : spec_float -> option spec_float)
  (uuid_text : string -> option string) (parse_inet : string -> option Z) (ymd_days : Z -> Z -> Z -> option Z).
(** tantivy: [OwnedValue::from] a JSON value; the bounds of ranges. *)
Variables (from_json : Json -> OwnedValue) (bound_try_from : Elem -> option Elem) (bound_json : Elem -> OwnedValue).

Abbreviation V := (M unit ValueError).

(** [OffsetDateTime::from_unix_timestamp], then [unix_timestamp_nanos() as i64]. *)
Definition date_value (posix_time : Z) : V OwnedValue :=
  if (-377705116800 <=? posix_time) && (posix_time <=? 253402300799) then mret (Date (i64 (posix_time * 1000000000))) else panic.

(** chrono's [DateTime::from_timestamp_micros], of the microseconds since the epoch. *)
Definition timestamp_value (micros : Z) : V OwnedValue :=
  if (-8334601228800000000 <=? micros) && (micros <=? 8210266876799999999) then mret (Date (from_timestamp_micros micros)) else panic.

Definition MICROSECONDS_IN_SECOND : Z := 1000000.

Definition datetime_components_to_tantivy_date (ymd : option (Z * Z * Z)) (hms_micro : Hms) : V OwnedValue :=
  days ← (match ymd with Some (y, m, d) => unwrap (ymd_days y m d) | None => mret 0 end);
  let '(h, mi, s, us) := hms_micro in
  if (h <? 24) && (mi <? 60) && (s <? 60) then
    mret (Date (from_timestamp_micros ((((days * 24 + h) * 60 + mi) * 60 + s) * MICROSECONDS_IN_SECOND + us mod MICROSECONDS_IN_SECOND)))
  else throw DateTimeOutOfRange.

Definition range_value (val : RangeField.Range_ Elem) : V OwnedValue := RangeField.from_range bound_try_from bound_json val.

Definition is_range (b : BuiltinOid) : bool :=
  match b with INT4RANGEOID | INT8RANGEOID | NUMRANGEOID | DATERANGEOID | TSRANGEOID | TSTZRANGEOID => true | _ => false end.

#[global] Instance BuiltinOid_eq_dec : EqDecision BuiltinOid.
Proof. solve_decision. Defined.

Definition try_from_datum (datum : Datum) (oid : PgOid) : V OwnedValue :=
  match oid with
  | BuiltIn b =>
      match b, datum with
      | BOOLOID, DBool v => mret (Bool v)
      | INT2OID, DInt2 n | INT4OID, DInt4 n | INT8OID, DInt8 n => mret (I64 n)
      | OIDOID, DOid n => mret (U64 n)
      | FLOAT4OID, DFloat4 x => v ← ok_or (f32_text_to_f64 x) ParseFloatError; mret (F64 v)
      | FLOAT8OID, DFloat8 x => mret (F64 x)
      | NUMERICOID, DNumeric n => v ← ok_or (numeric_to_f64 n) NumericError; mret (F64 v)
      | TEXTOID, DText s | VARCHAROID, DText s => mret (Str s)
      | DATEOID, DDate t => date_value t
      | TIMESTAMPOID, DTimestamp t => timestamp_value t
      | TIMESTAMPTZOID, DTimestampTz y m d hms => datetime_components_to_tantivy_date (Some (y, m, d)) hms
      | TIMEOID, DTime hms | TIMETZOID, DTimeTz hms => datetime_components_to_tantivy_date None hms
      | UUIDOID, DUuid u => v ← ok_or (uuid_text u) UuidError; mret (Str v)
      | INETOID, DInet s => v ← ok_or (parse_inet s) InetError; mret (IpAddr v)
      | JSONBOID, DJsonb j => mret (from_json (JArray [j]))
      | JSONOID, DJson txt _ => mret (from_json (JString txt))
      | XIDOID, _ | JSONARRAYOID, _ | JSONBARRAYOID, _ | OtherBuiltin _, _ => throw (UnsupportedOid oid)
      | _, DRange b' r => if bool_decide (b = b') && is_range b then range_value r else throw DatumDeref
      | _, _ => throw DatumDeref
      end
  | Custom custom =>
      if type_is_enum cat custom then
        match datum with DEnum ordinal => v ← ok_or (f32_text_to_f64 ordinal) ParseFloatError; mret (F64 v) | _ => throw DatumDeref end
      else if type_is_tokenizer cat custom then match datum with DText s => mret (Str s) | _ => throw DatumDeref end
      else throw (UnsupportedOid oid)
  | Invalid => throw InvalidOid
  end.

(** The elements that are not NULL, in turn. *)
Fixpoint try_from_elements (oid : PgOid) (l : list (option Datum)) : V (list OwnedValue) :=
  match l with
  | [] => mret []
  | None :: l => try_from_elements oid l
  | Some d :: l => v ← try_from_datum d oid; vs ← try_from_elements oid l; mret (v :: vs)
  end.

Definition supported_array (b : BuiltinOid) : bool :=
  match b with
  | BOOLOID | INT2OID | INT4OID | INT8OID | OIDOID | FLOAT4OID | FLOAT8OID | NUMERICOID | TEXTOID | VARCHAROID
  | DATEOID | TIMESTAMPOID | TIMESTAMPTZOID | TIMEOID | TIMETZOID | UUIDOID | INETOID => true
  | _ => false
  end.

Definition try_from_datum_array (datum : Datum) (oid : PgOid) : V (list OwnedValue) :=
  match oid with
  | BuiltIn b =>
      if supported_array b then match datum with DArray l => try_from_elements oid l | _ => throw DatumDeref end
      else throw (UnsupportedArrayOid oid)
  | _ => throw InvalidOid
  end.

Definition json_value_to_tantivy_value (value : Json) : list OwnedValue :=
  match value with JArray l => from_json <$> l | _ => [from_json value] end.

Definition try_from_datum_json (datum : Datum) (oid : PgOid) : V (list OwnedValue) :=
  match oid with
  | BuiltIn b =>
      match b, datum with
      | JSONBOID, DJsonb j | JSONOID, DJson _ j => mret (json_value_to_tantivy_value j)
      | JSONBOID, _ | JSONOID, _ => throw DatumDeref
      | _, _ => throw (UnsupportedJsonOid oid)
      end
  | _ => throw InvalidOid
  end.

(** ** Rows *)

(** The values of one column; [None]: the column is NULL. *)
Definition column_values (datum : option Datum) (c : CategorizedFieldData) : V (list OwnedValue) :=
  match datum with
  | None => if is_key_field c then throw KeyIdNull else mret []
  | Some d =>
      if is_array c then try_from_datum_array d (base_oid c)
      else if is_json c then try_from_datum_json d (base_oid c)
      else v ← try_from_datum d (base_oid c); mret [v]
  end.

(** The field values that a row adds to a document; a row that is refused stops at its column. *)
Fixpoint row_to_search_document (fields : list (option Datum * Z * CategorizedFieldData)) : V (list (Z * OwnedValue)) :=
  match fields with
  | [] => mret []
  | (datum, field, c) :: fields =>
      vs ← column_values datum c;
      rest ← row_to_search_document fields;
      mret (((fun v => (field, v)) <$> vs) ++ rest)
  end.

End catalog.

(** ** From tantivy to PostgreSQL *)

Section into.
Context {Num Elem : Type}.
Abbreviation Datum := (Datum Num Elem).

(** How integers, doubles, instants, bytes and addresses are displayed; the text of an [f64] read as an [f32]; numerics of integers and doubles; UUIDs and
    addresses; the dates and times of an instant (pgrx); JSON. *)
Variables (int_text : Z -> string) (f64_text : spec_float -> string) (date_text : Z -> string) (from_utf8 : list Z -> option string) (addr_text : Z -> string)
  (f64_text_to_f32 : spec_float -> option spec_float)
  (numeric_of_int : Z -> Num) (numeric_of_f64 : spec_float -> option Num)
  (parse_uuid : string -> option string) (inet_text : Z -> string)
  (instant : BuiltinOid -> Z -> option Datum) (to_json : list (string * OwnedValue) -> option Json) (json_text : Json -> string).

(** [x as iN] and [x as uN] of a double: truncated, saturating; a NaN is zero. *)
Definition f64_to_int (lo hi : Z) (x : spec_float) : Z :=
  match x with
  | S754_finite s m e =>
      let v := if 0 <=? e then Z.pos m * 2 ^ e else Z.pos m / 2 ^ (- e) in
      Z.max lo (Z.min hi (if s then - v else v))
  | S754_infinity s => if s then lo else hi
  | _ => 0
  end.

(** [n as iN] of an integer. *)
Definition as_int (w : Z) (n : Z) : Z := let r := wrap w n in if r <? 2 ^ (w - 1) then r else r - 2 ^ w.

Abbreviation V := (M unit ValueError).

(** [i16::try_from], [i32::try_from], [i64::try_from] and [u32::try_from] a value. *)
Definition int_try_from (w : Z) (t : string) (v : OwnedValue) : V Z :=
  match v with
  | U64 n | I64 n => mret (as_int w n)
  | F64 x => mret (f64_to_int (- 2 ^ (w - 1)) (2 ^ (w - 1) - 1) x)
  | _ => throw (UnsupportedIntoConversion t)
  end.

Definition u32_try_from (v : OwnedValue) : V Z :=
  match v with
  | U64 n | I64 n => mret (u32 n)
  | F64 x => mret (f64_to_int 0 (2 ^ 32 - 1) x)
  | _ => throw (UnsupportedIntoConversion "u32")
  end.

Definition is_zero (x : spec_float) : bool := match x with S754_zero _ => true | _ => false end.

Definition bool_try_from (v : OwnedValue) : V bool :=
  match v with
  | Bool b => mret b
  | U64 n | I64 n => mret (negb (n =? 0))
  | F64 x => mret (negb (is_zero x))
  | _ => throw (UnsupportedIntoConversion "bool")
  end.

Definition numeric_try_from (v : OwnedValue) : V Num :=
  match v with
  | U64 n | I64 n => mret (numeric_of_int n)
  | F64 x => ok_or (numeric_of_f64 x) NumericError
  | _ => throw (UnsupportedIntoConversion "numeric")
  end.

(** [Display] *)
Definition fmt (v : OwnedValue) : V string :=
  match v with
  | Str s => mret s
  | U64 n | I64 n => mret (int_text n)
  | F64 x => mret (f64_text x)
  | Bool b => mret (if b then "true" else "false")
  | Date t => mret (date_text t)
  | Bytes l => unwrap (from_utf8 l)
  | IpAddr a => mret (addr_text a)
  | Object _ => mret "json object"
  | Null => mret "<null>"
  | _ => panic
  end.

Definition string_try_from (v : OwnedValue) : V string := match v with Str s => mret s | _ => fmt v end.

Definition datetime_name (b : BuiltinOid) : string :=
  match b with DATEOID => "date" | TIMESTAMPOID => "timestamp" | TIMESTAMPTZOID => "timestamptz" | TIMEOID => "time" | _ => "timetz" end.

(** The conversions of a value of tantivy, [None] being NULL. *)
Definition try_into_datum (v : OwnedValue) (oid : PgOid) : V (option Datum) :=
  match v with
  | Null => mret None
  | _ =>
      match oid with
      | BuiltIn b =>
          match b with
          | BOOLOID => x ← bool_try_from v; mret (Some (DBool x))
          | INT2OID => x ← int_try_from 16 "i16" v; mret (Some (DInt2 x))
          | INT4OID => x ← int_try_from 32 "i32" v; mret (Some (DInt4 x))
          | INT8OID => x ← int_try_from 64 "i64" v; mret (Some (DInt8 x))
          | OIDOID => x ← u32_try_from v; mret (Some (DOid x))
          | FLOAT4OID => match v with F64 x => y ← ok_or (f64_text_to_f32 x) ParseFloatError; mret (Some (DFloat4 y)) | _ => throw (UnsupportedIntoConversion "f32") end
          | FLOAT8OID => match v with F64 x => mret (Some (DFloat8 x)) | _ => throw (UnsupportedIntoConversion "f64") end
          | NUMERICOID => x ← numeric_try_from v; mret (Some (DNumeric x))
          | TEXTOID | VARCHAROID => x ← string_try_from v; mret (Some (DText x))
          | JSONOID => match v with Object l => j ← ok_or (to_json l) SerdeJsonError; mret (Some (DJson (json_text j) j)) | _ => throw (UnsupportedIntoConversion "json") end
          | JSONBOID => match v with Object l => j ← ok_or (to_json l) SerdeJsonError; mret (Some (DJsonb j)) | _ => throw (UnsupportedIntoConversion "jsonb") end
          | DATEOID | TIMESTAMPOID | TIMESTAMPTZOID | TIMEOID | TIMETZOID =>
              match v with Date n => d ← ok_or (instant b n) DateTimeOutOfRange; mret (Some d) | _ => throw (UnsupportedIntoConversion (datetime_name b)) end
          | UUIDOID => match v with Str s => u ← ok_or (parse_uuid s) UuidError; mret (Some (DUuid u)) | _ => throw (UnsupportedIntoConversion "uuid") end
          | INETOID => match v with IpAddr n => mret (Some (DInet (inet_text n))) | _ => throw (UnsupportedIntoConversion "inet") end
          | _ => throw (UnsupportedOid oid)
          end
      | _ => throw InvalidOid
      end
  end.

End into.

(** [PartialOrd]: values of one kind are compared, others are not. *)
Definition partial_cmp (a b : OwnedValue) : option comparison :=
  match a, b with
  | Str x, Str y => Some (String.compare x y)
  | U64 x, U64 y | I64 x, I64 y | Date x, Date y => Some (x ?= y)
  | F64 x, F64 y => SFcompare x y
  | Bool x, Bool y => Some (Bool.compare x y)
  | _, _ => None
  end.

(** [SearchField::try_coerce]: a value of a search for a field. *)
Definition try_coerce (t : FieldType) (v : OwnedValue) : option OwnedValue :=
  match t, v with
  | TStr, Str _ | TU64, U64 _ | TI64, I64 _ | TF64, F64 _ | TBool, Bool _ | TDate, Date _ | TJsonObject _, Object _ => Some v
  | TU64, I64 n => if n <? 0 then None else Some (U64 n)
  | TI64, U64 n => if 2 ^ 63 <=? n then None else Some (I64 n)
  | _, _ => None
  end.

End Values.
