(* ===== verification/ValuesProps.v ===== *)
(** * Rows become documents of their fields' types

    Which columns the schema accepts and which of them can be indexed; every value of a document
    has the type of its field. *)

From stdpp Require Import prelude strings.
From Stdlib Require Import ZArith Lia SpecFloat.
From S2P Require Import Prelude Query Terms RangeField Values.
From stdpp Require Import list.
Import Terms Values.

Local Open Scope Z_scope.

(** ** Types of values *)

(** What a JSON field takes. *)
Definition json_like (v : OwnedValue) : bool := match v with PreTokStr _ | Facet _ | Bytes _ | IpAddr _ => false | _ => true end.

(** A value is of the type of a field. *)
Definition fits (t : FieldType) (v : OwnedValue) : bool :=
  match t, v with
  | TStr, Str _ | TU64, U64 _ | TI64, I64 _ | TF64, F64 _ | TBool, Bool _ | TDate, Date _ | TIpAddr, IpAddr _ => true
  | TJsonObject _, v => json_like v
  | _, _ => false
  end.

Section values.
Context {Num Elem : Type} (cat : Catalog).
Context (numeric_to_f64 : Num -> option spec_float) (f32_text_to_f64 : spec_float -> option spec_float)
  (uuid_text : string -> option string) (parse_inet : string -> option Z) (ymd_days : Z -> Z -> Z -> option Z)
  (from_json : Json -> OwnedValue) (bound_try_from : Elem -> option Elem) (bound_json : Elem -> OwnedValue) (expand_dots : bool).

Abbreviation try_from_datum := (try_from_datum cat numeric_to_f64 f32_text_to_f64 uuid_text parse_inet ymd_days from_json bound_try_from bound_json).
Abbreviation try_from_elements := (try_from_elements cat numeric_to_f64 f32_text_to_f64 uuid_text parse_inet ymd_days from_json bound_try_from bound_json).
Abbreviation column_values := (column_values cat numeric_to_f64 f32_text_to_f64 uuid_text parse_inet ymd_days from_json bound_try_from bound_json).
Abbreviation row_to_search_document := (row_to_search_document cat numeric_to_f64 f32_text_to_f64 uuid_text parse_inet ymd_days from_json bound_try_from bound_json).

(** tantivy documents that a JSON value becomes a value of JSON. *)
Hypothesis from_json_like : forall j, json_like (from_json j) = true.

(** The types [json] and [jsonb] are neither domains nor arrays. *)
Hypotheses (json_plain : resolve_base_type cat (BuiltIn JSONOID) = Some (BuiltIn JSONOID, false))
  (jsonb_plain : resolve_base_type cat (BuiltIn JSONBOID) = Some (BuiltIn JSONBOID, false)).

(** The type of the values of a type of PostgreSQL. *)
Definition base_field (base : PgOid) : option FieldType :=
  match base with
  | BuiltIn b =>
      match b with
      | TEXTOID | VARCHAROID | UUIDOID => Some TStr
      | INETOID => Some TIpAddr
      | INT2OID | INT4OID | INT8OID => Some TI64
      | OIDOID => Some TU64
      | FLOAT4OID | FLOAT8OID | NUMERICOID => Some TF64
      | BOOLOID => Some TBool
      | JSONOID | JSONBOID | INT4RANGEOID | INT8RANGEOID | NUMRANGEOID | DATERANGEOID | TSRANGEOID | TSTZRANGEOID => Some (TJsonObject expand_dots)
      | DATEOID | TIMESTAMPOID | TIMESTAMPTZOID | TIMEOID | TIMETZOID => Some TDate
      | _ => None
      end
  | Custom c => if type_is_enum cat c then Some TF64 else if type_is_tokenizer cat c then Some TStr else None
  | Invalid => None
  end.

(** A time of day before 24:00:00; a bound of a range that has a value of tantivy. *)
Definition hms_ok (h : Hms) : Prop := let '(h, m, s, _) := h in h < 24 /\ m < 60 /\ s < 60.

Definition bound_ok (b : RangeField.RangeBound Elem) : Prop :=
  match b with RangeField.Inclusive v | RangeField.Exclusive v => is_Some (bound_try_from v) | RangeField.Infinite => True end.

(** The values of a type that can be converted: those of the type itself, of which the floating
    point numbers, numerics, UUIDs and addresses must be accepted by the libraries that convert
    them, dates must lie in the years -9999 to 9999, and times before 24:00:00. *)
Definition datum_ok (base : PgOid) (d : Datum Num Elem) : Prop :=
  match base, d with
  | BuiltIn BOOLOID, DBool _ | BuiltIn INT2OID, DInt2 _ | BuiltIn INT4OID, DInt4 _ | BuiltIn INT8OID, DInt8 _ | BuiltIn OIDOID, DOid _
  | BuiltIn FLOAT8OID, DFloat8 _ | BuiltIn TEXTOID, DText _ | BuiltIn VARCHAROID, DText _ | BuiltIn JSONOID, DJson _ _ | BuiltIn JSONBOID, DJsonb _ => True
  | BuiltIn FLOAT4OID, DFloat4 x => is_Some (f32_text_to_f64 x)
  | BuiltIn NUMERICOID, DNumeric n => is_Some (numeric_to_f64 n)
  | BuiltIn DATEOID, DDate t => -377705116800 <= t <= 253402300799
  | BuiltIn TIMESTAMPOID, DTimestamp t => -8334601228800000000 <= t <= 8210266876799999999
  | BuiltIn TIMESTAMPTZOID, DTimestampTz y m d h => is_Some (ymd_days y m d) /\ hms_ok h
  | BuiltIn TIMEOID, DTime h | BuiltIn TIMETZOID, DTimeTz h => hms_ok h
  | BuiltIn UUIDOID, DUuid u => is_Some (uuid_text u)
  | BuiltIn INETOID, DInet s => is_Some (parse_inet s)
  | BuiltIn b, DRange b' r => b = b' /\ is_range b = true /\ match r with None => True | Some (l, u) => bound_ok l /\ bound_ok u end
  | Custom c, DEnum x => type_is_enum cat c = true /\ is_Some (f32_text_to_f64 x)
  | Custom c, DText _ => type_is_enum cat c = false /\ type_is_tokenizer cat c = true
  | _, _ => False
  end.

(** A date after April 2262 is stored as an instant of another century: its nanoseconds do not fit 64 bits. *)
Example date_wraps : date_value 9246182400 tt = (Ok (Date (-9200561673709551616)), tt).
Proof. reflexivity. Qed.

(** *** Values fit *)

Lemma date_fits t v : date_value t tt = (Ok v, tt) -> fits TDate v = true.
Proof. unfold date_value. case_match; [by intros [= <-]|done]. Qed.

Lemma timestamp_fits t v : timestamp_value t tt = (Ok v, tt) -> fits TDate v = true.
Proof. unfold timestamp_value. case_match; [by intros [= <-]|done]. Qed.

Lemma components_fit ymd h v : datetime_components_to_tantivy_date ymd_days ymd h tt = (Ok v, tt) -> fits TDate v = true.
Proof.
  unfold datetime_components_to_tantivy_date. destruct ymd as [[[y m] d]|]; [destruct (ymd_days y m d) as [n|]; [rewrite (bind_ok _ _ _ n tt) by done|done]|rewrite bind_ret];
    destruct h as [[[h mi] s] us]; (case_match; [by intros [= <-]|done]).
Qed.

Lemma range_fits r v : range_value bound_try_from bound_json r tt = (Ok v, tt) -> exists l, v = Object l.
Proof.
  unfold range_value, RangeField.from_range. destruct r as [[l u]|]; [|intros [= <-]; by eexists]. unfold RangeField.bound_value.
  destruct l as [|x|x]; destruct u as [|y|y]; try destruct (bound_try_from x); try destruct (bound_try_from y); try done; intros [= <-]; by eexists.
Qed.

(** Conversions that do not fail return a value. *)
Lemma ok_or_Ok {A B E} (o : option A) (e : E) (f : A -> M unit E B) (r : B) : (v ← ok_or o e; f v) tt = (Ok r, tt) -> exists v, o = Some v /\ f v tt = (Ok r, tt).
Proof. destruct o as [v|]; [|done]. intros H. by exists v. Qed.

(** What a value becomes is of the type of the field for its type. *)
Lemma try_from_datum_fits d base v : try_from_datum d base tt = (Ok v, tt) -> exists t, base_field base = Some t /\ fits t v = true.
Proof.
  destruct base as [|b|c]; cbn [Values.try_from_datum base_field]; [done| |].
  - destruct b; destruct d; try done; intros H; (eexists; split; [reflexivity|]); cbn [is_range andb] in *; rewrite ?andb_false_r in H; try done;
      first [by injection H as <- | by eapply date_fits | by eapply timestamp_fits | by eapply components_fit | (apply ok_or_Ok in H as (? & _ & [= <-]); done)
            | (injection H as <-; cbn [fits]; apply from_json_like)
            | (rewrite andb_true_r in H; destruct (bool_decide _); [|done]; apply range_fits in H as [? ->]; done)].
  - destruct (type_is_enum cat c) eqn:Ee; [|destruct (type_is_tokenizer cat c) eqn:Et]; destruct d; try done; intros H; (eexists; split; [reflexivity|]).
    + by apply ok_or_Ok in H as (? & _ & [= <-]).
    + by injection H as <-.
Qed.

Lemma elements_fit base l vs : try_from_elements base l tt = (Ok vs, tt) -> Forall (fun v => exists t, base_field base = Some t /\ fits t v = true) vs.
Proof.
  revert vs. induction l as [|[d|] l IH]; intros vs; cbn [Values.try_from_elements]; [by intros [= <-]| |by apply IH].
  intros H. unfold mbind, M_bind in H. destruct (try_from_datum d base tt) as [o []] eqn:Ed. destruct o; try done. destruct (try_from_elements base l tt) as [o' []] eqn:El. destruct o'; try done. injection H as <-.
  constructor; [by eapply try_from_datum_fits|by apply IH].
Qed.

(** The values of a column are of the type of its base type. *)
Lemma column_fits d c vs : column_values d c tt = (Ok vs, tt) -> is_json c = match base_oid c with BuiltIn JSONBOID | BuiltIn JSONOID => true | _ => false end ->
  Forall (fun v => exists t, base_field (base_oid c) = Some t /\ fits t v = true) vs.
Proof.
  unfold Values.column_values. destruct d as [d|]; [|destruct (is_key_field c); [done|by intros [= <-] _]]. intros H Hj. destruct (is_array c); [|destruct (is_json c) eqn:Ej].
  - unfold try_from_datum_array in H. destruct (base_oid c) as [|b|]; try done. destruct (supported_array b); [|done]. destruct d; try done. by eapply elements_fit.
  - assert (forall j, Forall (fun v => exists t, Some (TJsonObject expand_dots) = Some t /\ fits t v = true) (json_value_to_tantivy_value from_json j)) as Hjs.
    { intros j. unfold json_value_to_tantivy_value. destruct j; try (constructor; [|constructor]; eexists; split; [done|apply from_json_like]).
      apply Forall_fmap, Forall_forall. intros x _. eexists. split; [done|apply from_json_like]. }
    destruct (base_oid c) as [|b|]; try done. destruct b; try done; destruct d; try done; injection H as <-; apply Hjs.
  - unfold mbind, M_bind in H. destruct (try_from_datum d (base_oid c) tt) as [o []] eqn:Ed. destruct o; try done. injection H as <-. constructor; [by eapply try_from_datum_fits|constructor].
Qed.

(** *** Columns *)

(** A column that is cast to a tokenizer is one whose values are text, or of JSON as such. *)
Definition tokenized_ok (inner base : PgOid) : Prop :=
  ((inner = BuiltIn JSONOID \/ inner = BuiltIn JSONBOID) /\ base = inner) \/
  (inner <> BuiltIn JSONOID /\ inner <> BuiltIn JSONBOID /\ base_field base = Some TStr).

(** A column of the index: the type of its expression, of what is inside a cast to a tokenizer,
    its field and how its values are read. *)
Record Column := mkColumn { col_type : PgOid; col_typmod : Z; col_inner : PgOid; col_field_type : SearchFieldType; col_data : CategorizedFieldData }.

Definition column_ok (c : Column) : Prop :=
  field_type_try_from cat (col_type c) (col_typmod c) (col_inner c) tt = (Ok (col_field_type c), tt) /\
  categorize cat (col_inner c) (is_key_field (col_data c)) = Some (col_data c) /\
  (col_inner c = col_type c \/ ((exists oid m, col_field_type c = STokenized oid m (col_inner c)) /\ tokenized_ok (col_inner c) (base_oid (col_data c)))).

Lemma column_json c : column_ok c -> is_json (col_data c) = match base_oid (col_data c) with BuiltIn JSONBOID | BuiltIn JSONOID => true | _ => false end.
Proof.
  intros (_ & Hc & _). unfold categorize in Hc. destruct (resolve_base_type cat (col_inner c)) as [[base arr]|]; [|done]. cbn [mbind option_bind] in Hc. injection Hc as Hc. rewrite <- Hc. done.
Qed.

(** The field of a type without a cast. *)
Definition schema_of (pg_oid base : PgOid) (m : Z) (inner : PgOid) : option SearchFieldType :=
  match base with
  | BuiltIn b =>
      match b with
      | TEXTOID | VARCHAROID => Some (SText base)
      | UUIDOID => Some (SUuid base)
      | INETOID => Some (SInet base)
      | INT2OID | INT4OID | INT8OID => Some (SI64 base)
      | OIDOID | XIDOID => Some (SU64 base)
      | FLOAT4OID | FLOAT8OID | NUMERICOID => Some (SF64 base)
      | BOOLOID => Some (SBool base)
      | JSONOID | JSONBOID => Some (SJson base)
      | INT4RANGEOID | INT8RANGEOID | NUMRANGEOID | DATERANGEOID | TSRANGEOID | TSTZRANGEOID => Some (SRange base)
      | DATEOID | TIMESTAMPOID | TIMESTAMPTZOID | TIMEOID | TIMETZOID => Some (SDate base)
      | _ => None
      end
  | Custom c => if type_is_enum cat c then Some (SF64 base) else if type_is_tokenizer cat c then Some (STokenized base m inner) else None
  | Invalid => None
  end.

Lemma schema_of_ok pg_oid m inner ft : field_type_try_from cat pg_oid m inner tt = (Ok ft, tt) ->
  exists base arr, resolve_base_type cat pg_oid = Some (base, arr) /\ schema_of pg_oid base m inner = Some ft.
Proof.
  unfold field_type_try_from. destruct pg_oid as [|b|oid]; [done| |]; (try destruct b; try done);
    (match goal with |- context [resolve_base_type cat ?o] => destruct (resolve_base_type cat o) as [[base arr]|]; [|done] end);
    rewrite (bind_ok _ _ _ (base, arr) tt) by done; intros H; exists base, arr; (split; [done|]); unfold schema_of;
    (destruct base as [|b'|c]; [done|destruct b'; try done; by injection H as <-|]);
    (destruct (type_is_enum cat c); [by injection H as <-|]); (destruct (type_is_tokenizer cat c); [by injection H as <-|done]).
Qed.

(** The field of a column is of the type of the values of its base type. *)
Lemma column_field c t : column_ok c -> base_field (base_oid (col_data c)) = Some t -> t = tantivy_field expand_dots (col_field_type c).
Proof.
  intros (Hf & Hc & Hi) Ht. unfold categorize in Hc. destruct (resolve_base_type cat (col_inner c)) as [[base arr]|] eqn:Er; [|done]. cbn [mbind option_bind] in Hc.
  assert (base_oid (col_data c) = base) as Hb by (injection Hc as Hc; by rewrite <- Hc). rewrite Hb in Ht, Hi. clear Hc Hb. destruct Hi as [Hi|[(oid & m & Hft) Htok]].
  - apply schema_of_ok in Hf as (base' & arr' & Hr & Hs). rewrite Hi in Er, Hs. rewrite Er in Hr. injection Hr as <- <-. revert Hs Ht. generalize (col_field_type c) as ft. intros ft.
    unfold schema_of, base_field. destruct base as [|b|o]; [done| |].
    + destruct b; try done; intros [= <-] [= <-]; done.
    + destruct (type_is_enum cat o) eqn:Ee; [by intros [= <-] [= <-]|]. destruct (type_is_tokenizer cat o) eqn:Et; [|done]. intros [= <-] [= <-]. cbn [tantivy_field].
      destruct (col_type c) as [|b|]; [done| |done]. destruct b; try done; by rewrite ?json_plain, ?jsonb_plain in Er.
  - rewrite Hft. destruct Htok as [[[Hin|Hin] Hbi]|(H1 & H2 & Hbt)]; [subst base; rewrite Hin in Ht |- *; by injection Ht as <-..|].
    rewrite Hbt in Ht. injection Ht as <-. destruct (col_inner c) as [|b|]; [done|by destruct b|done].
Qed.

(** *** Rows *)

(** The types whose values can be indexed. *)
Definition indexable (base : PgOid) (arr : bool) : bool :=
  match base with
  | BuiltIn b => if arr then supported_array b else if base_field base is Some _ then true else false
  | Custom c => negb arr && (type_is_enum cat c || type_is_tokenizer cat c)
  | Invalid => false
  end.

Lemma hms_total ymd h : hms_ok h -> match ymd with Some (y, m, d) => is_Some (ymd_days y m d) | None => True end ->
  exists v, datetime_components_to_tantivy_date ymd_days ymd h tt = (Ok v, tt).
Proof.
  intros Hh Hd. unfold datetime_components_to_tantivy_date. assert (exists days, (match ymd with Some (y, m, d) => unwrap (ymd_days y m d) | None => mret 0 end : M unit ValueError Z) tt = (Ok days, tt)) as [days Hdays].
  { destruct ymd as [[[y m] d]|]; [destruct Hd as [n ->]|]; by eexists. }
  rewrite (bind_ok _ _ _ _ _ Hdays). destruct h as [[[h mi] s] us]. destruct Hh as (H1 & H2 & H3). rewrite !(proj2 (Z.ltb_lt _ _)) by done. by eexists.
Qed.

Lemma range_total r : match r with None => True | Some (l, u) => bound_ok l /\ bound_ok u end -> exists v, range_value bound_try_from bound_json r tt = (Ok v, tt).
Proof.
  unfold range_value, RangeField.from_range. destruct r as [[l u]|]; [|by eexists]. intros [Hl Hu]. unfold RangeField.bound_value, bound_ok in *.
  destruct l as [|x|x]; destruct u as [|y|y]; repeat match goal with H : is_Some _ |- _ => destruct H as [? H]; rewrite H; clear H end; by eexists.
Qed.

Lemma try_from_datum_total base d : datum_ok base d -> exists v, try_from_datum d base tt = (Ok v, tt).
Proof.
  destruct base as [|b|c]; cbn [datum_ok Values.try_from_datum]; [done| |].
  - destruct b, d; try done; intros H; try (by eexists); try (destruct H as [? Hx]; rewrite Hx; by eexists); try (by apply hms_total; [apply H|apply H]); try (by apply hms_total).
    all: try (destruct H as (<- & Hr & Hb); first [discriminate Hr | by apply range_total]).
    + unfold date_value. rewrite !(proj2 (Z.leb_le _ _)) by lia. by eexists.
    + unfold timestamp_value. rewrite !(proj2 (Z.leb_le _ _)) by lia. by eexists.
  - destruct d; try done; intros [He H]; rewrite He; [by rewrite H; eexists|]. destruct H as [? Hx]. rewrite Hx. by eexists.
Qed.

(** A value of a column, and how many values it becomes. *)
Definition value_ok (c : CategorizedFieldData) (d : option (Datum Num Elem)) : Prop :=
  match d with
  | None => is_key_field c = false
  | Some d => if is_array c then exists l, d = DArray l /\ Forall (datum_ok (base_oid c)) (omap id l) else datum_ok (base_oid c) d
  end.

Definition value_count (c : CategorizedFieldData) (d : option (Datum Num Elem)) (n : nat) : Prop :=
  match d with
  | None => n = 0%nat
  | Some (DArray l) => is_array c = true -> n = length (omap id l)
  | Some _ => is_json c = false -> is_array c = false -> n = 1%nat
  end.

Lemma elements_total base l : Forall (datum_ok base) (omap id l) -> exists vs, try_from_elements base l tt = (Ok vs, tt) /\ length vs = length (omap id l).
Proof.
  induction l as [|[d|] l IH]; cbn [omap list_omap id]; [by exists []| |exact IH]. intros [Hd Hl]%Forall_cons. destruct (try_from_datum_total base d Hd) as [v Hv]. destruct (IH Hl) as (vs & Hvs & Hlen).
  exists (v :: vs). cbn [Values.try_from_elements]. rewrite (bind_ok _ _ _ _ _ Hv), (bind_ok _ _ _ _ _ Hvs). cbn. by rewrite Hlen.
Qed.

Lemma column_total c d : (is_Some d -> indexable (base_oid c) (is_array c) = true) -> is_json c = match base_oid c with BuiltIn JSONBOID | BuiltIn JSONOID => true | _ => false end ->
  value_ok c d -> exists vs, column_values d c tt = (Ok vs, tt) /\ value_count c d (length vs).
Proof.
  intros Hi Hj Hd. unfold Values.column_values, value_ok, value_count in *. destruct d as [d|]; [|rewrite Hd; by exists []]. specialize (Hi (mk_is_Some _ _ eq_refl)). destruct (is_array c).
  - destruct Hd as (l & -> & Hl). unfold try_from_datum_array. destruct (base_oid c) as [|b|o]; try done. cbn [indexable] in Hi. rewrite Hi. destruct (elements_total _ l Hl) as (vs & Hvs & Hlen). by exists vs.
  - destruct (is_json c) eqn:Ej.
    + destruct (base_oid c) as [|b|]; try done. destruct b; try done; destruct d; try done; try (by destruct Hd as (_ & Hd & _)); (eexists; split; [reflexivity|by intros]).
    + destruct (try_from_datum_total _ _ Hd) as [v Hv]. exists [v]. rewrite (bind_ok _ _ _ _ _ Hv). by destruct d.
Qed.

(** *** What is converted was convertible *)

Lemma components_ok ymd h v : datetime_components_to_tantivy_date ymd_days ymd h tt = (Ok v, tt) ->
  hms_ok h /\ match ymd with Some (y, m, d) => is_Some (ymd_days y m d) | None => True end.
Proof.
  unfold datetime_components_to_tantivy_date. destruct ymd as [[[y m] d]|]; [destruct (ymd_days y m d) as [n|]; [rewrite (bind_ok _ _ _ n tt) by done|done]|rewrite bind_ret];
    destruct h as [[[h mi] s] us]; cbn [hms_ok]; (case_match eqn:Eb; [|done]); rewrite !andb_true_iff, !Z.ltb_lt in Eb; intros _; (split; [tauto|done]).
Qed.

Lemma range_ok r v : range_value bound_try_from bound_json r tt = (Ok v, tt) -> match r with None => True | Some (l, u) => bound_ok l /\ bound_ok u end.
Proof.
  unfold range_value, RangeField.from_range. destruct r as [[l u]|]; [|done]. unfold RangeField.bound_value, bound_ok.
  destruct l as [|x|x]; destruct u as [|y|y]; try destruct (bound_try_from x); try destruct (bound_try_from y); done.
Qed.

Lemma try_from_datum_ok base d v : try_from_datum d base tt = (Ok v, tt) -> datum_ok base d.
Proof.
  destruct base as [|b|c]; cbn [Values.try_from_datum datum_ok]; [done| |].
  - destruct b; destruct d; try done; cbn [is_range andb]; rewrite ?andb_false_r, ?andb_true_r; try done; intros H;
      first [ by apply components_ok in H as [? ?] | (apply ok_or_Ok in H as (? & -> & _); by eexists)
            | (destruct (bool_decide _) eqn:Eb; [|done]; apply bool_decide_eq_true in Eb as <-; split; [done|]; split; [done|]; by eapply range_ok)
            | (unfold date_value in H || unfold timestamp_value in H; case_match eqn:Eb; [|done]; rewrite andb_true_iff, !Z.leb_le in Eb; lia) ].
  - destruct (type_is_enum cat c) eqn:Ee; [|destruct (type_is_tokenizer cat c) eqn:Et]; destruct d; try done; intros H. split; [done|]. apply ok_or_Ok in H as (? & -> & _). by eexists.
Qed.

Lemma elements_ok base l vs : try_from_elements base l tt = (Ok vs, tt) -> Forall (datum_ok base) (omap id l).
Proof.
  revert vs. induction l as [|[d|] l IH]; intros vs; cbn [Values.try_from_elements omap list_omap id]; [done| |by apply IH].
  intros H. unfold mbind, M_bind in H. destruct (try_from_datum d base tt) as [o []] eqn:Ed. destruct o; try done. destruct (try_from_elements base l tt) as [o' []] eqn:El. destruct o'; try done.
  constructor; [by eapply try_from_datum_ok|by eapply IH].
Qed.

Lemma datum_ok_indexable base d : datum_ok base d -> indexable base false = true.
Proof.
  destruct base as [|b|c]; cbn [datum_ok indexable]; [done| |].
  - destruct b, d; try done; by intros (_ & ? & _).
  - destruct d; try done; by intros [He H]; rewrite He; rewrite ?H.
Qed.

(** The columns whose value can be indexed: one that is NULL and not the key, or one of an
    indexable type with a value that can be converted. *)
Definition convertible (c : CategorizedFieldData) (d : option (Datum Num Elem)) : Prop :=
  value_ok c d /\ (is_Some d -> indexable (base_oid c) (is_array c) = true).

Lemma column_ok_convertible c d vs : column_values d c tt = (Ok vs, tt) -> is_json c = match base_oid c with BuiltIn JSONBOID | BuiltIn JSONOID => true | _ => false end ->
  convertible c d.
Proof.
  intros H Hj. unfold Values.column_values, convertible, value_ok in *. destruct d as [d|]; [|destruct (is_key_field c); [done|split; [done|by intros [? ?]]]]. destruct (is_array c).
  - unfold try_from_datum_array in H. destruct (base_oid c) as [|b|]; try done. destruct (supported_array b) eqn:Es; [|done]. destruct d; try done. split; [|done].
    eexists. split; [done|]. by eapply elements_ok.
  - assert (datum_ok (base_oid c) d) as Hd; [|split; [done|intros _; by eapply datum_ok_indexable]]. destruct (is_json c) eqn:Ej.
    + destruct (base_oid c) as [|b|]; try done. by destruct b, d.
    + unfold mbind, M_bind in H. destruct (try_from_datum d (base_oid c) tt) as [o []] eqn:Ed. destruct o; try done. by eapply try_from_datum_ok.
Qed.

Lemma row_ok_convertible cols doc : Forall (fun '(c, _, _) => column_ok c) cols ->
  row_to_search_document ((fun '(c, f, d) => (d, f, col_data c)) <$> cols) tt = (Ok doc, tt) -> Forall (fun '(c, _, d) => convertible (col_data c) d) cols.
Proof.
  intros Hc. revert doc. induction Hc as [|[[c f] d] cols Hc _ IH]; intros doc; [done|]. cbn [fmap list_fmap Values.row_to_search_document]. intros H.
  unfold mbind, M_bind in H. destruct (column_values d (col_data c) tt) as [o []] eqn:Ed. destruct o; try done. destruct (row_to_search_document _ tt) as [o' []] eqn:El. destruct o'; try done.
  constructor; [eapply column_ok_convertible; [done|by apply column_json]|by eapply IH].
Qed.

(** The document of a row: the values of each column under its field, every value of the type of
    that field, none for a column that is NULL, one for each element of an array that is not
    NULL, and exactly one for any other column but a JSON one. *)
Definition document_of (cols : list (Column * Z * option (Datum Num Elem))) (doc : list (Z * OwnedValue)) : Prop := exists vss,
  doc = concat (zip_with (fun '(_, f, _) vs => (fun v => (f, v)) <$> vs) cols vss) /\
  Forall2 (fun '(c, _, d) vs => Forall (fun v => fits (tantivy_field expand_dots (col_field_type c)) v = true) vs /\ value_count (col_data c) d (length vs)) cols vss.


(** A time of 24:00:00 is refused, and a date after the year 9999 ends in a panic. *)
Theorem late_times_refused us t : 253402300799 < t ->
  try_from_datum (DTime (24, 0, 0, us)) (BuiltIn TIMEOID) tt = (Err DateTimeOutOfRange, tt) /\ try_from_datum (DDate t) (BuiltIn DATEOID) tt = (Panic, tt).
Proof. intros Ht. split; [done|]. cbn [Values.try_from_datum]. unfold date_value. by rewrite (proj2 (Z.leb_gt t _)), andb_false_r by lia. Qed.

(** Columns that the schema accepts and whose values are refused: transaction ids, and arrays of
    ranges and of enums. *)
Theorem accepted_not_indexable d :
  column_values (Some d) (mkCategorized (BuiltIn XIDOID) false false false) tt = (Err (UnsupportedOid (BuiltIn XIDOID)), tt) /\
  (forall b, is_range b = true -> column_values (Some d) (mkCategorized (BuiltIn b) false true false) tt = (Err (UnsupportedArrayOid (BuiltIn b)), tt)) /\
  (forall o, column_values (Some d) (mkCategorized (Custom o) false true false) tt = (Err InvalidOid, tt)) /\
  (forall pg_oid arr m inner, resolve_base_type cat pg_oid = Some (BuiltIn XIDOID, arr) -> pg_oid <> BuiltIn JSONARRAYOID -> pg_oid <> BuiltIn JSONBARRAYOID ->
    field_type_try_from cat pg_oid m inner tt = (Ok (SU64 (BuiltIn XIDOID)), tt)) /\
  (forall pg_oid m inner b, resolve_base_type cat pg_oid = Some (BuiltIn b, true) -> is_range b = true -> pg_oid <> BuiltIn JSONARRAYOID -> pg_oid <> BuiltIn JSONBARRAYOID ->
    field_type_try_from cat pg_oid m inner tt = (Ok (SRange (BuiltIn b)), tt)).
Proof.
  split; [done|]. split; [intros b Hb; by destruct b|]. split; [done|].
  split; intros pg_oid; [intros arr m inner Hr H1 H2|intros m inner b Hr Hb H1 H2]; unfold field_type_try_from;
    (destruct pg_oid as [|p|o]; [done|destruct p; try done|]); rewrite Hr; cbn; try done; by destruct b.
Qed.

End values.

(** ** Back to PostgreSQL *)

Section back.
Context {Num Elem : Type} (cat : Catalog).
Context (numeric_to_f64 : Num -> option spec_float) (f32_text_to_f64 : spec_float -> option spec_float)
  (uuid_text : string -> option string) (parse_inet : string -> option Z) (ymd_days : Z -> Z -> Z -> option Z)
  (from_json : Json -> OwnedValue) (bound_try_from : Elem -> option Elem) (bound_json : Elem -> OwnedValue).
Context (int_text : Z -> string) (f64_text : spec_float -> string) (date_text : Z -> string) (from_utf8 : list Z -> option string) (addr_text : Z -> string)
  (f64_text_to_f32 : spec_float -> option spec_float)
  (numeric_of_int : Z -> Num) (numeric_of_f64 : spec_float -> option Num)
  (parse_uuid : string -> option string) (inet_text : Z -> string)
  (instant : BuiltinOid -> Z -> option (Datum Num Elem)) (to_json : list (string * OwnedValue) -> option Json) (json_text : Json -> string).

Abbreviation try_from_datum := (try_from_datum cat numeric_to_f64 f32_text_to_f64 uuid_text parse_inet ymd_days from_json bound_try_from bound_json).
Abbreviation try_into_datum := (try_into_datum int_text f64_text date_text from_utf8 addr_text f64_text_to_f32 numeric_of_int numeric_of_f64 parse_uuid inet_text instant to_json json_text).

Lemma as_int_small w n : 0 < w -> - 2 ^ (w - 1) <= n < 2 ^ (w - 1) -> as_int w n = n.
Proof.
  intros Hw Hn. assert (2 ^ w = 2 * 2 ^ (w - 1)) as E by (rewrite <- Z.pow_succ_r by lia; f_equal; lia). unfold as_int, wrap.
  destruct (decide (0 <= n)); [rewrite Z.mod_small by lia; by rewrite (proj2 (Z.ltb_lt _ _)) by lia|].
  replace (n mod 2 ^ w) with (n + 2 ^ w); [rewrite (proj2 (Z.ltb_ge _ _)) by lia; lia|].
  rewrite <- (Z.mod_small (n + 2 ^ w) (2 ^ w)) by lia. by rewrite <- Zplus_mod_idemp_r, Z_mod_same_full, Z.add_0_r.
Qed.

(** The values of PostgreSQL's own numbers, booleans and texts come back as they were. *)
Definition in_range (d : Datum Num Elem) : Prop :=
  match d with
  | DInt2 n => - 2 ^ 15 <= n < 2 ^ 15
  | DInt4 n => - 2 ^ 31 <= n < 2 ^ 31
  | DInt8 n => - 2 ^ 63 <= n < 2 ^ 63
  | DOid n => 0 <= n < 2 ^ 32
  | DBool _ | DFloat8 _ | DText _ => True
  | _ => False
  end.

Theorem datum_round_trip b d v : in_range d -> try_from_datum d (BuiltIn b) tt = (Ok v, tt) -> try_into_datum v (BuiltIn b) tt = (Ok (Some d), tt).
Proof.
  intros Hr. cbn [Values.try_from_datum]. destruct d; try done; destruct b; try done; intros [= <-]; cbn [Values.try_into_datum int_try_from u32_try_from bool_try_from string_try_from];
    rewrite ?bind_ret; cbn [in_range] in Hr; try done.
  1-3: by rewrite as_int_small by lia.
  unfold u32, wrap. by rewrite Z.mod_small by lia.
Qed.

(** A value that is an array has no text: reading it back as one ends in a panic. *)
Lemma array_not_displayed l : try_into_datum (Array l) (BuiltIn TEXTOID) tt = (Panic, tt).
Proof. done. Qed.
End back.

Lemma SFcompare_antisym x y : SFcompare y x = CompOpp <$> SFcompare x y.
Proof.
  destruct x as [[]|[]| |[] m e], y as [[]|[]| |[] m' e']; cbn; try done; rewrite (Z.compare_antisym e' e); destruct (e' ?= e) eqn:Ee; cbn; try done;
    rewrite Pos.compare_cont_antisym; by destruct (Pos.compare_cont _ _ _).
Qed.

(** The order of values is one: the converse of a comparison is the comparison of the converse. *)
Lemma partial_cmp_antisym a b : partial_cmp b a = CompOpp <$> partial_cmp a b.
Proof.
  destruct a, b; cbn; try done; rewrite 1?Z.compare_antisym, 1?String.compare_antisym; try done.
  - by rewrite SFcompare_antisym.
  - by destruct b, b0.
Qed.

(** What a value of a search is coerced to is of the type of the field, and is the same number. *)
Definition int_of (v : OwnedValue) : option Z := match v with U64 n | I64 n => Some n | _ => None end.

Lemma coerced_fits t v w : try_coerce t v = Some w -> fits t w = true /\ int_of w = int_of v.
Proof. destruct t, v; cbn; try done; try (by intros [= <-]); (case_match; [done|by intros [= <-]]). Qed.

(** ** A row *)

(** A domain over [int8], [text[]], an enum and a tokenizer. *)
Definition catalog_example : Catalog :=
  mkCatalog (fun o => match o with Custom 90 => true | _ => false end) (fun o => match o with Custom 90 => BuiltIn INT8OID | o => o end)
    (fun o => match o with BuiltIn (OtherBuiltin 1009) => BuiltIn TEXTOID | _ => Invalid end) (fun o => o =? 91) (fun o => o =? 92).

Definition column_example (ty : PgOid) (inner base : PgOid) (key arr json : bool) (ft : SearchFieldType) : Column :=
  mkColumn ty (-1) inner ft (mkCategorized base key arr json).

(** A key, an array with a NULL, a JSON document that a tokenizer reads, an enum, a range and a NULL date. *)
Definition row_example : list (Column * Z * option (Datum Z Z)) :=
  [(column_example (Custom 90) (Custom 90) (BuiltIn INT8OID) true false false (SI64 (BuiltIn INT8OID)), 0, Some (DInt8 7));
   (column_example (BuiltIn (OtherBuiltin 1009)) (BuiltIn (OtherBuiltin 1009)) (BuiltIn TEXTOID) false true false (SText (BuiltIn TEXTOID)), 1,
      Some (DArray [Some (DText "a"); None; Some (DText "b")]));
   (column_example (Custom 92) (BuiltIn JSONBOID) (BuiltIn JSONBOID) false false true (STokenized (Custom 92) (-1) (BuiltIn JSONBOID)), 2,
      Some (DJsonb (JObject [("k"%string, JBool true)])));
   (column_example (Custom 91) (Custom 91) (Custom 91) false false false (SF64 (Custom 91)), 3, Some (DEnum (S754_finite false 1 0)));
   (column_example (BuiltIn INT8RANGEOID) (BuiltIn INT8RANGEOID) (BuiltIn INT8RANGEOID) false false false (SRange (BuiltIn INT8RANGEOID)), 4,
      Some (DRange INT8RANGEOID (Some (RangeField.Inclusive 1, RangeField.Infinite))));
   (column_example (BuiltIn DATEOID) (BuiltIn DATEOID) (BuiltIn DATEOID) false false false (SDate (BuiltIn DATEOID)), 5, None)].

