(* ===== verification/Writes.v ===== *)
(** * Inserting and deleting rows

    [postgres/insert.rs], [postgres/delete.rs], [postgres/vacuum.rs], the merges of
    [postgres/merge.rs] that these start, and the writer and the merger of [index/writer/index.rs].  The list of segments is the list that [LinkedItems] implements, the
    logs of mutable segments are a [LogStore], and saving a commit is the change of the list that
    [MetasProps] proves of [save_new_metas]. *)

From stdpp Require Import prelude gmap sorting strings.
From Stdlib Require Import ZArith Lia SpecFloat.
From S2P Require Import Prelude SegmentMeta MergePolicy Pages BlockList LinkedBytes LinkedItems Metas MetasProps MergeList MergeDriver Query Terms RangeField Values.
From stdpp Require Import list.
Import SegmentMeta Metas Terms Values.

Local Open Scope Z_scope.

(** ** What the code needs of others *)

(** A store of logs: a new log is empty and apart from those there are, and a log is only changed
    by adding to it. *)
Class LogStore (St E : Type) `{ItemList St E} := {
  il_create : St -> Z * St;
  il_create_new : forall st, ~ il_ok (il_create st).1 st;
  il_create_ok : forall st, il_ok (il_create st).1 (il_create st).2 /\ il_list (il_create st).1 (il_create st).2 = [];
  il_create_frame : forall st hb, il_ok hb st -> il_ok hb (il_create st).2 /\ il_list hb (il_create st).2 = il_list hb st;
  il_add_frame : forall st hb hb' es, il_ok hb st -> hb <> hb' -> il_ok hb (il_add_items hb' es st) /\ il_list hb (il_add_items hb' es st) = il_list hb st;
}.

(** tantivy's [DeleteOperation::ByAddress]. *)
Record DeleteOperation := mkDeleteOp { op_opstamp : Z; op_doc_id : Z }.

(** A document: values of fields. *)
Definition Document := list (Z * OwnedValue).

(** tantivy: the documents of a segment, the documents that a delete file marks, writing the files
    of a segment, [advance_deletes], which applies the operations below an opstamp and
    writes a new delete file if these mark more documents, and the merge of [merge_foreground],
    which writes the documents of some segments, each with those that are marked, to a new one. *)
Class Tantivy (F : Type) := {
  docs_of : F -> Z -> list Document;
  deletes_of : F -> FileEntry -> gset Z;
  mem_usage_of : list Document -> Z;
  write_segment : Z -> list Document -> F -> files_of * F;
  advance_deletes : Z -> option FileEntry -> list DeleteOperation -> Z -> F -> option (FileEntry * string) * F;
  merge_documents : Z -> list (list Document * gset Z) -> F -> option files_of * F;
}.

(** The items that are not deleted, which are numbered from [n]. *)
Fixpoint alive {A} (deleted : gset Z) (n : Z) (l : list A) : list A :=
  match l with
  | [] => []
  | x :: l => if bool_decide (n ∈ deleted) then alive deleted (n + 1) l else x :: alive deleted (n + 1) l
  end.

(** The documents that a merge keeps. *)
Definition live_docs (sources : list (list Document * gset Z)) : list Document := sources ≫= (fun s => alive s.2 0 s.1).

Module Writes.

(** The index: the list of segments, the logs, the files, the running merges with the segments
    they record, the vacuum list, the epoch of deletions, and the calls of [do_merge] that wanted
    a background merger. *)
Record Index {St F : Type} := mkIndex {
  metas : list SegmentMetaEntry;
  logs : St;
  files : F;
  merge_list : list (MergeEntry * list Z);
  vacuum_list : list Z;
  ambulkdelete_epoch : Z;
  merge_requests : list MergeDriver.MergeStyle;
}.
Arguments Index : clear implicits.
Arguments mkIndex {St F}.

(** What the backend that merges is told: its process and transaction, the block where the ids it
    records are written, whether the sentinel of [ambulkdelete] is pinned, the cleanup locks
    that are granted in a state of the index, and what a fetch from the heap finds with
    [SnapshotAny]. *)
Record Backend {St F Row : Type} := mkBackend {
  my_pid : Z;
  current_xid : Z;
  segment_ids_start_block : Z;
  is_ambulkdelete_running : bool;
  granted : Index St F -> Z -> bool;
  heap_row : Z -> option Row;
}.
Arguments Backend : clear implicits.
Arguments mkBackend {St F Row}.

(** ** The writer *)

Record IndexWriterConfig := mkConfig { memory_budget : Z; max_docs_per_segment : option Z }.

(** The documents that tantivy's [SegmentWriter] has been given, and their number. *)
Record PendingSegment := mkPending { pending_id : Z; pending_docs : list Document; opstamp : Z }.

Record SerialIndexWriter := mkWriter {
  config : IndexWriterConfig; pending_segment : option PendingSegment; new_metas : list TantivySegment }.

(** A column with its field, its place in the row, and how it is read. *)
Abbreviation CategorizedField := (Z * nat * CategorizedFieldData)%type.

Inductive InsertMode :=
| InsertImmutable (writer : SerialIndexWriter) (categorized_fields : list CategorizedField)
| InsertMutable (ctids : list Z) (key_field_attno : nat) (row_limit : Z)
| Completed.

Definition MARGIN_IN_BYTES : Z := 1000000.
Definition MEMORY_BUDGET_NUM_BYTES_MIN : Z := 15 * MARGIN_IN_BYTES.
Definition MEMORY_BUDGET_NUM_BYTES_MAX : Z := 4 * 1024 * 1024 * 1024 - MARGIN_IN_BYTES.

(** [work_mem] is in kilobytes. *)
Definition adjust_work_mem (work_mem : Z) : Z :=
  Z.max MEMORY_BUDGET_NUM_BYTES_MIN (Z.min (MEMORY_BUDGET_NUM_BYTES_MAX - 1) (work_mem * 1024)).

Section writes.
Context {St F : Type} `{LogStore St MutableSegmentEntry} `{Tantivy F}.
Context {Num Elem : Type} (cat : Catalog).
Variables (numeric_to_f64 : Num -> option spec_float) (f32_text_to_f64 : spec_float -> option spec_float)
  (uuid_text : string -> option string) (parse_inet : string -> option Z) (ymd_days : Z -> Z -> Z -> option Z)
  (from_json : Json -> OwnedValue) (bound_try_from : Elem -> option Elem) (bound_json : Elem -> OwnedValue).
(** The field of heap pointers, the columns, [work_mem], the option [mutable_segment_rows], and
    [SegmentId::generate_random]. *)
Variables (ctid_field : Z) (categorized_fields : list CategorizedField) (work_mem : Z) (rows : option Z)
  (generate_random : list Z -> Z).

Abbreviation Index := (Index St F).
Abbreviation W := (M Index unit).
Abbreviation Row := (list (option (Datum Num Elem))).

(** The options [target_segment_count], [layer_sizes] and [background_layer_sizes]. *)
Variables (target_segment_count : Z) (foreground background : list Z) (be : Backend St F Row).

Definition put_metas (es : list SegmentMetaEntry) : W unit := modify (fun ix =>
  mkIndex es (logs ix) (files ix) (merge_list ix) (vacuum_list ix) (ambulkdelete_epoch ix) (merge_requests ix)).
Definition put_logs (st : St) : W unit := modify (fun ix =>
  mkIndex (metas ix) st (files ix) (merge_list ix) (vacuum_list ix) (ambulkdelete_epoch ix) (merge_requests ix)).
Definition put_files (f : F) : W unit := modify (fun ix =>
  mkIndex (metas ix) (logs ix) f (merge_list ix) (vacuum_list ix) (ambulkdelete_epoch ix) (merge_requests ix)).

Definition put_merge_list (l : list (MergeEntry * list Z)) : W unit := modify (fun ix =>
  mkIndex (metas ix) (logs ix) (files ix) l (vacuum_list ix) (ambulkdelete_epoch ix) (merge_requests ix)).

(** An id that no segment has. *)
Definition new_id : W Z := gets (fun ix => generate_random (segment_id <$> metas ix)).

(** [update_item] of the list of segments, with a change that adds to logs; [false]: the error
    that no entry was found. *)
Fixpoint update_entry (guard : SegmentMetaEntry -> bool) (update : M (SegmentMetaEntry * St) EntryError unit) (es : list SegmentMetaEntry) (st : St)
  : option (outcome EntryError unit * list SegmentMetaEntry * St) :=
  match es with
  | [] => None
  | e :: es =>
      if guard e then let '(o, (e', st')) := update (e, st) in Some (o, e' :: es, st')
      else '(o, es', st') ← update_entry guard update es st; Some (o, e :: es', st')
  end.

Definition update_item (guard : SegmentMetaEntry -> bool) (update : M (SegmentMetaEntry * St) EntryError unit) : W bool :=
  ix ← gets id;
  match update_entry guard update (metas ix) (logs ix) with
  | None => mret false
  | Some (Ok _, es, st) => put_metas es;; put_logs st;; mret true
  | Some (_, _, st) => put_logs st;; panic
  end.

(** [Directory::save_metas] of a directory that has written these files: [save_new_metas], unless
    there are no segments. *)
Definition save_metas (new_metas previous_metas : list TantivySegment) (new_files : gmap Z files_of) : W unit :=
  if decide (new_metas = []) then mret tt else
  es ← gets metas;
  let found id := head (filter (fun e => segment_id e = id) es) in
  let modifiable id := match found id, new_files !! id with Some e, Some fs => negb (is_mutable e) && (size fs =? 1)%nat | _, _ => false end in
  let deletable id := match found id with Some e => xmax e =? InvalidTransactionId | None => false end in
  if forallb modifiable (modified_ids new_files new_metas previous_metas) && forallb deletable (deleted_ids new_metas previous_metas)
  then put_metas (saved new_metas previous_metas new_files es)
  else panic.

Definition pending_new : W PendingSegment := id ← new_id; mret (mkPending id [] 0).

Definition add_document (p : PendingSegment) (document : Document) : PendingSegment :=
  mkPending (pending_id p) (pending_docs p ++ [document]) (opstamp p + 1).

Definition pending_max_doc (p : PendingSegment) : Z := Z.of_nat (length (pending_docs p)).
Definition mem_usage (p : PendingSegment) : Z := mem_usage_of (pending_docs p).

(** The files of the segment, and its metadata. *)
Definition finalize (p : PendingSegment) : W (TantivySegment * files_of) :=
  ix ← gets id;
  let '(fs, f) := write_segment (pending_id p) (pending_docs p) (files ix) in
  put_files f;;
  mret (mkTantivy (pending_id p) (pending_max_doc p) 0, fs).

Definition commit_segment (finalized_segment : TantivySegment * files_of) (w : SerialIndexWriter) : W (TantivySegment * SerialIndexWriter) :=
  let previous_metas := new_metas w in
  let new_meta := finalized_segment.1 in
  let metas := new_metas w ++ [new_meta] in
  save_metas metas previous_metas {[t_id new_meta := finalized_segment.2]};;
  mret (new_meta, mkWriter (config w) (pending_segment w) metas).

Definition finalize_segment (w : SerialIndexWriter) : W (option TantivySegment * SerialIndexWriter) :=
  match pending_segment w with
  | None => mret (None, w)
  | Some p =>
      finalized_segment ← finalize p;
      '(m, w) ← commit_segment finalized_segment (mkWriter (config w) None (new_metas w));
      mret (Some m, w)
  end.

Definition with_mvcc (c : IndexWriterConfig) : SerialIndexWriter := mkWriter c None [].

(** [SerialIndexWriter::insert] *)
Definition writer_insert (document : Document) (ctid : Z) (w : SerialIndexWriter) : W (option TantivySegment * SerialIndexWriter) :=
  let document := document ++ [(ctid_field, U64 ctid)] in
  p ← (match pending_segment w with Some p => mret p | None => pending_new end);
  let p := add_document p document in
  let w := mkWriter (config w) (Some p) (new_metas w) in
  if memory_budget (config w) <=? mem_usage p then finalize_segment w
  else match max_docs_per_segment (config w) with
       | Some n => if n <=? pending_max_doc p then finalize_segment w else mret (None, w)
       | None => mret (None, w)
       end.

Definition writer_commit (w : SerialIndexWriter) : W (option TantivySegment) := '(m, _) ← finalize_segment w; mret m.

(** ** Reading *)

(** [FFType::as_u64] of the field of heap pointers: its first value. *)
Definition as_u64 (d : Document) : option Z :=
  head (omap (fun '(f, v) => if f =? ctid_field then match v with U64 n => Some n | _ => None end else None) d).

(** The heap pointers of the documents of a segment, deleted ones included; a mutable segment is
    made of the rows of its snapshot. *)
Definition segment_ctids (ix : Index) (e : SegmentMetaEntry) : outcome EntryError (list Z) :=
  match content e with
  | Mutable _ => mutable_snapshot e (logs ix)
  | Immutable _ => match mapM as_u64 (docs_of (files ix) (segment_id e)) with Some l => Ok l | None => Panic end
  end.

Definition segment_deletes (ix : Index) (e : SegmentMetaEntry) : gset Z :=
  match content e with
  | Immutable c => match delete c with Some d => deletes_of (files ix) (file_entry_of d) | None => ∅ end
  | Mutable _ => ∅
  end.

Definition live_ctids (ix : Index) (e : SegmentMetaEntry) : option (list Z) :=
  match segment_ctids ix e with Ok l => Some (alive (segment_deletes ix e) 0 l) | _ => None end.

(** The rows that a search with a new snapshot can find; [None]: a reader would panic. *)
Definition contents (ix : Index) : option (list Z) :=
  (fun l => concat l) <$> mapM (live_ctids ix) (filter (fun e => satisfies rows Snapshot e = true) (metas ix)).

(** ** Merging *)

(** The value of a column, [None] when it is NULL; a row has one for each column. *)
Definition column (row : Row) (attno : nat) : option (Datum Num Elem) := mjoin (row !! attno).

Definition to_document (row : Row) (fields : list CategorizedField) : M unit ValueError Document :=
  row_to_search_document cat numeric_to_f64 f32_text_to_f64 uuid_text parse_inet ymd_days from_json bound_try_from bound_json
    ((fun '(field, attno, c) => (column row attno, field, c)) <$> fields).

Definition tantivy_meta (e : SegmentMetaEntry) : TantivySegment :=
  let m := as_tantivy e in mkTantivy (inner_segment_id m) (inner_max_doc m) (default 0 (inner_deletes m)).

(** The document of a row of a mutable segment; it has only the heap pointer if the row is no
    longer in the heap, and a row that cannot be converted panics. *)
Definition index_row (ctid : Z) : option Document :=
  match heap_row be ctid with
  | Some row => match (to_document row categorized_fields tt).1 with Ok doc => Some (doc ++ [(ctid_field, U64 ctid)]) | _ => None end
  | None => Some [(ctid_field, U64 ctid)]
  end.

Definition index_memory_segment (ix : Index) (e : SegmentMetaEntry) : option (list Document) :=
  match mutable_snapshot e (logs ix) with Ok ctids => mapM index_row ctids | _ => None end.

(** The documents of a segment, as the directory of a merger gives them. *)
Definition segment_docs (ix : Index) (e : SegmentMetaEntry) : option (list Document * gset Z) :=
  docs ← (if is_mutable e then index_memory_segment ix e else Some (docs_of (files ix) (segment_id e)));
  Some (docs, segment_deletes ix e).

(** [Mergeable::merge_segments].  The merger has [loaded] these entries; tantivy saves them without
    the segments that are merged and with the new one, if that has documents. *)
Definition merge_segments (loaded : list SegmentMetaEntry) (segment_ids : list Z) : W unit :=
  ix ← gets id;
  entries ← unwrap (mapM (fun i => head (filter (fun e => segment_id e = i) loaded)) segment_ids);
  sources ← unwrap (mapM (segment_docs ix) entries);
  let new_id := generate_random ((segment_id <$> metas ix) ++ (segment_id <$> loaded)) in
  let '(new_files, f) := merge_documents new_id sources (files ix) in
  put_files f;;
  let previous_metas := tantivy_meta <$> loaded in
  let kept := filter (fun m => t_id m ∉ segment_ids) previous_metas in
  match new_files with
  | Some fs => save_metas (kept ++ [mkTantivy new_id (Z.of_nat (length (live_docs sources))) 0]) previous_metas {[new_id := fs]}
  | None => save_metas kept previous_metas ∅
  end.

(** What [garbage_collect_index] does to the list of segments. *)
Definition garbage_collect_index : W unit :=
  ix ← gets id;
  if forallb (MergeDriver.testable (granted be ix)) (metas ix)
  then put_metas (filter (fun e => MergeDriver.goes (granted be ix) e = false) (metas ix))
  else panic.

(** [VacuumList::read_list] *)
Definition read_list (ix : Index) : gset Z := if is_ambulkdelete_running be then list_to_set (vacuum_list ix) else ∅.

(** [MvccSatisfies::Mergeable] *)
Definition mergeable_entries (ix : Index) : list SegmentMetaEntry := filter (fun e => satisfies rows Mergeable e = true) (metas ix).

(** The policy over the segments that are in neither list. *)
Definition run_policy (layer_sizes : list Z) (loaded : list SegmentMetaEntry) : W (list (list Z) * MergePolicy.LayeredMergePolicy) :=
  ix ← gets id;
  let policy := MergePolicy.set_mergeable_segment_entries (MergePolicy.new layer_sizes) (read_list ix)
                  (list_to_set (merge_list ix ≫= snd)) ((fun e => (segment_id e, e)) <$> loaded) in
  match MergePolicy.simulate policy with
  | (Ok candidates, policy) => mret (candidates, policy)
  | _ => panic
  end.

(** The candidates one after the other; a segment is merged once by a merger. *)
Fixpoint merge_loop (gc_after_merge : bool) (loaded : list SegmentMetaEntry) (merged_segment_ids : gset Z) (candidates : list (list Z)) : W unit :=
  match candidates with
  | [] => mret tt
  | candidate :: candidates =>
      (if forallb (fun i => bool_decide (i ∉ merged_segment_ids)) candidate then mret tt else panic);;
      merge_segments loaded candidate;;
      (if gc_after_merge then garbage_collect_index else mret tt);;
      merge_loop gc_after_merge loaded (merged_segment_ids ∪ list_to_set candidate) candidates
  end.

(** [MergeList::add_segment_ids] and [MergeList::remove_entry]; [None]: there is no such entry. *)
Definition add_segment_ids (ids : list Z) : W MergeEntry :=
  let merge_entry := mkMergeEntry (my_pid be) (u32 (current_xid be)) InvalidTransactionId (segment_ids_start_block be) in
  ix ← gets id;
  put_merge_list (merge_list ix ++ [(merge_entry, ids)]);; mret merge_entry.

Fixpoint without_entry (merge_entry : MergeEntry) (l : list (MergeEntry * list Z)) : option (list (MergeEntry * list Z)) :=
  match l with
  | [] => None
  | m :: l => if decide (m.1 = merge_entry) then Some l else cons m <$> without_entry merge_entry l
  end.

Definition remove_entry (merge_entry : MergeEntry) : W unit :=
  ix ← gets id;
  l ← unwrap (without_entry merge_entry (merge_list ix));
  put_merge_list l.

(** [merge_index], with a tantivy that can merge: [MergeDriver] has the failures and the interrupts. *)
Definition merge_index (layer_sizes : list Z) (gc_after_merge : bool) : W unit :=
  loaded ← gets mergeable_entries;
  '(merge_candidates, policy) ← run_policy layer_sizes loaded;
  if decide (merge_candidates = []) then mret tt
  else
    merge_entry ← add_segment_ids (MergePolicy.mergeable_segments policy).*1;
    merge_loop gc_after_merge loaded ∅ merge_candidates;;
    remove_entry merge_entry;;
    if gc_after_merge then mret tt else garbage_collect_index.

Definition index_layer_sizes : W MergeDriver.IndexLayerSizes :=
  ix ← gets id;
  unwrap (MergeDriver.index_layer_sizes target_segment_count foreground background (metas ix)).

Definition needs_background_merge (sizes : MergeDriver.IndexLayerSizes) : W bool :=
  ix ← gets id;
  if MergeDriver.user_configured_bg_layers sizes && bool_decide (merge_list ix = []) then
    '(merge_candidates, _) ← run_policy (MergeDriver.combined sizes) (mergeable_entries ix);
    mret (negb (bool_decide (merge_candidates = [])))
  else mret false.

(** A background merger is asked for ([BgMerger] has how it starts), or the foreground layers are
    merged. *)
Definition do_merge (style : MergeDriver.MergeStyle) : W unit :=
  sizes ← index_layer_sizes;
  background_merge ← needs_background_merge sizes;
  if background_merge : bool then modify (fun ix =>
    mkIndex (metas ix) (logs ix) (files ix) (merge_list ix) (vacuum_list ix) (ambulkdelete_epoch ix) (merge_requests ix ++ [style]))
  else if bool_decide (style = MergeDriver.Insert) && negb (bool_decide (MergeDriver.foreground_layer_sizes sizes = []))
  then merge_index (MergeDriver.foreground_layer_sizes sizes) false
  else mret tt.

(** The background worker. *)
Definition background_merge : W unit :=
  sizes ← index_layer_sizes;
  merge_index (MergeDriver.combined sizes) true.

(** ** Inserting *)

Definition insert_mode_immutable_new : InsertMode :=
  InsertImmutable (with_mvcc (mkConfig (adjust_work_mem work_mem) None)) categorized_fields.

(** [InsertState::new] *)
Definition insert_state_new : W InsertMode :=
  match rows with
  | Some row_limit =>
      '(_, attno, _) ← unwrap (snd <$> list_find (fun c : CategorizedField => is_key_field c.2 = true) categorized_fields);
      mret (InsertMutable [] attno row_limit)
  | None => mret insert_mode_immutable_new
  end.

Definition insertcleanup_immutable (w : SerialIndexWriter) : W bool := writer_commit w;; mret true.

(** [SegmentMetaEntryMutable::create] *)
Definition create_mutable : W SegmentMetaEntryMutable :=
  ix ← gets id;
  let '(hb, st) := il_create (logs ix) in
  put_logs st;; mret (mkMutable hb 0 false).

Definition insertcleanup_mutable (ctids : list Z) : W bool :=
  let entries := Add <$> ctids in
  inserted ← update_item (fun e => match content e with Mutable c => negb (frozen c) | _ => false end) (mutable_add_items rows entries);
  if inserted : bool then mret false
  else
    c ← create_mutable;
    ix ← gets id;
    put_logs (il_add_items (header_block c) entries (logs ix));;
    id ← new_id;
    n ← unwrap (len_u32 entries);
    es ← gets metas;
    put_metas (es ++ [new_mutable id n InvalidTransactionId c]);;
    mret true.

Definition insertcleanup (mode : InsertMode) : W unit :=
  created_segment ← (match mode with
                     | InsertImmutable w _ => insertcleanup_immutable w
                     | InsertMutable ctids _ _ => insertcleanup_mutable ctids
                     | Completed => panic
                     end);
  if created_segment : bool then do_merge MergeDriver.Insert else mret tt.

(** The branch of [insert] for a writer; a row that cannot be converted panics. *)
Definition insert_immutable (row : Row) (ctid : Z) (w : SerialIndexWriter) (fields : list CategorizedField) : W InsertMode :=
  match (to_document row fields tt).1 with
  | Ok search_document => '(_, w) ← writer_insert search_document ctid w; mret (InsertImmutable w fields)
  | _ => panic
  end.

Definition insert (row : Row) (ctid : Z) (mode : InsertMode) : W InsertMode :=
  match mode with
  | InsertImmutable w fields => insert_immutable row ctid w fields
  | InsertMutable ctids key_field_attno row_limit =>
      match column row key_field_attno with
      | None => panic
      | Some _ =>
          if Z.of_nat (length ctids) <? row_limit then mret (InsertMutable (ctids ++ [ctid]) key_field_attno row_limit)
          else
            let new_mode := insert_mode_immutable_new in
            insertcleanup mode;;
            match new_mode with InsertImmutable w fields => insert_immutable row ctid w fields | _ => panic end
      end
  | Completed => panic
  end.

(** The calls of [aminsert] of one statement. *)
Fixpoint aminsert (input : list (Row * Z)) (mode : InsertMode) : W InsertMode :=
  match input with
  | [] => mret mode
  | (row, ctid) :: input => mode ← insert row ctid mode; aminsert input mode
  end.

(** A statement: the state is made by the first row, and [aminsertcleanup] ends it. *)
Definition insert_statement (input : list (Row * Z)) : W unit :=
  match input with
  | [] => mret tt
  | _ => mode ← insert_state_new; mode ← aminsert input mode; insertcleanup mode
  end.

(** ** Deleting *)

Inductive SegmentDeleter :=
| DeleterImmutable (delete_queue : list DeleteOperation) (segment_entry : SegmentMetaEntry) (opstamp : Z)
| DeleterMutable (id : Z) (deleted_ctids : list Z).

(** [SegmentDeleter::open]; an entry has no opstamp of its own. *)
Definition deleter_open (e : SegmentMetaEntry) : SegmentDeleter :=
  if is_mutable e then DeleterMutable (segment_id e) [] else DeleterImmutable [] e 0.

Definition delete_document (ctid doc_id : Z) (d : SegmentDeleter) : SegmentDeleter :=
  match d with
  | DeleterImmutable queue e opstamp => DeleterImmutable (queue ++ [mkDeleteOp (opstamp + 1) doc_id]) e (opstamp + 1)
  | DeleterMutable id ctids => DeleterMutable id (ctids ++ [ctid])
  end.

(** The metadata before and after, with the new delete file. *)
Definition deleter_commit (d : SegmentDeleter) : W (option (TantivySegment * TantivySegment * option (FileEntry * string))) :=
  match d with
  | DeleterImmutable queue e opstamp =>
      ix ← gets id;
      let old_file := match content e with Immutable c => file_entry_of <$> delete c | Mutable _ => None end in
      let '(new_file, f) := advance_deletes (segment_id e) old_file queue (opstamp + 1) (files ix) in
      put_files f;;
      let old_meta := tantivy_meta e in
      let deleted := match new_file with Some nf => Z.of_nat (size (deletes_of f nf.1)) | None => t_num_deleted_docs old_meta end in
      mret (Some (old_meta, mkTantivy (t_id old_meta) (t_max_doc old_meta) deleted, new_file))
  | DeleterMutable id ctids =>
      b ← update_item (fun e => (segment_id e =? id) && is_mutable e) (mutable_delete_items ctids);
      if b : bool then mret None else panic
  end.

(** The loop over the documents of a segment. *)
Fixpoint delete_docs (callback : Z -> bool) (ctids : list Z) (doc_id : Z) (d : SegmentDeleter) (needs_commit : bool) : SegmentDeleter * bool :=
  match ctids with
  | [] => (d, needs_commit)
  | ctid :: ctids =>
      if callback ctid then delete_docs callback ctids (doc_id + 1) (delete_document ctid doc_id d) true
      else delete_docs callback ctids (doc_id + 1) d needs_commit
  end.

(** The loop over the segments of the reader, each with its heap pointers; what has changed. *)
Fixpoint delete_segments (callback : Z -> bool) (writer_segment_ids : list Z) (searchable_segment_metas : list SegmentMetaEntry)
    (readers : list (Z * list Z)) : W (list (TantivySegment * TantivySegment * option (FileEntry * string))) :=
  match readers with
  | [] => mret []
  | (segment_id', ctids) :: readers =>
      if bool_decide (segment_id' ∈ writer_segment_ids) then
        segment_meta ← unwrap (head (filter (fun e => segment_id e = segment_id') searchable_segment_metas));
        let '(deleter, needs_commit) := delete_docs callback ctids 0 (deleter_open segment_meta) false in
        change ← (if needs_commit : bool then deleter_commit deleter else mret None);
        rest ← delete_segments callback writer_segment_ids searchable_segment_metas readers;
        mret (option_list change ++ rest)
      else delete_segments callback writer_segment_ids searchable_segment_metas readers
  end.

(** The directory has written the delete files of this call. *)
Definition save_delete_metas (changes : list (TantivySegment * TantivySegment * option (FileEntry * string))) : W unit :=
  save_metas ((fun c => c.1.2) <$> changes) ((fun c => c.1.1) <$> changes)
    (list_to_map (omap (fun c => (fun f => (t_id c.1.2, {[Delete := f]})) <$> c.2) changes)).

(** The segments of a reader. *)
Definition open_reader (style : MvccSatisfies) : W (list (Z * list Z)) :=
  ix ← gets id;
  unwrap (mapM (fun e => match segment_ctids ix e with Ok l => Some (segment_id e, l) | _ => None end)
    (filter (fun e => satisfies rows style e = true) (metas ix))).

(** [in_progress]: PostgreSQL's [TransactionIdIsInProgress]. *)
Definition ambulkdelete (in_progress : Z -> bool) (callback : Z -> bool) : W unit :=
  modify (fun ix => mkIndex (metas ix) (logs ix) (files ix) (filter (fun m => MergeList.recyclable in_progress m.1 = false) (merge_list ix))
    (vacuum_list ix) (ambulkdelete_epoch ix) (merge_requests ix));;
  ix ← gets id;
  match merge_list ix with
  | _ :: _ => panic
  | [] =>
      reader ← open_reader Vacuum;
      let writer_segment_ids := reader.*1 in
      modify (fun ix => mkIndex (metas ix) (logs ix) (files ix) (merge_list ix) (merge_sort Z.le writer_segment_ids) (ambulkdelete_epoch ix) (merge_requests ix));;
      searchable_segment_metas ← gets (fun ix => filter (fun e => satisfies rows Vacuum e = true) (metas ix));
      changes ← delete_segments callback writer_segment_ids searchable_segment_metas reader;
      match changes with
      | [] => mret tt
      | _ =>
          save_delete_metas changes;;
          modify (fun ix => mkIndex (metas ix) (logs ix) (files ix) (merge_list ix) (vacuum_list ix) (u32 (ambulkdelete_epoch ix + 1)) (merge_requests ix))
      end
  end.

Definition amvacuumcleanup : W unit := do_merge MergeDriver.Vacuum.

End writes.

End Writes.
