(* ===== verification/WritesProps.v ===== *)
(** * What inserting and merging do to the rows of an index

    A statement adds the rows it inserts, and a merge moves rows to other segments; both keep the
    invariant of an index. *)

From stdpp Require Import prelude gmap sorting strings.
From Stdlib Require Import ZArith Lia SpecFloat.
From S2P Require Import Prelude SegmentMeta SegmentMetaProps MergePolicy Pages BlockList LinkedBytes LinkedItems Metas MetasProps MergeList MergeDriver MergeDriverProps Query Terms RangeField Values Writes.
From stdpp Require Import list.
Import SegmentMeta Metas Terms Values Writes.

Local Open Scope Z_scope.

(** What tantivy documents: segments and delete files are never changed once they are written, and
    a new delete file marks the documents of the old one and those of the operations below the
    opstamp.  A merge writes the documents that are not marked to a new segment, if there are any;
    a segment has postings. *)
Class TantivyFiles (F : Type) `{Tantivy F} := {
  file_known : F -> FileEntry -> Prop;
  write_docs : forall id docs f, docs_of (write_segment id docs f).2 id = docs;
  write_other : forall id docs f id', id' <> id -> docs_of (write_segment id docs f).2 id' = docs_of f id';
  write_known : forall id docs f x, file_known f x -> file_known (write_segment id docs f).2 x /\ deletes_of (write_segment id docs f).2 x = deletes_of f x;
  write_no_deletes : forall id docs f, (write_segment id docs f).1 !! Delete = None;
  advance_docs : forall id old ops t f id', docs_of (advance_deletes id old ops t f).2 id' = docs_of f id';
  advance_known : forall id old ops t f x, file_known f x ->
    file_known (advance_deletes id old ops t f).2 x /\ deletes_of (advance_deletes id old ops t f).2 x = deletes_of f x;
  advance_new : forall id old ops t f x p f', advance_deletes id old ops t f = (Some (x, p), f') -> file_known f' x /\
    forall d, d ∈ deletes_of f' x <-> d ∈ from_option (deletes_of f) ∅ old \/ exists o, o ∈ ops /\ op_opstamp o < t /\ op_doc_id o = d;
  advance_none : forall id old ops t f f', advance_deletes id old ops t f = (None, f') ->
    forall o, o ∈ ops -> op_opstamp o < t -> op_doc_id o ∈ from_option (deletes_of f) ∅ old;
  write_postings : forall id docs (f : F), is_Some ((write_segment id docs f).1 !! Postings);
  merge_none : forall id sources (f : F), live_docs sources = [] -> (merge_documents id sources f).1 = None;
  merge_some : forall id sources (f : F), live_docs sources <> [] ->
    (exists fs, (merge_documents id sources f).1 = Some fs /\ fs !! Delete = None /\ is_Some (fs !! Postings)) /\
    docs_of (merge_documents id sources f).2 id = live_docs sources;
  merge_other : forall id sources f id', id' <> id -> docs_of (merge_documents id sources f).2 id' = docs_of f id';
  merge_known : forall id sources f x, file_known f x ->
    file_known (merge_documents id sources f).2 x /\ deletes_of (merge_documents id sources f).2 x = deletes_of f x;
}.

(** ** Lists of documents *)

Lemma alive_in {A} D n (l : list A) x : x ∈ alive D n l -> x ∈ l.
Proof.
  revert n. induction l as [|y l IH]; intros n; cbn [alive]; [done|]. case_bool_decide.
  - intros Hx. right. by apply (IH _ Hx).
  - intros [->|Hx]%elem_of_cons; [left|right; by apply (IH _ Hx)].
Qed.

(** Marking the dead documents removes their rows. *)
Lemma alive_filter (dead : Z -> bool) D D' n l :
  (forall i x, l !! i = Some x -> n + Z.of_nat i ∈ D' <-> n + Z.of_nat i ∈ D \/ dead x = true) ->
  alive D' n l = filter (fun x => dead x = false) (alive D n l).
Proof.
  revert n. induction l as [|x l IH]; intros n Hd; [done|]. cbn [alive]. pose proof (Hd O x eq_refl) as H0. rewrite Z.add_0_r in H0.
  assert (alive D' (n + 1) l = filter (fun x => dead x = false) (alive D (n + 1) l)) as ->.
  { apply IH. intros i y Hi. specialize (Hd (S i) y Hi). by replace (n + 1 + Z.of_nat i) with (n + Z.of_nat (S i)) by lia. }
  destruct (bool_decide_reflect (n ∈ D)).
  - rewrite bool_decide_true by tauto. done.
  - rewrite filter_cons. destruct (dead x) eqn:Ex.
    + rewrite bool_decide_true by tauto. by rewrite decide_False.
    + rewrite bool_decide_false by (intros [|]%H0; done). by rewrite decide_True.
Qed.

(** A log after additions and removals. *)
Lemma log_ok_app s log log' : log_ok s (log ++ log') <-> log_ok s log /\ log_ok (foldl apply_entry s log) log'.
Proof. revert s. induction log as [|x log IH]; intros s; cbn [app log_ok foldl]; [tauto|]. rewrite IH. tauto. Qed.

Lemma adds_log_ok s cs : NoDup cs -> (forall c, c ∈ cs -> c ∉ s) -> log_ok s (Add <$> cs) /\ foldl apply_entry s (Add <$> cs) = list_to_set cs ∪ s.
Proof.
  revert s. induction cs as [|c cs IH]; intros s; [intros _ _; split; [done|cbn; set_solver]|]. intros [Hc Hnd]%NoDup_cons Hs. rewrite fmap_cons. cbn [log_ok foldl apply_entry].
  destruct (IH ({[c]} ∪ s) Hnd) as [Hl Hf]; [intros c' Hc'; specialize (Hs c' ltac:(by right)); set_solver|]. split; [split; [apply Hs; left|done]|]. rewrite Hf. set_solver.
Qed.

Lemma removes_log_ok s cs : NoDup cs -> (forall c, c ∈ cs -> c ∈ s) -> log_ok s (Remove <$> cs) /\ foldl apply_entry s (Remove <$> cs) = s ∖ list_to_set cs.
Proof.
  revert s. induction cs as [|c cs IH]; intros s; [intros _ _; split; [done|cbn; set_solver]|]. intros [Hc Hnd]%NoDup_cons Hs. rewrite fmap_cons. cbn [log_ok foldl apply_entry].
  destruct (IH (s ∖ {[c]}) Hnd) as [Hl Hf]; [intros c' Hc'; specialize (Hs c' ltac:(by right)); set_solver|]. split; [split; [apply Hs; left|done]|]. rewrite Hf. set_solver.
Qed.

(** The rows of a log. *)
Definition log_rows (log : list MutableSegmentEntry) : list Z := merge_sort Z.le (elements (replay log)).

Lemma log_rows_elements log : log_rows log ≡ₚ elements (replay log).
Proof. apply merge_sort_Permutation. Qed.

Lemma log_rows_nodup log : NoDup (log_rows log).
Proof. rewrite log_rows_elements. apply NoDup_elements. Qed.

Lemma log_rows_elem log c : c ∈ log_rows log <-> c ∈ replay log.
Proof. rewrite log_rows_elements. apply elem_of_elements. Qed.

Lemma log_rows_add log cs : log_ok ∅ log -> NoDup cs -> (forall c, c ∈ cs -> c ∉ log_rows log) ->
  log_ok ∅ (log ++ (Add <$> cs)) /\ log_rows (log ++ (Add <$> cs)) ≡ₚ log_rows log ++ cs.
Proof.
  intros Hl Hnd Hn. destruct (adds_log_ok (replay log) cs Hnd) as [Ha Hr]; [intros c Hc; rewrite <- log_rows_elem; by apply Hn|]. split; [by apply log_ok_app|].
  apply NoDup_Permutation; [apply log_rows_nodup|apply NoDup_app; split_and!; [apply log_rows_nodup|set_solver|done]|].
  intros c. rewrite elem_of_app, !log_rows_elem. unfold replay. rewrite foldl_app. fold (replay log). rewrite Hr. set_solver.
Qed.

Lemma log_rows_remove log (dead : Z -> bool) : log_ok ∅ log ->
  log_ok ∅ (log ++ (Remove <$> filter (fun c => dead c = true) (log_rows log))) /\
  log_rows (log ++ (Remove <$> filter (fun c => dead c = true) (log_rows log))) ≡ₚ filter (fun c => dead c = false) (log_rows log).
Proof.
  intros Hl. set (cs := filter _ _). destruct (removes_log_ok (replay log) cs) as [Ha Hr]; [apply NoDup_filter, log_rows_nodup|intros c [_ Hc]%list_elem_of_filter; by apply log_rows_elem|]. split; [by apply log_ok_app|].
  apply NoDup_Permutation; [apply log_rows_nodup|apply NoDup_filter, log_rows_nodup|].
  intros c. rewrite list_elem_of_filter, !log_rows_elem. unfold replay. rewrite foldl_app. fold (replay log). rewrite Hr.
  unfold cs. rewrite elem_of_difference, elem_of_list_to_set, list_elem_of_filter, log_rows_elem. destruct (dead c); naive_solver.
Qed.

(** ** The list of merges *)

Section keeps.
Context {St F : Type}.
Abbreviation Index := (Index St F).

(** The same merges are recorded. *)
Definition same_merges (ix ix' : Index) : Prop := (merge_list ix').*1 ≡ₚ (merge_list ix).*1.

(** A computation that leaves the record of merges as it was, if it returns. *)
Definition keeps {A} (c : M Index unit A) : Prop := forall ix a ix', c ix = (Ok a, ix') -> same_merges ix ix'.

Lemma keeps_bind {A B} (c : M Index unit A) (f : A -> M Index unit B) : keeps c -> (forall a, keeps (f a)) -> keeps (c ≫= f).
Proof.
  intros Hc Hf ix b ix' Hrun. unfold mbind, M_bind in Hrun. destruct (c ix) as [[a| | |] ix1] eqn:Ec; [|done..]. specialize (Hc _ _ _ Ec). specialize (Hf _ _ _ _ Hrun). unfold same_merges in *. by rewrite Hf.
Qed.

Lemma keeps_mwp {A} (c : M Index unit A) ix Q : keeps c -> mwp (fun _ => False) c ix Q -> mwp (fun _ => False) c ix (fun a ix' => Q a ix' /\ same_merges ix ix').
Proof. intros Hk. specialize (Hk ix). unfold mwp. destruct (c ix) as [[] ?]; [|done..]. intros HQ. split; [done|by eapply Hk]. Qed.

Lemma keeps_ret {A} (a : A) : keeps (mret a : M Index unit A).
Proof. intros ix b ix' Hr. injection Hr as <- <-. by unfold same_merges. Qed.

Lemma keeps_panic {A} : keeps (panic : M Index unit A).
Proof. done. Qed.

Lemma keeps_gets {A} (f : Index -> A) : keeps (gets f : M Index unit A).
Proof. intros ix b ix' Hr. injection Hr as <- <-. by unfold same_merges. Qed.

Lemma keeps_modify (f : Index -> Index) : (forall ix, merge_list (f ix) = merge_list ix) -> keeps (modify f : M Index unit unit).
Proof. intros Hf ix b ix' Hr. injection Hr as <- <-. unfold same_merges. by rewrite Hf. Qed.

Lemma keeps_unwrap {A} (o : option A) : keeps (unwrap o : M Index unit A).
Proof. destruct o; [apply keeps_ret|apply keeps_panic]. Qed.
End keeps.

Create HintDb keeps.
#[export] Hint Resolve keeps_ret keeps_panic keeps_gets keeps_unwrap : keeps.

Ltac keep := repeat first [ solve [auto with keeps nocore] | apply keeps_modify; intros; reflexivity | apply keeps_bind; [|intros ?] | progress cbv zeta | case_match ].

Section keeping.
Context {St F : Type} `{LogStore St MutableSegmentEntry} `{Tantivy F}.
Abbreviation Index := (Index St F).

Lemma keeps_update_item guard update : keeps (update_item guard update : M Index unit bool).
Proof. unfold update_item. keep. Qed.
#[local] Hint Resolve keeps_update_item : keeps.

Lemma keeps_deleter_commit d : keeps (deleter_commit d : M Index unit _).
Proof. destruct d; cbn [deleter_commit]; keep. Qed.
#[local] Hint Resolve keeps_deleter_commit : keeps.

Lemma keeps_delete_segments cb ids es readers : keeps (delete_segments cb ids es readers : M Index unit _).
Proof. induction readers as [|[id ctids] readers IH]; cbn [delete_segments]; keep. Qed.

Lemma keeps_save_metas new prev nf : keeps (save_metas new prev nf : M Index unit _).
Proof. unfold save_metas. keep. Qed.
End keeping.
#[export] Hint Resolve keeps_update_item keeps_deleter_commit keeps_save_metas : keeps.

(** ** Indexes *)

Section index.
Context {St F : Type} `{LogStore St MutableSegmentEntry} `{TantivyFiles F} (ctid_field : Z) (rows : option Z).
Abbreviation Index := (Index St F).
Implicit Types (ix : Index) (e : SegmentMetaEntry) (n : Z).

Definition log_of ix e : list MutableSegmentEntry := match content e with Mutable c => il_list (header_block c) (logs ix) | Immutable _ => [] end.
Definition ctids_of ix e : list Z := omap (as_u64 ctid_field) (docs_of (files ix) (segment_id e)).

(** The rows of a segment. *)
Definition rows_of ix e : list Z :=
  match content e with Mutable _ => log_rows (log_of ix e) | Immutable _ => alive (segment_deletes ix e) 0 (ctids_of ix e) end.

(** A segment that can be read: the entry of a mutable one fits its log, to which at most [n] rows
    have been added; the documents of an immutable one have heap pointers, and are as many as it
    says. *)
Definition entry_ok n ix e : Prop :=
  match content e with
  | Mutable c => seg_inv (header_block c) (e, logs ix) /\ log_ok ∅ (log_of ix e) /\ adds (log_of ix e) <= n
  | Immutable c => Forall (fun d => is_Some (as_u64 ctid_field d)) (docs_of (files ix) (segment_id e)) /\
      (forall d, delete c = Some d -> file_known (files ix) (file_entry_of d)) /\
      max_doc e = Z.of_nat (length (docs_of (files ix) (segment_id e)))
  end.

Definition header_of e : option Z := match content e with Mutable c => Some (header_block c) | Immutable _ => None end.
Definition unfrozen e : bool := match content e with Mutable c => negb (frozen c) | Immutable _ => false end.

Definition visible_metas ix : list SegmentMetaEntry := filter (fun e => visible e = true) (metas ix).

(** The documents of these segments, deleted ones included. *)
Definition docs_in (es : list SegmentMetaEntry) : Z := foldr (fun e k => max_doc e + k) 0 es.

Lemma docs_in_app es es' : docs_in (es ++ es') = docs_in es + docs_in es'.
Proof. induction es as [|e es IH]; [done|]. cbn [app docs_in foldr]. fold (docs_in es) (docs_in (es ++ es')). lia. Qed.

#[local] Instance docs_in_Proper : Proper ((≡ₚ) ==> eq) docs_in.
Proof. induction 1 as [|e l l' _ IH|e e' l|]; unfold docs_in in *; cbn [foldr]; lia. Qed.

(** While rows go to mutable segments, one that still takes rows is not one that has been merged
    away.  The segments have at most [n] documents, and each has one and a file. *)
Record index_ok n ix : Prop := {
  ok_entries : forall e, e ∈ metas ix -> visible e = true -> entry_ok n ix e;
  ok_ids : NoDup (filter (fun id => id <> 0) (segment_id <$> metas ix));
  ok_nonzero : forall e, e ∈ metas ix -> visible e = true -> segment_id e <> 0;
  ok_headers : NoDup (omap header_of (visible_metas ix));
  ok_xmax : forall e, e ∈ metas ix -> visible e = true -> xmax e = InvalidTransactionId;
  ok_unfrozen : rows <> None -> forall e, e ∈ metas ix -> unfrozen e = true -> visible e = true;
  ok_docs : forall e, e ∈ metas ix -> visible e = true -> 0 < max_doc e;
  ok_total : docs_in (visible_metas ix) <= n;
  ok_files : forall e, e ∈ metas ix -> has_files e;
}.

Definition all_rows ix : list Z := visible_metas ix ≫= rows_of ix.

Lemma log_length log : log_ok ∅ log -> Z.of_nat (length log) <= 2 * adds log.
Proof. intros Hl. pose proof (log_ok_size ∅ log Hl) as Hs. rewrite size_empty in Hs. pose proof (adds_removes log). lia. Qed.

Lemma mapM_omap {A B} (f : A -> option B) l : Forall (fun x => is_Some (f x)) l -> mapM f l = Some (omap f l).
Proof. induction 1 as [|x l [y Hy] _ IH]; [done|]. cbn. rewrite Hy. cbn. by rewrite IH. Qed.

Lemma segment_ctids_ok n ix e : entry_ok n ix e -> n < 2 ^ 31 ->
  segment_ctids ctid_field ix e = Ok (if is_mutable e then rows_of ix e else ctids_of ix e).
Proof.
  unfold entry_ok, segment_ctids, rows_of, log_of, is_mutable. destruct (content e) as [c|c] eqn:Ec.
  - intros [Hd _] _. unfold ctids_of. by rewrite mapM_omap.
  - intros (Hs & Hl & Ha) Hn. pose proof (log_length _ Hl). by rewrite (snapshot_replay _ _ _ (logs ix) [] Hs) by (rewrite ?app_nil_r; done || lia).
Qed.

Lemma live_rows n ix e : entry_ok n ix e -> n < 2 ^ 31 -> live_ctids ctid_field ix e = Some (rows_of ix e).
Proof.
  intros He Hn. unfold live_ctids. rewrite (segment_ctids_ok n) by done. unfold is_mutable, rows_of, segment_deletes. destruct (content e) as [c|c]; [done|]. f_equal.
  generalize 0. induction (log_rows (log_of ix e)) as [|x l IH]; intros z; [done|]. cbn [alive]. rewrite bool_decide_false by set_solver. by rewrite IH.
Qed.

Lemma contents_rows n ix : index_ok n ix -> n < 2 ^ 31 -> contents ctid_field rows ix = Some (all_rows ix).
Proof.
  intros Hok Hn. unfold contents, all_rows. change (filter (fun e => satisfies rows Snapshot e = true) (metas ix)) with (visible_metas ix).
  assert (Forall (fun e => entry_ok n ix e) (visible_metas ix)) as Hv.
  { apply Forall_forall. intros e [Hv He]%list_elem_of_filter. by eapply ok_entries. }
  assert (mapM (live_ctids ctid_field ix) (visible_metas ix) = Some (rows_of ix <$> visible_metas ix)) as ->; [|exact (f_equal Some (concat_bind _ _))].
  induction Hv as [|e l He _ IH]; [done|]. cbn. rewrite (live_rows n) by done. cbn. by rewrite IH.
Qed.

(** *** Entries by id *)

(** The entry with an id is the only one. *)
Lemma ids_unique (es : list SegmentMetaEntry) e x : NoDup (filter (fun id => id <> 0) (segment_id <$> es)) -> e ∈ es -> x ∈ es -> segment_id e <> 0 -> segment_id x = segment_id e -> x = e.
Proof.
  induction es as [|y es IH]; [by intros _ ?%elem_of_nil|]. rewrite fmap_cons, filter_cons. intros Hnd He Hx Hid Heq.
  assert (forall z, z ∈ es -> segment_id z = segment_id y -> segment_id y <> 0 -> ~ NoDup (segment_id y :: filter (fun id => id <> 0) (segment_id <$> es))) as Hdup.
  { intros z Hz Hzy Hy0 [Hn _]%NoDup_cons. apply Hn, list_elem_of_filter. split; [done|]. rewrite <- Hzy. by apply list_elem_of_fmap_2. }
  apply elem_of_cons in He as [->|He]; apply elem_of_cons in Hx as [->|Hx]; [done| | |].
  - rewrite decide_True in Hnd by done. by destruct (Hdup x Hx Heq Hid).
  - rewrite decide_True in Hnd by congruence. by destruct (Hdup e He (eq_sym Heq) ltac:(congruence)).
  - apply IH; try done. case_decide; [by apply NoDup_cons in Hnd as [_ ?]|done].
Qed.

Lemma entry_unique n ix e x : index_ok n ix -> e ∈ metas ix -> visible e = true -> x ∈ metas ix -> segment_id x = segment_id e -> x = e.
Proof. intros Hok He Hv Hx. apply (ids_unique (metas ix)); [apply (ok_ids _ _ Hok)|done|done|by apply (ok_nonzero _ _ Hok)]. Qed.

Lemma visible_ids n ix : index_ok n ix -> NoDup (segment_id <$> visible_metas ix).
Proof.
  intros Hok. unfold visible_metas. pose proof (ok_ids _ _ Hok) as Hnd. pose proof (ok_nonzero _ _ Hok) as Hnz. revert Hnd Hnz. induction (metas ix) as [|e es IH]; [constructor|].
  rewrite fmap_cons, !filter_cons. intros Hnd Hnz. destruct (decide (visible e = true)) as [Hv|Hv].
  - rewrite decide_True in Hnd by (apply Hnz; [left|done]). apply NoDup_cons in Hnd as [Hn Hnd]. rewrite fmap_cons. constructor; [|apply IH; [done|intros x Hx; apply Hnz; by right]].
    intros (x & Hx & [Hvx Hin]%list_elem_of_filter)%list_elem_of_fmap. apply Hn, list_elem_of_filter. split; [apply Hnz; [left|done]|]. rewrite Hx. by apply list_elem_of_fmap_2.
  - apply IH; [|intros x Hx; apply Hnz; by right]. case_decide; [by apply NoDup_cons in Hnd as [_ ?]|done].
Qed.

Lemma found_entry n ix e : index_ok n ix -> e ∈ metas ix -> visible e = true -> head (filter (fun x => segment_id x = segment_id e) (metas ix)) = Some e.
Proof.
  intros Hok He Hv. destruct (filter (fun x => segment_id x = segment_id e) (metas ix)) as [|y l] eqn:Ef.
  - assert (e ∈ filter (fun x => segment_id x = segment_id e) (metas ix)) as Hin; [|rewrite Ef in Hin; by apply elem_of_nil in Hin]. by apply list_elem_of_filter.
  - assert (y ∈ filter (fun x => segment_id x = segment_id e) (metas ix)) as [Hy Hym]%list_elem_of_filter by (rewrite Ef; left). cbn. f_equal. by apply (entry_unique n ix e y Hok He Hv).
Qed.

(** *** What changes of the files and the logs keep *)

(** The second state has all files of the first. *)
Definition files_kept ix ix' : Prop :=
  (forall x, file_known (files ix) x -> file_known (files ix') x /\ deletes_of (files ix') x = deletes_of (files ix) x).

Lemma entry_kept n n' ix ix' e : n <= n' -> entry_ok n ix e -> files_kept ix ix' ->
  (is_mutable e = false -> docs_of (files ix') (segment_id e) = docs_of (files ix) (segment_id e)) ->
  (forall hb, header_of e = Some hb -> il_ok hb (logs ix) -> il_ok hb (logs ix') /\ il_list hb (logs ix') = il_list hb (logs ix)) ->
  entry_ok n' ix' e /\ rows_of ix' e = rows_of ix e.
Proof.
  intros Hn He Hf Hd Hl. unfold entry_ok, rows_of, log_of, header_of, is_mutable, segment_deletes, ctids_of in *. destruct (content e) as [c|c] eqn:Ec.
  - destruct He as (Hdocs & Hdel & Hlen). rewrite (Hd eq_refl). split; [split_and!; [done|intros d Hd'; apply Hf, Hdel, Hd'|done]|].
    destruct (delete c) as [d|] eqn:Ed; [|done]. by rewrite (proj2 (Hf _ (Hdel d eq_refl))).
  - destruct He as (Hs & Hlog & Ha). pose proof Hs as (Hok & Hmd & fr & Hc). cbn [fst snd] in *. destruct (Hl _ eq_refl Hok) as [Hok' Hll]. rewrite Hll. split; [|done].
    split; [split; [done|cbn [fst snd]; by rewrite Hll; eauto]|split; [done|lia]].
Qed.

(** *** One entry of the list *)

Lemma visible_app es es' : filter (fun e => visible e = true) (es ++ es') = filter (fun e => visible e = true) es ++ filter (fun e => visible e = true) es'.
Proof. apply filter_app. Qed.

Lemma header_split n ix pre e post hb : index_ok n ix -> metas ix = pre ++ e :: post -> visible e = true -> header_of e = Some hb ->
  forall e', e' ∈ pre ++ post -> visible e' = true -> header_of e' <> Some hb.
Proof.
  intros Hok Hm Hv Hh e' He' Hv' Hh'. pose proof (ok_headers _ _ Hok) as Hnd. unfold visible_metas in Hnd. rewrite Hm, filter_app, filter_cons, decide_True in Hnd by done.
  rewrite omap_app in Hnd. cbn [omap list_omap] in Hnd. rewrite Hh in Hnd. apply NoDup_app in Hnd as (_ & Hd & [Hn _]%NoDup_cons).
  apply elem_of_app in He' as [He'|He'].
  - apply (Hd hb); [|by left]. apply list_elem_of_omap. exists e'. split; [|done]. by apply list_elem_of_filter.
  - apply Hn. apply list_elem_of_omap. exists e'. split; [|done]. by apply list_elem_of_filter.
Qed.

(** An entry that is changed in place. *)
Lemma index_replace n n' ix ix' pre e e' post : index_ok n ix -> metas ix = pre ++ e :: post -> metas ix' = pre ++ e' :: post ->
  visible e = true -> visible e' = true -> segment_id e' = segment_id e -> header_of e' = header_of e -> xmax e' = xmax e -> entry_ok n' ix' e' ->
  has_files e' -> 0 < max_doc e' -> max_doc e' - max_doc e <= n' - n ->
  (forall x, x ∈ pre ++ post -> visible x = true -> entry_ok n ix x -> entry_ok n' ix' x) -> index_ok n' ix'.
Proof.
  intros [Ke Ki Kn Kh Kx Ku Kd Kt Kf] Hm Hm' Hv Hv' Hid Hh Hx He' Hfi Hpos Hdn Hk. unfold visible_metas in *. rewrite Hm in *.
  assert (forall x, x ∈ pre ++ e' :: post -> x = e' \/ x ∈ pre ++ post) as Hin by set_solver.
  split; unfold visible_metas; rewrite ?Hm'.
  - intros x [->|Hx']%Hin Hvx; [done|]. apply Hk; [done..|]. apply Ke; [set_solver|done].
  - rewrite fmap_app, fmap_cons in Ki |- *. by rewrite Hid.
  - intros x [->|Hx']%Hin Hvx; [rewrite Hid; apply Kn; [set_solver|done]|apply Kn; [set_solver|done]].
  - rewrite filter_app, filter_cons, decide_True in Kh by done. rewrite filter_app, filter_cons, decide_True by done. rewrite omap_app in Kh |- *. cbn [omap list_omap] in Kh |- *. by rewrite Hh.
  - intros x [->|Hx']%Hin Hvx; [rewrite Hx; apply Kx; [set_solver|done]|apply Kx; [set_solver|done]].
  - intros Hr x [->|Hx']%Hin Hu; [done|apply Ku; [done|set_solver|done]].
  - intros x [->|Hx']%Hin Hvx; [done|apply Kd; [set_solver|done]].
  - rewrite filter_app, filter_cons, decide_True in Kt by done. rewrite filter_app, filter_cons, decide_True by done. rewrite docs_in_app in Kt |- *. unfold docs_in in *. cbn [foldr] in Kt |- *. lia.
  - intros x [->|Hx']%Hin; [done|apply Kf; set_solver].
Qed.

Lemma bind_filter_rows ix ix' es : (forall x, x ∈ es -> visible x = true -> rows_of ix' x = rows_of ix x) ->
  filter (fun x => visible x = true) es ≫= rows_of ix' = filter (fun x => visible x = true) es ≫= rows_of ix.
Proof.
  induction es as [|x es IH]; intros Hr; [done|]. rewrite filter_cons. case_decide as Hv; [|apply IH; intros y Hy; apply Hr; by right].
  cbn [mbind list_bind]. rewrite IH by (intros y Hy; apply Hr; by right). f_equal. apply Hr; [left|done].
Qed.

Lemma rows_replace ix ix' pre e e' post cs : metas ix = pre ++ e :: post -> metas ix' = pre ++ e' :: post -> visible e = true -> visible e' = true ->
  (forall x, x ∈ pre ++ post -> visible x = true -> rows_of ix' x = rows_of ix x) -> rows_of ix' e' ≡ₚ rows_of ix e ++ cs -> all_rows ix' ≡ₚ all_rows ix ++ cs.
Proof.
  intros Hm Hm' Hv Hv' Hr He. unfold all_rows, visible_metas. rewrite Hm, Hm', !filter_app, !filter_cons, !decide_True by done. rewrite !bind_app. cbn [mbind list_bind].
  rewrite He. rewrite !(bind_filter_rows ix ix') by (intros x Hx; apply Hr; set_solver). change (list_bind ?f ?l) with (l ≫= f). solve_Permutation || (rewrite <- !app_assoc; do 2 f_equiv; apply Permutation_app_comm).
Qed.

(** Entries that are added, with files that are kept. *)
Lemma index_append n n' ix ix' es : index_ok n ix -> metas ix' = metas ix ++ es ->
  (forall x, x ∈ metas ix -> visible x = true -> entry_ok n ix x -> entry_ok n' ix' x) ->
  (forall x, x ∈ es -> visible x = true -> entry_ok n' ix' x /\ xmax x = InvalidTransactionId) ->
  NoDup (segment_id <$> es) -> (forall x, x ∈ es -> segment_id x <> 0 /\ segment_id x ∉ segment_id <$> metas ix /\ visible x = true) ->
  NoDup (omap header_of es) -> (forall x hb, x ∈ es -> header_of x = Some hb -> hb ∉ omap header_of (visible_metas ix)) ->
  (forall x, x ∈ es -> has_files x /\ 0 < max_doc x) -> docs_in (visible_metas ix) + docs_in es <= n' -> index_ok n' ix'.
Proof.
  intros [Ke Ki Kn Kh Kx Ku Kd Kt Kf] Hm Hk Hes Hnd Hid Hh Hhs Hfi Hdn. assert (filter (fun e => visible e = true) es = es) as Hv by (apply filter_every; intros x Hx; by apply Hid).
  split; unfold visible_metas; rewrite ?Hm.
  - intros x [Hx|Hx]%elem_of_app Hvx; [apply Hk; [done..|by apply Ke]|by apply Hes].
  - rewrite fmap_app, filter_app. apply NoDup_app. split; [done|]. split; [|by apply NoDup_filter].
    intros id [_ Hid']%list_elem_of_filter [_ (x & -> & Hx)%list_elem_of_fmap]%list_elem_of_filter. by apply (Hid x Hx).
  - intros x [Hx|Hx]%elem_of_app Hvx; [by apply Kn|by apply Hid].
  - rewrite filter_app, Hv, omap_app. apply NoDup_app. split; [done|]. split; [|done]. intros hb Hhb (x & Hx & Hxh)%list_elem_of_omap. by apply (Hhs x hb).
  - intros x [Hx|Hx]%elem_of_app Hvx; [by apply Kx|by apply Hes].
  - intros Hr x [Hx|Hx]%elem_of_app Hu; [by apply Ku|by apply Hid].
  - intros x [Hx|Hx]%elem_of_app Hvx; [by apply Kd|by apply Hfi].
  - rewrite filter_app, Hv, docs_in_app. unfold visible_metas in Hdn. lia.
  - intros x [Hx|Hx]%elem_of_app; [by apply Kf|by apply Hfi].
Qed.

Lemma rows_append ix ix' es : metas ix' = metas ix ++ es -> (forall x, x ∈ metas ix -> visible x = true -> rows_of ix' x = rows_of ix x) ->
  (forall x, x ∈ es -> visible x = true) -> all_rows ix' = all_rows ix ++ (es ≫= rows_of ix').
Proof.
  intros Hm Hr Hv. unfold all_rows, visible_metas. rewrite Hm, filter_app, bind_app, (bind_filter_rows ix ix') by done. by rewrite (filter_every _ es).
Qed.

(** *** Mutable segments *)

Lemma update_entry_cases (guard : SegmentMetaEntry -> bool) (update : M (SegmentMetaEntry * St) EntryError unit) es st :
  ((forall e, e ∈ es -> guard e = false) /\ update_entry guard update es st = None) \/
  exists pre e post, es = pre ++ e :: post /\ guard e = true /\
    update_entry guard update es st = Some ((update (e, st)).1, pre ++ (update (e, st)).2.1 :: post, (update (e, st)).2.2).
Proof.
  induction es as [|e es IH]; [left; by split; [intros e ?%elem_of_nil|]|]. cbn [update_entry]. destruct (guard e) eqn:Eg.
  - right. exists [], e, es. split_and!; [done|done|]. by destruct (update (e, st)) as [o [e' st']].
  - destruct IH as [[Hn ->]|(pre & x & post & -> & Hx & ->)].
    + left. split; [|done]. by intros y [->|Hy]%elem_of_cons; [|apply Hn].
    + right. by exists (e :: pre), x, post.
Qed.

(** A change of one log. *)
Lemma log_changed n n' ix ix' pre e e' post hb es : index_ok n ix -> n <= n' -> metas ix = pre ++ e :: post -> metas ix' = pre ++ e' :: post ->
  visible e = true -> header_of e = Some hb -> files ix' = files ix -> logs ix' = il_add_items hb es (logs ix) ->
  forall x, x ∈ pre ++ post -> visible x = true -> entry_ok n ix x -> entry_ok n' ix' x /\ rows_of ix' x = rows_of ix x.
Proof.
  intros Hok Hn Hm Hm' Hv Hh Hf Hl x Hx Hvx Hex. apply (entry_kept n n' ix ix' x); [done|done|unfold files_kept; by rewrite Hf|by rewrite Hf|].
  intros hb' Hh' Hok'. rewrite Hl. apply il_add_frame; [done|]. intros ->. exact (header_split n ix pre e post hb Hok Hm Hv Hh x Hx Hvx Hh').
Qed.

Lemma in_rows ix e c : e ∈ metas ix -> visible e = true -> c ∈ rows_of ix e -> c ∈ all_rows ix.
Proof. intros He Hv Hc. apply list_elem_of_bind. exists e. split; [done|]. by apply list_elem_of_filter. Qed.

(** What one of the calls that change a mutable segment does to its entry. *)
Lemma apply_mop_entry hb o (s : SegmentMetaEntry * St) : seg_inv hb s -> ops_small o -> match o with MXmax _ => False | _ => True end ->
  segment_id (apply_mop o s).1 = segment_id s.1 /\ xmax (apply_mop o s).1 = xmax s.1 /\ header_of (apply_mop o s).1 = Some hb.
Proof.
  intros (_ & _ & fr & Hc) Ho Hx. destruct s as [e st]. unfold header_of. destruct o as [r cs|cs|x]; [| |done]; cbn [apply_mop fst snd] in *; unfold mutable_add_items, mutable_delete_items.
  - unfold len_u32. rewrite length_fmap, (proj2 (Z.ltb_lt _ _)) by done. rewrite Hc. destruct fr; cbn; [by rewrite Hc|]. by case_match.
  - rewrite Hc. unfold len_u32. by rewrite length_fmap, (proj2 (Z.ltb_lt _ _)) by done.
Qed.

Lemma mop_spec n n' ix pre e post hb o es (ix' : Index) : index_ok n ix -> n <= n' -> metas ix = pre ++ e :: post -> visible e = true -> header_of e = Some hb ->
  ops_small o -> match o with MXmax _ => False | _ => True end -> n' < 2 ^ 31 -> adds es <= n' - n ->
  let s := apply_mop o (e, logs ix) in
  metas ix' = pre ++ s.1 :: post -> files ix' = files ix -> logs ix' = s.2 -> s.2 = il_add_items hb es (logs ix) ->
  log_ok ∅ (log_of ix e ++ es) -> adds (log_of ix e ++ es) <= n' ->
  index_ok n' ix' /\ (forall x, x ∈ pre ++ post -> visible x = true -> rows_of ix' x = rows_of ix x) /\ rows_of ix' s.1 = log_rows (log_of ix e ++ es) /\ visible s.1 = true.
Proof.
  intros Hok Hn Hm Hv Hh Ho Hx Hn31 Hes s Hm' Hf Hl Hs Hlog Ha. assert (e ∈ metas ix) as Hin by (rewrite Hm; set_solver).
  pose proof (ok_entries _ _ Hok e Hin Hv) as He. unfold entry_ok in He. unfold header_of in Hh. unfold log_of in Hlog, Ha |- *. destruct (content e) as [c|c] eqn:Ec; [done|]. injection Hh as Hh. destruct He as (Hsi & _ & _). pose proof Hsi as Hsi0.
  rewrite Hh in *. destruct (apply_mop_entry hb o (e, logs ix) Hsi Ho Hx) as (Hid & Hxm & Hhd). fold s in Hid, Hxm, Hhd.
  pose proof (seg_inv_step hb o (e, logs ix) Ho Hsi) as Hsi'. fold s in Hsi'. pose proof Hsi as (Hilok & _).
  assert (header_of e = Some hb) as Hhe by (unfold header_of; rewrite Ec; by f_equal).
  assert (visible s.1 = true) as Hv' by (unfold visible, is_deleted in *; by rewrite Hxm).
  pose proof (log_changed n n' ix ix' pre e s.1 post hb es Hok Hn Hm Hm' Hv Hhe Hf ltac:(by rewrite Hl)) as Hk.
  assert (il_list hb (logs ix') = il_list hb (logs ix) ++ es) as Hll by (rewrite Hl, Hs; by apply il_add_list).
  assert (exists c', content s.1 = Mutable c' /\ header_block c' = hb) as (c' & Ec' & Hc').
  { unfold header_of in Hhd. destruct (content s.1) as [|c']; [done|]. exists c'. by injection Hhd. }
  split; [|split; [intros x Hx' Hvx; apply Hk; [done..|]; apply (ok_entries _ _ Hok); [rewrite Hm; set_solver|done]|split; [|done]]].
  - pose proof (ok_docs _ _ Hok e Hin Hv) as Hpos. destruct Hsi as (_ & Hmd & _), Hsi' as (_ & Hmd' & _). cbn [fst snd] in Hmd.
    rewrite <- Hl, Hll in Hmd'. rewrite adds_app in Ha, Hmd'. pose proof (adds_nonneg es). pose proof (adds_nonneg (il_list hb (logs ix))).
    rewrite wrap_small in Hmd by lia. rewrite wrap_small in Hmd' by lia.
    eapply (index_replace n n' ix ix' pre e s.1 post); [done..|by rewrite Hhd| | | | | |].
    + done.
    + unfold entry_ok, log_of. rewrite Ec', Hc', Hll, adds_app. split; [|done]. rewrite Hl. by apply (seg_inv_step hb o (e, logs ix) Ho Hsi0).
    + unfold has_files, pintest_blockno. by rewrite Ec'.
    + lia.
    + lia.
    + intros x Hx' Hvx Hex. by apply Hk.
  - unfold rows_of, log_of. by rewrite Ec', Hc', Hll.
Qed.

(** *** Rows for a mutable segment *)

Context (generate_random : list Z -> Z).
Hypothesis random_new : forall ids, generate_random ids ∉ ids /\ generate_random ids <> 0.

Abbreviation never := (fun _ : Index => False).

Lemma add_small_ops r cs : Z.of_nat (length cs) < 2 ^ 32 -> ops_small (MAdd r cs).
Proof. done. Qed.

(** Rows are added to a mutable segment that takes more. *)
Lemma added_rows n ix pre e post c cs : rows <> None -> index_ok n ix -> metas ix = pre ++ e :: post -> content e = Mutable c -> frozen c = false ->
  NoDup cs -> (forall x, x ∈ cs -> x ∉ all_rows ix) -> 0 <= n -> n + Z.of_nat (length cs) < 2 ^ 31 ->
  exists e', mutable_add_items rows (Add <$> cs) (e, logs ix) = (Ok tt, (e', il_add_items (header_block c) (Add <$> cs) (logs ix))) /\
    forall ix', metas ix' = pre ++ e' :: post -> files ix' = files ix -> logs ix' = il_add_items (header_block c) (Add <$> cs) (logs ix) ->
      index_ok (n + Z.of_nat (length cs)) ix' /\ all_rows ix' ≡ₚ all_rows ix ++ cs.
Proof.
  intros Hro Hok Hm Ec Hfr Hnd Hdis Hn0 Hn. assert (e ∈ metas ix) as Hin by (rewrite Hm; set_solver).
  assert (visible e = true) as Hv by (apply (ok_unfrozen _ _ Hok); [done|done|]; unfold unfrozen; by rewrite Ec, Hfr).
  pose proof (ok_entries _ _ Hok e Hin Hv) as He. unfold entry_ok in He. rewrite Ec in He. destruct He as (_ & Hlog & Hadds).
  assert (exists e', mutable_add_items rows (Add <$> cs) (e, logs ix) = (Ok tt, (e', il_add_items (header_block c) (Add <$> cs) (logs ix)))) as [e' Hadd].
  { unfold mutable_add_items, len_u32. rewrite length_fmap, (proj2 (Z.ltb_lt _ _)) by lia. rewrite Ec, Hfr. by eexists. }
  exists e'. split; [done|]. intros ix' Hm' Hf Hl.
  assert (rows_of ix e = log_rows (log_of ix e)) as Hre by (unfold rows_of; by rewrite Ec).
  destruct (log_rows_add (log_of ix e) cs Hlog Hnd) as [Hlog' Hrows]; [intros x Hx Hx'; apply (Hdis x Hx); eapply in_rows; [done|done|by rewrite Hre]|].
  assert (apply_mop (MAdd rows cs) (e, logs ix) = (e', il_add_items (header_block c) (Add <$> cs) (logs ix))) as Hs by (cbn [apply_mop]; by rewrite Hadd).
  destruct (mop_spec n (n + Z.of_nat (length cs)) ix pre e post (header_block c) (MAdd rows cs) (Add <$> cs) ix') as (Hok' & Hk & Hr & Hv'); rewrite ?Hs; [done|lia|done|done|unfold header_of; by rewrite Ec|cbn; lia|done|done|destruct (adds_Add cs) as [-> _]; lia|done..| |].
  - rewrite adds_app. destruct (adds_Add cs) as [-> _]. lia.
  - rewrite Hs in Hr, Hv'. cbn [fst] in Hr, Hv'. split; [done|]. apply (rows_replace ix ix' pre e e' post); [done..|]. by rewrite Hr, Hre.
Qed.

(** A new mutable segment with these rows. *)
Lemma created_rows n ix cs : index_ok n ix -> cs <> [] -> NoDup cs -> 0 <= n -> n + Z.of_nat (length cs) < 2 ^ 31 ->
  let '(hb, st) := il_create (logs ix) in
  let e := new_mutable (generate_random (segment_id <$> metas ix)) (Z.of_nat (length cs)) InvalidTransactionId (mkMutable hb 0 false) in
  forall ix', metas ix' = metas ix ++ [e] -> files ix' = files ix -> logs ix' = il_add_items hb (Add <$> cs) st ->
    index_ok (n + Z.of_nat (length cs)) ix' /\ all_rows ix' ≡ₚ all_rows ix ++ cs.
Proof.
  intros Hok Hcs Hnd Hn0 Hn. pose proof (il_create_new (logs ix)) as Hfresh. destruct (il_create_ok (logs ix)) as [Hcok Hcnil]. pose proof (il_create_frame (logs ix)) as Hframe.
  destruct (il_create (logs ix)) as [hb st]. cbn [fst snd] in *. match goal with |- context [[new_mutable ?a ?b ?x ?m]] => set (e := new_mutable a b x m) end. intros ix' Hm Hf Hl.
  assert (forall x hb', x ∈ metas ix -> visible x = true -> header_of x = Some hb' -> il_ok hb' (logs ix) /\ hb' <> hb) as Hdist.
  { intros x hb' Hx Hv Hh. pose proof (ok_entries _ _ Hok x Hx Hv) as He. unfold entry_ok, header_of in *. destruct (content x) as [|c]; [done|]. injection Hh as <-.
    destruct He as ((Hilok & _) & _). split; [done|]. intros Heq. by rewrite Heq in Hilok. }
  assert (forall x, x ∈ metas ix -> visible x = true -> entry_ok n ix x -> entry_ok (n + Z.of_nat (length cs)) ix' x /\ rows_of ix' x = rows_of ix x) as Hk.
  { intros x Hx Hv Hex. apply (entry_kept n _ ix ix' x); [lia|done|unfold files_kept; by rewrite Hf|by rewrite Hf|].
    intros hb' Hh Hilok. destruct (Hdist x hb' Hx Hv Hh) as [_ Hne]. destruct (Hframe hb' Hilok) as [Hok2 Hl2]. rewrite Hl. rewrite <- Hl2. by apply il_add_frame. }
  assert (il_list hb (logs ix') = Add <$> cs) as Hll by (rewrite Hl, il_add_list, Hcnil by done; done).
  destruct (log_rows_add [] cs ltac:(done) Hnd) as [Hlog Hrows]; [intros c _; by rewrite log_rows_elem|]. cbn [app] in Hlog, Hrows.
  destruct (random_new (segment_id <$> metas ix)) as [Hid Hid0]. destruct (adds_Add cs) as [Hadds Hrem].
  assert (entry_ok (n + Z.of_nat (length cs)) ix' e) as He.
  { unfold entry_ok, log_of. cbn [content e new_mutable header_block]. rewrite Hll, Hadds. split; [|split; [done|lia]]. unfold seg_inv. cbn [fst snd]. rewrite Hll, Hadds, Hrem, Hl.
    split; [by apply il_add_ok|]. split; [rewrite wrap_small by lia; done|]. exists false. done. }
  split.
  - eapply (index_append n _ ix ix' [e]); [done|done|intros x Hx Hv Hex; by apply Hk|intros x ->%list_elem_of_singleton _; done|apply NoDup_singleton|intros x ->%list_elem_of_singleton; done|apply NoDup_singleton| | |].
    + intros x hb' ->%list_elem_of_singleton [= <-] (y & [Hv Hy]%list_elem_of_filter & Hh)%list_elem_of_omap. by apply (Hdist y hb Hy Hv Hh).
    + intros x ->%list_elem_of_singleton. split; [by eexists|]. cbn. destruct cs; [done|]. cbn [length]. lia.
    + pose proof (ok_total _ _ Hok). cbn. lia.
  - rewrite (rows_append ix ix' [e]); [|done|intros x Hx Hv; apply Hk; [done..|by apply (ok_entries _ _ Hok)]|by intros x ->%list_elem_of_singleton].
    cbn [mbind list_bind]. rewrite app_nil_r. f_equiv. unfold rows_of, log_of. cbn [content e new_mutable header_block]. rewrite Hll, Hrows. by replace (log_rows []) with (@nil Z) by (vm_compute; reflexivity).
Qed.

Lemma cleanup_mutable_spec n ix cs : rows <> None -> index_ok n ix -> cs <> [] -> NoDup cs -> (forall c, c ∈ cs -> c ∉ all_rows ix) -> 0 <= n -> n + Z.of_nat (length cs) < 2 ^ 31 ->
  mwp never (insertcleanup_mutable rows generate_random cs) ix (fun _ ix' => index_ok (n + Z.of_nat (length cs)) ix' /\ all_rows ix' ≡ₚ all_rows ix ++ cs).
Proof.
  intros Hro Hok Hne Hnd Hdis Hn0 Hn. unfold insertcleanup_mutable. apply mwp_bind. unfold update_item. apply mwp_bind, mwp_gets. cbv beta.
  match goal with |- context [update_entry ?g ?u (metas (id ix)) _] => destruct (update_entry_cases g u (metas ix) (logs ix)) as [[Hnone Heq]|(pre & e & post & Hm & Hg & Heq)] end; unfold id; rewrite Heq.
  - apply mwp_ret. cbv iota. apply mwp_bind. unfold create_mutable. apply mwp_bind, mwp_gets. cbv beta. pose proof (created_rows n ix cs Hok Hne Hnd Hn0 Hn) as Hc. unfold id.
    destruct (il_create (logs ix)) as [hb st]. repeat first [apply mwp_bind | apply mwp_modify | apply mwp_gets | apply mwp_ret]. cbv beta. unfold len_u32. rewrite length_fmap, (proj2 (Z.ltb_lt _ _)) by lia.
    repeat first [apply mwp_bind | apply mwp_modify | apply mwp_gets | apply mwp_ret]. by apply Hc.
  - destruct (content e) as [|c] eqn:Ec; [done|]. apply negb_true_iff in Hg. destruct (added_rows n ix pre e post c cs) as (e' & Hadd & Hres); [done..|]. rewrite Hadd. cbn [fst snd].
    repeat first [apply mwp_bind | apply mwp_modify | apply mwp_gets | apply mwp_ret]. by apply Hres.
Qed.

(** *** Rows for a writer *)

Lemma alive_all {A} n (l : list A) : alive ∅ n l = l.
Proof. revert n. induction l as [|x l IH]; intros n; [done|]. cbn [alive]. rewrite bool_decide_false by set_solver. by rewrite IH. Qed.

Definition pending_rows (w : SerialIndexWriter) : list Z :=
  match pending_segment w with Some p => omap (as_u64 ctid_field) (pending_docs p) | None => [] end.

Abbreviation count l := (Z.of_nat (length l)).

(** The documents of the segment that is written have heap pointers, and it is a new one. *)
Definition pending_ok ix (p : PendingSegment) : Prop :=
  Forall (fun d => is_Some (as_u64 ctid_field d)) (pending_docs p) /\ pending_id p ∉ segment_id <$> metas ix /\ pending_id p <> 0.

Definition writer_ok ix (w : SerialIndexWriter) : Prop :=
  (forall id, id ∈ ids_of_meta (new_metas w) -> id ∈ segment_id <$> metas ix) /\
  match pending_segment w with Some p => pending_ok ix p /\ pending_docs p <> [] | None => True end.

Lemma length_omap_some {A B} (f : A -> option B) l : Forall (fun x => is_Some (f x)) l -> length (omap f l) = length l.
Proof. induction 1 as [|x l [y Hy] _ IH]; [done|]. cbn [omap list_omap length]. rewrite Hy. cbn [length]. by rewrite IH. Qed.

(** A commit of one new segment. *)
Lemma saved_created (prev : list TantivySegment) m fs es : t_id m ∉ ids_of_meta prev -> fs !! Delete = None ->
  saved (prev ++ [m]) prev {[t_id m := fs]} es = es ++ [created_entry (t_id m) m fs] /\
  modified_ids {[t_id m := fs]} (prev ++ [m]) prev = [] /\ deleted_ids (prev ++ [m]) prev = [].
Proof.
  intros Hm Hfs. assert (modified_ids {[t_id m := fs]} (prev ++ [m]) prev = []) as Hmod.
  { apply filter_none. intros id _ [x Hx]. destruct (decide (id = t_id m)) as [->|Hne]; [|by rewrite lookup_singleton_ne in Hx by done].
    rewrite lookup_singleton_eq in Hx. cbn in Hx. by rewrite Hfs in Hx. }
  assert (ids_of_meta (prev ++ [m]) = ids_of_meta prev ∪ {[t_id m]}) as Hids by (unfold ids_of_meta; rewrite fmap_app, list_to_set_app_L; cbn; set_solver).
  assert (deleted_ids (prev ++ [m]) prev = []) as Hdel.
  { unfold deleted_ids. rewrite Hids. replace (ids_of_meta prev ∖ (ids_of_meta prev ∪ {[t_id m]})) with (∅ : gset Z) by set_solver. apply elements_empty. }
  assert (created_ids (prev ++ [m]) prev = [t_id m]) as Hcr.
  { unfold created_ids. rewrite Hids. replace ((ids_of_meta prev ∪ {[t_id m]}) ∖ ids_of_meta prev) with ({[t_id m]} : gset Z) by set_solver. apply elements_singleton. }
  split; [|done]. unfold saved. rewrite Hmod, Hdel, Hcr.
  assert ((changed (incoming_segments (prev ++ [m])) {[t_id m := fs]} [] [] <$> es) = es) as -> by (rewrite <- (list_fmap_id es) at 2; apply list_fmap_ext; intros; unfold changed; by rewrite !decide_False by apply not_elem_of_nil).
  assert (omap (orphan (incoming_segments (prev ++ [m])) {[t_id m := fs]} []) es = []) as ->.
  { induction es as [|e es IH]; [done|]. cbn [omap list_omap]. unfold orphan at 1. rewrite decide_False by apply not_elem_of_nil. exact IH. }
  rewrite app_nil_r. unfold created_of. cbn [omap list_omap]. unfold incoming_segments. rewrite foldl_app. cbn [foldl]. rewrite lookup_insert_eq, lookup_singleton_eq. done.
Qed.

Lemma finalize_segment_spec n ix w : index_ok (n - count (pending_rows w)) ix -> writer_ok ix w ->
  mwp never (finalize_segment w) ix (fun r ix' => index_ok n ix' /\ all_rows ix' ≡ₚ all_rows ix ++ pending_rows w /\ writer_ok ix' r.2 /\ pending_rows r.2 = []).
Proof.
  intros Hok (Hnew & Hp). unfold finalize_segment, pending_rows in *. destruct (pending_segment w) as [p|] eqn:Ep; [|cbn [length] in Hok; rewrite Z.sub_0_r in Hok; apply mwp_ret; cbn [snd]; rewrite app_nil_r; unfold writer_ok; by rewrite Ep].
  destruct Hp as ((Hdocs & Hid & Hid0) & Hnil). rewrite length_omap_some in Hok by done. set (k := n - count (pending_docs p)) in *. apply mwp_bind. unfold finalize. apply mwp_bind, mwp_gets. cbv beta. unfold id.
  pose proof (write_docs (pending_id p) (pending_docs p) (files ix)) as Lw. pose proof (write_other (pending_id p) (pending_docs p) (files ix)) as Lo.
  pose proof (write_known (pending_id p) (pending_docs p) (files ix)) as Lk. pose proof (write_postings (pending_id p) (pending_docs p) (files ix)) as [[po pp] Lp]. pose proof (write_no_deletes (pending_id p) (pending_docs p) (files ix)) as Ld.
  destruct (write_segment (pending_id p) (pending_docs p) (files ix)) as [fs f']. cbn [fst snd] in *.
  set (m := mkTantivy (pending_id p) (pending_max_doc p) 0).
  assert (t_id m ∉ ids_of_meta (new_metas w)) as Hm by (intros Hin; by apply Hid, Hnew).
  destruct (saved_created (new_metas w) m fs (metas ix) Hm Ld) as (Hsaved & Hmod & Hdel).
  repeat first [apply mwp_bind | apply mwp_modify | apply mwp_gets | apply mwp_ret]. cbv beta. cbn [metas fst snd new_metas config pending_segment]. unfold save_metas. rewrite decide_False by (by intros []%app_nil).
  repeat first [apply mwp_bind | apply mwp_modify | apply mwp_gets | apply mwp_ret]. cbv beta. cbn [metas fst snd new_metas config pending_segment]. fold m. change (pending_id p) with (t_id m). rewrite Hmod, Hdel, Hsaved. cbn [forallb andb].
  repeat first [apply mwp_bind | apply mwp_modify | apply mwp_gets | apply mwp_ret]. cbn [metas logs files snd].
  set (e := created_entry (t_id m) m fs). match goal with |- index_ok n ?x /\ _ => set (ix' := x) end.
  assert (content e = Immutable (mkImmutable (fst <$> fs !! Postings) (fst <$> fs !! Positions) (fst <$> fs !! FastFields) (fst <$> fs !! FieldNorms) (fst <$> fs !! Terms) (fst <$> fs !! Store) (fst <$> fs !! TempStore) None)) as Ec
    by (unfold e, created_entry; cbn; by rewrite Ld).
  assert (forall x, x ∈ metas ix -> visible x = true -> entry_ok k ix x -> entry_ok n ix' x /\ rows_of ix' x = rows_of ix x) as Hk.
  { intros x Hx Hv Hex. apply (entry_kept k n ix ix' x); [lia|done|exact Lk| |done]. intros _. apply Lo. intros Heq. apply Hid. rewrite <- Heq. by apply list_elem_of_fmap_2. }
  assert (entry_ok n ix' e) as He. { unfold entry_ok. rewrite Ec. change (docs_of (files ix') (segment_id e)) with (docs_of f' (pending_id p)). by rewrite Lw. }
  assert (rows_of ix' e = omap (as_u64 ctid_field) (pending_docs p)) as Hre.
  { unfold rows_of, segment_deletes. rewrite Ec. cbn [delete]. rewrite alive_all. unfold ctids_of. change (docs_of (files ix') (segment_id e)) with (docs_of f' (pending_id p)). by rewrite Lw. }
  split; [|split; [|split; [|done]]].
  - eapply (index_append k n ix ix' [e]); [done|done|intros x Hx Hv Hex; by apply Hk|intros x ->%list_elem_of_singleton _; done|apply NoDup_singleton|intros x ->%list_elem_of_singleton; done| | | |].
    + cbn [omap list_omap]. unfold header_of. rewrite Ec. constructor.
    + intros x hb ->%list_elem_of_singleton Hh. unfold header_of in Hh. by rewrite Ec in Hh.
    + intros x ->%list_elem_of_singleton. split; [unfold has_files, pintest_blockno; rewrite Ec; cbn [file_entries postings]; rewrite Lp; by eexists|].
      cbn. unfold pending_max_doc. destruct (pending_docs p); [done|]. cbn [length]. lia.
    + pose proof (ok_total _ _ Hok). cbn. unfold pending_max_doc. lia.
  - rewrite (rows_append ix ix' [e]); [|done|intros x Hx Hv; apply Hk; [done..|by apply (ok_entries _ _ Hok)]|by intros x ->%list_elem_of_singleton].
    cbn [mbind list_bind]. by rewrite app_nil_r, Hre.
  - split; [|done]. cbn [new_metas]. intros id. unfold ids_of_meta. rewrite fmap_app, list_to_set_app_L, elem_of_union. cbn [metas ix']. rewrite fmap_app, elem_of_app. intros [Hi|Hi]; [left; by apply Hnew|right].
    cbn in Hi. rewrite right_id_L in Hi by apply _. apply elem_of_singleton in Hi as ->. by left.
Qed.

(** *** Documents *)

Context {Num Elem : Type} (cat : Catalog).
Context (numeric_to_f64 : Num -> option spec_float) (f32_text_to_f64 : spec_float -> option spec_float)
  (uuid_text : string -> option string) (parse_inet : string -> option Z) (ymd_days : Z -> Z -> Z -> option Z)
  (from_json : Json -> OwnedValue) (bound_try_from : Elem -> option Elem) (bound_json : Elem -> OwnedValue).
Context (categorized_fields : list CategorizedField) (work_mem : Z).
Abbreviation Row := (list (option (Datum Num Elem))).
Abbreviation to_document := (to_document cat numeric_to_f64 f32_text_to_f64 uuid_text parse_inet ymd_days from_json bound_try_from bound_json).
Abbreviation to_fields := (row_to_search_document cat numeric_to_f64 f32_text_to_f64 uuid_text parse_inet ymd_days from_json bound_try_from bound_json).
Abbreviation insert_immutable := (insert_immutable cat numeric_to_f64 f32_text_to_f64 uuid_text parse_inet ymd_days from_json bound_try_from bound_json ctid_field generate_random).

(** The heap pointer has a field of its own, and one column is the key. *)
Hypothesis ctid_apart : Forall (fun c : CategorizedField => c.1.1 <> ctid_field) categorized_fields.
Hypothesis key_exists : exists c, c ∈ categorized_fields /\ is_key_field c.2 = true.

(** A document has values of the columns' fields only, and comes from a row with a key. *)
Lemma document_fields l d : to_fields l tt = (Ok d, tt) ->
  (forall f v, (f, v) ∈ d -> exists x, x ∈ l /\ x.1.2 = f) /\ (forall x, x ∈ l -> is_key_field x.2 = true -> x.1.1 <> None).
Proof.
  revert d. induction l as [|[[o f] c] l IH]; intros d; cbn [Values.row_to_search_document]; [intros [= <-]; set_solver|].
  unfold mbind at 1, M_bind at 1. destruct (column_values _ _ _ _ _ _ _ _ _ o c tt) as [[vs| | |] []] eqn:Ec; try done.
  unfold mbind at 1, M_bind at 1. destruct (to_fields l tt) as [[rest| | |] []] eqn:Er; try done. intros [= <-]. destruct (IH rest eq_refl) as [IH1 IH2]. split.
  - intros f' v [(v' & [= -> ->] & _)%list_elem_of_fmap|Hin]%elem_of_app; [eexists; split; [left|done]|]. destruct (IH1 _ _ Hin) as (x & Hx & Hf). exists x. split; [by right|done].
  - intros x [->|Hx]%elem_of_cons Hk; [|by apply IH2]. cbn [fst snd] in *. intros ->. unfold column_values in Ec. by rewrite Hk in Ec.
Qed.

Definition row_ok (row : Row) : Prop := exists d, to_document row categorized_fields tt = (Ok d, tt).

Lemma row_key row f attno c : row_ok row -> (f, attno, c) ∈ categorized_fields -> is_key_field c = true -> column row attno <> None.
Proof.
  intros [d Hd] Hin Hk. destruct (document_fields _ _ Hd) as [_ Hkey]. apply (Hkey (column row attno, f, c)); [|done].
  apply list_elem_of_fmap. by exists (f, attno, c).
Qed.

Lemma document_ctid row d ctid : to_document row categorized_fields tt = (Ok d, tt) -> as_u64 ctid_field (d ++ [(ctid_field, U64 ctid)]) = Some ctid.
Proof.
  intros Hd. destruct (document_fields _ _ Hd) as [Hf _]. unfold as_u64. rewrite omap_app.
  assert (omap (fun '(f, v) => if f =? ctid_field then match v with U64 n => Some n | _ => None end else None) d = []) as ->; [|cbn; by rewrite Z.eqb_refl].
  apply (elem_of_nil_inv (A := Z)). intros n ([f v] & Hin & Hn)%list_elem_of_omap. destruct (Hf f v Hin) as (x & (c & -> & Hc)%list_elem_of_fmap & Hfx).
  rewrite Forall_forall in ctid_apart. specialize (ctid_apart c Hc). destruct c as [[f' attno] c]. cbn in Hfx, ctid_apart. subst f'. by rewrite (proj2 (Z.eqb_neq _ _)) in Hn.
Qed.

Lemma entry_mono n n' ix e : n <= n' -> entry_ok n ix e -> entry_ok n' ix e.
Proof. intros Hn. unfold entry_ok. destruct (content e); [done|]. intros (? & ? & ?). split_and!; [done..|lia]. Qed.

Lemma index_mono n n' ix : n <= n' -> index_ok n ix -> index_ok n' ix.
Proof. intros Hn [Ke Ki Kn Kh Kx Ku Kd Kt Kf]. split; try done; [|lia]. intros e He Hv. by eapply entry_mono, Ke. Qed.

(** Other state does not matter. *)
Lemma index_same n ix ix' : metas ix' = metas ix -> logs ix' = logs ix -> files ix' = files ix -> (index_ok n ix -> index_ok n ix') /\ all_rows ix' = all_rows ix.
Proof.
  destruct ix as [m l f ml vl ep rq], ix' as [m' l' f' ml' vl' ep' rq']. cbn [metas logs files]. intros -> -> ->. split; [|done].
  intros [Ke Ki Kn Kh Kx Ku Kd Kt Kf]. by split.
Qed.

Lemma files_changed n ix ix' : index_ok n ix -> metas ix' = metas ix -> logs ix' = logs ix -> files_kept ix ix' ->
  (forall e, e ∈ metas ix -> is_mutable e = false -> docs_of (files ix') (segment_id e) = docs_of (files ix) (segment_id e)) -> index_ok n ix' /\ all_rows ix' = all_rows ix.
Proof.
  intros [Ke Ki Kn Kh Kx Ku Kd Kt Kf] Hm Hl Hf Hd. assert (forall x, x ∈ metas ix -> visible x = true -> entry_ok n ix' x /\ rows_of ix' x = rows_of ix x) as Hk.
  { intros x Hx Hv. apply (entry_kept n n ix ix' x); [done|by apply Ke|done|by apply Hd|by rewrite Hl]. }
  split; [|unfold all_rows, visible_metas; rewrite Hm; apply bind_filter_rows; intros x Hx Hv; by apply Hk].
  split; unfold visible_metas; rewrite ?Hm; try done. intros e He Hv. by apply Hk.
Qed.

(** *** Merges *)

Context (target_segment_count : Z) (foreground background : list Z) (be : Backend St F Row).
(** The target segment count is positive, and a mutable segment takes rows. *)
Hypothesis target_positive : 0 < target_segment_count.
Hypothesis rows_positive : forall limit, rows = Some limit -> 0 < limit.
(** The rows that the backend finds in the heap can be converted. *)
Hypothesis heap_ok : forall ctid row, heap_row be ctid = Some row -> row_ok row.

Abbreviation index_row := (index_row cat numeric_to_f64 f32_text_to_f64 uuid_text parse_inet ymd_days from_json bound_try_from bound_json ctid_field categorized_fields be).
Abbreviation segment_docs := (segment_docs cat numeric_to_f64 f32_text_to_f64 uuid_text parse_inet ymd_days from_json bound_try_from bound_json ctid_field categorized_fields be).
Abbreviation merge_segments := (merge_segments cat numeric_to_f64 f32_text_to_f64 uuid_text parse_inet ymd_days from_json bound_try_from bound_json ctid_field categorized_fields generate_random be).
Abbreviation merge_loop := (merge_loop cat numeric_to_f64 f32_text_to_f64 uuid_text parse_inet ymd_days from_json bound_try_from bound_json ctid_field categorized_fields generate_random be).
Abbreviation merge_index := (merge_index cat numeric_to_f64 f32_text_to_f64 uuid_text parse_inet ymd_days from_json bound_try_from bound_json ctid_field categorized_fields rows generate_random be).
Abbreviation do_merge := (do_merge cat numeric_to_f64 f32_text_to_f64 uuid_text parse_inet ymd_days from_json bound_try_from bound_json ctid_field categorized_fields rows generate_random target_segment_count foreground background be).
Abbreviation background_merge := (background_merge cat numeric_to_f64 f32_text_to_f64 uuid_text parse_inet ymd_days from_json bound_try_from bound_json ctid_field categorized_fields rows generate_random target_segment_count foreground background be).

Lemma index_row_ctid c : exists d, index_row c = Some d /\ as_u64 ctid_field d = Some c.
Proof.
  unfold Writes.index_row. destruct (heap_row be c) as [row|] eqn:Er; [|eexists; split; [done|]; unfold as_u64; cbn [omap list_omap]; by rewrite Z.eqb_refl].
  destruct (heap_ok c row Er) as [d Hd]. rewrite Hd. eexists. split; [done|]. by eapply document_ctid.
Qed.

Lemma omap_alive {A B} (f : A -> option B) D k l : Forall (fun x => is_Some (f x)) l -> omap f (alive D k l) = alive D k (omap f l).
Proof.
  intros Hl. revert k. induction Hl as [|x l [y Hy] _ IH]; intros k; [done|]. cbn [alive omap list_omap]. rewrite Hy. cbn [alive]. case_bool_decide; [apply IH|].
  cbn [omap list_omap]. rewrite Hy. f_equal. apply IH.
Qed.

Lemma alive_length {A} D k (l : list A) : (length (alive D k l) <= length l)%nat.
Proof. revert k. induction l as [|x l IH]; intros k; [done|]. cbn [alive]. specialize (IH (k + 1)). case_bool_decide; cbn [length]; lia. Qed.

(** The documents of a segment have its rows. *)
Lemma segment_docs_ok n ix e : index_ok n ix -> n < 2 ^ 31 -> e ∈ metas ix -> visible e = true -> exists docs, segment_docs ix e = Some (docs, segment_deletes ix e) /\
  Forall (fun d => is_Some (as_u64 ctid_field d)) docs /\ omap (as_u64 ctid_field) (alive (segment_deletes ix e) 0 docs) = rows_of ix e /\ count docs <= max_doc e.
Proof.
  intros Hok Hn Hin Hv. pose proof (ok_entries _ _ Hok e Hin Hv) as He. pose proof (segment_ctids_ok n ix e He Hn) as Hs. unfold Writes.segment_docs, segment_ctids, segment_deletes, is_mutable in *. unfold entry_ok in He.
  destruct (content e) as [c|c] eqn:Ec.
  - destruct He as (Hdocs & _ & Hlen). eexists. split; [done|]. split; [done|]. rewrite omap_alive by done. split; [unfold rows_of, segment_deletes; by rewrite Ec|lia].
  - unfold index_memory_segment. rewrite Hs. destruct He as (Hsi & Hlog & Ha).
    assert (exists docs, mapM index_row (rows_of ix e) = Some docs /\ Forall (fun d => is_Some (as_u64 ctid_field d)) docs /\ omap (as_u64 ctid_field) docs = rows_of ix e /\ length docs = length (rows_of ix e)) as (docs & Hm & Hf & Ho & Hl).
    { generalize (rows_of ix e). intros rs. induction rs as [|x l (docs & Hm & Hf & Ho & Hl)]; [by exists []|]. destruct (index_row_ctid x) as (d & Hd & Hx). exists (d :: docs). cbn. rewrite Hd. cbn. rewrite Hm. cbn. rewrite Hx, Ho, Hl. split_and!; [done| |done|done]. constructor; [by eexists|done]. }
    rewrite Hm. eexists. split; [done|]. split; [done|]. rewrite alive_all. split; [done|]. rewrite Hl. unfold rows_of, log_of in *. rewrite Ec in *. rewrite log_rows_elements. change (length (elements ?X)) with (size X).
    pose proof (log_ok_size ∅ _ Hlog) as Hsz. rewrite size_empty in Hsz. fold (replay (il_list (header_block c) (logs ix))) in Hsz. pose proof (removes_nonneg (il_list (header_block c) (logs ix))).
    destruct Hsi as (_ & Hmd & _). cbn [fst snd] in Hmd. pose proof (adds_nonneg (il_list (header_block c) (logs ix))). rewrite wrap_small in Hmd by lia. lia.
Qed.

Lemma sources_ok n ix es : index_ok n ix -> n < 2 ^ 31 -> (forall e, e ∈ es -> e ∈ metas ix /\ visible e = true) -> exists sources, mapM (segment_docs ix) es = Some sources /\
  Forall (fun d => is_Some (as_u64 ctid_field d)) (live_docs sources) /\ omap (as_u64 ctid_field) (live_docs sources) = es ≫= rows_of ix /\ count (live_docs sources) <= docs_in es.
Proof.
  intros Hok Hn. induction es as [|e es IH]; intros Hes; [by exists []|]. destruct (Hes e ltac:(left)) as [Hin Hv]. destruct (segment_docs_ok n ix e Hok Hn Hin Hv) as (docs & Hd & Hf & Hr & Hc).
  destruct IH as (sources & Hm & Hf' & Hr' & Hc'); [intros x Hx; apply Hes; by right|]. exists ((docs, segment_deletes ix e) :: sources). cbn [mapM]. rewrite Hd. cbn [mbind option_bind]. rewrite Hm. split; [done|].
  unfold live_docs in *. rewrite !bind_cons. cbn [fst snd]. rewrite omap_app, Hr, Hr', length_app. split_and!; [|done|].
  - apply Forall_app. split; [|done]. rewrite Forall_forall in Hf |- *. intros d Hd'%alive_in. by apply Hf.
  - pose proof (alive_length (segment_deletes ix e) 0 docs). unfold docs_in in *. cbn [foldr]. lia.
Qed.

(** The entries that a merger has loaded for these ids are those of the index. *)
Definition loaded_ok ix (loaded : list SegmentMetaEntry) (ids : list Z) : Prop := forall i, i ∈ ids -> exists e,
  e ∈ metas ix /\ is_mergeable rows e = true /\ segment_id e = i /\ head (filter (fun x => segment_id x = i) loaded) = Some e.

Lemma mergeable_visible e : is_mergeable rows e = true -> visible e = true.
Proof. unfold is_mergeable, visible. by intros [? _]%andb_true_iff. Qed.

Lemma loaded_entries ix loaded ids : loaded_ok ix loaded ids -> exists es, mapM (fun i => head (filter (fun e => segment_id e = i) loaded)) ids = Some es /\
  segment_id <$> es = ids /\ forall e, e ∈ es -> e ∈ metas ix /\ is_mergeable rows e = true.
Proof.
  intros Hl. induction ids as [|i ids IH]; [exists []; split; [done|]; split; [done|by intros e ?%elem_of_nil]|]. destruct (Hl i ltac:(left)) as (e & Hin & Hm & Hid & Hh).
  destruct IH as (es & Hes & Hids & Hall); [intros x Hx; apply Hl; by right|]. exists (e :: es). cbn [mapM]. rewrite Hh. cbn [mbind option_bind]. rewrite Hes. split; [done|]. rewrite fmap_cons, Hids, Hid. split; [done|].
  intros x [->|Hx]%elem_of_cons; [done|by apply Hall].
Qed.

(** The segments that are merged are marked as deleted. *)
Definition mark (ids : list Z) e : SegmentMetaEntry := if decide (segment_id e ∈ ids) then set_xmax FrozenTransactionId e else e.

Lemma mark_visible ids (es : list SegmentMetaEntry) : filter (fun e => visible e = true) (mark ids <$> es) = filter (fun e => segment_id e ∉ ids) (filter (fun e => visible e = true) es).
Proof.
  assert (forall e, (segment_id e ∈ ids -> visible (mark ids e) = false) /\ (segment_id e ∉ ids -> mark ids e = e)) as Hm by (intros e; unfold mark; case_decide; done).
  induction es as [|e es IH]; [done|]. rewrite fmap_cons, !filter_cons. destruct (decide (segment_id e ∈ ids)) as [Hi|Hi].
  - rewrite decide_False by (by rewrite (proj1 (Hm e))). rewrite IH. case_decide; [|done]. by rewrite filter_cons, decide_False by tauto.
  - rewrite (proj2 (Hm e) Hi). case_decide; [|done]. by rewrite filter_cons, decide_True, IH.
Qed.

(** The entries of the merged segments, apart from the others. *)
Lemma merged_apart n ix es : index_ok n ix -> (forall e, e ∈ es -> e ∈ metas ix /\ visible e = true) -> NoDup (segment_id <$> es) ->
  visible_metas ix ≡ₚ es ++ filter (fun e => segment_id e ∉ segment_id <$> es) (visible_metas ix).
Proof.
  intros Hok Hes Hnd. rewrite <- (filter_app_complement (fun e => segment_id e ∈ segment_id <$> es) (visible_metas ix)) at 1. f_equiv.
  apply NoDup_Permutation; [|by eapply NoDup_fmap_1|].
  - apply NoDup_filter. eapply NoDup_fmap_1. by eapply visible_ids.
  - intros e. rewrite list_elem_of_filter. split.
    + intros ((x & Hid & Hx)%list_elem_of_fmap & [Hv Hin]%list_elem_of_filter). destruct (Hes x Hx) as [Hxin Hxv]. by rewrite (entry_unique n ix x e Hok Hxin Hxv Hin Hid).
    + intros He. destruct (Hes e He). split; [by apply list_elem_of_fmap_2|by apply list_elem_of_filter].
Qed.

Lemma marked_index n ix ix' es : index_ok n ix -> (forall e, e ∈ es -> e ∈ metas ix /\ is_mergeable rows e = true) -> NoDup (segment_id <$> es) ->
  metas ix' = mark (segment_id <$> es) <$> metas ix -> logs ix' = logs ix -> files ix' = files ix ->
  index_ok n ix' /\ all_rows ix ≡ₚ all_rows ix' ++ (es ≫= rows_of ix) /\ docs_in (visible_metas ix') + docs_in es <= n.
Proof.
  intros Hok Hes Hnd Hm Hl Hf. set (ids := segment_id <$> es) in *. pose proof (merged_apart n ix es Hok ltac:(intros e He; destruct (Hes e He); split; [done|by apply mergeable_visible]) Hnd) as Hp. fold ids in Hp.
  assert (visible_metas ix' = filter (fun e => segment_id e ∉ ids) (visible_metas ix)) as Hv by (unfold visible_metas; rewrite Hm; apply mark_visible). rewrite <- Hv in Hp.
  assert (forall e, e ∈ metas ix' -> visible e = true -> e ∈ metas ix) as Hin.
  { intros e He Hve. assert (e ∈ visible_metas ix') as Hx by (by apply list_elem_of_filter). rewrite Hv in Hx. by apply list_elem_of_filter in Hx as [_ [_ ?]%list_elem_of_filter]. }
  assert (forall e, e ∈ metas ix' -> exists x, x ∈ metas ix /\ segment_id e = segment_id x /\ content e = content x /\ (segment_id x ∉ ids -> e = x)) as Hfrom.
  { intros e. rewrite Hm. intros (x & -> & Hx)%list_elem_of_fmap. exists x. unfold mark. case_decide; done. }
  assert (forall e, entry_ok n ix e -> entry_ok n ix' e) as Hk by (intros e; unfold entry_ok, log_of; by rewrite Hl, Hf).
  assert (forall e, rows_of ix' e = rows_of ix e) as Hr by (intros e; unfold rows_of, log_of, segment_deletes, ctids_of; by rewrite Hl, Hf).
  pose proof (ok_total _ _ Hok) as Kt. rewrite Hp, docs_in_app in Kt. split; [|split; [|lia]].
  - destruct Hok as [Ke Ki Kn Kh Kx Ku Kd _ Kf]. split.
    + intros e He Hve. apply Hk, Ke; [by apply Hin|done].
    + rewrite Hm, <- list_fmap_compose. erewrite list_fmap_ext; [exact Ki|]. intros i x _. unfold compose, mark. by case_decide.
    + intros e He Hve. apply Kn; [by apply Hin|done].
    + rewrite Hp in Kh. rewrite omap_app in Kh. by apply NoDup_app in Kh as (_ & _ & ?).
    + intros e He Hve. apply Kx; [by apply Hin|done].
    + intros Hro e He Hu. destruct (Hfrom e He) as (x & Hx & Hid & Hc & Hex). destruct (decide (segment_id x ∈ ids)) as [Hi|Hi]; [exfalso|by rewrite (Hex Hi) in Hu |- *; apply Ku].
      assert (unfrozen x = true) as Hux by (unfold unfrozen in *; by rewrite <- Hc). assert (visible x = true) as Hvx by (by apply Ku). unfold ids in Hi. apply list_elem_of_fmap in Hi as (y & Hy & Hye). destruct (Hes y Hye) as [Hyin Hym].
      assert (x = y) as -> by (apply (ids_unique (metas ix) y x Ki Hyin Hx); [apply Kn; [done|by apply mergeable_visible]|done]).
      unfold is_mergeable, unfrozen in *. destruct (content y) as [|c]; [done|]. apply andb_true_iff in Hym as [_ Hym]. destruct (frozen c); [done|]. by destruct rows.
    + intros e He Hve. apply Kd; [by apply Hin|done].
    + enough (0 <= docs_in es) by lia. assert (Forall (fun e => 0 < max_doc e) es) as Hpos by (apply Forall_forall; intros e He; destruct (Hes e He); apply Kd; [done|by apply mergeable_visible]).
      clear -Hpos. induction Hpos; unfold docs_in in *; cbn [foldr]; lia.
    + intros e He. destruct (Hfrom e He) as (x & Hx & _ & Hc & _). specialize (Kf x Hx). unfold has_files, pintest_blockno in *. by rewrite Hc.
  - unfold all_rows. rewrite Hp at 1. rewrite bind_app, Permutation_app_comm. f_equiv. clear -Hr. induction (visible_metas ix') as [|e l IH]; [done|]. rewrite !bind_cons, Hr. by f_equiv.
Qed.

(** What a merge saves. *)
Abbreviation created om := (option_list ((fun x : TantivySegment * files_of => created_entry (t_id x.1) x.1 x.2) <$> om)).
Abbreviation merged_metas loaded ids om := (filter (fun m => t_id m ∉ ids) (tantivy_meta <$> loaded) ++ option_list (fst <$> om)).
Definition merged_files (om : option (TantivySegment * files_of)) : gmap Z files_of := match om with Some x => {[t_id x.1 := x.2]} | None => ∅ end.

Lemma tantivy_meta_id e : t_id (tantivy_meta e) = segment_id e.
Proof. unfold tantivy_meta, as_tantivy. by destruct (content e). Qed.

Lemma loaded_metas_ids (loaded : list SegmentMetaEntry) i : i ∈ ids_of_meta (tantivy_meta <$> loaded) <-> i ∈ segment_id <$> loaded.
Proof. unfold ids_of_meta. rewrite elem_of_list_to_set, <- list_fmap_compose. erewrite list_fmap_ext; [done|]. intros k e _. apply tantivy_meta_id. Qed.

Lemma merged_metas_ids (loaded : list SegmentMetaEntry) (ids : list Z) (om : option (TantivySegment * files_of)) i :
  i ∈ ids_of_meta (merged_metas loaded ids om) <-> i ∈ segment_id <$> loaded /\ i ∉ ids \/ exists x, om = Some x /\ t_id x.1 = i.
Proof.
  unfold ids_of_meta. rewrite elem_of_list_to_set, fmap_app, elem_of_app. f_equiv.
  - rewrite <- loaded_metas_ids. unfold ids_of_meta. rewrite elem_of_list_to_set, !list_elem_of_fmap. split.
    + intros (m & -> & [Hi Hm]%list_elem_of_filter). split; [by exists m|done].
    + intros ((m & -> & Hm) & Hi). exists m. split; [done|]. by apply list_elem_of_filter.
  - destruct om as [x|]; cbn; [|set_solver]. rewrite list_elem_of_singleton. naive_solver.
Qed.

Lemma saved_merged (loaded : list SegmentMetaEntry) (ids : list Z) (om : option (TantivySegment * files_of)) (es : list SegmentMetaEntry) : (forall i, i ∈ ids -> i ∈ segment_id <$> loaded) ->
  (forall x, om = Some x -> t_id x.1 ∉ segment_id <$> loaded /\ x.2 !! Delete = None) ->
  let new := merged_metas loaded ids om in let prev := tantivy_meta <$> loaded in
  modified_ids (merged_files om) new prev = [] /\ (forall i, i ∈ deleted_ids new prev <-> i ∈ ids) /\
  saved new prev (merged_files om) es = (mark ids <$> es) ++ created om.
Proof.
  intros Hids Hom new prev. assert (modified_ids (merged_files om) new prev = []) as Hmod.
  { apply filter_none. intros i _ [x Hx]. destruct om as [[m fs]|]; [|cbn [merged_files] in Hx; by rewrite lookup_empty in Hx]. destruct (Hom _ eq_refl) as [_ Hd]. cbn [merged_files fst snd] in Hx, Hd.
    destruct (decide (i = t_id m)) as [->|Hne]; [rewrite lookup_singleton_eq in Hx; cbn in Hx; congruence|by rewrite lookup_singleton_ne in Hx]. }
  assert (forall i, i ∈ deleted_ids new prev <-> i ∈ ids) as Hdel.
  { intros i. unfold deleted_ids. rewrite elem_of_elements, elem_of_difference. unfold new, prev. rewrite merged_metas_ids, loaded_metas_ids. split.
    - intros [Hl Hn]. destruct (decide (i ∈ ids)); [done|]. exfalso. apply Hn. by left.
    - intros Hi. split; [by apply Hids|]. intros [[_ ?]|(x & Hx & Hxi)]; [done|]. apply (Hom x Hx). rewrite Hxi. by apply Hids. }
  split; [done|]. split; [done|]. unfold saved. rewrite Hmod. f_equal.
  - apply list_fmap_ext. intros _ e _. unfold changed, mark. destruct (decide (segment_id e ∈ ids)) as [Hi|Hi]; [rewrite decide_True by (by apply Hdel); done|]. rewrite decide_False by (by rewrite Hdel).
    by rewrite decide_False by apply not_elem_of_nil.
  - assert (forall f : gmap Z TantivySegment, omap (orphan f (merged_files om) []) es = []) as ->.
    { intros f. induction es as [|e l IH]; [done|]. cbn [omap list_omap]. unfold orphan at 1. rewrite decide_False by apply not_elem_of_nil. exact IH. }
    rewrite app_nil_r. destruct om as [[m fs]|].
    + assert (created_ids new prev = [t_id m]) as ->.
      { unfold created_ids. replace (ids_of_meta new ∖ ids_of_meta prev) with ({[t_id m]} : gset Z); [apply elements_singleton|]. apply set_eq. intros i. rewrite elem_of_difference, elem_of_singleton. unfold new, prev.
        rewrite merged_metas_ids, loaded_metas_ids. destruct (Hom _ eq_refl) as [Hm _]. cbn [fst] in Hm. split; [intros ->; split; [right; by exists (m, fs)|done]|]. intros [[[? _]|(x & [= <-] & Hx)] Hn]; [done|by rewrite <- Hx]. }
      unfold created_of. cbn [omap list_omap]. unfold incoming_segments, new. change (option_list (fst <$> Some (m, fs))) with [m]. cbn [merged_files fst snd]. rewrite foldl_app. cbn [foldl]. by rewrite lookup_insert_eq, lookup_singleton_eq.
    + replace (created_ids new prev) with (@nil Z); [done|]. unfold created_ids. symmetry. apply elements_empty_iff. intros i. rewrite elem_of_empty, elem_of_difference. unfold new, prev. rewrite merged_metas_ids, loaded_metas_ids. naive_solver.
Qed.

Lemma created_bind {B} (om : option (TantivySegment * files_of)) (g : SegmentMetaEntry -> list B) r :
  (forall x, x ∈ created om -> g x = r) -> (om = None -> r = []) -> created om ≫= g = r.
Proof. destruct om as [x|]; intros Hs Hn; cbn; [|by rewrite Hn]. rewrite app_nil_r. apply Hs. left. Qed.

(** The entry of the new segment. *)
Lemma merged_entry n (ix' : Index) nid fs sources : fs !! Delete = None -> is_Some (fs !! Postings) -> docs_of (files ix') nid = live_docs sources -> live_docs sources <> [] ->
  Forall (fun d => is_Some (as_u64 ctid_field d)) (live_docs sources) ->
  let e := created_entry nid (mkTantivy nid (count (live_docs sources)) 0) fs in
  entry_ok n ix' e /\ header_of e = None /\ has_files e /\ 0 < max_doc e /\ rows_of ix' e = omap (as_u64 ctid_field) (live_docs sources).
Proof.
  intros Hd [p Hp] Hdocs Hnil Hsome e. assert (exists c, content e = Immutable c /\ delete c = None) as (c & Ec & Edel) by (eexists; split; [done|]; cbn; by rewrite Hd).
  assert (docs_of (files ix') (segment_id e) = live_docs sources) as Hde by done. split_and!.
  - unfold entry_ok. rewrite Ec, Hde, Edel. by split_and!.
  - unfold header_of. by rewrite Ec.
  - unfold has_files, pintest_blockno. cbn. rewrite Hp. by eexists.
  - cbn. destruct (live_docs sources); [done|]. cbn [length]. lia.
  - unfold rows_of, segment_deletes, ctids_of. by rewrite Ec, Edel, alive_all, Hde.
Qed.

(** The new segment has the rows of the merged ones. *)
Lemma merged_index n ix ix' es nid om sources : index_ok n ix -> (forall e, e ∈ es -> e ∈ metas ix /\ is_mergeable rows e = true) -> NoDup (segment_id <$> es) ->
  nid ∉ segment_id <$> metas ix -> nid <> 0 -> metas ix' = (mark (segment_id <$> es) <$> metas ix) ++ created om -> logs ix' = logs ix -> files_kept ix ix' ->
  (forall id, id <> nid -> docs_of (files ix') id = docs_of (files ix) id) ->
  (om = None -> live_docs sources = []) ->
  (forall x, om = Some x -> x.1 = mkTantivy nid (count (live_docs sources)) 0 /\ x.2 !! Delete = None /\ is_Some (x.2 !! Postings) /\ docs_of (files ix') nid = live_docs sources /\ live_docs sources <> []) ->
  Forall (fun d => is_Some (as_u64 ctid_field d)) (live_docs sources) -> omap (as_u64 ctid_field) (live_docs sources) = es ≫= rows_of ix -> count (live_docs sources) <= docs_in es ->
  index_ok n ix' /\ all_rows ix' ≡ₚ all_rows ix.
Proof.
  intros Hok Hall Hnd Hfresh Hnz Hm Hl Hf Hother Hnone Hnf Hsome Hrows Hcount.
  set (ix1 := mkIndex (mark (segment_id <$> es) <$> metas ix) (logs ix) (files ix) (merge_list ix) (vacuum_list ix) (ambulkdelete_epoch ix) (merge_requests ix)).
  destruct (marked_index n ix ix1 es Hok Hall Hnd) as (Hok1 & Hr1 & Ht1); [done..|].
  assert (nid ∉ segment_id <$> metas ix1) as Hfresh1. { cbn [metas ix1]. rewrite <- list_fmap_compose. intros Hin. apply Hfresh. erewrite list_fmap_ext; [exact Hin|]. intros i y _. unfold compose, mark. by case_decide. }
  assert (forall x, x ∈ metas ix1 -> visible x = true -> entry_ok n ix1 x -> entry_ok n ix' x /\ rows_of ix' x = rows_of ix1 x) as Hk1.
  { intros x Hx Hv Hex. apply (entry_kept n n ix1 ix' x); [done|done|exact Hf| |by rewrite Hl]. intros _. apply Hother. intros Heq. apply Hfresh1. rewrite <- Heq. by apply list_elem_of_fmap_2. }
  assert (forall x, x ∈ created om -> (entry_ok n ix' x /\ header_of x = None /\ has_files x /\ 0 < max_doc x /\ rows_of ix' x = omap (as_u64 ctid_field) (live_docs sources)) /\
    xmax x = InvalidTransactionId /\ segment_id x = nid /\ visible x = true) as Hnew.
  { intros x Hx. destruct om as [[m fs]|]; [|by apply elem_of_nil in Hx]. apply list_elem_of_singleton in Hx as ->. destruct (Hnf _ eq_refl) as (Hmm & Hd & Hp & Hdocs & Hnil). cbn [fst snd] in *. subst m. split; [by apply merged_entry|done]. }
  split.
  - eapply (index_append n n ix1 ix' (created om)); [done|done|intros x Hx Hv Hex; by apply Hk1| | | | | | |].
    + intros x Hx _. split; by apply Hnew.
    + destruct om; [apply NoDup_singleton|constructor].
    + intros x Hx. destruct (Hnew x Hx) as (_ & _ & -> & ?). by split_and!.
    + destruct om; constructor.
    + intros x hb Hx Hh. destruct (Hnew x Hx) as ((_ & Hno & _) & _). congruence.
    + intros x Hx. split; by apply Hnew.
    + assert (docs_in (created om) <= docs_in es); [|lia]. destruct om as [x|]; cbn; [|lia]. destruct (Hnf x eq_refl) as (-> & _). cbn. lia.
  - rewrite (rows_append ix1 ix' (created om)); [|done|intros x Hx Hv; apply Hk1; [done..|by apply (ok_entries _ _ Hok1)]|intros x Hx; by apply Hnew]. rewrite Hr1. f_equiv.
    rewrite <- Hrows. rewrite (created_bind om _ (omap (as_u64 ctid_field) (live_docs sources))); [done|intros x Hx; by apply Hnew|]. intros Hno. by rewrite (Hnone Hno).
Qed.

(** Merging moves the rows of the merged segments to the new one, or leaves all as it was. *)
Lemma merge_segments_spec n ix loaded ids : index_ok n ix -> n < 2 ^ 31 -> NoDup ids -> loaded_ok ix loaded ids ->
  mwp never (merge_segments loaded ids) ix (fun _ ix' => index_ok n ix' /\ all_rows ix' ≡ₚ all_rows ix /\
    forall e, e ∈ metas ix -> segment_id e ∉ ids -> e ∈ metas ix').
Proof.
  intros Hok Hn Hnd Hl. destruct (loaded_entries ix loaded ids Hl) as (es & Hes & Hids & Hall).
  destruct (sources_ok n ix es Hok Hn) as (sources & Hs & Hsome & Hrows & Hcount); [intros e He; destruct (Hall e He); split; [done|by apply mergeable_visible]|].
  unfold Writes.merge_segments. apply mwp_bind, mwp_gets. unfold id at 1. apply mwp_bind. rewrite Hes. apply mwp_ret. apply mwp_bind. unfold id at 1. rewrite Hs. apply mwp_ret. cbv beta zeta. unfold id.
  set (nid := generate_random _). destruct (random_new ((segment_id <$> metas ix) ++ (segment_id <$> loaded))) as [Hfresh Hnz]. fold nid in Hfresh, Hnz. apply not_elem_of_app in Hfresh as [Hfresh Hfl].
  pose proof (merge_none nid sources (files ix)) as Ln. pose proof (merge_some nid sources (files ix)) as Ls. pose proof (merge_other nid sources (files ix)) as Lo. pose proof (merge_known nid sources (files ix)) as Lk.
  destruct (merge_documents nid sources (files ix)) as [nf f']. cbn [fst snd] in *. apply mwp_bind, mwp_modify. cbv beta.
  set (om := (fun fs => (mkTantivy nid (count (live_docs sources)) 0, fs)) <$> nf).
  assert (om = None -> live_docs sources = []) as Hnone. { intros Hno. destruct (decide (live_docs sources = [])) as [|Hnil]; [done|]. destruct (Ls Hnil) as [(fs' & Heq & _) _]. unfold om in Hno. by rewrite Heq in Hno. }
  assert (forall x, om = Some x -> x.1 = mkTantivy nid (count (live_docs sources)) 0 /\ x.2 !! Delete = None /\ is_Some (x.2 !! Postings) /\ docs_of f' nid = live_docs sources /\ live_docs sources <> []) as Hnf.
  { intros x Hx. unfold om in Hx. destruct nf as [fs|]; [|done]. injection Hx as <-. destruct (decide (live_docs sources = [])) as [Hnil|Hnil]; [by specialize (Ln Hnil)|]. destruct (Ls Hnil) as [(fs' & [= <-] & ? & ?) ?]. done. }
  match goal with |- mwp _ ?c _ _ => assert (c = save_metas (merged_metas loaded ids om) (tantivy_meta <$> loaded) (merged_files om)) as -> by (unfold om; destruct nf; [done|cbn; by rewrite app_nil_r]) end.
  destruct (saved_merged loaded ids om (metas ix)) as (Hmod & Hdel & Hsaved).
  { intros i (e & _ & _ & _ & Hh)%Hl. apply head_Some_elem_of in Hh. apply list_elem_of_filter in Hh as [<- ?]. by apply list_elem_of_fmap_2. }
  { intros x Hx. destruct (Hnf x Hx) as (-> & ? & _). done. }
  match goal with |- mwp _ _ ?x _ => set (ixf := x) end. unfold save_metas. case_decide as Hempty.
  { apply mwp_ret. destruct (files_changed n ix ixf) as [Hokf Hrf]; [done|done|done|exact Lk| |by rewrite Hrf]. intros e He _. apply Lo. intros Heq. apply Hfresh. rewrite <- Heq. by apply list_elem_of_fmap_2. }
  apply mwp_bind, mwp_gets. cbv beta. change (metas ixf) with (metas ix). rewrite Hmod, Hsaved. cbn [forallb andb].
  match goal with |- context [forallb ?d (deleted_ids _ _)] => assert (forallb d (deleted_ids (merged_metas loaded ids om) (tantivy_meta <$> loaded)) = true) as -> end.
  { apply forallb_forall. intros i (e & Hin & Hm & <- & _)%list_elem_of_In%Hdel%Hl. rewrite (found_entry n ix e Hok Hin (mergeable_visible e Hm)). apply Z.eqb_eq. by apply (ok_xmax _ _ Hok), mergeable_visible. }
  apply mwp_modify. match goal with |- ?A /\ ?B /\ ?C => enough ((A /\ B) /\ C) by tauto end. split.
  - subst ids. by apply (merged_index n ix _ es nid om sources).
  - intros e He Hni. cbn [metas]. apply elem_of_app. left. apply list_elem_of_fmap. exists e. split; [|done]. unfold mark. by rewrite decide_False.
Qed.

Lemma sublist_filter_mono {A} (P : A -> Prop) `{forall x, Decision (P x)} (l l' : list A) : l `sublist_of` l' -> filter P l `sublist_of` filter P l'.
Proof. induction 1; rewrite ?filter_cons; repeat case_decide; try done; by constructor. Qed.

(** Collecting garbage drops segments that no one sees. *)
Lemma gc_spec n ix : index_ok n ix ->
  mwp never (garbage_collect_index be) ix (fun _ ix' => index_ok n ix' /\ all_rows ix' = all_rows ix /\ forall e, e ∈ metas ix -> visible e = true -> e ∈ metas ix').
Proof.
  intros [Ke Ki Kn Kh Kx Ku Kd Kt Kf]. unfold garbage_collect_index. apply mwp_bind, mwp_gets. unfold id.
  assert (forallb (MergeDriver.testable (granted be ix)) (metas ix) = true) as ->.
  { apply forallb_forall. intros e He%list_elem_of_In. unfold MergeDriver.testable, recyclable. destruct (is_deleted e); [|done]. destruct (Kf e He) as [b Hb]. by rewrite Hb. }
  apply mwp_modify. match goal with |- index_ok _ ?x /\ _ => set (ix' := x) end.
  assert (forall e, visible e = true -> MergeDriver.goes (granted be ix) e = false) as Hgoes by (intros e Hv; unfold MergeDriver.goes, recyclable, visible in *; by destruct (is_deleted e)).
  assert (forall e, e ∈ metas ix' -> e ∈ metas ix) as Hin by (intros e [_ ?]%list_elem_of_filter; done).
  assert (visible_metas ix' = visible_metas ix) as Hv.
  { unfold visible_metas. cbn [metas ix']. clear -Hgoes. induction (metas ix) as [|e es IH]; [done|]. rewrite !(filter_cons _ e). destruct (decide (visible e = true)) as [Hv|Hv].
    - rewrite decide_True by (by apply Hgoes). by rewrite filter_cons, decide_True, IH.
    - case_decide; [by rewrite filter_cons, decide_False|done]. }
  split; [|split].
  - split; rewrite ?Hv; try done; auto; [intros e He Hve; exact (Ke e (Hin e He) Hve)|]. eapply sublist_NoDup; [exact Ki|]. apply sublist_filter_mono, fmap_sublist, sublist_filter.
  - unfold all_rows. by rewrite Hv.
  - intros e He Hve. apply list_elem_of_filter. split; [by apply Hgoes|done].
Qed.

(** The policy decides over the segments that can be merged. *)
Lemma mergeable_entries_ok n ix : index_ok n ix -> n < 2 ^ 31 -> entries_ok ((fun e => (segment_id e, e)) <$> mergeable_entries rows ix).
Proof.
  intros Hok Hn. set (es := mergeable_entries rows ix). assert (es `sublist_of` visible_metas ix) as Hsub.
  { unfold es, mergeable_entries, visible_metas. clear. induction (metas ix) as [|e l IH]; [done|]. rewrite !filter_cons. destruct (decide (satisfies rows Mergeable e = true)) as [Hm|Hm].
    - rewrite decide_True by (by apply mergeable_visible). by constructor.
    - case_decide; [by constructor|done]. }
  assert (Forall (fun e => 0 < max_doc e) (visible_metas ix)) as Hpos by (apply Forall_forall; intros e [? ?]%list_elem_of_filter; by apply (ok_docs _ _ Hok)). split.
  - rewrite <- list_fmap_compose. eapply sublist_NoDup; [by eapply visible_ids|]. by apply fmap_sublist.
  - by apply Forall_fmap, Forall_true.
  - apply Forall_fmap. eapply sublist_Forall; [exact Hsub|]. done.
  - pose proof (ok_total _ _ Hok) as Kt. assert (forall l, total_docs ((fun e => (segment_id e, e)) <$> l) = docs_in l) as -> by (intros l; induction l as [|e l IH]; [done|]; rewrite fmap_cons; unfold total_docs, docs_in in *; cbn [foldr snd]; by rewrite IH).
    enough (0 <= docs_in es <= docs_in (visible_metas ix)) by lia. clear -Hsub Hpos. revert Hpos. induction Hsub as [|x l1 l2 Hs IH|x l1 l2 Hs IH]; intros Hpos; [done|..]; apply Forall_cons in Hpos as [Hx Hpos]; specialize (IH Hpos); unfold docs_in in *; cbn [foldr]; lia.
Qed.

Lemma run_policy_decides n ix layers : index_ok n ix -> n < 2 ^ 31 ->
  mwp never (run_policy be layers (mergeable_entries rows ix)) ix (fun r ix' => ix' = ix /\ NoDup (concat r.1) /\ forall i, i ∈ concat r.1 -> i ∈ segment_id <$> mergeable_entries rows ix).
Proof.
  intros Hok Hn. unfold run_policy. apply mwp_bind, mwp_gets. cbv zeta. unfold id. set (p := MergePolicy.set_mergeable_segment_entries _ _ _ _).
  destruct (simulate_decides p) as (cands & p' & -> & Hnd & _ & Hin); [eapply entries_ok_sub; [apply sublist_filter|by eapply mergeable_entries_ok]|done|].
  apply mwp_ret. split; [done|]. split; [done|]. intros i Hi%Hin. apply list_elem_of_fmap in Hi as ([k e] & -> & [_ (x & [= -> ->] & Hx)%list_elem_of_fmap]%list_elem_of_filter). by apply (list_elem_of_fmap_2 segment_id).
Qed.

Lemma candidates_merged_spec n gc loaded merged cands ix : index_ok n ix -> n < 2 ^ 31 -> NoDup (concat cands) -> loaded_ok ix loaded (concat cands) -> (forall i, i ∈ concat cands -> i ∉ merged) ->
  mwp never (merge_loop gc loaded merged cands) ix (fun _ ix' => index_ok n ix' /\ all_rows ix' ≡ₚ all_rows ix).
Proof.
  intros Hok Hn. revert merged ix Hok. induction cands as [|c cands IH]; intros merged ix Hok Hnd Hl Hm; cbn [Writes.merge_loop]; [by apply mwp_ret|]. cbn [concat] in *. apply NoDup_app in Hnd as (Hc & Hdis & Hnd).
  apply mwp_bind. rewrite (proj2 (forallb_forall _ _)) by (intros i Hi%list_elem_of_In; apply bool_decide_eq_true, Hm, elem_of_app; by left). apply mwp_ret. apply mwp_bind.
  eapply mwp_mono; [apply (merge_segments_spec n); [done|done|done|intros i Hi; apply Hl, elem_of_app; by left]|]. intros _ ix1 (Hok1 & Hr1 & Hk1). apply mwp_bind.
  apply (mwp_mono _ _ _ (fun _ ix2 => index_ok n ix2 /\ all_rows ix2 = all_rows ix1 /\ forall e, e ∈ metas ix1 -> visible e = true -> e ∈ metas ix2)); [destruct gc; [by apply gc_spec|by apply mwp_ret]|].
  intros _ ix2 (Hok2 & Hr2 & Hk2). eapply mwp_mono; [apply (IH _ ix2); [done|done| |]|].
  - intros i Hi. destruct (Hl i ltac:(apply elem_of_app; by right)) as (e & He & Hme & Hid & Hh). exists e. split; [|done]. apply Hk2; [|by apply mergeable_visible]. apply Hk1; [done|]. rewrite Hid. intros Hx. by apply (Hdis i).
  - intros i Hi. rewrite elem_of_union, elem_of_list_to_set. intros [Hx|Hx]; [by apply (Hm i); [apply elem_of_app; right|]|by apply (Hdis i)].
  - intros _ ix3 [Hok3 Hr3]. split; [done|]. by rewrite Hr3, Hr2, Hr1.
Qed.

Lemma without_entry_some x (l : list (MergeEntry * list Z)) : x ∈ l.*1 -> exists l', without_entry x l = Some l' /\ l.*1 ≡ₚ x :: l'.*1.
Proof.
  induction l as [|y l IH]; [by intros ?%elem_of_nil|]. cbn [without_entry]. rewrite fmap_cons. destruct (decide (y.1 = x)) as [<-|Hne]; [by exists l|]. intros [->|Hx]%elem_of_cons; [done|].
  destruct (IH Hx) as (l' & -> & Hp). exists (y :: l'). split; [done|]. rewrite fmap_cons, Hp. constructor.
Qed.

Lemma keeps_merge_segments loaded ids : keeps (merge_segments loaded ids).
Proof. unfold Writes.merge_segments. keep. Qed.
#[local] Hint Resolve keeps_merge_segments : keeps.

Lemma keeps_merge_loop gc loaded merged cands : keeps (merge_loop gc loaded merged cands).
Proof.
  revert merged. induction cands as [|c cands IH]; intros merged; cbn [Writes.merge_loop]; keep.
Qed.

Lemma merge_index_spec n ix layers gc : index_ok n ix -> n < 2 ^ 31 -> mwp never (merge_index layers gc) ix (fun _ ix' => index_ok n ix' /\ all_rows ix' ≡ₚ all_rows ix /\ same_merges ix ix').
Proof.
  intros Hok Hn. unfold Writes.merge_index. apply mwp_bind, mwp_gets. apply mwp_bind. eapply mwp_mono; [by apply (run_policy_decides n)|]. intros [cands p] ? (-> & Hnd & Hin). cbn [fst] in *. case_decide; [apply mwp_ret; by unfold same_merges|].
  apply mwp_bind. unfold add_segment_ids. repeat first [apply mwp_bind | apply mwp_modify | apply mwp_gets | apply mwp_ret]. cbv beta. unfold id.
  match goal with |- mwp _ _ ?x _ => set (ix1 := x) end. destruct (index_same n ix ix1) as [Hok1 Hr1]; [done..|]. specialize (Hok1 Hok).
  eapply mwp_mono; [apply keeps_mwp; [apply keeps_merge_loop|]; apply (candidates_merged_spec n); [exact Hok1|done|done| |by intros i _ ?%elem_of_empty]|].
  { intros i (e & -> & [Hm He]%list_elem_of_filter)%Hin%list_elem_of_fmap. exists e. split; [done|]. split; [done|]. split; [done|].
    destruct (filter (fun x => segment_id x = segment_id e) (mergeable_entries rows ix)) as [|y l] eqn:Ef.
    - assert (e ∈ filter (fun x => segment_id x = segment_id e) (mergeable_entries rows ix)) as Hx by (by apply list_elem_of_filter; split; [|apply list_elem_of_filter]). rewrite Ef in Hx. by apply elem_of_nil in Hx.
    - assert (y ∈ filter (fun x => segment_id x = segment_id e) (mergeable_entries rows ix)) as [Hy [_ Hyin]%list_elem_of_filter]%list_elem_of_filter by (rewrite Ef; left). cbn. f_equal. apply (entry_unique n ix e y Hok He); [by apply mergeable_visible|done|done]. }
  intros _ ix2 [[Hok2 Hr2] Hm2]. rewrite Hr1 in Hr2. apply mwp_bind. unfold remove_entry. apply mwp_bind, mwp_gets. unfold id. unfold same_merges in Hm2. cbn [merge_list ix1] in Hm2. rewrite fmap_app in Hm2.
  match goal with |- context [without_entry ?x _] => destruct (without_entry_some x (merge_list ix2)) as (l & -> & Hp); [rewrite Hm2; apply elem_of_app; right; by left|] end.
  apply mwp_bind, mwp_ret, mwp_modify. match goal with |- mwp _ _ ?x _ => set (ix3 := x) end. destruct (index_same n ix2 ix3) as [Hok3 Hr3]; [done..|]. specialize (Hok3 Hok2).
  assert (same_merges ix ix3) as Hm3. { unfold same_merges. cbn [merge_list ix3]. rewrite Hp, (Permutation_app_comm (merge_list ix).*1) in Hm2. by apply Permutation_cons_inv in Hm2. }
  destruct gc; [apply mwp_ret; by rewrite Hr3|]. eapply mwp_mono; [apply keeps_mwp; [unfold garbage_collect_index; keep|]; by apply (gc_spec n)|]. intros _ ix4 [(Hok4 & Hr4 & _) Hm4]. split; [done|]. split; [by rewrite Hr4, Hr3|]. unfold same_merges in *. by rewrite Hm4.
Qed.

Lemma layer_sizes_some ix : exists sizes, MergeDriver.index_layer_sizes target_segment_count foreground background (metas ix) = Some sizes.
Proof. unfold MergeDriver.index_layer_sizes. case_match; [by eexists|]. destruct (Z.eqb_spec target_segment_count 0); [lia|]. by eexists. Qed.

Lemma do_merge_spec n ix style : index_ok n ix -> n < 2 ^ 31 -> mwp never (do_merge style) ix (fun _ ix' => index_ok n ix' /\ all_rows ix' ≡ₚ all_rows ix /\ same_merges ix ix').
Proof.
  intros Hok Hn. unfold Writes.do_merge. apply mwp_bind. unfold index_layer_sizes. apply mwp_bind, mwp_gets. unfold id. destruct (layer_sizes_some ix) as [sizes ->]. apply mwp_ret. apply mwp_bind.
  apply (mwp_mono _ _ _ (fun _ ix' => ix' = ix)).
  { unfold needs_background_merge. apply mwp_bind, mwp_gets. unfold id. case_match; [|by apply mwp_ret]. apply mwp_bind. eapply mwp_mono; [by apply (run_policy_decides n)|]. intros [cands p] ? (-> & _). by apply mwp_ret. }
  intros b ? ->. destruct b; [|case_match; [by apply merge_index_spec|apply mwp_ret; by unfold same_merges]].
  apply mwp_modify. match goal with |- index_ok _ ?x /\ _ => destruct (index_same n ix x) as [Hk Hrk]; [done..|] end. split; [by apply Hk|]. split; [by rewrite Hrk|by unfold same_merges].
Qed.

Lemma background_merge_spec n ix : index_ok n ix -> n < 2 ^ 31 -> mwp never background_merge ix (fun _ ix' => index_ok n ix' /\ all_rows ix' ≡ₚ all_rows ix /\ same_merges ix ix').
Proof. intros Hok Hn. unfold Writes.background_merge. apply mwp_bind. unfold index_layer_sizes. apply mwp_bind, mwp_gets. unfold id. destruct (layer_sizes_some ix) as [sizes ->]. apply mwp_ret. by apply merge_index_spec. Qed.

(** *** Statements *)

Abbreviation insert := (insert cat numeric_to_f64 f32_text_to_f64 uuid_text parse_inet ymd_days from_json bound_try_from bound_json ctid_field categorized_fields work_mem rows generate_random target_segment_count foreground background be).
Abbreviation aminsert := (aminsert cat numeric_to_f64 f32_text_to_f64 uuid_text parse_inet ymd_days from_json bound_try_from bound_json ctid_field categorized_fields work_mem rows generate_random target_segment_count foreground background be).
Abbreviation insert_statement := (insert_statement cat numeric_to_f64 f32_text_to_f64 uuid_text parse_inet ymd_days from_json bound_try_from bound_json ctid_field categorized_fields work_mem rows generate_random target_segment_count foreground background be).
Abbreviation insertcleanup := (insertcleanup cat numeric_to_f64 f32_text_to_f64 uuid_text parse_inet ymd_days from_json bound_try_from bound_json ctid_field categorized_fields rows generate_random target_segment_count foreground background be).

Definition mode_rows (mode : InsertMode) : list Z :=
  match mode with InsertImmutable w _ => pending_rows w | InsertMutable cs _ _ => cs | Completed => [] end.

(** The state of a statement that is under way; [n] rows have been added to segments, or are to be. *)
Definition statement_ok n ix (mode : InsertMode) : Prop :=
  0 <= n - count (mode_rows mode) /\ index_ok (n - count (mode_rows mode)) ix /\
  match mode with
  | InsertImmutable w fields => writer_ok ix w /\ fields = categorized_fields
  | InsertMutable cs attno limit => rows = Some limit /\ NoDup cs /\ (forall c, c ∈ cs -> c ∉ all_rows ix) /\
      exists f c, (f, attno, c) ∈ categorized_fields /\ is_key_field c = true
  | Completed => False
  end.

(** A statement that has rows for a mutable segment, if it is to have one. *)
Definition has_rows (mode : InsertMode) : Prop := match mode with InsertMutable cs _ _ => cs <> [] | _ => True end.

Lemma writer_insert_spec n ix w d ctid : index_ok (n - count (pending_rows w)) ix -> writer_ok ix w -> as_u64 ctid_field (d ++ [(ctid_field, U64 ctid)]) = Some ctid ->
  mwp never (writer_insert ctid_field generate_random d ctid w) ix
    (fun r ix' => index_ok (n + 1 - count (pending_rows r.2)) ix' /\ writer_ok ix' r.2 /\ (length (pending_rows r.2) <= length (pending_rows w) + 1)%nat /\
       all_rows ix' ++ pending_rows r.2 ≡ₚ all_rows ix ++ pending_rows w ++ [ctid]).
Proof.
  intros Hok Hw Hd. unfold writer_insert. set (doc := d ++ _) in *. apply mwp_bind.
  apply (mwp_mono _ _ _ (fun p ix' => ix' = ix /\ pending_ok ix p /\ omap (as_u64 ctid_field) (pending_docs p) = pending_rows w)).
  { destruct Hw as [Hn Hp]. unfold pending_rows. destruct (pending_segment w) as [p|]; [apply mwp_ret; by destruct Hp|]. apply mwp_bind, mwp_gets, mwp_ret. split; [done|]. split; [|done].
    split; [constructor|]. cbn. apply random_new. }
  intros p ? (-> & Hp & Hr). set (p' := add_document p doc). set (w' := mkWriter (config w) (Some p') (new_metas w)).
  assert (pending_rows w' = pending_rows w ++ [ctid]) as Hr' by (unfold pending_rows at 1; cbn; rewrite omap_app, Hr; cbn; by rewrite Hd).
  assert (writer_ok ix w') as Hw'.
  { destruct Hw as [Hn _], Hp as (Hf & Hi & H0'). split; [done|]. cbn. split; [split; [|done]|by intros []%app_nil]. apply Forall_app. split; [done|]. constructor; [by eexists|constructor]. }
  assert (n + 1 - count (pending_rows w') = n - count (pending_rows w)) as Hcount by (rewrite Hr', length_app; cbn [length]; lia). rewrite <- Hcount in Hok.
  assert (forall r (s : Index), (index_ok (n + 1) s /\ all_rows s ≡ₚ all_rows ix ++ pending_rows w' /\ writer_ok s r.2 /\ pending_rows r.2 = []) ->
    index_ok (n + 1 - count (pending_rows (r : option TantivySegment * _).2)) s /\ writer_ok s r.2 /\ (length (pending_rows r.2) <= length (pending_rows w) + 1)%nat /\ all_rows s ++ pending_rows r.2 ≡ₚ all_rows ix ++ pending_rows w ++ [ctid]) as Hfin.
  { intros r s (Hs1 & Hs2 & Hs3 & Hs4). rewrite Hs4. cbn [length]. rewrite Z.sub_0_r. split_and!; [done|done|lia|]. by rewrite app_nil_r, Hs2, Hr'. }
  cbv zeta. fold p'. fold w'. destruct (memory_budget (config w') <=? mem_usage p').
  { eapply mwp_mono; [by apply finalize_segment_spec|]. exact Hfin. }
  destruct (max_docs_per_segment (config w')) as [k|]; [destruct (k <=? pending_max_doc p')|]; try (eapply mwp_mono; [by apply finalize_segment_spec|]; exact Hfin);
    (apply mwp_ret; cbn [snd]; split; [done|]; split; [done|]; split; [rewrite Hr', length_app; cbn [length]; lia|]; by rewrite Hr').
Qed.

Lemma insert_immutable_spec n ix w row ctid : 0 <= n - count (pending_rows w) -> index_ok (n - count (pending_rows w)) ix -> writer_ok ix w -> row_ok row ->
  mwp never (insert_immutable row ctid w categorized_fields) ix
    (fun mode ix' => statement_ok (n + 1) ix' mode /\ has_rows mode /\ all_rows ix' ++ mode_rows mode ≡ₚ all_rows ix ++ pending_rows w ++ [ctid]).
Proof.
  intros Hn Hok Hw [d Hd]. unfold Writes.insert_immutable. rewrite Hd. cbn [fst]. apply mwp_bind.
  eapply mwp_mono; [apply (writer_insert_spec n); [done|done|by eapply document_ctid]|]. intros [m w'] ix' (Hok' & Hw' & Hlen & Hr). apply mwp_ret. cbn [snd] in Hlen. split; [|done]. split; [cbn [mode_rows]; lia|]. by split.
Qed.

Lemma keeps_finalize_segment w : keeps (finalize_segment w : M Index unit _).
Proof. unfold finalize_segment, finalize, commit_segment. keep. Qed.
#[local] Hint Resolve keeps_finalize_segment : keeps.

Lemma keeps_cleanup_immutable w : keeps (insertcleanup_immutable w : M Index unit _).
Proof. unfold insertcleanup_immutable, writer_commit. keep. Qed.

Lemma keeps_cleanup_mutable cs : keeps (insertcleanup_mutable rows generate_random cs : M Index unit _).
Proof. unfold insertcleanup_mutable, create_mutable, new_id. keep. Qed.

Lemma keeps_insert_immutable row ctid w fields : keeps (insert_immutable row ctid w fields : M Index unit _).
Proof. unfold Writes.insert_immutable, writer_insert, pending_new, new_id. keep. Qed.

Lemma insertcleanup_spec n ix mode : statement_ok n ix mode -> has_rows mode -> n < 2 ^ 31 ->
  mwp never (insertcleanup mode) ix (fun _ ix' => index_ok n ix' /\ all_rows ix' ≡ₚ all_rows ix ++ mode_rows mode /\ same_merges ix ix').
Proof.
  intros Hs Hrows Hn. unfold Writes.insertcleanup. apply mwp_bind.
  apply (mwp_mono _ _ _ (fun (_ : bool) (s : Index) => (index_ok n s /\ all_rows s ≡ₚ all_rows ix ++ mode_rows mode) /\ same_merges ix s)).
  - destruct mode as [w fields|cs attno limit|]; [| |by destruct Hs as (_ & _ & ?)]; destruct Hs as (Hn0 & Hok & Hs); cbn [mode_rows] in *.
    + destruct Hs as (Hw & _). apply keeps_mwp; [apply keeps_cleanup_immutable|]. unfold insertcleanup_immutable, writer_commit. apply mwp_bind, mwp_bind. eapply mwp_mono; [by apply finalize_segment_spec|].
      intros [m w'] s (Hok' & Hr & _). by repeat apply mwp_ret.
    + destruct Hs as (Hro & Hnd & Hdis & _). apply keeps_mwp; [apply keeps_cleanup_mutable|]. eapply mwp_mono; [apply (cleanup_mutable_spec (n - count cs) ix cs); [by rewrite Hro|done..|lia]|]. intros b s. replace (n - count cs + count cs) with n by lia. done.
  - intros b s [[Hok Hr] Hm]. destruct b; [|apply mwp_ret; done]. eapply mwp_mono; [by apply (do_merge_spec n)|]. intros _ s' (Hok' & Hr' & Hm'). split; [done|]. split; [by rewrite Hr'|]. unfold same_merges in *. by rewrite Hm'.
Qed.

Lemma insert_spec n ix mode row ctid : statement_ok n ix mode -> row_ok row -> ctid ∉ all_rows ix ++ mode_rows mode -> n < 2 ^ 31 ->
  mwp never (insert row ctid mode) ix (fun mode' ix' => (statement_ok (n + 1) ix' mode' /\ has_rows mode' /\ all_rows ix' ++ mode_rows mode' ≡ₚ (all_rows ix ++ mode_rows mode) ++ [ctid]) /\ same_merges ix ix').
Proof.
  intros Hs Hrow Hc Hn. destruct mode as [w fields|cs attno limit|]; [| |by destruct Hs as (_ & _ & ?)]; cbn [Writes.insert].
  - destruct Hs as (Hn0 & Hok & Hw & ->). apply keeps_mwp; [apply keeps_insert_immutable|]. eapply mwp_mono; [by apply (insert_immutable_spec n)|]. intros mode' ix' (Hs' & Hh & Hr). split; [done|]. split; [done|]. cbn [mode_rows]. by rewrite <- app_assoc.
  - pose proof Hs as (Hn0 & Hok & Hro & Hnd & Hdis & f & c & Hin & Hk). cbn [mode_rows] in *. destruct (column row attno) as [d|] eqn:Ec; [|by apply (row_key row f attno c) in Ec]. destruct (Z.ltb_spec (count cs) limit) as [Hl|Hl].
    + apply mwp_ret. split; [|by unfold same_merges]. unfold statement_ok. cbn [mode_rows has_rows]. rewrite length_app, Nat2Z.inj_add. cbn [length].
      replace (n + 1 - (count cs + Z.of_nat 1)) with (n - count cs) by lia. split; [|split; [by intros []%app_nil|by rewrite app_assoc]].
      split_and!; [done|done|done|apply NoDup_app; split_and!; [done|set_solver|apply NoDup_singleton]| |by exists f, c]. intros x [Hx| ->%list_elem_of_singleton]%elem_of_app; [by apply Hdis|set_solver].
    + assert (cs <> []) as Hne by (pose proof (rows_positive limit Hro); destruct cs; [cbn in Hl; lia|done]).
      apply mwp_bind. eapply mwp_mono; [by apply (insertcleanup_spec n)|]. intros [] s (Hok' & Hr & Hm). cbn [insert_mode_immutable_new].
      eapply mwp_mono; [apply keeps_mwp; [apply keeps_insert_immutable|]; apply (insert_immutable_spec n)|].
      * cbn. lia.
      * cbn [pending_rows with_mvcc pending_segment length]. by rewrite Z.sub_0_r.
      * split; [|done]. cbn. intros id Hid. by apply elem_of_empty in Hid.
      * done.
      * intros mode' ix' [(Hs' & Hh & Hr') Hm']. split; [|unfold same_merges in *; by rewrite Hm']. split; [done|]. split; [done|]. rewrite Hr', Hr. done.
Qed.

Lemma aminsert_spec input n ix mode : statement_ok n ix mode -> (input = [] -> has_rows mode) -> Forall (fun r => row_ok r.1) input -> NoDup input.*2 ->
  (forall c, c ∈ input.*2 -> c ∉ all_rows ix ++ mode_rows mode) -> n + count input < 2 ^ 31 ->
  mwp never (aminsert input mode) ix (fun mode' ix' => (statement_ok (n + count input) ix' mode' /\ has_rows mode' /\
    all_rows ix' ++ mode_rows mode' ≡ₚ (all_rows ix ++ mode_rows mode) ++ input.*2) /\ same_merges ix ix').
Proof.
  revert n ix mode. induction input as [|[row ctid] input IH]; intros n ix mode Hs Hh Hrows Hnd Hdis Hn; cbn [Writes.aminsert].
  { apply mwp_ret. cbn. rewrite app_nil_r, Z.add_0_r. split; [|by unfold same_merges]. split; [done|]. split; [by apply Hh|done]. }
  apply Forall_cons in Hrows as [Hrow Hrows]. cbn [fmap list_fmap snd] in Hnd, Hdis. apply NoDup_cons in Hnd as [Hni Hnd]. cbn [length] in Hn.
  apply mwp_bind. eapply mwp_mono; [apply (insert_spec n); [done|done|apply Hdis; left|lia]|]. intros mode' ix' [(Hs' & Hh' & Hr) Hm]. eapply mwp_mono; [apply (IH (n + 1)); [done..| |lia]|].
  - intros c Hc. rewrite Hr, elem_of_app. intros [Hx| ->%list_elem_of_singleton]; [|done]. by apply (Hdis c); [right|].
  - intros mode'' ix'' [(Hs'' & Hh'' & Hr'') Hm'']. replace (n + count ((row, ctid) :: input)) with (n + 1 + count input) by (cbn [length]; lia). split; [|unfold same_merges in *; by rewrite Hm'']. split; [done|]. split; [done|].
    rewrite Hr'', Hr. cbn. by rewrite <- app_assoc.
Qed.

(** A statement adds its rows. *)
Lemma statement_spec input n ix : index_ok n ix -> Forall (fun r => row_ok r.1) input -> NoDup input.*2 -> (forall c, c ∈ input.*2 -> c ∉ all_rows ix) ->
  0 <= n -> n + count input < 2 ^ 31 ->
  mwp never (insert_statement input) ix (fun _ ix' => index_ok (n + count input) ix' /\ all_rows ix' ≡ₚ all_rows ix ++ input.*2 /\ same_merges ix ix').
Proof.
  intros Hok Hrows Hnd Hdis Hn0 Hn. unfold Writes.insert_statement. destruct input as [|r input]; [apply mwp_ret; unfold same_merges; cbn; by rewrite app_nil_r, Z.add_0_r|]. set (inp := r :: input) in *. assert (inp <> []) as Hne by done. clearbody inp.
  apply mwp_bind. apply (mwp_mono _ _ _ (fun mode (s : Index) => s = ix /\ statement_ok n ix mode /\ mode_rows mode = [])).
  - assert (0 <= n - count (@nil Z) /\ index_ok (n - count (@nil Z)) ix) as Hn' by (cbn [length]; by rewrite Z.sub_0_r). unfold insert_state_new. destruct rows as [limit|] eqn:Er.
    + destruct key_exists as (c0 & Hc0 & Hk0). destruct (list_find (fun c : CategorizedField => is_key_field c.2 = true) categorized_fields) as [[i [[f attno] c]]|] eqn:Ef.
      * apply list_find_Some in Ef as (Hi & Hk & _). apply mwp_bind. apply mwp_ret. apply mwp_ret. split; [done|]. split; [|done]. unfold statement_ok. cbn [mode_rows]. split_and!; [apply Hn'|apply Hn'|done|constructor|by intros x ?%elem_of_nil|].
        exists f, c. split; [by eapply list_elem_of_lookup_2|done].
      * apply list_find_None in Ef. rewrite Forall_forall in Ef. by specialize (Ef c0 Hc0).
    + apply mwp_ret. split; [done|]. split; [|done]. unfold statement_ok. cbn [mode_rows]. split; [apply Hn'|]. split; [apply Hn'|]. split; [|done]. split; [|done]. cbn. intros id Hid. by apply elem_of_empty in Hid.
  - intros mode s (-> & Hs & Hm). apply mwp_bind. eapply mwp_mono; [apply (aminsert_spec inp n); [done|done|done|done| |done]|].
    + intros c Hc. rewrite Hm, app_nil_r. by apply Hdis.
    + intros mode' ix' [(Hs' & Hh & Hr) Hm']. eapply mwp_mono; [by apply (insertcleanup_spec (n + count inp))|]. intros [] ix'' (Hok'' & Hr'' & Hm''). split; [done|]. split; [rewrite Hr'', Hr, Hm; by rewrite app_nil_r|]. unfold same_merges in *. by rewrite Hm''.
Qed.

End index.
