(* ===== verification/WritesVacuum.v ===== *)
(** * What a vacuum does to the rows of an index

    [ambulkdelete] removes exactly the rows that are dead, from mutable segments through their
    logs and from immutable ones through new delete files that are saved together.  Any history of
    statements that insert rows, of vacuums and of merges leaves in the index exactly the rows
    that were inserted and not deleted. *)

From stdpp Require Import prelude gmap sorting strings.
From Stdlib Require Import ZArith Lia SpecFloat.
From S2P Require Import Prelude SegmentMeta SegmentMetaProps Pages BlockList LinkedBytes LinkedItems Metas MetasProps MergeList MergeDriver Query Terms RangeField Values Writes WritesProps.
From stdpp Require Import list.
Import SegmentMeta Metas Terms Values Writes.

Local Open Scope Z_scope.

Section vacuum.
Context {St F : Type} `{LogStore St MutableSegmentEntry} `{TantivyFiles F} (ctid_field : Z) (rows : option Z) (dead : Z -> bool).
Abbreviation Index := (Index St F).
Abbreviation index_ok := (index_ok ctid_field rows).
Abbreviation entry_ok := (entry_ok ctid_field).
Abbreviation rows_of := (rows_of ctid_field).
Abbreviation ctids_of := (ctids_of ctid_field).
Abbreviation all_rows := (all_rows ctid_field).
Abbreviation never := (fun _ : Index => False).
Abbreviation change := (TantivySegment * TantivySegment * option (FileEntry * string))%type.
Implicit Types (ix : Index) (e : SegmentMetaEntry) (n : Z) (chg : list change).

(** ** The documents of a segment *)

Lemma delete_docs_mutable ctids doc id cs nc :
  delete_docs dead ctids doc (DeleterMutable id cs) nc = (DeleterMutable id (cs ++ filter (fun c => dead c = true) ctids), nc || existsb dead ctids).
Proof.
  revert doc cs nc. induction ctids as [|c ctids IH]; intros doc cs nc; cbn [delete_docs existsb]; [by rewrite app_nil_r, orb_false_r|].
  rewrite filter_cons. destruct (dead c) eqn:Ed; [|by rewrite IH]. cbn [delete_document]. rewrite IH, decide_True by done. rewrite <- app_assoc. by destruct nc.
Qed.

Lemma delete_docs_immutable ctids doc q e op nc : exists q' op', delete_docs dead ctids doc (DeleterImmutable q e op) nc = (DeleterImmutable (q ++ q') e op', nc || existsb dead ctids) /\
  op <= op' /\ (forall o, o ∈ q' -> op_opstamp o <= op') /\
  (forall d, (exists o, o ∈ q' /\ op_doc_id o = d) <-> exists i c, ctids !! i = Some c /\ dead c = true /\ d = doc + Z.of_nat i).
Proof.
  revert doc q op nc. induction ctids as [|c ctids IH]; intros doc q op nc; cbn [delete_docs existsb].
  { exists [], op. rewrite app_nil_r, orb_false_r. split; [done|]. split; [lia|]. split; [by intros o ?%elem_of_nil|]. intros d. split; [by intros (o & ?%elem_of_nil & _)|by intros (i & c & ? & _)]. }
  assert (forall q' : list DeleteOperation, (forall d, (exists o, o ∈ q' /\ op_doc_id o = d) <-> exists i x, ctids !! i = Some x /\ dead x = true /\ d = doc + 1 + Z.of_nat i) ->
    forall d, (exists o, o ∈ q' /\ op_doc_id o = d) <-> exists (i : nat) x, ctids !! i = Some x /\ dead x = true /\ d = doc + Z.of_nat (S i)) as Hshift.
  { intros q' Hq d. rewrite Hq. split; intros (i & x & Hx & Hd & ->); exists i, x; (split; [done|]); (split; [done|]); lia. }
  destruct (dead c) eqn:Ed.
  - cbn [delete_document]. destruct (IH (doc + 1) (q ++ [mkDeleteOp (op + 1) doc]) (op + 1) true) as (q' & op' & -> & Hle & Ho & Hd). exists (mkDeleteOp (op + 1) doc :: q'), op'. rewrite <- app_assoc. cbn [app].
    split; [by destruct nc|]. split; [lia|]. split; [intros o [->|Hin]%elem_of_cons; [done|by apply Ho]|]. intros d. pose proof (Hshift q' Hd d) as Hs. split.
    + intros (o & [->|Hin]%elem_of_cons & <-); [exists O, c; cbn; split_and!; [done..|lia]|]. destruct (proj1 Hs) as (i & x & Hx); [by exists o|]. by exists (S i), x.
    + intros ([|i] & x & Hx & Hdx & ->); [exists (mkDeleteOp (op + 1) doc); split; [left|cbn; lia]|]. destruct (proj2 Hs) as (o & Hin & Hod); [by exists i, x|]. exists o. split; [by right|done].
  - destruct (IH (doc + 1) q op nc) as (q' & op' & -> & Hle & Ho & Hd). exists q', op'. split; [done|]. split; [done|]. split; [done|]. intros d. rewrite (Hshift q' Hd d). split.
    + intros (i & x & Hx). by exists (S i), x.
    + intros ([|i] & x & Hx & Hdx & ->); [cbn in Hx; congruence|]. by exists i, x.
Qed.

Lemma existsb_none (ctids : list Z) : existsb dead ctids = false -> forall c, c ∈ ctids -> dead c = false.
Proof. intros Hn c Hc. apply not_true_iff_false. intros Hd. assert (existsb dead ctids = true); [|congruence]. apply existsb_exists. exists c. split; [by apply list_elem_of_In|done]. Qed.

Lemma filter_alive (l : list Z) : (forall c, c ∈ l -> dead c = false) -> filter (fun c => dead c = false) l = l.
Proof. intros Hl. apply filter_every. intros c Hc. by apply Hl. Qed.

(** ** The segments *)

Definition new_files chg : gmap Z files_of := list_to_map (omap (fun c : change => (fun f => (t_id c.1.2, {[Delete := f]})) <$> c.2) chg).
Definition new_file chg (id : Z) : option FileEntry := new_files chg !! id ≫= (fun fs => fst <$> fs !! Delete).

(** The rows of a segment once the changes are saved. *)
Definition rows_after ix chg e : list Z :=
  match content e, new_file chg (segment_id e) with
  | Immutable _, Some f => alive (deletes_of (files ix) f) 0 (ctids_of ix e)
  | _, _ => rows_of ix e
  end.

Definition change_ids chg : list Z := (fun c : change => t_id c.1.2) <$> chg.

(** What happens to an entry while the segments with these ids are worked on. *)
Definition entry_after (ids : list Z) ix ix' chg e e' : Prop :=
  segment_id e' = segment_id e /\ visible e' = visible e /\ is_mutable e' = is_mutable e /\ (visible e = false \/ is_mutable e = false -> e' = e) /\
  (visible e = true -> (segment_id e ∈ ids -> rows_after ix' chg e' ≡ₚ filter (fun c => dead c = false) (rows_of ix e)) /\
                       (segment_id e ∉ ids -> e' = e /\ rows_of ix' e = rows_of ix e)).

Record deleted (ids : list Z) n ix ix' chg : Prop := {
  del_ok : index_ok n ix';
  del_files : files_kept ix ix';
  del_docs : forall id, docs_of (files ix') id = docs_of (files ix) id;
  del_entries : Forall2 (entry_after ids ix ix' chg) (metas ix) (metas ix');
  del_changes : forall c, c ∈ chg -> t_id c.1.1 = t_id c.1.2 /\ t_id c.1.2 ∈ ids /\ (exists e, e ∈ metas ix /\ visible e = true /\ is_mutable e = false /\ segment_id e = t_id c.1.2) /\
    (forall f, c.2 = Some f -> file_known (files ix') f.1);
  del_ids : NoDup (change_ids chg);
}.

Lemma new_files_elem chg id f : NoDup (change_ids chg) -> (exists c, c ∈ chg /\ t_id c.1.2 = id /\ c.2 = Some f) <-> new_files chg !! id = Some {[Delete := f]}.
Proof.
  intros Hnd. unfold new_files. rewrite <- elem_of_list_to_map.
  - rewrite list_elem_of_omap. split.
    + intros (c & Hc & <- & Hf). exists c. by rewrite Hf.
    + intros (c & Hc & Hf). destruct (c.2) as [f'|] eqn:Ec; [|done]. apply Some_inj in Hf. pose proof (f_equal fst Hf) as Hid. pose proof (f_equal (fun p : Z * files_of => p.2 !! Delete) Hf) as Hd. cbn [fst snd] in Hid, Hd. rewrite !lookup_singleton_eq in Hd.
      exists c. rewrite Ec. split_and!; [done|done|congruence].
  - clear id f. induction chg as [|c chg IH]; [constructor|]. unfold change_ids in Hnd. rewrite fmap_cons in Hnd. apply NoDup_cons in Hnd as [Hn Hnd]. cbn [omap list_omap].
    destruct (c.2) as [f|]; cbn [fmap option_fmap option_map]; [|by apply IH]. rewrite fmap_cons. constructor; [|by apply IH]. intros Hin. apply Hn.
    apply list_elem_of_fmap in Hin as (y & Hy & (c' & Hc' & Ey)%list_elem_of_omap). destruct (c'.2) as [f'|]; [|done]. injection Ey as <-. cbn in Hy. rewrite Hy. apply list_elem_of_fmap. by exists c'.
Qed.

Lemma new_files_shape chg id fs : new_files chg !! id = Some fs -> exists f, fs = {[Delete := f]}.
Proof.
  intros Hl%elem_of_list_to_map_2. apply list_elem_of_omap in Hl as (c & _ & Hc). destruct (c.2) as [f|]; [|done]. injection Hc as _ <-. by exists f.
Qed.

Lemma new_file_iff chg id f : NoDup (change_ids chg) -> new_file chg id = Some f <-> exists c p, c ∈ chg /\ t_id c.1.2 = id /\ c.2 = Some (f, p).
Proof.
  intros Hnd. unfold new_file. split.
  - intros Hf. destruct (new_files chg !! id) as [fs|] eqn:Efs; [|done]. destruct (new_files_shape _ _ _ Efs) as [[f' p] ->]. cbn in Hf. rewrite lookup_singleton_eq in Hf. injection Hf as ->.
    apply (new_files_elem chg id (f, p) Hnd) in Efs as (c & ?). by exists c, p.
  - intros (c & p & Hc). assert (new_files chg !! id = Some {[Delete := (f, p)]}) as -> by (apply new_files_elem; [done|by exists c]). cbn. by rewrite lookup_singleton_eq.
Qed.

Lemma new_file_none chg id : id ∉ change_ids chg -> new_file chg id = None.
Proof.
  intros Hid. unfold new_file. destruct (new_files chg !! id) as [fs|] eqn:Efs; [|done]. exfalso. apply Hid. apply elem_of_list_to_map_2, list_elem_of_omap in Efs as (c & Hc & Ec).
  destruct (c.2); [|done]. injection Ec as <- _. apply list_elem_of_fmap. by exists c.
Qed.

Lemma rows_after_none ix chg e : new_file chg (segment_id e) = None -> rows_after ix chg e = rows_of ix e.
Proof. unfold rows_after. intros ->. by destruct (content e). Qed.

Lemma files_kept_refl ix : files_kept ix ix.
Proof. done. Qed.

(** A segment whose entry stays, with or without a new delete file. *)
Lemma deleted_same n ix ix' e chg : index_ok n ix' -> metas ix' = metas ix -> logs ix' = logs ix -> files_kept ix ix' -> (forall id, docs_of (files ix') id = docs_of (files ix) id) ->
  index_ok n ix -> e ∈ metas ix -> visible e = true -> (chg = [] \/ is_mutable e = false) ->
  (forall c, c ∈ chg -> t_id c.1.1 = segment_id e /\ t_id c.1.2 = segment_id e /\ forall f, c.2 = Some f -> file_known (files ix') f.1) -> NoDup (change_ids chg) ->
  rows_after ix' chg e ≡ₚ filter (fun c => dead c = false) (rows_of ix e) -> deleted [segment_id e] n ix ix' chg.
Proof.
  intros Hok' Hm Hl Hf Hd Hok He Hv Hmu Hc Hnd Hr. split; [done..| | |done].
  - rewrite Hm. apply Forall_Forall2_diag, Forall_forall. intros x Hx. split_and!; [done..|]. intros Hvx. split.
    + intros ->%list_elem_of_singleton%(entry_unique ctid_field rows n ix e x Hok He Hv Hx). done.
    + intros _. split; [done|]. apply (entry_kept ctid_field n n ix ix' x); [done|by apply (ok_entries _ _ _ _ Hok)|done|done|by rewrite Hl].
  - intros c Hin. destruct (Hc c Hin) as (H1' & H2' & Hf'). split_and!; [congruence|rewrite H2'; left| |done]. exists e. split_and!; [done|done| |done]. destruct Hmu as [->|]; [by apply elem_of_nil in Hin|done].
Qed.

Lemma log_rows_filter_in log c : c ∈ filter (fun c => dead c = true) (log_rows log) -> c ∈ log_rows log.
Proof. by intros [_ ?]%list_elem_of_filter. Qed.

(** ** One mutable segment *)

Lemma delete_mutable_spec n ix e : index_ok n ix -> 0 <= n < 2 ^ 31 -> e ∈ metas ix -> visible e = true -> is_mutable e = true ->
  mwp never (deleter_commit (DeleterMutable (segment_id e) (filter (fun c => dead c = true) (rows_of ix e)))) ix
    (fun change ix' => change = None /\ deleted [segment_id e] n ix ix' []).
Proof.
  intros Hok Hn He Hv Hmu. cbn [deleter_commit]. apply mwp_bind. unfold update_item. apply mwp_bind, mwp_gets. cbv beta. unfold id.
  match goal with |- context [update_entry ?g ?u _ _] => destruct (update_entry_cases g u (metas ix) (logs ix)) as [[Hnone _]|(pre & e' & post & Hm & Hg & Heq)] end.
  { specialize (Hnone e He). by rewrite Z.eqb_refl, Hmu in Hnone. }
  apply andb_true_iff in Hg as [Hid%Z.eqb_eq _]. assert (e' = e) as -> by (apply (entry_unique ctid_field rows n ix e e' Hok He Hv); [rewrite Hm; set_solver|done]). rewrite Heq. clear Heq.
  set (cs := filter _ (rows_of ix e)). pose proof (ok_entries _ _ _ _ Hok e He Hv) as Hek. unfold is_mutable in Hmu. unfold WritesProps.entry_ok in Hek. destruct (content e) as [|c] eqn:Ec; [done|]. destruct Hek as (Hsi & Hlog & Hadds).
  assert (rows_of ix e = log_rows (log_of ix e)) as Hre by (unfold WritesProps.rows_of; by rewrite Ec).
  assert (Z.of_nat (length cs) < 2 ^ 32) as Hsmall.
  { assert (length cs <= length (log_rows (log_of ix e)))%nat as Hle by (unfold cs; rewrite Hre; apply length_filter). rewrite log_rows_elements in Hle. change (length (elements ?X)) with (size X) in Hle.
    pose proof (log_ok_size ∅ _ Hlog) as Hs. rewrite size_empty in Hs. fold (replay (log_of ix e)) in Hs. pose proof (removes_nonneg (log_of ix e)). lia. }
  destruct (log_rows_remove (log_of ix e) dead Hlog) as [Hlog' Hrows]. rewrite <- Hre in Hlog', Hrows. fold cs in Hlog', Hrows.
  set (s := apply_mop (MDel cs) (e, logs ix)). assert (mutable_delete_items cs (e, logs ix) = (Ok tt, s) /\ s.2 = il_add_items (header_block c) (Remove <$> cs) (logs ix)) as [Hs1 Hs2].
  { unfold s. cbn [apply_mop]. unfold mutable_delete_items. rewrite Ec. unfold len_u32. rewrite length_fmap, (proj2 (Z.ltb_lt _ _)) by done. done. }
  rewrite Hs1. cbn [fst snd]. repeat first [apply mwp_bind | apply mwp_modify | apply mwp_gets | apply mwp_ret]. split; [done|].
  match goal with |- deleted _ _ _ ?x _ => set (ix' := x) end.
  destruct (mop_spec ctid_field rows n n ix pre e post (header_block c) (MDel cs) (Remove <$> cs) ix') as (Hok' & Hk & Hr & Hv'); try done; [unfold header_of; by rewrite Ec|lia|destruct (removes_Remove cs) as [-> _]; lia|rewrite adds_app; destruct (removes_Remove cs) as [-> _]; lia|]. fold s in Hr, Hv'.
  destruct (apply_mop_entry (header_block c) (MDel cs) (e, logs ix)) as (Hid' & _ & Hh'); [done..|]. fold s in Hid', Hh'.
  assert (is_mutable s.1 = true) as Hmu' by (unfold is_mutable, header_of in *; by destruct (content s.1)).
  split; [done|done|done| |by intros ? ?%elem_of_nil|constructor].
  cbn [metas ix']. rewrite Hm. assert (forall x, x ∈ pre ++ post -> entry_after [segment_id e] ix ix' [] x x) as Hoth.
  { intros x Hx. split_and!; [done..|]. intros Hvx. split; [|intros _; split; [done|by apply Hk]]. intros Heq%list_elem_of_singleton. exfalso.
    pose proof (ok_headers _ _ _ _ Hok) as Hhd. assert (x = e) as -> by (apply (entry_unique ctid_field rows n ix e x Hok He Hv); [rewrite Hm; set_solver|done]).
    apply (header_split ctid_field rows n ix pre e post (header_block c) Hok Hm Hv) with e; [unfold header_of; by rewrite Ec|done|done|unfold header_of; by rewrite Ec]. }
  apply Forall2_app; [apply Forall_Forall2_diag, Forall_forall; intros; apply Hoth; set_solver|]. constructor; [|apply Forall_Forall2_diag, Forall_forall; intros; apply Hoth; set_solver].
  split_and!; [done|congruence|unfold is_mutable at 2; by rewrite Ec, Hmu'|unfold is_mutable; rewrite Ec; intros [|]; congruence|]. intros _. split; [|intros Hni; exfalso; apply Hni; by left].
  intros _. rewrite rows_after_none by done. by rewrite Hr, Hrows.
Qed.

(** ** One immutable segment *)

(** The documents whose rows are dead are marked. *)
Lemma dead_marked ix e D D' (Q : Z -> Prop) : (forall d, Q d <-> exists i c, ctids_of ix e !! i = Some c /\ dead c = true /\ d = 0 + Z.of_nat i) -> (forall d, d ∈ D' <-> d ∈ D \/ Q d) ->
  alive D' 0 (ctids_of ix e) = filter (fun c => dead c = false) (alive D 0 (ctids_of ix e)).
Proof.
  intros HQ HD. apply alive_filter. intros i c Hi. rewrite HD, HQ. split.
  - intros [?|(j & c' & Hj & Hd & Heq)]; [by left|right]. assert (j = i) as -> by lia. congruence.
  - intros [?|Hd]; [by left|right]. by exists i, c.
Qed.

Lemma delete_immutable_spec n ix e q op : index_ok n ix -> e ∈ metas ix -> visible e = true -> is_mutable e = false -> (forall o, o ∈ q -> op_opstamp o <= op) ->
  (forall d, (exists o, o ∈ q /\ op_doc_id o = d) <-> exists i c, ctids_of ix e !! i = Some c /\ dead c = true /\ d = 0 + Z.of_nat i) ->
  mwp never (deleter_commit (DeleterImmutable q e op)) ix (fun change ix' => deleted [segment_id e] n ix ix' (option_list change)).
Proof.
  intros Hok He Hv Hmu Hop Hq. cbn [deleter_commit]. apply mwp_bind, mwp_gets. cbv beta. unfold id.
  pose proof (ok_entries _ _ _ _ Hok e He Hv) as Hek. unfold WritesProps.entry_ok in Hek. unfold is_mutable in Hmu. destruct (content e) as [c|] eqn:Ec; [|done]. destruct Hek as (Hdocs & Hdel & _).
  set (old := file_entry_of <$> delete c). pose proof (advance_docs (segment_id e) old q (op + 1) (files ix)) as Ld. pose proof (advance_known (segment_id e) old q (op + 1) (files ix)) as Lk.
  destruct (advance_deletes (segment_id e) old q (op + 1) (files ix)) as [nf f'] eqn:Ea. cbn [snd] in Ld, Lk.
  repeat first [apply mwp_bind | apply mwp_modify | apply mwp_gets | apply mwp_ret]. cbn [option_list]. match goal with |- deleted _ _ _ ?x ?l => set (ix' := x); set (chg := l) end.
  assert (index_ok n ix') as Hok'.
  { by apply (files_changed ctid_field rows n ix). }
  assert (from_option (deletes_of (files ix)) ∅ old = segment_deletes ix e) as Hold by (unfold segment_deletes; rewrite Ec; unfold old; by destruct (delete c)).
  assert (t_id (tantivy_meta e) = segment_id e) as Hid by (unfold tantivy_meta, as_tantivy; by rewrite Ec).
  apply deleted_same; [done..|right; unfold is_mutable; by rewrite Ec| |apply NoDup_singleton|].
  - intros c0 ->%list_elem_of_singleton. cbn [fst snd t_id]. split_and!; [done|done|]. intros [x p] ->. by apply advance_new in Ea as [? _].
  - assert (ctids_of ix' e = ctids_of ix e) as Hct by (unfold WritesProps.ctids_of; cbn [files ix']; by rewrite Ld).
    destruct nf as [[x p]|].
    + assert (new_file chg (segment_id e) = Some x) as Hnf by (apply new_file_iff; [apply NoDup_singleton|]; eexists _, p; split; [by left|by rewrite <- Hid]).
      unfold rows_after. rewrite Ec, Hnf. apply advance_new in Ea as [_ Hx]. unfold WritesProps.rows_of. rewrite Ec, Hct, <- Hold. cbn [files ix'].
      erewrite (dead_marked ix e); [done|exact Hq|]. intros d. rewrite Hx. split; (intros [?|(o & Ho & Hod)]; [by left|right]).
      * exists o. split; [done|]. by destruct Hod.
      * exists o. split; [done|]. split; [|done]. specialize (Hop o Ho). lia.
    + assert (new_file chg (segment_id e) = None) as Hnf by done. rewrite rows_after_none by done.
      assert (rows_of ix' e = rows_of ix e) as ->. { unfold WritesProps.rows_of, segment_deletes. rewrite Ec, Hct. cbn [files ix']. destruct (delete c) as [d|] eqn:Ed; [|done]. by rewrite (proj2 (Lk _ (Hdel d eq_refl))). }
      unfold WritesProps.rows_of. rewrite Ec, <- Hold. erewrite <- (dead_marked ix e); [done|exact Hq|]. intros d. split; [by left|]. intros [?|(o & Ho & <-)]; [done|].
      eapply advance_none; [exact Ea|done|]. specialize (Hop o Ho). lia.
Qed.

(** The body of the loop, for the segment of an entry. *)
Lemma delete_segment_spec n ix e : index_ok n ix -> 0 <= n < 2 ^ 31 -> e ∈ metas ix -> visible e = true ->
  let '(deleter, needs_commit) := delete_docs dead (if is_mutable e then rows_of ix e else ctids_of ix e) 0 (deleter_open e) false in
  mwp never (if needs_commit : bool then deleter_commit deleter else mret None) ix (fun change ix' => deleted [segment_id e] n ix ix' (option_list change)).
Proof.
  intros Hok Hn He Hv. unfold deleter_open. destruct (is_mutable e) eqn:Emu.
  - rewrite delete_docs_mutable. cbn [app orb]. destruct (existsb dead (rows_of ix e)) eqn:Ex.
    + eapply mwp_mono; [by apply delete_mutable_spec|]. intros change ix' [-> Hd]. done.
    + apply mwp_ret. apply deleted_same; [done..|by left|by intros ? ?%elem_of_nil|constructor|]. rewrite rows_after_none by done. rewrite filter_alive; [done|by apply existsb_none].
  - destruct (delete_docs_immutable (ctids_of ix e) 0 [] e 0 false) as (q & op & -> & _ & Hop & Hq). cbn [app orb]. destruct (existsb dead (ctids_of ix e)) eqn:Ex.
    + by apply delete_immutable_spec.
    + apply mwp_ret. apply deleted_same; [done..|by left|by intros ? ?%elem_of_nil|constructor|]. rewrite rows_after_none by done. rewrite filter_alive; [done|]. intros c Hc. apply (existsb_none _ Ex).
      unfold WritesProps.rows_of in Hc. unfold is_mutable in Emu. destruct (content e); [|done]. by eapply alive_in.
Qed.

(** ** All segments *)

Lemma new_file_app chg1 chg2 id : NoDup (change_ids (chg1 ++ chg2)) ->
  (id ∉ change_ids chg2 -> new_file (chg1 ++ chg2) id = new_file chg1 id) /\ (id ∉ change_ids chg1 -> new_file (chg1 ++ chg2) id = new_file chg2 id).
Proof.
  intros Hnd. assert (NoDup (change_ids chg1) /\ NoDup (change_ids chg2)) as [Hnd1 Hnd2] by (unfold change_ids in *; rewrite fmap_app in Hnd; apply NoDup_app in Hnd as (? & _ & ?); done).
  assert (forall c chg, c ∈ chg -> t_id c.1.2 = id -> id ∈ change_ids chg) as Hin by (intros c chg Hc <-; by apply (list_elem_of_fmap_2 (fun c : change => t_id c.1.2))).
  split; intros Hni; apply option_eq; intros f; rewrite !new_file_iff by done; split; intros (c & p & Hc & Hid & Hf); exists c, p; (split; [|done]); set_solver.
Qed.

Lemma deleted_app ids1 ids2 n ix ix1 ix2 chg1 chg2 : (forall id, id ∈ ids1 -> id ∉ ids2) -> deleted ids1 n ix ix1 chg1 -> deleted ids2 n ix1 ix2 chg2 -> deleted (ids1 ++ ids2) n ix ix2 (chg1 ++ chg2).
Proof.
  intros Hdis [Hok1 Hf1 Hd1 He1 Hc1 Hi1] [Hok2 Hf2 Hd2 He2 Hc2 Hi2].
  assert (forall id, id ∈ change_ids chg1 -> id ∈ ids1) as Hin1 by (intros id (c & -> & Hc)%list_elem_of_fmap; by apply Hc1).
  assert (forall id, id ∈ change_ids chg2 -> id ∈ ids2) as Hin2 by (intros id (c & -> & Hc)%list_elem_of_fmap; by apply Hc2).
  assert (NoDup (change_ids (chg1 ++ chg2))) as Hnd by (unfold change_ids; rewrite fmap_app; apply NoDup_app; split_and!; [done|intros id H1' H2'; by apply (Hdis id); [apply Hin1|apply Hin2]|done]).
  assert (files_kept ix ix2) as Hf12. { intros x Hx. destruct (Hf1 x Hx) as [Hx1 Hdx]. destruct (Hf2 x Hx1) as [? ->]. done. }
  split; [done|done|intros id; by rewrite Hd2| | |done].
  - clear -He1 He2 Hdis Hin1 Hin2 Hnd Hc1 Hf2 Hd2 Hok1 Hi1. eapply Forall2_trans; [|exact He1|exact He2]. intros x y z (A1 & A2 & A3 & A4 & A5) (B1 & B2 & B3 & B4 & B5).
    split_and!; [congruence..| |]. { intros Hx. rewrite <- (A4 Hx). apply B4. by rewrite A2, A3. }
    intros Hv. destruct (A5 Hv) as [A6 A7]. destruct (B5 ltac:(congruence)) as [B6 B7]. rewrite A1 in B6, B7. split.
    + intros [Hi|Hi]%elem_of_app.
      * destruct (B7 (Hdis _ Hi)) as [-> Hr]. rewrite <- (A6 Hi). unfold rows_after. rewrite A1. rewrite (proj1 (new_file_app chg1 chg2 _ Hnd)) by (intros Hx%Hin2; by apply (Hdis _ Hi)).
        destruct (content y) as [c|c]; [|by rewrite Hr]. destruct (new_file chg1 (segment_id x)) as [f|] eqn:Ef; [|by rewrite Hr].
        apply new_file_iff in Ef as (c0 & p & Hc0 & _ & Hfp); [|done]. destruct (Hc1 c0 Hc0) as (_ & _ & _ & Hk). destruct (Hf2 f (Hk _ Hfp)) as [_ ->]. unfold WritesProps.ctids_of. by rewrite Hd2.
      * destruct (A7 ltac:(intros Hx; by apply (Hdis _ Hx))) as [-> Hr]. rewrite <- Hr, <- (B6 Hi). unfold rows_after. rewrite B1. rewrite (proj2 (new_file_app chg1 chg2 _ Hnd)); [done|]. intros Hx%Hin1. by apply (Hdis _ Hx).
    + intros [Hi1' Hi2']%not_elem_of_app. destruct (A7 Hi1') as [-> Hr1]. destruct (B7 Hi2') as [-> Hr2]. split; [done|]. by rewrite Hr2.
  - intros c [Hc|Hc]%elem_of_app.
    + destruct (Hc1 c Hc) as (? & ? & ? & Hk). split_and!; [done|set_solver|done|]. intros f Hf. by apply Hf2, Hk.
    + destruct (Hc2 c Hc) as (? & ? & (e & He & Hv & Hmu & Hid) & Hk). split_and!; [done|set_solver| |done]. exists e.
      apply list_elem_of_lookup in He as [i Hi]. destruct (Forall2_lookup_r _ _ _ _ _ He1 Hi) as (x & Hx & (A1 & A2 & A3 & A4 & _)).
      assert (e = x) as -> by (apply A4; right; congruence). split_and!; [by eapply list_elem_of_lookup_2|done..].
Qed.

Lemma deleted_nil n ix : index_ok n ix -> deleted [] n ix ix [].
Proof.
  intros Hok. split; [done|done|done| |by intros ? ?%elem_of_nil|constructor]. apply Forall_Forall2_diag, Forall_forall. intros x _. split_and!; [done..|]. intros _. split; [by intros ?%elem_of_nil|done].
Qed.

(** The readers of these entries. *)
Definition readers_of ix (es : list SegmentMetaEntry) : list (Z * list Z) :=
  (fun e => (segment_id e, if is_mutable e then rows_of ix e else ctids_of ix e)) <$> es.

Lemma delete_segments_spec n ix es (writer_ids : list Z) (searchable : list SegmentMetaEntry) : index_ok n ix -> 0 <= n < 2 ^ 31 ->
  (forall e, e ∈ es -> e ∈ metas ix /\ visible e = true /\ segment_id e ∈ writer_ids /\ head (filter (fun x => segment_id x = segment_id e) searchable) = Some e) -> NoDup (segment_id <$> es) ->
  mwp never (delete_segments dead writer_ids searchable (readers_of ix es)) ix (fun chg ix' => deleted (segment_id <$> es) n ix ix' chg).
Proof.
  revert ix. induction es as [|e es IH]; intros ix Hok Hn Hes Hnd; cbn [readers_of fmap list_fmap delete_segments]; [apply mwp_ret; by apply deleted_nil|].
  destruct (Hes e ltac:(left)) as (He & Hv & Hw & Hh). rewrite bool_decide_true by done. apply mwp_bind. rewrite Hh. apply mwp_ret. cbv beta. rewrite fmap_cons in Hnd. apply NoDup_cons in Hnd as [Hni Hnd].
  pose proof (delete_segment_spec n ix e Hok Hn He Hv) as Hstep. destruct (delete_docs dead _ 0 (deleter_open e) false) as [deleter nc]. apply mwp_bind. eapply mwp_mono; [exact Hstep|]. intros change ix1 Hd1. cbv beta.
  assert (forall x, x ∈ es -> x ∈ metas ix1 /\ rows_of ix1 x = rows_of ix x) as Hkeep.
  { intros x Hx. destruct (Hes x ltac:(by right)) as (Hxm & Hxv & _). apply list_elem_of_lookup in Hxm as [i Hi]. destruct (Forall2_lookup_l _ _ _ _ _ (del_entries _ _ _ _ _ Hd1) Hi) as (y & Hy & (_ & _ & _ & _ & A5)).
    destruct (proj2 (A5 Hxv)) as [-> ?]; [intros Heq%list_elem_of_singleton; apply Hni; rewrite <- Heq; by apply list_elem_of_fmap_2|]. split; [by eapply list_elem_of_lookup_2|done]. }
  apply mwp_bind. assert ((fun e0 => (segment_id e0, if is_mutable e0 then rows_of ix e0 else ctids_of ix e0)) <$> es = readers_of ix1 es) as ->.
  { apply list_fmap_ext. intros i x Hx%list_elem_of_lookup_2. f_equal. destruct (Hkeep x Hx) as [_ ->]. unfold WritesProps.ctids_of. by rewrite (del_docs _ _ _ _ _ Hd1). }
  eapply mwp_mono; [apply (IH ix1); [by apply (del_ok _ _ _ _ _ Hd1)|done| |done]|].
  - intros x Hx. destruct (Hes x ltac:(by right)) as (_ & ? & ? & ?). split_and!; [by apply Hkeep|done..].
  - intros rest ix2 Hd2. apply mwp_ret. apply (deleted_app [segment_id e] (segment_id <$> es) n ix ix1 ix2); [|exact Hd1|exact Hd2]. by intros id ->%list_elem_of_singleton.
Qed.

(** ** Saving the delete files *)

Lemma rows_entries ids ix ix1 chg (l l' : list SegmentMetaEntry) : Forall2 (entry_after ids ix ix1 chg) l l' -> (forall e, e ∈ l -> visible e = true -> segment_id e ∈ ids) ->
  filter (fun e => visible e = true) l' ≫= rows_after ix1 chg ≡ₚ filter (fun c => dead c = false) (filter (fun e => visible e = true) l ≫= rows_of ix).
Proof.
  induction 1 as [|e e' l l' (A1 & A2 & A3 & A4 & A5) _ IH]; intros Hids; [done|]. rewrite !filter_cons, A2. specialize (IH ltac:(intros x Hx; apply Hids; by right)).
  case_decide as Hv; [|done]. cbn [mbind list_bind]. rewrite filter_app. rewrite <- (proj1 (A5 Hv) (Hids e ltac:(left) Hv)). by f_equiv.
Qed.

Lemma found_among n ix e (P : SegmentMetaEntry -> Prop) `{forall x, Decision (P x)} : index_ok n ix -> e ∈ metas ix -> visible e = true -> P e ->
  head (filter (fun x => segment_id x = segment_id e) (filter P (metas ix))) = Some e.
Proof.
  intros Hok He Hv HP. destruct (filter (fun x => segment_id x = segment_id e) (filter P (metas ix))) as [|y l] eqn:Ef.
  - assert (e ∈ filter (fun x => segment_id x = segment_id e) (filter P (metas ix))) as Hin; [|rewrite Ef in Hin; by apply elem_of_nil in Hin]. apply list_elem_of_filter. split; [done|]. by apply list_elem_of_filter.
  - assert (y ∈ filter (fun x => segment_id x = segment_id e) (filter P (metas ix))) as [Hy [_ Hym]%list_elem_of_filter]%list_elem_of_filter by (rewrite Ef; left). cbn. f_equal. by apply (entry_unique ctid_field rows n ix e y Hok He Hv).
Qed.

Section changes.
Variables (incoming : gmap Z TantivySegment) (nf : gmap Z files_of) (md : list Z).

(** A new delete file is all that changes of an entry. *)
Lemma changed_cases e : (changed incoming nf [] md e = e /\ (segment_id e ∈ md -> is_mutable e = false -> new_delete incoming nf (segment_id e) = None)) \/
  exists c d, content e = Immutable c /\ segment_id e ∈ md /\ new_delete incoming nf (segment_id e) = Some d /\
    changed incoming nf [] md e = mkEntry (header e) (Immutable (mkImmutable (postings c) (positions c) (fast_fields c) (field_norms c) (terms c) (store c) (temp_store c) (Some d))).
Proof.
  unfold changed. rewrite decide_False by apply not_elem_of_nil. case_decide as Hm; [|by left]. unfold replacement. destruct (new_delete incoming nf (segment_id e)) as [d|] eqn:En; [|by left].
  cbn [mbind option_bind]. unfold replace_deletes, is_mutable. destruct (content e) as [c|c] eqn:Ec; [|by left]. right. exists c, d. done.
Qed.

Lemma changed_keeps e : let e' := changed incoming nf [] md e in segment_id e' = segment_id e /\ xmax e' = xmax e /\ visible e' = visible e /\ header_of e' = header_of e /\ unfrozen e' = unfrozen e.
Proof. destruct (changed_cases e) as [[-> _]|(c & d & Ec & _ & _ & ->)]; [done|]. unfold header_of, unfrozen. by rewrite Ec. Qed.

Lemma changed_docs e : let e' := changed incoming nf [] md e in max_doc e' = max_doc e /\ (has_files e -> has_files e').
Proof.
  destruct (changed_cases e) as [[-> _]|(c & d & Ec & _ & _ & ->)]; [done|]. split; [done|]. intros _. unfold has_files, pintest_blockno. cbn [content]. unfold file_entries. cbn [postings positions fast_fields field_norms terms temp_store delete].
  destruct (postings c), (positions c), (fast_fields c), (field_norms c), (terms c), (temp_store c); by eexists.
Qed.

Lemma orphan_kind e o : orphan incoming nf md e = Some o -> segment_id o = 0 /\ visible o = false /\ unfrozen o = false /\ (has_files e -> has_files o).
Proof.
  intros Ho. pose proof (orphan_invisible _ _ _ _ _ Ho) as Hv. revert Ho. unfold orphan. case_decide; [|done]. unfold replacement. destruct (new_delete incoming nf (segment_id e)) as [d|]; [|done]. cbn [mbind option_bind].
  unfold replace_deletes. destruct (content e) as [c|c] eqn:Ec; [|done]. cbn. destruct (delete c); [|done]. intros [= <-]. split_and!; [done..|]. unfold has_files, pintest_blockno. by rewrite Ec.
Qed.

Lemma orphans_zero (es : list SegmentMetaEntry) : filter (fun id => id <> 0) (segment_id <$> omap (orphan incoming nf md) es) = [].
Proof. apply filter_none. intros id (o & -> & (e & _ & Ho)%list_elem_of_omap)%list_elem_of_fmap Hn. by apply orphan_kind in Ho as [? _]. Qed.

(** The list keeps its order, with changed entries and clones behind. *)
Lemma index_changed n ix ix' : index_ok n ix -> metas ix' = (changed incoming nf [] md <$> metas ix) ++ omap (orphan incoming nf md) (metas ix) -> logs ix' = logs ix -> files ix' = files ix ->
  (forall e d, e ∈ metas ix -> visible e = true -> new_delete incoming nf (segment_id e) = Some d -> file_known (files ix) (file_entry_of d)) -> index_ok n ix'.
Proof.
  intros [Ke Ki Kn Kh Kx Ku Kd Kt Kf] Hm Hl Hf Hd. assert (forall e', e' ∈ metas ix' -> (exists e, e ∈ metas ix /\ e' = changed incoming nf [] md e) \/ segment_id e' = 0 /\ visible e' = false /\ (unfrozen e' = false /\ has_files e')) as Hcase.
  { intros e'. rewrite Hm. intros [(e & -> & He)%list_elem_of_fmap|(e & He & Ho)%list_elem_of_omap]%elem_of_app; [left; by exists e|right]. destruct (orphan_kind e e' Ho) as (? & ? & ? & Hfi). split_and!; [done..|]. by apply Hfi, Kf. }
  assert (visible_metas ix' = changed incoming nf [] md <$> visible_metas ix) as Hvis.
  { unfold visible_metas. rewrite Hm, filter_app. rewrite (filter_none _ (omap _ _)) by (intros o (e & _ & Ho%orphan_kind)%list_elem_of_omap; destruct Ho as (_ & -> & _); done). rewrite app_nil_r. clear -nf.
    induction (metas ix) as [|e es IH]; [done|]. rewrite fmap_cons, !filter_cons, IH. destruct (changed_keeps e) as (_ & _ & -> & _). case_decide; done. }
  split.
  - intros e' [(e & He & ->)|(_ & Hv & _)]%Hcase Hv'; [|congruence]. destruct (changed_keeps e) as (_ & _ & Hvk & _). rewrite Hvk in Hv'. pose proof (Ke e He Hv') as Hek.
    destruct (changed_cases e) as [[-> _]|(c & d & Ec & _ & Hn & ->)].
    + unfold WritesProps.entry_ok, log_of in *. by rewrite Hl, Hf.
    + unfold WritesProps.entry_ok in *. rewrite Ec in Hek. cbn [content delete]. rewrite Hf. split; [by apply Hek|]. split; [|by apply Hek]. intros d' [= <-]. by eapply Hd.
  - rewrite Hm, fmap_app, filter_app, orphans_zero, app_nil_r, <- list_fmap_compose.
    erewrite list_fmap_ext; [exact Ki|]. intros i x _. apply changed_keeps.
  - intros e' [(e & He & ->)|(_ & Hv & _)]%Hcase Hv'; [|congruence]. destruct (changed_keeps e) as (-> & _ & Hvk & _). apply Kn; [done|congruence].
  - rewrite Hvis.
    clear -Kh. induction (visible_metas ix) as [|e es IH]; [done|]. rewrite fmap_cons. cbn [omap list_omap] in *. destruct (changed_keeps e) as (_ & _ & _ & -> & _).
    assert (omap header_of (changed incoming nf [] md <$> es) = omap header_of es) as Heq. { clear. induction es as [|e es IH]; [done|]. rewrite fmap_cons. cbn [omap list_omap]. destruct (changed_keeps e) as (_ & _ & _ & -> & _). by rewrite IH. }
    destruct (header_of e); by rewrite Heq.
  - intros e' [(e & He & ->)|(_ & Hv & _)]%Hcase Hv'; [|congruence]. destruct (changed_keeps e) as (_ & -> & Hvk & _). apply Kx; [done|congruence].
  - intros Hro e' [(e & He & ->)|(_ & _ & Hu & _)]%Hcase Hu'; [|congruence]. destruct (changed_keeps e) as (_ & _ & -> & _ & Huk). apply Ku; [done|done|congruence].
  - intros e' [(e & He & ->)|(_ & Hv & _)]%Hcase Hv'; [|congruence]. destruct (changed_keeps e) as (_ & _ & Hvk & _). destruct (changed_docs e) as [-> _]. apply Kd; [done|congruence].
  - rewrite Hvis. enough (docs_in (changed incoming nf [] md <$> visible_metas ix) = docs_in (visible_metas ix)) by lia. clear.
    induction (visible_metas ix) as [|e es IH]; [done|]. rewrite fmap_cons. unfold docs_in in *. cbn [foldr]. destruct (changed_docs e) as [-> _]. by rewrite IH.
  - intros e' [(e & He & ->)|(_ & _ & _ & ?)]%Hcase; [|done]. by apply changed_docs, Kf.
Qed.
End changes.

Lemma change_metas chg : (forall c, c ∈ chg -> t_id c.1.1 = t_id c.1.2) ->
  let new := (fun c : change => c.1.2) <$> chg in let prev := (fun c : change => c.1.1) <$> chg in
  ids_of_meta new = list_to_set (change_ids chg) /\ deleted_ids new prev = [] /\ created_ids new prev = [] /\
  (forall id, id ∈ modified_ids (new_files chg) new prev <-> is_Some (new_file chg id) /\ id ∈ change_ids chg).
Proof.
  intros Hc new prev. assert (ids_of_meta new = list_to_set (change_ids chg)) as Hn by (unfold ids_of_meta, change_ids, new; by rewrite <- list_fmap_compose).
  assert (ids_of_meta prev = list_to_set (change_ids chg)) as Hp. { unfold ids_of_meta, change_ids, prev. rewrite <- list_fmap_compose. f_equal. apply list_fmap_ext. intros i c Hi%list_elem_of_lookup_2. by apply Hc. }
  split; [done|]. unfold deleted_ids, created_ids. rewrite Hn, Hp, difference_diag_L, elements_empty. split_and!; [done|done|]. intros id. rewrite modified_ids_elem, Hn, Hp, elem_of_list_to_set.
  unfold new_file. destruct (new_files chg !! id) as [fs|]; cbn [mbind option_bind]; [|by split; [intros ([? ?] & _)|intros ([? ?] & _)]]. rewrite fmap_is_Some. tauto.
Qed.

Lemma save_deletes_spec n ix ix1 chg : chg <> [] -> index_ok n ix -> deleted (segment_id <$> visible_metas ix) n ix ix1 chg ->
  mwp never (save_delete_metas chg) ix1 (fun _ ix' => index_ok n ix' /\ all_rows ix' ≡ₚ filter (fun c => dead c = false) (all_rows ix)).
Proof.
  intros Hchg Hok [Hok1 _ _ He Hc Hi]. destruct (change_metas chg) as (Hids & Hdel & Hcr & Hmod); [intros c Hin; by apply Hc|]. unfold save_delete_metas, save_metas. fold (new_files chg). rewrite decide_False by (by destruct chg). apply mwp_bind, mwp_gets. cbv beta.
  set (new := (fun c : change => c.1.2) <$> chg) in *. set (prev := (fun c : change => c.1.1) <$> chg) in *. set (md := modified_ids (new_files chg) new prev) in *.
  assert (forall id, id ∈ md -> exists e, e ∈ metas ix1 /\ visible e = true /\ is_mutable e = false /\ segment_id e = id) as Hentry.
  { intros id [_ (c & -> & Hin)%list_elem_of_fmap]%Hmod. destruct (Hc c Hin) as (_ & _ & (e & Hem & Hv & Hmu & Hid) & _). exists e. split_and!; try done.
    apply list_elem_of_lookup in Hem as [i Hi']. destruct (Forall2_lookup_l _ _ _ _ _ He Hi') as (y & Hy & (_ & _ & _ & A4 & _)). rewrite <- (A4 ltac:(by right)). by eapply list_elem_of_lookup_2. }
  rewrite Hdel. cbn [forallb]. rewrite andb_true_r.
  match goal with |- context [if forallb ?f md then _ else _] => assert (forallb f md = true) as -> end.
  { apply forallb_forall. intros id Hin%list_elem_of_In. destruct (Hentry id Hin) as (e & Hem & Hv & Hmu & <-). apply Hmod in Hin as [[f Hf] _].
    rewrite (found_entry ctid_field rows n ix1 e Hok1 Hem Hv), Hmu.
    unfold new_file in Hf. destruct (new_files chg !! segment_id e) as [fs|] eqn:Efs; [|done]. destruct (new_files_shape _ _ _ Efs) as [p ->]. by rewrite map_size_singleton. }
  apply mwp_modify. match goal with |- index_ok _ ?x /\ _ => set (ix2 := x) end.
  assert (metas ix2 = (changed (incoming_segments new) (new_files chg) [] md <$> metas ix1) ++ omap (orphan (incoming_segments new) (new_files chg) md) (metas ix1)) as Hm2.
  { cbn [metas ix2]. unfold saved. rewrite Hdel, Hcr. done. }
  assert (forall id d, new_delete (incoming_segments new) (new_files chg) id = Some d -> new_file chg id = Some (file_entry_of d)) as Hnew.
  { intros id d. unfold new_delete, new_file. destruct (new_files chg !! id) as [fs|]; [|done]. cbn [mbind option_bind]. destruct (fs !! Delete) as [f|]; [|done]. cbn [mbind option_bind].
    destruct (incoming_segments new !! id); [|done]. by intros [= <-]. }
  assert (forall id f, new_file chg id = Some f -> file_known (files ix1) f) as Hknown.
  { intros id f (c & p & Hin & _ & Hcp)%new_file_iff; [|done]. destruct (Hc c Hin) as (_ & _ & _ & Hk). by apply (Hk _ Hcp). }
  split; [apply (index_changed (incoming_segments new) (new_files chg) md n ix1 ix2); [done..|]; intros e d _ _ Hd; by eapply Hknown, Hnew|].
  rewrite <- (rows_entries _ ix ix1 chg (metas ix) (metas ix1) He) by (intros e Hem Hv; apply list_elem_of_fmap_2, list_elem_of_filter; done).
  unfold WritesProps.all_rows. rewrite (saved_visible new prev (new_files chg) (metas ix1) : visible_metas ix2 = _). rewrite Hdel, Hcr. cbn [created_of omap list_omap]. rewrite app_nil_r. fold md.
  assert (forall l, (forall e, e ∈ l -> e ∈ metas ix1) -> (changed (incoming_segments new) (new_files chg) [] md <$> filter (fun e => visible e = true /\ segment_id e ∉ []) l) ≫= rows_of ix2 ≡ₚ filter (fun e => visible e = true) l ≫= rows_after ix1 chg) as Hgen; [|by apply Hgen].
  induction l as [|e l IH]; intros Hin; [done|]. specialize (IH ltac:(intros x Hx; apply Hin; by right)). rewrite !filter_cons. destruct (decide (visible e = true)) as [Hv|Hv].
  - rewrite decide_True by (split; [done|apply not_elem_of_nil]). rewrite fmap_cons. cbn [mbind list_bind]. f_equiv; [|exact IH]. assert (e ∈ metas ix1) as Hem by (apply Hin; left).
    destruct (changed_cases (incoming_segments new) (new_files chg) md e) as [[-> Hnone]|(c & d & Ec & _ & Hn & ->)].
    + destruct (new_file chg (segment_id e)) as [f|] eqn:Ef; [exfalso|by rewrite rows_after_none].
      apply new_file_iff in Ef as (c & p & Hcin & Hid & Hcp); [|done].
      assert (segment_id e ∈ change_ids chg) as Hci by (rewrite <- Hid; by apply (list_elem_of_fmap_2 (fun c : change => t_id c.1.2))).
      assert (new_files chg !! segment_id e = Some {[Delete := (f, p)]}) as Hnf by (apply new_files_elem; [done|by exists c]).
      assert (segment_id e ∈ md) as Hmd by (apply Hmod; split; [unfold new_file; rewrite Hnf; cbn; rewrite lookup_singleton_eq; by eexists|done]).
      destruct (Hentry _ Hmd) as (e0 & He0 & Hv0 & Hmu0 & Hid0). assert (e = e0) as <- by (by apply (entry_unique ctid_field rows n ix1 e0 e Hok1 He0 Hv0)).
      destruct (incoming_some new (segment_id e)) as [sg Hsg]; [by rewrite Hids, elem_of_list_to_set|]. specialize (Hnone Hmd Hmu0). unfold new_delete in Hnone.
      rewrite Hnf in Hnone. cbn [mbind option_bind] in Hnone. rewrite lookup_singleton_eq in Hnone. cbn [mbind option_bind] in Hnone. by rewrite Hsg in Hnone.
    + unfold rows_after. rewrite Ec, (Hnew _ _ Hn). unfold WritesProps.rows_of, segment_deletes, WritesProps.ctids_of. cbn. done.
  - rewrite decide_False by tauto. exact IH.
Qed.

(** ** The call *)

Lemma vacuum_sees n ix : index_ok n ix -> filter (fun e => satisfies rows Vacuum e = true) (metas ix) = visible_metas ix.
Proof.
  intros Hok. unfold visible_metas. pose proof (ok_xmax _ _ _ _ Hok) as Hx. revert Hx. induction (metas ix) as [|e es IH]; intros Hx; [done|]. rewrite !filter_cons. rewrite IH by (intros y Hy; apply Hx; by right).
  cbn [satisfies]. specialize (Hx e ltac:(left)). destruct (decide (visible e = true)) as [Hv|Hv].
  - rewrite decide_True; [done|]. apply Z.eqb_eq. by apply Hx.
  - rewrite decide_False; [done|]. intros He%Z.eqb_eq. apply Hv. unfold visible, is_deleted. by rewrite He.
Qed.

Lemma open_reader_spec n ix : index_ok n ix -> n < 2 ^ 31 -> open_reader ctid_field rows Vacuum ix = (Ok (readers_of ix (visible_metas ix)), ix).
Proof.
  intros Hok Hn. unfold open_reader. rewrite bind_gets. unfold id. rewrite (vacuum_sees n ix Hok).
  match goal with |- context [mapM ?f ?l] => assert (mapM f l = Some (readers_of ix (visible_metas ix))) as -> end; [|done].
  assert (Forall (fun e => entry_ok n ix e) (visible_metas ix)) as Hall. { apply Forall_forall. intros e [Hv He]%list_elem_of_filter. by apply (ok_entries _ _ _ _ Hok). }
  induction Hall as [|e l He _ IH]; [done|]. cbn. rewrite (segment_ctids_ok ctid_field n) by done. cbn. by rewrite IH.
Qed.

Lemma bulkdelete_spec n ix in_progress : index_ok n ix -> 0 <= n < 2 ^ 31 -> Forall (fun m => MergeList.recyclable in_progress m.1 = true) (merge_list ix) ->
  mwp never (ambulkdelete ctid_field rows in_progress dead) ix (fun _ ix' => index_ok n ix' /\ all_rows ix' ≡ₚ filter (fun c => dead c = false) (all_rows ix) /\ merge_list ix' = []).
Proof.
  intros Hok Hn Hmg. unfold ambulkdelete. apply mwp_bind, mwp_modify. cbv beta. match goal with |- mwp _ _ ?x _ => set (ix0 := x) end.
  assert (merge_list ix0 = []) as Hml. { cbn [merge_list ix0]. apply filter_none. rewrite Forall_forall in Hmg. intros m Hm%Hmg. by rewrite Hm. }
  destruct (index_same ctid_field rows n ix ix0) as [Hok0 Hr0]; [done..|]. specialize (Hok0 Hok). apply mwp_bind, mwp_gets. unfold id. rewrite Hml.
  apply mwp_bind. eapply mwp_eq; [apply (open_reader_spec n); [done|lia]|]. apply mwp_bind, mwp_modify. cbv beta. match goal with |- mwp _ _ ?x _ => set (ix1 := x) end.
  destruct (index_same ctid_field rows n ix0 ix1) as [Hok1 Hr1]; [done..|]. specialize (Hok1 Hok0). change (readers_of ix0 (visible_metas ix0)) with (readers_of ix1 (visible_metas ix1)).
  apply mwp_bind, mwp_gets. cbv beta. apply mwp_bind. eapply mwp_mono; [apply keeps_mwp; [apply keeps_delete_segments|]; apply (delete_segments_spec n ix1 (visible_metas ix1)); [done|done| |by eapply visible_ids]|].
  - intros e [Hv He]%list_elem_of_filter. split_and!; [done|done| |].
    + unfold readers_of. rewrite <- list_fmap_compose. apply list_elem_of_fmap. exists e. split; [done|]. by apply list_elem_of_filter.
    + apply (found_among n); [done..|]. cbn [satisfies]. apply Z.eqb_eq. by apply (ok_xmax _ _ _ _ Hok1).
  - intros chg ix2 [Hd Hml2]. cbv beta. unfold same_merges in Hml2. change (merge_list ix1) with (merge_list ix0) in Hml2. rewrite Hml in Hml2. apply Permutation_nil_r, fmap_nil_inv in Hml2. rewrite Hr0 in Hr1. destruct chg as [|c chg].
    + apply mwp_ret. split; [by apply (del_ok _ _ _ _ _ Hd)|]. split; [|done]. rewrite <- Hr1. unfold WritesProps.all_rows at 2.
      rewrite <- (rows_entries _ ix1 ix2 [] (metas ix1) (metas ix2) (del_entries _ _ _ _ _ Hd)) by (intros e He Hv; apply list_elem_of_fmap_2, list_elem_of_filter; done).
      unfold WritesProps.all_rows, visible_metas. rewrite (list_bind_ext (rows_after ix2 []) (rows_of ix2) _ _ (fun e => rows_after_none ix2 [] e eq_refl) eq_refl). done.
    + apply mwp_bind. eapply mwp_mono; [apply keeps_mwp; [apply keeps_save_metas|by apply (save_deletes_spec n ix1)]|]. intros [] ix3 [[Hok3 Hr3] Hml3]. apply mwp_modify.
      match goal with |- index_ok _ ?x /\ _ => destruct (index_same ctid_field rows n ix3 x) as [Hok4 Hr4]; [done..|] end. rewrite Hr4, Hr3, Hr1. split; [by apply Hok4|]. split; [done|]. cbn [merge_list]. unfold same_merges in Hml3. rewrite Hml2 in Hml3. by apply Permutation_nil_r, fmap_nil_inv in Hml3.
Qed.

End vacuum.

(** ** Histories *)

Section history.
Context {St F : Type} `{LogStore St MutableSegmentEntry} `{TantivyFiles F} (ctid_field : Z) (rows : option Z).
Context (generate_random : list Z -> Z) (random_new : forall ids, generate_random ids ∉ ids /\ generate_random ids <> 0).
Context {Num Elem : Type} (cat : Catalog).
Context (numeric_to_f64 : Num -> option spec_float) (f32_text_to_f64 : spec_float -> option spec_float)
  (uuid_text : string -> option string) (parse_inet : string -> option Z) (ymd_days : Z -> Z -> Z -> option Z)
  (from_json : Json -> OwnedValue) (bound_try_from : Elem -> option Elem) (bound_json : Elem -> OwnedValue).
Context (categorized_fields : list CategorizedField) (work_mem : Z).
Context (ctid_apart : Forall (fun c : CategorizedField => c.1.1 <> ctid_field) categorized_fields).
Context (key_exists : exists c, c ∈ categorized_fields /\ is_key_field c.2 = true).
Abbreviation Index := (Index St F).
Abbreviation Row := (list (option (Datum Num Elem))).
(** The options of the index: a positive target segment count and layer sizes; a mutable segment
    takes rows. *)
Context (target_segment_count : Z) (foreground background : list Z).
Context (target_positive : 0 < target_segment_count) (rows_positive : forall limit, rows = Some limit -> 0 < limit).
Abbreviation Backend := (Backend St F Row).
Abbreviation insert_statement := (insert_statement cat numeric_to_f64 f32_text_to_f64 uuid_text parse_inet ymd_days from_json bound_try_from bound_json ctid_field categorized_fields work_mem rows generate_random target_segment_count foreground background).
Abbreviation amvacuumcleanup := (amvacuumcleanup cat numeric_to_f64 f32_text_to_f64 uuid_text parse_inet ymd_days from_json bound_try_from bound_json ctid_field categorized_fields rows generate_random target_segment_count foreground background).
Abbreviation background_merge := (background_merge cat numeric_to_f64 f32_text_to_f64 uuid_text parse_inet ymd_days from_json bound_try_from bound_json ctid_field categorized_fields rows generate_random target_segment_count foreground background).
Abbreviation row_ok := (row_ok cat numeric_to_f64 f32_text_to_f64 uuid_text parse_inet ymd_days from_json bound_try_from bound_json categorized_fields).

(** What is done to the index: a statement that inserts rows, a vacuum of the rows that are dead, and
    a background merge. *)
Inductive write := InsertRows (be : Backend) (input : list (Row * Z)) | VacuumRows (be : Backend) (in_progress dead : Z -> bool) | MergeRows (be : Backend).

Definition run_write (o : write) : M Index unit unit :=
  match o with
  | InsertRows be input => insert_statement be input
  | VacuumRows be in_progress dead => ambulkdelete ctid_field rows in_progress dead;; amvacuumcleanup be
  | MergeRows be => background_merge be
  end.

Fixpoint run_writes (os : list write) : M Index unit unit :=
  match os with [] => mret tt | o :: os => run_write o;; run_writes os end.

(** The abstract index is a collection of rows. *)
Definition spec_write (l : list Z) (o : write) : list Z :=
  match o with InsertRows _ input => l ++ input.*2 | VacuumRows _ _ dead => filter (fun c => dead c = false) l | MergeRows _ => l end.

Definition backend_of (o : write) : Backend := match o with InsertRows be _ | VacuumRows be _ _ | MergeRows be => be end.

(** The rows that the backend finds in the heap can be converted. *)
Definition heap_ok (be : Backend) : Prop := forall ctid row, heap_row be ctid = Some row -> row_ok row.

(** PostgreSQL inserts a heap pointer that is not in the index, and vacuums while no merge runs;
    every row can be converted, and less than 2^31 rows are inserted. *)
Fixpoint writes_ok (merges : list MergeEntry) (n : Z) (l : list Z) (os : list write) : Prop :=
  match os with
  | [] => True
  | o :: os => heap_ok (backend_of o) /\
      match o with
      | InsertRows _ input => Forall (fun r => row_ok r.1) input /\ NoDup input.*2 /\ (forall c, c ∈ input.*2 -> c ∉ l) /\ n + Z.of_nat (length input) < 2 ^ 31 /\
          writes_ok merges (n + Z.of_nat (length input)) (spec_write l o) os
      | VacuumRows _ in_progress _ => Forall (fun m => MergeList.recyclable in_progress m = true) merges /\ writes_ok merges n (spec_write l o) os
      | MergeRows _ => writes_ok merges n (spec_write l o) os
      end
  end.

#[global] Instance spec_write_Proper o : Proper ((≡ₚ) ==> (≡ₚ)) (fun l => spec_write l o).
Proof. intros l l' Hl. destruct o; cbn; by rewrite Hl. Qed.

Lemma run_write_spec o n ix l merges os : index_ok ctid_field rows n ix -> 0 <= n < 2 ^ 31 -> (merge_list ix).*1 ⊆ merges -> all_rows ctid_field ix ≡ₚ l -> writes_ok merges n l (o :: os) ->
  exists n' ix', run_write o ix = (Ok tt, ix') /\ index_ok ctid_field rows n' ix' /\ 0 <= n' < 2 ^ 31 /\ (merge_list ix').*1 ⊆ merges /\ all_rows ctid_field ix' ≡ₚ spec_write l o /\ writes_ok merges n' (spec_write l o) os.
Proof.
  intros Hok Hn Hm Hl [Hheap Hos]. assert (forall (c : M Index unit unit) (Q : unit -> Index -> Prop), mwp (fun _ => False) c ix Q -> exists ix', c ix = (Ok tt, ix') /\ Q tt ix') as Hmwp.
  { intros c Q. unfold mwp. destruct (c ix) as [[[]| | |] s]; [|done..]. intros HQ. by exists s. }
  destruct o as [be input|be ip dead|be]; cbn [backend_of run_write] in *.
  - destruct Hos as (Hr & Hnd & Hd & Hb & Hos). exists (n + Z.of_nat (length input)). destruct (Hmwp (insert_statement be input) _ (statement_spec ctid_field rows generate_random random_new cat numeric_to_f64 f32_text_to_f64 uuid_text parse_inet ymd_days from_json bound_try_from bound_json categorized_fields work_mem ctid_apart key_exists
      target_segment_count foreground background be target_positive rows_positive Hheap input n ix Hok Hr Hnd ltac:(intros c Hc; rewrite Hl; by apply Hd) ltac:(lia) Hb)) as (ix' & Hrun & Hok' & Hrows & Hml).
    exists ix'. split_and!; [done|done|lia|lia| |by rewrite Hrows, Hl|done]. unfold same_merges in Hml. intros m. rewrite Hml. apply Hm.
  - destruct Hos as (Hip & Hos). exists n. destruct (Hmwp (ambulkdelete ctid_field rows ip dead;; amvacuumcleanup be) (fun _ ix' => index_ok ctid_field rows n ix' /\ all_rows ctid_field ix' ≡ₚ filter (fun c => dead c = false) (all_rows ctid_field ix) /\ (merge_list ix').*1 ⊆ merges)) as (ix' & Hrun & Hok' & Hrows & Hml).
    { apply mwp_bind. eapply mwp_mono; [apply (bulkdelete_spec ctid_field rows dead n ix ip Hok Hn); apply Forall_forall; intros m Hmm; by apply (proj1 (Forall_forall _ _) Hip), Hm, list_elem_of_fmap_2|]. intros [] ix1 (Hok1 & Hr1 & Hml1).
      eapply mwp_mono; [apply (do_merge_spec ctid_field rows generate_random random_new cat numeric_to_f64 f32_text_to_f64 uuid_text parse_inet ymd_days from_json bound_try_from bound_json categorized_fields work_mem ctid_apart key_exists target_segment_count foreground background be target_positive rows_positive Hheap n); [done|lia]|].
      intros [] ix2 (Hok2 & Hr2 & Hml2). split; [done|]. split; [by rewrite Hr2|]. unfold same_merges in Hml2. rewrite Hml1 in Hml2. apply Permutation_nil_r in Hml2. rewrite Hml2. set_solver. }
    exists ix'. split_and!; [done|done|lia|lia|done|by rewrite Hrows, Hl|done].
  - exists n. destruct (Hmwp (background_merge be) _ (background_merge_spec ctid_field rows generate_random random_new cat numeric_to_f64 f32_text_to_f64 uuid_text parse_inet ymd_days from_json bound_try_from bound_json categorized_fields work_mem ctid_apart key_exists
      target_segment_count foreground background be target_positive rows_positive Hheap n ix Hok ltac:(lia))) as (ix' & Hrun & Hok' & Hrows & Hml).
    exists ix'. split_and!; [done|done|lia|lia| |by rewrite Hrows|done]. unfold same_merges in Hml. intros m. rewrite Hml. apply Hm.
Qed.

(** C22: Through any history of statements that insert rows, of vacuums and of background merges, each
    ends without panic, and a search with a new snapshot then finds exactly the rows that were
    inserted and not deleted since: whether they went to a mutable segment, filled one, or were
    written by an index writer in as many segments as its memory asks for, however many of them
    earlier vacuums had deleted, and whatever segments were merged and collected meanwhile, by the
    statements and vacuums themselves or in the background, with any layer sizes, running merges,
    vacuum list and cleanup locks.  This holds of an index whose segments have documents
    and files and whose option [mutable_segment_rows] is not changed (its mutable
    segments that take rows have not been merged away), for rows that can be converted (their key is
    not NULL), heap pointers that are not in the index yet, fewer than 2^31 rows in all, and no
    merge that is running when a vacuum starts; tantivy can write and merge segments. *)
Theorem writes_refine (os : list write) n (ix : Index) l : index_ok ctid_field rows n ix -> 0 <= n < 2 ^ 31 -> contents ctid_field rows ix = Some l -> writes_ok (merge_list ix).*1 n l os ->
  exists ix' l', run_writes os ix = (Ok tt, ix') /\ contents ctid_field rows ix' = Some l' /\ l' ≡ₚ foldl spec_write l os.
Proof.
  intros Hok Hn Hl Hos. rewrite (contents_rows ctid_field rows n ix Hok ltac:(lia)) in Hl. injection Hl as Hl. assert (all_rows ctid_field ix ≡ₚ l) as Hp by (by rewrite Hl). clear Hl.
  assert ((merge_list ix).*1 ⊆ (merge_list ix).*1) as Hm by done. revert Hm Hos. generalize (merge_list ix).*1 at 2 3. intros merges. revert n ix l Hok Hn Hp. induction os as [|o os IH]; intros n ix l Hok Hn Hp Hm Hos.
  - exists ix, (all_rows ctid_field ix). split; [done|]. split; [by apply (contents_rows ctid_field rows n); [|lia]|done].
  - destruct (run_write_spec o n ix l merges os Hok Hn Hm Hp Hos) as (n' & ix' & Hrun & Hok' & Hn' & Hm' & Hp' & Hos'). destruct (IH n' ix' (spec_write l o) Hok' Hn' Hp' Hm' Hos') as (ix'' & l'' & Hr'' & Hc'' & Hpp).
    exists ix'', l''. split; [|done]. cbn [run_writes]. by rewrite (bind_ok _ _ _ _ _ Hrun).
Qed.

End history.

(** ** A small index *)

(** Logs as lists by number. *)
#[local, program] Instance small_logs : ItemList (gmap Z (list MutableSegmentEntry)) MutableSegmentEntry := {|
  il_ok hb st := is_Some (st !! hb);
  il_list hb st := default [] (st !! hb);
  il_add_items hb es st := alter (fun l => l ++ es) hb st;
|}.
Next Obligation. intros hb es st [l Hl]. cbn. rewrite lookup_alter_eq, Hl. by eexists. Qed.
Next Obligation. intros hb es st [l Hl]. cbn. by rewrite lookup_alter_eq, Hl. Qed.

#[local, program] Instance small_log_store : LogStore (gmap Z (list MutableSegmentEntry)) MutableSegmentEntry := {|
  il_create st := let hb := fresh (dom st) in (hb, <[hb := []]> st);
|}.
Next Obligation. intros st [l Hl]. apply (is_fresh (dom st)). by eapply elem_of_dom_2. Qed.
Next Obligation. intros st. cbn. rewrite lookup_insert_eq. split; [by eexists|done]. Qed.
Next Obligation. intros st hb [l Hl]. cbn. rewrite lookup_insert_ne; [by rewrite Hl; split; [eexists|]|]. intros <-. apply (is_fresh (dom st)). by eapply elem_of_dom_2. Qed.
Next Obligation. intros st hb hb' es [l Hl] Hne. cbn. rewrite lookup_alter_ne by done. rewrite Hl. by split; [eexists|]. Qed.

(** Segments and delete files by number. *)
Definition small_files : Type := gmap Z (list Document) * gmap Z (gset Z).

#[local] Instance small_tantivy : Tantivy small_files := {|
  docs_of f id := default [] (f.1 !! id);
  deletes_of f x := default ∅ (f.2 !! starting_block x);
  mem_usage_of docs := 8000000 * Z.of_nat (length docs);
  write_segment id docs f := ({[Postings := (mkFile 0 (100 * Z.of_nat (length docs)), EmptyString)]}, (<[id := docs]> f.1, f.2));
  advance_deletes id old ops t f :=
    let before := from_option (fun x => default ∅ (f.2 !! starting_block x)) ∅ old in
    let after := before ∪ list_to_set (op_doc_id <$> filter (fun o => op_opstamp o < t) ops) in
    if decide (after = before) then (None, f) else let b := fresh (dom f.2) in (Some (mkFile b 0, EmptyString), (f.1, <[b := after]> f.2));
  merge_documents id sources f :=
    let docs := live_docs sources in
    if decide (docs = []) then (None, f) else (Some {[Postings := (mkFile 0 (100 * Z.of_nat (length docs)), EmptyString)]}, (<[id := docs]> f.1, f.2));
|}.

#[local, program] Instance small_tantivy_laws : TantivyFiles small_files := {| file_known f x := is_Some (f.2 !! starting_block x) |}.
Next Obligation. intros id docs f. cbn. by rewrite lookup_insert_eq. Qed.
Next Obligation. intros id docs f id' Hne. cbn. by rewrite lookup_insert_ne by done. Qed.
Next Obligation. done. Qed.
Next Obligation. intros id docs f. by vm_compute. Qed.
Next Obligation. intros id old ops t f id'. cbn. by case_decide. Qed.
Next Obligation.
  intros id old ops t f x Hx. cbn. case_decide; [done|]. cbn. rewrite lookup_insert_ne; [done|]. intros Heq. apply (is_fresh (dom f.2)). rewrite Heq. by apply elem_of_dom.
Qed.
Next Obligation.
  intros id old ops t f x p f'. cbn. case_decide; [done|]. intros [= <- <- <-]. cbn. rewrite lookup_insert_eq. split; [by eexists|]. intros d. cbn. rewrite elem_of_union, elem_of_list_to_set, list_elem_of_fmap.
  f_equiv. split; intros (o & Ho); exists o; rewrite list_elem_of_filter in *; naive_solver.
Qed.
Next Obligation.
  intros id old ops t f f'. cbn. case_decide as Heq; [|done]. intros _ o Ho Ht. rewrite <- Heq. apply elem_of_union. right. apply elem_of_list_to_set, list_elem_of_fmap. exists o. split; [done|]. by apply list_elem_of_filter.
Qed.
Next Obligation. intros id docs f. by eexists. Qed.
Next Obligation. intros id sources f Hd. cbn. by rewrite decide_True. Qed.
Next Obligation. intros id sources f Hd. cbn. rewrite decide_False by done. split; [|cbn; by rewrite lookup_insert_eq]. eexists. split; [done|]. split; [by vm_compute|by eexists]. Qed.
Next Obligation. intros id sources f id' Hne. cbn. case_decide; [done|]. cbn. by rewrite lookup_insert_ne by done. Qed.
Next Obligation. intros id sources f x Hx. cbn. by case_decide. Qed.

Definition small_index : Index (gmap Z (list MutableSegmentEntry)) small_files := mkIndex [] ∅ (∅, ∅) [] [] 0 [].

(** An id that is not among these. *)
Definition small_random (ids : list Z) : Z := fresh ({[0]} ∪ list_to_set ids : gset Z).

Lemma small_random_new ids : small_random ids ∉ ids /\ small_random ids <> 0.
Proof.
  pose proof (is_fresh ({[0]} ∪ list_to_set ids : gset Z)) as Hf. fold (small_random ids) in Hf. rewrite elem_of_union, elem_of_singleton, elem_of_list_to_set in Hf. tauto.
Qed.

Definition small_catalog : Catalog := mkCatalog (fun _ => false) id (fun _ => Invalid) (fun _ => false) (fun _ => false).

(** One column, the key. *)
Definition small_fields : list CategorizedField := [(1, O, mkCategorized (BuiltIn INT8OID) true false false)].
Definition small_row (ctid : Z) : list (option (Datum Z Z)) * Z := ([Some (DInt8 ctid)], ctid).

(** The heap has the rows that were inserted, and all locks are granted. *)
Definition small_backend : Backend (gmap Z (list MutableSegmentEntry)) small_files (list (option (Datum Z Z))) :=
  mkBackend 71 8 5 false (fun _ _ => true) (fun ctid => Some (small_row ctid).1).

(** Seven rows, of which three fill a mutable segment and the others are written in pairs; two die;
    another row is added, and one of the first dies.  A background merge follows. *)
Definition small_writes : list (write (St := gmap Z (list MutableSegmentEntry)) (F := small_files) (Num := Z) (Elem := Z)) :=
  [InsertRows small_backend (small_row <$> [11; 12; 13; 14; 15; 16; 17]); VacuumRows small_backend (fun _ => false) (fun c => (c =? 12) || (c =? 15));
   InsertRows small_backend [small_row 18]; VacuumRows small_backend (fun _ => false) (fun c => c =? 11); MergeRows small_backend].

(** One segment is wanted, with layers of 100 and of 1000 bytes. *)
Abbreviation small_run rows os := (run_writes 0 rows small_random small_catalog (fun _ => None) Some Some (fun _ => None) (fun _ _ _ => None) (fun _ => Object []) Some I64 small_fields 1000 1 [100; 200] [] os).

Lemma small_heap_ok : heap_ok small_catalog (fun _ => None) Some Some (fun _ => None) (fun _ _ _ => None) (fun _ => Object []) Some I64 small_fields small_backend.
Proof. intros ctid row [= <-]. by eexists. Qed.

(** In the history the pairs are merged by the statement, and the mutable segment in the background. *)
Lemma writes_refine_witness : exists ix' l', small_run (Some 3) small_writes small_index = (Ok tt, ix') /\ contents 0 (Some 3) ix' = Some l' /\ l' ≡ₚ [13; 14; 16; 17; 18] /\
  (fun e => (segment_id e, max_doc e, is_mutable e)) <$> metas (small_run (Some 3) small_writes small_index).2 = [(4, 4, false); (5, 2, false)].
Proof.
  destruct (writes_refine 0 (Some 3) small_random small_random_new small_catalog (fun _ => None) Some Some (fun _ => None) (fun _ _ _ => None) (fun _ => Object []) Some I64 small_fields 1000
    ltac:(repeat constructor; done) ltac:(eexists; split; [left|reflexivity]) 1 [100; 200] [] ltac:(lia) ltac:(intros limit [= <-]; lia) small_writes 0 small_index []) as (ix' & l' & Hrun & Hc & Hl).
  - split; first [by intros e ?%elem_of_nil|by intros _ e ?%elem_of_nil|by apply NoDup_nil_2|done].
  - lia.
  - reflexivity.
  - repeat split; try exact small_heap_ok; try (repeat constructor; eexists; vm_compute; reflexivity); try (vm_compute; reflexivity); try (apply (bool_decide_unpack _); vm_compute; exact I).
    + intros c _. apply not_elem_of_nil.
    + intros c Hc. apply list_elem_of_singleton in Hc as ->. apply (bool_decide_unpack _). vm_compute. exact I.
  - exists ix', l'. split; [exact Hrun|]. split; [exact Hc|]. split; [exact Hl|]. vm_compute. reflexivity.
Defined.

(** A mutable segment that still takes rows can be merged while the option [mutable_segment_rows] is
    not set.  When it is set again before the segment is collected, rows are added to it, and no
    search finds them: [insertcleanup_mutable] does not ask whether the segment was deleted. *)
Theorem rows_lost_in_merged_segment :
  let e := new_mutable 7 0 InvalidTransactionId (mkMutable 5 0 false) in
  let merged := mkIndex [set_xmax FrozenTransactionId e] {[5 := []]} ((∅, ∅) : small_files) [] [] 0 [] in
  let r := small_run (Some 100) [InsertRows small_backend [small_row 11]] merged in
  is_mergeable None e = true /\ r.1 = Ok tt /\ contents 0 (Some 100) r.2 = Some [] /\ il_list 5 (logs r.2) = [Add 11].
Proof. split; [done|]. split; [|split]; vm_compute; reflexivity. Qed.

(** A vacuum that deletes rows of mutable segments only does not count as one that deletes: the
    epoch stays, and with it the wait for concurrent scans that goes with its increment is left out. *)
Theorem mutable_deletes_uncounted :
  let r := small_run (Some 100) [InsertRows small_backend [small_row 11; small_row 12]; VacuumRows small_backend (fun _ => false) (fun c => c =? 11)] small_index in
  r.1 = Ok tt /\ contents 0 (Some 100) r.2 = Some [12] /\ ambulkdelete_epoch r.2 = 0.
Proof. split; [|split]; vm_compute; reflexivity. Qed.
